(* ===== verification/_CoqProject ===== *)
-Q . S2P
Prelude.v
Errors.v
ErrorMessages.v
RustStr.v
Resource.v
Ledger.v
ChargeSlots.v
HttpRequest.v
ResponseFraming.v
Endpoint.v
RustNet.v
UpstreamPolicy.v
Snapshot.v
HttpForwarding.v
Connection.v
CoreRuntime.v
Drain.v
Health.v
Selector.v
RuntimeCommands.v
ResponseSanitizer.v
ConfigParser.v
ConfigDraft.v
ConfigRender.v
ConfigRoundtrip.v
ConfigValidation.v
ConfigServing.v
ConfigStore.v
ConfigLifecycle.v
AdminConfig.v
ConfigChange.v
StartupProofs.v
StoreFaults.v
AuditModel.v
AuditCodec.v
AuditLedger.v
AuditScan.v
AuditRecovery.v
AuditInvariant.v
AuditOperations.v
AuditTrail.v
AuditRetention.v
AuditSample.v
AuditDurability.v
AuditStartup.v
AuditChain.v
AdminHttp.v
AdminSession.v
AdminDecode.v
AdminServer.v
AdminSafety.v
AdminTrail.v
Certificates.v
CertificateFiles.v
CertificateProofs.v
CertificateRoundtrip.v
CertificateFaults.v
BackupModel.v
BackupArchive.v
BackupUse.v
BackupRoundtrip.v
RestoreFiles.v
RestoreUse.v
RestoreProofs.v
RestoreRecovery.v
TrustBundles.v
TrustProofs.v
