(* ===== verification/Prelude.v ===== *)
(** * Sponzey Edge Proxy: a verification library

    The program is a reverse proxy in Rust (crates/ and apps/edge-proxy): a single-threaded
    event loop accepts connections, reads an HTTP/1.1 request, selects a route and an upstream,
    forwards the request, relays the response, and keeps every byte it buffers within a budget;
    around it a supervisor probes upstreams, a drain tracker follows connections over
    configuration changes, and an admin process edits the configuration.  This library models
    the pure and stateful core of it: the domain crate, the components of edge-core the event
    loop is built from, and the supervision and configuration parts of edge-application.

    ** Files

    - Prelude.v: [result] with the two [?] notations, machine integers as [N] with their bounds
      and checked, saturating and wrapping operations, byte lists, the [Allocator] class for
      fallible allocation, tactics and shared lemmas.
    - Errors.v: [ErrorCode], [AppError], [ValidationError]; ErrorMessages.v: the messages shown to
      users (edge-domain lib.rs).
    - RustStr.v: the functions of Rust's [str] and [u8] the sources use, over byte lists
      (UTF-8 validity, trimming by character, splitting, number parsing and printing).
    - Resource.v: resource and time-out policies and connection admission (edge-domain lib.rs,
      resource_limits.rs, resource_admission_policy.rs of edge-core).
    - Ledger.v: the payload budget ledger (payload_budget_ledger.rs).
    - ChargeSlots.v: the charges of one connection: the slot, request, TLS, client-response and
      retry-pair functions (five files of edge-core) and [ConnectionPayloadCharges] (lib.rs).
    - HttpRequest.v: the request parser and the read buffer (http_request.rs).
    - ResponseFraming.v: the response framing machine (upstream_response_framing.rs).
    - Endpoint.v: upstream URLs, names and TLS policies (edge-domain lib.rs).
    - UpstreamPolicy.v: health, retry, passive health, eligibility, round robin (same file).
    - Snapshot.v: routes, matches, the configuration snapshot, route actions, certificate
      selection, the data-directory lock (same file, http_route_action.rs, tls_handshake.rs).
    - HttpForwarding.v: header projection and the bytes sent upstream
      (http_forwarding_policy.rs and the request builder of edge-core lib.rs).
    - Connection.v: the connection state table, time-outs, attempt tracker, write buffer and
      buffered connection (connection_state.rs, upstream_attempt.rs, write_buffer.rs,
      connection_io.rs), and the read-interest rule.
    - CoreRuntime.v: tokens, timers, queues, connection table, TLS registries, [CoreRuntime].
    - Drain.v: [UpstreamDrainTracker] (edge-application drain.rs).
    - Health.v: [HealthSupervisor] and [PassiveHealthSupervisor] (health.rs,
      passive_health.rs).
    - Selector.v: [RuntimeUpstreamSelector] and the event tokens (module snapshot_http of
      edge-core lib.rs).
    - RuntimeCommands.v: the command handlers and the command loop of the same module.
    - ResponseSanitizer.v: the response header sanitizer (http_forwarding_policy.rs) and the
      responses the proxy writes itself (edge-core lib.rs).
    - RustNet.v: the socket-address syntax of Rust's standard library.
    - ConfigParser.v: the configuration text (mvp_config_parser.rs, config_scalar_parser.rs,
      failure_policy_normalization.rs of edge-application); ConfigDraft.v: the invariant of the
      draft and the type of the result; ConfigRender.v: the canonical text
      (config_rendering.rs); ConfigRoundtrip.v: reading back what was written.
    - ConfigValidation.v: every rule of config_validation.rs; ConfigServing.v: what a valid
      configuration means for the runtime selector.
    - ConfigStore.v: the repository of revisions (port, adapter in memory, adapter in files over
      a fallible file system); ConfigLifecycle.v: planning, applying, rolling back and the choice
      at start-up; AdminConfig.v: proxy hosts and the changes of the admin API; ConfigChange.v,
      StartupProofs.v and StoreFaults.v: their theorems, for every lawful repository and for the
      one in files.
    - AuditModel.v: audit records, their state tables, audited operations, reconciliation and the
      start (audit.rs of edge-domain and edge-application, bootstrap_audit.rs); AuditCodec.v and
      AuditLedger.v: the bytes of a record and the ledger in files (audit_ledger.rs of
      edge-adapters).  AuditScan.v and AuditRecovery.v: what scanning and opening make of the
      bytes of a chain; AuditInvariant.v and AuditRetention.v: appending, rotating and removing
      keep the chain; AuditOperations.v: the laws of a ledger and the theorems of its clients;
      AuditTrail.v: the ledger in files keeps the laws; AuditSample.v: a codec and a digest for
      the examples; AuditDurability.v, AuditStartup.v (run_serve of main.rs) and AuditChain.v:
      what survives, what a start accepts, what digests and pages say.
    - AdminHttp.v: the HTTP and JSON texts of the admin API (http_envelope.rs, error_response.rs,
      admin_json_contract.rs); AdminSession.v: sessions, the decoder of proxy hosts, the reads and
      the dispatch (session_auth.rs, proxy_host_request_decoder.rs, http_dispatch.rs,
      stateful_session_http.rs and the read handlers); AdminServer.v: the changes and the server
      around them (config_mutation_http.rs, proxy_host_mutation_http.rs, admin_http.rs and
      admin_audit.rs of edge-proxy).  AdminDecode.v, AdminSafety.v and AdminTrail.v: their
      theorems, on texts, on who may change what, and on what the trail says of it.
    - Certificates.v: importing, issuing and renewing certificates, the challenges of HTTP-01
      (manual_certificate_import.rs, certificate_import_state.rs, certificate_issuance.rs,
      http01_challenge_state.rs and certificate_status_decision.rs of edge-application);
      CertificateFiles.v: the stores and the table of certificates by host name (edge-adapters
      lib.rs); CertificateProofs.v, CertificateRoundtrip.v and CertificateFaults.v: their theorems.
    - BackupModel.v: the manifest of a backup, its checks and the two state machines
      (backup/model.rs of edge-domain); BackupArchive.v: the bytes of an archive, its writer and
      its reader (backup.rs of edge-adapters); BackupUse.v: creating and verifying (backup.rs of
      edge-application); BackupRoundtrip.v: what was backed up is what is read.
    - RestoreFiles.v: the directories and the journal of a restore (backup.rs of edge-adapters);
      RestoreUse.v: replacing, recovering and restoring anew (backup.rs of edge-application);
      RestoreProofs.v and RestoreRecovery.v: what a replacement and a recovery leave behind.
    - TrustBundles.v: importing, listing and deleting bundles of root certificates (trust.rs of
      edge-application), the check of their material, the metadata text and the store in files
      (lib.rs, file_trust_bundle_store.rs, trust_bundle_metadata_codec.rs and
      trust_bundle_safe_file.rs of edge-adapters); TrustProofs.v: what the store keeps.

    ** How code is modelled

    A struct is a [Record], an enum an [Inductive] type, and an operation one definition with
    the name of the source, prefixed where two structs share a name.  A method on [&mut self]
    returns its result and the state it leaves, also when it fails ([let!] keeps that state).
    [usize] and [u64] are numbers bounded by [USIZE_MAX] and [U64_MAX] with the source's own
    overflow behaviour written out; strings and buffers are byte lists; [BTreeMap] and
    [BTreeSet] are [gmap] and [gset], and where their order is visible the keys are listed in
    order.  Where the source borrows a field and updates it in place, the record is rebuilt.

    Interfaces stand for what a component does not own.  [Allocator] answers
    [Vec::try_reserve]; the framing machine, the request builder and the connection are proved
    for every instance, so for every pattern of allocation failures.  [UpstreamRequestTarget] is
    the source's trait with its two instances.  A TLS session factory (a trait object of
    edge-ports) is an abstract type with its [create_client_session]; the address of a socket
    is an abstract countable type, and asking for it can fail.  The ports of the application
    crate (repository, audit sink, core client, seed, pre-flight checks) are classes; the
    repository has laws that its client theorems use and that the adapter in files discharges.
    So have the audit ledger, which is proved for the writer, reader and verifier of
    [AuditLedgerLaws] and implemented in files, and the parameters under it, serde_json and
    SHA-256: what is relied on is that a text written is read back and that a digest has 32
    bytes.  The audit directory answers every call from a list of outcomes, failures with any
    number of bytes written included, so theorems over all lists are theorems over all faults.
    The document serde_json reads from a request and the store of secrets are parameters of the
    admin API.  Requests that parts of the admin server outside the model answer are steps that
    leave sessions and authenticator alone and are free otherwise.  The certificate store is a
    class with laws that the one in memory keeps; validating material, the ACME protocol and the
    core are parameters.  Of age and SHA-256 a backup relies on the passphrase opening what it
    sealed and on 32 bytes of digest.  In a restore every call of the file system may fail, leaving
    part of a directory it removes, or be the last one of the process; extracting an archive and
    checking what was extracted, the configuration aside, are ports with laws.  The store of trust
    bundles answers its calls from a list of outcomes too; the parsers of PEM texts and of
    certificates are parameters.

    No loop of the model needs fuel chosen by hand except [push_loop] of ResponseFraming.v,
    which is given the length of its input: a turn that does not end the loop consumes at least
    a byte, and [push_loop_run] proves it equal to the structural [run_bytes] with any fuel from
    that length on, so the fuel is always enough, and [scan_frames] of AuditLedger.v, which is
    given the length of a segment: a frame takes 88 bytes at least ([scan_frames_fuel]), and
    [json_strings] of AdminHttp.v, given more than the length of its text ([json_strings_fuel]).
    [print_dec] of RustStr.v uses the number of binary digits, more than the decimal ones.

    ** What the theorems show

    - Requests: accepted requests are well formed and framed by exactly their headers; printing
      and parsing agree; reads may be cut anywhere.  Forwarded bytes parse back to the request,
      with the trusted X-Forwarded fields and no hop-by-hop field.
    - Responses: the framer ends at exactly the last byte of any response and is insensitive to
      the cuts; it is bounded, and refuses truncated or continued responses.
    - Memory: the ledger keeps its books, refines an abstract budget, bounds admission; a
      connection's slots own what they hold and give it all back.
    - Connections: nothing is repeated or reordered between the sockets and only what a response
      of the proxy replaces is lost, retries happen only before a response byte, the state moves
      only along its table.
    - Upstreams: health refines the streak specification, ejection and retries are exact, round
      robin is fair, routing picks the best match, endpoint URLs round trip.
    - Runtime: tokens, timers and TLS registries are exact; drain counts and probes are exact
      over any history; commands take effect as a whole, their TLS part included, or not at all;
      whatever the history, a request gets the eligible upstream whose turn it is, under a
      lease, or none is eligible.
    - Configuration: whatever the text, a parsed configuration is well typed; the canonical text
      reads back; the validator's empty report is equivalent to a declarative definition; a
      valid configuration with unique service names starts and serves every request it routes, as
      long as no health report calls all upstreams of a service unhealthy.
    - Life cycle: a change is made as a whole or not at all, wherever the store, the audit sink
      or the core fails; what was accepted is what a restart finds, as its text reads back; the
      start-up machine is never asked for a transition it lacks; editing a proxy host and
      reading it agree.
    - Audit: a change runs only after its intent is durable and ends with its terminal record or
      with a degraded admission; an acknowledged record survives restarts, rotation, removal of
      old segments aside, and writes cut anywhere, while the ledger is within what a start
      scans; equal digests mean equal records or a collision; following cursors ends within as
      many pages as records and lists every match; a successful start leaves nothing open.
    - Admin API: over any history, the configuration changes only for a request that carries a
      session opened with the password in force and not closed since, every other one leaves the
      whole server as it was; a change that is let through is recorded before and after it.
    - Certificates: an import is done as a whole or undone; every host name is answered with a
      certificate that lists it, or with the default one; every challenge token presented is
      cleared; a saved certificate is loaded as it was saved.
    - Backups: an accepted manifest describes a complete backup within its bounds and inside its
      directory; a backup that was created verifies and yields the source's inventory with every
      payload.
      Replacing a data directory never loses both the previous and the restored data, whatever
      fails; and wherever the process dies, recovery settles on one of the two.
    - Trust bundles: an imported bundle is loaded as it was imported, whatever fails and whatever
      else is imported or deleted, as long as a retained revision refers to it when its deletion
      is asked for.
    - Theorems show where the code does not do what it, or its documentation, says: header
      stripping that enables request smuggling and its response counterpart, a fail-closed latch
      that reopens, a header limit that depends on the cuts, query strings in route matching,
      passive ejection without effect, rejected activations that are announced, probes to
      draining upstreams, duplicate services that pass validation and stop the start, accepted
      proxy hosts that stop the start, revision names that run out, an import that is never
      resumed, a comma that divides core and store, an unreadable store taken for an empty one, an
      interrupted change after which the program never starts again, a ledger that takes more
      records than a start reads, a removal that loses its anchor, sessions that can be counted, a
      lockout that only a restart ends, proxy hosts that saving switches off, rollbacks recorded
      under another name, a failed import that loses the previous certificate, a recovery that
      takes any data directory for the restored one and deletes the previous data, an interrupted
      import of a trust bundle that blocks the listing of all.

    Histories are modelled by lists of operations that are run from the initial state
    ([ledger_run], [charges_run], [io_run], [token_run], [timer_run], [drain_run], [probe_run],
    [runtime_run], [admin_run], [trust_run]); hypotheses of the form [len ops ≤ U64_MAX] exclude
    the wrap of a 64-bit identifier and nothing else.

    ** What is not modelled

    The mio loop with its sockets, deadlines and WebSocket tunnels (module snapshot_http of
    edge-core lib.rs) and the wrappers of TLS sessions: what they decide is in the components
    above, what is left is the order in which an operating system reports readiness and the
    state of a TLS library.  Reading a data directory for a backup, extracting an archive to
    files and the preflights of certificates, secrets, ledger and trust bundles: directory walks
    with modes and links, stood for by the classes of the ports.  The operational upgrade, which
    drives a service manager; metrics, logs and the support bundle, which only report; the
    routes of the admin server that answer with them; the mutexes around the audit ledger, the
    remaining adapters (file, network and process I/O) and the process entry point except its
    audit part.*)

From stdpp Require Import base gmap strings list numbers sorting.
From Stdlib Require Import Strings.Byte NArith Lia.
From Stdlib Require Strings.String.

(** ** Results

    [Result<A, E>] of the source.  The two [let] forms below are the [?]
    operator: on an error the rest of the function is skipped.  [let?] is for
    pure code, [let!] for a method that also updates its [&mut] arguments: the
    state reached when the error was raised is kept, as in Rust. *)
Inductive result (E A : Type) : Type :=
| Ok (a : A)
| Err (e : E).
Arguments Ok {E A} a.
Arguments Err {E A} e.

Declare Scope edge_scope.
Delimit Scope edge_scope with edge.
Open Scope edge_scope.

Notation "'let?' x := m 'in' k" :=
  (match m with Ok x => k | Err e => Err e end)
  (at level 10, x pattern, m at level 100, k at level 200,
   format "'[v' 'let?'  x  :=  m  'in' '/' k ']'") : edge_scope.

Notation "'let!' x , s := m 'in' k" :=
  (match m with (Ok x, s) => k | (Err e, s) => (Err e, s) end)
  (at level 10, x pattern, s pattern, m at level 100, k at level 200,
   format "'[v' 'let!'  x ,  s  :=  m  'in' '/' k ']'") : edge_scope.

Definition ok_or {E A} (o : option A) (e : E) : result E A :=
  match o with Some a => Ok a | None => Err e end.

Definition is_ok {E A} (r : result E A) : bool :=
  match r with Ok _ => true | Err _ => false end.

(** ** Machine integers

    Unsigned integers of the source are numbers [N] kept below their width's
    bound; the operations below are the ones the source calls.  [usize] is 64
    bits wide: the supported platform is Linux amd64. *)
Definition U8_MAX : N := 255.
Definition U16_MAX : N := 65535.
Definition U32_MAX : N := 4294967295.
Definition U64_MAX : N := 18446744073709551615.
Definition USIZE_MAX : N := U64_MAX.

(** [checked_add], [checked_sub] and [checked_mul] on a type of bound [mx]. *)
Definition checked_add (mx a b : N) : option N :=
  if (a + b <=? mx)%N then Some (a + b)%N else None.
Definition checked_sub (a b : N) : option N :=
  if (b <=? a)%N then Some (a - b)%N else None.
Definition checked_mul (mx a b : N) : option N :=
  if (a * b <=? mx)%N then Some (a * b)%N else None.
Definition saturating_add (mx a b : N) : N := N.min mx (a + b).
Definition saturating_sub (a b : N) : N := a - b.
Definition wrapping_add (mx a b : N) : N := (a + b) mod (mx + 1).
Definition wrapping_mul (mx a b : N) : N := (a * b) mod (mx + 1).

(** Length of a vector, slice or string as a [usize]. *)
Definition len {A} (l : list A) : N := N.of_nat (length l).

(** ** Bytes *)
#[global] Instance byte_eq_decision : EqDecision byte := Byte.byte_eq_dec.
#[global] Instance byte_countable : Countable byte :=
  inj_countable Byte.to_N Byte.of_N Byte.of_to_N.
#[global] Instance byte_inhabited : Inhabited byte := populate x00.

(** The bytes of a string literal. *)
Definition lit (s : string) : list byte := String.list_byte_of_string s.

(** ** Memory

    [Vec::try_reserve] can fail.  [try_reserve bytes n w]: is there room for [n] bytes more
    after [bytes] (spare capacity included), and the allocator's state after the call.  Code
    that allocates this way is modelled over any instance, so its theorems hold for every
    pattern of allocation failures. *)
Class Allocator (W : Type) := try_reserve : list byte → N → W → bool * W.

Definition reserve_one `{Allocator W} (bytes : list byte) (w : W) : bool * W :=
  try_reserve bytes 1 w.

(** An allocator that never fails. *)
Definition ample_memory : Allocator unit := λ _ _ w, (true, w).

(** ** Tactics

    [step_match] splits on the match or conditional the goal or a hypothesis is
    stuck on; [simpl_result] removes the impossible branches and substitutes. *)
Ltac simpl_result :=
  repeat match goal with
  | H : Ok _ = Ok _ |- _ => injection H as H; subst
  | H : Err _ = Err _ |- _ => injection H as H; subst
  | H : Ok _ = Err _ |- _ => discriminate H
  | H : Err _ = Ok _ |- _ => discriminate H
  | H : (_, _) = (_, _) |- _ => injection H as H; subst
  | H : Some _ = Some _ |- _ => injection H as H; subst
  | H : Some _ = None |- _ => discriminate H
  | H : None = Some _ |- _ => discriminate H
  end; simplify_eq/=.

Ltac step_match := case_match; simpl_result; try done.

Ltac nbool :=
  repeat match goal with
  | H : (_ <=? _)%N = true |- _ => apply N.leb_le in H
  | H : (_ <=? _)%N = false |- _ => apply N.leb_gt in H
  | H : (_ <? _)%N = true |- _ => apply N.ltb_lt in H
  | H : (_ <? _)%N = false |- _ => apply N.ltb_ge in H
  | H : (_ =? _)%N = true |- _ => apply N.eqb_eq in H
  | H : (_ =? _)%N = false |- _ => apply N.eqb_neq in H
  | H : (_ && _) = true |- _ => apply andb_true_iff in H as [? ?]
  | H : (_ || _) = false |- _ => apply orb_false_iff in H as [? ?]
  | H : negb _ = true |- _ => apply negb_true_iff in H
  | H : negb _ = false |- _ => apply negb_false_iff in H
  end.

(** Linear arithmetic with division and remainder by constants. *)
Ltac div_lia := zify; Z.to_euclidean_division_equations; lia.

(** ** Shared lemmas *)
Create HintDb edge.
Create Rewrite HintDb edge_len.

Lemma checked_add_Some mx a b c :
  checked_add mx a b = Some c ↔ (c = a + b ∧ a + b ≤ mx)%N.
Proof. unfold checked_add. destruct (N.leb_spec (a + b) mx); split; intuition (simplify_eq; lia || done). Qed.

Lemma checked_sub_Some a b c : checked_sub a b = Some c ↔ (a = c + b)%N.
Proof.
  unfold checked_sub. destruct (N.leb_spec b a); split; intros; simplify_eq; try lia.
  f_equal. lia.
Qed.

Lemma checked_mul_Some mx a b c :
  checked_mul mx a b = Some c ↔ (c = a * b ∧ a * b ≤ mx)%N.
Proof. unfold checked_mul. destruct (N.leb_spec (a * b) mx); split; intuition (simplify_eq; lia || done). Qed.

Lemma len_nil {A} : len (@nil A) = 0%N.
Proof. done. Qed.

Lemma len_cons {A} (x : A) l : len (x :: l) = (1 + len l)%N.
Proof. unfold len. simpl. lia. Qed.

Lemma len_app {A} (l k : list A) : len (l ++ k) = (len l + len k)%N.
Proof. unfold len. rewrite length_app. lia. Qed.

Lemma len_zero {A} (l : list A) : len l = 0%N → l = [].
Proof. destruct l; [done|]. rewrite len_cons. lia. Qed.

#[export] Hint Rewrite @len_nil @len_cons @len_app : edge_len.

(** Linear arithmetic over lengths. *)
Ltac len_lia := autorewrite with edge_len in *; lia.
