(* ===== verification/Errors.v ===== *)
(** * Errors of the domain crate

    [ErrorCode], [AppError] and [ValidationError] of
    crates/edge-domain/src/lib.rs, the stable string of every code
    ([ErrorCode::as_str]), and a reader of these strings, with which the table is
    shown to be injective. *)

From stdpp Require Import base strings list.
From S2P Require Import Prelude.

Inductive ErrorCode : Set :=
| ConfigAdminBindConflict
| ConfigAdminExternalBindWithoutAuth
| ConfigAcmeChallengeBlockedByRedirect
| ConfigHttp01WithoutHttpListener
| ConfigHttpsRouteCertificateMissing
| ConfigInvalidAcmeEmail
| ConfigInvalidBindAddress
| ConfigHealthCheckInvalidInterval
| ConfigHealthCheckInvalidPath
| ConfigHealthCheckInvalidStatusRange
| ConfigHealthCheckInvalidThreshold
| ConfigInvalidLoadBalancingPolicy
| ConfigInvalidLogMode
| ConfigResourceLimitInvalid
| ConfigRetryPolicyInvalid
| ConfigPassiveHealthPolicyInvalid
| ConfigInvalidUpstreamUrl
| ConfigTrustBundleRefInvalid
| ConfigTrustBundleNotFound
| TrustBundleInvalid
| TrustBundleAlreadyExists
| TrustBundleLimitExceeded
| TrustBundleReferenced
| TrustBundleStoreFailed
| UpstreamTlsUntrusted
| UpstreamTlsIdentityMismatch
| UpstreamTlsProfileInvalid
| ConfigTlsServerNameInvalid
| ConfigUpstreamHttpHostInvalid
| ConfigTlsPolicyInvalid
| ConfigClientAuthPolicyInvalid
| ConfigUpstreamIdDuplicate
| ConfigUpstreamIdRequired
| ConfigListenerDuplicate
| ConfigProductionAcmeRequiresOptIn
| ConfigCurrentRevisionInvalid
| ConfigCurrentRevisionMissing
| ConfigBootstrapSeedInvalid
| ConfigRevisionNotFound
| ConfigRouteDuplicate
| ConfigRouteMatchEmpty
| ConfigRouteMissingService
| ConfigSchemaVersionMissing
| ConfigServiceWithoutUpstream
| ConfigStoreFailed
| ConfigUnsafeUpstreamUrl
| AcmeChallengeFailed
| AcmeTermsNotAccepted
| AdminAuthRequired
| AdminCsrfRequired
| AdminEndpointNotImplemented
| AdminInvalidCredentials
| AdminRouteNotFound
| AdminSetupAlreadyComplete
| AdminSetupRequired
| CertificateExpired
| CertificateInvalid
| CertificateNotFound
| CertificateStoreFailed
| HttpConnectMethodRejected
| HttpHeaderTooLarge
| HttpMalformedRequest
| HttpRequestBodyTooLarge
| HttpRequestLineTooLarge
| HttpTransferEncodingContentLengthConflict
| SupportBundleBoundsExceeded
| SupportBundleReportInvalid
| RuntimeCommandRejected
| RuntimeHealthUnavailable
| RuntimeUpstreamBadGateway
| RuntimeUpstreamTimeout
| ResourcePayloadCapacityReached
| ResourceAllocationFailed
| ResourceAccountingInvariantFailed
| TlsHandshakeFailed
| TlsHandshakeTimeout
| ProcessCommandInvalid
| ProcessCommandNotImplemented
| DataDirectoryBusy
| DataDirectoryLockFailed
| DataDirectoryLockStateInvalid
| BackupManifestInvalid
| BackupSchemaUnsupported
| BackupLimitExceeded
| BackupSecretInputInvalid
| BackupSourceInvalid
| BackupSourceChanged
| BackupDestinationUnsafe
| BackupDestinationExists
| BackupEncryptionFailed
| BackupWriteFailed
| BackupPublishFailed
| BackupStateTransitionInvalid
| BackupAuthenticationFailed
| BackupFormatInvalid
| BackupDigestMismatch
| BackupPathUnsafe
| RestoreTargetBusy
| RestoreTargetNotEmpty
| RestoreTargetUnsafe
| RestoreStageFailed
| RestoreConfigInvalid
| RestoreCertificateInvalid
| RestoreSecretInvalid
| RestorePreflightFailed
| RestoreCommitFailed
| RestoreRollbackFailed
| RestoreTransactionUnresolved
| RestoreTransactionAmbiguous
| RestorePlatformUnsupported
| RestoreStateTransitionInvalid
| AuditUnavailable
| AuditMutationBlocked
| AuditRecordInvalid
| AuditRecordTooLarge
| AuditCapacityReached
| AuditSequenceInvalid
| AuditChainMismatch
| AuditInteriorCorruption
| AuditTrailingFrameIncomplete
| AuditUnsupportedVersion
| AuditAppendFailed
| AuditSyncFailed
| AuditCursorInvalid
| AuditReconciliationUnknown
| InternalBug.

(** Every code, in declaration order. *)
Definition all_codes : list ErrorCode :=
  [ConfigAdminBindConflict;
   ConfigAdminExternalBindWithoutAuth;
   ConfigAcmeChallengeBlockedByRedirect;
   ConfigHttp01WithoutHttpListener;
   ConfigHttpsRouteCertificateMissing;
   ConfigInvalidAcmeEmail;
   ConfigInvalidBindAddress;
   ConfigHealthCheckInvalidInterval;
   ConfigHealthCheckInvalidPath;
   ConfigHealthCheckInvalidStatusRange;
   ConfigHealthCheckInvalidThreshold;
   ConfigInvalidLoadBalancingPolicy;
   ConfigInvalidLogMode;
   ConfigResourceLimitInvalid;
   ConfigRetryPolicyInvalid;
   ConfigPassiveHealthPolicyInvalid;
   ConfigInvalidUpstreamUrl;
   ConfigTrustBundleRefInvalid;
   ConfigTrustBundleNotFound;
   TrustBundleInvalid;
   TrustBundleAlreadyExists;
   TrustBundleLimitExceeded;
   TrustBundleReferenced;
   TrustBundleStoreFailed;
   UpstreamTlsUntrusted;
   UpstreamTlsIdentityMismatch;
   UpstreamTlsProfileInvalid;
   ConfigTlsServerNameInvalid;
   ConfigUpstreamHttpHostInvalid;
   ConfigTlsPolicyInvalid;
   ConfigClientAuthPolicyInvalid;
   ConfigUpstreamIdDuplicate;
   ConfigUpstreamIdRequired;
   ConfigListenerDuplicate;
   ConfigProductionAcmeRequiresOptIn;
   ConfigCurrentRevisionInvalid;
   ConfigCurrentRevisionMissing;
   ConfigBootstrapSeedInvalid;
   ConfigRevisionNotFound;
   ConfigRouteDuplicate;
   ConfigRouteMatchEmpty;
   ConfigRouteMissingService;
   ConfigSchemaVersionMissing;
   ConfigServiceWithoutUpstream;
   ConfigStoreFailed;
   ConfigUnsafeUpstreamUrl;
   AcmeChallengeFailed;
   AcmeTermsNotAccepted;
   AdminAuthRequired;
   AdminCsrfRequired;
   AdminEndpointNotImplemented;
   AdminInvalidCredentials;
   AdminRouteNotFound;
   AdminSetupAlreadyComplete;
   AdminSetupRequired;
   CertificateExpired;
   CertificateInvalid;
   CertificateNotFound;
   CertificateStoreFailed;
   HttpConnectMethodRejected;
   HttpHeaderTooLarge;
   HttpMalformedRequest;
   HttpRequestBodyTooLarge;
   HttpRequestLineTooLarge;
   HttpTransferEncodingContentLengthConflict;
   SupportBundleBoundsExceeded;
   SupportBundleReportInvalid;
   RuntimeCommandRejected;
   RuntimeHealthUnavailable;
   RuntimeUpstreamBadGateway;
   RuntimeUpstreamTimeout;
   ResourcePayloadCapacityReached;
   ResourceAllocationFailed;
   ResourceAccountingInvariantFailed;
   TlsHandshakeFailed;
   TlsHandshakeTimeout;
   ProcessCommandInvalid;
   ProcessCommandNotImplemented;
   DataDirectoryBusy;
   DataDirectoryLockFailed;
   DataDirectoryLockStateInvalid;
   BackupManifestInvalid;
   BackupSchemaUnsupported;
   BackupLimitExceeded;
   BackupSecretInputInvalid;
   BackupSourceInvalid;
   BackupSourceChanged;
   BackupDestinationUnsafe;
   BackupDestinationExists;
   BackupEncryptionFailed;
   BackupWriteFailed;
   BackupPublishFailed;
   BackupStateTransitionInvalid;
   BackupAuthenticationFailed;
   BackupFormatInvalid;
   BackupDigestMismatch;
   BackupPathUnsafe;
   RestoreTargetBusy;
   RestoreTargetNotEmpty;
   RestoreTargetUnsafe;
   RestoreStageFailed;
   RestoreConfigInvalid;
   RestoreCertificateInvalid;
   RestoreSecretInvalid;
   RestorePreflightFailed;
   RestoreCommitFailed;
   RestoreRollbackFailed;
   RestoreTransactionUnresolved;
   RestoreTransactionAmbiguous;
   RestorePlatformUnsupported;
   RestoreStateTransitionInvalid;
   AuditUnavailable;
   AuditMutationBlocked;
   AuditRecordInvalid;
   AuditRecordTooLarge;
   AuditCapacityReached;
   AuditSequenceInvalid;
   AuditChainMismatch;
   AuditInteriorCorruption;
   AuditTrailingFrameIncomplete;
   AuditUnsupportedVersion;
   AuditAppendFailed;
   AuditSyncFailed;
   AuditCursorInvalid;
   AuditReconciliationUnknown;
   InternalBug].

(** The stable identifier of a code: [ErrorCode::as_str]. *)
Definition ErrorCode_as_str (c : ErrorCode) : string :=
  match c with
  | ConfigAdminBindConflict => "CONFIG_ADMIN_BIND_CONFLICT"
  | ConfigAdminExternalBindWithoutAuth => "CONFIG_ADMIN_EXTERNAL_BIND_WITHOUT_AUTH"
  | ConfigAcmeChallengeBlockedByRedirect => "CONFIG_ACME_CHALLENGE_BLOCKED_BY_REDIRECT"
  | ConfigHttp01WithoutHttpListener => "CONFIG_HTTP01_WITHOUT_HTTP_LISTENER"
  | ConfigHttpsRouteCertificateMissing => "CONFIG_HTTPS_ROUTE_CERTIFICATE_MISSING"
  | ConfigInvalidAcmeEmail => "CONFIG_INVALID_ACME_EMAIL"
  | ConfigInvalidBindAddress => "CONFIG_INVALID_BIND_ADDRESS"
  | ConfigHealthCheckInvalidInterval => "CONFIG_HEALTH_CHECK_INVALID_INTERVAL"
  | ConfigHealthCheckInvalidPath => "CONFIG_HEALTH_CHECK_INVALID_PATH"
  | ConfigHealthCheckInvalidStatusRange => "CONFIG_HEALTH_CHECK_INVALID_STATUS_RANGE"
  | ConfigHealthCheckInvalidThreshold => "CONFIG_HEALTH_CHECK_INVALID_THRESHOLD"
  | ConfigInvalidLoadBalancingPolicy => "CONFIG_INVALID_LOAD_BALANCING_POLICY"
  | ConfigInvalidLogMode => "CONFIG_INVALID_LOG_MODE"
  | ConfigResourceLimitInvalid => "CONFIG_RESOURCE_LIMIT_INVALID"
  | ConfigRetryPolicyInvalid => "CONFIG_RETRY_POLICY_INVALID"
  | ConfigPassiveHealthPolicyInvalid => "CONFIG_PASSIVE_HEALTH_POLICY_INVALID"
  | ConfigInvalidUpstreamUrl => "CONFIG_INVALID_UPSTREAM_URL"
  | ConfigTrustBundleRefInvalid => "CONFIG_TRUST_BUNDLE_REF_INVALID"
  | ConfigTrustBundleNotFound => "CONFIG_TRUST_BUNDLE_NOT_FOUND"
  | TrustBundleInvalid => "TRUST_BUNDLE_INVALID"
  | TrustBundleAlreadyExists => "TRUST_BUNDLE_ALREADY_EXISTS"
  | TrustBundleLimitExceeded => "TRUST_BUNDLE_LIMIT_EXCEEDED"
  | TrustBundleReferenced => "TRUST_BUNDLE_REFERENCED"
  | TrustBundleStoreFailed => "TRUST_BUNDLE_STORE_FAILED"
  | UpstreamTlsUntrusted => "UPSTREAM_TLS_UNTRUSTED"
  | UpstreamTlsIdentityMismatch => "UPSTREAM_TLS_IDENTITY_MISMATCH"
  | UpstreamTlsProfileInvalid => "UPSTREAM_TLS_PROFILE_INVALID"
  | ConfigTlsServerNameInvalid => "CONFIG_TLS_SERVER_NAME_INVALID"
  | ConfigUpstreamHttpHostInvalid => "CONFIG_UPSTREAM_HTTP_HOST_INVALID"
  | ConfigTlsPolicyInvalid => "CONFIG_TLS_POLICY_INVALID"
  | ConfigClientAuthPolicyInvalid => "CONFIG_CLIENT_AUTH_POLICY_INVALID"
  | ConfigUpstreamIdDuplicate => "CONFIG_UPSTREAM_ID_DUPLICATE"
  | ConfigUpstreamIdRequired => "CONFIG_UPSTREAM_ID_REQUIRED"
  | ConfigListenerDuplicate => "CONFIG_LISTENER_DUPLICATE"
  | ConfigProductionAcmeRequiresOptIn => "CONFIG_PRODUCTION_ACME_REQUIRES_OPT_IN"
  | ConfigCurrentRevisionInvalid => "CONFIG_CURRENT_REVISION_INVALID"
  | ConfigCurrentRevisionMissing => "CONFIG_CURRENT_REVISION_MISSING"
  | ConfigBootstrapSeedInvalid => "CONFIG_BOOTSTRAP_SEED_INVALID"
  | ConfigRevisionNotFound => "CONFIG_REVISION_NOT_FOUND"
  | ConfigRouteDuplicate => "CONFIG_ROUTE_DUPLICATE"
  | ConfigRouteMatchEmpty => "CONFIG_ROUTE_MATCH_EMPTY"
  | ConfigRouteMissingService => "CONFIG_ROUTE_MISSING_SERVICE"
  | ConfigSchemaVersionMissing => "CONFIG_SCHEMA_VERSION_MISSING"
  | ConfigServiceWithoutUpstream => "CONFIG_SERVICE_WITHOUT_UPSTREAM"
  | ConfigStoreFailed => "CONFIG_STORE_FAILED"
  | ConfigUnsafeUpstreamUrl => "CONFIG_UNSAFE_UPSTREAM_URL"
  | AcmeChallengeFailed => "ACME_CHALLENGE_FAILED"
  | AcmeTermsNotAccepted => "ACME_TERMS_NOT_ACCEPTED"
  | AdminAuthRequired => "ADMIN_AUTH_REQUIRED"
  | AdminCsrfRequired => "ADMIN_CSRF_REQUIRED"
  | AdminEndpointNotImplemented => "ADMIN_ENDPOINT_NOT_IMPLEMENTED"
  | AdminInvalidCredentials => "ADMIN_INVALID_CREDENTIALS"
  | AdminRouteNotFound => "ADMIN_ROUTE_NOT_FOUND"
  | AdminSetupAlreadyComplete => "ADMIN_SETUP_ALREADY_COMPLETE"
  | AdminSetupRequired => "ADMIN_SETUP_REQUIRED"
  | CertificateExpired => "CERTIFICATE_EXPIRED"
  | CertificateInvalid => "CERTIFICATE_INVALID"
  | CertificateNotFound => "CERTIFICATE_NOT_FOUND"
  | CertificateStoreFailed => "CERTIFICATE_STORE_FAILED"
  | HttpConnectMethodRejected => "HTTP_CONNECT_METHOD_REJECTED"
  | HttpHeaderTooLarge => "HTTP_HEADER_TOO_LARGE"
  | HttpMalformedRequest => "HTTP_MALFORMED_REQUEST"
  | HttpRequestBodyTooLarge => "HTTP_REQUEST_BODY_TOO_LARGE"
  | HttpRequestLineTooLarge => "HTTP_REQUEST_LINE_TOO_LARGE"
  | HttpTransferEncodingContentLengthConflict => "HTTP_TRANSFER_ENCODING_CONTENT_LENGTH_CONFLICT"
  | SupportBundleBoundsExceeded => "SUPPORT_BUNDLE_BOUNDS_EXCEEDED"
  | SupportBundleReportInvalid => "SUPPORT_BUNDLE_REPORT_INVALID"
  | RuntimeCommandRejected => "RUNTIME_COMMAND_REJECTED"
  | RuntimeHealthUnavailable => "RUNTIME_HEALTH_UNAVAILABLE"
  | RuntimeUpstreamBadGateway => "RUNTIME_UPSTREAM_BAD_GATEWAY"
  | RuntimeUpstreamTimeout => "RUNTIME_UPSTREAM_TIMEOUT"
  | ResourcePayloadCapacityReached => "RESOURCE_PAYLOAD_CAPACITY_REACHED"
  | ResourceAllocationFailed => "RESOURCE_ALLOCATION_FAILED"
  | ResourceAccountingInvariantFailed => "RESOURCE_ACCOUNTING_INVARIANT_FAILED"
  | TlsHandshakeFailed => "TLS_HANDSHAKE_FAILED"
  | TlsHandshakeTimeout => "TLS_HANDSHAKE_TIMEOUT"
  | ProcessCommandInvalid => "PROCESS_COMMAND_INVALID"
  | ProcessCommandNotImplemented => "PROCESS_COMMAND_NOT_IMPLEMENTED"
  | DataDirectoryBusy => "DATA_DIRECTORY_BUSY"
  | DataDirectoryLockFailed => "DATA_DIRECTORY_LOCK_FAILED"
  | DataDirectoryLockStateInvalid => "DATA_DIRECTORY_LOCK_STATE_INVALID"
  | BackupManifestInvalid => "BACKUP_MANIFEST_INVALID"
  | BackupSchemaUnsupported => "BACKUP_SCHEMA_UNSUPPORTED"
  | BackupLimitExceeded => "BACKUP_LIMIT_EXCEEDED"
  | BackupSecretInputInvalid => "BACKUP_SECRET_INPUT_INVALID"
  | BackupSourceInvalid => "BACKUP_SOURCE_INVALID"
  | BackupSourceChanged => "BACKUP_SOURCE_CHANGED"
  | BackupDestinationUnsafe => "BACKUP_DESTINATION_UNSAFE"
  | BackupDestinationExists => "BACKUP_DESTINATION_EXISTS"
  | BackupEncryptionFailed => "BACKUP_ENCRYPTION_FAILED"
  | BackupWriteFailed => "BACKUP_WRITE_FAILED"
  | BackupPublishFailed => "BACKUP_PUBLISH_FAILED"
  | BackupStateTransitionInvalid => "BACKUP_STATE_TRANSITION_INVALID"
  | BackupAuthenticationFailed => "BACKUP_AUTHENTICATION_FAILED"
  | BackupFormatInvalid => "BACKUP_FORMAT_INVALID"
  | BackupDigestMismatch => "BACKUP_DIGEST_MISMATCH"
  | BackupPathUnsafe => "BACKUP_PATH_UNSAFE"
  | RestoreTargetBusy => "RESTORE_TARGET_BUSY"
  | RestoreTargetNotEmpty => "RESTORE_TARGET_NOT_EMPTY"
  | RestoreTargetUnsafe => "RESTORE_TARGET_UNSAFE"
  | RestoreStageFailed => "RESTORE_STAGE_FAILED"
  | RestoreConfigInvalid => "RESTORE_CONFIG_INVALID"
  | RestoreCertificateInvalid => "RESTORE_CERTIFICATE_INVALID"
  | RestoreSecretInvalid => "RESTORE_SECRET_INVALID"
  | RestorePreflightFailed => "RESTORE_PREFLIGHT_FAILED"
  | RestoreCommitFailed => "RESTORE_COMMIT_FAILED"
  | RestoreRollbackFailed => "RESTORE_ROLLBACK_FAILED"
  | RestoreTransactionUnresolved => "RESTORE_TRANSACTION_UNRESOLVED"
  | RestoreTransactionAmbiguous => "RESTORE_TRANSACTION_AMBIGUOUS"
  | RestorePlatformUnsupported => "RESTORE_PLATFORM_UNSUPPORTED"
  | RestoreStateTransitionInvalid => "RESTORE_STATE_TRANSITION_INVALID"
  | AuditUnavailable => "AUDIT_UNAVAILABLE"
  | AuditCursorInvalid => "AUDIT_CURSOR_INVALID"
  | AuditMutationBlocked => "AUDIT_MUTATION_BLOCKED"
  | AuditRecordInvalid => "AUDIT_RECORD_INVALID"
  | AuditRecordTooLarge => "AUDIT_RECORD_TOO_LARGE"
  | AuditCapacityReached => "AUDIT_CAPACITY_REACHED"
  | AuditSequenceInvalid => "AUDIT_SEQUENCE_INVALID"
  | AuditChainMismatch => "AUDIT_CHAIN_MISMATCH"
  | AuditInteriorCorruption => "AUDIT_INTERIOR_CORRUPTION"
  | AuditTrailingFrameIncomplete => "AUDIT_TRAILING_FRAME_INCOMPLETE"
  | AuditUnsupportedVersion => "AUDIT_UNSUPPORTED_VERSION"
  | AuditAppendFailed => "AUDIT_APPEND_FAILED"
  | AuditSyncFailed => "AUDIT_SYNC_FAILED"
  | AuditReconciliationUnknown => "AUDIT_RECONCILIATION_UNKNOWN"
  | InternalBug => "INTERNAL_BUG"
  end.

(** Reading an identifier back: the first code of the list that has it. *)
Definition code_of_str (s : string) : option ErrorCode :=
  head (filter (λ c, ErrorCode_as_str c = s) all_codes).

Lemma code_of_as_str (c : ErrorCode) : code_of_str (ErrorCode_as_str c) = Some c.
Proof. destruct c; vm_compute; reflexivity. Qed.

Lemma ErrorCode_as_str_inj c d : ErrorCode_as_str c = ErrorCode_as_str d → c = d.
Proof. intros H. apply (inj Some). by rewrite <-!code_of_as_str, H. Qed.

#[global] Instance ErrorCode_eq_dec : EqDecision ErrorCode.
Proof.
  refine (λ c d, cast_if (decide (ErrorCode_as_str c = ErrorCode_as_str d))).
  - by apply ErrorCode_as_str_inj.
  - congruence.
Defined.

Record AppError : Set := AppError_new { app_code : ErrorCode; app_message : string }.
Record ValidationError : Set :=
  ValidationError_new { val_code : ErrorCode; val_message : string }.

#[global] Instance AppError_eq_dec : EqDecision AppError.
Proof. solve_decision. Defined.
#[global] Instance ValidationError_eq_dec : EqDecision ValidationError.
Proof. solve_decision. Defined.
