(* ===== verification/ErrorMessages.v ===== *)
(** * What a code means to a user

    [ErrorCode::default_user_message] of crates/edge-domain/src/lib.rs, which the admin API sends as
    the hint of an error response. *)

From stdpp Require Import base strings list.
From S2P Require Import Prelude Errors.

Definition default_user_message (c : ErrorCode) : string :=
  match c with
  | ConfigAdminBindConflict => "The admin bind address conflicts with a listener."
  | ConfigAdminExternalBindWithoutAuth => "Admin access exposed outside localhost requires authentication."
  | ConfigAcmeChallengeBlockedByRedirect => "ACME HTTP-01 challenge traffic must not be blocked by redirects."
  | ConfigHttp01WithoutHttpListener => "ACME HTTP-01 requires an HTTP listener."
  | ConfigHttpsRouteCertificateMissing => "HTTPS routes require a certificate reference or resolver."
  | ConfigInvalidAcmeEmail => "The ACME account email is invalid."
  | ConfigInvalidBindAddress => "The bind address is invalid."
  | ConfigHealthCheckInvalidInterval => "The health-check timing values are invalid."
  | ConfigHealthCheckInvalidPath => "The health-check path is invalid."
  | ConfigHealthCheckInvalidStatusRange => "The health-check status range is invalid."
  | ConfigHealthCheckInvalidThreshold => "The health-check threshold is invalid."
  | ConfigInvalidLoadBalancingPolicy => "The load-balancing policy is not supported."
  | ConfigInvalidLogMode => "The log mode is not supported."
  | ConfigResourceLimitInvalid => "The runtime resource limit is invalid."
  | ConfigRetryPolicyInvalid => "The retry policy is invalid."
  | ConfigPassiveHealthPolicyInvalid => "The passive health policy is invalid."
  | ConfigInvalidUpstreamUrl => "The upstream URL is not supported."
  | ConfigTrustBundleRefInvalid => "The trust bundle reference is invalid."
  | ConfigTrustBundleNotFound => "The referenced trust bundle was not found."
  | TrustBundleInvalid => "The trust bundle material is invalid."
  | TrustBundleAlreadyExists => "The trust bundle reference already exists."
  | TrustBundleLimitExceeded => "The trust bundle resource limit was exceeded."
  | TrustBundleReferenced => "The trust bundle is referenced by a config revision."
  | TrustBundleStoreFailed => "The trust bundle store operation failed."
  | UpstreamTlsUntrusted => "The upstream TLS certificate is not trusted."
  | UpstreamTlsIdentityMismatch => "The upstream TLS identity does not match."
  | UpstreamTlsProfileInvalid => "The upstream TLS profile is invalid."
  | ConfigTlsServerNameInvalid => "The TLS server name is invalid."
  | ConfigUpstreamHttpHostInvalid => "The upstream HTTP Host is invalid."
  | ConfigTlsPolicyInvalid => "The upstream TLS policy is invalid."
  | ConfigClientAuthPolicyInvalid => "The listener client-auth policy is invalid."
  | ConfigUpstreamIdDuplicate => "Upstream names must be unique within a service."
  | ConfigUpstreamIdRequired => "Multiple upstreams require explicit stable names."
  | ConfigListenerDuplicate => "A listener with the same id already exists."
  | ConfigProductionAcmeRequiresOptIn => "Production ACME requires explicit opt-in."
  | ConfigCurrentRevisionInvalid => "The current config revision is invalid."
  | ConfigCurrentRevisionMissing => "The current config revision is missing."
  | ConfigBootstrapSeedInvalid => "The bootstrap config seed is invalid."
  | ConfigRevisionNotFound => "The requested config revision was not found."
  | ConfigRouteDuplicate => "A route with the same match already exists."
  | ConfigRouteMatchEmpty => "A route must include at least one host and one path."
  | ConfigRouteMissingService => "The route references a missing service."
  | ConfigSchemaVersionMissing => "The config schema version is required."
  | ConfigServiceWithoutUpstream => "A service must have at least one upstream."
  | ConfigStoreFailed => "The config store operation failed."
  | ConfigUnsafeUpstreamUrl => "The upstream URL targets a blocked metadata endpoint."
  | AcmeChallengeFailed => "The ACME challenge failed."
  | AcmeTermsNotAccepted => "ACME terms of service must be accepted first."
  | AdminAuthRequired => "Admin authentication is required."
  | AdminCsrfRequired => "A valid CSRF token is required."
  | AdminEndpointNotImplemented => "The admin endpoint is not implemented yet."
  | AdminInvalidCredentials => "The admin credentials are invalid."
  | AdminRouteNotFound => "The admin route was not found."
  | AdminSetupAlreadyComplete => "Admin setup is already complete."
  | AdminSetupRequired => "Admin setup is required before login."
  | CertificateExpired => "The certificate is expired."
  | CertificateInvalid => "The certificate material is invalid."
  | CertificateNotFound => "The certificate was not found."
  | CertificateStoreFailed => "The certificate store operation failed."
  | HttpConnectMethodRejected => "CONNECT is not supported by this reverse proxy."
  | HttpHeaderTooLarge => "The request headers are too large."
  | HttpMalformedRequest => "The HTTP request is malformed."
  | HttpRequestBodyTooLarge => "The request body is too large."
  | HttpRequestLineTooLarge => "The request line is too large."
  | HttpTransferEncodingContentLengthConflict => "Transfer-Encoding and Content-Length cannot be combined."
  | SupportBundleBoundsExceeded => "The support bundle exceeded its collection bounds."
  | SupportBundleReportInvalid => "The support bundle collector returned an invalid report."
  | RuntimeCommandRejected => "The runtime rejected the command."
  | RuntimeHealthUnavailable => "Runtime health status is unavailable."
  | RuntimeUpstreamBadGateway => "The upstream returned bad gateway."
  | RuntimeUpstreamTimeout => "The upstream timed out."
  | ResourcePayloadCapacityReached => "The runtime payload capacity was reached."
  | ResourceAllocationFailed => "The runtime payload allocation failed."
  | ResourceAccountingInvariantFailed => "The runtime resource accounting invariant failed."
  | TlsHandshakeFailed => "The TLS handshake failed."
  | TlsHandshakeTimeout => "The TLS handshake timed out."
  | ProcessCommandInvalid => "The process command is invalid."
  | ProcessCommandNotImplemented => "The process command is not implemented yet."
  | DataDirectoryBusy => "The data directory is in use by another process."
  | DataDirectoryLockFailed => "The data directory lock operation failed."
  | DataDirectoryLockStateInvalid => "The data directory lock state is invalid."
  | BackupManifestInvalid => "The backup manifest is invalid."
  | BackupSchemaUnsupported => "The backup schema is not supported."
  | BackupLimitExceeded => "The backup resource limit was exceeded."
  | BackupSecretInputInvalid => "The backup secret input is invalid."
  | BackupSourceInvalid => "The backup source is invalid."
  | BackupSourceChanged => "The backup source changed during creation."
  | BackupDestinationUnsafe => "The backup destination is unsafe."
  | BackupDestinationExists => "The backup destination already exists."
  | BackupEncryptionFailed => "The backup encryption operation failed."
  | BackupWriteFailed => "The backup write operation failed."
  | BackupPublishFailed => "The backup publish operation failed."
  | BackupStateTransitionInvalid => "The backup state transition is invalid."
  | BackupAuthenticationFailed => "The backup could not be authenticated."
  | BackupFormatInvalid => "The backup format is invalid."
  | BackupDigestMismatch => "The backup digest does not match."
  | BackupPathUnsafe => "The backup contains an unsafe path."
  | RestoreTargetBusy => "The restore target is in use."
  | RestoreTargetNotEmpty => "The restore target is not empty."
  | RestoreTargetUnsafe => "The restore target is unsafe."
  | RestoreStageFailed => "The restore staging operation failed."
  | RestoreConfigInvalid => "The restored configuration is invalid."
  | RestoreCertificateInvalid => "A restored certificate is invalid."
  | RestoreSecretInvalid => "A restored secret is invalid."
  | RestorePreflightFailed => "The restored runtime preflight failed."
  | RestoreCommitFailed => "The restore commit failed."
  | RestoreRollbackFailed => "The restore rollback failed."
  | RestoreTransactionUnresolved => "The restore transaction is unresolved."
  | RestoreTransactionAmbiguous => "The restore transaction state is ambiguous."
  | RestorePlatformUnsupported => "The restore operation is unsupported on this platform."
  | RestoreStateTransitionInvalid => "The restore state transition is invalid."
  | AuditUnavailable => "The audit ledger is unavailable."
  | AuditCursorInvalid => "The audit query cursor is stale or invalid."
  | AuditMutationBlocked => "Persistent mutation is blocked by audit state."
  | AuditRecordInvalid => "The audit record is invalid."
  | AuditRecordTooLarge => "The audit record exceeds the size limit."
  | AuditCapacityReached => "The audit ledger capacity was reached."
  | AuditSequenceInvalid => "The audit ledger sequence is invalid."
  | AuditChainMismatch => "The audit ledger hash chain does not match."
  | AuditInteriorCorruption => "The audit ledger contains interior corruption."
  | AuditTrailingFrameIncomplete => "The audit ledger has an incomplete trailing frame."
  | AuditUnsupportedVersion => "The audit ledger version is unsupported."
  | AuditAppendFailed => "The audit record could not be persisted."
  | AuditSyncFailed => "The audit ledger could not be synchronized."
  | AuditReconciliationUnknown => "The authoritative operation state could not be reconciled."
  | InternalBug => "An internal error occurred."
  end.
