(* ===== verification/RustStr.v ===== *)
(** * The part of Rust's [str], [u8] and slice library the proxy uses

    A [str], [String], [&[u8]] or [Vec<u8>] of the source is a [list byte]; a
    [str] additionally holds valid UTF-8, which [utf8_valid] decides
    ([std::str::from_utf8]).  Character classes beyond ASCII (white space,
    control characters) are recognised on their UTF-8 encoding, so that
    [trim], [split_whitespace] and [char::is_control] are the ones of Rust on
    every valid string, not only on ASCII. *)

From stdpp Require Import base gmap list numbers sorting.
From Stdlib Require Import Strings.Byte NArith Lia.
From S2P Require Import Prelude.
Local Open Scope N_scope.

(** ** Bytes *)
Definition u8 (b : byte) : N := Byte.to_N b.

(** A number below 256 as a byte. *)
Definition byte_of (n : N) : byte := default x00 (Byte.of_N n).

Definition in_range (lo hi : N) (b : byte) : bool := (lo <=? u8 b) && (u8 b <=? hi).

Definition is_ascii_digit (b : byte) : bool := in_range 48 57 b.
Definition is_ascii_lower (b : byte) : bool := in_range 97 122 b.
Definition is_ascii_upper (b : byte) : bool := in_range 65 90 b.
Definition is_ascii_alphanumeric (b : byte) : bool :=
  is_ascii_digit b || is_ascii_lower b || is_ascii_upper b.
Definition is_ascii_hexdigit (b : byte) : bool :=
  is_ascii_digit b || in_range 97 102 b || in_range 65 70 b.

Definition lower_byte (b : byte) : byte :=
  if is_ascii_upper b then byte_of (u8 b + 32) else b.
Definition to_ascii_lowercase (s : list byte) : list byte := lower_byte <$> s.
Definition eq_ignore_ascii_case (a b : list byte) : bool :=
  bool_decide (to_ascii_lowercase a = to_ascii_lowercase b).

(** ** UTF-8 *)
Definition cont (b : byte) : bool := in_range 128 191 b.

(** The second byte a three-byte (four-byte) lead byte admits. *)
Definition second3 (b0 b1 : byte) : bool :=
  if u8 b0 =? 224 then in_range 160 191 b1
  else if u8 b0 =? 237 then in_range 128 159 b1
  else cont b1.
Definition second4 (b0 b1 : byte) : bool :=
  if u8 b0 =? 240 then in_range 144 191 b1
  else if u8 b0 =? 244 then in_range 128 143 b1
  else cont b1.

Fixpoint utf8_valid (l : list byte) : bool :=
  match l with
  | [] => true
  | b0 :: t0 =>
      if u8 b0 <? 128 then utf8_valid t0
      else if in_range 194 223 b0 then
        match t0 with
        | b1 :: t1 => cont b1 && utf8_valid t1
        | _ => false
        end
      else if in_range 224 239 b0 then
        match t0 with
        | b1 :: b2 :: t2 => second3 b0 b1 && cont b2 && utf8_valid t2
        | _ => false
        end
      else if in_range 240 244 b0 then
        match t0 with
        | b1 :: b2 :: b3 :: t3 => second4 b0 b1 && cont b2 && cont b3 && utf8_valid t3
        | _ => false
        end
      else false
  end.

(** ** White space: the characters with the Unicode property White_Space *)
Definition ws1 (b : byte) : bool := in_range 9 13 b || (u8 b =? 32).
Definition ws2 (b0 b1 : byte) : bool :=
  (u8 b0 =? 194) && ((u8 b1 =? 133) || (u8 b1 =? 160)).
Definition ws3 (b0 b1 b2 : byte) : bool :=
  ((u8 b0 =? 225) && (u8 b1 =? 154) && (u8 b2 =? 128))
  || ((u8 b0 =? 226) && (u8 b1 =? 128)
      && (in_range 128 138 b2 || in_range 168 169 b2 || (u8 b2 =? 175)))
  || ((u8 b0 =? 226) && (u8 b1 =? 129) && (u8 b2 =? 159))
  || ((u8 b0 =? 227) && (u8 b1 =? 128) && (u8 b2 =? 128)).

(** The length of the white-space character a string starts with, 0 for none. *)
Definition ws_start (l : list byte) : nat :=
  match l with
  | b0 :: t =>
      if ws1 b0 then 1%nat
      else match t with
           | b1 :: t' =>
               if ws2 b0 b1 then 2%nat
               else match t' with
                    | b2 :: _ => if ws3 b0 b1 b2 then 3%nat else 0%nat
                    | [] => 0%nat
                    end
           | [] => 0%nat
           end
  | [] => 0%nat
  end.

(** The same for the character a reversed string starts with. *)
Definition ws_end (l : list byte) : nat :=
  match l with
  | b0 :: t =>
      if ws1 b0 then 1%nat
      else match t with
           | b1 :: t' =>
               if ws2 b1 b0 then 2%nat
               else match t' with
                    | b2 :: _ => if ws3 b2 b1 b0 then 3%nat else 0%nat
                    | [] => 0%nat
                    end
           | [] => 0%nat
           end
  | [] => 0%nat
  end.

(** [drop_while_char f l] drops characters from the front as long as [f] gives
    the (positive) length of one; [skip] counts the bytes of the character being
    dropped. *)
Fixpoint drop_while_char (f : list byte → nat) (skip : nat) (l : list byte) : list byte :=
  match l with
  | [] => []
  | b :: t =>
      match skip with
      | S k => drop_while_char f k t
      | O => match f l with
             | O => l
             | S k => drop_while_char f k t
             end
      end
  end.

Definition trim_start (l : list byte) : list byte := drop_while_char ws_start 0 l.
Definition trim_end (l : list byte) : list byte :=
  rev (drop_while_char ws_end 0 (rev l)).
Definition trim (l : list byte) : list byte := trim_end (trim_start l).

(** [trim_end_matches(c)] for an ASCII character. *)
Fixpoint drop_while_byte (c : byte) (l : list byte) : list byte :=
  match l with
  | [] => []
  | b :: t => if bool_decide (b = c) then drop_while_byte c t else l
  end.
Definition trim_end_matches (c : byte) (l : list byte) : list byte :=
  rev (drop_while_byte c (rev l)).

(** ** Prefixes, searching and splitting *)
Fixpoint starts_with (pat l : list byte) : bool :=
  match pat, l with
  | [], _ => true
  | p :: pat', b :: l' => bool_decide (p = b) && starts_with pat' l'
  | _ :: _, [] => false
  end.

Definition strip_prefix (pat l : list byte) : option (list byte) :=
  if starts_with pat l then Some (drop (length pat) l) else None.

Definition ends_with (pat l : list byte) : bool := starts_with (rev pat) (rev l).
Definition strip_suffix (pat l : list byte) : option (list byte) :=
  if ends_with pat l then Some (take (length l - length pat) l) else None.

(** [windows(n).position(|w| w == pat)] with [n] the length of [pat]. *)
Fixpoint find_seq (pat l : list byte) : option nat :=
  if starts_with pat l then Some 0%nat
  else match l with
       | [] => None
       | _ :: t => S <$> find_seq pat t
       end.

Definition contains_byte (c : byte) (l : list byte) : bool :=
  existsb (λ b, bool_decide (b = c)) l.

Definition cons_head (b : byte) (ls : list (list byte)) : list (list byte) :=
  match ls with
  | x :: xs => (b :: x) :: xs
  | [] => [[b]]
  end.

(** [split(pat)] for a non-empty pattern; [skip] counts the bytes of the
    separator still to be passed over. *)
Fixpoint split_go (pat : list byte) (skip : nat) (l : list byte) : list (list byte) :=
  match l with
  | [] => [[]]
  | b :: t =>
      match skip with
      | S k => split_go pat k t
      | O => if starts_with pat l then [] :: split_go pat (length pat - 1) t
             else cons_head b (split_go pat 0 t)
      end
  end.
Definition split_str (pat l : list byte) : list (list byte) := split_go pat 0 l.
Definition split_byte (c : byte) (l : list byte) : list (list byte) := split_str [c] l.

Fixpoint split_once (c : byte) (l : list byte) : option (list byte * list byte) :=
  match l with
  | [] => None
  | b :: t =>
      if bool_decide (b = c) then Some ([], t)
      else match split_once c t with
           | Some (x, y) => Some (b :: x, y)
           | None => None
           end
  end.

Definition rsplit_once (c : byte) (l : list byte) : option (list byte * list byte) :=
  match split_once c (rev l) with
  | Some (x, y) => Some (rev y, rev x)
  | None => None
  end.

(** [split_whitespace]: the maximal runs of non-white-space characters. *)
Fixpoint split_ws_go (skip : nat) (l : list byte) : list (list byte) :=
  match l with
  | [] => [[]]
  | b :: t =>
      match skip with
      | S k => split_ws_go k t
      | O => match ws_start l with
             | O => cons_head b (split_ws_go 0 t)
             | S k => [] :: split_ws_go k t
             end
      end
  end.
Definition split_whitespace (l : list byte) : list (list byte) :=
  filter (λ w, w ≠ []) (split_ws_go 0 l).

(** ** Numbers

    [str::parse] of an unsigned type and [from_str_radix]: an optional [+], then
    at least one digit, each accumulation step checked against the bound. *)
Definition digit_value (radix : N) (b : byte) : option N :=
  let v := if is_ascii_digit b then Some (u8 b - 48)
           else if is_ascii_lower b then Some (u8 b - 87)
           else if is_ascii_upper b then Some (u8 b - 55)
           else None in
  match v with
  | Some d => if d <? radix then Some d else None
  | None => None
  end.

Fixpoint parse_digits (radix mx acc : N) (l : list byte) : option N :=
  match l with
  | [] => Some acc
  | b :: t =>
      match digit_value radix b with
      | None => None
      | Some d =>
          match checked_mul mx acc radix with
          | None => None
          | Some m => match checked_add mx m d with
                      | None => None
                      | Some acc' => parse_digits radix mx acc' t
                      end
          end
      end
  end.

Definition from_str_radix (radix mx : N) (l : list byte) : option N :=
  let digits := match l with
                | b :: t => if u8 b =? 43 then t else l
                | [] => []
                end in
  match digits with
  | [] => None
  | _ => parse_digits radix mx 0 digits
  end.

Definition parse_uint (mx : N) (l : list byte) : option N := from_str_radix 10 mx l.

(** Decimal printing ([Display] of an unsigned integer); the fuel is the number of
    binary digits, which bounds the number of decimal ones. *)
Fixpoint print_dec_go (fuel : nat) (n : N) : list byte :=
  match fuel with
  | O => []
  | S f => if n <? 10 then [byte_of (48 + n)]
           else print_dec_go f (n / 10) ++ [byte_of (48 + n mod 10)]
  end.
Definition print_dec (n : N) : list byte := print_dec_go (S (N.to_nat (N.size n))) n.

(** [str::cmp]: the bytes, in order; sorting by it. *)
Fixpoint bytes_compare (a b : list byte) : comparison :=
  match a, b with
  | [], [] => Eq
  | [], _ => Lt
  | _, [] => Gt
  | x :: a, y :: b =>
      match N.compare (u8 x) (u8 y) with Eq => bytes_compare a b | c => c end
  end.

Definition bytes_le (a b : list byte) : Prop := bytes_compare a b ≠ Gt.
#[global] Instance bytes_le_dec : RelDecision bytes_le.
Proof. intros a b. unfold bytes_le. destruct (bytes_compare a b); [left|left|right]; congruence. Defined.
Definition sort_bytes (l : list (list byte)) : list (list byte) := merge_sort bytes_le l.

(** [chars().any(char::is_control)]: C0 controls, DEL and the C1 controls, whose
    encoding is [0xC2 0x80..0x9F]. *)
Fixpoint has_control (l : list byte) : bool :=
  match l with
  | [] => false
  | b0 :: t =>
      (u8 b0 <? 32) || (u8 b0 =? 127)
      || match t with
         | b1 :: _ => (u8 b0 =? 194) && in_range 128 159 b1
         | [] => false
         end
      || has_control t
  end.

(** [chars().any(char::is_whitespace)]. *)
Fixpoint has_whitespace (l : list byte) : bool :=
  match l with
  | [] => false
  | _ :: t => negb (Nat.eqb (ws_start l) 0) || has_whitespace t
  end.

(** ** Searching *)
Lemma starts_with_spec pat l : starts_with pat l = true ↔ ∃ k, l = pat ++ k.
Proof.
  revert l. induction pat as [|p pat IH]; intros l; simpl; [by split; eauto|].
  destruct l as [|b l]; [by split; [|intros [? ?]]|]. rewrite andb_true_iff, IH, bool_decide_eq_true.
  split; [intros [-> [k ->]]; eauto|intros [k [= -> ->]]; eauto].
Qed.

Lemma starts_with_app pat k : starts_with pat (pat ++ k) = true.
Proof. apply starts_with_spec. eauto. Qed.

Lemma starts_with_mono pat l k : starts_with pat l = true → starts_with pat (l ++ k) = true.
Proof. rewrite !starts_with_spec. intros [x ->]. exists (x ++ k). by rewrite app_assoc. Qed.

Lemma starts_with_take pat l k :
  (length pat ≤ length l)%nat → starts_with pat (l ++ k) = starts_with pat l.
Proof.
  revert l. induction pat as [|p pat IH]; intros [|b l] Hlen; simpl in *; try done; [lia|].
  rewrite IH by lia. done.
Qed.

Lemma find_seq_Some pat l n :
  find_seq pat l = Some n → ∃ k, l = take n l ++ pat ++ k ∧ (n + length pat ≤ length l)%nat.
Proof.
  revert n. induction l as [|b l IH]; intros n; simpl.
  - destruct (starts_with pat []) eqn:E; [|done]. intros [= <-].
    apply starts_with_spec in E as [k Hk]. exists k. rewrite take_0. simpl. split; [done|].
    apply (f_equal length) in Hk. rewrite length_app in Hk. simpl in Hk. lia.
  - destruct (starts_with pat (b :: l)) eqn:E.
    + intros [= <-]. apply starts_with_spec in E as [k Hk]. exists k. split; [done|].
      apply (f_equal length) in Hk. rewrite length_app in Hk. simpl in *. lia.
    + intros (m & Hm & ->)%fmap_Some. destruct (IH m Hm) as (k & Hk & ?). exists k.
      simpl. rewrite <-Hk. split; [done|lia].
Qed.

(** The first occurrence stays the first one when the text grows. *)
Lemma find_seq_app pat l k n : find_seq pat l = Some n → find_seq pat (l ++ k) = Some n.
Proof.
  revert n. induction l as [|b l IH]; intros n; simpl.
  - destruct (starts_with pat []) eqn:E; [|done]. intros [= <-].
    apply starts_with_spec in E as [x Hx]. symmetry in Hx. apply app_eq_nil in Hx as [-> ->].
    by destruct k.
  - destruct (starts_with pat (b :: l)) eqn:E.
    + intros [= <-]. change (b :: l ++ k) with ((b :: l) ++ k). by rewrite starts_with_mono.
    + intros (m & Hm & ->)%fmap_Some.
      pose proof (find_seq_Some _ _ _ Hm) as (x & _ & Hlen).
      change (b :: l ++ k) with ((b :: l) ++ k).
      rewrite (starts_with_take pat (b :: l)) by (simpl; lia). rewrite E, (IH _ Hm). done.
Qed.

Lemma find_seq_first pat a k :
  (∀ i, (i < length a)%nat → starts_with pat (drop i (a ++ pat ++ k)) = false) →
  find_seq pat (a ++ pat ++ k) = Some (length a).
Proof.
  induction a as [|b a IH]; intros H; simpl.
  - destruct (pat ++ k) eqn:E; simpl; rewrite <-E, starts_with_app; done.
  - pose proof (H 0%nat ltac:(simpl; lia)) as H0. simpl in H0. rewrite H0, IH; [done|].
    intros i Hi. apply (H (S i)). simpl. lia.
Qed.

(** ** Trimming *)
Definition infix (k l : list byte) : Prop := ∃ a b, l = a ++ k ++ b.

Lemma drop_while_char_suffix f skip l : ∃ a, l = a ++ drop_while_char f skip l.
Proof.
  revert skip. induction l as [|b l IH]; intros skip; simpl; [by exists []|].
  destruct skip as [|k]; [destruct (f (b :: l)) as [|k]|].
  - by exists [].
  - destruct (IH k) as [a Ha]. exists (b :: a). simpl. by rewrite <-Ha.
  - destruct (IH k) as [a Ha]. exists (b :: a). simpl. by rewrite <-Ha.
Qed.

Lemma trim_start_suffix l : ∃ a, l = a ++ trim_start l.
Proof. apply drop_while_char_suffix. Qed.

Lemma trim_end_prefix l : ∃ b, l = trim_end l ++ b.
Proof.
  destruct (drop_while_char_suffix ws_end 0 (rev l)) as [a Ha]. exists (rev a).
  unfold trim_end. by rewrite <-rev_app_distr, <-Ha, rev_involutive.
Qed.

Lemma trim_infix l : infix (trim l) l.
Proof.
  destruct (trim_start_suffix l) as [a Ha], (trim_end_prefix (trim_start l)) as [b Hb].
  exists a, b. unfold trim. by rewrite <-Hb, <-Ha.
Qed.

Lemma infix_Forall (P : byte → Prop) k l : infix k l → Forall P l → Forall P k.
Proof. intros (a & b & ->). rewrite !Forall_app. tauto. Qed.

(** Where trimming stops. *)
Lemma drop_while_char_stop f skip l :
  (∀ b t, (f (b :: t) ≤ length (b :: t))%nat) →
  drop_while_char f skip l = [] ∨ f (drop_while_char f skip l) = 0%nat.
Proof.
  intros Hf. revert skip. induction l as [|b l IH]; intros skip; simpl; [by left|].
  destruct skip as [|k]; [destruct (f (b :: l)) as [|k] eqn:E|]; [by right|apply IH|apply IH].
Qed.

Lemma drop_while_char_id f l : f l = 0%nat → drop_while_char f 0 l = l.
Proof. intros H. destruct l; [done|]. simpl. by rewrite H. Qed.

Lemma ws_start_len l : (ws_start l ≤ length l)%nat.
Proof. unfold ws_start. repeat case_match; simpl; lia. Qed.
Lemma ws_end_len l : (ws_end l ≤ length l)%nat.
Proof. unfold ws_end. repeat case_match; simpl; lia. Qed.

Lemma ws_start_mono l k : ws_start l ≠ 0%nat → ws_start (l ++ k) = ws_start l.
Proof.
  destruct l as [|b0 [|b1 [|b2 l]]]; simpl; repeat case_match; try done; simplify_eq; congruence.
Qed.

Lemma trim_start_stop l : trim_start l = [] ∨ ws_start (trim_start l) = 0%nat.
Proof. apply drop_while_char_stop. intros. apply ws_start_len. Qed.
Lemma trim_end_stop l : trim_end l = [] ∨ ws_end (rev (trim_end l)) = 0%nat.
Proof.
  unfold trim_end. rewrite rev_involutive.
  destruct (drop_while_char_stop ws_end 0 (rev l)) as [->|]; [|by left|by right].
  intros. apply ws_end_len.
Qed.

Lemma trim_start_id l : ws_start l = 0%nat → trim_start l = l.
Proof. apply drop_while_char_id. Qed.
Lemma trim_end_id l : ws_end (rev l) = 0%nat → trim_end l = l.
Proof. intros H. unfold trim_end. by rewrite drop_while_char_id, rev_involutive. Qed.

Lemma trim_id l : ws_start l = 0%nat → ws_end (rev l) = 0%nat → trim l = l.
Proof. intros. unfold trim. by rewrite trim_start_id, trim_end_id. Qed.

Lemma trim_stop l : ws_start (trim l) = 0%nat ∧ ws_end (rev (trim l)) = 0%nat.
Proof.
  unfold trim. destruct (trim_end_stop (trim_start l)) as [->|He]; [done|]. split; [|done].
  destruct (trim_start_stop l) as [E|E]; [rewrite E; done|].
  destruct (trim_end_prefix (trim_start l)) as [b Hb].
  destruct (Nat.eq_dec (ws_start (trim_end (trim_start l))) 0%nat) as [|Hne]; [done|].
  apply (ws_start_mono _ b) in Hne. rewrite <-Hb in Hne. congruence.
Qed.

Lemma trim_idemp l : trim (trim l) = trim l.
Proof. destruct (trim_stop l). by apply trim_id. Qed.

Lemma trim_space l : trim (x20 :: l) = trim l.
Proof. done. Qed.

(** A string of non-space ASCII characters is trimmed. *)
Definition plain (b : byte) : bool := (33 <=? u8 b) && (u8 b <=? 127).

(** Decides the comparisons of a byte [b] of known range. *)
Ltac decide_u8 b :=
  unfold ws1, ws2, ws3, cont, in_range;
  repeat match goal with
  | |- context [u8 b =? ?n] => rewrite (proj2 (N.eqb_neq (u8 b) n)) by lia
  | |- context [?n <=? u8 b] => rewrite (proj2 (N.leb_gt n (u8 b))) by lia
  | |- context [u8 b <=? ?n] => rewrite (proj2 (N.leb_gt (u8 b) n)) by lia
  end; rewrite ?andb_false_r, ?orb_false_r; try done.

Lemma plain_not_ws b b1 b2 :
  plain b = true →
  ws1 b = false ∧ ws2 b b1 = false ∧ ws2 b1 b = false ∧ ws3 b b1 b2 = false ∧ ws3 b2 b1 b = false.
Proof. unfold plain. intros. nbool. split_and!; decide_u8 b. Qed.

Lemma plain_ws b t : plain b = true → ws_start (b :: t) = 0%nat ∧ ws_end (b :: t) = 0%nat.
Proof.
  intros H. destruct t as [|b1 [|b2 t]]; simpl;
    [destruct (plain_not_ws b x00 x00 H) as (H1 & H2 & H3 & H4 & H5)
    |destruct (plain_not_ws b b1 x00 H) as (H1 & H2 & H3 & H4 & H5)
    |destruct (plain_not_ws b b1 b2 H) as (H1 & H2 & H3 & H4 & H5)];
    by rewrite ?H1, ?H2, ?H3, ?H4, ?H5.
Qed.

Lemma trim_plain l : Forall (λ b, plain b = true) l → trim l = l.
Proof.
  intros H. apply trim_id.
  - destruct H; [done|]. by apply plain_ws.
  - apply Forall_rev in H. destruct H; [done|]. by apply plain_ws.
Qed.

(** ** UTF-8 validity of parts *)
Lemma in_range_spec lo hi b : in_range lo hi b = true ↔ lo ≤ u8 b ≤ hi.
Proof. unfold in_range. rewrite andb_true_iff, !N.leb_le. done. Qed.

(** A string that does not start inside a character. *)
Definition at_boundary (l : list byte) : Prop :=
  match l with b :: _ => cont b = false | [] => True end.

Lemma second3_cont b0 b1 : second3 b0 b1 = true → cont b1 = true.
Proof.
  unfold second3, cont. repeat case_match; rewrite ?in_range_spec; try done; lia.
Qed.
Lemma second4_cont b0 b1 : second4 b0 b1 = true → cont b1 = true.
Proof.
  unfold second4, cont. repeat case_match; rewrite ?in_range_spec; try done; lia.
Qed.

Lemma utf8_valid_split a b :
  utf8_valid (a ++ b) = true → at_boundary b → utf8_valid a = true ∧ utf8_valid b = true.
Proof.
  intros Hv Hb. remember (length a) as n eqn:Hn. assert (Hle : (length a ≤ n)%nat) by lia.
  clear Hn. revert a Hle Hv. induction n as [|n IH]; intros a Hle Hv.
  { destruct a; [done|simpl in Hle; lia]. }
  destruct a as [|b0 a]; [done|]. simpl in Hle, Hv |- *.
  destruct (u8 b0 <? 128); [apply IH; [lia|done]|].
  destruct (in_range 194 223 b0).
  { destruct a as [|b1 a]; simpl in *.
    - destruct b as [|b1 b]; [done|]. apply andb_true_iff in Hv as [Hc _]. simpl in Hb. congruence.
    - apply andb_true_iff in Hv as [-> Hv]. apply IH; [lia|done]. }
  destruct (in_range 224 239 b0).
  { destruct a as [|b1 [|b2 a]]; simpl in *.
    - destruct b as [|b1 [|b2 b]]; try done. apply andb_true_iff in Hv as [Hc _].
      apply andb_true_iff in Hc as [Hc%second3_cont _]. simpl in Hb. congruence.
    - destruct b as [|b2 b]; try done. apply andb_true_iff in Hv as [Hc _].
      apply andb_true_iff in Hc as [_ Hc]. simpl in Hb. congruence.
    - apply andb_true_iff in Hv as [-> Hv]. apply IH; [lia|done]. }
  destruct (in_range 240 244 b0); [|done].
  destruct a as [|b1 [|b2 [|b3 a]]]; simpl in *.
  - destruct b as [|b1 [|b2 [|b3 b]]]; try done. apply andb_true_iff in Hv as [Hc _].
    do 2 apply andb_true_iff in Hc as [Hc _]. apply second4_cont in Hc. simpl in Hb. congruence.
  - destruct b as [|b2 [|b3 b]]; try done. apply andb_true_iff in Hv as [Hc _].
    apply andb_true_iff in Hc as [Hc _]. apply andb_true_iff in Hc as [_ Hc]. simpl in Hb. congruence.
  - destruct b as [|b3 b]; try done. apply andb_true_iff in Hv as [Hc _].
    apply andb_true_iff in Hc as [_ Hc]. simpl in Hb. congruence.
  - apply andb_true_iff in Hv as [-> Hv]. apply IH; [lia|done].
Qed.

Lemma utf8_valid_app a b : utf8_valid a = true → utf8_valid b = true → utf8_valid (a ++ b) = true.
Proof.
  intros Ha Hb. remember (length a) as n eqn:Hn. assert (Hle : (length a ≤ n)%nat) by lia.
  clear Hn. revert a Hle Ha. induction n as [|n IH]; intros a Hle Ha.
  { destruct a; [done|simpl in Hle; lia]. }
  destruct a as [|b0 a]; [done|]. simpl in Hle, Ha |- *.
  destruct (u8 b0 <? 128); [apply IH; [lia|done]|].
  destruct (in_range 194 223 b0).
  { destruct a as [|b1 a]; [done|]. simpl in *. apply andb_true_iff in Ha as [-> Ha].
    apply IH; [lia|done]. }
  destruct (in_range 224 239 b0).
  { destruct a as [|b1 [|b2 a]]; try done. simpl in *. apply andb_true_iff in Ha as [-> Ha].
    apply IH; [lia|done]. }
  destruct (in_range 240 244 b0); [|done].
  destruct a as [|b1 [|b2 [|b3 a]]]; try done. simpl in *. apply andb_true_iff in Ha as [-> Ha].
  apply IH; [lia|done].
Qed.

Lemma utf8_valid_ascii l : Forall (λ b, u8 b < 128) l → utf8_valid l = true.
Proof. induction 1; simpl; [done|]. by rewrite (proj2 (N.ltb_lt _ _)). Qed.

Lemma utf8_valid_ascii_app p k :
  Forall (λ b, u8 b < 128) p → utf8_valid (p ++ k) = utf8_valid k.
Proof. induction 1; simpl; [done|]. by rewrite (proj2 (N.ltb_lt _ _)). Qed.

(** ASCII bytes and the first bytes of white-space characters are boundaries. *)
Lemma ascii_boundary b l : u8 b < 128 → at_boundary (b :: l).
Proof. intros. simpl. decide_u8 b. Qed.

Lemma ws_boundary l : ws_start l ≠ 0%nat → at_boundary l.
Proof.
  destruct l as [|b0 l]; [done|]. simpl. unfold ws1, ws2, ws3, cont.
  intros H. apply not_true_iff_false. rewrite in_range_spec. intros Hc. apply H.
  rewrite (proj2 (N.eqb_neq (u8 b0) 32)) by lia.
  unfold in_range. rewrite (proj2 (N.leb_gt (u8 b0) 13)) by lia. rewrite andb_false_r. simpl.
  rewrite !(proj2 (N.eqb_neq (u8 b0) _)) by lia. simpl. by repeat case_match.
Qed.

(** ** Splitting *)

(** [split_go] and [split_ws_go] first pass over the bytes to skip. *)
Lemma split_go_skip pat k l : split_go pat k l = split_go pat 0 (drop k l).
Proof. revert l. induction k as [|k IH]; intros [|b l]; simpl; auto. Qed.
Lemma split_ws_go_skip k l : split_ws_go k l = split_ws_go 0 (drop k l).
Proof. revert l. induction k as [|k IH]; intros [|b l]; simpl; auto. Qed.

(** The first piece ends at the end of the text or where a separator starts. *)
Lemma split_str_step pat l :
  pat ≠ [] →
  ∃ w rest, l = w ++ rest ∧ find_seq pat w = None
  ∧ (rest = [] ∧ split_str pat l = [w]
     ∨ ∃ k, rest = pat ++ k ∧ split_str pat l = w :: split_str pat k).
Proof.
  intros Hpat. unfold split_str. induction l as [|b l IH].
  { exists [], []. split; [done|]. split; [by destruct pat|auto]. }
  simpl. destruct (starts_with pat (b :: l)) eqn:E.
  { apply starts_with_spec in E as [k Hk]. exists [], (b :: l). split; [done|].
    split; [by destruct pat|]. right. exists k. split; [done|]. f_equal. rewrite split_go_skip. f_equal.
    destruct pat as [|p pat]; [done|]. injection Hk as -> ->. simpl.
    by rewrite Nat.sub_0_r, drop_app_length. }
  destruct IH as (w & rest & -> & Hw & IH).
  assert (Hbw : find_seq pat (b :: w) = None).
  { simpl. rewrite Hw. destruct (starts_with pat (b :: w)) eqn:E'; [|done].
    apply (starts_with_mono _ _ rest) in E'. simpl in E'. congruence. }
  exists (b :: w), rest. split; [done|]. split; [done|].
  destruct IH as [[-> ->]|(k & -> & ->)]; [by left|right]. eauto.
Qed.

Lemma split_ws_step l :
  ∃ w rest, l = w ++ rest ∧ has_whitespace w = false
  ∧ (rest = [] ∧ split_ws_go 0 l = [w]
     ∨ ws_start rest ≠ 0%nat ∧ split_ws_go 0 l = w :: split_ws_go 0 (drop (ws_start rest) rest)).
Proof.
  induction l as [|b l IH]; [exists [], []; by auto|].
  cbn [split_ws_go]. destruct (ws_start (b :: l)) as [|k] eqn:E.
  - destruct IH as (w & rest & -> & Hw & IH). exists (b :: w), rest. split; [done|]. split.
    + simpl. rewrite Hw, orb_false_r. apply negb_false_iff, Nat.eqb_eq.
      destruct (Nat.eq_dec (ws_start (b :: w)) 0%nat) as [|Hne]; [done|].
      apply (ws_start_mono _ rest) in Hne as Heq. simpl app in Heq. congruence.
    + destruct IH as [[-> ->]|[? ->]]; [by left|by right].
  - exists [], (b :: l). split; [done|]. split; [done|]. right. rewrite E. split; [done|].
    f_equal. rewrite split_ws_go_skip. done.
Qed.

(** Induction over the pieces. *)
Lemma split_str_Forall (P : list byte → Prop) (I : list byte → Prop) pat l :
  pat ≠ [] →
  (∀ w, find_seq pat w = None → I w → P w) →
  (∀ w k, find_seq pat w = None → I (w ++ pat ++ k) → P w ∧ I k) →
  I l → Forall P (split_str pat l).
Proof.
  intros Hpat Hlast Hstep. remember (length l) as n eqn:Hn.
  assert (Hle : (length l ≤ n)%nat) by lia. clear Hn. revert l Hle.
  induction n as [|n IH]; intros l Hle HI;
    destruct (split_str_step pat l Hpat) as (w & rest & -> & Hw & [[-> ->]|(k & -> & ->)]);
    rewrite ?app_nil_r in *; try (by repeat constructor; auto);
    destruct (Hstep w k Hw HI) as [? ?].
  - destruct pat; [done|]. rewrite !length_app in Hle. simpl in Hle. lia.
  - constructor; [done|]. apply IH; [|done]. rewrite !length_app in Hle.
    destruct pat; [done|]. simpl in Hle. lia.
Qed.

Lemma split_ws_Forall (P : list byte → Prop) (I : list byte → Prop) l :
  (∀ w, has_whitespace w = false → I w → P w) →
  (∀ w rest, has_whitespace w = false → ws_start rest ≠ 0%nat → I (w ++ rest) →
     P w ∧ I (drop (ws_start rest) rest)) →
  I l → Forall P (split_whitespace l).
Proof.
  intros Hlast Hstep HI. unfold split_whitespace. apply list.Forall_forall. intros w.
  rewrite list_elem_of_filter. intros [_ Hw]. revert w Hw. apply list.Forall_forall.
  remember (length l) as n eqn:Hn. assert (Hle : (length l ≤ n)%nat) by lia. clear Hn. revert l Hle HI.
  induction n as [|n IH]; intros l Hle HI;
    destruct (split_ws_step l) as (w & rest & -> & Hw & [[-> ->]|[Hne ->]]);
    rewrite ?app_nil_r in *; try (by repeat constructor; auto);
    destruct (Hstep w rest Hw Hne HI) as [? ?]; pose proof (ws_start_len rest);
    rewrite !length_app in Hle.
  - lia.
  - constructor; [done|]. apply IH; [|done]. rewrite length_drop. lia.
Qed.

(** Splitting what was put together from pieces that do not contain the separator. *)
Lemma split_str_join pat w k :
  pat ≠ [] →
  (∀ i, (i < length w)%nat → starts_with pat (drop i (w ++ pat ++ k)) = false) →
  split_str pat (w ++ pat ++ k) = w :: split_str pat k.
Proof.
  intros Hpat. unfold split_str. induction w as [|b w IH]; intros H.
  - destruct pat as [|p pat]; [done|]. simpl. rewrite bool_decide_true by done.
    rewrite starts_with_app. simpl. f_equal. rewrite split_go_skip, Nat.sub_0_r.
    by rewrite drop_app_length.
  - pose proof (H 0%nat ltac:(simpl; lia)) as H0. simpl in H0 |- *. rewrite H0, IH; [done|].
    intros i Hi. apply (H (S i)). simpl. lia.
Qed.

Lemma split_str_last pat w :
  pat ≠ [] → find_seq pat w = None → split_str pat w = [w].
Proof.
  intros Hpat. unfold split_str. induction w as [|b w IH]; [done|]. simpl.
  destruct (starts_with pat (b :: w)); [done|].
  destruct (find_seq pat w) eqn:E; [done|]. intros _. by rewrite IH.
Qed.

Lemma split_once_Some c l x y : split_once c l = Some (x, y) ↔ l = x ++ c :: y ∧ c ∉ x.
Proof.
  revert x y. induction l as [|b l IH]; intros x y; simpl.
  - split; [done|]. intros [H _]. by destruct x.
  - case_bool_decide as Hb.
    + subst. split; [intros; simplify_eq; split; [done|set_solver]|].
      intros [H ?]. destruct x as [|b' x]; simplify_eq/=; [done|set_solver].
    + destruct (split_once c l) as [[x' y']|] eqn:E.
      * split.
        -- intros; simplify_eq. destruct (proj1 (IH x' y) eq_refl) as [-> ?]. split; [done|set_solver].
        -- intros [H ?]. destruct x as [|b' x]; simplify_eq/=.
           assert (Some (x', y') = Some (x, y)) by (apply IH; set_solver). congruence.
      * split; [done|]. intros [H ?]. destruct x as [|b' x]; simplify_eq/=.
        assert (None = Some (x, y)) by (apply IH; set_solver). congruence.
Qed.

(** ** Trimming keeps strings valid *)
Lemma ws_drop_valid l : utf8_valid l = true → utf8_valid (drop (ws_start l) l) = true.
Proof.
  destruct l as [|b0 [|b1 [|b2 l]]]; simpl; try done.
  - destruct (ws1 b0); done.
  - destruct (ws1 b0) eqn:E1; simpl.
    + replace (u8 b0 <? 128) with true; [done|]. symmetry. apply N.ltb_lt. unfold ws1 in E1.
      apply orb_true_iff in E1 as [E1%in_range_spec|E1%N.eqb_eq]; lia.
    + destruct (ws2 b0 b1) eqn:E2; done.
  - destruct (ws1 b0) eqn:E1; [|destruct (ws2 b0 b1) eqn:E2; [|destruct (ws3 b0 b1 b2) eqn:E3]]; simpl.
    + replace (u8 b0 <? 128) with true; [done|]. symmetry. apply N.ltb_lt. unfold ws1 in E1.
      apply orb_true_iff in E1 as [E1%in_range_spec|E1%N.eqb_eq]; lia.
    + unfold ws2 in E2. apply andb_true_iff in E2 as [E2%N.eqb_eq _].
      rewrite (proj2 (N.ltb_ge (u8 b0) 128)), (proj2 (in_range_spec 194 223 b0)) by lia.
      intros [_ ?]%andb_true_iff. done.
    + assert (u8 b0 = 225 ∨ u8 b0 = 226 ∨ u8 b0 = 227) as Hb.
      { unfold ws3 in E3. repeat (apply orb_true_iff in E3 as [E3|E3]);
          repeat (apply andb_true_iff in E3 as [E3 ?]); apply N.eqb_eq in E3; auto. }
      rewrite (proj2 (N.ltb_ge (u8 b0) 128)), (proj2 (in_range_spec 224 239 b0)) by lia.
      assert (in_range 194 223 b0 = false) as ->.
      { apply not_true_iff_false. rewrite in_range_spec. lia. }
      intros [_ ?]%andb_true_iff. done.
    + done.
Qed.

Lemma drop_while_char_skip f k l : drop_while_char f k l = drop_while_char f 0 (drop k l).
Proof. revert l. induction k as [|k IH]; intros [|b l]; simpl; auto. Qed.

Lemma drop_while_char_unfold f l :
  f l ≠ 0%nat → l ≠ [] → drop_while_char f 0 l = drop_while_char f 0 (drop (f l) l).
Proof.
  intros Hf Hl. destruct l as [|b l]; [done|]. cbn [drop_while_char].
  destruct (f (b :: l)) as [|k]; [done|]. by rewrite drop_while_char_skip.
Qed.

Lemma trim_start_valid l : utf8_valid l = true → utf8_valid (trim_start l) = true.
Proof.
  remember (length l) as n eqn:Hn. assert (Hle : (length l ≤ n)%nat) by lia. clear Hn. revert l Hle.
  induction n as [|n IH]; intros l Hle Hv; [destruct l; [done|simpl in Hle; lia]|].
  destruct (Nat.eq_dec (ws_start l) 0%nat) as [H0|H0]; [by rewrite trim_start_id|].
  unfold trim_start. assert (l ≠ []) by by destruct l. rewrite drop_while_char_unfold by done.
  apply IH; [|by apply ws_drop_valid]. rewrite length_drop. lia.
Qed.

(** What is cut off at the end starts a character. *)
Lemma ws_end_boundary m k : ws_end m ≠ 0%nat → at_boundary (rev (take (ws_end m) m) ++ k).
Proof.
  destruct m as [|b0 [|b1 [|b2 m]]]; simpl; try done.
  - destruct (ws1 b0) eqn:E1; [|done]. intros _. apply (ws_boundary [b0]). simpl. by rewrite E1.
  - destruct (ws1 b0) eqn:E1; [|destruct (ws2 b1 b0) eqn:E2; [|done]]; intros _; simpl.
    + apply (ws_boundary [b0]). simpl. by rewrite E1.
    + apply (ws_boundary [b1; b0]). simpl. rewrite E2. by destruct (ws1 b1).
  - destruct (ws1 b0) eqn:E1; [|destruct (ws2 b1 b0) eqn:E2; [|destruct (ws3 b2 b1 b0) eqn:E3; [|done]]];
      intros _; simpl.
    + apply (ws_boundary [b0]). simpl. by rewrite E1.
    + apply (ws_boundary [b1; b0]). simpl. rewrite E2. by destruct (ws1 b1).
    + apply (ws_boundary [b2; b1; b0]). simpl. rewrite E3. by destruct (ws1 b2), (ws2 b2 b1).
Qed.

Lemma drop_ws_end_boundary m :
  ∃ a, m = a ++ drop_while_char ws_end 0 m ∧ at_boundary (rev a).
Proof.
  remember (length m) as n eqn:Hn. assert (Hle : (length m ≤ n)%nat) by lia. clear Hn. revert m Hle.
  induction n as [|n IH]; intros m Hle; [destruct m; [by exists []|simpl in Hle; lia]|].
  destruct (Nat.eq_dec (ws_end m) 0%nat) as [H0|H0].
  { exists []. by rewrite drop_while_char_id. }
  assert (m ≠ []) by by destruct m. rewrite drop_while_char_unfold by done.
  destruct (IH (drop (ws_end m) m)) as (a & Ha & Hb); [rewrite length_drop; lia|].
  exists (take (ws_end m) m ++ a). rewrite <-app_assoc, <-Ha, take_drop. split; [done|].
  rewrite rev_app_distr. destruct (rev a) eqn:E; [|done].
  simpl. rewrite <-(app_nil_r (rev _)). by apply ws_end_boundary.
Qed.

Lemma trim_end_valid l : utf8_valid l = true → utf8_valid (trim_end l) = true.
Proof.
  intros Hv. destruct (drop_ws_end_boundary (rev l)) as (a & Ha & Hb).
  assert (Hl : l = trim_end l ++ rev a).
  { unfold trim_end. by rewrite <-rev_app_distr, <-Ha, rev_involutive. }
  rewrite Hl in Hv. by apply (utf8_valid_split _ _ Hv Hb).
Qed.

Lemma trim_valid l : utf8_valid l = true → utf8_valid (trim l) = true.
Proof. intros. by apply trim_end_valid, trim_start_valid. Qed.

(** The pieces of a valid string are valid. *)
Lemma split_str_valid pat l :
  pat ≠ [] → Forall (λ b, u8 b < 128) pat → utf8_valid l = true →
  Forall (λ w, utf8_valid w = true) (split_str pat l).
Proof.
  intros Hpat Ha. apply (split_str_Forall _ (λ l, utf8_valid l = true)); [done|by auto|].
  intros w k _ Hv. apply utf8_valid_split in Hv as [? Hv].
  - split; [done|]. by rewrite utf8_valid_ascii_app in Hv.
  - destruct pat as [|p pat]; [done|]. inversion_clear Ha. by apply ascii_boundary.
Qed.

Lemma split_whitespace_words l :
  utf8_valid l = true →
  Forall (λ w, has_whitespace w = false ∧ utf8_valid w = true) (split_whitespace l).
Proof.
  apply (split_ws_Forall _ (λ l, utf8_valid l = true)); [by auto|].
  intros w rest Hw Hr Hv. apply utf8_valid_split in Hv as [? Hv]; [|by apply ws_boundary].
  split; [done|]. by apply ws_drop_valid.
Qed.

Lemma split_whitespace_nonempty l : Forall (λ w, w ≠ []) (split_whitespace l).
Proof.
  unfold split_whitespace. apply list.Forall_forall. intros w Hw%list_elem_of_filter. tauto.
Qed.

(** Words joined by one space. *)
Lemma has_whitespace_app_space w k i :
  has_whitespace w = false → (i < length w)%nat → ws_start (drop i (w ++ x20 :: k)) = 0%nat.
Proof.
  revert i. induction w as [|b w IH]; intros i Hw Hi; [simpl in Hi; lia|].
  simpl in Hw. apply orb_false_iff in Hw as [Hb Hw]. destruct i as [|i]; [|apply IH; [done|simpl in Hi; lia]].
  apply negb_false_iff, Nat.eqb_eq in Hb.
  assert (H2 : ∀ b, ws2 b x20 = false) by (intros; unfold ws2; by rewrite andb_false_r).
  assert (H3 : ∀ b c, ws3 b x20 c = false).
  { intros. unfold ws3. simpl. rewrite ?andb_false_r. done. }
  assert (H4 : ∀ b c, ws3 b c x20 = false).
  { intros. unfold ws3. simpl. rewrite ?andb_false_r. done. }
  destruct w as [|b1 [|b2 w]]; destruct k as [|c k]; simpl in *; rewrite ?H2, ?H3, ?H4;
    revert Hb; repeat case_match; done.
Qed.

Lemma split_ws_go_word w k :
  has_whitespace w = false → split_ws_go 0 (w ++ x20 :: k) = w :: split_ws_go 0 k.
Proof.
  intros Hw. pose proof (λ i, has_whitespace_app_space w k i Hw) as H. clear Hw.
  induction w as [|b w IH]; [done|]. cbn [app split_ws_go].
  pose proof (H 0%nat ltac:(simpl; lia)) as H0. simpl app in H0. rewrite drop_0 in H0.
  rewrite H0, IH; [done|]. intros i Hi. apply (H (S i)). simpl. lia.
Qed.

Lemma split_ws_go_last w : has_whitespace w = false → split_ws_go 0 w = [w].
Proof.
  induction w as [|b w IH]; [done|]. intros [Hb Hw]%orb_false_iff. cbn [split_ws_go].
  apply negb_false_iff, Nat.eqb_eq in Hb. by rewrite Hb, IH.
Qed.

(** ** Suffixes *)
Lemma ends_with_spec pat l : ends_with pat l = true ↔ ∃ k, l = k ++ pat.
Proof.
  unfold ends_with. rewrite starts_with_spec. split.
  - intros [k Hk]. exists (rev k). rewrite <-(rev_involutive l), Hk, rev_app_distr.
    by rewrite rev_involutive.
  - intros [k ->]. exists (rev k). by rewrite rev_app_distr.
Qed.

Lemma find_seq_exists pat a k : ∃ m, find_seq pat (a ++ pat ++ k) = Some m ∧ (m ≤ length a)%nat.
Proof.
  induction a as [|b a IH]; simpl.
  - exists 0%nat. split; [|done]. destruct (pat ++ k) eqn:E; simpl; rewrite <-E, starts_with_app; done.
  - destruct IH as (m & -> & Hm). destruct (starts_with _ _); [exists 0%nat|exists (S m)];
      (split; [done|lia]).
Qed.

(** The first occurrence is at the very end: no proper prefix ends with the pattern. *)
Lemma first_at_end pat l p q :
  find_seq pat (l ++ pat) = Some (length l) → l ++ pat = p ++ q → q ≠ [] →
  ends_with pat p = false.
Proof.
  intros Hf Hpq Hq. apply not_true_iff_false. intros [x ->]%ends_with_spec.
  destruct (find_seq_exists pat x q) as (m & Hm & Hle). rewrite <-app_assoc in Hpq.
  rewrite Hpq, Hm in Hf. injection Hf as ->. apply (f_equal length) in Hpq.
  rewrite !length_app in Hpq. destruct q; [done|]. simpl in Hpq. lia.
Qed.

(** ** Numbers: printing and parsing *)
Lemma byte_of_u8 n : n < 256 → u8 (byte_of n) = n.
Proof.
  intros Hn. unfold u8, byte_of. destruct (Byte.of_N n) as [b|] eqn:E; simpl.
  - by apply Byte.to_of_N.
  - apply Byte.of_N_None_iff in E. lia.
Qed.

Lemma digit_byte d : d < 10 → digit_value 10 (byte_of (48 + d)) = Some d
  ∧ is_ascii_digit (byte_of (48 + d)) = true.
Proof.
  intros Hd. unfold digit_value, is_ascii_digit.
  assert (in_range 48 57 (byte_of (48 + d)) = true) as ->.
  { apply in_range_spec. rewrite byte_of_u8 by lia. lia. }
  rewrite byte_of_u8 by lia. replace (48 + d - 48) with d by lia.
  by rewrite (proj2 (N.ltb_lt _ _)).
Qed.

Lemma print_dec_go_digits fuel n : Forall (λ b, is_ascii_digit b = true) (print_dec_go fuel n).
Proof.
  revert n. induction fuel as [|fuel IH]; intros n; [constructor|]. cbn [print_dec_go].
  destruct (N.ltb_spec n 10).
  - apply Forall_singleton, digit_byte. done.
  - apply Forall_app. split; [done|]. apply Forall_singleton, digit_byte, N.mod_lt. done.
Qed.

Lemma print_dec_digits n : Forall (λ b, is_ascii_digit b = true) (print_dec n).
Proof. apply print_dec_go_digits. Qed.

Lemma parse_digits_app radix mx acc l k :
  parse_digits radix mx acc (l ++ k)
  = match parse_digits radix mx acc l with Some a => parse_digits radix mx a k | None => None end.
Proof.
  revert acc. induction l as [|b l IH]; intros acc; [done|]. simpl.
  destruct (digit_value radix b) as [d|]; [|done].
  destruct (checked_mul mx acc radix) as [m|]; [|done].
  by destruct (checked_add mx m d).
Qed.

Lemma parse_print_go fuel n mx :
  n ≤ mx → n < 2 ^ N.of_nat fuel → parse_digits 10 mx 0 (print_dec_go fuel n) = Some n.
Proof.
  revert n. induction fuel as [|fuel IH]; intros n Hmx Hn.
  { simpl in Hn. assert (n = 0) by lia. by subst. }
  cbn [print_dec_go]. destruct (N.ltb_spec n 10) as [Hlt|Hge].
  - cbn [parse_digits]. rewrite (proj1 (digit_byte n Hlt)).
    rewrite (proj2 (checked_mul_Some mx 0 10 0)) by lia.
    by rewrite (proj2 (checked_add_Some mx 0 n n)) by lia.
  - rewrite parse_digits_app, IH.
    + cbn [parse_digits]. assert (Hm : n mod 10 < 10) by (apply N.mod_lt; lia).
      rewrite (proj1 (digit_byte _ Hm)).
      assert (n = n / 10 * 10 + n mod 10) as Hdm by (rewrite N.mul_comm; apply N.div_mod; lia).
      revert Hdm. generalize (n / 10), (n mod 10). intros q r Hdm.
      rewrite (proj2 (checked_mul_Some mx q 10 (q * 10))) by lia.
      by rewrite (proj2 (checked_add_Some mx _ _ n)) by lia.
    + div_lia.
    + rewrite Nat2N.inj_succ, N.pow_succ_r' in Hn. div_lia.
Qed.

Lemma print_dec_nonempty n : print_dec n ≠ [].
Proof.
  unfold print_dec. cbn [print_dec_go]. case_match; [done|]. by intros [_ ?]%app_eq_nil.
Qed.

Lemma parse_print_dec n mx : n ≤ mx → parse_uint mx (print_dec n) = Some n.
Proof.
  intros Hn. unfold parse_uint, from_str_radix.
  assert (Hgo : parse_digits 10 mx 0 (print_dec n) = Some n).
  { apply parse_print_go; [done|]. pose proof (N.size_gt n) as Hs.
    rewrite Nat2N.inj_succ, N.pow_succ_r', N2Nat.id. lia. }
  pose proof (print_dec_digits n) as Hd. pose proof (print_dec_nonempty n).
  destruct (print_dec n) as [|b l]; [done|]. inversion_clear Hd as [|? ? Hb _].
  unfold is_ascii_digit in Hb. apply in_range_spec in Hb.
  by rewrite (proj2 (N.eqb_neq (u8 b) 43)) by lia.
Qed.

(** ** Characters of strings *)
Lemma parse_digits_print n mx : n ≤ mx → parse_digits 10 mx 0 (print_dec n) = Some n.
Proof.
  intros Hn. pose proof (parse_print_dec n mx Hn) as H. unfold parse_uint, from_str_radix in H.
  pose proof (print_dec_digits n) as Hd. destruct (print_dec n) as [|b t]; [done|]. cbv zeta in H.
  destruct (N.eqb_spec (u8 b) 43) as [Hb|]; [|done]. inversion_clear Hd as [|? ? Hd' _].
  unfold is_ascii_digit in Hd'. apply in_range_spec in Hd'. lia.
Qed.

Lemma contains_byte_spec c l : contains_byte c l = true ↔ c ∈ l.
Proof.
  unfold contains_byte. rewrite existsb_exists. split.
  - intros (b & Hb & ->%bool_decide_eq_true). by apply list_elem_of_In.
  - intros Hc%list_elem_of_In. exists c. by rewrite bool_decide_true.
Qed.

Lemma contains_byte_false c l : contains_byte c l = false ↔ c ∉ l.
Proof. rewrite <-not_true_iff_false, contains_byte_spec. done. Qed.

Lemma contains_byte_app c l k : contains_byte c (l ++ k) = contains_byte c l || contains_byte c k.
Proof. apply existsb_app. Qed.

Lemma has_control_app_r l k : has_control (l ++ k) = false → has_control k = false.
Proof.
  induction l as [|b l IH]; [done|]. simpl. intros H. apply orb_false_iff in H as [_ H]. by apply IH.
Qed.

(** Printable ASCII in front does not matter. *)
Definition printable (b : byte) : bool := (32 <=? u8 b) && (u8 b <? 127).

Lemma has_control_printable l k :
  Forall (λ b, printable b = true) l → has_control (l ++ k) = has_control k.
Proof.
  induction 1 as [|b l Hb Hl IH]; [done|]. simpl. rewrite IH. unfold printable in Hb. nbool.
  rewrite (proj2 (N.ltb_ge _ _)), (proj2 (N.eqb_neq (u8 b) 127)), (proj2 (N.eqb_neq (u8 b) 194)) by lia.
  by destruct (l ++ k).
Qed.

Lemma elem_of_rev (c : byte) l : c ∈ rev l ↔ c ∈ l.
Proof. by rewrite !list_elem_of_In, <-in_rev. Qed.

Lemma rsplit_once_Some c l x y : rsplit_once c l = Some (x, y) ↔ l = x ++ c :: y ∧ c ∉ y.
Proof.
  unfold rsplit_once. destruct (split_once c (rev l)) as [[a b]|] eqn:E.
  - apply split_once_Some in E as [E Ha]. split.
    + intros [= <- <-]. split; [|by rewrite elem_of_rev].
      rewrite <-(rev_involutive l), E, rev_app_distr. simpl. by rewrite <-app_assoc.
    + intros [-> Hy]. rewrite rev_app_distr in E. simpl in E. rewrite <-app_assoc in E. simpl in E.
      assert (Some (a, b) = Some (rev y, rev x)) as Heq.
      { rewrite <-(proj2 (split_once_Some c _ a b) (conj eq_refl Ha)), <-E.
        apply split_once_Some. split; [done|]. by rewrite elem_of_rev. }
      injection Heq as -> ->. by rewrite !rev_involutive.
  - split; [done|]. intros [-> Hy]. rewrite rev_app_distr in E. simpl in E.
    rewrite <-app_assoc in E. simpl in E.
    assert (split_once c (rev y ++ c :: rev x) = Some (rev y, rev x)) as Heq.
    { apply split_once_Some. split; [done|]. by rewrite elem_of_rev. }
    congruence.
Qed.

Lemma split_once_None c l : split_once c l = None ↔ c ∉ l.
Proof.
  split.
  - intros H Hin. apply list_elem_of_In, in_split in Hin as (x & y & ->).
    induction x as [|b x IH]; simpl in H; [by rewrite bool_decide_true in H|].
    case_bool_decide; [done|]. destruct (split_once c (x ++ c :: y)) as [[? ?]|]; [done|]. by apply IH.
  - intros Hn. destruct (split_once c l) as [[x y]|] eqn:E; [|done].
    apply split_once_Some in E as [-> _]. set_solver.
Qed.

Lemma rsplit_once_None c l : rsplit_once c l = None ↔ c ∉ l.
Proof.
  unfold rsplit_once. rewrite <-elem_of_rev, <-split_once_None.
  destruct (split_once c (rev l)) as [[? ?]|]; done.
Qed.

Lemma find_byte c l k : c ∉ l → find_seq [c] (l ++ c :: k) = Some (length l).
Proof.
  intros Hl. apply (find_seq_first [c] l k). intros i Hi. rewrite drop_app_le by lia.
  destruct (drop i l) as [|b u] eqn:E;
    [apply (f_equal length) in E; rewrite length_drop in E; simpl in E; lia|].
  simpl. rewrite bool_decide_false; [done|]. intros <-. apply Hl.
  apply (list_elem_of_lookup_2 _ i). rewrite <-(Nat.add_0_r i), <-lookup_drop, E. done.
Qed.

Lemma find_byte_Some c l n :
  find_seq [c] l = Some n → ∃ k, l = take n l ++ c :: k ∧ c ∉ take n l.
Proof.
  intros H. pose proof H as H'. apply find_seq_Some in H as (k & Hk & Hlen). exists k.
  split; [done|]. intros Hin. apply list_elem_of_In, in_split in Hin as (x & y & Hxy).
  rewrite Hk in H'. rewrite Hxy in H'. rewrite <-app_assoc in H'. simpl in H'.
  destruct (find_seq_exists [c] x (y ++ c :: k)) as (m & Hm & Hle). simpl in Hm.
  rewrite Hm in H'. injection H' as ->. apply (f_equal length) in Hxy.
  rewrite length_app, length_take_le in Hxy by (simpl in Hlen; lia). simpl in Hxy. lia.
Qed.

(** Every byte of a text is in one of its pieces or in the separator. *)
Lemma split_str_bytes (P : byte → Prop) pat l :
  pat ≠ [] → Forall P pat → Forall (Forall P) (split_str pat l) → Forall P l.
Proof.
  intros Hpat HP. remember (length l) as n eqn:Hn. assert (Hle : (length l ≤ n)%nat) by lia.
  clear Hn. revert l Hle. induction n as [|n IH]; intros l Hle;
    destruct (split_str_step pat l Hpat) as (w & rest & -> & _ & [[-> ->]|(k & -> & ->)]);
    rewrite ?app_nil_r; intros HF; inversion_clear HF as [|? ? Hw Hrest]; try done;
    rewrite !length_app in Hle; (destruct pat as [|p pat]; [done|]); simpl in Hle; [lia|].
  rewrite !Forall_app. split_and!; [done|done|]. apply IH; [lia|done].
Qed.
