(* ===== verification/Resource.v ===== *)
(** * Resource policy of the runtime

    The resource constants, [RuntimeResourcePolicy], [RuntimeTimeoutPolicy] and
    [ResourceChargeState] of crates/edge-domain/src/lib.rs, the defaults of
    crates/edge-core/src/resource_limits.rs, and the overload admission policy of
    crates/edge-core/src/resource_admission_policy.rs. *)

From stdpp Require Import base strings list numbers.
From Stdlib Require Import NArith Lia.
From S2P Require Import Prelude Errors.
Local Open Scope N_scope.

Definition DEFAULT_MAX_CONNECTIONS : N := 1024.
Definition MIN_MAX_CONNECTIONS : N := 1.
Definition HARD_MAX_CONNECTIONS : N := 4096.
Definition DEFAULT_MAX_INFLIGHT_PAYLOAD_BYTES : N := 128 * 1024 * 1024.
Definition MIN_MAX_INFLIGHT_PAYLOAD_BYTES : N := 16 * 1024 * 1024.
Definition HARD_MAX_INFLIGHT_PAYLOAD_BYTES : N := 512 * 1024 * 1024.
Definition FIXED_REQUEST_HEADER_RESERVE_BYTES : N := 16 * 1024.
Definition FIXED_RESPONSE_BUFFER_RESERVE_BYTES : N := 64 * 1024.
Definition DEFAULT_MAX_REQUEST_BODY_BYTES : N := 1024 * 1024.
Definition DEFAULT_UPSTREAM_READ_TIMEOUT_MS : N := 30000.
Definition MIN_UPSTREAM_READ_TIMEOUT_MS : N := 10.
Definition HARD_MAX_UPSTREAM_READ_TIMEOUT_MS : N := 120000.

(** [(lo..=hi).contains(&x)] *)
Definition contains_incl (lo hi x : N) : bool := (lo <=? x) && (x <=? hi).

Definition invalid_resource_policy (message : string) : AppError :=
  AppError_new ConfigResourceLimitInvalid message.

Record RuntimeResourcePolicy := {
  policy_max_connections : N;
  policy_max_inflight_payload_bytes : N
}.

Definition RuntimeResourcePolicy_try_new (max_connections max_inflight_payload_bytes : N)
  : result AppError RuntimeResourcePolicy :=
  if negb (contains_incl MIN_MAX_CONNECTIONS HARD_MAX_CONNECTIONS max_connections)
  then Err (invalid_resource_policy "max connections is outside the supported range")
  else if negb (contains_incl MIN_MAX_INFLIGHT_PAYLOAD_BYTES HARD_MAX_INFLIGHT_PAYLOAD_BYTES
                  max_inflight_payload_bytes)
  then Err (invalid_resource_policy "in-flight payload limit is outside the supported range")
  else
    let? per_connection_reserve :=
      ok_or (checked_add USIZE_MAX FIXED_REQUEST_HEADER_RESERVE_BYTES
               FIXED_RESPONSE_BUFFER_RESERVE_BYTES)
        (invalid_resource_policy "fixed payload reserve overflowed") in
    let? required_fixed_payload_reserve_bytes :=
      ok_or (checked_mul USIZE_MAX max_connections per_connection_reserve)
        (invalid_resource_policy "fixed payload reserve overflowed") in
    if max_inflight_payload_bytes <? required_fixed_payload_reserve_bytes
    then Err (invalid_resource_policy
                "in-flight payload limit is below the fixed connection reserve")
    else Ok {| policy_max_connections := max_connections;
               policy_max_inflight_payload_bytes := max_inflight_payload_bytes |}.

Definition required_fixed_payload_reserve_bytes (p : RuntimeResourcePolicy) : N :=
  wrapping_mul USIZE_MAX (policy_max_connections p)
    (wrapping_add USIZE_MAX FIXED_REQUEST_HEADER_RESERVE_BYTES
       FIXED_RESPONSE_BUFFER_RESERVE_BYTES).

Definition RuntimeResourcePolicy_default : RuntimeResourcePolicy :=
  {| policy_max_connections := DEFAULT_MAX_CONNECTIONS;
     policy_max_inflight_payload_bytes := DEFAULT_MAX_INFLIGHT_PAYLOAD_BYTES |}.

Record RuntimeTimeoutPolicy := { policy_upstream_read_timeout_ms : N }.

Definition RuntimeTimeoutPolicy_try_new (upstream_read_timeout_ms : N)
  : result AppError RuntimeTimeoutPolicy :=
  if negb (contains_incl MIN_UPSTREAM_READ_TIMEOUT_MS HARD_MAX_UPSTREAM_READ_TIMEOUT_MS
             upstream_read_timeout_ms)
  then Err (invalid_resource_policy "upstream read timeout is outside the supported range")
  else Ok {| policy_upstream_read_timeout_ms := upstream_read_timeout_ms |}.

Definition RuntimeTimeoutPolicy_default : RuntimeTimeoutPolicy :=
  {| policy_upstream_read_timeout_ms := DEFAULT_UPSTREAM_READ_TIMEOUT_MS |}.

Inductive ResourceChargeState : Set :=
| Requested
| Granted
| InUse
| Transferred
| Released
| RejectedCapacity
| AllocationFailed.

#[global] Instance ResourceChargeState_eq_dec : EqDecision ResourceChargeState.
Proof. solve_decision. Defined.

Definition charge_is_terminal (s : ResourceChargeState) : bool :=
  match s with
  | Released | RejectedCapacity | AllocationFailed => true
  | _ => false
  end.

(** Durations are whole milliseconds. *)
Record ResourceLimits := {
  limits_max_connections : N;
  limits_max_request_header_bytes : N;
  limits_max_request_body_bytes : N;
  limits_idle_timeout : N;
  limits_connect_timeout : N;
  limits_upstream_read_timeout : N;
  limits_client_write_timeout : N;
  limits_max_response_buffer_bytes : N
}.

Definition ResourceLimits_default : ResourceLimits :=
  {| limits_max_connections := DEFAULT_MAX_CONNECTIONS;
     limits_max_request_header_bytes := FIXED_REQUEST_HEADER_RESERVE_BYTES;
     limits_max_request_body_bytes := DEFAULT_MAX_REQUEST_BODY_BYTES;
     limits_idle_timeout := 30000;
     limits_connect_timeout := 5000;
     limits_upstream_read_timeout := 30000;
     limits_client_write_timeout := 30000;
     limits_max_response_buffer_bytes := FIXED_RESPONSE_BUFFER_RESERVE_BYTES |}.

Inductive ResourcePressureState : Set :=
| Normal
| Pressured
| Exhausted
| FailedClosed.

#[global] Instance ResourcePressureState_eq_dec : EqDecision ResourcePressureState.
Proof. solve_decision. Defined.

Inductive ConnectionAdmissionDecision : Set :=
| AdmissionAccepted
| RejectedConnectionLimit
| RejectedPayloadPressure
| RejectedFailedClosed.

#[global] Instance ConnectionAdmissionDecision_eq_dec : EqDecision ConnectionAdmissionDecision.
Proof. solve_decision. Defined.

Definition connection_admission_decision (pressure_state : ResourcePressureState)
    (active_connections max_connections : N) : ConnectionAdmissionDecision :=
  match pressure_state with
  | FailedClosed => RejectedFailedClosed
  | Pressured | Exhausted => RejectedPayloadPressure
  | Normal => if max_connections <=? active_connections then RejectedConnectionLimit
              else AdmissionAccepted
  end.

(** What a policy that passed [try_new] guarantees. *)
Record policy_valid (p : RuntimeResourcePolicy) : Prop := {
  pv_connections : MIN_MAX_CONNECTIONS ≤ policy_max_connections p ≤ HARD_MAX_CONNECTIONS;
  pv_payload : MIN_MAX_INFLIGHT_PAYLOAD_BYTES ≤ policy_max_inflight_payload_bytes p
               ≤ HARD_MAX_INFLIGHT_PAYLOAD_BYTES;
  pv_reserve : policy_max_connections p
                 * (FIXED_REQUEST_HEADER_RESERVE_BYTES + FIXED_RESPONSE_BUFFER_RESERVE_BYTES)
               ≤ policy_max_inflight_payload_bytes p
}.

Lemma contains_incl_true lo hi x : contains_incl lo hi x = true ↔ lo ≤ x ≤ hi.
Proof. unfold contains_incl. rewrite andb_true_iff, !N.leb_le. done. Qed.

Lemma contains_incl_false lo hi x : contains_incl lo hi x = false ↔ ¬ (lo ≤ x ≤ hi).
Proof. rewrite <-contains_incl_true. by destruct (contains_incl lo hi x). Qed.

Lemma per_connection_reserve_eq :
  checked_add USIZE_MAX FIXED_REQUEST_HEADER_RESERVE_BYTES FIXED_RESPONSE_BUFFER_RESERVE_BYTES
  = Some 81920.
Proof. reflexivity. Qed.

(** A resource policy is accepted exactly when its connection and payload limits are in range and
    the payload limit covers the fixed reserve of every admitted connection; the checked
    arithmetic of the constructor never overflows on the way. *)
Theorem resource_policy_try_new_iff (conns bytes : N) (p : RuntimeResourcePolicy) :
  RuntimeResourcePolicy_try_new conns bytes = Ok p
  ↔ p = {| policy_max_connections := conns; policy_max_inflight_payload_bytes := bytes |}
    ∧ policy_valid p.
Proof.
  unfold RuntimeResourcePolicy_try_new. rewrite per_connection_reserve_eq. simpl.
  destruct (contains_incl _ _ conns) eqn:Hc; simpl;
    [apply contains_incl_true in Hc | apply contains_incl_false in Hc;
       split; [done | intros [-> [? ? ?]]; done]].
  destruct (contains_incl _ _ bytes) eqn:Hb; simpl;
    [apply contains_incl_true in Hb | apply contains_incl_false in Hb;
       split; [done | intros [-> [? ? ?]]; done]].
  unfold HARD_MAX_CONNECTIONS in Hc.
  destruct (checked_mul USIZE_MAX conns 81920) as [r|] eqn:Hr; simpl.
  - apply checked_mul_Some in Hr as [-> _].
    destruct (N.ltb_spec bytes (conns * 81920)) as [Hlt|Hge].
    + split; [done|]. intros [-> [? ? Hres]]. unfold FIXED_REQUEST_HEADER_RESERVE_BYTES,
        FIXED_RESPONSE_BUFFER_RESERVE_BYTES in Hres. simpl in Hres. lia.
    + split; [intros [= <-]; split; [done|constructor; simpl; try done]|intros [-> ?]; done].
  - unfold checked_mul in Hr. case_match; [done|]. nbool.
    unfold USIZE_MAX, U64_MAX in *. lia.
Qed.
