(* ===== verification/Ledger.v ===== *)
(** * The logical payload budget

    [PayloadBudgetLedger] of crates/edge-core/src/payload_budget_ledger.rs: every
    buffered payload byte of the proxy is charged here before it is held.  The
    model has the ledger's methods one for one, as functions from a ledger to a
    result and the ledger after the call; a failing call keeps the updates made
    before the failure, as in Rust.

    The theorems: the accounting invariant ([ledger_ok]: the used total is the sum
    of the live charges and stays within the limit), that every method preserves
    it and that the defensive error branches are unreachable under it; the
    refinement of an abstract budget; the fail-closed latch; the pressure
    hysteresis. *)

From stdpp Require Import base gmap strings list numbers.
From Stdlib Require Import NArith Lia.
From S2P Require Import Prelude Errors Resource.
Local Open Scope N_scope.

Inductive PayloadClass : Set :=
| ClassRequest
| ClassUpstreamRequest
| ClassRetryReplay
| ClassClientResponse
| ClassWebSocketClientToUpstream
| ClassWebSocketUpstreamToClient
| ClassTlsPending.

#[global] Instance PayloadClass_eq_dec : EqDecision PayloadClass.
Proof. solve_decision. Defined.

(** [ResourceChargeId] wraps a [u64]. *)
Abbreviation ResourceChargeId := N (only parsing).

Record PayloadCharge := {
  charge_id : ResourceChargeId;
  charge_connection_id : N;
  charge_payload_class : PayloadClass;
  charge_charged_bytes : N;
  charge_generation : N;
  charge_state : ResourceChargeState
}.

Record PayloadBudgetLedger := {
  ledger_limit_bytes : N;
  ledger_used_bytes : N;
  ledger_generation : N;
  ledger_next_charge_id : N;
  ledger_charges : gmap N PayloadCharge;
  ledger_pressure_state : ResourcePressureState
}.

Definition ledger_new (policy : RuntimeResourcePolicy) (generation : N) : PayloadBudgetLedger :=
  {| ledger_limit_bytes := policy_max_inflight_payload_bytes policy;
     ledger_used_bytes := 0;
     ledger_generation := generation;
     ledger_next_charge_id := 1;
     ledger_charges := ∅;
     ledger_pressure_state := Normal |}.

(** Field updates. *)
Definition set_pressure (p : ResourcePressureState) (l : PayloadBudgetLedger) :=
  {| ledger_limit_bytes := ledger_limit_bytes l; ledger_used_bytes := ledger_used_bytes l;
     ledger_generation := ledger_generation l; ledger_next_charge_id := ledger_next_charge_id l;
     ledger_charges := ledger_charges l; ledger_pressure_state := p |}.
Definition set_used (u : N) (l : PayloadBudgetLedger) :=
  {| ledger_limit_bytes := ledger_limit_bytes l; ledger_used_bytes := u;
     ledger_generation := ledger_generation l; ledger_next_charge_id := ledger_next_charge_id l;
     ledger_charges := ledger_charges l; ledger_pressure_state := ledger_pressure_state l |}.
Definition set_next_id (n : N) (l : PayloadBudgetLedger) :=
  {| ledger_limit_bytes := ledger_limit_bytes l; ledger_used_bytes := ledger_used_bytes l;
     ledger_generation := ledger_generation l; ledger_next_charge_id := n;
     ledger_charges := ledger_charges l; ledger_pressure_state := ledger_pressure_state l |}.
Definition set_charges (m : gmap N PayloadCharge) (l : PayloadBudgetLedger) :=
  {| ledger_limit_bytes := ledger_limit_bytes l; ledger_used_bytes := ledger_used_bytes l;
     ledger_generation := ledger_generation l; ledger_next_charge_id := ledger_next_charge_id l;
     ledger_charges := m; ledger_pressure_state := ledger_pressure_state l |}.

Definition with_bytes (n : N) (c : PayloadCharge) :=
  {| charge_id := charge_id c; charge_connection_id := charge_connection_id c;
     charge_payload_class := charge_payload_class c; charge_charged_bytes := n;
     charge_generation := charge_generation c; charge_state := charge_state c |}.
Definition with_state (s : ResourceChargeState) (c : PayloadCharge) :=
  {| charge_id := charge_id c; charge_connection_id := charge_connection_id c;
     charge_payload_class := charge_payload_class c;
     charge_charged_bytes := charge_charged_bytes c;
     charge_generation := charge_generation c; charge_state := s |}.
Definition with_owner (conn : N) (cls : PayloadClass) (s : ResourceChargeState)
    (c : PayloadCharge) :=
  {| charge_id := charge_id c; charge_connection_id := conn;
     charge_payload_class := cls; charge_charged_bytes := charge_charged_bytes c;
     charge_generation := charge_generation c; charge_state := s |}.

(** ** Methods *)
Definition resource_capacity_error : AppError :=
  AppError_new ResourcePayloadCapacityReached "logical payload capacity reached".
Definition resource_accounting_error (message : string) : AppError :=
  AppError_new ResourceAccountingInvariantFailed message.

Definition ledger_live_charge_count (l : PayloadBudgetLedger) : N :=
  N.of_nat (size (ledger_charges l)).
Definition ledger_charge (l : PayloadBudgetLedger) (id : ResourceChargeId)
  : option PayloadCharge := ledger_charges l !! id.

Definition fail_accounting {A} (message : string) (l : PayloadBudgetLedger)
  : result AppError A * PayloadBudgetLedger :=
  (Err (resource_accounting_error message), set_pressure FailedClosed l).

Definition require_generation (generation : N) (l : PayloadBudgetLedger)
  : result AppError () * PayloadBudgetLedger :=
  if negb (generation =? ledger_generation l)
  then fail_accounting "resource generation is stale" l
  else (Ok (), l).

Definition live_charge (id : ResourceChargeId) (generation : N) (l : PayloadBudgetLedger)
  : result AppError PayloadCharge * PayloadBudgetLedger :=
  match ledger_charges l !! id with
  | None => fail_accounting "resource charge is not live" l
  | Some charge =>
      if negb (charge_generation charge =? generation) || charge_is_terminal (charge_state charge)
      then fail_accounting "resource charge identity is invalid" l
      else (Ok charge, l)
  end.

(** [self.limit_bytes * 80 / 100] in [usize] arithmetic. *)
Definition high_watermark (limit : N) : N := wrapping_mul USIZE_MAX limit 80 / 100.
Definition low_watermark (limit : N) : N := wrapping_mul USIZE_MAX limit 60 / 100.

Definition refresh_pressure_after_usage_change (l : PayloadBudgetLedger) : PayloadBudgetLedger :=
  match ledger_pressure_state l with
  | FailedClosed => l
  | Normal =>
      if ledger_used_bytes l <? high_watermark (ledger_limit_bytes l)
      then set_pressure Normal l else set_pressure Pressured l
  | Pressured | Exhausted =>
      if ledger_used_bytes l <=? low_watermark (ledger_limit_bytes l)
      then set_pressure Normal l else set_pressure Pressured l
  end.

Definition ledger_reserve (connection_id : N) (payload_class : PayloadClass)
    (requested_bytes generation : N) (l : PayloadBudgetLedger)
  : result AppError ResourceChargeId * PayloadBudgetLedger :=
  if decide (ledger_pressure_state l = FailedClosed)
  then (Err (resource_accounting_error "resource admission is failed closed"), l)
  else
    let! _, l := require_generation generation l in
    if requested_bytes =? 0
    then fail_accounting "zero-byte resource charge is not allowed" l
    else match checked_add USIZE_MAX (ledger_used_bytes l) requested_bytes with
    | None => (Err resource_capacity_error, l)
    | Some next_used =>
        if ledger_limit_bytes l <? next_used
        then (Err resource_capacity_error, set_pressure Exhausted l)
        else match checked_add U64_MAX (ledger_next_charge_id l) 1 with
        | None => (Err (resource_accounting_error "resource charge identity exhausted"),
                   set_pressure FailedClosed l)
        | Some next_charge_id =>
            let id := ledger_next_charge_id l in
            let charge := {| charge_id := id; charge_connection_id := connection_id;
                             charge_payload_class := payload_class;
                             charge_charged_bytes := requested_bytes;
                             charge_generation := generation; charge_state := Granted |} in
            let l := set_next_id next_charge_id l in
            let l := set_used next_used l in
            let l := set_charges (<[id := charge]> (ledger_charges l)) l in
            (Ok id, refresh_pressure_after_usage_change l)
        end
    end.

Definition replace_charge_bytes (id : ResourceChargeId) (next_logical_bytes : N)
    (l : PayloadBudgetLedger) : result AppError () * PayloadBudgetLedger :=
  if next_logical_bytes =? 0
  then fail_accounting "live resource charge cannot be resized to zero" l
  else match ledger_charges l !! id with
  | None => fail_accounting "resized resource charge disappeared" l
  | Some charge =>
      match checked_sub (ledger_used_bytes l) (charge_charged_bytes charge) with
      | None => (Err (resource_accounting_error "resource total is below live charge"),
                 set_pressure FailedClosed l)
      | Some without_previous =>
          match checked_add USIZE_MAX without_previous next_logical_bytes with
          | None => (Err resource_capacity_error, l)
          | Some next_used =>
              if ledger_limit_bytes l <? next_used
              then (Err resource_capacity_error, set_pressure Exhausted l)
              else
                let l := set_used next_used l in
                match ledger_charges l !! id with
                | None => fail_accounting "resized resource charge disappeared" l
                | Some charge =>
                    let l := set_charges
                               (<[id := with_bytes next_logical_bytes charge]>
                                  (ledger_charges l)) l in
                    (Ok (), refresh_pressure_after_usage_change l)
                end
          end
      end
  end.

Definition ledger_commit (id : ResourceChargeId) (actual_logical_bytes generation : N)
    (l : PayloadBudgetLedger) : result AppError () * PayloadBudgetLedger :=
  let! _, l := require_generation generation l in
  let! charge, l := live_charge id generation l in
  if negb (bool_decide (charge_state charge = Granted))
  then fail_accounting "only granted charges can be committed" l
  else
    let! _, l := replace_charge_bytes id actual_logical_bytes l in
    match ledger_charges l !! id with
    | None => fail_accounting "committed resource charge disappeared" l
    | Some charge =>
        (Ok (), set_charges (<[id := with_state InUse charge]> (ledger_charges l)) l)
    end.

(** [matches!(state, Granted | InUse | Transferred)] *)
Definition charge_is_live_state (s : ResourceChargeState) : bool :=
  match s with Granted | InUse | Transferred => true | _ => false end.

Definition ledger_resize (id : ResourceChargeId) (next_logical_bytes generation : N)
    (l : PayloadBudgetLedger) : result AppError () * PayloadBudgetLedger :=
  let! _, l := require_generation generation l in
  let! charge, l := live_charge id generation l in
  if negb (charge_is_live_state (charge_state charge))
  then fail_accounting "charge cannot be resized in its current state" l
  else replace_charge_bytes id next_logical_bytes l.

Definition ledger_grow (id : ResourceChargeId) (additional_bytes generation : N)
    (l : PayloadBudgetLedger) : result AppError () * PayloadBudgetLedger :=
  let! _, l := require_generation generation l in
  if additional_bytes =? 0 then (Ok (), l)
  else
    let! charge, l := live_charge id generation l in
    match checked_add USIZE_MAX (charge_charged_bytes charge) additional_bytes with
    | None => (Err resource_capacity_error, set_pressure Exhausted l)
    | Some next_logical_bytes => ledger_resize id next_logical_bytes generation l
    end.

Definition ledger_transfer (id : ResourceChargeId) (next_connection_id : N)
    (next_payload_class : PayloadClass) (generation : N) (l : PayloadBudgetLedger)
  : result AppError () * PayloadBudgetLedger :=
  let! _, l := require_generation generation l in
  let! charge, l := live_charge id generation l in
  if negb (charge_is_live_state (charge_state charge))
  then fail_accounting "charge cannot be transferred in its current state" l
  else match ledger_charges l !! id with
  | None => fail_accounting "transferred resource charge disappeared" l
  | Some charge =>
      (Ok (), set_charges
                (<[id := with_owner next_connection_id next_payload_class Transferred charge]>
                   (ledger_charges l)) l)
  end.

Definition remove_live_charge (id : ResourceChargeId) (generation : N)
    (terminal_state : ResourceChargeState) (l : PayloadBudgetLedger)
  : result AppError PayloadCharge * PayloadBudgetLedger :=
  let! charge, l := live_charge id generation l in
  match checked_sub (ledger_used_bytes l) (charge_charged_bytes charge) with
  | None => fail_accounting "resource release exceeds current total" l
  | Some next_used =>
      match ledger_charges l !! id with
      | None => fail_accounting "released resource charge disappeared" l
      | Some live =>
          let l := set_charges (<[id := with_state terminal_state live]> (ledger_charges l)) l in
          let l := set_charges (delete id (ledger_charges l)) l in
          let l := set_used next_used l in
          (Ok charge, refresh_pressure_after_usage_change l)
      end
  end.

Definition ledger_release (id : ResourceChargeId) (generation : N) (l : PayloadBudgetLedger)
  : result AppError () * PayloadBudgetLedger :=
  let! _, l := require_generation generation l in
  let! _, l := remove_live_charge id generation Released l in
  (Ok (), l).

Definition ledger_release_after_allocation_failure (id : ResourceChargeId) (generation : N)
    (l : PayloadBudgetLedger) : result AppError () * PayloadBudgetLedger :=
  let! _, l := require_generation generation l in
  let! _, l := remove_live_charge id generation AllocationFailed l in
  (Ok (), l).

(** ** The accounting invariant *)

(** The bytes charged in total. *)
Definition charged_total (m : gmap N PayloadCharge) : N :=
  map_fold (λ _ c acc, charge_charged_bytes c + acc) 0 m.

Record charge_ok (l : PayloadBudgetLedger) (id : N) (c : PayloadCharge) : Prop := {
  co_id : charge_id c = id;
  co_fresh : id < ledger_next_charge_id l;
  co_generation : charge_generation c = ledger_generation l;
  co_bytes : 0 < charge_charged_bytes c;
  co_state : charge_is_live_state (charge_state c) = true
}.

(** All of the invariant but the pressure state. *)
Record ledger_core (l : PayloadBudgetLedger) : Prop := {
  lc_limit : MIN_MAX_INFLIGHT_PAYLOAD_BYTES ≤ ledger_limit_bytes l
             ≤ HARD_MAX_INFLIGHT_PAYLOAD_BYTES;
  lc_used : ledger_used_bytes l = charged_total (ledger_charges l);
  lc_bound : ledger_used_bytes l ≤ ledger_limit_bytes l;
  lc_next : ledger_next_charge_id l ≤ U64_MAX;
  lc_charges : ∀ id c, ledger_charges l !! id = Some c → charge_ok l id c
}.

Record ledger_ok (l : PayloadBudgetLedger) : Prop := {
  lo_core : ledger_core l;
  lo_pressure : ledger_pressure_state l = Normal →
                ledger_used_bytes l < high_watermark (ledger_limit_bytes l)
}.

Lemma charged_total_insert_None m id c :
  m !! id = None → charged_total (<[id := c]> m) = charge_charged_bytes c + charged_total m.
Proof. intros H. unfold charged_total. rewrite map_fold_insert_L; [done| |done]. intros. lia. Qed.

Lemma charged_total_delete m id c :
  m !! id = Some c → charged_total m = charge_charged_bytes c + charged_total (delete id m).
Proof.
  intros H. rewrite <-(insert_delete_id m id c H) at 1.
  apply charged_total_insert_None, lookup_delete_eq.
Qed.

Lemma charged_total_insert_Some m id c c' :
  m !! id = Some c →
  charged_total (<[id := c']> m) + charge_charged_bytes c
  = charge_charged_bytes c' + charged_total m.
Proof.
  intros H. rewrite <-insert_delete_eq, charged_total_insert_None by apply lookup_delete_eq.
  rewrite (charged_total_delete m id c H). lia.
Qed.

Lemma charged_total_ge m id c :
  m !! id = Some c → charge_charged_bytes c ≤ charged_total m.
Proof. intros H. rewrite (charged_total_delete m id c H). lia. Qed.

(** No wrap-around in the watermarks of a valid limit, and a gap between them. *)
Lemma watermarks limit :
  MIN_MAX_INFLIGHT_PAYLOAD_BYTES ≤ limit ≤ HARD_MAX_INFLIGHT_PAYLOAD_BYTES →
  low_watermark limit = limit * 60 / 100 ∧ high_watermark limit = limit * 80 / 100
  ∧ low_watermark limit < high_watermark limit ∧ 0 < low_watermark limit
  ∧ high_watermark limit < limit.
Proof.
  unfold MIN_MAX_INFLIGHT_PAYLOAD_BYTES, HARD_MAX_INFLIGHT_PAYLOAD_BYTES, low_watermark,
    high_watermark, wrapping_mul, USIZE_MAX, U64_MAX. intros ?.
  rewrite !N.mod_small by lia. repeat split; div_lia.
Qed.

Lemma ledger_ok_new policy generation :
  policy_valid policy → ledger_ok (ledger_new policy generation).
Proof.
  intros [_ Hp _]. destruct (watermarks _ Hp) as (_ & _ & ? & ? & _).
  constructor; [constructor|]; simpl; try done; try lia.
Qed.

Lemma ledger_core_pressure p l : ledger_core l → ledger_core (set_pressure p l).
Proof. intros [? ? ? ? Hc]. constructor; try done. intros id c H. destruct (Hc id c H). by constructor. Qed.

Lemma ledger_ok_pressure p l : p ≠ Normal → ledger_ok l → ledger_ok (set_pressure p l).
Proof. intros Hp [Hc _]. constructor; [by apply ledger_core_pressure|done]. Qed.

Lemma ledger_ok_refresh l :
  ledger_core l → ledger_ok (refresh_pressure_after_usage_change l).
Proof.
  intros Hc. destruct (watermarks _ (lc_limit _ Hc)) as (_ & _ & Hlt & _ & _).
  unfold refresh_pressure_after_usage_change.
  repeat case_match; nbool; constructor; try (by apply ledger_core_pressure); simpl; try done;
    try lia; congruence.
Qed.

#[export] Hint Resolve ledger_ok_pressure ledger_ok_refresh : edge.

(** ** Preservation of the invariant *)
Lemma charge_ok_mono l l' id c :
  ledger_next_charge_id l ≤ ledger_next_charge_id l' →
  ledger_generation l' = ledger_generation l → charge_ok l id c → charge_ok l' id c.
Proof. intros ? ? []. constructor; try done; [lia|congruence]. Qed.

(** Replacing a live charge by another one of the same identity. *)
Lemma ledger_core_update l id c c' used :
  ledger_core l → ledger_charges l !! id = Some c → charge_ok l id c' →
  used + charge_charged_bytes c = ledger_used_bytes l + charge_charged_bytes c' →
  used ≤ ledger_limit_bytes l →
  ledger_core (set_charges (<[id := c']> (ledger_charges l)) (set_used used l)).
Proof.
  intros [? Hu ? ? Hc] Hid Hok Hsum Hle. constructor; simpl; try done.
  - pose proof (charged_total_insert_Some _ id c c' Hid). lia.
  - intros j d. rewrite lookup_insert_Some. intros [[<- <-]|[? Hj]].
    + by apply (charge_ok_mono l).
    + by apply (charge_ok_mono l); auto.
Qed.

Lemma ledger_core_same l id c c' :
  ledger_core l → ledger_charges l !! id = Some c → charge_ok l id c' →
  charge_charged_bytes c' = charge_charged_bytes c →
  ledger_core (set_charges (<[id := c']> (ledger_charges l)) l).
Proof.
  intros Hl Hid Hok Hb.
  replace l with (set_used (ledger_used_bytes l) l) at 2 by by destruct l.
  apply ledger_core_update with c; try done; [lia|apply Hl].
Qed.

Lemma ledger_core_remove l id c used :
  ledger_core l → ledger_charges l !! id = Some c →
  ledger_used_bytes l = used + charge_charged_bytes c →
  ledger_core (set_used used (set_charges (delete id (ledger_charges l)) l)).
Proof.
  intros [? Hu ? ? Hc] Hid Hsum. constructor; simpl; try done; try lia.
  - rewrite (charged_total_delete _ id c Hid) in Hu. lia.
  - intros j d. rewrite lookup_delete_Some. intros [? Hj].
    by apply (charge_ok_mono l); auto.
Qed.

Lemma ledger_core_fresh l : ledger_core l → ledger_charges l !! ledger_next_charge_id l = None.
Proof.
  intros Hl. destruct (_ !! _) as [c|] eqn:H; [|done].
  destruct (lc_charges _ Hl _ _ H). lia.
Qed.

Lemma ledger_core_add l c used :
  ledger_core l → ledger_next_charge_id l < U64_MAX →
  charge_id c = ledger_next_charge_id l → charge_generation c = ledger_generation l →
  0 < charge_charged_bytes c → charge_is_live_state (charge_state c) = true →
  used = ledger_used_bytes l + charge_charged_bytes c → used ≤ ledger_limit_bytes l →
  ledger_core (set_charges (<[ledger_next_charge_id l := c]> (ledger_charges l))
                 (set_used used (set_next_id (ledger_next_charge_id l + 1) l))).
Proof.
  intros Hl Hn ? ? ? ? -> ?. pose proof (ledger_core_fresh l Hl). destruct Hl as [? Hu ? ? Hc].
  constructor; simpl; try done; try lia.
  - rewrite charged_total_insert_None by done. lia.
  - intros j d. rewrite lookup_insert_Some. intros [[<- <-]|[? Hj]].
    + constructor; simpl; try done. lia.
    + apply (charge_ok_mono l); simpl; [lia|done|by apply Hc].
Qed.

Lemma live_charge_inv id g l r l' :
  live_charge id g l = (r, l') →
  (∃ c, r = Ok c ∧ l' = l ∧ ledger_charges l !! id = Some c ∧ charge_generation c = g
        ∧ charge_is_terminal (charge_state c) = false)
  ∨ (∃ m, r = Err (resource_accounting_error m) ∧ l' = set_pressure FailedClosed l).
Proof.
  unfold live_charge, fail_accounting. intros. repeat case_match; simplify_eq; eauto.
  nbool. left. eauto 10.
Qed.

Lemma require_generation_inv g l r l' :
  require_generation g l = (r, l') →
  (r = Ok () ∧ l' = l ∧ g = ledger_generation l)
  ∨ (∃ m, r = Err (resource_accounting_error m) ∧ l' = set_pressure FailedClosed l).
Proof.
  unfold require_generation, fail_accounting. intros. case_match; simplify_eq; eauto.
  nbool. eauto.
Qed.

(** Case analysis on the two guards every method starts with. *)
Ltac ledger_guards :=
  repeat match goal with
  | |- context [require_generation ?g ?l] =>
      destruct (require_generation g l) eqn:?
  | H : require_generation _ _ = _ |- _ =>
      apply require_generation_inv in H as [(-> & -> & ->)|(? & -> & ->)]
  | |- context [live_charge ?i ?g ?l] => destruct (live_charge i g l) eqn:?
  | H : live_charge _ _ _ = _ |- _ =>
      apply live_charge_inv in H as [(? & -> & -> & ? & ? & ?)|(? & -> & ->)]
  end.

Lemma replace_charge_bytes_ok id n l :
  ledger_ok l → ledger_ok (replace_charge_bytes id n l).2.
Proof.
  intros Hl. pose proof (lo_core _ Hl) as Hc. unfold replace_charge_bytes, fail_accounting.
  repeat case_match; simpl in *; simplify_eq; auto with edge.
  nbool. rewrite checked_sub_Some in *. rewrite checked_add_Some in *. destruct_and!. subst.
  apply ledger_ok_refresh. apply (ledger_core_update l id p); try done; simpl; try lia.
  destruct (lc_charges _ Hc _ _ H0). constructor; simpl; try done. lia.
Qed.

Lemma ledger_reserve_ok conn cls n g l :
  ledger_ok l → ledger_ok (ledger_reserve conn cls n g l).2.
Proof.
  intros Hl. pose proof (lo_core _ Hl) as Hc. unfold ledger_reserve, fail_accounting.
  case_decide; [done|]. ledger_guards; simpl; auto with edge.
  repeat case_match; simpl; auto with edge.
  nbool. rewrite checked_add_Some in *. destruct_and!. subst.
  apply ledger_ok_refresh, ledger_core_add; simpl; try done; lia.
Qed.

Lemma replace_charge_bytes_same_keys id n l r l' :
  replace_charge_bytes id n l = (Ok r, l') →
  ∃ c, ledger_charges l !! id = Some c
       ∧ ledger_charges l' = <[id := with_bytes n c]> (ledger_charges l).
Proof.
  unfold replace_charge_bytes, fail_accounting. intros.
  repeat case_match; simplify_eq/=. eexists. split; [done|].
  unfold refresh_pressure_after_usage_change. by repeat case_match.
Qed.

Lemma ledger_commit_ok id n g l : ledger_ok l → ledger_ok (ledger_commit id n g l).2.
Proof.
  intros Hl. unfold ledger_commit, fail_accounting.
  ledger_guards; simpl; auto with edge. case_match; simpl; auto with edge.
  pose proof (replace_charge_bytes_ok id n l Hl) as Hl'.
  destruct (replace_charge_bytes id n l) as [[[]|e] l'] eqn:Hr; simpl in *; [|done].
  case_match; simpl; auto with edge. destruct Hl' as [Hc' Hp']. constructor; [|done].
  apply (ledger_core_same l' id p); try done.
  destruct (lc_charges _ Hc' _ _ H3). by constructor.
Qed.

Lemma ledger_resize_ok id n g l : ledger_ok l → ledger_ok (ledger_resize id n g l).2.
Proof.
  intros Hl. unfold ledger_resize, fail_accounting.
  ledger_guards; simpl; auto with edge.
  case_match; simpl; auto using replace_charge_bytes_ok with edge.
Qed.

Lemma ledger_grow_ok id n g l : ledger_ok l → ledger_ok (ledger_grow id n g l).2.
Proof.
  intros Hl. unfold ledger_grow. ledger_guards; simpl; auto with edge.
  all: repeat case_match; simpl; auto using ledger_resize_ok with edge.
Qed.

Lemma ledger_transfer_ok id conn cls g l : ledger_ok l → ledger_ok (ledger_transfer id conn cls g l).2.
Proof.
  intros Hl. unfold ledger_transfer, fail_accounting.
  ledger_guards; simpl; auto with edge. repeat case_match; simpl; auto with edge.
  destruct Hl as [Hc Hp]. constructor; [|done]. simplify_eq.
  match goal with H : ledger_charges l !! id = Some ?c |- _ =>
    apply (ledger_core_same l id c); try done; destruct (lc_charges _ Hc _ _ H) end.
  by constructor.
Qed.

Lemma remove_live_charge_ok id g s l : ledger_ok l → ledger_ok (remove_live_charge id g s l).2.
Proof.
  intros Hl. unfold remove_live_charge, fail_accounting.
  ledger_guards; simpl; auto with edge. repeat case_match; simpl; auto with edge.
  rewrite checked_sub_Some in *. rewrite delete_insert_eq. simplify_eq.
  apply ledger_ok_refresh. by eapply (ledger_core_remove l id); [apply Hl|..].
Qed.

Lemma ledger_release_ok id g l : ledger_ok l → ledger_ok (ledger_release id g l).2.
Proof.
  intros Hl. unfold ledger_release. ledger_guards; simpl; auto with edge.
  pose proof (remove_live_charge_ok id (ledger_generation l) Released l Hl).
  by destruct (remove_live_charge _ _ _ _) as [[]].
Qed.

Lemma ledger_release_after_allocation_failure_ok id g l :
  ledger_ok l → ledger_ok (ledger_release_after_allocation_failure id g l).2.
Proof.
  intros Hl. unfold ledger_release_after_allocation_failure. ledger_guards; simpl; auto with edge.
  pose proof (remove_live_charge_ok id (ledger_generation l) AllocationFailed l Hl).
  by destruct (remove_live_charge _ _ _ _) as [[]].
Qed.

#[export] Hint Resolve ledger_reserve_ok ledger_commit_ok ledger_resize_ok ledger_grow_ok
  ledger_transfer_ok ledger_release_ok ledger_release_after_allocation_failure_ok : edge.

(** ** Calls, and every ledger a sequence of calls reaches *)
Inductive ledger_call : Type :=
| CallReserve (connection_id : N) (payload_class : PayloadClass) (requested_bytes generation : N)
| CallCommit (id : N) (actual_logical_bytes generation : N)
| CallResize (id : N) (next_logical_bytes generation : N)
| CallGrow (id : N) (additional_bytes generation : N)
| CallTransfer (id : N) (next_connection_id : N) (next_payload_class : PayloadClass)
    (generation : N)
| CallRelease (id : N) (generation : N)
| CallReleaseAfterAllocationFailure (id : N) (generation : N).

(** The outcome of a call, with the identity a reservation returns. *)
Definition some_id (x : result AppError N * PayloadBudgetLedger)
  : result AppError (option N) * PayloadBudgetLedger :=
  match x with (Ok i, l) => (Ok (Some i), l) | (Err e, l) => (Err e, l) end.
Definition no_id (x : result AppError () * PayloadBudgetLedger)
  : result AppError (option N) * PayloadBudgetLedger :=
  match x with (Ok _, l) => (Ok None, l) | (Err e, l) => (Err e, l) end.

Definition ledger_exec (c : ledger_call) (l : PayloadBudgetLedger)
  : result AppError (option N) * PayloadBudgetLedger :=
  match c with
  | CallReserve conn cls n g => some_id (ledger_reserve conn cls n g l)
  | CallCommit id n g => no_id (ledger_commit id n g l)
  | CallResize id n g => no_id (ledger_resize id n g l)
  | CallGrow id n g => no_id (ledger_grow id n g l)
  | CallTransfer id conn cls g => no_id (ledger_transfer id conn cls g l)
  | CallRelease id g => no_id (ledger_release id g l)
  | CallReleaseAfterAllocationFailure id g =>
      no_id (ledger_release_after_allocation_failure id g l)
  end.

Fixpoint ledger_run (cs : list ledger_call) (l : PayloadBudgetLedger) : PayloadBudgetLedger :=
  match cs with
  | [] => l
  | c :: cs' => ledger_run cs' (ledger_exec c l).2
  end.

Lemma some_id_snd x : (some_id x).2 = x.2.
Proof. by destruct x as [[]]. Qed.
Lemma no_id_snd x : (no_id x).2 = x.2.
Proof. by destruct x as [[]]. Qed.

Lemma ledger_exec_ok c l : ledger_ok l → ledger_ok (ledger_exec c l).2.
Proof. destruct c; simpl; rewrite ?some_id_snd, ?no_id_snd; auto with edge. Qed.

Lemma ledger_run_ok cs l : ledger_ok l → ledger_ok (ledger_run cs l).
Proof. revert l. induction cs; simpl; auto using ledger_exec_ok. Qed.

(** ** Exact behaviour under the invariant *)

(** The ledger after charge [id] was given [n] bytes. *)
Definition resized (id : N) (c : PayloadCharge) (n : N) (l : PayloadBudgetLedger) :=
  refresh_pressure_after_usage_change
    (set_charges (<[id := with_bytes n c]> (ledger_charges l))
       (set_used (ledger_used_bytes l - charge_charged_bytes c + n) l)).

(** The ledger after charge [id] was given back. *)
Definition freed (id : N) (c : PayloadCharge) (l : PayloadBudgetLedger) :=
  refresh_pressure_after_usage_change
    (set_used (ledger_used_bytes l - charge_charged_bytes c)
       (set_charges (delete id (ledger_charges l)) l)).

Lemma ledger_ok_charge_le l id c :
  ledger_core l → ledger_charges l !! id = Some c → charge_charged_bytes c ≤ ledger_used_bytes l.
Proof. intros Hl H. rewrite (lc_used _ Hl). by eapply charged_total_ge. Qed.

Lemma live_charge_found l id c :
  ledger_core l → ledger_charges l !! id = Some c →
  live_charge id (ledger_generation l) l = (Ok c, l).
Proof.
  intros Hl H. destruct (lc_charges _ Hl _ _ H) as [? ? Hg ? Hs].
  unfold live_charge. rewrite H, Hg, N.eqb_refl. simpl. by destruct (charge_state c).
Qed.

Lemma require_generation_current l : require_generation (ledger_generation l) l = (Ok (), l).
Proof. unfold require_generation. by rewrite N.eqb_refl. Qed.

Lemma replace_charge_bytes_spec l id c n :
  ledger_core l → ledger_charges l !! id = Some c → 0 < n →
  replace_charge_bytes id n l =
    if ledger_used_bytes l - charge_charged_bytes c + n <=? ledger_limit_bytes l
    then (Ok (), resized id c n l)
    else (Err resource_capacity_error,
          if ledger_used_bytes l - charge_charged_bytes c + n <=? USIZE_MAX
          then set_pressure Exhausted l else l).
Proof.
  intros Hl H Hn. pose proof (ledger_ok_charge_le l id c Hl H) as Hle.
  pose proof (lc_limit _ Hl) as [_ Hlim]. unfold HARD_MAX_INFLIGHT_PAYLOAD_BYTES in Hlim.
  unfold replace_charge_bytes, resized, checked_sub, checked_add, USIZE_MAX, U64_MAX.
  destruct (N.eqb_spec n 0); [lia|]. rewrite H.
  destruct (N.leb_spec (charge_charged_bytes c) (ledger_used_bytes l)); [|lia].
  destruct (N.leb_spec (ledger_used_bytes l - charge_charged_bytes c + n) 18446744073709551615).
  - destruct (N.ltb_spec (ledger_limit_bytes l) (ledger_used_bytes l - charge_charged_bytes c + n)).
    + destruct (N.leb_spec (ledger_used_bytes l - charge_charged_bytes c + n) (ledger_limit_bytes l));
        [lia|done].
    + destruct (N.leb_spec (ledger_used_bytes l - charge_charged_bytes c + n) (ledger_limit_bytes l));
        [|lia]. simpl. by rewrite H.
  - destruct (N.leb_spec (ledger_used_bytes l - charge_charged_bytes c + n) (ledger_limit_bytes l));
      [lia|done].
Qed.

Lemma ledger_resize_spec l id c n :
  ledger_core l → ledger_charges l !! id = Some c →
  ledger_resize id n (ledger_generation l) l = replace_charge_bytes id n l.
Proof.
  intros Hl H. unfold ledger_resize.
  rewrite require_generation_current, (live_charge_found l id c Hl H).
  by rewrite (co_state _ _ _ (lc_charges _ Hl _ _ H)).
Qed.

Lemma remove_live_charge_spec l id c s :
  ledger_core l → ledger_charges l !! id = Some c →
  remove_live_charge id (ledger_generation l) s l = (Ok c, freed id c l).
Proof.
  intros Hl H. pose proof (ledger_ok_charge_le l id c Hl H) as Hle.
  unfold remove_live_charge, freed, checked_sub. rewrite (live_charge_found l id c Hl H).
  destruct (N.leb_spec (charge_charged_bytes c) (ledger_used_bytes l)); [|lia].
  rewrite H. simpl. by rewrite delete_insert_eq.
Qed.

Lemma ledger_release_spec l id c :
  ledger_core l → ledger_charges l !! id = Some c →
  ledger_release id (ledger_generation l) l = (Ok (), freed id c l).
Proof.
  intros Hl H. unfold ledger_release.
  by rewrite require_generation_current, (remove_live_charge_spec l id c).
Qed.

Lemma ledger_release_after_allocation_failure_spec l id c :
  ledger_core l → ledger_charges l !! id = Some c →
  ledger_release_after_allocation_failure id (ledger_generation l) l = (Ok (), freed id c l).
Proof.
  intros Hl H. unfold ledger_release_after_allocation_failure.
  by rewrite require_generation_current, (remove_live_charge_spec l id c).
Qed.

Section refresh_frame.
Context (l : PayloadBudgetLedger).
Lemma refresh_charges :
  ledger_charges (refresh_pressure_after_usage_change l) = ledger_charges l.
Proof. unfold refresh_pressure_after_usage_change. by repeat case_match. Qed.
Lemma refresh_used :
  ledger_used_bytes (refresh_pressure_after_usage_change l) = ledger_used_bytes l.
Proof. unfold refresh_pressure_after_usage_change. by repeat case_match. Qed.
Lemma refresh_limit :
  ledger_limit_bytes (refresh_pressure_after_usage_change l) = ledger_limit_bytes l.
Proof. unfold refresh_pressure_after_usage_change. by repeat case_match. Qed.
Lemma refresh_generation :
  ledger_generation (refresh_pressure_after_usage_change l) = ledger_generation l.
Proof. unfold refresh_pressure_after_usage_change. by repeat case_match. Qed.
Lemma refresh_next_id :
  ledger_next_charge_id (refresh_pressure_after_usage_change l) = ledger_next_charge_id l.
Proof. unfold refresh_pressure_after_usage_change. by repeat case_match. Qed.
End refresh_frame.

Create Rewrite HintDb edge_ledger.
#[export] Hint Rewrite refresh_charges refresh_used refresh_limit refresh_generation
  refresh_next_id : edge_ledger.

(** Two ledgers that differ in their pressure state only. *)
Definition same_books (l l' : PayloadBudgetLedger) : Prop :=
  ledger_charges l' = ledger_charges l ∧ ledger_used_bytes l' = ledger_used_bytes l
  ∧ ledger_limit_bytes l' = ledger_limit_bytes l ∧ ledger_generation l' = ledger_generation l
  ∧ ledger_next_charge_id l' = ledger_next_charge_id l.

#[global] Instance same_books_equivalence : Equivalence same_books.
Proof.
  unfold same_books. split; [by intros ?|intros ?? (?&?&?&?&?)|intros ??? (?&?&?&?&?) (?&?&?&?&?)];
    repeat split; congruence.
Qed.

Lemma same_books_pressure p l : same_books l (set_pressure p l).
Proof. by repeat split. Qed.
#[export] Hint Resolve same_books_pressure : edge.
#[export] Hint Extern 0 (same_books ?l ?l) => reflexivity : edge.

(** Limit and generation never change. *)
Definition same_frame (l l' : PayloadBudgetLedger) : Prop :=
  ledger_limit_bytes l' = ledger_limit_bytes l ∧ ledger_generation l' = ledger_generation l.

Lemma same_books_frame l l' : same_books l l' → same_frame l l'.
Proof. unfold same_books, same_frame. tauto. Qed.

Lemma replace_charge_bytes_err id n l e l' :
  ledger_core l → replace_charge_bytes id n l = (Err e, l') → same_books l l'.
Proof.
  intros Hl. unfold replace_charge_bytes, fail_accounting.
  intros. repeat case_match; simplify_eq/=; auto with edge.
Qed.

Lemma ledger_resize_err id n g l e l' :
  ledger_core l → ledger_resize id n g l = (Err e, l') → same_books l l'.
Proof.
  intros Hl. unfold ledger_resize, fail_accounting. ledger_guards; intros; simplify_eq; auto with edge.
  case_match; simplify_eq; eauto using replace_charge_bytes_err with edge.
Qed.

Lemma remove_live_charge_err id g s l e l' :
  remove_live_charge id g s l = (Err e, l') → same_books l l'.
Proof.
  unfold remove_live_charge, fail_accounting. ledger_guards; intros; simplify_eq; auto with edge.
  repeat case_match; simplify_eq/=; auto with edge.
Qed.

Lemma ledger_commit_err id n g l e l' :
  ledger_core l → ledger_commit id n g l = (Err e, l') → same_books l l'.
Proof.
  intros Hl. unfold ledger_commit, fail_accounting.
  ledger_guards; intros; simplify_eq; auto with edge. case_match; simplify_eq; auto with edge.
  destruct (replace_charge_bytes id n l) as [[[]|?] ?] eqn:Hr; simplify_eq;
    [|eauto using replace_charge_bytes_err].
  apply replace_charge_bytes_same_keys in Hr as (? & ? & Hch).
  rewrite Hch, lookup_insert_eq in *. simplify_eq.
Qed.

Lemma ledger_exec_err_same_books c l e :
  ledger_core l → (ledger_exec c l).1 = Err e → same_books l (ledger_exec c l).2.
Proof.
  intros Hl. destruct c; simpl.
  - unfold ledger_reserve, fail_accounting. case_decide; [by auto with edge|].
    ledger_guards; simpl; auto with edge. repeat case_match; simpl; intros; simplify_eq; auto with edge.
  - destruct (ledger_commit _ _ _ _) as [[]] eqn:H; simpl; intros; simplify_eq.
    by eapply ledger_commit_err.
  - destruct (ledger_resize _ _ _ _) as [[]] eqn:H; simpl; intros; simplify_eq.
    by eapply ledger_resize_err.
  - unfold ledger_grow. ledger_guards; simpl; auto with edge; unfold no_id;
      repeat case_match; simpl; intros; simplify_eq; eauto using ledger_resize_err with edge.
  - unfold ledger_transfer, fail_accounting. ledger_guards; simpl; auto with edge.
    repeat case_match; simpl; intros; simplify_eq; auto with edge.
  - unfold ledger_release. ledger_guards; simpl; auto with edge.
    destruct (remove_live_charge _ _ _ _) as [[]] eqn:Hr; simpl; intros; simplify_eq.
    by eapply remove_live_charge_err.
  - unfold ledger_release_after_allocation_failure. ledger_guards; simpl; auto with edge.
    destruct (remove_live_charge _ _ _ _) as [[]] eqn:Hr; simpl; intros; simplify_eq.
    by eapply remove_live_charge_err.
Qed.

(** ** The abstract budget

    What the rest of the proxy relies on: a set of charges, each of a positive
    size, whose sizes sum up to at most the limit. *)
Definition budget_total (m : gmap N N) : N := map_fold (λ _ n acc, n + acc) 0 m.

Inductive budget_step (limit : N) (m : gmap N N) : gmap N N → Prop :=
| budget_grant id n :
    m !! id = None → 0 < n → budget_total m + n ≤ limit → budget_step limit m (<[id := n]> m)
| budget_resize id k n :
    m !! id = Some k → 0 < n → budget_total m + n ≤ limit + k → budget_step limit m (<[id := n]> m)
| budget_free id k :
    m !! id = Some k → budget_step limit m (delete id m)
| budget_stay : budget_step limit m m.

(** The charges a ledger holds. *)
Definition held (l : PayloadBudgetLedger) : gmap N N := charge_charged_bytes <$> ledger_charges l.

Lemma held_total l : budget_total (held l) = charged_total (ledger_charges l).
Proof. unfold budget_total, held, charged_total. by rewrite map_fold_fmap. Qed.

Lemma held_same_books l l' : same_books l l' → held l' = held l.
Proof. unfold same_books, held. by intros (-> & _). Qed.

Lemma held_lookup l id : held l !! id = charge_charged_bytes <$> (ledger_charges l !! id).
Proof. apply lookup_fmap. Qed.

Lemma replace_charge_bytes_step l id n :
  ledger_core l →
  budget_step (ledger_limit_bytes l) (held l) (held (replace_charge_bytes id n l).2).
Proof.
  intros Hl. destruct (ledger_charges l !! id) as [c|] eqn:Hid.
  - destruct (N.eq_dec n 0) as [->|Hn]; [constructor|].
    rewrite (replace_charge_bytes_spec l id c n) by (done || lia).
    destruct (N.leb_spec (ledger_used_bytes l - charge_charged_bytes c + n) (ledger_limit_bytes l)).
    + unfold resized, held. simpl. autorewrite with edge_ledger. simpl. rewrite fmap_insert.
      apply budget_resize with (charge_charged_bytes c); [by rewrite lookup_fmap, Hid|simpl; lia|].
      fold (held l). rewrite held_total, <-(lc_used _ Hl). simpl.
      pose proof (ledger_ok_charge_le l id c Hl Hid). lia.
    + simpl. case_match; constructor.
  - unfold replace_charge_bytes. rewrite Hid. case_match; constructor.
Qed.

Lemma held_with_state (m : gmap N PayloadCharge) id c s :
  m !! id = Some c →
  charge_charged_bytes <$> <[id := with_state s c]> m = charge_charged_bytes <$> m.
Proof. intros H. rewrite fmap_insert. apply insert_id. by rewrite lookup_fmap, H. Qed.

Lemma held_with_owner (m : gmap N PayloadCharge) id c conn cls s :
  m !! id = Some c →
  charge_charged_bytes <$> <[id := with_owner conn cls s c]> m = charge_charged_bytes <$> m.
Proof. intros H. rewrite fmap_insert. apply insert_id. by rewrite lookup_fmap, H. Qed.

Lemma ledger_resize_step l id n g :
  ledger_core l → budget_step (ledger_limit_bytes l) (held l) (held (ledger_resize id n g l).2).
Proof.
  intros Hl. unfold ledger_resize, fail_accounting. ledger_guards; try constructor.
  case_match; [constructor|by apply replace_charge_bytes_step].
Qed.

Lemma remove_live_charge_step l id g s :
  ledger_core l →
  budget_step (ledger_limit_bytes l) (held l) (held (remove_live_charge id g s l).2).
Proof.
  intros Hl. unfold remove_live_charge, fail_accounting. ledger_guards; try constructor.
  repeat case_match; simplify_eq/=; try constructor. unfold held. rewrite refresh_charges. simpl.
  rewrite delete_insert_eq, fmap_delete.
  eapply budget_free. rewrite lookup_fmap.
  by match goal with H : ledger_charges l !! id = Some _ |- _ => rewrite H end.
Qed.

Lemma ledger_commit_step l id n g :
  ledger_core l → budget_step (ledger_limit_bytes l) (held l) (held (ledger_commit id n g l).2).
Proof.
  intros Hl. unfold ledger_commit, fail_accounting. ledger_guards; try constructor.
  case_match; [constructor|].
  pose proof (replace_charge_bytes_step l id n Hl) as Hstep.
  destruct (replace_charge_bytes id n l) as [[[]|?] l']; [|done]. simpl in *.
  destruct (ledger_charges l' !! id) eqn:Hid; [|done].
  unfold held in *. simpl. by rewrite held_with_state.
Qed.

Lemma ledger_reserve_step l conn cls n g :
  ledger_core l →
  budget_step (ledger_limit_bytes l) (held l) (held (ledger_reserve conn cls n g l).2).
Proof.
  intros Hl. unfold ledger_reserve, fail_accounting. case_decide; [constructor|].
  ledger_guards; try constructor. repeat case_match; simplify_eq/=; try constructor.
  nbool. rewrite checked_add_Some in *. destruct_and!. subst.
  unfold held. rewrite refresh_charges. simpl. rewrite fmap_insert. apply budget_grant; simpl.
  - by rewrite lookup_fmap, ledger_core_fresh.
  - lia.
  - fold (held l). rewrite held_total, <-(lc_used _ Hl). done.
Qed.

Lemma ledger_exec_step c l :
  ledger_core l → budget_step (ledger_limit_bytes l) (held l) (held (ledger_exec c l).2).
Proof.
  intros Hl. destruct c; simpl; rewrite ?some_id_snd, ?no_id_snd;
    auto using ledger_reserve_step, ledger_commit_step, ledger_resize_step.
  - unfold ledger_grow. ledger_guards; try constructor; repeat case_match; simpl;
      try constructor. by apply ledger_resize_step.
  - unfold ledger_transfer, fail_accounting. ledger_guards; try constructor.
    repeat case_match; simplify_eq/=; try constructor. unfold held. simpl.
    rewrite held_with_owner by done. constructor.
  - unfold ledger_release. ledger_guards; try constructor.
    pose proof (remove_live_charge_step l id (ledger_generation l) Released Hl).
    by destruct (remove_live_charge _ _ _ _) as [[]].
  - unfold ledger_release_after_allocation_failure. ledger_guards; try constructor.
    pose proof (remove_live_charge_step l id (ledger_generation l) AllocationFailed Hl).
    by destruct (remove_live_charge _ _ _ _) as [[]].
Qed.

(** ** Limit and generation are constants of a ledger *)
Lemma same_frame_refresh l l' :
  same_frame l l' → same_frame l (refresh_pressure_after_usage_change l').
Proof. unfold same_frame. by rewrite refresh_limit, refresh_generation. Qed.

Lemma ledger_exec_frame c l : ledger_core l → same_frame l (ledger_exec c l).2.
Proof.
  intros Hl. destruct ((ledger_exec c l).1) as [r|e] eqn:Hr;
    [|by eapply same_books_frame, ledger_exec_err_same_books].
  revert Hr. destruct c; simpl;
    unfold ledger_reserve, ledger_commit, ledger_grow, ledger_transfer, ledger_release,
      ledger_release_after_allocation_failure, ledger_resize, replace_charge_bytes,
      remove_live_charge, fail_accounting;
    try case_decide; ledger_guards; simpl;
    repeat (case_match; simplify_eq/=); try done; intros;
    by repeat apply same_frame_refresh.
Qed.

Lemma ledger_run_frame cs l : ledger_ok l → same_frame l (ledger_run cs l).
Proof.
  revert l. induction cs as [|c cs IH]; simpl; intros l Hl; [done|].
  destruct (IH _ (ledger_exec_ok c l Hl)) as [H1 H2].
  destruct (ledger_exec_frame c l (lo_core _ Hl)) as [H3 H4].
  split; congruence.
Qed.

Lemma ledger_reserve_spec conn cls n l :
  ledger_core l → ledger_pressure_state l ≠ FailedClosed → ledger_next_charge_id l < U64_MAX →
  0 < n → ledger_used_bytes l + n ≤ USIZE_MAX →
  ledger_reserve conn cls n (ledger_generation l) l =
    if ledger_used_bytes l + n <=? ledger_limit_bytes l
    then (Ok (ledger_next_charge_id l),
          refresh_pressure_after_usage_change
            (set_charges
               (<[ledger_next_charge_id l :=
                    {| charge_id := ledger_next_charge_id l; charge_connection_id := conn;
                       charge_payload_class := cls; charge_charged_bytes := n;
                       charge_generation := ledger_generation l; charge_state := Granted |}]>
                  (ledger_charges l))
               (set_used (ledger_used_bytes l + n)
                  (set_next_id (ledger_next_charge_id l + 1) l))))
    else (Err resource_capacity_error, set_pressure Exhausted l).
Proof.
  intros Hl Hp Hnext Hn Hmax. unfold ledger_reserve. rewrite decide_False by done.
  rewrite require_generation_current. destruct (N.eqb_spec n 0); [lia|].
  unfold checked_add. destruct (N.leb_spec (ledger_used_bytes l + n) USIZE_MAX); [|lia].
  destruct (N.leb_spec (ledger_used_bytes l + n) (ledger_limit_bytes l)),
    (N.ltb_spec (ledger_limit_bytes l) (ledger_used_bytes l + n)); try lia; [|done].
  destruct (N.leb_spec (ledger_next_charge_id l + 1) U64_MAX); [done|lia].
Qed.

(** ** Properties *)

(** C4: after any sequence of calls on a ledger created from an accepted resource policy, the
    used total is exactly the sum of the live charges and never exceeds the policy's in-flight
    payload limit, and every live charge is positive, belongs to the ledger's generation, is
    filed under its own identity and is in a live (non-terminal) state. *)
Theorem ledger_accounting_invariant (policy : RuntimeResourcePolicy) (generation : N)
    (calls : list ledger_call) :
  policy_valid policy →
  let l := ledger_run calls (ledger_new policy generation) in
  ledger_used_bytes l = charged_total (ledger_charges l)
  ∧ ledger_used_bytes l ≤ policy_max_inflight_payload_bytes policy
  ∧ ∀ id c, ledger_charges l !! id = Some c →
      charge_id c = id ∧ charge_generation c = generation ∧ 0 < charge_charged_bytes c
      ∧ charge_is_terminal (charge_state c) = false.
Proof.
  intros Hp l. pose proof (ledger_ok_new policy generation Hp) as Hn.
  destruct (ledger_run_ok calls _ Hn) as [[? Hu Hb ? Hc] _].
  destruct (ledger_run_frame calls _ Hn) as [Hlim Hgen]. fold l in Hu, Hb, Hc, Hlim, Hgen.
  simpl in Hlim, Hgen. split; [done|]. split; [congruence|]. intros id c H.
  destruct (Hc id c H) as [? ? ? ? Hs]. repeat split; try congruence. by destruct (charge_state c).
Qed.

Definition default_calls : list ledger_call :=
  [CallReserve 7 ClassRequest 100 1; CallGrow 1 28 1; CallCommit 1 120 1;
   CallReserve 7 ClassTlsPending 134217728 1; CallTransfer 1 8 ClassClientResponse 1;
   CallRelease 9 1].

Lemma policy_valid_default : policy_valid RuntimeResourcePolicy_default.
Proof. constructor; repeat split; vm_compute; discriminate. Qed.

Lemma ledger_accounting_invariant_witness :
  policy_valid RuntimeResourcePolicy_default
  ∧ ledger_used_bytes (ledger_run default_calls (ledger_new RuntimeResourcePolicy_default 1)) = 120
  ∧ ledger_used_bytes (ledger_run default_calls (ledger_new RuntimeResourcePolicy_default 1))
    = charged_total
        (ledger_charges (ledger_run default_calls (ledger_new RuntimeResourcePolicy_default 1))).
Proof.
  split; [exact policy_valid_default|]. split; [vm_compute; reflexivity|].
  exact (proj1 (ledger_accounting_invariant RuntimeResourcePolicy_default 1 default_calls
                  policy_valid_default)).
Defined.

(** C9: every call on a ledger reached from an accepted policy is one step of the abstract budget
    (grant a fresh charge, resize one, free one, or do nothing) within the policy's limit, and a
    call that returns an error does nothing to the books: charges, total and next identity are
    those of before the call. *)
Theorem ledger_refines_budget (policy : RuntimeResourcePolicy) (generation : N)
    (calls : list ledger_call) (c : ledger_call) :
  policy_valid policy →
  let l := ledger_run calls (ledger_new policy generation) in
  budget_step (policy_max_inflight_payload_bytes policy) (held l) (held (ledger_exec c l).2)
  ∧ (∀ e, (ledger_exec c l).1 = Err e → same_books l (ledger_exec c l).2).
Proof.
  intros Hp l. pose proof (ledger_ok_new policy generation Hp) as Hn.
  pose proof (lo_core _ (ledger_run_ok calls _ Hn)) as Hl.
  destruct (ledger_run_frame calls _ Hn) as [Hlim _]. simpl in Hlim. fold l in Hl, Hlim.
  rewrite <-Hlim. split; [by apply ledger_exec_step|].
  intros e. by apply ledger_exec_err_same_books.
Qed.

Lemma ledger_refines_budget_witness :
  policy_valid RuntimeResourcePolicy_default
  ∧ same_books (ledger_run default_calls (ledger_new RuntimeResourcePolicy_default 1))
      (ledger_exec (CallResize 1 0 1)
         (ledger_run default_calls (ledger_new RuntimeResourcePolicy_default 1))).2.
Proof.
  split; [exact policy_valid_default|].
  eapply (proj2 (ledger_refines_budget RuntimeResourcePolicy_default 1 default_calls
                   (CallResize 1 0 1) policy_valid_default)).
  vm_compute. reflexivity.
Defined.

(** A reservation of [n] bytes on a sound ledger that is not failed closed is granted exactly
    when the total stays within the limit; a granted one returns a fresh identity under which
    exactly [n] bytes are held, and a refused one returns the capacity error, leaves the books as
    they were and reports exhaustion. *)
Theorem ledger_reserve_decides (conn : N) (cls : PayloadClass) (n : N) (l : PayloadBudgetLedger) :
  ledger_ok l → ledger_pressure_state l ≠ FailedClosed → ledger_next_charge_id l < U64_MAX →
  0 < n → ledger_used_bytes l + n ≤ USIZE_MAX →
  let (r, l') := ledger_reserve conn cls n (ledger_generation l) l in
  if ledger_used_bytes l + n <=? ledger_limit_bytes l
  then r = Ok (ledger_next_charge_id l) ∧ held l !! ledger_next_charge_id l = None
       ∧ held l' = <[ledger_next_charge_id l := n]> (held l)
       ∧ ledger_used_bytes l' = ledger_used_bytes l + n
  else r = Err resource_capacity_error ∧ same_books l l' ∧ ledger_pressure_state l' = Exhausted.
Proof.
  intros [Hl _] ? ? ? ?. rewrite ledger_reserve_spec by done.
  destruct (N.leb_spec (ledger_used_bytes l + n) (ledger_limit_bytes l)).
  - split; [done|]. split; [by rewrite held_lookup, ledger_core_fresh|].
    unfold held. rewrite refresh_charges, refresh_used. simpl. by rewrite fmap_insert.
  - by auto using same_books_pressure.
Qed.

Lemma ledger_reserve_decides_witness :
  ∃ l', ledger_reserve 7 ClassRequest 100 1 (ledger_new RuntimeResourcePolicy_default 1) = (Ok 1, l')
        ∧ held l' = <[1 := 100]> ∅.
Proof.
  pose proof (ledger_reserve_decides 7 ClassRequest 100
                (ledger_new RuntimeResourcePolicy_default 1)
                (ledger_ok_new _ 1 policy_valid_default)) as H.
  specialize (H ltac:(discriminate) ltac:(reflexivity) ltac:(reflexivity)).
  specialize (H ltac:(vm_compute; discriminate)). simpl in H.
  destruct H as (_ & _ & H & _). eexists. split; [reflexivity|]. exact H.
Defined.

(** New connections are admitted only while the payload total of the (sound) ledger is below
    80% of the limit and the connection count below its own limit; the watermark arithmetic of the
    implementation does not wrap. *)
Theorem admission_bounds_usage (l : PayloadBudgetLedger) (active max_connections : N) :
  ledger_ok l →
  connection_admission_decision (ledger_pressure_state l) active max_connections
    = AdmissionAccepted →
  ledger_used_bytes l < ledger_limit_bytes l * 80 / 100 ∧ active < max_connections.
Proof.
  intros [Hc Hp]. destruct (watermarks _ (lc_limit _ Hc)) as (_ & <- & _).
  unfold connection_admission_decision. repeat case_match; try done.
  intros _. nbool. auto.
Qed.

Lemma admission_bounds_usage_witness :
  let l := ledger_run [CallReserve 7 ClassRequest 120 1]
             (ledger_new RuntimeResourcePolicy_default 1) in
  connection_admission_decision (ledger_pressure_state l) 3 1024 = AdmissionAccepted
  ∧ ledger_used_bytes l < ledger_limit_bytes l * 80 / 100.
Proof.
  intros l. assert (Ha : connection_admission_decision (ledger_pressure_state l) 3 1024
                         = AdmissionAccepted) by (vm_compute; reflexivity).
  split; [exact Ha|].
  refine (proj1 (admission_bounds_usage l 3 1024 _ Ha)).
  apply ledger_run_ok, ledger_ok_new, policy_valid_default.
Defined.

Lemma refresh_failed_closed l :
  ledger_pressure_state l = FailedClosed →
  ledger_pressure_state (refresh_pressure_after_usage_change l) = FailedClosed.
Proof. intros H. unfold refresh_pressure_after_usage_change. by rewrite H. Qed.

(** Once the ledger is failed closed every reservation is refused, and the latch can only be
    left through a call that itself fails with the capacity error (see the next theorem). *)
Theorem fail_closed_latch (l : PayloadBudgetLedger) :
  ledger_pressure_state l = FailedClosed →
  (∀ conn cls n g, ledger_reserve conn cls n g l
     = (Err (resource_accounting_error "resource admission is failed closed"), l))
  ∧ ∀ c, ledger_pressure_state (ledger_exec c l).2 = FailedClosed
         ∨ ((ledger_exec c l).1 = Err resource_capacity_error
            ∧ ledger_pressure_state (ledger_exec c l).2 = Exhausted).
Proof.
  intros Hp. assert (Hres : ∀ conn cls n g, ledger_reserve conn cls n g l
     = (Err (resource_accounting_error "resource admission is failed closed"), l)).
  { intros. unfold ledger_reserve. by rewrite decide_True. }
  split; [done|]. intros c. destruct c; simpl; [by rewrite Hres; left|..];
    unfold ledger_commit, ledger_grow, ledger_transfer, ledger_release,
      ledger_release_after_allocation_failure, ledger_resize, replace_charge_bytes,
      remove_live_charge, fail_accounting;
    ledger_guards; simpl; auto;
    repeat (case_match; simplify_eq/=); auto;
    left; by apply refresh_failed_closed.
Qed.

Definition fail_closed_start : PayloadBudgetLedger :=
  ledger_run [CallReserve 7 ClassRequest 100 1; CallCommit 1 100 2]
    (ledger_new RuntimeResourcePolicy_default 1).

Lemma fail_closed_latch_witness :
  ledger_pressure_state fail_closed_start = FailedClosed
  ∧ (ledger_reserve 9 ClassRequest 1 1 fail_closed_start).1
    = Err (resource_accounting_error "resource admission is failed closed").
Proof.
  assert (H : ledger_pressure_state fail_closed_start = FailedClosed)
    by (vm_compute; reflexivity).
  split; [exact H|]. rewrite (proj1 (fail_closed_latch fail_closed_start H)). reflexivity.
Defined.

(** The fail-closed state is not permanent: after an accounting violation (a commit with a
    stale generation) has closed the ledger, a single oversized [grow] of a live charge demotes
    the state to exhausted, the release of that charge reopens the ledger completely, and
    reservations are granted again. *)
Theorem fail_closed_latch_escapes :
  let l1 := ledger_run [CallGrow 1 134217728 1] fail_closed_start in
  let l2 := ledger_run [CallRelease 1 1] l1 in
  ledger_pressure_state fail_closed_start = FailedClosed
  ∧ ledger_pressure_state l1 = Exhausted
  ∧ ledger_pressure_state l2 = Normal
  ∧ is_ok (ledger_reserve 9 ClassRequest 1 1 l2).1 = true.
Proof. vm_compute. repeat split; reflexivity. Qed.
