(* ===== verification/ChargeSlots.v ===== *)
(** * Charge slots of a connection

    A connection holds at most one charge of each payload class, in an
    [Option<ResourceChargeId>] slot.  This file models the slot operations:
    crates/edge-core/src/payload_charge_slot.rs ([slot_*]),
    request_payload_charge.rs ([request_*]), tls_pending_payload_charge.rs
    ([tls_pending_*]), client_response_charge_transaction.rs ([client_response_*]),
    upstream_retry_charge_pair.rs ([retry_pair_*]), and the struct that owns all
    slots of a connection, [ConnectionPayloadCharges] of crates/edge-core/src/lib.rs
    ([charges_*]).

    A function that takes [&mut slot] and [&mut ledger] returns its result with the
    pair of both after the call. *)

From stdpp Require Import base gmap strings list numbers.
From Stdlib Require Import NArith Lia.
From S2P Require Import Prelude Errors Resource Ledger.
Local Open Scope N_scope.

Abbreviation Slot := (option N) (only parsing).

(** A ledger call made while the slot keeps its value. *)
Definition with_slot {S A} (slot : S) (x : result AppError A * PayloadBudgetLedger)
  : result AppError A * (S * PayloadBudgetLedger) := (x.1, (slot, x.2)).

(** ** payload_charge_slot.rs *)
Definition slot_bytes (l : PayloadBudgetLedger) (charge_id : Slot) : N :=
  match charge_id with
  | None => 0
  | Some id => match ledger_charge l id with
               | Some charge => charge_charged_bytes charge
               | None => 0
               end
  end.

Definition slot_release (slot : Slot) (l : PayloadBudgetLedger)
  : result AppError () * (Slot * PayloadBudgetLedger) :=
  match slot with
  | None => (Ok (), (slot, l))
  | Some charge_id =>
      let! _, (slot, l) := with_slot slot (ledger_release charge_id (ledger_generation l) l) in
      (Ok (), (None, l))
  end.

Definition slot_sync (slot : Slot) (payload_class : PayloadClass) (l : PayloadBudgetLedger)
    (connection_id next_bytes : N) : result AppError bool * (Slot * PayloadBudgetLedger) :=
  let current_bytes := slot_bytes l slot in
  if current_bytes =? next_bytes then (Ok false, (slot, l))
  else if next_bytes =? 0 then
    let! _, (slot, l) := slot_release slot l in
    (Ok true, (slot, l))
  else match slot with
  | Some charge_id =>
      let! _, (slot, l) :=
        with_slot slot (ledger_resize charge_id next_bytes (ledger_generation l) l) in
      (Ok true, (slot, l))
  | None =>
      let generation := ledger_generation l in
      let! charge_id, (slot, l) :=
        with_slot slot (ledger_reserve connection_id payload_class next_bytes generation l) in
      match ledger_commit charge_id next_bytes generation l with
      | (Err error, l) => (Err error, (slot, (ledger_release charge_id generation l).2))
      | (Ok _, l) => (Ok true, (Some charge_id, l))
      end
  end.

(** ** request_payload_charge.rs *)
Definition request_grow (slot : Slot) (l : PayloadBudgetLedger)
    (connection_id additional_bytes : N) : result AppError () * (Slot * PayloadBudgetLedger) :=
  if additional_bytes =? 0 then (Ok (), (slot, l))
  else
    let generation := ledger_generation l in
    match slot with
    | Some charge_id => with_slot slot (ledger_grow charge_id additional_bytes generation l)
    | None =>
        let! charge_id, (slot, l) :=
          with_slot slot
            (ledger_reserve connection_id ClassRequest additional_bytes generation l) in
        (Ok (), (Some charge_id, l))
    end.

Definition request_release (slot : Slot) (l : PayloadBudgetLedger)
  : result AppError () * (Slot * PayloadBudgetLedger) :=
  match slot with
  | None => (Ok (), (slot, l))
  | Some charge_id =>
      let! _, (slot, l) := with_slot slot (ledger_release charge_id (ledger_generation l) l) in
      (Ok (), (None, l))
  end.

(** ** tls_pending_payload_charge.rs *)
Definition tls_pending_bytes (l : PayloadBudgetLedger) (slot : Slot) : N := slot_bytes l slot.

Definition tls_pending_sync (slot : Slot) (l : PayloadBudgetLedger)
    (connection_id next_bytes : N) : result AppError bool * (Slot * PayloadBudgetLedger) :=
  slot_sync slot ClassTlsPending l connection_id next_bytes.

(** ** client_response_charge_transaction.rs *)
Record ClientResponseChargeChange := {
  change_charge_id : N;
  change_previous_bytes : option N;
  change_next_bytes : N
}.

Definition client_response_resize_in_use (slot : Slot) (l : PayloadBudgetLedger) (next_bytes : N)
  : result AppError () * (Slot * PayloadBudgetLedger) :=
  match slot with
  | None => with_slot slot (fail_accounting "client response charge is not installed" l)
  | Some charge_id =>
      if next_bytes =? 0 then
        let! _, (slot, l) := with_slot slot (ledger_release charge_id (ledger_generation l) l) in
        (Ok (), (None, l))
      else with_slot slot (ledger_resize charge_id next_bytes (ledger_generation l) l)
  end.

Definition client_response_prepare (slot : Slot) (l : PayloadBudgetLedger)
    (connection_id next_bytes : N)
  : result AppError ClientResponseChargeChange * (Slot * PayloadBudgetLedger) :=
  let generation := ledger_generation l in
  match slot with
  | Some charge_id =>
      match ledger_charge l charge_id with
      | None => (Err (resource_accounting_error "client response charge disappeared"), (slot, l))
      | Some charge =>
          let previous_bytes := charge_charged_bytes charge in
          let! _, (slot, l) := with_slot slot (ledger_resize charge_id next_bytes generation l) in
          (Ok {| change_charge_id := charge_id; change_previous_bytes := Some previous_bytes;
                 change_next_bytes := next_bytes |}, (slot, l))
      end
  | None =>
      let! charge_id, (slot, l) :=
        with_slot slot
          (ledger_reserve connection_id ClassClientResponse next_bytes generation l) in
      (Ok {| change_charge_id := charge_id; change_previous_bytes := None;
             change_next_bytes := next_bytes |}, (Some charge_id, l))
  end.

Definition client_response_commit (slot : Slot) (l : PayloadBudgetLedger)
    (change : ClientResponseChargeChange) : result AppError () * PayloadBudgetLedger :=
  if negb (bool_decide (slot = Some (change_charge_id change)))
  then fail_accounting "client response change is not current" l
  else match change_previous_bytes change with
  | None =>
      let! _, l := ledger_commit (change_charge_id change) (change_next_bytes change)
                     (ledger_generation l) l in
      (Ok (), l)
  | Some _ => (Ok (), l)
  end.

Definition client_response_rollback (slot : Slot) (l : PayloadBudgetLedger)
    (change : ClientResponseChargeChange) : result AppError () * (Slot * PayloadBudgetLedger) :=
  if negb (bool_decide (slot = Some (change_charge_id change)))
  then with_slot slot (fail_accounting "client response rollback is not current" l)
  else
    let generation := ledger_generation l in
    match change_previous_bytes change with
    | Some previous_bytes =>
        with_slot slot (ledger_resize (change_charge_id change) previous_bytes generation l)
    | None =>
        let! _, (slot, l) :=
          with_slot slot
            (ledger_release_after_allocation_failure (change_charge_id change) generation l) in
        (Ok (), (None, l))
    end.

(** ** upstream_retry_charge_pair.rs *)
Definition retry_pair_reserve (upstream_slot retry_replay_slot : Slot) (l : PayloadBudgetLedger)
    (connection_id upstream_bytes retry_replay_bytes : N)
  : result AppError () * ((Slot * Slot) * PayloadBudgetLedger) :=
  let slots := (upstream_slot, retry_replay_slot) in
  if bool_decide (is_Some upstream_slot) || bool_decide (is_Some retry_replay_slot)
  then with_slot slots (fail_accounting "upstream payload charges are already installed" l)
  else
    let generation := ledger_generation l in
    let! upstream, (slots, l) :=
      with_slot slots
        (ledger_reserve connection_id ClassUpstreamRequest upstream_bytes generation l) in
    match ledger_reserve connection_id ClassRetryReplay retry_replay_bytes generation l with
    | (Err error, l) =>
        let! _, (slots, l) := with_slot slots (ledger_release upstream generation l) in
        (Err error, (slots, l))
    | (Ok retry_replay, l) => (Ok (), ((Some upstream, Some retry_replay), l))
    end.

Definition retry_pair_commit (upstream_slot retry_replay_slot : Slot) (l : PayloadBudgetLedger)
    (upstream_bytes retry_replay_bytes : N) : result AppError () * PayloadBudgetLedger :=
  let generation := ledger_generation l in
  match upstream_slot with
  | None => fail_accounting "upstream charge is not installed" l
  | Some upstream =>
      match retry_replay_slot with
      | None => fail_accounting "retry replay charge is not installed" l
      | Some retry_replay =>
          let! _, l := ledger_commit upstream upstream_bytes generation l in
          ledger_commit retry_replay retry_replay_bytes generation l
      end
  end.

Definition retry_pair_release_after_allocation_failure (upstream_slot retry_replay_slot : Slot)
    (l : PayloadBudgetLedger) : result AppError () * ((Slot * Slot) * PayloadBudgetLedger) :=
  let generation := ledger_generation l in
  let! _, (slots, l) :=
    match upstream_slot with
    | Some upstream =>
        let! _, (slots, l) :=
          with_slot (upstream_slot, retry_replay_slot)
            (ledger_release_after_allocation_failure upstream generation l) in
        (Ok (), ((None, retry_replay_slot), l))
    | None => (Ok (), ((upstream_slot, retry_replay_slot), l))
    end in
  match snd slots with
  | Some retry_replay =>
      let! _, (slots, l) := with_slot slots (ledger_release retry_replay generation l) in
      (Ok (), ((fst slots, None), l))
  | None => (Ok (), (slots, l))
  end.

(** ** [ConnectionPayloadCharges] *)
Record ConnectionPayloadCharges := {
  cpc_request : option N;
  cpc_upstream : option N;
  cpc_retry_replay : option N;
  cpc_client_response : option N;
  cpc_tls_pending : option N;
  cpc_websocket_client_to_upstream : option N;
  cpc_websocket_upstream_to_client : option N
}.

Definition charges_default : ConnectionPayloadCharges :=
  {| cpc_request := None; cpc_upstream := None; cpc_retry_replay := None;
     cpc_client_response := None; cpc_tls_pending := None;
     cpc_websocket_client_to_upstream := None; cpc_websocket_upstream_to_client := None |}.

(** The slots as places a function can be applied to. *)
Inductive slot_name : Set :=
| SlotRequest | SlotUpstream | SlotRetryReplay | SlotClientResponse | SlotTlsPending
| SlotWsClientToUpstream | SlotWsUpstreamToClient.

#[global] Instance slot_name_eq_dec : EqDecision slot_name.
Proof. solve_decision. Defined.

Definition all_slots : list slot_name :=
  [SlotRequest; SlotUpstream; SlotRetryReplay; SlotClientResponse; SlotTlsPending;
   SlotWsClientToUpstream; SlotWsUpstreamToClient].

Definition get_slot (n : slot_name) (c : ConnectionPayloadCharges) : option N :=
  match n with
  | SlotRequest => cpc_request c
  | SlotUpstream => cpc_upstream c
  | SlotRetryReplay => cpc_retry_replay c
  | SlotClientResponse => cpc_client_response c
  | SlotTlsPending => cpc_tls_pending c
  | SlotWsClientToUpstream => cpc_websocket_client_to_upstream c
  | SlotWsUpstreamToClient => cpc_websocket_upstream_to_client c
  end.

Definition set_slot (n : slot_name) (v : option N) (c : ConnectionPayloadCharges)
  : ConnectionPayloadCharges :=
  let pick m := if decide (m = n) then v else get_slot m c in
  {| cpc_request := pick SlotRequest; cpc_upstream := pick SlotUpstream;
     cpc_retry_replay := pick SlotRetryReplay; cpc_client_response := pick SlotClientResponse;
     cpc_tls_pending := pick SlotTlsPending;
     cpc_websocket_client_to_upstream := pick SlotWsClientToUpstream;
     cpc_websocket_upstream_to_client := pick SlotWsUpstreamToClient |}.

(** Running a slot function on one slot ([&mut self.<slot>]). *)
Definition at_slot {A} (n : slot_name) (c : ConnectionPayloadCharges)
    (x : result AppError A * (option N * PayloadBudgetLedger))
  : result AppError A * (ConnectionPayloadCharges * PayloadBudgetLedger) :=
  let '(r, (s, l)) := x in (r, (set_slot n s c, l)).

Definition charges_grow_request (c : ConnectionPayloadCharges) (l : PayloadBudgetLedger)
    (connection_id additional_bytes : N) :=
  at_slot SlotRequest c (request_grow (cpc_request c) l connection_id additional_bytes).

Definition charges_sync_tls_pending (c : ConnectionPayloadCharges) (l : PayloadBudgetLedger)
    (connection_id next_bytes : N) :=
  at_slot SlotTlsPending c (tls_pending_sync (cpc_tls_pending c) l connection_id next_bytes).

Definition charges_sync_websocket_client_to_upstream (c : ConnectionPayloadCharges)
    (l : PayloadBudgetLedger) (connection_id next_bytes : N) :=
  at_slot SlotWsClientToUpstream c
    (slot_sync (cpc_websocket_client_to_upstream c) ClassWebSocketClientToUpstream l
       connection_id next_bytes).

Definition charges_sync_websocket_upstream_to_client (c : ConnectionPayloadCharges)
    (l : PayloadBudgetLedger) (connection_id next_bytes : N) :=
  at_slot SlotWsUpstreamToClient c
    (slot_sync (cpc_websocket_upstream_to_client c) ClassWebSocketUpstreamToClient l
       connection_id next_bytes).

Definition charges_resize_client_response_in_use (c : ConnectionPayloadCharges)
    (l : PayloadBudgetLedger) (next_bytes : N) :=
  at_slot SlotClientResponse c
    (client_response_resize_in_use (cpc_client_response c) l next_bytes).

Definition charges_prepare_client_response_bytes (c : ConnectionPayloadCharges)
    (l : PayloadBudgetLedger) (connection_id next_bytes : N) :=
  at_slot SlotClientResponse c
    (client_response_prepare (cpc_client_response c) l connection_id next_bytes).

Definition charges_commit_client_response_bytes (c : ConnectionPayloadCharges)
    (l : PayloadBudgetLedger) (change : ClientResponseChargeChange)
  : result AppError () * (ConnectionPayloadCharges * PayloadBudgetLedger) :=
  with_slot c (client_response_commit (cpc_client_response c) l change).

Definition charges_rollback_client_response_allocation (c : ConnectionPayloadCharges)
    (l : PayloadBudgetLedger) (change : ClientResponseChargeChange) :=
  at_slot SlotClientResponse c (client_response_rollback (cpc_client_response c) l change).

Definition at_pair {A} (c : ConnectionPayloadCharges)
    (x : result AppError A * ((option N * option N) * PayloadBudgetLedger))
  : result AppError A * (ConnectionPayloadCharges * PayloadBudgetLedger) :=
  let '(r, ((u, p), l)) := x in
  (r, (set_slot SlotRetryReplay p (set_slot SlotUpstream u c), l)).

Definition charges_reserve_upstream_and_retry (c : ConnectionPayloadCharges)
    (l : PayloadBudgetLedger) (connection_id upstream_bytes retry_replay_bytes : N) :=
  at_pair c (retry_pair_reserve (cpc_upstream c) (cpc_retry_replay c) l connection_id
               upstream_bytes retry_replay_bytes).

Definition charges_commit_upstream_and_retry (c : ConnectionPayloadCharges)
    (l : PayloadBudgetLedger) (upstream_bytes retry_replay_bytes : N)
  : result AppError () * (ConnectionPayloadCharges * PayloadBudgetLedger) :=
  with_slot c (retry_pair_commit (cpc_upstream c) (cpc_retry_replay c) l
                 upstream_bytes retry_replay_bytes).

Definition charges_reserve_upstream_replacement (c : ConnectionPayloadCharges)
    (l : PayloadBudgetLedger) (connection_id upstream_bytes : N)
  : result AppError N * (ConnectionPayloadCharges * PayloadBudgetLedger) :=
  match cpc_upstream c with
  | None => with_slot c (fail_accounting "current upstream charge is not installed" l)
  | Some _ => with_slot c (ledger_reserve connection_id ClassUpstreamRequest upstream_bytes
                             (ledger_generation l) l)
  end.

Definition charges_commit_upstream_replacement (c : ConnectionPayloadCharges)
    (l : PayloadBudgetLedger) (replacement upstream_bytes : N)
  : result AppError () * (ConnectionPayloadCharges * PayloadBudgetLedger) :=
  match cpc_upstream c with
  | None => with_slot c (fail_accounting "current upstream charge is not installed" l)
  | Some current =>
      if current =? replacement
      then with_slot c (fail_accounting "replacement upstream charge must be distinct" l)
      else
        let generation := ledger_generation l in
        match ledger_charge l replacement with
        | None => with_slot c (fail_accounting "replacement upstream charge is not live" l)
        | Some replacement_charge =>
            if negb (bool_decide (charge_payload_class replacement_charge = ClassUpstreamRequest))
            then with_slot c
                   (fail_accounting "replacement charge has the wrong payload class" l)
            else
              let! _, (c, l) :=
                with_slot c (ledger_commit replacement upstream_bytes generation l) in
              match ledger_release current generation l with
              | (Err error, l) => (Err error, (c, (ledger_release replacement generation l).2))
              | (Ok _, l) => (Ok (), (set_slot SlotUpstream (Some replacement) c, l))
              end
        end
  end.

Definition charges_release_upstream_replacement_after_allocation_failure
    (c : ConnectionPayloadCharges) (l : PayloadBudgetLedger) (replacement : N)
  : result AppError () * (ConnectionPayloadCharges * PayloadBudgetLedger) :=
  if bool_decide (cpc_upstream c = Some replacement)
  then with_slot c (fail_accounting "current upstream charge cannot be failed as pending" l)
  else with_slot c
         (ledger_release_after_allocation_failure replacement (ledger_generation l) l).

Definition charges_release_upstream_allocation_failure (c : ConnectionPayloadCharges)
    (l : PayloadBudgetLedger) :=
  at_pair c (retry_pair_release_after_allocation_failure (cpc_upstream c)
               (cpc_retry_replay c) l).

Definition charges_release_request (c : ConnectionPayloadCharges) (l : PayloadBudgetLedger) :=
  at_slot SlotRequest c (request_release (cpc_request c) l).

Definition charges_release_slot (n : slot_name) (c : ConnectionPayloadCharges)
    (l : PayloadBudgetLedger) :=
  at_slot n c (slot_release (get_slot n c) l).

Definition charges_release_all (c : ConnectionPayloadCharges) (l : PayloadBudgetLedger)
  : result AppError () * (ConnectionPayloadCharges * PayloadBudgetLedger) :=
  let! _, (c, l) := charges_release_request c l in
  let! _, (c, l) := charges_release_slot SlotUpstream c l in
  let! _, (c, l) := charges_release_slot SlotRetryReplay c l in
  let! _, (c, l) := charges_release_slot SlotClientResponse c l in
  let! _, (c, l) := charges_release_slot SlotTlsPending c l in
  let! _, (c, l) := charges_release_slot SlotWsClientToUpstream c l in
  charges_release_slot SlotWsUpstreamToClient c l.

(** ** What a ledger call does to the held charges *)
Section call_effects.
Context (l : PayloadBudgetLedger) (Hl : ledger_ok l).

Lemma reserve_held_ok conn cls n g id l' :
  ledger_reserve conn cls n g l = (Ok id, l') →
  held l !! id = None ∧ held l' = <[id := n]> (held l) ∧ 0 < n
  ∧ ledger_pressure_state l ≠ FailedClosed.
Proof using Hl.
  unfold ledger_reserve, fail_accounting. case_decide; [done|].
  ledger_guards; [|done]. intros. repeat case_match; simplify_eq/=. nbool.
  split; [by rewrite held_lookup, ledger_core_fresh by apply Hl|].
  split; [|split; [lia|done]].
  unfold held. rewrite refresh_charges. simpl. by rewrite fmap_insert.
Qed.

Lemma reserve_held_err conn cls n g e l' :
  ledger_reserve conn cls n g l = (Err e, l') → same_books l l'.
Proof using Hl.
  intros H. pose proof (ledger_exec_err_same_books (CallReserve conn cls n g) l e (lo_core _ Hl)) as Hs.
  simpl in Hs. rewrite H in Hs. by apply Hs.
Qed.

Lemma replace_held id n r l' :
  replace_charge_bytes id n l = (Ok r, l') →
  is_Some (held l !! id) ∧ held l' = <[id := n]> (held l).
Proof using Hl.
  intros H. apply replace_charge_bytes_same_keys in H as (c & Hc & Hl').
  rewrite held_lookup, Hc. split; [eauto|]. unfold held. by rewrite Hl', fmap_insert.
Qed.

Lemma resize_held_ok id n g r l' :
  ledger_resize id n g l = (Ok r, l') → is_Some (held l !! id) ∧ held l' = <[id := n]> (held l).
Proof using Hl.
  unfold ledger_resize, fail_accounting. ledger_guards; try done.
  case_match; [done|]. apply replace_held.
Qed.

Lemma commit_held_ok id n g r l' :
  ledger_commit id n g l = (Ok r, l') → is_Some (held l !! id) ∧ held l' = <[id := n]> (held l).
Proof using Hl.
  unfold ledger_commit, fail_accounting. ledger_guards; try done. case_match; [done|].
  destruct (replace_charge_bytes id n l) as [[[]|?] l1] eqn:Hr; [|done].
  destruct (ledger_charges l1 !! id) eqn:Hid; [|done]. intros. simplify_eq.
  apply replace_held in Hr as [? Hr]. split; [done|].
  unfold held in *. simpl. by rewrite held_with_state.
Qed.

Lemma grow_held_ok id n g r l' :
  ledger_grow id n g l = (Ok r, l') →
  held l' = held l ∨ (∃ k, is_Some (held l !! id) ∧ held l' = <[id := k]> (held l)).
Proof using Hl.
  unfold ledger_grow. ledger_guards; try done; case_match; intros; simplify_eq; auto.
  case_match; simplify_eq. right. eauto using resize_held_ok.
Qed.

Lemma remove_held_ok id g s r l' :
  remove_live_charge id g s l = (Ok r, l') →
  is_Some (held l !! id) ∧ held l' = delete id (held l).
Proof using Hl.
  unfold remove_live_charge, fail_accounting. ledger_guards; try done.
  intros. repeat case_match; simplify_eq/=. rewrite held_lookup.
  match goal with H : ledger_charges l !! id = Some _ |- _ => rewrite H end.
  split; [eauto|]. unfold held. rewrite refresh_charges. simpl.
  by rewrite delete_insert_eq, fmap_delete.
Qed.

Lemma release_held_ok id g r l' :
  ledger_release id g l = (Ok r, l') → is_Some (held l !! id) ∧ held l' = delete id (held l).
Proof using Hl.
  unfold ledger_release. ledger_guards; try done.
  destruct (remove_live_charge _ _ _ _) as [[]] eqn:Hr; [|done]. intros. simplify_eq.
  by eapply remove_held_ok.
Qed.

Lemma release_alloc_held_ok id g r l' :
  ledger_release_after_allocation_failure id g l = (Ok r, l') →
  is_Some (held l !! id) ∧ held l' = delete id (held l).
Proof using Hl.
  unfold ledger_release_after_allocation_failure. ledger_guards; try done.
  destruct (remove_live_charge _ _ _ _) as [[]] eqn:Hr; [|done]. intros. simplify_eq.
  by eapply remove_held_ok.
Qed.

(** An error of any call leaves the held charges alone. *)
Lemma call_held_err c r l' e :
  ledger_exec c l = (r, l') → r = Err e → held l' = held l.
Proof using Hl.
  intros H ->. apply held_same_books.
  pose proof (ledger_exec_err_same_books c l e (lo_core _ Hl)) as Hs. rewrite H in Hs. by apply Hs.
Qed.

(** Releasing a live charge never fails. *)
Lemma release_live id :
  is_Some (held l !! id) → ∃ l', ledger_release id (ledger_generation l) l = (Ok (), l').
Proof using Hl.
  rewrite held_lookup. intros [n Hn]. apply fmap_Some in Hn as (c & Hc & _).
  eexists. apply ledger_release_spec; [apply Hl|done].
Qed.
End call_effects.

(** ** Ownership

    [slot_effect S S' l l']: a computation that owned the charges [S] of ledger [l]
    ends owning exactly [S'] of [l'], where nothing is leaked, nothing of others is
    touched and what is new is fresh. *)
Definition ids (s : option N) : gset N := match s with Some i => {[i]} | None => ∅ end.
Definition held_ids (l : PayloadBudgetLedger) : gset N := dom (held l).

Record slot_effect (S S' : gset N) (l l' : PayloadBudgetLedger) : Prop := {
  se_ok : ledger_ok l';
  se_dom : held_ids l' = (held_ids l ∖ S) ∪ S';
  se_fresh : ∀ i, i ∈ S' → i ∈ S ∨ i ∉ held_ids l;
  se_frame : ∀ i, i ∉ S → i ∉ S' → held l' !! i = held l !! i
}.

Lemma held_ids_spec l i : i ∈ held_ids l ↔ is_Some (held l !! i).
Proof. apply elem_of_dom. Qed.

Lemma slot_effect_same S l l' :
  ledger_ok l' → S ⊆ held_ids l → held l' = held l → slot_effect S S l l'.
Proof.
  intros Hl HS Hh. unfold held_ids in *. constructor; [done| |auto|by rewrite Hh].
  unfold held_ids. rewrite Hh. apply set_eq. intros i. specialize (HS i).
  destruct (decide (i ∈ S)); set_solver.
Qed.

Lemma slot_effect_trans S S1 S2 l l1 l2 :
  slot_effect S S1 l l1 → slot_effect S1 S2 l1 l2 → slot_effect S S2 l l2.
Proof.
  intros [_ Hd1 Hf1 Hr1] [Hok2 Hd2 Hf2 Hr2]. constructor; [done|..].
  - rewrite Hd2, Hd1. apply set_eq. intros i. specialize (Hf1 i). specialize (Hf2 i).
    destruct (decide (i ∈ S1)), (decide (i ∈ S)), (decide (i ∈ S2)), (decide (i ∈ held_ids l));
      set_solver.
  - intros i Hi. destruct (Hf2 i Hi) as [?|Hn]; [by apply Hf1|]. rewrite Hd1 in Hn.
    destruct (decide (i ∈ S)); set_solver.
  - intros i HS HS2. destruct (decide (i ∈ S1)) as [Hi|Hi]; [|by rewrite Hr2, Hr1].
    destruct (Hf1 i Hi) as [?|Hn]; [done|].
    assert (i ∉ held_ids l2) as Hn2 by (rewrite Hd2; set_solver).
    unfold held_ids in *. rewrite not_elem_of_dom in Hn, Hn2. congruence.
Qed.

(** Charges owned elsewhere are carried along. *)
Lemma slot_effect_extend S S' T l l' :
  T ⊆ held_ids l → S ## T → slot_effect S S' l l' → slot_effect (S ∪ T) (S' ∪ T) l l' ∧ S' ## T.
Proof.
  intros HT Hdisj [Hok Hd Hf Hr]. split; [constructor; [done|..]|].
  - rewrite Hd. apply set_eq. intros i. specialize (HT i).
    destruct (decide (i ∈ T)), (decide (i ∈ S)); set_solver.
  - intros i. specialize (Hf i). set_solver.
  - intros i ? ?. apply Hr; set_solver.
  - intros i Hi HiT. destruct (Hf i Hi); set_solver.
Qed.

Lemma slot_effect_held S S' l l' : slot_effect S S' l l' → S' ⊆ held_ids l'.
Proof. intros [_ -> _ _]. set_solver. Qed.

Lemma slot_effect_reserve l conn cls n g id l' :
  ledger_ok l → ledger_reserve conn cls n g l = (Ok id, l') → slot_effect ∅ {[id]} l l'.
Proof.
  intros Hl H. pose proof (ledger_reserve_ok conn cls n g l Hl) as Hok. rewrite H in Hok.
  apply (reserve_held_ok l Hl) in H as (Hn & Hh & _). constructor; [done|..].
  - unfold held_ids. rewrite Hh, dom_insert_L. set_solver.
  - intros i ->%elem_of_singleton. right. by apply not_elem_of_dom.
  - intros i _ Hi. rewrite Hh, lookup_insert_ne; [done|set_solver].
Qed.

Lemma slot_effect_update l id n l' :
  ledger_ok l' → is_Some (held l !! id) → held l' = <[id := n]> (held l) →
  slot_effect {[id]} {[id]} l l'.
Proof.
  intros Hok Hs Hh. apply held_ids_spec in Hs. constructor; [done| |auto|].
  - unfold held_ids in *. rewrite Hh, dom_insert_L. apply set_eq. intros i.
    destruct (decide (i = id)) as [->|]; set_solver.
  - intros i _ Hi. rewrite Hh, lookup_insert_ne; [done|set_solver].
Qed.

Lemma slot_effect_free l id l' :
  ledger_ok l' → held l' = delete id (held l) → slot_effect {[id]} ∅ l l'.
Proof.
  intros Hok Hh. constructor; [done| |set_solver|].
  - unfold held_ids. rewrite Hh, dom_delete_L. set_solver.
  - intros i Hi _. rewrite Hh, lookup_delete_ne; [done|set_solver].
Qed.

Lemma exec_err_effect S c l e l' :
  ledger_ok l → S ⊆ held_ids l → ledger_exec c l = (Err e, l') → slot_effect S S l l'.
Proof.
  intros Hl HS H. apply slot_effect_same; [|done|by eapply call_held_err].
  pose proof (ledger_exec_ok c l Hl) as Hok. by rewrite H in Hok.
Qed.

Section failing_calls.
Context (l : PayloadBudgetLedger) (Hl : ledger_ok l) (S : gset N) (HS : S ⊆ held_ids l).
Context (e : AppError) (l' : PayloadBudgetLedger).

Lemma reserve_err_effect conn cls n g :
  ledger_reserve conn cls n g l = (Err e, l') → slot_effect S S l l'.
Proof using Hl HS.
  intros H. apply (exec_err_effect S (CallReserve conn cls n g) l e); [done..|].
  simpl. by rewrite H.
Qed.
Lemma resize_err_effect id n g : ledger_resize id n g l = (Err e, l') → slot_effect S S l l'.
Proof using Hl HS.
  intros H. apply (exec_err_effect S (CallResize id n g) l e); [done..|]. simpl. by rewrite H.
Qed.
Lemma commit_err_effect id n g : ledger_commit id n g l = (Err e, l') → slot_effect S S l l'.
Proof using Hl HS.
  intros H. apply (exec_err_effect S (CallCommit id n g) l e); [done..|]. simpl. by rewrite H.
Qed.
Lemma grow_err_effect id n g : ledger_grow id n g l = (Err e, l') → slot_effect S S l l'.
Proof using Hl HS.
  intros H. apply (exec_err_effect S (CallGrow id n g) l e); [done..|]. simpl. by rewrite H.
Qed.
Lemma release_err_effect id g : ledger_release id g l = (Err e, l') → slot_effect S S l l'.
Proof using Hl HS.
  intros H. apply (exec_err_effect S (CallRelease id g) l e); [done..|]. simpl. by rewrite H.
Qed.
Lemma release_alloc_err_effect id g :
  ledger_release_after_allocation_failure id g l = (Err e, l') → slot_effect S S l l'.
Proof using Hl HS.
  intros H. apply (exec_err_effect S (CallReleaseAfterAllocationFailure id g) l e); [done..|].
  simpl. by rewrite H.
Qed.
End failing_calls.

Section succeeding_calls.
Context (l : PayloadBudgetLedger) (Hl : ledger_ok l) (r : unit) (l' : PayloadBudgetLedger) (id g : N).

Lemma resize_effect n : ledger_resize id n g l = (Ok r, l') → slot_effect {[id]} {[id]} l l'.
Proof using Hl.
  intros H. pose proof (ledger_resize_ok id n g l Hl) as Hok. rewrite H in Hok.
  apply (resize_held_ok l Hl) in H as [? ?]. by eapply slot_effect_update.
Qed.
Lemma commit_effect n : ledger_commit id n g l = (Ok r, l') → slot_effect {[id]} {[id]} l l'.
Proof using Hl.
  intros H. pose proof (ledger_commit_ok id n g l Hl) as Hok. rewrite H in Hok.
  apply (commit_held_ok l Hl) in H as [? ?]. by eapply slot_effect_update.
Qed.
Lemma grow_effect n :
  id ∈ held_ids l → ledger_grow id n g l = (Ok r, l') → slot_effect {[id]} {[id]} l l'.
Proof using Hl.
  intros Hid H. pose proof (ledger_grow_ok id n g l Hl) as Hok. rewrite H in Hok.
  apply (grow_held_ok l Hl) in H as [?|(k & ? & ?)]; [|by eapply slot_effect_update].
  apply slot_effect_same; [done|set_solver|done].
Qed.
Lemma release_effect : ledger_release id g l = (Ok r, l') → slot_effect {[id]} ∅ l l'.
Proof using Hl.
  intros H. pose proof (ledger_release_ok id g l Hl) as Hok. rewrite H in Hok.
  apply (release_held_ok l Hl) in H as [? ?]. by apply slot_effect_free.
Qed.
Lemma release_alloc_effect :
  ledger_release_after_allocation_failure id g l = (Ok r, l') → slot_effect {[id]} ∅ l l'.
Proof using Hl.
  intros H. pose proof (ledger_release_after_allocation_failure_ok id g l Hl) as Hok. rewrite H in Hok.
  apply (release_alloc_held_ok l Hl) in H as [? ?]. by apply slot_effect_free.
Qed.
End succeeding_calls.

#[export] Hint Resolve reserve_err_effect resize_err_effect commit_err_effect grow_err_effect
  release_err_effect release_alloc_err_effect resize_effect commit_effect release_effect
  release_alloc_effect slot_effect_reserve : edge.

(** Case analysis on the ledger call a slot function makes. *)
Ltac slot_call :=
  unfold with_slot;
  match goal with |- context [fst ?x] => destruct x as [[?|?] ?] eqn:? end; simpl.

Section slot_functions.
Context (slot : option N) (l : PayloadBudgetLedger).
Context (Hl : ledger_ok l) (Hslot : ids slot ⊆ held_ids l).

Lemma slot_release_effect r s' l' :
  slot_release slot l = (r, (s', l')) → slot_effect (ids slot) (ids s') l l'.
Proof using Hl Hslot.
  unfold slot_release. destruct slot as [id|]; simpl in *.
  - slot_call; intros; simplify_eq; eauto with edge.
  - intros; simplify_eq. by apply slot_effect_same.
Qed.

Lemma request_release_effect r s' l' :
  request_release slot l = (r, (s', l')) → slot_effect (ids slot) (ids s') l l'.
Proof using Hl Hslot. apply slot_release_effect. Qed.

Lemma request_grow_effect conn n r s' l' :
  request_grow slot l conn n = (r, (s', l')) → slot_effect (ids slot) (ids s') l l'.
Proof using Hl Hslot.
  unfold request_grow. case_match; [intros; simplify_eq; by apply slot_effect_same|].
  destruct slot as [id|]; simpl in *; slot_call; intros; simplify_eq; eauto with edge.
  eapply grow_effect; eauto. set_solver.
Qed.

Lemma client_response_resize_in_use_effect n r s' l' :
  client_response_resize_in_use slot l n = (r, (s', l')) → slot_effect (ids slot) (ids s') l l'.
Proof using Hl Hslot.
  unfold client_response_resize_in_use. destruct slot as [id|]; simpl in *.
  - case_match; slot_call; intros; simplify_eq; eauto with edge.
  - unfold with_slot, fail_accounting. simpl. intros; simplify_eq.
    apply slot_effect_same; auto with edge.
Qed.

Lemma client_response_prepare_effect conn n r s' l' :
  client_response_prepare slot l conn n = (r, (s', l')) → slot_effect (ids slot) (ids s') l l'.
Proof using Hl Hslot.
  unfold client_response_prepare. destruct slot as [id|]; simpl in *.
  - case_match; [slot_call|]; intros; simplify_eq; eauto using slot_effect_same with edge.
  - slot_call; intros; simplify_eq; eauto with edge.
Qed.

Lemma client_response_rollback_effect ch r s' l' :
  client_response_rollback slot l ch = (r, (s', l')) → slot_effect (ids slot) (ids s') l l'.
Proof using Hl Hslot.
  unfold client_response_rollback. case_bool_decide as Heq; simpl.
  - subst slot. simpl in *. case_match; slot_call; intros; simplify_eq; eauto with edge.
  - unfold with_slot, fail_accounting. simpl. intros; simplify_eq.
    apply slot_effect_same; auto with edge.
Qed.
End slot_functions.

(** A charge this computation owns can always be given back. *)
Lemma owned_release_effect l id g :
  ledger_ok l → id ∈ held_ids l → g = ledger_generation l →
  ∃ l', ledger_release id g l = (Ok (), l') ∧ slot_effect {[id]} ∅ l l'.
Proof.
  intros Hl Hid ->. destruct (release_live l Hl id) as [l' H]; [by apply held_ids_spec|].
  eauto with edge.
Qed.

Lemma reserve_frame conn cls n g l r l' :
  ledger_ok l → ledger_reserve conn cls n g l = (r, l') → ledger_generation l' = ledger_generation l.
Proof.
  intros Hl H. pose proof (ledger_exec_frame (CallReserve conn cls n g) l (lo_core _ Hl)) as [_ Hg].
  simpl in Hg. rewrite H in Hg. by destruct r.
Qed.

Lemma commit_frame id n g l r l' :
  ledger_ok l → ledger_commit id n g l = (r, l') → ledger_generation l' = ledger_generation l.
Proof.
  intros Hl H. pose proof (ledger_exec_frame (CallCommit id n g) l (lo_core _ Hl)) as [_ Hg].
  simpl in Hg. rewrite H in Hg. by destruct r.
Qed.

Lemma slot_sync_effect slot cls l conn n r s' l' :
  ledger_ok l → ids slot ⊆ held_ids l →
  slot_sync slot cls l conn n = (r, (s', l')) → slot_effect (ids slot) (ids s') l l'.
Proof.
  intros Hl Hslot. unfold slot_sync.
  case_match; [intros; simplify_eq; by apply slot_effect_same|]. case_match.
  { destruct (slot_release slot l) as [[?|?] [? ?]] eqn:Hr; intros; simplify_eq;
      by eapply slot_release_effect. }
  destruct slot as [id|]; simpl in *; slot_call; intros; simplify_eq; eauto with edge.
  match goal with H : ledger_reserve _ _ _ _ l = (Ok ?i, ?lx) |- _ =>
    rename i into id, lx into l1, H into Hres end.
  pose proof (slot_effect_reserve _ _ _ _ _ _ _ Hl Hres) as Heff.
  pose proof (reserve_frame _ _ _ _ _ _ _ Hl Hres) as Hg.
  pose proof (slot_effect_held _ _ _ _ Heff) as Hin. pose proof (se_ok _ _ _ _ Heff) as Hl1.
  destruct (ledger_commit id n (ledger_generation l) l1) as [[[]|e] l2] eqn:Hc; simplify_eq.
  - eapply slot_effect_trans; [done|]. eauto with edge.
  - pose proof (commit_err_effect l1 Hl1 {[id]} Hin _ _ _ _ _ Hc) as Heff2.
    pose proof (commit_frame _ _ _ _ _ _ Hl1 Hc) as Hg2.
    destruct (owned_release_effect l2 id (ledger_generation l)) as (l3 & -> & Heff3);
      [apply Heff2|by eapply slot_effect_held in Heff2; set_solver|congruence|].
    simpl. by eapply slot_effect_trans; [|eapply slot_effect_trans].
Qed.

Lemma retry_pair_reserve_effect u p l conn nu np r u' p' l' :
  ledger_ok l → ids u ∪ ids p ⊆ held_ids l →
  retry_pair_reserve u p l conn nu np = (r, ((u', p'), l')) →
  slot_effect (ids u ∪ ids p) (ids u' ∪ ids p') l l' ∧ (ids u ## ids p → ids u' ## ids p').
Proof.
  intros Hl HS. unfold retry_pair_reserve.
  destruct u as [u|], p as [p|]; simpl; unfold with_slot, fail_accounting; simpl;
    try by intros; simplify_eq; split; [apply slot_effect_same; auto with edge|].
  simpl in HS. replace (∅ ∪ ∅ : gset N) with (∅ : gset N) by set_solver.
  destruct (ledger_reserve conn ClassUpstreamRequest nu _ l) as [[id1|e] l1] eqn:H1; simpl;
    [|intros; simplify_eq; simpl; replace (∅ ∪ ∅ : gset N) with (∅ : gset N) by set_solver;
      split; [eapply reserve_err_effect; eauto; set_solver|set_solver]].
  pose proof (slot_effect_reserve _ _ _ _ _ _ _ Hl H1) as E1.
  pose proof (se_ok _ _ _ _ E1) as Hl1. pose proof (slot_effect_held _ _ _ _ E1) as Hin.
  pose proof (reserve_frame _ _ _ _ _ _ _ Hl H1) as Hg1.
  destruct (ledger_reserve conn ClassRetryReplay np _ l1) as [[id2|e] l2] eqn:H2; simpl.
  - intros; simplify_eq; simpl. pose proof (slot_effect_reserve _ _ _ _ _ _ _ Hl1 H2) as E2.
    destruct (slot_effect_extend ∅ {[id2]} {[id1]} l1 l' Hin ltac:(set_solver) E2) as [E3 Hd].
    replace (∅ ∪ {[id1]} : gset N) with ({[id1]} : gset N) in E3 by set_solver.
    replace ({[id2]} ∪ {[id1]} : gset N) with ({[id1]} ∪ {[id2]} : gset N) in E3 by set_solver.
    split; [by eapply slot_effect_trans|set_solver].
  - pose proof (reserve_err_effect l1 Hl1 {[id1]} Hin _ _ _ _ _ _ H2) as E2.
    pose proof (reserve_frame _ _ _ _ _ _ _ Hl1 H2) as Hg2.
    destruct (owned_release_effect l2 id1 (ledger_generation l)) as (l3 & -> & E3);
      [apply E2|eapply slot_effect_held in E2; set_solver|congruence|]. simpl.
    intros; simplify_eq; simpl. replace (∅ ∪ ∅ : gset N) with (∅ : gset N) by set_solver.
    split; [by eapply slot_effect_trans; [|eapply slot_effect_trans]|set_solver].
Qed.

(** ** All slots of a connection

    A place is one of the seven slots or ([None]) the pending replacement charge,
    which the caller of [reserve_upstream_replacement] holds until it commits or
    fails it. *)
Definition place : Type := option slot_name.
Definition all_places : list place := None :: (Some <$> all_slots).
Definition places := place → option N.

Definition owned (f : places) : gset N := ⋃ (ids ∘ f <$> all_places).
Definition update (f : places) (p : place) (v : option N) : places :=
  λ q, if decide (q = p) then v else f q.

Record conn_ok (f : places) (l : PayloadBudgetLedger) : Prop := {
  ck_ledger : ledger_ok l;
  ck_live : owned f ⊆ held_ids l;
  ck_disjoint : ∀ p q, p ≠ q → ids (f p) ## ids (f q)
}.

Lemma all_places_complete p : p ∈ all_places.
Proof. destruct p as [[]|]; set_solver. Qed.

Lemma elem_of_owned f i : i ∈ owned f ↔ ∃ p, i ∈ ids (f p).
Proof.
  unfold owned. rewrite elem_of_union_list. split.
  - intros (X & (p & -> & _)%list_elem_of_fmap & Hi). eauto.
  - intros (p & Hi). eexists. split; [apply list_elem_of_fmap_2, (all_places_complete p)|done].
Qed.

Lemma owned_ext f g : (∀ p, f p = g p) → owned f = owned g.
Proof. intros H. apply set_eq. intros i. rewrite !elem_of_owned. by setoid_rewrite H. Qed.

Lemma conn_ok_ext f g l : (∀ p, f p = g p) → conn_ok f l → conn_ok g l.
Proof.
  intros H [? Hlive Hd]. constructor; [done| |].
  - by rewrite <-(owned_ext f g).
  - intros p q ?. rewrite <-!H. by apply Hd.
Qed.

Lemma owned_place f p : ids (f p) ⊆ owned f.
Proof. intros i ?. apply elem_of_owned. eauto. Qed.

Lemma update_eq f p v : update f p v p = v.
Proof. unfold update. by rewrite decide_True. Qed.
Lemma update_ne f p q v : q ≠ p → update f p v q = f q.
Proof. intros. unfold update. by rewrite decide_False. Qed.

Lemma owned_update f p v : owned (update f p v) = ids v ∪ owned (update f p None).
Proof.
  apply set_eq. intros i. rewrite elem_of_union, !elem_of_owned. split.
  - intros (q & Hq). destruct (decide (q = p)) as [->|Hne].
    + rewrite update_eq in Hq. auto.
    + rewrite update_ne in Hq by done. right. exists q. by rewrite update_ne.
  - intros [Hi|(q & Hq)]; [exists p; by rewrite update_eq|].
    destruct (decide (q = p)) as [->|Hne]; [rewrite update_eq in Hq; set_solver|].
    exists q. rewrite update_ne in * by done. done.
Qed.

Lemma update_id f p q : update f p (f p) q = f q.
Proof. unfold update. by case_decide; subst. Qed.

Lemma owned_split f p : owned f = ids (f p) ∪ owned (update f p None).
Proof. rewrite <-owned_update. apply owned_ext. intros. by rewrite update_id. Qed.

Lemma conn_ok_rest f l p : conn_ok f l → ids (f p) ## owned (update f p None).
Proof.
  intros [_ _ Hd] i Hi (q & Hq)%elem_of_owned. destruct (decide (q = p)) as [->|Hne].
  - rewrite update_eq in Hq. set_solver.
  - rewrite update_ne in Hq by done. by apply (Hd q p Hne i).
Qed.

(** A computation on one place. *)
Lemma place_effect f p v l l' :
  conn_ok f l → slot_effect (ids (f p)) (ids v) l l' →
  conn_ok (update f p v) l' ∧ slot_effect (owned f) (owned (update f p v)) l l'.
Proof.
  intros Hc E. destruct (slot_effect_extend (ids (f p)) (ids v) (owned (update f p None)) l l')
    as [E' Hd]; [| by eapply conn_ok_rest | done |].
  { transitivity (owned f); [rewrite (owned_split f p); set_solver|apply Hc]. }
  rewrite <-(owned_split f p), <-owned_update in E'. split; [|done].
  constructor; [apply E|by eapply slot_effect_held|]. intros a b Hab.
  destruct (decide (a = p)) as [->|Ha]; destruct (decide (b = p)) as [->|Hb]; try done.
  - rewrite update_eq. pose proof (owned_place (update f p None) b).
    rewrite !update_ne in * by done. set_solver.
  - rewrite update_eq. pose proof (owned_place (update f p None) a).
    rewrite !update_ne in * by done. set_solver.
  - rewrite !update_ne by done. by apply Hc.
Qed.

(** A computation on two places. *)
Lemma two_places_effect f p q v w l l' :
  conn_ok f l → p ≠ q → slot_effect (ids (f p) ∪ ids (f q)) (ids v ∪ ids w) l l' →
  ids v ## ids w →
  conn_ok (update (update f p v) q w) l'
  ∧ slot_effect (owned f) (owned (update (update f p v) q w)) l l'.
Proof.
  intros Hc Hpq E Hvw. set (g := update (update f p None) q None).
  assert (Hf : owned f = (ids (f p) ∪ ids (f q)) ∪ owned g).
  { rewrite (owned_split f p), (owned_split (update f p None) q), update_ne by done. set_solver. }
  assert (Hrest : (ids (f p) ∪ ids (f q)) ## owned g).
  { pose proof (conn_ok_rest f l p Hc) as H1. pose proof (conn_ok_rest f l q Hc) as H2.
    assert (owned g ⊆ owned (update f p None)) by
      (rewrite (owned_split (update f p None) q); set_solver).
    assert (owned g ⊆ owned (update f q None)).
    { intros i (r & Hr)%elem_of_owned. apply elem_of_owned. exists r. revert Hr. unfold g, update.
      repeat case_decide; set_solver. }
    set_solver. }
  assert (Hlive : owned g ⊆ held_ids l).
  { transitivity (owned f); [rewrite Hf; set_solver|apply Hc]. }
  destruct (slot_effect_extend _ _ (owned g) l l' Hlive Hrest E) as [E' Hd].
  assert (Hf' : owned (update (update f p v) q w) = (ids v ∪ ids w) ∪ owned g).
  { apply set_eq. intros i. rewrite !elem_of_union, !elem_of_owned. unfold g, update. split.
    - intros (r & Hr). revert Hr. repeat case_decide; subst; auto.
      intros. right. exists r. by rewrite !decide_False.
    - intros [[Hi|Hi]|(r & Hr)].
      + exists p. by rewrite decide_False, decide_True by done.
      + exists q. by rewrite decide_True.
      + exists r. revert Hr. repeat case_decide; set_solver. }
  rewrite <-Hf, <-Hf' in E'. split; [|done].
  constructor; [apply E|by eapply slot_effect_held|]. intros a b Hab.
  assert (Hg : ∀ x, x ≠ p → x ≠ q → ids (f x) ⊆ owned g).
  { intros x ? ?. pose proof (owned_place g x) as Hx. unfold g in Hx.
    rewrite !update_ne in Hx by done. done. }
  unfold update. repeat case_decide; subst; try done;
    try (by apply Hc); try (symmetry; done); try set_solver.
Qed.

Lemma retry_pair_release_alloc_effect u p l r u' p' l' :
  ledger_ok l → ids u ∪ ids p ⊆ held_ids l → ids u ## ids p →
  retry_pair_release_after_allocation_failure u p l = (r, ((u', p'), l')) →
  slot_effect (ids u ∪ ids p) (ids u' ∪ ids p') l l' ∧ ids u' ## ids p'.
Proof.
  intros Hl HS Hd. unfold retry_pair_release_after_allocation_failure, with_slot.
  set (Q := match u with Some _ => _ | None => _ end).
  assert (Q.1 = Ok () ∧ slot_effect (ids u ∪ ids p) (∅ ∪ ids p) l Q.2.2 ∧ Q.2.1 = (None, p)
    ∨ (∃ e, Q.1 = Err e) ∧ slot_effect (ids u ∪ ids p) (ids u ∪ ids p) l Q.2.2 ∧ Q.2.1 = (u, p)) as HQ.
  { unfold Q. destruct u as [u|]; simpl in *.
    - destruct (ledger_release_after_allocation_failure u _ l) as [[[]|e] l1] eqn:H; simpl.
      + left. split_and!; [done| |done]. apply (slot_effect_extend {[u]} ∅); [set_solver..|].
        eauto with edge.
      + right. split_and!; [eauto| |done]. eauto with edge.
    - left. split_and!; [done| |done]. by apply slot_effect_same. }
  destruct Q as [[[]|e] [[u1 p1] l1]]; simpl in *;
    destruct HQ as [(? & E1 & ?)|([? ?] & E1 & ?)]; simplify_eq;
    [|by intros; simplify_eq].
  destruct p as [p|]; simpl in *; [|intros; simplify_eq; simpl; split; [done|set_solver]].
  replace (∅ ∪ {[p]} : gset N) with ({[p]} : gset N) in E1 by set_solver.
  pose proof (slot_effect_held _ _ _ _ E1) as Hin. pose proof (se_ok _ _ _ _ E1) as Hl1.
  destruct (ledger_release p _ l1) as [[[]|e] l2] eqn:H; simpl; intros; simplify_eq; simpl;
    (split; [|set_solver]); (eapply slot_effect_trans; [exact E1|]).
  - replace (∅ ∪ ∅ : gset N) with (∅ : gset N) by set_solver. eauto with edge.
  - replace (∅ ∪ {[p]} : gset N) with ({[p]} : gset N) by set_solver. eauto with edge.
Qed.

(** Commits change no slot; they only rewrite charges the connection owns. *)
Lemma commit_any_effect S l id n g r l' :
  ledger_ok l → S ⊆ held_ids l → id ∈ S → ledger_commit id n g l = (r, l') → slot_effect S S l l'.
Proof.
  intros Hl HS Hid H. destruct r as [[]|e]; [|eauto with edge].
  apply (commit_effect l Hl) in H.
  destruct (slot_effect_extend {[id]} {[id]} (S ∖ {[id]}) l l') as [E _]; [set_solver..|done|].
  replace ({[id]} ∪ S ∖ {[id]}) with S in E; [done|]. apply set_eq. intros i.
  destruct (decide (i = id)) as [->|]; set_solver.
Qed.

Lemma fail_accounting_effect {A} S msg l :
  ledger_ok l → S ⊆ held_ids l → slot_effect S S l (@fail_accounting A msg l).2.
Proof. intros. apply slot_effect_same; simpl; auto with edge. Qed.

Lemma client_response_commit_effect slot l ch r l' :
  ledger_ok l → ids slot ⊆ held_ids l →
  client_response_commit slot l ch = (r, l') → slot_effect (ids slot) (ids slot) l l'.
Proof.
  intros Hl HS. unfold client_response_commit. case_bool_decide as Heq; simpl.
  - subst slot. case_match; [intros; simplify_eq; by apply slot_effect_same|].
    destruct (ledger_commit _ _ _ l) as [[[]|?] ?] eqn:Hc; intros; simplify_eq;
      (eapply commit_any_effect; [done..| |exact Hc]); simpl; set_solver.
  - intros H. pose proof (@fail_accounting_effect () (ids slot)
      "client response change is not current" l Hl HS) as E. by rewrite H in E.
Qed.

Lemma retry_pair_commit_effect u p l nu np r l' :
  ledger_ok l → ids u ∪ ids p ⊆ held_ids l →
  retry_pair_commit u p l nu np = (r, l') →
  slot_effect (ids u ∪ ids p) (ids u ∪ ids p) l l'.
Proof.
  intros Hl HS. unfold retry_pair_commit.
  destruct u as [u|], p as [p|]; unfold fail_accounting;
    try by intros; simplify_eq; apply slot_effect_same; auto with edge.
  destruct (ledger_commit u _ _ l) as [[[]|?] l1] eqn:H1;
    intros; simplify_eq; (eapply commit_any_effect in H1; [| done | exact HS | set_solver]); [|done].
  eapply slot_effect_trans; [done|]. eapply commit_any_effect; [apply H1| | |done];
    [by eapply slot_effect_held|set_solver].
Qed.

(** *** Operations of a connection, in any order *)
Inductive charges_op : Set :=
| OpGrowRequest (n : N)
| OpSyncTlsPending (n : N)
| OpSyncWsClientToUpstream (n : N)
| OpSyncWsUpstreamToClient (n : N)
| OpResizeClientResponse (n : N)
| OpPrepareClientResponse (n : N)
| OpCommitClientResponse (change : ClientResponseChargeChange)
| OpRollbackClientResponse (change : ClientResponseChargeChange)
| OpReserveUpstreamAndRetry (nu np : N)
| OpCommitUpstreamAndRetry (nu np : N)
| OpReserveReplacement (n : N)
| OpCommitReplacement (n : N)
| OpFailReplacement
| OpReleaseUpstreamAllocationFailure
| OpReleaseRequest
| OpReleaseAll.

(** The connection, the replacement charge its caller holds, and the ledger. *)
Record charges_state := {
  cs_charges : ConnectionPayloadCharges;
  cs_pending : option N;
  cs_ledger : PayloadBudgetLedger
}.

Definition keep_pending {A} (pending : option N)
    (x : result AppError A * (ConnectionPayloadCharges * PayloadBudgetLedger)) : charges_state :=
  {| cs_charges := x.2.1; cs_pending := pending; cs_ledger := x.2.2 |}.

(** The pending replacement after the call that consumes it: kept on an error. *)
Definition consume_pending (replacement : N)
    (x : result AppError () * (ConnectionPayloadCharges * PayloadBudgetLedger)) : charges_state :=
  keep_pending (if is_ok x.1 then None else Some replacement) x.

Definition charges_exec (conn : N) (op : charges_op) (s : charges_state) : charges_state :=
  let '{| cs_charges := c; cs_pending := pending; cs_ledger := l |} := s in
  match op with
  | OpGrowRequest n => keep_pending pending (charges_grow_request c l conn n)
  | OpSyncTlsPending n => keep_pending pending (charges_sync_tls_pending c l conn n)
  | OpSyncWsClientToUpstream n =>
      keep_pending pending (charges_sync_websocket_client_to_upstream c l conn n)
  | OpSyncWsUpstreamToClient n =>
      keep_pending pending (charges_sync_websocket_upstream_to_client c l conn n)
  | OpResizeClientResponse n =>
      keep_pending pending (charges_resize_client_response_in_use c l n)
  | OpPrepareClientResponse n =>
      keep_pending pending (charges_prepare_client_response_bytes c l conn n)
  | OpCommitClientResponse change =>
      keep_pending pending (charges_commit_client_response_bytes c l change)
  | OpRollbackClientResponse change =>
      keep_pending pending (charges_rollback_client_response_allocation c l change)
  | OpReserveUpstreamAndRetry nu np =>
      keep_pending pending (charges_reserve_upstream_and_retry c l conn nu np)
  | OpCommitUpstreamAndRetry nu np =>
      keep_pending pending (charges_commit_upstream_and_retry c l nu np)
  | OpReserveReplacement n =>
      match pending with
      | Some _ => s
      | None => let x := charges_reserve_upstream_replacement c l conn n in
                keep_pending (match x.1 with Ok id => Some id | Err _ => None end) x
      end
  | OpCommitReplacement n =>
      match pending with
      | Some id => consume_pending id (charges_commit_upstream_replacement c l id n)
      | None => s
      end
  | OpFailReplacement =>
      match pending with
      | Some id =>
          consume_pending id (charges_release_upstream_replacement_after_allocation_failure c l id)
      | None => s
      end
  | OpReleaseUpstreamAllocationFailure =>
      keep_pending pending (charges_release_upstream_allocation_failure c l)
  | OpReleaseRequest => keep_pending pending (charges_release_request c l)
  | OpReleaseAll => keep_pending pending (charges_release_all c l)
  end.

Definition view (c : ConnectionPayloadCharges) (pending : option N) : places :=
  λ p, match p with None => pending | Some n => get_slot n c end.

(** The charges a state owns, and its invariant. *)
Definition state_owned (s : charges_state) : gset N := owned (view (cs_charges s) (cs_pending s)).
Definition state_ok (s : charges_state) : Prop :=
  conn_ok (view (cs_charges s) (cs_pending s)) (cs_ledger s).

(** What every operation guarantees. *)
Definition preserves (s s' : charges_state) : Prop :=
  state_ok s' ∧ slot_effect (state_owned s) (state_owned s') (cs_ledger s) (cs_ledger s').

Lemma get_set_slot n m v c : get_slot m (set_slot n v c) = if decide (m = n) then v else get_slot m c.
Proof. by destruct m. Qed.

Lemma view_set_slot n v c pend p :
  view (set_slot n v c) pend p = update (view c pend) (Some n) v p.
Proof.
  unfold view, update. destruct p as [m|]; [|done]. rewrite get_set_slot.
  repeat case_decide; congruence.
Qed.

Lemma preserves_update s c' pend' l' f :
  (∀ p, f p = view c' pend' p) →
  conn_ok f l' → slot_effect (state_owned s) (owned f) (cs_ledger s) l' →
  preserves s {| cs_charges := c'; cs_pending := pend'; cs_ledger := l' |}.
Proof.
  intros Hf Hc E. split; [by apply (conn_ok_ext f)|].
  unfold state_owned at 2. simpl. by rewrite <-(owned_ext f).
Qed.

Lemma preserves_same s l' :
  state_ok s → slot_effect (state_owned s) (state_owned s) (cs_ledger s) l' →
  preserves s {| cs_charges := cs_charges s; cs_pending := cs_pending s; cs_ledger := l' |}.
Proof.
  intros Hs E. eapply preserves_update; [done| |done].
  constructor; [apply E|by eapply slot_effect_held|apply Hs].
Qed.

Lemma preserves_slot {A} n c pend l (x : result AppError A * (option N * PayloadBudgetLedger)) :
  state_ok {| cs_charges := c; cs_pending := pend; cs_ledger := l |} →
  slot_effect (ids (get_slot n c)) (ids x.2.1) l x.2.2 →
  preserves {| cs_charges := c; cs_pending := pend; cs_ledger := l |}
    (keep_pending pend (at_slot n c x)).
Proof.
  intros Hs E. destruct x as [r [s' l']]. simpl in *.
  destruct (place_effect (view c pend) (Some n) s' l l' Hs E) as [Hc E'].
  eapply preserves_update; [|exact Hc|exact E']. intros p. symmetry. apply view_set_slot.
Qed.

Lemma preserves_pair {A} c pend l
    (x : result AppError A * ((option N * option N) * PayloadBudgetLedger)) :
  state_ok {| cs_charges := c; cs_pending := pend; cs_ledger := l |} →
  slot_effect (ids (cpc_upstream c) ∪ ids (cpc_retry_replay c)) (ids x.2.1.1 ∪ ids x.2.1.2) l x.2.2 →
  ids x.2.1.1 ## ids x.2.1.2 →
  preserves {| cs_charges := c; cs_pending := pend; cs_ledger := l |}
    (keep_pending pend (at_pair c x)).
Proof.
  intros Hs E Hd. destruct x as [r [[u' p'] l']]. simpl in *.
  destruct (two_places_effect (view c pend) (Some SlotUpstream) (Some SlotRetryReplay) u' p' l l' Hs)
    as [Hc E']; [done..|].
  eapply preserves_update; [|exact Hc|exact E']. intros [[]|]; reflexivity.
Qed.

(** What the invariant says of a slot. *)
Lemma state_ok_slot s n : state_ok s → ids (get_slot n (cs_charges s)) ⊆ held_ids (cs_ledger s).
Proof.
  intros Hs. etransitivity; [|apply Hs].
  apply (owned_place (view (cs_charges s) (cs_pending s)) (Some n)).
Qed.

Lemma state_ok_pending s : state_ok s → ids (cs_pending s) ⊆ held_ids (cs_ledger s).
Proof.
  intros Hs. etransitivity; [|apply Hs].
  apply (owned_place (view (cs_charges s) (cs_pending s)) None).
Qed.

Lemma state_ok_disjoint s n m :
  state_ok s → n ≠ m → ids (get_slot n (cs_charges s)) ## ids (get_slot m (cs_charges s)).
Proof. intros Hs Hnm. apply (ck_disjoint _ _ Hs (Some n) (Some m)). congruence. Qed.

Lemma preserves_trans s s1 s2 : preserves s s1 → preserves s1 s2 → preserves s s2.
Proof. intros [? ?] [? ?]. split; [done|]. by eapply slot_effect_trans. Qed.

Lemma preserves_refl s : state_ok s → preserves s s.
Proof.
  intros Hs. split; [done|]. apply slot_effect_same; [apply Hs|apply Hs|done].
Qed.

Lemma preserves_release_slot c pend l n :
  state_ok {| cs_charges := c; cs_pending := pend; cs_ledger := l |} →
  preserves {| cs_charges := c; cs_pending := pend; cs_ledger := l |}
    (keep_pending pend (charges_release_slot n c l)).
Proof.
  intros Hs. apply preserves_slot; [done|].
  destruct (slot_release _ l) as [r [s' l']] eqn:H. simpl.
  eapply slot_release_effect; [apply Hs|exact (state_ok_slot _ n Hs)|exact H].
Qed.

(** Releasing a slot the connection owns succeeds and empties it. *)
Lemma charges_release_slot_ok c pend l n :
  state_ok {| cs_charges := c; cs_pending := pend; cs_ledger := l |} →
  ∃ l', charges_release_slot n c l = (Ok (), (set_slot n None c, l'))
  ∧ preserves {| cs_charges := c; cs_pending := pend; cs_ledger := l |}
      {| cs_charges := set_slot n None c; cs_pending := pend; cs_ledger := l' |}.
Proof.
  intros Hs. pose proof (preserves_release_slot c pend l n Hs) as Hp.
  assert (∃ l', charges_release_slot n c l = (Ok (), (set_slot n None c, l'))) as [l' H].
  { unfold charges_release_slot, slot_release, with_slot.
    pose proof (state_ok_slot _ n Hs) as Hin. destruct (get_slot n c) as [id|] eqn:Hid; simpl in *.
    - destruct (release_live l (ck_ledger _ _ Hs) id) as [l' ->]; [apply held_ids_spec; rewrite Hid in Hin; set_solver|].
      simpl. eauto.
    - eauto. }
  exists l'. split; [done|]. by rewrite H in Hp.
Qed.

Lemma charges_release_all_ok c pend l :
  state_ok {| cs_charges := c; cs_pending := pend; cs_ledger := l |} →
  ∃ l', charges_release_all c l = (Ok (), (charges_default, l'))
  ∧ preserves {| cs_charges := c; cs_pending := pend; cs_ledger := l |}
      {| cs_charges := charges_default; cs_pending := pend; cs_ledger := l' |}.
Proof.
  intros Hs. unfold charges_release_all.
  change (charges_release_request c l) with (charges_release_slot SlotRequest c l).
  repeat match goal with
  | H : state_ok {| cs_charges := ?c; cs_pending := pend; cs_ledger := ?l |}
    |- context [charges_release_slot ?n ?c ?l] =>
      let l' := fresh "l" in let P := fresh "P" in
      destruct (charges_release_slot_ok c pend l n H) as (l' & -> & P); pose proof (proj1 P)
  end.
  eexists. split; [reflexivity|]. eauto 10 using preserves_trans.
Qed.

(** *** The three operations on a pending replacement *)
Section replacement.
Context (c : ConnectionPayloadCharges) (l : PayloadBudgetLedger).

Lemma preserves_fail_accounting {A} pend (msg : string) :
  state_ok {| cs_charges := c; cs_pending := pend; cs_ledger := l |} →
  preserves {| cs_charges := c; cs_pending := pend; cs_ledger := l |}
    {| cs_charges := c; cs_pending := pend; cs_ledger := (@fail_accounting A msg l).2 |}.
Proof.
  intros Hs. apply (preserves_same {| cs_charges := c; cs_pending := pend; cs_ledger := l |}); [done|].
  apply fail_accounting_effect; apply Hs.
Qed.

Lemma preserves_pending pend pend' l' :
  state_ok {| cs_charges := c; cs_pending := pend; cs_ledger := l |} →
  slot_effect (ids pend) (ids pend') l l' →
  preserves {| cs_charges := c; cs_pending := pend; cs_ledger := l |}
    {| cs_charges := c; cs_pending := pend'; cs_ledger := l' |}.
Proof.
  intros Hs E. destruct (place_effect (view c pend) None pend' l l' Hs E) as [Hc E'].
  eapply preserves_update; [|exact Hc|exact E']. by intros [[]|].
Qed.

Lemma preserves_reserve_replacement conn n :
  state_ok {| cs_charges := c; cs_pending := None; cs_ledger := l |} →
  preserves {| cs_charges := c; cs_pending := None; cs_ledger := l |}
    (charges_exec conn (OpReserveReplacement n)
       {| cs_charges := c; cs_pending := None; cs_ledger := l |}).
Proof.
  intros Hs. simpl. unfold charges_reserve_upstream_replacement, keep_pending.
  destruct (cpc_upstream c); simpl; [|by apply (@preserves_fail_accounting N _ "")].
  slot_call; apply preserves_pending; simpl; eauto with edge.
  - eapply slot_effect_reserve; [apply Hs|done].
  - eapply reserve_err_effect; [apply Hs|set_solver|done].
Qed.

Lemma preserves_fail_replacement conn id :
  state_ok {| cs_charges := c; cs_pending := Some id; cs_ledger := l |} →
  preserves {| cs_charges := c; cs_pending := Some id; cs_ledger := l |}
    (charges_exec conn OpFailReplacement
       {| cs_charges := c; cs_pending := Some id; cs_ledger := l |}).
Proof.
  intros Hs. simpl. unfold charges_release_upstream_replacement_after_allocation_failure,
    consume_pending, keep_pending.
  case_bool_decide; simpl; [by apply (@preserves_fail_accounting () _ "")|].
  slot_call; apply preserves_pending; simpl; eauto with edge.
  - eapply release_alloc_effect; [apply Hs|done].
  - eapply release_alloc_err_effect; [apply Hs|apply (state_ok_pending _ Hs)|done].
Qed.

Lemma preserves_commit_replacement conn id n :
  state_ok {| cs_charges := c; cs_pending := Some id; cs_ledger := l |} →
  preserves {| cs_charges := c; cs_pending := Some id; cs_ledger := l |}
    (charges_exec conn (OpCommitReplacement n)
       {| cs_charges := c; cs_pending := Some id; cs_ledger := l |}).
Proof.
  intros Hs. simpl. unfold charges_commit_upstream_replacement, consume_pending, keep_pending.
  pose proof (state_ok_slot _ SlotUpstream Hs) as Hup. simpl in Hup.
  destruct (cpc_upstream c) as [cur|] eqn:Hcur; simpl; [|by apply (@preserves_fail_accounting () _ "")].
  case_match; simpl; [by apply (@preserves_fail_accounting () _ "")|].
  case_match; simpl; [|by apply (@preserves_fail_accounting () _ "")].
  case_match; simpl; [by apply (@preserves_fail_accounting () _ "")|].
  assert (P1 : ∀ r l1, ledger_commit id n (ledger_generation l) l = (r, l1) →
    preserves {| cs_charges := c; cs_pending := Some id; cs_ledger := l |}
      {| cs_charges := c; cs_pending := Some id; cs_ledger := l1 |}).
  { intros r l1 Hc. apply preserves_pending; [done|].
    eapply (commit_any_effect _ _ id); [apply Hs|apply (state_ok_pending _ Hs)|simpl; set_solver|done]. }
  destruct (ledger_commit id n _ l) as [[[]|e] l1] eqn:Hc; simpl; [|by eapply P1].
  specialize (P1 _ _ eq_refl). eapply preserves_trans; [exact P1|]. destruct P1 as [Hs1 _].
  pose proof (commit_frame _ _ _ _ _ _ (ck_ledger _ _ Hs) Hc) as Hg. simpl in Hg.
  pose proof (state_ok_slot _ SlotUpstream Hs1) as Hup1. simpl in Hup1. rewrite Hcur in Hup1.
  destruct (owned_release_effect l1 cur (ledger_generation l)) as (l2 & -> & E2);
    [apply Hs1|set_solver|congruence|]. simpl.
  destruct (two_places_effect (view c (Some id)) (Some SlotUpstream) None (Some id) None l1 l2 Hs1)
    as [Hok E]; [done| |set_solver|].
  { simpl. rewrite Hcur. simpl.
    destruct (slot_effect_extend {[cur]} ∅ {[id]} l1 l2) as [E' _];
      [apply (state_ok_pending _ Hs1)|nbool; set_solver|done|].
    by replace (∅ ∪ {[id]} : gset N) with ({[id]} ∪ ∅ : gset N) in E' by set_solver. }
  eapply preserves_update; [|exact Hok|exact E]. by intros [[]|].
Qed.
End replacement.

Lemma charges_exec_preserves conn op s : state_ok s → preserves s (charges_exec conn op s).
Proof.
  destruct s as [c pend l]. intros Hs. pose proof (ck_ledger _ _ Hs) as Hl.
  pose proof (λ n, state_ok_slot _ n Hs) as Hin. simpl in Hl, Hin.
  assert (Hpair : ids (cpc_upstream c) ∪ ids (cpc_retry_replay c) ⊆ held_ids l).
  { pose proof (Hin SlotUpstream). pose proof (Hin SlotRetryReplay). set_solver. }
  pose proof (state_ok_disjoint _ SlotUpstream SlotRetryReplay Hs ltac:(done)) as Hd. simpl in Hd.
  destruct op; simpl; try (apply preserves_slot; [done|]);
    try (match goal with |- slot_effect (ids (get_slot ?n c)) (ids (?x.2.1)) _ _ =>
      specialize (Hin n); destruct x as [? [? ?]] eqn:Hx; simpl in * end).
  - by eapply request_grow_effect.
  - by eapply slot_sync_effect.
  - by eapply slot_sync_effect.
  - by eapply slot_sync_effect.
  - by eapply client_response_resize_in_use_effect.
  - by eapply client_response_prepare_effect.
  - destruct (client_response_commit (cpc_client_response c) l change) as [r l'] eqn:H.
    unfold charges_commit_client_response_bytes, keep_pending. rewrite H. simpl.
    apply client_response_commit_effect in H; [|done|apply (Hin SlotClientResponse)].
    destruct (place_effect (view c pend) (Some SlotClientResponse) (cpc_client_response c) l l' Hs H)
      as [Hok E]. eapply preserves_update; [|exact Hok|exact E]. by intros [[]|].
  - by eapply client_response_rollback_effect.
  - destruct (retry_pair_reserve (cpc_upstream c) (cpc_retry_replay c) l conn nu np)
      as [r [[u' p'] l']] eqn:H. pose proof H as H'.
    apply retry_pair_reserve_effect in H as [? ?]; [|done..].
    unfold charges_reserve_upstream_and_retry. rewrite H'. apply preserves_pair; simpl; auto.
  - destruct (retry_pair_commit (cpc_upstream c) (cpc_retry_replay c) l nu np) as [r l'] eqn:H.
    unfold charges_commit_upstream_and_retry, keep_pending. rewrite H. simpl.
    apply retry_pair_commit_effect in H; [|done..].
    pose proof (preserves_pair c pend l (r, ((cpc_upstream c, cpc_retry_replay c), l')) Hs H Hd) as P.
    unfold keep_pending in P. simpl in P. destruct c; exact P.
  - destruct pend; [by apply preserves_refl|by apply (preserves_reserve_replacement c l conn)].
  - destruct pend; [by apply (preserves_commit_replacement c l conn)|by apply preserves_refl].
  - destruct pend; [by apply (preserves_fail_replacement c l conn)|by apply preserves_refl].
  - destruct (retry_pair_release_after_allocation_failure (cpc_upstream c) (cpc_retry_replay c) l)
      as [r [[u' p'] l']] eqn:H. pose proof H as H'.
    apply retry_pair_release_alloc_effect in H as [? ?]; [|done..].
    unfold charges_release_upstream_allocation_failure. rewrite H'. by apply preserves_pair.
  - by eapply request_release_effect.
  - destruct (charges_release_all_ok c pend l Hs) as (l' & H & P).
    unfold keep_pending. by rewrite H.
Qed.

(** ** Properties *)
Definition charges_run (conn : N) (ops : list charges_op) (s : charges_state) : charges_state :=
  foldl (λ s op, charges_exec conn op s) s ops.

Definition charges_init (l : PayloadBudgetLedger) : charges_state :=
  {| cs_charges := charges_default; cs_pending := None; cs_ledger := l |}.

Lemma owned_default : owned (view charges_default None) = ∅.
Proof. vm_compute. reflexivity. Qed.

Lemma state_ok_init l : ledger_ok l → state_ok (charges_init l).
Proof.
  intros Hl. constructor; [done| |].
  - unfold charges_init. simpl. rewrite owned_default. set_solver.
  - intros [[]|] [[]|] _; simpl; set_solver.
Qed.

Lemma charges_run_preserves conn ops s : state_ok s → preserves s (charges_run conn ops s).
Proof.
  unfold charges_run. revert s. induction ops as [|op ops IH]; intros s Hs; simpl.
  - by apply preserves_refl.
  - pose proof (charges_exec_preserves conn op s Hs) as P.
    eapply preserves_trans; [exact P|]. apply IH, P.
Qed.

(** C7: over any sequence of operations of a new connection, failing ones
    included, the ledger's live charges are exactly those that were live before
    and those the connection's slots (or its pending replacement) name; no two
    slots name the same charge; and the charges of everybody else keep their size.
    So a connection neither leaks a charge, nor keeps a slot that dangles, nor
    touches the charge of another connection. *)
Theorem charges_ownership conn ops l :
  ledger_ok l →
  let s := charges_run conn ops (charges_init l) in
  ledger_ok (cs_ledger s)
  ∧ held_ids (cs_ledger s) = held_ids l ∪ state_owned s
  ∧ held_ids l ## state_owned s
  ∧ (∀ n m, n ≠ m → ids (get_slot n (cs_charges s)) ## ids (get_slot m (cs_charges s)))
  ∧ (∀ i, i ∈ held_ids l → held (cs_ledger s) !! i = held l !! i).
Proof.
  intros Hl s. destruct (charges_run_preserves conn ops _ (state_ok_init l Hl)) as [Hs E].
  fold s in Hs, E. assert (H0 : state_owned (charges_init l) = ∅) by apply owned_default.
  rewrite H0 in E. destruct E as [? Hd Hf Hr]. simpl in *.
  assert (held_ids l ## state_owned s) by (intros i ? Hi; destruct (Hf i Hi); set_solver).
  split_and!; [done|rewrite Hd; set_solver|done|intros; by apply state_ok_disjoint|].
  intros i Hi. apply Hr; set_solver.
Qed.

(** Closing a connection gives back every charge it holds: after any sequence
    of operations with no replacement pending, [release_all] succeeds, empties
    every slot and leaves the ledger with the live charges, and the sizes, it had
    before the connection was opened. *)
Theorem release_all_restores conn ops l :
  ledger_ok l → let s := charges_run conn ops (charges_init l) in cs_pending s = None →
  ∃ l', charges_release_all (cs_charges s) (cs_ledger s) = (Ok (), (charges_default, l'))
  ∧ ledger_ok l' ∧ held l' = held l.
Proof.
  intros Hl s Hp. pose proof (charges_run_preserves conn ops _ (state_ok_init l Hl)) as P.
  fold s in P. destruct s as [c pend l1]. simpl in *. subst pend.
  destruct (charges_release_all_ok c None l1 (proj1 P)) as (l' & H & P').
  exists l'. destruct (preserves_trans _ _ _ P P') as [Hok E]. split; [done|]. split; [apply Hok|].
  apply map_eq. intros i. destruct E as [_ _ _ Hr]. apply Hr; unfold state_owned, charges_init; simpl; rewrite owned_default; set_solver.
Qed.

Lemma slot_bytes_held l slot : slot_bytes l slot = default 0 (slot ≫= (held l !!.)).
Proof.
  destruct slot as [id|]; [|done]. simpl. rewrite held_lookup.
  unfold ledger_charge. by destruct (ledger_charges l !! id).
Qed.

Definition charges_ops_example : list charges_op :=
  [OpGrowRequest 100; OpReserveUpstreamAndRetry 60 40; OpCommitUpstreamAndRetry 60 40;
   OpReserveReplacement 80; OpCommitReplacement 70; OpSyncTlsPending 33;
   OpGrowRequest 999999999; OpReleaseRequest].

Definition charges_example : charges_state :=
  charges_run 7 charges_ops_example (charges_init (ledger_new RuntimeResourcePolicy_default 1)).

Lemma charges_ownership_witness :
  held_ids (cs_ledger charges_example) = {[ 3; 4; 5 ]}
  ∧ held_ids (cs_ledger charges_example) = held_ids (ledger_new RuntimeResourcePolicy_default 1)
                                           ∪ state_owned charges_example.
Proof.
  split; [vm_compute; reflexivity|].
  exact (proj1 (proj2 (charges_ownership 7 charges_ops_example _
    (ledger_ok_new _ 1 policy_valid_default)))).
Defined.

Lemma release_all_restores_witness :
  cs_pending charges_example = None
  ∧ ∃ l', charges_release_all (cs_charges charges_example) (cs_ledger charges_example)
          = (Ok (), (charges_default, l')) ∧ ledger_ok l' ∧ held l' = ∅.
Proof.
  assert (H : cs_pending charges_example = None) by (vm_compute; reflexivity).
  split; [exact H|].
  exact (release_all_restores 7 charges_ops_example _ (ledger_ok_new _ 1 policy_valid_default) H).
Defined.

(** [sync] is exact and all-or-nothing: when it succeeds the slot's charge has
    exactly the requested size (no charge for zero bytes), and when it fails, on
    whichever of its calls, the slot and every charge of the ledger are what they
    were before. *)
Theorem slot_sync_exact slot cls l conn n :
  ledger_ok l → ids slot ⊆ held_ids l →
  let '(r, (slot', l')) := slot_sync slot cls l conn n in
  if is_ok r then slot_bytes l' slot' = n else slot' = slot ∧ held l' = held l.
Proof.
  intros Hl Hslot. unfold slot_sync.
  destruct (N.eqb_spec (slot_bytes l slot) n) as [He|Hne]; [done|].
  destruct (N.eqb_spec n 0) as [->|Hn].
  { destruct slot as [id|]; [|done]. unfold slot_release, with_slot. simpl.
    destruct (release_live l Hl id) as [l' ->]; [apply held_ids_spec; set_solver|]. done. }
  destruct slot as [id|].
  - unfold with_slot. destruct (ledger_resize id n _ l) as [[[]|e] l1] eqn:H; cbn [is_ok fst snd].
    + apply (resize_held_ok l Hl) in H as [_ Hh]. rewrite slot_bytes_held, Hh. simpl.
      by rewrite lookup_insert_eq.
    + split; [done|]. eapply (call_held_err l Hl (CallResize id n (ledger_generation l))); [|done].
      simpl. by rewrite H.
  - unfold with_slot.
    destruct (ledger_reserve conn cls n _ l) as [[id|e] l1] eqn:H; cbn [is_ok fst snd].
    + pose proof (slot_effect_reserve _ _ _ _ _ _ _ Hl H) as E.
      pose proof (se_ok _ _ _ _ E) as Hl1. pose proof (reserve_frame _ _ _ _ _ _ _ Hl H) as Hg.
      apply (reserve_held_ok l Hl) in H as (Hfresh & Hh & _).
      destruct (ledger_commit id n _ l1) as [[[]|e] l2] eqn:Hc; cbn [is_ok fst snd].
      * apply (commit_held_ok l1 Hl1) in Hc as [_ Hh2]. rewrite slot_bytes_held, Hh2. simpl.
        by rewrite lookup_insert_eq.
      * pose proof (commit_frame _ _ _ _ _ _ Hl1 Hc) as Hg2.
        pose proof (commit_err_effect l1 Hl1 ∅ ltac:(set_solver) _ _ _ _ _ Hc) as [Hl2 _ _ Hr].
        assert (Hh2 : held l2 = held l1) by (apply map_eq; intros i; apply Hr; set_solver).
        destruct (release_live l2 Hl2 id) as [l3 H3];
          [rewrite Hh2, Hh, lookup_insert_eq; eauto|].
        replace (ledger_generation l) with (ledger_generation l2) by congruence.
        pose proof H3 as H4. apply (release_held_ok l2 Hl2) in H4 as [_ Hh3]. rewrite H3. simpl.
        split; [done|]. rewrite Hh3, Hh2, Hh. by rewrite delete_insert_id.
    + split; [done|]. eapply (call_held_err l Hl (CallReserve conn cls n (ledger_generation l)));
        [|done]. simpl. by rewrite H.
Qed.

Lemma slot_sync_exact_witness :
  let l := (charges_sync_tls_pending charges_default (ledger_new RuntimeResourcePolicy_default 1)
              7 50).2.2 in
  let '(r, (slot', l')) := slot_sync (Some 1) ClassTlsPending l 7 80 in
  r = Ok true ∧ slot_bytes l' slot' = 80.
Proof.
  intros l. assert (Hl : ledger_ok l).
  { apply (slot_sync_effect None ClassTlsPending (ledger_new RuntimeResourcePolicy_default 1) 7 50
      (Ok true) (Some 1)); [apply ledger_ok_new, policy_valid_default|set_solver|].
    vm_compute. reflexivity. }
  pose proof (slot_sync_exact (Some 1) ClassTlsPending l 7 80 Hl ltac:(vm_compute; set_solver)) as H.
  destruct (slot_sync (Some 1) ClassTlsPending l 7 80) as [r [s' l']] eqn:E.
  assert (Hr : r = Ok true) by (vm_compute in E; congruence). subst r. split; [reflexivity|exact H].
Defined.

(** The upstream and retry-replay charges are installed together or not at
    all: on success both slots are filled with distinct new charges of the two
    requested sizes; on an error, also of the second reservation, both slots and
    every charge of the ledger are unchanged. *)
Theorem retry_pair_reserve_atomic u p l conn nu np :
  ledger_ok l →
  let '(r, ((u', p'), l')) := retry_pair_reserve u p l conn nu np in
  if is_ok r
  then ∃ iu ip, u' = Some iu ∧ p' = Some ip ∧ iu ≠ ip ∧ held l !! iu = None ∧ held l !! ip = None
       ∧ held l' = <[ip := np]> (<[iu := nu]> (held l))
  else u' = u ∧ p' = p ∧ held l' = held l.
Proof.
  intros Hl. unfold retry_pair_reserve.
  destruct u as [u|], p as [p|]; cbn; try done. unfold with_slot.
  destruct (ledger_reserve conn ClassUpstreamRequest nu _ l) as [[iu|e] l1] eqn:H1; cbn [fst snd is_ok].
  - pose proof (slot_effect_reserve _ _ _ _ _ _ _ Hl H1) as E.
    pose proof (se_ok _ _ _ _ E) as Hl1. pose proof (reserve_frame _ _ _ _ _ _ _ Hl H1) as Hg.
    apply (reserve_held_ok l Hl) in H1 as (Hf1 & Hh1 & _).
    destruct (ledger_reserve conn ClassRetryReplay np _ l1) as [[ip|e] l2] eqn:H2; cbn [fst snd is_ok].
    + apply (reserve_held_ok l1 Hl1) in H2 as (Hf2 & Hh2 & _).
      rewrite Hh1 in Hf2. apply lookup_insert_None in Hf2 as [Hf2 ?].
      exists iu, ip. split_and!; try done. by rewrite Hh2, Hh1.
    + pose proof (reserve_frame _ _ _ _ _ _ _ Hl1 H2) as Hg2.
      pose proof (reserve_err_effect l1 Hl1 ∅ ltac:(set_solver) _ _ _ _ _ _ H2) as [Hl2 _ _ Hr].
      assert (Hh2 : held l2 = held l1) by (apply map_eq; intros i; apply Hr; set_solver).
      destruct (release_live l2 Hl2 iu) as [l3 H3]; [rewrite Hh2, Hh1, lookup_insert_eq; eauto|].
      replace (ledger_generation l) with (ledger_generation l2) by congruence.
      pose proof H3 as H4. apply (release_held_ok l2 Hl2) in H4 as [_ Hh3]. rewrite H3. simpl.
      split_and!; [done..|]. rewrite Hh3, Hh2, Hh1. by rewrite delete_insert_id.
  - split_and!; [done..|].
    eapply (call_held_err l Hl (CallReserve conn ClassUpstreamRequest nu (ledger_generation l)));
      [|done]. simpl. by rewrite H1.
Qed.

Lemma retry_pair_reserve_atomic_witness :
  let l := ledger_new RuntimeResourcePolicy_default 1 in
  let '(r, ((u', p'), l')) := retry_pair_reserve None None l 7 100 999999999 in
  is_ok r = false ∧ u' = None ∧ p' = None ∧ held l' = ∅.
Proof.
  intros l. pose proof (retry_pair_reserve_atomic None None l 7 100 999999999
    (ledger_ok_new _ 1 policy_valid_default)) as H.
  destruct (retry_pair_reserve None None l 7 100 999999999) as [r [[u' p'] l']] eqn:E.
  assert (Hr : is_ok r = false).
  { vm_compute in E. injection E as <- _ _ _. reflexivity. }
  rewrite Hr in H. split; [exact Hr|exact H].
Defined.

(** *** Preparing a client response and rolling it back *)
Lemma resize_fits l id c n :
  ledger_ok l → ledger_charges l !! id = Some c → 0 < n →
  ledger_used_bytes l - charge_charged_bytes c + n ≤ ledger_limit_bytes l →
  ∃ l', ledger_resize id n (ledger_generation l) l = (Ok (), l').
Proof.
  intros [Hl _] Hc Hn Hfit. rewrite (ledger_resize_spec l id c) by done.
  pose proof (ledger_ok_charge_le l id c Hl Hc). pose proof (lc_limit _ Hl) as [_ Hlim].
  unfold replace_charge_bytes. rewrite Hc. destruct (N.eqb_spec n 0); [lia|].
  unfold checked_sub. destruct (N.leb_spec (charge_charged_bytes c) (ledger_used_bytes l)); [|lia].
  unfold checked_add. destruct (N.leb_spec (ledger_used_bytes l - charge_charged_bytes c + n) USIZE_MAX).
  - destruct (N.ltb_spec (ledger_limit_bytes l) (ledger_used_bytes l - charge_charged_bytes c + n)); [lia|].
    simpl. rewrite Hc. eauto.
  - assert (HARD_MAX_INFLIGHT_PAYLOAD_BYTES ≤ USIZE_MAX) by (vm_compute; discriminate). lia.
Qed.

Lemma resize_result l id c n g l' :
  ledger_charges l !! id = Some c → ledger_resize id n g l = (Ok (), l') →
  ledger_charges l' !! id = Some (with_bytes n c)
  ∧ ledger_used_bytes l' = ledger_used_bytes l - charge_charged_bytes c + n
  ∧ ledger_limit_bytes l' = ledger_limit_bytes l ∧ ledger_generation l' = ledger_generation l.
Proof.
  intros Hc. unfold ledger_resize, fail_accounting. ledger_guards; try done.
  case_match; [done|]. unfold replace_charge_bytes, fail_accounting. rewrite Hc.
  intros. repeat (case_match; simplify_eq/=; try done).
  match goal with H : checked_sub _ _ = Some _ |- _ => apply checked_sub_Some in H end.
  match goal with H : checked_add _ _ _ = Some _ |- _ => apply checked_add_Some in H as [-> ?] end.
  rewrite refresh_charges, refresh_used, refresh_limit, refresh_generation. simpl.
  rewrite lookup_insert_eq. repeat split; try lia. 
Qed.

(** A prepared client-response charge can always be rolled back: whatever
    [prepare] granted, [rollback] of the change it returned succeeds and puts the
    slot, and the size of every charge of the ledger, back to what they were. *)
Theorem client_response_rollback_restores slot l conn n change slot' l' :
  ledger_ok l → ids slot ⊆ held_ids l →
  client_response_prepare slot l conn n = (Ok change, (slot', l')) →
  ∃ l'', client_response_rollback slot' l' change = (Ok (), (slot, l'')) ∧ held l'' = held l.
Proof.
  intros Hl Hslot Hprep. pose proof (client_response_prepare_effect _ _ Hl Hslot _ _ _ _ _ Hprep) as E.
  pose proof (se_ok _ _ _ _ E) as Hl'. revert Hprep.
  unfold client_response_prepare, client_response_rollback. destruct slot as [id|]; simpl in *.
  - unfold ledger_charge. destruct (ledger_charges l !! id) as [c|] eqn:Hc; [|done].
    destruct (ledger_resize id n _ l) as [[[]|?] l1] eqn:Hr; simpl; intros; simplify_eq. simpl.
    rewrite bool_decide_true by done. simpl.
    pose proof (resize_result _ _ _ _ _ _ Hc Hr) as (Hc' & Hu & Hlim & Hg).
    pose proof (lc_charges _ (lo_core _ Hl) _ _ Hc) as Hok.
    pose proof (ledger_ok_charge_le l id c (lo_core _ Hl) Hc). pose proof (lc_bound _ (lo_core _ Hl)).
    destruct (resize_fits l' id _ (charge_charged_bytes c) Hl' Hc') as [l2 Hr2];
      [apply Hok|rewrite Hu, Hlim; simpl; lia|].
    unfold with_slot. rewrite Hr2. simpl. eexists. split; [done|].
    apply (resize_held_ok l Hl) in Hr as [_ Hh]. apply (resize_held_ok l' Hl') in Hr2 as [_ Hh2].
    rewrite Hh2, Hh, insert_insert_eq. apply insert_id. by rewrite held_lookup, Hc.
  - unfold with_slot. destruct (ledger_reserve conn ClassClientResponse n _ l) as [[id|?] l1] eqn:Hr;
      simpl; intros; simplify_eq. simpl. rewrite bool_decide_true by done. simpl.
    apply (reserve_held_ok l Hl) in Hr as (Hf & Hh & _).
    assert (is_Some (ledger_charges l' !! id)) as [c Hc].
    { apply (fmap_is_Some charge_charged_bytes). rewrite <-held_lookup, Hh, lookup_insert_eq. eauto. }
    rewrite (ledger_release_after_allocation_failure_spec l' id c (lo_core _ Hl') Hc). simpl.
    eexists. split; [done|]. unfold held, freed. rewrite refresh_charges. simpl.
    rewrite fmap_delete. fold (held l'). by rewrite Hh, delete_insert_id.
Qed.

Lemma client_response_rollback_restores_witness :
  let l := ledger_new RuntimeResourcePolicy_default 1 in
  let '(r, (slot', l')) := client_response_prepare None l 7 500 in
  match r with
  | Ok change => ∃ l'', client_response_rollback slot' l' change = (Ok (), (None, l''))
                 ∧ held l'' = ∅
  | Err _ => False
  end.
Proof.
  intros l. destruct (client_response_prepare None l 7 500) as [r [slot' l']] eqn:E.
  destruct r as [change|e]; [|vm_compute in E; discriminate].
  exact (client_response_rollback_restores None l 7 500 change slot' l'
    (ledger_ok_new _ 1 policy_valid_default) ltac:(set_solver) E).
Defined.
