(* ===== verification/HttpRequest.v ===== *)
(** * HTTP/1.1 requests

    crates/edge-core/src/http_request.rs: the request parser with its limits, and
    the buffer that collects a request from socket reads.  A [&str] borrowed from
    the input is the same [list byte] as the owned copy made of it. *)

From stdpp Require Import base gmap strings list numbers.
From Stdlib Require Import Strings.Byte NArith Lia.
From S2P Require Import Prelude Errors RustStr Resource.
Local Open Scope N_scope.

Record Header := { header_name : list byte; header_value : list byte }.

#[global] Instance Header_eq_dec : EqDecision Header.
Proof. solve_decision. Defined.

Record HttpRequest := {
  req_method : list byte;
  req_path : list byte;
  req_version : list byte;
  req_headers : list Header;
  req_body : list byte
}.

(** [header.name.eq_ignore_ascii_case(name)] *)
Definition header_is (name : list byte) (h : Header) : bool :=
  eq_ignore_ascii_case (header_name h) name.

Definition request_header_value (name : list byte) (r : HttpRequest) : option (list byte) :=
  header_value <$> List.find (header_is name) (req_headers r).

Record HttpLimits := {
  max_request_line_bytes : N;
  max_header_bytes : N;
  max_header_count : N;
  max_body_bytes : N
}.

Definition HttpLimits_default : HttpLimits :=
  {| max_request_line_bytes := 8 * 1024;
     max_header_bytes := FIXED_REQUEST_HEADER_RESERVE_BYTES;
     max_header_count := 100;
     max_body_bytes := DEFAULT_MAX_REQUEST_BODY_BYTES |}.

Definition CRLF : list byte := [x0d; x0a].
Definition CRLFCRLF : list byte := CRLF ++ CRLF.
Definition COLON : byte := x3a.

Definition malformed {A} (message : string) : result AppError A :=
  Err (AppError_new HttpMalformedRequest message).

(** ** Validation *)
Definition prohibited_value_byte (b : byte) : bool :=
  in_range 0 8 b || in_range 10 31 b || (u8 b =? 127).
Definition contains_prohibited_http_field_value_control (value : list byte) : bool :=
  existsb prohibited_value_byte value.

Definition validate_header_value (value : list byte) : result AppError () :=
  if contains_prohibited_http_field_value_control value
  then malformed "header value contains prohibited control byte"
  else Ok ().

Definition prohibited_target_byte (b : byte) : bool := (u8 b <=? 31) || (u8 b =? 127).
Definition contains_prohibited_request_target_control (target : list byte) : bool :=
  existsb prohibited_target_byte target.

(** The punctuation of an HTTP token. *)
Definition token_punctuation : list byte := lit "!#$%&'*+-.^_`|~".
Definition is_token_byte (b : byte) : bool :=
  is_ascii_alphanumeric b || contains_byte b token_punctuation.
Definition is_http_token (value : list byte) : bool :=
  negb (bool_decide (value = [])) && forallb is_token_byte value.

Definition validate_request_line (request_line : list byte)
  : result AppError (list byte * list byte * list byte) :=
  match split_whitespace request_line with
  | [] => malformed "missing method"
  | [_] => malformed "missing path"
  | [_; _] => malformed "missing version"
  | _ :: _ :: _ :: _ :: _ => malformed "request line has unexpected trailing token"
  | [method; path; version] =>
      if negb (is_http_token method) then malformed "request method is not an HTTP token"
      else if contains_prohibited_request_target_control path
      then malformed "request target contains prohibited control byte"
      else if negb (bool_decide (version = lit "HTTP/1.1"))
      then malformed "unsupported HTTP version"
      else if eq_ignore_ascii_case method (lit "CONNECT")
      then Err (AppError_new HttpConnectMethodRejected "CONNECT is not supported")
      else Ok (method, path, version)
  end.

Definition validate_http11_host_authority (headers : list Header) : result AppError () :=
  let host_values := (trim ∘ header_value) <$> List.filter (header_is (lit "Host")) headers in
  match host_values with
  | [] => malformed "HTTP/1.1 request requires one Host header"
  | host :: rest =>
      if bool_decide (host = []) || negb (bool_decide (rest = []))
      then malformed "HTTP/1.1 request Host header is invalid or ambiguous"
      else Ok ()
  end.

(** The loop over the headers: the content length seen so far, and whether a
    non-empty [Transfer-Encoding] was seen. *)
Fixpoint body_len_loop (headers : list Header) (content_length : option N)
    (has_transfer_encoding : bool) : result AppError (option N * bool) :=
  match headers with
  | [] => Ok (content_length, has_transfer_encoding)
  | header :: rest =>
      let has_transfer_encoding :=
        if header_is (lit "Transfer-Encoding") header
           && negb (bool_decide (trim (header_value header) = []))
        then true else has_transfer_encoding in
      if header_is (lit "Content-Length") header then
        match parse_uint USIZE_MAX (trim (header_value header)) with
        | None => malformed "invalid content length"
        | Some parsed =>
            match content_length with
            | Some existing =>
                if negb (existing =? parsed)
                then Err (AppError_new HttpTransferEncodingContentLengthConflict
                            "conflicting content length headers")
                else body_len_loop rest content_length has_transfer_encoding
            | None => body_len_loop rest (Some parsed) has_transfer_encoding
            end
        end
      else body_len_loop rest content_length has_transfer_encoding
  end.

Definition expected_request_body_len_from_headers (headers : list Header) : result AppError N :=
  let? (content_length, has_transfer_encoding) := body_len_loop headers None false in
  if has_transfer_encoding && bool_decide (is_Some content_length)
  then Err (AppError_new HttpTransferEncodingContentLengthConflict "ambiguous transfer length")
  else if has_transfer_encoding
  then malformed "transfer encoding is not supported by the MVP runtime"
  else Ok (default 0 content_length).

(** ** Parsing *)
Fixpoint parse_header_lines (limits : HttpLimits) (headers : list Header)
    (lines : list (list byte)) : result AppError (list Header) :=
  match lines with
  | [] => Ok headers
  | line :: rest =>
      if max_header_count limits <=? len headers
      then Err (AppError_new HttpHeaderTooLarge "too many headers")
      else match split_once COLON line with
      | None => malformed "malformed header"
      | Some (name, value) =>
          if negb (is_http_token name) then malformed "header name is invalid"
          else
            let? _ := validate_header_value value in
            parse_header_lines limits
              (headers ++ [{| header_name := trim name; header_value := trim value |}]) rest
      end
  end.

Definition parse_http_request (input : list byte) (limits : HttpLimits)
  : result AppError HttpRequest :=
  let? header_end :=
    ok_or (find_seq CRLFCRLF input) (AppError_new HttpMalformedRequest "missing header end") in
  let header_bytes := take header_end input in
  let body := drop (header_end + 4) input in
  if max_header_bytes limits <? len header_bytes
  then Err (AppError_new HttpHeaderTooLarge "headers exceed limit")
  else if max_body_bytes limits <? len body
  then Err (AppError_new HttpRequestBodyTooLarge "body exceeds limit")
  else if negb (utf8_valid header_bytes) then malformed "headers are not UTF-8"
  else match split_str CRLF header_bytes with
  | [] => malformed "missing request line"
  | request_line :: lines =>
      if max_request_line_bytes limits <? len request_line
      then Err (AppError_new HttpRequestLineTooLarge "request line exceeds limit")
      else
        let? (method, path, version) := validate_request_line request_line in
        let? headers := parse_header_lines limits [] lines in
        let? _ := validate_http11_host_authority headers in
        let? expected_body_len := expected_request_body_len_from_headers headers in
        if max_body_bytes limits <? expected_body_len
        then Err (AppError_new HttpRequestBodyTooLarge "body exceeds limit")
        else if negb (len body =? expected_body_len)
        then malformed "content length does not match body"
        else Ok {| req_method := method; req_path := path; req_version := version;
                   req_headers := headers; req_body := body |}
  end.

(** ** The request buffer *)
Fixpoint buffered_header_lines (headers : list Header) (lines : list (list byte))
  : result AppError (list Header) :=
  match lines with
  | [] => Ok headers
  | line :: rest =>
      if bool_decide (line = []) then buffered_header_lines headers rest
      else match split_once COLON line with
      | None => malformed "malformed header"
      | Some (name, value) =>
          let? _ := validate_header_value value in
          buffered_header_lines
            (headers ++ [{| header_name := trim name; header_value := trim value |}]) rest
      end
  end.

Definition expected_request_body_len_from_header_bytes (header_bytes : list byte)
  : result AppError N :=
  if negb (utf8_valid header_bytes) then malformed "headers are not UTF-8"
  else match split_str CRLF header_bytes with
  | [] => malformed "missing request line"
  | request_line :: lines =>
      let? _ := validate_request_line request_line in
      let? headers := buffered_header_lines [] lines in
      expected_request_body_len_from_headers headers
  end.

Inductive RequestReadOutcome : Set :=
| Incomplete
| Complete (bytes : list byte).

Record ClientRequestBuffer := {
  buf_bytes : list byte;
  buf_header_end : option N
}.

Definition ClientRequestBuffer_default : ClientRequestBuffer :=
  {| buf_bytes := []; buf_header_end := None |}.

(** [position(...).map(|position| position + 4)] *)
Definition find_header_end (bytes : list byte) : option N :=
  (λ position, N.of_nat position + 4) <$> find_seq CRLFCRLF bytes.

Definition buffer_push (chunk : list byte) (limits : HttpLimits) (b : ClientRequestBuffer)
  : result AppError RequestReadOutcome * ClientRequestBuffer :=
  let bytes := buf_bytes b ++ chunk in
  let header_end := match buf_header_end b with
                    | None => find_header_end bytes
                    | Some e => Some e
                    end in
  let b := {| buf_bytes := bytes; buf_header_end := header_end |} in
  match header_end with
  | None =>
      if max_header_bytes limits <? len bytes
      then (Err (AppError_new HttpHeaderTooLarge "headers exceed limit"), b)
      else (Ok Incomplete, b)
  | Some header_end =>
      if max_header_bytes limits <? saturating_sub header_end 4
      then (Err (AppError_new HttpHeaderTooLarge "headers exceed limit"), b)
      else
        match expected_request_body_len_from_header_bytes
                (take (N.to_nat (header_end - 4)) bytes) with
        | Err e => (Err e, b)
        | Ok expected_body_len =>
            if max_body_bytes limits <? expected_body_len
            then (Err (AppError_new HttpRequestBodyTooLarge "body exceeds limit"), b)
            else if wrapping_add USIZE_MAX header_end (max_body_bytes limits) <? len bytes
            then (Err (AppError_new HttpRequestBodyTooLarge
                         "request exceeds configured body limit"), b)
            else if wrapping_add USIZE_MAX header_end expected_body_len <=? len bytes
            then (Ok (Complete bytes), {| buf_bytes := []; buf_header_end := None |})
            else (Ok Incomplete, b)
        end
  end.

(** ** Well-formed requests

    What a request needs so that every HTTP/1.1 peer reads it the same way. *)
Record header_wf (h : Header) : Prop := {
  hw_name : is_http_token (header_name h) = true;
  hw_value : contains_prohibited_http_field_value_control (header_value h) = false;
  hw_trimmed : trim (header_value h) = header_value h;
  hw_utf8 : utf8_valid (header_value h) = true
}.

(** The body length the headers announce: no transfer coding, equal
    [Content-Length]s, and zero without any. *)
Record framed_by (headers : list Header) (n : N) : Prop := {
  fb_no_transfer_encoding : ∀ h, h ∈ headers → header_is (lit "Transfer-Encoding") h = true →
    trim (header_value h) = [];
  fb_content_length : ∀ h, h ∈ headers → header_is (lit "Content-Length") h = true →
    parse_uint USIZE_MAX (trim (header_value h)) = Some n;
  fb_default : (∀ h, h ∈ headers → header_is (lit "Content-Length") h = false) → n = 0
}.

Record request_wf (r : HttpRequest) : Prop := {
  rw_method : is_http_token (req_method r) = true;
  rw_not_connect : eq_ignore_ascii_case (req_method r) (lit "CONNECT") = false;
  rw_path : req_path r ≠ [];
  rw_path_space : has_whitespace (req_path r) = false;
  rw_path_control : contains_prohibited_request_target_control (req_path r) = false;
  rw_path_utf8 : utf8_valid (req_path r) = true;
  rw_version : req_version r = lit "HTTP/1.1";
  rw_headers : Forall header_wf (req_headers r);
  rw_host : ∃ h, List.filter (header_is (lit "Host")) (req_headers r) = [h] ∧ header_value h ≠ [];
  rw_framed : framed_by (req_headers r) (len (req_body r))
}.

Lemma body_len_loop_spec headers cl te cl' te' :
  body_len_loop headers cl te = Ok (cl', te') →
  (te' = false → te = false ∧ ∀ h, h ∈ headers → header_is (lit "Transfer-Encoding") h = true →
     trim (header_value h) = [])
  ∧ (∀ h, h ∈ headers → header_is (lit "Content-Length") h = true →
       cl' = parse_uint USIZE_MAX (trim (header_value h)) ∧ is_Some cl')
  ∧ (is_Some cl → cl' = cl)
  ∧ ((∀ h, h ∈ headers → header_is (lit "Content-Length") h = false) → cl' = cl).
Proof.
  revert cl te. induction headers as [|h headers IH]; intros cl te.
  { simpl. intros [= -> ->]. split_and!; [split; [done|set_solver]|set_solver|done|done]. }
  cbn [body_len_loop].
  match goal with |- context [if ?c then true else te] => set (te1 := if c then true else te) end.
  assert (Hte : te1 = false → te = false ∧
    (header_is (lit "Transfer-Encoding") h = true → trim (header_value h) = [])).
  { unfold te1. destruct (header_is _ h); simpl; [|done]. case_bool_decide; simpl; [done|done]. }
  clearbody te1.
  destruct (header_is (lit "Content-Length") h) eqn:Hcl.
  - destruct (parse_uint _ _) as [n|] eqn:Hp; [|done].
    destruct cl as [m|].
    + destruct (N.eqb_spec m n) as [->|]; simpl; [|done]. intros H.
      apply IH in H as (H1 & H2 & H3 & H4). specialize (H3 ltac:(eauto)). subst cl'.
      split_and!; [|intros x [->|Hx]%elem_of_cons Hx'; [rewrite Hp; eauto|eauto]|done|done].
      intros Ht. destruct (H1 Ht) as [Ht1 ?]. destruct (Hte Ht1). split; [done|].
      intros x [->|Hx]%elem_of_cons; eauto.
    + intros H. apply IH in H as (H1 & H2 & H3 & H4). specialize (H3 ltac:(eauto)). subst cl'.
      split_and!; [|intros x [->|Hx]%elem_of_cons Hx'; [rewrite Hp; eauto|eauto]|by intros []|].
      * intros Ht. destruct (H1 Ht) as [Ht1 ?]. destruct (Hte Ht1). split; [done|].
        intros x [->|Hx]%elem_of_cons; eauto.
      * intros Hno. rewrite Hno in Hcl; [done|set_solver].
  - intros H. apply IH in H as (H1 & H2 & H3 & H4). split_and!.
    + intros Ht. destruct (H1 Ht) as [Ht1 ?]. destruct (Hte Ht1). split; [done|].
      intros x [->|Hx]%elem_of_cons; eauto.
    + intros x [->|Hx]%elem_of_cons Hx'; [congruence|eauto].
    + done.
    + intros Hno. apply H4. set_solver.
Qed.

Lemma expected_len_framed headers n :
  expected_request_body_len_from_headers headers = Ok n → framed_by headers n.
Proof.
  unfold expected_request_body_len_from_headers.
  destruct (body_len_loop headers None false) as [[cl te]|] eqn:H; [|done].
  apply body_len_loop_spec in H as (H1 & H2 & _ & H4).
  destruct te; [by case_bool_decide|]. simpl. intros [= <-]. destruct (H1 eq_refl) as [_ Hte].
  constructor; [done| |].
  - intros h Hh Hcl. destruct (H2 h Hh Hcl) as [<- [x ->]]. done.
  - intros Hno. by rewrite (H4 Hno).
Qed.

Lemma body_len_loop_complete headers n cl :
  (∀ h, h ∈ headers → header_is (lit "Transfer-Encoding") h = true → trim (header_value h) = []) →
  (∀ h, h ∈ headers → header_is (lit "Content-Length") h = true →
     parse_uint USIZE_MAX (trim (header_value h)) = Some n) →
  (cl = None ∨ cl = Some n) →
  body_len_loop headers cl false
  = Ok (if existsb (header_is (lit "Content-Length")) headers then Some n else cl, false).
Proof.
  revert cl. induction headers as [|h headers IH]; intros cl Hte Hcl Hn; [done|].
  cbn [body_len_loop existsb].
  assert (header_is (lit "Transfer-Encoding") h && negb (bool_decide (trim (header_value h) = []))
          = false) as ->.
  { destruct (header_is (lit "Transfer-Encoding") h) eqn:E; [|done].
    rewrite bool_decide_true; [done|]. apply Hte; [set_solver|done]. }
  destruct (header_is (lit "Content-Length") h) eqn:E; simpl.
  - rewrite (Hcl h) by (set_solver || done).
    assert (body_len_loop headers (Some n) false = Ok (Some n, false)) as HIH.
    { rewrite IH; [by case_match|set_solver|set_solver|auto]. }
    destruct Hn as [->| ->]; [done|]. rewrite N.eqb_refl. done.
  - apply IH; [set_solver|set_solver|done].
Qed.

Lemma expected_len_complete headers n :
  framed_by headers n → expected_request_body_len_from_headers headers = Ok n.
Proof.
  intros [Hte Hcl Hdef]. unfold expected_request_body_len_from_headers.
  rewrite (body_len_loop_complete headers n None Hte Hcl) by auto. simpl.
  destruct (existsb _ headers) eqn:E; [done|]. simpl. rewrite Hdef; [done|].
  intros h Hh. apply not_true_iff_false. intros Hx.
  assert (existsb (header_is (lit "Content-Length")) headers = true) as Ht; [|congruence].
  apply existsb_exists. exists h. split; [by apply list_elem_of_In|done].
Qed.

(** *** The request line *)
Lemma validate_request_line_sound line m p v :
  utf8_valid line = true → validate_request_line line = Ok (m, p, v) →
  is_http_token m = true ∧ eq_ignore_ascii_case m (lit "CONNECT") = false
  ∧ p ≠ [] ∧ has_whitespace p = false ∧ contains_prohibited_request_target_control p = false
  ∧ utf8_valid p = true ∧ v = lit "HTTP/1.1".
Proof.
  intros Hu. unfold validate_request_line, malformed.
  pose proof (split_whitespace_words line Hu) as Hw.
  pose proof (split_whitespace_nonempty line) as Hne.
  destruct (split_whitespace line) as [|m' [|p' [|v' [|? ?]]]]; try done.
  destruct (is_http_token m') eqn:Hm; simpl; [|done].
  destruct (contains_prohibited_request_target_control p') eqn:Hp; [done|].
  case_bool_decide; simpl; [|done].
  destruct (eq_ignore_ascii_case m' (lit "CONNECT")) eqn:Hc; [done|]. intros [= <- <- <-].
  inversion_clear Hw as [|? ? _ Hw']. inversion_clear Hw' as [|? ? [? ?] _].
  inversion_clear Hne as [|? ? _ Hne']. inversion_clear Hne' as [|? ? ? _]. tauto.
Qed.

Lemma token_plain m : is_http_token m = true → Forall (λ b, plain b = true) m.
Proof.
  unfold is_http_token. intros [_ H]%andb_true_iff. rewrite forallb_forall in H.
  apply list.Forall_forall. intros b Hb%list_elem_of_In. specialize (H b Hb). clear Hb.
  by destruct b.
Qed.

Lemma plain_ascii l : Forall (λ b, plain b = true) l → Forall (λ b, u8 b < 128) l.
Proof. apply Forall_impl. intros b. unfold plain. intros. nbool. lia. Qed.

Lemma token_utf8 m : is_http_token m = true → utf8_valid m = true.
Proof. intros. by apply utf8_valid_ascii, plain_ascii, token_plain. Qed.

Lemma plain_no_whitespace l : Forall (λ b, plain b = true) l → has_whitespace l = false.
Proof.
  induction 1 as [|b l Hb Hl IH]; [done|]. cbn [has_whitespace].
  rewrite (proj1 (plain_ws b l Hb)), IH. done.
Qed.

Lemma token_nonempty m : is_http_token m = true → m ≠ [].
Proof. by destruct m. Qed.

Lemma validate_request_line_complete m p :
  is_http_token m = true → eq_ignore_ascii_case m (lit "CONNECT") = false →
  p ≠ [] → has_whitespace p = false → contains_prohibited_request_target_control p = false →
  validate_request_line (m ++ x20 :: p ++ x20 :: lit "HTTP/1.1") = Ok (m, p, lit "HTTP/1.1").
Proof.
  intros Hm Hc Hp Hs Hctl. unfold validate_request_line, split_whitespace.
  rewrite split_ws_go_word by (by apply plain_no_whitespace, token_plain).
  rewrite split_ws_go_word by done. rewrite split_ws_go_last by (vm_compute; reflexivity).
  rewrite !filter_cons_True by (done || by apply token_nonempty).
  rewrite filter_nil, Hm, Hctl, Hc. simpl. done.
Qed.

(** *** Header lines *)
Lemma header_wf_parsed name value :
  is_http_token name = true → validate_header_value value = Ok () → utf8_valid value = true →
  header_wf {| header_name := trim name; header_value := trim value |}.
Proof.
  intros Hn Hv Hu. unfold validate_header_value, malformed in Hv.
  destruct (contains_prohibited_http_field_value_control value) eqn:Hc; [done|].
  constructor; simpl; [by rewrite trim_plain by by apply token_plain| |by rewrite trim_idemp|by apply trim_valid].
  apply not_true_iff_false. unfold contains_prohibited_http_field_value_control in *.
  rewrite existsb_exists. intros (b & Hb & Hp).
  apply not_true_iff_false in Hc. apply Hc, existsb_exists. exists b. split; [|done].
  destruct (trim_infix value) as (x & y & ->). rewrite !in_app_iff. auto.
Qed.

Lemma parse_header_lines_sound limits acc lines headers :
  Forall (λ w, utf8_valid w = true) lines → Forall header_wf acc →
  len acc ≤ max_header_count limits →
  parse_header_lines limits acc lines = Ok headers →
  Forall header_wf headers ∧ len headers ≤ max_header_count limits.
Proof.
  intros Hl. revert acc. induction Hl as [|line lines Hu Hl IH]; intros acc Hacc Hcount; simpl.
  { by intros [= <-]. }
  unfold malformed. destruct (N.leb_spec (max_header_count limits) (len acc)); [done|].
  destruct (split_once COLON line) as [[name value]|] eqn:Hs; [|done].
  apply split_once_Some in Hs as [-> _].
  destruct (is_http_token name) eqn:Hn; simpl; [|done].
  destruct (validate_header_value value) as [[]|] eqn:Hv; [|done]. apply IH.
  - apply Forall_app. split; [done|]. apply Forall_singleton, header_wf_parsed; [done..|].
    apply utf8_valid_split in Hu as [_ Hu]; [|by apply ascii_boundary].
    done.
  - rewrite len_app, len_cons, len_nil. lia.
Qed.

Lemma host_authority_sound headers :
  Forall header_wf headers → validate_http11_host_authority headers = Ok () →
  ∃ h, List.filter (header_is (lit "Host")) headers = [h] ∧ header_value h ≠ [].
Proof.
  intros Hwf. unfold validate_http11_host_authority, malformed.
  destruct (List.filter _ headers) as [|h [|h' rest]] eqn:E; simpl; try done.
  - case_bool_decide as Ht; simpl; [done|]. intros _. exists h. split; [done|].
    intros Hv. apply Ht. simpl. by rewrite Hv.
  - by rewrite orb_true_r.
Qed.

Lemma host_authority_complete headers h :
  Forall header_wf headers → List.filter (header_is (lit "Host")) headers = [h] →
  header_value h ≠ [] → validate_http11_host_authority headers = Ok ().
Proof.
  intros Hwf Hf Hv. unfold validate_http11_host_authority. rewrite Hf. simpl.
  assert (h ∈ headers) as Hin.
  { apply list_elem_of_In. apply (List.filter_In (header_is (lit "Host"))). rewrite Hf. by left. }
  rewrite list.Forall_forall in Hwf. specialize (Hwf h Hin).
  rewrite (hw_trimmed _ Hwf). by rewrite bool_decide_false.
Qed.

Lemma parse_sound input limits r :
  parse_http_request input limits = Ok r →
  request_wf r
  ∧ (∃ block, input = block ++ CRLFCRLF ++ req_body r
     ∧ find_seq CRLFCRLF input = Some (length block) ∧ len block ≤ max_header_bytes limits)
  ∧ len (req_headers r) ≤ max_header_count limits ∧ len (req_body r) ≤ max_body_bytes limits.
Proof.
  unfold parse_http_request, malformed, ok_or.
  destruct (find_seq CRLFCRLF input) as [e|] eqn:He; [|done].
  destruct (N.ltb_spec (max_header_bytes limits) (len (take e input))) as [|Hhb]; [done|].
  destruct (N.ltb_spec (max_body_bytes limits) (len (drop (e + 4) input))) as [|Hbb]; [done|].
  destruct (utf8_valid (take e input)) eqn:Hu; [|done]. simpl.
  pose proof (split_str_valid CRLF (take e input) ltac:(done)
    ltac:(repeat constructor) Hu) as Hl.
  destruct (split_str CRLF (take e input)) as [|line lines]; [done|].
  inversion_clear Hl as [|? ? Hline Hlines]. case_match; [done|].
  destruct (validate_request_line line) as [[[m p] v]|] eqn:Hreq; [|done].
  destruct (parse_header_lines limits [] lines) as [headers|] eqn:Hhs; [|done].
  destruct (validate_http11_host_authority headers) as [[]|] eqn:Hhost; [|done].
  destruct (expected_request_body_len_from_headers headers) as [n|] eqn:Hn; [|done].
  case_match; [done|]. destruct (N.eqb_spec (len (drop (e + 4) input)) n) as [<-|]; [|done].
  intros [= <-].
  apply validate_request_line_sound in Hreq as (? & ? & ? & ? & ? & ? & ?); [|done].
  apply parse_header_lines_sound in Hhs as [Hwf Hc];
    [|done|constructor|rewrite len_nil; lia].
  apply host_authority_sound in Hhost; [|done]. apply expected_len_framed in Hn.
  split_and!; [by constructor| |done|done].
  apply find_seq_Some in He as (k & Hk & Hlen). exists (take e input). simpl.
  split_and!; [|by rewrite length_take_le by lia|done].
  rewrite Hk at 1. do 2 f_equal. rewrite Hk. change (CRLFCRLF) with (CRLF ++ CRLF) in Hlen.
  simpl in Hlen. rewrite drop_app_ge by (rewrite length_take; lia).
  rewrite length_take_le by lia. by replace (e + 4 - e)%nat with 4%nat by lia.
Qed.

Lemma parse_sound_wf input limits r : parse_http_request input limits = Ok r → request_wf r.
Proof. by intros [? _]%parse_sound. Qed.

(** A field of the request is what its line says. *)
Definition field_of (line : list byte) (h : Header) : Prop :=
  ∃ value, line = header_name h ++ COLON :: value ∧ header_value h = trim value.

Lemma parse_header_lines_fields limits acc lines headers :
  parse_header_lines limits acc lines = Ok headers →
  ∃ added, headers = acc ++ added ∧ Forall2 field_of lines added.
Proof.
  revert acc. induction lines as [|line lines IH]; intros acc; simpl.
  { intros [= <-]. exists []. by rewrite app_nil_r. }
  unfold malformed. case_match; [done|]. destruct (split_once COLON line) as [[name value]|] eqn:Hs; [|done].
  apply split_once_Some in Hs as [-> _]. destruct (is_http_token name) eqn:Hn; simpl; [|done].
  destruct (validate_header_value value) as [[]|]; [|done]. intros (added & -> & Hf)%IH. eexists (_ :: added).
  rewrite <-app_assoc. split; [done|]. constructor; [|done]. exists value. simpl. by rewrite trim_plain by by apply token_plain.
Qed.

(** The block of an accepted request: its first line holds the three parts, its other lines the fields. *)
Record block_of (limits : HttpLimits) (block : list byte) (r : HttpRequest) : Prop := {
  bo_size : len block ≤ max_header_bytes limits;
  bo_lines : ∃ request_line lines, split_str CRLF block = request_line :: lines
    ∧ len request_line ≤ max_request_line_bytes limits
    ∧ split_whitespace request_line = [req_method r; req_path r; req_version r]
    ∧ Forall2 field_of lines (req_headers r)
}.

Lemma parse_block input limits r :
  parse_http_request input limits = Ok r →
  ∃ e, find_seq CRLFCRLF input = Some e ∧ block_of limits (take e input) r.
Proof.
  unfold parse_http_request, malformed, ok_or.
  destruct (find_seq CRLFCRLF input) as [e|] eqn:He; [|done].
  destruct (N.ltb_spec (max_header_bytes limits) (len (take e input))) as [|Hhb]; [done|].
  case_match; [done|]. case_match; [done|].
  destruct (split_str CRLF (take e input)) as [|line lines] eqn:Hl; [done|].
  destruct (N.ltb_spec (max_request_line_bytes limits) (len line)) as [|Hline]; [done|].
  destruct (validate_request_line line) as [[[m p] v]|] eqn:Hreq; [|done].
  destruct (parse_header_lines limits [] lines) as [headers|] eqn:Hhs; [|done].
  destruct (validate_http11_host_authority headers) as [[]|]; [|done].
  destruct (expected_request_body_len_from_headers headers) as [n|]; [|done].
  case_match; [done|]. case_match; [done|]. intros [= <-].
  apply parse_header_lines_fields in Hhs as (added & -> & Hf).
  exists e. split; [done|]. split; [done|]. exists line, lines. split_and!; [done|done| |done].
  unfold validate_request_line, malformed in Hreq. simpl.
  destruct (split_whitespace line) as [|? [|? [|? [|]]]]; try done. repeat (case_match; try done). congruence.
Qed.

(** C1: whatever the parser accepts is a well-formed request, read from exactly the
    bytes given: a token method other than CONNECT, a non-empty target without white
    space or controls, HTTP/1.1, token field names, trimmed values without controls,
    exactly one non-empty Host, no non-empty transfer coding, every Content-Length equal
    to the length of the body, the body being exactly the input after the first blank
    line; the first line consists of the method, the target and the version, and each
    other line before the blank one is one field, in order; and the request line, the
    header block, the number of fields and the body are each within their limit. *)
Theorem parse_http_request_sound input limits r :
  parse_http_request input limits = Ok r →
  request_wf r
  ∧ (∃ block, input = block ++ CRLFCRLF ++ req_body r
     ∧ find_seq CRLFCRLF input = Some (length block) ∧ block_of limits block r)
  ∧ len (req_headers r) ≤ max_header_count limits ∧ len (req_body r) ≤ max_body_bytes limits.
Proof.
  intros H. destruct (parse_sound _ _ _ H) as (Hwf & (block & Hin & Hf & _) & Hc & Hb).
  destruct (parse_block _ _ _ H) as (e & He & Ho). split_and!; try done. exists block. split_and!; [done|done|].
  rewrite He in Hf. injection Hf as ->. by rewrite Hin, take_app_length in Ho.
Qed.

(** ** The wire form of a request *)
Definition wire_line (h : Header) : list byte := header_name h ++ lit ": " ++ header_value h.
Definition wire_request (r : HttpRequest) : list byte :=
  req_method r ++ lit " " ++ req_path r ++ lit " " ++ req_version r ++ CRLF
  ++ concat ((λ h, wire_line h ++ CRLF) <$> req_headers r) ++ CRLF ++ req_body r.

Fixpoint join_lines (l : list byte) (ls : list (list byte)) : list byte :=
  match ls with
  | [] => l
  | l' :: ls' => l ++ CRLF ++ join_lines l' ls'
  end.

Definition line_ok (l : list byte) : Prop := l ≠ [] ∧ x0d ∉ l.

Lemma starts_with_no_cr pat b l : b ≠ x0d → starts_with (x0d :: pat) (b :: l) = false.
Proof. intros. simpl. by rewrite bool_decide_false. Qed.

Lemma find_seq_no_cr pat w l :
  x0d ∉ w → find_seq (x0d :: pat) (w ++ l) = (λ n, (length w + n)%nat) <$> find_seq (x0d :: pat) l.
Proof.
  induction w as [|b w IH]; intros Hw; simpl app.
  - by destruct (find_seq (x0d :: pat) l).
  - cbn [find_seq]. rewrite starts_with_no_cr by set_solver. rewrite IH by set_solver.
    by destruct (find_seq (x0d :: pat) l).
Qed.

Lemma find_header_end_join l ls k :
  line_ok l → Forall line_ok ls →
  find_seq CRLFCRLF (join_lines l ls ++ CRLFCRLF ++ k) = Some (length (join_lines l ls)).
Proof.
  intros Hl Hls. revert l Hl. induction Hls as [|l' ls Hl' Hls IH]; intros l [Hne Hcr].
  - cbn [join_lines]. change CRLFCRLF with (x0d :: [x0a; x0d; x0a]).
    rewrite find_seq_no_cr by done. simpl. by rewrite Nat.add_0_r.
  - cbn [join_lines]. rewrite <-!app_assoc. specialize (IH l' Hl').
    change CRLFCRLF with (x0d :: [x0a; x0d; x0a]) in *. rewrite find_seq_no_cr by done.
    set (t := join_lines l' ls ++ _) in *.
    assert (Ht : ∃ b u, t = b :: u ∧ b ≠ x0d).
    { destruct Hl' as [Hne' Hcr']. unfold t. destruct l' as [|b l']; [done|].
      destruct ls; simpl; eexists _, _; (split; [reflexivity|set_solver]). }
    destruct Ht as (b & u & Hbu & Hb). clearbody t.
    assert (find_seq (x0d :: [x0a; x0d; x0a]) (CRLF ++ t)
            = Some (2 + length (join_lines l' ls))%nat) as ->.
    { change (CRLF ++ t) with (x0d :: x0a :: t). cbn [find_seq].
      rewrite IH, Hbu. simpl. rewrite bool_decide_false by congruence. done. }
    simpl. rewrite !length_app. simpl. done.
Qed.

Lemma split_join_lines l ls :
  line_ok l → Forall line_ok ls → split_str CRLF (join_lines l ls) = l :: ls.
Proof.
  intros Hl Hls. revert l Hl. induction Hls as [|l' ls Hl' Hls IH]; intros l [Hne Hcr].
  - simpl. apply split_str_last; [done|]. rewrite <-(app_nil_r l).
    change CRLF with (x0d :: [x0a]). by rewrite find_seq_no_cr.
  - cbn [join_lines]. rewrite split_str_join; [by rewrite IH|done|].
    intros i Hi. rewrite drop_app_le by lia. change CRLF with (x0d :: [x0a]).
    destruct (drop i l) as [|b u] eqn:E;
      [apply (f_equal length) in E; rewrite length_drop in E; simpl in E; lia|].
    apply starts_with_no_cr. intros ->. apply Hcr.
    apply (list_elem_of_lookup_2 _ i). rewrite <-(Nat.add_0_r i), <-lookup_drop, E. done.
Qed.

Lemma plain_no_cr l : Forall (λ b, plain b = true) l → x0d ∉ l.
Proof. rewrite list.Forall_forall. intros H Hin. by specialize (H _ Hin). Qed.

Lemma value_no_cr v : contains_prohibited_http_field_value_control v = false → x0d ∉ v.
Proof.
  intros H Hin%list_elem_of_In. apply not_true_iff_false in H. apply H, existsb_exists.
  by exists x0d.
Qed.

Lemma target_no_cr p : contains_prohibited_request_target_control p = false → x0d ∉ p.
Proof.
  intros H Hin%list_elem_of_In. apply not_true_iff_false in H. apply H, existsb_exists.
  by exists x0d.
Qed.

Lemma wire_line_ok h : header_wf h → line_ok (wire_line h).
Proof.
  intros [Hn Hv _ _]. unfold wire_line. split.
  - apply token_nonempty in Hn. by destruct (header_name h).
  - apply token_plain, plain_no_cr in Hn. apply value_no_cr in Hv. rewrite !elem_of_app.
    intros [?|[?|?]]; [done|set_solver|done].
Qed.

Lemma wire_line_valid h : header_wf h → utf8_valid (wire_line h) = true.
Proof.
  intros [Hn Hv _ Hu]. apply utf8_valid_app; [by apply token_utf8|].
  apply utf8_valid_app; [done|done].
Qed.

(** Parsing a line the renderer wrote gives the header back. *)
Lemma parse_header_lines_wire limits acc headers :
  Forall header_wf headers → len acc + len headers ≤ max_header_count limits →
  parse_header_lines limits acc (wire_line <$> headers) = Ok (acc ++ headers).
Proof.
  intros Hwf. revert acc. induction Hwf as [|h headers [Hn Hv Ht Hu] Hwf IH]; intros acc Hc; simpl.
  { by rewrite app_nil_r. }
  rewrite len_cons in Hc. destruct (N.leb_spec (max_header_count limits) (len acc)); [lia|].
  assert (split_once COLON (wire_line h) = Some (header_name h, x20 :: header_value h)) as ->.
  { apply split_once_Some. split; [done|]. apply token_plain in Hn as Hp. unfold is_http_token in Hn.
    apply andb_true_iff in Hn as [_ Hn]. rewrite forallb_forall in Hn.
    intros Hin%list_elem_of_In. by specialize (Hn _ Hin). }
  rewrite Hn. unfold validate_header_value.
  change (contains_prohibited_http_field_value_control (x20 :: header_value h))
    with (contains_prohibited_http_field_value_control (header_value h)).
  rewrite Hv. cbn [negb]. rewrite trim_space, Ht, trim_plain by by apply token_plain.
  rewrite IH by (rewrite len_app, len_cons, len_nil; lia).
  rewrite <-app_assoc. by destruct h.
Qed.

Lemma join_lines_wire l headers :
  join_lines l (wire_line <$> headers) ++ CRLF
  = l ++ CRLF ++ concat ((λ h, wire_line h ++ CRLF) <$> headers).
Proof.
  revert l. induction headers as [|h headers IH]; intros l; cbn [join_lines fmap list_fmap concat].
  - by rewrite app_nil_r.
  - rewrite <-!app_assoc. by rewrite IH.
Qed.

Definition request_line (r : HttpRequest) : list byte :=
  req_method r ++ lit " " ++ req_path r ++ lit " " ++ req_version r.
Definition header_block (r : HttpRequest) : list byte :=
  join_lines (request_line r) (wire_line <$> req_headers r).

Lemma wire_request_block r : wire_request r = header_block r ++ CRLFCRLF ++ req_body r.
Proof.
  unfold wire_request, header_block, request_line. unfold CRLFCRLF. rewrite !app_assoc.
  rewrite join_lines_wire. by rewrite <-!app_assoc.
Qed.

Lemma request_line_ok r : request_wf r → line_ok (request_line r) ∧ utf8_valid (request_line r) = true.
Proof.
  intros Hr. pose proof (rw_method _ Hr) as Hm. unfold request_line. split; [split|].
  - apply token_nonempty in Hm. by destruct (req_method r).
  - rewrite !elem_of_app. apply token_plain, plain_no_cr in Hm. rewrite (rw_version _ Hr).
    pose proof (target_no_cr _ (rw_path_control _ Hr)).
    assert (x0d ∉ lit "HTTP/1.1") by (apply (bool_decide_unpack _); vm_compute; done).
    intros [?|[?|[?|[?|?]]]]; [done|set_solver|done|set_solver|done].
  - apply utf8_valid_app; [by apply token_utf8|]. apply utf8_valid_app; [done|].
    apply utf8_valid_app; [apply Hr|]. by rewrite (rw_version _ Hr).
Qed.

Lemma header_lines_ok r :
  request_wf r →
  Forall line_ok (wire_line <$> req_headers r)
  ∧ Forall (λ w, utf8_valid w = true) (wire_line <$> req_headers r).
Proof.
  intros Hr. rewrite !Forall_fmap.
  split; (eapply Forall_impl; [|exact (rw_headers _ Hr)]); [exact wire_line_ok|exact wire_line_valid].
Qed.

Lemma validate_request_line_wire r :
  request_wf r →
  validate_request_line (request_line r) = Ok (req_method r, req_path r, req_version r).
Proof.
  intros Hr. unfold request_line. rewrite (rw_version _ Hr).
  apply validate_request_line_complete; apply Hr.
Qed.

Lemma join_lines_valid l ls :
  utf8_valid l = true → Forall (λ w, utf8_valid w = true) ls → utf8_valid (join_lines l ls) = true.
Proof.
  intros Hl Hls. revert l Hl. induction Hls as [|l' ls ? ? IH]; intros l Hl; cbn [join_lines]; [done|].
  apply utf8_valid_app; [done|]. apply utf8_valid_app; auto.
Qed.

(** A request within the limits. *)
Record request_fits (limits : HttpLimits) (r : HttpRequest) : Prop := {
  rf_line : len (request_line r) ≤ max_request_line_bytes limits;
  rf_block : len (header_block r) ≤ max_header_bytes limits;
  rf_count : len (req_headers r) ≤ max_header_count limits;
  rf_body : len (req_body r) ≤ max_body_bytes limits
}.

Lemma parse_wire_request limits r :
  request_wf r → request_fits limits r → parse_http_request (wire_request r) limits = Ok r.
Proof.
  intros Hr [Hfl Hfb Hfc Hfbody]. destruct (request_line_ok r Hr) as [Hline Hlu].
  destruct (header_lines_ok r Hr) as [Hls Hlv].
  unfold parse_http_request. rewrite wire_request_block.
  unfold header_block at 1. rewrite find_header_end_join by done. fold (header_block r).
  cbn [ok_or]. rewrite take_app_length.
  assert (drop (length (header_block r) + 4) (header_block r ++ CRLFCRLF ++ req_body r)
          = req_body r) as -> by by rewrite drop_app_add.
  rewrite !(proj2 (N.ltb_ge _ _)) by done.
  assert (utf8_valid (header_block r) = true) as -> by by apply join_lines_valid.
  cbn [negb]. unfold header_block. rewrite split_join_lines by done.
  rewrite (proj2 (N.ltb_ge _ _)) by done.
  rewrite validate_request_line_wire by done.
  rewrite parse_header_lines_wire by (apply Hr || (rewrite len_nil; lia)). simpl app.
  destruct (rw_host _ Hr) as (h & Hh & Hne).
  rewrite (host_authority_complete _ h) by (done || apply Hr).
  rewrite (expected_len_complete _ _ (rw_framed _ Hr)).
  rewrite (proj2 (N.ltb_ge _ _)) by done. rewrite N.eqb_refl. cbn [negb]. by destruct r.
Qed.

(** the parser's language is exactly the set of well-formed requests, and parsing
    undoes rendering: the wire form of a well-formed request parses, under any limits it
    fits, to that very request; and a request is a result of the parser for some input and
    limits if and only if it is well-formed. *)
Theorem wire_request_roundtrip r :
  (∀ limits, request_wf r → request_fits limits r →
     parse_http_request (wire_request r) limits = Ok r)
  ∧ ((∃ input limits, parse_http_request input limits = Ok r) ↔ request_wf r).
Proof.
  split; [intros; by apply parse_wire_request|]. split.
  - intros (input & limits & H). by eapply parse_sound_wf.
  - intros Hr. exists (wire_request r).
    exists {| max_request_line_bytes := len (request_line r);
              max_header_bytes := len (header_block r);
              max_header_count := len (req_headers r); max_body_bytes := len (req_body r) |}.
    apply parse_wire_request; [done|]. by constructor.
Qed.

(** ** The buffer *)
Definition buffer_ok (b : ClientRequestBuffer) : Prop :=
  buf_header_end b = find_header_end (buf_bytes b).

(** The answer depends on all bytes received so far, not on how they arrived. *)
Lemma buffer_push_stateless chunk limits b :
  buffer_ok b →
  buffer_push chunk limits b = buffer_push (buf_bytes b ++ chunk) limits ClientRequestBuffer_default.
Proof.
  intros Hb. unfold buffer_push. simpl. rewrite Hb.
  destruct (find_header_end (buf_bytes b)) as [e|] eqn:He; [|done].
  assert (find_header_end (buf_bytes b ++ chunk) = Some e) as ->; [|done].
  unfold find_header_end in *. apply fmap_Some in He as (n & Hn & ->).
  by rewrite (find_seq_app _ _ _ _ Hn).
Qed.

Lemma buffer_push_ok chunk limits b : buffer_ok b → buffer_ok (buffer_push chunk limits b).2.
Proof.
  intros Hb. rewrite buffer_push_stateless by done. unfold buffer_push, buffer_ok. simpl.
  destruct (find_header_end (buf_bytes b ++ chunk)) as [e|] eqn:He; repeat case_match; by simpl.
Qed.

Lemma buffer_push_incomplete chunk limits b b' :
  buffer_push chunk limits b = (Ok Incomplete, b') → buf_bytes b' = buf_bytes b ++ chunk.
Proof. unfold buffer_push. intros. repeat case_match; by simplify_eq/=. Qed.

(** The request buffer is insensitive to where the reads cut the stream: when a first
    part was answered [Incomplete], pushing the second part gives the same answer, and the
    same buffer, as pushing both parts at once; a complete request leaves the buffer
    empty. *)
Theorem buffer_push_segmentation limits b x y b' :
  buffer_ok b → buffer_push x limits b = (Ok Incomplete, b') →
  buffer_push y limits b' = buffer_push (x ++ y) limits b
  ∧ ∀ bytes b'', buffer_push y limits b' = (Ok (Complete bytes), b'') →
      bytes = buf_bytes b ++ x ++ y ∧ b'' = ClientRequestBuffer_default.
Proof.
  intros Hb Hx. pose proof (buffer_push_ok x limits b Hb) as Hb'. rewrite Hx in Hb'. simpl in Hb'.
  rewrite (buffer_push_stateless y), (buffer_push_stateless (x ++ y) limits b) by done.
  rewrite (buffer_push_incomplete _ _ _ _ Hx), <-app_assoc. split; [done|].
  intros bytes b'' H. unfold buffer_push in H. simpl in H. by repeat case_match; simplify_eq/=.
Qed.

Lemma buffer_push_segmentation_witness :
  ∃ b', buffer_push (lit "GET / HTTP/1.1") HttpLimits_default ClientRequestBuffer_default
        = (Ok Incomplete, b')
  ∧ buffer_push (CRLF ++ lit "Host: a" ++ CRLFCRLF) HttpLimits_default b'
    = buffer_push (lit "GET / HTTP/1.1" ++ CRLF ++ lit "Host: a" ++ CRLFCRLF)
        HttpLimits_default ClientRequestBuffer_default.
Proof.
  eexists. split; [reflexivity|].
  apply (buffer_push_segmentation HttpLimits_default ClientRequestBuffer_default); reflexivity.
Defined.

(** *** Reassembling a request *)
Fixpoint buffer_outcomes (limits : HttpLimits) (b : ClientRequestBuffer)
    (chunks : list (list byte)) : list (result AppError RequestReadOutcome) :=
  match chunks with
  | [] => []
  | chunk :: rest =>
      let (r, b') := buffer_push chunk limits b in r :: buffer_outcomes limits b' rest
  end.

Lemma buffered_header_lines_wire acc headers :
  Forall header_wf headers →
  buffered_header_lines acc (wire_line <$> headers) = Ok (acc ++ headers).
Proof.
  intros Hwf. revert acc. induction Hwf as [|h headers Hh Hwf IH]; intros acc; simpl.
  { by rewrite app_nil_r. }
  pose proof (wire_line_ok h Hh) as [Hne _]. rewrite bool_decide_false by done.
  destruct Hh as [Hn Hv Ht Hu].
  rewrite (proj2 (split_once_Some COLON (wire_line h) (header_name h) (x20 :: header_value h))).
  - unfold validate_header_value.
    change (contains_prohibited_http_field_value_control (x20 :: header_value h))
      with (contains_prohibited_http_field_value_control (header_value h)).
    rewrite Hv, trim_space, Ht, trim_plain by by apply token_plain.
    rewrite IH, <-app_assoc. by destruct h.
  - split; [done|]. unfold is_http_token in Hn. apply andb_true_iff in Hn as [_ Hn].
    rewrite forallb_forall in Hn. intros Hin%list_elem_of_In. by specialize (Hn _ Hin).
Qed.

Lemma expected_len_header_block r :
  request_wf r →
  expected_request_body_len_from_header_bytes (header_block r) = Ok (len (req_body r)).
Proof.
  intros Hr. destruct (request_line_ok r Hr) as [Hline Hlu].
  destruct (header_lines_ok r Hr) as [Hls Hlv].
  unfold expected_request_body_len_from_header_bytes, header_block.
  rewrite join_lines_valid by done. cbn [negb]. rewrite split_join_lines by done.
  rewrite validate_request_line_wire by done.
  rewrite buffered_header_lines_wire by apply Hr. simpl app.
  apply expected_len_complete, Hr.
Qed.

Lemma find_header_end_wire r :
  request_wf r → find_seq CRLFCRLF (wire_request r) = Some (length (header_block r)).
Proof.
  intros Hr. rewrite wire_request_block. apply find_header_end_join;
    [by apply request_line_ok|by apply header_lines_ok].
Qed.

(** Every proper prefix of a request is answered [Incomplete], the whole of it [Complete]. *)
Section reassembly.
Context (limits : HttpLimits) (r : HttpRequest).
Context (Hr : request_wf r) (Hfits : request_fits limits r).
Context (Hblock : len (header_block r) + 3 ≤ max_header_bytes limits).
Context (Hwidth : max_header_bytes limits + 4 + max_body_bytes limits ≤ USIZE_MAX).

Lemma push_prefix p rest :
  wire_request r = p ++ rest → rest ≠ [] →
  (buffer_push p limits ClientRequestBuffer_default).1 = Ok Incomplete.
Proof using Hr Hfits Hblock Hwidth.
  intros Hp Hne. pose proof (find_header_end_wire r Hr) as Hw.
  pose proof (wire_request_block r) as Hwb. rewrite Hp in Hw, Hwb.
  assert (Hlen : len p + len rest = len (header_block r) + 4 + len (req_body r)).
  { rewrite <-len_app, Hwb, !len_app. change (len CRLFCRLF) with 4. lia. }
  assert (0 < len rest) by (destruct rest; [done|rewrite len_cons; lia]).
  unfold buffer_push, find_header_end. simpl.
  destruct (find_seq CRLFCRLF p) as [e|] eqn:He; simpl.
  - pose proof (find_seq_app _ _ rest _ He) as He'. rewrite Hw in He'. injection He' as <-.
    apply find_seq_Some in He as (k & Hk & Hlen'). change (length CRLFCRLF) with 4%nat in Hlen'.
    unfold saturating_sub, wrapping_add. replace (N.of_nat (length (header_block r)) + 4 - 4)
      with (len (header_block r)) by (unfold len; lia).
    rewrite (proj2 (N.ltb_ge _ _)) by (pose proof (rf_block _ _ Hfits); lia).
    assert (take (N.to_nat (len (header_block r))) p = header_block r) as ->.
    { unfold len. rewrite Nat2N.id. apply (f_equal (take (length (header_block r)))) in Hwb.
      rewrite take_app_length in Hwb. rewrite <-Hwb at 2. symmetry. apply take_app_le. lia. }
    rewrite expected_len_header_block by done. fold (len (header_block r)).
    rewrite (proj2 (N.ltb_ge _ _)) by apply Hfits.
    pose proof (rf_body _ _ Hfits). pose proof (rf_block _ _ Hfits).
    unfold USIZE_MAX, U64_MAX in *. rewrite !N.mod_small by lia.
    rewrite (proj2 (N.ltb_ge _ _)) by lia. rewrite (proj2 (N.leb_gt _ _)) by lia. done.
  - rewrite (proj2 (N.ltb_ge _ _)); [done|].
    destruct (N.le_gt_cases (len p) (len (header_block r) + 3)); [lia|]. exfalso.
    set (h := header_block r ++ CRLFCRLF).
    assert (Hn : (length h ≤ length p)%nat).
    { unfold h. rewrite length_app. change (length CRLFCRLF) with 4%nat. unfold len in *. lia. }
    assert (Hh : take (length h) p = h).
    { rewrite <-(take_app_le p rest) by done. by rewrite Hwb, app_assoc, take_app_length. }
    rewrite <-(take_drop (length h) p), Hh in He. unfold h in He. rewrite <-app_assoc in He.
    unfold header_block in He at 1. rewrite find_header_end_join in He; [done|..];
      [by apply request_line_ok|by apply header_lines_ok].
Qed.

Lemma push_whole :
  buffer_push (wire_request r) limits ClientRequestBuffer_default
  = (Ok (Complete (wire_request r)), ClientRequestBuffer_default).
Proof using Hr Hfits Hblock Hwidth.
  unfold buffer_push, find_header_end. simpl. rewrite find_header_end_wire by done. simpl.
  unfold saturating_sub, wrapping_add. replace (N.of_nat (length (header_block r)) + 4 - 4)
      with (len (header_block r)) by (unfold len; lia).
  rewrite (proj2 (N.ltb_ge _ _)) by (pose proof (rf_block _ _ Hfits); lia).
  assert (take (N.to_nat (len (header_block r))) (wire_request r) = header_block r) as ->.
  { unfold len. by rewrite Nat2N.id, wire_request_block, take_app_length. }
  rewrite expected_len_header_block by done. fold (len (header_block r)).
  rewrite (proj2 (N.ltb_ge _ _)) by apply Hfits.
  pose proof (rf_body _ _ Hfits). pose proof (rf_block _ _ Hfits).
  assert (len (wire_request r) = len (header_block r) + 4 + len (req_body r)).
  { rewrite wire_request_block, !len_app. change (len CRLFCRLF) with 4. lia. }
  unfold USIZE_MAX, U64_MAX in *. rewrite !N.mod_small by lia.
  rewrite (proj2 (N.ltb_ge _ _)) by lia. by rewrite (proj2 (N.leb_le _ _)) by lia.
Qed.

Lemma outcomes_reassembly chunks last b :
  buffer_ok b → buf_bytes b ++ concat chunks ++ last = wire_request r → last ≠ [] →
  buffer_outcomes limits b (chunks ++ [last])
  = replicate (length chunks) (Ok Incomplete) ++ [Ok (Complete (wire_request r))].
Proof using Hr Hfits Hblock Hwidth.
  revert b. induction chunks as [|c chunks IH]; intros b Hb Hw Hne; simpl.
  - rewrite buffer_push_stateless by done. simpl in Hw. by rewrite Hw, push_whole.
  - destruct (buffer_push c limits b) as [o b'] eqn:Hpush.
    pose proof (buffer_push_ok c limits b Hb) as Hb'. rewrite Hpush in Hb'.
    assert (o = Ok Incomplete) as ->.
    { pose proof (push_prefix (buf_bytes b ++ c) (concat chunks ++ last)) as Hpre.
      rewrite <-buffer_push_stateless, Hpush in Hpre by done. apply Hpre.
      - rewrite <-Hw. simpl. by rewrite <-!app_assoc.
      - intros [_ ?]%app_eq_nil. congruence. }
    f_equal. apply IH; [done| |done]. rewrite (buffer_push_incomplete _ _ _ _ Hpush), <-Hw.
    simpl. by rewrite <-!app_assoc.
Qed.
End reassembly.

(** C11: a request is reassembled from any segmentation of its bytes: however the wire form
    of a well-formed request within the limits is cut into reads (the last one non-empty),
    every read but the last is answered [Incomplete], the last one [Complete] with exactly
    the request's bytes, and those parse to the request.  The header block needs three
    spare bytes below its limit (see the next theorem). *)
Theorem request_reassembly limits r chunks last :
  request_wf r → request_fits limits r →
  len (header_block r) + 3 ≤ max_header_bytes limits →
  max_header_bytes limits + 4 + max_body_bytes limits ≤ USIZE_MAX →
  concat chunks ++ last = wire_request r → last ≠ [] →
  buffer_outcomes limits ClientRequestBuffer_default (chunks ++ [last])
  = replicate (length chunks) (Ok Incomplete) ++ [Ok (Complete (wire_request r))]
  ∧ parse_http_request (wire_request r) limits = Ok r.
Proof.
  intros. split; [by apply outcomes_reassembly|by apply parse_wire_request].
Qed.

Definition request_example : HttpRequest :=
  {| req_method := lit "POST"; req_path := lit "/a"; req_version := lit "HTTP/1.1";
     req_headers := [{| header_name := lit "Host"; header_value := lit "example.com" |};
                     {| header_name := lit "Content-Length"; header_value := lit "3" |}];
     req_body := lit "abc" |}.

Lemma request_example_wf : request_wf request_example.
Proof.
  constructor; try (vm_compute; done).
  - repeat apply Forall_cons; try apply Forall_nil; constructor; vm_compute; done.
  - eexists. split; [vm_compute; reflexivity|done].
  - apply expected_len_framed. vm_compute. reflexivity.
Qed.

Lemma request_reassembly_witness :
  buffer_outcomes HttpLimits_default ClientRequestBuffer_default
    [take 20 (wire_request request_example); drop 20 (wire_request request_example)]
  = [Ok Incomplete; Ok (Complete (wire_request request_example))].
Proof.
  refine (proj1 (request_reassembly HttpLimits_default request_example
    [take 20 (wire_request request_example)] (drop 20 (wire_request request_example)) _ _ _ _ _ _)).
  - exact request_example_wf.
  - constructor; vm_compute; discriminate.
  - vm_compute. discriminate.
  - vm_compute. discriminate.
  - vm_compute. reflexivity.
  - vm_compute. discriminate.
Defined.

(** The size limit of the header block is applied differently to a block that arrives in
    one read and to one whose terminator is split: the same bytes, whose header block is
    exactly at the limit, are accepted in one read and refused with
    [HTTP_HEADER_TOO_LARGE] when the read ends inside the final CR LF CR LF. *)
Theorem header_limit_depends_on_segmentation :
  let limits := {| max_request_line_bytes := 100; max_header_bytes := 25;
                   max_header_count := 10; max_body_bytes := 10 |} in
  let block := lit "GET / HTTP/1.1" ++ CRLF ++ lit "Host: exa" in
  len block = 25
  ∧ buffer_outcomes limits ClientRequestBuffer_default [block ++ CRLFCRLF]
    = [Ok (Complete (block ++ CRLFCRLF))]
  ∧ buffer_outcomes limits ClientRequestBuffer_default [block ++ [x0d]; [x0a; x0d; x0a]]
    = [Err (AppError_new HttpHeaderTooLarge "headers exceed limit");
       Ok (Complete (block ++ CRLFCRLF))].
Proof. vm_compute. repeat split; reflexivity. Qed.

Lemma parse_http_request_sound_witness :
  parse_http_request (wire_request request_example) HttpLimits_default = Ok request_example
  ∧ len (req_headers request_example) ≤ 100.
Proof.
  assert (H : parse_http_request (wire_request request_example) HttpLimits_default
              = Ok request_example) by (vm_compute; reflexivity).
  split; [exact H|].
  exact (proj1 (proj2 (proj2 (parse_http_request_sound _ _ _ H)))).
Defined.

Lemma wire_request_roundtrip_witness :
  parse_http_request (wire_request request_example) HttpLimits_default = Ok request_example.
Proof.
  apply (proj1 (wire_request_roundtrip request_example)); [exact request_example_wf|].
  constructor; vm_compute; discriminate.
Defined.
