(* ===== verification/ResponseFraming.v ===== *)
(** * Framing of upstream responses

    crates/edge-core/src/upstream_response_framing.rs: the incremental state machine
    that finds the end of an HTTP/1.1 response.  The buffers of the machine grow with
    [Vec::try_reserve], which can fail; the allocator is an interface ([Allocator]),
    whose state is threaded through the calls, so every theorem holds for every
    pattern of allocation failures. *)

From stdpp Require Import base gmap strings list numbers.
From Stdlib Require Import Strings.Byte NArith Lia.
From S2P Require Import Prelude Errors RustStr HttpRequest.
Local Open Scope N_scope.

Inductive ResponseFramingPhase : Set :=
| PhaseHeaders | PhaseContentLength | PhaseChunkSize | PhaseChunkData | PhaseChunkDataCrlf
| PhaseTrailers | PhaseCloseDelimited | PhaseComplete | PhaseFailed.

Record ResponseFramingProgress := {
  progress_consumed : N;
  progress_input_len : N;
  progress_phase : ResponseFramingPhase;
  progress_status_code : option N
}.

Inductive ResponseFramingState : Set :=
| SHeaders (headers : list byte)
| SContentLength (remaining : N)
| SChunkSize (line : list byte)
| SChunkData (remaining : N)
| SChunkDataCrlf (matched : nat)
| STrailers (line : list byte)
| SCloseDelimited
| SComplete
| SFailed.

Inductive ResponseBodyExpectation : Set := ExpectNormal | ExpectHeadResponse.

Inductive ResponseBodyFraming : Set :=
| FramingInterim
| FramingNone
| FramingContentLength (n : N)
| FramingChunked
| FramingCloseDelimited.

#[global] Instance phase_eq_dec : EqDecision ResponseFramingPhase.
Proof. solve_decision. Defined.
#[global] Instance framing_state_eq_dec : EqDecision ResponseFramingState.
Proof. solve_decision. Defined.
#[global] Instance expectation_eq_dec : EqDecision ResponseBodyExpectation.
Proof. solve_decision. Defined.
#[global] Instance body_framing_eq_dec : EqDecision ResponseBodyFraming.
Proof. solve_decision. Defined.

Record HttpResponseFraming := {
  fr_state : ResponseFramingState;
  fr_max_header_bytes : N;
  fr_max_line_bytes : N;
  fr_body_expectation : ResponseBodyExpectation;
  fr_status_code : option N;
  fr_connection_close : bool;
  fr_close_delimited : bool
}.

Definition framing_with_body_expectation (max_header_bytes max_line_bytes : N)
    (body_expectation : ResponseBodyExpectation) : HttpResponseFraming :=
  {| fr_state := SHeaders []; fr_max_header_bytes := max_header_bytes;
     fr_max_line_bytes := max_line_bytes; fr_body_expectation := body_expectation;
     fr_status_code := None; fr_connection_close := false; fr_close_delimited := false |}.
Definition framing_new (max_header_bytes max_line_bytes : N) : HttpResponseFraming :=
  framing_with_body_expectation max_header_bytes max_line_bytes ExpectNormal.
Definition framing_new_for_head_response (max_header_bytes max_line_bytes : N)
  : HttpResponseFraming :=
  framing_with_body_expectation max_header_bytes max_line_bytes ExpectHeadResponse.

Definition phase_of (s : ResponseFramingState) : ResponseFramingPhase :=
  match s with
  | SHeaders _ => PhaseHeaders
  | SContentLength _ => PhaseContentLength
  | SChunkSize _ => PhaseChunkSize
  | SChunkData _ => PhaseChunkData
  | SChunkDataCrlf _ => PhaseChunkDataCrlf
  | STrailers _ => PhaseTrailers
  | SCloseDelimited => PhaseCloseDelimited
  | SComplete => PhaseComplete
  | SFailed => PhaseFailed
  end.

Definition is_keep_alive_reusable (f : HttpResponseFraming) : bool :=
  bool_decide (fr_state f = SComplete) && negb (fr_connection_close f)
  && negb (fr_close_delimited f).

Definition set_state (s : ResponseFramingState) (f : HttpResponseFraming) : HttpResponseFraming :=
  {| fr_state := s; fr_max_header_bytes := fr_max_header_bytes f;
     fr_max_line_bytes := fr_max_line_bytes f; fr_body_expectation := fr_body_expectation f;
     fr_status_code := fr_status_code f; fr_connection_close := fr_connection_close f;
     fr_close_delimited := fr_close_delimited f |}.
Definition set_status (code : N) (f : HttpResponseFraming) : HttpResponseFraming :=
  {| fr_state := fr_state f; fr_max_header_bytes := fr_max_header_bytes f;
     fr_max_line_bytes := fr_max_line_bytes f; fr_body_expectation := fr_body_expectation f;
     fr_status_code := Some code; fr_connection_close := fr_connection_close f;
     fr_close_delimited := fr_close_delimited f |}.
Definition set_delimiting (close delimited : bool) (f : HttpResponseFraming)
  : HttpResponseFraming :=
  {| fr_state := fr_state f; fr_max_header_bytes := fr_max_header_bytes f;
     fr_max_line_bytes := fr_max_line_bytes f; fr_body_expectation := fr_body_expectation f;
     fr_status_code := fr_status_code f; fr_connection_close := close;
     fr_close_delimited := delimited |}.

Definition malformed_upstream_response (message : string) : AppError :=
  AppError_new RuntimeUpstreamBadGateway message.
Definition bad_response {A} (message : string) : result AppError A :=
  Err (malformed_upstream_response message).

Definition framing_progress (f : HttpResponseFraming) (consumed input_len : N)
  : ResponseFramingProgress :=
  {| progress_consumed := consumed; progress_input_len := input_len;
     progress_phase := phase_of (fr_state f); progress_status_code := fr_status_code f |}.

Definition framing_fail {A} (message : string) (f : HttpResponseFraming)
  : result AppError A * HttpResponseFraming :=
  (bad_response message, set_state SFailed f).

(** ** Header block *)
Inductive field_kind : Set := ResponseHeaderField | ChunkTrailerField.

Definition validate_field_value (value : list byte) (field : field_kind) : result AppError () :=
  if contains_prohibited_http_field_value_control value
  then bad_response (match field with
                     | ResponseHeaderField =>
                         "response header value contains prohibited control byte"
                     | ChunkTrailerField =>
                         "chunk trailer value contains prohibited control byte"
                     end)
  else Ok ().

(** The variables of the loop over the header lines. *)
Record FramingHeaders := {
  fh_content_length : option N;
  fh_transfer_encoding_present : bool;
  fh_transfer_encoding_chunked : bool;
  fh_chunked_coding_seen : bool;
  fh_connection_close : bool
}.

Definition framing_headers_init : FramingHeaders :=
  {| fh_content_length := None; fh_transfer_encoding_present := false;
     fh_transfer_encoding_chunked := false; fh_chunked_coding_seen := false;
     fh_connection_close := false |}.

Definition COMMA : byte := x2c.

Definition apply_content_length (name value : list byte) (h : FramingHeaders)
  : result AppError FramingHeaders :=
  if eq_ignore_ascii_case name (lit "Content-Length") then
    match fh_content_length h with
    | Some _ => bad_response "duplicate response content length"
    | None =>
        match parse_uint USIZE_MAX (trim value) with
        | None => bad_response "response content length is invalid"
        | Some n =>
            Ok {| fh_content_length := Some n;
                  fh_transfer_encoding_present := fh_transfer_encoding_present h;
                  fh_transfer_encoding_chunked := fh_transfer_encoding_chunked h;
                  fh_chunked_coding_seen := fh_chunked_coding_seen h;
                  fh_connection_close := fh_connection_close h |}
        end
    end
  else Ok h.

Fixpoint apply_codings (codings : list (list byte)) (h : FramingHeaders)
  : result AppError FramingHeaders :=
  match codings with
  | [] => Ok h
  | coding :: rest =>
      let coding := trim coding in
      if bool_decide (coding = []) then bad_response "response transfer encoding is empty"
      else
        let chunked := eq_ignore_ascii_case coding (lit "chunked") in
        apply_codings rest
          {| fh_content_length := fh_content_length h;
             fh_transfer_encoding_present := fh_transfer_encoding_present h;
             fh_transfer_encoding_chunked := chunked;
             fh_chunked_coding_seen := fh_chunked_coding_seen h || chunked;
             fh_connection_close := fh_connection_close h |}
  end.

Definition apply_transfer_encoding (name value : list byte) (h : FramingHeaders)
  : result AppError FramingHeaders :=
  if eq_ignore_ascii_case name (lit "Transfer-Encoding") then
    apply_codings (split_byte COMMA value)
      {| fh_content_length := fh_content_length h; fh_transfer_encoding_present := true;
         fh_transfer_encoding_chunked := fh_transfer_encoding_chunked h;
         fh_chunked_coding_seen := fh_chunked_coding_seen h;
         fh_connection_close := fh_connection_close h |}
  else Ok h.

Definition apply_connection (name value : list byte) (h : FramingHeaders) : FramingHeaders :=
  if eq_ignore_ascii_case name (lit "Connection") then
    {| fh_content_length := fh_content_length h;
       fh_transfer_encoding_present := fh_transfer_encoding_present h;
       fh_transfer_encoding_chunked := fh_transfer_encoding_chunked h;
       fh_chunked_coding_seen := fh_chunked_coding_seen h;
       fh_connection_close :=
         fh_connection_close h
         || existsb (λ token, eq_ignore_ascii_case (trim token) (lit "close"))
              (split_byte COMMA value) |}
  else h.

Fixpoint framing_header_loop (lines : list (list byte)) (h : FramingHeaders)
  : result AppError FramingHeaders :=
  match lines with
  | [] => Ok h
  | line :: rest =>
      match split_once COLON line with
      | None => bad_response "response header is malformed"
      | Some (name, value) =>
          if negb (is_http_token name) then bad_response "response header name is invalid"
          else
            let? _ := validate_field_value value ResponseHeaderField in
            let? h := apply_content_length name value h in
            let? h := apply_transfer_encoding name value h in
            framing_header_loop rest (apply_connection name value h)
      end
  end.

Definition SP : byte := x20.

Definition parse_status_line (status_line : list byte) : result AppError N :=
  match split_once SP status_line with
  | None => bad_response "response HTTP version is missing"
  | Some (version, status_and_reason) =>
      if negb (bool_decide (version = lit "HTTP/1.1"))
      then bad_response "response HTTP version is invalid"
      else match split_once SP status_and_reason with
      | None => bad_response "response reason separator is missing"
      | Some (status_code, _) =>
          if negb (len status_code =? 3) || negb (forallb is_ascii_digit status_code)
          then bad_response "response status code is invalid"
          else match parse_uint U16_MAX status_code with
          | None => bad_response "response status code is invalid"
          | Some status_code =>
              if negb ((100 <=? status_code) && (status_code <=? 999))
              then bad_response "response status code is outside the valid range"
              else Ok status_code
          end
      end
  end.

Definition is_interim_status (status_code : N) : bool :=
  (100 <=? status_code) && (status_code <? 200) && negb (status_code =? 101).

Definition choose_framing (status_code : N) (body_expectation : ResponseBodyExpectation)
    (h : FramingHeaders) : ResponseBodyFraming :=
  if is_interim_status status_code then FramingInterim
  else if bool_decide (body_expectation = ExpectHeadResponse)
          || (status_code =? 101) || (status_code =? 204) || (status_code =? 304)
  then FramingNone
  else if fh_transfer_encoding_chunked h then FramingChunked
  else match fh_content_length h with
       | Some n => FramingContentLength n
       | None => FramingCloseDelimited
       end.

Definition parse_response_framing_headers (headers : list byte)
    (body_expectation : ResponseBodyExpectation)
  : result AppError (N * ResponseBodyFraming * bool) :=
  if negb (utf8_valid headers) then bad_response "response headers are not UTF-8"
  else match strip_suffix CRLFCRLF headers with
  | None => bad_response "response header terminator is missing"
  | Some header_text =>
      match split_str CRLF header_text with
      | [] => bad_response "response status line is missing"
      | status_line :: lines =>
          let? status_code := parse_status_line status_line in
          let? h := framing_header_loop lines framing_headers_init in
          if fh_transfer_encoding_present h && bool_decide (is_Some (fh_content_length h))
          then bad_response "response transfer encoding conflicts with content length"
          else if fh_chunked_coding_seen h && negb (fh_transfer_encoding_chunked h)
          then bad_response "chunked must be the final response transfer coding"
          else Ok (status_code, choose_framing status_code body_expectation h,
                   fh_connection_close h)
      end
  end.

Definition SEMICOLON : byte := x3b.

Definition parse_chunk_size (line : list byte) : result AppError N :=
  if negb (utf8_valid line) then bad_response "chunk size is not UTF-8"
  else
    let size := trim (default [] (head (split_byte SEMICOLON line))) in
    if bool_decide (size = []) then bad_response "chunk size is missing"
    else match from_str_radix 16 USIZE_MAX size with
         | Some n => Ok n
         | None => bad_response "chunk size is invalid"
         end.

Definition validate_trailer_line (line : list byte) : result AppError () :=
  if negb (utf8_valid line) then bad_response "chunk trailer is not UTF-8"
  else match split_once COLON line with
  | None => bad_response "chunk trailer is malformed"
  | Some (name, value) =>
      if negb (is_http_token name) then bad_response "chunk trailer name is invalid"
      else
        let? _ := validate_field_value value ChunkTrailerField in
        Ok ()
  end.

Definition parse_response_status_code (bytes : list byte) : option N :=
  match find_seq CRLF bytes with
  | None => None
  | Some line_end =>
      let status_line := take line_end bytes in
      if negb (utf8_valid status_line) then None
      else match split_whitespace status_line with
      | version :: rest =>
          if negb (starts_with (lit "HTTP/") version) then None
          else match rest with
               | code :: _ => parse_uint U16_MAX code
               | [] => None
               end
      | [] => None
      end
  end.

(** ** The machine *)
Section machine.
Context `{Allocator W}.

Definition try_push_bounded (bytes : list byte) (b : byte) (max_bytes : N) (w : W)
  : result AppError (list byte) * W :=
  if max_bytes <=? len bytes
  then (Err (AppError_new ResourcePayloadCapacityReached "response framing buffer limit reached"),
        w)
  else
    let (room, w) := reserve_one bytes w in
    if room then (Ok (bytes ++ [b]), w)
    else (Err (AppError_new ResourceAllocationFailed "response framing buffer allocation failed"),
          w).

(** The machine after a complete header block. *)
Definition accept_headers (headers : list byte) (f : HttpResponseFraming)
  : result AppError () * HttpResponseFraming :=
  let f := set_state SFailed f in
  match parse_response_framing_headers headers (fr_body_expectation f) with
  | Err e => (Err e, f)
  | Ok (status_code, body_framing, connection_close) =>
      let f := set_status status_code f in
      let f := if bool_decide (body_framing = FramingInterim) then f
               else set_delimiting connection_close
                      (bool_decide (body_framing = FramingCloseDelimited)) f in
      (Ok (), set_state (match body_framing with
                         | FramingInterim => SHeaders []
                         | FramingNone | FramingContentLength 0 => SComplete
                         | FramingContentLength remaining => SContentLength remaining
                         | FramingChunked => SChunkSize []
                         | FramingCloseDelimited => SCloseDelimited
                         end) f)
  end.

(** One turn of the [while] loop: [rest] is the input from [cursor] on (not empty), the
    answer the number of bytes by which [cursor] advances. *)
Definition push_turn (rest : list byte) (b : byte) (f : HttpResponseFraming) (w : W)
  : result AppError N * (HttpResponseFraming * W) :=
  match fr_state f with
  | SHeaders headers =>
      match try_push_bounded headers b (fr_max_header_bytes f) w with
      | (Err error, w) => (Err error, (set_state SFailed f, w))
      | (Ok headers, w) =>
          if ends_with CRLFCRLF headers then
            let (r, f) := accept_headers headers f in
            (let? _ := r in Ok 1, (f, w))
          else (Ok 1, (set_state (SHeaders headers) f, w))
      end
  | SContentLength remaining =>
      let consumed := N.min remaining (len rest) in
      let remaining := remaining - consumed in
      (Ok consumed, (set_state (if remaining =? 0 then SComplete
                                else SContentLength remaining) f, w))
  | SChunkSize line =>
      match try_push_bounded line b (fr_max_line_bytes f) w with
      | (Err error, w) => (Err error, (set_state SFailed f, w))
      | (Ok line, w) =>
          if ends_with CRLF line then
            match parse_chunk_size (take (length line - 2) line) with
            | Err error => (Err error, (set_state SFailed f, w))
            | Ok size => (Ok 1, (set_state (if size =? 0 then STrailers []
                                            else SChunkData size) f, w))
            end
          else (Ok 1, (set_state (SChunkSize line) f, w))
      end
  | SChunkData remaining =>
      let consumed := N.min remaining (len rest) in
      let remaining := remaining - consumed in
      (Ok consumed, (set_state (if remaining =? 0 then SChunkDataCrlf 0
                                else SChunkData remaining) f, w))
  | SChunkDataCrlf matched =>
      if negb (bool_decide (CRLF !! matched = Some b)) then
        let (r, f) := framing_fail "chunk data is not followed by CRLF" f in (r, (f, w))
      else
        (Ok 1, (set_state (if Nat.eqb (matched + 1) 2 then SChunkSize []
                           else SChunkDataCrlf (matched + 1)) f, w))
  | STrailers line =>
      match try_push_bounded line b (fr_max_line_bytes f) w with
      | (Err error, w) => (Err error, (set_state SFailed f, w))
      | (Ok line, w) =>
          if ends_with CRLF line then
            if len line =? 2 then (Ok 1, (set_state SComplete f, w))
            else if negb (is_ok (validate_trailer_line (take (length line - 2) line))) then
              let (r, f) := framing_fail "malformed chunk trailer" f in (r, (f, w))
            else (Ok 1, (set_state (STrailers []) f, w))
          else (Ok 1, (set_state (STrailers line) f, w))
      end
  | SCloseDelimited => (Ok (len rest), (f, w))
  | SComplete | SFailed => (Ok 0, (f, w))
  end.

Definition is_terminal (s : ResponseFramingState) : bool :=
  match s with SComplete | SFailed => true | _ => false end.

(** The loop; a turn that does not end it advances the cursor (see [push_loop_run]). *)
Fixpoint push_loop (fuel : nat) (rest : list byte) (cursor : N) (f : HttpResponseFraming) (w : W)
  : result AppError N * (HttpResponseFraming * W) :=
  match fuel with
  | O => (Ok cursor, (f, w))
  | S fuel =>
      match rest with
      | [] => (Ok cursor, (f, w))
      | b :: _ =>
          if is_terminal (fr_state f) then (Ok cursor, (f, w))
          else
            let! consumed, s := push_turn rest b f w in
            push_loop fuel (drop (N.to_nat consumed) rest) (cursor + consumed) s.1 s.2
      end
  end.

Definition framing_push (input : list byte) (f : HttpResponseFraming) (w : W)
  : result AppError ResponseFramingProgress * (HttpResponseFraming * W) :=
  if is_terminal (fr_state f) then
    let (r, f) := framing_fail "response framing is already terminal" f in (r, (f, w))
  else
    let! cursor, s := push_loop (length input) input 0 f w in
    (Ok (framing_progress s.1 cursor (len input)), s).

Definition finish_on_eof (f : HttpResponseFraming)
  : result AppError ResponseFramingProgress * HttpResponseFraming :=
  match fr_state f with
  | SCloseDelimited =>
      let f := set_state SComplete f in (Ok (framing_progress f 0 0), f)
  | SComplete => (Ok (framing_progress f 0 0), f)
  | SFailed => framing_fail "response framing has failed" f
  | _ => framing_fail "upstream closed before response framing completed" f
  end.
End machine.

(** ** The byte-at-a-time reference machine *)
Section reference.
Context `{Allocator W}.

Fixpoint run_bytes (rest : list byte) (cursor : N) (f : HttpResponseFraming) (w : W)
  : result AppError N * (HttpResponseFraming * W) :=
  match rest with
  | [] => (Ok cursor, (f, w))
  | b :: t =>
      if is_terminal (fr_state f) then (Ok cursor, (f, w))
      else
        let! _, s := push_turn [b] b f w in
        run_bytes t (cursor + 1) s.1 s.2
  end.

(** The invariant of the machine: what is buffered is within its bound and not complete
    yet, and there is always something left to wait for. *)
Definition state_inv (f : HttpResponseFraming) : Prop :=
  match fr_state f with
  | SHeaders h => len h ≤ fr_max_header_bytes f ∧ ends_with CRLFCRLF h = false
  | SContentLength n | SChunkData n => 0 < n
  | SChunkSize l | STrailers l => len l ≤ fr_max_line_bytes f ∧ ends_with CRLF l = false
  | SChunkDataCrlf m => (m < 2)%nat
  | SCloseDelimited | SComplete | SFailed => True
  end.

Lemma try_push_bounded_ok bytes b mx w l w' :
  try_push_bounded bytes b mx w = (Ok l, w') → l = bytes ++ [b] ∧ len l ≤ mx.
Proof using Type.
  unfold try_push_bounded. destruct (N.leb_spec mx (len bytes)); [done|].
  destruct (reserve_one bytes w) as [[] ?]; [|done]. intros [= <- <-].
  rewrite len_app, len_cons, len_nil. split; [done|lia].
Qed.

Lemma accept_headers_inv headers f r f' :
  accept_headers headers f = (r, f') → state_inv f' ∧ fr_max_header_bytes f' = fr_max_header_bytes f
  ∧ fr_max_line_bytes f' = fr_max_line_bytes f ∧ fr_body_expectation f' = fr_body_expectation f
  ∧ (is_ok r = false → fr_state f' = SFailed).
Proof.
  unfold accept_headers. destruct (parse_response_framing_headers _ _) as [[[code bf] cl]|].
  - set (f1 := if bool_decide (bf = FramingInterim) then _ else _). intros [= <- <-].
    assert (Hf : fr_max_header_bytes f1 = fr_max_header_bytes f
      ∧ fr_max_line_bytes f1 = fr_max_line_bytes f
      ∧ fr_body_expectation f1 = fr_body_expectation f) by (unfold f1; by case_bool_decide).
    clearbody f1. unfold state_inv. simpl. destruct Hf as (-> & -> & ->).
    split_and!; try done. destruct bf as [| |[|n]| |]; simpl; try done; try lia; (split; [len_lia|done]).
  - intros [= <- <-]. done.
Qed.

(** One turn: it keeps the invariant and the limits, and it stops the machine on an error. *)
Lemma push_turn_inv rest b f w r f' w' :
  state_inv f → rest ≠ [] → push_turn rest b f w = (r, (f', w')) →
  state_inv f' ∧ fr_max_header_bytes f' = fr_max_header_bytes f
  ∧ fr_max_line_bytes f' = fr_max_line_bytes f ∧ fr_body_expectation f' = fr_body_expectation f
  ∧ (is_ok r = false → fr_state f' = SFailed).
Proof using Type.
  intros Hinv Hne. unfold push_turn, framing_fail, bad_response.
  destruct (fr_state f) as [h|n|l|n|m|l| | |] eqn:Hs; unfold state_inv in Hinv; rewrite Hs in Hinv.
  - destruct (try_push_bounded h b _ w) as [[h'|e] w1] eqn:Hp; [|by intros [= <- <- <-]].
    apply try_push_bounded_ok in Hp as [-> Hl]. destruct (ends_with CRLFCRLF (h ++ [b])) eqn:He.
    + destruct (accept_headers _ f) as [r1 f1] eqn:Ha. apply accept_headers_inv in Ha.
      intros [= <- <- <-]. destruct r1; simpl in *; tauto.
    + intros [= <- <- <-]. done.
  - intros [= <- <- <-]. simpl. split_and!; try done. unfold state_inv. simpl.
    destruct (n - N.min n (len rest) =? 0) eqn:E; simpl; [done|]. nbool. lia.
  - destruct (try_push_bounded l b _ w) as [[h'|e] w1] eqn:Hp; [|by intros [= <- <- <-]].
    apply try_push_bounded_ok in Hp as [-> Hl]. destruct (ends_with CRLF (l ++ [b])) eqn:He.
    + destruct (parse_chunk_size _) as [size|]; intros [= <- <- <-]; [|done].
      split_and!; try done. unfold state_inv. simpl. destruct (N.eqb_spec size 0); simpl; [|lia].
      split; [len_lia|done].
    + intros [= <- <- <-]. done.
  - intros [= <- <- <-]. simpl. split_and!; try done. unfold state_inv. simpl.
    destruct (n - N.min n (len rest) =? 0) eqn:E; simpl; [lia|]. nbool. lia.
  - case_bool_decide; simpl; intros [= <- <- <-]; [|done]. split_and!; try done.
    unfold state_inv. simpl. destruct m as [|[|m]]; simpl; [lia|split; [len_lia|done]|lia].
  - destruct (try_push_bounded l b _ w) as [[h'|e] w1] eqn:Hp; [|by intros [= <- <- <-]].
    apply try_push_bounded_ok in Hp as [-> Hl]. destruct (ends_with CRLF (l ++ [b])) eqn:He.
    + destruct (len _ =? 2); [by intros [= <- <- <-]|].
      destruct (is_ok (validate_trailer_line _)); simpl; intros [= <- <- <-]; [|done].
      split_and!; try done. unfold state_inv. simpl. split; [len_lia|done].
    + intros [= <- <- <-]. done.
  - intros [= <- <- <-]. split_and!; try done. unfold state_inv. by rewrite Hs.
  - intros [= <- <- <-]. split_and!; try done. unfold state_inv. by rewrite Hs.
  - intros [= <- <- <-]. split_and!; try done. unfold state_inv. by rewrite Hs.
Qed.

Lemma run_bytes_terminal rest c f w :
  is_terminal (fr_state f) = true → run_bytes rest c f w = (Ok c, (f, w)).
Proof using Type. intros Ht. destruct rest; [done|]. simpl. by rewrite Ht. Qed.

Lemma set_state_id f : set_state (fr_state f) f = f.
Proof. by destruct f. Qed.
Lemma set_state_twice s s' f : set_state s (set_state s' f) = set_state s f.
Proof. done. Qed.

(** A counted run of bytes, whatever follows it. *)
Lemma run_bytes_counted (C : N → ResponseFramingState) (T : ResponseFramingState) :
  (∀ n b f w, fr_state f = C n →
     is_terminal (C n) = false
     ∧ push_turn [b] b f w
       = (Ok (N.min n 1), (set_state (if n - N.min n 1 =? 0 then T else C (n - N.min n 1)) f, w))) →
  ∀ rest n c f w, fr_state f = C n → 0 < n →
  let k := N.min n (len rest) in
  run_bytes rest c f w
  = run_bytes (drop (N.to_nat k) rest) (c + k)
      (set_state (if n - k =? 0 then T else C (n - k)) f) w.
Proof using Type.
  intros Hturn. induction rest as [|b rest IH]; intros n c f w Hs Hn k.
  { subst k. rewrite len_nil, N.min_0_r, N.add_0_r, N.sub_0_r. simpl.
    rewrite (proj2 (N.eqb_neq n 0)) by lia. by rewrite <-Hs, set_state_id. }
  destruct (Hturn n b f w Hs) as [Hterm Ht]. cbn [run_bytes]. rewrite Hs, Hterm, Ht.
  replace (N.min n 1) with 1 by lia. cbn [fst snd].
  destruct (N.eqb_spec (n - 1) 0) as [Hn1|Hn1].
  - subst k. rewrite len_cons. replace (N.min n (1 + len rest)) with 1 by lia.
    replace (n - 1) with 0 by lia. done.
  - rewrite (IH (n - 1)) by (done || lia). subst k. rewrite len_cons, set_state_twice.
    replace (N.min n (1 + len rest)) with (1 + N.min (n - 1) (len rest)) by lia.
    replace (N.to_nat (1 + N.min (n - 1) (len rest))) with (S (N.to_nat (N.min (n - 1) (len rest))))
      by lia.
    replace (n - 1 - N.min (n - 1) (len rest)) with (n - (1 + N.min (n - 1) (len rest))) by lia.
    cbn [drop]. by rewrite N.add_assoc.
Qed.

Lemma run_bytes_content_length rest n c f w :
  fr_state f = SContentLength n → 0 < n →
  let k := N.min n (len rest) in
  run_bytes rest c f w
  = run_bytes (drop (N.to_nat k) rest) (c + k)
      (set_state (if n - k =? 0 then SComplete else SContentLength (n - k)) f) w.
Proof using Type.
  apply run_bytes_counted. intros m b g w' Hg. split; [done|]. unfold push_turn. by rewrite Hg.
Qed.

Lemma run_bytes_chunk_data rest n c f w :
  fr_state f = SChunkData n → 0 < n →
  let k := N.min n (len rest) in
  run_bytes rest c f w
  = run_bytes (drop (N.to_nat k) rest) (c + k)
      (set_state (if n - k =? 0 then SChunkDataCrlf 0 else SChunkData (n - k)) f) w.
Proof using Type.
  apply run_bytes_counted. intros m b g w' Hg. split; [done|]. unfold push_turn. by rewrite Hg.
Qed.

Lemma run_bytes_close_delimited rest c f w :
  fr_state f = SCloseDelimited → run_bytes rest c f w = (Ok (c + len rest), (f, w)).
Proof using Type.
  revert c. induction rest as [|b rest IH]; intros c Hs; [by rewrite len_nil, N.add_0_r|].
  cbn [run_bytes]. unfold push_turn. rewrite Hs. cbn [is_terminal fst snd].
  rewrite IH by done. rewrite len_cons. by rewrite N.add_assoc.
Qed.

(** In the other states a turn takes one byte. *)
Definition single_byte (s : ResponseFramingState) : bool :=
  match s with SHeaders _ | SChunkSize _ | SChunkDataCrlf _ | STrailers _ => true | _ => false end.

Lemma push_turn_single rest b f w :
  single_byte (fr_state f) = true → push_turn rest b f w = push_turn [b] b f w.
Proof using Type. unfold push_turn. by destruct (fr_state f). Qed.

Lemma push_turn_consumed rest b f w k s :
  single_byte (fr_state f) = true → push_turn rest b f w = (Ok k, s) → k = 1.
Proof using Type.
  unfold push_turn, framing_fail, bad_response. destruct (fr_state f); try done; intros _ Hk;
    repeat (case_match; simplify_eq/=; try done).
Qed.

(** The loop of the source is the reference machine; the number of turns is bounded by the
    number of bytes. *)
Lemma push_loop_run fuel rest c f w :
  (length rest ≤ fuel)%nat → state_inv f → push_loop fuel rest c f w = run_bytes rest c f w.
Proof using Type.
  revert rest c f w. induction fuel as [|fuel IH]; intros rest c f w Hlen Hinv.
  { destruct rest; [done|simpl in Hlen; lia]. }
  destruct rest as [|b rest]; [done|]. cbn [push_loop].
  destruct (is_terminal (fr_state f)) eqn:Ht; [by rewrite run_bytes_terminal|].
  destruct (push_turn (b :: rest) b f w) as [[k|e] [f' w']] eqn:Hturn;
    (eapply push_turn_inv in Hturn as Hinv'; [|done|done]); destruct Hinv' as [Hinv' _].
  - cbn [fst snd]. destruct (single_byte (fr_state f)) eqn:Hsb.
    + pose proof (push_turn_consumed _ _ _ _ _ _ Hsb Hturn) as ->.
      rewrite push_turn_single in Hturn by done. cbn [run_bytes]. rewrite Ht, Hturn.
      cbn [fst snd]. apply IH; [simpl in *; lia|done].
    + destruct (fr_state f) as [h|n|l|n|m|l| | |] eqn:Hs; try done;
        unfold push_turn in Hturn; rewrite Hs in Hturn; injection Hturn as <- <- <-;
        unfold state_inv in Hinv; rewrite Hs in Hinv.
      * rewrite (run_bytes_content_length (b :: rest) n c f w Hs Hinv).
        apply IH; [|done]. rewrite length_drop. rewrite len_cons in *. simpl in *. lia.
      * rewrite (run_bytes_chunk_data (b :: rest) n c f w Hs Hinv).
        apply IH; [|done]. rewrite length_drop. rewrite len_cons in *. simpl in *. lia.
      * rewrite (run_bytes_close_delimited (b :: rest)) by done.
        unfold len at 1. rewrite Nat2N.id, drop_all. by destruct fuel.
  - destruct (single_byte (fr_state f)) eqn:Hsb.
    + rewrite push_turn_single in Hturn by done. cbn [run_bytes]. by rewrite Ht, Hturn.
    + unfold push_turn in Hturn. by destruct (fr_state f).
Qed.

Lemma run_bytes_app x y c f w :
  run_bytes (x ++ y) c f w
  = match run_bytes x c f w with
    | (Ok c', (f', w')) => run_bytes y c' f' w'
    | (Err e, s) => (Err e, s)
    end.
Proof using Type.
  revert c f w. induction x as [|b x IH]; intros c f w; [done|]. simpl.
  destruct (is_terminal (fr_state f)) eqn:Ht; [by rewrite run_bytes_terminal|].
  destruct (push_turn [b] b f w) as [[k|e] [f' w']]; [|done]. apply IH.
Qed.
End reference.

(** ** Bounds of the cursor *)
Section cursor.
Context `{Allocator W}.

Lemma run_bytes_shift rest c d f w :
  run_bytes rest (c + d) f w
  = match run_bytes rest c f w with (Ok c', s) => (Ok (c' + d), s) | (Err e, s) => (Err e, s) end.
Proof using Type.
  revert c f w. induction rest as [|b rest IH]; intros c f w; [done|]. simpl.
  destruct (is_terminal (fr_state f)); [done|].
  destruct (push_turn [b] b f w) as [[k|e] [f' w']]; [|done].
  replace (c + d + 1) with (c + 1 + d) by lia. apply IH.
Qed.

Lemma run_bytes_end rest c f w c' f' w' :
  run_bytes rest c f w = (Ok c', (f', w')) →
  c ≤ c' ≤ c + len rest ∧ (is_terminal (fr_state f') = false → c' = c + len rest).
Proof using Type.
  revert c f w. induction rest as [|b rest IH]; intros c f w; simpl.
  { intros [= <- <- <-]. rewrite len_nil. split; [lia|lia]. }
  rewrite len_cons. destruct (is_terminal (fr_state f)) eqn:Ht.
  { intros [= <- <- <-]. split; [lia|congruence]. }
  destruct (push_turn [b] b f w) as [[k|e] [f1 w1]]; [|done]. intros Hr.
  apply IH in Hr as [? Hr]. split; [lia|]. intros. rewrite Hr by done. lia.
Qed.

Lemma run_bytes_inv rest c f w r f' w' :
  state_inv f → run_bytes rest c f w = (r, (f', w')) →
  state_inv f' ∧ fr_max_header_bytes f' = fr_max_header_bytes f
  ∧ fr_max_line_bytes f' = fr_max_line_bytes f ∧ (is_ok r = false → fr_state f' = SFailed).
Proof using Type.
  revert c f w. induction rest as [|b rest IH]; intros c f w Hinv; simpl.
  { by intros [= <- <- <-]. }
  destruct (is_terminal (fr_state f)); [by intros [= <- <- <-]|].
  destruct (push_turn [b] b f w) as [[k|e] [f1 w1]] eqn:Ht;
    apply push_turn_inv in Ht as (? & Hh & Hl & _ & ?); try done.
  - intros Hr. apply IH in Hr; [|done]. simpl in Hr. rewrite Hh, Hl in Hr. done.
  - intros [= <- <- <-]. auto.
Qed.

Lemma framing_push_run input f w :
  state_inv f → is_terminal (fr_state f) = false →
  framing_push input f w
  = match run_bytes input 0 f w with
    | (Ok c, (f', w')) => (Ok (framing_progress f' c (len input)), (f', w'))
    | (Err e, s) => (Err e, s)
    end.
Proof using Type.
  intros Hinv Ht. unfold framing_push. rewrite Ht, push_loop_run by done.
  by destruct (run_bytes input 0 f w) as [[c|e] [f' w']].
Qed.

(** C10: reading a response does not depend on how it is cut into reads.  If the first part is
    refused, so are both parts together, with the same error; if it completes the response,
    both parts together complete it at the same byte; otherwise all of the first part is
    consumed and the second part continues exactly where both parts together would be.  Bulk
    consumption of bodies is equivalent to the byte-at-a-time machine, and no more bytes are
    reported consumed than were given. *)
Theorem framing_push_segmentation x y f w :
  state_inv f → is_terminal (fr_state f) = false →
  let '(r, (f', w')) := framing_push x f w in
  state_inv f' ∧
  match r with
  | Err e => framing_push (x ++ y) f w = (Err e, (f', w')) ∧ fr_state f' = SFailed
  | Ok p =>
      progress_consumed p ≤ len x ∧
      if is_terminal (fr_state f')
      then framing_push (x ++ y) f w
           = (Ok (framing_progress f' (progress_consumed p) (len (x ++ y))), (f', w'))
      else progress_consumed p = len x
           ∧ framing_push (x ++ y) f w
             = match framing_push y f' w' with
               | (Ok q, (f'', w'')) =>
                   (Ok (framing_progress f'' (len x + progress_consumed q) (len (x ++ y))),
                    (f'', w''))
               | (Err e, s) => (Err e, s)
               end
  end.
Proof using Type.
  intros Hinv Ht. rewrite !(framing_push_run _ f) by done. rewrite run_bytes_app.
  destruct (run_bytes x 0 f w) as [[c|e] [f' w']] eqn:Hx;
    pose proof (run_bytes_inv _ _ _ _ _ _ _ Hinv Hx) as (Hinv' & _ & _ & Hfail).
  - pose proof (run_bytes_end _ _ _ _ _ _ _ Hx) as [Hc Hend]. split; [done|].
    simpl. split; [lia|]. destruct (is_terminal (fr_state f')) eqn:Ht'.
    + by rewrite run_bytes_terminal.
    + specialize (Hend eq_refl). simpl in Hend. subst c. split; [done|].
      rewrite framing_push_run by done. rewrite <-(N.add_0_l (len x)), run_bytes_shift.
      destruct (run_bytes y 0 f' w') as [[c'|e'] [f'' w'']]; [|done]. simpl.
      by rewrite (N.add_comm c').
  - split; [done|]. split; [done|]. by apply Hfail.
Qed.
End cursor.

Lemma framing_push_segmentation_witness :
  let H := ample_memory in
  let x := lit "HTTP/1.1 200 OK" ++ CRLF ++ lit "Content-Length: 5" ++ CRLFCRLF ++ lit "he" in
  let y := lit "lloGET" in
  let f := framing_new 1024 64 in
  let '(r, (f', w')) := framing_push x f () in
  fr_state f' = SContentLength 3
  ∧ framing_push (x ++ y) f ()
    = match framing_push y f' w' with
      | (Ok q, (f'', w'')) =>
          (Ok (framing_progress f'' (len x + progress_consumed q) (len (x ++ y))), (f'', w''))
      | (Err e, s) => (Err e, s)
      end.
Proof.
  intros H x y f. pose proof (framing_push_segmentation x y f () ltac:(vm_compute; done)
    ltac:(reflexivity)) as Hs.
  destruct (framing_push x f ()) as [r [f' w']] eqn:E.
  assert (Hf : fr_state f' = SContentLength 3).
  { vm_compute in E. injection E as _ <- _. reflexivity. }
  split; [exact Hf|]. destruct Hs as [_ Hs]. destruct r as [p|e].
  - rewrite Hf in Hs. exact (proj2 (proj2 Hs)).
  - rewrite Hf in Hs. destruct Hs as [_ Hs]. discriminate Hs.
Defined.

(** ** Where a response ends *)
Section exact.
Context `{Allocator W}.
Context (ample : ∀ l w, (reserve_one l w).1 = true).

Lemma try_push_ample l b mx w :
  len l < mx → ∃ w', try_push_bounded l b mx w = (Ok (l ++ [b]), w').
Proof using ample.
  intros Hl. unfold try_push_bounded. rewrite (proj2 (N.leb_gt _ _)) by lia.
  pose proof (ample l w) as Ha. destruct (reserve_one l w) as [room w']. simpl in Ha. subst.
  eauto.
Qed.

(** Collecting bytes up to a terminator. *)
Lemma run_bytes_collect (C : list byte → ResponseFramingState) (lim : HttpResponseFraming → N)
    (term : list byte) :
  (∀ s f, lim (set_state s f) = lim f) →
  (∀ buf b f w, fr_state f = C buf → is_terminal (C buf) = false
     ∧ (len buf < lim f → ends_with term (buf ++ [b]) = false →
        ∃ w', push_turn [b] b f w = (Ok 1, (set_state (C (buf ++ [b])) f, w')))) →
  ∀ s buf c f w, fr_state f = C buf → len (buf ++ s) ≤ lim f →
  (∀ p q, s = p ++ q → p ≠ [] → ends_with term (buf ++ p) = false) →
  ∃ w', run_bytes s c f w = (Ok (c + len s), (set_state (C (buf ++ s)) f, w')).
Proof using Type.
  intros Hlim Hturn. induction s as [|b s IH]; intros buf c f w Hs Hl Hno; simpl.
  { exists w. by rewrite app_nil_r, len_nil, N.add_0_r, <-Hs, set_state_id. }
  destruct (Hturn buf b f w Hs) as [Hterm Ht]. rewrite Hs, Hterm.
  destruct Ht as [w1 ->]; [len_lia|by apply (Hno [b] s)|]. cbn [fst snd].
  destruct (IH (buf ++ [b]) (c + 1) (set_state (C (buf ++ [b])) f) w1) as [w2 Hw2]; [done|..].
  - by rewrite <-app_assoc, Hlim.
  - intros p q -> Hp. rewrite <-app_assoc. by apply (Hno (b :: p) q).
  - exists w2. rewrite Hw2, <-app_assoc, len_cons, set_state_twice. by rewrite N.add_assoc.
Qed.

Lemma collect_headers : ∀ buf b f w, fr_state f = SHeaders buf → is_terminal (SHeaders buf) = false
  ∧ (len buf < fr_max_header_bytes f → ends_with CRLFCRLF (buf ++ [b]) = false →
     ∃ w', push_turn [b] b f w = (Ok 1, (set_state (SHeaders (buf ++ [b])) f, w'))).
Proof using ample.
  intros buf b f w Hs. split; [done|]. intros Hl He. unfold push_turn. rewrite Hs.
  destruct (try_push_ample buf b (fr_max_header_bytes f) w Hl) as [w' ->]. rewrite He. eauto.
Qed.

Lemma collect_chunk_size : ∀ buf b f w, fr_state f = SChunkSize buf →
  is_terminal (SChunkSize buf) = false
  ∧ (len buf < fr_max_line_bytes f → ends_with CRLF (buf ++ [b]) = false →
     ∃ w', push_turn [b] b f w = (Ok 1, (set_state (SChunkSize (buf ++ [b])) f, w'))).
Proof using ample.
  intros buf b f w Hs. split; [done|]. intros Hl He. unfold push_turn. rewrite Hs.
  destruct (try_push_ample buf b (fr_max_line_bytes f) w Hl) as [w' ->]. rewrite He. eauto.
Qed.

Lemma collect_trailers : ∀ buf b f w, fr_state f = STrailers buf →
  is_terminal (STrailers buf) = false
  ∧ (len buf < fr_max_line_bytes f → ends_with CRLF (buf ++ [b]) = false →
     ∃ w', push_turn [b] b f w = (Ok 1, (set_state (STrailers (buf ++ [b])) f, w'))).
Proof using ample.
  intros buf b f w Hs. split; [done|]. intros Hl He. unfold push_turn. rewrite Hs.
  destruct (try_push_ample buf b (fr_max_line_bytes f) w Hl) as [w' ->]. rewrite He. eauto.
Qed.

(** The text up to the terminator [t ++ [b]] leaves all but its last byte in the buffer. *)
Lemma collect_until C lim term t b :
  term = t ++ [b] →
  (∀ s f, lim (set_state s f) = lim f) →
  (∀ buf b f w, fr_state f = C buf → is_terminal (C buf) = false
     ∧ (len buf < lim f → ends_with term (buf ++ [b]) = false →
        ∃ w', push_turn [b] b f w = (Ok 1, (set_state (C (buf ++ [b])) f, w')))) →
  ∀ h c f w, fr_state f = C [] → find_seq term (h ++ term) = Some (length h) →
  len (h ++ term) ≤ lim f →
  ∃ w', run_bytes (h ++ term) c f w
    = run_bytes [b] (c + len (h ++ t)) (set_state (C (h ++ t)) f) w'
    ∧ ends_with term (h ++ term) = true ∧ len (h ++ t) < lim f.
Proof using ample.
  intros Hterm Hlim Hturn h c f w Hs Hf Hl.
  destruct (run_bytes_collect C lim term Hlim Hturn (h ++ t) [] c f w Hs) as [w' Hw].
  - simpl. rewrite Hterm in Hl. len_lia.
  - intros p q Hpq Hp. simpl. apply (first_at_end term h p (q ++ [b])); [done| |by destruct q].
    rewrite Hterm, app_assoc, Hpq. by rewrite <-app_assoc.
  - exists w'. split_and!; [|apply ends_with_spec; eauto|rewrite Hterm in Hl; len_lia].
    assert (h ++ term = (h ++ t) ++ [b]) as -> by by rewrite Hterm, app_assoc.
    by rewrite run_bytes_app, Hw.
Qed.

(** A header block that ends at its first blank line. *)
Lemma run_bytes_headers h c f w :
  fr_state f = SHeaders [] → find_seq CRLFCRLF (h ++ CRLFCRLF) = Some (length h) →
  len h + 4 ≤ fr_max_header_bytes f →
  ∃ w', run_bytes (h ++ CRLFCRLF) c f w
    = (let (r, f') := accept_headers (h ++ CRLFCRLF) f in
       (let? _ := r in Ok (c + len h + 4), (f', w'))).
Proof using ample.
  intros Hs Hf Hl.
  destruct (collect_until SHeaders fr_max_header_bytes CRLFCRLF [x0d; x0a; x0d] x0a eq_refl)
    with (h := h) (c := c) (f := f) (w := w) as (w1 & -> & He & Hlt);
    [done|exact collect_headers|done|done|rewrite len_app; change (len CRLFCRLF) with 4; lia|].
  cbn [run_bytes]. unfold push_turn. cbn [fr_state set_state is_terminal fr_max_header_bytes].
  destruct (try_push_ample (h ++ [x0d; x0a; x0d]) x0a (fr_max_header_bytes f) w1 Hlt) as [w2 ->].
  rewrite <-app_assoc. change ([x0d; x0a; x0d] ++ [x0a]) with CRLFCRLF. rewrite He.
  exists w2. unfold accept_headers. cbn [fr_body_expectation set_state].
  destruct (parse_response_framing_headers _ _) as [[[code bf] cl]|]; [|done].
  cbn [fst snd]. do 2 f_equal. len_lia.
Qed.

(** A complete line of the chunked coding. *)
Definition line_ends (l : list byte) : Prop := find_seq CRLF (l ++ CRLF) = Some (length l).

Lemma run_bytes_size_line l c f w :
  fr_state f = SChunkSize [] → line_ends l → len l + 2 ≤ fr_max_line_bytes f →
  ∃ w', run_bytes (l ++ CRLF) c f w
    = match parse_chunk_size l with
      | Ok size => (Ok (c + len l + 2),
                    (set_state (if size =? 0 then STrailers [] else SChunkData size) f, w'))
      | Err e => (Err e, (set_state SFailed f, w'))
      end.
Proof using ample.
  intros Hs Hf Hl.
  destruct (collect_until SChunkSize fr_max_line_bytes CRLF [x0d] x0a eq_refl)
    with (h := l) (c := c) (f := f) (w := w) as (w1 & -> & He & Hlt);
    [done|exact collect_chunk_size|done|done|rewrite len_app; change (len CRLF) with 2; lia|].
  cbn [run_bytes]. unfold push_turn. cbn [fr_state set_state is_terminal fr_max_line_bytes].
  destruct (try_push_ample (l ++ [x0d]) x0a (fr_max_line_bytes f) w1 Hlt) as [w2 ->].
  rewrite <-app_assoc. change ([x0d] ++ [x0a]) with CRLF. rewrite He. exists w2.
  assert (take (length (l ++ CRLF) - 2) (l ++ CRLF) = l) as ->.
  { rewrite length_app. change (length CRLF) with 2%nat. rewrite Nat.add_sub.
    apply take_app_length. }
  destruct (parse_chunk_size l); [|done]. cbn [fst snd]. do 2 f_equal. len_lia.
Qed.

Lemma run_bytes_trailer_line l c f w :
  fr_state f = STrailers [] → line_ends l → len l + 2 ≤ fr_max_line_bytes f →
  l ≠ [] → validate_trailer_line l = Ok () →
  ∃ w', run_bytes (l ++ CRLF) c f w = (Ok (c + len l + 2), (f, w')).
Proof using ample.
  intros Hs Hf Hl Hne Hv.
  destruct (collect_until STrailers fr_max_line_bytes CRLF [x0d] x0a eq_refl)
    with (h := l) (c := c) (f := f) (w := w) as (w1 & -> & He & Hlt);
    [done|exact collect_trailers|done|done|rewrite len_app; change (len CRLF) with 2; lia|].
  cbn [run_bytes]. unfold push_turn. cbn [fr_state set_state is_terminal fr_max_line_bytes].
  destruct (try_push_ample (l ++ [x0d]) x0a (fr_max_line_bytes f) w1 Hlt) as [w2 ->].
  rewrite <-app_assoc. change ([x0d] ++ [x0a]) with CRLF. rewrite He. exists w2.
  rewrite (proj2 (N.eqb_neq _ 2)).
  2:{ rewrite len_app. change (len CRLF) with 2. destruct l; [done|]. len_lia. }
  assert (take (length (l ++ CRLF) - 2) (l ++ CRLF) = l) as ->.
  { rewrite length_app. change (length CRLF) with 2%nat. rewrite Nat.add_sub.
    apply take_app_length. }
  rewrite Hv. cbn [is_ok negb fst snd]. rewrite set_state_twice, <-Hs, set_state_id.
  do 2 f_equal. len_lia.
Qed.

Lemma run_bytes_last_line c f w :
  fr_state f = STrailers [] → 2 ≤ fr_max_line_bytes f →
  ∃ w', run_bytes CRLF c f w = (Ok (c + 2), (set_state SComplete f, w')).
Proof using ample.
  intros Hs Hl. change CRLF with ([] ++ CRLF) at 1.
  destruct (collect_until STrailers fr_max_line_bytes CRLF [x0d] x0a eq_refl)
    with (h := @nil byte) (c := c) (f := f) (w := w) as (w1 & -> & He & Hlt);
    [done|exact collect_trailers|done|done|change (len ([] ++ CRLF)) with 2; lia|].
  cbn [run_bytes]. unfold push_turn. cbn [fr_state set_state is_terminal fr_max_line_bytes].
  destruct (try_push_ample ([] ++ [x0d]) x0a (fr_max_line_bytes f) w1 Hlt) as [w2 ->].
  exists w2. change (ends_with CRLF (([] ++ [x0d]) ++ [x0a])) with true. cbn.
  rewrite set_state_twice. do 2 f_equal. change (len [x0d]) with 1. lia.
Qed.

(** A chunk: its size line (extensions included) and its data. *)
Record chunk := { chunk_line : list byte; chunk_data : list byte }.

Definition chunk_wire (k : chunk) : list byte := chunk_line k ++ CRLF ++ chunk_data k ++ CRLF.

Definition line_fits (mx : N) (l : list byte) : Prop := line_ends l ∧ len l + 2 ≤ mx.

Definition chunk_ok (mx : N) (k : chunk) : Prop :=
  line_fits mx (chunk_line k) ∧ chunk_data k ≠ []
  ∧ parse_chunk_size (chunk_line k) = Ok (len (chunk_data k)).

Definition trailer_ok (mx : N) (l : list byte) : Prop :=
  line_fits mx l ∧ l ≠ [] ∧ validate_trailer_line l = Ok ().

(** The chunked coding of a body: chunks, the last chunk's line, trailers, blank line. *)
Definition chunked_wire (chunks : list chunk) (last_line : list byte)
    (trailers : list (list byte)) : list byte :=
  concat (chunk_wire <$> chunks) ++ (last_line ++ CRLF)
  ++ concat ((λ l, l ++ CRLF) <$> trailers) ++ CRLF.

Lemma run_bytes_data_crlf c f w :
  fr_state f = SChunkDataCrlf 0 →
  run_bytes CRLF c f w = (Ok (c + 2), (set_state (SChunkSize []) f, w)).
Proof using Type.
  intros Hs. unfold CRLF. cbn [run_bytes]. unfold push_turn at 1. rewrite Hs.
  rewrite bool_decide_true by done. cbn [negb is_terminal Nat.eqb Nat.add fst snd].
  unfold push_turn. cbn [fr_state set_state is_terminal].
  rewrite bool_decide_true by done. cbn [negb Nat.eqb Nat.add fst snd].
  do 2 f_equal. lia.
Qed.

Lemma run_bytes_chunk k c f w :
  fr_state f = SChunkSize [] → chunk_ok (fr_max_line_bytes f) k →
  ∃ w', run_bytes (chunk_wire k) c f w = (Ok (c + len (chunk_wire k)), (f, w')).
Proof using ample.
  intros Hs [[Hends Hfit] [Hne Hsize]]. unfold chunk_wire.
  destruct (run_bytes_size_line (chunk_line k) c f w Hs Hends Hfit) as [w1 Hw1].
  rewrite app_assoc, run_bytes_app, Hw1, Hsize. clear Hw1.
  assert (0 < len (chunk_data k)) by (destruct (chunk_data k); [done|len_lia]).
  rewrite (proj2 (N.eqb_neq _ 0)) by lia.
  rewrite (run_bytes_chunk_data _ (len (chunk_data k))) by done. rewrite set_state_twice.
  rewrite len_app. replace (N.min _ _) with (len (chunk_data k)) by lia.
  rewrite N.sub_diag. cbn [N.eqb]. unfold len at 1. rewrite Nat2N.id, drop_app_length.
  rewrite run_bytes_data_crlf by done. rewrite set_state_twice, <-Hs, set_state_id.
  exists w1. do 2 f_equal. rewrite !len_app. change (len CRLF) with 2. lia.
Qed.

Lemma run_bytes_chunks chunks c f w :
  fr_state f = SChunkSize [] → Forall (chunk_ok (fr_max_line_bytes f)) chunks →
  ∃ w', run_bytes (concat (chunk_wire <$> chunks)) c f w
    = (Ok (c + len (concat (chunk_wire <$> chunks))), (f, w')).
Proof using ample.
  intros Hs Hc. revert c w. induction Hc as [|k chunks Hk Hc IH]; intros c w.
  { exists w. simpl. by rewrite len_nil, N.add_0_r. }
  rewrite fmap_cons. cbn [concat].
  destruct (run_bytes_chunk k c f w Hs Hk) as [w1 Hw1]. rewrite run_bytes_app, Hw1.
  destruct (IH (c + len (chunk_wire k)) w1) as [w2 ->]. exists w2. do 2 f_equal. len_lia.
Qed.

Lemma run_bytes_trailers trailers c f w :
  fr_state f = STrailers [] → Forall (trailer_ok (fr_max_line_bytes f)) trailers →
  ∃ w', run_bytes (concat ((λ l, l ++ CRLF) <$> trailers)) c f w
    = (Ok (c + len (concat ((λ l, l ++ CRLF) <$> trailers))), (f, w')).
Proof using ample.
  intros Hs Hc. revert c w. induction Hc as [|l trailers [[He Hf] [Hne Hv]] Hc IH]; intros c w.
  { exists w. simpl. by rewrite len_nil, N.add_0_r. }
  rewrite fmap_cons. cbn [concat]. rewrite run_bytes_app.
  destruct (run_bytes_trailer_line l c f w Hs He Hf Hne Hv) as [w1 ->].
  destruct (IH (c + len l + 2) w1) as [w2 ->]. exists w2. do 2 f_equal.
  rewrite !len_app. change (len CRLF) with 2. lia.
Qed.

Lemma run_bytes_chunked chunks last_line trailers c f w :
  fr_state f = SChunkSize [] → Forall (chunk_ok (fr_max_line_bytes f)) chunks →
  line_fits (fr_max_line_bytes f) last_line → parse_chunk_size last_line = Ok 0 →
  Forall (trailer_ok (fr_max_line_bytes f)) trailers →
  ∃ w', run_bytes (chunked_wire chunks last_line trailers) c f w
    = (Ok (c + len (chunked_wire chunks last_line trailers)), (set_state SComplete f, w')).
Proof using ample.
  intros Hs Hc [He Hf] Hz Ht. unfold chunked_wire.
  destruct (run_bytes_chunks chunks c f w Hs Hc) as [w1 Hw1]. rewrite run_bytes_app, Hw1.
  destruct (run_bytes_size_line last_line (c + len (concat (chunk_wire <$> chunks))) f w1 Hs He Hf)
    as [w2 Hw2].
  rewrite run_bytes_app, Hw2, Hz. cbn [N.eqb].
  destruct (run_bytes_trailers trailers (c + len (concat (chunk_wire <$> chunks)) + len last_line + 2)
    (set_state (STrailers []) f) w2) as [w3 Hw3]; [done|done|].
  rewrite run_bytes_app, Hw3.
  destruct (run_bytes_last_line (c + len (concat (chunk_wire <$> chunks)) + len last_line + 2
    + len (concat ((λ l, l ++ CRLF) <$> trailers))) (set_state (STrailers []) f) w3) as [w4 ->];
    [done|simpl; lia|].
  exists w4. rewrite set_state_twice. do 2 f_equal. rewrite !len_app. change (len CRLF) with 2. lia.
Qed.

(** A header block [h] (without its blank line) that the machine of [f] accepts. *)
Definition block_parses (f : HttpResponseFraming) (h : list byte) (code : N)
    (bf : ResponseBodyFraming) (close : bool) : Prop :=
  find_seq CRLFCRLF (h ++ CRLFCRLF) = Some (length h)
  ∧ len h + 4 ≤ fr_max_header_bytes f
  ∧ parse_response_framing_headers (h ++ CRLFCRLF) (fr_body_expectation f) = Ok (code, bf, close).

(** The bodies a self-delimiting framing announces. *)
Inductive body_of (mx : N) : ResponseBodyFraming → list byte → Prop :=
| body_of_none : body_of mx FramingNone []
| body_of_length body : body_of mx (FramingContentLength (len body)) body
| body_of_chunked chunks last_line trailers :
    Forall (chunk_ok mx) chunks → line_fits mx last_line → parse_chunk_size last_line = Ok 0 →
    Forall (trailer_ok mx) trailers →
    body_of mx FramingChunked (chunked_wire chunks last_line trailers).

Lemma run_bytes_interims interims c f w :
  fr_state f = SHeaders [] →
  Forall (λ i, ∃ code close, block_parses f i code FramingInterim close) interims →
  ∃ f' w', run_bytes (concat ((λ i, i ++ CRLFCRLF) <$> interims)) c f w
    = (Ok (c + len (concat ((λ i, i ++ CRLFCRLF) <$> interims))), (f', w'))
    ∧ fr_state f' = SHeaders [] ∧ fr_max_header_bytes f' = fr_max_header_bytes f
    ∧ fr_max_line_bytes f' = fr_max_line_bytes f ∧ fr_body_expectation f' = fr_body_expectation f.
Proof using ample.
  intros Hs Hi. revert c f w Hs Hi. induction interims as [|i interims IH]; intros c f w Hs Hi.
  { exists f, w. simpl. by rewrite len_nil, N.add_0_r. }
  inversion_clear Hi as [|? ? (code & close & Hf & Hl & Hp) Hi'].
  rewrite fmap_cons. cbn [concat]. rewrite run_bytes_app.
  destruct (run_bytes_headers i c f w Hs Hf Hl) as [w1 ->].
  unfold accept_headers. cbn [fr_body_expectation set_state]. rewrite Hp.
  rewrite bool_decide_true by done. cbv beta iota zeta.
  match goal with |- context [run_bytes _ _ ?g w1] => set (f1 := g) end.
  destruct (IH (c + len i + 4) f1 w1 eq_refl Hi') as (f2 & w2 & Hr & H1 & H2 & H3 & H4).
  exists f2, w2. rewrite Hr. split_and!; [|done..]. do 2 f_equal.
  rewrite !len_app. change (len CRLFCRLF) with 4. lia.
Qed.

Lemma run_bytes_response h code bf close body c f w :
  fr_state f = SHeaders [] → block_parses f h code bf close →
  body_of (fr_max_line_bytes f) bf body →
  ∃ f' w', run_bytes (h ++ CRLFCRLF ++ body) c f w = (Ok (c + len (h ++ CRLFCRLF ++ body)), (f', w'))
    ∧ fr_state f' = SComplete ∧ fr_status_code f' = Some code
    ∧ fr_connection_close f' = close ∧ fr_close_delimited f' = false.
Proof using ample.
  intros Hs (Hf & Hl & Hp) Hbody. rewrite app_assoc, run_bytes_app.
  destruct (run_bytes_headers h c f w Hs Hf Hl) as [w1 ->].
  unfold accept_headers. cbn [fr_body_expectation set_state]. rewrite Hp.
  destruct Hbody as [|body|chunks last_line trailers Hc Hll Hz Ht];
    rewrite !bool_decide_false by done; cbv beta iota zeta; rewrite !len_app;
    change (len CRLFCRLF) with 4.
  - rewrite len_nil, N.add_0_r, N.add_assoc. by eexists _, w1.
  - destruct (N.eq_dec (len body) 0) as [Hz|Hz].
    + apply len_zero in Hz as ->. rewrite len_nil, N.add_0_r, N.add_assoc. by eexists _, w1.
    + match goal with |- context [run_bytes _ _ ?g w1] => set (f1 := g) end.
      assert (Hf1 : fr_state f1 = SContentLength (len body)) by (unfold f1; simpl; by destruct (len body)).
      rewrite (run_bytes_content_length body (len body)) by (done || lia).
      rewrite N.min_id, N.sub_diag. cbn [N.eqb]. unfold len at 1. rewrite Nat2N.id, drop_all.
      cbn [run_bytes]. rewrite !N.add_assoc. by eexists _, w1.
  - match goal with |- context [run_bytes _ _ ?g w1] => set (f1 := g) end.
    destruct (run_bytes_chunked chunks last_line trailers (c + len h + 4) f1 w1) as [w2 ->];
      try done. rewrite !N.add_assoc. by eexists _, w2.
Qed.

(** C2: the machine finds exactly the end of a response that is within its limits.  Assume that
    memory does not run out, that every header block parses and fits with its blank line into
    the header limit, and that every chunk size line and trailer line is well formed and fits
    with its line end into the line limit.  Given interim (1xx) header blocks, a final header
    block and the body its framing announces (none, Content-Length bytes, or a chunked body with
    extensions and trailers), followed by any other bytes, one push consumes the response and
    not one byte of what follows, reports completion and the final status code, and the
    connection counts as reusable exactly if the final response did not ask for it to be
    closed.  (A response delimited by the end of the connection is not among these: it has no
    end of its own.) *)
Theorem response_end_exact f w interims h code bf close body extra :
  fr_state f = SHeaders [] →
  Forall (λ i, ∃ code close, block_parses f i code FramingInterim close) interims →
  block_parses f h code bf close → body_of (fr_max_line_bytes f) bf body →
  let response := concat ((λ i, i ++ CRLFCRLF) <$> interims) ++ h ++ CRLFCRLF ++ body in
  ∃ f' w', framing_push (response ++ extra) f w
    = (Ok {| progress_consumed := len response; progress_input_len := len (response ++ extra);
             progress_phase := PhaseComplete; progress_status_code := Some code |}, (f', w'))
    ∧ is_keep_alive_reusable f' = negb close.
Proof using ample.
  intros Hs Hi Hh Hb response. rewrite framing_push_run.
  2:{ unfold state_inv. rewrite Hs. split; [len_lia|done]. }
  2:{ by rewrite Hs. }
  unfold response at 1. rewrite (run_bytes_app _ extra), (run_bytes_app (concat _)).
  destruct (run_bytes_interims interims 0 f w Hs Hi) as (f1 & w1 & -> & Hs1 & Hmh & Hml & Hbe).
  unfold block_parses in Hh. rewrite <-Hmh, <-Hbe in Hh. rewrite <-Hml in Hb.
  destruct (run_bytes_response h code bf close body
    (0 + len (concat ((λ i, i ++ CRLFCRLF) <$> interims))) f1 w1 Hs1 Hh Hb)
    as (f2 & w2 & Hr & Hs2 & Hcode & Hclose & Hdel).
  rewrite Hr. rewrite run_bytes_terminal by by rewrite Hs2.
  exists f2, w2. split.
  - unfold framing_progress. rewrite Hs2, Hcode. cbn [phase_of]. do 3 f_equal.
    unfold response. by rewrite (len_app (concat _)).
  - unfold is_keep_alive_reusable. rewrite Hs2, Hclose, Hdel. cbn. by rewrite andb_true_r.
Qed.
End exact.

Lemma response_end_exact_witness :
  let H := ample_memory in
  let f := framing_new 1024 64 in
  let interim := lit "HTTP/1.1 100 Continue" in
  let h := lit "HTTP/1.1 200 OK" ++ CRLF ++ lit "Transfer-Encoding: gzip, chunked" in
  let body := chunked_wire [{| chunk_line := lit "4;x=y"; chunk_data := lit "wiki" |}]
                (lit "0") [lit "Expires: now"] in
  let response := (interim ++ CRLFCRLF) ++ h ++ CRLFCRLF ++ body in
  ∃ f' w', framing_push (response ++ lit "GET") f ()
    = (Ok {| progress_consumed := len response; progress_input_len := len response + 3;
             progress_phase := PhaseComplete; progress_status_code := Some 200 |}, (f', w'))
    ∧ is_keep_alive_reusable f' = true.
Proof.
  intros H f interim h body response.
  destruct (@response_end_exact unit H (λ _ _, eq_refl) f () [interim] h 200 FramingChunked false body
    (lit "GET")) as (f' & w' & Hp & Hk).
  - reflexivity.
  - apply Forall_singleton. exists 100, false. split_and!; vm_compute; try reflexivity; discriminate.
  - split_and!; vm_compute; try reflexivity; discriminate.
  - apply body_of_chunked.
    + apply Forall_singleton. split_and!; [split|..]; vm_compute; try reflexivity; discriminate.
    + split; vm_compute; try reflexivity; discriminate.
    + vm_compute. reflexivity.
    + apply Forall_singleton. split_and!; [split|..]; vm_compute; try reflexivity; discriminate.
  - exists f', w'. split; [exact Hp|exact Hk].
Defined.

(** ** Safety over a whole exchange *)
Section safety.
Context `{Allocator W}.

(** The bytes the machine holds, and the limit that applies to them. *)
Definition buffered (f : HttpResponseFraming) : list byte :=
  match fr_state f with SHeaders l | SChunkSize l | STrailers l => l | _ => [] end.

Definition delimited_inv (f : HttpResponseFraming) : Prop :=
  fr_state f = SCloseDelimited → fr_close_delimited f = true.

Lemma accept_headers_delimited headers f r f' :
  accept_headers headers f = (r, f') → delimited_inv f'.
Proof.
  unfold accept_headers, delimited_inv.
  destruct (parse_response_framing_headers _ _) as [[[code bf] cl]|]; intros [= <- <-]; [|done].
  destruct bf as [| |[|n]| |]; simpl; try done.
Qed.

Lemma push_turn_delimited rest b f w r f' w' :
  delimited_inv f → push_turn rest b f w = (r, (f', w')) → delimited_inv f'.
Proof using Type.
  intros Hd. unfold push_turn, framing_fail. destruct (fr_state f) eqn:Hs; intros Ht;
    repeat (case_match; simplify_eq/=; try done); try (by eapply accept_headers_delimited);
    by simplify_eq.
Qed.

Lemma run_bytes_delimited rest c f w r f' w' :
  delimited_inv f → run_bytes rest c f w = (r, (f', w')) → delimited_inv f'.
Proof using Type.
  revert c f w. induction rest as [|b rest IH]; intros c f w Hd; simpl.
  { by intros [= <- <- <-]. }
  destruct (is_terminal (fr_state f)); [by intros [= <- <- <-]|].
  destruct (push_turn [b] b f w) as [[k|e] [f1 w1]] eqn:Ht;
    apply push_turn_delimited in Ht; try done.
  - by apply IH.
  - by intros [= <- <- <-].
Qed.

(** Pushing a sequence of inputs, whatever the answers. *)
Definition framing_run (inputs : list (list byte)) (f : HttpResponseFraming) (w : W)
  : HttpResponseFraming * W :=
  foldl (λ s input, (framing_push input s.1 s.2).2) (f, w) inputs.

Lemma framing_push_inv input f w r f' w' :
  state_inv f → delimited_inv f → framing_push input f w = (r, (f', w')) →
  state_inv f' ∧ delimited_inv f' ∧ fr_max_header_bytes f' = fr_max_header_bytes f
  ∧ fr_max_line_bytes f' = fr_max_line_bytes f.
Proof using Type.
  intros Hinv Hd. destruct (is_terminal (fr_state f)) eqn:Ht.
  { unfold framing_push. rewrite Ht. by intros [= <- <- <-]. }
  rewrite framing_push_run by done.
  destruct (run_bytes input 0 f w) as [[c|e] [f1 w1]] eqn:Hr; intros [= <- <- <-];
    pose proof (run_bytes_delimited _ _ _ _ _ _ _ Hd Hr);
    apply run_bytes_inv in Hr as (? & ? & ? & _); done.
Qed.

Lemma framing_run_inv inputs f w :
  state_inv f → delimited_inv f →
  let f' := (framing_run inputs f w).1 in
  state_inv f' ∧ delimited_inv f' ∧ fr_max_header_bytes f' = fr_max_header_bytes f
  ∧ fr_max_line_bytes f' = fr_max_line_bytes f.
Proof using Type.
  unfold framing_run. revert f w. induction inputs as [|input inputs IH]; intros f w Hi Hd; simpl.
  { done. }
  destruct (framing_push input f w) as [r [f1 w1]] eqn:Hp.
  apply framing_push_inv in Hp as (Hi1 & Hd1 & Hh & Hl); [|done..].
  rewrite <-Hh, <-Hl. by apply IH.
Qed.

(** C36: whatever an upstream sends, in whatever pieces, and whenever memory runs out: the
    machine never buffers more of a header block than the header limit and never more of a
    chunk size line or a trailer line than the line limit, and of a body nothing; a failed or completed exchange
    accepts no more bytes and stays failed; the end of the connection completes only a
    close-delimited (or already complete) response, so a truncated one is reported as an
    error; and a response delimited by the end of the connection never leaves a reusable
    connection. *)
Theorem framing_safety inputs (mh ml : N) (expectation : ResponseBodyExpectation) (w : W) :
  let '(f, w') := framing_run inputs (framing_with_body_expectation mh ml expectation) w in
  match fr_state f with
  | SHeaders l => len l ≤ mh
  | SChunkSize l | STrailers l => len l ≤ ml
  | _ => buffered f = []
  end
  ∧ (is_terminal (fr_state f) = true →
     ∀ input, is_ok (framing_push input f w').1 = false
              ∧ fr_state (framing_push input f w').2.1 = SFailed)
  ∧ (is_ok (finish_on_eof f).1 = true ↔ fr_state f = SCloseDelimited ∨ fr_state f = SComplete)
  ∧ (is_keep_alive_reusable (finish_on_eof f).2 = true → fr_state f = SComplete).
Proof using Type.
  set (f0 := framing_with_body_expectation mh ml expectation).
  pose proof (framing_run_inv inputs f0 w) as Hinv.
  destruct (framing_run inputs f0 w) as [f w'] eqn:Hrun. simpl in Hinv.
  destruct Hinv as (Hi & Hd & Hh & Hl); [split; [len_lia|done]|done|]. split_and!.
  - unfold buffered, state_inv in *. destruct (fr_state f); simpl in *; try done; len_lia.
  - intros Ht input. unfold framing_push. by rewrite Ht.
  - unfold finish_on_eof. destruct (fr_state f); simpl; split; auto; try done;
      intros [|]; done.
  - unfold finish_on_eof, is_keep_alive_reusable. specialize (Hd).
    destruct (fr_state f) eqn:Hs; simpl; try done. unfold delimited_inv in Hd.
    rewrite (Hd Hs). by rewrite andb_false_r.
Qed.
End safety.
