(* ===== verification/Endpoint.v ===== *)
(** * Upstream endpoints and TLS names

    crates/edge-domain/src/lib.rs: [UpstreamEndpoint] and the older
    [HttpUpstreamEndpoint] (a URL with a literal IP address), the checked names
    [TrustBundleRef], [TlsServerName], [UpstreamHttpHost], and the policies that
    combine them. *)

From stdpp Require Import base gmap strings list numbers.
From Stdlib Require Import Strings.Byte NArith Lia.
From S2P Require Import Prelude Errors RustStr.
Local Open Scope N_scope.

(** ** Literals *)
Definition DOT : byte := x2e.
Definition SLASH : byte := x2f.
Definition COLON_BYTE : byte := x3a.
Definition HYPHEN : byte := x2d.
Definition LBRACKET : byte := x5b.
Definition RBRACKET : byte := x5d.

Definition is_ipv4_literal (value : list byte) : bool :=
  let octets := split_byte DOT value in
  (len octets =? 4)
  && forallb (λ octet, negb (bool_decide (octet = []))
                       && bool_decide (is_Some (parse_uint U8_MAX octet))) octets.

Definition valid_groups (part : list byte) : option N :=
  if bool_decide (part = []) then Some 0
  else
    let groups := split_byte COLON_BYTE part in
    if forallb (λ group, negb (bool_decide (group = [])) && (len group <=? 4)
                         && forallb is_ascii_hexdigit group) groups
    then Some (len groups) else None.

Definition is_ipv6_literal (value : list byte) : bool :=
  if bool_decide (value = []) || contains_byte DOT value then false
  else match split_str [COLON_BYTE; COLON_BYTE] value with
  | [part] => match valid_groups part with Some lc => lc =? 8 | None => false end
  | [l; r] =>
      match valid_groups l with
      | None => false
      | Some lc => match valid_groups r with
                   | None => false
                   | Some rc => lc + rc <? 8
                   end
      end
  | _ => false
  end.

Definition valid_dns_label (label : list byte) : bool :=
  negb (bool_decide (label = [])) && (len label <=? 63)
  && negb (starts_with [HYPHEN] label) && negb (ends_with [HYPHEN] label)
  && forallb (λ b, is_ascii_alphanumeric b || bool_decide (b = HYPHEN)) label.

Definition valid_dns_name (value : list byte) : bool :=
  negb (bool_decide (value = [])) && (len value <=? 253) && contains_byte DOT value
  && forallb valid_dns_label (split_byte DOT value).

(** ** Errors *)
Definition invalid_upstream_http_host : ValidationError :=
  ValidationError_new ConfigUpstreamHttpHostInvalid "upstream HTTP Host authority is invalid".
Definition invalid_tls_policy : ValidationError :=
  ValidationError_new ConfigTlsPolicyInvalid
    "upstream TLS policy is incomplete or contradicts its scheme".
Definition invalid_client_auth_policy : ValidationError :=
  ValidationError_new ConfigClientAuthPolicyInvalid "listener client-auth policy is invalid".
Definition invalid_upstream_url : ValidationError :=
  ValidationError_new ConfigInvalidUpstreamUrl
    "upstream URL must use HTTP with a literal IP address and valid port".

(** ** Ports *)
Definition parse_port (value : list byte) : result ValidationError N :=
  match parse_uint U16_MAX value with
  | None => Err invalid_upstream_url
  | Some port => if port =? 0 then Err invalid_upstream_url else Ok port
  end.

Definition parse_optional_port_with_default (suffix : list byte) (default_port : N)
  : result ValidationError N :=
  if bool_decide (suffix = []) then Ok default_port
  else match strip_prefix [COLON_BYTE] suffix with
       | None => Err invalid_upstream_url
       | Some port => parse_port port
       end.

Definition parse_optional_port (suffix : list byte) : result ValidationError N :=
  if bool_decide (suffix = []) then Ok 80
  else match strip_prefix [COLON_BYTE] suffix with
       | None => Err invalid_upstream_url
       | Some port => parse_port port
       end.

(** ** [UpstreamEndpoint] *)
Inductive UpstreamScheme : Set := SchemeHttp | SchemeHttps.
#[global] Instance UpstreamScheme_eq_dec : EqDecision UpstreamScheme.
Proof. solve_decision. Defined.

Definition scheme_as_str (s : UpstreamScheme) : list byte :=
  match s with SchemeHttp => lit "http" | SchemeHttps => lit "https" end.
Definition scheme_default_port (s : UpstreamScheme) : N :=
  match s with SchemeHttp => 80 | SchemeHttps => 443 end.

Record UpstreamEndpoint := {
  ep_scheme : UpstreamScheme;
  ep_host : list byte;
  ep_port : N;
  ep_base_path : list byte;
  ep_ipv6 : bool
}.
#[global] Instance UpstreamEndpoint_eq_dec : EqDecision UpstreamEndpoint.
Proof. solve_decision. Defined.

(** [value.contains(['?', '#', '@'])] *)
Definition contains_url_delimiter (value : list byte) : bool :=
  contains_byte x3f value || contains_byte x23 value || contains_byte x40 value.

Definition split_authority (remainder : list byte) : list byte * list byte :=
  match split_once SLASH remainder with
  | Some (authority, path) => (authority, SLASH :: path)
  | None => (remainder, [])
  end.

(** The host, the port and whether the host is an IPv6 address. *)
Definition parse_authority (authority : list byte) (default_port : N)
  : result ValidationError (list byte * N * bool) :=
  match strip_prefix [LBRACKET] authority with
  | Some bracketed =>
      match find_seq [RBRACKET] bracketed with
      | None => Err invalid_upstream_url
      | Some close =>
          let host := take close bracketed in
          let suffix := drop (close + 1) bracketed in
          if negb (is_ipv6_literal host) then Err invalid_upstream_url
          else
            let? port := parse_optional_port_with_default suffix default_port in
            Ok (to_ascii_lowercase host, port, true)
      end
  | None =>
      let? (host, port) :=
        match rsplit_once COLON_BYTE authority with
        | Some (host, port) =>
            if negb (contains_byte COLON_BYTE host)
            then let? port := parse_port port in Ok (host, port)
            else Err invalid_upstream_url
        | None => Ok (authority, default_port)
        end in
      if negb (is_ipv4_literal host) then Err invalid_upstream_url
      else Ok (host, port, false)
  end.

Definition endpoint_parse (value : list byte) : result ValidationError UpstreamEndpoint :=
  if has_control value || contains_url_delimiter value then Err invalid_upstream_url
  else
    let? (scheme, remainder) :=
      match strip_prefix (lit "http://") value with
      | Some value => Ok (SchemeHttp, value)
      | None => match strip_prefix (lit "https://") value with
                | Some value => Ok (SchemeHttps, value)
                | None => Err invalid_upstream_url
                end
      end in
    let '(authority, base_path) := split_authority remainder in
    if bool_decide (authority = []) then Err invalid_upstream_url
    else
      let? (host, port, ipv6) := parse_authority authority (scheme_default_port scheme) in
      Ok {| ep_scheme := scheme; ep_host := host; ep_port := port;
            ep_base_path := base_path; ep_ipv6 := ipv6 |}.

Definition endpoint_connect_address (e : UpstreamEndpoint) : list byte :=
  if ep_ipv6 e then lit "[" ++ ep_host e ++ lit "]:" ++ print_dec (ep_port e)
  else ep_host e ++ lit ":" ++ print_dec (ep_port e).

Definition endpoint_authority (e : UpstreamEndpoint) : list byte :=
  let host := if ep_ipv6 e then lit "[" ++ ep_host e ++ lit "]" else ep_host e in
  if ep_port e =? scheme_default_port (ep_scheme e) then host
  else host ++ lit ":" ++ print_dec (ep_port e).

Definition endpoint_as_url (e : UpstreamEndpoint) : list byte :=
  scheme_as_str (ep_scheme e) ++ lit "://" ++ endpoint_authority e ++ ep_base_path e.

(** Joining a base path and a request path, the same in both endpoint types. *)
Definition join_base_path (base_path request_path : list byte) : list byte :=
  if bool_decide (base_path = []) || bool_decide (base_path = [SLASH]) then request_path
  else trim_end_matches SLASH base_path
       ++ (if starts_with [SLASH] request_path then request_path else SLASH :: request_path).

Definition endpoint_join_path (e : UpstreamEndpoint) (request_path : list byte) : list byte :=
  join_base_path (ep_base_path e) request_path.

(** ** [HttpUpstreamEndpoint] *)
Record HttpUpstreamEndpoint := {
  hep_host : list byte;
  hep_port : N;
  hep_base_path : list byte;
  hep_ipv6 : bool
}.

Definition http_endpoint_parse (value : list byte) : result ValidationError HttpUpstreamEndpoint :=
  if has_control value || contains_url_delimiter value then Err invalid_upstream_url
  else match strip_prefix (lit "http://") value with
  | None => Err invalid_upstream_url
  | Some remainder =>
      let '(authority, base_path) := split_authority remainder in
      if bool_decide (authority = []) then Err invalid_upstream_url
      else
        match strip_prefix [LBRACKET] authority with
        | Some bracketed =>
            match find_seq [RBRACKET] bracketed with
            | None => Err invalid_upstream_url
            | Some close =>
                let host := take close bracketed in
                let suffix := drop (close + 1) bracketed in
                if negb (is_ipv6_literal host) then Err invalid_upstream_url
                else
                  let? port := parse_optional_port suffix in
                  Ok {| hep_host := to_ascii_lowercase host; hep_port := port;
                        hep_base_path := base_path; hep_ipv6 := true |}
            end
        | None =>
            let? (host, port) :=
              match rsplit_once COLON_BYTE authority with
              | Some (host, port) =>
                  if negb (contains_byte COLON_BYTE host)
                  then let? port := parse_port port in Ok (host, port)
                  else Err invalid_upstream_url
              | None => Ok (authority, 80)
              end in
            if negb (is_ipv4_literal host) then Err invalid_upstream_url
            else Ok {| hep_host := host; hep_port := port; hep_base_path := base_path;
                       hep_ipv6 := false |}
        end
  end.

Definition http_endpoint_authority (e : HttpUpstreamEndpoint) : list byte :=
  let host := if hep_ipv6 e then lit "[" ++ hep_host e ++ lit "]" else hep_host e in
  if hep_port e =? 80 then host else host ++ lit ":" ++ print_dec (hep_port e).
Definition http_endpoint_connect_address (e : HttpUpstreamEndpoint) : list byte :=
  if hep_ipv6 e then lit "[" ++ hep_host e ++ lit "]:" ++ print_dec (hep_port e)
  else hep_host e ++ lit ":" ++ print_dec (hep_port e).
Definition http_endpoint_as_url (e : HttpUpstreamEndpoint) : list byte :=
  lit "http://" ++ http_endpoint_authority e ++ hep_base_path e.
Definition http_endpoint_join_path (e : HttpUpstreamEndpoint) (request_path : list byte)
  : list byte := join_base_path (hep_base_path e) request_path.

(** ** Checked names *)
Definition TrustBundleRef_parse (value : list byte) : result ValidationError (list byte) :=
  if bool_decide (value = []) || (64 <? len value) || bool_decide (value = lit ".")
     || bool_decide (value = lit "..")
     || negb (forallb (λ b, is_ascii_alphanumeric b || bool_decide (b = HYPHEN)
                            || bool_decide (b = x5f)) value)
  then Err (ValidationError_new ConfigTrustBundleRefInvalid "trust bundle reference is invalid")
  else Ok value.

Definition TlsServerName_parse (value : list byte) : result ValidationError (list byte) :=
  let normalized := to_ascii_lowercase (trim_end_matches DOT value) in
  if is_ipv4_literal normalized || is_ipv6_literal normalized || negb (valid_dns_name normalized)
  then Err (ValidationError_new ConfigTlsServerNameInvalid
              "TLS server name must be a valid DNS name")
  else Ok normalized.

Definition UpstreamHttpHost_parse (value : list byte) : result ValidationError (list byte) :=
  if bool_decide (value = []) || (255 <? len value)
     || (has_control value || has_whitespace value)
     || (contains_byte x40 value || contains_byte SLASH value || contains_byte x3f value
         || contains_byte x23 value)
  then Err invalid_upstream_http_host
  else
    let? (host, port) :=
      match rsplit_once COLON_BYTE value with
      | Some (host, port) =>
          if negb (contains_byte COLON_BYTE host) then Ok (host, Some port)
          else Err invalid_upstream_http_host
      | None => Ok (value, None)
      end in
    if negb (valid_dns_name (to_ascii_lowercase host))
       || match port with Some port => negb (is_ok (parse_port port)) | None => false end
    then Err invalid_upstream_http_host
    else Ok (to_ascii_lowercase value).

(** ** TLS policies *)
Inductive UpstreamTlsPolicy : Set :=
| TlsDisabled
| TlsServerAuthenticated (server_name http_host trust_bundle_ref : list byte).

Record NormalizedUpstreamPolicy := {
  nup_endpoint : UpstreamEndpoint;
  nup_tls : UpstreamTlsPolicy
}.

Definition normalize_upstream_tls_policy (schema_version : N) (url : list byte)
    (tls_server_name upstream_http_host tls_trust_bundle_ref : option (list byte))
  : result ValidationError NormalizedUpstreamPolicy :=
  let? endpoint := endpoint_parse url in
  if (schema_version =? 1) && bool_decide (ep_scheme endpoint = SchemeHttps)
  then Err invalid_upstream_url
  else
    let fields_are_empty := bool_decide (tls_server_name = None)
                            && bool_decide (upstream_http_host = None)
                            && bool_decide (tls_trust_bundle_ref = None) in
    let? tls :=
      match ep_scheme endpoint, fields_are_empty with
      | SchemeHttp, true =>
          if (schema_version =? 1) || (schema_version =? 2) then Ok TlsDisabled
          else Err invalid_tls_policy
      | SchemeHttps, false =>
          if schema_version =? 2 then
            let? server_name := ok_or tls_server_name invalid_tls_policy in
            let? server_name := TlsServerName_parse server_name in
            let? http_host := ok_or upstream_http_host invalid_tls_policy in
            let? http_host := UpstreamHttpHost_parse http_host in
            let? trust := ok_or tls_trust_bundle_ref invalid_tls_policy in
            let? trust := TrustBundleRef_parse trust in
            Ok (TlsServerAuthenticated server_name http_host trust)
          else Err invalid_tls_policy
      | _, _ => Err invalid_tls_policy
      end in
    Ok {| nup_endpoint := endpoint; nup_tls := tls |}.

Inductive ListenerProtocol : Set := ProtocolHttp | ProtocolHttps.
Inductive ClientAuthPolicy : Set :=
| ClientAuthDisabled
| ClientAuthRequired (trust_bundle_ref : list byte).

Definition normalize_client_auth_policy (schema_version : N) (protocol : ListenerProtocol)
    (client_auth trust_bundle_ref : option (list byte))
  : result ValidationError ClientAuthPolicy :=
  match protocol, client_auth, trust_bundle_ref with
  | _, None, None =>
      if (schema_version =? 1) || (schema_version =? 2) then Ok ClientAuthDisabled
      else Err invalid_client_auth_policy
  | ProtocolHttps, Some mode, None =>
      if (schema_version =? 2) && bool_decide (mode = lit "disabled") then Ok ClientAuthDisabled
      else Err invalid_client_auth_policy
  | ProtocolHttps, Some mode, Some reference =>
      if (schema_version =? 2) && bool_decide (mode = lit "required")
      then let? trust := TrustBundleRef_parse reference in Ok (ClientAuthRequired trust)
      else Err invalid_client_auth_policy
  | _, _, _ => Err invalid_client_auth_policy
  end.

Definition validate_client_auth_trust (policy : ClientAuthPolicy)
    (known_trust_bundles : gset (list byte)) : result ValidationError () :=
  match policy with
  | ClientAuthRequired trust_bundle_ref =>
      if bool_decide (trust_bundle_ref ∈ known_trust_bundles) then Ok ()
      else Err (ValidationError_new ConfigTrustBundleNotFound
                  "referenced trust bundle does not exist")
  | ClientAuthDisabled => Ok ()
  end.

(** ** The bytes of a literal address *)
Definition host_byte (b : byte) : bool :=
  is_ascii_hexdigit b || bool_decide (b ∈ [x2b; DOT; COLON_BYTE]).

Definition host_bytes (l : list byte) : Prop := Forall (λ b, host_byte b = true) l.

Lemma parse_digits_bytes mx acc l n :
  parse_digits 10 mx acc l = Some n → Forall (λ b, is_ascii_digit b = true) l.
Proof.
  revert acc. induction l as [|b l IH]; intros acc; [constructor|]. simpl.
  destruct (digit_value 10 b) as [d|] eqn:Hd; [|done].
  destruct (checked_mul mx acc 10) as [m|]; [|done].
  destruct (checked_add mx m d); [|done]. intros H. constructor; [|by eapply IH].
  destruct b; vm_compute in Hd; try discriminate Hd; reflexivity.
Qed.

Lemma digits_host_bytes l : Forall (λ b, is_ascii_digit b = true) l → host_bytes l.
Proof.
  apply Forall_impl. intros b Hb. unfold host_byte, is_ascii_hexdigit. by rewrite Hb.
Qed.

Lemma parse_uint_host_bytes mx l n : parse_uint mx l = Some n → host_bytes l.
Proof.
  unfold parse_uint, from_str_radix. destruct l as [|b l]; [done|].
  destruct (N.eqb_spec (u8 b) 43) as [Hb|Hb].
  - destruct l as [|b' l]; [done|]. intros H%parse_digits_bytes. constructor.
    + by destruct b; vm_compute in Hb; try discriminate Hb.
    + by apply digits_host_bytes.
  - intros H%parse_digits_bytes. by apply digits_host_bytes.
Qed.

Lemma forallb_Forall {A} (f : A → bool) l : forallb f l = true → Forall (λ x, f x = true) l.
Proof. rewrite forallb_forall, list.Forall_forall. by setoid_rewrite list_elem_of_In. Qed.

Lemma ipv4_host_bytes l : is_ipv4_literal l = true → host_bytes l ∧ l ≠ [] ∧ COLON_BYTE ∉ l.
Proof.
  unfold is_ipv4_literal. intros [H4 H]%andb_true_iff. apply forallb_Forall in H.
  assert (Hall : Forall (λ b, host_byte b = true ∧ b ≠ COLON_BYTE) l).
  { apply (split_str_bytes _ [DOT]); [done|by repeat constructor|]. eapply Forall_impl; [|exact H].
    intros octet [_ Ho]%andb_true_iff. apply bool_decide_eq_true in Ho as [n Hn].
    pose proof (parse_uint_host_bytes _ _ _ Hn) as Hh. apply list.Forall_forall. intros b Hb.
    split; [by eapply list.Forall_forall in Hh|]. intros ->.
    unfold parse_uint, from_str_radix in Hn. destruct octet as [|c octet]; [done|].
    apply elem_of_cons in Hb. destruct (N.eqb_spec (u8 c) 43) as [Hc|Hc].
    - destruct octet as [|c' octet]; [done|]. apply parse_digits_bytes in Hn.
      destruct Hb as [<-|Hb]; [done|]. rewrite list.Forall_forall in Hn. by specialize (Hn _ Hb).
    - apply parse_digits_bytes in Hn. rewrite list.Forall_forall in Hn.
      by assert (is_ascii_digit COLON_BYTE = true) by (apply Hn; set_solver). }
  split_and!.
  - eapply Forall_impl; [|exact Hall]. by intros ? [? _].
  - intros ->. done.
  - intros Hc. rewrite list.Forall_forall in Hall. by apply Hall in Hc as [_ ?].
Qed.

Lemma valid_groups_host_bytes part n : valid_groups part = Some n → host_bytes part.
Proof.
  unfold valid_groups. case_bool_decide as Hp; [subst; constructor|].
  destruct (forallb _ _) eqn:H; [|done]. intros _. apply forallb_Forall in H.
  apply (split_str_bytes _ [COLON_BYTE]); [done|by repeat constructor|].
  eapply Forall_impl; [|exact H]. intros group [_ Hg]%andb_true_iff. apply forallb_Forall in Hg.
  eapply Forall_impl; [|exact Hg]. intros b Hb. unfold host_byte. simpl in *. by rewrite Hb.
Qed.

Lemma ipv6_host_bytes l : is_ipv6_literal l = true → host_bytes l ∧ l ≠ [].
Proof.
  unfold is_ipv6_literal. case_bool_decide as Hl; [done|]. simpl.
  destruct (contains_byte DOT l); [done|]. intros H. split; [|done].
  apply (split_str_bytes _ [COLON_BYTE; COLON_BYTE]); [done|by repeat constructor|].
  destruct (split_str [COLON_BYTE; COLON_BYTE] l) as [|p [|q [|r ps]]]; try done.
  - destruct (valid_groups p) eqn:Hp; [|done]. apply Forall_singleton. by eapply valid_groups_host_bytes.
  - destruct (valid_groups p) eqn:Hp; [|done]. destruct (valid_groups q) eqn:Hq; [|done].
    repeat apply Forall_cons; try apply Forall_nil; by eapply valid_groups_host_bytes.
Qed.

(** ** Lower case *)
Lemma lower_fixed p b : is_ascii_upper p = false → is_ascii_lower p = false →
  (lower_byte b = p ↔ b = p).
Proof.
  intros Hu Hl. unfold lower_byte. destruct (is_ascii_upper b) eqn:E; [|done].
  assert (is_ascii_lower (byte_of (u8 b + 32)) = true).
  { unfold is_ascii_lower, is_ascii_upper in *. apply in_range_spec in E. apply in_range_spec.
    rewrite byte_of_u8 by lia. lia. }
  split; congruence.
Qed.

Section lower_pattern.
Context (pat : list byte).
Context (Hpat : Forall (λ p, is_ascii_upper p = false ∧ is_ascii_lower p = false) pat).

Lemma starts_with_lower l : starts_with pat (to_ascii_lowercase l) = starts_with pat l.
Proof using Hpat.
  revert l. induction Hpat as [|p pat' [Hu Hl] Hp IH]; intros [|b l]; try done. simpl.
  rewrite <-(IH Hp l). f_equal. apply bool_decide_ext. pose proof (lower_fixed p b Hu Hl). naive_solver.
Qed.

Lemma split_go_lower skip l :
  split_go pat skip (to_ascii_lowercase l) = to_ascii_lowercase <$> split_go pat skip l.
Proof using Hpat.
  revert skip. induction l as [|b l IH]; intros skip; [done|].
  change (to_ascii_lowercase (b :: l)) with (lower_byte b :: to_ascii_lowercase l).
  cbn [split_go]. destruct skip as [|k]; [|apply IH].
  change (lower_byte b :: to_ascii_lowercase l) with (to_ascii_lowercase (b :: l)).
  rewrite starts_with_lower. destruct (starts_with pat (b :: l)).
  - rewrite IH. done.
  - rewrite IH. by destruct (split_go pat 0 l).
Qed.
End lower_pattern.

Lemma hexdigit_lower b : is_ascii_hexdigit (lower_byte b) = is_ascii_hexdigit b.
Proof. by destruct b. Qed.

Lemma forallb_fmap {A B} (f : A → B) (g : B → bool) l : forallb g (f <$> l) = forallb (g ∘ f) l.
Proof. induction l as [|x l IH]; [done|]. rewrite fmap_cons. cbn [forallb]. by rewrite IH. Qed.

Lemma forallb_ext' {A} (f g : A → bool) l : (∀ x, f x = g x) → forallb f l = forallb g l.
Proof. intros H. induction l as [|x l IH]; [done|]. simpl. by rewrite H, IH. Qed.

Lemma len_lower l : len (to_ascii_lowercase l) = len l.
Proof. unfold len, to_ascii_lowercase. by rewrite length_fmap. Qed.

Lemma lower_nil l : to_ascii_lowercase l = [] ↔ l = [].
Proof. by destruct l. Qed.

Lemma valid_groups_lower part : valid_groups (to_ascii_lowercase part) = valid_groups part.
Proof.
  unfold valid_groups. rewrite (bool_decide_ext _ _ (lower_nil part)). case_bool_decide; [done|].
  unfold split_byte, split_str. rewrite split_go_lower by by repeat constructor.
  rewrite forallb_fmap. unfold len at 2. rewrite length_fmap. fold (len (split_go [COLON_BYTE] 0 part)).
  erewrite forallb_ext'; [reflexivity|]. intros group. simpl.
  rewrite (bool_decide_ext _ _ (lower_nil group)), len_lower. f_equal.
  unfold to_ascii_lowercase. rewrite forallb_fmap. apply forallb_ext'. apply hexdigit_lower.
Qed.

Lemma ipv6_lower l : is_ipv6_literal (to_ascii_lowercase l) = is_ipv6_literal l.
Proof.
  unfold is_ipv6_literal. rewrite (bool_decide_ext _ _ (lower_nil l)).
  assert (contains_byte DOT (to_ascii_lowercase l) = contains_byte DOT l) as ->.
  { induction l as [|b l IH]; [done|]. simpl. unfold contains_byte in *. simpl. rewrite IH.
    f_equal. apply bool_decide_ext. by apply lower_fixed. }
  case_match; [done|]. unfold split_str. rewrite split_go_lower by by repeat constructor.
  destruct (split_go [COLON_BYTE; COLON_BYTE] 0 l) as [|p [|q [|r ps]]]; try done; simpl;
    by rewrite ?valid_groups_lower.
Qed.

Lemma lower_idemp l : to_ascii_lowercase (to_ascii_lowercase l) = to_ascii_lowercase l.
Proof.
  unfold to_ascii_lowercase. rewrite <-list_fmap_compose. apply list_fmap_ext.
  intros _ b _. by destruct b.
Qed.

(** ** Printing an endpoint and parsing it back *)
Definition authority_bytes (l : list byte) : Prop :=
  Forall (λ b, host_byte b = true ∨ b = LBRACKET ∨ b = RBRACKET) l.

Lemma authority_bytes_char l :
  authority_bytes l →
  Forall (λ b, printable b = true) l ∧ contains_url_delimiter l = false ∧ SLASH ∉ l.
Proof.
  unfold authority_bytes. intros H. rewrite list.Forall_forall in H. split_and!.
  - apply list.Forall_forall. intros b Hb. destruct (H b Hb) as [Hh|[->| ->]]; [|done..].
    by destruct b; vm_compute in Hh.
  - unfold contains_url_delimiter. rewrite !orb_false_iff, !contains_byte_false.
    split_and!; intros Hb; destruct (H _ Hb) as [Hh|[?|?]]; done.
  - intros Hb. destruct (H _ Hb) as [Hh|[?|?]]; done.
Qed.

Lemma host_no c l : host_bytes l → host_byte c = false → c ∉ l.
Proof. intros H Hc Hin. eapply list.Forall_forall in H; [|done]. congruence. Qed.

Lemma print_dec_no_colon n : COLON_BYTE ∉ print_dec n.
Proof.
  intros H. pose proof (print_dec_digits n) as Hd.
  rewrite list.Forall_forall in Hd. discriminate (Hd _ H).
Qed.

(** What [parse_authority] guarantees. *)
Record authority_ok (host : list byte) (port : N) (ipv6 : bool) : Prop := {
  ao_host : if ipv6 then is_ipv6_literal host = true ∧ to_ascii_lowercase host = host
            else is_ipv4_literal host = true;
  ao_port : 0 < port ≤ U16_MAX
}.

Lemma parse_port_ok l p : parse_port l = Ok p → 0 < p ≤ U16_MAX.
Proof.
  unfold parse_port. destruct (parse_uint U16_MAX l) as [n|] eqn:H; [|done].
  destruct (N.eqb_spec n 0); [done|]. intros [= <-]. split; [lia|].
  unfold parse_uint, from_str_radix in H. revert H. generalize (match l with
    | [] => [] | b :: t => if u8 b =? 43 then t else l end). intros d.
  destruct d as [|b d]; [done|]. generalize (b :: d). clear. intros d.
  assert (Hgen : ∀ acc, acc ≤ U16_MAX → parse_digits 10 U16_MAX acc d = Some n → n ≤ U16_MAX).
  { induction d as [|c d IH]; intros acc Hacc; simpl; [congruence|].
    destruct (digit_value 10 c) as [v|]; [|done].
    destruct (checked_mul U16_MAX acc 10) as [m|]; [|done].
    destruct (checked_add U16_MAX m v) as [a|] eqn:Ha; [|done].
    apply checked_add_Some in Ha as [-> ?]. by apply IH. }
  intros H. apply (Hgen 0); [|done]. vm_compute. discriminate.
Qed.

Lemma parse_optional_port_ok suffix d p :
  0 < d ≤ U16_MAX → parse_optional_port_with_default suffix d = Ok p → 0 < p ≤ U16_MAX.
Proof.
  intros Hd. unfold parse_optional_port_with_default. case_bool_decide; [by intros [= <-]|].
  destruct (strip_prefix _ _); [|done]. apply parse_port_ok.
Qed.

Lemma parse_authority_ok authority d host port ipv6 :
  0 < d ≤ U16_MAX → parse_authority authority d = Ok (host, port, ipv6) →
  authority_ok host port ipv6.
Proof.
  intros Hd. unfold parse_authority. destruct (strip_prefix [LBRACKET] authority) as [bracketed|].
  - destruct (find_seq [RBRACKET] bracketed) as [close|]; [|done].
    destruct (is_ipv6_literal (take close bracketed)) eqn:H6; [|done]. simpl.
    destruct (parse_optional_port_with_default _ d) as [p|] eqn:Hp; [|done]. intros [= <- <- <-].
    apply parse_optional_port_ok in Hp; [|done]. constructor; [|done].
    by rewrite ipv6_lower, lower_idemp.
  - destruct (rsplit_once COLON_BYTE authority) as [[h p]|].
    + destruct (contains_byte COLON_BYTE h); [done|]. simpl.
      destruct (parse_port p) as [q|] eqn:Hp; [|done]. apply parse_port_ok in Hp.
      destruct (is_ipv4_literal h) eqn:H4; [|done]. by intros [= <- <- <-].
    + destruct (is_ipv4_literal authority) eqn:H4; [|done]. by intros [= <- <- <-].
Qed.

Lemma authority_bytes_host l : host_bytes l → authority_bytes l.
Proof. apply Forall_impl. auto. Qed.

Lemma port_suffix_bytes p : authority_bytes (lit ":" ++ print_dec p).
Proof.
  apply Forall_app. split; [constructor; [by left|constructor]|].
  apply authority_bytes_host, digits_host_bytes, print_dec_digits.
Qed.

Lemma authority_ok_host host port ipv6 :
  authority_ok host port ipv6 → host_bytes host ∧ host ≠ [].
Proof.
  intros [Hh _]. destruct ipv6; [apply ipv6_host_bytes, Hh|].
  by destruct (ipv4_host_bytes host Hh) as (? & ? & _).
Qed.

Lemma parse_port_print p : 0 < p ≤ U16_MAX → parse_port (print_dec p) = Ok p.
Proof.
  intros Hp. unfold parse_port. rewrite parse_print_dec by lia.
  by rewrite (proj2 (N.eqb_neq _ _)) by lia.
Qed.

(** The authority of an endpoint, and parsing it. *)
Definition print_authority (d : N) (host : list byte) (port : N) (ipv6 : bool) : list byte :=
  let host := if ipv6 then lit "[" ++ host ++ lit "]" else host in
  if port =? d then host else host ++ lit ":" ++ print_dec port.

Lemma print_authority_bytes d host port ipv6 :
  authority_ok host port ipv6 →
  authority_bytes (print_authority d host port ipv6) ∧ print_authority d host port ipv6 ≠ [].
Proof.
  intros Hok. destruct (authority_ok_host _ _ _ Hok) as [Hh Hne]. apply authority_bytes_host in Hh.
  unfold print_authority. set (h := if ipv6 then _ else host).
  assert (Hhb : authority_bytes h ∧ h ≠ []).
  { unfold h. destruct ipv6; [|done]. split; [|done].
    repeat (apply Forall_app; split); [constructor; [auto|constructor]|done|constructor; [auto|constructor]]. }
  destruct Hhb as [Hhb Hhne]. case_match; [done|]. split.
  - apply Forall_app. split; [done|apply port_suffix_bytes].
  - by intros [? _]%app_eq_nil.
Qed.

Lemma parse_print_authority d host port ipv6 :
  authority_ok host port ipv6 →
  parse_authority (print_authority d host port ipv6) d = Ok (host, port, ipv6).
Proof.
  intros Hok. destruct (authority_ok_host _ _ _ Hok) as [Hh Hne]. destruct Hok as [Hl Hp].
  unfold print_authority, parse_authority. destruct ipv6.
  - destruct Hl as [H6 Hlow].
    assert (Hrb : RBRACKET ∉ host) by by apply host_no.
    assert (Hstrip : ∀ suffix, strip_prefix [LBRACKET] ((lit "[" ++ host ++ lit "]") ++ suffix)
      = Some (host ++ RBRACKET :: suffix)).
    { intros suffix. unfold strip_prefix. simpl. by rewrite <-app_assoc. }
    destruct (N.eqb_spec port d) as [->|Hd].
    + rewrite <-(app_nil_r (lit "[" ++ host ++ lit "]")), Hstrip, find_byte by done.
      rewrite take_app_length, H6. cbn [negb].
      rewrite drop_app_add. cbn. by rewrite Hlow.
    + rewrite Hstrip, find_byte by done. rewrite take_app_length, H6. cbn [negb].
      rewrite drop_app_add. cbn [drop]. rewrite drop_0. unfold parse_optional_port_with_default.
      rewrite bool_decide_false by done.
      assert (strip_prefix [COLON_BYTE] (lit ":" ++ print_dec port) = Some (print_dec port)) as ->
        by reflexivity.
      by rewrite parse_port_print, Hlow.
  - destruct (ipv4_host_bytes host Hl) as (_ & _ & Hc).
    assert (Hstrip : ∀ suffix, strip_prefix [LBRACKET] (host ++ suffix) = None).
    { intros suffix. unfold strip_prefix. destruct host as [|b host]; [done|]. simpl.
      inversion_clear Hh as [|? ? Hb _]. rewrite bool_decide_false; [done|]. intros <-. done. }
    destruct (N.eqb_spec port d) as [->|Hd].
    + pose proof (Hstrip []) as Hs. rewrite app_nil_r in Hs. rewrite Hs.
      rewrite (proj2 (rsplit_once_None _ _)) by done. by rewrite Hl.
    + rewrite Hstrip.
      rewrite (proj2 (rsplit_once_Some COLON_BYTE (host ++ lit ":" ++ print_dec port) host
                        (print_dec port))) by (split; [done|apply print_dec_no_colon]).
      rewrite (proj2 (contains_byte_false _ _)) by done. cbn [negb].
      by rewrite parse_port_print, Hl.
Qed.

(** What an accepted endpoint has: a sound authority and a base path that can be printed. *)
Record endpoint_ok (e : UpstreamEndpoint) : Prop := {
  eo_authority : authority_ok (ep_host e) (ep_port e) (ep_ipv6 e);
  eo_base_control : has_control (ep_base_path e) = false;
  eo_base_delimiter : contains_url_delimiter (ep_base_path e) = false;
  eo_base_path : ep_base_path e = [] ∨ ∃ path, ep_base_path e = SLASH :: path
}.

Lemma endpoint_parse_ok value e : endpoint_parse value = Ok e → endpoint_ok e.
Proof.
  unfold endpoint_parse. destruct (has_control value) eqn:Hctl; [done|].
  destruct (contains_url_delimiter value) eqn:Hdel; [done|]. simpl.
  match goal with |- match ?m with _ => _ end = _ → _ =>
    destruct m as [[scheme remainder]|] eqn:Hscheme; [|done] end.
  assert (Hv : ∃ p, value = p ++ remainder).
  { revert Hscheme. unfold strip_prefix. repeat case_match; intros; simplify_eq;
      eexists; symmetry; apply take_drop. }
  destruct Hv as [p ->]. clear Hscheme.
  destruct (split_authority remainder) as [authority base] eqn:Hsplit.
  case_bool_decide as Hane; [done|].
  destruct (parse_authority authority _) as [[[host port] ipv6]|] eqn:Hauth; [|done].
  intros [= <-]. apply parse_authority_ok in Hauth; [|by destruct scheme].
  unfold split_authority in Hsplit. destruct (split_once SLASH remainder) as [[a b]|] eqn:Hs;
    simplify_eq; constructor; simpl; auto; apply split_once_Some in Hs as [-> _]; [..|eauto].
  - by do 2 apply has_control_app_r in Hctl.
  - unfold contains_url_delimiter in *. rewrite !contains_byte_app in Hdel.
    rewrite !orb_false_iff in *. tauto.
Qed.

Lemma endpoint_parse_print e : endpoint_ok e → endpoint_parse (endpoint_as_url e) = Ok e.
Proof.
  destruct e as [scheme host port base ipv6]. intros [Hauth Hbc Hbd Hbase]. simpl in *.
  destruct (print_authority_bytes (scheme_default_port scheme) _ _ _ Hauth) as [Hab Hne].
  destruct (authority_bytes_char _ Hab) as (Hprint & Hadel & Hslash).
  unfold endpoint_as_url, endpoint_authority. simpl ep_scheme. simpl ep_host. simpl ep_port.
  simpl ep_ipv6. simpl ep_base_path.
  change (if port =? _ then _ else _)
    with (print_authority (scheme_default_port scheme) host port ipv6).
  set (a := print_authority _ _ _ _) in *. unfold endpoint_parse.
  assert (has_control (scheme_as_str scheme ++ lit "://" ++ a ++ base) = false) as ->.
  { rewrite !has_control_printable; [done|done|by repeat constructor|].
    destruct scheme; by repeat constructor. }
  assert (contains_url_delimiter (scheme_as_str scheme ++ lit "://" ++ a ++ base) = false) as ->.
  { unfold contains_url_delimiter in *. rewrite !contains_byte_app.
    rewrite !orb_false_iff in *. destruct scheme; simpl; tauto. }
  cbn [orb].
  assert (Hsa : split_authority (a ++ base) = (a, base)).
  { unfold split_authority. destruct Hbase as [->|[path ->]].
    - by rewrite app_nil_r, (proj2 (split_once_None _ _)).
    - by rewrite (proj2 (split_once_Some SLASH _ a path)). }
  destruct scheme.
  - assert (strip_prefix (lit "http://") (scheme_as_str SchemeHttp ++ lit "://" ++ a ++ base)
            = Some (a ++ base)) as -> by reflexivity.
    rewrite Hsa, bool_decide_false by done. unfold a. by rewrite parse_print_authority.
  - assert (strip_prefix (lit "http://") (scheme_as_str SchemeHttps ++ lit "://" ++ a ++ base)
            = None) as -> by reflexivity.
    assert (strip_prefix (lit "https://") (scheme_as_str SchemeHttps ++ lit "://" ++ a ++ base)
            = Some (a ++ base)) as -> by reflexivity.
    rewrite Hsa, bool_decide_false by done. unfold a. by rewrite parse_print_authority.
Qed.

(** printing an accepted upstream URL and parsing it again gives the same endpoint: scheme,
    host (IPv4 or normalised IPv6), port and base path; default ports, which are not printed,
    included. *)
Theorem endpoint_url_roundtrip value e :
  endpoint_parse value = Ok e → endpoint_parse (endpoint_as_url e) = Ok e.
Proof. intros He. by eapply endpoint_parse_print, endpoint_parse_ok. Qed.

Lemma endpoint_url_roundtrip_witness :
  let value := lit "https://[2001:DB8::1]:443/api" in
  let e := {| ep_scheme := SchemeHttps; ep_host := lit "2001:db8::1"; ep_port := 443;
              ep_base_path := lit "/api"; ep_ipv6 := true |} in
  endpoint_parse value = Ok e
  ∧ endpoint_as_url e = lit "https://[2001:db8::1]/api"
  ∧ endpoint_parse (endpoint_as_url e) = Ok e.
Proof.
  intros value e. assert (H : endpoint_parse value = Ok e) by (vm_compute; reflexivity).
  split; [exact H|]. split; [vm_compute; reflexivity|].
  exact (endpoint_url_roundtrip value e H).
Defined.

