(* ===== verification/RustNet.v ===== *)
(** * Socket addresses

    The parser of [std::net::SocketAddr] (the Rust standard library's recursive-descent reader
    for [a.b.c.d:port] and [[v6%scope]:port]) and [IpAddr::is_loopback], as the configuration
    validator and the Admin endpoint use them. *)

From stdpp Require Import base gmap strings list.
From Stdlib Require Import Strings.Byte NArith Lia.
From S2P Require Import Prelude RustStr Endpoint.
Local Open Scope N_scope.

(** A reader consumes a prefix of its input or fails and consumes nothing. *)
Notation reader A := (list byte → option (A * list byte)).

Definition read_given (c : byte) : reader unit :=
  λ l, match l with
       | b :: t => if bool_decide (b = c) then Some ((), t) else None
       | [] => None
       end.

Fixpoint digits_prefix (radix : N) (l : list byte) : list byte * list byte :=
  match l with
  | b :: t =>
      match digit_value radix b with
      | Some _ => let (ds, rest) := digits_prefix radix t in (b :: ds, rest)
      | None => ([], l)
      end
  | [] => ([], [])
  end.

(** [read_number]: the longest run of digits, not longer than [max_digits], a leading zero only
    where it is allowed, within the range of the type. *)
Definition read_number (radix mx : N) (max_digits : option nat) (allow_zero_prefix : bool)
  : reader N :=
  λ l, let (ds, rest) := digits_prefix radix l in
       if bool_decide (ds = []) then None
       else if match max_digits with Some n => Nat.ltb n (length ds) | None => false end then None
       else if negb allow_zero_prefix && starts_with [x30] ds && (1 <? len ds) then None
       else match parse_digits radix mx 0 ds with
            | Some n => Some (n, rest)
            | None => None
            end.

(** [read_separator]: the separator before every element but the first. *)
Definition read_separator {A} (sep : byte) (index : nat) (inner : reader A) : reader A :=
  λ l, match index with
       | O => inner l
       | S _ => match read_given sep l with Some (_, l) => inner l | None => None end
       end.

Definition read_octet (i : nat) : reader N :=
  read_separator DOT i (read_number 10 U8_MAX (Some 3%nat) false).

Definition read_ipv4_addr : reader (list N) :=
  λ l,
  match read_octet 0 l with
  | None => None
  | Some (a, l) =>
      match read_octet 1 l with
      | None => None
      | Some (b, l) =>
          match read_octet 2 l with
          | None => None
          | Some (c, l) =>
              match read_octet 3 l with
              | None => None
              | Some (d, l) => Some ([a; b; c; d], l)
              end
          end
      end
  end.

(** [read_groups]: up to [limit - i] groups from position [i], an embedded IPv4 address counts for
    two and ends them. *)
Fixpoint read_groups (fuel limit i : nat) (l : list byte) : list N * bool * list byte :=
  match fuel with
  | O => ([], false, l)
  | S fuel =>
      match (if Nat.ltb (S i) limit then read_separator COLON_BYTE i read_ipv4_addr l else None) with
      | Some ([a; b; c; d], rest) => ([a * 256 + b; c * 256 + d], true, rest)
      | _ =>
          match read_separator COLON_BYTE i (read_number 16 U16_MAX (Some 4%nat) true) l with
          | None => ([], false, l)
          | Some (g, rest) =>
              let '(gs, v4, rest) := read_groups fuel limit (S i) rest in (g :: gs, v4, rest)
          end
      end
  end.

Definition read_ipv6_addr : reader (list N) :=
  λ l,
  let '(head, head_ipv4, rest) := read_groups 8 8 0 l in
  if Nat.eqb (length head) 8 then Some (head, rest)
  else if head_ipv4 then None
  else match read_given COLON_BYTE rest with
       | None => None
       | Some (_, rest) =>
           match read_given COLON_BYTE rest with
           | None => None
           | Some (_, rest) =>
               let limit := (8 - (length head + 1))%nat in
               let '(tail, _, rest) := read_groups limit limit 0 rest in
               Some (head ++ replicate (8 - length head - length tail)%nat 0 ++ tail, rest)
           end
       end.

Definition read_port : reader N :=
  λ l, match read_given COLON_BYTE l with
       | None => None
       | Some (_, l) => read_number 10 U16_MAX None true l
       end.
Definition read_scope_id : reader N :=
  λ l, match read_given x25 l with
       | None => None
       | Some (_, l) => read_number 10 U32_MAX None true l
       end.

Inductive SocketAddr := SocketV4 (octets : list N) (port : N) | SocketV6 (segments : list N) (scope port : N).

Definition read_socket_v4 : reader SocketAddr :=
  λ l, match read_ipv4_addr l with
       | None => None
       | Some (ip, l) =>
           match read_port l with Some (p, l) => Some (SocketV4 ip p, l) | None => None end
       end.
Definition read_socket_v6 : reader SocketAddr :=
  λ l, match read_given LBRACKET l with
       | None => None
       | Some (_, l) =>
           match read_ipv6_addr l with
           | None => None
           | Some (ip, l) =>
               let (scope, l) := match read_scope_id l with Some (s, l) => (s, l) | None => (0, l) end in
               match read_given RBRACKET l with
               | None => None
               | Some (_, l) =>
                   match read_port l with
                   | Some (p, l) => Some (SocketV6 ip scope p, l)
                   | None => None
                   end
               end
           end
       end.

(** [str::parse::<SocketAddr>]: the whole text is read. *)
Definition parse_socket_addr (text : list byte) : option SocketAddr :=
  match read_socket_v4 text with
  | Some (a, []) => Some a
  | Some (_, _ :: _) => None
  | None => match read_socket_v6 text with Some (a, []) => Some a | _ => None end
  end.

Definition is_loopback (a : SocketAddr) : bool :=
  match a with
  | SocketV4 octets _ => bool_decide (head octets = Some 127)
  | SocketV6 segments _ _ => bool_decide (segments = [0; 0; 0; 0; 0; 0; 0; 1])
  end.

(** Addresses in both families, at the edges of the grammar. *)
Lemma socket_addr_examples :
  parse_socket_addr (lit "127.0.0.1:9443") = Some (SocketV4 [127; 0; 0; 1] 9443)
  ∧ parse_socket_addr (lit "[::1]:80") = Some (SocketV6 [0; 0; 0; 0; 0; 0; 0; 1] 0 80)
  ∧ parse_socket_addr (lit "[1:2::3.4.5.6%7]:080") = Some (SocketV6 [1; 2; 0; 0; 0; 0; 772; 1286] 7 80)
  ∧ parse_socket_addr (lit "127.0.0.01:80") = None
  ∧ parse_socket_addr (lit "127.0.0.1:65536") = None
  ∧ parse_socket_addr (lit "localhost:80") = None
  ∧ parse_socket_addr (lit "[1:2:3:4:5:6:7::]:1") = Some (SocketV6 [1; 2; 3; 4; 5; 6; 7; 0] 0 1)
  ∧ parse_socket_addr (lit "::1:80") = None.
Proof. vm_compute. repeat split. Qed.

(** ** Printing an IPv4 address *)
Definition print_socket_v4 (a b c d port : N) : list byte :=
  print_dec a ++ DOT :: print_dec b ++ DOT :: print_dec c ++ DOT :: print_dec d
  ++ COLON_BYTE :: print_dec port.

Lemma digits_prefix_stop ds rest :
  Forall (λ b, is_ascii_digit b = true) ds →
  (∀ b, head rest = Some b → digit_value 10 b = None) →
  digits_prefix 10 (ds ++ rest) = (ds, rest).
Proof.
  intros Hds Hr. induction Hds as [|b ds Hb Hds IH]; cbn [app digits_prefix].
  - destruct rest as [|b t]; [done|]. cbn [digits_prefix]. by rewrite (Hr b eq_refl).
  - assert (is_Some (digit_value 10 b)) as [v ->] by (destruct b; vm_compute in Hb; try done; vm_compute; eauto).
    by rewrite IH.
Qed.

(** A number below 256 prints with at most three digits and no leading zero. *)
Lemma octet_digits n : n < 256 →
  (length (print_dec n) ≤ 3)%nat ∧ starts_with [x30] (print_dec n) && (1 <? len (print_dec n)) = false.
Proof.
  intros Hn. set (ok n := (Nat.leb (length (print_dec n)) 3)
    && negb (starts_with [x30] (print_dec n) && (1 <? len (print_dec n)))).
  assert (Hall : forallb (λ k, ok (N.of_nat k)) (seq 0 256) = true) by (vm_compute; reflexivity).
  rewrite forallb_forall in Hall. specialize (Hall (N.to_nat n)).
  rewrite N2Nat.id in Hall. unfold ok in Hall. rewrite andb_true_iff, negb_true_iff, Nat.leb_le in Hall.
  apply Hall, in_seq. lia.
Qed.

Lemma read_octet_print i n rest :
  n < 256 → (∀ b, head rest = Some b → digit_value 10 b = None) →
  read_octet i ((if Nat.eqb i 0 then [] else [DOT]) ++ print_dec n ++ rest) = Some (n, rest).
Proof.
  intros Hn Hr. destruct (octet_digits n Hn) as [Hlen Hz].
  assert (Hnum : read_number 10 U8_MAX (Some 3%nat) false (print_dec n ++ rest) = Some (n, rest)).
  { unfold read_number. rewrite digits_prefix_stop by (done || apply print_dec_digits).
    rewrite bool_decide_false by apply print_dec_nonempty.
    assert (Nat.ltb 3 (length (print_dec n)) = false) as -> by (apply Nat.ltb_ge; lia).
    cbn [negb andb]. rewrite Hz, parse_digits_print; [done|]. unfold U8_MAX. lia. }
  unfold read_octet, read_separator. destruct i as [|i]; [exact Hnum|]. exact Hnum.
Qed.

(** Every IPv4 socket address is accepted in its printed form. *)
Lemma socket_v4_roundtrip a b c d port :
  a < 256 → b < 256 → c < 256 → d < 256 → port ≤ U16_MAX →
  parse_socket_addr (print_socket_v4 a b c d port) = Some (SocketV4 [a; b; c; d] port).
Proof.
  intros Ha Hb Hc Hd Hp. unfold parse_socket_addr, read_socket_v4, read_ipv4_addr, print_socket_v4.
  pose proof (read_octet_print 0 a) as H0. cbn [Nat.eqb app] in H0. rewrite H0 by (try done; by intros ? [= <-]).
  pose proof (read_octet_print 1 b) as H1. cbn [Nat.eqb app] in H1. rewrite H1 by (try done; by intros ? [= <-]).
  pose proof (read_octet_print 2 c) as H2. cbn [Nat.eqb app] in H2. rewrite H2 by (try done; by intros ? [= <-]).
  pose proof (read_octet_print 3 d) as H3. cbn [Nat.eqb app] in H3. rewrite H3 by (try done; by intros ? [= <-]).
  unfold read_port, read_given. rewrite bool_decide_true by done. unfold read_number.
  pose proof (digits_prefix_stop (print_dec port) [] (print_dec_digits port) ltac:(done)) as Hds.
  rewrite app_nil_r in Hds. rewrite Hds, bool_decide_false by apply print_dec_nonempty.
  cbn [negb andb]. by rewrite parse_digits_print.
Qed.
