(* ===== verification/UpstreamPolicy.v ===== *)
(** * Health, retry and selection policies of upstreams

    crates/edge-domain/src/lib.rs: the active health state machine with its
    thresholds, the passive (ejection) state machine, the retry decision, the
    eligibility of an upstream and the round-robin selection. *)

From stdpp Require Import base gmap strings list numbers sorting.
From Stdlib Require Import Strings.Byte NArith Lia.
From S2P Require Import Prelude Errors RustStr Endpoint.
Local Open Scope N_scope.

(** ** Active health *)
Inductive UpstreamAvailability : Set :=
| AvailDisabled | AvailUnknown | AvailHealthy | AvailUnhealthy.
#[global] Instance UpstreamAvailability_eq_dec : EqDecision UpstreamAvailability.
Proof. solve_decision. Defined.

Definition availability_is_eligible (a : UpstreamAvailability) : bool :=
  negb (bool_decide (a = AvailUnhealthy)).

Record HttpHealthCheckPolicy := {
  hc_path : list byte;
  hc_interval_ms : N;
  hc_timeout_ms : N;
  hc_healthy_threshold : N;
  hc_unhealthy_threshold : N;
  hc_status_min : N;
  hc_status_max : N
}.

Definition between (lo hi n : N) : bool := (lo <=? n) && (n <=? hi).

Definition HttpHealthCheckPolicy_new (path : list byte)
    (interval_ms timeout_ms healthy_threshold unhealthy_threshold status_min status_max : N)
  : result ValidationError HttpHealthCheckPolicy :=
  if bool_decide (path = []) || (2048 <? len path) || negb (starts_with [SLASH] path)
     || (contains_byte x3f path || contains_byte x23 path) || has_control path
  then Err (ValidationError_new ConfigHealthCheckInvalidPath
    "health-check path must be a bounded absolute path without query or fragment")
  else if negb (between 1000 86400000 interval_ms) || negb (between 100 30000 timeout_ms)
          || (interval_ms <=? timeout_ms)
  then Err (ValidationError_new ConfigHealthCheckInvalidInterval
    "health-check timeout and interval are outside the supported bounds")
  else if negb (between 1 10 healthy_threshold) || negb (between 1 10 unhealthy_threshold)
  then Err (ValidationError_new ConfigHealthCheckInvalidThreshold
    "health-check thresholds must be between 1 and 10")
  else if negb (between 100 599 status_min) || negb (between 100 599 status_max)
          || (status_max <? status_min)
  then Err (ValidationError_new ConfigHealthCheckInvalidStatusRange
    "health-check status range must be ordered within 100 through 599")
  else Ok {| hc_path := path; hc_interval_ms := interval_ms; hc_timeout_ms := timeout_ms;
             hc_healthy_threshold := healthy_threshold;
             hc_unhealthy_threshold := unhealthy_threshold;
             hc_status_min := status_min; hc_status_max := status_max |}.

Inductive HealthCheckPolicy := HealthDisabled | HealthHttp (p : HttpHealthCheckPolicy).

Inductive UpstreamHealthState : Set :=
| HealthStateDisabled
| HealthStateUnknown (consecutive_successes consecutive_failures : N)
| HealthStateHealthy (consecutive_failures : N)
| HealthStateUnhealthy (consecutive_successes : N).

Definition health_for_policy (p : HealthCheckPolicy) : UpstreamHealthState :=
  match p with HealthDisabled => HealthStateDisabled | HealthHttp _ => HealthStateUnknown 0 0 end.

Definition health_availability (s : UpstreamHealthState) : UpstreamAvailability :=
  match s with
  | HealthStateDisabled => AvailDisabled
  | HealthStateUnknown _ _ => AvailUnknown
  | HealthStateHealthy _ => AvailHealthy
  | HealthStateUnhealthy _ => AvailUnhealthy
  end.

Inductive HealthObservation : Set := ObsSucceeded | ObsFailed.
#[global] Instance HealthObservation_eq_dec : EqDecision HealthObservation.
Proof. solve_decision. Defined.

Record HealthStateChange := {
  change_from : UpstreamAvailability;
  change_to : UpstreamAvailability
}.
Record HealthTransitionResult := {
  tr_state : UpstreamHealthState;
  tr_change : option HealthStateChange
}.

Definition transition_upstream_health (state : UpstreamHealthState)
    (observation : HealthObservation) (policy : HttpHealthCheckPolicy) : HealthTransitionResult :=
  let from := health_availability state in
  let next :=
    match state, observation with
    | HealthStateDisabled, _ => HealthStateDisabled
    | HealthStateUnknown consecutive_successes _, ObsSucceeded =>
        let successes := saturating_add U32_MAX consecutive_successes 1 in
        if hc_healthy_threshold policy <=? successes then HealthStateHealthy 0
        else HealthStateUnknown successes 0
    | HealthStateUnknown _ consecutive_failures, ObsFailed =>
        let failures := saturating_add U32_MAX consecutive_failures 1 in
        if hc_unhealthy_threshold policy <=? failures then HealthStateUnhealthy 0
        else HealthStateUnknown 0 failures
    | HealthStateHealthy _, ObsSucceeded => HealthStateHealthy 0
    | HealthStateHealthy consecutive_failures, ObsFailed =>
        let failures := saturating_add U32_MAX consecutive_failures 1 in
        if hc_unhealthy_threshold policy <=? failures then HealthStateUnhealthy 0
        else HealthStateHealthy failures
    | HealthStateUnhealthy _, ObsFailed => HealthStateUnhealthy 0
    | HealthStateUnhealthy consecutive_successes, ObsSucceeded =>
        let successes := saturating_add U32_MAX consecutive_successes 1 in
        if hc_healthy_threshold policy <=? successes then HealthStateHealthy 0
        else HealthStateUnhealthy successes
    end in
  let to := health_availability next in
  {| tr_state := next;
     tr_change := if bool_decide (from ≠ to) then Some {| change_from := from; change_to := to |}
                  else None |}.

(** ** Retry *)
Record RetryPolicy := {
  retry_enabled : bool;
  retry_max_retries : N;
  retry_max_replay_bytes : N
}.
Definition RetryPolicy_default : RetryPolicy :=
  {| retry_enabled := false; retry_max_retries := 1; retry_max_replay_bytes := 32768 |}.

Definition RetryPolicy_new (enabled : bool) (max_retries max_replay_bytes : N)
  : result ValidationError RetryPolicy :=
  if (1 <? max_retries) || (enabled && negb (max_retries =? 1))
     || negb (between 1024 65536 max_replay_bytes)
  then Err (ValidationError_new ConfigRetryPolicyInvalid
              "retry policy is outside supported bounds")
  else Ok {| retry_enabled := enabled; retry_max_retries := max_retries;
             retry_max_replay_bytes := max_replay_bytes |}.

Inductive ReplayMethod : Set := ReplayGet | ReplayHead | ReplayOther.
#[global] Instance ReplayMethod_eq_dec : EqDecision ReplayMethod.
Proof. solve_decision. Defined.
Inductive RetryFailureKind : Set :=
| FailConnect | FailConnectTimeout | FailWrite | FailRead | FailReadTimeout
| FailResetBeforeResponse.

Record RetryInput := {
  ri_policy : RetryPolicy;
  ri_method : ReplayMethod;
  ri_body_bytes : N;
  ri_request_bytes_written : N;
  ri_response_started : bool;
  ri_attempts_used : N;
  ri_replay_reserved : bool;
  ri_failure : RetryFailureKind
}.

Inductive RetryDenialReason : Set :=
| DenyDisabled | DenyMethodNotReplayable | DenyBodyPresent | DenyRequestWriteStarted
| DenyResponseStarted | DenyRetryBudgetExhausted | DenyReplayBudgetExhausted
| DenyFailureNotRetryable.
Inductive RetryDecision : Set := Retry | DoNotRetry (reason : RetryDenialReason).

Definition failure_is_retryable (f : RetryFailureKind) : bool :=
  match f with
  | FailConnect | FailConnectTimeout | FailWrite | FailRead | FailReadTimeout
  | FailResetBeforeResponse => true
  end.

Definition evaluate_retry (input : RetryInput) : RetryDecision :=
  if negb (retry_enabled (ri_policy input)) then DoNotRetry DenyDisabled
  else if negb (bool_decide (ri_method input = ReplayGet)
                || bool_decide (ri_method input = ReplayHead))
  then DoNotRetry DenyMethodNotReplayable
  else if negb (ri_body_bytes input =? 0) then DoNotRetry DenyBodyPresent
  else if negb (ri_request_bytes_written input =? 0) then DoNotRetry DenyRequestWriteStarted
  else if ri_response_started input then DoNotRetry DenyResponseStarted
  else if retry_max_retries (ri_policy input) <=? ri_attempts_used input
  then DoNotRetry DenyRetryBudgetExhausted
  else if negb (ri_replay_reserved input) then DoNotRetry DenyReplayBudgetExhausted
  else if negb (failure_is_retryable (ri_failure input)) then DoNotRetry DenyFailureNotRetryable
  else Retry.

(** ** Passive health *)
Record PassiveHealthPolicy := {
  ph_failure_threshold : N;
  ph_ejection_ms : N
}.
Inductive PassiveHealthMode := PassiveModeDisabled | PassiveModeEnabled (p : PassiveHealthPolicy).

Definition PassiveHealthPolicy_new (failure_threshold ejection_ms : N)
  : result ValidationError PassiveHealthPolicy :=
  if negb (between 1 10 failure_threshold) || negb (between 1000 86400000 ejection_ms)
  then Err (ValidationError_new ConfigPassiveHealthPolicyInvalid
              "passive health policy is outside supported bounds")
  else Ok {| ph_failure_threshold := failure_threshold; ph_ejection_ms := ejection_ms |}.

Inductive PassiveHealthState : Set :=
| PassiveDisabled
| PassiveObserving (consecutive_failures : N)
| PassiveEjected (until_ms : N).
#[global] Instance PassiveHealthState_eq_dec : EqDecision PassiveHealthState.
Proof. solve_decision. Defined.

Definition passive_observing : PassiveHealthState := PassiveObserving 0.

Inductive PassiveHealthEvent : Set :=
| EvSucceeded
| EvFailed (now_ms : N)
| EvCooldownElapsed (now_ms : N).

Definition transition_passive_health (state : PassiveHealthState) (event : PassiveHealthEvent)
    (policy : PassiveHealthPolicy) : PassiveHealthState :=
  match state, event with
  | PassiveDisabled, _ => PassiveDisabled
  | PassiveObserving _, EvSucceeded => passive_observing
  | PassiveObserving consecutive_failures, EvFailed now_ms =>
      let failures := saturating_add U8_MAX consecutive_failures 1 in
      if ph_failure_threshold policy <=? failures
      then PassiveEjected (saturating_add U64_MAX now_ms (ph_ejection_ms policy))
      else PassiveObserving failures
  | PassiveObserving n, EvCooldownElapsed _ => PassiveObserving n
  | PassiveEjected u, (EvSucceeded | EvFailed _) => PassiveEjected u
  | PassiveEjected until_ms, EvCooldownElapsed now_ms =>
      if until_ms <=? now_ms then passive_observing else PassiveEjected until_ms
  end.

(** ** Eligibility *)
Inductive UpstreamMembership : Set := MemberPresent | MemberRemoved.
Inductive UpstreamAdministrativeState : Set := AdminActive | AdminDraining.
#[global] Instance UpstreamMembership_eq_dec : EqDecision UpstreamMembership.
Proof. solve_decision. Defined.
#[global] Instance UpstreamAdministrativeState_eq_dec : EqDecision UpstreamAdministrativeState.
Proof. solve_decision. Defined.

Record EffectiveUpstreamState := {
  eus_membership : UpstreamMembership;
  eus_administrative : UpstreamAdministrativeState;
  eus_active_health : UpstreamAvailability;
  eus_passive_health : PassiveHealthState
}.
Inductive UpstreamExclusionReason : Set :=
| ExcludedRemoved | ExcludedDraining | ExcludedActiveUnhealthy | ExcludedPassiveEjected.
Inductive EffectiveEligibility : Set := Eligible | Excluded (reason : UpstreamExclusionReason).

Definition effective_eligibility (state : EffectiveUpstreamState) : EffectiveEligibility :=
  if bool_decide (eus_membership state = MemberRemoved) then Excluded ExcludedRemoved
  else if bool_decide (eus_administrative state = AdminDraining) then Excluded ExcludedDraining
  else if bool_decide (eus_active_health state = AvailUnhealthy)
  then Excluded ExcludedActiveUnhealthy
  else match eus_passive_health state with
       | PassiveEjected _ => Excluded ExcludedPassiveEjected
       | _ => Eligible
       end.

(** ** Services and selection *)
Inductive LoadBalancingPolicy : Set := RoundRobin.

Record ServicePolicy := {
  sp_load_balancing : LoadBalancingPolicy;
  sp_health_check : HealthCheckPolicy;
  sp_retry : RetryPolicy;
  sp_passive_health : PassiveHealthMode
}.
Definition ServicePolicy_default : ServicePolicy :=
  {| sp_load_balancing := RoundRobin; sp_health_check := HealthDisabled;
     sp_retry := RetryPolicy_default; sp_passive_health := PassiveModeDisabled |}.

Record Upstream := {
  up_id : list byte;
  up_url : list byte;
  up_administrative_state : UpstreamAdministrativeState;
  up_tls : UpstreamTlsPolicy
}.
Record Service := {
  svc_id : list byte;
  svc_upstreams : list Upstream;
  svc_policy : ServicePolicy
}.

Inductive UpstreamSelection : Set :=
| Selected (upstream_id : list byte) (next_sequence : N)
| NoEligibleUpstream.

Definition eligible_upstreams (service : Service)
    (availability : gmap (list byte) UpstreamAvailability) : list Upstream :=
  let health_enabled := match sp_health_check (svc_policy service) with
                        | HealthHttp _ => true | HealthDisabled => false end in
  List.filter
    (λ upstream,
       bool_decide (up_administrative_state upstream = AdminActive)
       && (negb health_enabled
           || availability_is_eligible (default AvailUnknown (availability !! up_id upstream))))
    (svc_upstreams service).

Definition select_upstream (service : Service)
    (availability : gmap (list byte) UpstreamAvailability) (sequence : N) : UpstreamSelection :=
  let eligible := eligible_upstreams service availability in
  match eligible with
  | [] => NoEligibleUpstream
  | first :: _ =>
      let selected := default first (eligible !! N.to_nat (sequence mod len eligible)) in
      Selected (up_id selected) (wrapping_add U64_MAX sequence 1)
  end.

(** ** Active health against its specification

    The specification looks at the whole history (newest observation first) and keeps
    no counters: the availability changes exactly when the last [unhealthy_threshold]
    observations all failed, or the last [healthy_threshold] all succeeded. *)
Fixpoint streak (o : HealthObservation) (history : list HealthObservation) : N :=
  match history with
  | [] => 0
  | o' :: rest => if decide (o' = o) then 1 + streak o rest else 0
  end.

Fixpoint spec_availability (policy : HttpHealthCheckPolicy) (history : list HealthObservation)
  : UpstreamAvailability :=
  match history with
  | [] => AvailUnknown
  | o :: rest =>
      match o with
      | ObsFailed =>
          if hc_unhealthy_threshold policy <=? streak ObsFailed history then AvailUnhealthy
          else spec_availability policy rest
      | ObsSucceeded =>
          if hc_healthy_threshold policy <=? streak ObsSucceeded history then AvailHealthy
          else spec_availability policy rest
      end
  end.

Definition health_run (policy : HttpHealthCheckPolicy) (history : list HealthObservation)
  : UpstreamHealthState :=
  foldr (λ o s, tr_state (transition_upstream_health s o policy))
    (health_for_policy (HealthHttp policy)) history.

(** The counters of the state are the streaks of the history. *)
Definition counters_ok (policy : HttpHealthCheckPolicy) (history : list HealthObservation)
    (s : UpstreamHealthState) : Prop :=
  match s with
  | HealthStateDisabled => False
  | HealthStateUnknown n m =>
      n = streak ObsSucceeded history ∧ m = streak ObsFailed history
      ∧ n < hc_healthy_threshold policy ∧ m < hc_unhealthy_threshold policy
  | HealthStateHealthy m => m = streak ObsFailed history ∧ m < hc_unhealthy_threshold policy
  | HealthStateUnhealthy n => n = streak ObsSucceeded history ∧ n < hc_healthy_threshold policy
  end.

Lemma saturating_small mx n b : n < b → b ≤ mx → saturating_add mx n 1 = 1 + n.
Proof. unfold saturating_add. lia. Qed.

Lemma streak_same o h : streak o (o :: h) = 1 + streak o h.
Proof. simpl. by rewrite decide_True. Qed.
Lemma streak_failed_succeeded h : streak ObsFailed (ObsSucceeded :: h) = 0.
Proof. done. Qed.
Lemma streak_succeeded_failed h : streak ObsSucceeded (ObsFailed :: h) = 0.
Proof. done. Qed.

Section health.
Context (policy : HttpHealthCheckPolicy).
Context (Hh : 1 ≤ hc_healthy_threshold policy ≤ 10) (Hu : 1 ≤ hc_unhealthy_threshold policy ≤ 10).

Lemma health_run_spec history :
  counters_ok policy history (health_run policy history)
  ∧ health_availability (health_run policy history) = spec_availability policy history.
Proof using Hh Hu.
  induction history as [|o history [IHc IHa]]; [simpl; repeat split; lia|].
  unfold health_run in *. cbn [foldr]. set (s := foldr _ _ history) in *. clearbody s.
  destruct o; cbn [spec_availability]; rewrite ?streak_same; unfold transition_upstream_health;
    destruct s as [|n m|m|n]; cbn [counters_ok] in IHc; try done; destruct_and? IHc; subst;
    cbn [tr_state]; rewrite ?(saturating_small U32_MAX _ 10) by (unfold U32_MAX; lia);
    try match goal with |- context [?a <=? ?b] => destruct (N.leb_spec a b) end;
    cbn [counters_ok health_availability] in *;
    rewrite ?streak_same, ?streak_failed_succeeded, ?streak_succeeded_failed;
    split; try done; lia.
Qed.
End health.

Lemma health_policy_bounds path i t h u lo hi p :
  HttpHealthCheckPolicy_new path i t h u lo hi = Ok p →
  1 ≤ hc_healthy_threshold p ≤ 10 ∧ 1 ≤ hc_unhealthy_threshold p ≤ 10.
Proof.
  unfold HttpHealthCheckPolicy_new, between. intros H.
  repeat (case_match; [done|]). simplify_eq. simpl. nbool. lia.
Qed.

Lemma transition_change s o policy :
  let tr := transition_upstream_health s o policy in
  tr_change tr
  = (if decide (health_availability s = health_availability (tr_state tr)) then None
     else Some {| change_from := health_availability s;
                  change_to := health_availability (tr_state tr) |}).
Proof.
  cbv zeta. unfold transition_upstream_health. cbn [tr_change tr_state].
  case_bool_decide; case_decide; done.
Qed.

(** C35: active health checking implements its specification for every accepted policy: after
    any history of observations the availability is the one obtained by changing it exactly
    when the last [unhealthy_threshold] observations all failed or the last
    [healthy_threshold] all succeeded, and a change is reported exactly when the
    availability changes. *)
Theorem health_refines_streaks path i t h u lo hi policy history o :
  HttpHealthCheckPolicy_new path i t h u lo hi = Ok policy →
  health_availability (health_run policy history) = spec_availability policy history
  ∧ let tr := transition_upstream_health (health_run policy history) o policy in
    tr_change tr
    = (if decide (spec_availability policy history = spec_availability policy (o :: history))
       then None
       else Some {| change_from := spec_availability policy history;
                    change_to := spec_availability policy (o :: history) |}).
Proof.
  intros [Hh Hu]%health_policy_bounds.
  destruct (health_run_spec policy Hh Hu history) as [_ Ha].
  destruct (health_run_spec policy Hh Hu (o :: history)) as [_ Ha'].
  split; [done|]. cbv zeta. rewrite transition_change, <-Ha, <-Ha'. done.
Qed.

Lemma health_refines_streaks_witness :
  ∃ policy, HttpHealthCheckPolicy_new (lit "/health") 10000 2000 2 3 200 399 = Ok policy
  ∧ health_availability (health_run policy [ObsFailed; ObsFailed; ObsFailed; ObsSucceeded])
    = AvailUnhealthy.
Proof.
  eexists. split; [vm_compute; reflexivity|].
  exact (proj1 (health_refines_streaks (lit "/health") 10000 2000 2 3 200 399 _
    [ObsFailed; ObsFailed; ObsFailed; ObsSucceeded] ObsFailed ltac:(vm_compute; reflexivity))).
Defined.

(** ** Passive health *)
Lemma passive_policy_bounds thr ej p :
  PassiveHealthPolicy_new thr ej = Ok p →
  ph_failure_threshold p = thr ∧ ph_ejection_ms p = ej ∧ 1 ≤ thr ≤ 10.
Proof.
  unfold PassiveHealthPolicy_new, between. case_match; [done|]. intros [= <-]. simpl. nbool. lia.
Qed.

Definition passive_run (policy : PassiveHealthPolicy) (events : list PassiveHealthEvent)
    (s : PassiveHealthState) : PassiveHealthState :=
  foldl (λ s e, transition_passive_health s e policy) s events.

Lemma passive_run_failures policy times n :
  1 ≤ ph_failure_threshold policy ≤ 10 → n < ph_failure_threshold policy →
  passive_run policy (EvFailed <$> times) (PassiveObserving n)
  = match times !! N.to_nat (ph_failure_threshold policy - n - 1) with
    | None => PassiveObserving (n + len times)
    | Some t => PassiveEjected (saturating_add U64_MAX t (ph_ejection_ms policy))
    end.
Proof.
  intros Hthr. revert n. induction times as [|t times IH]; intros n Hn.
  { by rewrite lookup_nil, len_nil, N.add_0_r. }
  rewrite fmap_cons. unfold passive_run in *. cbn [foldl transition_passive_health].
  rewrite (saturating_small U8_MAX _ 10) by (unfold U8_MAX; lia).
  destruct (N.leb_spec (ph_failure_threshold policy) (1 + n)).
  - replace (N.to_nat _) with 0%nat by lia. cbn [lookup list_lookup].
    assert (Hej : ∀ l u, foldl (λ s e, transition_passive_health s e policy) (PassiveEjected u)
                           (EvFailed <$> l) = PassiveEjected u).
    { induction l as [|x l IHl]; [done|]. intros u. rewrite fmap_cons.
      cbn [foldl transition_passive_health]. apply IHl. }
    apply Hej.
  - rewrite IH by lia. rewrite len_cons.
    replace (N.to_nat (ph_failure_threshold policy - n - 1))
      with (S (N.to_nat (ph_failure_threshold policy - (1 + n) - 1))) by lia.
    cbn [lookup list_lookup]. replace (1 + n + len times) with (n + (1 + len times)) by lia. done.
Qed.

(** The cooldown checks of a sequence of events all happen before [u]. *)
Definition cooldowns_before (u : N) (events : list PassiveHealthEvent) : Prop :=
  Forall (λ e, match e with EvCooldownElapsed now => now < u | _ => True end) events.

Lemma passive_run_ejected policy events u :
  cooldowns_before u events → passive_run policy events (PassiveEjected u) = PassiveEjected u.
Proof.
  unfold passive_run. induction 1 as [|e events He Hes IH]; [done|]. cbn [foldl].
  destruct e; cbn [transition_passive_health]; try done. by rewrite (proj2 (N.leb_gt _ _)).
Qed.

(** Passive health ejects an upstream at exactly its [failure_threshold]-th consecutive
    failure and for exactly [ejection_ms]: below the threshold the failures are only counted (a
    success clears them); the threshold-th failure, at time [t], ejects until
    [t + ejection_ms]; until then no success, failure or earlier cooldown check makes the
    upstream eligible again, and the first cooldown check from then on does. *)
Theorem passive_ejection_exact thr ej policy :
  PassiveHealthPolicy_new thr ej = Ok policy →
  (∀ n, transition_passive_health (PassiveObserving n) EvSucceeded policy = passive_observing)
  ∧ (∀ times, len times < thr →
       passive_run policy (EvFailed <$> times) passive_observing = PassiveObserving (len times))
  ∧ (∀ times t after events now eus,
       len times + 1 = thr → t + ej ≤ U64_MAX → cooldowns_before (t + ej) events →
       let s := passive_run policy (events)
                  (passive_run policy (EvFailed <$> times ++ t :: after) passive_observing) in
       s = PassiveEjected (t + ej)
       ∧ effective_eligibility {| eus_membership := MemberPresent;
                                  eus_administrative := AdminActive;
                                  eus_active_health := eus; eus_passive_health := s |} ≠ Eligible
       ∧ (t + ej ≤ now →
          transition_passive_health s (EvCooldownElapsed now) policy = passive_observing)).
Proof.
  intros (<- & <- & Hthr)%passive_policy_bounds. split_and!; [done|..].
  - intros times Ht. unfold passive_observing. rewrite passive_run_failures by lia.
    rewrite lookup_ge_None_2; [by rewrite N.add_0_l|]. unfold len in Ht. lia.
  - intros times t after events now eus Hlen Hover Hcool. cbv zeta.
    unfold passive_observing. rewrite passive_run_failures by lia.
    assert (Hlook : (times ++ t :: after) !! N.to_nat (ph_failure_threshold policy - 0 - 1) = Some t).
    { apply list_lookup_middle. unfold len in Hlen. lia. }
    rewrite Hlook. unfold saturating_add. replace (N.min U64_MAX (t + ph_ejection_ms policy))
      with (t + ph_ejection_ms policy) by lia.
    rewrite passive_run_ejected by done. split_and!; [done|..].
    + unfold effective_eligibility. simpl. by case_bool_decide.
    + intros Hnow. simpl. by rewrite (proj2 (N.leb_le _ _)).
Qed.

Lemma passive_ejection_exact_witness :
  ∃ policy, PassiveHealthPolicy_new 2 1000 = Ok policy
  ∧ passive_run policy [EvSucceeded; EvCooldownElapsed 1006]
      (passive_run policy (EvFailed <$> [5; 7]) passive_observing) = PassiveEjected 1007.
Proof.
  eexists. split; [vm_compute; reflexivity|].
  refine (proj1 (proj2 (proj2 (passive_ejection_exact 2 1000 _ _)) [5] 7 []
    [EvSucceeded; EvCooldownElapsed 1006] 0 AvailHealthy _ _ _)).
  - vm_compute. reflexivity.
  - vm_compute. reflexivity.
  - vm_compute. discriminate.
  - repeat constructor.
Defined.

(** ** Retry *)

(** a failed attempt is retried only when replaying it is safe: retries are enabled and not
    used up, the request is a GET or HEAD without body of which not one byte was written, no
    byte of a response was seen, and the replay buffer is accounted for; in every other case
    the decision names the first violated condition and nothing is replayed. *)
Theorem retry_only_when_safe input :
  evaluate_retry input = Retry ↔
  retry_enabled (ri_policy input) = true
  ∧ (ri_method input = ReplayGet ∨ ri_method input = ReplayHead)
  ∧ ri_body_bytes input = 0 ∧ ri_request_bytes_written input = 0
  ∧ ri_response_started input = false
  ∧ ri_attempts_used input < retry_max_retries (ri_policy input)
  ∧ ri_replay_reserved input = true.
Proof.
  unfold evaluate_retry. destruct (retry_enabled (ri_policy input)); simpl; [|naive_solver].
  destruct (ri_method input); simpl; try (split; [done|naive_solver]);
  destruct (N.eqb_spec (ri_body_bytes input) 0); simpl; try (split; [done|naive_solver]);
  destruct (N.eqb_spec (ri_request_bytes_written input) 0); simpl; try (split; [done|naive_solver]);
  destruct (ri_response_started input); simpl; try (split; [done|naive_solver]);
  destruct (N.leb_spec (retry_max_retries (ri_policy input)) (ri_attempts_used input)); simpl;
    try (split; [done|naive_solver lia]);
  destruct (ri_replay_reserved input); simpl; try (split; [done|naive_solver]);
  destruct (ri_failure input); simpl; naive_solver.
Qed.

(** ** Round robin *)
Fixpoint select_many (service : Service) (availability : gmap (list byte) UpstreamAvailability)
    (n : nat) (sequence : N) : list (list byte) :=
  match n with
  | O => []
  | S n =>
      match select_upstream service availability sequence with
      | NoEligibleUpstream => []
      | Selected id next => id :: select_many service availability n next
      end
  end.

Section round_robin.
Context (service : Service) (availability : gmap (list byte) UpstreamAvailability).

(** The [i]-th choice after [sequence], as long as the counter does not wrap. *)
Lemma select_many_lookup n sequence i :
  let eligible := eligible_upstreams service availability in
  eligible ≠ [] → sequence + N.of_nat n ≤ U64_MAX → (i < n)%nat →
  select_many service availability n sequence !! i
  = up_id <$> (eligible !! N.to_nat ((sequence + N.of_nat i) mod len eligible)).
Proof using Type.
  intros eligible Hne. revert sequence i. induction n as [|n IH]; intros sequence i Hseq Hi; [lia|].
  cbn [select_many]. unfold select_upstream. fold eligible.
  destruct eligible as [|first rest] eqn:He; [done|]. rewrite <-He in *.
  destruct i as [|i].
  - rewrite lookup_cons. rewrite N.add_0_r.
    assert (Hlt : (N.to_nat (sequence mod len eligible) < length eligible)%nat).
    { assert (sequence mod len eligible < len eligible); [|unfold len in *; lia].
      apply N.mod_lt. rewrite He, len_cons. lia. }
    apply lookup_lt_is_Some in Hlt as [u ->]. done.
  - rewrite lookup_cons. unfold wrapping_add. rewrite N.mod_small by lia.
    specialize (IH (sequence + 1) i). rewrite IH by lia.
    by replace (sequence + 1 + N.of_nat i) with (sequence + N.of_nat (S i)) by lia.
Qed.

Lemma select_many_length n sequence :
  eligible_upstreams service availability ≠ [] →
  length (select_many service availability n sequence) = n.
Proof using Type.
  intros Hne. revert sequence. induction n as [|n IH]; intros sequence; [done|].
  cbn [select_many]. unfold select_upstream. destruct (eligible_upstreams _ _); [done|].
  simpl. by rewrite IH.
Qed.

(** One round is the list of eligible upstreams, rotated. *)
Lemma select_round sequence :
  let eligible := eligible_upstreams service availability in
  eligible ≠ [] → sequence + len eligible ≤ U64_MAX →
  select_many service availability (length eligible) sequence
  = up_id <$> rotate (N.to_nat (sequence mod len eligible)) eligible.
Proof using Type.
  intros eligible Hne Hseq. set (n := length eligible). set (k := N.to_nat (sequence mod len eligible)).
  assert (Hlen : 0 < len eligible) by (destruct eligible; [done|rewrite len_cons; lia]).
  assert (Hk : (k < n)%nat).
  { assert (sequence mod len eligible < len eligible) by (apply N.mod_lt; lia).
    unfold k, n, len in *. lia. }
  apply list_eq. intros i. rewrite list_lookup_fmap. destruct (decide (i < n)%nat) as [Hi|Hi].
  - rewrite select_many_lookup by (done || (unfold n, len in *; lia)). fold eligible. f_equal.
    rewrite lookup_rotate_r by done. f_equal. unfold rotate_nat_add.
    fold n. unfold len in *. fold n in Hlen |- *.
    assert (Hz : ((Z.of_nat k + Z.of_nat i) mod Z.of_nat n
                  = Z.of_N ((sequence + N.of_nat i) mod N.of_nat n))%Z).
    { unfold k. rewrite N2Z.inj_mod, N2Z.inj_add, nat_N_Z, nat_N_Z, N_nat_Z, N2Z.inj_mod, nat_N_Z.
      rewrite Zplus_mod_idemp_l. done. }
    rewrite Hz. generalize ((sequence + N.of_nat i) mod N.of_nat n). intros. lia.
  - rewrite !lookup_ge_None_2; [done|..].
    + rewrite length_rotate. unfold n in Hi. lia.
    + rewrite select_many_length by done. lia.
Qed.

(** round robin is fair and respects eligibility: starting anywhere, as many consecutive
    selections as there are eligible upstreams choose every one of them exactly once, in their
    configured cyclic order; no upstream that is draining or, with health checking on,
    unhealthy is ever chosen; and none is chosen only if none is eligible. *)
Theorem round_robin_fair sequence :
  let eligible := eligible_upstreams service availability in
  sequence + len eligible ≤ U64_MAX →
  select_many service availability (length eligible) sequence ≡ₚ up_id <$> eligible
  ∧ (∀ u, u ∈ eligible → up_administrative_state u = AdminActive
      ∧ (sp_health_check (svc_policy service) = HealthDisabled
         ∨ availability !! up_id u ≠ Some AvailUnhealthy))
  ∧ (select_upstream service availability sequence = NoEligibleUpstream ↔ eligible = []).
Proof using Type.
  intros eligible Hseq. split_and!.
  - destruct (decide (eligible = [])) as [He|Hne].
    + unfold eligible in *. rewrite He. done.
    + rewrite select_round by done. fold eligible. apply fmap_Permutation. unfold rotate.
      rewrite Permutation_app_comm. by rewrite take_drop.
  - intros u Hu%list_elem_of_In. unfold eligible, eligible_upstreams in Hu.
    apply List.filter_In in Hu as [_ Hu]. apply andb_true_iff in Hu as [Ha Hu].
    apply bool_decide_eq_true in Ha. split; [done|].
    destruct (sp_health_check _); [by left|right]. simpl in Hu. intros E. rewrite E in Hu. done.
  - unfold select_upstream. fold eligible. by destruct eligible.
Qed.
End round_robin.

Lemma round_robin_fair_witness :
  let u name state := {| up_id := lit name; up_url := []; up_administrative_state := state;
                         up_tls := TlsDisabled |} in
  let service := {| svc_id := lit "s";
                    svc_upstreams := [u "a" AdminActive; u "b" AdminDraining; u "c" AdminActive;
                                      u "d" AdminActive];
                    svc_policy := ServicePolicy_default |} in
  select_many service ∅ 3 7 = [lit "c"; lit "d"; lit "a"]
  ∧ select_many service ∅ 3 7 ≡ₚ [lit "a"; lit "c"; lit "d"].
Proof.
  intros u service. split; [vm_compute; reflexivity|].
  exact (proj1 (round_robin_fair service ∅ 7 ltac:(vm_compute; discriminate))).
Defined.
