(* ===== verification/Snapshot.v ===== *)
(** * Configuration snapshots and routing

    crates/edge-domain/src/lib.rs ([normalize_host], [normalize_path], matches, routes,
    [ConfigSnapshot] with [select_route], commands, the data-directory lock),
    crates/edge-application/src/http_route_action.rs ([select_http_route_action]),
    [host_for_route_match] of crates/edge-core/src/lib.rs and
    [select_certificate_for_sni] of crates/edge-core/src/tls_handshake.rs. *)

From stdpp Require Import base gmap strings list numbers sorting.
From Stdlib Require Import Strings.Byte NArith ZArith Lia.
From S2P Require Import Prelude Errors RustStr Endpoint UpstreamPolicy.
Local Open Scope N_scope.

(** ** Normalisation *)
Definition normalize_host (host : list byte) : list byte :=
  to_ascii_lowercase (trim_end_matches DOT (trim host)).

Definition normalize_path (path : list byte) : list byte :=
  let trimmed := trim path in
  let with_slash :=
    if bool_decide (trimmed = []) then [SLASH]
    else if starts_with [SLASH] trimmed then trimmed
    else SLASH :: trimmed in
  if 1 <? len with_slash then trim_end_matches SLASH with_slash else with_slash.

(** ** Matches *)
Record HostMatch := { hm_normalized : list byte }.
Definition HostMatch_exact (host : list byte) : HostMatch :=
  {| hm_normalized := normalize_host host |}.
Definition host_matches (m : HostMatch) (host : list byte) : bool :=
  bool_decide (hm_normalized m = normalize_host host).

Record PathMatch := { pm_prefix : list byte; pm_exact : bool }.
Definition PathMatch_prefix (path : list byte) : PathMatch :=
  {| pm_prefix := normalize_path path; pm_exact := false |}.
Definition PathMatch_exact (path : list byte) : PathMatch :=
  {| pm_prefix := normalize_path path; pm_exact := true |}.

Definition path_matches (m : PathMatch) (path : list byte) : bool :=
  let path := normalize_path path in
  if pm_exact m then bool_decide (path = pm_prefix m)
  else if bool_decide (pm_prefix m = [SLASH]) then true
  else bool_decide (path = pm_prefix m)
       || match strip_prefix (pm_prefix m) path with
          | Some remaining => starts_with [SLASH] remaining
          | None => false
          end.

Record RouteMatch := { rm_hosts : list HostMatch; rm_paths : list PathMatch }.

Definition route_match_matches (m : RouteMatch) (host path : list byte) : bool :=
  existsb (λ candidate, host_matches candidate host) (rm_hosts m)
  && existsb (λ candidate, path_matches candidate path) (rm_paths m).

(** Pairs [(usize, bool)] and [(i32, (usize, bool))] in lexicographic order. *)
Definition specificity_le (a b : N * bool) : bool :=
  (fst a <? fst b) || ((fst a =? fst b) && (negb (snd a) || snd b)).
Definition route_key_le (a b : Z * (N * bool)) : bool :=
  (fst a <? fst b)%Z || ((fst a =? fst b)%Z && specificity_le (snd a) (snd b)).

(** [Iterator::max] and [max_by_key]: the last of the greatest elements. *)
Definition max_by {A K} (le : K → K → bool) (key : A → K) (l : list A) : option A :=
  foldl (λ acc x, match acc with
                  | None => Some x
                  | Some best => if le (key best) (key x) then Some x else Some best
                  end) None l.

Definition best_path_specificity (m : RouteMatch) (path : list byte) : N * bool :=
  default (0, false)
    (max_by specificity_le id
       ((λ candidate, (len (pm_prefix candidate), pm_exact candidate))
          <$> List.filter (λ candidate, path_matches candidate path) (rm_paths m))).

Record Route := {
  route_id : list byte;
  route_match : RouteMatch;
  route_service_id : list byte;
  route_priority : Z;
  route_enabled : bool;
  route_redirect_http_to_https : bool;
  route_certificate_resolver_id : option (list byte);
  route_certificate_ref : option (list byte)
}.

Definition route_matches (r : Route) (host path : list byte) : bool :=
  route_enabled r && route_match_matches (route_match r) host path.

(** ** Snapshots *)
Inductive LogMode : Set := LogProduct | LogFieldDebug | LogDev.
Inductive AcmeChallenge : Set := Http01 | Dns01.

Record Listener := {
  listener_id : list byte;
  listener_bind : list byte;
  listener_protocol : ListenerProtocol;
  listener_client_auth : ClientAuthPolicy
}.
Record CertificateResolver := {
  resolver_id : list byte;
  resolver_email : list byte;
  resolver_challenge : AcmeChallenge;
  resolver_production_enabled : bool
}.
Record MetricsConfig := { metrics_enabled : bool; metrics_bind : list byte }.
Record RuntimeOptions := {
  opt_max_connections : N;
  opt_max_inflight_payload_bytes : N;
  opt_max_request_header_bytes : N;
  opt_max_request_body_bytes : N;
  opt_upstream_read_timeout_ms : N;
  opt_metrics : MetricsConfig
}.
Record AdminConfig := { admin_bind : list byte; admin_auth_required : bool }.

Record ConfigSnapshot := {
  snap_schema_version : N;
  snap_revision_id : list byte;
  snap_admin : AdminConfig;
  snap_listeners : list Listener;
  snap_routes : list Route;
  snap_services : list Service;
  snap_certificate_resolvers : list CertificateResolver;
  snap_log_mode : LogMode;
  snap_runtime : RuntimeOptions
}.

Definition route_key (path : list byte) (r : Route) : Z * (N * bool) :=
  (route_priority r, best_path_specificity (route_match r) path).

Definition select_route (s : ConfigSnapshot) (host path : list byte) : option Route :=
  max_by route_key_le (route_key path)
    (List.filter (λ route, route_matches route host path) (snap_routes s)).

Definition find_service (s : ConfigSnapshot) (service_id : list byte) : option Service :=
  List.find (λ service, bool_decide (svc_id service = service_id)) (snap_services s).
Definition primary_upstream (s : Service) : option Upstream := head (svc_upstreams s).
Definition primary_upstream_for_service (s : ConfigSnapshot) (service_id : list byte)
  : option Upstream :=
  match find_service s service_id with
  | Some service => primary_upstream service
  | None => None
  end.

(** ** Route actions *)
Inductive HttpRouteAction : Set :=
| ActionProxy (route_id service_id : list byte)
| ActionRedirect (status_code : N) (location : list byte)
| ActionAcmeChallengeBypass (token : list byte)
| ActionNotFound.

Definition select_http_route_action (snapshot : ConfigSnapshot) (host path : list byte)
  : HttpRouteAction :=
  match strip_prefix (lit "/.well-known/acme-challenge/") path with
  | Some token => ActionAcmeChallengeBypass token
  | None =>
      match select_route snapshot host path with
      | None => ActionNotFound
      | Some route =>
          if route_redirect_http_to_https route
          then ActionRedirect 308 (lit "https://" ++ host ++ path)
          else ActionProxy (route_id route) (route_service_id route)
      end
  end.

Definition host_for_route_match (authority : list byte) : list byte :=
  let trimmed := trim authority in
  let plain_host := match split_once COLON_BYTE trimmed with
                    | Some (host, _) => host
                    | None => trimmed
                    end in
  match strip_prefix [LBRACKET] trimmed with
  | Some rest => match find_seq [RBRACKET] rest with
                 | Some e => take e rest
                 | None => plain_host
                 end
  | None => plain_host
  end.

Record CertificateSelection := { sel_server_name : list byte; sel_certificate_ref : list byte }.

Definition select_certificate_for_sni (snapshot : ConfigSnapshot) (server_name : list byte)
  : option CertificateSelection :=
  match select_route snapshot server_name [SLASH] with
  | None => None
  | Some route =>
      match route_certificate_ref route with
      | None => None
      | Some certificate_ref =>
          Some {| sel_server_name := to_ascii_lowercase server_name;
                  sel_certificate_ref := certificate_ref |}
      end
  end.

(** ** Commands *)
Record HealthAvailabilitySnapshot := {
  has_revision_id : list byte;
  has_generation : N;
  has_entries : gmap (list byte * list byte) UpstreamAvailability
}.
Inductive CoreCommand :=
| ApplyConfigSnapshot (snapshot : ConfigSnapshot)
| ActivateConfigSnapshot (snapshot : ConfigSnapshot) (availability : HealthAvailabilitySnapshot)
| PublishUpstreamAvailability (snapshot : HealthAvailabilitySnapshot)
| RollbackConfigSnapshot (revision_id : list byte)
| InstallCertificate (certificate_ref : list byte)
| RefreshRouteTable
| BeginDrain (deadline_ms : N)
| Shutdown.
Inductive CommandAck := Accepted | Rejected (error : AppError).
Definition ack_is_success (a : CommandAck) : bool :=
  match a with Accepted => true | Rejected _ => false end.

(** ** The data-directory lock *)
Inductive DataDirectoryLockState : Set :=
| LockUnlocked | LockAcquiringExclusive | LockHeldExclusive | LockReleasing | LockReleased
| LockFailed.
Inductive DataDirectoryLockEvent : Set :=
| AcquireRequested | AcquireSucceeded | AcquireFailed | ReleaseRequested | ReleaseSucceeded
| ReleaseFailed.

Definition lock_transition (state : DataDirectoryLockState) (event : DataDirectoryLockEvent)
  : result AppError () * DataDirectoryLockState :=
  match state, event with
  | LockUnlocked, AcquireRequested => (Ok (), LockAcquiringExclusive)
  | LockAcquiringExclusive, AcquireSucceeded => (Ok (), LockHeldExclusive)
  | LockAcquiringExclusive, AcquireFailed => (Ok (), LockFailed)
  | LockHeldExclusive, ReleaseRequested => (Ok (), LockReleasing)
  | LockReleasing, ReleaseSucceeded => (Ok (), LockReleased)
  | LockReleasing, ReleaseFailed => (Ok (), LockFailed)
  | _, _ => (Err (AppError_new DataDirectoryLockStateInvalid
                    "data directory lock event is invalid for the current state"), state)
  end.

Definition lock_run (events : list DataDirectoryLockEvent) (s : DataDirectoryLockState)
  : DataDirectoryLockState := foldl (λ s e, (lock_transition s e).2) s events.

(** The accepted events of a run, in order. *)
Fixpoint lock_accepted (events : list DataDirectoryLockEvent) (s : DataDirectoryLockState)
  : list DataDirectoryLockEvent :=
  match events with
  | [] => []
  | e :: rest =>
      let (r, s') := lock_transition s e in
      if is_ok r then e :: lock_accepted rest s' else lock_accepted rest s'
  end.

(** The lives of a lock, with the state each ends in. *)
Definition lock_lives : list (list DataDirectoryLockEvent * DataDirectoryLockState) :=
  [([], LockUnlocked);
   ([AcquireRequested], LockAcquiringExclusive);
   ([AcquireRequested; AcquireSucceeded], LockHeldExclusive);
   ([AcquireRequested; AcquireFailed], LockFailed);
   ([AcquireRequested; AcquireSucceeded; ReleaseRequested], LockReleasing);
   ([AcquireRequested; AcquireSucceeded; ReleaseRequested; ReleaseSucceeded], LockReleased);
   ([AcquireRequested; AcquireSucceeded; ReleaseRequested; ReleaseFailed], LockFailed)].

Lemma lock_life_step past s e :
  In (past, s) lock_lives →
  In (past ++ (if is_ok (lock_transition s e).1 then [e] else []), (lock_transition s e).2) lock_lives.
Proof.
  simpl. intros H. repeat (destruct H as [[= <- <-]|H]; [destruct e; simpl; tauto|]). done.
Qed.

(** Whatever events the data-directory lock receives, in any order, the ones it accepts form
    one of seven lives: the lock is held only after a requested acquisition succeeded, is held at
    most once, and a released or failed lock never changes again. *)
Theorem lock_life events :
  In (lock_accepted events LockUnlocked, lock_run events LockUnlocked) lock_lives.
Proof.
  assert (Hgen : ∀ past s, In (past, s) lock_lives →
    In (past ++ lock_accepted events s, lock_run events s) lock_lives).
  { induction events as [|e events IH]; intros past s Hs.
    - by rewrite app_nil_r.
    - apply (lock_life_step past s e) in Hs. apply IH in Hs. unfold lock_run. simpl.
      destruct (lock_transition s e) as [[[]|er] s']; simpl in *.
      + by rewrite <-app_assoc in Hs.
      + by rewrite app_nil_r in Hs. }
  apply (Hgen [] LockUnlocked). by left.
Qed.

(** ** Selecting a route *)
Section max_by.
Context {A K : Type} (le : K → K → bool) (key : A → K).
Context (le_total : ∀ a b, le a b = true ∨ le b a = true).
Context (le_trans : ∀ a b c, le a b = true → le b c = true → le a c = true).

(** [x] is the last of the greatest elements of [l]. *)
Definition last_greatest (l : list A) (x : A) : Prop :=
  ∃ pre post, l = pre ++ x :: post
  ∧ Forall (λ y, le (key y) (key x) = true) pre
  ∧ Forall (λ y, le (key x) (key y) = false) post.

Lemma le_not_le a b : le a b = false → le b a = true.
Proof using le_total. intros H. destruct (le_total a b); congruence. Qed.

Lemma max_by_snoc l x :
  max_by le key (l ++ [x])
  = match max_by le key l with
    | None => Some x
    | Some best => if le (key best) (key x) then Some x else Some best
    end.
Proof using Type. unfold max_by. by rewrite foldl_app. Qed.

Lemma max_by_spec l :
  match max_by le key l with
  | None => l = []
  | Some x => last_greatest l x
  end.
Proof using le_total le_trans.
  induction l as [|x l IH] using rev_ind; [done|]. rewrite max_by_snoc.
  destruct (max_by le key l) as [best|]; [|subst; by exists [], []].
  destruct IH as (pre & post & -> & Hpre & Hpost).
  destruct (le (key best) (key x)) eqn:Hle.
  - exists (pre ++ best :: post), []. split_and!; [done| |constructor].
    apply Forall_app. split; [|constructor; [done|]].
    + eapply Forall_impl; [exact Hpre|]. intros y Hy. simpl in *. by eapply le_trans.
    + eapply Forall_impl; [exact Hpost|]. intros y Hy%le_not_le. by eapply le_trans.
  - exists pre, (post ++ [x]). split_and!; [by rewrite <-app_assoc|done|].
    apply Forall_app. split; [done|]. by constructor.
Qed.

Lemma last_greatest_unique l x y : last_greatest l x → last_greatest l y → x = y.
Proof using le_total le_trans.
  intros (p1 & q1 & -> & Hp1 & Hq1) (p2 & q2 & Heq & Hp2 & Hq2).
  apply app_eq_inv in Heq as [(k & -> & Hk)|(k & -> & Hk)].
  - destruct k as [|z k]; simpl in Hk; [congruence|]. simplify_eq.
    apply Forall_app in Hp1 as [_ Hp1]. inversion_clear Hp1 as [|? ? Hxy _].
    apply Forall_app in Hq2 as [_ Hq2]. inversion_clear Hq2 as [|? ? Hxy' _]. congruence.
  - destruct k as [|z k]; simpl in Hk; [congruence|]. simplify_eq.
    apply Forall_app in Hp2 as [_ Hp2]. inversion_clear Hp2 as [|? ? Hxy _].
    apply Forall_app in Hq1 as [_ Hq1]. inversion_clear Hq1 as [|? ? Hxy' _]. congruence.
Qed.

Lemma max_by_iff l x : max_by le key l = Some x ↔ last_greatest l x.
Proof using le_total le_trans.
  pose proof (max_by_spec l) as H. split; intros Hx.
  - by rewrite Hx in H.
  - destruct (max_by le key l) as [y|].
    + f_equal. by eapply last_greatest_unique.
    + subst. destruct Hx as (pre & post & Heq & _). by destruct pre.
Qed.
End max_by.

Lemma specificity_le_total a b : specificity_le a b = true ∨ specificity_le b a = true.
Proof.
  destruct a as [n x], b as [m y]. unfold specificity_le. simpl.
  destruct (N.ltb_spec n m), (N.ltb_spec m n), (N.eqb_spec n m), (N.eqb_spec m n); simpl; auto;
    try lia. destruct x, y; auto.
Qed.
Lemma specificity_le_trans a b c :
  specificity_le a b = true → specificity_le b c = true → specificity_le a c = true.
Proof.
  destruct a as [n x], b as [m y], c as [k z]. unfold specificity_le. simpl.
  destruct (N.ltb_spec n m), (N.ltb_spec m k), (N.ltb_spec n k), (N.eqb_spec n m), (N.eqb_spec m k),
    (N.eqb_spec n k); simpl; try done; try lia. destruct x, y, z; done.
Qed.
Lemma route_key_le_total a b : route_key_le a b = true ∨ route_key_le b a = true.
Proof.
  destruct a as [n x], b as [m y]. unfold route_key_le. simpl.
  destruct (Z.ltb_spec n m), (Z.ltb_spec m n), (Z.eqb_spec n m), (Z.eqb_spec m n); simpl; auto;
    try lia. apply specificity_le_total.
Qed.
Lemma route_key_le_trans a b c :
  route_key_le a b = true → route_key_le b c = true → route_key_le a c = true.
Proof.
  destruct a as [n x], b as [m y], c as [k z]. unfold route_key_le. simpl.
  destruct (Z.ltb_spec n m), (Z.ltb_spec m k), (Z.ltb_spec n k), (Z.eqb_spec n m), (Z.eqb_spec m k),
    (Z.eqb_spec n k); simpl; try done; try lia. apply specificity_le_trans.
Qed.

(** the route selected for a request is determined: it is enabled and matches host and path,
    no matching route has a higher priority, or the same priority and a more specific path
    (longer, then exact), and among routes of equal rank it is the one configured last; no
    route is selected only if none matches. *)
Theorem select_route_best s host path :
  let candidates := List.filter (λ r, route_matches r host path) (snap_routes s) in
  (∀ r, select_route s host path = Some r
        ↔ last_greatest route_key_le (route_key path) candidates r)
  ∧ (select_route s host path = None ↔ ∀ r, r ∈ snap_routes s → route_matches r host path = false)
  ∧ (∀ r, select_route s host path = Some r →
       route_enabled r = true
       ∧ ∀ r', r' ∈ snap_routes s → route_matches r' host path = true →
           (route_priority r' < route_priority r)%Z
           ∨ route_priority r' = route_priority r
             ∧ specificity_le (best_path_specificity (route_match r') path)
                 (best_path_specificity (route_match r) path) = true).
Proof.
  intros candidates. unfold select_route. fold candidates.
  pose proof (max_by_iff route_key_le (route_key path) route_key_le_total route_key_le_trans
    candidates) as Hiff. split_and!; [done|..].
  - pose proof (max_by_spec route_key_le (route_key path) route_key_le_total route_key_le_trans
      candidates) as Hm. split.
    + intros He. rewrite He in Hm. intros r Hr%list_elem_of_In. apply not_true_iff_false. intros Hmr.
      assert (Hin : In r candidates) by by apply List.filter_In. by rewrite Hm in Hin.
    + intros Hno. destruct (max_by _ _ candidates) as [r|] eqn:E; [|done].
      destruct (proj1 (Hiff r) eq_refl) as (pre & post & Heq & _).
      assert (Hin : In r candidates) by (rewrite Heq; apply in_elt).
      apply List.filter_In in Hin as [Hin Hr]. rewrite Hno in Hr; [done|by apply list_elem_of_In].
  - intros r (pre & post & Heq & Hpre & Hpost)%Hiff.
    assert (Hin : In r candidates) by (rewrite Heq; apply in_elt).
    apply List.filter_In in Hin as [_ Hr]. apply andb_true_iff in Hr as [Hen _]. split; [done|].
    intros r' Hr' Hm'. assert (Hin' : r' ∈ candidates).
    { apply list_elem_of_In, List.filter_In. by split; [apply list_elem_of_In|]. }
    assert (Hle : route_key_le (route_key path r') (route_key path r) = true).
    { rewrite Heq in Hin'. apply elem_of_app in Hin' as [Hin'|Hin'].
      - rewrite list.Forall_forall in Hpre. by apply Hpre.
      - apply elem_of_cons in Hin' as [->|Hin'].
        + destruct (route_key_le_total (route_key path r) (route_key path r)); done.
        + rewrite list.Forall_forall in Hpost. apply le_not_le; [apply route_key_le_total|].
          by apply Hpost. }
    unfold route_key_le, route_key in Hle. simpl in Hle. apply orb_true_iff in Hle as [Hle|Hle].
    + left. by apply Z.ltb_lt.
    + apply andb_true_iff in Hle as [He%Z.eqb_eq Hle]. auto.
Qed.

(** ** Request targets with a query *)
Definition items_route (m : PathMatch) : Route :=
  {| route_id := lit "r"; route_match := {| rm_hosts := [HostMatch_exact (lit "example.com")];
                                            rm_paths := [m] |};
     route_service_id := lit "s"; route_priority := 0; route_enabled := true;
     route_redirect_http_to_https := false; route_certificate_resolver_id := None;
     route_certificate_ref := None |}.

Definition items_snapshot (m : PathMatch) : ConfigSnapshot :=
  {| snap_schema_version := 1; snap_revision_id := lit "rev-1";
     snap_admin := {| admin_bind := lit "127.0.0.1:9443"; admin_auth_required := true |};
     snap_listeners := []; snap_routes := [items_route m]; snap_services := [];
     snap_certificate_resolvers := []; snap_log_mode := LogProduct;
     snap_runtime := {| opt_max_connections := 1024; opt_max_inflight_payload_bytes := 134217728;
                        opt_max_request_header_bytes := 16384;
                        opt_max_request_body_bytes := 1048576;
                        opt_upstream_read_timeout_ms := 30000;
                        opt_metrics := {| metrics_enabled := false; metrics_bind := [] |} |} |}.

(** routing compares the whole request target, query included, with the configured path: a
    request for [/items] is proxied by a route for (the prefix or exactly) [/items], while the
    same request with a query string, [/items?mode=fast], finds no route; a query after a
    deeper path is part of the last segment and does match the prefix. *)
Theorem query_string_not_routed :
  let proxied := ActionProxy (lit "r") (lit "s") in
  let act m target := select_http_route_action (items_snapshot m) (lit "example.com") (lit target) in
  let prefix := PathMatch_prefix (lit "/items") in
  let exact := PathMatch_exact (lit "/items") in
  act prefix "/items" = proxied ∧ act exact "/items" = proxied
  ∧ act prefix "/items?mode=fast" = ActionNotFound
  ∧ act exact "/items?mode=fast" = ActionNotFound
  ∧ act prefix "/items/1?mode=fast" = proxied.
Proof. vm_compute. repeat split; reflexivity. Qed.
