(* ===== verification/HttpForwarding.v ===== *)
(** * Forwarding requests and responses

    crates/edge-core/src/http_forwarding_policy.rs: hop-by-hop header removal for requests
    and (incrementally) for responses, forwarded headers, upgrade detection; and the part of
    crates/edge-core/src/lib.rs that writes the upstream request
    ([build_upstream_request_with_host_override_and_connection_close] and its length
    planning) and the proxy's own error responses. *)

From stdpp Require Import base gmap strings list numbers.
From Stdlib Require Import Strings.Byte NArith Lia.
From S2P Require Import Prelude Errors RustStr HttpRequest ResponseFraming Endpoint.
Local Open Scope N_scope.

(** ** Header policy *)
Definition connection_header_tokens (headers : list Header) : list (list byte) :=
  concat ((λ header, (λ value, to_ascii_lowercase (trim value))
                       <$> split_byte COMMA (header_value header))
            <$> List.filter (header_is (lit "Connection")) headers).

Definition hop_by_hop_names : list (list byte) :=
  [lit "connection"; lit "keep-alive"; lit "proxy-authenticate"; lit "proxy-authorization";
   lit "proxy-connection"; lit "te"; lit "trailer"; lit "transfer-encoding"; lit "upgrade"].
Definition is_hop_by_hop_header_name (name : list byte) : bool :=
  bool_decide (name ∈ hop_by_hop_names).

Definition is_end_to_end (connection_tokens : list (list byte)) (name : list byte) : bool :=
  negb (is_hop_by_hop_header_name name) && negb (bool_decide (name ∈ connection_tokens)).

Definition remove_hop_by_hop_headers (headers : list Header) : list Header :=
  let connection_tokens := connection_header_tokens headers in
  List.filter (λ header, is_end_to_end connection_tokens
                           (to_ascii_lowercase (header_name header))) headers.

Definition upstream_request_headers (headers : list Header) (preserve_upgrade : bool)
  : list Header :=
  if negb preserve_upgrade then remove_hop_by_hop_headers headers
  else
    let connection_tokens := connection_header_tokens headers in
    List.filter
      (λ header,
         let name := to_ascii_lowercase (header_name header) in
         (bool_decide (name = lit "upgrade")
          && eq_ignore_ascii_case (trim (header_value header)) (lit "websocket"))
         || is_end_to_end connection_tokens name) headers
    ++ [{| header_name := lit "Connection"; header_value := lit "Upgrade" |}].

Definition forwarded_headers (client_ip scheme host : list byte) : list Header :=
  [{| header_name := lit "X-Forwarded-For"; header_value := client_ip |};
   {| header_name := lit "X-Forwarded-Proto"; header_value := scheme |};
   {| header_name := lit "X-Forwarded-Host"; header_value := host |}].

Definition is_websocket_upgrade (request : HttpRequest) : bool :=
  existsb (λ header, existsb (λ token, eq_ignore_ascii_case (trim token) (lit "upgrade"))
                       (split_byte COMMA (header_value header)))
    (List.filter (header_is (lit "Connection")) (req_headers request))
  && existsb (λ header, eq_ignore_ascii_case (trim (header_value header)) (lit "websocket"))
       (List.filter (header_is (lit "Upgrade")) (req_headers request)).

Definition https_redirect_location (host path : list byte) : list byte :=
  lit "https://" ++ host ++ path.

(** ** The upstream request *)
Inductive IoErrorKind : Set := OutOfMemory | InvalidData.
Record IoError := IoError_new { io_kind : IoErrorKind; io_message : string }.

Definition resource_allocation_io_error (message : string) : IoError :=
  IoError_new OutOfMemory (ErrorCode_as_str ResourceAllocationFailed ++ ": " ++ message)%string.

(** [try_fold(0, checked_add)] *)
Definition wire_length_step (total : result IoError N) (part : N) : result IoError N :=
  let? total := total in
  ok_or (checked_add USIZE_MAX total part)
    (resource_allocation_io_error "upstream wire length overflowed").
Definition checked_wire_length (parts : list N) : result IoError N :=
  foldl wire_length_step (Ok 0) parts.

Fixpoint planned_header_len (total : N) (headers : list Header) : result IoError N :=
  match headers with
  | [] => Ok total
  | header :: rest =>
      let? total := checked_wire_length
                      [total; len (header_name header); 2; len (header_value header); 2] in
      planned_header_len total rest
  end.

Definition connection_close_line : list byte := lit "Connection: close" ++ CRLF.

Definition planned_upstream_request_len_with_connection_close (request : HttpRequest)
    (request_path : list byte) (headers : list Header) (force_connection_close : bool)
  : result IoError N :=
  let? total := checked_wire_length
                  [len (req_method request); 1; len request_path; 1; len (req_version request);
                   2] in
  let? total := planned_header_len total headers in
  let? total := if force_connection_close
                then checked_wire_length [total; len connection_close_line] else Ok total in
  checked_wire_length [total; 2; len (req_body request)].

(** [headers.iter_mut().find(Host)] with the value replaced. *)
Fixpoint override_host (host : list byte) (headers : list Header) : list Header :=
  match headers with
  | [] => []
  | header :: rest =>
      if header_is (lit "Host") header
      then {| header_name := header_name header; header_value := host |} :: rest
      else header :: override_host host rest
  end.

Definition is_forwarded_name (name : list byte) : bool :=
  bool_decide (name ∈ [lit "x-forwarded-for"; lit "x-forwarded-proto"; lit "x-forwarded-host"]).

(** The headers of the upstream request. *)
Definition projected_headers (request : HttpRequest)
    (client_ip scheme original_host : list byte) (preserve_upgrade_headers : bool)
    (host_override : option (list byte)) : list Header :=
  let headers := upstream_request_headers (req_headers request) preserve_upgrade_headers in
  let headers := List.filter
                   (λ header, negb (is_forwarded_name (to_ascii_lowercase (header_name header))))
                   headers in
  let headers := headers ++ forwarded_headers client_ip scheme original_host in
  match host_override with
  | Some host => override_host host headers
  | None => headers
  end.

(** What an upstream promises the request writer ([trait UpstreamRequestTarget]). *)
Class UpstreamRequestTarget (T : Type) := join_request_path : T → list byte → list byte.
#[global] Instance endpoint_target : UpstreamRequestTarget UpstreamEndpoint := endpoint_join_path.
#[global] Instance http_endpoint_target : UpstreamRequestTarget HttpUpstreamEndpoint :=
  http_endpoint_join_path.

Section build.
Context `{Allocator W} `{UpstreamRequestTarget T}.

Definition build_upstream_request_with_host_override_and_connection_close
    (request : HttpRequest) (upstream : T) (client_ip scheme original_host : list byte)
    (preserve_upgrade_headers : bool) (host_override : option (list byte))
    (force_connection_close : bool) (w : W) : result IoError (list byte) * W :=
  let headers := projected_headers request client_ip scheme original_host
                   preserve_upgrade_headers host_override in
  let request_path := join_request_path upstream (req_path request) in
  match planned_upstream_request_len_with_connection_close request request_path headers
          force_connection_close with
  | Err e => (Err e, w)
  | Ok planned_len =>
      let (room, w) := try_reserve [] planned_len w in
      if negb room
      then (Err (resource_allocation_io_error "upstream wire reserve failed"), w)
      else
        let upstream_request :=
          req_method request ++ lit " " ++ request_path ++ lit " " ++ req_version request ++ CRLF
          ++ concat ((λ h, header_name h ++ lit ": " ++ header_value h ++ CRLF) <$> headers)
          ++ (if force_connection_close then connection_close_line else [])
          ++ CRLF ++ req_body request in
        if negb (len upstream_request =? planned_len)
        then (Err (IoError_new InvalidData
               "RESOURCE_ACCOUNTING_INVARIANT_FAILED: upstream wire length mismatch"), w)
        else (Ok upstream_request, w)
  end.
End build.

Definition tls_host_override (tls_policy : UpstreamTlsPolicy) : option (list byte) :=
  match tls_policy with
  | TlsDisabled => None
  | TlsServerAuthenticated _ http_host _ => Some http_host
  end.

Definition planned_selected_upstream_request_len_with_keep_alive (request : HttpRequest)
    (upstream : UpstreamEndpoint) (tls_policy : UpstreamTlsPolicy)
    (client_ip scheme original_host : list byte) (preserve_upgrade_headers keep_alive : bool)
  : result IoError N :=
  planned_upstream_request_len_with_connection_close request
    (join_request_path upstream (req_path request))
    (projected_headers request client_ip scheme original_host preserve_upgrade_headers
       (tls_host_override tls_policy))
    (negb preserve_upgrade_headers && negb keep_alive).

Definition build_selected_upstream_request_with_keep_alive `{Allocator W} (request : HttpRequest)
    (upstream : UpstreamEndpoint) (tls_policy : UpstreamTlsPolicy)
    (client_ip scheme original_host : list byte) (preserve_upgrade_headers keep_alive : bool)
    (w : W) : result IoError (list byte) * W :=
  match planned_selected_upstream_request_len_with_keep_alive request upstream tls_policy
          client_ip scheme original_host preserve_upgrade_headers keep_alive with
  | Err e => (Err e, w)
  | Ok planned_len =>
      let! output, w :=
        build_upstream_request_with_host_override_and_connection_close request upstream client_ip
          scheme original_host preserve_upgrade_headers (tls_host_override tls_policy)
          (negb preserve_upgrade_headers && negb keep_alive) w in
      if negb (len output =? planned_len)
      then (Err (IoError_new InvalidData
             "RESOURCE_ACCOUNTING_INVARIANT_FAILED: selected wire length mismatch"), w)
      else (Ok output, w)
  end.

(** ** The wire length is planned exactly *)
Lemma checked_wire_length_fold parts total :
  total + foldr N.add 0 parts ≤ USIZE_MAX →
  foldl wire_length_step (Ok total) parts = Ok (total + foldr N.add 0 parts).
Proof.
  revert total. induction parts as [|p parts IH]; intros total Hl.
  { cbn. by rewrite N.add_0_r. }
  cbn [foldl foldr] in *. unfold wire_length_step at 2.
  rewrite (proj2 (checked_add_Some USIZE_MAX total p (total + p))) by lia. cbn [ok_or].
  rewrite IH by lia. f_equal. lia.
Qed.

Lemma checked_wire_length_sum parts :
  foldr N.add 0 parts ≤ USIZE_MAX → checked_wire_length parts = Ok (foldr N.add 0 parts).
Proof. intros Hs. unfold checked_wire_length. by rewrite checked_wire_length_fold. Qed.

Definition header_wire (h : Header) : list byte :=
  header_name h ++ lit ": " ++ header_value h ++ CRLF.

Lemma header_wire_line h : header_wire h = wire_line h ++ CRLF.
Proof. unfold header_wire, wire_line. by rewrite <-!app_assoc. Qed.

Lemma planned_header_len_exact total headers :
  total + len (concat (header_wire <$> headers)) ≤ USIZE_MAX →
  planned_header_len total headers = Ok (total + len (concat (header_wire <$> headers))).
Proof.
  revert total. induction headers as [|h headers IH]; intros total Hl.
  { simpl. by rewrite len_nil, N.add_0_r. }
  rewrite fmap_cons in *. cbn [concat planned_header_len] in *. rewrite len_app in Hl.
  assert (Hh : len (header_wire h) = len (header_name h) + 2 + len (header_value h) + 2).
  { unfold header_wire. rewrite !len_app. change (len (lit ": ")) with 2. change (len CRLF) with 2. lia. }
  rewrite checked_wire_length_sum; simpl; rewrite ?N.add_0_r; [|lia].
  rewrite IH by lia. f_equal. rewrite len_app. lia.
Qed.

(** The bytes of an upstream request. *)
Definition upstream_wire (request : HttpRequest) (request_path : list byte) (headers : list Header)
    (force_connection_close : bool) : list byte :=
  req_method request ++ lit " " ++ request_path ++ lit " " ++ req_version request ++ CRLF
  ++ concat (header_wire <$> headers)
  ++ (if force_connection_close then connection_close_line else []) ++ CRLF ++ req_body request.

Lemma planned_len_exact request path headers close :
  len (upstream_wire request path headers close) ≤ USIZE_MAX →
  planned_upstream_request_len_with_connection_close request path headers close
  = Ok (len (upstream_wire request path headers close)).
Proof.
  unfold upstream_wire, planned_upstream_request_len_with_connection_close. rewrite !len_app.
  change (len (lit " ")) with 1. change (len CRLF) with 2.
  set (c := len connection_close_line).
  assert (Hc : len (if close then connection_close_line else []) = if close then c else 0)
    by by destruct close.
  rewrite Hc. clear Hc. clearbody c. intros Hl.
  rewrite checked_wire_length_sum by (cbn [foldr]; destruct close; lia).
  rewrite planned_header_len_exact by (cbn [foldr]; destruct close; lia). cbn [foldr].
  destruct close; rewrite !checked_wire_length_sum by (cbn [foldr]; lia); cbn [foldr]; f_equal; lia.
Qed.

Section build_exact.
Context `{Allocator W} `{UpstreamRequestTarget T}.

Lemma build_exact request (upstream : T) client_ip scheme host preserve override close w :
  let wire := upstream_wire request (join_request_path upstream (req_path request))
                (projected_headers request client_ip scheme host preserve override) close in
  len wire ≤ USIZE_MAX →
  ∃ w', build_upstream_request_with_host_override_and_connection_close request upstream client_ip
          scheme host preserve override close w
        = ((if (try_reserve [] (len wire) w).1 then Ok wire
            else Err (resource_allocation_io_error "upstream wire reserve failed")), w').
Proof using Type.
  intros wire Hl. unfold build_upstream_request_with_host_override_and_connection_close.
  rewrite planned_len_exact by done. fold wire.
  destruct (try_reserve [] (len wire) w) as [room w'] eqn:Hr. exists w'. simpl.
  destruct room; simpl; [|done].
  change (req_method request ++ _) with wire. by rewrite N.eqb_refl.
Qed.
End build_exact.

(** ** What is forwarded *)
Lemma header_is_lower n h :
  header_is n h = bool_decide (to_ascii_lowercase (header_name h) = to_ascii_lowercase n).
Proof. done. Qed.

(** A value that may stand in a header field. *)
Record field_value_ok (v : list byte) : Prop := {
  fv_control : contains_prohibited_http_field_value_control v = false;
  fv_trimmed : trim v = v;
  fv_utf8 : utf8_valid v = true
}.

Lemma header_wf_of name v : is_http_token name = true → field_value_ok v →
  header_wf {| header_name := name; header_value := v |}.
Proof. intros ? []. by constructor. Qed.

Lemma override_host_In host headers h :
  h ∈ override_host host headers →
  h ∈ headers ∨ ∃ h0, h0 ∈ headers ∧ header_is (lit "Host") h0 = true
                      ∧ h = {| header_name := header_name h0; header_value := host |}.
Proof.
  induction headers as [|x headers IH]; [by intros ?%elem_of_nil|]. cbn [override_host].
  destruct (header_is (lit "Host") x) eqn:Hx; intros [->|Hin]%elem_of_cons.
  - right. exists x. set_solver.
  - left. set_solver.
  - left. set_solver.
  - destruct (IH Hin) as [?|(h0 & ? & ? & ?)]; [left; set_solver|right; exists h0; set_solver].
Qed.

(** Overriding the host changes nothing else. *)
Lemma override_host_other n host headers h :
  to_ascii_lowercase n ≠ lit "host" →
  header_is n h = true → (h ∈ override_host host headers ↔ h ∈ headers).
Proof.
  intros Hn Hh. induction headers as [|x headers IH]; [done|]. cbn [override_host].
  destruct (header_is (lit "Host") x) eqn:Hx; rewrite !elem_of_cons, ?IH; [|done].
  assert (∀ y, header_is n y = true → header_is (lit "Host") y = true → False) as Hno.
  { intros y Hy1 Hy2. unfold header_is, eq_ignore_ascii_case in *.
    apply bool_decide_eq_true in Hy1, Hy2. change (to_ascii_lowercase (lit "Host")) with (lit "host") in Hy2.
    congruence. }
  split; intros [->|?]; auto; exfalso; eapply (Hno _ Hh); done.
Qed.

Lemma override_host_filter host headers :
  List.filter (header_is (lit "Host")) (override_host host headers)
  = match List.filter (header_is (lit "Host")) headers with
    | [] => []
    | h :: rest => {| header_name := header_name h; header_value := host |} :: rest
    end.
Proof.
  induction headers as [|x headers IH]; [done|]. cbn [override_host List.filter].
  destruct (header_is (lit "Host") x) eqn:Hx.
  - cbn [List.filter]. change (header_is (lit "Host") {| header_name := header_name x; header_value := host |})
      with (header_is (lit "Host") x). by rewrite Hx.
  - cbn [List.filter]. by rewrite Hx, IH.
Qed.

Lemma filter_filter_keep {A} (f g : A → bool) l :
  (∀ x, f x = true → g x = true) → List.filter f (List.filter g l) = List.filter f l.
Proof.
  intros H. induction l as [|x l IH]; [done|]. cbn [List.filter].
  destruct (g x) eqn:Hg; cbn [List.filter]; [by rewrite IH|].
  rewrite IH. destruct (f x) eqn:Hf; [|done]. rewrite H in Hg; done.
Qed.

Section forward.
Context (r : HttpRequest) (client_ip scheme original_host : list byte) (preserve : bool).
Context (override : option (list byte)).
Context (Hwf : request_wf r).
Context (Hip : field_value_ok client_ip) (Hscheme : field_value_ok scheme).
Context (Hhost : field_value_ok original_host).
Context (Hover : match override with Some h => field_value_ok h ∧ h ≠ [] | None => True end).

Definition kept : list Header :=
  List.filter (λ h, negb (is_forwarded_name (to_ascii_lowercase (header_name h))))
    (upstream_request_headers (req_headers r) preserve).

Lemma projected_unfold :
  projected_headers r client_ip scheme original_host preserve override
  = match override with
    | Some host => override_host host (kept ++ forwarded_headers client_ip scheme original_host)
    | None => kept ++ forwarded_headers client_ip scheme original_host
    end.
Proof using Type. done. Qed.

Lemma kept_In h :
  h ∈ kept ↔
  (h ∈ req_headers r ∨ preserve = true ∧ h = {| header_name := lit "Connection"; header_value := lit "Upgrade" |})
  ∧ is_forwarded_name (to_ascii_lowercase (header_name h)) = false
  ∧ (is_end_to_end (connection_header_tokens (req_headers r)) (to_ascii_lowercase (header_name h)) = true
     ∨ preserve = true
       ∧ (to_ascii_lowercase (header_name h) = lit "upgrade"
          ∧ eq_ignore_ascii_case (trim (header_value h)) (lit "websocket") = true
          ∨ h = {| header_name := lit "Connection"; header_value := lit "Upgrade" |})).
Proof using Type.
  unfold kept, upstream_request_headers, remove_hop_by_hop_headers.
  rewrite list_elem_of_In, List.filter_In, negb_true_iff, <-list_elem_of_In.
  destruct preserve; simpl negb; cbv iota.
  - rewrite elem_of_app, list_elem_of_singleton, list_elem_of_In, List.filter_In, <-list_elem_of_In.
    rewrite orb_true_iff, andb_true_iff, bool_decide_eq_true. naive_solver.
  - rewrite list_elem_of_In, List.filter_In, <-list_elem_of_In. naive_solver.
Qed.

Lemma kept_wf : Forall header_wf kept.
Proof using Hwf.
  apply list.Forall_forall. intros h [[Hh|[_ ->]] _]%kept_In.
  - pose proof (rw_headers _ Hwf) as H. rewrite list.Forall_forall in H. by apply H.
  - constructor; vm_compute; reflexivity.
Qed.

Lemma projected_wf :
  Forall header_wf (projected_headers r client_ip scheme original_host preserve override).
Proof using Hwf Hip Hscheme Hhost Hover.
  assert (Hall : Forall header_wf (kept ++ forwarded_headers client_ip scheme original_host)).
  { apply Forall_app. split; [apply kept_wf|].
    repeat apply Forall_cons; try apply Forall_nil; (apply header_wf_of; [vm_compute; reflexivity|done]). }
  rewrite projected_unfold. destruct override as [host|]; [|done].
  rewrite list.Forall_forall in Hall |- *. intros h [Hh|(h0 & Hh0 & _ & ->)]%override_host_In; [by apply Hall|].
  apply header_wf_of; [apply (Hall _ Hh0)|apply Hover].
Qed.

(** End-to-end headers the client may not name in [Connection]. *)
Definition tokens : list (list byte) := connection_header_tokens (req_headers r).

Lemma kept_filter n :
  is_hop_by_hop_header_name (to_ascii_lowercase n) = false →
  is_forwarded_name (to_ascii_lowercase n) = false → to_ascii_lowercase n ∉ tokens →
  List.filter (header_is n) kept = List.filter (header_is n) (req_headers r).
Proof using Type.
  intros Hhop Hfwd Htok. unfold kept. rewrite filter_filter_keep.
  2:{ intros x Hx. rewrite header_is_lower in Hx. apply bool_decide_eq_true in Hx as ->. by rewrite Hfwd. }
  assert (He : ∀ x, header_is n x = true →
    is_end_to_end tokens (to_ascii_lowercase (header_name x)) = true).
  { intros x Hx. rewrite header_is_lower in Hx. apply bool_decide_eq_true in Hx as ->.
    unfold is_end_to_end. rewrite Hhop. by rewrite bool_decide_false. }
  unfold upstream_request_headers, remove_hop_by_hop_headers. fold tokens. destruct preserve; simpl.
  - rewrite filter_app, filter_filter_keep by (intros x Hx; rewrite (He x Hx); by rewrite orb_true_r).
    cbn [List.filter]. destruct (header_is n _) eqn:Hc; [|by rewrite app_nil_r].
    rewrite header_is_lower in Hc. apply bool_decide_eq_true in Hc. simpl header_name in Hc.
    rewrite <-Hc in Hhop. vm_compute in Hhop. discriminate Hhop.
  - by apply filter_filter_keep.
Qed.

Lemma forwarded_filter n :
  is_forwarded_name (to_ascii_lowercase n) = false →
  List.filter (header_is n) (forwarded_headers client_ip scheme original_host) = [].
Proof using Type.
  intros Hfwd. unfold forwarded_headers. cbn [List.filter].
  assert (Hno : ∀ m v, is_forwarded_name (to_ascii_lowercase m) = true →
    header_is n {| header_name := m; header_value := v |} = false).
  { intros m v Hm. rewrite header_is_lower. apply bool_decide_eq_false. simpl. congruence. }
  by rewrite !Hno by (vm_compute; reflexivity).
Qed.

Lemma projected_host :
  lit "host" ∉ tokens →
  ∃ h, List.filter (header_is (lit "Host"))
         (projected_headers r client_ip scheme original_host preserve override) = [h]
       ∧ header_value h ≠ [].
Proof using Hwf Hover.
  intros Htok. destruct (rw_host _ Hwf) as (h & Hh & Hv).
  assert (Hbase : List.filter (header_is (lit "Host"))
    (kept ++ forwarded_headers client_ip scheme original_host) = [h]).
  { rewrite filter_app, kept_filter, forwarded_filter, app_nil_r by (done || vm_compute; reflexivity). done. }
  rewrite projected_unfold. destruct override as [host|]; [|by exists h].
  rewrite override_host_filter, Hbase. exists {| header_name := header_name h; header_value := host |}.
  split; [done|]. apply Hover.
Qed.

Lemma projected_content_length h :
  lit "content-length" ∉ tokens → header_is (lit "Content-Length") h = true →
  h ∈ projected_headers r client_ip scheme original_host preserve override ↔ h ∈ req_headers r.
Proof using Type.
  clear Hover. intros Htok Hh.
  assert (Hbase : h ∈ kept ++ forwarded_headers client_ip scheme original_host ↔ h ∈ req_headers r).
  { assert (∀ l, h ∈ l ↔ h ∈ List.filter (header_is (lit "Content-Length")) l) as Hf.
    { intros l. rewrite !list_elem_of_In, List.filter_In. tauto. }
    rewrite (Hf (_ ++ _)), (Hf (req_headers r)), filter_app, kept_filter, forwarded_filter, app_nil_r;
      done || vm_compute; reflexivity. }
  rewrite projected_unfold. destruct override as [host|]; [|done].
  rewrite (override_host_other (lit "Content-Length")); [done|vm_compute; discriminate|done].
Qed.

Lemma projected_no_transfer_encoding h :
  h ∈ projected_headers r client_ip scheme original_host preserve override →
  header_is (lit "Transfer-Encoding") h = false.
Proof using Type.
  clear Hover. assert (Hbase : ∀ x, x ∈ kept ++ forwarded_headers client_ip scheme original_host →
    header_is (lit "Transfer-Encoding") x = false).
  { intros x [Hx|Hx]%elem_of_app.
    - apply kept_In in Hx as (_ & _ & Hx). apply not_true_iff_false. intros Hte.
      rewrite header_is_lower in Hte. apply bool_decide_eq_true in Hte.
      destruct Hx as [Hx|[_ [[Hx _]| ->]]].
      + unfold is_end_to_end in Hx. rewrite Hte in Hx. discriminate Hx.
      + rewrite Hte in Hx. discriminate Hx.
      + discriminate Hte.
    - unfold forwarded_headers in Hx. rewrite !elem_of_cons, elem_of_nil in Hx.
      destruct Hx as [->|[->|[->|[]]]]; reflexivity. }
  rewrite projected_unfold. destruct override as [host|]; [|apply Hbase].
  intros [Hh|(h0 & Hh0 & Hn & ->)]%override_host_In; [by apply Hbase|].
  rewrite header_is_lower in *. simpl. apply bool_decide_eq_true in Hn. rewrite Hn. reflexivity.
Qed.

(** The request the upstream receives. *)
Definition forwarded_request (path : list byte) (close : bool) : HttpRequest :=
  {| req_method := req_method r; req_path := path; req_version := req_version r;
     req_headers := projected_headers r client_ip scheme original_host preserve override
                    ++ (if close then [{| header_name := lit "Connection";
                                          header_value := lit "close" |}] else []);
     req_body := req_body r |}.

Lemma upstream_wire_request path close :
  upstream_wire r path (projected_headers r client_ip scheme original_host preserve override) close
  = wire_request (forwarded_request path close).
Proof using Type.
  unfold upstream_wire, wire_request, forwarded_request. cbn [req_method req_path req_version req_headers req_body].
  rewrite fmap_app, concat_app, <-!app_assoc. do 6 f_equal. f_equal.
  - f_equal. apply list_fmap_ext. intros _ h _. apply header_wire_line.
  - destruct close; [|done]. cbn. done.
Qed.

(** A request target the parser accepts. *)
Record target_ok (p : list byte) : Prop := {
  to_nonempty : p ≠ [];
  to_space : has_whitespace p = false;
  to_control : contains_prohibited_request_target_control p = false;
  to_utf8 : utf8_valid p = true
}.

Lemma forwarded_request_wf path close :
  target_ok path → lit "host" ∉ tokens → lit "content-length" ∉ tokens →
  request_wf (forwarded_request path close).
Proof using Hwf Hip Hscheme Hhost Hover.
  intros [] Hth Htc.
  assert (Hextra : ∀ n h, h ∈ (if close then [{| header_name := lit "Connection";
    header_value := lit "close" |}] else []) → to_ascii_lowercase n ≠ lit "connection" → header_is n h = false).
  { intros n h Hh Hn. destruct close; [|by apply elem_of_nil in Hh].
    apply list_elem_of_singleton in Hh as ->. rewrite header_is_lower. apply bool_decide_eq_false.
    intros E. by rewrite <-E in Hn. }
  constructor; cbn [forwarded_request req_method req_path req_version req_headers req_body];
    try done; try apply Hwf.
  - apply Forall_app. split; [by apply projected_wf|]. destruct close; [|constructor].
    apply Forall_singleton. constructor; vm_compute; reflexivity.
  - rewrite filter_app. destruct projected_host as (h & -> & Hv); [done|]. exists h. split; [|done].
    destruct close; reflexivity.
  - pose proof (rw_framed _ Hwf) as [Hte Hcl Hdef]. constructor.
    + intros h Hh Hn. exfalso. apply elem_of_app in Hh as [Hh|Hh].
      * by rewrite (projected_no_transfer_encoding h Hh) in Hn.
      * rewrite (Hextra _ _ Hh) in Hn; [done|vm_compute; discriminate].
    + intros h Hh Hn. apply elem_of_app in Hh as [Hh|Hh].
      * apply Hcl; [|done]. by apply projected_content_length in Hh.
      * rewrite (Hextra _ _ Hh) in Hn; [done|vm_compute; discriminate].
    + intros Hno. apply Hdef. intros h Hh. apply not_true_iff_false. intros Hn.
      assert (header_is (lit "Content-Length") h = false); [|congruence].
      apply Hno, elem_of_app. left. by apply projected_content_length.
Qed.
End forward.

(** C5: forwarding preserves the framing of an accepted request, so an upstream that reads the
    forwarded bytes by the same grammar sees one request with the same method and body: writing
    the upstream request succeeds unless memory runs out (its length is planned exactly), and
    what is written parses, within limits it fits, to the client's request with the joined path
    and the projected headers.  The client must not name Host or Content-Length in Connection
    (see the next theorem), and the target, the forwarded values and the TLS host must be
    legal. *)
Theorem forwarding_preserves_framing `{Allocator W} `{UpstreamRequestTarget T}
    input limits r (upstream : T) client_ip scheme original_host preserve override close (w : W) :
  parse_http_request input limits = Ok r →
  lit "host" ∉ connection_header_tokens (req_headers r) →
  lit "content-length" ∉ connection_header_tokens (req_headers r) →
  field_value_ok client_ip → field_value_ok scheme → field_value_ok original_host →
  match override with Some h => field_value_ok h ∧ h ≠ [] | None => True end →
  target_ok (join_request_path upstream (req_path r)) →
  let r' := forwarded_request r client_ip scheme original_host preserve override
              (join_request_path upstream (req_path r)) close in
  len (wire_request r') ≤ USIZE_MAX →
  req_body r' = req_body r ∧ req_method r' = req_method r ∧ request_wf r'
  ∧ (∀ limits', request_fits limits' r' → parse_http_request (wire_request r') limits' = Ok r')
  ∧ ∃ w', build_upstream_request_with_host_override_and_connection_close r upstream client_ip
            scheme original_host preserve override close w
          = ((if (try_reserve [] (len (wire_request r')) w).1 then Ok (wire_request r')
              else Err (resource_allocation_io_error "upstream wire reserve failed")), w').
Proof.
  intros Hparse Hth Htc Hip Hsc Hho Hov Htarget r' Hlen.
  assert (Hr : request_wf r) by by eapply parse_sound_wf.
  assert (Hr' : request_wf r') by by apply forwarded_request_wf.
  split_and!; [done|done|done| |].
  - intros. by apply parse_wire_request.
  - unfold r' in *. rewrite <-upstream_wire_request in *. by apply build_exact.
Qed.

Definition example_upstream : UpstreamEndpoint :=
  {| ep_scheme := SchemeHttp; ep_host := lit "10.0.0.1"; ep_port := 80;
     ep_base_path := lit "/base"; ep_ipv6 := false |}.

Lemma field_value_ok_of v :
  negb (contains_prohibited_http_field_value_control v) && bool_decide (trim v = v) && utf8_valid v
  = true → field_value_ok v.
Proof.
  intros [[H1 H2]%andb_true_iff H3]%andb_true_iff. apply bool_decide_eq_true in H2.
  apply negb_true_iff in H1. by constructor.
Qed.

Lemma forwarding_preserves_framing_witness :
  let H := ample_memory in
  parse_http_request (wire_request request_example) HttpLimits_default = Ok request_example
  ∧ ∃ w', build_upstream_request_with_host_override_and_connection_close request_example
            example_upstream (lit "192.0.2.7") (lit "https") (lit "example.com") false None true ()
          = (Ok (wire_request (forwarded_request request_example (lit "192.0.2.7") (lit "https")
                   (lit "example.com") false None (lit "/base/a") true)), w').
Proof.
  intros H.
  assert (Hp : parse_http_request (wire_request request_example) HttpLimits_default
               = Ok request_example) by (vm_compute; reflexivity).
  split; [exact Hp|].
  refine (proj2 (proj2 (proj2 (proj2 (forwarding_preserves_framing _ _ request_example
    example_upstream (lit "192.0.2.7") (lit "https") (lit "example.com") false None true ()
    Hp _ _ _ _ _ _ _ _))))).
  - apply (bool_decide_unpack _). vm_compute. exact I.
  - apply (bool_decide_unpack _). vm_compute. exact I.
  - apply field_value_ok_of. vm_compute. reflexivity.
  - apply field_value_ok_of. vm_compute. reflexivity.
  - apply field_value_ok_of. vm_compute. reflexivity.
  - exact I.
  - constructor; vm_compute; try reflexivity; discriminate.
  - vm_compute. discriminate.
Defined.

(** A request whose [Connection] header names [Content-Length], with a second request as body. *)
Definition smuggled_request : HttpRequest :=
  {| req_method := lit "GET"; req_path := lit "/admin"; req_version := lit "HTTP/1.1";
     req_headers := [{| header_name := lit "Host"; header_value := lit "internal" |}];
     req_body := [] |}.

Definition smuggling_request : HttpRequest :=
  {| req_method := lit "POST"; req_path := lit "/a"; req_version := lit "HTTP/1.1";
     req_headers := [{| header_name := lit "Host"; header_value := lit "example.com" |};
                     {| header_name := lit "Connection"; header_value := lit "content-length" |};
                     {| header_name := lit "Content-Length"; header_value := lit "39" |}];
     req_body := wire_request smuggled_request |}.

(** naming Content-Length in Connection makes the proxy remove the field that delimits the body
    while it still sends the body.  The parser accepts the request below, whose body happens to be
    a request of its own; the bytes written to the (reused) upstream connection are a first
    request that ends without a body followed by that second request, which no client header or
    route decision of the proxy ever applied to. *)
Theorem connection_token_smuggles_request :
  let H := ample_memory in
  let wire := (build_upstream_request_with_host_override_and_connection_close smuggling_request
                 example_upstream (lit "192.0.2.7") (lit "https") (lit "example.com") false None
                 false ()).1 in
  parse_http_request (wire_request smuggling_request) HttpLimits_default = Ok smuggling_request
  ∧ ∃ first rest, wire = Ok (first ++ rest)
    ∧ (∃ r, parse_http_request first HttpLimits_default = Ok r ∧ req_body r = [])
    ∧ parse_http_request rest HttpLimits_default = Ok smuggled_request
    ∧ parse_http_request (first ++ rest) HttpLimits_default
      = Err (AppError_new HttpMalformedRequest "content length does not match body").
Proof.
  intros H wire. split; [vm_compute; reflexivity|].
  exists (wire_request
            {| req_method := lit "POST"; req_path := lit "/base/a"; req_version := lit "HTTP/1.1";
               req_headers :=
                 {| header_name := lit "Host"; header_value := lit "example.com" |}
                 :: forwarded_headers (lit "192.0.2.7") (lit "https") (lit "example.com");
               req_body := [] |}), (wire_request smuggled_request).
  split_and!; [vm_compute; reflexivity| |vm_compute; reflexivity..].
  eexists. split; [vm_compute; reflexivity|reflexivity].
Qed.

(** ** Trusted and hop-by-hop fields *)
Lemma override_host_filter_other n host headers :
  to_ascii_lowercase n ≠ lit "host" →
  List.filter (header_is n) (override_host host headers) = List.filter (header_is n) headers.
Proof.
  intros Hn. induction headers as [|x headers IH]; [done|]. cbn [override_host List.filter].
  destruct (header_is (lit "Host") x) eqn:Hx; cbn [List.filter]; [|by rewrite IH].
  assert (Hno : ∀ y, header_is (lit "Host") y = true → header_is n y = false).
  { intros y Hy. rewrite header_is_lower in *. apply bool_decide_eq_true in Hy. rewrite Hy.
    apply bool_decide_eq_false. intros E. apply Hn. by rewrite <-E. }
  by rewrite !Hno.
Qed.

Lemma kept_no_forwarded r preserve n :
  is_forwarded_name (to_ascii_lowercase n) = true → List.filter (header_is n) (kept r preserve) = [].
Proof.
  intros Hn. destruct (List.filter (header_is n) (kept r preserve)) as [|h l] eqn:E; [done|].
  assert (Hin : In h (List.filter (header_is n) (kept r preserve))) by (rewrite E; by left).
  apply List.filter_In in Hin as [Hin Hh]. apply list_elem_of_In, kept_In in Hin as (_ & Hf & _).
  rewrite header_is_lower in Hh. apply bool_decide_eq_true in Hh. rewrite Hh in Hf. congruence.
Qed.

Lemma projected_forwarded_filter r ip scheme host preserve override n :
  is_forwarded_name (to_ascii_lowercase n) = true →
  List.filter (header_is n) (projected_headers r ip scheme host preserve override)
  = List.filter (header_is n) (forwarded_headers ip scheme host).
Proof.
  intros Hn. rewrite projected_unfold.
  assert (Hbase : List.filter (header_is n) (kept r preserve ++ forwarded_headers ip scheme host)
    = List.filter (header_is n) (forwarded_headers ip scheme host)).
  { by rewrite filter_app, kept_no_forwarded. }
  destruct override as [h|]; [|done]. rewrite override_host_filter_other; [done|].
  intros E. rewrite E in Hn. discriminate Hn.
Qed.

(** the upstream can trust what the proxy adds and never sees connection-specific fields: the
    forwarded request has exactly one X-Forwarded-For, -Proto and -Host field, with the proxy's
    values, whatever fields of these names (in any case) the client sent; and no hop-by-hop field
    and no field named in the client's Connection header is forwarded, except the
    Connection/Upgrade pair of a WebSocket handshake. *)
Theorem forwarded_fields_trusted r ip scheme host preserve override :
  let headers := projected_headers r ip scheme host preserve override in
  List.filter (header_is (lit "X-Forwarded-For")) headers
    = [{| header_name := lit "X-Forwarded-For"; header_value := ip |}]
  ∧ List.filter (header_is (lit "X-Forwarded-Proto")) headers
    = [{| header_name := lit "X-Forwarded-Proto"; header_value := scheme |}]
  ∧ List.filter (header_is (lit "X-Forwarded-Host")) headers
    = [{| header_name := lit "X-Forwarded-Host"; header_value := host |}]
  ∧ ∀ h, h ∈ headers →
      let name := to_ascii_lowercase (header_name h) in
      name ∈ hop_by_hop_names ++ connection_header_tokens (req_headers r) →
      is_forwarded_name name = true
      ∨ preserve = true
        ∧ (h = {| header_name := lit "Connection"; header_value := lit "Upgrade" |}
           ∨ name = lit "upgrade"
             ∧ eq_ignore_ascii_case (trim (header_value h)) (lit "websocket") = true).
Proof.
  intros headers. unfold headers. rewrite !projected_forwarded_filter by (vm_compute; reflexivity).
  do 3 (split; [vm_compute; reflexivity|]). intros h Hh.
  set (name := to_ascii_lowercase (header_name h)). cbv zeta. intros Hname.
  assert (Hbase : ∀ x, x ∈ kept r preserve ++ forwarded_headers ip scheme host →
    to_ascii_lowercase (header_name x) = name →
    is_forwarded_name name = true ∨ preserve = true
      ∧ (x = {| header_name := lit "Connection"; header_value := lit "Upgrade" |}
         ∨ name = lit "upgrade" ∧ eq_ignore_ascii_case (trim (header_value x)) (lit "websocket") = true)).
  { intros x Hx Hn. apply elem_of_app in Hx as [Hx|Hx].
    - apply kept_In in Hx as (_ & _ & Hx). rewrite Hn in Hx. destruct Hx as [Hx|(Hp & Hx)].
      + exfalso. unfold is_end_to_end, is_hop_by_hop_header_name in Hx.
        apply andb_true_iff in Hx as [Hx1 Hx2]. apply negb_true_iff, bool_decide_eq_false in Hx1, Hx2.
        apply elem_of_app in Hname as [?|?]; done.
      + right. split; [done|]. destruct Hx as [Hx|Hx]; auto.
    - left. unfold forwarded_headers in Hx. rewrite !elem_of_cons, elem_of_nil in Hx.
      rewrite <-Hn. destruct Hx as [->|[->|[->|[]]]]; reflexivity. }
  rewrite projected_unfold in Hh. destruct override as [o|]; [|by apply Hbase].
  apply override_host_In in Hh as [Hh|(h0 & Hh0 & Hhost & ->)]; [by apply Hbase|].
  rewrite header_is_lower in Hhost. apply bool_decide_eq_true in Hhost.
  assert (Hname0 : name = lit "host") by exact Hhost. left. exfalso.
  rewrite Hname0 in Hbase. destruct (Hbase h0 Hh0 Hhost) as [Hf|(_ & [->|[Hu _]])];
    [discriminate Hf|discriminate Hhost|discriminate Hu].
Qed.
