(* ===== verification/Connection.v ===== *)
(** * Connections

    The life cycle of one proxied connection: the state table and time-out policy of
    crates/edge-core/src/connection_state.rs, the attempt tracker of upstream_attempt.rs, the
    output buffer of write_buffer.rs, the connection of connection_io.rs that ties them
    together with the request buffer of http_request.rs, and the read-interest rule of
    resource_admission_policy.rs.  The theorems follow the bytes: over any sequence of calls,
    what the client and the upstream were given is what was accepted for them, in order, and a
    retry never happens after a byte of a response. *)

From stdpp Require Import base strings list.
From Stdlib Require Import Strings.Byte.
From S2P Require Import Prelude Errors RustStr Resource HttpRequest.
Open Scope N_scope.

(** ** States and events *)
Inductive ConnectionState : Set :=
| Accepted | ReadingClientRequest | SelectingRoute | ConnectingUpstream
| HandshakingUpstreamTls | WritingUpstreamRequest | ReadingUpstreamResponse
| WritingClientResponse | TunnelingWebSocket | Draining | Closed | Failed.

#[global] Instance ConnectionState_eq_dec : EqDecision ConnectionState.
Proof. solve_decision. Defined.

Definition can_transition_to (self next : ConnectionState) : bool :=
  match self, next with
  | Accepted, ReadingClientRequest
  | Accepted, WritingClientResponse
  | ReadingClientRequest, SelectingRoute
  | ReadingClientRequest, WritingClientResponse
  | SelectingRoute, ConnectingUpstream
  | SelectingRoute, WritingClientResponse
  | ConnectingUpstream, WritingUpstreamRequest
  | ConnectingUpstream, HandshakingUpstreamTls
  | HandshakingUpstreamTls, WritingUpstreamRequest
  | HandshakingUpstreamTls, WritingClientResponse
  | ConnectingUpstream, WritingClientResponse
  | WritingUpstreamRequest, ReadingUpstreamResponse
  | WritingUpstreamRequest, WritingClientResponse
  | ReadingUpstreamResponse, WritingClientResponse
  | ReadingUpstreamResponse, TunnelingWebSocket
  | WritingClientResponse, ReadingClientRequest
  | WritingClientResponse, Draining
  | TunnelingWebSocket, Draining
  | _, Closed
  | _, Failed => true
  | _, _ => false
  end.

Record ConnectionInterest := {
  client_readable : bool;
  client_writable : bool;
  upstream_readable : bool;
  upstream_writable : bool
}.

Definition io_interest (s : ConnectionState) : ConnectionInterest :=
  let interest cr cw ur uw :=
    {| client_readable := cr; client_writable := cw;
       upstream_readable := ur; upstream_writable := uw |} in
  match s with
  | Accepted | ReadingClientRequest => interest true false false false
  | SelectingRoute | Draining | Closed | Failed => interest false false false false
  | ConnectingUpstream | WritingUpstreamRequest => interest false false false true
  | HandshakingUpstreamTls => interest false false true true
  | ReadingUpstreamResponse => interest false false true false
  | WritingClientResponse => interest false true false false
  | TunnelingWebSocket => interest true false true false
  end.

Inductive RouteSelectionTarget : Set := TargetProxy | TargetImmediateResponse | TargetWebSocketTunnel.

Inductive ConnectionEvent : Set :=
| ClientReadable | ClientWritable | ClientResponseCompleted
| UpstreamConnectReady | UpstreamTlsHandshakeStarted | UpstreamTlsEstablished
| UpstreamReadable | UpstreamWritable | RequestParsed
| RouteSelected (target : RouteSelectionTarget)
| TimeoutExpired | ClientClosed | UpstreamClosed | CommandShutdown | EventIoError.

Inductive ConnectionTimeoutKind : Set :=
| ClientIdle | UpstreamConnect | UpstreamTlsHandshake | UpstreamRead | ClientWrite.

Record ConnectionTimeoutDecision := {
  timeout_kind : ConnectionTimeoutKind;
  timeout_status_code : option N;
  timeout_reason : string;
  timeout_next_state : ConnectionState
}.

Definition timeout_decision_for_state (s : ConnectionState) : option ConnectionTimeoutDecision :=
  let decision kind status reason next :=
    Some {| timeout_kind := kind; timeout_status_code := status;
            timeout_reason := reason; timeout_next_state := next |} in
  match s with
  | Accepted | ReadingClientRequest =>
      decision ClientIdle (Some 408) "Request Timeout"%string WritingClientResponse
  | ConnectingUpstream =>
      decision UpstreamConnect (Some 504) "Gateway Timeout"%string WritingClientResponse
  | HandshakingUpstreamTls =>
      decision UpstreamTlsHandshake (Some 504) "Gateway Timeout"%string WritingClientResponse
  | WritingUpstreamRequest | ReadingUpstreamResponse =>
      decision UpstreamRead (Some 504) "Gateway Timeout"%string WritingClientResponse
  | WritingClientResponse =>
      decision ClientWrite None "Client Write Timeout"%string Failed
  | _ => None
  end.

(** ** The connection record

    A [ConnectionToken] is its number. *)
Record Connection := { conn_token : N; conn_state : ConnectionState }.

Definition set_conn_state (s : ConnectionState) (c : Connection) : Connection :=
  {| conn_token := conn_token c; conn_state := s |}.

Definition transition_to (next : ConnectionState) (c : Connection)
  : result AppError () * Connection :=
  if negb (can_transition_to (conn_state c) next)
  then (Err (AppError_new RuntimeCommandRejected "invalid connection state transition"), c)
  else (Ok tt, set_conn_state next c).

Definition handle_timeout (c : Connection) : option ConnectionTimeoutDecision * Connection :=
  match timeout_decision_for_state (conn_state c) with
  | None => (None, c)
  | Some decision => (Some decision, set_conn_state (timeout_next_state decision) c)
  end.

(** The table of [handle_event]: the state an event asks for. *)
Definition event_target (s : ConnectionState) (e : ConnectionEvent) : option ConnectionState :=
  match s, e with
  | _, EventIoError => Some Failed
  | _, ClientClosed | _, CommandShutdown => Some Closed
  | Accepted, ClientReadable => Some ReadingClientRequest
  | ReadingClientRequest, RequestParsed => Some SelectingRoute
  | SelectingRoute, RouteSelected TargetProxy => Some ConnectingUpstream
  | SelectingRoute, RouteSelected TargetImmediateResponse => Some WritingClientResponse
  | ConnectingUpstream, UpstreamConnectReady => Some WritingUpstreamRequest
  | ConnectingUpstream, UpstreamTlsHandshakeStarted => Some HandshakingUpstreamTls
  | HandshakingUpstreamTls, UpstreamTlsEstablished => Some WritingUpstreamRequest
  | WritingUpstreamRequest, UpstreamWritable => Some ReadingUpstreamResponse
  | ReadingUpstreamResponse, UpstreamReadable => Some WritingClientResponse
  | ReadingUpstreamResponse, RouteSelected TargetWebSocketTunnel => Some TunnelingWebSocket
  | WritingClientResponse, ClientResponseCompleted => Some ReadingClientRequest
  | WritingClientResponse, ClientWritable => Some Draining
  | Draining, UpstreamClosed => Some Closed
  | _, _ => None
  end.

Definition handle_event (e : ConnectionEvent) (c : Connection) : result AppError () * Connection :=
  match e with
  | TimeoutExpired =>
      match handle_timeout c with
      | (Some _, c) => (Ok tt, c)
      | (None, c) => (Err (AppError_new RuntimeCommandRejected
                             "no timeout policy for current connection state"), c)
      end
  | _ =>
      match event_target (conn_state c) e with
      | None => (Err (AppError_new RuntimeCommandRejected
                        "event is not valid for current connection state"), c)
      | Some next => transition_to next c
      end
  end.

(** ** The output buffer *)
Record WriteBuffer := { wb_bytes : list byte; wb_written : N }.

Definition WriteBuffer_new (bytes : list byte) : WriteBuffer :=
  {| wb_bytes := bytes; wb_written := 0 |}.
Definition WriteBuffer_default : WriteBuffer := WriteBuffer_new [].

Definition resource_allocation_error : AppError :=
  AppError_new ResourceAllocationFailed "managed buffer allocation failed".

(** [&self.bytes[self.written..]]; the slice is in range while [wb_ok] holds. *)
Definition wb_remaining (b : WriteBuffer) : list byte := drop (N.to_nat (wb_written b)) (wb_bytes b).
Definition wb_remaining_len (b : WriteBuffer) : N := len (wb_remaining b).
Definition wb_is_complete (b : WriteBuffer) : bool := len (wb_bytes b) <=? wb_written b.

Definition wb_advance (byte_count : N) (b : WriteBuffer) : N * WriteBuffer :=
  let advanced := N.min byte_count (wb_remaining_len b) in
  (advanced, {| wb_bytes := wb_bytes b; wb_written := wb_written b + advanced |}).

Definition wb_clear_if_complete (b : WriteBuffer) : bool * WriteBuffer :=
  if negb (wb_is_complete b) || (len (wb_bytes b) =? 0)
  then (false, b)
  else (true, {| wb_bytes := []; wb_written := 0 |}).

Definition wb_advance_and_clear_if_complete (byte_count : N) (b : WriteBuffer) : N * WriteBuffer :=
  let '(advanced, b) := wb_advance byte_count b in
  (advanced, (wb_clear_if_complete b).2).

Section buffer_allocation.
Context `{Allocator W}.

Definition wb_try_reserve_append (additional_bytes : N) (b : WriteBuffer) (w : W)
  : result AppError () * W :=
  match checked_add USIZE_MAX (len (wb_bytes b)) additional_bytes with
  | None => (Err resource_allocation_error, w)
  | Some _ =>
      match try_reserve (wb_bytes b) additional_bytes w with
      | (true, w) => (Ok tt, w)
      | (false, w) => (Err resource_allocation_error, w)
      end
  end.

Definition wb_try_append (chunk : list byte) (b : WriteBuffer) (w : W)
  : result AppError () * (WriteBuffer * W) :=
  match wb_try_reserve_append (len chunk) b w with
  | (Err e, w) => (Err e, (b, w))
  | (Ok _, w) => (Ok tt, ({| wb_bytes := wb_bytes b ++ chunk; wb_written := wb_written b |}, w))
  end.

Definition wb_try_replace_if_complete (bytes : list byte) (b : WriteBuffer) (w : W)
  : result AppError bool * (WriteBuffer * W) :=
  if negb (wb_is_complete b) then (Ok false, (b, w))
  else
    let additional := saturating_sub (len bytes) (len (wb_bytes b)) in
    match try_reserve (wb_bytes b) additional w with
    | (false, w) => (Err resource_allocation_error, (b, w))
    | (true, w) => (Ok true, ({| wb_bytes := bytes; wb_written := 0 |}, w))
    end.

End buffer_allocation.

(** ** One attempt at an upstream *)
Inductive UpstreamAttemptPhase : Set :=
| NotStarted | Writing | AwaitingResponse | ResponseStarted | Terminal.
#[global] Instance UpstreamAttemptPhase_eq_dec : EqDecision UpstreamAttemptPhase.
Proof. solve_decision. Defined.

Inductive UpstreamAttemptFailure : Set :=
| FailConnect | FailConnectTimeout | FailTlsHandshake | FailTlsHandshakeTimeout
| FailWrite | FailRead | FailReadTimeout | FailResetBeforeResponse | FailResetAfterResponse.

Inductive UpstreamAttemptTerminal : Set :=
| AttemptSucceeded
| AttemptFailed (failure : UpstreamAttemptFailure).

Record UpstreamAttemptProgress := {
  attempt_phase : UpstreamAttemptPhase;
  request_bytes_written : N;
  response_started : bool;
  attempt_terminal : option UpstreamAttemptTerminal
}.

Definition attempt_default : UpstreamAttemptProgress :=
  {| attempt_phase := NotStarted; request_bytes_written := 0;
     response_started := false; attempt_terminal := None |}.

Definition set_phase (p : UpstreamAttemptPhase) (a : UpstreamAttemptProgress)
  : UpstreamAttemptProgress :=
  {| attempt_phase := p; request_bytes_written := request_bytes_written a;
     response_started := response_started a; attempt_terminal := attempt_terminal a |}.

Definition invalid_upstream_attempt_transition : AppError :=
  AppError_new RuntimeCommandRejected "invalid upstream attempt transition".

Definition require_phase (expected : UpstreamAttemptPhase) (a : UpstreamAttemptProgress)
  : result AppError () :=
  if decide (attempt_phase a = expected) then Ok tt else Err invalid_upstream_attempt_transition.

Definition attempt_begin (a : UpstreamAttemptProgress) : result AppError () * UpstreamAttemptProgress :=
  match require_phase NotStarted a with
  | Err e => (Err e, a)
  | Ok _ => (Ok tt, set_phase Writing a)
  end.

Definition record_request_write (byte_count : N) (a : UpstreamAttemptProgress)
  : result AppError () * UpstreamAttemptProgress :=
  match require_phase Writing a with
  | Err e => (Err e, a)
  | Ok _ =>
      (Ok tt, {| attempt_phase := attempt_phase a;
                 request_bytes_written := saturating_add U64_MAX (request_bytes_written a) byte_count;
                 response_started := response_started a;
                 attempt_terminal := attempt_terminal a |})
  end.

Definition request_write_completed (a : UpstreamAttemptProgress)
  : result AppError () * UpstreamAttemptProgress :=
  match require_phase Writing a with
  | Err e => (Err e, a)
  | Ok _ => (Ok tt, set_phase AwaitingResponse a)
  end.

Definition is_receiving (p : UpstreamAttemptPhase) : bool :=
  match p with AwaitingResponse | ResponseStarted => true | _ => false end.

Definition record_response_bytes (byte_count : N) (a : UpstreamAttemptProgress)
  : result AppError () * UpstreamAttemptProgress :=
  if negb (is_receiving (attempt_phase a)) then (Err invalid_upstream_attempt_transition, a)
  else if 0 <? byte_count
  then (Ok tt, {| attempt_phase := ResponseStarted;
                  request_bytes_written := request_bytes_written a;
                  response_started := true; attempt_terminal := attempt_terminal a |})
  else (Ok tt, a).

Definition attempt_complete (terminal : UpstreamAttemptTerminal) (a : UpstreamAttemptProgress)
  : result AppError () * UpstreamAttemptProgress :=
  match attempt_terminal a with
  | Some _ => (Err invalid_upstream_attempt_transition, a)
  | None =>
      (Ok tt, {| attempt_phase := Terminal; request_bytes_written := request_bytes_written a;
                 response_started := response_started a; attempt_terminal := Some terminal |})
  end.

Definition attempt_succeed (a : UpstreamAttemptProgress)
  : result AppError () * UpstreamAttemptProgress :=
  if negb (is_receiving (attempt_phase a)) then (Err invalid_upstream_attempt_transition, a)
  else attempt_complete AttemptSucceeded a.

Definition attempt_fail (failure : UpstreamAttemptFailure) (a : UpstreamAttemptProgress)
  : result AppError () * UpstreamAttemptProgress :=
  if decide (attempt_phase a = Terminal) then (Err invalid_upstream_attempt_transition, a)
  else attempt_complete (AttemptFailed failure) a.

Definition upstream_failure_response_spec (failure : UpstreamAttemptFailure) : N * string :=
  match failure with
  | FailConnect | FailTlsHandshake | FailWrite | FailRead
  | FailResetBeforeResponse | FailResetAfterResponse => (502, "Bad Gateway"%string)
  | FailConnectTimeout | FailTlsHandshakeTimeout | FailReadTimeout => (504, "Gateway Timeout"%string)
  end.

Inductive UpstreamResponseFailureDisposition : Set := QueueSyntheticResponse | FailClose.

Definition upstream_response_failure_disposition (response_started : bool)
  : UpstreamResponseFailureDisposition :=
  if response_started then FailClose else QueueSyntheticResponse.

(** ** The buffered connection *)
Record HttpConnectionIo := {
  io_connection : Connection;
  io_attempt : UpstreamAttemptProgress;
  io_client_request : ClientRequestBuffer;
  io_upstream_write : WriteBuffer;
  io_client_write : WriteBuffer
}.

Definition io_state (io : HttpConnectionIo) : ConnectionState := conn_state (io_connection io).

Definition io_new (token : N) : HttpConnectionIo :=
  {| io_connection := {| conn_token := token; conn_state := Accepted |};
     io_attempt := attempt_default;
     io_client_request := ClientRequestBuffer_default;
     io_upstream_write := WriteBuffer_default;
     io_client_write := WriteBuffer_default |}.

Definition set_connection (c : Connection) (io : HttpConnectionIo) : HttpConnectionIo :=
  {| io_connection := c; io_attempt := io_attempt io; io_client_request := io_client_request io;
     io_upstream_write := io_upstream_write io; io_client_write := io_client_write io |}.
Definition set_attempt (a : UpstreamAttemptProgress) (io : HttpConnectionIo) : HttpConnectionIo :=
  {| io_connection := io_connection io; io_attempt := a; io_client_request := io_client_request io;
     io_upstream_write := io_upstream_write io; io_client_write := io_client_write io |}.
Definition set_client_request (b : ClientRequestBuffer) (io : HttpConnectionIo) : HttpConnectionIo :=
  {| io_connection := io_connection io; io_attempt := io_attempt io; io_client_request := b;
     io_upstream_write := io_upstream_write io; io_client_write := io_client_write io |}.
Definition set_upstream_write (b : WriteBuffer) (io : HttpConnectionIo) : HttpConnectionIo :=
  {| io_connection := io_connection io; io_attempt := io_attempt io;
     io_client_request := io_client_request io;
     io_upstream_write := b; io_client_write := io_client_write io |}.
Definition set_client_write (b : WriteBuffer) (io : HttpConnectionIo) : HttpConnectionIo :=
  {| io_connection := io_connection io; io_attempt := io_attempt io;
     io_client_request := io_client_request io;
     io_upstream_write := io_upstream_write io; io_client_write := b |}.

(** [self.connection.handle_event(e)], [self.connection.transition_to(s)] and a call on
    [self.upstream_attempt], in place. *)
Definition io_event (e : ConnectionEvent) (io : HttpConnectionIo) : result AppError () * HttpConnectionIo :=
  let '(r, c) := handle_event e (io_connection io) in (r, set_connection c io).
Definition io_transition (s : ConnectionState) (io : HttpConnectionIo)
  : result AppError () * HttpConnectionIo :=
  let '(r, c) := transition_to s (io_connection io) in (r, set_connection c io).
Definition on_attempt (f : UpstreamAttemptProgress → result AppError () * UpstreamAttemptProgress)
  (io : HttpConnectionIo) : result AppError () * HttpConnectionIo :=
  let '(r, a) := f (io_attempt io) in (r, set_attempt a io).

Definition invalid_connection_io_state : AppError :=
  AppError_new RuntimeCommandRejected "operation is not valid for current connection state".

Definition receive_client_bytes (chunk : list byte) (limits : HttpLimits) (io : HttpConnectionIo)
  : result AppError RequestReadOutcome * HttpConnectionIo :=
  let! _, io := (if decide (io_state io = Accepted) then io_event ClientReadable io
                 else (Ok tt, io)) in
  if negb (bool_decide (io_state io = ReadingClientRequest))
  then (Err invalid_connection_io_state, io)
  else
    let '(r, b) := buffer_push chunk limits (io_client_request io) in
    let io := set_client_request b io in
    match r with
    | Err e => (Err e, io)
    | Ok Incomplete => (Ok Incomplete, io)
    | Ok (Complete bytes) =>
        match parse_http_request bytes limits with
        | Err e => (Err e, io)
        | Ok _ =>
            let! _, io := io_event RequestParsed io in
            (Ok (Complete bytes), io)
        end
    end.

Definition begin_upstream_connect (io : HttpConnectionIo) : result AppError () * HttpConnectionIo :=
  let! _, io := io_event (RouteSelected TargetProxy) io in
  on_attempt attempt_begin io.

Definition upstream_connected (upstream_request : list byte) (io : HttpConnectionIo)
  : result AppError () * HttpConnectionIo :=
  let connected e := io_event e (set_upstream_write (WriteBuffer_new upstream_request) io) in
  match io_state io with
  | ConnectingUpstream => connected UpstreamConnectReady
  | HandshakingUpstreamTls => connected UpstreamTlsEstablished
  | _ => (Err invalid_connection_io_state, io)
  end.

Definition advance_upstream_write (byte_count : N) (io : HttpConnectionIo)
  : result AppError N * HttpConnectionIo :=
  if negb (bool_decide (io_state io = WritingUpstreamRequest))
  then (Err invalid_connection_io_state, io)
  else
    let '(advanced, b) := wb_advance byte_count (io_upstream_write io) in
    let io := set_upstream_write b io in
    let! _, io := on_attempt (record_request_write advanced) io in
    if wb_is_complete (io_upstream_write io) then
      let! _, io := on_attempt request_write_completed io in
      let! _, io := io_event UpstreamWritable io in
      (Ok advanced, set_upstream_write (wb_clear_if_complete (io_upstream_write io)).2 io)
    else (Ok advanced, io).

Definition receive_upstream_bytes `{Allocator W} (chunk : list byte) (io : HttpConnectionIo) (w : W)
  : result AppError N * (HttpConnectionIo * W) :=
  if negb (bool_decide (io_state io = ReadingUpstreamResponse))
  then (Err invalid_connection_io_state, (io, w))
  else
    match wb_try_append chunk (io_client_write io) w with
    | (Err e, (b, w)) => (Err e, (set_client_write b io, w))
    | (Ok _, (b, w)) =>
        match on_attempt (record_response_bytes (len chunk)) (set_client_write b io) with
        | (Err e, io) => (Err e, (io, w))
        | (Ok _, io) => (Ok (len chunk), (io, w))
        end
    end.

Definition finish_upstream_response (io : HttpConnectionIo) : result AppError () * HttpConnectionIo :=
  let! _, io := io_event UpstreamReadable io in
  on_attempt attempt_succeed io.

Definition fail_upstream_attempt (failure : UpstreamAttemptFailure) (io : HttpConnectionIo)
  : result AppError () * HttpConnectionIo := on_attempt (attempt_fail failure) io.

Definition prepare_upstream_retry (io : HttpConnectionIo) : result AppError () * HttpConnectionIo :=
  let retryable_state := match io_state io with
                         | ConnectingUpstream | WritingUpstreamRequest => true
                         | _ => false
                         end in
  if negb retryable_state || bool_decide (attempt_terminal (io_attempt io) = None)
  then (Err invalid_upstream_attempt_transition, io)
  else
    (Ok tt, {| io_connection := set_conn_state SelectingRoute (io_connection io);
               io_attempt := attempt_default;
               io_client_request := io_client_request io;
               io_upstream_write := WriteBuffer_default;
               io_client_write := io_client_write io |}).

Definition queue_client_response (response : list byte) (io : HttpConnectionIo)
  : result AppError () * HttpConnectionIo :=
  if negb (can_transition_to (io_state io) WritingClientResponse)
  then (Err invalid_connection_io_state, io)
  else io_transition WritingClientResponse (set_client_write (WriteBuffer_new response) io).

Definition advance_client_write (byte_count : N) (io : HttpConnectionIo)
  : result AppError N * HttpConnectionIo :=
  match io_state io with
  | ReadingUpstreamResponse | WritingClientResponse =>
      let '(advanced, b) := wb_advance byte_count (io_client_write io) in
      let b := if wb_is_complete b then (wb_clear_if_complete b).2 else b in
      (Ok advanced, set_client_write b io)
  | _ => (Err invalid_connection_io_state, io)
  end.

Definition finish_client_response (keep_alive : bool) (io : HttpConnectionIo)
  : result AppError () * HttpConnectionIo :=
  if negb (bool_decide (io_state io = WritingClientResponse))
     || negb (wb_is_complete (io_client_write io))
  then (Err invalid_connection_io_state, io)
  else if keep_alive then
    let! _, io := io_event ClientResponseCompleted io in
    (Ok tt, set_upstream_write WriteBuffer_default (set_attempt attempt_default io))
  else
    let! _, io := io_event ClientWritable io in
    (Ok tt, io).

(** ** Read interest under pressure *)
Inductive ResponseReadInterestAction : Set := InterestKeep | InterestPause | InterestResume.

Definition response_read_interest_action (pressure_state : ResourcePressureState)
  (connection_state : ConnectionState) (upstream_registered : bool)
  (buffered_client_output_bytes max_response_buffer_bytes : N) : ResponseReadInterestAction :=
  if negb (bool_decide (connection_state = ReadingUpstreamResponse)) then InterestKeep
  else
    let read_must_pause := negb (bool_decide (pressure_state = Normal))
      || (max_response_buffer_bytes <=? buffered_client_output_bytes) in
    match upstream_registered, read_must_pause with
    | true, true => InterestPause
    | false, false => InterestResume
    | true, false | false, true => InterestKeep
    end.

(** ** The life cycle *)
Definition is_over (s : ConnectionState) : bool :=
  match s with Closed | Failed => true | _ => false end.

Definition events_run (es : list ConnectionEvent) (c : Connection) : Connection :=
  foldl (λ c e, (handle_event e c).2) c es.

Lemma event_target_allowed s e s' :
  event_target s e = Some s' → can_transition_to s s' = true.
Proof. destruct s, e as [| | | | | | | | |[]| | | | |]; simpl; intros; by simplify_eq. Qed.

Lemma timeout_allowed s d :
  timeout_decision_for_state s = Some d → can_transition_to s (timeout_next_state d) = true.
Proof. destruct s; simpl; intros; by simplify_eq. Qed.

Lemma handle_event_cases e c :
  match handle_event e c with
  | (Ok _, c') => can_transition_to (conn_state c) (conn_state c') = true
                  ∧ conn_token c' = conn_token c
  | (Err _, c') => c' = c
  end.
Proof.
  assert (∀ o, o = event_target (conn_state c) e →
    match match o with
          | None => (Err (AppError_new RuntimeCommandRejected
                        "event is not valid for current connection state"), c)
          | Some next => transition_to next c
          end with
    | (Ok _, c') => can_transition_to (conn_state c) (conn_state c') = true
                    ∧ conn_token c' = conn_token c
    | (Err _, c') => c' = c
    end) as Hgen.
  { intros [s|] Ho; [|done]. symmetry in Ho. apply event_target_allowed in Ho.
    unfold transition_to. by rewrite Ho. }
  destruct e; try (by apply Hgen).
  unfold handle_event, handle_timeout.
  destruct (timeout_decision_for_state (conn_state c)) eqn:Ht; [|done].
  split; [by apply timeout_allowed|done].
Qed.

Lemma over_absorbing e c : is_over (conn_state c) = true → is_over (conn_state (handle_event e c).2) = true.
Proof. destruct c as [t []]; simpl; try done; destruct e; done. Qed.

(** The event handler moves a connection along the transition table and nowhere else: an
    accepted event takes an edge of [can_transition_to], a refused one changes nothing, the
    token never changes, and over any sequence of events a connection that is closed or failed
    stays so; a client that closes and a shutdown always succeed. *)
Theorem connection_lifecycle es c :
  (∀ e, match handle_event e c with
        | (Ok _, c') => can_transition_to (conn_state c) (conn_state c') = true
                        ∧ conn_token c' = conn_token c
        | (Err _, c') => c' = c
        end)
  ∧ (is_over (conn_state c) = true → is_over (conn_state (events_run es c)) = true)
  ∧ conn_state (events_run (es ++ [ClientClosed]) c) = Closed
  ∧ conn_state (events_run (es ++ [CommandShutdown]) c) = Closed.
Proof.
  split_and!.
  - intros e. apply handle_event_cases.
  - revert c. induction es as [|e es IH]; intros c Hc; [done|]. apply IH. by apply over_absorbing.
  - unfold events_run. rewrite foldl_app. simpl. by destruct (foldl _ c es) as [? []].
  - unfold events_run. rewrite foldl_app. simpl. by destruct (foldl _ c es) as [? []].
Qed.

(** ** The output buffer keeps the stream *)
Definition wb_ok (b : WriteBuffer) : Prop := wb_written b ≤ len (wb_bytes b).

Lemma wb_remaining_new bytes : wb_remaining (WriteBuffer_new bytes) = bytes.
Proof. done. Qed.

Lemma wb_ok_new bytes : wb_ok (WriteBuffer_new bytes).
Proof. unfold wb_ok. simpl. lia. Qed.

Lemma wb_remaining_len_eq b : wb_remaining_len b = len (wb_bytes b) - wb_written b.
Proof. unfold wb_remaining_len, wb_remaining, len. rewrite length_drop. lia. Qed.

Lemma wb_advance_spec n b k b' :
  wb_ok b → wb_advance n b = (k, b') →
  wb_ok b' ∧ k = N.min n (wb_remaining_len b)
  ∧ take (N.to_nat k) (wb_remaining b) ++ wb_remaining b' = wb_remaining b.
Proof.
  unfold wb_advance, wb_ok. intros Hb H. simplify_eq/=. rewrite wb_remaining_len_eq.
  split_and!; [lia|done|].
  unfold wb_remaining. cbn [wb_bytes wb_written]. rewrite N2Nat.inj_add, <-drop_drop.
  apply take_drop.
Qed.

Lemma wb_complete_remaining b : wb_is_complete b = true → wb_remaining b = [].
Proof.
  unfold wb_is_complete, wb_remaining, len. intros H. nbool. apply drop_ge. lia.
Qed.

Lemma wb_clear_spec b :
  wb_ok b → wb_ok (wb_clear_if_complete b).2
  ∧ wb_remaining (wb_clear_if_complete b).2 = wb_remaining b.
Proof.
  unfold wb_clear_if_complete. intros Hb.
  destruct (negb (wb_is_complete b) || (len (wb_bytes b) =? 0)) eqn:E; [done|].
  nbool. split; [by apply wb_ok_new|]. by rewrite (wb_complete_remaining b).
Qed.

Lemma wb_append_spec `{Allocator W} chunk b (w : W) r b' w' :
  wb_ok b → wb_try_append chunk b w = (r, (b', w')) →
  wb_ok b' ∧ match r with
             | Ok _ => wb_remaining b' = wb_remaining b ++ chunk
             | Err _ => b' = b
             end.
Proof.
  unfold wb_try_append, wb_ok. intros Hb Ha.
  destruct (wb_try_reserve_append (len chunk) b w) as [[]]; simplify_eq/=; [|done].
  split; [len_lia|]. unfold wb_remaining. simpl. rewrite drop_app_le; [done|].
  unfold len in Hb. lia.
Qed.

(** ** The bytes of an exchange

    A connection together with what the runtime has done with it since the exchange began:
    the bytes accepted for the client, the ones its socket took, the request of the current
    attempt and the part of it the upstream's socket took, and whether a chunk was refused
    after it had been queued ([receive_upstream_bytes] appends before it asks the attempt). *)
(** All the bytes of the upstream that were queued for the client, in order; the response the
    runtime queued itself, which replaces what is queued at that moment; and what it replaced. *)
Record accepted := {
  ac_received : list byte;
  ac_answer : option (list byte);
  ac_replaced : list byte
}.
Definition nothing_accepted : accepted := {| ac_received := []; ac_answer := None; ac_replaced := [] |}.
Definition accept_more (chunk : list byte) (a : accepted) : accepted :=
  {| ac_received := ac_received a ++ chunk; ac_answer := ac_answer a; ac_replaced := ac_replaced a |}.
Definition answer_with (response queued : list byte) (a : accepted) : accepted :=
  {| ac_received := ac_received a; ac_answer := Some response; ac_replaced := ac_replaced a ++ queued |}.

(** What the client gets: the received bytes, or the part of them before the replaced ones
    followed by the answer. *)
Definition told (output : list byte) (a : accepted) : Prop :=
  match ac_answer a with
  | None => ac_replaced a = [] ∧ output = ac_received a
  | Some response => ∃ kept, ac_received a = kept ++ ac_replaced a ∧ output = kept ++ response
  end.
Lemma accept_nothing a : accept_more [] a = a.
Proof. destruct a. unfold accept_more. cbn. by rewrite app_nil_r. Qed.
Lemma told_more output chunk a : ac_answer a = None → told output a → told (output ++ chunk) (accept_more chunk a).
Proof. unfold told. cbn. intros ->. by intros [-> ->]. Qed.
Lemma told_answer delivered queued response a :
  ac_answer a = None → told (delivered ++ queued) a → told (delivered ++ response) (answer_with response queued a).
Proof. unfold told. cbn. intros ->. intros [-> <-]. by exists delivered. Qed.

Section exchange.
Context `{Allocator W}.

Record exchange := {
  ex_io : HttpConnectionIo;
  ex_memory : W;
  ex_accepted : accepted;
  ex_delivered : list byte;
  ex_refused : bool;
  ex_request : list byte;
  ex_sent : list byte
}.

(** The calls of the runtime on a connection. *)
Inductive io_op : Type :=
| OpReceiveClientBytes (chunk : list byte) (limits : HttpLimits)
| OpBeginUpstreamConnect
| OpUpstreamTlsHandshakeStarted
| OpUpstreamConnected (upstream_request : list byte)
| OpAdvanceUpstreamWrite (byte_count : N)
| OpReceiveUpstreamBytes (chunk : list byte)
| OpFinishUpstreamResponse
| OpFailUpstreamAttempt (failure : UpstreamAttemptFailure)
| OpPrepareUpstreamRetry
| OpQueueClientResponse (response : list byte)
| OpAdvanceClientWrite (byte_count : N)
| OpFinishClientResponse (keep_alive : bool)
| OpTunnel
| OpFail
| OpIoError.

Definition ex_update (io : HttpConnectionIo) (x : exchange) : exchange :=
  {| ex_io := io; ex_memory := ex_memory x; ex_accepted := ex_accepted x;
     ex_delivered := ex_delivered x; ex_refused := ex_refused x;
     ex_request := ex_request x; ex_sent := ex_sent x |}.

Definition ex_client (a : accepted) (delivered : list byte) (refused : bool) (x : exchange) : exchange :=
  {| ex_io := ex_io x; ex_memory := ex_memory x; ex_accepted := a;
     ex_delivered := delivered; ex_refused := refused;
     ex_request := ex_request x; ex_sent := ex_sent x |}.

Definition ex_upstream (request sent : list byte) (x : exchange) : exchange :=
  {| ex_io := ex_io x; ex_memory := ex_memory x; ex_accepted := ex_accepted x;
     ex_delivered := ex_delivered x; ex_refused := ex_refused x;
     ex_request := request; ex_sent := sent |}.

Definition is_refusal {A} (r : result AppError A) : bool :=
  match r with
  | Err e => bool_decide (e = invalid_upstream_attempt_transition)
  | Ok _ => false
  end.

Definition io_exec (op : io_op) (x : exchange) : exchange :=
  let io := ex_io x in
  match op with
  | OpReceiveClientBytes chunk limits => ex_update (receive_client_bytes chunk limits io).2 x
  | OpBeginUpstreamConnect =>
      let '(r, io) := begin_upstream_connect io in
      ex_update io (if is_ok r then ex_upstream [] [] x else x)
  | OpUpstreamTlsHandshakeStarted => ex_update (io_event UpstreamTlsHandshakeStarted io).2 x
  | OpUpstreamConnected request =>
      let '(r, io) := upstream_connected request io in
      ex_update io (if is_ok r then ex_upstream request [] x else x)
  | OpAdvanceUpstreamWrite n =>
      let taken := if decide (io_state io = WritingUpstreamRequest)
                   then take (N.to_nat n) (wb_remaining (io_upstream_write io)) else [] in
      ex_update (advance_upstream_write n io).2
        (ex_upstream (ex_request x) (ex_sent x ++ taken) x)
  | OpReceiveUpstreamBytes chunk =>
      let '(r, (io', w)) := receive_upstream_bytes chunk io (ex_memory x) in
      let refused := is_refusal r in
      let queued := if is_ok r || refused then chunk else [] in
      {| ex_io := io'; ex_memory := w; ex_accepted := accept_more queued (ex_accepted x);
         ex_delivered := ex_delivered x; ex_refused := ex_refused x || refused;
         ex_request := ex_request x; ex_sent := ex_sent x |}
  | OpFinishUpstreamResponse => ex_update (finish_upstream_response io).2 x
  | OpFailUpstreamAttempt failure => ex_update (fail_upstream_attempt failure io).2 x
  | OpPrepareUpstreamRetry => ex_update (prepare_upstream_retry io).2 x
  | OpQueueClientResponse response =>
      let '(r, io') := queue_client_response response io in
      ex_update io' (if is_ok r
                     then ex_client (answer_with response (wb_remaining (io_client_write io)) (ex_accepted x))
                            (ex_delivered x) (ex_refused x) x
                     else x)
  | OpAdvanceClientWrite n =>
      let '(r, io') := advance_client_write n io in
      let taken := if is_ok r then take (N.to_nat n) (wb_remaining (io_client_write io)) else [] in
      ex_update io' (ex_client (ex_accepted x) (ex_delivered x ++ taken) (ex_refused x) x)
  | OpFinishClientResponse keep_alive =>
      let '(r, io) := finish_client_response keep_alive io in
      ex_update io (if is_ok r && keep_alive then ex_client nothing_accepted [] false x else x)
  | OpTunnel => ex_update (io_transition TunnelingWebSocket io).2 x
  | OpFail => ex_update (io_transition Failed io).2 x
  | OpIoError => ex_update (io_event EventIoError io).2 x
  end.

Definition io_run (ops : list io_op) (x : exchange) : exchange := foldl (λ x op, io_exec op x) x ops.

Definition exchange_start (token : N) (w : W) : exchange :=
  {| ex_io := io_new token; ex_memory := w; ex_accepted := nothing_accepted; ex_delivered := [];
     ex_refused := false; ex_request := []; ex_sent := [] |}.

(** The phases an attempt can be in, by the connection's state. *)
Definition phase_allowed (s : ConnectionState) (p : UpstreamAttemptPhase) : bool :=
  match s, p with
  | _, Terminal => true
  | (Accepted | ReadingClientRequest | SelectingRoute), NotStarted => true
  | (ConnectingUpstream | HandshakingUpstreamTls | WritingUpstreamRequest), Writing => true
  | ReadingUpstreamResponse, (AwaitingResponse | ResponseStarted) => true
  | (Accepted | ReadingClientRequest | SelectingRoute | ConnectingUpstream
    | HandshakingUpstreamTls | WritingUpstreamRequest | ReadingUpstreamResponse), _ => false
  | _, _ => true
  end.

Definition counting (p : UpstreamAttemptPhase) : bool :=
  match p with Writing | AwaitingResponse | ResponseStarted => true | _ => false end.

(** No byte of a response can exist yet. *)
Definition before_response (s : ConnectionState) : bool :=
  match s with
  | Accepted | ReadingClientRequest | SelectingRoute | ConnectingUpstream
  | HandshakingUpstreamTls | WritingUpstreamRequest => true
  | _ => false
  end.

Record attempt_ok (s : ConnectionState) (a : UpstreamAttemptProgress) (sent : list byte) : Prop := {
  attempt_phase_ok : phase_allowed s (attempt_phase a) = true;
  attempt_fresh : attempt_phase a = NotStarted → a = attempt_default;
  attempt_terminal_ok : attempt_terminal a = None ↔ attempt_phase a ≠ Terminal;
  attempt_started_ok : response_started a = true →
    attempt_phase a = ResponseStarted ∨ attempt_phase a = Terminal;
  attempt_counts : counting (attempt_phase a) = true →
    request_bytes_written a = N.min U64_MAX (len sent)
}.

Record exchange_ok (x : exchange) : Prop := {
  ex_attempt : attempt_ok (io_state (ex_io x)) (io_attempt (ex_io x)) (ex_sent x);
  ex_wb_upstream : wb_ok (io_upstream_write (ex_io x));
  ex_wb_client : wb_ok (io_client_write (ex_io x));
  ex_client_stream : told (ex_delivered x ++ wb_remaining (io_client_write (ex_io x))) (ex_accepted x);
  ex_connecting : io_state (ex_io x) = ConnectingUpstream ∨ io_state (ex_io x) = HandshakingUpstreamTls →
    attempt_phase (io_attempt (ex_io x)) = Writing → ex_sent x = [];
  ex_upstream_stream : io_state (ex_io x) = WritingUpstreamRequest →
    ex_sent x ++ wb_remaining (io_upstream_write (ex_io x)) = ex_request x;
  ex_request_sent : io_state (ex_io x) = ReadingUpstreamResponse → ex_sent x = ex_request x;
  ex_before : before_response (io_state (ex_io x)) = true →
    response_started (io_attempt (ex_io x)) = false ∧ ex_refused x = false ∧ ex_accepted x = nothing_accepted;
  ex_unstarted : io_state (ex_io x) = ReadingUpstreamResponse →
    ac_answer (ex_accepted x) = None
    ∧ (response_started (io_attempt (ex_io x)) = false → ex_refused x = false → ex_accepted x = nothing_accepted)
}.

(** A step of the connection that keeps buffers and attempt. *)
Lemma move_ok x c :
  exchange_ok x →
  (conn_state c = io_state (ex_io x)
   ∨ before_response (conn_state c) = false ∧ conn_state c ≠ ReadingUpstreamResponse
   ∨ (io_state (ex_io x), conn_state c) ∈
       [(Accepted, ReadingClientRequest); (ReadingClientRequest, SelectingRoute);
        (ConnectingUpstream, HandshakingUpstreamTls)]) →
  exchange_ok (ex_update (set_connection c (ex_io x)) x).
Proof.
  intros [[] ? ? ? Hc ? ? Hb ?] Hmove. unfold io_state in *.
  destruct Hmove as [Hs|[[Hs Hr]|Hs]].
  - constructor; simpl in *; unfold io_state in *; simpl; by rewrite ?Hs.
  - constructor; simpl in *; unfold io_state in *; simpl; try done.
    + constructor; try done. destruct (conn_state c), (attempt_phase _); done.
    + intros [E|E]; rewrite E in Hs; done.
    + intros E; rewrite E in Hs; done.
    + rewrite Hs. done.
  - rewrite !elem_of_cons, elem_of_nil in Hs.
    destruct Hs as [E|[E|[E|[]]]]; injection E as E1 E2; rewrite E1 in *;
      constructor; simpl in *; unfold io_state in *; simpl; rewrite ?E2; try done;
      try (by intros [|]); try (by constructor).
    intros _. apply Hc. by left.
Qed.

(** The events that touch neither the attempt nor a buffer. *)
Definition quiet_event (e : ConnectionEvent) : bool :=
  match e with
  | ClientReadable | RequestParsed | UpstreamTlsHandshakeStarted | UpstreamReadable
  | EventIoError => true
  | _ => false
  end.

Lemma quiet_event_ok x e :
  quiet_event e = true → exchange_ok x → exchange_ok (ex_update (io_event e (ex_io x)).2 x).
Proof.
  intros He Hx. unfold io_event. destruct (handle_event e (io_connection (ex_io x))) as [r c] eqn:E.
  apply move_ok; [done|]. unfold io_state.
  destruct (io_connection (ex_io x)) as [t s]; destruct s, e; try discriminate He;
    simpl in E; unfold transition_to in E; simplify_eq/=;
    first [by left | by right; left | by right; right; rewrite !elem_of_cons; auto 10].
Qed.

Lemma transition_ok x s :
  before_response s = false → s ≠ ReadingUpstreamResponse →
  exchange_ok x → exchange_ok (ex_update (io_transition s (ex_io x)).2 x).
Proof.
  intros Hs Hr Hx. unfold io_transition, transition_to.
  destruct (negb _); apply move_ok; simpl; auto.
Qed.

Lemma client_request_ok x b :
  exchange_ok x → exchange_ok (ex_update (set_client_request b (ex_io x)) x).
Proof. by intros []. Qed.

Lemma receive_client_bytes_ok x chunk limits :
  exchange_ok x → exchange_ok (ex_update (receive_client_bytes chunk limits (ex_io x)).2 x).
Proof.
  intros Hx. unfold receive_client_bytes.
  set (first := if decide (io_state (ex_io x) = Accepted) then _ else _).
  assert (exchange_ok (ex_update first.2 x)) as Hf.
  { unfold first. case_decide; [by apply quiet_event_ok|]. by destruct Hx. }
  destruct first as [[|] io]; [|done]. destruct (negb _); [done|].
  destruct (buffer_push _ _ _) as [[[|bytes]|] b];
    pose proof (client_request_ok _ b Hf) as Hb; [done| |done].
  destruct (parse_http_request bytes limits); [|done].
  pose proof (quiet_event_ok _ RequestParsed eq_refl Hb) as Hq. simpl in Hq.
  by destruct (io_event _ _) as [[]].
Qed.

Lemma begin_upstream_connect_ok x :
  exchange_ok x → exchange_ok (io_exec OpBeginUpstreamConnect x).
Proof.
  intros [[Hp Hf Ht Hs Hn] ? ? ? Hc Hu Hr Hb Hun]. destruct x as [[[t s] a cr uw cw] w acc del ref req snt].
  unfold io_exec, begin_upstream_connect, io_event, io_state in *. simpl in *.
  destruct s; simpl; try (by constructor).
  unfold on_attempt, attempt_begin, require_phase. simpl.
  case_decide as Hd; simpl.
  - rewrite (Hf Hd) in *. by constructor.
  - assert (attempt_phase a = Terminal) as Ha by (destruct (attempt_phase a); done).
    constructor; simpl; rewrite ?Ha; try done.
    constructor; rewrite ?Ha; by rewrite ?Ha in *.
Qed.

Lemma upstream_connected_ok x request :
  exchange_ok x → exchange_ok (io_exec (OpUpstreamConnected request) x).
Proof.
  intros [[Hp Hf Ht Hs Hn] ? ? ? Hc Hu Hr Hb Hun]. destruct x as [[[t s] a cr uw cw] w acc del ref req snt].
  unfold io_exec, upstream_connected, io_event, io_state in *. simpl in *.
  assert (counting (attempt_phase a) = true → s = ConnectingUpstream ∨ s = HandshakingUpstreamTls →
          request_bytes_written a = N.min U64_MAX (len (@nil byte))) as Hnil.
  { intros Hcnt Hst. rewrite <-(Hc Hst); [by apply Hn|].
    destruct Hst as [->| ->], (attempt_phase a); done. }
  destruct s; simpl; try (by constructor); (constructor; simpl; try done; [|apply wb_ok_new];
    constructor; simpl; auto).
Qed.

Lemma take_min (n : N) (l : list byte) : take (N.to_nat (N.min n (len l))) l = take (N.to_nat n) l.
Proof.
  unfold len. destruct (N.le_gt_cases n (N.of_nat (length l))).
  - by rewrite N.min_l by lia.
  - rewrite N.min_r by lia. by rewrite Nat2N.id, !take_ge by lia.
Qed.

(** The count of the attempt follows the socket. *)
Lemma count_step (sent taken : list byte) :
  saturating_add U64_MAX (N.min U64_MAX (len sent)) (len taken) = N.min U64_MAX (len (sent ++ taken)).
Proof. unfold saturating_add. rewrite len_app. lia. Qed.

Lemma advance_upstream_write_ok x n :
  exchange_ok x → exchange_ok (io_exec (OpAdvanceUpstreamWrite n) x).
Proof.
  intros Hx. unfold io_exec, advance_upstream_write.
  case_bool_decide as Hst; cbn [negb]; cycle 1.
  { simpl. rewrite decide_False by done. rewrite app_nil_r. by destruct Hx. }
  rewrite decide_True by done.
  destruct Hx as [[Hp Hf Ht Hs Hn] Hwu Hwc Hcs Hc Hu Hr Hb Hun].
  destruct (wb_advance n (io_upstream_write (ex_io x))) as [k b] eqn:Ea.
  destruct (wb_advance_spec _ _ _ _ Hwu Ea) as (Hbok & Hk & Hrem).
  unfold wb_remaining_len in Hk. rewrite Hk, take_min in Hrem. specialize (Hu Hst).
  rewrite <-Hrem, app_assoc in Hu. set (taken := take (N.to_nat n) (wb_remaining _)) in *.
  assert (k = len taken) as Hlen.
  { unfold taken, len. rewrite length_take. unfold len in Hk. lia. }
  destruct x as [[[t s] a cr uw cw] w acc del ref req snt].
  unfold io_state in *. simpl in *. subst s. unfold on_attempt, record_request_write, require_phase. simpl.
  case_decide as Hph; simpl.
  - rewrite Hph in *. specialize (Hn eq_refl). rewrite Hn, Hlen, count_step.
    destruct (wb_is_complete b) eqn:Hcomp; simpl.
    + destruct (wb_clear_spec b Hbok) as [Hclr _]. rewrite (wb_complete_remaining b) in Hu by done.
      rewrite app_nil_r in Hu.
      unfold request_write_completed, require_phase. simpl.
      destruct (Hb eq_refl) as (? & ? & ->). constructor; simpl; try done.
      constructor; simpl; [done|done|by rewrite Ht|intros Hst; by destruct (Hs Hst)|done].
    + constructor; simpl; try done. by intros [|].
  - assert (attempt_phase a = Terminal) as Ha by (destruct (attempt_phase a); done).
    rewrite Ha in *. constructor; simpl; rewrite ?Ha; try done.
    by constructor; rewrite ?Ha.
Qed.

Lemma receive_upstream_bytes_ok x chunk :
  exchange_ok x → exchange_ok (io_exec (OpReceiveUpstreamBytes chunk) x).
Proof.
  intros Hx. unfold io_exec, receive_upstream_bytes.
  case_bool_decide as Hst; simpl; cycle 1.
  { rewrite orb_false_r, accept_nothing. by destruct Hx. }
  destruct Hx as [[Hp Hf Ht Hs Hn] Hwu Hwc Hcs Hc Hu Hr Hb Hun].
  destruct (wb_try_append _ _ _) as [r [b w]] eqn:Ea.
  destruct (wb_append_spec _ _ _ _ _ _ Hwc Ea) as [Hbok Hrem].
  destruct x as [[[t s] a cr uw cw] wx acc del ref req snt].
  unfold io_state in *. simpl in *. subst s. destruct (Hun eq_refl) as [Hna Hnone].
  destruct r as [[]|e]; cycle 1.
  { assert (e = resource_allocation_error) as ->.
    { unfold wb_try_append, wb_try_reserve_append in Ea. by repeat case_match; simplify_eq. }
    subst b. simpl. rewrite orb_false_r. rewrite accept_nothing.
    constructor; simpl; try done. }
  unfold on_attempt, record_response_bytes. simpl.
  destruct (is_receiving (attempt_phase a)) eqn:Hrec; simpl; cycle 1.
  - rewrite orb_true_r.
    assert (attempt_phase a = Terminal) as Ha by (destruct (attempt_phase a); done).
    constructor; simpl; try done. by rewrite Hrem, app_assoc; apply told_more.
  - destruct (N.ltb_spec 0 (len chunk)) as [Hl|Hl]; simpl; rewrite orb_false_r.
    + constructor; simpl; try done; [|by rewrite Hrem, app_assoc; apply told_more].
      constructor; simpl; try done; [|by left|intros _; apply Hn; by destruct (attempt_phase a)].
      rewrite Ht. by destruct (attempt_phase a).
    + assert (chunk = []) as -> by (apply len_zero; lia). rewrite app_nil_r in Hrem. rewrite accept_nothing.
      by constructor; simpl; rewrite ?Hrem.
Qed.

(** Ending the attempt keeps the invariant in every state. *)
Lemma attempt_end_ok s a sent t :
  attempt_ok s a sent → attempt_terminal a = None →
  attempt_ok s {| attempt_phase := Terminal; request_bytes_written := request_bytes_written a;
                  response_started := response_started a; attempt_terminal := Some t |} sent.
Proof. intros [] Ha. constructor; simpl; auto; try done. by destruct s. Qed.

Lemma on_attempt_end_ok x f :
  (∀ a, (f a).2 = a ∨ attempt_terminal a = None ∧ ∃ t,
     (f a).2 = {| attempt_phase := Terminal; request_bytes_written := request_bytes_written a;
                  response_started := response_started a; attempt_terminal := Some t |}) →
  exchange_ok x → exchange_ok (ex_update (on_attempt f (ex_io x)).2 x).
Proof.
  intros Hf Hx. unfold on_attempt. specialize (Hf (io_attempt (ex_io x))).
  destruct (f (io_attempt (ex_io x))) as [r a]; simpl in *. destruct Hx.
  destruct Hf as [->|(Hn & t & ->)]; constructor; simpl; try done.
  by apply attempt_end_ok.
Qed.

Lemma finish_upstream_response_ok x :
  exchange_ok x → exchange_ok (ex_update (finish_upstream_response (ex_io x)).2 x).
Proof.
  intros Hx. unfold finish_upstream_response.
  pose proof (quiet_event_ok x UpstreamReadable eq_refl Hx) as Hq.
  destruct (io_event UpstreamReadable (ex_io x)) as [[u|] io]; [|done].
  apply (on_attempt_end_ok _ attempt_succeed) in Hq; [done|].
  intros a. unfold attempt_succeed, attempt_complete.
  destruct (is_receiving (attempt_phase a)); [|by left]. simpl.
  destruct (attempt_terminal a); [by left|]. right. eauto.
Qed.

Lemma fail_upstream_attempt_ok x failure :
  exchange_ok x → exchange_ok (ex_update (fail_upstream_attempt failure (ex_io x)).2 x).
Proof.
  apply on_attempt_end_ok. intros a. unfold attempt_fail, attempt_complete.
  case_decide; [by left|]. destruct (attempt_terminal a); [by left|]. right. eauto.
Qed.

Lemma prepare_upstream_retry_ok x :
  exchange_ok x → exchange_ok (ex_update (prepare_upstream_retry (ex_io x)).2 x).
Proof.
  intros Hx. unfold prepare_upstream_retry.
  destruct (negb _ || _) eqn:E; [by destruct Hx|].
  destruct Hx as [? ? ? ? ? ? ? Hb ?]. destruct (io_state (ex_io x)) eqn:Es; try discriminate E;
    destruct (Hb eq_refl) as (? & ? & ?); constructor; simpl; try done; try (by constructor).
  all: try (by intros [|]); apply wb_ok_new.
Qed.

Lemma queue_client_response_ok x response :
  exchange_ok x → exchange_ok (io_exec (OpQueueClientResponse response) x).
Proof.
  intros Hx. unfold io_exec, queue_client_response, io_transition, transition_to.
  destruct (can_transition_to (io_state (ex_io x)) WritingClientResponse) eqn:E; simpl;
    [|by destruct Hx].
  unfold io_state in E. rewrite E. simpl.
  assert (exchange_ok (ex_update (set_connection (set_conn_state WritingClientResponse
    (io_connection (ex_io x))) (ex_io x)) x)) as Hm by (apply move_ok; [done|]; simpl; auto).
  assert (ac_answer (ex_accepted x) = None) as Hna.
  { destruct Hx as [? ? ? ? ? ? ? Hb Hun]. unfold io_state in *. destruct (conn_state (io_connection (ex_io x))); try discriminate E;
      first [by apply Hun | by destruct (Hb eq_refl) as (_ & _ & ->)]. }
  destruct Hm. constructor; simpl in *; try done; [apply wb_ok_new|]. by eapply told_answer.
Qed.

Lemma advance_client_write_ok x n :
  exchange_ok x → exchange_ok (io_exec (OpAdvanceClientWrite n) x).
Proof.
  intros Hx. unfold io_exec.
  assert (advance_client_write n (ex_io x) = (Err invalid_connection_io_state, ex_io x)
          ∨ ∃ k b, wb_advance n (io_client_write (ex_io x)) = (k, b)
            ∧ advance_client_write n (ex_io x)
              = (Ok k, set_client_write (if wb_is_complete b then (wb_clear_if_complete b).2 else b)
                         (ex_io x))) as [->|(k & b & Ha & ->)].
  { unfold advance_client_write. destruct (wb_advance n _) as [k b].
    destruct (io_state (ex_io x)); eauto. }
  { simpl. rewrite app_nil_r. by destruct Hx. }
  destruct Hx as [? ? Hwc Hcs ? ? ? Hb Hun].
  destruct (wb_advance_spec _ _ _ _ Hwc Ha) as (Hbok & Hk & Hrem).
  destruct (wb_clear_spec b Hbok) as [Hclr Hclr'].
  unfold wb_remaining_len in Hk. rewrite Hk, take_min in Hrem. simpl.
  constructor; simpl; try done; [by destruct (wb_is_complete b)|].
  rewrite <-app_assoc. destruct (wb_is_complete b); by rewrite ?Hclr', Hrem.
Qed.

Lemma finish_client_response_ok x keep_alive :
  exchange_ok x → exchange_ok (io_exec (OpFinishClientResponse keep_alive) x).
Proof.
  intros Hx. unfold io_exec, finish_client_response.
  case_bool_decide as Hst; simpl; [|by destruct Hx].
  destruct (wb_is_complete (io_client_write (ex_io x))) eqn:Hc; simpl; [|by destruct Hx].
  destruct x as [[[t s] a cr uw cw] w acc del ref req snt]. unfold io_state in Hst. simpl in *. subst s.
  destruct Hx as [? ? ? ? ? ? ? ? ?]; simpl in *. destruct keep_alive; simpl.
  - constructor; simpl; try done. by rewrite wb_complete_remaining.
  - constructor; simpl; try done; [by destruct ex_attempt0|by intros [|]].
Qed.

Lemma io_exec_ok op x : exchange_ok x → exchange_ok (io_exec op x).
Proof.
  destruct op; intros.
  - by apply receive_client_bytes_ok.
  - by apply begin_upstream_connect_ok.
  - by apply quiet_event_ok.
  - by apply upstream_connected_ok.
  - by apply advance_upstream_write_ok.
  - by apply receive_upstream_bytes_ok.
  - by apply finish_upstream_response_ok.
  - by apply fail_upstream_attempt_ok.
  - by apply prepare_upstream_retry_ok.
  - by apply queue_client_response_ok.
  - by apply advance_client_write_ok.
  - by apply finish_client_response_ok.
  - by apply transition_ok.
  - by apply transition_ok.
  - by apply quiet_event_ok.
Qed.

Lemma io_run_ok ops token w : exchange_ok (io_run ops (exchange_start token w)).
Proof.
  induction ops as [|op ops IH] using rev_ind.
  - by constructor.
  - unfold io_run in *. rewrite foldl_app. by apply io_exec_ok.
Qed.

(** C3: over any sequence of calls and any pattern of allocation failures, no byte is
    repeated or reordered, and the only bytes lost are the queued ones that a response of the
    proxy itself replaces.  In each exchange: without such a response, what the client's socket
    took, followed by what is still queued, is every chunk of the upstream that was queued,
    whole and in order; with one, it is those bytes up to the ones that were still queued when
    the response replaced them, followed by that response.  (A chunk for which there is no
    memory, or that comes when no response is read, is reported as an error and no byte of it
    is queued.)  The upstream's socket took a prefix of the
    attempt's request, all of it before a response byte is read; the attempt counts exactly the
    request bytes taken; and an exchange can only be finished once nothing is queued any more. *)
Theorem connection_streams_exact ops token w :
  let x := io_run ops (exchange_start token w) in
  let io := ex_io x in
  told (ex_delivered x ++ wb_remaining (io_client_write io)) (ex_accepted x)
  ∧ (io_state io = WritingUpstreamRequest →
     ex_sent x ++ wb_remaining (io_upstream_write io) = ex_request x)
  ∧ (io_state io = ReadingUpstreamResponse → ex_sent x = ex_request x)
  ∧ (counting (attempt_phase (io_attempt io)) = true →
     request_bytes_written (io_attempt io) = N.min U64_MAX (len (ex_sent x)))
  ∧ (∀ keep_alive, (finish_client_response keep_alive io).1 = Ok tt →
     told (ex_delivered x) (ex_accepted x)).
Proof.
  intros x io. destruct (io_run_ok ops token w) as [[] ? ? Hs ? ? ? ? ?].
  split_and!; try done. intros keep_alive Hfin. fold x io in Hs. rewrite wb_complete_remaining, app_nil_r in Hs; [done|].
  unfold finish_client_response in Hfin.
  by destruct (wb_is_complete (io_client_write io)), (negb (bool_decide (io_state io = _))).
Qed.

(** C8: an exchange is only started over while the client has seen nothing of it: a retry is
    accepted only when no byte of a response was received, queued or delivered.  And when the
    failure policy answers with a response of the proxy itself, that response is all the client
    gets, provided that no chunk was refused before: [receive_upstream_bytes] queues a chunk
    before it asks the attempt, so a chunk that arrives after the attempt has ended is reported
    as an error and stays queued. *)
Theorem retry_before_any_response_byte ops token w :
  let x := io_run ops (exchange_start token w) in
  let io := ex_io x in
  ((prepare_upstream_retry io).1 = Ok tt →
   response_started (io_attempt io) = false ∧ ex_accepted x = nothing_accepted
   ∧ wb_remaining (io_client_write io) = [] ∧ ex_delivered x = [])
  ∧ (∀ response, ex_refused x = false →
     upstream_response_failure_disposition (response_started (io_attempt io))
       = QueueSyntheticResponse →
     (queue_client_response response io).1 = Ok tt →
     ex_delivered x = []
     ∧ wb_remaining (io_client_write (ex_io (io_exec (OpQueueClientResponse response) x))) = response).
Proof.
  intros x io. destruct (io_run_ok ops token w) as [? ? ? Hs ? ? ? Hb Hun]. fold x io in Hs, Hb, Hun.
  assert (ex_accepted x = nothing_accepted → ex_delivered x = [] ∧ wb_remaining (io_client_write io) = []) as Hnil.
  { intros E. rewrite E in Hs. destruct Hs as [_ Hs]. by apply app_eq_nil in Hs. }
  split.
  - intros Hr. unfold prepare_upstream_retry in Hr.
    destruct (io_state io); try discriminate Hr; destruct (Hb eq_refl) as (? & _ & Ha); by destruct (Hnil Ha).
  - intros response Hnr Hd Hq.
    assert (before_response (io_state io) = true ∨ io_state io = ReadingUpstreamResponse) as Hst.
    { unfold queue_client_response in Hq. destruct (io_state io); by (discriminate Hq || auto). }
    unfold upstream_response_failure_disposition in Hd.
    destruct (response_started (io_attempt io)) eqn:Hstart; [done|].
    split; [apply Hnil; destruct Hst as [Hst|Hst]; [by apply Hb|by apply (Hun Hst)]|].
    unfold io_exec. fold io. unfold queue_client_response, io_transition, transition_to in *.
    by repeat case_match.
Qed.
End exchange.

(** A proxied exchange, from the first byte to the kept-alive connection. *)
Example proxied_exchange :
  let request := lit "GET / HTTP/1.1" ++ CRLF ++ lit "Host: a" ++ CRLF ++ CRLF in
  let x := io_run (H := ample_memory)
    [OpReceiveClientBytes request HttpLimits_default; OpBeginUpstreamConnect;
     OpUpstreamConnected (lit "forwarded"); OpAdvanceUpstreamWrite 4; OpAdvanceUpstreamWrite 99;
     OpReceiveUpstreamBytes (lit "answer"); OpAdvanceClientWrite 2;
     OpFinishUpstreamResponse; OpAdvanceClientWrite 4] (exchange_start 7 tt) in
  io_state (ex_io x) = WritingClientResponse ∧ ex_sent x = lit "forwarded"
  ∧ ex_delivered x = lit "answer" ∧ (finish_client_response true (ex_io x)).1 = Ok tt.
Proof. vm_compute. done. Qed.

(** Applying the read-interest action until it says [Keep] takes one step, and leaves the
    upstream registered exactly when reading may go on. *)
Definition apply_interest (a : ResponseReadInterestAction) (registered : bool) : bool :=
  match a with InterestKeep => registered | InterestPause => false | InterestResume => true end.

Lemma read_interest_settles p registered buffered mx :
  let next := apply_interest
    (response_read_interest_action p ReadingUpstreamResponse registered buffered mx) registered in
  next = bool_decide (p = Normal) && (buffered <? mx)
  ∧ response_read_interest_action p ReadingUpstreamResponse next buffered mx = InterestKeep.
Proof.
  unfold response_read_interest_action. rewrite N.ltb_antisym. simpl.
  destruct registered, (bool_decide (p = Normal)), (mx <=? buffered); done.
Qed.
