(* ===== verification/CoreRuntime.v ===== *)
(** * Small state of the event loop

    The containers of the runtime: token_allocator.rs, timer_queue.rs, command_queue.rs,
    worker_event_queue.rs, connection_table.rs and tls_registry.rs of crates/edge-core/src, and
    [CoreRuntime] of its lib.rs that holds them.  A [BTreeMap] is a finite map; where its order
    is visible (the tokens [cleanup_closed] returns) the keys are listed in ascending order. *)

From stdpp Require Import base strings gmap list sorting.
From Stdlib Require Import Strings.Byte.
From S2P Require Import Prelude Errors RustStr Resource Endpoint UpstreamPolicy Snapshot HttpRequest Connection.
Open Scope N_scope.

(** ** Tokens *)
Record TokenAllocator := { alloc_next : N; alloc_recycled : list N }.

Definition TokenAllocator_default : TokenAllocator := {| alloc_next := 0; alloc_recycled := [] |}.

(** [Vec::pop] and [Vec::push] work at the end of the vector. *)
Definition vec_pop {A} (l : list A) : option (A * list A) :=
  match rev l with [] => None | x :: r => Some (x, rev r) end.

Definition allocate (t : TokenAllocator) : N * TokenAllocator :=
  match vec_pop (alloc_recycled t) with
  | Some (value, rest) => (value, {| alloc_next := alloc_next t; alloc_recycled := rest |})
  | None => (alloc_next t, {| alloc_next := alloc_next t + 1; alloc_recycled := alloc_recycled t |})
  end.

Definition release (token : N) (t : TokenAllocator) : TokenAllocator :=
  {| alloc_next := alloc_next t; alloc_recycled := alloc_recycled t ++ [token] |}.

(** ** Timers

    [sort_by_key] is a stable sort: an entry goes behind the entries of the same key. *)
Definition timer : Type := N * N.

Fixpoint insert_by_deadline (e : timer) (l : list timer) : list timer :=
  match l with
  | [] => [e]
  | x :: l' => if e.1 <? x.1 then e :: l else x :: insert_by_deadline e l'
  end.

Definition sort_by_deadline (l : list timer) : list timer :=
  foldl (λ acc e, insert_by_deadline e acc) [] l.

Definition schedule (token deadline : N) (timers : list timer) : list timer :=
  sort_by_deadline (timers ++ [(deadline, token)]).

(** [iter().position(|d| d > now).unwrap_or(len)]. *)
Fixpoint expired_count (now : N) (timers : list timer) : nat :=
  match timers with
  | [] => 0
  | (deadline, _) :: rest => if now <? deadline then 0 else S (expired_count now rest)
  end.

Definition pop_expired (now : N) (timers : list timer) : list N * list timer :=
  let split := expired_count now timers in
  ((take split timers).*2, drop split timers).

(** ** Queues *)
Inductive QueueError : Set := QueueFull.

Record BoundedCommandQueue := { queue_capacity : N; queue_items : list CoreCommand }.

Definition queue_new (capacity : N) : BoundedCommandQueue :=
  {| queue_capacity := capacity; queue_items := [] |}.

Definition queue_push (command : CoreCommand) (q : BoundedCommandQueue)
  : result QueueError () * BoundedCommandQueue :=
  if queue_capacity q <=? len (queue_items q) then (Err QueueFull, q)
  else (Ok tt, {| queue_capacity := queue_capacity q; queue_items := queue_items q ++ [command] |}).

Definition queue_pop (q : BoundedCommandQueue) : option CoreCommand * BoundedCommandQueue :=
  match queue_items q with
  | [] => (None, q)
  | c :: rest => (Some c, {| queue_capacity := queue_capacity q; queue_items := rest |})
  end.

Inductive WorkerEvent :=
| ConfigSnapshotReady (snapshot : ConfigSnapshot)
| WorkerFailed (error : AppError).

Definition worker_push (event : WorkerEvent) (q : list WorkerEvent) : list WorkerEvent := q ++ [event].
Definition worker_pop (q : list WorkerEvent) : option WorkerEvent * list WorkerEvent :=
  match q with [] => (None, []) | e :: rest => (Some e, rest) end.

(** ** The connection table *)
Definition table_insert (c : Connection) (t : gmap N Connection)
  : option Connection * gmap N Connection := (t !! conn_token c, <[conn_token c := c]> t).
Definition table_get (token : N) (t : gmap N Connection) : option Connection := t !! token.
Definition table_remove (token : N) (t : gmap N Connection)
  : option Connection * gmap N Connection := (t !! token, delete token t).
Definition table_len (t : gmap N Connection) : N := N.of_nat (size t).

(** The entries in ascending order of their keys. *)
Definition key_le (a b : N * Connection) : Prop := a.1 ≤ b.1.
#[global] Instance key_le_dec : RelDecision key_le.
Proof. intros a b. unfold key_le. apply _. Defined.
#[global] Instance key_le_total : Total key_le.
Proof. intros a b. unfold key_le. lia. Qed.
#[global] Instance key_le_trans : Transitive key_le.
Proof. intros a b c. unfold key_le. lia. Qed.

Definition table_iter (t : gmap N Connection) : list (N * Connection) :=
  merge_sort key_le (map_to_list t).

Definition cleanup_closed (t : gmap N Connection) : list N * gmap N Connection :=
  let removable := (filter (λ e, is_over (conn_state e.2) = true) (table_iter t)).*1 in
  (removable, foldl (λ t k, delete k t) t removable).

(** ** Prepared TLS factories

    A factory ([ClientTlsSessionFactory] of edge-ports) is an opaque value of type [F]; what it
    creates is [create_client_session]. *)
Definition upstream_tls_registry_error : AppError :=
  AppError_new UpstreamTlsProfileInvalid "prepared upstream TLS profile is invalid".
Definition runtime_generation_error : AppError :=
  AppError_new RuntimeCommandRejected
    "prepared TLS runtime generation does not match the active snapshot".

Section registry.
Context {F S : Type} (create_client_session : F → list byte → result AppError S).

Definition PreparedClientTlsRegistry : Type := gmap (list byte * list byte) F.

Definition registry_insert_shared (service_id upstream_id : list byte) (factory : F)
  (r : PreparedClientTlsRegistry) : result AppError () * PreparedClientTlsRegistry :=
  match r !! (service_id, upstream_id) with
  | Some _ => (Err upstream_tls_registry_error, r)
  | None => (Ok tt, <[(service_id, upstream_id) := factory]> r)
  end.

Definition registry_create_session (service_id upstream_id server_name : list byte)
  (r : PreparedClientTlsRegistry) : result AppError S :=
  let? factory := ok_or (r !! (service_id, upstream_id)) upstream_tls_registry_error in
  create_client_session factory server_name.

Definition registry_contains (service_id upstream_id : list byte) (r : PreparedClientTlsRegistry)
  : bool := bool_decide (is_Some (r !! (service_id, upstream_id))).

Definition registry_len (r : PreparedClientTlsRegistry) : N := N.of_nat (size r).

Fixpoint validate_upstreams (r : PreparedClientTlsRegistry) (service_id : list byte)
  (upstreams : list Upstream) (expected : N) : result AppError N :=
  match upstreams with
  | [] => Ok expected
  | u :: rest =>
      match up_tls u with
      | TlsServerAuthenticated _ _ _ =>
          if negb (registry_contains service_id (up_id u) r)
          then Err upstream_tls_registry_error
          else validate_upstreams r service_id rest (saturating_add USIZE_MAX expected 1)
      | _ => validate_upstreams r service_id rest expected
      end
  end.

Fixpoint validate_services (r : PreparedClientTlsRegistry) (services : list Service) (expected : N)
  : result AppError N :=
  match services with
  | [] => Ok expected
  | s :: rest =>
      let? expected := validate_upstreams r (svc_id s) (svc_upstreams s) expected in
      validate_services r rest expected
  end.

Definition validate_for_snapshot (r : PreparedClientTlsRegistry) (snapshot : ConfigSnapshot)
  : result AppError () :=
  let? expected := validate_services r (snap_services snapshot) 0 in
  if negb (registry_len r =? expected) then Err upstream_tls_registry_error else Ok tt.
End registry.

(** Factories of the listeners, by bind address ([SocketAddr], any countable type [K]). *)
Section server_registry.
Context {K F : Type} `{Countable K}.

Definition PreparedServerTlsRegistry : Type := gmap K F.

Definition server_registry_insert (bind : K) (factory : F) (r : PreparedServerTlsRegistry)
  : result AppError () * PreparedServerTlsRegistry :=
  match r !! bind with
  | Some _ => (Err runtime_generation_error, r)
  | None => (Ok tt, <[bind := factory]> r)
  end.

Definition server_factory_for (bind : K) (r : PreparedServerTlsRegistry) : option F := r !! bind.

Definition server_registry_len (r : PreparedServerTlsRegistry) : N := N.of_nat (size r).
End server_registry.
Arguments PreparedServerTlsRegistry K F {_ _}.

(** ** The runtime *)
Record CoreRuntime := {
  rt_connections : gmap N Connection;
  rt_commands : BoundedCommandQueue;
  rt_worker_events : list WorkerEvent;
  rt_current_snapshot : option ConfigSnapshot;
  rt_shutting_down : bool
}.

Definition runtime_new (command_capacity : N) : CoreRuntime :=
  {| rt_connections := ∅; rt_commands := queue_new command_capacity; rt_worker_events := [];
     rt_current_snapshot := None; rt_shutting_down := false |}.

Definition accept_connection (token : N) (limits : ResourceLimits) (rt : CoreRuntime)
  : result AppError () * CoreRuntime :=
  if limits_max_connections limits <=? table_len (rt_connections rt)
  then (Err (AppError_new RuntimeCommandRejected "max connections reached"), rt)
  else
    (Ok tt, {| rt_connections := (table_insert {| conn_token := token; conn_state := Connection.Accepted |}
                                    (rt_connections rt)).2;
               rt_commands := rt_commands rt; rt_worker_events := rt_worker_events rt;
               rt_current_snapshot := rt_current_snapshot rt;
               rt_shutting_down := rt_shutting_down rt |}).

Definition set_snapshot (snapshot : ConfigSnapshot) (rt : CoreRuntime) : CoreRuntime :=
  {| rt_connections := rt_connections rt; rt_commands := rt_commands rt;
     rt_worker_events := rt_worker_events rt; rt_current_snapshot := Some snapshot;
     rt_shutting_down := rt_shutting_down rt |}.

Definition handle_command (command : CoreCommand) (rt : CoreRuntime) : CommandAck * CoreRuntime :=
  match command with
  | ApplyConfigSnapshot snapshot => (Snapshot.Accepted, set_snapshot snapshot rt)
  | ActivateConfigSnapshot snapshot _ => (Snapshot.Accepted, set_snapshot snapshot rt)
  | Shutdown =>
      (Snapshot.Accepted,
       {| rt_connections := rt_connections rt; rt_commands := rt_commands rt;
          rt_worker_events := rt_worker_events rt;
          rt_current_snapshot := rt_current_snapshot rt; rt_shutting_down := true |})
  | _ => (Snapshot.Accepted, rt)
  end.

Definition cleanup_closed_connections (rt : CoreRuntime) : list N * CoreRuntime :=
  let '(removed, t) := cleanup_closed (rt_connections rt) in
  (removed, {| rt_connections := t; rt_commands := rt_commands rt;
               rt_worker_events := rt_worker_events rt;
               rt_current_snapshot := rt_current_snapshot rt;
               rt_shutting_down := rt_shutting_down rt |}).

(** ** Tokens are reused exactly

    The live tokens, newest first, and the largest number of them so far. *)
Record token_world := { tw_alloc : TokenAllocator; tw_live : list N; tw_peak : N }.

(** [TokenFree i] gives back the [i]-th live token; tokens that are not live are never given
    back. *)
Inductive token_op : Set := TokenAllocate | TokenFree (i : nat).

Definition token_exec (op : token_op) (s : token_world) : token_world :=
  match op with
  | TokenAllocate =>
      let '(token, t) := allocate (tw_alloc s) in
      {| tw_alloc := t; tw_live := token :: tw_live s;
         tw_peak := N.max (tw_peak s) (len (token :: tw_live s)) |}
  | TokenFree i =>
      match tw_live s !! i with
      | None => s
      | Some token =>
          {| tw_alloc := release token (tw_alloc s); tw_live := delete i (tw_live s);
             tw_peak := tw_peak s |}
      end
  end.

Definition token_run (ops : list token_op) : token_world :=
  foldl (λ s op, token_exec op s)
    {| tw_alloc := TokenAllocator_default; tw_live := []; tw_peak := 0 |} ops.

Lemma vec_pop_spec {A} (l : list A) :
  match vec_pop l with Some (x, r) => l = r ++ [x] | None => l = [] end.
Proof.
  unfold vec_pop. destruct (rev l) as [|x r] eqn:E.
  - by rewrite <-(rev_involutive l), E.
  - by rewrite <-(rev_involutive l), E.
Qed.

Definition numbers (n : N) : list N := N.of_nat <$> seq 0 (N.to_nat n).

Record token_ok (s : token_world) : Prop := {
  token_partition : tw_live s ++ alloc_recycled (tw_alloc s) ≡ₚ numbers (alloc_next (tw_alloc s));
  token_peak : tw_peak s = alloc_next (tw_alloc s)
}.

Lemma numbers_succ n : numbers (n + 1) ≡ₚ n :: numbers n.
Proof.
  unfold numbers. replace (N.to_nat (n + 1)) with (N.to_nat n + 1)%nat by lia.
  rewrite seq_app, fmap_app. simpl. rewrite Permutation_app_comm. simpl.
  by replace (N.of_nat (N.to_nat n)) with n by lia.
Qed.

Lemma numbers_len n : len (numbers n) = n.
Proof. unfold numbers, len. rewrite length_fmap, length_seq. lia. Qed.

Lemma token_len s :
  token_ok s → len (tw_live s) + len (alloc_recycled (tw_alloc s)) = alloc_next (tw_alloc s).
Proof.
  intros [Hp _]. apply Permutation_length in Hp. rewrite <-(numbers_len (alloc_next _)).
  unfold len. rewrite <-Hp, length_app. lia.
Qed.

Lemma token_exec_ok op s : token_ok s → token_ok (token_exec op s).
Proof.
  intros Hs. pose proof (token_len s Hs) as Hl. destruct Hs as [Hp Hk], s as [[n rec] live peak].
  simpl in *. subst peak. destruct op as [|i]; simpl.
  - unfold allocate. simpl. pose proof (vec_pop_spec rec) as Hv.
    destruct (vec_pop rec) as [[x r]|]; subst rec; constructor; simpl.
    + by rewrite <-Hp, app_assoc, (Permutation_app_comm (live ++ r)).
    + rewrite len_app in Hl. autorewrite with edge_len in *. lia.
    + rewrite numbers_succ, <-Hp. by rewrite app_nil_r.
    + autorewrite with edge_len in *. lia.
  - destruct (live !! i) as [x|] eqn:Hi; constructor; simpl; try done.
    rewrite <-Hp. apply delete_Permutation in Hi as Hd. rewrite Hd at 2. simpl.
    by rewrite app_assoc, (Permutation_app_comm _ [x]).
Qed.

(** While tokens that are not live are never given back, a token is never handed out twice
    at the same time, and released tokens are used up before a new number is: the next fresh
    number is exactly the largest number of tokens that were ever live together, so the counter
    cannot overflow before that many connections are open at once. *)
Theorem token_reuse_exact ops :
  let s := token_run ops in
  NoDup (tw_live s)
  ∧ (allocate (tw_alloc s)).1 ∉ tw_live s
  ∧ alloc_next (tw_alloc s) = tw_peak s
  ∧ Forall (λ token, token < tw_peak s) (tw_live s).
Proof.
  assert (∀ ops, token_ok (token_run ops)) as Hrun.
  { clear ops. intros ops. induction ops as [|op ops IH] using rev_ind; [by constructor|].
    unfold token_run in *. rewrite foldl_app. by apply token_exec_ok. }
  assert (∀ ops, NoDup (tw_live (token_run ops))) as Hnd.
  { intros ops'. destruct (Hrun ops') as [Hp _].
    assert (NoDup (numbers (alloc_next (tw_alloc (token_run ops'))))) as Hx.
    { unfold numbers. apply NoDup_fmap_2; [apply _|]. apply NoDup_seq. }
    rewrite <-Hp in Hx. by apply NoDup_app in Hx as (? & _). }
  intros s. split_and!.
  - apply Hnd.
  - pose proof (Hnd (ops ++ [TokenAllocate])) as Hn. unfold token_run in Hn.
    rewrite foldl_app in Hn. simpl in Hn. fold (token_run ops) s in Hn.
    destruct (allocate (tw_alloc s)) as [token t]. simpl in *. by apply NoDup_cons in Hn as [].
  - symmetry. apply Hrun.
  - destruct (Hrun ops) as [Hp Hk]. fold s in Hp, Hk. rewrite Hk. apply list.Forall_forall.
    intros x Hx. assert (x ∈ numbers (alloc_next (tw_alloc s))) as Hin.
    { rewrite <-Hp. apply elem_of_app. by left. }
    unfold numbers in Hin. apply list_elem_of_fmap in Hin as (k & -> & Hk').
    apply elem_of_seq in Hk'. lia.
Qed.





(** ** Timers expire in order

    Reference: the timers that are pending, in the order they were scheduled. *)
Inductive timer_op : Set := TimerSchedule (token deadline : N) | TimerPop (now : N).

Definition timer_exec (op : timer_op) (s : list timer * list timer) : list timer * list timer :=
  let '(queue, pending) := s in
  match op with
  | TimerSchedule token deadline => (schedule token deadline queue, pending ++ [(deadline, token)])
  | TimerPop now => ((pop_expired now queue).2, filter (λ e, now < e.1) pending)
  end.

Definition timer_run (ops : list timer_op) : list timer * list timer :=
  foldl (λ s op, timer_exec op s) ([], []) ops.

Definition by_deadline (a b : timer) : Prop := a.1 ≤ b.1.
Definition at_deadline (d : N) (l : list timer) : list timer := filter (λ e, e.1 = d) l.

Lemma filter_all {A} (P : A → Prop) `{∀ x, Decision (P x)} l : Forall P l → filter P l = l.
Proof. induction 1 as [|x l Hx _ IH]; [done|]. by rewrite filter_cons_True, IH. Qed.

Lemma filter_none {A} (P : A → Prop) `{∀ x, Decision (P x)} l : Forall (λ x, ¬ P x) l → filter P l = [].
Proof. induction 1 as [|x l Hx _ IH]; [done|]. by rewrite filter_cons_False. Qed.

Lemma insert_permutation e l : insert_by_deadline e l ≡ₚ e :: l.
Proof.
  induction l as [|x l IH]; simpl; [done|]. destruct (e.1 <? x.1); [done|].
  by rewrite IH, Permutation_swap.
Qed.

Lemma insert_sorted e l :
  StronglySorted by_deadline l → StronglySorted by_deadline (insert_by_deadline e l).
Proof.
  induction 1 as [|x l Hs IH Hx]; simpl; [by repeat constructor|].
  destruct (N.ltb_spec e.1 x.1) as [Hlt|Hge].
  - constructor; [by constructor|]. constructor; [unfold by_deadline; lia|].
    eapply Forall_impl; [exact Hx|]. unfold by_deadline. simpl. lia.
  - constructor; [done|]. rewrite insert_permutation. by constructor.
Qed.

Lemma at_deadline_later d l : Forall (λ e, d < e.1) l → at_deadline d l = [].
Proof.
  intros Hl. apply filter_none. eapply Forall_impl; [exact Hl|]. simpl. lia.
Qed.

Lemma at_deadline_cons d e l :
  at_deadline d (e :: l) = if decide (e.1 = d) then e :: at_deadline d l else at_deadline d l.
Proof.
  unfold at_deadline. case_decide; [by rewrite filter_cons_True|by rewrite filter_cons_False].
Qed.

Lemma at_deadline_app d l k : at_deadline d (l ++ k) = at_deadline d l ++ at_deadline d k.
Proof. unfold at_deadline. by rewrite filter_app. Qed.

Lemma insert_stable e d l :
  StronglySorted by_deadline l → at_deadline d (insert_by_deadline e l) = at_deadline d (l ++ [e]).
Proof.
  induction 1 as [|x l Hs IH Hx]; [done|]. cbn [insert_by_deadline].
  destruct (N.ltb_spec e.1 x.1) as [Hlt|Hge]; cycle 1.
  { rewrite !at_deadline_cons, IH. simpl. by rewrite at_deadline_cons. }
  rewrite at_deadline_app, (at_deadline_cons _ e), (at_deadline_cons _ e []).
  case_decide as Hd; [|by rewrite app_nil_r].
  rewrite (at_deadline_later d (x :: l)); [done|]. subst d.
  constructor; [done|]. eapply Forall_impl; [exact Hx|]. unfold by_deadline. simpl. lia.
Qed.

(** Sorting again what is sorted already only places the last entry. *)
Lemma insert_last e l : Forall (λ x, x.1 ≤ e.1) l → insert_by_deadline e l = l ++ [e].
Proof.
  induction 1 as [|x l Hx _ IH]; simpl; [done|].
  destruct (N.ltb_spec e.1 x.1); [lia|]. by rewrite IH.
Qed.

Lemma sort_sorted l : StronglySorted by_deadline l → sort_by_deadline l = l.
Proof.
  unfold sort_by_deadline. induction l as [|e l IH] using rev_ind; intros Hs; [done|].
  apply StronglySorted_app in Hs as (Hx & Hl & _). rewrite foldl_app. simpl. rewrite IH by done.
  apply insert_last, list.Forall_forall. intros x Hin. apply (Hx x e Hin). by left.
Qed.

Lemma schedule_insert token deadline l :
  StronglySorted by_deadline l → schedule token deadline l = insert_by_deadline (deadline, token) l.
Proof.
  intros Hs. unfold schedule. pose proof (sort_sorted l Hs) as Hl. unfold sort_by_deadline in *.
  rewrite foldl_app. simpl. by rewrite Hl.
Qed.

(** The expired entries of a sorted queue are its beginning. *)
Lemma expired_prefix now l :
  StronglySorted by_deadline l →
  take (expired_count now l) l = filter (λ e, e.1 ≤ now) l
  ∧ drop (expired_count now l) l = filter (λ e, now < e.1) l.
Proof.
  induction 1 as [|[d t] l Hs [IH1 IH2] Hx]; [done|]. simpl.
  destruct (N.ltb_spec now d) as [Hlt|Hge]; simpl.
  - assert (Forall (λ e : timer, now < e.1) l) as Hall.
    { eapply Forall_impl; [exact Hx|]. unfold by_deadline. simpl. lia. }
    rewrite filter_cons_False by (simpl; lia). rewrite filter_cons_True by done.
    rewrite (filter_all _ _ Hall), filter_none; [done|].
    eapply Forall_impl; [exact Hall|]. simpl. lia.
  - rewrite filter_cons_True by done. rewrite filter_cons_False by (simpl; lia). by rewrite IH1, IH2.
Qed.

Record timers_ok (queue pending : list timer) : Prop := {
  timers_sorted : StronglySorted by_deadline queue;
  timers_perm : queue ≡ₚ pending;
  timers_stable : ∀ d, at_deadline d queue = at_deadline d pending
}.

Lemma at_deadline_filter d (P : timer → Prop) `{∀ x, Decision (P x)} l :
  at_deadline d (filter P l) = filter P (at_deadline d l).
Proof. unfold at_deadline. rewrite !list_filter_filter. apply list_filter_iff. tauto. Qed.

Lemma filter_sorted (P : timer → Prop) `{∀ x, Decision (P x)} l :
  StronglySorted by_deadline l → StronglySorted by_deadline (filter P l).
Proof.
  induction 1 as [|x l Hs IH Hx]; [constructor|]. destruct (decide (P x)).
  - rewrite filter_cons_True by done. constructor; [done|]. apply list.Forall_forall.
    intros y Hy. apply list_elem_of_filter in Hy as [_ Hy]. by eapply list.Forall_forall.
  - by rewrite filter_cons_False.
Qed.

Lemma timer_run_ok ops : timers_ok (timer_run ops).1 (timer_run ops).2.
Proof.
  induction ops as [|op ops IH] using rev_ind; [by repeat constructor|].
  unfold timer_run in *. rewrite foldl_app. simpl.
  destruct (foldl _ _ ops) as [queue pending]. destruct IH as [Hs Hp Hd], op as [token deadline|now];
    simpl in *.
  - rewrite schedule_insert by done. constructor; [by apply insert_sorted| |].
    + by rewrite insert_permutation, Hp, Permutation_app_comm.
    + intros d. by rewrite insert_stable, !at_deadline_app, Hd.
  - destruct (expired_prefix now queue Hs) as [_ E]. unfold pop_expired. simpl. rewrite E.
    constructor.
    + by apply filter_sorted.
    + by rewrite Hp.
    + intros d. by rewrite !at_deadline_filter, Hd.
Qed.

(** After any sequence of calls, [pop_expired] returns exactly the timers that are still
    pending and due, each once, in order of their deadlines and, for equal deadlines, in the
    order they were scheduled; the timers that are not due yet stay queued. *)
Theorem timer_pop_exact ops now :
  let '(queue, pending) := timer_run ops in
  let '(tokens, rest) := pop_expired now queue in
  let due := filter (λ e, e.1 ≤ now) pending in
  ∃ entries, tokens = entries.*2
    ∧ entries ≡ₚ due
    ∧ StronglySorted by_deadline entries
    ∧ (∀ d, at_deadline d entries = at_deadline d due)
    ∧ rest ≡ₚ filter (λ e, now < e.1) pending.
Proof.
  destruct (timer_run_ok ops) as [Hs Hp Hd]. destruct (timer_run ops) as [queue pending].
  simpl in *. destruct (expired_prefix now queue Hs) as [E1 E2]. unfold pop_expired.
  rewrite E1, E2. eexists. split_and!; [done| | | |].
  - by rewrite Hp.
  - by apply filter_sorted.
  - intros d. by rewrite !at_deadline_filter, Hd.
  - by rewrite Hp.
Qed.





(** ** Prepared factories match the snapshot *)
Definition is_tls (u : Upstream) : bool :=
  match up_tls u with TlsServerAuthenticated _ _ _ => true | _ => false end.

Definition service_tls_pairs (s : Service) : list (list byte * list byte) :=
  (λ u, (svc_id s, up_id u)) <$> filter (λ u, is_tls u = true) (svc_upstreams s).

Definition tls_pairs (services : list Service) : list (list byte * list byte) :=
  services ≫= service_tls_pairs.

Section registry_exact.
Context {F : Type}.
Implicit Types r : gmap (list byte * list byte) F.

Definition holds r (p : list byte * list byte) : bool := registry_contains p.1 p.2 r.

Lemma validate_upstreams_eq r s us n :
  n ≤ USIZE_MAX →
  let pairs := (λ u, (s, up_id u)) <$> filter (λ u, is_tls u = true) us in
  validate_upstreams r s us n
  = if forallb (holds r) pairs then Ok (N.min USIZE_MAX (n + len pairs))
    else Err upstream_tls_registry_error.
Proof.
  intros Hn. revert n Hn. induction us as [|u us IH]; intros n Hn.
  { simpl. by rewrite N.add_0_r, N.min_r. }
  cbn [validate_upstreams]. cbv zeta in IH |- *.
  destruct (up_tls u) eqn:Hu.
  - rewrite filter_cons_False by (unfold is_tls; by rewrite Hu). by apply IH.
  - rewrite filter_cons_True by (unfold is_tls; by rewrite Hu). rewrite fmap_cons. simpl.
    unfold holds at 1. simpl. destruct (registry_contains s (up_id u) r); simpl; [|done].
    rewrite IH by (unfold saturating_add; lia).
    destruct (forallb _ _); [|done]. f_equal. unfold saturating_add. rewrite len_cons. lia.
Qed.

Lemma validate_services_eq r ss n :
  n ≤ USIZE_MAX →
  validate_services r ss n
  = if forallb (holds r) (tls_pairs ss) then Ok (N.min USIZE_MAX (n + len (tls_pairs ss)))
    else Err upstream_tls_registry_error.
Proof.
  intros Hn. revert n Hn. induction ss as [|s ss IH]; intros n Hn.
  { simpl. by rewrite N.add_0_r, N.min_r. }
  cbn [validate_services]. rewrite validate_upstreams_eq by done.
  change (tls_pairs (s :: ss)) with (service_tls_pairs s ++ tls_pairs ss).
  fold (service_tls_pairs s). rewrite forallb_app, len_app.
  destruct (forallb _ (service_tls_pairs s)); simpl; [|done]. rewrite IH by lia.
  destruct (forallb _ _); [|done]. f_equal. lia.
Qed.

Lemma holds_all r ps : forallb (holds r) ps = true ↔ list_to_set ps ⊆ dom r.
Proof.
  rewrite forallb_forall. split.
  - intros Hall. apply elem_of_subseteq. intros p Hp.
    apply elem_of_list_to_set, list_elem_of_In, Hall in Hp.
    unfold holds, registry_contains in Hp. apply bool_decide_eq_true in Hp.
    destruct p as [a b]. by apply (elem_of_dom r (a, b)).
  - intros Hsub p Hp. apply list_elem_of_In in Hp. unfold holds, registry_contains.
    apply bool_decide_eq_true. destruct p as [a b]. apply (elem_of_dom r (a, b)), Hsub.
    by apply elem_of_list_to_set.
Qed.

(** A prepared TLS registry is accepted for a snapshot whose service and upstream ids are
    unique exactly when it holds one factory for each upstream that is reached over TLS and
    none for any other: no connection of the new generation can lack its factory, and no
    factory of another generation is left behind. *)
Theorem tls_registry_exact r snapshot :
  NoDup (tls_pairs (snap_services snapshot)) →
  len (tls_pairs (snap_services snapshot)) ≤ USIZE_MAX →
  validate_for_snapshot r snapshot = Ok tt ↔ dom r = list_to_set (tls_pairs (snap_services snapshot)).
Proof.
  intros Hnd Hlen. unfold validate_for_snapshot. rewrite validate_services_eq by done.
  set (ps := tls_pairs _) in *. rewrite N.add_0_l, N.min_r by done.
  assert (size (list_to_set ps : gset _) = length ps) as Hsz by by apply size_list_to_set.
  unfold registry_len. change (size r) with (@size (gmap (list byte * list byte) F) _ r).
  rewrite <-(size_dom (D := gset (list byte * list byte))).
  destruct (forallb (holds r) ps) eqn:Hall; simpl.
  - apply holds_all in Hall. destruct (N.eqb_spec (N.of_nat (size (dom r))) (len ps)) as [E|E]; simpl.
    + split; [|done]. intros _. apply leibniz_equiv. symmetry. apply set_subseteq_size_equiv; [done|].
      unfold len in E. lia.
    + split; [done|]. intros Hd. exfalso. apply E. rewrite Hd, Hsz. done.
  - split; [done|]. intros Hd. rewrite <-Hd in Hsz. apply not_true_iff_false in Hall. exfalso.
    apply Hall, holds_all. by rewrite Hd.
Qed.
End registry_exact.

Definition tls_service : Service :=
  {| svc_id := lit "api";
     svc_upstreams := [{| up_id := lit "a"; up_url := lit "https://a.example";
                          up_administrative_state := AdminActive;
                          up_tls := TlsServerAuthenticated (lit "a.example") (lit "a.example")
                                      (lit "system") |};
                       {| up_id := lit "b"; up_url := lit "http://b.example";
                          up_administrative_state := AdminActive; up_tls := TlsDisabled |}];
     svc_policy := ServicePolicy_default |}.

Definition tls_snapshot_example : ConfigSnapshot :=
  {| snap_schema_version := 2; snap_revision_id := lit "r1";
     snap_admin := {| admin_bind := lit "127.0.0.1:9443"; admin_auth_required := true |};
     snap_listeners := []; snap_routes := []; snap_services := [tls_service];
     snap_certificate_resolvers := []; snap_log_mode := LogProduct;
     snap_runtime := snap_runtime (items_snapshot (PathMatch_prefix (lit "/"))) |}.

Lemma tls_registry_exact_witness :
  validate_for_snapshot {[ (lit "api", lit "a") := 7 ]} tls_snapshot_example = Ok tt
  ↔ dom ({[ (lit "api", lit "a") := 7 ]} : gmap (list byte * list byte) N)
    = list_to_set (tls_pairs (snap_services tls_snapshot_example)).
Proof.
  apply (tls_registry_exact (F := N)).
  - change (NoDup [(lit "api", lit "a")]). apply NoDup_singleton.
  - vm_compute. done.
Defined.

(** ** The queues and the table *)
Lemma queue_bounded command q :
  len (queue_items q) ≤ queue_capacity q →
  len (queue_items (queue_push command q).2) ≤ queue_capacity q
  ∧ len (queue_items (queue_pop q).2) ≤ queue_capacity q.
Proof.
  intros Hq. unfold queue_push, queue_pop. split.
  - destruct (N.leb_spec (queue_capacity q) (len (queue_items q))); simpl; [done|]. len_lia.
  - destruct (queue_items q) eqn:E; simpl; rewrite ?E; len_lia.
Qed.

(** What was popped, followed by what is queued, is what was accepted, in order. *)
Lemma queue_fifo command q :
  (queue_push command q).1 = Ok tt →
  queue_items (queue_push command q).2 = queue_items q ++ [command]
  ∧ ∀ c q', queue_pop q = (Some c, q') → queue_items q = c :: queue_items q'.
Proof.
  unfold queue_push, queue_pop. destruct (_ <=? _); [done|]. intros _. split; [done|].
  intros c q' H. destruct (queue_items q); by simplify_eq/=.
Qed.



Lemma delete_all_lookup (ks : list N) (t : gmap N Connection) k :
  foldl (λ t k, delete k t) t ks !! k = if decide (k ∈ ks) then None else t !! k.
Proof.
  revert t. induction ks as [|x ks IH]; intros t; simpl; [done|].
  rewrite IH. destruct (decide (k ∈ ks)).
  - by rewrite decide_True by set_solver.
  - destruct (decide (k = x)) as [->|].
    + rewrite decide_True by set_solver. apply lookup_delete_eq.
    + rewrite decide_False by set_solver. by apply lookup_delete_ne.
Qed.

(** Cleaning up removes exactly the connections that are over, and lists them in order. *)
Lemma cleanup_closed_exact t :
  let '(removed, t') := cleanup_closed t in
  Sorted N.le removed
  ∧ (∀ k, k ∈ removed ↔ ∃ c, t !! k = Some c ∧ is_over (conn_state c) = true)
  ∧ ∀ k, t' !! k = (t !! k ≫= λ c, if is_over (conn_state c) then None else Some c).
Proof.
  unfold cleanup_closed. set (removed := (filter _ (table_iter t)).*1).
  assert (∀ k, k ∈ removed ↔ ∃ c, t !! k = Some c ∧ is_over (conn_state c) = true) as Hin.
  { intros k. unfold removed, table_iter. rewrite list_elem_of_fmap. setoid_rewrite list_elem_of_filter.
    setoid_rewrite merge_sort_Permutation. split.
    - intros ([k' c] & -> & Ho & Hm). apply elem_of_map_to_list in Hm. eauto.
    - intros (c & Hm & Ho). exists (k, c). split_and!; [done..|]. by apply elem_of_map_to_list. }
  split_and!; [|done|].
  - apply StronglySorted_Sorted. unfold removed, table_iter.
    pose proof (StronglySorted_merge_sort key_le (map_to_list t)) as Hs.
    induction Hs as [|x l Hs IH Hx]; [constructor|].
    destruct (decide (is_over (conn_state x.2) = true)).
    + rewrite filter_cons_True by done. rewrite fmap_cons. constructor; [done|].
      apply list.Forall_forall. intros k Hk. apply list_elem_of_fmap in Hk as (y & -> & Hy).
      apply list_elem_of_filter in Hy as [_ Hy]. rewrite list.Forall_forall in Hx. by apply Hx.
    + by rewrite filter_cons_False.
  - intros k. rewrite delete_all_lookup. destruct (t !! k) as [c|] eqn:Hk; simpl; [|by case_decide].
    case_decide as Hd; rewrite Hin in Hd; destruct (is_over (conn_state c)) eqn:Ho; try done.
    + destruct Hd as (c0 & ? & ?). congruence.
    + exfalso. apply Hd. eauto.
Qed.

(** The table never grows past the limit. *)
Lemma accept_connection_bounded token limits rt :
  table_len (rt_connections rt) ≤ limits_max_connections limits →
  table_len (rt_connections (accept_connection token limits rt).2) ≤ limits_max_connections limits.
Proof.
  intros Hb. unfold accept_connection. destruct (N.leb_spec (limits_max_connections limits)
    (table_len (rt_connections rt))) as [|Hlt]; simpl; [done|].
  unfold table_len in *. destruct (rt_connections rt !! token) as [c|] eqn:Ht.
  - rewrite map_size_insert_Some; [lia|eauto].
  - rewrite map_size_insert_None by done. lia.
Qed.
