(* ===== verification/Drain.v ===== *)
(** * Draining upstreams

    [UpstreamDrainTracker] of crates/edge-application/src/drain.rs counts, per configuration
    generation and upstream, the connections that hold a lease, and tells when an upstream that
    was taken out of service has no connection left.  The theorem follows the leases through
    any interleaving of configuration changes, acquisitions and releases. *)

From stdpp Require Import base strings gmap list.
From Stdlib Require Import Strings.Byte.
From S2P Require Import Prelude UpstreamPolicy Snapshot.
Open Scope N_scope.

(** [UpstreamHealthKey]: service id and upstream id. *)
Definition health_key : Type := list byte * list byte.

Inductive UpstreamDrainState : Set := DrainActive | DrainDraining | DrainDrained | DrainRemoved.
#[global] Instance UpstreamDrainState_eq_dec : EqDecision UpstreamDrainState.
Proof. solve_decision. Defined.

Record DrainReference := {
  ref_generation : N;
  ref_key : health_key;
  ref_lease_id : N
}.
#[global] Instance DrainReference_eq_dec : EqDecision DrainReference.
Proof. solve_decision. Defined.

Record UpstreamDrainStatus := { ds_state : UpstreamDrainState; ds_connection_count : N }.

Inductive DrainAcquireResult : Set :=
| AcquireAcquired
| AcquireNotSelectable (state : UpstreamDrainState)
| AcquireUnknown.

Inductive DrainReleaseResult : Set :=
| ReleaseReleased | ReleaseDrainCompleted | ReleaseRemovedCompleted | ReleaseUnknown
| ReleaseUnderflow.

Record DrainEntry := { de_state : UpstreamDrainState; de_leases : gset N }.

Record UpstreamDrainTracker := {
  dt_current_generation : option N;
  dt_entries : gmap (N * health_key) DrainEntry;
  dt_next_lease_id : N
}.

Definition drain_default : UpstreamDrainTracker :=
  {| dt_current_generation := None; dt_entries := ∅; dt_next_lease_id := 0 |}.

Definition snapshot_upstreams (snapshot : ConfigSnapshot) : list (health_key * Upstream) :=
  snap_services snapshot ≫= λ service,
    (λ upstream, ((svc_id service, up_id upstream), upstream)) <$> svc_upstreams service.

(** [collect] into a map keeps the last value of a key. *)
Definition desired_states (snapshot : ConfigSnapshot)
  : gmap health_key UpstreamAdministrativeState :=
  list_to_map (reverse (prod_map id up_administrative_state <$> snapshot_upstreams snapshot)).

Definition retire_entry (desired : gmap health_key UpstreamAdministrativeState) (current : N)
  (gk : N * health_key) (entry : DrainEntry) : DrainEntry :=
  if negb (bool_decide (gk.1 = current)) then entry
  else
    {| de_state := if bool_decide (desired !! gk.2 = Some AdminDraining)
                   then if bool_decide (de_leases entry = ∅) then DrainDrained else DrainDraining
                   else DrainRemoved;
       de_leases := de_leases entry |}.

Definition fresh_entry (administrative_state : UpstreamAdministrativeState) : DrainEntry :=
  {| de_state := match administrative_state with
                 | AdminActive => DrainActive
                 | AdminDraining => DrainDrained
                 end;
     de_leases := ∅ |}.

Definition drain_reconcile (snapshot : ConfigSnapshot) (generation : N) (t : UpstreamDrainTracker)
  : UpstreamDrainTracker :=
  let desired := desired_states snapshot in
  let entries := match dt_current_generation t with
                 | None => dt_entries t
                 | Some current =>
                     map_imap (λ gk e, Some (retire_entry desired current gk e)) (dt_entries t)
                 end in
  {| dt_current_generation := Some generation;
     dt_entries := map_fold (λ key st acc, <[(generation, key) := fresh_entry st]> acc)
                     entries desired;
     dt_next_lease_id := dt_next_lease_id t |}.

Definition drain_from_snapshot (snapshot : ConfigSnapshot) (generation : N) : UpstreamDrainTracker :=
  drain_reconcile snapshot generation drain_default.

Definition drain_acquire (generation : N) (key : health_key) (t : UpstreamDrainTracker)
  : (DrainAcquireResult * option DrainReference) * UpstreamDrainTracker :=
  if negb (bool_decide (dt_current_generation t = Some generation))
  then ((AcquireUnknown, None), t)
  else
    match dt_entries t !! (generation, key) with
    | None => ((AcquireUnknown, None), t)
    | Some entry =>
        if negb (bool_decide (de_state entry = DrainActive))
        then ((AcquireNotSelectable (de_state entry), None), t)
        else
          let lease_id := dt_next_lease_id t in
          ((AcquireAcquired,
            Some {| ref_generation := generation; ref_key := key; ref_lease_id := lease_id |}),
           {| dt_current_generation := dt_current_generation t;
              dt_entries := <[(generation, key) :=
                                {| de_state := de_state entry;
                                   de_leases := {[lease_id]} ∪ de_leases entry |}]> (dt_entries t);
              dt_next_lease_id := wrapping_add U64_MAX lease_id 1 |})
    end.

Definition drain_release (reference : DrainReference) (t : UpstreamDrainTracker)
  : DrainReleaseResult * UpstreamDrainTracker :=
  let gk := (ref_generation reference, ref_key reference) in
  match dt_entries t !! gk with
  | None => (ReleaseUnknown, t)
  | Some entry =>
      if negb (bool_decide (ref_lease_id reference ∈ de_leases entry)) then (ReleaseUnderflow, t)
      else
        let leases := de_leases entry ∖ {[ref_lease_id reference]} in
        let store state := {| dt_current_generation := dt_current_generation t;
                              dt_entries := <[gk := {| de_state := state; de_leases := leases |}]>
                                              (dt_entries t);
                              dt_next_lease_id := dt_next_lease_id t |} in
        if negb (bool_decide (leases = ∅)) then (ReleaseReleased, store (de_state entry))
        else
          match de_state entry with
          | DrainDraining => (ReleaseDrainCompleted, store DrainDrained)
          | DrainRemoved => (ReleaseRemovedCompleted, store DrainRemoved)
          | DrainActive => (ReleaseReleased, store DrainActive)
          | DrainDrained => (ReleaseReleased, store DrainDrained)
          end
  end.

Definition lease_count (leases : gset N) : N := N.of_nat (size leases).

Definition drain_status (generation : N) (key : health_key) (t : UpstreamDrainTracker)
  : option UpstreamDrainStatus :=
  (λ entry, {| ds_state := de_state entry; ds_connection_count := lease_count (de_leases entry) |})
    <$> dt_entries t !! (generation, key).

Inductive RuntimeDrainState : Set :=
| RuntimeActive | RuntimeDraining | RuntimeDrained | RuntimeRemoved.

Record RuntimeUpstreamStatus := {
  rus_key : health_key;
  rus_state : RuntimeDrainState;
  rus_connection_count : N
}.

Definition is_draining_or_removed (s : UpstreamDrainState) : bool :=
  match s with DrainDraining | DrainRemoved => true | _ => false end.

(** [map(...).sum::<u64>()] over the entries of other generations. *)
Definition old_count (generation : N) (key : health_key) (t : UpstreamDrainTracker) : N :=
  map_fold
    (λ gk entry acc,
       if negb (bool_decide (gk.1 = generation)) && bool_decide (gk.2 = key)
          && is_draining_or_removed (de_state entry)
       then wrapping_add U64_MAX acc (lease_count (de_leases entry)) else acc)
    0 (dt_entries t).

Definition upstream_runtime_status (t : UpstreamDrainTracker) (generation : N)
  (ku : health_key * Upstream) : RuntimeUpstreamStatus :=
  let '(key, upstream) := ku in
  let current := default {| ds_state := DrainRemoved; ds_connection_count := 0 |}
                   (drain_status generation key t) in
  let connection_count := saturating_add U64_MAX (ds_connection_count current)
                            (old_count generation key t) in
  {| rus_key := key;
     rus_state := if bool_decide (up_administrative_state upstream = AdminDraining)
                  then if connection_count =? 0 then RuntimeDrained else RuntimeDraining
                  else RuntimeActive;
     rus_connection_count := connection_count |}.

Record RuntimeUpstreamStatusSnapshot := {
  russ_revision_id : list byte;
  russ_generation : N;
  russ_upstreams : list RuntimeUpstreamStatus
}.

Definition operational_snapshot (snapshot : ConfigSnapshot) (t : UpstreamDrainTracker)
  : RuntimeUpstreamStatusSnapshot :=
  let generation := default 0 (dt_current_generation t) in
  {| russ_revision_id := snap_revision_id snapshot;
     russ_generation := generation;
     russ_upstreams := upstream_runtime_status t generation <$> snapshot_upstreams snapshot |}.


(** ** Leases through any history *)
Record drain_world := { dw_tracker : UpstreamDrainTracker; dw_out : list DrainReference }.

(** A configuration change moves to a later generation; a connection acquires in the current
    generation; [DrainRelease i] gives back the [i]-th outstanding reference. *)
Inductive drain_op : Type :=
| DrainReconcile (snapshot : ConfigSnapshot) (step : N)
| DrainAcquire (key : health_key)
| DrainRelease (i : nat).

Definition next_generation (t : UpstreamDrainTracker) (step : N) : N :=
  match dt_current_generation t with None => step | Some g => g + 1 + step end.

Definition drain_exec (op : drain_op) (w : drain_world) : drain_world :=
  let t := dw_tracker w in
  match op with
  | DrainReconcile snapshot step =>
      {| dw_tracker := drain_reconcile snapshot (next_generation t step) t; dw_out := dw_out w |}
  | DrainAcquire key =>
      match dt_current_generation t with
      | None => w
      | Some g =>
          let '((_, r), t) := drain_acquire g key t in
          {| dw_tracker := t; dw_out := option_list r ++ dw_out w |}
      end
  | DrainRelease i =>
      match dw_out w !! i with
      | None => w
      | Some r => {| dw_tracker := (drain_release r t).2; dw_out := delete i (dw_out w) |}
      end
  end.

Definition drain_run (ops : list drain_op) : drain_world :=
  foldl (λ w op, drain_exec op w) {| dw_tracker := drain_default; dw_out := [] |} ops.

Definition place_of (r : DrainReference) : N * health_key := (ref_generation r, ref_key r).
Definition holders (gk : N * health_key) (out : list DrainReference) : list DrainReference :=
  filter (λ r, place_of r = gk) out.
Definition leases_at (gk : N * health_key) (out : list DrainReference) : gset N :=
  list_to_set (ref_lease_id <$> holders gk out).

Record drain_ok (n : N) (w : drain_world) : Prop := {
  dk_leases : ∀ gk e, dt_entries (dw_tracker w) !! gk = Some e → de_leases e = leases_at gk (dw_out w);
  dk_entry : ∀ r, r ∈ dw_out w → is_Some (dt_entries (dw_tracker w) !! place_of r);
  dk_nodup : NoDup (ref_lease_id <$> dw_out w);
  dk_fresh : ∀ r, r ∈ dw_out w → ref_lease_id r < dt_next_lease_id (dw_tracker w);
  dk_next : dt_next_lease_id (dw_tracker w) ≤ n;
  dk_generation : ∀ gk e, dt_entries (dw_tracker w) !! gk = Some e →
    ∃ c, dt_current_generation (dw_tracker w) = Some c ∧ gk.1 ≤ c;
  dk_active : ∀ gk e, dt_entries (dw_tracker w) !! gk = Some e → de_state e = DrainActive →
    dt_current_generation (dw_tracker w) = Some gk.1;
  dk_drained : ∀ gk e, dt_entries (dw_tracker w) !! gk = Some e → de_state e = DrainDrained →
    de_leases e = ∅
}.

Lemma elem_of_leases_at l gk out :
  l ∈ leases_at gk out ↔ ∃ r, r ∈ out ∧ place_of r = gk ∧ ref_lease_id r = l.
Proof.
  unfold leases_at, holders. rewrite elem_of_list_to_set, list_elem_of_fmap.
  setoid_rewrite list_elem_of_filter. naive_solver.
Qed.

(** Inserting the desired entries. *)
Lemma insert_desired_lookup (desired : gmap health_key UpstreamAdministrativeState)
  (g : N) (m : gmap (N * health_key) DrainEntry) gk :
  map_fold (λ key st acc, <[(g, key) := fresh_entry st]> acc) m desired !! gk
  = if decide (gk.1 = g)
    then match desired !! gk.2 with Some st => Some (fresh_entry st) | None => m !! gk end
    else m !! gk.
Proof.
  destruct gk as [g' k']. simpl.
  apply (map_fold_weak_ind (λ acc d, acc !! (g', k') = if decide (g' = g)
    then match d !! k' with Some st => Some (fresh_entry st) | None => m !! (g', k') end
    else m !! (g', k'))).
  - rewrite lookup_empty. by case_decide.
  - intros k st d acc Hk IH. destruct (decide ((g, k) = (g', k'))) as [E|E].
    + simplify_eq. rewrite lookup_insert_eq, decide_True by done. by rewrite lookup_insert_eq.
    + rewrite lookup_insert_ne by done. rewrite IH. case_decide as Hg; [|done]. subst g'.
      rewrite lookup_insert_ne; [done|]. congruence.
Qed.

Lemma reconcile_lookup snapshot g t gk :
  dt_entries (drain_reconcile snapshot g t) !! gk
  = match (if decide (gk.1 = g) then desired_states snapshot !! gk.2 else None) with
    | Some st => Some (fresh_entry st)
    | None => (λ e, match dt_current_generation t with
                    | None => e
                    | Some c => retire_entry (desired_states snapshot) c gk e
                    end) <$> dt_entries t !! gk
    end.
Proof.
  unfold drain_reconcile. cbn [dt_entries]. rewrite insert_desired_lookup.
  assert (∀ o : option DrainEntry, (o ≫= λ e, Some e) = o) as Hbind by (by intros []).
  assert (match dt_current_generation t with
          | None => dt_entries t
          | Some current => map_imap (λ gk e, Some (retire_entry (desired_states snapshot) current gk e))
                              (dt_entries t)
          end !! gk = (λ e, match dt_current_generation t with
                    | None => e
                    | Some c => retire_entry (desired_states snapshot) c gk e
                    end) <$> dt_entries t !! gk) as Hold.
  { destruct (dt_current_generation t).
    - rewrite map_lookup_imap. by destruct (dt_entries t !! gk).
    - by destruct (dt_entries t !! gk). }
  case_decide; [|done]. by destruct (desired_states snapshot !! gk.2).
Qed.

Lemma retire_leases desired c gk e : de_leases (retire_entry desired c gk e) = de_leases e.
Proof. unfold retire_entry. by destruct (negb _). Qed.

Lemma reconcile_ok n w snapshot step :
  drain_ok n w → drain_ok n (drain_exec (DrainReconcile snapshot step) w).
Proof.
  intros [Hl He Hnd Hf Hn Hg Ha Hd]. destruct w as [t out]. unfold drain_exec. simpl in *.
  set (g := next_generation t step).
  assert (∀ gk e, dt_entries t !! gk = Some e → gk.1 < g) as Hlt.
  { intros gk e Hgk. destruct (Hg _ _ Hgk) as (c & Hc & Hle). unfold g, next_generation.
    rewrite Hc. lia. }
  assert (∀ gk e', dt_entries (drain_reconcile snapshot g t) !! gk = Some e' →
    (gk.1 = g ∧ ∃ st, e' = fresh_entry st)
    ∨ (gk.1 < g ∧ ∃ e c, dt_entries t !! gk = Some e ∧ dt_current_generation t = Some c
       ∧ e' = retire_entry (desired_states snapshot) c gk e)) as Hcases.
  { intros gk e' H. rewrite reconcile_lookup in H.
    destruct (if decide (gk.1 = g) then desired_states snapshot !! gk.2 else None) eqn:E.
    - left. case_decide; simplify_eq. eauto.
    - right. destruct (dt_entries t !! gk) as [e|] eqn:Et; [|done]. split; [by eapply Hlt|].
      destruct (Hg _ _ Et) as (c & Hc & _). exists e, c. rewrite Hc in H. simpl in H. by simplify_eq. }
  assert (∀ gk, gk.1 = g → leases_at gk out = ∅) as Hempty.
  { intros gk Hgk. apply leibniz_equiv, elem_of_equiv_empty. intros l Hin.
    apply elem_of_leases_at in Hin as (r & Hr & Hp & _). destruct (He r Hr) as [e Hre].
    rewrite Hp in Hre. apply Hlt in Hre. lia. }
  constructor; cbn [dw_tracker dw_out]; try done.
  - intros gk e' H. apply Hcases in H as [[Hgk [st ->]]|(_ & e & c & Het & _ & ->)].
    + by rewrite Hempty.
    + rewrite retire_leases. by apply Hl.
  - intros r Hr. destruct (He r Hr) as [e Hre]. rewrite reconcile_lookup, Hre.
    destruct (if decide _ then _ else _); eauto.
  - intros gk e' H. exists g. split; [done|].
    apply Hcases in H as [[Hgk _]|[Hgk _]]; lia.
  - intros gk e' H Hs. apply Hcases in H as [[Hgk _]|(_ & e & c & Het & Hc & ->)]; [by rewrite Hgk|].
    exfalso. unfold retire_entry in Hs. case_bool_decide as Hcur; simpl in Hs.
    + by repeat case_bool_decide.
    + apply (Ha _ _ Het) in Hs. congruence.
  - intros gk e' H Hs. apply Hcases in H as [[Hgk [st ->]]|(_ & e & c & Het & Hc & ->)]; [done|].
    rewrite retire_leases. unfold retire_entry in Hs. case_bool_decide; simpl in Hs.
    + by repeat case_bool_decide.
    + by apply (Hd _ _ Het).
Qed.



Lemma leases_at_cons gk r out :
  leases_at gk (r :: out)
  = if decide (place_of r = gk) then {[ref_lease_id r]} ∪ leases_at gk out else leases_at gk out.
Proof.
  unfold leases_at, holders. case_decide.
  - by rewrite filter_cons_True by done.
  - by rewrite filter_cons_False by done.
Qed.

Lemma leases_at_perm gk out out' : out ≡ₚ out' → leases_at gk out = leases_at gk out'.
Proof. intros Hp. unfold leases_at, holders. apply leibniz_equiv. by rewrite Hp. Qed.

Lemma acquire_ok n w key :
  n < U64_MAX → drain_ok n w → drain_ok (n + 1) (drain_exec (DrainAcquire key) w).
Proof.
  intros Hmax Hw. assert (drain_ok (n + 1) w) as Hid.
  { destruct Hw. constructor; try done. lia. }
  destruct w as [t out]. unfold drain_exec. cbn [dw_tracker dw_out].
  destruct (dt_current_generation t) as [g|] eqn:Hcur; [|done].
  unfold drain_acquire. rewrite bool_decide_eq_true_2 by done. simpl.
  destruct (dt_entries t !! (g, key)) as [e|] eqn:Hgk; [|by destruct Hid].
  case_bool_decide as Hst; simpl; [|by destruct Hid].
  destruct Hw as [Hl He Hnd Hf Hn Hg Ha Hd]. simpl in *.
  set (r := {| ref_generation := g; ref_key := key; ref_lease_id := dt_next_lease_id t |}).
  assert (wrapping_add U64_MAX (dt_next_lease_id t) 1 = dt_next_lease_id t + 1) as Hwrap.
  { unfold wrapping_add. apply N.mod_small. lia. }
  constructor; simpl.
  - intros gk e' H. rewrite leases_at_cons. change (place_of r) with (g, key).
    destruct (decide ((g, key) = gk)) as [<-|Hne].
    + rewrite lookup_insert_eq in H. simplify_eq/=. by rewrite (Hl _ _ Hgk).
    + rewrite lookup_insert_ne in H by done. by apply Hl.
  - intros r' Hr. destruct (decide (place_of r' = (g, key))) as [->|Hne].
    + rewrite lookup_insert_eq. eauto.
    + rewrite lookup_insert_ne by done. apply elem_of_cons in Hr as [->|Hr]; [done|by apply He].
  - constructor; [|done]. intros Hin. apply list_elem_of_fmap in Hin as (r' & E & Hr').
    apply Hf in Hr'. simpl in E. lia.
  - intros r' Hr. rewrite Hwrap. apply elem_of_cons in Hr as [->|Hr]; simpl; [lia|].
    apply Hf in Hr. lia.
  - rewrite Hwrap. lia.
  - intros gk e' H. destruct (decide ((g, key) = gk)) as [<-|Hne]; [exists g; split; [done|simpl; lia]|].
    rewrite lookup_insert_ne in H by done. by eapply Hg.
  - intros gk e' H Hs. destruct (decide ((g, key) = gk)) as [<-|Hne]; [done|].
    rewrite lookup_insert_ne in H by done. by eapply Ha.
  - intros gk e' H Hs. destruct (decide ((g, key) = gk)) as [<-|Hne].
    + rewrite lookup_insert_eq in H. simplify_eq/=. congruence.
    + rewrite lookup_insert_ne in H by done. by eapply Hd.
Qed.

(** What a release does to the entry of an outstanding reference. *)
Lemma release_spec n t out r :
  drain_ok n {| dw_tracker := t; dw_out := out |} → r ∈ out →
  ∃ e s, dt_entries t !! place_of r = Some e ∧ ref_lease_id r ∈ de_leases e
    ∧ (drain_release r t).2
      = {| dt_current_generation := dt_current_generation t;
           dt_entries := <[place_of r := {| de_state := s;
                             de_leases := de_leases e ∖ {[ref_lease_id r]} |}]> (dt_entries t);
           dt_next_lease_id := dt_next_lease_id t |}
    ∧ (drain_release r t).1 ≠ ReleaseUnknown ∧ (drain_release r t).1 ≠ ReleaseUnderflow
    ∧ (s = DrainActive → de_state e = DrainActive)
    ∧ (s = DrainDrained → de_leases e ∖ {[ref_lease_id r]} = ∅).
Proof.
  intros [Hl He _ _ _ _ _ Hd] Hr. simpl in *. destruct (He r Hr) as [e Hre].
  assert (ref_lease_id r ∈ de_leases e) as Hin.
  { rewrite (Hl _ _ Hre). apply elem_of_leases_at. eauto. }
  unfold drain_release. fold (place_of r). rewrite Hre. rewrite bool_decide_eq_true_2 by done. simpl.
  case_bool_decide as Hemp; simpl.
  - destruct (de_state e) eqn:Hs; simpl; do 2 eexists; split_and!; try done.
  - exists e, (de_state e). split_and!; try done. intros Hs. rewrite (Hd _ _ Hre Hs) in Hin. set_solver.
Qed.

Lemma release_ok n w i : drain_ok n w → drain_ok n (drain_exec (DrainRelease i) w).
Proof.
  intros Hw. destruct w as [t out]. unfold drain_exec. cbn [dw_tracker dw_out].
  destruct (out !! i) as [r|] eqn:Hi; [|done].
  assert (r ∈ out) as Hr by (by eapply list_elem_of_lookup_2).
  destruct (release_spec n t out r Hw Hr) as (e & s & Hre & _ & Ht & _ & _ & Hact & Hdr).
  rewrite Ht. clear Ht. destruct Hw as [Hl He Hnd Hf Hn Hg Ha Hd]. simpl in *.
  pose proof (delete_Permutation _ _ _ Hi) as Hperm.
  assert (∀ x, x ∈ delete i out → x ∈ out) as Hsub.
  { intros x Hx. rewrite Hperm. by right. }
  pose proof Hnd as Hnd'. rewrite Hperm, fmap_cons in Hnd'. apply NoDup_cons in Hnd' as [Hnot Hnd'].
  constructor; simpl; auto.
  - intros gk e' H. destruct (decide (place_of r = gk)) as [<-|Hne].
    + rewrite lookup_insert_eq in H. simplify_eq/=. rewrite (Hl _ _ Hre).
      rewrite (leases_at_perm _ _ _ Hperm), leases_at_cons, decide_True by done.
      assert (ref_lease_id r ∉ leases_at (place_of r) (delete i out)); [|set_solver].
      intros Hin. apply elem_of_leases_at in Hin as (r' & Hr' & _ & E). apply Hnot.
      rewrite <-E. by apply list_elem_of_fmap_2.
    + rewrite lookup_insert_ne in H by done. rewrite (Hl _ _ H).
      by rewrite (leases_at_perm _ _ _ Hperm), leases_at_cons, decide_False.
  - intros r' Hr'. destruct (decide (place_of r' = place_of r)) as [->|Hne].
    + rewrite lookup_insert_eq. eauto.
    + rewrite lookup_insert_ne by done. auto.
  - intros gk e' H. destruct (decide (place_of r = gk)) as [<-|Hne]; [by eapply Hg|].
    rewrite lookup_insert_ne in H by done. by eapply Hg.
  - intros gk e' H Hs. destruct (decide (place_of r = gk)) as [<-|Hne].
    + rewrite lookup_insert_eq in H. simplify_eq/=. by apply (Ha (place_of r) e Hre), Hact.
    + rewrite lookup_insert_ne in H by done. by eapply Ha.
  - intros gk e' H Hs. destruct (decide (place_of r = gk)) as [<-|Hne].
    + rewrite lookup_insert_eq in H. simplify_eq/=. auto.
    + rewrite lookup_insert_ne in H by done. by eapply Hd.
Qed.

Lemma drain_run_ok ops : len ops ≤ U64_MAX → drain_ok (len ops) (drain_run ops).
Proof.
  induction ops as [|op ops IH] using rev_ind; intros Hlen.
  { constructor; simpl; try done; [|constructor|]; intros r Hr; by apply not_elem_of_nil in Hr. }
  rewrite len_app, len_cons, len_nil in *.
  assert (drain_ok (len ops) (drain_run ops)) as Hw by (apply IH; lia).
  unfold drain_run in *. rewrite foldl_app. simpl. fold (drain_run ops) in *.
  destruct op as [snapshot step|key|i].
  - apply (reconcile_ok _ _ snapshot step) in Hw. destruct Hw. constructor; try done. simpl in *. lia.
  - replace (len ops + (1 + 0)) with (len ops + 1) by lia. apply acquire_ok; [lia|done].
  - apply (release_ok _ _ i) in Hw. destruct Hw. constructor; try done. lia.
Qed.






(** ** Counting over the generations *)
Definition map_sum {V} (f : N * health_key → V → N) (m : gmap (N * health_key) V) : N :=
  map_fold (λ k v acc, f k v + acc) 0 m.

Lemma map_sum_insert {V} (f : N * health_key → V → N) (k : N * health_key) (v : V) (m : gmap (N * health_key) V) :
  m !! k = None → map_sum f (<[k := v]> m) = f k v + map_sum f m.
Proof. intros Hk. unfold map_sum. rewrite map_fold_insert_L; [done|intros; lia|done]. Qed.

Lemma map_sum_ext {V} (f g : N * health_key → V → N) (m : gmap (N * health_key) V) :
  (∀ k v, m !! k = Some v → f k v = g k v) → map_sum f m = map_sum g m.
Proof.
  induction m as [|k v m Hk IH] using map_ind; intros Hfg; [done|].
  rewrite !map_sum_insert by done. f_equal.
  - apply Hfg, lookup_insert_eq.
  - apply IH. intros k' v' Hm. apply Hfg. rewrite lookup_insert_ne; [done|congruence].
Qed.

Lemma map_sum_zero {V} (m : gmap (N * health_key) V) : map_sum (λ _ _, 0) m = 0.
Proof. induction m as [|k v m Hk IH] using map_ind; [done|]. by rewrite map_sum_insert, IH. Qed.

(** One more at [p] adds one to the sum. *)
Lemma map_sum_bump {V} (f : N * health_key → V → N) (m : gmap (N * health_key) V) p :
  is_Some (m !! p) →
  map_sum (λ k v, (if decide (k = p) then 1 else 0) + f k v) m = 1 + map_sum f m.
Proof.
  intros [v Hv]. rewrite <-(insert_delete_id m p v Hv).
  rewrite !map_sum_insert by apply lookup_delete_eq. rewrite decide_True by done.
  rewrite <-N.add_assoc. f_equal. f_equal. apply map_sum_ext. intros k v' Hk.
  rewrite decide_False; [lia|]. intros ->. by rewrite lookup_delete_eq in Hk.
Qed.

Lemma holders_sum {V} (P : N * health_key → bool) (m : gmap (N * health_key) V)
  (out : list DrainReference) :
  (∀ r, r ∈ out → is_Some (m !! place_of r)) →
  map_sum (λ k _, if P k then len (holders k out) else 0) m
  = len (filter (λ r, P (place_of r) = true) out).
Proof.
  induction out as [|r out IH]; intros Hdom.
  { transitivity (map_sum (λ _ _, 0) m); [|apply map_sum_zero]. apply map_sum_ext.
    intros k v _. by destruct (P k). }
  assert (map_sum (λ k _, if P k then len (holders k out) else 0) m
          = len (filter (λ r, P (place_of r) = true) out)) as IH' by (apply IH; set_solver).
  destruct (decide (P (place_of r) = true)) as [Hp|Hp].
  - rewrite filter_cons_True, len_cons, <-IH' by done.
    rewrite <-(map_sum_bump _ m (place_of r)) by (apply Hdom; by left).
    apply map_sum_ext. intros k v _. unfold holders. destruct (decide (k = place_of r)) as [->|Hne].
    + by rewrite Hp, filter_cons_True, len_cons.
    + rewrite filter_cons_False by congruence. by destruct (P k).
  - rewrite filter_cons_False, <-IH' by done. apply map_sum_ext. intros k v _. unfold holders.
    destruct (P k) eqn:Hk; [|done]. rewrite filter_cons_False; [done|]. congruence.
Qed.

(** The sum of the source, which wraps, and the true sum. *)
Lemma wrapping_sum {V} (c : N * health_key → V → bool) (f : N * health_key → V → N)
  (m : gmap (N * health_key) V) :
  map_fold (λ k v acc, if c k v then wrapping_add U64_MAX acc (f k v) else acc) 0 m
  = map_sum (λ k v, if c k v then f k v else 0) m mod (U64_MAX + 1).
Proof.
  induction m as [|k v m Hk IH] using map_ind; [done|].
  rewrite map_sum_insert by done. rewrite map_fold_insert_L; [| |done].
  - rewrite IH. destruct (c k v); [|done]. unfold wrapping_add.
    rewrite N.Div0.add_mod_idemp_l. f_equal. lia.
  - intros j1 j2 z1 z2 y _ _ _. destruct (c j1 z1), (c j2 z2); try done. unfold wrapping_add.
    rewrite !N.Div0.add_mod_idemp_l. f_equal. lia.
Qed.

Section counts.
Context (n : N) (w : drain_world) (Hmax : n ≤ U64_MAX) (Hw : drain_ok n w).
Notation t := (dw_tracker w).
Notation out := (dw_out w).

Lemma out_bounded : len out ≤ U64_MAX.
Proof using All.
  destruct Hw as [_ _ Hnd Hf Hn _ _ _].
  assert (length out ≤ N.to_nat (dt_next_lease_id t))%nat; [|unfold len; lia].
  rewrite <-(length_fmap ref_lease_id out).
  rewrite <-(length_seq (N.to_nat (dt_next_lease_id t)) 0), <-(length_fmap N.of_nat (seq _ _)).
  apply submseteq_length, NoDup_submseteq; [done|]. intros l Hl.
  apply list_elem_of_fmap in Hl as (r & -> & Hr). apply Hf in Hr.
  apply list_elem_of_fmap. exists (N.to_nat (ref_lease_id r)). rewrite elem_of_seq. lia.
Qed.

Lemma lease_count_holders gk e :
  dt_entries t !! gk = Some e → lease_count (de_leases e) = len (holders gk out).
Proof using Hw.
  destruct Hw as [Hl _ Hnd _ _ _ _ _]. intros He. rewrite (Hl _ _ He). unfold lease_count, leases_at, len.
  rewrite size_list_to_set, length_fmap; [done|]. unfold holders. clear -Hnd.
  induction out as [|r l IH]; [constructor|]. simpl in Hnd. apply NoDup_cons in Hnd as [Hr Hnd].
  destruct (decide (place_of r = gk)).
  - rewrite filter_cons_True by done. constructor; [|by apply IH]. intros Hin. apply Hr.
    apply list_elem_of_fmap in Hin as (r' & -> & Hr'). apply list_elem_of_filter in Hr' as [_ Hr'].
    by apply list_elem_of_fmap_2.
  - rewrite filter_cons_False by done. by apply IH.
Qed.

Definition other_generation (g : N) (key : health_key) (gk : N * health_key) : bool :=
  negb (bool_decide (gk.1 = g)) && bool_decide (gk.2 = key).

Lemma old_count_exact g key :
  default 0 (dt_current_generation t) = g →
  old_count g key t = len (filter (λ r, other_generation g key (place_of r) = true) out).
Proof using All.
  intros Hg. unfold old_count. rewrite (wrapping_sum
    (λ gk e, negb (bool_decide (gk.1 = g)) && bool_decide (gk.2 = key)
             && is_draining_or_removed (de_state e)) (λ _ e, lease_count (de_leases e))).
  set (held_elsewhere := map_sum _ _).
  assert (held_elsewhere = len (filter (λ r, other_generation g key (place_of r) = true) out)) as Heq.
  { rewrite <-(holders_sum (other_generation g key) (dt_entries t)) by apply Hw.
    apply map_sum_ext. intros gk e He. unfold other_generation.
    case_bool_decide as Hgk; simpl; [done|]. case_bool_decide; simpl; [|done].
    rewrite <-(lease_count_holders gk e He).
    destruct (de_state e) eqn:Hs; simpl; try done.
    - apply (dk_active _ _ Hw _ _ He) in Hs. rewrite Hs in Hg. done.
    - by rewrite (dk_drained _ _ Hw _ _ He Hs). }
  rewrite Heq. apply N.mod_small. pose proof out_bounded.
  pose proof (length_filter (λ r, other_generation g key (place_of r) = true) out).
  unfold len in *. lia.
Qed.

Lemma holders_split g key (l : list DrainReference) :
  len (filter (λ r, ref_key r = key) l)
  = len (holders (g, key) l) + len (filter (λ r, other_generation g key (place_of r) = true) l).
Proof.
  unfold holders, other_generation. induction l as [|r l IH]; [done|].
  destruct (decide (ref_key r = key)) as [Hk|Hk]; cycle 1.
  - rewrite !filter_cons_False; [done| |unfold place_of; congruence|done].
    simpl. rewrite (bool_decide_eq_false_2 (ref_key r = key)) by done. by rewrite andb_false_r.
  - rewrite filter_cons_True, len_cons, IH by done. destruct (decide (ref_generation r = g)) as [Hg|Hg].
    + rewrite filter_cons_True by (unfold place_of; congruence).
      rewrite filter_cons_False; [rewrite len_cons; lia|]. simpl. by rewrite bool_decide_eq_true_2.
    + rewrite filter_cons_False by (unfold place_of; congruence).
      rewrite filter_cons_True; [rewrite len_cons; lia|]. simpl.
      by rewrite bool_decide_eq_false_2, bool_decide_eq_true_2.
Qed.

Lemma status_exact g key :
  ds_connection_count (default {| ds_state := DrainRemoved; ds_connection_count := 0 |}
                         (drain_status g key t)) = len (holders (g, key) out).
Proof using Hw.
  unfold drain_status. destruct (dt_entries t !! (g, key)) as [e|] eqn:He; simpl.
  - by apply lease_count_holders.
  - destruct (holders (g, key) out) as [|r l] eqn:Hh; [done|].
    assert (r ∈ holders (g, key) out) as Hr by (rewrite Hh; by left).
    apply list_elem_of_filter in Hr as [Hp Hr]. apply (dk_entry _ _ Hw) in Hr as [e Hre].
    rewrite Hp, He in Hre. done.
Qed.

Lemma runtime_status_exact ku :
  rus_connection_count (upstream_runtime_status t (default 0 (dt_current_generation t)) ku)
  = len (filter (λ r, ref_key r = ku.1) out).
Proof using All.
  destruct ku as [key u]. cbn [upstream_runtime_status rus_connection_count fst].
  rewrite status_exact, old_count_exact by done. rewrite (holders_split (default 0 (dt_current_generation t))).
  unfold saturating_add. apply N.min_r. rewrite <-holders_split.
  pose proof out_bounded. pose proof (length_filter (λ r, ref_key r = key) out). unfold len in *. lia.
Qed.
End counts.

(** C28: over any history of configuration changes, acquisitions and releases, a reference that
    was handed out can be given back exactly once and is never unknown; the count of an entry is
    the number of references outstanding for it; an entry is Drained only when nothing is
    outstanding and Active only in the current generation; and the published status of an
    upstream counts the references of all generations, so it says Drained only when no
    connection of any generation uses the upstream any more. *)
Theorem drain_accounting_exact ops :
  len ops ≤ U64_MAX →
  let w := drain_run ops in
  let t := dw_tracker w in
  (∀ r, r ∈ dw_out w →
    (drain_release r t).1 ≠ ReleaseUnknown ∧ (drain_release r t).1 ≠ ReleaseUnderflow
    ∧ (drain_release r (drain_release r t).2).1 = ReleaseUnderflow)
  ∧ (∀ g k st, drain_status g k t = Some st →
      ds_connection_count st = len (holders (g, k) (dw_out w))
      ∧ (ds_state st = DrainDrained → ds_connection_count st = 0)
      ∧ (ds_state st = DrainActive → dt_current_generation t = Some g))
  ∧ (∀ snapshot st, st ∈ russ_upstreams (operational_snapshot snapshot t) →
      rus_connection_count st = len (filter (λ r, ref_key r = rus_key st) (dw_out w))
      ∧ (rus_state st = RuntimeDrained → ∀ r, r ∈ dw_out w → ref_key r ≠ rus_key st)).
Proof.
  intros Hlen w t. pose proof (drain_run_ok ops Hlen) as Hw. fold w in Hw. split_and!.
  - intros r Hr. destruct (release_spec (len ops) t (dw_out w) r) as (e & s & He & _ & Ht & H1 & H2 & _);
      [by destruct Hw|done|].
    split_and!; [done..|]. rewrite Ht. unfold drain_release at 1. fold (place_of r).
    cbn [dt_entries]. rewrite lookup_insert_eq. cbn [de_leases].
    rewrite bool_decide_eq_false_2 by set_solver. done.
  - intros g k st Hst. unfold drain_status in Hst. apply fmap_Some in Hst as (e & He & ->). simpl.
    split_and!.
    + by apply (lease_count_holders (len ops)).
    + intros Hs. by rewrite (dk_drained _ _ Hw _ _ He Hs).
    + intros Hs. by apply (dk_active _ _ Hw _ _ He).
  - intros snapshot st Hin. apply list_elem_of_fmap in Hin as (ku & -> & _).
    pose proof (runtime_status_exact (len ops) w Hlen Hw ku) as Hc. fold t in Hc.
    destruct ku as [key u]. split; [done|].
    intros Hs r Hr Hk. cbn [upstream_runtime_status rus_state rus_key] in *.
    case_bool_decide; [|done].
    cbn [rus_connection_count fst] in Hc. rewrite Hc in Hs.
    destruct (N.eqb_spec (len (filter (λ r, ref_key r = key) (dw_out w))) 0) as [E|]; [|done].
    apply len_zero in E. assert (r ∈ filter (λ r, ref_key r = key) (dw_out w)) as Hf
      by (by apply list_elem_of_filter). rewrite E in Hf. by apply not_elem_of_nil in Hf.
Qed.

Definition drain_example (state : UpstreamAdministrativeState) : ConfigSnapshot :=
  {| snap_schema_version := 1; snap_revision_id := lit "r";
     snap_admin := {| admin_bind := lit "127.0.0.1:9443"; admin_auth_required := true |};
     snap_listeners := []; snap_routes := [];
     snap_services := [{| svc_id := lit "api";
                          svc_upstreams := [{| up_id := lit "a"; up_url := lit "http://127.0.0.1:80";
                                               up_administrative_state := state;
                                               up_tls := Endpoint.TlsDisabled |}];
                          svc_policy := ServicePolicy_default |}];
     snap_certificate_resolvers := []; snap_log_mode := LogProduct;
     snap_runtime := snap_runtime (items_snapshot (PathMatch_prefix (lit "/"))) |}.

(** A connection acquired before its upstream was set to drain keeps it Draining. *)
Definition drain_example_ops : list drain_op :=
  [DrainReconcile (drain_example AdminActive) 1; DrainAcquire (lit "api", lit "a");
   DrainReconcile (drain_example AdminDraining) 0].

Definition drain_example_status : RuntimeUpstreamStatus :=
  {| rus_key := (lit "api", lit "a"); rus_state := RuntimeDraining; rus_connection_count := 1 |}.

Lemma drain_accounting_exact_witness :
  let w := drain_run drain_example_ops in
  russ_upstreams (operational_snapshot (drain_example AdminDraining) (dw_tracker w))
    = [drain_example_status]
  ∧ rus_connection_count drain_example_status
    = len (filter (λ r, ref_key r = rus_key drain_example_status) (dw_out w)).
Proof.
  assert (russ_upstreams (operational_snapshot (drain_example AdminDraining)
            (dw_tracker (drain_run drain_example_ops))) = [drain_example_status]) as E
    by (vm_compute; reflexivity).
  split; [exact E|].
  apply (proj2 (proj2 (drain_accounting_exact drain_example_ops ltac:(vm_compute; discriminate)))
           (drain_example AdminDraining)).
  rewrite E. by left.
Defined.
