(* ===== verification/Health.v ===== *)
(** * Health supervision

    [HealthGenerationAllocator] and [HealthSupervisor] of crates/edge-application/src/health.rs
    (which probes are sent, which results count) and [PassiveHealthSupervisor] of
    passive_health.rs (what failed requests say about an upstream), on top of the transitions of
    UpstreamPolicy.v.  The main theorem follows probes through any interleaving of ticks,
    results, rejections and duplicates; the last section shows three places where the routing
    document of the repository and the code disagree. *)

From stdpp Require Import base strings gmap list sorting.
From Stdlib Require Import Strings.Byte.
From S2P Require Import Prelude Errors RustStr Endpoint UpstreamPolicy Snapshot Drain.
Open Scope N_scope.

(** ** Generations *)
Definition HealthGenerationAllocator : Type := option N.
Definition generation_new : HealthGenerationAllocator := Some 1.

Definition generation_allocate (next : HealthGenerationAllocator)
  : result AppError N * HealthGenerationAllocator :=
  match next with
  | None => (Err (AppError_new InternalBug "health generation space is exhausted"), next)
  | Some value => (Ok value, checked_add U64_MAX value 1)
  end.

(** ** When a probe is due

    FNV-1a over the key and the generation spreads the probes over a tenth of the interval. *)
Fixpoint le_bytes (n : nat) (v : N) : list N :=
  match n with O => [] | S n => v mod 256 :: le_bytes n (v / 256) end.

Definition fnv_step (hash byte : N) : N := wrapping_mul U64_MAX (N.lxor hash byte) 1099511628211.

Definition health_jitter_ms (key : health_key) (generation interval_ms : N) : N :=
  let maximum := interval_ms / 10 in
  if maximum =? 0 then 0
  else
    let hash := foldl fnv_step 14695981039346656037
      ((u8 <$> key.1) ++ [255] ++ (u8 <$> key.2) ++ le_bytes 8 generation) in
    hash mod saturating_add U64_MAX maximum 1.

Definition next_probe_due_ms (key : health_key) (generation interval_ms event_at_ms : N) : N :=
  saturating_add U64_MAX (saturating_add U64_MAX event_at_ms interval_ms)
    (health_jitter_ms key generation interval_ms).

(** ** The supervisor *)
Inductive HealthSupervisorState : Set := SupRunning | SupStopped.
#[global] Instance HealthSupervisorState_eq_dec : EqDecision HealthSupervisorState.
Proof. solve_decision. Defined.

Inductive ProbeScheduleState : Set :=
| ProbeDisabled
| ProbeScheduled (next_due_ms : N)
| ProbeInFlight (probe_id : N)
| ProbeStopped.

Inductive ProbeResultIgnored : Set :=
| IgnoredStaleGeneration | IgnoredUnknownUpstream | IgnoredNotInFlight | IgnoredRequestMismatch
| IgnoredStopped.

Inductive HandleProbeResult :=
| ProbeApplied (availability : UpstreamAvailability) (change : option HealthStateChange)
| ProbeIgnored (reason : ProbeResultIgnored).

Inductive HandleProbeDispatchRejection :=
| RejectionRescheduled (next_due_ms : N)
| RejectionIgnored (reason : ProbeResultIgnored).

Record HealthEntry := {
  he_endpoint : UpstreamEndpoint;
  he_tls : UpstreamTlsPolicy;
  he_policy : option HttpHealthCheckPolicy;
  he_health : UpstreamHealthState;
  he_schedule : ProbeScheduleState
}.

Record HealthProbeRequest := {
  pr_probe_id : N;
  pr_revision_id : list byte;
  pr_generation : N;
  pr_key : health_key;
  pr_endpoint : UpstreamEndpoint;
  pr_tls : UpstreamTlsPolicy;
  pr_path : list byte;
  pr_timeout_ms : N;
  pr_status_min : N;
  pr_status_max : N
}.

Record HealthSupervisor := {
  sup_revision_id : list byte;
  sup_generation : N;
  sup_state : HealthSupervisorState;
  sup_entries : gmap health_key HealthEntry;
  sup_next_probe_id : N
}.

Definition set_entries (m : gmap health_key HealthEntry) (s : HealthSupervisor) : HealthSupervisor :=
  {| sup_revision_id := sup_revision_id s; sup_generation := sup_generation s;
     sup_state := sup_state s; sup_entries := m; sup_next_probe_id := sup_next_probe_id s |}.

Definition set_schedule (st : ProbeScheduleState) (e : HealthEntry) : HealthEntry :=
  {| he_endpoint := he_endpoint e; he_tls := he_tls e; he_policy := he_policy e;
     he_health := he_health e; he_schedule := st |}.

Definition set_health (h : UpstreamHealthState) (e : HealthEntry) : HealthEntry :=
  {| he_endpoint := he_endpoint e; he_tls := he_tls e; he_policy := he_policy e;
     he_health := h; he_schedule := he_schedule e |}.

Definition scheme_matches_tls (scheme : UpstreamScheme) (tls : UpstreamTlsPolicy) : bool :=
  match scheme, tls with
  | SchemeHttp, TlsDisabled => true
  | SchemeHttps, TlsServerAuthenticated _ _ _ => true
  | _, _ => false
  end.

Definition activate_upstream (service : Service) (now_ms : N) (upstream : Upstream)
  : result AppError HealthEntry :=
  let '(policy, health, schedule) :=
    match sp_health_check (svc_policy service) with
    | HealthDisabled => (None, HealthStateDisabled, ProbeDisabled)
    | HealthHttp policy =>
        (Some policy, health_for_policy (sp_health_check (svc_policy service)), ProbeScheduled now_ms)
    end in
  let? endpoint := match endpoint_parse (up_url upstream) with
                   | Ok endpoint => Ok endpoint
                   | Err e => Err (AppError_new (val_code e) (val_message e))
                   end in
  if negb (scheme_matches_tls (ep_scheme endpoint) (up_tls upstream))
  then Err (AppError_new UpstreamTlsProfileInvalid "upstream TLS profile is invalid")
  else Ok {| he_endpoint := endpoint; he_tls := up_tls upstream; he_policy := policy;
             he_health := health; he_schedule := schedule |}.

Fixpoint activate_upstreams (service : Service) (now_ms : N) (upstreams : list Upstream)
  (entries : gmap health_key HealthEntry) : result AppError (gmap health_key HealthEntry) :=
  match upstreams with
  | [] => Ok entries
  | u :: rest =>
      let? entry := activate_upstream service now_ms u in
      activate_upstreams service now_ms rest (<[(svc_id service, up_id u) := entry]> entries)
  end.

Fixpoint activate_services (now_ms : N) (services : list Service)
  (entries : gmap health_key HealthEntry) : result AppError (gmap health_key HealthEntry) :=
  match services with
  | [] => Ok entries
  | s :: rest =>
      let? entries := activate_upstreams s now_ms (svc_upstreams s) entries in
      activate_services now_ms rest entries
  end.

Definition supervisor_activate (snapshot : ConfigSnapshot) (generation now_ms : N)
  : result AppError HealthSupervisor :=
  let? entries := activate_services now_ms (snap_services snapshot) ∅ in
  Ok {| sup_revision_id := snap_revision_id snapshot; sup_generation := generation;
        sup_state := SupRunning; sup_entries := entries; sup_next_probe_id := 0 |}.

Record HealthReconciliationEntry := {
  hre_endpoint : UpstreamEndpoint;
  hre_tls : UpstreamTlsPolicy;
  hre_policy : option HttpHealthCheckPolicy;
  hre_health : UpstreamHealthState
}.
Record HealthReconciliationSnapshot := {
  hrs_revision_id : list byte;
  hrs_generation : N;
  hrs_entries : gmap health_key HealthReconciliationEntry
}.

#[global] Instance UpstreamTlsPolicy_eq_dec : EqDecision UpstreamTlsPolicy.
Proof. solve_decision. Defined.
#[global] Instance HttpHealthCheckPolicy_eq_dec : EqDecision HttpHealthCheckPolicy.
Proof. solve_decision. Defined.

Definition carry_health (prior : option HealthReconciliationEntry) (entry : HealthEntry) : HealthEntry :=
  match prior with
  | None => entry
  | Some prior =>
      if bool_decide (he_endpoint entry = hre_endpoint prior)
         && bool_decide (he_tls entry = hre_tls prior)
         && bool_decide (he_policy entry = hre_policy prior)
      then set_health (hre_health prior) entry else entry
  end.

Definition activate_reconciled (snapshot : ConfigSnapshot) (generation now_ms : N)
  (previous : option HealthReconciliationSnapshot) : result AppError HealthSupervisor :=
  let? supervisor := supervisor_activate snapshot generation now_ms in
  match previous with
  | None => Ok supervisor
  | Some previous =>
      Ok (set_entries (map_imap (λ key entry, Some (carry_health (hrs_entries previous !! key) entry))
                         (sup_entries supervisor)) supervisor)
  end.

Definition sup_availability_snapshot (s : HealthSupervisor) : HealthAvailabilitySnapshot :=
  {| has_revision_id := sup_revision_id s; has_generation := sup_generation s;
     has_entries := (λ e, health_availability (he_health e)) <$> sup_entries s |}.

Definition reconciliation_snapshot (s : HealthSupervisor) : HealthReconciliationSnapshot :=
  {| hrs_revision_id := sup_revision_id s; hrs_generation := sup_generation s;
     hrs_entries := (λ e, {| hre_endpoint := he_endpoint e; hre_tls := he_tls e;
                             hre_policy := he_policy e; hre_health := he_health e |})
                      <$> sup_entries s |}.

Definition sup_availability (key : health_key) (s : HealthSupervisor) : option UpstreamAvailability :=
  (λ e, health_availability (he_health e)) <$> sup_entries s !! key.

(** The order of a [BTreeMap] keyed by [UpstreamHealthKey]: the strings are compared byte by
    byte, the service id first. *)
Definition key_compare (a b : health_key) : comparison :=
  match bytes_compare a.1 b.1 with Eq => bytes_compare a.2 b.2 | c => c end.

Definition entry_before (a b : health_key * HealthEntry) : Prop := key_compare a.1 b.1 ≠ Gt.
#[global] Instance entry_before_dec : RelDecision entry_before.
Proof. intros a b. unfold entry_before. destruct (key_compare a.1 b.1); [left|left|right]; congruence. Defined.

Definition entries_in_order (m : gmap health_key HealthEntry) : list (health_key * HealthEntry) :=
  merge_sort entry_before (map_to_list m).

Definition probe_request (s : HealthSupervisor) (key : health_key) (entry : HealthEntry)
  (policy : HttpHealthCheckPolicy) : HealthProbeRequest :=
  {| pr_probe_id := sup_next_probe_id s; pr_revision_id := sup_revision_id s;
     pr_generation := sup_generation s; pr_key := key; pr_endpoint := he_endpoint entry;
     pr_tls := he_tls entry; pr_path := hc_path policy; pr_timeout_ms := hc_timeout_ms policy;
     pr_status_min := hc_status_min policy; pr_status_max := hc_status_max policy |}.

(** The policy of an entry whose probe is due. *)
Definition due_policy (now_ms : N) (entry : HealthEntry) : option HttpHealthCheckPolicy :=
  match he_schedule entry with
  | ProbeScheduled next_due_ms => if now_ms <? next_due_ms then None else he_policy entry
  | _ => None
  end.

Definition dispatch_probe (s : HealthSupervisor) (key : health_key) (entry : HealthEntry)
  : HealthSupervisor :=
  {| sup_revision_id := sup_revision_id s; sup_generation := sup_generation s;
     sup_state := sup_state s;
     sup_entries := <[key := set_schedule (ProbeInFlight (sup_next_probe_id s)) entry]> (sup_entries s);
     sup_next_probe_id := wrapping_add U64_MAX (sup_next_probe_id s) 1 |}.

Fixpoint tick_loop (now_ms max_work : N) (es : list (health_key * HealthEntry))
  (s : HealthSupervisor) (work : list HealthProbeRequest)
  : list HealthProbeRequest * HealthSupervisor :=
  match es with
  | [] => (work, s)
  | (key, entry) :: rest =>
      if max_work <=? len work then (work, s)
      else
        match due_policy now_ms entry with
        | None => tick_loop now_ms max_work rest s work
        | Some policy =>
            tick_loop now_ms max_work rest (dispatch_probe s key entry)
              (work ++ [probe_request s key entry policy])
        end
  end.

Definition handle_tick (now_ms max_work : N) (s : HealthSupervisor)
  : list HealthProbeRequest * HealthSupervisor :=
  if bool_decide (sup_state s = SupStopped) || (max_work =? 0) then ([], s)
  else tick_loop now_ms max_work (entries_in_order (sup_entries s)) s [].

Definition validate_probe_request (request : HealthProbeRequest) (s : HealthSupervisor)
  : result ProbeResultIgnored () :=
  if bool_decide (sup_state s = SupStopped) then Err IgnoredStopped
  else if negb (pr_generation request =? sup_generation s)
          || negb (bool_decide (pr_revision_id request = sup_revision_id s))
  then Err IgnoredStaleGeneration
  else
    match sup_entries s !! pr_key request with
    | None => Err IgnoredUnknownUpstream
    | Some entry =>
        match he_schedule entry with
        | ProbeInFlight probe_id =>
            if probe_id =? pr_probe_id request then Ok tt else Err IgnoredRequestMismatch
        | _ => Err IgnoredNotInFlight
        end
    end.

Definition handle_probe_result (request : HealthProbeRequest) (observation : HealthObservation)
  (completed_at_ms : N) (s : HealthSupervisor) : HandleProbeResult * HealthSupervisor :=
  match validate_probe_request request s with
  | Err reason => (ProbeIgnored reason, s)
  | Ok _ =>
      match sup_entries s !! pr_key request with
      | None => (ProbeIgnored IgnoredUnknownUpstream, s)
      | Some entry =>
          match he_policy entry with
          | None => (ProbeIgnored IgnoredNotInFlight, s)
          | Some policy =>
              let transition := transition_upstream_health (he_health entry) observation policy in
              let due := next_probe_due_ms (pr_key request) (pr_generation request)
                           (hc_interval_ms policy) completed_at_ms in
              let entry := set_schedule (ProbeScheduled due) (set_health (tr_state transition) entry) in
              (ProbeApplied (health_availability (he_health entry)) (tr_change transition),
               set_entries (<[pr_key request := entry]> (sup_entries s)) s)
          end
      end
  end.

Definition handle_probe_dispatch_rejected (request : HealthProbeRequest) (rejected_at_ms : N)
  (s : HealthSupervisor) : HandleProbeDispatchRejection * HealthSupervisor :=
  match validate_probe_request request s with
  | Err reason => (RejectionIgnored reason, s)
  | Ok _ =>
      match sup_entries s !! pr_key request with
      | None => (RejectionIgnored IgnoredUnknownUpstream, s)
      | Some entry =>
          match he_policy entry with
          | None => (RejectionIgnored IgnoredNotInFlight, s)
          | Some policy =>
              let due := next_probe_due_ms (pr_key request) (pr_generation request)
                           (hc_interval_ms policy) rejected_at_ms in
              (RejectionRescheduled due,
               set_entries (<[pr_key request := set_schedule (ProbeScheduled due) entry]>
                              (sup_entries s)) s)
          end
      end
  end.

Definition supervisor_shutdown (s : HealthSupervisor) : HealthSupervisor :=
  {| sup_revision_id := sup_revision_id s; sup_generation := sup_generation s;
     sup_state := SupStopped; sup_entries := set_schedule ProbeStopped <$> sup_entries s;
     sup_next_probe_id := sup_next_probe_id s |}.

(** ** Passive observations *)
Inductive PassiveObservationDeliveryState : Set := DeliveryHealthy | DeliveryDegraded.
Inductive PassiveObservationDeliveryChange : Set :=
| DeliveryChangeNone | DeliveryChangeDegraded | DeliveryChangeRecovered.
Inductive PassiveObservationSubmit : Set := SubmitAccepted | SubmitFull | SubmitStopped.

Definition transition_passive_observation_delivery (state : PassiveObservationDeliveryState)
  (r : PassiveObservationSubmit)
  : PassiveObservationDeliveryChange * PassiveObservationDeliveryState :=
  match state, r with
  | DeliveryHealthy, (SubmitFull | SubmitStopped) => (DeliveryChangeDegraded, DeliveryDegraded)
  | DeliveryDegraded, SubmitAccepted => (DeliveryChangeRecovered, DeliveryHealthy)
  | _, _ => (DeliveryChangeNone, state)
  end.

Inductive PassiveFailureReason : Set :=
| ReasonConnect | ReasonConnectTimeout | ReasonWrite | ReasonRead | ReasonReadTimeout
| ReasonResetBeforeResponse.
Inductive PassiveObservationOutcome : Set :=
| OutcomeSucceeded
| OutcomeFailed (reason : PassiveFailureReason).
Record PassiveObservation := {
  po_revision_id : list byte;
  po_generation : N;
  po_key : health_key;
  po_outcome : PassiveObservationOutcome;
  po_observed_at_ms : N
}.

Inductive PassiveObservationIgnored : Set :=
| PassiveStaleRevision | PassiveStaleGeneration | PassiveUnknownUpstream | PassiveTargetDisabled.
Inductive HandlePassiveObservation : Set :=
| PassiveApplied (state : PassiveHealthState)
| PassiveIgnored (reason : PassiveObservationIgnored).

Record PassiveTarget := { pt_policy : PassiveHealthPolicy; pt_state : PassiveHealthState }.
Record PassiveHealthSupervisor := {
  ps_revision_id : list byte;
  ps_generation : N;
  ps_targets : gmap health_key PassiveTarget
}.

Definition passive_new (revision_id : list byte) (generation : N) : PassiveHealthSupervisor :=
  {| ps_revision_id := revision_id; ps_generation := generation; ps_targets := ∅ |}.

Definition set_targets (m : gmap health_key PassiveTarget) (s : PassiveHealthSupervisor) :=
  {| ps_revision_id := ps_revision_id s; ps_generation := ps_generation s; ps_targets := m |}.

Definition passive_register (key : health_key) (policy : PassiveHealthPolicy) (enabled : bool)
  (s : PassiveHealthSupervisor) : PassiveHealthSupervisor :=
  set_targets (<[key := {| pt_policy := policy;
                           pt_state := if enabled then passive_observing else PassiveDisabled |}]>
                 (ps_targets s)) s.

Definition passive_handle (observation : PassiveObservation) (s : PassiveHealthSupervisor)
  : HandlePassiveObservation * PassiveHealthSupervisor :=
  if negb (bool_decide (po_revision_id observation = ps_revision_id s))
  then (PassiveIgnored PassiveStaleRevision, s)
  else if negb (po_generation observation =? ps_generation s)
  then (PassiveIgnored PassiveStaleGeneration, s)
  else
    match ps_targets s !! po_key observation with
    | None => (PassiveIgnored PassiveUnknownUpstream, s)
    | Some target =>
        if bool_decide (pt_state target = PassiveDisabled)
        then (PassiveIgnored PassiveTargetDisabled, s)
        else
          let event := match po_outcome observation with
                       | OutcomeSucceeded => EvSucceeded
                       | OutcomeFailed _ => EvFailed (po_observed_at_ms observation)
                       end in
          let next := transition_passive_health (pt_state target) event (pt_policy target) in
          (PassiveApplied next,
           set_targets (<[po_key observation := {| pt_policy := pt_policy target; pt_state := next |}]>
                          (ps_targets s)) s)
    end.

Definition passive_state (key : health_key) (s : PassiveHealthSupervisor) : option PassiveHealthState :=
  pt_state <$> ps_targets s !! key.

Definition cool_down (now_ms : N) (target : PassiveTarget) : PassiveTarget :=
  {| pt_policy := pt_policy target;
     pt_state := transition_passive_health (pt_state target) (EvCooldownElapsed now_ms)
                   (pt_policy target) |}.

Definition expire_cooldowns (now_ms : N) (s : PassiveHealthSupervisor)
  : bool * PassiveHealthSupervisor :=
  (map_fold (λ _ target changed,
               changed || negb (bool_decide (pt_state (cool_down now_ms target) = pt_state target)))
     false (ps_targets s),
   set_targets (cool_down now_ms <$> ps_targets s) s).

Definition effective_step (s : PassiveHealthSupervisor)
  (entries : gmap health_key UpstreamAvailability) (ku : health_key * Upstream)
  : gmap health_key UpstreamAvailability :=
  let '(key, upstream) := ku in
  let active_health := default AvailUnknown (entries !! key) in
  let effective := effective_eligibility
    {| eus_membership := MemberPresent;
       eus_administrative := up_administrative_state upstream;
       eus_active_health := active_health;
       eus_passive_health := default PassiveDisabled (passive_state key s) |} in
  <[key := match effective with
           | Eligible => active_health
           | Excluded _ => AvailUnhealthy
           end]> entries.

Definition effective_availability (config : ConfigSnapshot) (active : HealthAvailabilitySnapshot)
  (s : PassiveHealthSupervisor) : HealthAvailabilitySnapshot :=
  {| has_revision_id := ps_revision_id s; has_generation := ps_generation s;
     has_entries := foldl (effective_step s) (has_entries active) (snapshot_upstreams config) |}.











(** ** Probes through any history *)
Record probe_world := {
  pw_sup : HealthSupervisor;
  pw_out : list HealthProbeRequest;
  pw_done : list HealthProbeRequest;
  pw_log : list (health_key * HealthObservation)
}.

(** [ProbeResultOf i] and [ProbeRejected i] answer the [i]-th outstanding request,
    [ProbeDuplicate i] answers a request that was answered before. *)
Inductive probe_op : Set :=
| ProbeTick (now_ms max_work : N)
| ProbeResultOf (i : nat) (observation : HealthObservation) (at_ms : N)
| ProbeRejected (i : nat) (at_ms : N)
| ProbeDuplicate (i : nat) (observation : HealthObservation) (at_ms : N)
| ProbeShutdown.

Definition applied (r : HandleProbeResult) : bool :=
  match r with ProbeApplied _ _ => true | ProbeIgnored _ => false end.

Definition probe_exec (op : probe_op) (w : probe_world) : probe_world :=
  match op with
  | ProbeTick now_ms max_work =>
      let '(work, s) := handle_tick now_ms max_work (pw_sup w) in
      {| pw_sup := s; pw_out := pw_out w ++ work; pw_done := pw_done w; pw_log := pw_log w |}
  | ProbeResultOf i observation at_ms =>
      match pw_out w !! i with
      | None => w
      | Some r =>
          let '(outcome, s) := handle_probe_result r observation at_ms (pw_sup w) in
          {| pw_sup := s; pw_out := delete i (pw_out w); pw_done := r :: pw_done w;
             pw_log := if applied outcome then (pr_key r, observation) :: pw_log w else pw_log w |}
      end
  | ProbeRejected i at_ms =>
      match pw_out w !! i with
      | None => w
      | Some r =>
          {| pw_sup := (handle_probe_dispatch_rejected r at_ms (pw_sup w)).2;
             pw_out := delete i (pw_out w); pw_done := r :: pw_done w; pw_log := pw_log w |}
      end
  | ProbeDuplicate i observation at_ms =>
      match pw_done w !! i with
      | None => w
      | Some r =>
          let '(outcome, s) := handle_probe_result r observation at_ms (pw_sup w) in
          {| pw_sup := s; pw_out := pw_out w; pw_done := pw_done w;
             pw_log := if applied outcome then (pr_key r, observation) :: pw_log w else pw_log w |}
      end
  | ProbeShutdown =>
      {| pw_sup := supervisor_shutdown (pw_sup w); pw_out := pw_out w; pw_done := pw_done w;
         pw_log := pw_log w |}
  end.

Definition probe_run (ops : list probe_op) (s : HealthSupervisor) : probe_world :=
  foldl (λ w op, probe_exec op w) {| pw_sup := s; pw_out := []; pw_done := []; pw_log := [] |} ops.

(** The observations of one upstream, newest first. *)
Definition observations (key : health_key) (log : list (health_key * HealthObservation))
  : list HealthObservation := (filter (λ ko, ko.1 = key) log).*2.

Definition dispatched (w : probe_world) : list HealthProbeRequest := pw_out w ++ pw_done w.

Record probe_ok (w : probe_world) : Prop := {
  pk_next : sup_next_probe_id (pw_sup w) = len (dispatched w);
  pk_ids : NoDup (pr_probe_id <$> dispatched w);
  pk_fresh : ∀ r, r ∈ dispatched w → pr_probe_id r < sup_next_probe_id (pw_sup w);
  pk_generation : ∀ r, r ∈ dispatched w →
    pr_generation r = sup_generation (pw_sup w) ∧ pr_revision_id r = sup_revision_id (pw_sup w);
  pk_out : sup_state (pw_sup w) = SupRunning → ∀ r, r ∈ pw_out w →
    ∃ e, sup_entries (pw_sup w) !! pr_key r = Some e ∧ he_schedule e = ProbeInFlight (pr_probe_id r);
  pk_inflight : ∀ k e id, sup_entries (pw_sup w) !! k = Some e → he_schedule e = ProbeInFlight id →
    ∃ r, r ∈ pw_out w ∧ pr_key r = k ∧ pr_probe_id r = id;
  pk_policy : ∀ k e id, sup_entries (pw_sup w) !! k = Some e → he_schedule e = ProbeInFlight id →
    is_Some (he_policy e);
  pk_health : ∀ k e p, sup_entries (pw_sup w) !! k = Some e → he_policy e = Some p →
    he_health e = health_run p (observations k (pw_log w));
  pk_stopped : sup_state (pw_sup w) = SupStopped → ∀ k e id,
    sup_entries (pw_sup w) !! k = Some e → he_schedule e ≠ ProbeInFlight id
}.

(** *** Ticks *)
Lemma dispatch_ok s out done_ log key entry policy :
  len (out ++ done_) < U64_MAX → sup_state s = SupRunning →
  sup_entries s !! key = Some entry → he_policy entry = Some policy →
  (∀ id, he_schedule entry ≠ ProbeInFlight id) →
  probe_ok {| pw_sup := s; pw_out := out; pw_done := done_; pw_log := log |} →
  probe_ok {| pw_sup := dispatch_probe s key entry;
              pw_out := out ++ [probe_request s key entry policy]; pw_done := done_; pw_log := log |}.
Proof.
  intros Hmax Hrunning Hk Hp Hns [Hn Hi Hf Hg Ho Hin Hpo Hh _]. unfold dispatched in *. simpl in *.
  set (r := probe_request s key entry policy).
  assert (wrapping_add U64_MAX (sup_next_probe_id s) 1 = sup_next_probe_id s + 1) as Hw.
  { unfold wrapping_add. apply N.mod_small. lia. }
  assert ((out ++ [r]) ++ done_ ≡ₚ r :: out ++ done_) as Hperm by solve_Permutation.
  constructor; unfold dispatched; simpl.
  - rewrite Hw, Hn. autorewrite with edge_len. lia.
  - rewrite Hperm, fmap_cons. constructor; [|done]. intros Hx.
    apply list_elem_of_fmap in Hx as (r' & E & Hr'). apply Hf in Hr'. simpl in E. lia.
  - intros r'. rewrite Hperm, elem_of_cons, Hw. intros [->|Hr']; simpl; [lia|]. apply Hf in Hr'. lia.
  - intros r'. rewrite Hperm, elem_of_cons. intros [->|Hr']; [done|by apply Hg].
  - intros Hrun r'. rewrite elem_of_app, list_elem_of_singleton. intros [Hr'| ->].
    + destruct (Ho Hrun r' Hr') as (e & He & Hs). destruct (decide (pr_key r' = key)) as [E|Hne].
      * exfalso. rewrite E, Hk in He. simplify_eq. by eapply Hns.
      * exists e. by rewrite lookup_insert_ne.
    + eexists. simpl. by rewrite lookup_insert_eq.
  - intros k e id He Hs. destruct (decide (k = key)) as [->|Hne].
    + rewrite lookup_insert_eq in He. simplify_eq/=. exists r. rewrite elem_of_app, list_elem_of_singleton. auto.
    + rewrite lookup_insert_ne in He by done. destruct (Hin _ _ _ He Hs) as (r' & ? & ? & ?).
      exists r'. rewrite elem_of_app. auto.
  - intros k e id He Hs. destruct (decide (k = key)) as [->|Hne].
    + rewrite lookup_insert_eq in He. simplify_eq/=. by rewrite Hp.
    + rewrite lookup_insert_ne in He by done. by eapply Hpo.
  - intros k e p He Hpol. destruct (decide (k = key)) as [->|Hne].
    + rewrite lookup_insert_eq in He. simplify_eq/=. by apply Hh.
    + rewrite lookup_insert_ne in He by done. by apply Hh.
  - congruence.
Qed.

Lemma due_policy_Some now e p :
  due_policy now e = Some p → he_policy e = Some p ∧ ∀ id, he_schedule e ≠ ProbeInFlight id.
Proof. unfold due_policy. destruct (he_schedule e); try done. by destruct (now <? _). Qed.

Lemma tick_loop_grows now mx es s work :
  ∃ sent, (tick_loop now mx es s work).1 = work ++ sent.
Proof.
  revert s work. induction es as [|[k e] es IH]; intros s work; simpl; [exists []; by rewrite app_nil_r|].
  destruct (mx <=? len work); [exists []; by rewrite app_nil_r|].
  destruct (due_policy now e) as [p|]; [|apply IH].
  destruct (IH (dispatch_probe s k e) (work ++ [probe_request s k e p])) as [sent ->].
  eexists. by rewrite <-app_assoc.
Qed.

Lemma tick_loop_ok now mx es s work out done_ log sent s' :
  tick_loop now mx es s work = (work ++ sent, s') →
  len ((out ++ sent) ++ done_) ≤ U64_MAX → sup_state s = SupRunning →
  NoDup es.*1 → (∀ k e, (k, e) ∈ es → sup_entries s !! k = Some e) →
  probe_ok {| pw_sup := s; pw_out := out; pw_done := done_; pw_log := log |} →
  probe_ok {| pw_sup := s'; pw_out := out ++ sent; pw_done := done_; pw_log := log |}.
Proof.
  assert (∀ s'', (work, s) = (work ++ sent, s'') → sent = [] ∧ s'' = s) as Hstop.
  { intros s'' E. injection E as E1 ->. split; [|done].
    rewrite <-(app_nil_r work) in E1 at 1. by apply app_inv_head in E1. }
  revert s work out sent Hstop. induction es as [|[k e] es IH];
    intros s work out sent Hstop Ht Hmax Hrun Hnd Hes Hok; simpl in Ht.
  { apply Hstop in Ht as [-> ->]. by rewrite app_nil_r. }
  destruct (mx <=? len work). { apply Hstop in Ht as [-> ->]. by rewrite app_nil_r. }
  apply NoDup_cons in Hnd as [Hk Hnd].
  destruct (due_policy now e) as [p|] eqn:Hd; cycle 1.
  { apply (IH s work); [done..| |done]. intros k' e' Hin. apply Hes. by right. }
  apply due_policy_Some in Hd as [Hp Hns]. clear Hstop.
  assert (sup_entries s !! k = Some e) as He by (apply Hes; by left).
  set (r := probe_request s k e p) in *.
  destruct (tick_loop_grows now mx es (dispatch_probe s k e) (work ++ [r])) as [sent' Hsent].
  rewrite Ht in Hsent. simpl in Hsent. rewrite <-app_assoc in Hsent. apply app_inv_head in Hsent.
  simpl in Hsent. subst sent.
  replace (out ++ r :: sent') with ((out ++ [r]) ++ sent') in * by by rewrite <-app_assoc.
  apply (IH (dispatch_probe s k e) (work ++ [r])); try done.
  - intros s'' E. injection E as E1 E2. split; [|done].
    rewrite <-(app_nil_r (work ++ [r])) in E1 at 1. by apply app_inv_head in E1.
  - by rewrite <-app_assoc.
  - intros k' e' Hin. simpl. rewrite lookup_insert_ne; [apply Hes; by right|].
    intros <-. apply Hk. by apply (list_elem_of_fmap_2 fst _ (k, e')).
  - apply dispatch_ok; try done. revert Hmax. autorewrite with edge_len. lia.
Qed.

Lemma tick_ok w now mx :
  probe_ok w → len (dispatched (probe_exec (ProbeTick now mx) w)) ≤ U64_MAX →
  probe_ok (probe_exec (ProbeTick now mx) w).
Proof.
  intros Hw. unfold probe_exec, handle_tick.
  case_bool_decide as Hst; simpl; [rewrite app_nil_r; by destruct Hw|].
  destruct (mx =? 0); [rewrite app_nil_r; by destruct Hw|].
  destruct (tick_loop _ _ _ _ _) as [work s'] eqn:Ht. intros Hmax.
  apply (tick_loop_ok now mx (entries_in_order (sup_entries (pw_sup w))) (pw_sup w) []); try done.
  - by destruct (sup_state (pw_sup w)).
  - unfold entries_in_order. rewrite merge_sort_Permutation. apply NoDup_fst_map_to_list.
  - intros k e. unfold entries_in_order. rewrite merge_sort_Permutation. apply elem_of_map_to_list.
  - by destruct Hw.
Qed.

(** *** Answers *)
Lemma validate_outstanding w r :
  probe_ok w → sup_state (pw_sup w) = SupRunning → r ∈ pw_out w →
  validate_probe_request r (pw_sup w) = Ok tt
  ∧ ∃ e p, sup_entries (pw_sup w) !! pr_key r = Some e ∧ he_policy e = Some p.
Proof.
  intros Hw Hrun Hr. destruct (pk_out _ Hw Hrun r Hr) as (e & He & Hs).
  destruct (pk_generation _ Hw r) as [Hg Hrev]; [by apply elem_of_app; left|].
  destruct (pk_policy _ Hw _ _ _ He Hs) as [p Hp]. split; [|eauto].
  unfold validate_probe_request. rewrite Hrun, Hg, Hrev, He, Hs, !N.eqb_refl. simpl.
  by rewrite bool_decide_eq_true_2.
Qed.

Lemma validate_answered w r :
  probe_ok w → r ∈ pw_done w → ∃ reason, validate_probe_request r (pw_sup w) = Err reason.
Proof.
  intros Hw Hr. unfold validate_probe_request.
  case_bool_decide; [eauto|]. destruct (negb _ || negb _); [eauto|].
  destruct (sup_entries (pw_sup w) !! pr_key r) as [e|] eqn:He; [|eauto].
  destruct (he_schedule e) as [| |id|] eqn:Hs; eauto.
  destruct (N.eqb_spec id (pr_probe_id r)) as [->|]; [|eauto]. exfalso.
  destruct (pk_inflight _ Hw _ _ _ He Hs) as (r' & Hr' & _ & Hid).
  pose proof (pk_ids _ Hw) as Hnd. unfold dispatched in Hnd. rewrite fmap_app in Hnd.
  apply NoDup_app in Hnd as (_ & Hdisj & _). apply (Hdisj (pr_probe_id r)).
  - rewrite <-Hid. by apply list_elem_of_fmap_2.
  - by apply list_elem_of_fmap_2.
Qed.

Lemma result_answered w r o t :
  probe_ok w → r ∈ pw_done w →
  (handle_probe_result r o t (pw_sup w)).2 = pw_sup w
  ∧ applied (handle_probe_result r o t (pw_sup w)).1 = false.
Proof.
  intros Hw Hr. unfold handle_probe_result. by destruct (validate_answered w r Hw Hr) as [reason ->].
Qed.

Lemma answered_perm {A} (out done_ : list A) i r :
  out !! i = Some r → delete i out ++ r :: done_ ≡ₚ out ++ done_.
Proof.
  intros Hi. etransitivity; [symmetry; apply Permutation_middle|].
  change (r :: delete i out ++ done_) with ((r :: delete i out) ++ done_).
  apply Permutation_app_tail. symmetry. by apply delete_Permutation.
Qed.

(** The world after an outstanding request was answered: its entry is [e'] now. *)
Definition settled (w : probe_world) (i : nat) (r : HealthProbeRequest) (e' : HealthEntry)
  (log : list (health_key * HealthObservation)) : probe_world :=
  {| pw_sup := set_entries (<[pr_key r := e']> (sup_entries (pw_sup w))) (pw_sup w);
     pw_out := delete i (pw_out w); pw_done := r :: pw_done w; pw_log := log |}.

Lemma settled_ok w i r e e' log :
  probe_ok w → sup_state (pw_sup w) = SupRunning → pw_out w !! i = Some r →
  sup_entries (pw_sup w) !! pr_key r = Some e →
  he_policy e' = he_policy e → (∀ id, he_schedule e' ≠ ProbeInFlight id) →
  (∀ p, he_policy e = Some p → he_health e' = health_run p (observations (pr_key r) log)) →
  (∀ k, k ≠ pr_key r → observations k log = observations k (pw_log w)) →
  probe_ok (settled w i r e' log).
Proof.
  intros [Hn Hi Hf Hg Ho Hin Hpo Hh _] Hrun Hri He Hpol Hsch Hhe Hobs.
  pose proof (delete_Permutation _ _ _ Hri) as Hperm.
  assert (dispatched (settled w i r e' log) ≡ₚ dispatched w) as Hd
    by by apply answered_perm.
  assert (∀ r', r' ∈ delete i (pw_out w) → r' ∈ pw_out w ∧ pr_probe_id r' ≠ pr_probe_id r) as Hother.
  { intros r' Hr'. split; [rewrite Hperm; by right|]. intros E.
    unfold dispatched in Hi. rewrite Hperm in Hi. simpl in Hi. apply NoDup_cons in Hi as [Hx _].
    apply Hx. rewrite <-E. apply list_elem_of_fmap_2, elem_of_app. by left. }
  constructor; try setoid_rewrite Hd; try done; simpl in *.
  - rewrite Hn. unfold len. f_equal. by apply Permutation_length.
  - intros _ r' Hr'. apply Hother in Hr' as [Hr' Hne]. destruct (Ho Hrun r' Hr') as (e2 & He2 & Hs2).
    exists e2. rewrite lookup_insert_ne; [done|]. intros E. rewrite <-E, He in He2. simplify_eq.
    destruct (Ho Hrun r) as (e3 & He3 & Hs3); [by eapply list_elem_of_lookup_2|]. congruence.
  - intros k e2 id He2 Hs2. destruct (decide (k = pr_key r)) as [->|Hne].
    + rewrite lookup_insert_eq in He2. simplify_eq. by apply Hsch in Hs2.
    + rewrite lookup_insert_ne in He2 by done. destruct (Hin _ _ _ He2 Hs2) as (r' & Hr' & Hk & Hid).
      exists r'. split; [|done]. rewrite Hperm in Hr'. apply elem_of_cons in Hr' as [->|]; [|done].
      congruence.
  - intros k e2 id He2 Hs2. destruct (decide (k = pr_key r)) as [->|Hne].
    + rewrite lookup_insert_eq in He2. simplify_eq. by apply Hsch in Hs2.
    + rewrite lookup_insert_ne in He2 by done. by eapply Hpo.
  - intros k e2 p He2 Hp. destruct (decide (k = pr_key r)) as [->|Hne].
    + rewrite lookup_insert_eq in He2. simplify_eq. apply Hhe. congruence.
    + rewrite lookup_insert_ne in He2 by done. rewrite Hobs by done. by apply Hh.
  - congruence.
Qed.

(** A stopped supervisor ignores answers. *)
Lemma stopped_ok w i r :
  probe_ok w → sup_state (pw_sup w) = SupStopped → pw_out w !! i = Some r →
  probe_ok {| pw_sup := pw_sup w; pw_out := delete i (pw_out w); pw_done := r :: pw_done w;
              pw_log := pw_log w |}.
Proof.
  intros [Hn Hi Hf Hg Ho Hin Hpo Hh Hst] Hs Hri. pose proof (delete_Permutation _ _ _ Hri) as Hperm.
  assert (dispatched {| pw_sup := pw_sup w; pw_out := delete i (pw_out w); pw_done := r :: pw_done w;
              pw_log := pw_log w |} ≡ₚ dispatched w) as Hd
    by by apply answered_perm.
  constructor; try setoid_rewrite Hd; try done; simpl in *.
  - rewrite Hn. unfold len. f_equal. by apply Permutation_length.
  - congruence.
  - intros k e id He Hsch. by apply (Hst Hs k e id) in He.
Qed.

Lemma observations_cons k o log :
  observations k ((k, o) :: log) = o :: observations k log.
Proof. unfold observations. by rewrite filter_cons_True. Qed.

Lemma observations_other k k' o log :
  k ≠ k' → observations k ((k', o) :: log) = observations k log.
Proof. intros Hne. unfold observations. rewrite filter_cons_False; [done|]. simpl. congruence. Qed.

Lemma result_ok w i o t : probe_ok w → probe_ok (probe_exec (ProbeResultOf i o t) w).
Proof.
  intros Hw. unfold probe_exec. destruct (pw_out w !! i) as [r|] eqn:Hi; [|done].
  assert (r ∈ pw_out w) as Hr by by eapply list_elem_of_lookup_2.
  destruct (sup_state (pw_sup w)) eqn:Hst.
  - destruct (validate_outstanding w r Hw Hst Hr) as (Hv & e & p & He & Hp).
    unfold handle_probe_result. rewrite Hv, He, Hp. simpl.
    apply (settled_ok w i r e); try done; simpl.
    + intros p' Hp'. rewrite observations_cons. simpl. rewrite (pk_health _ Hw _ _ _ He Hp).
      by simplify_eq.
    + intros k Hk. by apply observations_other.
  - unfold handle_probe_result, validate_probe_request.
    rewrite bool_decide_eq_true_2 by done. simpl. by apply stopped_ok.
Qed.

Lemma rejected_ok w i t : probe_ok w → probe_ok (probe_exec (ProbeRejected i t) w).
Proof.
  intros Hw. unfold probe_exec. destruct (pw_out w !! i) as [r|] eqn:Hi; [|done].
  assert (r ∈ pw_out w) as Hr by by eapply list_elem_of_lookup_2.
  destruct (sup_state (pw_sup w)) eqn:Hst.
  - destruct (validate_outstanding w r Hw Hst Hr) as (Hv & e & p & He & Hp).
    unfold handle_probe_dispatch_rejected. rewrite Hv, He, Hp. simpl.
    apply (settled_ok w i r e); try done; simpl.
    intros p' Hp'. by apply (pk_health _ Hw).
  - unfold handle_probe_dispatch_rejected, validate_probe_request.
    rewrite bool_decide_eq_true_2 by done. simpl. by apply stopped_ok.
Qed.

Lemma duplicate_ok w i o t : probe_ok w → probe_ok (probe_exec (ProbeDuplicate i o t) w).
Proof.
  intros Hw. unfold probe_exec. destruct (pw_done w !! i) as [r|] eqn:Hi; [|done].
  assert (r ∈ pw_done w) as Hr by by eapply list_elem_of_lookup_2.
  destruct (result_answered w r o t Hw Hr) as [Hs Ha].
  destruct (handle_probe_result r o t (pw_sup w)) as [outcome s]. simpl in *. rewrite Ha, Hs.
  by destruct Hw.
Qed.

Lemma shutdown_ok w : probe_ok w → probe_ok (probe_exec ProbeShutdown w).
Proof.
  intros [Hn Hi Hf Hg Ho Hin Hpo Hh _]. constructor; simpl; try done.
  - intros k e id He Hs. rewrite lookup_fmap in He. by apply fmap_Some in He as (e0 & _ & ->).
  - intros k e id He Hs. rewrite lookup_fmap in He. by apply fmap_Some in He as (e0 & _ & ->).
  - intros k e p He Hp. rewrite lookup_fmap in He. apply fmap_Some in He as (e0 & He0 & ->).
    exact (Hh k e0 p He0 Hp).
  - intros _ k e id He. rewrite lookup_fmap in He. by apply fmap_Some in He as (e0 & _ & ->).
Qed.

(** *** Activation *)
Definition entry_fresh (e : HealthEntry) : Prop :=
  (∀ id, he_schedule e ≠ ProbeInFlight id) ∧ ∀ p, he_policy e = Some p → he_health e = health_run p [].

Lemma activate_upstream_fresh service now u e :
  activate_upstream service now u = Ok e → entry_fresh e.
Proof.
  unfold activate_upstream. destruct (sp_health_check _) eqn:Hc;
    destruct (endpoint_parse _); try done; destruct (negb _); try done; intros; simpl_result;
    by split.
Qed.

Lemma activate_upstreams_fresh service now us m m' :
  activate_upstreams service now us m = Ok m' →
  map_Forall (λ _, entry_fresh) m → map_Forall (λ _, entry_fresh) m'.
Proof.
  revert m. induction us as [|u us IH]; intros m H Hm; simpl in H; [by simplify_eq|].
  destruct (activate_upstream service now u) as [e|] eqn:He; [|done].
  apply (IH _ H). apply map_Forall_insert_2; [|done]. by eapply activate_upstream_fresh.
Qed.

Lemma activate_services_fresh now ss m m' :
  activate_services now ss m = Ok m' →
  map_Forall (λ _, entry_fresh) m → map_Forall (λ _, entry_fresh) m'.
Proof.
  revert m. induction ss as [|s ss IH]; intros m H Hm; simpl in H; [by simplify_eq|].
  destruct (activate_upstreams s now (svc_upstreams s) m) as [m1|] eqn:He; [|done].
  apply (IH _ H). by eapply activate_upstreams_fresh.
Qed.

Lemma activate_ok snapshot generation now s :
  supervisor_activate snapshot generation now = Ok s →
  probe_ok {| pw_sup := s; pw_out := []; pw_done := []; pw_log := [] |}.
Proof.
  unfold supervisor_activate. intros H.
  destruct (activate_services now (snap_services snapshot) ∅) as [m|] eqn:Hm; [|done]. simpl_result.
  assert (map_Forall (λ _, entry_fresh) m) as Hf.
  { eapply activate_services_fresh; [done|]. apply map_Forall_empty. }
  constructor; simpl; try done; try (intros r Hr; by apply not_elem_of_nil in Hr).
  - constructor.
  - intros _ r Hr. by apply not_elem_of_nil in Hr.
  - intros k e id He Hs. by apply (Hf _ _ He) in Hs.
  - intros k e id He Hs. by apply (Hf _ _ He) in Hs.
  - intros k e p He. by apply (Hf _ _ He).
Qed.

Lemma dispatched_monotone op w : len (dispatched w) ≤ len (dispatched (probe_exec op w)).
Proof.
  unfold dispatched. destruct op as [now mx|i o t|i t|i o t|]; simpl.
  - destruct (handle_tick now mx (pw_sup w)). simpl. len_lia.
  - destruct (pw_out w !! i) as [r|] eqn:Hi; [|lia]. destruct (handle_probe_result _ _ _ _). simpl.
    unfold len. rewrite (Permutation_length (answered_perm _ (pw_done w) _ _ Hi)). lia.
  - destruct (pw_out w !! i) as [r|] eqn:Hi; [|lia]. simpl.
    unfold len. rewrite (Permutation_length (answered_perm _ (pw_done w) _ _ Hi)). lia.
  - destruct (pw_done w !! i); [|lia]. destruct (handle_probe_result _ _ _ _). simpl. lia.
  - lia.
Qed.

Lemma probe_run_ok ops s snapshot generation now :
  supervisor_activate snapshot generation now = Ok s →
  len (dispatched (probe_run ops s)) ≤ U64_MAX → probe_ok (probe_run ops s).
Proof.
  intros Hs. induction ops as [|op ops IH] using rev_ind; intros Hmax; [by eapply activate_ok|].
  unfold probe_run in *. rewrite foldl_app in *. simpl in *. fold (probe_run ops s) in *.
  assert (probe_ok (probe_run ops s)) as Hw.
  { apply IH. pose proof (dispatched_monotone op (probe_run ops s)). lia. }
  destruct op.
  - by apply tick_ok.
  - by apply result_ok.
  - by apply rejected_ok.
  - by apply duplicate_ok.
  - by apply shutdown_ok.
Qed.

(** C30: over any history of ticks, results, rejections, duplicate results and shutdown, an
    upstream never has two probes in flight; while the supervisor runs every outstanding probe's
    result is applied; a probe that was answered, or rejected, is never applied again and a late
    answer changes nothing; and the health of an upstream is the state its policy's transitions
    reach on the results of its own probes, in the order they were applied. *)
Theorem health_probe_cycle snapshot generation now s ops :
  supervisor_activate snapshot generation now = Ok s →
  let w := probe_run ops s in
  len (dispatched w) ≤ U64_MAX →
  (sup_state (pw_sup w) = SupRunning →
     NoDup (pr_key <$> pw_out w)
     ∧ ∀ r o t, r ∈ pw_out w → applied (handle_probe_result r o t (pw_sup w)).1 = true)
  ∧ (∀ r o t, r ∈ pw_done w →
       (handle_probe_result r o t (pw_sup w)).2 = pw_sup w
       ∧ applied (handle_probe_result r o t (pw_sup w)).1 = false)
  ∧ (∀ k e p, sup_entries (pw_sup w) !! k = Some e → he_policy e = Some p →
       he_health e = health_run p (observations k (pw_log w))).
Proof.
  intros Hs w Hmax. pose proof (probe_run_ok ops s _ _ _ Hs Hmax) as Hw. fold w in Hw. split_and!.
  - intros Hrun. split.
    + assert (NoDup (pr_probe_id <$> pw_out w)) as Hnd.
      { pose proof (pk_ids _ Hw) as Hi. unfold dispatched in Hi. rewrite fmap_app in Hi.
        by apply NoDup_app in Hi as (? & _). }
      apply NoDup_alt. intros i j k Hi Hj. rewrite list_lookup_fmap in Hi, Hj.
      apply fmap_Some in Hi as (ri & Hri & ->). apply fmap_Some in Hj as (rj & Hrj & Ekey).
      destruct (pk_out _ Hw Hrun ri) as (ei & Hei & Hsi); [by eapply list_elem_of_lookup_2|].
      destruct (pk_out _ Hw Hrun rj) as (ej & Hej & Hsj); [by eapply list_elem_of_lookup_2|].
      rewrite Ekey, Hej in Hei. simplify_eq. rewrite Hsj in Hsi. simplify_eq.
      eapply (NoDup_lookup _ i j (pr_probe_id ri) Hnd).
      * by rewrite list_lookup_fmap, Hri.
      * rewrite list_lookup_fmap, Hrj. simpl. congruence.
    + intros r o t Hr. destruct (validate_outstanding w r Hw Hrun Hr) as (Hv & e & p & He & Hp).
      unfold handle_probe_result. by rewrite Hv, He, Hp.
  - intros r o t Hr. by apply result_answered.
  - apply (pk_health _ Hw).
Qed.

Definition example_policy : HttpHealthCheckPolicy :=
  {| hc_path := lit "/healthz"; hc_interval_ms := 10000; hc_timeout_ms := 1000;
     hc_healthy_threshold := 1; hc_unhealthy_threshold := 2; hc_status_min := 200;
     hc_status_max := 399 |}.

Definition example_service (check : HealthCheckPolicy) (passive : PassiveHealthMode)
  (state : UpstreamAdministrativeState) : Service :=
  {| svc_id := lit "api";
     svc_upstreams := [{| up_id := lit "a"; up_url := lit "http://127.0.0.1:80";
                          up_administrative_state := state; up_tls := TlsDisabled |}];
     svc_policy := {| sp_load_balancing := RoundRobin; sp_health_check := check;
                      sp_retry := RetryPolicy_default; sp_passive_health := passive |} |}.

Definition example_snapshot (service : Service) : ConfigSnapshot :=
  {| snap_schema_version := 1; snap_revision_id := lit "rev-1";
     snap_admin := {| admin_bind := lit "127.0.0.1:9443"; admin_auth_required := true |};
     snap_listeners := []; snap_routes := []; snap_services := [service];
     snap_certificate_resolvers := []; snap_log_mode := LogProduct;
     snap_runtime := snap_runtime (items_snapshot (PathMatch_prefix (lit "/"))) |}.

Definition example_supervisor (state : UpstreamAdministrativeState) : HealthSupervisor :=
  match supervisor_activate
          (example_snapshot (example_service (HealthHttp example_policy) PassiveModeDisabled state))
          1 0 with
  | Ok s => s
  | Err _ => {| sup_revision_id := []; sup_generation := 0; sup_state := SupStopped;
                sup_entries := ∅; sup_next_probe_id := 0 |}
  end.

(** One probe that succeeds, its duplicate answer, and the next probe, still in flight. *)
Definition example_probes : list probe_op :=
  [ProbeTick 0 8; ProbeResultOf 0 ObsSucceeded 5; ProbeDuplicate 0 ObsFailed 6; ProbeTick 20000 8].

Lemma health_probe_cycle_witness :
  let w := probe_run example_probes (example_supervisor AdminActive) in
  pw_log w = [((lit "api", lit "a"), ObsSucceeded)] ∧ length (pw_out w) = 1%nat
  ∧ sup_availability (lit "api", lit "a") (pw_sup w) = Some AvailHealthy
  ∧ NoDup (pr_key <$> pw_out w).
Proof.
  split_and!; [vm_compute; reflexivity..|].
  assert (sup_state (pw_sup (probe_run example_probes (example_supervisor AdminActive))) = SupRunning)
    as Hrun by (vm_compute; reflexivity).
  assert (len (dispatched (probe_run example_probes (example_supervisor AdminActive))) ≤ U64_MAX)
    as Hmax by (vm_compute; discriminate).
  exact (proj1 (proj1 (health_probe_cycle
    (example_snapshot (example_service (HealthHttp example_policy) PassiveModeDisabled AdminActive))
    1 0 (example_supervisor AdminActive) example_probes eq_refl Hmax) Hrun)).
Defined.

(** ** Jitter stays within a tenth of the interval *)
Lemma health_jitter_bounded key generation interval :
  interval ≤ U64_MAX → health_jitter_ms key generation interval ≤ interval / 10.
Proof.
  intros Hi. unfold health_jitter_ms. destruct (N.eqb_spec (interval / 10) 0); [lia|].
  set (h := foldl _ _ _). clearbody h.
  assert (saturating_add U64_MAX (interval / 10) 1 = interval / 10 + 1) as ->.
  { unfold saturating_add. apply N.min_r.
    pose proof (N.Div0.mul_div_le interval 10). unfold U64_MAX in *. lia. }
  rewrite N.add_1_r. apply N.lt_succ_r, N.mod_lt, N.neq_succ_0.
Qed.

(** ** Where the routing document and the code disagree

    docs/failure-aware-routing.md *)
(** An upstream that is set to drain is still probed: activation schedules a probe for every
    upstream of a service with health checks, whatever its administrative state, and the first
    tick sends it; and a change of the administrative state keeps the health of the upstream. *)
Theorem draining_upstream_still_probed :
  let s := example_supervisor AdminDraining in
  let healthy := probe_run [ProbeTick 0 8; ProbeResultOf 0 ObsSucceeded 5]
                   (example_supervisor AdminActive) in
  pr_key <$> (handle_tick 0 8 s).1 = [(lit "api", lit "a")]
  ∧ match activate_reconciled
            (example_snapshot (example_service (HealthHttp example_policy) PassiveModeDisabled
                                 AdminDraining)) 2 10
            (Some (reconciliation_snapshot (pw_sup healthy))) with
    | Ok s => sup_availability (lit "api", lit "a") s = Some AvailHealthy
    | Err _ => False
    end.
Proof. vm_compute. done. Qed.
