(* ===== verification/Selector.v ===== *)
(** * The upstream selector of the runtime

    [RuntimeUpstreamSelector] of crates/edge-core/src/lib.rs (module snapshot_http) puts round
    robin, availability, endpoints and the drain tracker together: it picks an upstream for a
    request and takes a lease on it.  Also here: the tokens by which the event loop tells
    listeners, clients and upstreams apart. *)

From stdpp Require Import base strings gmap list.
From Stdlib Require Import Strings.Byte.
From S2P Require Import Prelude Errors RustStr Endpoint UpstreamPolicy Snapshot Drain Health.
Open Scope N_scope.

(** ** Event tokens *)
Inductive TokenSide : Set := ClientSide (connection_id : N) | UpstreamSide (connection_id : N).

Definition LISTENER_TOKEN_BASE : N := USIZE_MAX / 2.
Definition listener_token (listener_index : N) : N := LISTENER_TOKEN_BASE + listener_index.
Definition listener_index (token listener_count : N) : option N :=
  match checked_sub token LISTENER_TOKEN_BASE with
  | Some index => if index <? listener_count then Some index else None
  | None => None
  end.
Definition client_token (connection_id : N) : N := connection_id * 2 + 1.
Definition upstream_token (connection_id : N) : N := connection_id * 2 + 2.
Definition token_side (token : N) : option TokenSide :=
  if LISTENER_TOKEN_BASE <=? token then None
  else if token =? 0 then None
  else if token mod 2 =? 1 then Some (ClientSide ((token - 1) / 2))
  else Some (UpstreamSide ((token - 2) / 2)).

(** ** State *)
Record RuntimeUpstreamSelection := {
  rsel_upstream_id : list byte;
  rsel_endpoint : UpstreamEndpoint;
  rsel_tls : UpstreamTlsPolicy;
  rsel_drain_reference : DrainReference
}.

(** The publisher is a trait object; [sel_published] is what it was given, newest first. *)
Record RuntimeUpstreamSelector := {
  sel_sequences : gmap (list byte) N;
  sel_endpoints : gmap health_key UpstreamEndpoint;
  sel_availability : gmap (list byte) (gmap (list byte) UpstreamAvailability);
  sel_availability_generation : option N;
  sel_drain_generation : N;
  sel_drain_tracker : UpstreamDrainTracker;
  sel_drain_snapshot : ConfigSnapshot;
  sel_published : option (list RuntimeUpstreamStatusSnapshot)
}.

Definition set_tracker (t : UpstreamDrainTracker) (s : RuntimeUpstreamSelector) : RuntimeUpstreamSelector :=
  {| sel_sequences := sel_sequences s; sel_endpoints := sel_endpoints s;
     sel_availability := sel_availability s;
     sel_availability_generation := sel_availability_generation s;
     sel_drain_generation := sel_drain_generation s; sel_drain_tracker := t;
     sel_drain_snapshot := sel_drain_snapshot s; sel_published := sel_published s |}.

Definition set_sequences (m : gmap (list byte) N) (s : RuntimeUpstreamSelector) : RuntimeUpstreamSelector :=
  {| sel_sequences := m; sel_endpoints := sel_endpoints s;
     sel_availability := sel_availability s;
     sel_availability_generation := sel_availability_generation s;
     sel_drain_generation := sel_drain_generation s; sel_drain_tracker := sel_drain_tracker s;
     sel_drain_snapshot := sel_drain_snapshot s; sel_published := sel_published s |}.

Definition set_availability (m : gmap (list byte) (gmap (list byte) UpstreamAvailability))
  (g : option N) (s : RuntimeUpstreamSelector) : RuntimeUpstreamSelector :=
  {| sel_sequences := sel_sequences s; sel_endpoints := sel_endpoints s; sel_availability := m;
     sel_availability_generation := g;
     sel_drain_generation := sel_drain_generation s; sel_drain_tracker := sel_drain_tracker s;
     sel_drain_snapshot := sel_drain_snapshot s; sel_published := sel_published s |}.

Definition set_published (p : option (list RuntimeUpstreamStatusSnapshot)) (s : RuntimeUpstreamSelector)
  : RuntimeUpstreamSelector :=
  {| sel_sequences := sel_sequences s; sel_endpoints := sel_endpoints s;
     sel_availability := sel_availability s;
     sel_availability_generation := sel_availability_generation s;
     sel_drain_generation := sel_drain_generation s; sel_drain_tracker := sel_drain_tracker s;
     sel_drain_snapshot := sel_drain_snapshot s; sel_published := p |}.

(** ** Operations *)
Definition publish_runtime_status (s : RuntimeUpstreamSelector) : RuntimeUpstreamSelector :=
  match sel_published s with
  | None => s
  | Some log =>
      set_published (Some (operational_snapshot (sel_drain_snapshot s) (sel_drain_tracker s) :: log)) s
  end.

Definition install_runtime_status_publisher (publisher : option (list RuntimeUpstreamStatusSnapshot))
  (s : RuntimeUpstreamSelector) : RuntimeUpstreamSelector :=
  publish_runtime_status (set_published publisher s).

Definition release_drain_reference (reference : DrainReference) (s : RuntimeUpstreamSelector)
  : RuntimeUpstreamSelector :=
  publish_runtime_status (set_tracker (drain_release reference (sel_drain_tracker s)).2 s).

Fixpoint endpoint_map_loop (upstreams : list (health_key * Upstream))
  (endpoints : gmap health_key UpstreamEndpoint) : result AppError (gmap health_key UpstreamEndpoint) :=
  match upstreams with
  | [] => Ok endpoints
  | (key, upstream) :: rest =>
      match endpoint_parse (up_url upstream) with
      | Err e => Err (AppError_new (val_code e) (val_message e))
      | Ok endpoint => endpoint_map_loop rest (<[key := endpoint]> endpoints)
      end
  end.

Definition normalized_endpoint_map (snapshot : ConfigSnapshot)
  : result AppError (gmap health_key UpstreamEndpoint) :=
  endpoint_map_loop (snapshot_upstreams snapshot) ∅.

(** Take the lease on a chosen upstream; [None] when the drain tracker refuses. *)
Definition take_lease (service : Service) (upstream_id : list byte) (endpoint : UpstreamEndpoint)
  (s : RuntimeUpstreamSelector) : option RuntimeUpstreamSelection * RuntimeUpstreamSelector :=
  match drain_acquire (sel_drain_generation s) (svc_id service, upstream_id) (sel_drain_tracker s) with
  | ((AcquireAcquired, Some drain_reference), t) =>
      let s := publish_runtime_status (set_tracker t s) in
      match List.find (λ u, bool_decide (up_id u = upstream_id)) (svc_upstreams service) with
      | None => (None, s)
      | Some u =>
          (Some {| rsel_upstream_id := upstream_id; rsel_endpoint := endpoint; rsel_tls := up_tls u;
                   rsel_drain_reference := drain_reference |}, s)
      end
  | (_, t) => (None, set_tracker t s)
  end.

Definition service_availabilities (service : Service) (s : RuntimeUpstreamSelector)
  : gmap (list byte) UpstreamAvailability := default ∅ (sel_availability s !! svc_id service).

Definition service_sequence (service : Service) (s : RuntimeUpstreamSelector) : N :=
  default 0 (sel_sequences s !! svc_id service).

Definition selector_select (service : Service) (s : RuntimeUpstreamSelector)
  : option RuntimeUpstreamSelection * RuntimeUpstreamSelector :=
  match select_upstream service (service_availabilities service s) (service_sequence service s) with
  | NoEligibleUpstream => (None, s)
  | Selected upstream_id next_sequence =>
      match sel_endpoints s !! ((svc_id service, upstream_id) : health_key) with
      | None => (None, s)
      | Some endpoint =>
          take_lease service upstream_id endpoint
            (set_sequences (<[svc_id service := next_sequence]> (sel_sequences s)) s)
      end
  end.

Definition without_attempted (attempted : gset (list byte)) (service : Service) : Service :=
  {| svc_id := svc_id service;
     svc_upstreams := List.filter (λ u, negb (bool_decide (up_id u ∈ attempted))) (svc_upstreams service);
     svc_policy := svc_policy service |}.

Definition selector_select_retry (service : Service) (attempted : gset (list byte))
  (s : RuntimeUpstreamSelector) : option RuntimeUpstreamSelection * RuntimeUpstreamSelector :=
  match select_upstream (without_attempted attempted service)
          (service_availabilities service s) (service_sequence service s) with
  | NoEligibleUpstream => (None, s)
  | Selected upstream_id _ =>
      match sel_endpoints s !! ((svc_id service, upstream_id) : health_key) with
      | None => (None, s)
      | Some endpoint => take_lease service upstream_id endpoint s
      end
  end.

(** Whether a service keeps its place in the rotation over a configuration change. *)
Definition keeps_sequence (current next : ConfigSnapshot) (service_id : list byte) : bool :=
  match find_service current service_id, find_service next service_id with
  | Some current_service, Some next_service =>
      match sp_load_balancing (svc_policy current_service),
            sp_load_balancing (svc_policy next_service) with
      | RoundRobin, RoundRobin =>
          bool_decide (up_id <$> svc_upstreams current_service = up_id <$> svc_upstreams next_service)
      end
  | _, _ => false
  end.

Definition selector_reconcile (current next : ConfigSnapshot) (s : RuntimeUpstreamSelector)
  : result AppError () * RuntimeUpstreamSelector :=
  match normalized_endpoint_map next with
  | Err e => (Err e, s)
  | Ok endpoints =>
      let generation := wrapping_add U64_MAX (sel_drain_generation s) 1 in
      let s :=
        publish_runtime_status
          {| sel_sequences := filter (λ kv, keeps_sequence current next kv.1 = true) (sel_sequences s);
             sel_endpoints := endpoints; sel_availability := sel_availability s;
             sel_availability_generation := sel_availability_generation s;
             sel_drain_generation := generation;
             sel_drain_tracker := drain_reconcile next generation (sel_drain_tracker s);
             sel_drain_snapshot := next; sel_published := sel_published s |} in
      (Ok tt, if bool_decide (snap_revision_id current = snap_revision_id next) then s
              else set_availability ∅ None s)
  end.

Definition runtime_availability_error (message : string) : AppError :=
  AppError_new RuntimeCommandRejected message.

(** [entry(service).or_insert_with(BTreeMap::new).insert(upstream, value)] for every entry. *)
Definition group_availability (entries : gmap health_key UpstreamAvailability)
  : gmap (list byte) (gmap (list byte) UpstreamAvailability) :=
  map_fold (λ key value acc, <[key.1 := <[key.2 := value]> (default ∅ (acc !! key.1))]> acc)
    ∅ entries.

Definition apply_availability (current : ConfigSnapshot) (snapshot : HealthAvailabilitySnapshot)
  (s : RuntimeUpstreamSelector) : result AppError () * RuntimeUpstreamSelector :=
  if negb (bool_decide (has_revision_id snapshot = snap_revision_id current))
  then (Err (runtime_availability_error "availability revision does not match active config"), s)
  else if match sel_availability_generation s with
          | Some generation => has_generation snapshot <? generation
          | None => false
          end
  then (Err (runtime_availability_error "availability generation is stale"), s)
  else
    let expected_count := foldl (λ n service, n + len (svc_upstreams service)) 0
                            (snap_services current) in
    if negb (N.of_nat (size (has_entries snapshot)) =? expected_count)
       || existsb (λ ku, bool_decide (has_entries snapshot !! ku.1 = None)) (snapshot_upstreams current)
    then (Err (runtime_availability_error "availability keys do not match active config"), s)
    else (Ok tt, set_availability (group_availability (has_entries snapshot))
                   (Some (has_generation snapshot)) s).

Definition initial_availability (service : Service) : UpstreamAvailability :=
  match sp_health_check (svc_policy service) with
  | HealthDisabled => AvailDisabled
  | HealthHttp _ => AvailUnknown
  end.

Definition initial_availability_snapshot (snapshot : ConfigSnapshot) : HealthAvailabilitySnapshot :=
  {| has_revision_id := snap_revision_id snapshot; has_generation := 0;
     has_entries :=
       foldl (λ m service,
         foldl (λ m u, <[(svc_id service, up_id u) := initial_availability service]> m) m
           (svc_upstreams service)) ∅ (snap_services snapshot) |}.

Definition selector_from_snapshot (snapshot : ConfigSnapshot) : result AppError RuntimeUpstreamSelector :=
  let? endpoints := normalized_endpoint_map snapshot in
  let selector :=
    {| sel_sequences := ∅; sel_endpoints := endpoints; sel_availability := ∅;
       sel_availability_generation := None; sel_drain_generation := 1;
       sel_drain_tracker := drain_from_snapshot snapshot 1; sel_drain_snapshot := snapshot;
       sel_published := None |} in
  match apply_availability snapshot (initial_availability_snapshot snapshot) selector with
  | (Err e, _) => Err e
  | (Ok _, selector) => Ok selector
  end.

(** ** Tokens round trip *)
Lemma token_client_roundtrip i :
  client_token i < LISTENER_TOKEN_BASE → token_side (client_token i) = Some (ClientSide i).
Proof.
  intros Hi. unfold token_side, client_token in *.
  rewrite (proj2 (N.leb_gt _ _)) by done. destruct (N.eqb_spec (i * 2 + 1) 0); [lia|].
  rewrite N.add_comm, N.Div0.mod_add. cbn [N.eqb]. simpl (1 mod 2 =? 1).
  replace (1 + i * 2 - 1) with (i * 2) by lia. by rewrite N.div_mul by lia.
Qed.

Lemma token_upstream_roundtrip i :
  upstream_token i < LISTENER_TOKEN_BASE → token_side (upstream_token i) = Some (UpstreamSide i).
Proof.
  intros Hi. unfold token_side, upstream_token in *.
  rewrite (proj2 (N.leb_gt _ _)) by done. destruct (N.eqb_spec (i * 2 + 2) 0); [lia|].
  rewrite N.add_comm, N.Div0.mod_add. simpl (2 mod 2 =? 1).
  replace (2 + i * 2 - 2) with (i * 2) by lia. by rewrite N.div_mul by lia.
Qed.

Lemma token_listener_roundtrip i n :
  listener_index (listener_token i) n = (if i <? n then Some i else None)
  ∧ token_side (listener_token i) = None.
Proof.
  unfold listener_index, listener_token, checked_sub, token_side. split.
  - rewrite (proj2 (N.leb_le _ _)) by lia.
    replace (LISTENER_TOKEN_BASE + i - LISTENER_TOKEN_BASE) with i by lia. done.
  - by rewrite (proj2 (N.leb_le _ _)) by lia.
Qed.

(** ** The selector agrees with the configuration in force *)
Definition unique_upstreams (snapshot : ConfigSnapshot) : Prop :=
  NoDup (snapshot_upstreams snapshot).*1.

Record sel_ok (snapshot : ConfigSnapshot) (s : RuntimeUpstreamSelector) : Prop := {
  so_unique : unique_upstreams snapshot;
  so_snapshot : sel_drain_snapshot s = snapshot;
  so_generation : dt_current_generation (sel_drain_tracker s) = Some (sel_drain_generation s);
  so_active : ∀ key u, (key, u) ∈ snapshot_upstreams snapshot → up_administrative_state u = AdminActive →
    ∃ e, dt_entries (sel_drain_tracker s) !! (sel_drain_generation s, key) = Some e
         ∧ de_state e = DrainActive;
  so_endpoints : ∀ key u, (key, u) ∈ snapshot_upstreams snapshot →
    ∃ endpoint, endpoint_parse (up_url u) = Ok endpoint ∧ sel_endpoints s !! key = Some endpoint
}.

Lemma elem_snapshot_upstreams snapshot service u :
  service ∈ snap_services snapshot → u ∈ svc_upstreams service →
  ((svc_id service, up_id u), u) ∈ snapshot_upstreams snapshot.
Proof.
  intros Hs Hu. apply list_elem_of_bind. exists service. split; [|done].
  apply list_elem_of_fmap. by exists u.
Qed.

Lemma unique_upstream snapshot key u u' :
  unique_upstreams snapshot → (key, u) ∈ snapshot_upstreams snapshot →
  (key, u') ∈ snapshot_upstreams snapshot → u = u'.
Proof.
  intros Hn H H'. apply elem_of_list_to_map_1 in H, H'; [|done..]. congruence.
Qed.

Lemma desired_lookup snapshot key u :
  unique_upstreams snapshot → (key, u) ∈ snapshot_upstreams snapshot →
  desired_states snapshot !! key = Some (up_administrative_state u).
Proof.
  intros Hn H. apply elem_of_list_to_map_1.
  - rewrite fmap_reverse, reverse_Permutation, <- list_fmap_compose.
    rewrite (list_fmap_ext _ fst); [done|]. by intros ? [].
  - apply elem_of_reverse, list_elem_of_fmap. by exists (key, u).
Qed.

Lemma endpoint_map_loop_spec l m m' :
  endpoint_map_loop l m = Ok m' → NoDup l.*1 →
  (∀ key, key ∉ l.*1 → m' !! key = m !! key)
  ∧ ∀ key u, (key, u) ∈ l → ∃ endpoint, endpoint_parse (up_url u) = Ok endpoint
                                        ∧ m' !! key = Some endpoint.
Proof.
  revert m. induction l as [|[k v] l IH]; intros m Hl Hn; simpl in Hl.
  { simplify_eq. split; [done|]. intros key u H. by apply not_elem_of_nil in H. }
  destruct (endpoint_parse (up_url v)) as [ep|] eqn:Hp; [|done].
  apply NoDup_cons in Hn as [Hk Hn]. destruct (IH _ Hl Hn) as [Hout Hin]. split.
  - intros key Hkey. apply not_elem_of_cons in Hkey as [? ?]. rewrite Hout by done.
    by apply lookup_insert_ne.
  - intros key u Hu. apply elem_of_cons in Hu as [?|Hu]; [|by apply Hin]. simplify_eq.
    exists ep. split; [done|]. rewrite Hout by done. by apply lookup_insert_eq.
Qed.

Lemma publish_ok snapshot s : sel_ok snapshot s → sel_ok snapshot (publish_runtime_status s).
Proof. unfold publish_runtime_status. intros []. destruct (sel_published s); by constructor. Qed.

(** Keeping every active entry of the tracker active is enough. *)
Lemma set_tracker_ok snapshot s t :
  sel_ok snapshot s → dt_current_generation t = dt_current_generation (sel_drain_tracker s) →
  (∀ gk e, dt_entries (sel_drain_tracker s) !! gk = Some e → de_state e = DrainActive →
     ∃ e', dt_entries t !! gk = Some e' ∧ de_state e' = DrainActive) →
  sel_ok snapshot (set_tracker t s).
Proof.
  intros [Hu Hs Hg Ha He] Hgen Hkeep. constructor; try done.
  - cbn. congruence.
  - intros key u Hk Hact. destruct (Ha key u Hk Hact) as (e & Hl & Hst). by apply (Hkeep _ e).
Qed.

Lemma release_keeps_active r t gk e :
  dt_entries t !! gk = Some e → de_state e = DrainActive →
  ∃ e', dt_entries (drain_release r t).2 !! gk = Some e' ∧ de_state e' = DrainActive.
Proof.
  intros Hl Hst. unfold drain_release.
  destruct (dt_entries t !! (ref_generation r, ref_key r)) as [e0|] eqn:H0; [|by exists e].
  destruct (bool_decide (ref_lease_id r ∈ de_leases e0)); cbn [negb]; [|by exists e].
  destruct (decide (gk = (ref_generation r, ref_key r))) as [->|Hne].
  - simplify_eq. rewrite Hst.
    destruct (negb _); cbn; rewrite lookup_insert_eq; by eexists.
  - destruct (negb _); [|destruct (de_state e0)]; cbn; rewrite lookup_insert_ne by done; by exists e.
Qed.

Lemma release_generation r t :
  dt_current_generation (drain_release r t).2 = dt_current_generation t.
Proof. unfold drain_release. repeat (case_match; simpl; try done). Qed.

Lemma release_reference_ok snapshot s r :
  sel_ok snapshot s → sel_ok snapshot (release_drain_reference r s).
Proof.
  intros Hok. apply publish_ok, set_tracker_ok; [done|apply release_generation|].
  intros gk e. apply release_keeps_active.
Qed.

(** ** Leases *)

(** What a granted selection promises about the upstream [u]: its own address and TLS policy,
    and a lease the tracker holds for it. *)
Definition selection_of (service : Service) (u : Upstream) (r : RuntimeUpstreamSelection)
  (s : RuntimeUpstreamSelector) : Prop :=
  rsel_upstream_id r = up_id u
  ∧ endpoint_parse (up_url u) = Ok (rsel_endpoint r)
  ∧ rsel_tls r = up_tls u
  ∧ ref_key (rsel_drain_reference r) = (svc_id service, up_id u)
  ∧ ∃ e, dt_entries (sel_drain_tracker s) !! place_of (rsel_drain_reference r) = Some e
         ∧ de_state e = DrainActive ∧ ref_lease_id (rsel_drain_reference r) ∈ de_leases e.

Lemma publish_tracker s : sel_drain_tracker (publish_runtime_status s) = sel_drain_tracker s.
Proof. unfold publish_runtime_status. by destruct (sel_published s). Qed.

Lemma publish_sequences s : sel_sequences (publish_runtime_status s) = sel_sequences s.
Proof. unfold publish_runtime_status. by destruct (sel_published s). Qed.

(** The upstream ids of a service of a unique snapshot tell its upstreams apart. *)
Lemma find_by_id snapshot service u :
  unique_upstreams snapshot → service ∈ snap_services snapshot → u ∈ svc_upstreams service →
  List.find (λ v, bool_decide (up_id v = up_id u)) (svc_upstreams service) = Some u.
Proof.
  intros Hn Hs Hu.
  destruct (List.find _ (svc_upstreams service)) as [v|] eqn:Hf.
  - apply List.find_some in Hf as [Hv Hid]. apply list_elem_of_In in Hv.
    apply bool_decide_eq_true in Hid. f_equal.
    pose proof (elem_snapshot_upstreams _ _ _ Hs Hv) as H1. rewrite Hid in H1.
    exact (unique_upstream _ _ _ _ Hn H1 (elem_snapshot_upstreams _ _ _ Hs Hu)).
  - apply list_elem_of_In in Hu. pose proof (List.find_none _ _ Hf _ Hu) as H.
    by apply bool_decide_eq_false in H.
Qed.

Lemma take_lease_exact snapshot s service u endpoint :
  sel_ok snapshot s → service ∈ snap_services snapshot → u ∈ svc_upstreams service →
  up_administrative_state u = AdminActive → endpoint_parse (up_url u) = Ok endpoint →
  ∃ r s', take_lease service (up_id u) endpoint s = (Some r, s')
    ∧ selection_of service u r s' ∧ sel_sequences s' = sel_sequences s ∧ sel_ok snapshot s'.
Proof.
  intros Hok Hs Hu Hact Hp. unfold take_lease, drain_acquire.
  rewrite (so_generation _ _ Hok), bool_decide_eq_true_2 by done. cbn [negb].
  destruct (so_active _ _ Hok _ u (elem_snapshot_upstreams _ _ _ Hs Hu) Hact) as (e & He & Hst).
  rewrite He, bool_decide_eq_true_2 by done. cbn [negb].
  rewrite (find_by_id _ _ _ (so_unique _ _ Hok) Hs Hu). eexists _, _. split; [done|]. split_and!.
  - split_and!; try done. rewrite publish_tracker. cbn. rewrite lookup_insert_eq.
    eexists. split; [done|]. cbn. split; [done|]. set_solver.
  - by rewrite publish_sequences.
  - apply publish_ok, set_tracker_ok; [done| |].
    + cbn. symmetry. apply (so_generation _ _ Hok).
    + intros gk e' Hl' Hst'. cbn.
      destruct (decide (gk = (sel_drain_generation s, (svc_id service, up_id u)))) as [->|Hne].
      * rewrite lookup_insert_eq. by eexists.
      * rewrite lookup_insert_ne by done. by exists e'.
Qed.

(** ** Selection *)
Lemma eligible_elem service availability u :
  u ∈ eligible_upstreams service availability →
  u ∈ svc_upstreams service ∧ up_administrative_state u = AdminActive.
Proof.
  intros H. apply list_elem_of_In, List.filter_In in H as [H1 H2].
  apply andb_true_iff in H2 as [H2 _]. apply bool_decide_eq_true in H2.
  by split; [apply list_elem_of_In|].
Qed.

Lemma select_upstream_cases service availability sequence :
  let eligible := eligible_upstreams service availability in
  match select_upstream service availability sequence with
  | NoEligibleUpstream => eligible = []
  | Selected id next =>
      ∃ u, eligible !! N.to_nat (sequence mod len eligible) = Some u ∧ id = up_id u
           ∧ next = wrapping_add U64_MAX sequence 1
  end.
Proof.
  unfold select_upstream. destruct (eligible_upstreams service availability) as [|u0 l] eqn:E; [done|].
  rewrite <- E. destruct (lookup_lt_is_Some_2 (eligible_upstreams service availability)
    (N.to_nat (sequence mod len (eligible_upstreams service availability)))) as [u Hu].
  { assert (sequence mod len (eligible_upstreams service availability)
            < len (eligible_upstreams service availability)); [|unfold len in *; lia].
    apply N.mod_lt. rewrite E. unfold len. simpl. lia. }
  rewrite Hu. by exists u.
Qed.

Lemma select_exact snapshot s service :
  sel_ok snapshot s → service ∈ snap_services snapshot →
  let eligible := eligible_upstreams service (service_availabilities service s) in
  match selector_select service s with
  | (None, s') => eligible = [] ∧ s' = s
  | (Some r, s') =>
      ∃ u, eligible !! N.to_nat (service_sequence service s mod len eligible) = Some u
        ∧ selection_of service u r s'
        ∧ service_sequence service s' = wrapping_add U64_MAX (service_sequence service s) 1
        ∧ sel_ok snapshot s'
  end.
Proof.
  intros Hok Hs eligible. unfold selector_select.
  pose proof (select_upstream_cases service (service_availabilities service s)
                (service_sequence service s)) as Hsel.
  destruct (select_upstream _ _ _) as [id next|]; [|done]. destruct Hsel as (u & Hu & -> & ->).
  destruct (eligible_elem service _ u (list_elem_of_lookup_2 _ _ _ Hu)) as [Hin Hact].
  destruct (so_endpoints _ _ Hok _ u (elem_snapshot_upstreams _ _ _ Hs Hin)) as (ep & Hp & Hl).
  rewrite Hl. edestruct (take_lease_exact snapshot) as (r & s' & -> & Hr & Hseq & Hok');
    [|exact Hs|exact Hin|exact Hact|exact Hp|].
  { destruct Hok. by constructor. }
  exists u. split_and!; try done. unfold service_sequence at 1. rewrite Hseq. cbn.
  by rewrite lookup_insert_eq.
Qed.

Lemma filter_swap {A} (f g : A → bool) l :
  List.filter f (List.filter g l) = List.filter g (List.filter f l).
Proof.
  induction l as [|a l IH]; [done|]. simpl.
  destruct (f a) eqn:Ef, (g a) eqn:Eg; simpl; rewrite ?Ef, ?Eg, ?IH; done.
Qed.

Lemma eligible_without_attempted attempted service availability :
  eligible_upstreams (without_attempted attempted service) availability
  = List.filter (λ u, negb (bool_decide (up_id u ∈ attempted)))
      (eligible_upstreams service availability).
Proof.
  unfold eligible_upstreams, without_attempted. cbn [svc_policy svc_upstreams]. apply filter_swap.
Qed.

Lemma retry_exact snapshot s service attempted :
  sel_ok snapshot s → service ∈ snap_services snapshot →
  let eligible := List.filter (λ u, negb (bool_decide (up_id u ∈ attempted)))
                    (eligible_upstreams service (service_availabilities service s)) in
  match selector_select_retry service attempted s with
  | (None, s') => eligible = [] ∧ s' = s
  | (Some r, s') =>
      ∃ u, eligible !! N.to_nat (service_sequence service s mod len eligible) = Some u
        ∧ up_id u ∉ attempted
        ∧ selection_of service u r s' ∧ sel_sequences s' = sel_sequences s ∧ sel_ok snapshot s'
  end.
Proof.
  intros Hok Hs. rewrite <- eligible_without_attempted. intros eligible. unfold selector_select_retry.
  pose proof (select_upstream_cases (without_attempted attempted service)
    (service_availabilities service s) (service_sequence service s)) as Hsel.
  destruct (select_upstream _ _ _) as [id next|]; [|done]. destruct Hsel as (u & Hu & -> & ->).
  pose proof (list_elem_of_lookup_2 _ _ _ Hu) as Hel. rewrite eligible_without_attempted in Hel.
  apply list_elem_of_In, List.filter_In in Hel as [Hel Hatt]. apply list_elem_of_In in Hel.
  apply negb_true_iff, bool_decide_eq_false in Hatt.
  destruct (eligible_elem service _ u Hel) as [Hin Hact].
  destruct (so_endpoints _ _ Hok _ u (elem_snapshot_upstreams _ _ _ Hs Hin)) as (ep & Hp & Hl).
  rewrite Hl. destruct (take_lease_exact snapshot s service u ep)
    as (r & s' & -> & Hr & Hseq & Hok'); try done. by exists u.
Qed.

(** ** Configuration changes *)
Lemma selector_reconcile_ok current next s s' :
  unique_upstreams next → selector_reconcile current next s = (Ok tt, s') → sel_ok next s'.
Proof.
  intros Hn. unfold selector_reconcile, normalized_endpoint_map.
  destruct (endpoint_map_loop _ _) as [endpoints|] eqn:Hep; [|done].
  set (g := wrapping_add _ _ _). set (s1 := publish_runtime_status _).
  assert (sel_ok next s1) as Hok.
  { apply publish_ok. destruct (endpoint_map_loop_spec _ _ _ Hep Hn) as [_ Hin].
    constructor; try done. intros key u Hk Hact. cbn [sel_drain_tracker sel_drain_generation].
    rewrite reconcile_lookup. cbn [fst snd]. rewrite decide_True by done.
    rewrite (desired_lookup _ _ _ Hn Hk), Hact. by eexists. }
  intros [= <-]. case_bool_decide; [done|]. destruct Hok. by constructor.
Qed.

Lemma selector_reconcile_error current next s e s' :
  selector_reconcile current next s = (Err e, s') → s' = s.
Proof. unfold selector_reconcile. destruct (normalized_endpoint_map next); by intros [= ? <-]. Qed.

(** ** Availability *)
Lemma group_availability_lookup entries (service_id upstream_id : list byte) :
  default ∅ (group_availability entries !! service_id) !! upstream_id
  = entries !! ((service_id, upstream_id) : health_key).
Proof.
  unfold group_availability.
  apply (map_fold_weak_ind (λ acc (m : gmap health_key UpstreamAvailability),
    default ∅ (acc !! service_id) !! upstream_id = m !! ((service_id, upstream_id) : health_key))).
  - by rewrite !lookup_empty.
  - intros [s u] v m acc _ IH. cbn [fst snd].
    destruct (decide (s = service_id)) as [->|Hs].
    + rewrite lookup_insert_eq. cbn. destruct (decide (u = upstream_id)) as [->|Hu].
      * by rewrite !lookup_insert_eq.
      * rewrite !lookup_insert_ne by congruence. done.
    + rewrite !lookup_insert_ne by congruence. done.
Qed.

Lemma upstream_count snapshot :
  foldl (λ n service, n + len (svc_upstreams service)) 0 (snap_services snapshot)
  = len (snapshot_upstreams snapshot).
Proof.
  unfold snapshot_upstreams.
  assert (∀ l n, foldl (λ n service, n + len (svc_upstreams service)) n l
    = n + len (l ≫= λ service, (λ u, ((svc_id service, up_id u), u)) <$> svc_upstreams service)) as H;
    [|by rewrite H].
  induction l as [|service l IH]; intros n; [unfold len; simpl; lia|].
  rewrite bind_cons. cbn [foldl]. rewrite IH. unfold len. rewrite length_app, length_fmap. lia.
Qed.

(** The keys of an availability are the upstreams of the configuration, no more and no fewer. *)
Lemma availability_keys_exact (snapshot : ConfigSnapshot) (entries : gmap health_key UpstreamAvailability) :
  unique_upstreams snapshot →
  negb (N.of_nat (size entries) =? len (snapshot_upstreams snapshot))
  || existsb (λ ku, bool_decide (entries !! ku.1 = None)) (snapshot_upstreams snapshot)
  = negb (bool_decide (dom entries = list_to_set (snapshot_upstreams snapshot).*1)).
Proof.
  intros Hn.
  set (keys := list_to_set (snapshot_upstreams snapshot).*1 : gset health_key).
  assert (size keys = length (snapshot_upstreams snapshot)) as Hsize
    by (unfold keys; rewrite size_list_to_set by done; apply length_fmap).
  case_bool_decide as Hd; cbn [negb].
  - apply orb_false_iff. split.
    + apply negb_false_iff, N.eqb_eq. rewrite <- size_dom, Hd, Hsize. done.
    + apply not_true_is_false. rewrite existsb_exists. intros (ku & Hin & Hnone).
      apply bool_decide_eq_true, not_elem_of_dom in Hnone. apply Hnone.
      rewrite Hd. apply elem_of_list_to_set, list_elem_of_fmap. exists ku.
      by rewrite list_elem_of_In.
  - apply not_false_is_true. rewrite orb_false_iff. intros [Hs Hall]. apply Hd.
    apply negb_false_iff, N.eqb_eq in Hs. symmetry. apply leibniz_equiv, set_subseteq_size_equiv.
    + intros k Hk. apply elem_of_list_to_set, list_elem_of_fmap in Hk as (ku & -> & Hk).
      apply elem_of_dom. destruct (entries !! ku.1) as [v|] eqn:E; [by eexists|].
      apply not_true_iff_false in Hall. exfalso. apply Hall, existsb_exists. exists ku.
      split; [by apply list_elem_of_In|]. by apply bool_decide_eq_true.
    + rewrite Hsize. unfold len in Hs. pose proof (size_dom (D := gset health_key) entries). lia.
Qed.

Definition stale (a : HealthAvailabilitySnapshot) (s : RuntimeUpstreamSelector) : Prop :=
  ∃ g, sel_availability_generation s = Some g ∧ has_generation a < g.

Lemma stale_bool a s :
  match sel_availability_generation s with Some g => has_generation a <? g | None => false end = true
  ↔ stale a s.
Proof.
  unfold stale. destruct (sel_availability_generation s) as [g|]; [rewrite N.ltb_lt|]; naive_solver.
Qed.

Lemma apply_availability_exact current a s :
  unique_upstreams current →
  match apply_availability current a s with
  | (Ok _, s') =>
      (has_revision_id a = snap_revision_id current ∧ ¬ stale a s
       ∧ dom (has_entries a) = list_to_set (snapshot_upstreams current).*1)
      ∧ s' = set_availability (group_availability (has_entries a)) (Some (has_generation a)) s
  | (Err _, s') =>
      ¬ (has_revision_id a = snap_revision_id current ∧ ¬ stale a s
         ∧ dom (has_entries a) = list_to_set (snapshot_upstreams current).*1)
      ∧ s' = s
  end.
Proof.
  intros Hn. unfold apply_availability. case_bool_decide as Hr; cbn [negb]; [|naive_solver].
  destruct (match sel_availability_generation s with Some g => _ | None => _ end) eqn:Hg.
  { apply stale_bool in Hg. naive_solver. }
  apply not_true_iff_false in Hg. rewrite stale_bool in Hg.
  rewrite upstream_count, (availability_keys_exact current) by done.
  case_bool_decide; cbn [negb]; naive_solver.
Qed.

Lemma set_availability_ok snapshot m g s : sel_ok snapshot s → sel_ok snapshot (set_availability m g s).
Proof. intros []. by constructor. Qed.

Lemma apply_availability_ok snapshot current a s r s' :
  apply_availability current a s = (r, s') → sel_ok snapshot s → sel_ok snapshot s'.
Proof.
  unfold apply_availability. intros H Hok.
  repeat case_match; simplify_eq; auto using set_availability_ok.
Qed.

Lemma from_snapshot_ok snapshot s :
  unique_upstreams snapshot → selector_from_snapshot snapshot = Ok s → sel_ok snapshot s.
Proof.
  intros Hn. unfold selector_from_snapshot.
  destruct (normalized_endpoint_map snapshot) as [endpoints|] eqn:Hep; [|done].
  set (s0 := Build_RuntimeUpstreamSelector _ _ _ _ _ _ _ _).
  destruct (apply_availability _ _ s0) as [[[]|] s1] eqn:Ha; [|done]. intros [= <-].
  eapply apply_availability_ok; [exact Ha|].
  destruct (endpoint_map_loop_spec _ _ _ Hep Hn) as [_ Hin]. constructor; try done.
  intros key u Hk Hact. cbn [s0 sel_drain_tracker sel_drain_generation]. unfold drain_from_snapshot.
  rewrite reconcile_lookup. cbn [fst snd]. rewrite decide_True by done.
  rewrite (desired_lookup _ _ _ Hn Hk), Hact. by eexists.
Qed.

(** ** Where the routing document and the code disagree

    docs/failure-aware-routing.md on passive ejection. *)
Definition failed_observation (at_ms : N) : PassiveObservation :=
  {| po_revision_id := lit "rev-1"; po_generation := 1; po_key := (lit "api", lit "a");
     po_outcome := OutcomeFailed ReasonConnect; po_observed_at_ms := at_ms |}.

Definition ejecting_supervisor : PassiveHealthSupervisor :=
  (passive_handle (failed_observation 10)
     (passive_register (lit "api", lit "a") {| ph_failure_threshold := 1; ph_ejection_ms := 30000 |}
        true (passive_new (lit "rev-1") 1))).2.

Definition passive_service (check : HealthCheckPolicy) : Service :=
  example_service check (PassiveModeEnabled {| ph_failure_threshold := 1; ph_ejection_ms := 30000 |})
    AdminActive.

Definition ejected_availability (check : HealthCheckPolicy) : HealthAvailabilitySnapshot :=
  let config := example_snapshot (passive_service check) in
  effective_availability config
    {| has_revision_id := lit "rev-1"; has_generation := 1;
       has_entries := {[ (lit "api", lit "a") := health_availability (health_for_policy check) ]} |}
    ejecting_supervisor.

(** The answer of the selector after the effective availability has been applied to it. *)
Definition select_after_ejection (check : HealthCheckPolicy)
  : result AppError (option (list byte)) :=
  let config := example_snapshot (passive_service check) in
  let? s := selector_from_snapshot config in
  match apply_availability config (ejected_availability check) s with
  | (Err e, _) => Err e
  | (Ok _, s) => Ok (rsel_upstream_id <$> (selector_select (passive_service check) s).1)
  end.

(** passive ejection has no effect on a service without active health checks: after a
    failure has ejected the only upstream, the effective availability that the runtime accepts
    says Unhealthy, and yet the selector hands the upstream out, because it looks at
    availabilities only when active checks are configured; with active checks the same state
    selects nothing. *)
Theorem passive_ejection_ignored_without_active_checks :
  passive_state (lit "api", lit "a") ejecting_supervisor = Some (PassiveEjected 30010)
  ∧ has_entries (ejected_availability HealthDisabled) !! (lit "api", lit "a") = Some AvailUnhealthy
  ∧ select_after_ejection HealthDisabled = Ok (Some (lit "a"))
  ∧ select_after_ejection (HealthHttp example_policy) = Ok None.
Proof. vm_compute. done. Qed.
