(* ===== verification/RuntimeCommands.v ===== *)
(** * Commands of the running proxy

    The command handlers of module snapshot_http in crates/edge-core/src/lib.rs: how a
    configuration, an availability or TLS material takes effect while connections are served,
    and what the upstream selector promises over any history of commands, selections, retries
    and releases. *)

From stdpp Require Import base strings gmap list.
From Stdlib Require Import Strings.Byte.
From S2P Require Import Prelude Errors RustStr Endpoint UpstreamPolicy Snapshot CoreRuntime Drain Health Selector.
Open Scope N_scope.

(** The address type of sockets and the two kinds of TLS session factories are abstract. *)
Section commands.
Context {K SF CF : Type} `{Countable K}.

(** ** State *)

(** Of the sockets only [local_addr] is used, which can fail. *)
Record RegisteredSnapshotListener := {
  rl_local_addr : option K;
  rl_tls_session_factory : option SF
}.

Definition set_factory (f : option SF) (l : RegisteredSnapshotListener) : RegisteredSnapshotListener :=
  {| rl_local_addr := rl_local_addr l; rl_tls_session_factory := f |}.

Definition is_tls_listener (l : RegisteredSnapshotListener) : bool :=
  match rl_tls_session_factory l with Some _ => true | None => false end.

Inductive RuntimeCommandPayload :=
| PayloadCore (command : CoreCommand)
| InstallTlsSessionFactory (factory : SF)
| InstallServerTlsRegistry (registry : PreparedServerTlsRegistry K SF)
| ApplySnapshotAndTlsSessionFactory (snapshot : ConfigSnapshot) (factory : SF)
| ActivateSnapshotAndTlsSessionFactory (snapshot : ConfigSnapshot)
    (availability : HealthAvailabilitySnapshot) (factory : SF)
| ActivateRuntimeGeneration (snapshot : ConfigSnapshot) (availability : HealthAvailabilitySnapshot)
    (server_tls_registry : PreparedServerTlsRegistry K SF)
    (client_tls_registry : gmap (list byte * list byte) CF).

(** What the handlers borrow from the event loop. *)
Record runtime := {
  rt_snapshot : ConfigSnapshot;
  rt_listeners : list RegisteredSnapshotListener;
  rt_selector : RuntimeUpstreamSelector;
  rt_client_tls : gmap (list byte * list byte) CF
}.

Definition with_listeners (ls : list RegisteredSnapshotListener) (rt : runtime) : runtime :=
  {| rt_snapshot := rt_snapshot rt; rt_listeners := ls; rt_selector := rt_selector rt;
     rt_client_tls := rt_client_tls rt |}.

Definition with_selector (s : RuntimeUpstreamSelector) (rt : runtime) : runtime :=
  {| rt_snapshot := rt_snapshot rt; rt_listeners := rt_listeners rt; rt_selector := s;
     rt_client_tls := rt_client_tls rt |}.

Definition with_snapshot (next : ConfigSnapshot) (rt : runtime) : runtime :=
  {| rt_snapshot := next; rt_listeners := rt_listeners rt; rt_selector := rt_selector rt;
     rt_client_tls := rt_client_tls rt |}.

Definition with_client_tls (r : gmap (list byte * list byte) CF) (rt : runtime) : runtime :=
  {| rt_snapshot := rt_snapshot rt; rt_listeners := rt_listeners rt; rt_selector := rt_selector rt;
     rt_client_tls := r |}.

(** A cloned selector shares the publisher of the original, so that what the clone publishes
    stays published when the clone is dropped. *)
Definition dropped_clone (candidate s : RuntimeUpstreamSelector) : RuntimeUpstreamSelector :=
  set_published (sel_published candidate) s.

(** ** Handlers *)
Definition activate_snapshot (next : ConfigSnapshot) (availability : HealthAvailabilitySnapshot)
  (rt : runtime) : CommandAck * runtime :=
  match selector_reconcile (rt_snapshot rt) next (rt_selector rt) with
  | (Err error, candidate) =>
      (Rejected error, with_selector (dropped_clone candidate (rt_selector rt)) rt)
  | (Ok _, candidate) =>
      match apply_availability next availability candidate with
      | (Err error, candidate) =>
          (Rejected error, with_selector (dropped_clone candidate (rt_selector rt)) rt)
      | (Ok _, candidate) => (Accepted, with_snapshot next (with_selector candidate rt))
      end
  end.

Definition handle_runtime_command (command : CoreCommand) (rt : runtime) : CommandAck * runtime :=
  match command with
  | ActivateConfigSnapshot next availability => activate_snapshot next availability rt
  | ApplyConfigSnapshot next =>
      match selector_reconcile (rt_snapshot rt) next (rt_selector rt) with
      | (Err error, s) => (Rejected error, with_selector s rt)
      | (Ok _, s) => (Accepted, with_snapshot next (with_selector s rt))
      end
  | PublishUpstreamAvailability availability =>
      match apply_availability (rt_snapshot rt) availability (rt_selector rt) with
      | (Ok _, s) => (Accepted, with_selector s rt)
      | (Err error, s) => (Rejected error, with_selector s rt)
      end
  | RollbackConfigSnapshot _ | InstallCertificate _ | RefreshRouteTable | BeginDrain _ | Shutdown =>
      (Accepted, rt)
  end.

Definition no_tls_listener_error : AppError :=
  AppError_new RuntimeCommandRejected "runtime has no TLS listener".

(** Every TLS listener gets the same factory. *)
Definition share_factory (factory : SF) (ls : list RegisteredSnapshotListener)
  : list RegisteredSnapshotListener :=
  (λ l, if is_tls_listener l then set_factory (Some factory) l else l) <$> ls.

Definition replace_tls_listener_factories (factory : SF) (rt : runtime) : CommandAck * runtime :=
  let tls_listener_count := len (List.filter is_tls_listener (rt_listeners rt)) in
  if tls_listener_count =? 0 then (Rejected no_tls_listener_error, rt)
  else (Accepted, with_listeners (share_factory factory (rt_listeners rt)) rt).

Fixpoint collect_factories (registry : PreparedServerTlsRegistry K SF)
  (ls : list RegisteredSnapshotListener) : result AppError (list (option SF)) :=
  match ls with
  | [] => Ok []
  | l :: rest =>
      if is_tls_listener l then
        match rl_local_addr l with
        | None => Err runtime_generation_error
        | Some bind =>
            match server_factory_for bind registry with
            | None => Err runtime_generation_error
            | Some factory =>
                let? factories := collect_factories registry rest in Ok (Some factory :: factories)
            end
        end
      else let? factories := collect_factories registry rest in Ok (None :: factories)
  end.

(** [zip]: a factory replaces, [None] leaves the listener as it is. *)
Definition install_factories (ls : list RegisteredSnapshotListener) (factories : list (option SF))
  : list RegisteredSnapshotListener :=
  zip_with (λ l f, match f with Some _ => set_factory f l | None => l end) ls factories.

Definition replace_tls_listener_registry (registry : PreparedServerTlsRegistry K SF) (rt : runtime)
  : CommandAck * runtime :=
  let tls_listener_count := len (List.filter is_tls_listener (rt_listeners rt)) in
  if negb (server_registry_len registry =? tls_listener_count)
  then (Rejected runtime_generation_error, rt)
  else match collect_factories registry (rt_listeners rt) with
       | Err error => (Rejected error, rt)
       | Ok factories => (Accepted, with_listeners (install_factories (rt_listeners rt) factories) rt)
       end.

Definition apply_snapshot_and_tls_factory (next : ConfigSnapshot) (factory : SF) (rt : runtime)
  : CommandAck * runtime :=
  if negb (existsb is_tls_listener (rt_listeners rt)) then (Rejected no_tls_listener_error, rt)
  else
    match selector_reconcile (rt_snapshot rt) next (rt_selector rt) with
    | (Err error, s) => (Rejected error, with_selector s rt)
    | (Ok _, s) =>
        (Accepted, with_snapshot next (with_listeners (share_factory factory (rt_listeners rt))
                                         (with_selector s rt)))
    end.

Definition activate_snapshot_and_tls_factory (next : ConfigSnapshot)
  (availability : HealthAvailabilitySnapshot) (factory : SF) (rt : runtime) : CommandAck * runtime :=
  if negb (existsb is_tls_listener (rt_listeners rt)) then (Rejected no_tls_listener_error, rt)
  else
    match selector_reconcile (rt_snapshot rt) next (rt_selector rt) with
    | (Err error, candidate) =>
        (Rejected error, with_selector (dropped_clone candidate (rt_selector rt)) rt)
    | (Ok _, candidate) =>
        match apply_availability next availability candidate with
        | (Err error, candidate) =>
            (Rejected error, with_selector (dropped_clone candidate (rt_selector rt)) rt)
        | (Ok _, candidate) =>
            (Accepted, with_snapshot next (with_selector candidate
                         (with_listeners (share_factory factory (rt_listeners rt)) rt)))
        end
    end.

Definition activate_runtime_generation (next : ConfigSnapshot)
  (availability : HealthAvailabilitySnapshot) (server_tls_registry : PreparedServerTlsRegistry K SF)
  (next_client_tls_registry : gmap (list byte * list byte) CF) (rt : runtime) : CommandAck * runtime :=
  match selector_reconcile (rt_snapshot rt) next (rt_selector rt) with
  | (Err error, candidate) =>
      (Rejected error, with_selector (dropped_clone candidate (rt_selector rt)) rt)
  | (Ok _, candidate) =>
      match apply_availability next availability candidate with
      | (Err error, candidate) =>
          (Rejected error, with_selector (dropped_clone candidate (rt_selector rt)) rt)
      | (Ok _, candidate) =>
          let rejected error :=
            (Rejected error, with_selector (dropped_clone candidate (rt_selector rt)) rt) in
          match validate_for_snapshot next_client_tls_registry next with
          | Err error => rejected error
          | Ok _ =>
              let tls_listener_count := len (List.filter is_tls_listener (rt_listeners rt)) in
              if negb (server_registry_len server_tls_registry =? tls_listener_count)
              then rejected runtime_generation_error
              else match collect_factories server_tls_registry (rt_listeners rt) with
                   | Err error => rejected error
                   | Ok factories =>
                       (Accepted,
                        with_snapshot next (with_client_tls next_client_tls_registry
                          (with_selector candidate
                             (with_listeners (install_factories (rt_listeners rt) factories) rt))))
                   end
          end
      end
  end.

(** ** The command loop *)
Definition handle_payload (payload : RuntimeCommandPayload) (rt : runtime) : CommandAck * runtime :=
  match payload with
  | PayloadCore command => handle_runtime_command command rt
  | InstallTlsSessionFactory factory => replace_tls_listener_factories factory rt
  | InstallServerTlsRegistry registry => replace_tls_listener_registry registry rt
  | ApplySnapshotAndTlsSessionFactory next factory => apply_snapshot_and_tls_factory next factory rt
  | ActivateSnapshotAndTlsSessionFactory next availability factory =>
      activate_snapshot_and_tls_factory next availability factory rt
  | ActivateRuntimeGeneration next availability server_tls_registry client_tls_registry =>
      activate_runtime_generation next availability server_tls_registry client_tls_registry rt
  end.

Record RuntimeCommandDrainOutcome := {
  dro_handled : bool;
  dro_shutdown_requested : bool;
  dro_drain_deadline_ms : option N
}.

Definition outcome_default : RuntimeCommandDrainOutcome :=
  {| dro_handled := false; dro_shutdown_requested := false; dro_drain_deadline_ms := None |}.

Definition note_command (payload : RuntimeCommandPayload) (ack : CommandAck)
  (o : RuntimeCommandDrainOutcome) : RuntimeCommandDrainOutcome :=
  {| dro_handled := true;
     dro_shutdown_requested :=
       match payload with
       | PayloadCore Shutdown => ack_is_success ack || dro_shutdown_requested o
       | _ => dro_shutdown_requested o
       end;
     dro_drain_deadline_ms :=
       match payload with
       | PayloadCore (BeginDrain deadline_ms) => Some deadline_ms
       | _ => dro_drain_deadline_ms o
       end |}.

(** The envelopes waiting in the channel, in the order they were sent, with the acknowledgement
    each sender gets; [None] is a runtime without a command channel. *)
Fixpoint drain_envelopes (envelopes : list RuntimeCommandPayload) (o : RuntimeCommandDrainOutcome)
  (rt : runtime) : list CommandAck * RuntimeCommandDrainOutcome * runtime :=
  match envelopes with
  | [] => ([], o, rt)
  | payload :: rest =>
      let '(ack, rt) := handle_payload payload rt in
      let '(acks, o, rt) := drain_envelopes rest (note_command payload ack o) rt in
      (ack :: acks, o, rt)
  end.

Definition drain_runtime_commands_with_listeners (commands : option (list RuntimeCommandPayload))
  (rt : runtime) : list CommandAck * RuntimeCommandDrainOutcome * runtime :=
  match commands with
  | None => ([], outcome_default, rt)
  | Some envelopes => drain_envelopes envelopes outcome_default rt
  end.

(** ** What a command does *)
Definition new_snapshot (payload : RuntimeCommandPayload) : option ConfigSnapshot :=
  match payload with
  | PayloadCore (ApplyConfigSnapshot next) | PayloadCore (ActivateConfigSnapshot next _)
  | ApplySnapshotAndTlsSessionFactory next _ | ActivateSnapshotAndTlsSessionFactory next _ _
  | ActivateRuntimeGeneration next _ _ _ => Some next
  | _ => None
  end.

Definition new_availability (payload : RuntimeCommandPayload) : option HealthAvailabilitySnapshot :=
  match payload with
  | PayloadCore (ActivateConfigSnapshot _ a) | PayloadCore (PublishUpstreamAvailability a)
  | ActivateSnapshotAndTlsSessionFactory _ a _ | ActivateRuntimeGeneration _ a _ _ => Some a
  | _ => None
  end.

(** The state apart from what has been published. *)
Definition only_published (rt rt' : runtime) : Prop :=
  ∃ log, rt' = with_selector (set_published log (rt_selector rt)) rt.

Lemma only_published_refl rt : only_published rt rt.
Proof. exists (sel_published (rt_selector rt)). by destruct rt as [? ? [] ?]. Qed.

Lemma only_published_dropped candidate rt :
  only_published rt (with_selector (dropped_clone candidate (rt_selector rt)) rt).
Proof. by eexists. Qed.

Lemma with_selector_same rt : with_selector (rt_selector rt) rt = rt.
Proof. by destruct rt. Qed.

Lemma apply_availability_error current a s e s' :
  apply_availability current a s = (Err e, s') → s' = s.
Proof. unfold apply_availability. intros ?. repeat case_match; by simplify_eq. Qed.

(** One goal for each way a handler can answer. *)
Ltac handler_cases payload Hh :=
  destruct payload as [[]| | | | |]; cbn in Hh;
  unfold activate_snapshot, replace_tls_listener_factories, replace_tls_listener_registry,
    apply_snapshot_and_tls_factory, activate_snapshot_and_tls_factory,
    activate_runtime_generation in Hh;
  repeat case_match; simplify_eq.

Lemma rejected_only_published payload rt e rt' :
  handle_payload payload rt = (Rejected e, rt') → only_published rt rt'.
Proof.
  intros Hh. handler_cases payload Hh;
    repeat match goal with
    | H : selector_reconcile _ _ _ = (Err _, _) |- _ => apply selector_reconcile_error in H
    | H : apply_availability _ _ _ = (Err _, _) |- _ => apply apply_availability_error in H
    end; subst; rewrite ?with_selector_same;
    auto using only_published_refl, only_published_dropped.
Qed.

Lemma accepted_snapshot payload rt rt' :
  handle_payload payload rt = (Accepted, rt') →
  rt_snapshot rt' = default (rt_snapshot rt) (new_snapshot payload).
Proof.
  intros Hh. by handler_cases payload Hh.
Qed.

(** Two lists of listeners with the same sockets and the same TLS listeners. *)
Definition same_listeners (ls ls' : list RegisteredSnapshotListener) : Prop :=
  rl_local_addr <$> ls' = rl_local_addr <$> ls ∧ is_tls_listener <$> ls' = is_tls_listener <$> ls.

Lemma share_factory_same factory ls : same_listeners ls (share_factory factory ls).
Proof.
  unfold same_listeners, share_factory. rewrite <- !list_fmap_compose. split;
    apply list_fmap_ext; intros ? l _; unfold compose; destruct (is_tls_listener l) eqn:E; by rewrite ?E.
Qed.

(** Every TLS listener has the factory the registry holds for its address. *)
Definition served_by (registry : PreparedServerTlsRegistry K SF) (l : RegisteredSnapshotListener)
  : Prop :=
  is_tls_listener l = true →
  ∃ bind, rl_local_addr l = Some bind ∧ rl_tls_session_factory l = server_factory_for bind registry.

Lemma collect_install registry ls factories :
  collect_factories registry ls = Ok factories →
  same_listeners ls (install_factories ls factories)
  ∧ Forall (served_by registry) (install_factories ls factories).
Proof.
  unfold same_listeners, install_factories, served_by.
  revert factories. induction ls as [|l ls IH]; intros factories Hc; simpl in Hc; [by simplify_eq|].
  destruct (is_tls_listener l) eqn:Hl.
  - destruct (rl_local_addr l) as [bind|] eqn:Hb; [|done].
    destruct (server_factory_for bind registry) as [f|] eqn:Hf; [|done].
    destruct (collect_factories registry ls) as [fs|]; [|done]. simplify_eq.
    destruct (IH fs eq_refl) as [[IH1 IH2] IH3]. cbn. rewrite IH1, IH2, Hl. split; [done|].
    constructor; [|done]. intros _. exists bind. cbn. by rewrite Hf.
  - destruct (collect_factories registry ls) as [fs|]; [|done]. simplify_eq.
    destruct (IH fs eq_refl) as [[IH1 IH2] IH3]. cbn. rewrite IH1, IH2. split; [done|].
    constructor; [|done]. by rewrite Hl.
Qed.

Lemma accepted_listeners payload rt rt' :
  handle_payload payload rt = (Accepted, rt') → same_listeners (rt_listeners rt) (rt_listeners rt').
Proof.
  intros Hh. handler_cases payload Hh; cbn; try done; try apply share_factory_same;
    by eapply collect_install.
Qed.

Lemma apply_availability_accepts current a s r s' :
  apply_availability current a s = (Ok r, s') →
  has_revision_id a = snap_revision_id current
  ∧ s' = set_availability (group_availability (has_entries a)) (Some (has_generation a)) s.
Proof.
  unfold apply_availability. intros Ha. case_bool_decide; [|done]. repeat case_match; by simplify_eq.
Qed.

Lemma accepted_availability payload rt rt' a :
  handle_payload payload rt = (Accepted, rt') → new_availability payload = Some a →
  has_revision_id a = snap_revision_id (rt_snapshot rt')
  ∧ ∀ service_id upstream_id,
      default ∅ (sel_availability (rt_selector rt') !! service_id) !! upstream_id
      = has_entries a !! ((service_id, upstream_id) : health_key).
Proof.
  intros Hh Ha. handler_cases payload Hh; cbn in Ha; simplify_eq;
    match goal with H : apply_availability _ _ _ = (Ok _, _) |- _ =>
      apply apply_availability_accepts in H as [? ->] end;
    (split; [done|]; intros; apply group_availability_lookup).
Qed.

(** The TLS part of a command. *)
Definition new_factory (payload : RuntimeCommandPayload) : option SF :=
  match payload with
  | InstallTlsSessionFactory factory | ApplySnapshotAndTlsSessionFactory _ factory
  | ActivateSnapshotAndTlsSessionFactory _ _ factory => Some factory
  | _ => None
  end.

Definition new_server_registry (payload : RuntimeCommandPayload)
  : option (PreparedServerTlsRegistry K SF) :=
  match payload with
  | InstallServerTlsRegistry registry | ActivateRuntimeGeneration _ _ registry _ => Some registry
  | _ => None
  end.

Definition new_client_registry (payload : RuntimeCommandPayload)
  : option (gmap (list byte * list byte) CF) :=
  match payload with
  | ActivateRuntimeGeneration _ _ _ registry => Some registry
  | _ => None
  end.

Definition serves (factory : SF) (l : RegisteredSnapshotListener) : Prop :=
  is_tls_listener l = true → rl_tls_session_factory l = Some factory.

(** What the listeners and the client registry are after an accepted command. *)
Record tls_installed (payload : RuntimeCommandPayload) (rt rt' : runtime) : Prop := {
  ti_sockets : same_listeners (rt_listeners rt) (rt_listeners rt');
  ti_factory : ∀ factory, new_factory payload = Some factory →
    existsb is_tls_listener (rt_listeners rt') = true
    ∧ Forall (serves factory) (rt_listeners rt');
  ti_registry : ∀ registry, new_server_registry payload = Some registry →
    server_registry_len registry = len (List.filter is_tls_listener (rt_listeners rt'))
    ∧ Forall (served_by registry) (rt_listeners rt');
  ti_kept : new_factory payload = None → new_server_registry payload = None →
    rt_listeners rt' = rt_listeners rt;
  ti_client : rt_client_tls rt' = default (rt_client_tls rt) (new_client_registry payload);
  ti_client_valid : ∀ client, new_client_registry payload = Some client →
    validate_for_snapshot client (rt_snapshot rt') = Ok tt
}.

Lemma tls_count_same ls ls' :
  same_listeners ls ls' → len (List.filter is_tls_listener ls') = len (List.filter is_tls_listener ls).
Proof.
  intros [_ Hs]. revert ls Hs. induction ls' as [|l' ls' IH]; intros [|l ls] Hs; try done.
  cbn in *. injection Hs as H1 H2. rewrite H1. destruct (is_tls_listener l); [|by apply IH].
  specialize (IH _ H2). unfold len in *. cbn. lia.
Qed.

Lemma tls_some_same ls ls' :
  same_listeners ls ls' → existsb is_tls_listener ls' = existsb is_tls_listener ls.
Proof.
  intros [_ Hs]. revert ls Hs. induction ls' as [|l' ls' IH]; intros [|l ls] Hs; try done.
  cbn in *. injection Hs as H1 H2. by rewrite H1, (IH _ H2).
Qed.

Lemma tls_some_count ls :
  (len (List.filter is_tls_listener ls) =? 0) = false → existsb is_tls_listener ls = true.
Proof. induction ls as [|l ls IH]; [done|]. cbn. by destruct (is_tls_listener l). Qed.

Lemma share_factory_serves factory ls : Forall (serves factory) (share_factory factory ls).
Proof.
  apply Forall_fmap, Forall_true. intros l. unfold serves, compose.
  destruct (is_tls_listener l) eqn:E; cbn; [done|]. by rewrite E.
Qed.

Lemma share_factory_installs factory ls :
  existsb is_tls_listener ls = true →
  existsb is_tls_listener (share_factory factory ls) = true
  ∧ Forall (serves factory) (share_factory factory ls).
Proof.
  intros He. by rewrite (tls_some_same _ _ (share_factory_same factory ls)), He;
    split; [|apply share_factory_serves].
Qed.

Lemma registry_installs registry ls factories :
  collect_factories registry ls = Ok factories →
  (server_registry_len registry =? len (List.filter is_tls_listener ls)) = true →
  server_registry_len registry = len (List.filter is_tls_listener (install_factories ls factories))
  ∧ Forall (served_by registry) (install_factories ls factories).
Proof.
  intros Hc Hn. apply collect_install in Hc as [Hsame Hs].
  rewrite (tls_count_same _ _ Hsame). split; [by apply N.eqb_eq|done].
Qed.

Lemma accepted_tls payload rt rt' :
  handle_payload payload rt = (Accepted, rt') → tls_installed payload rt rt'.
Proof.
  intros Hh. pose proof (accepted_listeners _ _ _ Hh) as Hsame.
  handler_cases payload Hh; (split; [exact Hsame|..]); cbn; intros; simplify_eq; try done;
    repeat match goal with
    | H : negb _ = false |- _ => apply negb_false_iff in H
    | H : () |- _ => destruct H
    end;
    try done; try (by apply registry_installs);
    apply share_factory_installs; first [done|by apply tls_some_count].
Qed.

(** The rotation, the endpoints and the leases after a change of configuration. *)
Record selector_moved (current next : ConfigSnapshot) (s s' : RuntimeUpstreamSelector) : Prop := {
  sm_endpoints : normalized_endpoint_map next = Ok (sel_endpoints s');
  sm_drain_snapshot : sel_drain_snapshot s' = next;
  sm_generation : sel_drain_generation s' = wrapping_add U64_MAX (sel_drain_generation s) 1;
  sm_tracker : sel_drain_tracker s' = drain_reconcile next (sel_drain_generation s') (sel_drain_tracker s);
  sm_turns : ∀ service_id, sel_sequences s' !! service_id
    = if keeps_sequence current next service_id then sel_sequences s !! service_id else None
}.

Record selector_stays (s s' : RuntimeUpstreamSelector) : Prop := {
  st_endpoints : sel_endpoints s' = sel_endpoints s;
  st_drain_snapshot : sel_drain_snapshot s' = sel_drain_snapshot s;
  st_generation : sel_drain_generation s' = sel_drain_generation s;
  st_tracker : sel_drain_tracker s' = sel_drain_tracker s;
  st_turns : sel_sequences s' = sel_sequences s
}.

Lemma reconcile_moves current next s u s' :
  selector_reconcile current next s = (Ok u, s') → selector_moved current next s s'.
Proof.
  unfold selector_reconcile. destruct (normalized_endpoint_map next) as [endpoints|e] eqn:He; [|done].
  unfold publish_runtime_status. cbn [sel_published sel_drain_snapshot sel_drain_tracker].
  intros [= _ <-]. case_bool_decide; destruct (sel_published s);
    (split; [exact He|reflexivity..|]); intros id; cbn; rewrite map_lookup_filter;
    destruct (sel_sequences s !! id); cbn; destruct (keeps_sequence current next id) eqn:Hk;
    rewrite ?option_guard_True, ?option_guard_False by (cbn; congruence); done.
Qed.

Lemma moved_set_availability current next s s' m g :
  selector_moved current next s s' → selector_moved current next s (set_availability m g s').
Proof. intros []. split; assumption. Qed.

Lemma accepted_selector payload rt rt' :
  handle_payload payload rt = (Accepted, rt') →
  match new_snapshot payload with
  | Some next => selector_moved (rt_snapshot rt) next (rt_selector rt) (rt_selector rt')
  | None => selector_stays (rt_selector rt) (rt_selector rt')
  end.
Proof.
  intros Hh. handler_cases payload Hh; cbn;
    repeat match goal with
    | H : selector_reconcile _ _ _ = (Ok _, _) |- _ => apply reconcile_moves in H
    | H : apply_availability _ _ _ = (Ok _, _) |- _ => apply apply_availability_accepts in H as [_ ->]
    end; cbn in *; simplify_eq; first [by split|done|by apply moved_set_availability].
Qed.

(** C29: every runtime command takes effect as a whole or not at all.  A rejected command leaves
    the configuration, the listeners, the TLS registries and the selector as they were; it may
    only have published a status.  An accepted one installs exactly its configuration, with the
    addresses of that configuration's upstreams, a new drain generation, and the turns of the
    services that kept their upstreams; one without a configuration leaves these as they are.
    Its availability, which is of that configuration's revision, is what the selector uses for
    each upstream.  No listener is lost or changes between plain and TLS.  After a command with a
    TLS session factory there is a TLS listener and every one serves that factory; after one with
    a server registry, which is as large as the TLS listeners are many, every TLS listener serves
    the factory prepared for its address; any other command leaves the listeners as they are.
    The client TLS registry changes only with a whole generation, to the one it brings, which is
    accepted for the new configuration. *)
Theorem runtime_command_atomic payload rt :
  match handle_payload payload rt with
  | (Rejected _, rt') => only_published rt rt'
  | (Accepted, rt') =>
      rt_snapshot rt' = default (rt_snapshot rt) (new_snapshot payload)
      ∧ match new_snapshot payload with
        | Some next => selector_moved (rt_snapshot rt) next (rt_selector rt) (rt_selector rt')
        | None => selector_stays (rt_selector rt) (rt_selector rt')
        end
      ∧ (∀ a, new_availability payload = Some a →
           has_revision_id a = snap_revision_id (rt_snapshot rt')
           ∧ ∀ service_id upstream_id,
               default ∅ (sel_availability (rt_selector rt') !! service_id) !! upstream_id
               = has_entries a !! ((service_id, upstream_id) : health_key))
      ∧ tls_installed payload rt rt'
  end.
Proof.
  destruct (handle_payload payload rt) as [[|e] rt'] eqn:Hh; [|by eapply rejected_only_published].
  split_and!.
  - by apply accepted_snapshot.
  - by apply accepted_selector.
  - intros a. by apply accepted_availability with (rt := rt).
  - by apply accepted_tls.
Qed.

(** ** Selections over any history

    The services the event loop selects for are those of the configuration in force. *)
Inductive runtime_op :=
| OpCommand (payload : RuntimeCommandPayload)
| OpSelect (service_id : list byte)
| OpRetry (service_id : list byte) (attempted : gset (list byte))
| OpRelease (reference : DrainReference).

Definition on_service (service_id : list byte)
  (f : Service → RuntimeUpstreamSelector → option RuntimeUpstreamSelection * RuntimeUpstreamSelector)
  (rt : runtime) : runtime :=
  match find_service (rt_snapshot rt) service_id with
  | None => rt
  | Some service => with_selector (f service (rt_selector rt)).2 rt
  end.

Definition runtime_exec (op : runtime_op) (rt : runtime) : runtime :=
  match op with
  | OpCommand payload => (handle_payload payload rt).2
  | OpSelect service_id => on_service service_id selector_select rt
  | OpRetry service_id attempted =>
      on_service service_id (λ service, selector_select_retry service attempted) rt
  | OpRelease reference => with_selector (release_drain_reference reference (rt_selector rt)) rt
  end.

Definition runtime_run (ops : list runtime_op) (rt : runtime) : runtime :=
  foldl (λ rt op, runtime_exec op rt) rt ops.

(** The configurations that a history brings have no upstream id twice in a service. *)
Definition brings_unique (op : runtime_op) : Prop :=
  match op with
  | OpCommand payload => ∀ next, new_snapshot payload = Some next → unique_upstreams next
  | _ => True
  end.

Definition rt_ok (rt : runtime) : Prop := sel_ok (rt_snapshot rt) (rt_selector rt).

Lemma only_published_ok rt rt' : only_published rt rt' → rt_ok rt → rt_ok rt'.
Proof. intros [log ->] []. by constructor. Qed.

Lemma find_service_elem snapshot service_id service :
  find_service snapshot service_id = Some service → service ∈ snap_services snapshot.
Proof. intros Hf. apply List.find_some in Hf as [Hin _]. by apply list_elem_of_In. Qed.

Lemma handle_payload_ok payload rt :
  brings_unique (OpCommand payload) → rt_ok rt → rt_ok (handle_payload payload rt).2.
Proof.
  intros Hu Hok. destruct (handle_payload payload rt) as [[|e] rt'] eqn:Hh; cbn;
    [|eapply only_published_ok; [by eapply rejected_only_published|done]].
  unfold rt_ok in *. cbn in Hu.
  handler_cases payload Hh; cbn in *;
    repeat match goal with H : () |- _ => destruct H end;
    repeat match goal with
    | H : selector_reconcile _ _ _ = (Ok _, _) |- _ =>
        apply selector_reconcile_ok in H; [|by apply Hu]
    end; try done;
    (eapply apply_availability_ok; [by eauto|done]).
Qed.

Lemma on_service_ok service_id f rt :
  (∀ service, service ∈ snap_services (rt_snapshot rt) →
     sel_ok (rt_snapshot rt) (f service (rt_selector rt)).2) →
  rt_ok rt → rt_ok (on_service service_id f rt).
Proof.
  intros Hf Hok. unfold on_service. destruct (find_service _ _) as [service|] eqn:Hs; [|done].
  by apply Hf, find_service_elem with service_id.
Qed.

Lemma runtime_exec_ok op rt : brings_unique op → rt_ok rt → rt_ok (runtime_exec op rt).
Proof.
  destruct op as [payload|service_id|service_id attempted|reference]; intros Hu Hok; cbn.
  - by apply handle_payload_ok.
  - apply on_service_ok; [|done]. intros service Hs.
    pose proof (select_exact _ _ _ Hok Hs) as H0.
    destruct (selector_select service (rt_selector rt)) as [[r|] s']; cbn in *; naive_solver.
  - apply on_service_ok; [|done]. intros service Hs.
    pose proof (retry_exact _ _ _ attempted Hok Hs) as H0.
    destruct (selector_select_retry service attempted (rt_selector rt)) as [[r|] s']; cbn in *;
      naive_solver.
  - by apply release_reference_ok.
Qed.

Lemma runtime_run_ok ops rt : Forall brings_unique ops → rt_ok rt → rt_ok (runtime_run ops rt).
Proof.
  revert rt. induction ops as [|op ops IH]; intros rt Hf Hok; [done|].
  apply Forall_cons in Hf as [Hop Hf]. cbn. apply IH; [done|]. by apply runtime_exec_ok.
Qed.

(** C12: whatever commands, selections, retries and releases came before, a request for a service
    of the configuration in force gets no upstream exactly when no upstream of it is eligible;
    otherwise it gets the eligible upstream whose turn it is, with the address parsed from that
    upstream's own URL, that upstream's own TLS policy and a lease that the drain tracker holds
    for it, and the turn moves on by one.  A retry does the same among the eligible upstreams
    that were not attempted before, and leaves the turn to the next request.  The
    configurations of the history must not repeat an upstream id within a service. *)
Theorem selection_sound snapshot0 selector0 listeners0 client_tls0 ops :
  unique_upstreams snapshot0 → selector_from_snapshot snapshot0 = Ok selector0 →
  Forall brings_unique ops →
  let rt := runtime_run ops {| rt_snapshot := snapshot0; rt_listeners := listeners0;
                               rt_selector := selector0; rt_client_tls := client_tls0 |} in
  ∀ service_id service, find_service (rt_snapshot rt) service_id = Some service →
  let s := rt_selector rt in
  let eligible := eligible_upstreams service (service_availabilities service s) in
  let turn l := l !! N.to_nat (service_sequence service s mod len l) in
  match selector_select service s with
  | (None, s') => eligible = [] ∧ s' = s
  | (Some r, s') =>
      ∃ u, turn eligible = Some u ∧ selection_of service u r s'
        ∧ service_sequence service s' = wrapping_add U64_MAX (service_sequence service s) 1
  end
  ∧ ∀ attempted,
      let untried := List.filter (λ u, negb (bool_decide (up_id u ∈ attempted))) eligible in
      match selector_select_retry service attempted s with
      | (None, s') => untried = [] ∧ s' = s
      | (Some r, s') =>
          ∃ u, turn untried = Some u ∧ selection_of service u r s'
            ∧ sel_sequences s' = sel_sequences s
      end.
Proof.
  intros Hu Hs Hops rt service_id service Hf. cbn zeta.
  assert (rt_ok rt) as Hok by (by apply runtime_run_ok, from_snapshot_ok).
  apply find_service_elem in Hf. split.
  - pose proof (select_exact _ _ _ Hok Hf) as H0.
    destruct (selector_select service (rt_selector rt)) as [[r|] s']; naive_solver.
  - intros attempted. pose proof (retry_exact _ _ _ attempted Hok Hf) as H0.
    destruct (selector_select_retry service attempted (rt_selector rt)) as [[r|] s']; naive_solver.
Qed.
End commands.
Arguments RegisteredSnapshotListener : clear implicits.
Arguments runtime : clear implicits.
Arguments RuntimeCommandPayload K SF CF {_ _}.
Arguments runtime_op K SF CF {_ _}.

(** ** Examples *)
Definition pair_snapshot (revision : string) (state_a : UpstreamAdministrativeState) : ConfigSnapshot :=
  let upstream id url state := {| up_id := lit id; up_url := lit url;
                                  up_administrative_state := state; up_tls := TlsDisabled |} in
  {| snap_schema_version := 1; snap_revision_id := lit revision;
     snap_admin := {| admin_bind := lit "127.0.0.1:9443"; admin_auth_required := true |};
     snap_listeners := []; snap_routes := [];
     snap_services := [{| svc_id := lit "api";
                          svc_upstreams := [upstream "a" "http://127.0.0.1:8001" state_a;
                                            upstream "b" "http://127.0.0.1:8002" AdminActive];
                          svc_policy := ServicePolicy_default |}];
     snap_certificate_resolvers := []; snap_log_mode := LogProduct;
     snap_runtime := snap_runtime (items_snapshot (PathMatch_prefix (lit "/"))) |}.

Definition pair_selector : RuntimeUpstreamSelector :=
  match selector_from_snapshot (pair_snapshot "r1" AdminActive) with
  | Ok s => s
  | Err _ => {| sel_sequences := ∅; sel_endpoints := ∅; sel_availability := ∅;
                sel_availability_generation := None; sel_drain_generation := 0;
                sel_drain_tracker := drain_default;
                sel_drain_snapshot := pair_snapshot "r1" AdminActive; sel_published := None |}
  end.

Definition pair_runtime (s : RuntimeUpstreamSelector) : runtime N N N :=
  {| rt_snapshot := pair_snapshot "r1" AdminActive; rt_listeners := []; rt_selector := s;
     rt_client_tls := ∅ |}.

Lemma pair_unique revision state : unique_upstreams (pair_snapshot revision state).
Proof.
  unfold unique_upstreams, snapshot_upstreams. cbn.
  repeat constructor; rewrite ?elem_of_cons, ?elem_of_nil; intros; naive_solver congruence.
Qed.

(** One request for [a]; then [a] is set to drain; the next request goes to [b]. *)
Definition pair_ops : list (runtime_op N N N) :=
  [OpSelect (lit "api"); OpCommand (PayloadCore (ApplyConfigSnapshot (pair_snapshot "r2" AdminDraining)))].

Lemma selection_sound_witness :
  let rt := runtime_run pair_ops (pair_runtime pair_selector) in
  ∃ service r u, find_service (rt_snapshot rt) (lit "api") = Some service
    ∧ (selector_select service (rt_selector rt)).1 = Some r ∧ rsel_upstream_id r = lit "b"
    ∧ selection_of service u r (selector_select service (rt_selector rt)).2.
Proof.
  set (rt := runtime_run pair_ops (pair_runtime pair_selector)).
  destruct (find_service (rt_snapshot rt) (lit "api")) as [service|] eqn:Hf; [|by vm_compute in Hf].
  assert (Forall brings_unique pair_ops) as Hops.
  { repeat constructor; cbn; try done. intros next [= <-]. apply pair_unique. }
  destruct (selection_sound (pair_snapshot "r1" AdminActive) pair_selector [] ∅ pair_ops
              (pair_unique _ _) ltac:(vm_compute; reflexivity) Hops (lit "api") service Hf) as [H0 _].
  exists service. assert (Hid : rsel_upstream_id <$> (selector_select service (rt_selector rt)).1
                                = Some (lit "b")).
  { assert (service = default service (find_service (rt_snapshot rt) (lit "api"))) as -> by by rewrite Hf.
    vm_compute. reflexivity. }
  fold (pair_runtime pair_selector) in H0. fold rt in H0.
  destruct (selector_select service (rt_selector rt)) as [[r|] s']; [|done].
  cbn in Hid. simplify_eq. destruct H0 as (u & _ & Hsel & _). by exists r, u.
Defined.

(** a rejected activation is still announced: the handler reconciles a clone of the selector,
    the clone shares the status publisher of the original, and it publishes the new revision
    before the availability is examined.  Here the availability has no keys, the activation is
    rejected, the configuration in force is still r1, and the last status published is of r2
    and its generation. *)
Theorem rejected_activation_published :
  let rt := pair_runtime (install_runtime_status_publisher (Some []) pair_selector) in
  let '(ack, rt') :=
    handle_runtime_command
      (ActivateConfigSnapshot (pair_snapshot "r2" AdminActive)
         {| has_revision_id := lit "r2"; has_generation := 1; has_entries := ∅ |}) rt in
  ack_is_success ack = false
  ∧ snap_revision_id (rt_snapshot rt') = lit "r1"
  ∧ sel_drain_generation (rt_selector rt') = 1
  ∧ (head (default [] (sel_published (rt_selector rt')))
       = Some (operational_snapshot (pair_snapshot "r2" AdminActive)
                 (drain_reconcile (pair_snapshot "r2" AdminActive) 2
                    (sel_drain_tracker pair_selector))))
  ∧ russ_revision_id <$> head (default [] (sel_published (rt_selector rt'))) = Some (lit "r2")
  ∧ russ_generation <$> head (default [] (sel_published (rt_selector rt'))) = Some 2.
Proof. vm_compute. done. Qed.
