(* ===== verification/ResponseSanitizer.v ===== *)
(** * Relaying response headers, and the proxy's own responses

    [UpstreamResponseHeaderSanitizer] of crates/edge-core/src/http_forwarding_policy.rs, which
    removes hop-by-hop fields from the header blocks of a response while its bytes pass through,
    and the responses the proxy writes itself (module snapshot_http of
    crates/edge-core/src/lib.rs). *)

From stdpp Require Import base gmap strings list numbers.
From Stdlib Require Import Strings.Byte NArith Lia.
From S2P Require Import Prelude Errors RustStr HttpRequest ResponseFraming Endpoint HttpForwarding Connection Health.
Local Open Scope N_scope.

(** ** One header block *)
Definition response_header_error (code : ErrorCode) (message : string) : AppError :=
  AppError_new code message.
Definition bad_header {A} (message : string) : result AppError A :=
  Err (response_header_error RuntimeUpstreamBadGateway message).

Fixpoint parse_response_headers (lines : list (list byte)) : result AppError (list Header) :=
  match lines with
  | [] => Ok []
  | line :: rest =>
      match split_once COLON line with
      | None => bad_header "response header is malformed"
      | Some (name, value) =>
          let? headers := parse_response_headers rest in
          Ok ({| header_name := name; header_value := trim_start value |} :: headers)
      end
  end.

Definition is_retained (connection_tokens : list (list byte)) (header : Header) : bool :=
  let name := to_ascii_lowercase (header_name header) in
  bool_decide (name = lit "transfer-encoding") || is_end_to_end connection_tokens name.

(** The second word of the status line. *)
Definition second_word_status (status_line : list byte) : option N :=
  match split_whitespace status_line with
  | _ :: code :: _ => parse_uint U16_MAX code
  | _ => None
  end.

Definition sanitize_response_header_block (headers : list byte) (close_final_response : bool)
  : result AppError (list byte * bool) :=
  if negb (utf8_valid headers) then bad_header "response headers are not UTF-8"
  else match strip_suffix CRLFCRLF headers with
  | None => bad_header "response header terminator is missing"
  | Some header_text =>
      match split_str CRLF header_text with
      | [] => bad_header "response status line is missing"
      | status_line :: lines =>
          let? status_code :=
            ok_or (second_word_status status_line)
              (response_header_error RuntimeUpstreamBadGateway "response status code is invalid") in
          let? parsed_headers := parse_response_headers lines in
          let connection_tokens := connection_header_tokens parsed_headers in
          let retained := List.filter (is_retained connection_tokens) parsed_headers in
          let interim := is_interim_status status_code in
          Ok (status_line ++ CRLF
              ++ concat ((λ header, header_name header ++ lit ": " ++ header_value header ++ CRLF)
                           <$> retained)
              ++ (if negb interim && close_final_response then connection_close_line else [])
              ++ CRLF, interim)
      end
  end.

(** ** The sanitizer *)
Record UpstreamResponseHeaderSanitizer := {
  san_headers : list byte;
  san_max_header_bytes : N;
  san_close_final_response : bool;
  san_forwarding_body : bool
}.

Definition sanitizer_new (max_header_bytes : N) (close_final_response : bool)
  : UpstreamResponseHeaderSanitizer :=
  {| san_headers := []; san_max_header_bytes := max_header_bytes;
     san_close_final_response := close_final_response; san_forwarding_body := false |}.

Definition set_headers (headers : list byte) (s : UpstreamResponseHeaderSanitizer)
  : UpstreamResponseHeaderSanitizer :=
  {| san_headers := headers; san_max_header_bytes := san_max_header_bytes s;
     san_close_final_response := san_close_final_response s;
     san_forwarding_body := san_forwarding_body s |}.

Definition set_forwarding (s : UpstreamResponseHeaderSanitizer) : UpstreamResponseHeaderSanitizer :=
  {| san_headers := san_headers s; san_max_header_bytes := san_max_header_bytes s;
     san_close_final_response := san_close_final_response s; san_forwarding_body := true |}.

Definition sanitizer_limit_error : AppError :=
  response_header_error ResourcePayloadCapacityReached "response header sanitizer limit reached".
Definition sanitizer_allocation_error : AppError :=
  response_header_error ResourceAllocationFailed "response header sanitizer allocation failed".

Section sanitizer.
Context `{Allocator W}.

Fixpoint sanitize_loop (rest output : list byte) (s : UpstreamResponseHeaderSanitizer) (w : W)
  : result AppError (list byte) * (UpstreamResponseHeaderSanitizer * W) :=
  match rest with
  | [] => (Ok output, (s, w))
  | b :: rest =>
      if san_max_header_bytes s <=? len (san_headers s) then (Err sanitizer_limit_error, (s, w))
      else
        let (room, w) := reserve_one (san_headers s) w in
        if negb room then (Err sanitizer_allocation_error, (s, w))
        else
          let s := set_headers (san_headers s ++ [b]) s in
          if negb (ends_with CRLFCRLF (san_headers s)) then sanitize_loop rest output s w
          else
            match sanitize_response_header_block (san_headers s) (san_close_final_response s) with
            | Err e => (Err e, (s, w))
            | Ok (sanitized, interim) =>
                let (room, w) := try_reserve output (len sanitized) w in
                if negb room then (Err sanitizer_allocation_error, (s, w))
                else
                  let output := output ++ sanitized in
                  let s := set_headers [] s in
                  if interim then sanitize_loop rest output s w
                  else
                    let s := set_forwarding s in
                    let (room, w) := try_reserve output (len rest) w in
                    if negb room then (Err sanitizer_allocation_error, (s, w))
                    else (Ok (output ++ rest), (s, w))
            end
  end.

Definition sanitize (input : list byte) (s : UpstreamResponseHeaderSanitizer) (w : W)
  : result AppError (list byte) * (UpstreamResponseHeaderSanitizer * W) :=
  if san_forwarding_body s then (Ok input, (s, w)) else sanitize_loop input [] s w.
End sanitizer.

(** ** The proxy's own responses *)
Definition http_error_response (status : N) (reason : list byte) : list byte :=
  let body := print_dec status ++ lit " " ++ reason ++ [x0a] in
  lit "HTTP/1.1 " ++ print_dec status ++ lit " " ++ reason ++ CRLF
  ++ lit "Content-Length: " ++ print_dec (len body) ++ CRLF
  ++ lit "Connection: close" ++ CRLF ++ CRLF ++ body.

Definition error_status_for_code (code : ErrorCode) : N * list byte :=
  match code with
  | HttpRequestBodyTooLarge => (413, lit "Payload Too Large")
  | HttpRequestLineTooLarge => (414, lit "URI Too Long")
  | HttpHeaderTooLarge => (431, lit "Request Header Fields Too Large")
  | HttpConnectMethodRejected => (405, lit "Method Not Allowed")
  | HttpMalformedRequest | HttpTransferEncodingContentLengthConflict => (400, lit "Bad Request")
  | ResourcePayloadCapacityReached | ResourceAllocationFailed => (503, lit "Service Unavailable")
  | _ => (500, lit "Internal Server Error")
  end.

Definition error_response_for_code (code : ErrorCode) : list byte :=
  let '(status, reason) := error_status_for_code code in http_error_response status reason.

Definition redirect_reason (status : N) : list byte :=
  if status =? 301 then lit "Moved Permanently"
  else if status =? 308 then lit "Permanent Redirect" else lit "Redirect".

Definition redirect_response (status : N) (host path : list byte) : list byte :=
  let reason := redirect_reason status in
  let location := lit "https://" ++ host ++ path in
  let body := print_dec status ++ lit " " ++ reason ++ [x0a] in
  lit "HTTP/1.1 " ++ print_dec status ++ lit " " ++ reason ++ CRLF
  ++ lit "Location: " ++ location ++ CRLF
  ++ lit "Content-Length: " ++ print_dec (len body) ++ CRLF
  ++ lit "Connection: close" ++ CRLF ++ CRLF ++ body.

Definition plain_response (status : N) (reason body : list byte) : list byte :=
  lit "HTTP/1.1 " ++ print_dec status ++ lit " " ++ reason ++ CRLF
  ++ lit "Content-Length: " ++ print_dec (len body) ++ CRLF
  ++ lit "Connection: close" ++ CRLF ++ CRLF ++ body.

Definition runtime_error_log_for_status (status_code : N) : option (ErrorCode * string) :=
  if status_code =? 502 then Some (RuntimeUpstreamBadGateway, "upstream returned bad gateway")
  else if status_code =? 504 then Some (RuntimeUpstreamTimeout, "upstream timed out")
  else None.

Fixpoint take_while_nonempty (lines : list (list byte)) : list (list byte) :=
  match lines with
  | [] => []
  | line :: rest => if bool_decide (line = []) then [] else line :: take_while_nonempty rest
  end.

Definition response_declares_connection_close (response : list byte) : bool :=
  if negb (utf8_valid response) then false
  else
    existsb (λ value, eq_ignore_ascii_case (trim value) (lit "close"))
      (concat ((λ nv : list byte * list byte, split_byte COMMA nv.2)
         <$> List.filter (λ nv, eq_ignore_ascii_case nv.1 (lit "Connection"))
               (omap (split_once COLON)
                  (take_while_nonempty (tail (split_str CRLF response)))))).

Definition upstream_failure_response (failure : UpstreamAttemptFailure) : list byte :=
  let '(status_code, reason) := upstream_failure_response_spec failure in
  http_error_response status_code (lit reason).

Definition passive_failure_reason (failure : UpstreamAttemptFailure) : option PassiveFailureReason :=
  match failure with
  | FailConnect => Some ReasonConnect
  | FailConnectTimeout => Some ReasonConnectTimeout
  | FailTlsHandshake => Some ReasonConnect
  | FailTlsHandshakeTimeout => Some ReasonConnectTimeout
  | FailWrite => Some ReasonWrite
  | FailRead => Some ReasonRead
  | FailReadTimeout => Some ReasonReadTimeout
  | FailResetBeforeResponse => Some ReasonResetBeforeResponse
  | FailResetAfterResponse => None
  end.

(** ** Blocks of lines whose first line may hold any byte but a CRLF *)
Lemma starts_with_CRLF_CRLFCRLF l : starts_with CRLF l = false → starts_with CRLFCRLF l = false.
Proof.
  intros Hl. apply not_true_iff_false. intros [k ->]%starts_with_spec.
  unfold CRLFCRLF in Hl. rewrite <-app_assoc, starts_with_app in Hl. done.
Qed.

Lemma no_crlf_drop l i : find_seq CRLF l = None → starts_with CRLF (drop i l) = false.
Proof.
  revert i. induction l as [|b l IH]; intros i Hl; [by rewrite drop_nil|].
  cbn [find_seq] in Hl. destruct (starts_with CRLF (b :: l)) eqn:E; [done|].
  destruct (find_seq CRLF l) eqn:E'; [done|]. destruct i; [done|]. by apply IH.
Qed.

Lemma no_crlf_before l k i :
  find_seq CRLF l = None → (i < length l)%nat → starts_with CRLF (drop i (l ++ CRLF ++ k)) = false.
Proof.
  intros Hl Hi. apply (no_crlf_drop _ i) in Hl. rewrite drop_app_le by lia.
  destruct (drop i l) as [|b [|c u]] eqn:E.
  - apply (f_equal length) in E. rewrite length_drop in E. simpl in E. lia.
  - simpl. by rewrite andb_false_r.
  - done.
Qed.

Lemma find_seq_past pat w l :
  (∀ i, (i < length w)%nat → starts_with pat (drop i (w ++ l)) = false) →
  find_seq pat (w ++ l) = (λ n, (length w + n)%nat) <$> find_seq pat l.
Proof.
  induction w as [|b w IH]; intros Hw; simpl app.
  - by destruct (find_seq pat l).
  - pose proof (Hw 0%nat ltac:(simpl; lia)) as H0. cbn [app drop] in H0. cbn [find_seq]. rewrite H0.
    rewrite IH by (intros i Hi; apply (Hw (S i)); simpl; lia). by destruct (find_seq pat l).
Qed.

Lemma split_join_status l ls :
  find_seq CRLF l = None → Forall line_ok ls → split_str CRLF (join_lines l ls) = l :: ls.
Proof.
  intros Hl Hls. destruct Hls as [|l' ls Hl' Hls]; cbn [join_lines]; [by apply split_str_last|].
  rewrite split_str_join; [by rewrite split_join_lines|done|]. intros i Hi. by apply no_crlf_before.
Qed.

Lemma status_block_end l ls :
  find_seq CRLF l = None → Forall line_ok ls →
  find_seq CRLFCRLF (join_lines l ls ++ CRLFCRLF) = Some (length (join_lines l ls)).
Proof.
  intros Hl Hls. destruct Hls as [|l' ls Hl' Hls]; cbn [join_lines].
  - rewrite find_seq_past; [simpl; by rewrite Nat.add_0_r|].
    intros i Hi. by apply starts_with_CRLF_CRLFCRLF, no_crlf_before.
  - rewrite <-!app_assoc. rewrite find_seq_past.
    2:{ intros i Hi. by apply starts_with_CRLF_CRLFCRLF, no_crlf_before. }
    pose proof (find_header_end_join [x41] (l' :: ls) []) as Hj. cbn [join_lines] in Hj.
    rewrite app_nil_r, <-!app_assoc in Hj. set (t := CRLF ++ _ ++ CRLFCRLF) in *.
    assert (find_seq CRLFCRLF ([x41] ++ t) = S <$> find_seq CRLFCRLF t) as Hs.
    { cbn. by destruct (find_seq CRLFCRLF t). }
    assert (S <$> find_seq CRLFCRLF t = Some (S (length (CRLF ++ join_lines l' ls)))) as Hn.
    { rewrite <-Hs. apply Hj; [split; set_solver|by constructor]. }
    destruct (find_seq CRLFCRLF t) as [n|]; [|done]. simplify_eq/=. by rewrite length_app.
Qed.

(** ** Leading white space does not matter in a list of tokens *)
Lemma ws_start_take l : ws_start (take (ws_start l) l) = ws_start l.
Proof.
  destruct l as [|b0 [|b1 [|b2 l]]]; simpl; [done|..].
  - by destruct (ws1 b0) eqn:E1; simpl; rewrite ?E1.
  - destruct (ws1 b0) eqn:E1; simpl; rewrite ?E1; [done|].
    by destruct (ws2 b0 b1) eqn:E2; simpl; rewrite ?E1, ?E2.
  - destruct (ws1 b0) eqn:E1; simpl; rewrite ?E1; [done|].
    destruct (ws2 b0 b1) eqn:E2; simpl; rewrite ?E1, ?E2; [done|].
    by destruct (ws3 b0 b1 b2) eqn:E3; simpl; rewrite ?E1, ?E2, ?E3.
Qed.

Lemma ws_bytes_not_plain l : Forall (λ b, plain b = false) (take (ws_start l) l).
Proof.
  assert (∀ b, ws1 b = true → plain b = false) as H1 by (by intros []).
  assert (∀ b c, ws2 b c = true → plain b = false ∧ plain c = false) as H2.
  { intros b c. unfold ws2. intros [Hb [Hc|Hc]%orb_true_iff]%andb_true_iff;
      apply N.eqb_eq in Hb, Hc; unfold plain; by rewrite Hb, Hc. }
  assert (∀ b c d, ws3 b c d = true → plain b = false ∧ plain c = false ∧ plain d = false) as H3.
  { intros b c d. unfold ws3, plain, in_range. intros Hw.
    repeat (apply orb_true_iff in Hw as [Hw|Hw]); nbool; repeat match goal with
    | H : (_ || _) = true |- _ => apply orb_true_iff in H as [H|H]
    end; nbool; repeat split; apply andb_false_iff; right; apply N.leb_gt; lia. }
  destruct l as [|b0 [|b1 [|b2 l]]]; simpl; repeat (case_match; simpl; try done);
    repeat match goal with
    | H : ws1 _ = true |- _ => apply H1 in H
    | H : ws2 _ _ = true |- _ => apply H2 in H as [? ?]
    | H : ws3 _ _ _ = true |- _ => apply H3 in H as (? & ? & ?)
    end; by repeat constructor.
Qed.

(** What [trim_start] cuts off is cut off in front of anything. *)
Lemma trim_start_prefix l :
  ∃ a, l = a ++ trim_start l ∧ (∀ p, trim_start (a ++ p) = trim_start p)
       ∧ Forall (λ b, plain b = false) a.
Proof.
  remember (length l) as n eqn:Hn. assert (Hle : (length l ≤ n)%nat) by lia. clear Hn. revert l Hle.
  induction n as [|n IH]; intros l Hle; [destruct l; [by exists []|simpl in Hle; lia]|].
  destruct (Nat.eq_dec (ws_start l) 0%nat) as [H0|H0]; [exists []; by rewrite trim_start_id|].
  assert (l ≠ []) by by destruct l.
  assert (trim_start l = trim_start (drop (ws_start l) l)) as Ht by (by apply drop_while_char_unfold).
  destruct (IH (drop (ws_start l) l)) as (a & Ha & Hp & Hf); [rewrite length_drop; lia|].
  exists (take (ws_start l) l ++ a). rewrite Ht. split_and!.
  - by rewrite <-app_assoc, <-Ha, take_drop.
  - intros p. rewrite <-app_assoc. unfold trim_start at 1. rewrite drop_while_char_unfold.
    + rewrite ws_start_mono, ws_start_take by by rewrite ws_start_take.
      rewrite drop_app_length'; [apply Hp|]. rewrite length_take. pose proof (ws_start_len l). lia.
    + rewrite ws_start_mono, ws_start_take; [done|]. by rewrite ws_start_take.
    + destruct l; [done|]. destruct (ws_start _); done.
  - apply Forall_app. split; [apply ws_bytes_not_plain|done].
Qed.

Lemma trim_start_idemp l : trim_start (trim_start l) = trim_start l.
Proof. destruct (trim_start_stop l) as [->|E]; [done|by apply trim_start_id]. Qed.

Lemma trim_trim_start l : trim (trim_start l) = trim l.
Proof. unfold trim. by rewrite trim_start_idemp. Qed.

Lemma split_byte_prefix c a l :
  c ∉ a → split_byte c (a ++ l) = match split_byte c l with x :: xs => (a ++ x) :: xs | [] => [] end.
Proof.
  unfold split_byte, split_str. induction a as [|b a IH]; intros Hc.
  { cbn [app]. by destruct (split_go [c] 0 l). }
  apply not_elem_of_cons in Hc as [Hb Hc]. cbn [app split_go starts_with].
  rewrite bool_decide_false by congruence. cbn [andb]. rewrite IH by done.
  destruct (split_go [c] 0 l) as [|x xs] eqn:E; [|done]. exfalso. clear -E.
  assert (∀ k, split_go [c] k l ≠ []) as Hne; [|by apply (Hne 0%nat)]. clear E.
  induction l as [|d l IH]; intros k; [done|]. simpl. destruct k; [|apply IH].
  case_match; [done|]. destruct (split_go [c] 0 l); done.
Qed.

Lemma comma_not_cut a : Forall (λ b, plain b = false) a → COMMA ∉ a.
Proof. rewrite list.Forall_forall. intros Ha Hin. by specialize (Ha _ Hin). Qed.

Lemma list_tokens_trim v :
  trim <$> split_byte COMMA (x20 :: trim_start v) = trim <$> split_byte COMMA v.
Proof.
  destruct (trim_start_prefix v) as (a & Hv & Hp & Ha). rewrite Hv at 2.
  change (x20 :: trim_start v) with ([x20] ++ trim_start v).
  rewrite !split_byte_prefix by (apply comma_not_cut; by repeat constructor).
  destruct (split_byte COMMA (trim_start v)) as [|x xs]; [done|]. rewrite !fmap_cons. f_equal.
  unfold trim. by rewrite Hp.
Qed.

Lemma apply_codings_trim l l' h : trim <$> l = trim <$> l' → apply_codings l h = apply_codings l' h.
Proof.
  revert l' h. induction l as [|x l IH]; intros [|y l'] h Hl; try done.
  rewrite !fmap_cons in Hl. injection Hl as Hx Hl. cbn [apply_codings]. rewrite Hx.
  case_match; [done|]. by apply IH.
Qed.

(** ** The framing headers of a sanitized block *)

(** The same framing, without a request to close. *)
Definition same_framing (h h' : FramingHeaders) : Prop :=
  fh_content_length h' = fh_content_length h
  ∧ fh_transfer_encoding_present h' = fh_transfer_encoding_present h
  ∧ fh_transfer_encoding_chunked h' = fh_transfer_encoding_chunked h
  ∧ fh_chunked_coding_seen h' = fh_chunked_coding_seen h
  ∧ fh_connection_close h' = false.

Record raw_field (h : Header) : Prop := {
  rf_name : is_http_token (header_name h) = true;
  rf_value : contains_prohibited_http_field_value_control (header_value h) = false;
  rf_utf8 : utf8_valid (header_value h) = true
}.

Lemma token_no_colon n : is_http_token n = true → COLON ∉ n.
Proof.
  unfold is_http_token. intros [_ Hn]%andb_true_iff Hin%list_elem_of_In.
  rewrite forallb_forall in Hn. by specialize (Hn _ Hin).
Qed.

Lemma raw_line_ok h : raw_field h → line_ok (wire_line h).
Proof.
  intros [Hn Hv _]. unfold wire_line. split.
  - apply token_nonempty in Hn. by destruct (header_name h).
  - apply token_plain, plain_no_cr in Hn. apply value_no_cr in Hv. rewrite !elem_of_app.
    intros [?|[?|?]]; [done|set_solver|done].
Qed.

Lemma raw_line_valid h : raw_field h → utf8_valid (wire_line h) = true.
Proof.
  intros [Hn _ Hu]. apply utf8_valid_app; [by apply token_utf8|]. by apply utf8_valid_app.
Qed.

Lemma raw_line_split h :
  raw_field h → split_once COLON (wire_line h) = Some (header_name h, x20 :: header_value h).
Proof. intros [Hn _ _]. apply split_once_Some. split; [done|]. by apply token_no_colon. Qed.

Lemma trim_start_control v :
  contains_prohibited_http_field_value_control v = false →
  contains_prohibited_http_field_value_control (trim_start v) = false.
Proof.
  destruct (trim_start_suffix v) as [a Ha]. rewrite Ha at 1.
  unfold contains_prohibited_http_field_value_control. rewrite existsb_app.
  by intros [_ ?]%orb_false_iff.
Qed.

(** The three kinds of fields the framer looks at, whatever the case of their names. *)
Lemma apply_steps_wire name v h h' h1 :
  same_framing h h' →
  (let? h := apply_content_length name v h in apply_transfer_encoding name v h) = Ok h1 →
  ∃ h1', (let? h' := apply_content_length name (x20 :: trim_start v) h' in
          apply_transfer_encoding name (x20 :: trim_start v) h') = Ok h1' ∧ same_framing h1 h1'.
Proof.
  intros (E1 & E2 & E3 & E4 & E5). unfold apply_content_length, apply_transfer_encoding.
  rewrite trim_space, trim_trim_start, E1.
  assert (∀ l g g' g1, same_framing g g' → apply_codings l g = Ok g1 →
    ∃ g1', apply_codings l g' = Ok g1' ∧ same_framing g1 g1') as Hcod.
  { induction l as [|c l IH]; intros g g' g1 Hg; cbn [apply_codings]; [intros [= <-]; by exists g'|].
    case_match; [done|]. apply IH. destruct Hg as (F1 & F2 & F3 & F4 & F5).
    unfold same_framing; cbn; by rewrite F1, F2, F4, F5. }
  destruct (eq_ignore_ascii_case name (lit "Content-Length")).
  - destruct (fh_content_length h); [done|]. destruct (parse_uint _ _) as [n|]; [|done].
    destruct (eq_ignore_ascii_case name (lit "Transfer-Encoding")).
    + rewrite (apply_codings_trim _ _ _ (list_tokens_trim v)). apply Hcod.
      unfold same_framing; cbn; by rewrite E3, E4, E5.
    + intros [= <-]. eexists. split; [done|]. unfold same_framing; cbn; by rewrite E2, E3, E4, E5.
  - destruct (eq_ignore_ascii_case name (lit "Transfer-Encoding")).
    + rewrite (apply_codings_trim _ _ _ (list_tokens_trim v)). apply Hcod.
      unfold same_framing; cbn; by rewrite E1, E3, E4, E5.
    + intros [= <-]. by exists h'.
Qed.

Lemma apply_connection_same name v h : eq_ignore_ascii_case name (lit "Connection") = false →
  apply_connection name v h = h.
Proof. unfold apply_connection. by intros ->. Qed.

Lemma same_framing_close name v h h' : same_framing h h' → same_framing (apply_connection name v h) h'.
Proof. unfold apply_connection. by destruct (eq_ignore_ascii_case _ _). Qed.

Lemma not_retained_fields tokens h :
  lit "content-length" ∉ tokens → is_retained tokens h = false →
  eq_ignore_ascii_case (header_name h) (lit "Content-Length") = false
  ∧ eq_ignore_ascii_case (header_name h) (lit "Transfer-Encoding") = false.
Proof.
  unfold is_retained, is_end_to_end, eq_ignore_ascii_case, is_hop_by_hop_header_name.
  change (to_ascii_lowercase (lit "Content-Length")) with (lit "content-length").
  change (to_ascii_lowercase (lit "Transfer-Encoding")) with (lit "transfer-encoding").
  intros Ht [Hte He]%orb_false_iff. split; [|done].
  apply bool_decide_eq_false. intros E. rewrite E in He. apply andb_false_iff in He as [He|He].
  - vm_compute in He. discriminate.
  - by rewrite bool_decide_false in He.
Qed.

Lemma retained_not_connection tokens h :
  is_retained tokens h = true → eq_ignore_ascii_case (header_name h) (lit "Connection") = false.
Proof.
  unfold is_retained, is_end_to_end, eq_ignore_ascii_case, is_hop_by_hop_header_name.
  change (to_ascii_lowercase (lit "Connection")) with (lit "connection").
  intros Hr. apply bool_decide_eq_false. intros E. rewrite E in Hr. vm_compute in Hr. discriminate.
Qed.

Lemma header_loop_step line lines h h1 :
  framing_header_loop (line :: lines) h = Ok h1 →
  ∃ name v h2, split_once COLON line = Some (name, v) ∧ is_http_token name = true
    ∧ contains_prohibited_http_field_value_control v = false
    ∧ (let? h := apply_content_length name v h in apply_transfer_encoding name v h) = Ok h2
    ∧ framing_header_loop lines (apply_connection name v h2) = Ok h1.
Proof.
  cbn [framing_header_loop]. destruct (split_once COLON line) as [[name v]|]; [|done].
  destruct (is_http_token name) eqn:Hn; cbn [negb]; [|done]. unfold validate_field_value.
  destruct (contains_prohibited_http_field_value_control v) eqn:Hv; [done|].
  destruct (apply_content_length name v h) as [h2|] eqn:H2; [|done].
  destruct (apply_transfer_encoding name v h2) as [h3|] eqn:H3; [|done].
  intros Hl. exists name, v, h3. by rewrite H2.
Qed.

Lemma header_loop_wire h lines g g1 :
  raw_field h →
  (let? g := apply_content_length (header_name h) (x20 :: header_value h) g in
   apply_transfer_encoding (header_name h) (x20 :: header_value h) g) = Ok g1 →
  framing_header_loop (wire_line h :: lines) g
  = framing_header_loop lines (apply_connection (header_name h) (x20 :: header_value h) g1).
Proof.
  intros Hh Hg. cbn [framing_header_loop]. rewrite raw_line_split by done.
  destruct Hh as [Hn Hv _]. rewrite Hn. cbn [negb]. unfold validate_field_value.
  change (contains_prohibited_http_field_value_control (x20 :: header_value h))
    with (contains_prohibited_http_field_value_control (header_value h)). rewrite Hv.
  destruct (apply_content_length _ _ g) as [g2|]; [|done]. by rewrite Hg.
Qed.

Lemma loop_parses lines h h1 :
  Forall (λ l, utf8_valid l = true) lines → framing_header_loop lines h = Ok h1 →
  ∃ headers, parse_response_headers lines = Ok headers ∧ Forall raw_field headers.
Proof.
  intros Hu. revert h. induction Hu as [|line lines Hl Hu IH]; intros h Hh; [by exists []|].
  apply header_loop_step in Hh as (name & v & h2 & Hs & Hn & Hv & _ & Hh).
  destruct (IH _ Hh) as (headers & Hp & Hf). cbn [parse_response_headers]. rewrite Hs, Hp.
  eexists. split; [done|]. constructor; [|done]. constructor; cbn; [done|by apply trim_start_control|].
  apply trim_start_valid. apply split_once_Some in Hs as [-> _].
  by apply utf8_valid_split in Hl as [_ Hl]; [|by apply ascii_boundary].
Qed.

(** The framer reads the same framing from what the sanitizer keeps. *)
Lemma loop_retained tokens lines headers h h' h1 :
  lit "content-length" ∉ tokens → same_framing h h' → Forall raw_field headers →
  framing_header_loop lines h = Ok h1 → parse_response_headers lines = Ok headers →
  ∃ h1', framing_header_loop (wire_line <$> List.filter (is_retained tokens) headers) h' = Ok h1'
         ∧ same_framing h1 h1'.
Proof.
  intros Ht. revert headers h h'. induction lines as [|line lines IH]; intros headers h h' Hsim Hraw Hl Hp.
  { cbn in Hl, Hp. simplify_eq. by exists h'. }
  apply header_loop_step in Hl as (name & v & h2 & Hs & Hn & Hv & H2 & Hl).
  cbn [parse_response_headers] in Hp. rewrite Hs in Hp.
  destruct (parse_response_headers lines) as [rest|] eqn:Hr; [|done]. simplify_eq/=.
  inversion_clear Hraw as [|? ? Hh Hraws]; rename Hraws into Hraw.
  destruct (is_retained tokens {| header_name := name; header_value := trim_start v |}) eqn:Hk.
  - destruct (apply_steps_wire _ _ _ _ _ Hsim H2) as (h2' & H2' & Hsim2).
    change (wire_line <$> ?x :: ?l) with (wire_line x :: (wire_line <$> l)).
    erewrite header_loop_wire; [|done|exact H2']. cbn [header_name header_value].
    rewrite apply_connection_same by by eapply retained_not_connection in Hk.
    eapply IH; [by apply same_framing_close|done..].
  - apply not_retained_fields in Hk as [Hcl Hte]; [|done]. cbn [header_name] in *.
    unfold apply_content_length, apply_transfer_encoding in H2. rewrite Hcl, Hte in H2. simplify_eq.
    eapply IH; [by apply same_framing_close|done..].
Qed.

Lemma strip_suffix_app pat l : strip_suffix pat (l ++ pat) = Some l.
Proof.
  unfold strip_suffix. rewrite (proj2 (ends_with_spec _ _)) by (by exists l).
  f_equal. rewrite length_app. rewrite take_app_length'; [done|lia].
Qed.

Lemma status_second_word status_line code :
  parse_status_line status_line = Ok code → second_word_status status_line = Some code.
Proof.
  unfold parse_status_line, second_word_status, split_whitespace.
  destruct (split_once SP status_line) as [[version rest]|] eqn:H1; [|done].
  case_bool_decide as Hv; cbn [negb]; [|done]. subst version.
  destruct (split_once SP rest) as [[digits reason]|] eqn:H2; [|done].
  destruct (len digits =? 3) eqn:Hlen; cbn [negb orb]; [|done].
  destruct (forallb is_ascii_digit digits) eqn:Hd; cbn [negb]; [|done].
  destruct (parse_uint U16_MAX digits) as [n|] eqn:Hn; [|done].
  destruct (_ && _); cbn [negb]; [|done]. intros [= <-].
  apply split_once_Some in H1 as [-> _], H2 as [-> _]. unfold SP.
  rewrite split_ws_go_word by (vm_compute; reflexivity). rewrite split_ws_go_word.
  2:{ apply plain_no_whitespace, list.Forall_forall. intros b Hb%list_elem_of_In.
      rewrite forallb_forall in Hd. specialize (Hd b Hb). by destruct b. }
  rewrite filter_cons_True by done. rewrite filter_cons_True; [done|]. intros ->. discriminate Hlen.
Qed.

Lemma split_first_line l : ∃ first rest, split_str CRLF l = first :: rest ∧ find_seq CRLF first = None.
Proof.
  destruct (split_str_step CRLF l ltac:(done)) as (w & r & _ & Hw & [[_ ->]|(k & _ & ->)]); by eexists _, _.
Qed.

(** The header fields of a block, and those the sanitizer writes for it. *)
Definition block_headers (h : list byte) : result AppError (list Header) :=
  parse_response_headers (tail (split_str CRLF h)).

Definition close_header : Header := {| header_name := lit "Connection"; header_value := lit "close" |}.

Definition sanitized_headers (headers : list Header) (close : bool) : list Header :=
  List.filter (is_retained (connection_header_tokens headers)) headers
  ++ (if close then [close_header] else []).

Definition sanitized_block (h : list byte) (headers : list Header) (close : bool) : list byte :=
  join_lines (default [] (head (split_str CRLF h))) (wire_line <$> sanitized_headers headers close).

Lemma sanitize_block_lines h code headers close :
  utf8_valid (h ++ CRLFCRLF) = true →
  second_word_status (default [] (head (split_str CRLF h))) = Some code → block_headers h = Ok headers →
  sanitize_response_header_block (h ++ CRLFCRLF) close
  = Ok (sanitized_block h headers (negb (is_interim_status code) && close) ++ CRLFCRLF,
        is_interim_status code).
Proof.
  intros Hu Hcode Hp. unfold sanitize_response_header_block, block_headers in *. rewrite Hu. cbn [negb].
  rewrite strip_suffix_app. destruct (split_first_line h) as (first & lines & E & _).
  unfold sanitized_block. rewrite E in Hp, Hcode |- *. cbn [head from_option id tail] in *.
  rewrite Hcode. cbn [ok_or]. rewrite Hp. do 2 f_equal.
  unfold CRLFCRLF, sanitized_headers. rewrite (app_assoc _ CRLF CRLF), join_lines_wire.
  rewrite fmap_app, concat_app, <-!app_assoc. do 2 f_equal. f_equal.
  - f_equal. apply list_fmap_ext. intros _ x _. unfold wire_line. by rewrite <-!app_assoc.
  - by destruct (negb (is_interim_status code) && close).
Qed.

Lemma framing_header_loop_app l1 l2 h :
  framing_header_loop (l1 ++ l2) h
  = (let? h := framing_header_loop l1 h in framing_header_loop l2 h).
Proof.
  revert h. induction l1 as [|line l1 IH]; intros h; [done|]. cbn [app framing_header_loop].
  destruct (split_once COLON line) as [[name v]|]; [|done]. case_match; [done|].
  destruct (validate_field_value v _); [|done].
  destruct (apply_content_length name v h) as [h2|]; [|done].
  destruct (apply_transfer_encoding name v h2) as [h3|]; [|done]. apply IH.
Qed.

(** What the framer accepts, taken apart. *)
Lemma framing_headers_parts h expectation code bf close :
  parse_response_framing_headers (h ++ CRLFCRLF) expectation = Ok (code, bf, close) →
  ∃ status lines g, split_str CRLF h = status :: lines ∧ find_seq CRLF status = None
    ∧ utf8_valid (h ++ CRLFCRLF) = true ∧ utf8_valid status = true
    ∧ Forall (λ l, utf8_valid l = true) lines
    ∧ parse_status_line status = Ok code ∧ framing_header_loop lines framing_headers_init = Ok g
    ∧ fh_transfer_encoding_present g && bool_decide (is_Some (fh_content_length g)) = false
    ∧ fh_chunked_coding_seen g && negb (fh_transfer_encoding_chunked g) = false
    ∧ bf = choose_framing code expectation g ∧ close = fh_connection_close g.
Proof.
  unfold parse_response_framing_headers. destruct (utf8_valid (h ++ CRLFCRLF)) eqn:Hu; [|done].
  cbn [negb]. rewrite strip_suffix_app.
  destruct (split_first_line h) as (status & lines & E & Hs). rewrite E.
  destruct (parse_status_line status) as [n|] eqn:Hn; [|done].
  destruct (framing_header_loop _ _) as [g|] eqn:Hg; [|done].
  destruct (_ && bool_decide _) eqn:H1; [done|]. destruct (_ && negb _) eqn:H2; [done|].
  intros [= <- <- <-]. apply utf8_valid_split in Hu as [Hv _]; [|by apply ascii_boundary].
  pose proof (split_str_valid CRLF h ltac:(done) ltac:(by repeat constructor) Hv) as Hf.
  rewrite E in Hf. inversion_clear Hf. exists status, lines, g. split_and!; done.
Qed.

Lemma sanitized_raw headers close :
  Forall raw_field headers → Forall raw_field (sanitized_headers headers close).
Proof.
  intros Hf. apply Forall_app. split.
  - apply list.Forall_forall. intros x Hx%list_elem_of_In%List.filter_In.
    rewrite list.Forall_forall in Hf. apply Hf, list_elem_of_In. tauto.
  - destruct close; repeat constructor; vm_compute; reflexivity.
Qed.

(** The sanitized fields announce the same framing; the connection is closed as told. *)
Lemma sanitized_loop headers close lines g :
  lit "content-length" ∉ connection_header_tokens headers → Forall raw_field headers →
  framing_header_loop lines framing_headers_init = Ok g → parse_response_headers lines = Ok headers →
  ∃ g' g'', framing_header_loop (wire_line <$> sanitized_headers headers close) framing_headers_init
      = Ok g''
    ∧ same_framing g g'
    ∧ g'' = {| fh_content_length := fh_content_length g';
               fh_transfer_encoding_present := fh_transfer_encoding_present g';
               fh_transfer_encoding_chunked := fh_transfer_encoding_chunked g';
               fh_chunked_coding_seen := fh_chunked_coding_seen g';
               fh_connection_close := close |}.
Proof.
  intros Ht Hf Hg Hp. unfold sanitized_headers. rewrite fmap_app, framing_header_loop_app.
  destruct (loop_retained _ lines headers framing_headers_init framing_headers_init g Ht)
    as (g' & -> & Hsim); try done.
  exists g'. destruct close.
  - eexists. split; [|done]. cbn [fmap list_fmap]. erewrite header_loop_wire; [|by constructor|].
    2:{ unfold apply_content_length, apply_transfer_encoding. cbn [header_name close_header].
        change (eq_ignore_ascii_case (lit "Connection") (lit "Content-Length")) with false.
        change (eq_ignore_ascii_case (lit "Connection") (lit "Transfer-Encoding")) with false. done. }
    cbn [framing_header_loop]. f_equal. unfold apply_connection.
    change (eq_ignore_ascii_case (header_name close_header) (lit "Connection")) with true. cbv iota.
    f_equal. by apply orb_true_iff; right.
  - exists g'. split; [done|]. split; [done|]. destruct Hsim as (_ & _ & _ & _ & Hc). by destruct g'; cbn in *; subst.
Qed.

Lemma sanitized_block_framing h expectation code bf cl headers close :
  parse_response_framing_headers (h ++ CRLFCRLF) expectation = Ok (code, bf, cl) →
  block_headers h = Ok headers → lit "content-length" ∉ connection_header_tokens headers →
  let h' := sanitized_block h headers close in
  find_seq CRLFCRLF (h' ++ CRLFCRLF) = Some (length h')
  ∧ parse_response_framing_headers (h' ++ CRLFCRLF) expectation = Ok (code, bf, close).
Proof.
  intros Hparse Hp Ht.
  apply framing_headers_parts in Hparse
    as (status & lines & g & E & Hs & Hu & Hus & Hul & Hcode & Hg & H1 & H2 & -> & ->).
  unfold block_headers in Hp. unfold sanitized_block. rewrite E in Hp |- *.
  cbn [head from_option id tail] in *.
  destruct (loop_parses lines framing_headers_init g Hul Hg) as (headers' & Hp' & Hraw).
  assert (headers' = headers) as -> by congruence.
  pose proof (sanitized_raw _ close Hraw) as Hraw'.
  assert (Forall line_ok (wire_line <$> sanitized_headers headers close)) as Hlines.
  { apply Forall_fmap. eapply Forall_impl; [exact raw_line_ok|done]. }
  split; [by apply status_block_end|].
  unfold parse_response_framing_headers. rewrite strip_suffix_app, split_join_status by done.
  assert (utf8_valid (join_lines status (wire_line <$> sanitized_headers headers close) ++ CRLFCRLF)
          = true) as ->.
  { apply utf8_valid_app; [|done]. apply join_lines_valid; [done|].
    apply Forall_fmap. eapply Forall_impl; [exact raw_line_valid|done]. }
  cbn [negb]. rewrite Hcode.
  destruct (sanitized_loop headers close lines g) as (g' & g'' & -> & Hsim & ->); try done.
  destruct Hsim as (E1 & E2 & E3 & E4 & _). unfold choose_framing. cbn.
  rewrite E1, E2, E3, E4, H1, H2. done.
Qed.

(** ** The stream

    [san_bytes] is the loop without the allocator and without an accumulator. *)
Fixpoint san_bytes (rest : list byte) (s : UpstreamResponseHeaderSanitizer)
  : result AppError (list byte) * UpstreamResponseHeaderSanitizer :=
  match rest with
  | [] => (Ok [], s)
  | b :: rest =>
      if san_forwarding_body s then (Ok (b :: rest), s)
      else if san_max_header_bytes s <=? len (san_headers s) then (Err sanitizer_limit_error, s)
      else
        let s := set_headers (san_headers s ++ [b]) s in
        if negb (ends_with CRLFCRLF (san_headers s)) then san_bytes rest s
        else
          match sanitize_response_header_block (san_headers s) (san_close_final_response s) with
          | Err e => (Err e, s)
          | Ok (sanitized, interim) =>
              let s := set_headers [] s in
              let s := if interim then s else set_forwarding s in
              match san_bytes rest s with
              | (Ok output, s) => (Ok (sanitized ++ output), s)
              | (Err e, s) => (Err e, s)
              end
          end
  end.

Lemma san_bytes_forwarding rest s : san_forwarding_body s = true → san_bytes rest s = (Ok rest, s).
Proof. intros Hs. destruct rest; [done|]. cbn. by rewrite Hs. Qed.

Lemma san_bytes_app x y s o s' :
  san_bytes (x ++ y) s = (Ok o, s') →
  ∃ o1 o2 s1, san_bytes x s = (Ok o1, s1) ∧ san_bytes y s1 = (Ok o2, s') ∧ o = o1 ++ o2.
Proof.
  revert s o. induction x as [|b x IH]; intros s o; cbn [app san_bytes]; [intros E; by exists [], o, s|].
  destruct (san_forwarding_body s) eqn:Hf.
  { intros [= <- <-]. exists (b :: x), y, s. by rewrite san_bytes_forwarding. }
  destruct (_ <=? _); [done|]. destruct (negb _); [apply IH|].
  destruct (sanitize_response_header_block _ _) as [[z interim]|]; [|done].
  destruct (san_bytes (x ++ y) _) as [[o'|] s2] eqn:E; [|done]. intros [= <- <-].
  apply IH in E as (o1 & o2 & s1 & -> & Hy & ->). exists (z ++ o1), o2, s1. by rewrite <-app_assoc.
Qed.

Section relay.
Context `{Allocator W}.
Context (ample : ∀ l n w, (try_reserve l n w).1 = true).

Lemma sanitize_loop_bytes rest output s w o s' :
  san_forwarding_body s = false → san_bytes rest s = (Ok o, s') →
  ∃ w', sanitize_loop rest output s w = (Ok (output ++ o), (s', w')).
Proof using ample.
  revert output s w o. induction rest as [|b rest IH]; intros output s w o Hf; cbn [san_bytes sanitize_loop].
  { intros [= <- <-]. exists w. by rewrite app_nil_r. }
  rewrite Hf. destruct (_ <=? _); [done|]. unfold reserve_one.
  pose proof (ample (san_headers s) 1 w) as Hr. destruct (try_reserve _ _ w) as [room w1]; cbn in Hr.
  subst room. cbn [negb]. destruct (negb _); [by apply IH|].
  destruct (sanitize_response_header_block _ _) as [[z interim]|]; [|done].
  pose proof (ample output (len z) w1) as Hr. destruct (try_reserve _ _ w1) as [room w2]; cbn in Hr.
  subst room. cbn [negb]. destruct interim.
  - destruct (san_bytes rest _) as [[o'|] s2] eqn:E; [|done]. intros [= <- <-].
    rewrite app_assoc. by apply IH.
  - rewrite san_bytes_forwarding by done. intros [= <- <-].
    pose proof (ample (output ++ z) (len rest) w2) as Hr.
    destruct (try_reserve _ _ w2) as [room w3]; cbn in Hr. subst room. exists w3. cbn.
    by rewrite app_assoc.
Qed.

Lemma sanitize_bytes input s w o s' :
  san_bytes input s = (Ok o, s') → ∃ w', sanitize input s w = (Ok o, (s', w')).
Proof using ample.
  unfold sanitize. destruct (san_forwarding_body s) eqn:Hf.
  - rewrite san_bytes_forwarding by done. intros [= <- <-]. by exists w.
  - intros E. destruct (sanitize_loop_bytes input [] s w o s' Hf E) as [w' ->]. by exists w'.
Qed.

(** The output for an input that arrives in pieces. *)
Fixpoint sanitize_pieces (pieces : list (list byte)) (s : UpstreamResponseHeaderSanitizer) (w : W)
  : result AppError (list byte) * (UpstreamResponseHeaderSanitizer * W) :=
  match pieces with
  | [] => (Ok [], (s, w))
  | piece :: rest =>
      match sanitize piece s w with
      | (Err e, sw) => (Err e, sw)
      | (Ok o, (s, w)) =>
          match sanitize_pieces rest s w with
          | (Ok o', sw) => (Ok (o ++ o'), sw)
          | (Err e, sw) => (Err e, sw)
          end
      end
  end.

Lemma sanitize_pieces_bytes pieces s w o s' :
  san_bytes (concat pieces) s = (Ok o, s') → ∃ w', sanitize_pieces pieces s w = (Ok o, (s', w')).
Proof using ample.
  revert s w o. induction pieces as [|p pieces IH]; intros s w o; cbn [concat sanitize_pieces].
  { intros [= <- <-]. by exists w. }
  intros (o1 & o2 & s1 & H1 & H2 & ->)%san_bytes_app.
  destruct (sanitize_bytes p s w o1 s1 H1) as [w1 ->].
  destruct (IH s1 w1 o2 H2) as [w2 ->]. by exists w2.
Qed.
End relay.

(** A whole block. *)
Lemma san_bytes_collect h k s p buf :
  find_seq CRLFCRLF (h ++ CRLFCRLF) = Some (length h) → len h + 4 ≤ san_max_header_bytes s →
  san_forwarding_body s = false → h ++ CRLFCRLF = buf ++ p → p ≠ [] →
  san_bytes (p ++ k) (set_headers buf s)
  = match sanitize_response_header_block (h ++ CRLFCRLF) (san_close_final_response s) with
    | Err e => (Err e, set_headers (h ++ CRLFCRLF) s)
    | Ok (sanitized, interim) =>
        match san_bytes k (set_headers [] (if interim then s else set_forwarding s)) with
        | (Ok output, s) => (Ok (sanitized ++ output), s)
        | (Err e, s) => (Err e, s)
        end
    end.
Proof.
  intros Hend Hmax Hf. revert buf. induction p as [|b p IH]; intros buf Hb Hp; [done|].
  cbn [app san_bytes]. cbn [set_headers san_forwarding_body san_max_header_bytes san_headers].
  rewrite Hf. assert (len (h ++ CRLFCRLF) = len buf + 1 + len p) as Hl.
  { rewrite Hb, len_app, len_cons. lia. }
  rewrite len_app in Hl. change (len CRLFCRLF) with 4 in Hl.
  rewrite (proj2 (N.leb_gt _ _)) by lia.
  rewrite (cons_middle b buf p), app_assoc in Hb. destruct p as [|c p].
  - rewrite app_nil_r in Hb. rewrite <-Hb.
    rewrite (proj2 (ends_with_spec _ _)) by by eexists. cbn [negb].
    cbn [set_headers san_close_final_response].
    destruct (sanitize_response_header_block _ _) as [[z interim]|]; [|done]. by destruct interim.
  - rewrite (first_at_end _ _ _ _ Hend Hb) by done. cbn [negb]. apply IH; done.
Qed.

Lemma san_bytes_block h k s :
  find_seq CRLFCRLF (h ++ CRLFCRLF) = Some (length h) → len h + 4 ≤ san_max_header_bytes s →
  san_forwarding_body s = false → san_headers s = [] →
  san_bytes ((h ++ CRLFCRLF) ++ k) s
  = match sanitize_response_header_block (h ++ CRLFCRLF) (san_close_final_response s) with
    | Err e => (Err e, set_headers (h ++ CRLFCRLF) s)
    | Ok (sanitized, interim) =>
        match san_bytes k (if interim then s else set_forwarding s) with
        | (Ok output, s) => (Ok (sanitized ++ output), s)
        | (Err e, s) => (Err e, s)
        end
    end.
Proof.
  intros Hend Hmax Hf Hh. assert (s = set_headers [] s) as Hs by (destruct s; cbn in *; by subst).
  rewrite Hs at 1. rewrite (san_bytes_collect h k s _ []); try done; [|by destruct h].
  destruct (sanitize_response_header_block _ _) as [[z interim]|]; [|done].
  destruct interim; [by rewrite <-Hs|]. destruct s; cbn in *; by subst.
Qed.

(** ** Relaying a whole response *)

(** No field of the block asks for Content-Length to be dropped. *)
Definition keeps_length (h : list byte) : Prop :=
  ∀ headers, block_headers h = Ok headers → lit "content-length" ∉ connection_header_tokens headers.

Lemma choose_framing_interim code expectation g :
  bool_decide (choose_framing code expectation g = FramingInterim) = is_interim_status code.
Proof.
  unfold choose_framing. destruct (is_interim_status code); [by rewrite bool_decide_true|].
  apply bool_decide_false. by repeat case_match.
Qed.

(** What the sanitizer makes of an accepted block. *)
Lemma relayed_block f h code bf cl close :
  block_parses f h code bf cl → keeps_length h →
  ∃ headers, block_headers h = Ok headers
    ∧ let interim := bool_decide (bf = FramingInterim) in
      let h' := sanitized_block h headers (negb interim && close) in
      sanitize_response_header_block (h ++ CRLFCRLF) close = Ok (h' ++ CRLFCRLF, interim)
      ∧ ∀ f', fr_body_expectation f' = fr_body_expectation f → len h' + 4 ≤ fr_max_header_bytes f' →
          block_parses f' h' code bf (negb interim && close).
Proof.
  intros (Hend & Hmax & Hp) Hk. pose proof Hp as Hp0.
  apply framing_headers_parts in Hp
    as (status & lines & g & E & _ & Hu & _ & Hul & Hcode & Hg & _ & _ & Hbf & _).
  destruct (loop_parses lines framing_headers_init g Hul Hg) as (headers & Hh & _).
  exists headers. assert (block_headers h = Ok headers) as Hb by (unfold block_headers; by rewrite E).
  split; [done|]. intros interim h'.
  assert (interim = is_interim_status code) as Hi by (unfold interim; rewrite Hbf; apply choose_framing_interim).
  split.
  - unfold h'. rewrite Hi. apply sanitize_block_lines; [done| |done].
    rewrite E. by apply status_second_word.
  - intros f' Hexp Hlen. rewrite <-Hexp in Hp0.
    destruct (sanitized_block_framing h _ code bf cl headers (negb interim && close) Hp0 Hb (Hk _ Hb)).
    by split_and!.
Qed.

(** The fields of a sanitized block are the sanitized fields of the block. *)
Lemma parse_wire_lines headers :
  Forall raw_field headers → Forall (λ h, trim_start (header_value h) = header_value h) headers →
  parse_response_headers (wire_line <$> headers) = Ok headers.
Proof.
  induction 1 as [|h headers Hh Hhs IH]; intros Ht; [done|]. inversion_clear Ht.
  cbn [fmap list_fmap parse_response_headers]. rewrite raw_line_split, IH by done.
  change (trim_start (x20 :: header_value h)) with (trim_start (header_value h)).
  destruct h; cbn in *. congruence.
Qed.

Lemma parsed_trimmed lines headers :
  parse_response_headers lines = Ok headers →
  Forall (λ h, trim_start (header_value h) = header_value h) headers.
Proof.
  revert headers. induction lines as [|line lines IH]; intros headers; cbn; [by intros [= <-]|].
  destruct (split_once COLON line) as [[n v]|]; [|done].
  destruct (parse_response_headers lines) as [hs|]; [|done]. intros [= <-].
  constructor; [apply trim_start_idemp|by apply IH].
Qed.

Lemma relayed_fields f h code bf cl headers close :
  block_parses f h code bf cl → block_headers h = Ok headers →
  block_headers (sanitized_block h headers close) = Ok (sanitized_headers headers close).
Proof.
  intros (_ & _ & Hp) Hb.
  apply framing_headers_parts in Hp as (status & lines & g & E & Hs & _ & _ & Hul & _ & Hg & _).
  unfold block_headers in *. unfold sanitized_block. rewrite E in Hb |- *. cbn [head from_option id tail] in *.
  destruct (loop_parses lines framing_headers_init g Hul Hg) as (headers' & Hp' & Hraw).
  assert (headers' = headers) as -> by congruence. pose proof (sanitized_raw _ close Hraw) as Hraw'.
  rewrite split_join_status; [|done|].
  - cbn [tail]. apply parse_wire_lines; [done|]. apply parsed_trimmed in Hb. apply Forall_app. split.
    + apply list.Forall_forall. intros x Hx%list_elem_of_In%List.filter_In.
      rewrite list.Forall_forall in Hb. apply Hb, list_elem_of_In. tauto.
    + by destruct close; repeat constructor.
  - apply Forall_fmap. eapply Forall_impl; [exact raw_line_ok|done].
Qed.

Lemma sanitized_no_hop_by_hop headers close x :
  x ∈ sanitized_headers headers close →
  is_hop_by_hop_header_name (to_ascii_lowercase (header_name x)) = true →
  to_ascii_lowercase (header_name x) = lit "transfer-encoding" ∨ (x = close_header ∧ close = true).
Proof.
  unfold sanitized_headers. rewrite elem_of_app. intros [Hx|Hx] Hhop.
  - apply list_elem_of_In, List.filter_In in Hx as [_ Hx]. unfold is_retained, is_end_to_end in Hx.
    rewrite Hhop in Hx. apply orb_true_iff in Hx as [Hx|Hx]; [|done]. apply bool_decide_eq_true in Hx. by left.
  - destruct close; [|by apply not_elem_of_nil in Hx]. apply list_elem_of_singleton in Hx as ->. by right.
Qed.

(** [h'] relays [h]: framed alike, hop-by-hop fields gone, closing as told. *)
Definition relays (f : HttpResponseFraming) (close : bool) (h h' : list byte) : Prop :=
  ∀ code bf cl, block_parses f h code bf cl →
  (∀ f', fr_body_expectation f' = fr_body_expectation f → len h' + 4 ≤ fr_max_header_bytes f' →
     block_parses f' h' code bf close)
  ∧ ∃ headers', block_headers h' = Ok headers'
    ∧ ∀ x, x ∈ headers' → is_hop_by_hop_header_name (to_ascii_lowercase (header_name x)) = true →
        to_ascii_lowercase (header_name x) = lit "transfer-encoding" ∨ (x = close_header ∧ close = true).

Lemma relayed_relays f h code bf cl close :
  block_parses f h code bf cl → keeps_length h →
  let interim := bool_decide (bf = FramingInterim) in
  ∃ h', sanitize_response_header_block (h ++ CRLFCRLF) close = Ok (h' ++ CRLFCRLF, interim)
    ∧ relays f (negb interim && close) h h'.
Proof.
  intros Hb Hk interim. destruct (relayed_block f h code bf cl close Hb Hk) as (headers & Hh & Hs & Hf).
  eexists. split; [exact Hs|]. intros code' bf' cl' Hb'.
  assert (code' = code ∧ bf' = bf) as [-> ->].
  { destruct Hb as (_ & _ & Hp), Hb' as (_ & _ & Hp'). rewrite Hp in Hp'. by injection Hp'. }
  split; [exact Hf|]. exists (sanitized_headers headers (negb interim && close)). split.
  - by eapply relayed_fields.
  - intros x. apply sanitized_no_hop_by_hop.
Qed.

Lemma san_bytes_interims f interims k s :
  Forall (λ i, (∃ code close, block_parses f i code FramingInterim close) ∧ keeps_length i) interims →
  san_max_header_bytes s = fr_max_header_bytes f → san_forwarding_body s = false → san_headers s = [] →
  ∃ interims', Forall2 (relays f false) interims interims'
    ∧ ∀ o s', san_bytes k s = (Ok o, s') →
        san_bytes (concat ((λ i, i ++ CRLFCRLF) <$> interims) ++ k) s
        = (Ok (concat ((λ i, i ++ CRLFCRLF) <$> interims') ++ o), s').
Proof.
  intros Hi Hmax Hf Hh. induction Hi as [|i interims [(code & cl & Hb) Hk] Hi IH]; [by exists []|].
  destruct IH as (interims' & H2 & Hrun).
  destruct (relayed_relays f i code FramingInterim cl (san_close_final_response s) Hb Hk)
    as (i' & Hs & Hr). rewrite bool_decide_true in Hs, Hr by done. cbn [negb andb] in Hr.
  exists (i' :: interims'). split; [by constructor|]. intros o s' Hko.
  rewrite !fmap_cons. cbn [concat]. rewrite <-!(app_assoc (_ ++ CRLFCRLF)).
  destruct Hb as (Hend & Hlen & _). rewrite san_bytes_block by (done || by rewrite Hmax).
  by rewrite Hs, (Hrun o s' Hko), <-!app_assoc.
Qed.

(** C6: a relayed response keeps its framing.  Whatever the pieces in which the bytes of a
    response arrive, with enough memory the sanitizer passes on the same number of interim
    blocks, one final block and the body, byte for byte.  Each block it writes is read by the
    response framer with the status and the body framing of the original, the interim blocks
    without and the final one with a request to close as the runtime decided, and holds no
    hop-by-hop field but Transfer-Encoding and that Connection: close.  The blocks must be ones
    the framer accepts, and no Connection field may name Content-Length. *)
Theorem relay_preserves_framing `{Allocator W} (w : W) f interims h code bf cl body pieces close :
  (∀ l n w, (try_reserve l n w).1 = true) →
  Forall (λ i, (∃ code close, block_parses f i code FramingInterim close) ∧ keeps_length i) interims →
  block_parses f h code bf cl → bf ≠ FramingInterim → keeps_length h →
  concat pieces = concat ((λ i, i ++ CRLFCRLF) <$> interims) ++ h ++ CRLFCRLF ++ body →
  ∃ interims' h' s' w',
    sanitize_pieces pieces (sanitizer_new (fr_max_header_bytes f) close) w
    = (Ok (concat ((λ i, i ++ CRLFCRLF) <$> interims') ++ h' ++ CRLFCRLF ++ body), (s', w'))
    ∧ Forall2 (relays f false) interims interims' ∧ relays f close h h'.
Proof.
  intros Hample Hi Hb Hbf Hk Hc. set (s := sanitizer_new (fr_max_header_bytes f) close).
  destruct (san_bytes_interims f interims (h ++ CRLFCRLF ++ body) s Hi eq_refl eq_refl eq_refl)
    as (interims' & H2 & Hrun).
  destruct (relayed_relays f h code bf cl close Hb Hk) as (h' & Hs & Hr).
  rewrite bool_decide_false in Hs, Hr by done. cbn [negb andb] in Hr.
  assert (san_bytes (h ++ CRLFCRLF ++ body) s
          = (Ok (h' ++ CRLFCRLF ++ body), set_forwarding s)) as Hfin.
  { destruct Hb as (Hend & Hlen & _). rewrite app_assoc, san_bytes_block by done.
    cbn [san_close_final_response s sanitizer_new]. rewrite Hs.
    rewrite san_bytes_forwarding by done. by rewrite <-app_assoc. }
  specialize (Hrun _ _ Hfin). rewrite <-Hc in Hrun.
  destruct (sanitize_pieces_bytes Hample pieces s w _ _ Hrun) as [w' Hw].
  exists interims', h', (set_forwarding s), w'. by split_and!.
Qed.

Lemma relay_preserves_framing_witness :
  let H := ample_memory in
  let f := framing_new 1024 64 in
  let interim := lit "HTTP/1.1 100 Continue" in
  let h := lit "HTTP/1.1 200 OK" ++ CRLF ++ lit "Connection: X-Hop" ++ CRLF ++ lit "X-Hop: drop" ++ CRLF
           ++ lit "Content-Length: 2" in
  let pieces := [lit "HTTP/1.1 100 Conti"; lit "nue" ++ CRLFCRLF ++ lit "HTTP/1.1 2";
                 drop 10 h ++ [x0d]; [x0a; x0d; x0a] ++ lit "o"; lit "k"] in
  (sanitize_pieces pieces (sanitizer_new 1024 true) ()).1
  = Ok (interim ++ CRLFCRLF ++ lit "HTTP/1.1 200 OK" ++ CRLF ++ lit "Content-Length: 2" ++ CRLF
        ++ lit "Connection: close" ++ CRLFCRLF ++ lit "ok")
  ∧ ∃ interims' h', Forall2 (relays f false) [interim] interims' ∧ relays f true h h'.
Proof.
  intros H f interim h pieces. split; [vm_compute; reflexivity|].
  destruct (@relay_preserves_framing unit H () f [interim] h 200 (FramingContentLength 2) false
              (lit "ok") pieces true) as (interims' & h' & _ & _ & _ & H2 & Hr).
  - done.
  - apply Forall_singleton. split.
    + exists 100, false. split_and!; vm_compute; try reflexivity; discriminate.
    + intros headers Hh. vm_compute in Hh. simplify_eq. by apply (bool_decide_unpack _); vm_compute.
  - split_and!; vm_compute; try reflexivity; discriminate.
  - done.
  - intros headers Hh. vm_compute in Hh. simplify_eq. by apply (bool_decide_unpack _); vm_compute.
  - vm_compute. reflexivity.
  - by exists interims', h'.
Defined.

(** an upstream that names Content-Length in its Connection field desynchronises a kept-alive
    client.  The framer accepts the response with its length and keeps both connections; the
    sanitizer drops Content-Length as a connection token, so that what the client receives on
    the connection it keeps has no length any more and reads as a body that lasts until the
    connection is closed. *)
Theorem response_connection_token_drops_length :
  let h := lit "HTTP/1.1 200 OK" ++ CRLF ++ lit "Connection: content-length" ++ CRLF
           ++ lit "Content-Length: 2" in
  parse_response_framing_headers (h ++ CRLFCRLF) ExpectNormal = Ok (200, FramingContentLength 2, false)
  ∧ (@sanitize unit ample_memory (h ++ CRLFCRLF ++ lit "ok") (sanitizer_new 1024 false) ()).1
    = Ok (lit "HTTP/1.1 200 OK" ++ CRLFCRLF ++ lit "ok")
  ∧ parse_response_framing_headers (lit "HTTP/1.1 200 OK" ++ CRLFCRLF) ExpectNormal
    = Ok (200, FramingCloseDelimited, false).
Proof. vm_compute. done. Qed.

(** ** The proxy's own responses are framed by their length *)
Definition own_status_line (status : N) (reason : list byte) : list byte :=
  lit "HTTP/1.1 " ++ print_dec status ++ lit " " ++ reason.

Definition length_header (body : list byte) : Header :=
  {| header_name := lit "Content-Length"; header_value := print_dec (len body) |}.

Definition own_block (status : N) (reason : list byte) (fields : list Header) (body : list byte)
  : list byte :=
  join_lines (own_status_line status reason) (wire_line <$> fields ++ [length_header body; close_header]).

(** A field the framer does not look at. *)
Definition neutral_field (h : Header) : Prop :=
  raw_field h
  ∧ eq_ignore_ascii_case (header_name h) (lit "Content-Length") = false
  ∧ eq_ignore_ascii_case (header_name h) (lit "Transfer-Encoding") = false
  ∧ eq_ignore_ascii_case (header_name h) (lit "Connection") = false.

Lemma three_digits status : 100 ≤ status ≤ 999 → len (print_dec status) = 3.
Proof.
  intros Hs. assert (forallb (λ n, len (print_dec (N.of_nat n)) =? 3) (seq 100 900) = true) as Hall
    by (vm_compute; reflexivity).
  rewrite forallb_forall in Hall. specialize (Hall (N.to_nat status)). rewrite N2Nat.id in Hall.
  apply N.eqb_eq, Hall, in_seq. lia.
Qed.

Lemma digits_plain n : Forall (λ b, plain b = true) (print_dec n).
Proof. eapply Forall_impl; [|apply print_dec_digits]. by intros []. Qed.

Lemma own_status_line_parses status reason :
  100 ≤ status ≤ 999 → parse_status_line (own_status_line status reason) = Ok status.
Proof.
  intros Hs. unfold parse_status_line, own_status_line.
  rewrite (proj2 (split_once_Some SP _ (lit "HTTP/1.1") (print_dec status ++ SP :: reason))).
  2:{ split; [done|]. apply (bool_decide_unpack _). vm_compute. done. }
  rewrite bool_decide_true by done. cbn [negb].
  rewrite (proj2 (split_once_Some SP _ (print_dec status) reason)).
  2:{ split; [done|]. intros Hin. pose proof (digits_plain status) as Hp.
      rewrite list.Forall_forall in Hp. by specialize (Hp _ Hin). }
  rewrite three_digits by done. cbn [N.eqb Pos.eqb negb orb].
  assert (forallb is_ascii_digit (print_dec status) = true) as ->.
  { apply forallb_forall. intros b Hb%list_elem_of_In. pose proof (print_dec_digits status) as Hp.
    rewrite list.Forall_forall in Hp. by apply Hp. }
  cbn [negb]. rewrite parse_print_dec by (unfold U16_MAX; lia).
  rewrite (proj2 (N.leb_le 100 status)), (proj2 (N.leb_le status 999)) by lia. done.
Qed.

Lemma neutral_loop fields lines g :
  Forall neutral_field fields →
  framing_header_loop ((wire_line <$> fields) ++ lines) g = framing_header_loop lines g.
Proof.
  induction 1 as [|h fields (Hraw & Hcl & Hte & Hc) Hf IH]; [done|].
  rewrite fmap_cons. cbn [app]. erewrite header_loop_wire; [|done|].
  2:{ unfold apply_content_length, apply_transfer_encoding. by rewrite Hcl, Hte. }
  by rewrite apply_connection_same.
Qed.

Lemma length_raw body : raw_field (length_header body).
Proof.
  constructor; cbn [header_name header_value length_header].
  - vm_compute. reflexivity.
  - apply not_true_iff_false. unfold contains_prohibited_http_field_value_control.
    rewrite existsb_exists. intros (b & Hb%list_elem_of_In & Hp). pose proof (print_dec_digits (len body)) as Hd.
    rewrite list.Forall_forall in Hd. specialize (Hd _ Hb). by destruct b.
  - by apply utf8_valid_ascii, plain_ascii, digits_plain.
Qed.

(** What the framer reads from the fields of an own response. *)
Lemma own_loop fields body :
  Forall neutral_field fields → len body ≤ USIZE_MAX →
  framing_header_loop (wire_line <$> fields ++ [length_header body; close_header]) framing_headers_init
  = Ok {| fh_content_length := Some (len body); fh_transfer_encoding_present := false;
          fh_transfer_encoding_chunked := false; fh_chunked_coding_seen := false;
          fh_connection_close := true |}.
Proof.
  intros Hf Hlen. rewrite fmap_app, neutral_loop by done.
  rewrite !fmap_cons. erewrite header_loop_wire; [|apply length_raw|].
  2:{ unfold apply_content_length.
      cbn [header_name header_value length_header fh_content_length framing_headers_init].
      change (eq_ignore_ascii_case (lit "Content-Length") (lit "Content-Length")) with true. cbv iota.
      rewrite trim_space, trim_plain, parse_print_dec by (done || apply digits_plain).
      unfold apply_transfer_encoding.
      change (eq_ignore_ascii_case (lit "Content-Length") (lit "Transfer-Encoding")) with false. done. }
  erewrite header_loop_wire; [|by constructor|].
  2:{ unfold apply_content_length, apply_transfer_encoding. cbn [header_name close_header].
      change (eq_ignore_ascii_case (lit "Connection") (lit "Content-Length")) with false.
      change (eq_ignore_ascii_case (lit "Connection") (lit "Transfer-Encoding")) with false. done. }
  rewrite (apply_connection_same (header_name (length_header body))) by (vm_compute; reflexivity).
  unfold apply_connection.
  by change (eq_ignore_ascii_case (header_name close_header) (lit "Connection")) with true.
Qed.

Lemma own_fields_raw fields body :
  Forall neutral_field fields → Forall raw_field (fields ++ [length_header body; close_header]).
Proof.
  intros Hf. apply Forall_app.
  split; [|repeat constructor; try apply length_raw; vm_compute; reflexivity].
  eapply Forall_impl; [|done]. by intros x [].
Qed.

Lemma own_block_parses status reason fields body :
  200 ≤ status ≤ 999 → status ≠ 204 → status ≠ 304 →
  find_seq CRLF (own_status_line status reason) = None → utf8_valid reason = true →
  Forall neutral_field fields → len body ≤ USIZE_MAX →
  parse_response_framing_headers (own_block status reason fields body ++ CRLFCRLF) ExpectNormal
  = Ok (status, FramingContentLength (len body), true)
  ∧ find_seq CRLFCRLF (own_block status reason fields body ++ CRLFCRLF)
    = Some (length (own_block status reason fields body)).
Proof.
  intros Hs H204 H304 Hline Hu Hf Hlen. pose proof (own_fields_raw fields body Hf) as Hraw.
  assert (Forall line_ok (wire_line <$> fields ++ [length_header body; close_header])) as Hlines
    by (apply Forall_fmap; eapply Forall_impl; [exact raw_line_ok|done]).
  split; [|by apply status_block_end].
  unfold parse_response_framing_headers, own_block. rewrite strip_suffix_app, split_join_status by done.
  assert (utf8_valid (join_lines (own_status_line status reason)
    (wire_line <$> fields ++ [length_header body; close_header]) ++ CRLFCRLF) = true) as ->.
  { apply utf8_valid_app; [|done]. apply join_lines_valid.
    - apply utf8_valid_app; [done|]. apply utf8_valid_app; [|by apply utf8_valid_app].
      by apply utf8_valid_ascii, plain_ascii, digits_plain.
    - apply Forall_fmap. eapply Forall_impl; [exact raw_line_valid|done]. }
  cbn [negb]. rewrite own_status_line_parses, own_loop by (done || lia).
  unfold choose_framing, is_interim_status. cbn [fh_content_length fh_transfer_encoding_present
    fh_transfer_encoding_chunked fh_chunked_coding_seen fh_connection_close andb].
  rewrite (proj2 (N.ltb_ge status 200)) by lia. rewrite andb_false_r. cbn [andb].
  rewrite bool_decide_false by done. cbn [orb].
  rewrite !(proj2 (N.eqb_neq status _)) by lia. cbn [orb]. done.
Qed.

(** A response that the framer reads as one block with this status, followed by exactly the
    announced body, after which the connection is closed. *)
Definition self_framed (status : N) (response : list byte) : Prop :=
  ∃ h body, response = h ++ CRLFCRLF ++ body
    ∧ ∀ f, fr_body_expectation f = ExpectNormal → len h + 4 ≤ fr_max_header_bytes f →
        block_parses f h status (FramingContentLength (len body)) true.

Lemma own_self_framed status reason fields body :
  200 ≤ status ≤ 999 → status ≠ 204 → status ≠ 304 →
  find_seq CRLF (own_status_line status reason) = None → utf8_valid reason = true →
  Forall neutral_field fields → len body ≤ USIZE_MAX →
  self_framed status (own_block status reason fields body ++ CRLFCRLF ++ body).
Proof.
  intros. eexists _, _. split; [done|]. intros f Hexp Hmax. unfold block_parses. rewrite Hexp.
  destruct (own_block_parses status reason fields body) as [? ?]; by try done.
Qed.

Lemma plain_response_block status reason body :
  plain_response status reason body = own_block status reason [] body ++ CRLFCRLF ++ body.
Proof.
  unfold plain_response, own_block, own_status_line, CRLFCRLF.
  rewrite !app_assoc. rewrite join_lines_wire. cbn [fmap list_fmap app concat].
  unfold wire_line. cbn [header_name header_value length_header close_header].
  rewrite ?app_nil_r, <-!app_assoc. done.
Qed.

Lemma no_cr_no_crlf l : x0d ∉ l → find_seq CRLF l = None.
Proof. intros Hl. rewrite <-(app_nil_r l). change CRLF with (x0d :: [x0a]). by rewrite find_seq_no_cr. Qed.

Lemma own_line_no_crlf status reason :
  x0d ∉ reason → find_seq CRLF (own_status_line status reason) = None.
Proof.
  intros Hr. apply no_cr_no_crlf. unfold own_status_line. rewrite !elem_of_app.
  pose proof (plain_no_cr _ (digits_plain status)) as Hd.
  assert (x0d ∉ lit "HTTP/1.1 ") by (apply (bool_decide_unpack _); vm_compute; done).
  intros [?|[?|[?|?]]]; [done|done|set_solver|done].
Qed.

Lemma error_body_short status reason :
  100 ≤ status ≤ 999 → len reason ≤ 4096 →
  len (print_dec status ++ lit " " ++ reason ++ [x0a]) ≤ USIZE_MAX.
Proof.
  intros Hs Hr. rewrite !len_app, three_digits by done. change (len (lit " ")) with 1.
  change (len [x0a]) with 1. unfold USIZE_MAX, U64_MAX. lia.
Qed.

Lemma http_error_response_framed status reason :
  200 ≤ status ≤ 999 → status ≠ 204 → status ≠ 304 →
  x0d ∉ reason → utf8_valid reason = true → len reason ≤ 4096 →
  self_framed status (http_error_response status reason).
Proof.
  intros Hs H2 H3 Hcr Hu Hl.
  change (http_error_response status reason)
    with (plain_response status reason (print_dec status ++ lit " " ++ reason ++ [x0a])).
  rewrite plain_response_block.
  apply own_self_framed; [lia|done|done|by apply own_line_no_crlf|done|done|apply error_body_short; [lia|done]].
Qed.

Definition location_header (host path : list byte) : Header :=
  {| header_name := lit "Location"; header_value := lit "https://" ++ host ++ path |}.

Lemma redirect_response_block status host path :
  let reason := redirect_reason status in
  let body := print_dec status ++ lit " " ++ reason ++ [x0a] in
  redirect_response status host path
  = own_block status reason [location_header host path] body ++ CRLFCRLF ++ body.
Proof.
  cbv zeta. unfold redirect_response, own_block, own_status_line, CRLFCRLF.
  rewrite !app_assoc. rewrite join_lines_wire. cbn [fmap list_fmap app concat].
  unfold wire_line. cbn [header_name header_value length_header close_header location_header].
  rewrite ?app_nil_r, <-!app_assoc. done.
Qed.

Lemma target_no_value_control p :
  contains_prohibited_request_target_control p = false →
  contains_prohibited_http_field_value_control p = false.
Proof.
  unfold contains_prohibited_request_target_control, contains_prohibited_http_field_value_control.
  intros Hp. apply not_true_iff_false. rewrite existsb_exists. intros (b & Hb & Hv).
  apply not_true_iff_false in Hp. apply Hp, existsb_exists. exists b. split; [done|]. clear -Hv.
  unfold prohibited_value_byte, prohibited_target_byte in *.
  apply orb_true_iff in Hv as [Hv|Hv]; [|by rewrite Hv, orb_true_r].
  apply orb_true_iff. left. apply N.leb_le.
  apply orb_true_iff in Hv as [Hv%in_range_spec|Hv%in_range_spec]; lia.
Qed.

Lemma location_neutral r h :
  request_wf r → h ∈ req_headers r → neutral_field (location_header (header_value h) (req_path r)).
Proof.
  intros Hr Hh. pose proof (rw_headers _ Hr) as Hw. rewrite list.Forall_forall in Hw.
  specialize (Hw h Hh). split_and!; [|done..]. constructor; cbn [header_name header_value location_header].
  - vm_compute. reflexivity.
  - unfold contains_prohibited_http_field_value_control. rewrite !existsb_app.
    pose proof (hw_value _ Hw) as Hv. pose proof (target_no_value_control _ (rw_path_control _ Hr)) as Hp.
    unfold contains_prohibited_http_field_value_control in Hv, Hp. by rewrite Hv, Hp.
  - apply utf8_valid_app; [done|]. apply utf8_valid_app; [apply Hw|apply Hr].
Qed.

(** Every response the proxy writes itself is framed by its own length and closes the
    connection: the framer reads the error response of any error code, the response to any
    upstream failure, the answer to an ACME challenge and the redirect of any accepted request
    as one header block with the intended status followed by exactly the announced body.  In
    particular no Host value or path of a request can add a line to the redirect. *)
Theorem own_responses_framed :
  (∀ code, self_framed (error_status_for_code code).1 (error_response_for_code code))
  ∧ (∀ failure, self_framed (upstream_failure_response_spec failure).1 (upstream_failure_response failure))
  ∧ (∀ body, len body ≤ USIZE_MAX → self_framed 200 (plain_response 200 (lit "OK") body))
  ∧ (∀ r h status, request_wf r → h ∈ req_headers r → 300 ≤ status ≤ 399 → status ≠ 304 →
       self_framed status (redirect_response status (header_value h) (req_path r))).
Proof.
  split_and!.
  - intros code. unfold error_response_for_code.
    destruct code; cbn [error_status_for_code fst]; apply http_error_response_framed;
      (done || (vm_compute; done) || (apply (bool_decide_unpack _); vm_compute; done)).
  - intros failure. unfold upstream_failure_response.
    destruct failure; cbn [upstream_failure_response_spec fst]; apply http_error_response_framed;
      (done || (vm_compute; done) || (apply (bool_decide_unpack _); vm_compute; done)).
  - intros body Hb. rewrite plain_response_block. by apply own_self_framed.
  - intros r h status Hr Hh Hs H304. rewrite redirect_response_block.
    assert (x0d ∉ redirect_reason status ∧ utf8_valid (redirect_reason status) = true
            ∧ len (redirect_reason status) ≤ 4096) as (Hcr & Hu & Hl).
    { unfold redirect_reason. split_and!; repeat case_match;
        (done || (apply (bool_decide_unpack _); vm_compute; done)). }
    apply own_self_framed; [lia|lia|done|by apply own_line_no_crlf|done| |apply error_body_short; [lia|done]].
    apply Forall_singleton. by apply location_neutral.
Qed.
