(* ===== verification/ConfigParser.v ===== *)
(** * The configuration parser

    crates/edge-application/src/config_scalar_parser.rs, mvp_config_parser.rs and
    failure_policy_normalization.rs: a configuration file is read line by line into a draft,
    which is then normalised to a snapshot. *)

From stdpp Require Import base gmap strings list sorting.
From Stdlib Require Import Strings.Byte NArith ZArith Lia.
From Stdlib Require Strings.String.
From S2P Require Import Prelude Errors RustStr Resource Endpoint UpstreamPolicy Snapshot.
Local Open Scope N_scope.

(** A message built at run time. *)
Definition text (l : list byte) : string := String.string_of_list_byte l.
Definition from_validation {A} (r : result ValidationError A) : result AppError A :=
  match r with
  | Ok a => Ok a
  | Err e => Err (AppError_new (val_code e) (val_message e))
  end.

(** ** Scalars *)
Definition QUOTE : byte := x22.
Definition EQUALS : byte := x3d.
Definition HASH : byte := x23.
Definition LF : byte := x0a.
Definition CR : byte := x0d.
Definition COMMA_BYTE : byte := x2c.

Definition expected (what : string) (value : list byte) : AppError :=
  AppError_new ConfigSchemaVersionMissing (text (lit what ++ value)).

(** [&s[1..s.len() - 1]] *)
Definition inner (s : list byte) : list byte := take (length s - 2) (drop 1 s).

Definition parse_string (value : list byte) : result AppError (list byte) :=
  let trimmed := trim value in
  if starts_with [QUOTE] trimmed && ends_with [QUOTE] trimmed && (2 <=? len trimmed)
  then Ok (inner trimmed)
  else Err (expected "expected quoted string: " value).

Fixpoint parse_strings (items : list (list byte)) : result AppError (list (list byte)) :=
  match items with
  | [] => Ok []
  | item :: rest =>
      let? s := parse_string (trim item) in
      let? ss := parse_strings rest in
      Ok (s :: ss)
  end.

Definition parse_string_array (value : list byte) : result AppError (list (list byte)) :=
  let trimmed := trim value in
  if negb (starts_with [LBRACKET] trimmed) || negb (ends_with [RBRACKET] trimmed)
  then Err (expected "expected string array: " value)
  else
    let inner := trim (inner trimmed) in
    if bool_decide (inner = []) then Ok []
    else parse_strings (split_byte COMMA_BYTE inner).

Definition parse_unsigned (mx : N) (what : string) (value : list byte) : result AppError N :=
  ok_or (parse_uint mx (trim value)) (expected what value).
Definition parse_u32 : list byte → result AppError N :=
  parse_unsigned U32_MAX "expected unsigned integer: ".
Definition parse_u64 : list byte → result AppError N :=
  parse_unsigned U64_MAX "expected unsigned integer: ".
Definition parse_u16 : list byte → result AppError N :=
  parse_unsigned U16_MAX "expected 16-bit unsigned integer: ".
Definition parse_u8 : list byte → result AppError N :=
  parse_unsigned U8_MAX "expected 8-bit unsigned integer: ".
Definition parse_usize : list byte → result AppError N :=
  parse_unsigned USIZE_MAX "expected unsigned integer: ".

(** [str::parse::<i32>]: an optional sign and digits within the range. *)
Definition parse_signed (l : list byte) : option Z :=
  match strip_prefix [HYPHEN] l with
  | Some ((_ :: _) as digits) => Z.opp ∘ Z.of_N <$> parse_digits 10 2147483648 0 digits
  | _ => Z.of_N <$> parse_uint 2147483647 l
  end.
Definition parse_i32 (value : list byte) : result AppError Z :=
  ok_or (parse_signed (trim value)) (expected "expected signed integer: " value).

Definition parse_bool (value : list byte) : result AppError bool :=
  if bool_decide (trim value = lit "true") then Ok true
  else if bool_decide (trim value = lit "false") then Ok false
  else Err (expected "expected boolean: " value).

Definition LogMode_from_str (value : list byte) : result ValidationError LogMode :=
  if bool_decide (value = lit "product") then Ok LogProduct
  else if bool_decide (value = lit "field-debug") then Ok LogFieldDebug
  else if bool_decide (value = lit "dev") then Ok LogDev
  else Err (ValidationError_new ConfigInvalidLogMode "unknown log mode").
Definition LogMode_as_str (m : LogMode) : list byte :=
  match m with
  | LogProduct => lit "product" | LogFieldDebug => lit "field-debug" | LogDev => lit "dev"
  end.

Definition LoadBalancingPolicy_from_str (value : list byte)
  : result ValidationError LoadBalancingPolicy :=
  if bool_decide (value = lit "round_robin") then Ok RoundRobin
  else Err (ValidationError_new ConfigInvalidLoadBalancingPolicy "unknown load-balancing policy").
Definition LoadBalancingPolicy_as_str (p : LoadBalancingPolicy) : list byte :=
  match p with RoundRobin => lit "round_robin" end.

Definition HttpHealthCheckPolicy_default : HttpHealthCheckPolicy :=
  {| hc_path := lit "/health"; hc_interval_ms := 10000; hc_timeout_ms := 2000;
     hc_healthy_threshold := 2; hc_unhealthy_threshold := 3; hc_status_min := 200;
     hc_status_max := 399 |}.

(** ** Lines

    [str::lines]: pieces that end in a line feed, without it and without a carriage return
    before it; a last piece without line feed is a line unless it is empty. *)
Definition strip_cr (line : list byte) : list byte := default line (strip_suffix [CR] line).

Fixpoint lines_of (pieces : list (list byte)) : list (list byte) :=
  match pieces with
  | [] => []
  | [last] => if bool_decide (last = []) then [] else [last]
  | piece :: rest => strip_cr piece :: lines_of rest
  end.
Definition str_lines (source : list byte) : list (list byte) := lines_of (split_byte LF source).

(** [trim_start_matches] and [trim_end_matches] with a two-byte pattern [cc]. *)
Fixpoint drop_while_pair (c : byte) (l : list byte) : list byte :=
  match l with
  | a :: ((b :: t) as t') => if bool_decide (a = c) && bool_decide (b = c) then drop_while_pair c t else l
  | _ => l
  end.
Definition trim_pairs (open close : byte) (l : list byte) : list byte :=
  rev (drop_while_pair close (rev (drop_while_pair open l))).
Definition trim_matches (open close : byte) (l : list byte) : list byte :=
  trim_end_matches close (drop_while_byte open l).

(** ** Drafts *)
Record ListenerTlsDraft := { ltd_client_auth : option (list byte); ltd_trust_bundle_ref : option (list byte) }.
Definition ListenerTlsDraft_default : ListenerTlsDraft :=
  {| ltd_client_auth := None; ltd_trust_bundle_ref := None |}.

Record UpstreamTlsDraft := {
  utd_server_name : option (list byte);
  utd_http_host : option (list byte);
  utd_trust_bundle_ref : option (list byte)
}.
Definition UpstreamTlsDraft_default : UpstreamTlsDraft :=
  {| utd_server_name := None; utd_http_host := None; utd_trust_bundle_ref := None |}.

Record HttpHealthCheckDraft := {
  hcd_enabled : option bool;
  hcd_path : option (list byte);
  hcd_interval_ms : option N;
  hcd_timeout_ms : option N;
  hcd_healthy_threshold : option N;
  hcd_unhealthy_threshold : option N;
  hcd_status_min : option N;
  hcd_status_max : option N
}.
Definition HttpHealthCheckDraft_default : HttpHealthCheckDraft :=
  Build_HttpHealthCheckDraft None None None None None None None None.

Record RetryPolicyDraft := {
  rpd_enabled : option bool;
  rpd_max_retries : option N;
  rpd_max_replay_bytes : option N
}.
Definition RetryPolicyDraft_default : RetryPolicyDraft := Build_RetryPolicyDraft None None None.

Record PassiveHealthPolicyDraft := {
  phd_enabled : option bool;
  phd_failure_threshold : option N;
  phd_ejection_ms : option N
}.
Definition PassiveHealthPolicyDraft_default : PassiveHealthPolicyDraft :=
  Build_PassiveHealthPolicyDraft None None None.

Record MvpConfigDraft := {
  cd_schema_version : option N;
  cd_admin_bind : option (list byte);
  cd_log_mode : option LogMode;
  cd_max_connections : option N;
  cd_max_inflight_payload_bytes : option N;
  cd_upstream_read_timeout_ms : option N;
  cd_metrics_enabled : option bool;
  cd_metrics_bind : option (list byte);
  cd_listeners : list Listener;
  cd_services : list Service;
  cd_routes : list Route;
  cd_current_service : option nat;
  cd_current_upstream : option (nat * nat);
  cd_health_checks : gmap nat HttpHealthCheckDraft;
  cd_retry_policies : gmap nat RetryPolicyDraft;
  cd_passive_health_policies : gmap nat PassiveHealthPolicyDraft;
  cd_listener_tls : gmap nat ListenerTlsDraft;
  cd_upstream_tls : gmap (nat * nat) UpstreamTlsDraft;
  cd_unknown_fields : list (list byte)
}.

Definition MvpConfigDraft_default : MvpConfigDraft :=
  Build_MvpConfigDraft None None None None None None None None [] [] [] None None ∅ ∅ ∅ ∅ ∅ [].

(** Assignments to one field. *)
Definition set_schema_version (v : option N) (d : MvpConfigDraft) : MvpConfigDraft :=
  Build_MvpConfigDraft
    v (cd_admin_bind d) (cd_log_mode d) (cd_max_connections d)
    (cd_max_inflight_payload_bytes d) (cd_upstream_read_timeout_ms d) (cd_metrics_enabled d)
    (cd_metrics_bind d) (cd_listeners d) (cd_services d) (cd_routes d) (cd_current_service
    d) (cd_current_upstream d) (cd_health_checks d) (cd_retry_policies d)
    (cd_passive_health_policies d) (cd_listener_tls d) (cd_upstream_tls d)
    (cd_unknown_fields d).
Definition set_admin_bind (v : option (list byte)) (d : MvpConfigDraft) : MvpConfigDraft :=
  Build_MvpConfigDraft
    (cd_schema_version d) v (cd_log_mode d) (cd_max_connections d)
    (cd_max_inflight_payload_bytes d) (cd_upstream_read_timeout_ms d) (cd_metrics_enabled d)
    (cd_metrics_bind d) (cd_listeners d) (cd_services d) (cd_routes d) (cd_current_service
    d) (cd_current_upstream d) (cd_health_checks d) (cd_retry_policies d)
    (cd_passive_health_policies d) (cd_listener_tls d) (cd_upstream_tls d)
    (cd_unknown_fields d).
Definition set_log_mode (v : option LogMode) (d : MvpConfigDraft) : MvpConfigDraft :=
  Build_MvpConfigDraft
    (cd_schema_version d) (cd_admin_bind d) v (cd_max_connections d)
    (cd_max_inflight_payload_bytes d) (cd_upstream_read_timeout_ms d) (cd_metrics_enabled d)
    (cd_metrics_bind d) (cd_listeners d) (cd_services d) (cd_routes d) (cd_current_service
    d) (cd_current_upstream d) (cd_health_checks d) (cd_retry_policies d)
    (cd_passive_health_policies d) (cd_listener_tls d) (cd_upstream_tls d)
    (cd_unknown_fields d).
Definition set_max_connections (v : option N) (d : MvpConfigDraft) : MvpConfigDraft :=
  Build_MvpConfigDraft
    (cd_schema_version d) (cd_admin_bind d) (cd_log_mode d) v (cd_max_inflight_payload_bytes
    d) (cd_upstream_read_timeout_ms d) (cd_metrics_enabled d) (cd_metrics_bind d)
    (cd_listeners d) (cd_services d) (cd_routes d) (cd_current_service d)
    (cd_current_upstream d) (cd_health_checks d) (cd_retry_policies d)
    (cd_passive_health_policies d) (cd_listener_tls d) (cd_upstream_tls d)
    (cd_unknown_fields d).
Definition set_max_inflight_payload_bytes (v : option N) (d : MvpConfigDraft) : MvpConfigDraft :=
  Build_MvpConfigDraft
    (cd_schema_version d) (cd_admin_bind d) (cd_log_mode d) (cd_max_connections d) v
    (cd_upstream_read_timeout_ms d) (cd_metrics_enabled d) (cd_metrics_bind d) (cd_listeners
    d) (cd_services d) (cd_routes d) (cd_current_service d) (cd_current_upstream d)
    (cd_health_checks d) (cd_retry_policies d) (cd_passive_health_policies d)
    (cd_listener_tls d) (cd_upstream_tls d) (cd_unknown_fields d).
Definition set_upstream_read_timeout_ms (v : option N) (d : MvpConfigDraft) : MvpConfigDraft :=
  Build_MvpConfigDraft
    (cd_schema_version d) (cd_admin_bind d) (cd_log_mode d) (cd_max_connections d)
    (cd_max_inflight_payload_bytes d) v (cd_metrics_enabled d) (cd_metrics_bind d)
    (cd_listeners d) (cd_services d) (cd_routes d) (cd_current_service d)
    (cd_current_upstream d) (cd_health_checks d) (cd_retry_policies d)
    (cd_passive_health_policies d) (cd_listener_tls d) (cd_upstream_tls d)
    (cd_unknown_fields d).
Definition set_metrics_enabled (v : option bool) (d : MvpConfigDraft) : MvpConfigDraft :=
  Build_MvpConfigDraft
    (cd_schema_version d) (cd_admin_bind d) (cd_log_mode d) (cd_max_connections d)
    (cd_max_inflight_payload_bytes d) (cd_upstream_read_timeout_ms d) v (cd_metrics_bind d)
    (cd_listeners d) (cd_services d) (cd_routes d) (cd_current_service d)
    (cd_current_upstream d) (cd_health_checks d) (cd_retry_policies d)
    (cd_passive_health_policies d) (cd_listener_tls d) (cd_upstream_tls d)
    (cd_unknown_fields d).
Definition set_metrics_bind (v : option (list byte)) (d : MvpConfigDraft) : MvpConfigDraft :=
  Build_MvpConfigDraft
    (cd_schema_version d) (cd_admin_bind d) (cd_log_mode d) (cd_max_connections d)
    (cd_max_inflight_payload_bytes d) (cd_upstream_read_timeout_ms d) (cd_metrics_enabled d)
    v (cd_listeners d) (cd_services d) (cd_routes d) (cd_current_service d)
    (cd_current_upstream d) (cd_health_checks d) (cd_retry_policies d)
    (cd_passive_health_policies d) (cd_listener_tls d) (cd_upstream_tls d)
    (cd_unknown_fields d).
Definition set_listeners (v : list Listener) (d : MvpConfigDraft) : MvpConfigDraft :=
  Build_MvpConfigDraft
    (cd_schema_version d) (cd_admin_bind d) (cd_log_mode d) (cd_max_connections d)
    (cd_max_inflight_payload_bytes d) (cd_upstream_read_timeout_ms d) (cd_metrics_enabled d)
    (cd_metrics_bind d) v (cd_services d) (cd_routes d) (cd_current_service d)
    (cd_current_upstream d) (cd_health_checks d) (cd_retry_policies d)
    (cd_passive_health_policies d) (cd_listener_tls d) (cd_upstream_tls d)
    (cd_unknown_fields d).
Definition set_services (v : list Service) (d : MvpConfigDraft) : MvpConfigDraft :=
  Build_MvpConfigDraft
    (cd_schema_version d) (cd_admin_bind d) (cd_log_mode d) (cd_max_connections d)
    (cd_max_inflight_payload_bytes d) (cd_upstream_read_timeout_ms d) (cd_metrics_enabled d)
    (cd_metrics_bind d) (cd_listeners d) v (cd_routes d) (cd_current_service d)
    (cd_current_upstream d) (cd_health_checks d) (cd_retry_policies d)
    (cd_passive_health_policies d) (cd_listener_tls d) (cd_upstream_tls d)
    (cd_unknown_fields d).
Definition set_routes (v : list Route) (d : MvpConfigDraft) : MvpConfigDraft :=
  Build_MvpConfigDraft
    (cd_schema_version d) (cd_admin_bind d) (cd_log_mode d) (cd_max_connections d)
    (cd_max_inflight_payload_bytes d) (cd_upstream_read_timeout_ms d) (cd_metrics_enabled d)
    (cd_metrics_bind d) (cd_listeners d) (cd_services d) v (cd_current_service d)
    (cd_current_upstream d) (cd_health_checks d) (cd_retry_policies d)
    (cd_passive_health_policies d) (cd_listener_tls d) (cd_upstream_tls d)
    (cd_unknown_fields d).
Definition set_current_service (v : option nat) (d : MvpConfigDraft) : MvpConfigDraft :=
  Build_MvpConfigDraft
    (cd_schema_version d) (cd_admin_bind d) (cd_log_mode d) (cd_max_connections d)
    (cd_max_inflight_payload_bytes d) (cd_upstream_read_timeout_ms d) (cd_metrics_enabled d)
    (cd_metrics_bind d) (cd_listeners d) (cd_services d) (cd_routes d) v
    (cd_current_upstream d) (cd_health_checks d) (cd_retry_policies d)
    (cd_passive_health_policies d) (cd_listener_tls d) (cd_upstream_tls d)
    (cd_unknown_fields d).
Definition set_current_upstream (v : option (nat * nat)) (d : MvpConfigDraft) : MvpConfigDraft :=
  Build_MvpConfigDraft
    (cd_schema_version d) (cd_admin_bind d) (cd_log_mode d) (cd_max_connections d)
    (cd_max_inflight_payload_bytes d) (cd_upstream_read_timeout_ms d) (cd_metrics_enabled d)
    (cd_metrics_bind d) (cd_listeners d) (cd_services d) (cd_routes d) (cd_current_service
    d) v (cd_health_checks d) (cd_retry_policies d) (cd_passive_health_policies d)
    (cd_listener_tls d) (cd_upstream_tls d) (cd_unknown_fields d).
Definition set_health_checks (v : gmap nat HttpHealthCheckDraft) (d : MvpConfigDraft) : MvpConfigDraft :=
  Build_MvpConfigDraft
    (cd_schema_version d) (cd_admin_bind d) (cd_log_mode d) (cd_max_connections d)
    (cd_max_inflight_payload_bytes d) (cd_upstream_read_timeout_ms d) (cd_metrics_enabled d)
    (cd_metrics_bind d) (cd_listeners d) (cd_services d) (cd_routes d) (cd_current_service
    d) (cd_current_upstream d) v (cd_retry_policies d) (cd_passive_health_policies d)
    (cd_listener_tls d) (cd_upstream_tls d) (cd_unknown_fields d).
Definition set_retry_policies (v : gmap nat RetryPolicyDraft) (d : MvpConfigDraft) : MvpConfigDraft :=
  Build_MvpConfigDraft
    (cd_schema_version d) (cd_admin_bind d) (cd_log_mode d) (cd_max_connections d)
    (cd_max_inflight_payload_bytes d) (cd_upstream_read_timeout_ms d) (cd_metrics_enabled d)
    (cd_metrics_bind d) (cd_listeners d) (cd_services d) (cd_routes d) (cd_current_service
    d) (cd_current_upstream d) (cd_health_checks d) v (cd_passive_health_policies d)
    (cd_listener_tls d) (cd_upstream_tls d) (cd_unknown_fields d).
Definition set_passive_health_policies (v : gmap nat PassiveHealthPolicyDraft) (d : MvpConfigDraft) : MvpConfigDraft :=
  Build_MvpConfigDraft
    (cd_schema_version d) (cd_admin_bind d) (cd_log_mode d) (cd_max_connections d)
    (cd_max_inflight_payload_bytes d) (cd_upstream_read_timeout_ms d) (cd_metrics_enabled d)
    (cd_metrics_bind d) (cd_listeners d) (cd_services d) (cd_routes d) (cd_current_service
    d) (cd_current_upstream d) (cd_health_checks d) (cd_retry_policies d) v (cd_listener_tls
    d) (cd_upstream_tls d) (cd_unknown_fields d).
Definition set_listener_tls (v : gmap nat ListenerTlsDraft) (d : MvpConfigDraft) : MvpConfigDraft :=
  Build_MvpConfigDraft
    (cd_schema_version d) (cd_admin_bind d) (cd_log_mode d) (cd_max_connections d)
    (cd_max_inflight_payload_bytes d) (cd_upstream_read_timeout_ms d) (cd_metrics_enabled d)
    (cd_metrics_bind d) (cd_listeners d) (cd_services d) (cd_routes d) (cd_current_service
    d) (cd_current_upstream d) (cd_health_checks d) (cd_retry_policies d)
    (cd_passive_health_policies d) v (cd_upstream_tls d) (cd_unknown_fields d).
Definition set_upstream_tls (v : gmap (nat * nat) UpstreamTlsDraft) (d : MvpConfigDraft) : MvpConfigDraft :=
  Build_MvpConfigDraft
    (cd_schema_version d) (cd_admin_bind d) (cd_log_mode d) (cd_max_connections d)
    (cd_max_inflight_payload_bytes d) (cd_upstream_read_timeout_ms d) (cd_metrics_enabled d)
    (cd_metrics_bind d) (cd_listeners d) (cd_services d) (cd_routes d) (cd_current_service
    d) (cd_current_upstream d) (cd_health_checks d) (cd_retry_policies d)
    (cd_passive_health_policies d) (cd_listener_tls d) v (cd_unknown_fields d).
Definition set_unknown_fields (v : list (list byte)) (d : MvpConfigDraft) : MvpConfigDraft :=
  Build_MvpConfigDraft
    (cd_schema_version d) (cd_admin_bind d) (cd_log_mode d) (cd_max_connections d)
    (cd_max_inflight_payload_bytes d) (cd_upstream_read_timeout_ms d) (cd_metrics_enabled d)
    (cd_metrics_bind d) (cd_listeners d) (cd_services d) (cd_routes d) (cd_current_service
    d) (cd_current_upstream d) (cd_health_checks d) (cd_retry_policies d)
    (cd_passive_health_policies d) (cd_listener_tls d) (cd_upstream_tls d) v.


(** ** Positions

    Indexing a vector out of range panics.  The model answers [index_panic] there, and
    [parse_never_panics] shows that no source reaches it. *)
Definition index_panic : AppError := AppError_new InternalBug "index out of bounds".

Definition update_at {A} (i : nat) (f : A → result AppError A) (l : list A)
  : result AppError (list A) :=
  match l !! i with
  | None => Err index_panic
  | Some x => let? y := f x in Ok (<[i := y]> l)
  end.

(** [if let Some(x) = l.last_mut() { .. }] *)
Definition update_last {A} (f : A → result AppError A) (l : list A) : result AppError (list A) :=
  match l with [] => Ok [] | _ => update_at (length l - 1) f l end.

Definition named (value : list byte) (name : string) : bool := bool_decide (value = lit name).

Definition unknown_field (section key : list byte) (d : MvpConfigDraft) : MvpConfigDraft :=
  set_unknown_fields (cd_unknown_fields d ++ [section ++ [DOT] ++ key]) d.

(** ** Assignments, by section *)
Definition set_listener_id (v : list byte) (l : Listener) : Listener :=
  {| listener_id := v; listener_bind := listener_bind l; listener_protocol := listener_protocol l;
     listener_client_auth := listener_client_auth l |}.
Definition set_listener_bind (v : list byte) (l : Listener) : Listener :=
  {| listener_id := listener_id l; listener_bind := v; listener_protocol := listener_protocol l;
     listener_client_auth := listener_client_auth l |}.
Definition set_listener_protocol (v : ListenerProtocol) (l : Listener) : Listener :=
  {| listener_id := listener_id l; listener_bind := listener_bind l; listener_protocol := v;
     listener_client_auth := listener_client_auth l |}.
Definition set_listener_client_auth (v : ClientAuthPolicy) (l : Listener) : Listener :=
  {| listener_id := listener_id l; listener_bind := listener_bind l;
     listener_protocol := listener_protocol l; listener_client_auth := v |}.

Definition parse_listener_protocol (value : list byte) : result AppError ListenerProtocol :=
  let? other := parse_string value in
  if named other "http" then Ok ProtocolHttp
  else if named other "https" then Ok ProtocolHttps
  else Err (expected "unsupported listener protocol: " other).

Definition edit_last_listener (f : Listener → result AppError Listener) (d : MvpConfigDraft)
  : result AppError MvpConfigDraft :=
  let? ls := update_last f (cd_listeners d) in Ok (set_listeners ls d).

Definition edit_listener_tls (f : ListenerTlsDraft → result AppError ListenerTlsDraft)
    (d : MvpConfigDraft) : result AppError MvpConfigDraft :=
  match cd_listeners d with
  | [] => Err (AppError_new ConfigClientAuthPolicyInvalid "listener is missing")
  | _ =>
      let index := (length (cd_listeners d) - 1)%nat in
      let? draft := f (default ListenerTlsDraft_default (cd_listener_tls d !! index)) in
      Ok (set_listener_tls (<[index := draft]> (cd_listener_tls d)) d)
  end.

Definition apply_listener_value (section key value : list byte) (d : MvpConfigDraft)
  : result AppError MvpConfigDraft :=
  if named key "name" then
    edit_last_listener (λ l, let? v := parse_string value in Ok (set_listener_id v l)) d
  else if named key "bind" then
    edit_last_listener (λ l, let? v := parse_string value in Ok (set_listener_bind v l)) d
  else if named key "protocol" then
    edit_last_listener (λ l, let? v := parse_listener_protocol value in
                             Ok (set_listener_protocol v l)) d
  else if named key "client_auth" then
    edit_listener_tls (λ t, let? v := parse_string value in
      Ok {| ltd_client_auth := Some v; ltd_trust_bundle_ref := ltd_trust_bundle_ref t |}) d
  else if named key "client_trust_bundle_ref" then
    edit_listener_tls (λ t, let? v := parse_string value in
      Ok {| ltd_client_auth := ltd_client_auth t; ltd_trust_bundle_ref := Some v |}) d
  else Ok (unknown_field section key d).

Definition set_svc_id (v : list byte) (s : Service) : Service :=
  {| svc_id := v; svc_upstreams := svc_upstreams s; svc_policy := svc_policy s |}.
Definition set_svc_upstreams (v : list Upstream) (s : Service) : Service :=
  {| svc_id := svc_id s; svc_upstreams := v; svc_policy := svc_policy s |}.
Definition set_svc_policy (v : ServicePolicy) (s : Service) : Service :=
  {| svc_id := svc_id s; svc_upstreams := svc_upstreams s; svc_policy := v |}.
Definition set_load_balancing (v : LoadBalancingPolicy) (p : ServicePolicy) : ServicePolicy :=
  {| sp_load_balancing := v; sp_health_check := sp_health_check p; sp_retry := sp_retry p;
     sp_passive_health := sp_passive_health p |}.
Definition set_health_check (v : HealthCheckPolicy) (p : ServicePolicy) : ServicePolicy :=
  {| sp_load_balancing := sp_load_balancing p; sp_health_check := v; sp_retry := sp_retry p;
     sp_passive_health := sp_passive_health p |}.
Definition set_retry (v : RetryPolicy) (p : ServicePolicy) : ServicePolicy :=
  {| sp_load_balancing := sp_load_balancing p; sp_health_check := sp_health_check p;
     sp_retry := v; sp_passive_health := sp_passive_health p |}.
Definition set_passive_health (v : PassiveHealthMode) (p : ServicePolicy) : ServicePolicy :=
  {| sp_load_balancing := sp_load_balancing p; sp_health_check := sp_health_check p;
     sp_retry := sp_retry p; sp_passive_health := v |}.

Definition edit_service (i : nat) (f : Service → result AppError Service) (d : MvpConfigDraft)
  : result AppError MvpConfigDraft :=
  let? ss := update_at i f (cd_services d) in Ok (set_services ss d).

Definition apply_service_value (section key value : list byte) (d : MvpConfigDraft)
  : result AppError MvpConfigDraft :=
  if named key "name" then
    match cd_current_service d with
    | None => Ok d
    | Some i => edit_service i (λ s, let? v := parse_string value in Ok (set_svc_id v s)) d
    end
  else if named key "load_balancer" then
    match cd_current_service d with
    | None => Ok d
    | Some i =>
        edit_service i
          (λ s, let? v := parse_string value in
                let? v := from_validation (LoadBalancingPolicy_from_str v) in
                Ok (set_svc_policy (set_load_balancing v (svc_policy s)) s)) d
    end
  else Ok (unknown_field section key d).

(** The draft of a policy of the current service, created when it is missing. *)
Definition apply_health_check_key (key value : list byte) (h : HttpHealthCheckDraft)
  : result AppError (option HttpHealthCheckDraft) :=
  let set enabled path interval timeout healthy unhealthy smin smax :=
    Ok (Some {| hcd_enabled := enabled; hcd_path := path; hcd_interval_ms := interval;
                hcd_timeout_ms := timeout; hcd_healthy_threshold := healthy;
                hcd_unhealthy_threshold := unhealthy; hcd_status_min := smin;
                hcd_status_max := smax |}) in
  let '(Build_HttpHealthCheckDraft e p i t ht ut lo hi) := h in
  if named key "enabled" then let? v := parse_bool value in set (Some v) p i t ht ut lo hi
  else if named key "path" then let? v := parse_string value in set e (Some v) i t ht ut lo hi
  else if named key "interval_ms" then let? v := parse_u64 value in set e p (Some v) t ht ut lo hi
  else if named key "timeout_ms" then let? v := parse_u64 value in set e p i (Some v) ht ut lo hi
  else if named key "healthy_threshold" then
    let? v := parse_u32 value in set e p i t (Some v) ut lo hi
  else if named key "unhealthy_threshold" then
    let? v := parse_u32 value in set e p i t ht (Some v) lo hi
  else if named key "status_min" then let? v := parse_u16 value in set e p i t ht ut (Some v) hi
  else if named key "status_max" then let? v := parse_u16 value in set e p i t ht ut lo (Some v)
  else Ok None.

Definition apply_retry_key (key value : list byte) (p : RetryPolicyDraft)
  : result AppError (option RetryPolicyDraft) :=
  if named key "enabled" then
    let? v := parse_bool value in
    Ok (Some {| rpd_enabled := Some v; rpd_max_retries := rpd_max_retries p;
                rpd_max_replay_bytes := rpd_max_replay_bytes p |})
  else if named key "max_retries" then
    let? v := parse_u8 value in
    Ok (Some {| rpd_enabled := rpd_enabled p; rpd_max_retries := Some v;
                rpd_max_replay_bytes := rpd_max_replay_bytes p |})
  else if named key "max_replay_bytes" then
    let? v := parse_u64 value in
    Ok (Some {| rpd_enabled := rpd_enabled p; rpd_max_retries := rpd_max_retries p;
                rpd_max_replay_bytes := Some v |})
  else Ok None.

Definition apply_passive_key (key value : list byte) (p : PassiveHealthPolicyDraft)
  : result AppError (option PassiveHealthPolicyDraft) :=
  if named key "enabled" then
    let? v := parse_bool value in
    Ok (Some {| phd_enabled := Some v; phd_failure_threshold := phd_failure_threshold p;
                phd_ejection_ms := phd_ejection_ms p |})
  else if named key "failure_threshold" then
    let? v := parse_u8 value in
    Ok (Some {| phd_enabled := phd_enabled p; phd_failure_threshold := Some v;
                phd_ejection_ms := phd_ejection_ms p |})
  else if named key "ejection_ms" then
    let? v := parse_u64 value in
    Ok (Some {| phd_enabled := phd_enabled p; phd_failure_threshold := phd_failure_threshold p;
                phd_ejection_ms := Some v |})
  else Ok None.

(** One key of a policy section: the entry of the current service is created before the key
    is looked at, also when the key is unknown. *)
Definition apply_policy_value {A} (missing : string) (dflt : A)
    (get : MvpConfigDraft → gmap nat A) (set : gmap nat A → MvpConfigDraft → MvpConfigDraft)
    (apply_key : A → result AppError (option A))
    (section key : list byte) (d : MvpConfigDraft) : result AppError MvpConfigDraft :=
  match cd_current_service d with
  | None => Err (AppError_new ConfigServiceWithoutUpstream missing)
  | Some i =>
      let policy := default dflt (get d !! i) in
      let? r := apply_key policy in
      match r with
      | Some policy => Ok (set (<[i := policy]> (get d)) d)
      | None => Ok (unknown_field section key (set (<[i := policy]> (get d)) d))
      end
  end.

Definition apply_health_check_value (section key value : list byte)
  : MvpConfigDraft → result AppError MvpConfigDraft :=
  apply_policy_value "health check declared before service" HttpHealthCheckDraft_default
    cd_health_checks set_health_checks (apply_health_check_key key value) section key.
Definition apply_retry_value (section key value : list byte)
  : MvpConfigDraft → result AppError MvpConfigDraft :=
  apply_policy_value "retry declared before service" RetryPolicyDraft_default
    cd_retry_policies set_retry_policies (apply_retry_key key value) section key.
Definition apply_passive_value (section key value : list byte)
  : MvpConfigDraft → result AppError MvpConfigDraft :=
  apply_policy_value "passive health declared before service" PassiveHealthPolicyDraft_default
    cd_passive_health_policies set_passive_health_policies (apply_passive_key key value)
    section key.

Definition set_up_id (v : list byte) (u : Upstream) : Upstream :=
  {| up_id := v; up_url := up_url u; up_administrative_state := up_administrative_state u;
     up_tls := up_tls u |}.
Definition set_up_url (v : list byte) (u : Upstream) : Upstream :=
  {| up_id := up_id u; up_url := v; up_administrative_state := up_administrative_state u;
     up_tls := up_tls u |}.
Definition set_up_state (v : UpstreamAdministrativeState) (u : Upstream) : Upstream :=
  {| up_id := up_id u; up_url := up_url u; up_administrative_state := v; up_tls := up_tls u |}.
Definition set_up_tls (v : UpstreamTlsPolicy) (u : Upstream) : Upstream :=
  {| up_id := up_id u; up_url := up_url u; up_administrative_state := up_administrative_state u;
     up_tls := v |}.

Definition parse_administrative_state (value : list byte)
  : result AppError UpstreamAdministrativeState :=
  let? v := parse_string value in
  if named v "active" then Ok AdminActive
  else if named v "draining" then Ok AdminDraining
  else Err (AppError_new ConfigPassiveHealthPolicyInvalid
              "unsupported upstream administrative state").

Definition edit_upstream (f : Upstream → result AppError Upstream) (d : MvpConfigDraft)
  : result AppError MvpConfigDraft :=
  match cd_current_upstream d with
  | None => Err (AppError_new ConfigServiceWithoutUpstream "upstream declared before service")
  | Some (i, j) =>
      edit_service i (λ s, let? us := update_at j f (svc_upstreams s) in
                           Ok (set_svc_upstreams us s)) d
  end.

Definition edit_upstream_tls (f : UpstreamTlsDraft → result AppError UpstreamTlsDraft)
    (d : MvpConfigDraft) : result AppError MvpConfigDraft :=
  match cd_current_upstream d with
  | None => Err (AppError_new ConfigTlsPolicyInvalid "upstream is missing")
  | Some index =>
      let? draft := f (default UpstreamTlsDraft_default (cd_upstream_tls d !! index)) in
      Ok (set_upstream_tls (<[index := draft]> (cd_upstream_tls d)) d)
  end.

Definition apply_upstream_value (section key value : list byte) (d : MvpConfigDraft)
  : result AppError MvpConfigDraft :=
  if named key "name" then
    edit_upstream (λ u, let? v := parse_string value in Ok (set_up_id v u)) d
  else if named key "url" then
    edit_upstream (λ u, let? v := parse_string value in Ok (set_up_url v u)) d
  else if named key "administrative_state" then
    edit_upstream (λ u, let? v := parse_administrative_state value in Ok (set_up_state v u)) d
  else if named key "tls_server_name" then
    edit_upstream_tls (λ t, let? v := parse_string value in
      Ok {| utd_server_name := Some v; utd_http_host := utd_http_host t;
            utd_trust_bundle_ref := utd_trust_bundle_ref t |}) d
  else if named key "upstream_http_host" then
    edit_upstream_tls (λ t, let? v := parse_string value in
      Ok {| utd_server_name := utd_server_name t; utd_http_host := Some v;
            utd_trust_bundle_ref := utd_trust_bundle_ref t |}) d
  else if named key "tls_trust_bundle_ref" then
    edit_upstream_tls (λ t, let? v := parse_string value in
      Ok {| utd_server_name := utd_server_name t; utd_http_host := utd_http_host t;
            utd_trust_bundle_ref := Some v |}) d
  else Ok (unknown_field section key d).

Definition edit_last_route (f : Route → result AppError Route) (d : MvpConfigDraft)
  : result AppError MvpConfigDraft :=
  let? rs := update_last f (cd_routes d) in Ok (set_routes rs d).

Definition set_route_hosts (v : list HostMatch) (m : RouteMatch) : RouteMatch :=
  {| rm_hosts := v; rm_paths := rm_paths m |}.
Definition extend_route_paths (v : list PathMatch) (m : RouteMatch) : RouteMatch :=
  {| rm_hosts := rm_hosts m; rm_paths := rm_paths m ++ v |}.

(** The assignment of one key to a route; [None] for a key that is not one of a route. *)
Definition route_edit (key value : list byte) : option (Route → result AppError Route) :=
  let set f := Some (λ r : Route, f (route_id r) (route_match r) (route_service_id r)
    (route_priority r) (route_enabled r) (route_redirect_http_to_https r)
    (route_certificate_resolver_id r) (route_certificate_ref r)) in
  if named key "name" then
    set (λ _ m s p e h c cr, let? v := parse_string value in Ok (Build_Route v m s p e h c cr))
  else if named key "hosts" then
    set (λ i m s p e h c cr, let? v := parse_string_array value in
           Ok (Build_Route i (set_route_hosts (HostMatch_exact <$> v) m) s p e h c cr))
  else if named key "paths" then
    set (λ i m s p e h c cr, let? v := parse_string_array value in
           Ok (Build_Route i (extend_route_paths (PathMatch_prefix <$> v) m) s p e h c cr))
  else if named key "exact_paths" then
    set (λ i m s p e h c cr, let? v := parse_string_array value in
           Ok (Build_Route i (extend_route_paths (PathMatch_exact <$> v) m) s p e h c cr))
  else if named key "service" then
    set (λ i m _ p e h c cr, let? v := parse_string value in Ok (Build_Route i m v p e h c cr))
  else if named key "priority" then
    set (λ i m s _ e h c cr, let? v := parse_i32 value in Ok (Build_Route i m s v e h c cr))
  else if named key "enabled" then
    set (λ i m s p _ h c cr, let? v := parse_bool value in Ok (Build_Route i m s p v h c cr))
  else if named key "redirect_http_to_https" then
    set (λ i m s p e _ c cr, let? v := parse_bool value in Ok (Build_Route i m s p e v c cr))
  else if named key "certificate_ref" then
    set (λ i m s p e h c _, let? v := parse_string value in Ok (Build_Route i m s p e h c (Some v)))
  else None.

Definition apply_route_value (section key value : list byte) (d : MvpConfigDraft)
  : result AppError MvpConfigDraft :=
  match route_edit key value with
  | Some f => edit_last_route f d
  | None => Ok (unknown_field section key d)
  end.

Definition apply_runtime_value (section key value : list byte) (d : MvpConfigDraft)
  : result AppError MvpConfigDraft :=
  if named key "max_connections" then
    let? v := parse_usize value in Ok (set_max_connections (Some v) d)
  else if named key "max_inflight_payload_bytes" then
    let? v := parse_usize value in Ok (set_max_inflight_payload_bytes (Some v) d)
  else if named key "upstream_read_timeout_ms" then
    let? v := parse_u64 value in Ok (set_upstream_read_timeout_ms (Some v) d)
  else Ok (unknown_field section key d).

Definition apply_metrics_value (section key value : list byte) (d : MvpConfigDraft)
  : result AppError MvpConfigDraft :=
  if named key "enabled" then
    let? v := parse_bool value in Ok (set_metrics_enabled (Some v) d)
  else if named key "bind" then
    let? v := parse_string value in Ok (set_metrics_bind (Some v) d)
  else Ok (unknown_field section key d).

Definition apply_mvp_config_value (d : MvpConfigDraft) (section key value : list byte)
  : result AppError MvpConfigDraft :=
  if named section "" && named key "schema_version" then
    let? v := parse_u32 value in Ok (set_schema_version (Some v) d)
  else if named section "admin" && named key "bind" then
    let? v := parse_string value in Ok (set_admin_bind (Some v) d)
  else if named section "admin" && named key "enabled" then Ok d
  else if named section "logging" && named key "mode" then
    let? v := parse_string value in
    let? v := from_validation (LogMode_from_str v) in
    Ok (set_log_mode (Some v) d)
  else if named section "storage" && named key "data_dir" then Ok d
  else if named section "runtime" then apply_runtime_value section key value d
  else if named section "metrics" then apply_metrics_value section key value d
  else if named section "listeners" then apply_listener_value section key value d
  else if named section "services" then apply_service_value section key value d
  else if named section "services.health_check" then
    apply_health_check_value section key value d
  else if named section "services.retry" then apply_retry_value section key value d
  else if named section "services.passive_health" then apply_passive_value section key value d
  else if named section "services.upstreams" then apply_upstream_value section key value d
  else if named section "routes" then apply_route_value section key value d
  else Ok (unknown_field section key d).

(** ** Section headers *)
Definition new_listener : Listener :=
  {| listener_id := []; listener_bind := []; listener_protocol := ProtocolHttp;
     listener_client_auth := ClientAuthDisabled |}.
Definition new_service : Service :=
  {| svc_id := []; svc_upstreams := []; svc_policy := ServicePolicy_default |}.
Definition new_upstream : Upstream :=
  {| up_id := []; up_url := []; up_administrative_state := AdminActive; up_tls := TlsDisabled |}.
Definition new_route : Route :=
  {| route_id := []; route_match := {| rm_hosts := []; rm_paths := [] |}; route_service_id := [];
     route_priority := 0; route_enabled := true; route_redirect_http_to_https := false;
     route_certificate_resolver_id := None; route_certificate_ref := None |}.

Definition leave_service (d : MvpConfigDraft) : MvpConfigDraft :=
  set_current_upstream None (set_current_service None d).

(** [[name]] *)
Definition open_array_section (section : list byte) (d : MvpConfigDraft)
  : result AppError MvpConfigDraft :=
  if named section "listeners" then
    Ok (leave_service (set_listeners (cd_listeners d ++ [new_listener]) d))
  else if named section "services" then
    let d := set_services (cd_services d ++ [new_service]) d in
    Ok (set_current_upstream None
          (set_current_service (Some (length (cd_services d) - 1)%nat) d))
  else if named section "services.upstreams" then
    match cd_current_service d with
    | None => Err (AppError_new ConfigServiceWithoutUpstream "upstream declared before service")
    | Some i =>
        match cd_services d !! i with
        | None => Err index_panic
        | Some s =>
            let us := svc_upstreams s ++ [new_upstream] in
            Ok (set_current_upstream (Some (i, (length us - 1)%nat))
                  (set_services (<[i := set_svc_upstreams us s]> (cd_services d)) d))
        end
    end
  else if named section "routes" then
    Ok (leave_service (set_routes (cd_routes d ++ [new_route]) d))
  else
    let d := set_current_upstream None d in
    Ok (set_unknown_fields (cd_unknown_fields d ++ [section]) d).

(** [BTreeMap::entry(i).or_default()] *)
Definition or_default {A} (dflt : A) (i : nat) (m : gmap nat A) : gmap nat A :=
  <[i := default dflt (m !! i)]> m.

(** [name] *)
Definition open_table_section (section : list byte) (d : MvpConfigDraft)
  : result AppError MvpConfigDraft :=
  let d := set_current_upstream None d in
  if named section "services.health_check" || named section "services.retry"
     || named section "services.passive_health"
  then
    match cd_current_service d with
    | None => Err (AppError_new ConfigServiceWithoutUpstream "health check declared before service")
    | Some i =>
        if named section "services.health_check" then
          Ok (set_health_checks (or_default HttpHealthCheckDraft_default i (cd_health_checks d)) d)
        else if named section "services.retry" then
          Ok (set_retry_policies (or_default RetryPolicyDraft_default i (cd_retry_policies d)) d)
        else
          Ok (set_passive_health_policies
                (or_default PassiveHealthPolicyDraft_default i (cd_passive_health_policies d)) d)
    end
  else Ok (set_current_service None d).

(** ** Lines *)
Definition parse_line (raw_line : list byte) (section : list byte) (d : MvpConfigDraft)
  : result AppError (list byte * MvpConfigDraft) :=
  let line := trim raw_line in
  if bool_decide (line = []) || starts_with [HASH] line then Ok (section, d)
  else if starts_with [LBRACKET; LBRACKET] line && ends_with [RBRACKET; RBRACKET] line then
    let section := trim (trim_pairs LBRACKET RBRACKET line) in
    let? d := open_array_section section d in Ok (section, d)
  else if starts_with [LBRACKET] line && ends_with [RBRACKET] line then
    let section := trim (trim_matches LBRACKET RBRACKET line) in
    let? d := open_table_section section d in Ok (section, d)
  else
    match split_once EQUALS line with
    | None => Err (expected "malformed config line: " line)
    | Some (key, value) =>
        let? d := apply_mvp_config_value d section (trim key) (trim value) in Ok (section, d)
    end.

Fixpoint parse_lines (ls : list (list byte)) (section : list byte) (d : MvpConfigDraft)
  : result AppError (list byte * MvpConfigDraft) :=
  match ls with
  | [] => Ok (section, d)
  | raw_line :: rest =>
      let? (section, d) := parse_line raw_line section d in
      parse_lines rest section d
  end.

(** ** Normalisation *)
Fixpoint try_imap {A B} (f : nat → A → result AppError B) (i : nat) (l : list A)
  : result AppError (list B) :=
  match l with
  | [] => Ok []
  | x :: l =>
      let? y := f i x in
      let? ys := try_imap f (S i) l in
      Ok (y :: ys)
  end.

Definition normalize_listener (schema_version : N) (drafts : gmap nat ListenerTlsDraft)
    (index : nat) (listener : Listener) : result AppError Listener :=
  let policy := default ListenerTlsDraft_default (drafts !! index) in
  let? auth := from_validation
    (normalize_client_auth_policy schema_version (listener_protocol listener)
       (ltd_client_auth policy) (ltd_trust_bundle_ref policy)) in
  Ok (set_listener_client_auth auth listener).

Definition normalize_upstream (schema_version : N) (drafts : gmap (nat * nat) UpstreamTlsDraft)
    (service_index upstream_index : nat) (upstream : Upstream) : result AppError Upstream :=
  let policy := default UpstreamTlsDraft_default (drafts !! (service_index, upstream_index)) in
  let? n := from_validation
    (normalize_upstream_tls_policy schema_version (up_url upstream) (utd_server_name policy)
       (utd_http_host policy) (utd_trust_bundle_ref policy)) in
  Ok (set_up_tls (nup_tls n) upstream).

Definition normalize_service_tls (schema_version : N)
    (drafts : gmap (nat * nat) UpstreamTlsDraft) (service_index : nat) (service : Service)
  : result AppError Service :=
  let? us := try_imap (normalize_upstream schema_version drafts service_index) 0
               (svc_upstreams service) in
  Ok (set_svc_upstreams us service).

Definition normalize_service_ids (service : Service) : result AppError Service :=
  let service :=
    match svc_upstreams service with
    | [u] => if bool_decide (up_id u = [])
             then set_svc_upstreams [set_up_id (svc_id service ++ lit "-primary") u] service
             else service
    | _ => service
    end in
  if (1 <? len (svc_upstreams service))
     && existsb (λ u, bool_decide (up_id u = [])) (svc_upstreams service)
  then Err (AppError_new ConfigUpstreamIdRequired
              (text (lit "service " ++ svc_id service
                     ++ lit " has multiple upstreams without explicit names")))
  else Ok service.
Definition normalize_upstream_ids (services : list Service) : result AppError (list Service) :=
  try_imap (λ _, normalize_service_ids) 0 services.

(** The keys of a [BTreeMap<usize, _>] in order. *)
Definition indices {A} (m : gmap nat A) : list nat := merge_sort le (map_to_list m).*1.

(** A loop over a map from positions to drafts that updates the services in place. *)
Fixpoint update_indexed {A} (missing : string) (f : A → Service → result AppError Service)
    (m : gmap nat A) (keys : list nat) (services : list Service)
  : result AppError (list Service) :=
  match keys with
  | [] => Ok services
  | i :: keys =>
      match services !! i, m !! i with
      | Some service, Some draft =>
          let? service := f draft service in
          update_indexed missing f m keys (<[i := service]> services)
      | None, _ => Err (AppError_new InternalBug missing)
      | _, None => update_indexed missing f m keys services
      end
  end.

Definition normalize_health_check (draft : HttpHealthCheckDraft) (service : Service)
  : result AppError Service :=
  if negb (default false (hcd_enabled draft))
  then Ok (set_svc_policy (set_health_check HealthDisabled (svc_policy service)) service)
  else
    let defaults := HttpHealthCheckPolicy_default in
    let? policy := from_validation (HttpHealthCheckPolicy_new
      (default (hc_path defaults) (hcd_path draft))
      (default (hc_interval_ms defaults) (hcd_interval_ms draft))
      (default (hc_timeout_ms defaults) (hcd_timeout_ms draft))
      (default (hc_healthy_threshold defaults) (hcd_healthy_threshold draft))
      (default (hc_unhealthy_threshold defaults) (hcd_unhealthy_threshold draft))
      (default (hc_status_min defaults) (hcd_status_min draft))
      (default (hc_status_max defaults) (hcd_status_max draft))) in
    Ok (set_svc_policy (set_health_check (HealthHttp policy) (svc_policy service)) service).

Definition normalize_service_policies (services : list Service)
    (health_checks : gmap nat HttpHealthCheckDraft) : result AppError (list Service) :=
  update_indexed "health-check draft references a missing service" normalize_health_check
    health_checks (indices health_checks) services.

Definition normalize_retry (draft : RetryPolicyDraft) (service : Service)
  : result AppError Service :=
  let defaults := RetryPolicy_default in
  let? policy := from_validation (RetryPolicy_new
    (default false (rpd_enabled draft))
    (default (retry_max_retries defaults) (rpd_max_retries draft))
    (default (retry_max_replay_bytes defaults) (rpd_max_replay_bytes draft))) in
  Ok (set_svc_policy (set_retry policy (svc_policy service)) service).

Definition normalize_passive (draft : PassiveHealthPolicyDraft) (service : Service)
  : result AppError Service :=
  if default false (phd_enabled draft) then
    let? policy := from_validation (PassiveHealthPolicy_new
      (default 3 (phd_failure_threshold draft)) (default 30000 (phd_ejection_ms draft))) in
    Ok (set_svc_policy (set_passive_health (PassiveModeEnabled policy) (svc_policy service))
          service)
  else Ok service.

Definition normalize_failure_policies (services : list Service)
    (retries : gmap nat RetryPolicyDraft) (passive : gmap nat PassiveHealthPolicyDraft)
  : result AppError (list Service) :=
  let? services := update_indexed "retry draft references missing service" normalize_retry
                     retries (indices retries) services in
  update_indexed "passive health draft references missing service" normalize_passive
    passive (indices passive) services.

Record ConfigSource := {
  cs_snapshot : ConfigSnapshot;
  cs_schema_version_present : bool;
  cs_unknown_fields : list (list byte)
}.

Definition DEFAULT_METRICS_BIND : list byte := lit "127.0.0.1:9464".
Definition DEFAULT_ADMIN_BIND : list byte := lit "127.0.0.1:9443".

Definition finish_draft (revision_id : list byte) (d : MvpConfigDraft)
  : result AppError ConfigSource :=
  let schema_version := default 0 (cd_schema_version d) in
  let? listeners := try_imap (normalize_listener schema_version (cd_listener_tls d)) 0
                      (cd_listeners d) in
  let? services := try_imap (normalize_service_tls schema_version (cd_upstream_tls d)) 0
                     (cd_services d) in
  let? services := normalize_upstream_ids services in
  let? services := normalize_service_policies services (cd_health_checks d) in
  let? services := normalize_failure_policies services (cd_retry_policies d)
                     (cd_passive_health_policies d) in
  Ok {| cs_snapshot :=
          {| snap_schema_version := schema_version;
             snap_revision_id := revision_id;
             snap_admin := {| admin_bind := default DEFAULT_ADMIN_BIND (cd_admin_bind d);
                              admin_auth_required := true |};
             snap_listeners := listeners;
             snap_routes := cd_routes d;
             snap_services := services;
             snap_certificate_resolvers := [];
             snap_log_mode := default LogProduct (cd_log_mode d);
             snap_runtime :=
               {| opt_max_connections := default DEFAULT_MAX_CONNECTIONS (cd_max_connections d);
                  opt_max_inflight_payload_bytes :=
                    default DEFAULT_MAX_INFLIGHT_PAYLOAD_BYTES (cd_max_inflight_payload_bytes d);
                  opt_max_request_header_bytes := FIXED_REQUEST_HEADER_RESERVE_BYTES;
                  opt_max_request_body_bytes := DEFAULT_MAX_REQUEST_BODY_BYTES;
                  opt_upstream_read_timeout_ms :=
                    default DEFAULT_UPSTREAM_READ_TIMEOUT_MS (cd_upstream_read_timeout_ms d);
                  opt_metrics :=
                    {| metrics_enabled := default false (cd_metrics_enabled d);
                       metrics_bind := default DEFAULT_METRICS_BIND (cd_metrics_bind d) |} |} |};
        cs_schema_version_present := bool_decide (is_Some (cd_schema_version d));
        cs_unknown_fields := cd_unknown_fields d |}.

Definition parse_mvp_config (source revision_id : list byte) : result AppError ConfigSource :=
  let? (_, d) := parse_lines (str_lines source) [] MvpConfigDraft_default in
  finish_draft revision_id d.
