(* ===== verification/ConfigDraft.v ===== *)
(** * The invariant of the configuration parser

    What holds of the draft after every line: the positions it remembers exist, the strings it
    holds fit in one line, the numbers have their width.  From it: the parser never panics and
    never reaches one of its internal errors. *)

From stdpp Require Import base gmap strings list sorting.
From Stdlib Require Import Strings.Byte NArith ZArith Lia.
From S2P Require Import Prelude Errors RustStr Resource Endpoint UpstreamPolicy Snapshot ConfigParser.
Local Open Scope N_scope.

(** ** Strings of a line *)
Definition clean (l : list byte) : Prop := LF ∉ l.
Definition opt_clean (o : option (list byte)) : Prop := ∀ l, o = Some l → clean l.
Definition item (l : list byte) : Prop := clean l ∧ COMMA_BYTE ∉ l.

Lemma infix_subseteq k l : infix k l → k ⊆ l.
Proof. intros (a & b & ->) x. set_solver. Qed.
Lemma trim_subseteq l : trim l ⊆ l.
Proof. apply infix_subseteq, trim_infix. Qed.
Lemma drop_while_byte_subseteq c l : drop_while_byte c l ⊆ l.
Proof. induction l as [|b l IH]; simpl; [done|]. case_bool_decide; set_solver. Qed.
Lemma trim_end_matches_subseteq c l : trim_end_matches c l ⊆ l.
Proof.
  intros x. unfold trim_end_matches. rewrite elem_of_rev.
  intros Hx. apply (drop_while_byte_subseteq c (rev l)) in Hx. by rewrite elem_of_rev in Hx.
Qed.
Lemma inner_subseteq l : inner l ⊆ l.
Proof. etrans; [apply subseteq_take|apply subseteq_drop]. Qed.
Lemma split_byte_subseteq c l : Forall (λ w, w ⊆ l ∧ c ∉ w) (split_byte c l).
Proof.
  unfold split_byte, split_str. induction l as [|b l IH]; simpl.
  - constructor; [set_solver|done].
  - assert (IH' : Forall (λ w, w ⊆ b :: l ∧ c ∉ w) (split_go [c] 0 l))
      by (eapply Forall_impl; [exact IH|]; set_solver).
    case_bool_decide as Hb; simpl; [constructor; [set_solver|done]|].
    destruct (split_go [c] 0 l) as [|w ws]; simpl;
      [constructor; [set_solver|done]|inversion_clear IH'; constructor; set_solver].
Qed.
Lemma lower_byte_fixed c b :
  is_ascii_lower c = false → is_ascii_upper c = false → lower_byte b = c → b = c.
Proof. intros H1 H2 <-. revert H1 H2. by destruct b. Qed.
Lemma lower_lacks c l :
  is_ascii_lower c = false → is_ascii_upper c = false → c ∉ l → c ∉ to_ascii_lowercase l.
Proof.
  intros H1 H2 Hl (b & Heq & Hb)%list_elem_of_fmap. apply Hl.
  by rewrite <- (lower_byte_fixed c b H1 H2 (eq_sym Heq)).
Qed.

Lemma clean_nil : clean [].
Proof. apply not_elem_of_nil. Qed.
Lemma clean_mono k l : k ⊆ l → clean l → clean k.
Proof. unfold clean. set_solver. Qed.
Lemma item_mono k l : k ⊆ l → item l → item k.
Proof. unfold item, clean. set_solver. Qed.
Lemma normalize_host_item l : item l → item (normalize_host l).
Proof.
  intros Hl. unfold normalize_host.
  assert (Hi : item (trim_end_matches DOT (trim l))).
  { eapply item_mono; [|done]. etrans; [apply trim_end_matches_subseteq|apply trim_subseteq]. }
  destruct Hi. by split; apply lower_lacks.
Qed.
Lemma normalize_path_item l : item l → item (normalize_path l).
Proof.
  intros Hl. unfold normalize_path. cbv zeta.
  set (w := if bool_decide (trim l = []) then _ else _).
  assert (Hw : item w).
  { assert (Ht : item (trim l)) by (eapply item_mono; [apply trim_subseteq|done]).
    assert (Hs : LF ≠ SLASH ∧ COMMA_BYTE ≠ SLASH) by done. unfold w, item, clean in *.
    repeat case_match; set_solver. }
  case_match; [|done]. eapply item_mono; [apply trim_end_matches_subseteq|done].
Qed.

(** ** Outcomes

    [safe P r]: a value satisfies [P], and an error is not one that only a bug can raise. *)
Definition safe {A} (P : A → Prop) (r : result AppError A) : Prop :=
  match r with Ok a => P a | Err e => app_code e ≠ InternalBug end.

Lemma safe_bind {A B} (P : A → Prop) (Q : B → Prop) (m : result AppError A) k :
  safe P m → (∀ a, P a → safe Q (k a)) → safe Q (let? a := m in k a).
Proof. destruct m; simpl; auto. Qed.

Lemma safe_impl {A} (P Q : A → Prop) (r : result AppError A) :
  (∀ a, P a → Q a) → safe P r → safe Q r.
Proof. destruct r; simpl; auto. Qed.

Lemma safe_validation {A} (P : A → Prop) (r : result ValidationError A) :
  match r with Ok a => P a | Err e => val_code e ≠ InternalBug end → safe P (from_validation r).
Proof. by destruct r. Qed.

(** ** Scalars *)
Lemma parse_string_safe v : safe (λ s, s ⊆ v) (parse_string v).
Proof.
  unfold parse_string. case_match; simpl; [|done].
  etrans; [apply inner_subseteq|apply trim_subseteq].
Qed.
Lemma parse_clean_string v : clean v → safe clean (parse_string v).
Proof. intros Hv. eapply safe_impl; [|apply parse_string_safe]. intros s Hs. eapply clean_mono; [exact Hs|done]. Qed.

Lemma parse_strings_safe items : Forall item items → safe (Forall item) (parse_strings items).
Proof.
  induction 1 as [|x l Hx Hl IH]; simpl; [constructor|].
  eapply safe_bind; [apply parse_string_safe|]. intros s Hs.
  eapply safe_bind; [exact IH|]. intros ss Hss. simpl. constructor; [|done].
  eapply item_mono; [|done]. etrans; [exact Hs|apply trim_subseteq].
Qed.
Lemma parse_string_array_safe v : clean v → safe (Forall item) (parse_string_array v).
Proof.
  intros Hv. unfold parse_string_array. case_match; [done|]. cbv zeta.
  case_match; [constructor|]. apply parse_strings_safe.
  eapply Forall_impl; [apply split_byte_subseteq|]. intros w [Hw Hc]. split; [|done].
  eapply clean_mono; [|exact Hv]. etrans; [exact Hw|]. etrans; [apply trim_subseteq|].
  etrans; [apply inner_subseteq|apply trim_subseteq].
Qed.

Lemma parse_digits_bound radix mx acc l n :
  parse_digits radix mx acc l = Some n → acc ≤ mx → n ≤ mx.
Proof.
  revert acc. induction l as [|b l IH]; simpl; intros acc Hp Ha; [by simplify_eq|].
  repeat case_match; try done. eapply IH; [exact Hp|].
  by match goal with H : checked_add _ _ _ = Some _ |- _ => apply checked_add_Some in H as [-> ?] end.
Qed.
Lemma parse_uint_bound mx l n : parse_uint mx l = Some n → n ≤ mx.
Proof.
  unfold parse_uint, from_str_radix. intros H.
  repeat case_match; try done; eapply parse_digits_bound; try exact H; lia.
Qed.
Lemma parse_unsigned_safe mx what v : safe (λ n, n ≤ mx) (parse_unsigned mx what v).
Proof.
  unfold parse_unsigned, ok_or. case_match eqn:H; simpl; [|done]. by apply parse_uint_bound in H.
Qed.
Definition i32 (z : Z) : Prop := (-2147483648 ≤ z ≤ 2147483647)%Z.
Lemma parse_i32_safe v : safe i32 (parse_i32 v).
Proof.
  unfold parse_i32, ok_or. destruct (parse_signed (trim v)) as [z|] eqn:H; simpl; [|done].
  assert (Hu : ∀ l, Z.of_N <$> parse_uint 2147483647 l = Some z → i32 z).
  { intros l (n & Hn%parse_uint_bound & ->)%fmap_Some. unfold i32. lia. }
  unfold parse_signed in H. destruct (strip_prefix _ _) as [[|b t]|]; [by eapply Hu| |by eapply Hu].
  apply fmap_Some in H as (n & Hn & ->). apply parse_digits_bound in Hn; [|lia].
  unfold i32. simpl. lia.
Qed.
Lemma parse_bool_safe v : safe (λ _, True) (parse_bool v).
Proof. unfold parse_bool. by repeat case_match. Qed.
Lemma LogMode_safe v : safe (λ _, True) (from_validation (LogMode_from_str v)).
Proof. unfold LogMode_from_str. by repeat case_match. Qed.
Lemma LoadBalancing_safe v : safe (λ _, True) (from_validation (LoadBalancingPolicy_from_str v)).
Proof. unfold LoadBalancingPolicy_from_str. by repeat case_match. Qed.
Lemma protocol_safe v : safe (λ _, True) (parse_listener_protocol v).
Proof.
  unfold parse_listener_protocol. eapply safe_bind; [apply parse_string_safe|].
  intros. by repeat case_match.
Qed.
Lemma administrative_state_safe v : safe (λ _, True) (parse_administrative_state v).
Proof.
  unfold parse_administrative_state. eapply safe_bind; [apply parse_string_safe|].
  intros. by repeat case_match.
Qed.

(** ** The invariant *)
Record listener_clean (l : Listener) : Prop := {
  lc_id : clean (listener_id l);
  lc_bind : clean (listener_bind l)
}.
Record upstream_clean (u : Upstream) : Prop := {
  uc_id : clean (up_id u);
  uc_url : clean (up_url u)
}.
Record raw_service (s : Service) : Prop := {
  rs_id : clean (svc_id s);
  rs_upstreams : Forall upstream_clean (svc_upstreams s);
  rs_policy : svc_policy s = ServicePolicy_default
}.
Record route_clean (r : Route) : Prop := {
  rc_id : clean (route_id r);
  rc_service : clean (route_service_id r);
  rc_hosts : Forall (λ h, item (hm_normalized h)) (rm_hosts (route_match r));
  rc_paths : Forall (λ p, item (pm_prefix p)) (rm_paths (route_match r));
  rc_priority : i32 (route_priority r);
  rc_resolver : route_certificate_resolver_id r = None;
  rc_certificate : opt_clean (route_certificate_ref r)
}.
Definition opt_le (mx : N) (o : option N) : Prop := ∀ n, o = Some n → n ≤ mx.
Definition listener_tls_clean (t : ListenerTlsDraft) : Prop :=
  opt_clean (ltd_client_auth t) ∧ opt_clean (ltd_trust_bundle_ref t).
Definition upstream_tls_clean (t : UpstreamTlsDraft) : Prop :=
  opt_clean (utd_server_name t) ∧ opt_clean (utd_http_host t) ∧ opt_clean (utd_trust_bundle_ref t).

(** The positions of a map of drafts are positions of services. *)
Definition within {A} (n : nat) (m : gmap nat A) : Prop := ∀ i x, m !! i = Some x → (i < n)%nat.

Record draft_ok (d : MvpConfigDraft) : Prop := {
  ok_schema : opt_le U32_MAX (cd_schema_version d);
  ok_admin : opt_clean (cd_admin_bind d);
  ok_connections : opt_le USIZE_MAX (cd_max_connections d);
  ok_payload : opt_le USIZE_MAX (cd_max_inflight_payload_bytes d);
  ok_timeout : opt_le U64_MAX (cd_upstream_read_timeout_ms d);
  ok_metrics : opt_clean (cd_metrics_bind d);
  ok_listeners : Forall listener_clean (cd_listeners d);
  ok_services : Forall raw_service (cd_services d);
  ok_routes : Forall route_clean (cd_routes d);
  ok_service : ∀ i, cd_current_service d = Some i → (i < length (cd_services d))%nat;
  ok_upstream : ∀ i j, cd_current_upstream d = Some (i, j) →
    ∃ s, cd_services d !! i = Some s ∧ (j < length (svc_upstreams s))%nat;
  ok_health : within (length (cd_services d)) (cd_health_checks d);
  ok_health_path : ∀ i h, cd_health_checks d !! i = Some h → opt_clean (hcd_path h);
  ok_retry : within (length (cd_services d)) (cd_retry_policies d);
  ok_passive : within (length (cd_services d)) (cd_passive_health_policies d);
  ok_listener_tls : ∀ i t, cd_listener_tls d !! i = Some t → listener_tls_clean t;
  ok_upstream_tls : ∀ i t, cd_upstream_tls d !! i = Some t → upstream_tls_clean t
}.

(** Proves the invariant of a draft with one field changed, up to what is said of that field. *)
Ltac keep_ok := match goal with
  | H : draft_ok ?d |- draft_ok _ => destruct H; constructor; cbn in *; try assumption
  end.

(** Splits on the key of an assignment. *)
Ltac by_key := repeat match goal with |- safe _ (if ?b then _ else _) => destruct b end.

Lemma draft_ok_default : draft_ok MvpConfigDraft_default.
Proof. constructor; cbn; try done; intros ??; try intros ?; rewrite ?lookup_empty; done. Qed.

Lemma opt_clean_Some l : clean l → opt_clean (Some l).
Proof. by intros H k [= <-]. Qed.
Lemma opt_le_Some mx n : n ≤ mx → opt_le mx (Some n).
Proof. by intros H k [= <-]. Qed.
#[export] Hint Resolve opt_clean_Some opt_le_Some : edge.

(** ** Positions *)
Lemma update_at_safe {A} (P : A → Prop) i f (l : list A) :
  (i < length l)%nat → Forall P l → (∀ x, P x → safe P (f x)) →
  safe (λ l', Forall P l' ∧ length l' = length l) (update_at i f l).
Proof.
  intros Hi Hl Hf. unfold update_at. apply lookup_lt_is_Some in Hi as [x Hx]. rewrite Hx.
  eapply safe_bind; [eapply Hf, Forall_lookup_1; done|]. intros y Hy. simpl.
  split; [by apply Forall_insert|by rewrite length_insert].
Qed.
Lemma update_last_safe {A} (P : A → Prop) f (l : list A) :
  Forall P l → (∀ x, P x → safe P (f x)) → safe (Forall P) (update_last f l).
Proof.
  intros Hl Hf. destruct l as [|a l]; [done|]. unfold update_last.
  eapply safe_impl; [|by eapply update_at_safe; [simpl; lia|..]]. by intros ? [? ?].
Qed.
Lemma within_insert {A} n i x (m : gmap nat A) : (i < n)%nat → within n m → within n (<[i := x]> m).
Proof. intros Hi Hm j y [[<- _]|[_ ?]]%lookup_insert_Some; [done|by eapply Hm]. Qed.
Lemma within_mono {A} n k (m : gmap nat A) : (n ≤ k)%nat → within n m → within k m.
Proof. intros Hnk Hm i x Hx%Hm. lia. Qed.

(** ** Sections *)
Lemma edit_last_listener_safe f d :
  draft_ok d → (∀ l, listener_clean l → safe listener_clean (f l)) →
  safe draft_ok (edit_last_listener f d).
Proof.
  intros Hd Hf. unfold edit_last_listener.
  eapply safe_bind; [by apply update_last_safe, Hf; destruct Hd|]. intros ls Hls. simpl. keep_ok.
Qed.
Lemma edit_listener_tls_safe f d :
  draft_ok d → (∀ t, listener_tls_clean t → safe listener_tls_clean (f t)) →
  safe draft_ok (edit_listener_tls f d).
Proof.
  intros Hd Hf. unfold edit_listener_tls. destruct (cd_listeners d) eqn:Hl; [done|].
  cbv zeta. eapply safe_bind.
  - apply Hf. destruct (cd_listener_tls d !! _) as [t|] eqn:Ht; simpl; [|done].
    eapply ok_listener_tls; [exact Hd|exact Ht].
  - intros t Ht. simpl. keep_ok.
    intros i t' [[_ <-]|[_ ?]]%lookup_insert_Some; eauto.
Qed.
Lemma apply_listener_value_safe section key value d :
  draft_ok d → clean value → safe draft_ok (apply_listener_value section key value d).
Proof.
  intros Hd Hv. unfold apply_listener_value. by_key; [..|simpl; keep_ok].
  all: first [apply edit_last_listener_safe|apply edit_listener_tls_safe]; [done|].
  all: intros l [? ?]; (eapply safe_bind;
    [first [by apply parse_clean_string|apply protocol_safe]|]).
  all: intros v Hc; simpl; split; simpl; auto with edge.
Qed.

Lemma edit_service_safe i f d :
  draft_ok d → (i < length (cd_services d))%nat →
  (∀ s, cd_services d !! i = Some s → raw_service s →
     safe (λ s', raw_service s' ∧ length (svc_upstreams s') = length (svc_upstreams s)) (f s)) →
  safe draft_ok (edit_service i f d).
Proof.
  intros Hd Hi Hf. unfold edit_service, update_at.
  apply lookup_lt_is_Some in Hi as [s Hs]. rewrite Hs.
  assert (Hrs : raw_service s) by (eapply Forall_lookup_1; [apply Hd|done]).
  specialize (Hf s Hs Hrs). destruct (f s) as [s'|e]; [|done]. destruct Hf as [Hs' Hlen]. simpl.
  keep_ok; rewrite ?length_insert; try done; [by apply Forall_insert|].
  intros i' j Hij. destruct (ok_upstream0 i' j Hij) as (s0 & Hs0 & Hj).
  destruct (decide (i' = i)) as [->|Hne].
  - exists s'. rewrite list_lookup_insert_eq by (by eapply lookup_lt_Some). simplify_eq. by rewrite Hlen.
  - exists s0. by rewrite list_lookup_insert_ne.
Qed.
Lemma apply_service_value_safe section key value d :
  draft_ok d → clean value → safe draft_ok (apply_service_value section key value d).
Proof.
  intros Hd Hv. unfold apply_service_value. by_key; [..|simpl; keep_ok].
  all: destruct (cd_current_service d) as [i|] eqn:Hi; [|done].
  all: apply edit_service_safe; [done|by apply Hd|]; intros s _ [H1 H2 H3].
  - eapply safe_bind; [by apply parse_clean_string|]. by intros v Hc.
  - eapply safe_bind; [by apply parse_clean_string|]. intros v Hc.
    eapply safe_bind; [apply LoadBalancing_safe|]. intros []. by split; [split; simpl; [..|rewrite H3]|].
Qed.

Lemma apply_health_check_key_safe key value h :
  clean value → opt_clean (hcd_path h) →
  safe (λ o, ∀ h', o = Some h' → opt_clean (hcd_path h')) (apply_health_check_key key value h).
Proof.
  intros Hv Hh. destruct h as [e p i t ht ut lo hi]. unfold apply_health_check_key. by_key.
  all: try (eapply safe_bind; [first [apply parse_unsigned_safe|apply parse_bool_safe]|];
            intros v _; by intros h' [= <-]).
  - eapply safe_bind; [by apply parse_clean_string|]. intros v Hc h' [= <-]. simpl. auto with edge.
  - done.
Qed.
Lemma apply_retry_key_safe key value p : safe (λ _, True) (apply_retry_key key value p).
Proof.
  unfold apply_retry_key. by_key; [..|done].
  all: eapply safe_bind; [first [apply parse_unsigned_safe|apply parse_bool_safe]|done].
Qed.
Lemma apply_passive_key_safe key value p : safe (λ _, True) (apply_passive_key key value p).
Proof.
  unfold apply_passive_key. by_key; [..|done].
  all: eapply safe_bind; [first [apply parse_unsigned_safe|apply parse_bool_safe]|done].
Qed.

Lemma apply_policy_value_safe {A} (P : A → Prop) missing dflt get set apply_key section key d :
  P dflt → (∀ i x, get d !! i = Some x → P x) →
  (∀ x, P x → safe (λ o, ∀ x', o = Some x' → P x') (apply_key x)) →
  (∀ i x, cd_current_service d = Some i → P x →
     draft_ok (set (<[i := x]> (get d)) d)) →
  safe draft_ok (@apply_policy_value A missing dflt get set apply_key section key d).
Proof.
  intros Hdflt Hget Hkey Hset. unfold apply_policy_value.
  destruct (cd_current_service d) as [i|] eqn:Hi; [|done]. cbv zeta.
  assert (HP : P (default dflt (get d !! i))) by (destruct (get d !! i) eqn:?; simpl; eauto).
  eapply safe_bind; [by apply Hkey|]. intros [x|] Hx; simpl; [by apply Hset, Hx|].
  specialize (Hset i _ eq_refl HP). keep_ok.
Qed.

Lemma policy_sections_safe section key value d :
  draft_ok d → clean value →
  safe draft_ok (apply_health_check_value section key value d)
  ∧ safe draft_ok (apply_retry_value section key value d)
  ∧ safe draft_ok (apply_passive_value section key value d).
Proof.
  intros Hd Hv. split_and!.
  - apply (apply_policy_value_safe (λ h, opt_clean (hcd_path h))); [done|apply Hd|..].
    + intros. by apply apply_health_check_key_safe.
    + intros i x Hi Hx. keep_ok; [by apply within_insert; auto|].
      intros j h [[_ <-]|[_ ?]]%lookup_insert_Some; eauto.
  - apply (apply_policy_value_safe (λ _, True)); [done..| |].
    + intros. eapply safe_impl; [|apply apply_retry_key_safe]. done.
    + intros i x Hi _. keep_ok. apply within_insert; auto.
  - apply (apply_policy_value_safe (λ _, True)); [done..| |].
    + intros. eapply safe_impl; [|apply apply_passive_key_safe]. done.
    + intros i x Hi _. keep_ok. apply within_insert; auto.
Qed.

Lemma edit_upstream_safe f d :
  draft_ok d → (∀ u, upstream_clean u → safe upstream_clean (f u)) →
  safe draft_ok (edit_upstream f d).
Proof.
  intros Hd Hf. unfold edit_upstream. destruct (cd_current_upstream d) as [[i j]|] eqn:Hij; [|done].
  destruct (ok_upstream d Hd i j Hij) as (s & Hs & Hj).
  apply edit_service_safe; [done|by eapply lookup_lt_Some|].
  intros s' Hs' [H1 H2 H3]. simplify_eq.
  eapply safe_bind; [by apply (update_at_safe upstream_clean)|]. by intros us [Hus Hlen].
Qed.
Lemma edit_upstream_tls_safe f d :
  draft_ok d → (∀ t, upstream_tls_clean t → safe upstream_tls_clean (f t)) →
  safe draft_ok (edit_upstream_tls f d).
Proof.
  intros Hd Hf. unfold edit_upstream_tls. destruct (cd_current_upstream d) as [ij|]; [|done].
  eapply safe_bind.
  - apply Hf. destruct (cd_upstream_tls d !! _) as [t|] eqn:Ht; simpl; [|done].
    eapply ok_upstream_tls; [exact Hd|exact Ht].
  - intros t Ht. simpl. keep_ok.
    intros i t' [[_ <-]|[_ ?]]%lookup_insert_Some; eauto.
Qed.
Lemma apply_upstream_value_safe section key value d :
  draft_ok d → clean value → safe draft_ok (apply_upstream_value section key value d).
Proof.
  intros Hd Hv. unfold apply_upstream_value. by_key; [..|simpl; keep_ok].
  all: first [apply edit_upstream_safe|apply edit_upstream_tls_safe]; [done|].
  all: intros l []; (eapply safe_bind;
    [first [by apply parse_clean_string|apply administrative_state_safe]|]).
  all: intros v Hc; simpl; repeat split; simpl; try apply opt_clean_Some; naive_solver.
Qed.

Lemma apply_route_value_safe section key value d :
  draft_ok d → clean value → safe draft_ok (apply_route_value section key value d).
Proof.
  intros Hd Hv. unfold apply_route_value.
  destruct (route_edit key value) as [f|] eqn:Hf; [|simpl; keep_ok].
  unfold edit_last_route. eapply safe_bind.
  - apply (update_last_safe route_clean); [apply Hd|]. intros r [].
    unfold route_edit in Hf. cbv zeta in Hf.
    repeat match type of Hf with (if ?b then _ else _) = _ => destruct b end; simplify_eq.
    all: eapply safe_bind; [first [by apply parse_clean_string|by apply parse_string_array_safe
      |apply parse_i32_safe|apply parse_bool_safe]|].
    all: intros v Hc; simpl; constructor; simpl; try done.
    + apply Forall_fmap. eapply Forall_impl; [exact Hc|]. intros h Hh. by apply normalize_host_item.
    + apply Forall_app. split; [done|]. apply Forall_fmap. eapply Forall_impl; [exact Hc|].
      intros h Hh. by apply normalize_path_item.
    + apply Forall_app. split; [done|]. apply Forall_fmap. eapply Forall_impl; [exact Hc|].
      intros h Hh. by apply normalize_path_item.
    + auto with edge.
  - intros rs Hrs. simpl. keep_ok.
Qed.

Lemma apply_mvp_config_value_safe d section key value :
  draft_ok d → clean value → safe draft_ok (apply_mvp_config_value d section key value).
Proof.
  intros Hd Hv. destruct (policy_sections_safe section key value d Hd Hv) as (H1 & H2 & H3).
  unfold apply_mvp_config_value, apply_runtime_value, apply_metrics_value. by_key; try done.
  all: eauto using apply_listener_value_safe, apply_service_value_safe, apply_upstream_value_safe,
    apply_route_value_safe.
  all: try (eapply safe_bind; [first [apply parse_unsigned_safe|apply parse_bool_safe
    |by apply parse_clean_string]|]; intros v Hc).
  all: try (simpl; keep_ok; auto with edge; fail).
  eapply safe_bind; [apply LogMode_safe|]. intros m _. simpl. keep_ok.
Qed.

(** ** Section headers *)
Lemma leave_service_ok d : draft_ok d → draft_ok (leave_service d).
Proof. intros Hd. keep_ok; done. Qed.

Lemma push_service_ok d s :
  draft_ok d → raw_service s → draft_ok (set_services (cd_services d ++ [s]) d).
Proof.
  intros Hd Hs. keep_ok.
  - by apply Forall_app_2; [|constructor].
  - intros i Hi. rewrite length_app. simpl. specialize (ok_service0 i Hi). lia.
  - intros i j Hij. destruct (ok_upstream0 i j Hij) as (s' & Hs' & Hj).
    exists s'. split; [by apply lookup_app_l_Some|done].
  - eapply within_mono; [|done]. rewrite length_app. simpl. lia.
  - eapply within_mono; [|done]. rewrite length_app. simpl. lia.
  - eapply within_mono; [|done]. rewrite length_app. simpl. lia.
Qed.

Lemma open_array_section_safe section d :
  draft_ok d → safe draft_ok (open_array_section section d).
Proof.
  intros Hd. unfold open_array_section. by_key.
  - apply leave_service_ok. keep_ok. apply Forall_app_2; [done|]. constructor; [|done].
    split; apply clean_nil.
  - cbv zeta. simpl. assert (Hs : draft_ok (set_services (cd_services d ++ [new_service]) d)).
    { apply push_service_ok; [done|]. constructor; [apply clean_nil|constructor|done]. }
    clear Hd. keep_ok; [|done]. intros i [= <-]. rewrite length_app. simpl. lia.
  - destruct (cd_current_service d) as [i|] eqn:Hi; [|done].
    pose proof (ok_service d Hd i Hi) as Hlt. apply lookup_lt_is_Some in Hlt as [s Hs]. rewrite Hs.
    cbv zeta. simpl. set (us := svc_upstreams s ++ [new_upstream]).
    assert (Hrs : raw_service s) by (eapply Forall_lookup_1; [apply Hd|done]).
    keep_ok; rewrite ?length_insert; try done.
    + apply Forall_insert; [done|]. destruct Hrs. constructor; simpl; [done| |done].
      apply Forall_app_2; [done|]. constructor; [|done]. split; apply clean_nil.
    + intros i' j [= <- <-]. exists (set_svc_upstreams us s). split.
      * apply list_lookup_insert_eq. by eapply lookup_lt_Some.
      * simpl. unfold us. rewrite length_app. simpl. lia.
  - apply leave_service_ok. keep_ok. apply Forall_app_2; [done|]. constructor; [|done].
    constructor; simpl; try done; apply clean_nil.
  - cbv zeta. simpl. keep_ok; done.
Qed.

Lemma open_table_section_safe section d :
  draft_ok d → safe draft_ok (open_table_section section d).
Proof.
  intros Hd. unfold open_table_section. cbv zeta. by_key; [|simpl; keep_ok; done].
  simpl. destruct (cd_current_service d) as [i|] eqn:Hi; [|done].
  by_key; simpl; keep_ok; try done; unfold or_default.
  - apply within_insert; [by apply ok_service0|done].
  - intros j h [[_ <-]|[_ ?]]%lookup_insert_Some; [|by eauto].
    destruct (cd_health_checks d !! i) eqn:Hh; simpl; [by eauto|done].
  - apply within_insert; [by apply ok_service0|done].
  - apply within_insert; [by apply ok_service0|done].
Qed.

(** ** Lines *)
Lemma parse_line_safe raw section d :
  draft_ok d → clean raw → safe (λ r, draft_ok r.2) (parse_line raw section d).
Proof.
  intros Hd Hraw. unfold parse_line. cbv zeta.
  assert (Ht : clean (trim raw)) by (eapply clean_mono; [apply trim_subseteq|done]).
  by_key; [done|..].
  - eapply safe_bind; [by apply open_array_section_safe|]. done.
  - eapply safe_bind; [by apply open_table_section_safe|]. done.
  - destruct (split_once EQUALS (trim raw)) as [[k v]|] eqn:Hs; [|done].
    apply split_once_Some in Hs as [Hs _].
    eapply safe_bind; [apply apply_mvp_config_value_safe; [done|]|done].
    eapply clean_mono; [apply trim_subseteq|]. eapply clean_mono; [|exact Ht]. rewrite Hs. set_solver.
Qed.
Lemma parse_lines_safe ls section d :
  draft_ok d → Forall clean ls → safe (λ r, draft_ok r.2) (parse_lines ls section d).
Proof.
  intros Hd Hls. revert section d Hd.
  induction Hls as [|raw ls Hraw Hls IH]; intros section d Hd; simpl; [done|].
  eapply (safe_bind (λ r, draft_ok r.2)); [by apply parse_line_safe|]. intros [section' d'] Hd'.
  by apply IH.
Qed.
Lemma lines_of_clean ps : Forall clean ps → Forall clean (lines_of ps).
Proof.
  induction 1 as [|p ps Hp Hps IH]; simpl; [done|]. destruct ps as [|q ps].
  - case_bool_decide; by constructor.
  - constructor; [|exact IH]. eapply clean_mono; [|exact Hp]. unfold strip_cr, strip_suffix.
    case_match; [apply subseteq_take|done].
Qed.
Lemma str_lines_clean source : Forall clean (str_lines source).
Proof.
  apply lines_of_clean. eapply Forall_impl; [apply split_byte_subseteq|]. by intros w [_ ?].
Qed.

(** ** What the parser delivers

    [snapshot_ok s]: every string of the snapshot fits in a line, every number has its width,
    names of upstreams are given, and every policy is in its normal form: normalising it again,
    from the fields it is written with, gives it back. *)
Definition auth_fields (a : ClientAuthPolicy) : ListenerTlsDraft :=
  match a with
  | ClientAuthDisabled => ListenerTlsDraft_default
  | ClientAuthRequired r => {| ltd_client_auth := Some (lit "required"); ltd_trust_bundle_ref := Some r |}
  end.
Definition tls_fields (t : UpstreamTlsPolicy) : UpstreamTlsDraft :=
  match t with
  | TlsDisabled => UpstreamTlsDraft_default
  | TlsServerAuthenticated n h r =>
      {| utd_server_name := Some n; utd_http_host := Some h; utd_trust_bundle_ref := Some r |}
  end.

Record listener_ok (schema : N) (l : Listener) : Prop := {
  lo_clean : listener_clean l;
  lo_ref : listener_tls_clean (auth_fields (listener_client_auth l));
  lo_auth : normalize_client_auth_policy schema (listener_protocol l)
              (ltd_client_auth (auth_fields (listener_client_auth l)))
              (ltd_trust_bundle_ref (auth_fields (listener_client_auth l)))
            = Ok (listener_client_auth l)
}.
Record upstream_ok (schema : N) (u : Upstream) : Prop := {
  uo_clean : upstream_clean u;
  uo_fields : upstream_tls_clean (tls_fields (up_tls u));
  uo_tls : ∃ n, normalize_upstream_tls_policy schema (up_url u)
                  (utd_server_name (tls_fields (up_tls u)))
                  (utd_http_host (tls_fields (up_tls u)))
                  (utd_trust_bundle_ref (tls_fields (up_tls u))) = Ok n ∧ nup_tls n = up_tls u
}.
Record policy_ok (p : ServicePolicy) : Prop := {
  po_health : ∀ h, sp_health_check p = HealthHttp h →
    clean (hc_path h) ∧
    HttpHealthCheckPolicy_new (hc_path h) (hc_interval_ms h) (hc_timeout_ms h)
      (hc_healthy_threshold h) (hc_unhealthy_threshold h) (hc_status_min h) (hc_status_max h) = Ok h;
  po_retry : RetryPolicy_new (retry_enabled (sp_retry p)) (retry_max_retries (sp_retry p))
               (retry_max_replay_bytes (sp_retry p)) = Ok (sp_retry p);
  po_passive : ∀ q, sp_passive_health p = PassiveModeEnabled q →
    PassiveHealthPolicy_new (ph_failure_threshold q) (ph_ejection_ms q) = Ok q
}.
Record service_ok (schema : N) (s : Service) : Prop := {
  so_id : clean (svc_id s);
  so_upstreams : Forall (upstream_ok schema) (svc_upstreams s);
  so_named : Forall (λ u, up_id u ≠ []) (svc_upstreams s);
  so_policy : policy_ok (svc_policy s)
}.
Record snapshot_ok (s : ConfigSnapshot) : Prop := {
  sn_schema : snap_schema_version s ≤ U32_MAX;
  sn_admin : clean (admin_bind (snap_admin s)) ∧ admin_auth_required (snap_admin s) = true;
  sn_listeners : Forall (listener_ok (snap_schema_version s)) (snap_listeners s);
  sn_services : Forall (service_ok (snap_schema_version s)) (snap_services s);
  sn_routes : Forall route_clean (snap_routes s);
  sn_resolvers : snap_certificate_resolvers s = [];
  sn_connections : opt_max_connections (snap_runtime s) ≤ USIZE_MAX;
  sn_payload : opt_max_inflight_payload_bytes (snap_runtime s) ≤ USIZE_MAX;
  sn_header : opt_max_request_header_bytes (snap_runtime s) = FIXED_REQUEST_HEADER_RESERVE_BYTES;
  sn_body : opt_max_request_body_bytes (snap_runtime s) = DEFAULT_MAX_REQUEST_BODY_BYTES;
  sn_timeout : opt_upstream_read_timeout_ms (snap_runtime s) ≤ U64_MAX;
  sn_metrics : clean (metrics_bind (opt_metrics (snap_runtime s)))
}.

(** ** Normal forms are fixed points *)
Lemma TrustBundleRef_parse_Ok v r : TrustBundleRef_parse v = Ok r → r = v.
Proof. unfold TrustBundleRef_parse. case_match; [done|]. by intros [= <-]. Qed.

Lemma client_auth_fixed schema p a b auth :
  normalize_client_auth_policy schema p a b = Ok auth →
  normalize_client_auth_policy schema p (ltd_client_auth (auth_fields auth))
    (ltd_trust_bundle_ref (auth_fields auth)) = Ok auth.
Proof.
  unfold normalize_client_auth_policy. intros H. destruct p, a as [mode|], b as [r|]; try done;
    try (destruct (schema =? 1) eqn:?, (schema =? 2) eqn:?; simpl in H; simplify_eq; done).
  - destruct (schema =? 2) eqn:?, (bool_decide (mode = lit "required")) eqn:Hm; try done.
    simpl in H. destruct (TrustBundleRef_parse r) as [t|] eqn:Ht; [|done]. simplify_eq. simpl.
    pose proof (TrustBundleRef_parse_Ok _ _ Ht) as ->. by rewrite Ht.
  - destruct (schema =? 2) eqn:Hs, (bool_decide (mode = lit "disabled")) eqn:Hm; try done.
    simpl in H. simplify_eq. simpl. by rewrite orb_true_r.
Qed.

(** Lower case changes no byte that matters to white space, control characters, separators or
    decimal digits. *)
Lemma eqb_lower b k :
  is_ascii_lower (byte_of k) = false → is_ascii_upper (byte_of k) = false → k < 256 →
  (u8 (lower_byte b) =? k) = (u8 b =? k).
Proof.
  intros Hl Hu Hk. unfold lower_byte. destruct (is_ascii_upper b) eqn:E; [|done].
  apply in_range_spec in E.
  assert (¬ (97 ≤ k ≤ 122) ∧ ¬ (65 ≤ k ≤ 90)) as [Hl' Hu'].
  { unfold is_ascii_lower, is_ascii_upper in *.
    split; intros H; rewrite <- (byte_of_u8 k Hk) in H; apply in_range_spec in H; congruence. }
  rewrite byte_of_u8 by lia. destruct (N.eqb_spec (u8 b) k) as [<-|]; [lia|].
  apply N.eqb_neq. lia.
Qed.
Lemma lower_cons b l : to_ascii_lowercase (b :: l) = lower_byte b :: to_ascii_lowercase l.
Proof. done. Qed.
Lemma has_control_lower l : has_control (to_ascii_lowercase l) = has_control l.
Proof.
  induction l as [|b l IH]; [done|]. rewrite lower_cons. cbn [has_control].
  rewrite IH, !eqb_lower by done. f_equal. f_equal; [f_equal; by destruct b|].
  destruct l as [|b1 l]; [done|]. rewrite lower_cons. f_equal. by destruct b1.
Qed.
Lemma ws2_lower b0 b1 : ws2 (lower_byte b0) (lower_byte b1) = ws2 b0 b1.
Proof. unfold ws2. by rewrite !eqb_lower. Qed.
Lemma ws3_lower b0 b1 b2 : ws3 (lower_byte b0) (lower_byte b1) (lower_byte b2) = ws3 b0 b1 b2.
Proof.
  unfold ws3. rewrite !eqb_lower by done.
  assert (in_range 128 138 (lower_byte b2) = in_range 128 138 b2) as -> by by destruct b2.
  by assert (in_range 168 169 (lower_byte b2) = in_range 168 169 b2) as -> by by destruct b2.
Qed.
Lemma ws_start_lower l : ws_start (to_ascii_lowercase l) = ws_start l.
Proof.
  destruct l as [|b0 l]; [done|].
  assert (ws1 (lower_byte b0) = ws1 b0) as Hw by by destruct b0.
  destruct l as [|b1 [|b2 l]]; unfold ws_start; simpl; by rewrite ?ws3_lower, ?ws2_lower, Hw.
Qed.
Lemma has_whitespace_lower l : has_whitespace (to_ascii_lowercase l) = has_whitespace l.
Proof.
  induction l as [|b l IH]; [done|]. rewrite lower_cons. cbn [has_whitespace].
  by rewrite IH, <- lower_cons, ws_start_lower.
Qed.
Lemma contains_lower c l :
  is_ascii_upper c = false → is_ascii_lower c = false →
  contains_byte c (to_ascii_lowercase l) = contains_byte c l.
Proof.
  intros Hu Hl. induction l as [|b l IH]; [done|]. rewrite lower_cons. unfold contains_byte in *.
  cbn [existsb]. rewrite IH. f_equal. apply bool_decide_ext. by apply lower_fixed.
Qed.
Lemma split_once_lower c l :
  is_ascii_upper c = false → is_ascii_lower c = false →
  split_once c (to_ascii_lowercase l)
  = prod_map to_ascii_lowercase to_ascii_lowercase <$> split_once c l.
Proof.
  intros Hu Hl. induction l as [|b l IH]; [done|]. rewrite lower_cons. cbn [split_once].
  rewrite (bool_decide_ext _ _ (lower_fixed c b Hu Hl)). case_bool_decide; [done|].
  rewrite IH. by destruct (split_once c l) as [[x y]|].
Qed.
Lemma lower_rev l : to_ascii_lowercase (rev l) = rev (to_ascii_lowercase l).
Proof. apply (map_rev lower_byte). Qed.
Lemma rsplit_once_lower c l :
  is_ascii_upper c = false → is_ascii_lower c = false →
  rsplit_once c (to_ascii_lowercase l)
  = prod_map to_ascii_lowercase to_ascii_lowercase <$> rsplit_once c l.
Proof.
  intros Hu Hl. unfold rsplit_once. rewrite <- lower_rev, split_once_lower by done.
  destruct (split_once c (rev l)) as [[x y]|]; simpl; [|done]. by rewrite !lower_rev.
Qed.
Lemma parse_digits_lower mx acc l :
  parse_digits 10 mx acc (to_ascii_lowercase l) = parse_digits 10 mx acc l.
Proof.
  revert acc. induction l as [|b l IH]; intros acc; [done|]. rewrite lower_cons. cbn [parse_digits].
  replace (digit_value 10 (lower_byte b)) with (digit_value 10 b) by by destruct b.
  repeat case_match; auto.
Qed.
Lemma parse_port_lower l : parse_port (to_ascii_lowercase l) = parse_port l.
Proof.
  unfold parse_port. replace (parse_uint U16_MAX (to_ascii_lowercase l)) with (parse_uint U16_MAX l); [done|].
  unfold parse_uint, from_str_radix. destruct l as [|b l]; [done|].
  rewrite lower_cons, eqb_lower by done. cbv zeta.
  destruct (u8 b =? 43); [|by rewrite <- lower_cons, parse_digits_lower].
  rewrite parse_digits_lower. by destruct l.
Qed.
Lemma UpstreamHttpHost_fixed v h : UpstreamHttpHost_parse v = Ok h →
  h = to_ascii_lowercase v ∧ UpstreamHttpHost_parse h = Ok h.
Proof.
  unfold UpstreamHttpHost_parse. intros H. destruct (_ || _) eqn:Hc in H; [done|].
  assert (Hh : h = to_ascii_lowercase v) by (repeat case_match; by simplify_eq).
  subst h. split; [done|].
  rewrite (bool_decide_ext _ _ (lower_nil v)), len_lower, has_control_lower, has_whitespace_lower,
    !contains_lower, Hc, rsplit_once_lower by done.
  destruct (rsplit_once COLON_BYTE v) as [[host port]|]; simpl in *.
  - rewrite contains_lower by done. destruct (contains_byte COLON_BYTE host); [done|]. simpl in *.
    rewrite lower_idemp, parse_port_lower. by destruct (_ || _) in H |- *; rewrite ?lower_idemp.
  - rewrite lower_idemp. by destruct (_ || _) in H |- *; rewrite ?lower_idemp.
Qed.

Lemma drop_while_byte_idemp c l : drop_while_byte c (drop_while_byte c l) = drop_while_byte c l.
Proof. induction l as [|b l IH]; [done|]. simpl. case_bool_decide; [done|]. simpl. by rewrite bool_decide_false. Qed.
Lemma trim_end_matches_idemp c l : trim_end_matches c (trim_end_matches c l) = trim_end_matches c l.
Proof. unfold trim_end_matches. by rewrite rev_involutive, drop_while_byte_idemp. Qed.
Lemma trim_end_matches_lower c l :
  is_ascii_upper c = false → is_ascii_lower c = false →
  trim_end_matches c (to_ascii_lowercase l) = to_ascii_lowercase (trim_end_matches c l).
Proof.
  intros Hu Hl. unfold trim_end_matches. rewrite lower_rev, <- (lower_rev l). f_equal.
  induction (rev l) as [|b k IH]; [done|]. rewrite lower_cons. cbn [drop_while_byte].
  rewrite (bool_decide_ext _ _ (lower_fixed c b Hu Hl)). by case_bool_decide.
Qed.
Lemma TlsServerName_fixed v n : TlsServerName_parse v = Ok n →
  n = to_ascii_lowercase (trim_end_matches DOT v) ∧ TlsServerName_parse n = Ok n.
Proof.
  unfold TlsServerName_parse. cbv zeta. destruct (_ || _) eqn:H; [done|]. intros [= <-].
  split; [done|]. by rewrite trim_end_matches_lower, trim_end_matches_idemp, lower_idemp, H.
Qed.

(** The errors of the policies of a service, an upstream or a listener. *)
Definition coded {A} (r : result ValidationError A) : Prop :=
  match r with Ok _ => True | Err e => val_code e ≠ InternalBug end.
Lemma coded_bind {A B} (m : result ValidationError A) (k : A → result ValidationError B) :
  coded m → (∀ a, coded (k a)) → coded (let? a := m in k a).
Proof. destruct m; simpl; auto. Qed.
Ltac coded_cases := repeat match goal with
  | |- coded (Err _) => done
  | |- coded (Ok _) => done
  | |- coded (if ?b then _ else _) => destruct b
  | |- coded (match ?m with Ok _ => _ | Err e => Err e end) => apply coded_bind; [|intros ?]
  | |- coded (match ?m with _ => _ end) => destruct m
  end.

Lemma parse_port_coded v : coded (parse_port v).
Proof. unfold parse_port. coded_cases. Qed.
Lemma optional_port_coded suffix d : coded (parse_optional_port_with_default suffix d).
Proof. unfold parse_optional_port_with_default. coded_cases. apply parse_port_coded. Qed.
Lemma authority_coded authority d : coded (parse_authority authority d).
Proof.
  unfold parse_authority. coded_cases; auto using parse_port_coded, optional_port_coded.
Qed.
Lemma endpoint_coded url : coded (endpoint_parse url).
Proof. unfold endpoint_parse. coded_cases; auto using authority_coded. Qed.
Lemma tls_names_coded v :
  coded (TlsServerName_parse v) ∧ coded (UpstreamHttpHost_parse v) ∧ coded (TrustBundleRef_parse v).
Proof.
  unfold TlsServerName_parse, UpstreamHttpHost_parse, TrustBundleRef_parse.
  split_and!; cbv zeta; coded_cases.
Qed.
Lemma tls_policy_coded schema url a b c : coded (normalize_upstream_tls_policy schema url a b c).
Proof.
  unfold normalize_upstream_tls_policy. coded_cases; try apply endpoint_coded; try apply tls_names_coded.
  all: unfold ok_or; coded_cases.
Qed.
Lemma client_auth_coded schema p a b : coded (normalize_client_auth_policy schema p a b).
Proof. unfold normalize_client_auth_policy. coded_cases. apply tls_names_coded. Qed.

(** ** TLS policies in normal form *)
Lemma tls_policy_fixed schema url a b c n :
  normalize_upstream_tls_policy schema url a b c = Ok n →
  ∃ m, normalize_upstream_tls_policy schema url (utd_server_name (tls_fields (nup_tls n)))
         (utd_http_host (tls_fields (nup_tls n))) (utd_trust_bundle_ref (tls_fields (nup_tls n)))
       = Ok m ∧ nup_tls m = nup_tls n.
Proof.
  unfold normalize_upstream_tls_policy. destruct (endpoint_parse url) as [e|]; [|done].
  destruct (_ && _); [done|]. cbv zeta.
  destruct (ep_scheme e), (_ && _ && _); try done; intros H.
  - destruct (_ || _); [|done]. simplify_eq. simpl. eauto.
  - destruct (schema =? 2); [|done].
    destruct a as [a|], b as [b|], c as [c|]; simpl in H; try (repeat case_match; done).
    destruct (TlsServerName_parse a) as [a'|] eqn:Ha; [|done].
    destruct (UpstreamHttpHost_parse b) as [b'|] eqn:Hb; [|done].
    destruct (TrustBundleRef_parse c) as [c'|] eqn:Hc; [|done]. simplify_eq. simpl.
    pose proof (TrustBundleRef_parse_Ok _ _ Hc) as ->.
    apply TlsServerName_fixed in Ha as [_ ->]. apply UpstreamHttpHost_fixed in Hb as [_ ->].
    rewrite Hc. simpl. eauto.
Qed.
Lemma tls_policy_clean schema url a b c n :
  normalize_upstream_tls_policy schema url a b c = Ok n →
  opt_clean a → opt_clean b → opt_clean c → upstream_tls_clean (tls_fields (nup_tls n)).
Proof.
  unfold normalize_upstream_tls_policy. destruct (endpoint_parse url) as [e|]; [|done].
  destruct (_ && _); [done|]. cbv zeta.
  destruct (ep_scheme e), (_ && _ && _); try done; intros H Ca Cb Cc.
  - destruct (_ || _); [|done]. by simplify_eq.
  - destruct (schema =? 2); [|done].
    destruct a as [a|], b as [b|], c as [c|]; simpl in H; try (repeat case_match; done).
    destruct (TlsServerName_parse a) as [a'|] eqn:Ha; [|done].
    destruct (UpstreamHttpHost_parse b) as [b'|] eqn:Hb; [|done].
    destruct (TrustBundleRef_parse c) as [c'|] eqn:Hc; [|done]. simplify_eq. simpl.
    apply TrustBundleRef_parse_Ok in Hc as ->.
    apply TlsServerName_fixed in Ha as [-> _]. apply UpstreamHttpHost_fixed in Hb as [-> _].
    repeat split; simpl; [..|done]; apply opt_clean_Some, lower_lacks; try done; [|by apply Cb].
    eapply clean_mono; [apply trim_end_matches_subseteq|by apply Ca].
Qed.
Lemma client_auth_clean schema p a b auth :
  normalize_client_auth_policy schema p a b = Ok auth → opt_clean b →
  listener_tls_clean (auth_fields auth).
Proof.
  intros H Hb. destruct auth as [|r]; [done|]. split; [apply opt_clean_Some; vm_compute; set_solver|].
  unfold normalize_client_auth_policy in H. destruct p, a, b; repeat case_match; simplify_eq.
  match goal with H : TrustBundleRef_parse _ = Ok _ |- _ => apply TrustBundleRef_parse_Ok in H as -> end.
  done.
Qed.

(** ** Normalisation *)
Lemma safe_coded {A} (P : A → Prop) (r : result ValidationError A) :
  coded r → (∀ a, r = Ok a → P a) → safe P (from_validation r).
Proof. destruct r; simpl; auto. Qed.

Lemma try_imap_safe {A B} (P : A → Prop) (Q : B → Prop) f i l :
  Forall P l → (∀ i x, P x → safe Q (f i x)) →
  safe (λ l', Forall Q l' ∧ length l' = length l) (try_imap f i l).
Proof.
  intros Hl Hf. revert i. induction Hl as [|x l Hx Hl IH]; intros i; simpl; [done|].
  eapply safe_bind; [by apply Hf|]. intros y Hy.
  eapply safe_bind; [apply IH|]. intros ys [Hys Hlen]. simpl. by rewrite Hlen; split; [constructor|].
Qed.

Lemma normalize_listener_safe schema drafts i l :
  (∀ i t, drafts !! i = Some t → listener_tls_clean t) → listener_clean l →
  safe (listener_ok schema) (normalize_listener schema drafts i l).
Proof.
  intros Hdrafts Hl. unfold normalize_listener. cbv zeta.
  eapply (safe_bind (λ a, listener_ok schema (set_listener_client_auth a l))); [|done].
  apply safe_coded; [apply client_auth_coded|]. intros a Ha. constructor; simpl.
  - by destruct Hl.
  - eapply client_auth_clean; [exact Ha|]. destruct (drafts !! i) eqn:Hi; [|done]. by apply Hdrafts in Hi as [].
  - by eapply client_auth_fixed.
Qed.
Lemma normalize_upstream_safe schema drafts i j u :
  (∀ i t, drafts !! i = Some t → upstream_tls_clean t) → upstream_clean u →
  safe (upstream_ok schema) (normalize_upstream schema drafts i j u).
Proof.
  intros Hdrafts Hu. unfold normalize_upstream. cbv zeta.
  eapply (safe_bind (λ n, upstream_ok schema (set_up_tls (nup_tls n) u))); [|done].
  apply safe_coded; [apply tls_policy_coded|]. intros n Hn. constructor; simpl.
  - by destruct Hu.
  - destruct (drafts !! (i, j)) as [t|] eqn:Hij; [apply Hdrafts in Hij as (? & ? & ?)|];
      by eapply tls_policy_clean.
  - by eapply tls_policy_fixed.
Qed.

(** A service before its policies are set, with and without the names of its upstreams. *)
Definition checked_service (schema : N) (s : Service) : Prop :=
  clean (svc_id s) ∧ Forall (upstream_ok schema) (svc_upstreams s)
  ∧ svc_policy s = ServicePolicy_default.

Lemma normalize_service_tls_safe schema drafts i s :
  (∀ i t, drafts !! i = Some t → upstream_tls_clean t) → raw_service s →
  safe (checked_service schema) (normalize_service_tls schema drafts i s).
Proof.
  intros Hdrafts []. unfold normalize_service_tls.
  eapply safe_bind; [eapply try_imap_safe; [done|]; intros; by apply normalize_upstream_safe|].
  by intros us [Hus _].
Qed.

Lemma policy_ok_default : policy_ok ServicePolicy_default.
Proof. by constructor. Qed.

Lemma primary_ok schema s u :
  clean (svc_id s) → upstream_ok schema u →
  upstream_ok schema (set_up_id (svc_id s ++ lit "-primary") u).
Proof.
  intros Hs []. constructor; try done. destruct uo_clean0. split; [|done]. simpl.
  unfold clean in *. rewrite not_elem_of_app. split; [done|]. vm_compute. set_solver.
Qed.

Lemma normalize_service_ids_safe schema s :
  checked_service schema s → safe (service_ok schema) (normalize_service_ids s).
Proof.
  intros (Hid & Hus & Hp). unfold normalize_service_ids. cbv zeta.
  destruct (svc_upstreams s) as [|u us] eqn:Hs.
  { simpl. rewrite Hs. simpl. by constructor; rewrite ?Hs, ?Hp; [..|apply policy_ok_default]. }
  apply Forall_cons in Hus as [Hu Hus]. destruct us as [|u' us].
  - case_bool_decide as Hnil; simpl; rewrite ?Hs; simpl.
    + constructor; simpl; [done| |by constructor; [destruct (svc_id s)|]|by rewrite Hp; apply policy_ok_default].
      constructor; [|done]. by apply primary_ok.
    + constructor; rewrite ?Hs, ?Hp; [done|by constructor..|apply policy_ok_default].
  - rewrite Hs. destruct (_ && _) eqn:Hc; simpl; [done|].
    constructor; rewrite ?Hs, ?Hp; [done|by constructor| |apply policy_ok_default].
    assert (1 <? len (u :: u' :: us) = true) as Hl by (apply N.ltb_lt; len_lia). rewrite Hl in Hc.
    apply Forall_forall. intros x Hx Hnil.
    apply not_true_iff_false in Hc. apply Hc, existsb_exists. exists x.
    split; [by apply list_elem_of_In|by apply bool_decide_eq_true].
Qed.

Lemma update_indexed_safe {A} (P : Service → Prop) missing f (m : gmap nat A) keys services :
  (∀ i, i ∈ keys → (i < length services)%nat) →
  (∀ i x s, m !! i = Some x → P s → safe P (f x s)) → Forall P services →
  safe (λ l, Forall P l ∧ length l = length services) (update_indexed missing f m keys services).
Proof.
  intros Hk Hf Hs. revert services Hk Hs. induction keys as [|i keys IH]; intros services Hk Hs; simpl; [done|].
  assert ((i < length services)%nat) as Hi by (apply Hk; set_solver).
  apply lookup_lt_is_Some in Hi as [s His]. rewrite His.
  destruct (m !! i) as [x|] eqn:Hx; [|apply IH; [|done]; intros; apply Hk; set_solver].
  eapply safe_bind; [eapply Hf; [done|by eapply Forall_lookup_1]|]. intros s' Hs'.
  eapply safe_impl; [|apply IH].
  - simpl. intros l [Hl Hlen]. by rewrite length_insert in Hlen.
  - intros j Hj. rewrite length_insert. apply Hk. set_solver.
  - by apply Forall_insert.
Qed.
Lemma indices_within {A} n (m : gmap nat A) i : within n m → i ∈ indices m → (i < n)%nat.
Proof.
  intros Hm. unfold indices. rewrite merge_sort_Permutation.
  intros ([j x] & -> & Hx%elem_of_map_to_list)%list_elem_of_fmap. by eapply Hm.
Qed.

(** A policy of a service that is in order replaced by another one in order. *)
Lemma set_policy_ok schema s p :
  service_ok schema s → policy_ok p → service_ok schema (set_svc_policy p s).
Proof. intros [] Hp. by constructor. Qed.

Lemma health_policy_fixed path i t ht ut lo hi p :
  HttpHealthCheckPolicy_new path i t ht ut lo hi = Ok p →
  path = hc_path p ∧
  HttpHealthCheckPolicy_new (hc_path p) (hc_interval_ms p) (hc_timeout_ms p)
    (hc_healthy_threshold p) (hc_unhealthy_threshold p) (hc_status_min p) (hc_status_max p) = Ok p.
Proof.
  intros H. assert (p = Build_HttpHealthCheckPolicy path i t ht ut lo hi) as ->; [|done].
  unfold HttpHealthCheckPolicy_new in H. repeat case_match; congruence.
Qed.
Lemma retry_policy_fixed e r b p :
  RetryPolicy_new e r b = Ok p →
  RetryPolicy_new (retry_enabled p) (retry_max_retries p) (retry_max_replay_bytes p) = Ok p.
Proof.
  intros H. assert (p = Build_RetryPolicy e r b) as ->; [|done].
  unfold RetryPolicy_new in H. case_match; congruence.
Qed.
Lemma passive_policy_fixed t ms p :
  PassiveHealthPolicy_new t ms = Ok p →
  PassiveHealthPolicy_new (ph_failure_threshold p) (ph_ejection_ms p) = Ok p.
Proof.
  intros H. assert (p = Build_PassiveHealthPolicy t ms) as ->; [|done].
  unfold PassiveHealthPolicy_new in H. case_match; congruence.
Qed.
Lemma normalize_health_check_safe schema h s :
  opt_clean (hcd_path h) → service_ok schema s →
  safe (service_ok schema) (normalize_health_check h s).
Proof.
  intros Hh Hs. unfold normalize_health_check. destruct (negb _).
  - simpl. apply set_policy_ok; [done|]. destruct Hs as [_ _ _ []]. by constructor.
  - cbv zeta. eapply (safe_bind (λ p, service_ok schema
      (set_svc_policy (set_health_check (HealthHttp p) (svc_policy s)) s))); [|done].
    apply safe_coded; [unfold HttpHealthCheckPolicy_new; coded_cases|]. intros p Hp.
    apply set_policy_ok; [done|]. destruct Hs as [_ _ _ []]. constructor; simpl; try done.
    intros q [= <-]. pose proof (health_policy_fixed _ _ _ _ _ _ _ _ Hp) as (<- & H). split; [|exact H].
    destruct (hcd_path h) eqn:Hpath; [by apply Hh|]. simpl. unfold clean. vm_compute. set_solver.
Qed.
Lemma normalize_retry_safe schema d s :
  service_ok schema s → safe (service_ok schema) (normalize_retry d s).
Proof.
  intros Hs. unfold normalize_retry. cbv zeta.
  eapply (safe_bind (λ p, service_ok schema (set_svc_policy (set_retry p (svc_policy s)) s))); [|done].
  apply safe_coded; [unfold RetryPolicy_new; coded_cases|]. intros p Hp.
  apply set_policy_ok; [done|]. destruct Hs as [_ _ _ []]. constructor; simpl; try done.
  by eapply retry_policy_fixed.
Qed.
Lemma normalize_passive_safe schema d s :
  service_ok schema s → safe (service_ok schema) (normalize_passive d s).
Proof.
  intros Hs. unfold normalize_passive. destruct (default _ _); [|done].
  eapply (safe_bind (λ p, service_ok schema
    (set_svc_policy (set_passive_health (PassiveModeEnabled p) (svc_policy s)) s))); [|done].
  apply safe_coded; [unfold PassiveHealthPolicy_new; coded_cases|]. intros p Hp.
  apply set_policy_ok; [done|]. destruct Hs as [_ _ _ []]. constructor; simpl; try done.
  intros q [= <-]. by eapply passive_policy_fixed.
Qed.

Lemma clean_default dflt o : clean dflt → opt_clean o → clean (default dflt o).
Proof. intros Hd Ho. destruct o; simpl; auto. Qed.
Lemma le_default mx dflt o : dflt ≤ mx → opt_le mx o → default dflt o ≤ mx.
Proof. intros Hd Ho. destruct o; simpl; auto. Qed.

Lemma failure_policies_safe schema services retries passive :
  within (length services) retries → within (length services) passive →
  Forall (service_ok schema) services →
  safe (Forall (service_ok schema)) (normalize_failure_policies services retries passive).
Proof.
  intros Hr Hp Hss. unfold normalize_failure_policies.
  eapply safe_bind; [eapply (update_indexed_safe (service_ok schema)); [..|exact Hss]|].
  - intros i Hi. by eapply indices_within; [|exact Hi].
  - intros. by apply normalize_retry_safe.
  - clear Hss. intros services' [Hss Hl].
    eapply safe_impl; [|eapply (update_indexed_safe (service_ok schema)); [..|exact Hss]].
    + by intros l [? _].
    + intros i Hi. rewrite Hl. by eapply indices_within; [|exact Hi].
    + intros. by apply normalize_passive_safe.
Qed.

Lemma finish_draft_safe revision_id d :
  draft_ok d → safe (λ c, snapshot_ok (cs_snapshot c)) (finish_draft revision_id d).
Proof.
  intros []. unfold finish_draft. cbv zeta. set (schema := default 0 (cd_schema_version d)).
  eapply safe_bind; [eapply try_imap_safe; [exact ok_listeners0|];
    intros; by apply normalize_listener_safe|]. intros listeners [Hls _].
  eapply safe_bind; [eapply try_imap_safe; [exact ok_services0|];
    intros; by apply normalize_service_tls_safe|]. intros services [Hss Hl1].
  eapply safe_bind; [eapply try_imap_safe; [exact Hss|];
    intros; by apply normalize_service_ids_safe|]. clear Hss. intros services' [Hss Hl2].
  rewrite Hl1 in Hl2. clear services Hl1.
  eapply safe_bind; [eapply (update_indexed_safe (service_ok schema)); [..|exact Hss]|].
  { intros i Hi. rewrite Hl2. by eapply indices_within; [|exact Hi]. }
  { intros. eapply normalize_health_check_safe; eauto. }
  clear Hss. intros services [Hss Hl3]. rewrite Hl2 in Hl3. clear services' Hl2.
  eapply safe_bind; [by apply (failure_policies_safe schema); rewrite ?Hl3|].
  clear Hss Hl3 services. intros services Hss. simpl. constructor; simpl; try done.
  - by apply le_default.
  - split; [|done]. apply clean_default; [|done]. unfold clean. vm_compute. set_solver.
  - by apply le_default.
  - by apply le_default.
  - by apply le_default.
  - apply clean_default; [|done]. unfold clean. vm_compute. set_solver.
Qed.

Lemma parse_mvp_config_safe source revision_id :
  safe (λ c, snapshot_ok (cs_snapshot c)) (parse_mvp_config source revision_id).
Proof.
  unfold parse_mvp_config. eapply (safe_bind (λ r, draft_ok r.2)).
  - apply parse_lines_safe; [apply draft_ok_default|apply str_lines_clean].
  - intros [section d] Hd. by apply finish_draft_safe.
Qed.

(** C33: reading a configuration is total and typed.  For every source text the parser ends with
    a snapshot in which every policy is in its normal form, every number has its width, every
    upstream has a name and no string contains a line break, or with an error of the
    configuration; it never indexes a vector out of range and never reaches one of its own
    internal errors, whatever the order of the sections. *)
Theorem parse_mvp_config_typed (source revision_id : list byte) :
  match parse_mvp_config source revision_id with
  | Ok c => snapshot_ok (cs_snapshot c)
  | Err e => app_code e ≠ InternalBug
  end.
Proof. apply (parse_mvp_config_safe source revision_id). Qed.
