(* ===== verification/ConfigRender.v ===== *)
(** * The canonical text of a configuration

    crates/edge-application/src/config_rendering.rs: the text a snapshot is stored as, and the
    round trip with the parser of ConfigParser.v. *)

From stdpp Require Import base gmap strings list sorting.
From Stdlib Require Import Strings.Byte NArith ZArith Lia.
From S2P Require Import Prelude Errors RustStr Resource Endpoint UpstreamPolicy Snapshot ConfigParser ConfigDraft.
Local Open Scope N_scope.

(** ** Rendering *)
Definition line (l : list byte) : list byte := l ++ [LF].
Definition blank : list byte := [LF].
Definition quoted (value : list byte) : list byte := QUOTE :: value ++ [QUOTE].
Definition kv (key : string) (value : list byte) : list byte := line (lit key ++ lit " = " ++ value).
Definition print_bool (b : bool) : list byte := if b then lit "true" else lit "false".
Definition print_int (z : Z) : list byte :=
  if (z <? 0)%Z then HYPHEN :: print_dec (Z.to_N (- z)) else print_dec (Z.to_N z).

Fixpoint join (sep : list byte) (items : list (list byte)) : list byte :=
  match items with
  | [] => []
  | [x] => x
  | x :: rest => x ++ sep ++ join sep rest
  end.
Definition quoted_array (values : list (list byte)) : list byte :=
  join (lit ", ") (quoted <$> values).
Definition array (values : list (list byte)) : list byte :=
  LBRACKET :: quoted_array values ++ [RBRACKET].

Definition render_head (s : ConfigSnapshot) : list byte :=
  kv "schema_version" (print_dec (snap_schema_version s)) ++ blank
  ++ line (lit "[admin]")
  ++ kv "bind" (quoted (admin_bind (snap_admin s)))
  ++ kv "enabled" (lit "true") ++ blank
  ++ line (lit "[logging]")
  ++ kv "mode" (quoted (LogMode_as_str (snap_log_mode s))) ++ blank
  ++ line (lit "[runtime]")
  ++ kv "max_connections" (print_dec (opt_max_connections (snap_runtime s)))
  ++ kv "max_inflight_payload_bytes"
       (print_dec (opt_max_inflight_payload_bytes (snap_runtime s)))
  ++ kv "upstream_read_timeout_ms"
       (print_dec (opt_upstream_read_timeout_ms (snap_runtime s))) ++ blank
  ++ (if metrics_enabled (opt_metrics (snap_runtime s))
      then line (lit "[metrics]") ++ kv "enabled" (lit "true")
           ++ kv "bind" (quoted (metrics_bind (opt_metrics (snap_runtime s)))) ++ blank
      else []).

Definition protocol_name (p : ListenerProtocol) : list byte :=
  match p with ProtocolHttp => lit "http" | ProtocolHttps => lit "https" end.

Definition render_listener (l : Listener) : list byte :=
  line (lit "[[listeners]]")
  ++ kv "name" (quoted (listener_id l))
  ++ kv "bind" (quoted (listener_bind l))
  ++ kv "protocol" (quoted (protocol_name (listener_protocol l)))
  ++ match listener_client_auth l with
     | ClientAuthDisabled => []
     | ClientAuthRequired trust_bundle_ref =>
         kv "client_auth" (quoted (lit "required"))
         ++ kv "client_trust_bundle_ref" (quoted trust_bundle_ref)
     end
  ++ blank.

Definition render_health_check (h : HealthCheckPolicy) : list byte :=
  match h with
  | HealthDisabled => []
  | HealthHttp policy =>
      line (lit "[services.health_check]")
      ++ kv "enabled" (lit "true")
      ++ kv "path" (quoted (hc_path policy))
      ++ kv "interval_ms" (print_dec (hc_interval_ms policy))
      ++ kv "timeout_ms" (print_dec (hc_timeout_ms policy))
      ++ kv "healthy_threshold" (print_dec (hc_healthy_threshold policy))
      ++ kv "unhealthy_threshold" (print_dec (hc_unhealthy_threshold policy))
      ++ kv "status_min" (print_dec (hc_status_min policy))
      ++ kv "status_max" (print_dec (hc_status_max policy)) ++ blank
  end.

Definition render_retry (r : RetryPolicy) : list byte :=
  line (lit "[services.retry]")
  ++ kv "enabled" (print_bool (retry_enabled r))
  ++ kv "max_retries" (print_dec (retry_max_retries r))
  ++ kv "max_replay_bytes" (print_dec (retry_max_replay_bytes r)) ++ blank.

(** The three values written for a mode, defaults when it is disabled. *)
Definition passive_values (p : PassiveHealthMode) : bool * N * N :=
  match p with
  | PassiveModeDisabled => (false, 3, 30000)
  | PassiveModeEnabled q => (true, ph_failure_threshold q, ph_ejection_ms q)
  end.
Definition render_passive (p : PassiveHealthMode) : list byte :=
  let '(enabled, failure_threshold, ejection_ms) := passive_values p in
  line (lit "[services.passive_health]")
  ++ kv "enabled" (print_bool enabled)
  ++ kv "failure_threshold" (print_dec failure_threshold)
  ++ kv "ejection_ms" (print_dec ejection_ms) ++ blank.

Definition state_name (s : UpstreamAdministrativeState) : list byte :=
  match s with AdminActive => lit "active" | AdminDraining => lit "draining" end.

Definition render_upstream (u : Upstream) : list byte :=
  line (lit "[[services.upstreams]]")
  ++ kv "name" (quoted (up_id u))
  ++ kv "url" (quoted (up_url u))
  ++ match up_tls u with
     | TlsDisabled => []
     | TlsServerAuthenticated server_name http_host trust_bundle_ref =>
         kv "tls_server_name" (quoted server_name)
         ++ kv "upstream_http_host" (quoted http_host)
         ++ kv "tls_trust_bundle_ref" (quoted trust_bundle_ref)
     end
  ++ kv "administrative_state" (quoted (state_name (up_administrative_state u))) ++ blank.

Definition render_service (s : Service) : list byte :=
  line (lit "[[services]]")
  ++ kv "name" (quoted (svc_id s))
  ++ kv "load_balancer" (quoted (LoadBalancingPolicy_as_str (sp_load_balancing (svc_policy s)))) ++ blank
  ++ render_health_check (sp_health_check (svc_policy s))
  ++ render_retry (sp_retry (svc_policy s))
  ++ render_passive (sp_passive_health (svc_policy s))
  ++ concat (render_upstream <$> svc_upstreams s).

Definition exact_paths (m : RouteMatch) : list (list byte) :=
  pm_prefix <$> List.filter pm_exact (rm_paths m).
Definition prefix_paths (m : RouteMatch) : list (list byte) :=
  pm_prefix <$> List.filter (λ p, negb (pm_exact p)) (rm_paths m).

Definition render_route (r : Route) : list byte :=
  line (lit "[[routes]]")
  ++ kv "name" (quoted (route_id r))
  ++ kv "hosts" (array (hm_normalized <$> rm_hosts (route_match r)))
  ++ kv "paths" (array (prefix_paths (route_match r)))
  ++ (if bool_decide (exact_paths (route_match r) = []) then []
      else kv "exact_paths" (array (exact_paths (route_match r))))
  ++ kv "service" (quoted (route_service_id r))
  ++ kv "priority" (print_int (route_priority r))
  ++ kv "enabled" (print_bool (route_enabled r))
  ++ match route_certificate_ref r with
     | None => []
     | Some certificate_ref => kv "certificate_ref" (quoted certificate_ref)
     end
  ++ kv "redirect_http_to_https" (print_bool (route_redirect_http_to_https r)) ++ blank.

Definition render_mvp_config_snapshot (s : ConfigSnapshot) : list byte :=
  render_head s
  ++ concat (render_listener <$> snap_listeners s)
  ++ concat (render_service <$> snap_services s)
  ++ concat (render_route <$> snap_routes s).

(** ** Lines *)
Definition framed (v : list byte) : Prop :=
  ∃ a z, head v = Some a ∧ plain a = true ∧ last v = Some z ∧ plain z = true.
Definition value_ok (v : list byte) : Prop := clean v ∧ framed v.

Lemma framed_trim v : framed v → trim v = v.
Proof.
  intros (a & z & Ha & Hpa & Hz & Hpz). destruct v as [|b t]; [done|]. simpl in Ha. simplify_eq.
  apply trim_id; [by apply plain_ws|].
  apply last_Some in Hz as [l' Hl]. rewrite Hl, rev_app_distr. simpl. by apply plain_ws.
Qed.

(** Reading the rest of a text. *)
Definition run (text section : list byte) (d : MvpConfigDraft)
  : result AppError (list byte * MvpConfigDraft) := parse_lines (str_lines text) section d.

Lemma split_byte_join c w k : c ∉ w → split_byte c (w ++ c :: k) = w :: split_byte c k.
Proof.
  unfold split_byte, split_str. intros Hw. induction w as [|b w IH]; cbn [app split_go starts_with].
  - by rewrite bool_decide_true.
  - apply not_elem_of_cons in Hw as [Hb Hw]. rewrite bool_decide_false by congruence. simpl.
    by rewrite IH.
Qed.
Lemma split_byte_last c w : c ∉ w → split_byte c w = [w].
Proof.
  unfold split_byte, split_str. intros Hw. induction w as [|b w IH]; cbn [app split_go starts_with]; [done|].
  apply not_elem_of_cons in Hw as [Hb Hw]. rewrite bool_decide_false by congruence. simpl. by rewrite IH.
Qed.

Lemma str_lines_line l rest :
  clean l → last l ≠ Some CR → str_lines (line l ++ rest) = l :: str_lines rest.
Proof.
  intros Hl Hcr. unfold str_lines, line. rewrite <- app_assoc. simpl.
  rewrite split_byte_join by done.
  assert (split_byte LF rest ≠ []) as Hne.
  { unfold split_byte, split_str. destruct rest as [|b rest]; [done|]. simpl.
    case_bool_decide; simpl; [done|]. by destruct (split_go [LF] 0 rest). }
  cbn [lines_of]. destruct (split_byte LF rest) as [|p ps]; [done|]. f_equal.
  unfold strip_cr, strip_suffix, ends_with. destruct (starts_with _ _) eqn:Hs; [|done].
  exfalso. apply Hcr. destruct l as [|b k _] using rev_ind; [done|].
  rewrite rev_app_distr in Hs. simpl in Hs. rewrite andb_true_r in Hs.
  apply bool_decide_eq_true in Hs as <-. by rewrite last_snoc.
Qed.

Lemma plain_last_not_CR l z : last l = Some z → plain z = true → last l ≠ Some CR.
Proof. by intros -> Hz [= ->]. Qed.

Lemma run_line l rest section d section' d' :
  clean l → last l ≠ Some CR → parse_line l section d = Ok (section', d') →
  run (line l ++ rest) section d = run rest section' d'.
Proof. intros Hc Hcr Hl. unfold run. rewrite str_lines_line by done. cbn [parse_lines]. by rewrite Hl. Qed.

Lemma run_blank rest section d : run (blank ++ rest) section d = run rest section d.
Proof. change (blank ++ rest) with (line [] ++ rest). apply run_line; [apply clean_nil|done|done]. Qed.

(** A key of a configuration file. *)
Definition key_byte (b : byte) : bool := is_ascii_lower b || bool_decide (b = x5f).
Definition key_ok (key : list byte) : Prop := key ≠ [] ∧ forallb key_byte key = true.

Lemma key_byte_facts b : key_byte b = true →
  plain b = true ∧ b ≠ EQUALS ∧ b ≠ LF ∧ b ≠ HASH ∧ b ≠ LBRACKET.
Proof. by destruct b. Qed.

Lemma parse_line_kv key v section d d' :
  key_ok key → framed v → apply_mvp_config_value d section key v = Ok d' →
  parse_line (key ++ lit " = " ++ v) section d = Ok (section, d').
Proof.
  intros [Hne Hk] Hv Happly. apply forallb_Forall in Hk. rewrite Forall_forall in Hk.
  pose proof (framed_trim v Hv) as Htrim.
  destruct key as [|k key]; [done|]. pose proof (key_byte_facts k (Hk k ltac:(left))) as (Hp & _ & _ & Hh & Hb).
  assert (Hl : trim ((k :: key) ++ lit " = " ++ v) = (k :: key) ++ lit " = " ++ v).
  { apply framed_trim. destruct Hv as (a & z & Ha & _ & Hz & Hpz). exists k, z. split_and!; try done.
    by rewrite !last_app, Hz. }
  unfold parse_line. rewrite Hl. cbv zeta.
  assert (Hsw : ∀ c t, k ≠ c → starts_with (c :: t) ((k :: key) ++ lit " = " ++ v) = false).
  { intros c t Hc. simpl. by rewrite bool_decide_false by congruence. }
  rewrite !Hsw, bool_decide_false by done. cbn [orb andb].
  assert (Hs : split_once EQUALS ((k :: key) ++ lit " = " ++ v) = Some ((k :: key) ++ [x20], x20 :: v)).
  { apply split_once_Some. split; [by rewrite <- app_assoc|].
    rewrite not_elem_of_app. split; [|set_solver]. intros Hin. by apply Hk, key_byte_facts in Hin as (_ & ? & _). }
  rewrite Hs. rewrite trim_space, Htrim.
  assert (trim ((k :: key) ++ [x20]) = k :: key) as ->; [|by rewrite Happly].
  unfold trim. assert (trim_start ((k :: key) ++ [x20]) = (k :: key) ++ [x20]) as ->.
  { apply trim_start_id. by apply plain_ws. }
  assert (trim_end ((k :: key) ++ [x20]) = trim_end (k :: key)) as ->.
  { unfold trim_end. rewrite rev_app_distr. done. }
  apply trim_end_id. destruct (rev (k :: key)) as [|z t] eqn:Hr; [done|]. apply plain_ws.
  assert (z ∈ k :: key) as Hz by (rewrite <- elem_of_rev, Hr; left).
  by apply Hk, key_byte_facts in Hz as (? & _).
Qed.

Lemma run_kv key v rest section d d' :
  key_ok (lit key) → value_ok v → apply_mvp_config_value d section (lit key) v = Ok d' →
  run (kv key v ++ rest) section d = run rest section d'.
Proof.
  intros Hk [Hc Hv] Happly. unfold kv. apply run_line.
  - destruct Hk as [_ Hk]. apply forallb_Forall in Hk. rewrite Forall_forall in Hk.
    unfold clean in *. rewrite !not_elem_of_app. split_and!; [|by vm_compute; set_solver|done].
    intros Hin. by apply Hk, key_byte_facts in Hin as (_ & _ & ? & _).
  - destruct Hv as (a & z & _ & _ & Hz & Hpz). apply (plain_last_not_CR _ z); [|done].
    by rewrite !last_app, Hz.
  - by apply parse_line_kv.
Qed.

(** ** Values *)
Lemma framed_plain v : v ≠ [] → Forall (λ b, plain b = true) v → framed v.
Proof.
  intros Hne Hv. rewrite Forall_forall in Hv. destruct v as [|a t]; [done|].
  destruct (last (a :: t)) as [z|] eqn:Hz; [|by apply last_None in Hz].
  exists a, z. split_and!; try done; apply Hv; [left|]. by apply last_Some_elem_of in Hz.
Qed.
Lemma quoted_ok v : clean v → value_ok (quoted v).
Proof.
  intros Hv. split.
  - unfold clean, quoted in *. rewrite not_elem_of_cons, not_elem_of_app.
    split_and!; [done|done|]. by intros ?%list_elem_of_singleton.
  - exists QUOTE, QUOTE. split_and!; try done. apply (last_snoc QUOTE (QUOTE :: v)).
Qed.
Lemma digits_ok v : v ≠ [] → Forall (λ b, is_ascii_digit b = true) v → value_ok v ∧ trim v = v.
Proof.
  intros Hne Hv. assert (Hf : framed v).
  { apply framed_plain; [done|]. eapply Forall_impl; [exact Hv|]. intros b Hb.
    unfold is_ascii_digit in Hb. apply in_range_spec in Hb. unfold plain.
    apply andb_true_iff. rewrite !N.leb_le. lia. }
  split; [split; [|done]|by apply framed_trim]. intros Hin.
  rewrite Forall_forall in Hv. by apply Hv in Hin.
Qed.
Lemma print_dec_ok n : value_ok (print_dec n).
Proof. apply digits_ok; [apply print_dec_nonempty|apply print_dec_digits]. Qed.
Lemma print_bool_ok b : value_ok (print_bool b).
Proof.
  destruct b; (split; [by vm_compute; set_solver|]); (apply framed_plain; [done|]);
    by repeat constructor.
Qed.
Lemma print_int_ok z : value_ok (print_int z).
Proof.
  unfold print_int. destruct (z <? 0)%Z; [|apply print_dec_ok].
  destruct (print_dec_ok (Z.to_N (- z))) as [Hc (a & b & _ & _ & Hz & Hb)]. split.
  - unfold clean in *. apply not_elem_of_cons. split; [done|exact Hc].
  - exists HYPHEN, b. split_and!; try done. change (HYPHEN :: ?l) with ([HYPHEN] ++ l).
    by rewrite last_app, Hz.
Qed.

Lemma quoted_ends v : starts_with [QUOTE] (quoted v) = true ∧ ends_with [QUOTE] (quoted v) = true.
Proof.
  split; [done|]. apply ends_with_spec. by exists (QUOTE :: v).
Qed.
Lemma inner_wrap a z v : inner (a :: v ++ [z]) = v.
Proof.
  unfold inner. simpl. rewrite drop_0, length_app. simpl.
  replace (length v + 1 - 1)%nat with (length v) by lia. by rewrite take_app_length.
Qed.
Lemma framed_quoted v : framed (quoted v).
Proof. exists QUOTE, QUOTE. split_and!; try done. apply (last_snoc QUOTE (QUOTE :: v)). Qed.
Lemma parse_quoted v : parse_string (quoted v) = Ok v.
Proof.
  unfold parse_string. rewrite (framed_trim (quoted v) (framed_quoted v)). cbv zeta.
  destruct (quoted_ends v) as [-> ->].
  assert (inner (quoted v) = v) as -> by apply inner_wrap.
  assert (2 <=? len (quoted v) = true) as ->; [|done].
  apply N.leb_le. unfold quoted. len_lia.
Qed.
Lemma parse_number mx what n : n ≤ mx → parse_unsigned mx what (print_dec n) = Ok n.
Proof.
  intros Hn. unfold parse_unsigned.
  destruct (digits_ok (print_dec n) (print_dec_nonempty n) (print_dec_digits n)) as [_ ->].
  by rewrite parse_print_dec.
Qed.
Lemma parse_print_bool b : parse_bool (print_bool b) = Ok b.
Proof. by destruct b. Qed.

Lemma digits_not_hyphen v : Forall (λ b, is_ascii_digit b = true) v → strip_prefix [HYPHEN] v = None.
Proof.
  intros Hv. unfold strip_prefix. destruct (starts_with [HYPHEN] v) eqn:Hs; [|done].
  apply starts_with_spec in Hs as [k ->]. by inversion_clear Hv.
Qed.
Lemma parse_print_int z : i32 z → parse_i32 (print_int z) = Ok z.
Proof.
  intros [Hlo Hhi]. unfold parse_i32. destruct (print_int_ok z) as [_ ->%framed_trim].
  unfold print_int, parse_signed. destruct (Z.ltb_spec z 0) as [Hz|Hz].
  - unfold strip_prefix. cbn [starts_with]. rewrite bool_decide_true by done. simpl. rewrite drop_0.
    pose proof (print_dec_nonempty (Z.to_N (- z))) as Hne.
    pose proof (parse_digits_print (Z.to_N (- z)) 2147483648 ltac:(lia)) as Hp.
    destruct (print_dec (Z.to_N (- z))) as [|b t]; [done|]. rewrite Hp. simpl. f_equal. lia.
  - rewrite digits_not_hyphen by apply print_dec_digits.
    rewrite parse_print_dec by lia. simpl. f_equal. lia.
Qed.

(** ** Arrays *)
Lemma split_join items :
  Forall (λ x, COMMA_BYTE ∉ x) items → items ≠ [] →
  trim <$> split_byte COMMA_BYTE (join (lit ", ") items) = trim <$> items.
Proof.
  assert (Hgo : ∀ x items, COMMA_BYTE ∉ x → Forall (λ x, COMMA_BYTE ∉ x) items →
    ∀ y, trim y = trim x → COMMA_BYTE ∉ y →
    trim <$> split_byte COMMA_BYTE (y ++ match items with [] => [] | _ => lit ", " ++ join (lit ", ") items end)
    = trim <$> (x :: items)).
  { intros x l Hx Hl. revert x Hx. induction Hl as [|z l Hz Hl IH]; intros x Hx y Hxy Hy.
    - rewrite app_nil_r, split_byte_last by done. simpl. by rewrite Hxy.
    - change (lit ", " ++ ?k) with (COMMA_BYTE :: ([x20] ++ k)).
      rewrite split_byte_join by done. rewrite !fmap_cons, Hxy. f_equal.
      specialize (IH z Hz ([x20] ++ z)). rewrite <- fmap_cons, <- IH; clear IH.
      + f_equal. f_equal. destruct l; simpl; by rewrite ?app_nil_r, <- ?app_assoc.
      + apply trim_space.
      + rewrite not_elem_of_app. split; [|done]. by intros ?%list_elem_of_singleton. }
  intros Hl Hne. destruct items as [|x items]; [done|]. inversion_clear Hl as [|? ? Hx Hl'].
  rewrite <- (Hgo x items Hx Hl' x eq_refl Hx). f_equal. f_equal. destruct items; simpl; by rewrite ?app_nil_r.
Qed.

Lemma parse_strings_quoted l vs : trim <$> l = trim <$> (quoted <$> vs) → parse_strings l = Ok vs.
Proof.
  revert l. induction vs as [|v vs IH]; intros [|x l]; try done. rewrite !fmap_cons. intros [= Hx Hl].
  cbn [parse_strings]. rewrite Hx, (framed_trim (quoted v) (framed_quoted v)), parse_quoted. by rewrite (IH l Hl).
Qed.
Lemma join_framed sep items :
  items ≠ [] → Forall framed items → framed (join sep items).
Proof.
  intros Hne Hl. assert (∃ a, head (join sep items) = Some a ∧ plain a = true) as (a & Ha & Hpa).
  { destruct Hl as [|x l (a & z & Ha & Hpa & _) _]; [done|]. exists a. split; [|done].
    destruct x; [done|]. by destruct l. }
  assert (∃ z, last (join sep items) = Some z ∧ plain z = true) as (z & Hz & Hpz); [|by exists a, z].
  clear a Ha Hpa. induction Hl as [|x l (_ & z & _ & _ & Hz & Hpz) Hl IH]; [done|].
  destruct l as [|y l]; [by exists z|]. destruct (IH ltac:(done)) as (z' & Hz' & Hpz').
  exists z'. split; [|done]. change (join sep (x :: y :: l)) with (x ++ sep ++ join sep (y :: l)).
  by rewrite !last_app, Hz'.
Qed.
Lemma framed_array values : framed (array values).
Proof. exists LBRACKET, RBRACKET. split_and!; try done. apply (last_snoc RBRACKET (LBRACKET :: _)). Qed.
Lemma parse_array values : Forall item values → parse_string_array (array values) = Ok values.
Proof.
  intros Hv. unfold parse_string_array. rewrite (framed_trim _ (framed_array values)). cbv zeta.
  assert (ends_with [RBRACKET] (array values) = true) as ->.
  { apply ends_with_spec. by exists (LBRACKET :: quoted_array values). }
  assert (starts_with [LBRACKET] (array values) = true) as -> by done. cbn [negb orb].
  assert (inner (array values) = quoted_array values) as -> by apply inner_wrap.
  destruct values as [|v vs]; [done|]. unfold quoted_array.
  assert (Hf : framed (join (lit ", ") (quoted <$> v :: vs))).
  { apply join_framed; [done|]. apply Forall_fmap, Forall_forall. intros x _. apply framed_quoted. }
  rewrite (framed_trim _ Hf). rewrite bool_decide_false.
  2: { intros Hn. destruct Hf as (a & _ & Ha & _). by rewrite Hn in Ha. }
  apply parse_strings_quoted, split_join; [|done].
  apply Forall_fmap. eapply Forall_impl; [exact Hv|]. intros x [_ Hx]. simpl. unfold quoted.
  rewrite not_elem_of_cons, not_elem_of_app. split_and!; [done|done|].
  by intros ?%list_elem_of_singleton.
Qed.
Lemma join_clean sep items : clean sep → Forall clean items → clean (join sep items).
Proof.
  intros Hs. induction 1 as [|x l Hx Hl IH]; [apply clean_nil|].
  destruct l as [|y l]; [done|]. change (join sep (x :: y :: l)) with (x ++ sep ++ join sep (y :: l)).
  unfold clean in *. by rewrite !not_elem_of_app.
Qed.
Lemma array_ok values : Forall item values → value_ok (array values).
Proof.
  intros Hv. split; [|apply framed_array]. unfold array, clean. rewrite not_elem_of_cons, not_elem_of_app.
  split_and!; [done| |by intros ?%list_elem_of_singleton].
  apply join_clean; [by vm_compute; set_solver|]. apply Forall_fmap. eapply Forall_impl; [exact Hv|].
  intros x [Hx _]. by apply quoted_ok.
Qed.

(** ** Steps *)
Lemma insert_snoc {A} (l : list A) x y : <[length l := y]> (l ++ [x]) = l ++ [y].
Proof. by rewrite insert_app_r_alt, Nat.sub_diag. Qed.
Lemma update_at_snoc {A} f (l : list A) x y :
  f x = Ok y → update_at (length l) f (l ++ [x]) = Ok (l ++ [y]).
Proof.
  intros Hf. unfold update_at. rewrite list_lookup_middle by done. by rewrite Hf, insert_snoc.
Qed.
Lemma update_last_snoc {A} f (l : list A) x y :
  f x = Ok y → update_last f (l ++ [x]) = Ok (l ++ [y]).
Proof.
  intros Hf. unfold update_last. destruct (l ++ [x]) as [|a k] eqn:Hk; [by destruct l|]. rewrite <- Hk.
  rewrite length_app. simpl. replace (length l + 1 - 1)%nat with (length l) by lia.
  by apply update_at_snoc.
Qed.
Lemma edit_last_listener_snoc f d ls x y :
  cd_listeners d = ls ++ [x] → f x = Ok y →
  edit_last_listener f d = Ok (set_listeners (ls ++ [y]) d).
Proof. intros Hd Hf. unfold edit_last_listener. by rewrite Hd, (update_last_snoc f ls x y). Qed.
Lemma edit_listener_tls_snoc f d ls x t :
  cd_listeners d = ls ++ [x] →
  f (default ListenerTlsDraft_default (cd_listener_tls d !! length ls)) = Ok t →
  edit_listener_tls f d = Ok (set_listener_tls (<[length ls := t]> (cd_listener_tls d)) d).
Proof.
  intros Hd Hf. unfold edit_listener_tls. rewrite Hd, length_app. simpl.
  replace (length ls + 1 - 1)%nat with (length ls) by lia.
  destruct (ls ++ [x]) eqn:Hk; [by destruct ls|]. by rewrite Hf.
Qed.
Lemma edit_last_route_snoc f d rs x y :
  cd_routes d = rs ++ [x] → f x = Ok y → edit_last_route f d = Ok (set_routes (rs ++ [y]) d).
Proof. intros Hd Hf. unfold edit_last_route. by rewrite Hd, (update_last_snoc f rs x y). Qed.
Lemma edit_service_snoc f d ss x y :
  cd_services d = ss ++ [x] → f x = Ok y →
  edit_service (length ss) f d = Ok (set_services (ss ++ [y]) d).
Proof. intros Hd Hf. unfold edit_service. by rewrite Hd, (update_at_snoc f ss x y). Qed.

(** Evaluates the comparisons of section and key names. *)
Ltac eval_names := repeat match goal with
  | |- context [named ?a ?b] => let r := eval vm_compute in (named a b) in change (named a b) with r
  end; cbv iota; cbn [andb].
Ltac open_apply := unfold apply_mvp_config_value, apply_runtime_value, apply_metrics_value,
  apply_listener_value, apply_service_value, apply_health_check_value, apply_retry_value,
  apply_passive_value, apply_upstream_value, apply_route_value, route_edit; eval_names.

#[export] Hint Resolve quoted_ok print_dec_ok print_bool_ok print_int_ok array_ok : edge.

(** One rendered assignment, [tac] computes its effect on the draft. *)
Ltac key_step tac := eapply eq_trans;
  [eapply run_kv; [by split; [done|vm_compute]|auto with edge|open_apply; tac]|].
Ltac head_step := eapply eq_trans;
  [eapply run_line; [by vm_compute; set_solver|done|reflexivity]|].

Ltac lit_clean := unfold clean; vm_compute; set_solver.
Lemma required_clean : clean (lit "required").
Proof. lit_clean. Qed.
Lemma protocol_name_clean p : clean (protocol_name p).
Proof. destruct p; lit_clean. Qed.
Lemma state_name_clean s : clean (state_name s).
Proof. destruct s; lit_clean. Qed.
Lemma log_mode_clean m : clean (LogMode_as_str m).
Proof. destruct m; lit_clean. Qed.
Lemma load_balancing_clean p : clean (LoadBalancingPolicy_as_str p).
Proof. destruct p; lit_clean. Qed.
#[export] Hint Resolve required_clean protocol_name_clean state_name_clean log_mode_clean
  load_balancing_clean : edge.

(** ** Listeners *)
Definition bare_listener (l : Listener) : Listener :=
  {| listener_id := listener_id l; listener_bind := listener_bind l;
     listener_protocol := listener_protocol l; listener_client_auth := ClientAuthDisabled |}.
Definition auth_draft (l : Listener) : option ListenerTlsDraft :=
  match listener_client_auth l with
  | ClientAuthDisabled => None
  | ClientAuthRequired _ => Some (auth_fields (listener_client_auth l))
  end.
Definition insert_some {K A} `{Countable K} (k : K) (o : option A) (m : gmap K A) : gmap K A :=
  match o with Some x => <[k := x]> m | None => m end.

Definition add_listener (l : Listener) (d : MvpConfigDraft) : MvpConfigDraft :=
  leave_service
    (set_listener_tls (insert_some (length (cd_listeners d)) (auth_draft l) (cd_listener_tls d))
       (set_listeners (cd_listeners d ++ [bare_listener l]) d)).

Lemma parse_protocol p : parse_listener_protocol (quoted (protocol_name p)) = Ok p.
Proof. unfold parse_listener_protocol. rewrite parse_quoted. by destruct p. Qed.

Lemma run_listener l rest section d :
  listener_clean l → listener_tls_clean (auth_fields (listener_client_auth l)) →
  run (render_listener l ++ rest) section d = run rest (lit "listeners") (add_listener l d).
Proof.
  intros [Hid Hbind] [_ Href]. unfold render_listener. rewrite <- !app_assoc.
  head_step.
  key_step ltac:(eapply edit_last_listener_snoc; [reflexivity|by rewrite parse_quoted]).
  key_step ltac:(eapply edit_last_listener_snoc; [reflexivity|by rewrite parse_quoted]).
  key_step ltac:(eapply edit_last_listener_snoc; [reflexivity|by rewrite parse_protocol]).
  unfold add_listener, auth_draft. destruct (listener_client_auth l) as [|r].
  - rewrite app_nil_l, run_blank. by destruct d.
  - rewrite <- !app_assoc.
    key_step ltac:(eapply edit_listener_tls_snoc; [reflexivity|by rewrite parse_quoted]).
    key_step ltac:(eapply edit_listener_tls_snoc; [reflexivity|by rewrite parse_quoted]).
    rewrite run_blank. destruct d. cbn. by rewrite lookup_insert_eq, insert_insert_eq.
Qed.

(** ** The head *)
Definition head_draft (s : ConfigSnapshot) : MvpConfigDraft :=
  let metrics := opt_metrics (snap_runtime s) in
  Build_MvpConfigDraft (Some (snap_schema_version s)) (Some (admin_bind (snap_admin s)))
    (Some (snap_log_mode s)) (Some (opt_max_connections (snap_runtime s)))
    (Some (opt_max_inflight_payload_bytes (snap_runtime s)))
    (Some (opt_upstream_read_timeout_ms (snap_runtime s)))
    (if metrics_enabled metrics then Some true else None)
    (if metrics_enabled metrics then Some (metrics_bind metrics) else None)
    [] [] [] None None ∅ ∅ ∅ ∅ ∅ [].

Ltac number := unfold parse_u32, parse_u64, parse_u16, parse_u8, parse_usize; rewrite parse_number by
  (unfold U8_MAX, U16_MAX, U32_MAX, U64_MAX, USIZE_MAX in *; lia); reflexivity.
Ltac string_value := rewrite parse_quoted; reflexivity.

Lemma parse_log_mode m : LogMode_from_str (LogMode_as_str m) = Ok m.
Proof. by destruct m. Qed.

Lemma run_head s rest :
  snapshot_ok s → ∃ section, run (render_head s ++ rest) [] MvpConfigDraft_default
                             = run rest section (head_draft s).
Proof.
  intros [Hschema [Hadmin _] _ _ _ _ Hmc Hmp _ _ Hut Hmb]. unfold render_head, head_draft. cbv zeta.
  assert (Hon : value_ok (lit "true")) by apply (print_bool_ok true).
  exists (if metrics_enabled (opt_metrics (snap_runtime s)) then lit "metrics" else lit "runtime").
  rewrite <- !app_assoc.
  key_step number. rewrite run_blank.
  head_step. key_step string_value. key_step ltac:(reflexivity). rewrite run_blank.
  head_step. key_step ltac:(rewrite parse_quoted, parse_log_mode; reflexivity). rewrite run_blank.
  head_step. key_step number. key_step number. key_step number. rewrite run_blank.
  destruct (metrics_enabled _); [|done]. rewrite <- !app_assoc.
  head_step. key_step ltac:(reflexivity). key_step string_value. by rewrite run_blank.
Qed.

(** ** Services *)
Lemma apply_policy_set {A} missing dflt get (set : gmap nat A → MvpConfigDraft → MvpConfigDraft)
    apply_key section key d i m x y :
  cd_current_service d = Some i → get d = <[i := x]> m → apply_key x = Ok (Some y) →
  apply_policy_value missing dflt get set apply_key section key d = Ok (set (<[i := y]> m) d).
Proof.
  intros Hi Hg Hx. unfold apply_policy_value. cbv zeta.
  rewrite Hi, Hg, lookup_insert_eq. cbn [default from_option]. unfold id. rewrite Hx.
  by rewrite insert_insert_eq.
Qed.

Definition health_draft (p : HealthCheckPolicy) : option HttpHealthCheckDraft :=
  match p with
  | HealthDisabled => None
  | HealthHttp h => Some
      {| hcd_enabled := Some true; hcd_path := Some (hc_path h);
         hcd_interval_ms := Some (hc_interval_ms h); hcd_timeout_ms := Some (hc_timeout_ms h);
         hcd_healthy_threshold := Some (hc_healthy_threshold h);
         hcd_unhealthy_threshold := Some (hc_unhealthy_threshold h);
         hcd_status_min := Some (hc_status_min h); hcd_status_max := Some (hc_status_max h) |}
  end.
Definition retry_draft (r : RetryPolicy) : RetryPolicyDraft :=
  {| rpd_enabled := Some (retry_enabled r); rpd_max_retries := Some (retry_max_retries r);
     rpd_max_replay_bytes := Some (retry_max_replay_bytes r) |}.
Definition passive_draft (p : PassiveHealthMode) : PassiveHealthPolicyDraft :=
  let '(enabled, failure_threshold, ejection_ms) := passive_values p in
  {| phd_enabled := Some enabled; phd_failure_threshold := Some failure_threshold;
     phd_ejection_ms := Some ejection_ms |}.

(** The numbers of an accepted policy have their widths. *)
Lemma rendered_health_bounds h :
  HttpHealthCheckPolicy_new (hc_path h) (hc_interval_ms h) (hc_timeout_ms h)
    (hc_healthy_threshold h) (hc_unhealthy_threshold h) (hc_status_min h) (hc_status_max h) = Ok h →
  hc_interval_ms h ≤ 86400000 ∧ hc_timeout_ms h ≤ 30000 ∧ hc_healthy_threshold h ≤ 10
  ∧ hc_unhealthy_threshold h ≤ 10 ∧ hc_status_min h ≤ 599 ∧ hc_status_max h ≤ 599.
Proof.
  unfold HttpHealthCheckPolicy_new, between. intros H. repeat (case_match; [done|]). nbool. lia.
Qed.
Lemma rendered_retry_bounds r :
  RetryPolicy_new (retry_enabled r) (retry_max_retries r) (retry_max_replay_bytes r) = Ok r →
  retry_max_retries r ≤ 1 ∧ retry_max_replay_bytes r ≤ 65536.
Proof. unfold RetryPolicy_new, between. case_match; [done|]. intros _. nbool. lia. Qed.
Lemma rendered_passive_bounds p :
  (∀ q, p = PassiveModeEnabled q → PassiveHealthPolicy_new (ph_failure_threshold q) (ph_ejection_ms q) = Ok q) →
  (passive_values p).1.2 ≤ 10 ∧ (passive_values p).2 ≤ 86400000.
Proof.
  destruct p as [|q]; simpl; [lia|]. intros H. specialize (H q eq_refl).
  unfold PassiveHealthPolicy_new, between in H. case_match; [done|]. nbool. lia.
Qed.

Section service_policies.
Context (d : MvpConfigDraft) (i : nat) (rest section : list byte).
Context (Hcur : cd_current_service d = Some i) (Hup : cd_current_upstream d = None).

Ltac policy_header := destruct d; cbn in Hcur, Hup; subst; reflexivity.

Lemma health_header : parse_line (lit "[services.health_check]") section d
  = Ok (lit "services.health_check",
        set_health_checks (or_default HttpHealthCheckDraft_default i (cd_health_checks d)) d).
Proof using Hcur Hup. policy_header. Qed.
Lemma retry_header : parse_line (lit "[services.retry]") section d
  = Ok (lit "services.retry",
        set_retry_policies (or_default RetryPolicyDraft_default i (cd_retry_policies d)) d).
Proof using Hcur Hup. policy_header. Qed.
Lemma passive_header : parse_line (lit "[services.passive_health]") section d
  = Ok (lit "services.passive_health",
        set_passive_health_policies
          (or_default PassiveHealthPolicyDraft_default i (cd_passive_health_policies d)) d).
Proof using Hcur Hup. policy_header. Qed.

Ltac table_step lem := eapply eq_trans;
  [eapply run_line; [by vm_compute; set_solver|done|exact lem]|].
Ltac policy_step tac :=
  key_step ltac:(eapply apply_policy_set; [exact Hcur|reflexivity|
    unfold apply_health_check_key, apply_retry_key, apply_passive_key; cbv beta iota zeta;
    eval_names; tac]).

Lemma run_health h :
  (∀ p, h = HealthHttp p → clean (hc_path p) ∧
     HttpHealthCheckPolicy_new (hc_path p) (hc_interval_ms p) (hc_timeout_ms p)
      (hc_healthy_threshold p) (hc_unhealthy_threshold p) (hc_status_min p) (hc_status_max p) = Ok p) →
  ∃ section', run (render_health_check h ++ rest) section d
  = run rest section' (set_health_checks (insert_some i (health_draft h) (cd_health_checks d)) d).
Proof using Hcur Hup.
  intros Hh. destruct h as [|p]; [exists section; by destruct d|].
  destruct (Hh p eq_refl) as [Hpath Hb]. apply rendered_health_bounds in Hb as (? & ? & ? & ? & ? & ?).
  exists (lit "services.health_check"). unfold render_health_check. rewrite <- !app_assoc.
  assert (Hon : value_ok (lit "true")) by apply (print_bool_ok true).
  table_step health_header. unfold or_default. destruct (default _ _).
  policy_step ltac:(reflexivity). policy_step string_value.
  policy_step number. policy_step number. policy_step number. policy_step number.
  policy_step number. policy_step number. rewrite run_blank. by destruct d.
Qed.
Lemma run_retry r :
  RetryPolicy_new (retry_enabled r) (retry_max_retries r) (retry_max_replay_bytes r) = Ok r →
  run (render_retry r ++ rest) section d
  = run rest (lit "services.retry") (set_retry_policies (<[i := retry_draft r]> (cd_retry_policies d)) d).
Proof using Hcur Hup.
  intros [? ?]%rendered_retry_bounds. unfold render_retry. rewrite <- !app_assoc.
  table_step retry_header. unfold or_default. destruct (default _ _).
  policy_step ltac:(rewrite parse_print_bool; reflexivity). policy_step number. policy_step number.
  rewrite run_blank. by destruct d.
Qed.
Lemma run_passive p :
  (∀ q, p = PassiveModeEnabled q → PassiveHealthPolicy_new (ph_failure_threshold q) (ph_ejection_ms q) = Ok q) →
  run (render_passive p ++ rest) section d
  = run rest (lit "services.passive_health")
      (set_passive_health_policies (<[i := passive_draft p]> (cd_passive_health_policies d)) d).
Proof using Hcur Hup.
  intros Hb%rendered_passive_bounds. unfold render_passive, passive_draft.
  destruct (passive_values p) as [[enabled threshold] ms]. simpl in Hb. destruct Hb.
  rewrite <- !app_assoc. table_step passive_header. unfold or_default. destruct (default _ _).
  policy_step ltac:(rewrite parse_print_bool; reflexivity). policy_step number. policy_step number.
  rewrite run_blank. by destruct d.
Qed.
End service_policies.

(** The drafts of the elements of a list, by position. *)
Fixpoint index_drafts {K A B} `{Countable K} (key : nat → K) (f : A → option B) (k : nat)
    (l : list A) (m : gmap K B) : gmap K B :=
  match l with
  | [] => m
  | x :: l => index_drafts key f (S k) l (insert_some (key k) (f x) m)
  end.

Definition bare_upstream (u : Upstream) : Upstream := set_up_tls TlsDisabled u.
Definition tls_draft (u : Upstream) : option UpstreamTlsDraft :=
  match up_tls u with
  | TlsDisabled => None
  | TlsServerAuthenticated _ _ _ => Some (tls_fields (up_tls u))
  end.

Lemma upstream_header section d ss s0 :
  cd_services d = ss ++ [s0] → cd_current_service d = Some (length ss) →
  parse_line (lit "[[services.upstreams]]") section d
  = Ok (lit "services.upstreams",
        set_current_upstream (Some (length ss, length (svc_upstreams s0)))
          (set_services (ss ++ [set_svc_upstreams (svc_upstreams s0 ++ [new_upstream]) s0]) d)).
Proof.
  intros Hss Hcur.
  transitivity (let? d := open_array_section (lit "services.upstreams") d in
                Ok (lit "services.upstreams", d)); [reflexivity|].
  unfold open_array_section. eval_names. rewrite Hcur, Hss, list_lookup_middle by done. cbv zeta.
  rewrite insert_snoc, length_app. simpl.
  by replace (length (svc_upstreams s0) + 1 - 1)%nat with (length (svc_upstreams s0)) by lia.
Qed.
Lemma edit_upstream_snoc f d ss s0 us u v :
  cd_current_upstream d = Some (length ss, length us) → cd_services d = ss ++ [s0] →
  svc_upstreams s0 = us ++ [u] → f u = Ok v →
  edit_upstream f d = Ok (set_services (ss ++ [set_svc_upstreams (us ++ [v]) s0]) d).
Proof.
  intros Hcur Hss Hus Hf. unfold edit_upstream. rewrite Hcur.
  eapply edit_service_snoc; [exact Hss|]. by rewrite Hus, (update_at_snoc f us u v).
Qed.
Lemma edit_upstream_tls_set f d k t :
  cd_current_upstream d = Some k →
  f (default UpstreamTlsDraft_default (cd_upstream_tls d !! k)) = Ok t →
  edit_upstream_tls f d = Ok (set_upstream_tls (<[k := t]> (cd_upstream_tls d)) d).
Proof. intros Hk Hf. unfold edit_upstream_tls. by rewrite Hk, Hf. Qed.

Lemma parse_state s : parse_administrative_state (quoted (state_name s)) = Ok s.
Proof. unfold parse_administrative_state. rewrite parse_quoted. by destruct s. Qed.

Definition add_upstream (u : Upstream) (ss : list Service) (s0 : Service) (d : MvpConfigDraft)
  : MvpConfigDraft :=
  let k := (length ss, length (svc_upstreams s0)) in
  set_current_upstream (Some k)
    (set_upstream_tls (insert_some k (tls_draft u) (cd_upstream_tls d))
       (set_services (ss ++ [set_svc_upstreams (svc_upstreams s0 ++ [bare_upstream u]) s0]) d)).

Lemma run_upstream u rest section d ss s0 :
  upstream_clean u → upstream_tls_clean (tls_fields (up_tls u)) →
  cd_services d = ss ++ [s0] → cd_current_service d = Some (length ss) →
  run (render_upstream u ++ rest) section d
  = run rest (lit "services.upstreams") (add_upstream u ss s0 d).
Proof.
  intros [Hid Hurl] (Hn & Hh & Hr) Hss Hcur. unfold render_upstream. rewrite <- !app_assoc.
  eapply eq_trans; [eapply run_line; [by vm_compute; set_solver|done|by apply upstream_header]|].
  key_step ltac:(eapply edit_upstream_snoc; [reflexivity..|string_value]).
  key_step ltac:(eapply edit_upstream_snoc; [reflexivity..|string_value]).
  unfold add_upstream, tls_draft. destruct (up_tls u) as [|n h r].
  - rewrite app_nil_l.
    key_step ltac:(eapply edit_upstream_snoc; [reflexivity..|rewrite parse_state; reflexivity]).
    rewrite run_blank. by destruct d.
  - rewrite <- !app_assoc.
    key_step ltac:(eapply edit_upstream_tls_set; [reflexivity|string_value]).
    key_step ltac:(eapply edit_upstream_tls_set; [reflexivity|string_value]).
    key_step ltac:(eapply edit_upstream_tls_set; [reflexivity|string_value]).
    key_step ltac:(eapply edit_upstream_snoc; [reflexivity..|rewrite parse_state; reflexivity]).
    rewrite run_blank. destruct d. cbn.
    by rewrite !lookup_insert_eq, !insert_insert_eq.
Qed.

Lemma run_upstreams us rest section d ss s0 :
  Forall upstream_clean us → Forall (λ u, upstream_tls_clean (tls_fields (up_tls u))) us →
  cd_services d = ss ++ [s0] → cd_current_service d = Some (length ss) →
  ∃ section' cu,
    run (concat (render_upstream <$> us) ++ rest) section d
    = run rest section' (set_current_upstream cu
        (set_upstream_tls (index_drafts (λ j, (length ss, j)) tls_draft
                             (length (svc_upstreams s0)) us (cd_upstream_tls d))
           (set_services (ss ++ [set_svc_upstreams (svc_upstreams s0 ++ (bare_upstream <$> us)) s0]) d))).
Proof.
  intros Hc. revert section d s0. induction Hc as [|u us Hu Hc IH]; intros section d s0 Ht Hss Hcur.
  - exists section, (cd_current_upstream d). cbn [fmap list_fmap concat app index_drafts].
    assert (set_svc_upstreams (svc_upstreams s0 ++ []) s0 = s0) as ->
      by (rewrite app_nil_r; by destruct s0).
    rewrite <- Hss. by destruct d.
  - inversion_clear Ht as [|? ? Hut Ht']. rewrite !fmap_cons. cbn [concat]. rewrite <- app_assoc.
    rewrite (run_upstream u _ section d ss s0) by done.
    destruct (IH (lit "services.upstreams") (add_upstream u ss s0 d)
      (set_svc_upstreams (svc_upstreams s0 ++ [bare_upstream u]) s0) Ht' eq_refl Hcur) as (section' & cu & ->).
    exists section', cu. f_equal. cbn [svc_upstreams set_svc_upstreams]. rewrite length_app, <- app_assoc.
    cbn [length]. rewrite Nat.add_1_r. by destruct d.
Qed.

Definition bare_service (s : Service) : Service :=
  {| svc_id := svc_id s; svc_upstreams := bare_upstream <$> svc_upstreams s;
     svc_policy := ServicePolicy_default |}.

Definition add_service (s : Service) (d : MvpConfigDraft) : MvpConfigDraft :=
  let i := length (cd_services d) in
  set_current_upstream None
   (set_current_service (Some i)
    (set_services (cd_services d ++ [bare_service s])
     (set_health_checks
        (insert_some i (health_draft (sp_health_check (svc_policy s))) (cd_health_checks d))
      (set_retry_policies (<[i := retry_draft (sp_retry (svc_policy s))]> (cd_retry_policies d))
       (set_passive_health_policies
          (<[i := passive_draft (sp_passive_health (svc_policy s))]> (cd_passive_health_policies d))
        (set_upstream_tls
           (index_drafts (λ j, (i, j)) tls_draft 0 (svc_upstreams s) (cd_upstream_tls d)) d)))))).

Lemma service_header section d :
  parse_line (lit "[[services]]") section d
  = Ok (lit "services",
        set_current_upstream None
          (set_current_service (Some (length (cd_services d)))
             (set_services (cd_services d ++ [new_service]) d))).
Proof.
  transitivity (let? d := open_array_section (lit "services") d in Ok (lit "services", d)); [reflexivity|].
  unfold open_array_section. eval_names. cbv zeta. cbn [cd_services set_services].
  rewrite length_app. cbn [length].
  by replace (length (cd_services d) + 1 - 1)%nat with (length (cd_services d)) by lia.
Qed.

Lemma run_service schema s rest section d :
  service_ok schema s →
  ∃ section' cu, run (render_service s ++ rest) section d
                 = run rest section' (set_current_upstream cu (add_service s d)).
Proof.
  intros [Hid Hus _ [Hh Hr Hp]]. unfold render_service. rewrite <- !app_assoc.
  assert (Forall upstream_clean (svc_upstreams s)) as Hc
    by (eapply Forall_impl; [exact Hus|]; by intros ? []).
  assert (Forall (λ u, upstream_tls_clean (tls_fields (up_tls u))) (svc_upstreams s)) as Ht
    by (eapply Forall_impl; [exact Hus|]; by intros ? []).
  erewrite (run_line (lit "[[services]]")); [|lit_clean|done|apply service_header].
  erewrite (run_kv "name"); [|by split; [done|vm_compute]|by apply quoted_ok|
    open_apply; eapply edit_service_snoc; [reflexivity|string_value]].
  erewrite (run_kv "load_balancer"); [|by split; [done|vm_compute]|auto with edge|
    open_apply; eapply edit_service_snoc; [reflexivity|
      rewrite parse_quoted; destruct (sp_load_balancing _); reflexivity]].
  rewrite run_blank.
  edestruct (run_health) as (section1 & ->); [reflexivity|reflexivity|exact Hh|].
  erewrite run_retry; [|reflexivity|reflexivity|exact Hr].
  erewrite run_passive; [|reflexivity|reflexivity|exact Hp].
  edestruct (run_upstreams (svc_upstreams s)) as (section2 & cu & ->);
    [exact Hc|exact Ht|reflexivity|reflexivity|].
  exists section2, cu. by destruct d.
Qed.

(** ** Routes *)
Definition add_route (r : Route) (d : MvpConfigDraft) : MvpConfigDraft :=
  leave_service (set_routes (cd_routes d ++ [r]) d).

(** What the text of a route keeps: matches in normal form, prefixes before exact paths. *)
Record canonical_route (r : Route) : Prop := {
  cr_hosts : Forall (λ h, normalize_host (hm_normalized h) = hm_normalized h) (rm_hosts (route_match r));
  cr_paths : Forall (λ p, normalize_path (pm_prefix p) = pm_prefix p) (rm_paths (route_match r));
  cr_order : rm_paths (route_match r)
             = List.filter (λ p, negb (pm_exact p)) (rm_paths (route_match r))
               ++ List.filter pm_exact (rm_paths (route_match r))
}.

Lemma filter_paths_fixed (f : PathMatch → bool) (mk : list byte → PathMatch) ps :
  Forall (λ p, normalize_path (pm_prefix p) = pm_prefix p) ps →
  (∀ p, f p = true → normalize_path (pm_prefix p) = pm_prefix p → mk (pm_prefix p) = p) →
  mk <$> (pm_prefix <$> List.filter f ps) = List.filter f ps.
Proof.
  intros Hps Hmk. induction Hps as [|p ps Hp Hps IH]; [done|]. cbn [List.filter].
  destruct (f p) eqn:Hf; [|done]. rewrite !fmap_cons, IH. by rewrite Hmk.
Qed.
Lemma prefix_fixed m :
  Forall (λ p, normalize_path (pm_prefix p) = pm_prefix p) (rm_paths m) →
  PathMatch_prefix <$> prefix_paths m = List.filter (λ p, negb (pm_exact p)) (rm_paths m).
Proof.
  intros H. apply filter_paths_fixed; [done|]. intros [p e] He Hp. simpl in *.
  unfold PathMatch_prefix. rewrite Hp. by destruct e.
Qed.
Lemma exact_fixed m :
  Forall (λ p, normalize_path (pm_prefix p) = pm_prefix p) (rm_paths m) →
  PathMatch_exact <$> exact_paths m = List.filter pm_exact (rm_paths m).
Proof.
  intros H. apply filter_paths_fixed; [done|]. intros [p e] He Hp. simpl in *.
  unfold PathMatch_exact. rewrite Hp. by destruct e.
Qed.
Lemma hosts_fixed hs :
  Forall (λ h, normalize_host (hm_normalized h) = hm_normalized h) hs →
  HostMatch_exact <$> (hm_normalized <$> hs) = hs.
Proof.
  induction 1 as [|[h] hs Hh Hhs IH]; [done|]. rewrite !fmap_cons, IH. unfold HostMatch_exact.
  simpl in *. by rewrite Hh.
Qed.
Lemma paths_items f m :
  Forall (λ p, item (pm_prefix p)) (rm_paths m) → Forall item (pm_prefix <$> List.filter f (rm_paths m)).
Proof.
  intros H. apply Forall_fmap. rewrite Forall_forall in H |- *. intros p Hp.
  apply H. rewrite list_elem_of_In in Hp |- *. by apply filter_In in Hp as [? _].
Qed.

(** The match of a route after its [hosts], [paths] and [exact_paths] lines. *)
Lemma canonical_match r :
  canonical_route r →
  {| rm_hosts := HostMatch_exact <$> (hm_normalized <$> rm_hosts (route_match r));
     rm_paths := ([] ++ (PathMatch_prefix <$> prefix_paths (route_match r)))
                 ++ (PathMatch_exact <$> exact_paths (route_match r)) |} = route_match r.
Proof.
  intros [Hh Hp Ho]. rewrite hosts_fixed, prefix_fixed, exact_fixed by done.
  rewrite app_nil_l, <- Ho. by destruct (route_match r).
Qed.

(** The two lines of a route that are written only when there is something to write. *)
Definition set_route_match (m : RouteMatch) (r : Route) : Route :=
  Build_Route (route_id r) m (route_service_id r) (route_priority r) (route_enabled r)
    (route_redirect_http_to_https r) (route_certificate_resolver_id r) (route_certificate_ref r).
Definition set_route_certificate (c : option (list byte)) (r : Route) : Route :=
  Build_Route (route_id r) (route_match r) (route_service_id r) (route_priority r) (route_enabled r)
    (route_redirect_http_to_https r) (route_certificate_resolver_id r) c.

Section route_lines.
Context (d : MvpConfigDraft) (rs : list Route) (x : Route) (rest : list byte).
Context (Hd : cd_routes d = rs ++ [x]).

Lemma run_exact_paths paths :
  Forall item paths →
  run ((if bool_decide (paths = []) then [] else kv "exact_paths" (array paths)) ++ rest) (lit "routes") d
  = run rest (lit "routes")
      (set_routes (rs ++ [set_route_match (extend_route_paths (PathMatch_exact <$> paths) (route_match x)) x]) d).
Proof using Hd.
  intros Hp. case_bool_decide as Hn.
  - subst paths. f_equal.
    assert (set_route_match (extend_route_paths (PathMatch_exact <$> []) (route_match x)) x = x) as ->.
    { destruct x as [? []]. unfold set_route_match, extend_route_paths. simpl. by rewrite app_nil_r. }
    rewrite <- Hd. by destruct d.
  - key_step ltac:(eapply edit_last_route_snoc; [exact Hd|rewrite parse_array by done; reflexivity]). done.
Qed.
Lemma run_certificate c :
  opt_clean c → route_certificate_ref x = None →
  run (match c with None => [] | Some r => kv "certificate_ref" (quoted r) end ++ rest) (lit "routes") d
  = run rest (lit "routes") (set_routes (rs ++ [set_route_certificate c x]) d).
Proof using Hd.
  intros Hc Hx. destruct c as [c|].
  - assert (clean c) by (by apply Hc).
    key_step ltac:(eapply edit_last_route_snoc; [exact Hd|string_value]). done.
  - f_equal. assert (set_route_certificate None x = x) as -> by (destruct x; simpl in Hx; by subst).
    rewrite <- Hd. by destruct d.
Qed.
End route_lines.

Ltac route_cbn := cbn [route_id route_match route_service_id route_priority route_enabled
  route_redirect_http_to_https route_certificate_resolver_id route_certificate_ref set_route_match
  set_route_certificate rm_hosts rm_paths set_route_hosts extend_route_paths new_route].
Ltac route_step tac :=
  key_step ltac:(eapply edit_last_route_snoc; [reflexivity|cbv beta; tac; route_cbn; reflexivity]).

Lemma run_route r rest section d :
  route_clean r → canonical_route r →
  run (render_route r ++ rest) section d = run rest (lit "routes") (add_route r d).
Proof.
  intros [Hid Hsvc Hhosts Hpaths Hprio Hres Hcert] Hcanon. unfold render_route. rewrite <- !app_assoc.
  assert (Forall item (hm_normalized <$> rm_hosts (route_match r))) as Hh by (by apply Forall_fmap).
  pose proof (paths_items (λ p, negb (pm_exact p)) _ Hpaths) as Hpre. fold (prefix_paths (route_match r)) in Hpre.
  pose proof (paths_items pm_exact _ Hpaths) as Hex. fold (exact_paths (route_match r)) in Hex.
  pose proof (canonical_match r Hcanon) as Hm.
  head_step.
  route_step ltac:(rewrite parse_quoted).
  route_step ltac:(rewrite parse_array by done).
  route_step ltac:(rewrite parse_array by done).
  eapply eq_trans; [eapply run_exact_paths; [reflexivity|done]|]. route_cbn.
  route_step ltac:(rewrite parse_quoted).
  route_step ltac:(rewrite parse_print_int by done).
  route_step ltac:(rewrite parse_print_bool).
  eapply eq_trans; [eapply run_certificate; [reflexivity|done|reflexivity]|]. route_cbn.
  route_step ltac:(rewrite parse_print_bool).
  rewrite run_blank. unfold add_route.
  match goal with |- run _ _ (set_routes (_ ++ [?x]) _) = _ => assert (x = r) as -> end.
  { destruct r. cbn in *. subst. f_equal. exact Hm. }
  by destruct d.
Qed.

(** ** Lists of sections *)
Ltac snoc_lists := rewrite <- ?app_assoc, ?length_app; cbn [length app]; rewrite ?Nat.add_1_r.

Lemma run_listeners ls rest section d schema :
  Forall (listener_ok schema) ls →
  ∃ section' cs cu,
    run (concat (render_listener <$> ls) ++ rest) section d
    = run rest section' (set_current_upstream cu (set_current_service cs
        (set_listener_tls (index_drafts id auth_draft (length (cd_listeners d)) ls (cd_listener_tls d))
           (set_listeners (cd_listeners d ++ (bare_listener <$> ls)) d)))).
Proof.
  intros Hl. revert section d. induction Hl as [|l ls [Hc Ht _] Hl IH]; intros section d.
  - exists section, (cd_current_service d), (cd_current_upstream d).
    cbn [fmap list_fmap concat app index_drafts]. rewrite app_nil_r. by destruct d.
  - rewrite !fmap_cons. cbn [concat]. rewrite <- app_assoc, run_listener by done.
    destruct (IH (lit "listeners") (add_listener l d)) as (section' & cs & cu & ->).
    exists section', cs, cu. f_equal. unfold add_listener. cbn -[app length]. snoc_lists. by destruct d.
Qed.

Fixpoint index_tls (k : nat) (ss : list Service) (m : gmap (nat * nat) UpstreamTlsDraft)
  : gmap (nat * nat) UpstreamTlsDraft :=
  match ss with
  | [] => m
  | s :: ss => index_tls (S k) ss (index_drafts (λ j, (k, j)) tls_draft 0 (svc_upstreams s) m)
  end.

Definition add_services (ss : list Service) (d : MvpConfigDraft) : MvpConfigDraft :=
  let k := length (cd_services d) in
  set_services (cd_services d ++ (bare_service <$> ss))
   (set_health_checks
      (index_drafts id (λ s, health_draft (sp_health_check (svc_policy s))) k ss (cd_health_checks d))
    (set_retry_policies
       (index_drafts id (λ s, Some (retry_draft (sp_retry (svc_policy s)))) k ss (cd_retry_policies d))
     (set_passive_health_policies
        (index_drafts id (λ s, Some (passive_draft (sp_passive_health (svc_policy s)))) k ss
           (cd_passive_health_policies d))
      (set_upstream_tls (index_tls k ss (cd_upstream_tls d)) d)))).

Lemma run_services ss rest section d schema :
  Forall (service_ok schema) ss →
  ∃ section' cs cu,
    run (concat (render_service <$> ss) ++ rest) section d
    = run rest section' (set_current_upstream cu (set_current_service cs (add_services ss d))).
Proof.
  intros Hs. revert section d. induction Hs as [|s ss Hs Hss IH]; intros section d.
  - exists section, (cd_current_service d), (cd_current_upstream d).
    unfold add_services. cbn [fmap list_fmap concat app index_drafts index_tls]. rewrite app_nil_r.
    by destruct d.
  - rewrite !fmap_cons. cbn [concat]. rewrite <- app_assoc.
    destruct (run_service schema s (concat (render_service <$> ss) ++ rest) section d Hs)
      as (section1 & cu1 & ->).
    destruct (IH section1 (set_current_upstream cu1 (add_service s d))) as (section' & cs & cu & ->).
    exists section', cs, cu. f_equal. unfold add_services, add_service. cbn -[app length].
    snoc_lists. by destruct d.
Qed.

Lemma run_routes rs rest section d :
  Forall route_clean rs → Forall canonical_route rs →
  ∃ section' cs cu,
    run (concat (render_route <$> rs) ++ rest) section d
    = run rest section' (set_current_upstream cu (set_current_service cs
        (set_routes (cd_routes d ++ rs) d))).
Proof.
  intros Hr. revert section d. induction Hr as [|r rs Hr Hrs IH]; intros section d Hc.
  - exists section, (cd_current_service d), (cd_current_upstream d).
    cbn [fmap list_fmap concat app]. rewrite app_nil_r. by destruct d.
  - inversion_clear Hc as [|? ? Hc1 Hc2]. rewrite !fmap_cons. cbn [concat].
    rewrite <- app_assoc, run_route by done.
    destruct (IH (lit "routes") (add_route r d) Hc2) as (section' & cs & cu & ->).
    exists section', cs, cu. f_equal. unfold add_route. cbn -[app length]. snoc_lists. by destruct d.
Qed.

(** ** Drafts by position *)
Lemma lookup_insert_some {K A} `{Countable K} (k q : K) (o : option A) m :
  insert_some k o m !! q = if decide (q = k) then match o with Some x => Some x | None => m !! q end
                           else m !! q.
Proof.
  unfold insert_some. destruct o; case_decide; subst; by rewrite ?lookup_insert_eq, ?lookup_insert_ne.
Qed.
Lemma index_drafts_other {K A B} `{Countable K} (key : nat → K) (f : A → option B) k l m q :
  (∀ j, key j ≠ q) → index_drafts key f k l m !! q = m !! q.
Proof.
  intros Hq. revert k m. induction l as [|x l IH]; intros k m; [done|]. cbn [index_drafts].
  rewrite IH, lookup_insert_some, decide_False; [done|]. intros ->. by apply (Hq k).
Qed.
Lemma index_drafts_lookup {K A B} `{Countable K} (key : nat → K) `{!Inj (=) (=) key}
    (f : A → option B) k l m i :
  (∀ j, (k ≤ j)%nat → m !! key j = None) →
  index_drafts key f k l m !! key i
  = if decide (k ≤ i)%nat then (l !! (i - k)%nat) ≫= f else m !! key i.
Proof.
  revert k m. induction l as [|x l IH]; intros k m Hm; cbn [index_drafts].
  - case_decide as Hk; [|done]. by rewrite Hm.
  - rewrite IH; last first.
    { intros j Hj. rewrite lookup_insert_some, decide_False; [apply Hm; lia|]. intros ->%(inj key). lia. }
    rewrite lookup_insert_some. destruct (decide (S k ≤ i)%nat), (decide (k ≤ i)%nat); try lia.
    + replace (i - k)%nat with (S (i - S k)) by lia. done.
    + assert (i = k) as -> by lia. rewrite decide_True, Nat.sub_diag by done. simpl.
      destruct (f x); [done|]. by apply Hm.
    + rewrite decide_False; [done|]. intros ->%(inj key). lia.
Qed.
Lemma index_tls_lookup k ss m i j :
  (∀ i j, (k ≤ i)%nat → m !! (i, j) = None) →
  index_tls k ss m !! (i, j)
  = if decide (k ≤ i)%nat then (ss !! (i - k)%nat) ≫= λ s, (svc_upstreams s !! j) ≫= tls_draft
    else m !! (i, j).
Proof.
  revert k m. induction ss as [|s ss IH]; intros k m Hm; cbn [index_tls].
  - case_decide as Hk; [|done]. by rewrite Hm.
  - assert (Hother : ∀ i j, i ≠ k → index_drafts (λ j, (k, j)) tls_draft 0 (svc_upstreams s) m !! (i, j) = m !! (i, j)).
    { intros. apply index_drafts_other. congruence. }
    rewrite IH by (intros; rewrite Hother by lia; apply Hm; lia).
    destruct (decide (S k ≤ i)%nat), (decide (k ≤ i)%nat); try lia.
    + replace (i - k)%nat with (S (i - S k)) by lia. done.
    + assert (i = k) as -> by lia. rewrite Nat.sub_diag. simpl.
      assert (Inj (=) (=) (λ j : nat, (k, j))) by congruence.
      rewrite (index_drafts_lookup (λ j, (k, j)) tls_draft 0 (svc_upstreams s) m j)
        by (intros; by apply Hm).
      rewrite decide_True by lia. by rewrite Nat.sub_0_r.
    + apply Hother. lia.
Qed.
