(* ===== verification/ConfigRoundtrip.v ===== *)
(** * Rendering and reading back

    The round trip of config_rendering.rs with mvp_config_parser.rs: what is written is read
    back, for every snapshot the parser can deliver that is in canonical form; and the parts of
    a snapshot the text does not keep. *)

From stdpp Require Import base gmap strings list sorting.
From Stdlib Require Import Strings.Byte NArith ZArith Lia.
From S2P Require Import Prelude Errors RustStr Resource Endpoint UpstreamPolicy Snapshot ConfigParser ConfigDraft ConfigRender.
Local Open Scope N_scope.

(** ** Normalising what was rendered *)
Lemma try_imap_fmap {A B C} (f : nat → B → result AppError C) (g : A → B) (h : A → C) k l :
  (∀ i x, l !! i = Some x → f (k + i)%nat (g x) = Ok (h x)) →
  try_imap f k (g <$> l) = Ok (h <$> l).
Proof.
  revert k. induction l as [|x l IH]; intros k Hf; [done|]. rewrite !fmap_cons. cbn [try_imap].
  pose proof (Hf 0%nat x eq_refl) as H0. rewrite Nat.add_0_r in H0. rewrite H0, IH; [done|].
  intros i y Hy. replace (S k + i)%nat with (k + S i)%nat by lia. by apply Hf.
Qed.

Lemma update_indexed_ok {A} missing f (m : gmap nat A) keys l l' :
  NoDup keys →
  (∀ i, i ∈ keys → ∃ x s s', m !! i = Some x ∧ l !! i = Some s ∧ l' !! i = Some s' ∧ f x s = Ok s') →
  (∀ i, i ∉ keys → l !! i = l' !! i) → update_indexed missing f m keys l = Ok l'.
Proof.
  intros Hnd. revert l. induction Hnd as [|k keys Hk Hnd IH]; intros l Hin Hout; simpl.
  - f_equal. apply list_eq. intros i. apply Hout. set_solver.
  - destruct (Hin k ltac:(left)) as (x & s & s' & Hx & Hs & Hs' & Hf). rewrite Hs, Hx, Hf.
    apply IH.
    + intros i Hi. assert (i ≠ k) by (by intros ->). rewrite list_lookup_insert_ne by done.
      apply Hin. by right.
    + intros i Hi. destruct (decide (i = k)) as [->|Hne].
      * rewrite list_lookup_insert_eq by (by eapply lookup_lt_Some). done.
      * rewrite list_lookup_insert_ne by done. apply Hout. set_solver.
Qed.
Lemma update_indexed_fmap {A} missing f (m : gmap nat A) (g : Service → option A) h h' ss :
  (∀ i, m !! i = (ss !! i) ≫= g) →
  (∀ s, s ∈ ss → match g s with Some x => f x (h s) = Ok (h' s) | None => h s = h' s end) →
  update_indexed missing f m (indices m) (h <$> ss) = Ok (h' <$> ss).
Proof.
  intros Hm Hf.
  assert (Hkeys : ∀ i, i ∈ indices m ↔ is_Some (m !! i)).
  { intros i. unfold indices. rewrite merge_sort_Permutation, list_elem_of_fmap. split.
    - intros ([j x] & -> & Hx%elem_of_map_to_list). by exists x.
    - intros [x Hx]. exists (i, x). by rewrite elem_of_map_to_list. }
  apply update_indexed_ok.
  - unfold indices. rewrite merge_sort_Permutation. apply NoDup_fst_map_to_list.
  - intros i [x Hx]%Hkeys. rewrite Hm in Hx. apply bind_Some in Hx as (s & Hs & Hg).
    exists x, (h s), (h' s). rewrite Hm, !list_lookup_fmap, Hs. simpl. split_and!; try done.
    specialize (Hf s ltac:(by eapply list_elem_of_lookup_2)). by rewrite Hg in Hf.
  - intros i Hi. rewrite !list_lookup_fmap. destruct (ss !! i) as [s|] eqn:Hs; [|done]. simpl. f_equal.
    destruct (g s) as [x|] eqn:Hg.
    + exfalso. apply Hi, Hkeys. rewrite Hm, Hs. simpl. by rewrite Hg.
    + specialize (Hf s ltac:(by eapply list_elem_of_lookup_2)). by rewrite Hg in Hf.
Qed.

Definition with_policy (p : ServicePolicy) (s : Service) : Service := set_svc_policy p s.

Lemma normalize_bare_listener schema drafts i l :
  listener_ok schema l → drafts !! i = auth_draft l →
  normalize_listener schema drafts i (bare_listener l) = Ok l.
Proof.
  intros [_ _ Ha] Hi. unfold normalize_listener. rewrite Hi. cbv zeta.
  assert (default ListenerTlsDraft_default (auth_draft l) = auth_fields (listener_client_auth l)) as ->
    by (unfold auth_draft; by destruct (listener_client_auth l)).
  cbn [listener_protocol bare_listener]. rewrite Ha. simpl. by destruct l.
Qed.
Lemma normalize_bare_upstream schema drafts i j u :
  upstream_ok schema u → drafts !! (i, j) = tls_draft u →
  normalize_upstream schema drafts i j (bare_upstream u) = Ok u.
Proof.
  intros [_ _ (n & Hn & Ht)] Hi. unfold normalize_upstream. rewrite Hi. cbv zeta.
  assert (default UpstreamTlsDraft_default (tls_draft u) = tls_fields (up_tls u)) as ->
    by (unfold tls_draft; by destruct (up_tls u)).
  cbn [up_url bare_upstream set_up_tls]. rewrite Hn. simpl. rewrite Ht. by destruct u.
Qed.
Lemma normalize_bare_service schema drafts i s :
  service_ok schema s → (∀ j, drafts !! (i, j) = (svc_upstreams s !! j) ≫= tls_draft) →
  normalize_service_tls schema drafts i (bare_service s)
  = Ok (with_policy ServicePolicy_default s).
Proof.
  intros [_ Hus _ _] Hd. unfold normalize_service_tls. cbn [svc_upstreams bare_service].
  rewrite (try_imap_fmap _ _ id).
  - rewrite list_fmap_id. by destruct s.
  - intros j u Hu. simpl. apply normalize_bare_upstream; [by eapply Forall_lookup_1|].
    by rewrite Hd, Hu.
Qed.
Lemma normalize_named_ids p s :
  Forall (λ u, up_id u ≠ []) (svc_upstreams s) →
  normalize_service_ids (with_policy p s) = Ok (with_policy p s).
Proof.
  intros Hn. unfold normalize_service_ids. cbv zeta.
  change (svc_upstreams (with_policy p s)) with (svc_upstreams s).
  assert (existsb (λ u, bool_decide (up_id u = [])) (svc_upstreams s) = false) as Hex.
  { apply not_true_iff_false. intros (u & Hu & Hb)%existsb_exists.
    apply bool_decide_eq_true in Hb. rewrite Forall_forall in Hn.
    apply list_elem_of_In in Hu. by apply (Hn u). }
  destruct (svc_upstreams s) as [|u [|u' us]] eqn:Hus;
    change (svc_upstreams (with_policy p s)) with (svc_upstreams s); rewrite ?Hus.
  - done.
  - inversion_clear Hn as [|? ? Hu _]. rewrite bool_decide_false by done.
    change (svc_upstreams (with_policy p s)) with (svc_upstreams s). by rewrite Hus.
  - by rewrite Hex, andb_false_r.
Qed.

(** The policies of the services, set one after the other. *)
Lemma normalize_health_of s :
  policy_ok (svc_policy s) →
  match health_draft (sp_health_check (svc_policy s)) with
  | Some x => normalize_health_check x (with_policy ServicePolicy_default s)
  | None => Ok (with_policy ServicePolicy_default s)
  end = Ok (with_policy (set_health_check (sp_health_check (svc_policy s)) ServicePolicy_default) s).
Proof.
  intros [Hh _ _]. destruct (sp_health_check (svc_policy s)) as [|h]; [done|].
  destruct (Hh h eq_refl) as [_ Hn]. simpl. unfold normalize_health_check. simpl. by rewrite Hn.
Qed.
Lemma normalize_retry_of p s :
  policy_ok (svc_policy s) →
  normalize_retry (retry_draft (sp_retry (svc_policy s))) (with_policy p s)
  = Ok (with_policy (set_retry (sp_retry (svc_policy s)) p) s).
Proof. intros [_ Hr _]. unfold normalize_retry. simpl. by rewrite Hr. Qed.
Lemma normalize_passive_of p s :
  policy_ok (svc_policy s) → sp_passive_health p = PassiveModeDisabled →
  normalize_passive (passive_draft (sp_passive_health (svc_policy s))) (with_policy p s)
  = Ok (with_policy (set_passive_health (sp_passive_health (svc_policy s)) p) s).
Proof.
  intros [_ _ Hq] Hp. unfold normalize_passive, passive_draft.
  destruct (sp_passive_health (svc_policy s)) as [|q]; simpl.
  - unfold with_policy. rewrite <- Hp. by destruct p.
  - by rewrite (Hq q eq_refl).
Qed.

(** The service once its health check, its retry policy and its passive policy are set. *)
Definition with_health (s : Service) : Service :=
  with_policy (set_health_check (sp_health_check (svc_policy s)) ServicePolicy_default) s.
Definition with_retry (s : Service) : Service :=
  with_policy (set_retry (sp_retry (svc_policy s))
    (set_health_check (sp_health_check (svc_policy s)) ServicePolicy_default)) s.

Lemma policies_of_services schema ss hs rs ps :
  Forall (service_ok schema) ss →
  (∀ i, hs !! i = (ss !! i) ≫= λ s, health_draft (sp_health_check (svc_policy s))) →
  (∀ i, rs !! i = (ss !! i) ≫= λ s, Some (retry_draft (sp_retry (svc_policy s)))) →
  (∀ i, ps !! i = (ss !! i) ≫= λ s, Some (passive_draft (sp_passive_health (svc_policy s)))) →
  (let? services := normalize_service_policies (with_policy ServicePolicy_default <$> ss) hs in
   normalize_failure_policies services rs ps) = Ok ss.
Proof.
  intros Hss Hhs Hrs Hps. rewrite Forall_forall in Hss. unfold normalize_service_policies.
  rewrite (update_indexed_fmap _ _ _ _ _ with_health _ Hhs).
  2: { intros s Hs. pose proof (normalize_health_of s (so_policy _ _ (Hss s Hs))) as H.
       unfold with_health. destruct (health_draft _); [done|congruence]. }
  unfold normalize_failure_policies.
  rewrite (update_indexed_fmap _ _ _ _ _ with_retry _ Hrs).
  2: { intros s Hs. apply normalize_retry_of, (so_policy _ _ (Hss s Hs)). }
  rewrite (update_indexed_fmap _ _ _ _ _ id _ Hps); [by rewrite list_fmap_id|].
  intros s Hs. unfold with_retry. rewrite normalize_passive_of; [|apply (so_policy _ _ (Hss s Hs))|done].
  f_equal. destruct s as [? ? []]. unfold with_policy, set_svc_policy. simpl. f_equal.
  unfold set_passive_health. simpl. by destruct sp_load_balancing.
Qed.

Section final_draft.
Context (s : ConfigSnapshot) (cs : option nat) (cu : option (nat * nat)).

Definition final_draft : MvpConfigDraft :=
  set_current_upstream cu (set_current_service cs
    (set_routes (snap_routes s)
      (add_services (snap_services s)
        (set_listener_tls (index_drafts id auth_draft 0 (snap_listeners s) ∅)
          (set_listeners (bare_listener <$> snap_listeners s) (head_draft s)))))).

(** Metrics that are off are read back with the default address. *)
Definition canonical_metrics : Prop :=
  metrics_enabled (opt_metrics (snap_runtime s)) = false →
  metrics_bind (opt_metrics (snap_runtime s)) = DEFAULT_METRICS_BIND.

Lemma finish_listeners :
  snapshot_ok s →
  try_imap (normalize_listener (snap_schema_version s) (cd_listener_tls final_draft)) 0
    (cd_listeners final_draft) = Ok (snap_listeners s).
Proof.
  intros Hs. change (cd_listeners final_draft) with (bare_listener <$> snap_listeners s).
  rewrite (try_imap_fmap _ _ id); [by rewrite list_fmap_id|]. intros i l Hl.
  apply normalize_bare_listener; [eapply Forall_lookup_1; [apply Hs|exact Hl]|].
  change (cd_listener_tls final_draft) with (index_drafts id auth_draft 0 (snap_listeners s) ∅).
  pose proof (index_drafts_lookup (K:=nat) id auth_draft 0 (snap_listeners s) ∅ i
    ltac:(intros; apply lookup_empty)) as H.
  rewrite decide_True, Nat.sub_0_r, Hl in H by lia. exact H.
Qed.

Lemma finish_services :
  snapshot_ok s →
  (let? services := try_imap (normalize_service_tls (snap_schema_version s)
                      (cd_upstream_tls final_draft)) 0 (cd_services final_draft) in
   let? services := normalize_upstream_ids services in
   let? services := normalize_service_policies services (cd_health_checks final_draft) in
   normalize_failure_policies services (cd_retry_policies final_draft)
     (cd_passive_health_policies final_draft)) = Ok (snap_services s).
Proof.
  intros Hs. pose proof (sn_services s Hs) as Hss.
  change (cd_services final_draft) with (bare_service <$> snap_services s).
  rewrite (try_imap_fmap _ _ (with_policy ServicePolicy_default)); last first.
  { intros i x Hx. apply normalize_bare_service; [by eapply Forall_lookup_1|]. intros j.
    change (cd_upstream_tls final_draft) with (index_tls 0 (snap_services s) ∅).
    rewrite index_tls_lookup by (intros; apply lookup_empty). rewrite decide_True by lia.
    replace (0 + i - 0)%nat with i by lia. by rewrite Hx. }
  unfold normalize_upstream_ids. rewrite (try_imap_fmap _ _ (with_policy ServicePolicy_default)).
  2: { intros i x Hx. apply normalize_named_ids.
       apply (Forall_lookup_1 _ _ _ _ Hss) in Hx. by destruct Hx. }
  apply (policies_of_services _ _ _ _ _ Hss); intros i.
  all: match goal with
    | |- _ = _ ≫= ?f =>
        pose proof (index_drafts_lookup (K:=nat) id f 0 (snap_services s) ∅ i
          ltac:(intros; apply lookup_empty)) as H
    end; rewrite decide_True, Nat.sub_0_r in H by lia; exact H.
Qed.

Lemma finish_final_draft :
  snapshot_ok s → canonical_metrics →
  finish_draft (snap_revision_id s) final_draft
  = Ok {| cs_snapshot := s; cs_schema_version_present := true; cs_unknown_fields := [] |}.
Proof.
  intros Hs Hm. unfold finish_draft. cbv zeta.
  change (default 0 (cd_schema_version final_draft)) with (snap_schema_version s).
  rewrite finish_listeners by done. pose proof (finish_services Hs) as Hf.
  destruct (try_imap (normalize_service_tls _ _) _ _) as [l1|]; [|done].
  destruct (normalize_upstream_ids l1) as [l2|]; [|done].
  destruct (normalize_service_policies l2 _) as [l3|]; [|done]. rewrite Hf.
  destruct Hs as [_ [_ Ha] _ _ _ Hr _ _ Hh Hb _ _]. f_equal.
  unfold canonical_metrics in Hm. unfold final_draft, head_draft, add_services. cbv zeta. cbn.
  destruct s as [sv rid [ab aa] ls rs ss cr lm [mc mp mh mb ut [me mbind]]]. simpl in *. subst.
  repeat f_equal; destruct me; simpl; auto; by rewrite Hm.
Qed.
End final_draft.

(** ** The round trip *)
Definition canonical (s : ConfigSnapshot) : Prop :=
  Forall canonical_route (snap_routes s) ∧ canonical_metrics s.

Lemma run_end section d : run [] section d = Ok (section, d).
Proof. done. Qed.

Lemma render_runs s :
  snapshot_ok s → Forall canonical_route (snap_routes s) →
  ∃ section cs cu, parse_lines (str_lines (render_mvp_config_snapshot s)) [] MvpConfigDraft_default
                   = Ok (section, final_draft s cs cu).
Proof.
  intros Hs Hr. unfold render_mvp_config_snapshot.
  fold (run (render_head s ++ concat (render_listener <$> snap_listeners s)
             ++ concat (render_service <$> snap_services s) ++ concat (render_route <$> snap_routes s))
          [] MvpConfigDraft_default).
  rewrite <- (app_nil_r (concat (render_route <$> _))).
  edestruct (run_head s) as (s1 & ->); [done|].
  edestruct (run_listeners (snap_listeners s)) as (s2 & cs2 & cu2 & ->); [apply Hs|].
  edestruct (run_services (snap_services s)) as (s3 & cs3 & cu3 & ->); [apply Hs|].
  edestruct (run_routes (snap_routes s)) as (s4 & cs4 & cu4 & ->); [apply Hs|done|].
  exists s4, cs4, cu4. rewrite run_end. done.
Qed.

Lemma parse_render s :
  snapshot_ok s → canonical s →
  parse_mvp_config (render_mvp_config_snapshot s) (snap_revision_id s)
  = Ok {| cs_snapshot := s; cs_schema_version_present := true; cs_unknown_fields := [] |}.
Proof.
  intros Hs [Hr Hm]. destruct (render_runs s Hs Hr) as (section & cs & cu & Hrun).
  unfold parse_mvp_config. rewrite Hrun. by apply finish_final_draft.
Qed.

Lemma parse_revision source revision_id c :
  parse_mvp_config source revision_id = Ok c → snap_revision_id (cs_snapshot c) = revision_id.
Proof.
  unfold parse_mvp_config, finish_draft. intros H. repeat (case_match; try done). by simplify_eq/=.
Qed.

(** C13: the stored text of a configuration reads back as the configuration.  Take any source
    text the parser accepts and the snapshot it gives: rendering that snapshot and parsing the
    result under the same revision gives the same snapshot again, field by field, with the schema
    version present and no unknown field, provided its host and path matches are in normal form,
    prefixes come before exact paths and disabled metrics have the default address. *)
Theorem config_text_roundtrip (source revision_id : list byte) (c : ConfigSource) :
  parse_mvp_config source revision_id = Ok c → canonical (cs_snapshot c) →
  parse_mvp_config (render_mvp_config_snapshot (cs_snapshot c)) revision_id
  = Ok {| cs_snapshot := cs_snapshot c; cs_schema_version_present := true; cs_unknown_fields := [] |}.
Proof.
  intros Hc Hcanon. pose proof (parse_mvp_config_safe source revision_id) as Hs. rewrite Hc in Hs.
  rewrite <- (parse_revision source revision_id c Hc). by apply parse_render.
Qed.

(** A source with every kind of section. *)
Definition sample_source : list byte :=
  let q := quoted in
  line (lit "schema_version = 2") ++ line (lit "# edge")
  ++ line (lit "[admin]") ++ kv "bind" (q (lit "127.0.0.1:9443"))
  ++ line (lit "[metrics]") ++ kv "enabled" (lit "true") ++ kv "bind" (q (lit "127.0.0.1:9464"))
  ++ line (lit "[[listeners]]") ++ kv "name" (q (lit "tls")) ++ kv "bind" (q (lit "0.0.0.0:443"))
  ++ kv "protocol" (q (lit "https")) ++ kv "client_auth" (q (lit "required"))
  ++ kv "client_trust_bundle_ref" (q (lit "clients"))
  ++ line (lit "[[services]]") ++ kv "name" (q (lit "app"))
  ++ line (lit "[services.health_check]") ++ kv "enabled" (lit "true")
  ++ line (lit "[services.passive_health]") ++ kv "enabled" (lit "true")
  ++ line (lit "[[services.upstreams]]") ++ kv "name" (q (lit "a"))
  ++ kv "url" (q (lit "https://10.0.0.1:8443")) ++ kv "tls_server_name" (q (lit "A.example.org."))
  ++ kv "upstream_http_host" (q (lit "App.example.org")) ++ kv "tls_trust_bundle_ref" (q (lit "backends"))
  ++ line (lit "[[services.upstreams]]") ++ kv "name" (q (lit "b"))
  ++ kv "url" (q (lit "http://10.0.0.2")) ++ kv "administrative_state" (q (lit "draining"))
  ++ line (lit "[[routes]]") ++ kv "name" (q (lit "r"))
  ++ kv "hosts" (array [lit "App.Example.org"; lit "www.example.org."])
  ++ kv "paths" (array [lit "/"]) ++ kv "exact_paths" (array [lit "/login/"])
  ++ kv "service" (q (lit "app")) ++ kv "priority" (lit "-5") ++ kv "certificate_ref" (q (lit "c1")).

Definition sample_config : ConfigSource :=
  match parse_mvp_config sample_source (lit "r1") with
  | Ok c => c
  | Err _ => {| cs_snapshot := items_snapshot (PathMatch_prefix []); cs_schema_version_present := false;
                cs_unknown_fields := [] |}
  end.

Lemma config_text_roundtrip_witness :
  length (snap_services (cs_snapshot sample_config)) = 1%nat
  ∧ parse_mvp_config (render_mvp_config_snapshot (cs_snapshot sample_config)) (lit "r1")
    = Ok {| cs_snapshot := cs_snapshot sample_config; cs_schema_version_present := true;
            cs_unknown_fields := [] |}.
Proof.
  split; [vm_compute; reflexivity|]. apply (config_text_roundtrip sample_source (lit "r1")).
  - vm_compute. reflexivity.
  - split; [|intros H; vm_compute in H; discriminate H].
    vm_compute. constructor; [|constructor]. constructor; vm_compute; repeat constructor.
Defined.
