(* ===== verification/ConfigValidation.v ===== *)
(** * Configuration validation

    crates/edge-application/src/config_validation.rs and config_validation_error.rs: the errors of
    a snapshot and of a source, in the order they are found.  [validate_snapshot_exact] relates
    the empty report to a declarative definition of a valid configuration. *)

From stdpp Require Import base gmap strings list.
From Stdlib Require Import Strings.Byte NArith ZArith Lia.
From S2P Require Import Prelude Errors RustStr Resource Endpoint RustNet UpstreamPolicy Snapshot ConfigParser.
Local Open Scope N_scope.

(** ** Reports *)
Record ValidationReport := { report_errors : list ValidationError }.
Definition report_is_valid (r : ValidationReport) : bool := bool_decide (report_errors r = []).
Definition report_into_result (r : ValidationReport) : result (list ValidationError) () :=
  if report_is_valid r then Ok () else Err (report_errors r).

Definition validation_errors_to_app_error (errors : list ValidationError) : AppError :=
  let first := default (ValidationError_new InternalBug "unknown validation error") (head errors) in
  AppError_new (val_code first) (val_message first).

Record ConfigValidator := { cv_reject_unknown_fields : bool; cv_allow_production_acme : bool }.
Definition ConfigValidator_default : ConfigValidator :=
  {| cv_reject_unknown_fields := true; cv_allow_production_acme := false |}.
Definition allow_production_acme (allow : bool) (v : ConfigValidator) : ConfigValidator :=
  {| cv_reject_unknown_fields := cv_reject_unknown_fields v; cv_allow_production_acme := allow |}.

(** [if b { errors.push(..) }] *)
Definition push_if (b : bool) (code : ErrorCode) (message : list byte) : list ValidationError :=
  if b then [ValidationError_new code (text message)] else [].

(** ** Helpers *)
Definition is_external_bind (bind : list byte) : bool :=
  starts_with (lit "0.0.0.0") bind || starts_with (lit "[::]") bind.

Definition is_valid_email (value : list byte) : bool :=
  match split_once x40 value with
  | None => false
  | Some (local, domain) =>
      negb (bool_decide (local = [])) && contains_byte DOT domain
      && negb (starts_with [DOT] domain) && negb (ends_with [DOT] domain)
      && negb (contains_byte x40 domain)
  end.

Definition is_metadata_host (host : list byte) : bool :=
  bool_decide (host ∈ [lit "169.254.169.254"; lit "169.254.169.253";
                       lit "metadata.google.internal"; lit "metadata"; lit "instance-data"]).

(** ** Listeners *)
Definition bind_parses (bind : list byte) : bool :=
  match parse_socket_addr bind with Some _ => true | None => false end.

Fixpoint validate_listeners (listeners : list Listener) (ids binds : gset (list byte))
  : list ValidationError * gset (list byte) :=
  match listeners with
  | [] => ([], binds)
  | l :: rest =>
      let errors :=
        push_if (bool_decide (listener_id l ∈ ids)) ConfigListenerDuplicate
          (lit "duplicate listener: " ++ listener_id l)
        ++ push_if (negb (bind_parses (listener_bind l))) ConfigInvalidBindAddress
             (lit "invalid listener bind address: " ++ listener_bind l) in
      let (more, binds) :=
        validate_listeners rest ({[listener_id l]} ∪ ids) ({[listener_bind l]} ∪ binds) in
      (errors ++ more, binds)
  end.

(** ** Resolvers *)
Definition validate_resolver (v : ConfigValidator) (has_http_listener : bool)
    (r : CertificateResolver) : list ValidationError :=
  push_if (negb (is_valid_email (resolver_email r))) ConfigInvalidAcmeEmail
    (lit "invalid ACME email: " ++ resolver_email r)
  ++ push_if (match resolver_challenge r with Http01 => true | Dns01 => false end
              && negb has_http_listener)
       ConfigHttp01WithoutHttpListener (lit "HTTP-01 requires an HTTP listener")
  ++ push_if (resolver_production_enabled r && negb (cv_allow_production_acme v))
       ConfigProductionAcmeRequiresOptIn (lit "production ACME requires explicit opt-in").

(** ** Services *)
Definition tls_policy_matches (scheme : UpstreamScheme) (tls : UpstreamTlsPolicy) : bool :=
  match scheme, tls with
  | SchemeHttp, TlsDisabled => true
  | SchemeHttps, TlsServerAuthenticated _ _ _ => true
  | _, _ => false
  end.

(** What the loop does with the URL of one upstream. *)
Definition validate_upstream_url (schema_version : N) (u : Upstream) (endpoints : list UpstreamEndpoint)
  : list ValidationError * list UpstreamEndpoint :=
  match endpoint_parse (up_url u) with
  | Err error => ([error], endpoints)
  | Ok endpoint =>
      if (schema_version =? 1) && bool_decide (ep_scheme endpoint = SchemeHttps) then
        (push_if true ConfigInvalidUpstreamUrl (lit "schema v1 upstream URL must use HTTP"), endpoints)
      else if negb (tls_policy_matches (ep_scheme endpoint) (up_tls u)) then
        (push_if true ConfigTlsPolicyInvalid
           (lit "upstream scheme and TLS policy do not match"), endpoints)
      else if is_metadata_host (ep_host endpoint) then
        (push_if true ConfigUnsafeUpstreamUrl
           (lit "blocked metadata upstream url: " ++ up_url u), endpoints)
      else if bool_decide (endpoint ∈ endpoints) then
        (push_if true ConfigInvalidUpstreamUrl
           (lit "duplicate normalized upstream url: " ++ up_url u), endpoints)
      else ([], endpoint :: endpoints)
  end.

Fixpoint check_upstreams (schema_version : N) (service_id : list byte)
    (upstreams : list Upstream) (ids : gset (list byte)) (endpoints : list UpstreamEndpoint)
  : list ValidationError :=
  match upstreams with
  | [] => []
  | u :: rest =>
      let missing := bool_decide (up_id u = []) in
      let name_errors :=
        if missing then
          push_if true ConfigUpstreamIdRequired
            (lit "service " ++ service_id ++ lit " has an upstream without a name")
        else
          push_if (bool_decide (up_id u ∈ ids)) ConfigUpstreamIdDuplicate
            (lit "service " ++ service_id ++ lit " has duplicate upstream name: " ++ up_id u) in
      let ids := if missing then ids else {[up_id u]} ∪ ids in
      let '(url_errors, endpoints) := validate_upstream_url schema_version u endpoints in
      name_errors ++ url_errors ++ check_upstreams schema_version service_id rest ids endpoints
  end.

Definition is_draining (u : Upstream) : bool :=
  bool_decide (up_administrative_state u = AdminDraining).

Definition validate_service (schema_version : N) (s : Service) : list ValidationError :=
  let none := bool_decide (length (svc_upstreams s) = 0%nat) in
  push_if none ConfigServiceWithoutUpstream (lit "service has no upstream: " ++ svc_id s)
  ++ push_if (negb none && forallb is_draining (svc_upstreams s)) ConfigServiceWithoutUpstream
       (lit "service has no active upstream: " ++ svc_id s)
  ++ check_upstreams schema_version (svc_id s) (svc_upstreams s) ∅ [].

(** ** Routes *)
Definition route_keys (r : Route) : list (list byte) :=
  rm_hosts (route_match r) ≫= λ host,
  (λ path, hm_normalized host ++ pm_prefix path) <$> rm_paths (route_match r).

Fixpoint validate_route_keys (keys : list (list byte)) (seen : gset (list byte))
  : list ValidationError * gset (list byte) :=
  match keys with
  | [] => ([], seen)
  | key :: rest =>
      let errors := push_if (bool_decide (key ∈ seen)) ConfigRouteDuplicate
                      (lit "duplicate normalized host/path route") in
      let (more, seen) := validate_route_keys rest ({[key]} ∪ seen) in
      (errors ++ more, seen)
  end.

Definition find_resolver (resolvers : list CertificateResolver) (id : list byte)
  : option CertificateResolver :=
  List.find (λ r, bool_decide (resolver_id r = id)) resolvers.

Definition is_none {A} (o : option A) : bool := match o with None => true | Some _ => false end.

Definition validate_redirect (resolvers : list CertificateResolver) (r : Route)
  : list ValidationError :=
  if route_redirect_http_to_https r then
    push_if (is_none (route_certificate_ref r) && is_none (route_certificate_resolver_id r))
      ConfigHttpsRouteCertificateMissing
      (lit "route has HTTPS redirect without certificate: " ++ route_id r)
    ++ push_if (match route_certificate_resolver_id r ≫= find_resolver resolvers with
                | Some resolver => match resolver_challenge resolver with Http01 => true | Dns01 => false end
                | None => false
                end)
         ConfigAcmeChallengeBlockedByRedirect (lit "HTTP-01 challenge must bypass HTTPS redirect")
  else [].

Fixpoint validate_routes (resolvers : list CertificateResolver) (service_ids : gset (list byte))
    (routes : list Route) (ids keys : gset (list byte)) : list ValidationError :=
  match routes with
  | [] => []
  | r :: rest =>
      let '(key_errors, keys) := validate_route_keys (route_keys r) keys in
      push_if (bool_decide (route_id r ∈ ids)) ConfigRouteDuplicate
        (lit "duplicate route: " ++ route_id r)
      ++ push_if (bool_decide (length (rm_hosts (route_match r)) = 0%nat)
                  || bool_decide (length (rm_paths (route_match r)) = 0%nat))
           ConfigRouteMatchEmpty (lit "route has empty host/path match: " ++ route_id r)
      ++ push_if (negb (bool_decide (route_service_id r ∈ service_ids))) ConfigRouteMissingService
           (lit "route references missing service: " ++ route_service_id r)
      ++ key_errors
      ++ validate_redirect resolvers r
      ++ validate_routes resolvers service_ids rest ({[route_id r]} ∪ ids) keys
  end.

(** ** The whole *)
Definition app_errors {A} (r : result AppError A) : list ValidationError :=
  match r with
  | Ok _ => []
  | Err error => [ValidationError_new (app_code error) (app_message error)]
  end.

Definition is_http_listener (l : Listener) : bool :=
  match listener_protocol l with ProtocolHttp => true | ProtocolHttps => false end.

Definition validate_snapshot (v : ConfigValidator) (s : ConfigSnapshot) : ValidationReport :=
  let runtime := snap_runtime s in
  let admin := snap_admin s in
  let '(listener_errors, listener_binds) := validate_listeners (snap_listeners s) ∅ ∅ in
  let has_http_listener := existsb is_http_listener (snap_listeners s) in
  let service_ids : gset (list byte) := list_to_set (svc_id <$> snap_services s) in
  {| report_errors :=
       app_errors (RuntimeResourcePolicy_try_new (opt_max_connections runtime)
                     (opt_max_inflight_payload_bytes runtime))
       ++ app_errors (RuntimeTimeoutPolicy_try_new (opt_upstream_read_timeout_ms runtime))
       ++ listener_errors
       ++ push_if (negb (bind_parses (admin_bind admin))) ConfigInvalidBindAddress
            (lit "invalid admin bind address: " ++ admin_bind admin)
       ++ push_if (metrics_enabled (opt_metrics runtime)
                   && negb (match parse_socket_addr (metrics_bind (opt_metrics runtime)) with
                            | Some address => is_loopback address
                            | None => false
                            end))
            ConfigInvalidBindAddress
            (lit "enabled metrics bind must be a valid loopback socket address")
       ++ push_if (bool_decide (admin_bind admin ∈ listener_binds)) ConfigAdminBindConflict
            (lit "admin bind conflicts with listener bind")
       ++ push_if (is_external_bind (admin_bind admin) && negb (admin_auth_required admin))
            ConfigAdminExternalBindWithoutAuth (lit "external admin bind requires auth")
       ++ (snap_certificate_resolvers s ≫= validate_resolver v has_http_listener)
       ++ (snap_services s ≫= validate_service (snap_schema_version s))
       ++ validate_routes (snap_certificate_resolvers s) service_ids (snap_routes s) ∅ ∅ |}.

Fixpoint join_comma (items : list (list byte)) : list byte :=
  match items with
  | [] => []
  | [x] => x
  | x :: rest => x ++ lit ", " ++ join_comma rest
  end.

Definition validate_source (v : ConfigValidator) (source : ConfigSource) : ValidationReport :=
  {| report_errors :=
       report_errors (validate_snapshot v (cs_snapshot source))
       ++ push_if (negb (cs_schema_version_present source)) ConfigSchemaVersionMissing
            (lit "schema_version is required")
       ++ push_if (cv_reject_unknown_fields v && negb (bool_decide (cs_unknown_fields source = [])))
            ConfigSchemaVersionMissing
            (lit "unknown fields: " ++ join_comma (cs_unknown_fields source)) |}.

(** ** Valid configurations *)
Definition valid_resolver (v : ConfigValidator) (has_http_listener : bool) (r : CertificateResolver) : Prop :=
  is_valid_email (resolver_email r) = true
  ∧ (resolver_challenge r = Http01 → has_http_listener = true)
  ∧ (resolver_production_enabled r = true → cv_allow_production_acme v = true).

(** The endpoint of an upstream that may be used. *)
Definition valid_upstream (schema_version : N) (u : Upstream) (e : UpstreamEndpoint) : Prop :=
  endpoint_parse (up_url u) = Ok e
  ∧ (schema_version = 1 → ep_scheme e = SchemeHttp)
  ∧ tls_policy_matches (ep_scheme e) (up_tls u) = true
  ∧ is_metadata_host (ep_host e) = false.

Record valid_service (schema_version : N) (s : Service) : Prop := {
  vs_active : Exists (λ u, up_administrative_state u = AdminActive) (svc_upstreams s);
  vs_named : Forall (λ u, up_id u ≠ []) (svc_upstreams s);
  vs_names : NoDup (up_id <$> svc_upstreams s);
  vs_endpoints : ∃ es, Forall2 (valid_upstream schema_version) (svc_upstreams s) es ∧ NoDup es
}.

Definition redirect_has_certificate (resolvers : list CertificateResolver) (r : Route) : Prop :=
  route_redirect_http_to_https r = true →
  (is_Some (route_certificate_ref r) ∨ is_Some (route_certificate_resolver_id r))
  ∧ ∀ id resolver, route_certificate_resolver_id r = Some id → find_resolver resolvers id = Some resolver →
      resolver_challenge resolver = Dns01.

Record valid_route (resolvers : list CertificateResolver) (services : list Service) (r : Route) : Prop := {
  vr_hosts : rm_hosts (route_match r) ≠ [];
  vr_paths : rm_paths (route_match r) ≠ [];
  vr_service : route_service_id r ∈ svc_id <$> services;
  vr_redirect : redirect_has_certificate resolvers r
}.

Record valid_snapshot (v : ConfigValidator) (s : ConfigSnapshot) : Prop := {
  va_resources : is_ok (RuntimeResourcePolicy_try_new (opt_max_connections (snap_runtime s))
                   (opt_max_inflight_payload_bytes (snap_runtime s))) = true;
  va_timeout : is_ok (RuntimeTimeoutPolicy_try_new (opt_upstream_read_timeout_ms (snap_runtime s))) = true;
  va_listener_ids : NoDup (listener_id <$> snap_listeners s);
  va_listener_binds : Forall (λ l, bind_parses (listener_bind l) = true) (snap_listeners s);
  va_admin_bind : bind_parses (admin_bind (snap_admin s)) = true;
  va_metrics : metrics_enabled (opt_metrics (snap_runtime s)) = true →
    ∃ a, parse_socket_addr (metrics_bind (opt_metrics (snap_runtime s))) = Some a ∧ is_loopback a = true;
  va_admin_conflict : admin_bind (snap_admin s) ∉ listener_bind <$> snap_listeners s;
  va_admin_auth : is_external_bind (admin_bind (snap_admin s)) = true → admin_auth_required (snap_admin s) = true;
  va_resolvers : Forall (valid_resolver v (existsb is_http_listener (snap_listeners s))) (snap_certificate_resolvers s);
  va_services : Forall (valid_service (snap_schema_version s)) (snap_services s);
  va_route_ids : NoDup (route_id <$> snap_routes s);
  va_routes : Forall (valid_route (snap_certificate_resolvers s) (snap_services s)) (snap_routes s);
  va_route_keys : NoDup (snap_routes s ≫= route_keys)
}.

(** ** The empty report *)
Lemma app_nil_iff {A} (l k : list A) : l ++ k = [] ↔ l = [] ∧ k = [].
Proof. destruct l; naive_solver. Qed.
Lemma push_if_nil b code message : push_if b code message = [] ↔ b = false.
Proof. by destruct b. Qed.
Lemma bind_nil_iff {A B} (f : A → list B) l : (l ≫= f) = [] ↔ Forall (λ x, f x = []) l.
Proof.
  induction l as [|x l IH]; simpl; [by split|]. rewrite app_nil_iff, IH, Forall_cons. done.
Qed.

Lemma validate_listeners_nil ls ids binds :
  (validate_listeners ls ids binds).1 = [] ↔
  NoDup (listener_id <$> ls) ∧ (∀ l, l ∈ ls → listener_id l ∉ ids)
  ∧ Forall (λ l, bind_parses (listener_bind l) = true) ls.
Proof.
  revert ids binds. induction ls as [|l ls IH]; intros ids binds; simpl.
  - split; [intros _; split_and!; [constructor|set_solver|constructor]|done].
  - specialize (IH ({[listener_id l]} ∪ ids) ({[listener_bind l]} ∪ binds)).
    destruct (validate_listeners _ _ _) as [more binds']. simpl in *.
    rewrite !app_nil_iff, !push_if_nil, negb_false_iff, bool_decide_eq_false, IH, Forall_cons, NoDup_cons.
    rewrite list_elem_of_fmap. split.
    + intros [[Hl Hb] (Hnd & Hids & Hbs)]. split_and!; try done.
      * intros (l' & Heq & Hl'). specialize (Hids l' Hl'). set_solver.
      * intros l' [->|Hl']%elem_of_cons; [done|]. specialize (Hids l' Hl'). set_solver.
    + intros ([Hn Hnd] & Hids & Hb & Hbs). split_and!; try done; [apply Hids; left|].
      intros l' Hl' [Heq%elem_of_singleton|Hin]%elem_of_union; [naive_solver|].
      by apply (Hids l'); [right|].
Qed.
Lemma validate_listeners_binds ls ids binds :
  (validate_listeners ls ids binds).2 = binds ∪ list_to_set (listener_bind <$> ls).
Proof.
  revert ids binds. induction ls as [|l ls IH]; intros ids binds; simpl; [set_solver|].
  specialize (IH ({[listener_id l]} ∪ ids) ({[listener_bind l]} ∪ binds)).
  destruct (validate_listeners _ _ _) as [more binds']. simpl in *. set_solver.
Qed.

Lemma validate_resolver_nil v http r : validate_resolver v http r = [] ↔ valid_resolver v http r.
Proof.
  unfold validate_resolver, valid_resolver. rewrite !app_nil_iff, !push_if_nil.
  destruct (is_valid_email _), (resolver_challenge r), http, (resolver_production_enabled r),
    (cv_allow_production_acme v); simpl; naive_solver.
Qed.

Lemma validate_upstream_url_ok schema u e endpoints :
  valid_upstream schema u e → e ∉ endpoints → validate_upstream_url schema u endpoints = ([], e :: endpoints).
Proof.
  intros (Hp & Hs & Ht & Hm) He. unfold validate_upstream_url. rewrite Hp.
  assert ((schema =? 1) && bool_decide (ep_scheme e = SchemeHttps) = false) as ->.
  { destruct (N.eqb_spec schema 1) as [H1|]; [|done]. simpl. rewrite (Hs H1). done. }
  by rewrite Ht, Hm, bool_decide_false.
Qed.
Lemma validate_upstream_url_nil schema u endpoints :
  (validate_upstream_url schema u endpoints).1 = [] → ∃ e, valid_upstream schema u e ∧ e ∉ endpoints.
Proof.
  unfold validate_upstream_url, valid_upstream. destruct (endpoint_parse (up_url u)) as [e|]; [|done]. intros H. exists e.
  destruct ((schema =? 1) && _) eqn:Hs; [done|].
  destruct (tls_policy_matches _ _); [|done]. destruct (is_metadata_host _); [done|].
  case_bool_decide; [done|]. split_and!; try done. intros ->. simpl in Hs.
  apply bool_decide_eq_false in Hs. by destruct (ep_scheme e).
Qed.

Lemma validate_upstreams_nil schema id us ids endpoints :
  check_upstreams schema id us ids endpoints = [] ↔
  Forall (λ u, up_id u ≠ [] ∧ up_id u ∉ ids) us ∧ NoDup (up_id <$> us)
  ∧ ∃ es, Forall2 (valid_upstream schema) us es ∧ NoDup es ∧ (∀ e, e ∈ es → e ∉ endpoints).
Proof.
  revert ids endpoints. induction us as [|u us IH]; intros ids endpoints; cbn [check_upstreams].
  { split; [|done]. intros _. split_and!; [constructor..|]. exists []. split_and!; [constructor..|set_solver]. }
  cbv zeta. rewrite !fmap_cons, Forall_cons, NoDup_cons, list_elem_of_fmap.
  destruct (validate_upstream_url schema u endpoints) as [url_errors endpoints'] eqn:Hr. rewrite !app_nil_iff, IH. clear IH.
  case_bool_decide as Hn; cbn [push_if].
  { split; [by intros [? _]|]. by intros [[[? _] _] _]. }
  rewrite push_if_nil, bool_decide_eq_false. split.
  - intros (Hid & Hurl & Hall & Hnd & es & H2 & Hes & Hout). rewrite Forall_forall in Hall.
    destruct (validate_upstream_url_nil schema u endpoints) as (e & He & Hnew); [by rewrite Hr|].
    rewrite (validate_upstream_url_ok _ _ e) in Hr by done. injection Hr as _ <-.
    split_and!; try done.
    + apply Forall_forall. intros x Hx. specialize (Hall x Hx). set_solver.
    + intros (x & Heq & Hx). specialize (Hall x Hx). set_solver.
    + exists (e :: es). split_and!; [by constructor| |set_solver].
      constructor; [|done]. intros Hin. apply (Hout e Hin). left.
  - intros ([[_ Hid] Hall] & [Hnotin Hnd] & es & H2 & Hes & Hout).
    inversion H2 as [|? e ? es' He H2']; subst. apply NoDup_cons in Hes as [Hfresh Hes'].
    rewrite (validate_upstream_url_ok _ _ e) in Hr by (try done; apply Hout; left). injection Hr as <- <-.
    split_and!; try done.
    + rewrite Forall_forall in Hall |- *. intros x Hx. destruct (Hall x Hx) as [? ?]. split; [done|].
      intros [Heq%elem_of_singleton|?]%elem_of_union; [|done]. apply Hnotin. exists x. split; [congruence|done].
    + exists es'. split_and!; try done. intros x Hx [->|Hin]%elem_of_cons; [done|].
      apply (Hout x); [by right|done].
Qed.

Lemma draining_forallb us : us ≠ [] →
  forallb is_draining us = false ↔ Exists (λ u, up_administrative_state u = AdminActive) us.
Proof.
  intros _. rewrite <- not_true_iff_false, forallb_forall, Exists_exists. unfold is_draining. split.
  - intros H. destruct (decide (Exists (λ u, up_administrative_state u = AdminActive) us)) as [He|He].
    + by apply Exists_exists in He.
    + exfalso. apply H. intros u Hu. apply bool_decide_eq_true.
      destruct (up_administrative_state u) eqn:Hst; [|done]. exfalso. apply He, Exists_exists.
      exists u. split; [by apply list_elem_of_In|done].
  - intros (u & Hu & Hst) H. apply list_elem_of_In, H, bool_decide_eq_true in Hu. congruence.
Qed.

Lemma validate_service_nil schema s : validate_service schema s = [] ↔ valid_service schema s.
Proof.
  unfold validate_service. cbv zeta. rewrite !app_nil_iff, !push_if_nil, validate_upstreams_nil,
    bool_decide_eq_false. split.
  - intros (Hne & Hact & Hall & Hnd & es & H2 & Hes & _).
    rewrite bool_decide_false in Hact by done. simpl in Hact.
    constructor; [|by eapply Forall_impl; [exact Hall|]; intros ? []|done|by exists es].
    apply draining_forallb; [|done]. by intros Hn; rewrite Hn in Hne.
  - intros [Ha Hn Hnd (es & H2 & Hes)].
    assert (svc_upstreams s ≠ []) as Hne by (intros E; rewrite E in Ha; by apply Exists_nil in Ha).
    assert (length (svc_upstreams s) ≠ 0%nat) by (by destruct (svc_upstreams s)).
    split_and!; [done| | |done|].
    + rewrite bool_decide_false by done. simpl. by apply draining_forallb.
    + eapply Forall_impl; [exact Hn|]. intros u Hu. split; [done|set_solver].
    + exists es. split_and!; [done|done|set_solver].
Qed.

Lemma validate_route_keys_nil keys seen :
  (validate_route_keys keys seen).1 = [] ↔ NoDup keys ∧ (∀ k, k ∈ keys → k ∉ seen).
Proof.
  revert seen. induction keys as [|k keys IH]; intros seen; simpl.
  - split; [intros _; split; [constructor|set_solver]|done].
  - specialize (IH ({[k]} ∪ seen)). destruct (validate_route_keys _ _) as [more seen']. simpl in *.
    rewrite app_nil_iff, push_if_nil, bool_decide_eq_false, IH, NoDup_cons. set_solver.
Qed.
Lemma validate_route_keys_seen keys seen :
  (validate_route_keys keys seen).2 = seen ∪ list_to_set keys.
Proof.
  revert seen. induction keys as [|k keys IH]; intros seen; simpl; [set_solver|].
  specialize (IH ({[k]} ∪ seen)). destruct (validate_route_keys _ _) as [more seen']. simpl in *. set_solver.
Qed.
Lemma validate_redirect_nil resolvers r :
  validate_redirect resolvers r = [] ↔ redirect_has_certificate resolvers r.
Proof.
  unfold validate_redirect, redirect_has_certificate. destruct (route_redirect_http_to_https r); [|naive_solver].
  rewrite app_nil_iff, !push_if_nil.
  destruct (route_certificate_resolver_id r) as [id|]; simpl.
  - rewrite andb_false_r. split.
    + intros [_ Hr] _. split; [by right; eauto|]. intros ? resolver [= <-] Hf. rewrite Hf in Hr.
      by destruct (resolver_challenge resolver).
    + intros H. destruct (H eq_refl) as [_ Hr]. split; [done|].
      destruct (find_resolver resolvers id) as [resolver|] eqn:Hf; [|done]. by rewrite (Hr id resolver).
  - destruct (route_certificate_ref r); simpl.
    + split; [|done]. intros _ _. split; [by left; eauto|done].
    + split; [by intros [? _]|]. intros H. by destruct (H eq_refl) as [[[? ?]|[? ?]] _].
Qed.

Lemma validate_routes_nil resolvers services service_ids rs ids keys :
  (∀ x, x ∈ service_ids ↔ x ∈ svc_id <$> services) →
  validate_routes resolvers service_ids rs ids keys = [] ↔
  NoDup (route_id <$> rs) ∧ (∀ r, r ∈ rs → route_id r ∉ ids)
  ∧ Forall (valid_route resolvers services) rs
  ∧ NoDup (rs ≫= route_keys) ∧ (∀ k, k ∈ rs ≫= route_keys → k ∉ keys).
Proof.
  intros Hids. revert ids keys. induction rs as [|r rs IH]; intros ids keys; cbn [validate_routes].
  { split; [|done]. intros _. split_and!; try constructor; set_solver. }
  pose proof (validate_route_keys_nil (route_keys r) keys) as Hk.
  pose proof (validate_route_keys_seen (route_keys r) keys) as Hseen.
  destruct (validate_route_keys (route_keys r) keys) as [key_errors keys']. simpl in Hk, Hseen. subst keys'.
  rewrite !app_nil_iff, !push_if_nil, Hk, IH, validate_redirect_nil, fmap_cons, Forall_cons, NoDup_cons,
    negb_false_iff, orb_false_iff, bool_decide_eq_true, !bool_decide_eq_false, Hids.
  rewrite bind_cons, NoDup_app. clear IH Hk. split.
  - intros (Hid & [Hh Hp] & Hs & [Hkeys Hkn] & Hred & Hnd & Hout & Hall & Hnk & Hkout).
    split_and!; try done.
    + intros (r' & Heq & Hr')%list_elem_of_fmap. specialize (Hout r' Hr'). set_solver.
    + intros r' [->|Hr']%elem_of_cons; [done|]. specialize (Hout r' Hr'). set_solver.
    + constructor; [by intros E; rewrite E in Hh|by intros E; rewrite E in Hp|done|done].
    + intros k Hk Hk'. apply (Hkout k Hk'). set_solver.
    + intros k Hk. apply elem_of_app in Hk as [Hk|Hk]; [by apply Hkn|]. specialize (Hkout k Hk). set_solver.
  - intros ([Hn Hnd] & Hout & [[Hh Hp Hs Hred] Hall] & (Hkeys & Hdis & Hnk) & Hkout).
    split_and!; try done.
    + apply Hout. left.
    + by destruct (rm_hosts (route_match r)).
    + by destruct (rm_paths (route_match r)).
    + intros k Hk. apply Hkout. set_solver.
    + intros r' Hr' [Heq%elem_of_singleton|Hin]%elem_of_union; [by apply Hn, list_elem_of_fmap; eauto|].
      by apply (Hout r'); [right|].
    + intros k Hk [Hin|Hin]%elem_of_union; [by apply (Hkout k); [set_solver|]|].
      apply elem_of_list_to_set in Hin. by apply (Hdis k).
Qed.

Lemma app_errors_nil {A} (r : result AppError A) : app_errors r = [] ↔ is_ok r = true.
Proof. by destruct r. Qed.

Lemma validate_snapshot_nil v s : report_errors (validate_snapshot v s) = [] ↔ valid_snapshot v s.
Proof.
  unfold validate_snapshot. cbv zeta.
  pose proof (validate_listeners_nil (snap_listeners s) ∅ ∅) as Hl.
  pose proof (validate_listeners_binds (snap_listeners s) ∅ ∅) as Hb.
  destruct (validate_listeners _ _ _) as [listener_errors binds]. simpl in Hl, Hb. subst binds.
  cbn [report_errors].
  pose proof (validate_routes_nil (snap_certificate_resolvers s) (snap_services s)
    (list_to_set (svc_id <$> snap_services s)) (snap_routes s) ∅ ∅
    ltac:(intros; apply elem_of_list_to_set)) as Hr.
  rewrite !app_nil_iff, !push_if_nil, !app_errors_nil, Hl, Hr, !bind_nil_iff, !negb_false_iff,
    bool_decide_eq_false, !andb_false_iff, !negb_false_iff. clear Hl Hr.
  setoid_rewrite validate_resolver_nil. setoid_rewrite validate_service_nil. split.
  - intros (? & ? & (? & _ & ?) & ? & Hm & Hc & He & ? & ? & ? & _ & ? & ? & _). constructor; try done.
    + intros Hon. rewrite Hon in Hm. destruct Hm as [|Hm]; [done|].
      destruct (parse_socket_addr _) as [a|]; [by exists a|done].
    + intros Hin. apply Hc. rewrite elem_of_union, elem_of_list_to_set. by right.
    + intros Hx. rewrite Hx in He. by destruct He.
  - intros [Hres Hto Hid Hbind Hadm Hm Hc He Hrs Hss Hri Hro Hrk]. split_and!; try done;
      try (intros; apply not_elem_of_empty).
    + destruct (metrics_enabled _); [|by left]. right. destruct (Hm eq_refl) as (a & -> & Ha). done.
    + rewrite elem_of_union, elem_of_list_to_set. intros [?%elem_of_empty|?]; done.
    + destruct (is_external_bind _); [|by left]. right. by apply He.
Qed.

(** C34: validation reports nothing exactly for valid configurations: resource limits and time-outs
    in range, distinct listeners with parseable addresses, none of them the Admin address, loopback
    metrics, authentication for wildcard Admin addresses, usable resolvers; every service with an
    active upstream, named and distinct upstreams, distinct usable endpoints that fit the TLS
    policy and are no metadata hosts; every route with hosts, paths, an existing service and a
    certificate when it redirects, and no two routes for the same host and path. *)
Theorem validate_snapshot_exact (v : ConfigValidator) (s : ConfigSnapshot) :
  report_is_valid (validate_snapshot v s) = true ↔ valid_snapshot v s.
Proof. unfold report_is_valid. rewrite bool_decide_eq_true. apply validate_snapshot_nil. Qed.
