(* ===== verification/ConfigServing.v ===== *)
(** * From a valid configuration to a served request

    What ConfigValidation.v promises is what the runtime needs: a valid configuration whose
    services have distinct names starts, and every request it routes to a service gets an
    upstream.  The names of the services are the one thing validation does not look at. *)

From stdpp Require Import base gmap strings list.
From Stdlib Require Import Strings.Byte NArith ZArith Lia.
From S2P Require Import Prelude Errors RustStr Resource Endpoint RustNet UpstreamPolicy Snapshot Drain Selector ConfigParser ConfigValidation.
Local Open Scope N_scope.

(** ** Keys *)
Lemma NoDup_bind_keys (ss : list Service) :
  NoDup (svc_id <$> ss) → Forall (λ s, NoDup (up_id <$> svc_upstreams s)) ss →
  NoDup ((ss ≫= λ s, (λ u, ((svc_id s, up_id u), u)) <$> svc_upstreams s).*1).
Proof.
  induction ss as [|s ss IH]; intros Hn Hu; [constructor|]. rewrite bind_cons, fmap_app.
  apply Forall_cons in Hu as [Hs Hu]. rewrite fmap_cons in Hn. apply NoDup_cons in Hn as [Hnot Hn].
  rewrite NoDup_app. split_and!; [| |by apply IH].
  - rewrite <- list_fmap_compose.
    assert ((fst ∘ (λ u, ((svc_id s, up_id u), u))) <$> svc_upstreams s
            = (λ x, (svc_id s, x)) <$> (up_id <$> svc_upstreams s)) as ->
      by (rewrite <- list_fmap_compose; done).
    apply NoDup_fmap; [congruence|done].
  - intros k Hk Hk'. apply list_elem_of_fmap in Hk as ([k1 u1] & -> & Hk1).
    apply list_elem_of_fmap in Hk1 as (u & [= -> ->] & Hu1).
    apply list_elem_of_fmap in Hk' as ([k2 u2] & Heq & Hk2).
    apply list_elem_of_bind in Hk2 as (s' & Hk2 & Hs').
    apply list_elem_of_fmap in Hk2 as (u' & [= -> ->] & _). simpl in Heq. injection Heq as Hid _.
    apply Hnot. rewrite Hid. by apply list_elem_of_fmap_2.
Qed.
Lemma valid_unique v s :
  valid_snapshot v s → NoDup (svc_id <$> snap_services s) → unique_upstreams s.
Proof.
  intros Hv Hn. apply NoDup_bind_keys; [done|].
  eapply Forall_impl; [apply (va_services _ _ Hv)|]. by intros x [].
Qed.

(** ** Starting *)
Lemma endpoint_map_loop_ok l m :
  (∀ k u, (k, u) ∈ l → is_ok (endpoint_parse (up_url u)) = true) → ∃ m', endpoint_map_loop l m = Ok m'.
Proof.
  revert m. induction l as [|[k u] l IH]; intros m Hl; simpl; [eauto|].
  pose proof (Hl k u ltac:(left)) as Hu. destruct (endpoint_parse (up_url u)) as [e|]; [|done].
  apply IH. intros k' u' Hin. eapply Hl. by right.
Qed.
Lemma valid_endpoints v s :
  valid_snapshot v s → ∃ m, normalized_endpoint_map s = Ok m.
Proof.
  intros Hv. apply endpoint_map_loop_ok. intros k u (svc & Hin & Hsvc)%list_elem_of_bind.
  apply list_elem_of_fmap in Hin as (u' & [= -> ->] & Hu').
  pose proof (va_services _ _ Hv) as Hss. rewrite Forall_forall in Hss.
  destruct (vs_endpoints _ _ (Hss svc Hsvc)) as (es & H2 & _).
  apply list_elem_of_lookup in Hu' as [i Hi]. destruct (Forall2_lookup_l _ _ _ _ _ H2 Hi) as (e & _ & [-> _]).
  done.
Qed.

(** The availability at the start: every upstream, none of them unhealthy. *)
Definition startable (m : gmap health_key UpstreamAvailability) : Prop :=
  ∀ k a, m !! k = Some a → a ≠ AvailUnhealthy.

Lemma initial_service_entries (svc : Service) (us : list Upstream) (m : gmap health_key UpstreamAvailability) :
  startable m →
  let m' := foldl (λ m u, <[(svc_id svc, up_id u) := initial_availability svc]> m) m us in
  startable m' ∧ dom m' = dom m ∪ list_to_set ((λ u, (svc_id svc, up_id u)) <$> us).
Proof.
  revert m. induction us as [|u us IH]; intros m Hm; cbn [foldl].
  - split; [done|]. simpl. set_solver.
  - destruct (IH (<[(svc_id svc, up_id u) := initial_availability svc]> m)) as [H1 H2].
    + intros k a [[_ <-]|[_ ?]]%lookup_insert_Some; [|by eapply Hm].
      unfold initial_availability. by destruct (sp_health_check _).
    + split; [exact H1|]. rewrite H2, dom_insert_L. simpl. set_solver.
Qed.
Lemma initial_entries (ss : list Service) (m : gmap health_key UpstreamAvailability) :
  startable m →
  let m' := foldl (λ m svc,
    foldl (λ m u, <[(svc_id svc, up_id u) := initial_availability svc]> m) m (svc_upstreams svc)) m ss in
  startable m'
  ∧ dom m' = dom m ∪ list_to_set ((ss ≫= λ s, (λ u, ((svc_id s, up_id u), u)) <$> svc_upstreams s).*1).
Proof.
  revert m. induction ss as [|s ss IH]; intros m Hm; cbn [foldl].
  - split; [done|]. simpl. set_solver.
  - destruct (initial_service_entries s (svc_upstreams s) m Hm) as [H1 H2].
    destruct (IH _ H1) as [H3 H4]. split; [exact H3|]. rewrite H4, H2, bind_cons, fmap_app, list_to_set_app_L.
    rewrite <- list_fmap_compose. simpl.
    replace (fst ∘ (λ u, ((svc_id s, up_id u), u))) with (λ u, (svc_id s, up_id u)) by done.
    by rewrite assoc_L by apply _.
Qed.

Lemma valid_selector v s :
  valid_snapshot v s → NoDup (svc_id <$> snap_services s) →
  ∃ selector, selector_from_snapshot s = Ok selector
    ∧ ∀ svc u, match service_availabilities svc selector !! up_id u with
               | Some a => a ≠ AvailUnhealthy | None => True end.
Proof.
  intros Hv Hn. pose proof (valid_unique _ _ Hv Hn) as Hu. destruct (valid_endpoints _ _ Hv) as [m Hm].
  unfold selector_from_snapshot. rewrite Hm. cbv zeta. set (s0 := Build_RuntimeUpstreamSelector _ _ _ _ _ _ _ _).
  pose proof (apply_availability_exact s (initial_availability_snapshot s) s0 Hu) as Ha.
  destruct (initial_entries (snap_services s) ∅) as [Hst Hdom]; [by intros k a; rewrite lookup_empty|].
  destruct (apply_availability s _ s0) as [[[]|e] s1].
  - exists s1. split; [done|]. intros svc u. destruct Ha as [_ ->].
    unfold service_availabilities. cbn [sel_availability set_availability].
    rewrite group_availability_lookup.
    match goal with |- match ?o with _ => _ end => destruct o as [a|] eqn:E end; [|done].
    by apply Hst in E.
  - exfalso. destruct Ha as [Ha _]. apply Ha. split_and!; [done|by intros (g & ? & _)|].
    rewrite dom_empty_L, union_empty_l_L in Hdom. exact Hdom.
Qed.

(** ** Serving *)
(** A service has an active upstream that is not known to be unhealthy. *)
Definition usable (svc : Service) (unhealthy : list byte → Prop) : Prop :=
  ∃ u, u ∈ svc_upstreams svc ∧ up_administrative_state u = AdminActive ∧ ¬ unhealthy (up_id u).
Definition keeps_usable (s : ConfigSnapshot) (selector : RuntimeUpstreamSelector) : Prop :=
  ∀ svc, svc ∈ snap_services s →
    usable svc (λ id, service_availabilities svc selector !! id = Some AvailUnhealthy).
Lemma eligible_nonempty s svc selector :
  keeps_usable s selector → svc ∈ snap_services s → eligible_upstreams svc (service_availabilities svc selector) ≠ [].
Proof.
  intros Hk Hsvc Hnil. destruct (Hk svc Hsvc) as (u & Hu & Hact & Hav).
  assert (In u (eligible_upstreams svc (service_availabilities svc selector))) as Hin; [|by rewrite Hnil in Hin].
  unfold eligible_upstreams. cbv zeta. apply filter_In. split; [by apply list_elem_of_In|].
  rewrite bool_decide_true by done. cbn [andb]. apply orb_true_iff. right. unfold availability_is_eligible.
  apply negb_true_iff, bool_decide_eq_false. destruct (service_availabilities svc selector !! up_id u); cbn; congruence.
Qed.

(** What happens to a selector while a configuration is in force: requests and retries take an
    upstream, requests end, and the health supervisor reports. *)
Inductive serving_op :=
| RequestFor (service_id : list byte)
| RetryFor (service_id : list byte) (attempted : gset (list byte))
| RequestEnded (reference : DrainReference)
| HealthReported (report : HealthAvailabilitySnapshot).
Definition serving_exec (s : ConfigSnapshot) (selector : RuntimeUpstreamSelector) (op : serving_op) : RuntimeUpstreamSelector :=
  match op with
  | RequestFor id => match find_service s id with Some svc => (selector_select svc selector).2 | None => selector end
  | RetryFor id attempted =>
      match find_service s id with Some svc => (selector_select_retry svc attempted selector).2 | None => selector end
  | RequestEnded reference => release_drain_reference reference selector
  | HealthReported report => (apply_availability s report selector).2
  end.
Definition serving_run (s : ConfigSnapshot) : list serving_op → RuntimeUpstreamSelector → RuntimeUpstreamSelector :=
  λ ops selector, foldl (serving_exec s) selector ops.
(** No report calls every active upstream of a service unhealthy. *)
Definition leaves_usable (s : ConfigSnapshot) (op : serving_op) : Prop :=
  match op with
  | HealthReported report => ∀ svc, svc ∈ snap_services s →
      usable svc (λ id, has_entries report !! (svc_id svc, id) = Some AvailUnhealthy)
  | _ => True
  end.

Lemma publish_availability s : sel_availability (publish_runtime_status s) = sel_availability s.
Proof. unfold publish_runtime_status. by destruct (sel_published s). Qed.
Lemma lease_availability svc id e s : sel_availability (take_lease svc id e s).2 = sel_availability s.
Proof.
  unfold take_lease. destruct (drain_acquire _ _ _) as [[[] [r|]] t]; try done.
  destruct (List.find _ _); cbn [snd]; by rewrite publish_availability.
Qed.
Lemma select_availability svc s : sel_availability (selector_select svc s).2 = sel_availability s.
Proof. unfold selector_select. destruct (select_upstream _ _ _); [|done]. case_match; [|done]. by rewrite lease_availability. Qed.
Lemma retry_availability svc attempted s : sel_availability (selector_select_retry svc attempted s).2 = sel_availability s.
Proof. unfold selector_select_retry. destruct (select_upstream _ _ _); [|done]. case_match; [|done]. by rewrite lease_availability. Qed.
Lemma find_service_in s id svc : find_service s id = Some svc → svc ∈ snap_services s.
Proof. intros [Hin _]%List.find_some. by apply list_elem_of_In. Qed.

Lemma serving_exec_ok s selector op :
  unique_upstreams s → leaves_usable s op → sel_ok s selector ∧ keeps_usable s selector →
  sel_ok s (serving_exec s selector op) ∧ keeps_usable s (serving_exec s selector op).
Proof.
  intros Hu Hop [Hok Hk].
  assert (Hsame : ∀ s', sel_availability s' = sel_availability selector → keeps_usable s s').
  { intros s' E. unfold keeps_usable, service_availabilities in *. by rewrite E. }
  destruct op as [id|id attempted|reference|report]; cbn [serving_exec].
  - destruct (find_service s id) as [svc|] eqn:Hf; [|done]. split; [|apply Hsame, select_availability].
    pose proof (select_exact s selector svc Hok (find_service_in _ _ _ Hf)) as H. cbv zeta in H.
    destruct (selector_select svc selector) as [[r|] s']; [by destruct H as (? & _ & _ & _ & ?)|by destruct H as [_ ->]].
  - destruct (find_service s id) as [svc|] eqn:Hf; [|done]. split; [|apply Hsame, retry_availability].
    pose proof (retry_exact s selector svc attempted Hok (find_service_in _ _ _ Hf)) as H. cbv zeta in H.
    destruct (selector_select_retry svc attempted selector) as [[r|] s']; [by destruct H as (? & _ & _ & _ & _ & ?)|by destruct H as [_ ->]].
  - split; [by apply release_reference_ok|]. apply Hsame. unfold release_drain_reference. by rewrite publish_availability.
  - pose proof (apply_availability_exact s report selector Hu) as Ha.
    destruct (apply_availability s report selector) as [[[]|e] s'] eqn:E; destruct Ha as [_ ->]; [|done].
    split; [by apply set_availability_ok|]. intros svc Hsvc. destruct (Hop svc Hsvc) as (u & Hin & Hact & Hn).
    exists u. split_and!; [done|done|]. unfold service_availabilities. cbn [snd sel_availability set_availability].
    by rewrite group_availability_lookup.
Qed.
Lemma serving_run_ok s ops selector :
  unique_upstreams s → Forall (leaves_usable s) ops → sel_ok s selector ∧ keeps_usable s selector →
  sel_ok s (serving_run s ops selector) ∧ keeps_usable s (serving_run s ops selector).
Proof.
  intros Hu. revert selector. induction ops as [|op ops IH]; intros selector Hops Hs; [done|].
  apply Forall_cons in Hops as [Hop Hops]. apply IH; [done|]. by apply serving_exec_ok.
Qed.

Lemma select_route_elem s host path r : select_route s host path = Some r → r ∈ snap_routes s.
Proof.
  unfold select_route. intros H. apply max_by_iff in H; [|apply route_key_le_total|apply route_key_le_trans].
  destruct H as (l1 & l2 & Hl & _).
  assert (In r (List.filter (λ r, route_matches r host path) (snap_routes s))) as [Hin _]%filter_In
    by (rewrite Hl; apply in_app_iff; right; by left).
  by apply list_elem_of_In.
Qed.

Lemma find_service_exists s id : id ∈ svc_id <$> snap_services s →
  ∃ svc, find_service s id = Some svc ∧ svc ∈ snap_services s.
Proof.
  intros (svc & -> & Hin)%list_elem_of_fmap. unfold find_service.
  destruct (List.find _ _) as [svc'|] eqn:Hf.
  - exists svc'. split; [done|]. apply List.find_some in Hf as [? _]. by apply list_elem_of_In.
  - exfalso. apply list_elem_of_In in Hin. eapply List.find_none in Hf; [|exact Hin].
    by rewrite bool_decide_true in Hf.
Qed.

(** What a configuration promises for a request: an answer of the proxy's own, a redirect to a
    host with a source of certificates, or an active upstream of a service that exists, with the
    address of its URL and its TLS policy, which fit together. *)
Definition request_served (s : ConfigSnapshot) (selector : RuntimeUpstreamSelector)
    (host path : list byte) : Prop :=
  match select_http_route_action s host path with
  | ActionProxy _ service_id =>
      ∃ svc r selector' u,
        find_service s service_id = Some svc
        ∧ selector_select svc selector = (Some r, selector')
        ∧ u ∈ svc_upstreams svc ∧ up_administrative_state u = AdminActive
        ∧ rsel_upstream_id r = up_id u
        ∧ endpoint_parse (up_url u) = Ok (rsel_endpoint r) ∧ rsel_tls r = up_tls u
        ∧ tls_policy_matches (ep_scheme (rsel_endpoint r)) (rsel_tls r) = true
  | ActionRedirect _ _ =>
      ∃ route, select_route s host path = Some route
        ∧ (is_Some (route_certificate_ref route) ∨ is_Some (route_certificate_resolver_id route))
  | ActionAcmeChallengeBypass _ => True
  | ActionNotFound => select_route s host path = None
  end.

(** C27: a valid configuration serves.  If validation reports nothing and no two services share a
    name, the runtime selector can be built from the configuration, and from the first request on,
    after any requests, retries, ends of requests and reports of the health supervisor none of
    which calls all active upstreams of a service unhealthy, every host and path is answered,
    redirected to a host that has a certificate source, or proxied to a service that exists and for
    which the selector finds an upstream: an active one of that service, with the address of its own
    URL and its own TLS policy, which fit together. *)
Theorem valid_config_serves (v : ConfigValidator) (s : ConfigSnapshot) :
  report_is_valid (validate_snapshot v s) = true → NoDup (svc_id <$> snap_services s) →
  ∃ selector, selector_from_snapshot s = Ok selector
    ∧ ∀ ops host path, Forall (leaves_usable s) ops → request_served s (serving_run s ops selector) host path.
Proof.
  intros Hv%bool_decide_eq_true%validate_snapshot_nil Hn.
  destruct (valid_selector v s Hv Hn) as (selector0 & Hsel & Hav). exists selector0. split; [done|].
  intros ops host path Hops. pose proof (va_services _ _ Hv) as Hss. rewrite Forall_forall in Hss.
  destruct (serving_run_ok s ops selector0 (valid_unique _ _ Hv Hn) Hops) as [Hok Hk].
  { split; [by apply from_snapshot_ok; [by eapply valid_unique|]|]. intros svc Hsvc.
    pose proof (vs_active _ _ (Hss svc Hsvc)) as (u & Hu & Hact)%Exists_exists. exists u. split_and!; [done|done|].
    specialize (Hav svc u). intros E. by rewrite E in Hav. }
  set (selector := serving_run s ops selector0) in *.
  unfold request_served, select_http_route_action. destruct (strip_prefix _ _); [done|].
  destruct (select_route s host path) as [route|] eqn:Hr; [|done].
  pose proof (select_route_elem _ _ _ _ Hr) as Hin.
  pose proof (va_routes _ _ Hv) as Hrs. rewrite Forall_forall in Hrs. destruct (Hrs route Hin) as [_ _ Hs Hred].
  destruct (route_redirect_http_to_https route) eqn:Hre.
  { exists route. split; [done|]. by destruct (Hred Hre). }
  destruct (find_service_exists s _ Hs) as (svc & Hf & Hsvc).
  pose proof (select_exact s selector svc Hok Hsvc) as Hex. cbv zeta in Hex.
  destruct (selector_select svc selector) as [[r|] selector'] eqn:Hselect.
  2: { destruct Hex as [Hnil _]. exfalso. by eapply eligible_nonempty. }
  destruct Hex as (u & Hu & (H1 & H2 & H3 & _) & _).
  destruct (eligible_elem svc _ u (list_elem_of_lookup_2 _ _ _ Hu)) as [Hus Hact].
  exists svc, r, selector', u. split_and!; try done. rewrite H3.
  destruct (vs_endpoints _ _ (Hss svc Hsvc)) as (es & Hes & _).
  apply list_elem_of_lookup in Hus as [i Hi]. destruct (Forall2_lookup_l _ _ _ _ _ Hes Hi) as (e & _ & (He & _ & Ht & _)).
  congruence.
Qed.

(** ** Services with the same name *)
Definition twin_service (url : string) : Service :=
  {| svc_id := lit "s";
     svc_upstreams := [{| up_id := lit "a"; up_url := lit url; up_administrative_state := AdminActive;
                          up_tls := TlsDisabled |}];
     svc_policy := ServicePolicy_default |}.
Definition twin_snapshot (services : list Service) : ConfigSnapshot :=
  {| snap_schema_version := 2; snap_revision_id := lit "r1";
     snap_admin := {| admin_bind := DEFAULT_ADMIN_BIND; admin_auth_required := true |};
     snap_listeners := []; snap_routes := [items_route (PathMatch_prefix (lit "/"))];
     snap_services := services; snap_certificate_resolvers := []; snap_log_mode := LogProduct;
     snap_runtime :=
       {| opt_max_connections := DEFAULT_MAX_CONNECTIONS;
          opt_max_inflight_payload_bytes := DEFAULT_MAX_INFLIGHT_PAYLOAD_BYTES;
          opt_max_request_header_bytes := FIXED_REQUEST_HEADER_RESERVE_BYTES;
          opt_max_request_body_bytes := DEFAULT_MAX_REQUEST_BODY_BYTES;
          opt_upstream_read_timeout_ms := DEFAULT_UPSTREAM_READ_TIMEOUT_MS;
          opt_metrics := {| metrics_enabled := false; metrics_bind := DEFAULT_METRICS_BIND |} |} |}.

Lemma valid_config_serves_witness :
  let s := twin_snapshot [twin_service "http://10.0.0.1"] in
  (∃ id, select_http_route_action s (lit "example.com") (lit "/") = ActionProxy id (lit "s"))
  ∧ ∃ selector, selector_from_snapshot s = Ok selector
      ∧ request_served s (serving_run s (replicate 5 (RequestFor (lit "s"))) selector) (lit "example.com") (lit "/").
Proof.
  intros s. split; [eexists; vm_compute; reflexivity|].
  destruct (valid_config_serves ConfigValidator_default s) as (selector & Hs & H).
  - vm_compute. reflexivity.
  - vm_compute. constructor; [apply not_elem_of_nil|constructor].
  - exists selector. split; [exact Hs|]. apply H. repeat constructor.
Defined.

(** two services of the same name pass validation, and the runtime cannot be started with
    them: the availability of the upstreams is kept by service and upstream name, the number of
    upstreams is not, and the mismatch is refused as a runtime command. *)
Theorem duplicate_services_pass_validation :
  let s := twin_snapshot [twin_service "http://10.0.0.1"; twin_service "http://10.0.0.2"] in
  report_is_valid (validate_snapshot ConfigValidator_default s) = true
  ∧ selector_from_snapshot s
    = Err (AppError_new RuntimeCommandRejected "availability keys do not match active config").
Proof. vm_compute. done. Qed.
