(* ===== verification/ConfigStore.v ===== *)
(** * The configuration store

    The revision record (crates/edge-ports/src/lib.rs, config_revision_record.rs of
    edge-application), the repository port as a class, and its two adapters: the one in memory
    (crates/edge-adapters/src/lib.rs) and the one in files (file_revision_repository.rs), over a
    model of the file system in which every call can fail. *)

From stdpp Require Import base gmap strings list sorting.
From Stdlib Require Import Strings.Byte NArith Lia.
From S2P Require Import Prelude Errors RustStr Resource Endpoint UpstreamPolicy Snapshot ConfigParser ConfigDraft ConfigRender ConfigRoundtrip.
Local Open Scope N_scope.

(** ** Records *)
Record ConfigRevision := {
  rev_id : list byte;
  rev_schema_version : N;
  rev_summary : list byte
}.
Record RevisionRecord := {
  rec_revision : ConfigRevision;
  rec_snapshot : ConfigSnapshot;
  rec_checksum : list byte
}.

Definition checksum_snapshot (s : ConfigSnapshot) : list byte :=
  lit "schema:" ++ print_dec (snap_schema_version s)
  ++ lit ";revision:" ++ snap_revision_id s
  ++ lit ";listeners:" ++ print_dec (len (snap_listeners s))
  ++ lit ";routes:" ++ print_dec (len (snap_routes s))
  ++ lit ";services:" ++ print_dec (len (snap_services s)).

Definition revision_record_for_snapshot (s : ConfigSnapshot) (action : list byte) : RevisionRecord :=
  {| rec_revision := {| rev_id := snap_revision_id s; rev_schema_version := snap_schema_version s;
                        rev_summary := action ++ lit " " ++ snap_revision_id s |};
     rec_snapshot := s; rec_checksum := checksum_snapshot s |}.

(** ** The port

    The trait [ConfigRevisionRepository].  A reading method takes [&self]; it returns the
    repository too because a file system is also changed, in what it answers next, by being
    asked. *)
Class RevisionRepository (R : Type) := {
  save_revision : RevisionRecord → R → result AppError () * R;
  set_current : list byte → R → result AppError () * R;
  current_revision_id : R → result AppError (option (list byte)) * R;
  repo_current : R → result AppError (option RevisionRecord) * R;
  find_revision : list byte → R → result AppError (option RevisionRecord) * R;
  history : R → result AppError (list RevisionRecord) * R
}.

(** ** The adapter in memory *)
Record MemoryRevisionRepository := {
  mem_records : list RevisionRecord;
  mem_current : option (list byte)
}.
Definition has_revision (id : list byte) (r : RevisionRecord) : bool :=
  bool_decide (rev_id (rec_revision r) = id).

Definition mem_save_revision (record : RevisionRecord) (m : MemoryRevisionRepository)
  : result AppError () * MemoryRevisionRepository :=
  (Ok (), {| mem_records := mem_records m ++ [record]; mem_current := mem_current m |}).
Definition mem_set_current (id : list byte) (m : MemoryRevisionRepository)
  : result AppError () * MemoryRevisionRepository :=
  if existsb (has_revision id) (mem_records m)
  then (Ok (), {| mem_records := mem_records m; mem_current := Some id |})
  else (Err (AppError_new ConfigSchemaVersionMissing "revision not found"), m).
Definition mem_find_revision (id : list byte) (m : MemoryRevisionRepository)
  : result AppError (option RevisionRecord) * MemoryRevisionRepository :=
  (Ok (List.find (has_revision id) (mem_records m)), m).
Definition mem_current_record (m : MemoryRevisionRepository)
  : result AppError (option RevisionRecord) * MemoryRevisionRepository :=
  (Ok (mem_current m ≫= λ id, List.find (has_revision id) (mem_records m)), m).

#[global] Instance memory_repository : RevisionRepository MemoryRevisionRepository := {
  save_revision := mem_save_revision;
  set_current := mem_set_current;
  current_revision_id m := (Ok (mem_current m), m);
  repo_current := mem_current_record;
  find_revision := mem_find_revision;
  history m := (Ok (mem_records m), m)
}.

(** ** Hexadecimal names *)
Definition hex_digit (n : N) : byte := byte_of (if n <? 10 then 48 + n else 87 + n).
Definition hex_encode (value : list byte) : list byte :=
  value ≫= λ b, [hex_digit (u8 b / 16); hex_digit (u8 b mod 16)].

Fixpoint hex_pairs (l : list byte) : option (list byte) :=
  match l with
  | [] => Some []
  | a :: b :: rest =>
      if utf8_valid [a; b]
      then match from_str_radix 16 U8_MAX [a; b], hex_pairs rest with
           | Some v, Some bytes => Some (byte_of v :: bytes)
           | _, _ => None
           end
      else None
  | [_] => None
  end.
Definition hex_decode (value : list byte) : option (list byte) :=
  if negb (len value mod 2 =? 0) then None
  else match hex_pairs value with
       | Some bytes => if utf8_valid bytes then Some bytes else None
       | None => None
       end.

(** [Path::file_stem] and [Path::extension] of a file name, and [Path::with_extension]. *)
Definition split_extension (name : list byte) : list byte * option (list byte) :=
  match rsplit_once DOT name with
  | Some (before, after) => if bool_decide (before = []) then (name, None) else (before, Some after)
  | None => (name, None)
  end.
Definition with_extension (name extension : list byte) : list byte :=
  (split_extension name).1 ++ lit "." ++ extension.

(** ** The file system

    The directory of the repository: the file [current] beside the directory [revisions], with
    the temporary files of both.  Every call to the system takes its outcome from a list chosen
    by nobody in particular; a write that fails may leave a part of the text behind, a rename
    happens or does not.  [Path::exists] answers [false] when it cannot tell. *)
Inductive IoOutcome :=
| IoDone
| IoFails (written : option nat) (message : list byte).
Inductive FilePlace := InRoot (name : list byte) | InRevisions (name : list byte).
Record Disk := {
  disk_root : gmap (list byte) (list byte);
  disk_revisions : option (gmap (list byte) (list byte))
}.
Record FileRevisionRepository := { frr_disk : Disk; frr_outcomes : list IoOutcome }.

(** The longest file name of Linux file systems. *)
Definition NAME_MAX : N := 255.
Definition name_fits (name : list byte) : bool := len name <=? NAME_MAX.

Definition disk_lookup (p : FilePlace) (d : Disk) : option (list byte) :=
  match p with
  | InRoot name => if name_fits name then disk_root d !! name else None
  | InRevisions name =>
      if name_fits name then disk_revisions d ≫= λ files, files !! name else None
  end.
Definition disk_alter (f : gmap (list byte) (list byte) → gmap (list byte) (list byte))
  (p : FilePlace) (d : Disk) : Disk :=
  match p with
  | InRoot _ => {| disk_root := f (disk_root d); disk_revisions := disk_revisions d |}
  | InRevisions _ => {| disk_root := disk_root d; disk_revisions := f <$> disk_revisions d |}
  end.
Definition place_name (p : FilePlace) : list byte :=
  match p with InRoot name | InRevisions name => name end.
Definition disk_put (p : FilePlace) (content : list byte) (d : Disk) : Disk :=
  disk_alter <[place_name p := content]> p d.
Definition disk_remove (p : FilePlace) (d : Disk) : Disk := disk_alter (delete (place_name p)) p d.

Definition next_io (w : FileRevisionRepository) : IoOutcome * FileRevisionRepository :=
  match frr_outcomes w with
  | [] => (IoDone, w)
  | o :: rest => (o, {| frr_disk := frr_disk w; frr_outcomes := rest |})
  end.
Definition on_disk (f : Disk → Disk) (w : FileRevisionRepository) : FileRevisionRepository :=
  {| frr_disk := f (frr_disk w); frr_outcomes := frr_outcomes w |}.

Definition config_store_error (message : list byte) : AppError :=
  AppError_new ConfigStoreFailed (text message).
Definition no_such_file : AppError := config_store_error (lit "No such file or directory (os error 2)").
Definition name_too_long : AppError := config_store_error (lit "File name too long (os error 36)").
Definition invalid_utf8 : AppError := config_store_error (lit "stream did not contain valid UTF-8").

(** Why a file cannot be created at a place. *)
Definition disk_refusal (p : FilePlace) (d : Disk) : option AppError :=
  if negb (name_fits (place_name p)) then Some name_too_long
  else match p, disk_revisions d with
       | InRevisions _, None => Some no_such_file
       | _, _ => None
       end.

Definition path_exists (p : FilePlace) (w : FileRevisionRepository) : bool * FileRevisionRepository :=
  match next_io w with
  | (IoDone, w) => (bool_decide (is_Some (disk_lookup p (frr_disk w))), w)
  | (IoFails _ _, w) => (false, w)
  end.
Definition revisions_dir_exists (w : FileRevisionRepository) : bool * FileRevisionRepository :=
  match next_io w with
  | (IoDone, w) => (bool_decide (is_Some (disk_revisions (frr_disk w))), w)
  | (IoFails _ _, w) => (false, w)
  end.
Definition read_to_string (p : FilePlace) (w : FileRevisionRepository)
  : result AppError (list byte) * FileRevisionRepository :=
  match next_io w with
  | (IoDone, w) =>
      (match disk_lookup p (frr_disk w) with
       | Some content => if utf8_valid content then Ok content else Err invalid_utf8
       | None => Err no_such_file
       end, w)
  | (IoFails _ message, w) => (Err (config_store_error message), w)
  end.
Definition fs_write (p : FilePlace) (content : list byte) (w : FileRevisionRepository)
  : result AppError () * FileRevisionRepository :=
  let (outcome, w) := next_io w in
  match disk_refusal p (frr_disk w), outcome with
  | Some e, _ => (Err e, w)
  | None, IoDone => (Ok (), on_disk (disk_put p content) w)
  | None, IoFails None message => (Err (config_store_error message), w)
  | None, IoFails (Some n) message =>
      (Err (config_store_error message), on_disk (disk_put p (take n content)) w)
  end.
Definition fs_rename (from to : FilePlace) (w : FileRevisionRepository)
  : result AppError () * FileRevisionRepository :=
  match next_io w with
  | (IoDone, w) =>
      match disk_lookup from (frr_disk w) with
      | Some content =>
          match disk_refusal to (frr_disk w) with
          | None => (Ok (), on_disk (λ d, disk_put to content (disk_remove from d)) w)
          | Some e => (Err e, w)
          end
      | None => (Err no_such_file, w)
      end
  | (IoFails _ message, w) => (Err (config_store_error message), w)
  end.
Definition create_dir_all (w : FileRevisionRepository) : result AppError () * FileRevisionRepository :=
  match next_io w with
  | (IoDone, w) =>
      (Ok (), on_disk (λ d, {| disk_root := disk_root d;
                               disk_revisions := Some (default ∅ (disk_revisions d)) |}) w)
  | (IoFails _ message, w) => (Err (config_store_error message), w)
  end.
(** [fs::read_dir], collected and sorted by path. *)
Definition read_dir_sorted (w : FileRevisionRepository)
  : result AppError (list (list byte)) * FileRevisionRepository :=
  match next_io w with
  | (IoDone, w) =>
      (match disk_revisions (frr_disk w) with
       | Some files => Ok (sort_bytes (map_to_list files).*1)
       | None => Err no_such_file
       end, w)
  | (IoFails _ message, w) => (Err (config_store_error message), w)
  end.

(** ** The adapter in files *)
Definition revision_path (id : list byte) : FilePlace :=
  InRevisions (hex_encode id ++ lit ".toml").
Definition current_path : FilePlace := InRoot (lit "current").
Definition temp_of (p : FilePlace) (extension : list byte) : FilePlace :=
  match p with
  | InRoot name => InRoot (with_extension name extension)
  | InRevisions name => InRevisions (with_extension name extension)
  end.

Definition read_record (id : list byte) (w : FileRevisionRepository)
  : result AppError (option RevisionRecord) * FileRevisionRepository :=
  let (present, w) := path_exists (revision_path id) w in
  if negb present then (Ok None, w)
  else
    let! source, w := read_to_string (revision_path id) w in
    match parse_mvp_config source id with
    | Err e => (Err e, w)
    | Ok parsed =>
        let snapshot := cs_snapshot parsed in
        (Ok (Some {| rec_revision := {| rev_id := id; rev_schema_version := snap_schema_version snapshot;
                                        rev_summary := lit "file revision " ++ id |};
                     rec_snapshot := snapshot; rec_checksum := checksum_snapshot snapshot |}), w)
    end.

Definition file_save_revision (record : RevisionRecord) (w : FileRevisionRepository)
  : result AppError () * FileRevisionRepository :=
  let! _, w := create_dir_all w in
  let path := revision_path (rev_id (rec_revision record)) in
  let temp_path := temp_of path (lit "toml.tmp") in
  let! _, w := fs_write temp_path (render_mvp_config_snapshot (rec_snapshot record)) w in
  fs_rename temp_path path w.

Definition revision_not_found (id : list byte) : AppError :=
  AppError_new ConfigRevisionNotFound (text (lit "revision not found: " ++ id)).

Definition file_set_current (id : list byte) (w : FileRevisionRepository)
  : result AppError () * FileRevisionRepository :=
  let! _, w := create_dir_all w in
  let! found, w := read_record id w in
  match found with
  | None => (Err (revision_not_found id), w)
  | Some _ =>
      let temp_path := temp_of current_path (lit "tmp") in
      let! _, w := fs_write temp_path id w in
      fs_rename temp_path current_path w
  end.

Definition file_current_revision_id (w : FileRevisionRepository)
  : result AppError (option (list byte)) * FileRevisionRepository :=
  let (present, w) := path_exists current_path w in
  if negb present then (Ok None, w)
  else let! id, w := read_to_string current_path w in (Ok (Some (trim id)), w).

Definition file_current (w : FileRevisionRepository)
  : result AppError (option RevisionRecord) * FileRevisionRepository :=
  let! id, w := file_current_revision_id w in
  match id with
  | None => (Ok None, w)
  | Some id => read_record id w
  end.

(** The revision a directory entry stands for, if any. *)
Definition entry_revision (name : list byte) : option (list byte) :=
  let (stem, extension) := split_extension name in
  if negb (bool_decide (extension = Some (lit "toml"))) then None
  else if utf8_valid stem then hex_decode stem else None.

Fixpoint read_entries (names : list (list byte)) (w : FileRevisionRepository)
  : result AppError (list RevisionRecord) * FileRevisionRepository :=
  match names with
  | [] => (Ok [], w)
  | name :: rest =>
      match entry_revision name with
      | None => read_entries rest w
      | Some id =>
          let! found, w := read_record id w in
          let! records, w := read_entries rest w in
          (Ok (option_list found ++ records), w)
      end
  end.
Definition file_history (w : FileRevisionRepository)
  : result AppError (list RevisionRecord) * FileRevisionRepository :=
  let (present, w) := revisions_dir_exists w in
  if negb present then (Ok [], w)
  else let! names, w := read_dir_sorted w in read_entries names w.

#[global] Instance file_repository : RevisionRepository FileRevisionRepository := {
  save_revision := file_save_revision;
  set_current := file_set_current;
  current_revision_id := file_current_revision_id;
  repo_current := file_current;
  find_revision := read_record;
  history := file_history
}.

(** ** Names *)
Lemma hex_pair b :
  from_str_radix 16 U8_MAX [hex_digit (u8 b / 16); hex_digit (u8 b mod 16)] = Some (u8 b)
  ∧ utf8_valid [hex_digit (u8 b / 16); hex_digit (u8 b mod 16)] = true.
Proof. by destruct b. Qed.

Lemma byte_of_to b : byte_of (u8 b) = b.
Proof. by destruct b. Qed.

Lemma hex_pairs_encode l : hex_pairs (hex_encode l) = Some l.
Proof.
  induction l as [|b l IH]; [done|]. unfold hex_encode in *. cbn [mbind list_bind app hex_pairs].
  destruct (hex_pair b) as [-> ->]. by rewrite IH, byte_of_to.
Qed.
Lemma hex_encode_inj a b : hex_encode a = hex_encode b → a = b.
Proof. intros H%(f_equal hex_pairs). rewrite !hex_pairs_encode in H. congruence. Qed.
Lemma hex_encode_length l : length (hex_encode l) = (2 * length l)%nat.
Proof. induction l as [|b l IH]; [done|]. unfold hex_encode in *. cbn [mbind list_bind app length] in *. rewrite IH. lia. Qed.

(** Every revision is found again under its name. *)
Lemma hex_decode_encode l : utf8_valid l = true → hex_decode (hex_encode l) = Some l.
Proof.
  intros Hl. unfold hex_decode. rewrite hex_pairs_encode, Hl. unfold len. rewrite hex_encode_length.
  replace (N.of_nat (2 * length l)) with (0 + N.of_nat (length l) * 2) by lia.
  by rewrite N.Div0.mod_add.
Qed.

Lemma split_extension_app stem extension :
  stem ≠ [] → DOT ∉ extension → split_extension (stem ++ DOT :: extension) = (stem, Some extension).
Proof.
  intros Hs He. unfold split_extension.
  destruct (rsplit_once DOT (stem ++ DOT :: extension)) as [[a b]|] eqn:E.
  - apply rsplit_once_Some in E as [E Hb]. assert (a = stem ∧ b = extension) as [-> ->].
    { clear Hs. revert stem E. induction a as [|x a IH]; intros [|y stem] E; cbn [app] in E.
      - by injection E as ->.
      - exfalso. injection E as -> <-. apply Hb. set_solver.
      - exfalso. injection E as <- ->. apply He, elem_of_app. right. by left.
      - injection E as -> E. by destruct (IH stem E) as [-> ->]. }
    by rewrite bool_decide_false.
  - apply rsplit_once_None in E. exfalso. apply E, elem_of_app. right. by left.
Qed.

Definition revision_name (id : list byte) : list byte := hex_encode id ++ lit ".toml".

Lemma hex_digit_plain n : n < 16 → u8 (hex_digit n) < 128 ∧ hex_digit n ≠ LF ∧ hex_digit n ≠ CR.
Proof.
  intros Hn. assert (H : forallb (λ n, (u8 (hex_digit n) <? 128) && negb (bool_decide (hex_digit n = LF)) && negb (bool_decide (hex_digit n = CR)))
                         (N.of_nat <$> seq 0 16) = true) by (vm_compute; reflexivity).
  rewrite forallb_forall in H. specialize (H n). rewrite <-list_elem_of_In, list_elem_of_fmap in H.
  assert (Hin : ∃ k, n = N.of_nat k ∧ k ∈ seq 0 16). { exists (N.to_nat n). rewrite elem_of_seq. lia. }
  specialize (H Hin). apply andb_true_iff in H as [[H1 H2]%andb_true_iff H3]. apply N.ltb_lt in H1.
  apply negb_true_iff, bool_decide_eq_false in H2, H3. done.
Qed.
Lemma hex_encode_plain l : Forall (λ b, u8 b < 128 ∧ b ≠ LF ∧ b ≠ CR) (hex_encode l).
Proof.
  induction l as [|b l IH]; [done|]. unfold hex_encode in *. cbn [mbind list_bind app]. pose proof (to_N_bounded b) as Hb.
  apply Forall_cons; split; [|apply Forall_cons; split; [|done]]; apply hex_digit_plain;
    [apply N.Div0.div_lt_upper_bound|apply N.mod_lt]; unfold u8; lia.
Qed.
Lemma hex_encode_nil id : hex_encode id = [] → id = [].
Proof. intros H. by apply hex_encode_inj. Qed.

Lemma temp_revision_name id :
  with_extension (revision_name id) (lit "toml.tmp")
  = if bool_decide (id = []) then lit ".toml.toml.tmp" else hex_encode id ++ lit ".toml.tmp".
Proof.
  unfold with_extension, revision_name. case_bool_decide as Hid; [by subst|].
  change (lit ".toml") with (DOT :: lit "toml"). rewrite split_extension_app.
  - done.
  - by intros ?%hex_encode_nil.
  - vm_compute. set_solver.
Qed.

Lemma temp_not_revision id id' : with_extension (revision_name id) (lit "toml.tmp") ≠ revision_name id'.
Proof.
  rewrite temp_revision_name. unfold revision_name. intros H%(f_equal (@rev byte)).
  rewrite rev_app_distr in H. case_bool_decide; [done|]. by rewrite rev_app_distr in H.
Qed.
Lemma revision_name_inj id id' : revision_name id = revision_name id' → id = id'.
Proof. unfold revision_name. intros H%(inj (.++ _)). by apply hex_encode_inj. Qed.

Lemma temp_name_length id :
  len (with_extension (revision_name id) (lit "toml.tmp"))
  = if bool_decide (id = []) then 14 else 2 * len id + 9.
Proof.
  rewrite temp_revision_name. case_bool_decide; [done|]. rewrite len_app. unfold len.
  rewrite hex_encode_length. change (length (lit ".toml.tmp")) with 9%nat. lia.
Qed.

(** ** What a reader finds

    The view of a repository that the rest of the program relies on: the snapshot a revision
    reads back as, and the revision the pointer names.  [reload] is what becomes of a snapshot
    that is stored. *)
Class RepositoryView (R : Type) := {
  saved : R → list byte → option ConfigSnapshot;
  pointer : R → option (list byte);
  reload : ConfigSnapshot → option ConfigSnapshot;
  plain_id : list byte → bool
}.
Definition persisted `{RepositoryView R} (r : R) : option ConfigSnapshot := pointer r ≫= saved r.

Definition same_store `{RepositoryView R} (r r' : R) : Prop :=
  pointer r' = pointer r ∧ ∀ id, saved r' id = saved r id.
#[global] Instance same_store_preorder `{RepositoryView R} : PreOrder (@same_store R _).
Proof.
  split; [by split|]. intros a b c [H1 H2] [H3 H4]. split; [congruence|]. intros id. by rewrite H4.
Qed.

Class RepositoryLaws (R : Type) `{RevisionRepository R, RepositoryView R} := {
  law_save record r :
    rev_id (rec_revision record) = snap_revision_id (rec_snapshot record) →
    let id := rev_id (rec_revision record) in
    let (res, r') := save_revision record r in
    pointer r' = pointer r
    ∧ (∀ id', id' ≠ id → saved r' id' = saved r id')
    ∧ saved r' id = match res with Ok _ => reload (rec_snapshot record) | Err _ => saved r id end;
  law_set_current id r :
    let (res, r') := set_current id r in
    match res with
    | Ok _ => is_Some (saved r id) ∧ (∀ id', saved r' id' = saved r id')
              ∧ (plain_id id = true → pointer r' = Some id)
    | Err _ => same_store r r'
    end;
  law_current_id r :
    let (res, r') := current_revision_id r in
    same_store r r' ∧ ∀ id, res = Ok (Some id) → pointer r = Some id;
  law_current r :
    let (res, r') := repo_current r in
    same_store r r'
    ∧ ∀ record, res = Ok (Some record) →
        persisted r = Some (rec_snapshot record)
        ∧ pointer r = Some (rev_id (rec_revision record))
        ∧ snap_revision_id (rec_snapshot record) = rev_id (rec_revision record);
  law_find id r :
    let (res, r') := find_revision id r in
    same_store r r'
    ∧ ∀ record, res = Ok (Some record) →
        saved r id = Some (rec_snapshot record) ∧ snap_revision_id (rec_snapshot record) = id;
  law_history r : same_store r (history r).2
}.

(** ** The view of the adapter in files *)
Definition load_text (id content : list byte) : option ConfigSnapshot :=
  if utf8_valid content
  then match parse_mvp_config content id with Ok c => Some (cs_snapshot c) | Err _ => None end
  else None.
Definition disk_saved (d : Disk) (id : list byte) : option ConfigSnapshot :=
  disk_lookup (revision_path id) d ≫= load_text id.
Definition disk_pointer (d : Disk) : option (list byte) :=
  disk_lookup current_path d ≫= λ content, if utf8_valid content then Some (trim content) else None.

#[global] Instance file_view : RepositoryView FileRevisionRepository := {
  saved w := disk_saved (frr_disk w);
  pointer w := disk_pointer (frr_disk w);
  reload s := load_text (snap_revision_id s) (render_mvp_config_snapshot s);
  plain_id id := utf8_valid id && bool_decide (trim id = id)
}.

Lemma next_io_disk w : frr_disk (next_io w).2 = frr_disk w.
Proof. unfold next_io. by destruct (frr_outcomes w). Qed.

(** Reading changes nothing on the disk. *)
Ltac io_step :=
  match goal with
  | |- context [next_io ?w] =>
      pose proof (next_io_disk w); destruct (next_io w) as [[|? ?] ?]; cbn [snd fst] in *
  end.

Lemma path_exists_spec p w :
  frr_disk (path_exists p w).2 = frr_disk w
  ∧ ((path_exists p w).1 = true → is_Some (disk_lookup p (frr_disk w))).
Proof.
  unfold path_exists. io_step; (split; [done|]); [|done]. intros H1%bool_decide_eq_true. congruence.
Qed.
Lemma read_to_string_spec p w :
  frr_disk (read_to_string p w).2 = frr_disk w
  ∧ ∀ content, (read_to_string p w).1 = Ok content →
      disk_lookup p (frr_disk w) = Some content ∧ utf8_valid content = true.
Proof.
  unfold read_to_string. io_step; (split; [done|]); [|done]. intros content Hc.
  rewrite <- H. destruct (disk_lookup p _); [|done]. destruct (utf8_valid l) eqn:?; by simplify_eq.
Qed.

Lemma read_record_spec id w :
  frr_disk (read_record id w).2 = frr_disk w
  ∧ ∀ record, (read_record id w).1 = Ok (Some record) →
      disk_saved (frr_disk w) id = Some (rec_snapshot record)
      ∧ rev_id (rec_revision record) = id ∧ snap_revision_id (rec_snapshot record) = id.
Proof.
  unfold read_record. destruct (path_exists_spec (revision_path id) w) as [H1 _].
  destruct (path_exists _ w) as [[] w1]; cbn [fst snd negb] in *; [|done].
  destruct (read_to_string_spec (revision_path id) w1) as [H2 H3].
  destruct (read_to_string _ w1) as [[source|e] w2]; cbn [fst snd] in *; [|split; [congruence|done]].
  destruct (H3 source eq_refl) as [Hl Hu]. destruct (parse_mvp_config source id) as [c|e] eqn:Hc;
    cbn [fst snd]; (split; [congruence|]); [|done].
  intros record [= <-]. cbn [rec_snapshot rec_revision rev_id]. split_and!; [|done|].
  - unfold disk_saved. rewrite <- H1, Hl. cbn. unfold load_text. by rewrite Hu, Hc.
  - by eapply parse_revision.
Qed.

Lemma current_id_spec w :
  frr_disk (file_current_revision_id w).2 = frr_disk w
  ∧ ∀ id, (file_current_revision_id w).1 = Ok (Some id) → disk_pointer (frr_disk w) = Some id.
Proof.
  unfold file_current_revision_id. destruct (path_exists_spec current_path w) as [H1 _].
  destruct (path_exists _ w) as [[] w1]; cbn [fst snd negb] in *; [|done].
  destruct (read_to_string_spec current_path w1) as [H2 H3].
  destruct (read_to_string _ w1) as [[source|e] w2]; cbn [fst snd] in *; (split; [congruence|]); [|done].
  destruct (H3 source eq_refl) as [Hl Hu]. intros id [= <-]. unfold disk_pointer.
  rewrite <- H1, Hl. cbn. by rewrite Hu.
Qed.
Lemma current_spec w :
  frr_disk (file_current w).2 = frr_disk w
  ∧ ∀ record, (file_current w).1 = Ok (Some record) →
      disk_pointer (frr_disk w) = Some (rev_id (rec_revision record))
      ∧ disk_saved (frr_disk w) (rev_id (rec_revision record)) = Some (rec_snapshot record)
      ∧ snap_revision_id (rec_snapshot record) = rev_id (rec_revision record).
Proof.
  unfold file_current. destruct (current_id_spec w) as [H1 H2].
  destruct (file_current_revision_id w) as [[[id|]|e] w1]; cbn [fst snd] in *; [|done..].
  destruct (read_record_spec id w1) as [H3 H4]. split; [congruence|]. intros record Hr.
  destruct (H4 record Hr) as (H5 & -> & H6). rewrite <- H1 at 2. by rewrite (H2 id).
Qed.

Lemma read_entries_disk names w : frr_disk (read_entries names w).2 = frr_disk w.
Proof.
  revert w. induction names as [|name names IH]; intros w; [done|]. cbn [read_entries].
  destruct (entry_revision name) as [id|]; [|apply IH]. pose proof (proj1 (read_record_spec id w)) as H1.
  destruct (read_record id w) as [[found|e] w1]; cbn [fst snd] in *; [|done].
  specialize (IH w1). destruct (read_entries names w1) as [[records|e] w2]; cbn [fst snd] in *; congruence.
Qed.
Lemma history_disk w : frr_disk (file_history w).2 = frr_disk w.
Proof.
  unfold file_history, revisions_dir_exists. io_step; [|done].
  case_bool_decide; cbn [negb]; [|done]. unfold read_dir_sorted. io_step; [|congruence].
  rewrite <- H, <- H1. clear H0. destruct (disk_revisions _); cbn [fst snd]; [apply read_entries_disk|done].
Qed.

(** Writing. *)
#[global] Instance FilePlace_eq_dec : EqDecision FilePlace.
Proof. solve_decision. Defined.

Lemma lookup_put_other p q content d : q ≠ p → disk_lookup q (disk_put p content d) = disk_lookup q d.
Proof.
  intros Hne. unfold disk_put. destruct p as [a|a], q as [b|b]; cbn; try done.
  - by rewrite lookup_insert_ne by congruence.
  - destruct (disk_revisions d); cbn; [|done]. by rewrite lookup_insert_ne by congruence.
Qed.
Lemma lookup_put_same p content d :
  disk_refusal p d = None → disk_lookup p (disk_put p content d) = Some content.
Proof.
  unfold disk_refusal, disk_put. destruct p as [a|a]; cbn; destruct (name_fits a) eqn:Hf; try done; cbn.
  - by rewrite lookup_insert_eq.
  - destruct (disk_revisions d); cbn; [|done]. by rewrite lookup_insert_eq.
Qed.
Lemma lookup_remove_other p q d : q ≠ p → disk_lookup q (disk_remove p d) = disk_lookup q d.
Proof.
  intros Hne. unfold disk_remove. destruct p as [a|a], q as [b|b]; cbn; try done.
  - by rewrite lookup_delete_ne by congruence.
  - destruct (disk_revisions d); cbn; [|done]. by rewrite lookup_delete_ne by congruence.
Qed.
Lemma refusal_remove p q d : disk_refusal p (disk_remove q d) = disk_refusal p d.
Proof. unfold disk_refusal. destruct q; [done|]. destruct p; [done|]. cbn. by destruct (disk_revisions d). Qed.
Lemma refusal_put p q content d : disk_refusal p (disk_put q content d) = disk_refusal p d.
Proof. unfold disk_refusal. destruct q; [done|]. destruct p; [done|]. cbn. by destruct (disk_revisions d). Qed.

(** A file is replaced through a temporary file: afterwards it has the new content or the old. *)
Definition replace_file (temp path : FilePlace) (content : list byte) (w : FileRevisionRepository)
  : result AppError () * FileRevisionRepository :=
  let! _, w := fs_write temp content w in fs_rename temp path w.

Lemma replace_file_spec temp path content w :
  temp ≠ path →
  let (res, w') := replace_file temp path content w in
  (∀ p, p ≠ temp → p ≠ path → disk_lookup p (frr_disk w') = disk_lookup p (frr_disk w))
  ∧ disk_lookup path (frr_disk w')
    = match res with Ok _ => Some content | Err _ => disk_lookup path (frr_disk w) end.
Proof.
  intros Hne. unfold replace_file, fs_write. pose proof (next_io_disk w) as H1.
  destruct (next_io w) as [o w1]. cbn [snd] in H1. rewrite <- H1.
  destruct (disk_refusal temp (frr_disk w1)) as [e|] eqn:Hr; [done|].
  destruct o as [|[n|] m]; [|cbn; split; intros; by rewrite lookup_put_other|done].
  unfold fs_rename. set (w2 := on_disk _ w1). pose proof (next_io_disk w2) as H2.
  change (frr_disk w2) with (disk_put temp content (frr_disk w1)) in H2. clearbody w2.
  destruct (next_io w2) as [[|n m] w3]; cbn [snd] in H2; rewrite H2.
  2: { split; intros; by rewrite lookup_put_other. }
  rewrite lookup_put_same by done. rewrite refusal_put.
  destruct (disk_refusal path (frr_disk w1)) as [e|] eqn:Hp; cbn [frr_disk on_disk]; rewrite ?H2.
  { split; intros; by rewrite lookup_put_other. }
  split.
  - intros p ??. by rewrite lookup_put_other, lookup_remove_other, lookup_put_other.
  - apply lookup_put_same. by rewrite refusal_remove, refusal_put.
Qed.

Lemma create_dir_lookup w p : disk_lookup p (frr_disk (create_dir_all w).2) = disk_lookup p (frr_disk w).
Proof.
  unfold create_dir_all. io_step; [|congruence]. rewrite <- H. destruct p; cbn; [done|].
  destruct (disk_revisions (frr_disk f)); cbn; [done|]. by rewrite lookup_empty.
Qed.

Lemma same_disk_store w w' :
  (∀ p, (∀ n, p ≠ temp_of (revision_path n) (lit "toml.tmp")) → p ≠ temp_of current_path (lit "tmp") →
     disk_lookup p (frr_disk w') = disk_lookup p (frr_disk w)) → same_store w w'.
Proof.
  intros H. assert (Hr : ∀ id n, revision_path id ≠ temp_of (revision_path n) (lit "toml.tmp"))
    by (intros id n [= He]; by apply (temp_not_revision n id)).
  split; cbn [pointer saved file_view]; unfold disk_pointer, disk_saved; [by rewrite H|].
  intros id. by rewrite H.
Qed.
Lemma same_disk_view w w' : frr_disk w' = frr_disk w → same_store w w'.
Proof. intros H. apply same_disk_store. congruence. Qed.

Lemma file_save_spec record w :
  rev_id (rec_revision record) = snap_revision_id (rec_snapshot record) →
  let id := rev_id (rec_revision record) in
  let (res, w') := file_save_revision record w in
  pointer w' = pointer w
  ∧ (∀ id', id' ≠ id → saved w' id' = saved w id')
  ∧ saved w' id = match res with Ok _ => reload (rec_snapshot record) | Err _ => saved w id end.
Proof.
  intros Hid. cbv zeta. set (id := rev_id (rec_revision record)) in *. unfold file_save_revision.
  pose proof (create_dir_lookup w) as Hd. destruct (create_dir_all w) as [[[]|e] w1]; cbn [snd] in Hd.
  2: { destruct (same_disk_store w w1 ltac:(intros; apply Hd)) as [H1 H2]. by rewrite H1, H2. }
  fold id. set (path := revision_path id). set (temp := temp_of path _).
  pose proof (replace_file_spec temp path (render_mvp_config_snapshot (rec_snapshot record)) w1
    ltac:(intros [= He]; by eapply temp_not_revision)) as Hs.
  unfold replace_file in Hs. destruct (let! _, w := fs_write _ _ w1 in _) as [res w2].
  destruct Hs as [Ho Hp]. assert (Hr : ∀ id', revision_path id' ≠ temp)
    by (intros id' [= He]; by apply (temp_not_revision id id')).
  split_and!; cbn [pointer saved reload file_view].
  - unfold disk_pointer. by rewrite Ho, Hd.
  - intros id' Hne. unfold disk_saved. rewrite Ho, Hd; [done|apply Hr|].
    intros [= He%revision_name_inj]. done.
  - unfold disk_saved. fold path. rewrite Hp, Hd. destruct res; [|done]. by rewrite <- Hid.
Qed.

Lemma file_set_current_spec id w :
  let (res, w') := file_set_current id w in
  match res with
  | Ok _ => is_Some (saved w id) ∧ (∀ id', saved w' id' = saved w id')
            ∧ (plain_id id = true → pointer w' = Some id)
  | Err _ => same_store w w'
  end.
Proof.
  unfold file_set_current. pose proof (create_dir_lookup w) as Hd.
  destruct (create_dir_all w) as [[[]|e] w1]; cbn [snd] in Hd; [|apply same_disk_store; intros; apply Hd].
  destruct (read_record_spec id w1) as [H1 H2]. destruct (read_record id w1) as [[[record|]|e] w2];
    cbn [fst snd] in *; [|apply same_disk_store; intros; by rewrite H1..].
  destruct (H2 record eq_refl) as [Hsaved _].
  assert (Hs : is_Some (saved w id)) by (cbn [saved file_view]; unfold disk_saved; rewrite <- Hd; eexists; exact Hsaved).
  pose proof (replace_file_spec (temp_of current_path (lit "tmp")) current_path id w2 ltac:(done)) as Hf.
  unfold replace_file in Hf. destruct (let! _, w := fs_write _ _ w2 in _) as [[[]|e] w3]; destruct Hf as [Ho Hp].
  - split_and!; [exact Hs| |].
    + intros id'. cbn [saved file_view]. unfold disk_saved. by rewrite Ho, H1, Hd.
    + cbn [plain_id pointer file_view]. intros [Hu Ht]%andb_true_iff. unfold disk_pointer. rewrite Hp.
      cbn [mbind option_bind]. rewrite Hu.
      apply bool_decide_eq_true in Ht. congruence.
  - apply same_disk_store. intros p _ Hne. destruct (decide (p = current_path)) as [->|Hc].
    + by rewrite Hp, H1, Hd.
    + by rewrite Ho, H1, Hd.
Qed.

#[global] Instance file_laws : RepositoryLaws FileRevisionRepository.
Proof.
  split.
  - apply file_save_spec.
  - apply file_set_current_spec.
  - intros w. cbn [current_revision_id file_repository]. destruct (current_id_spec w) as [H1 H2].
    destruct (file_current_revision_id w) as [res w1]. cbn [fst snd] in *.
    split; [by apply same_disk_view|]. intros id ->. by apply H2.
  - intros w. cbn [repo_current file_repository]. destruct (current_spec w) as [H1 H2].
    destruct (file_current w) as [res w1]. cbn [fst snd] in *. split; [by apply same_disk_view|].
    intros record ->. destruct (H2 record eq_refl) as (Hp & Hs & Hr). unfold persisted.
    cbn [pointer saved file_view]. by rewrite Hp.
  - intros id w. cbn [find_revision file_repository]. destruct (read_record_spec id w) as [H1 H2].
    destruct (read_record id w) as [res w1]. cbn [fst snd] in *. split; [by apply same_disk_view|].
    intros record ->. by destruct (H2 record eq_refl) as (? & ? & ?).
  - intros w. apply same_disk_view, history_disk.
Qed.
