(* ===== verification/ConfigLifecycle.v ===== *)
(** * The life cycle of a configuration

    crates/edge-application/src: config_apply_policy.rs (what a change needs), the dispatch of
    its commands (config_command_dispatch.rs), applying and rolling back (config_lifecycle.rs)
    and the choice of the configuration at start-up (startup_config.rs).  Everything is written,
    and proved, over the interface of a repository; the audit sink and the running core are
    interfaces too. *)

From stdpp Require Import base gmap strings list sorting.
From Stdlib Require Import Strings.Byte NArith Lia.
From S2P Require Import Prelude Errors RustStr Resource Endpoint UpstreamPolicy Snapshot ConfigParser ConfigValidation ConfigStore.
Local Open Scope N_scope.

(** ** What a change needs *)
#[global] Instance ListenerProtocol_eq_dec : EqDecision ListenerProtocol.
Proof. solve_decision. Defined.
#[global] Instance ClientAuthPolicy_eq_dec : EqDecision ClientAuthPolicy.
Proof. solve_decision. Defined.
#[global] Instance Listener_eq_dec : EqDecision Listener.
Proof. solve_decision. Defined.
#[global] Instance MetricsConfig_eq_dec : EqDecision MetricsConfig.
Proof. solve_decision. Defined.

Record ConfigDiff := {
  diff_added_routes : list (list byte);
  diff_removed_routes : list (list byte);
  diff_changed_upstreams : list (list byte)
}.

Definition route_map (routes : list Route) : gmap (list byte) Route :=
  foldl (λ m route, <[route_id route := route]> m) ∅ routes.

(** [format!("{:?}", ..)] of a policy and of an administrative state is the derived [Debug] text. *)
Section diff.
Context (debug_policy : ServicePolicy → list byte) (debug_state : UpstreamAdministrativeState → list byte).

Definition upstream_texts (service : Service) : list (list byte) :=
  (lit "policy:" ++ debug_policy (svc_policy service))
  :: ((λ u, up_id u ++ lit "|" ++ up_url u ++ lit "|" ++ debug_state (up_administrative_state u))
        <$> svc_upstreams service).
Definition upstream_map (s : ConfigSnapshot) : gmap (list byte) (list (list byte)) :=
  foldl (λ m service, <[svc_id service := upstream_texts service]> m) ∅ (snap_services s).

(** The keys of a [BTreeMap] for which the predicate holds, in order. *)
Definition keys_where {A} (p : list byte → A → bool) (m : gmap (list byte) A) : list (list byte) :=
  sort_bytes (map_to_list (filter (λ '(k, v), p k v = true) m)).*1.

Definition diff_config (current : option ConfigSnapshot) (next : ConfigSnapshot) : ConfigDiff :=
  match current with
  | None =>
      {| diff_added_routes := route_id <$> snap_routes next; diff_removed_routes := [];
         diff_changed_upstreams := svc_id <$> snap_services next |}
  | Some current =>
      let current_routes := route_map (snap_routes current) in
      let next_routes := route_map (snap_routes next) in
      let current_upstreams := upstream_map current in
      {| diff_added_routes := keys_where (λ id _, bool_decide (current_routes !! id = None)) next_routes;
         diff_removed_routes := keys_where (λ id _, bool_decide (next_routes !! id = None)) current_routes;
         diff_changed_upstreams :=
           keys_where (λ id value, negb (bool_decide (current_upstreams !! id = Some value)))
             (upstream_map next) |}
  end.
End diff.

Record ApplyPlan := {
  plan_commands : list CoreCommand;
  plan_warnings : list string;
  plan_restart_required : bool
}.
Inductive ConfigActivationState : Set := ActivationAligned | ActivationPendingRestart.
Definition ConfigActivationState_as_str (s : ConfigActivationState) : list byte :=
  match s with
  | ActivationAligned => lit "aligned"
  | ActivationPendingRestart => lit "pending_restart"
  end.

Definition restart_warnings (current next : ConfigSnapshot) : list string :=
  let a := snap_runtime current in
  let b := snap_runtime next in
  (if bool_decide (snap_listeners current = snap_listeners next) then []
   else ["listener changes require process restart in MVP"%string])
  ++ (if bool_decide (opt_metrics a = opt_metrics b) then []
      else ["metrics changes require process restart in MVP"%string])
  ++ (if negb (opt_max_connections a =? opt_max_connections b)
         || negb (opt_max_inflight_payload_bytes a =? opt_max_inflight_payload_bytes b)
         || negb (opt_upstream_read_timeout_ms a =? opt_upstream_read_timeout_ms b)
      then ["resource policy changes require process restart"%string] else []).

Definition config_activation_state (active desired : ConfigSnapshot) : ConfigActivationState :=
  match restart_warnings active desired with
  | [] => ActivationAligned
  | _ => ActivationPendingRestart
  end.

Definition plan_apply_with_current (current : option ConfigSnapshot) (snapshot : ConfigSnapshot)
  : ApplyPlan :=
  let warnings := match current with
                  | None => []
                  | Some current => restart_warnings current snapshot
                  end in
  match warnings with
  | _ :: _ => {| plan_commands := []; plan_warnings := warnings; plan_restart_required := true |}
  | [] => {| plan_commands := [ApplyConfigSnapshot snapshot]; plan_warnings := [];
             plan_restart_required := false |}
  end.
Definition plan_apply (snapshot : ConfigSnapshot) : ApplyPlan := plan_apply_with_current None snapshot.

(** ** Ports

    [CoreCommandClient], [AuditSink], [BootstrapConfigSeed] and [StartupConfigPreflight]. *)
Record AuditEvent := { audit_event : string; audit_revision_id : option (list byte) }.
Class CoreCommandClient (C : Type) := core_send : CoreCommand → C → CommandAck * C.
Class AuditSink (A : Type) := audit_record : AuditEvent → A → result AppError () * A.
Class BootstrapConfigSeed (S : Type) := read_seed : S → result AppError (option (list byte)) * S.
Class StartupConfigPreflight (P : Type) := preflight : ConfigSnapshot → P → result AppError () * P.

Fixpoint send_commands `{CoreCommandClient C} (commands : list CoreCommand) (core : C)
  : result AppError () * C :=
  match commands with
  | [] => (Ok (), core)
  | command :: rest =>
      match core_send command core with
      | (Accepted, core) => send_commands rest core
      | (Rejected error, core) => (Err error, core)
      end
  end.
Definition send_apply_plan `{CoreCommandClient C} (plan : ApplyPlan) (core : C)
  : result AppError () * C := send_commands (plan_commands plan) core.

(** [FileBootstrapConfigSeed]: the text of the seed file, if there is one. *)
Record FileBootstrapConfigSeed := {
  seed_content : option (list byte);
  seed_outcomes : list IoOutcome
}.
#[global] Instance file_seed : BootstrapConfigSeed FileBootstrapConfigSeed := λ s,
  let s' := {| seed_content := seed_content s; seed_outcomes := tail (seed_outcomes s) |} in
  match head (seed_outcomes s), seed_content s with
  | Some (IoFails _ message), _ => (Err (config_store_error message), s')
  | _, None => (Ok None, s')
  | _, Some content => (if utf8_valid content then Ok (Some content) else Err invalid_utf8, s')
  end.

(** ** Applying and rolling back *)
Record ApplyResult := { apply_revision_id : list byte; apply_plan : ApplyPlan }.
Record ConfigLifecycle (R A : Type) := {
  lc_revisions : R;
  lc_audit : A;
  lc_validator : ConfigValidator
}.
Arguments lc_revisions {R A} _.
Arguments lc_audit {R A} _.
Arguments lc_validator {R A} _.

Section lifecycle.
Context `{!RevisionRepository R, !AuditSink A, !CoreCommandClient C}.

Definition on_revisions {T} (f : R → result AppError T * R) (l : ConfigLifecycle R A) : result AppError T * ConfigLifecycle R A :=
  let (res, r) := f (lc_revisions l) in
  (res, {| lc_revisions := r; lc_audit := lc_audit l; lc_validator := lc_validator l |}).
Definition on_audit (event : string) (id : list byte) (l : ConfigLifecycle R A) : result AppError () * ConfigLifecycle R A :=
  let (res, a) := audit_record {| audit_event := event; audit_revision_id := Some id |} (lc_audit l) in
  (res, {| lc_revisions := lc_revisions l; lc_audit := a; lc_validator := lc_validator l |}).
(** A call that leaves the core alone. *)
Definition beside_core {T} (m : result AppError T * ConfigLifecycle R A) (core : C)
  : result AppError T * (ConfigLifecycle R A * C) := (m.1, (m.2, core)).

Definition validated (snapshot : ConfigSnapshot) (l : ConfigLifecycle R A) : result AppError () :=
  match report_into_result (validate_snapshot (lc_validator l) snapshot) with
  | Ok _ => Ok ()
  | Err errors => Err (validation_errors_to_app_error errors)
  end.
Definition plan_against (current : option RevisionRecord) (snapshot : ConfigSnapshot) : ApplyPlan :=
  plan_apply_with_current (rec_snapshot <$> current) snapshot.

Definition lifecycle_apply (snapshot : ConfigSnapshot) (l : ConfigLifecycle R A)
  : result AppError ApplyResult * ConfigLifecycle R A :=
  match validated snapshot l with
  | Err e => (Err e, l)
  | Ok _ =>
      let record := revision_record_for_snapshot snapshot (lit "apply") in
      let! current, l := on_revisions repo_current l in
      let plan := plan_against current snapshot in
      let revision_id := rev_id (rec_revision record) in
      let! _, l := on_revisions (save_revision record) l in
      let! _, l := on_revisions (set_current revision_id) l in
      let! _, l := on_audit "config.apply" revision_id l in
      (Ok {| apply_revision_id := revision_id; apply_plan := plan |}, l)
  end.

(** Sending the plan, then the pointer and the audit event; shared by the two methods that talk
    to the core. *)
Definition send_and_publish (plan : ApplyPlan) (revision_id : list byte) (event failure : string)
  (l : ConfigLifecycle R A) (core : C) : result AppError ApplyResult * (ConfigLifecycle R A * C) :=
  match send_apply_plan plan core with
  | (Err error, core) =>
      let! _, (l, core) := beside_core (on_audit failure revision_id l) core in
      (Err error, (l, core))
  | (Ok _, core) =>
      let! _, (l, core) := beside_core (on_revisions (set_current revision_id) l) core in
      let! _, (l, core) := beside_core (on_audit event revision_id l) core in
      (Ok {| apply_revision_id := revision_id; apply_plan := plan |}, (l, core))
  end.

Definition apply_with_core (snapshot : ConfigSnapshot) (l : ConfigLifecycle R A) (core : C)
  : result AppError ApplyResult * (ConfigLifecycle R A * C) :=
  match validated snapshot l with
  | Err e => (Err e, (l, core))
  | Ok _ =>
      let revision_id := snap_revision_id snapshot in
      let record := revision_record_for_snapshot snapshot (lit "apply") in
      let! current, (l, core) := beside_core (on_revisions repo_current l) core in
      let plan := plan_against current snapshot in
      let! _, (l, core) := beside_core (on_revisions (save_revision record) l) core in
      send_and_publish plan revision_id "config.apply" "config.apply.failure" l core
  end.

Definition lifecycle_rollback (revision_id : list byte) (l : ConfigLifecycle R A)
  : result AppError ApplyResult * ConfigLifecycle R A :=
  let! found, l := on_revisions (find_revision revision_id) l in
  match found with
  | None => (Err (revision_not_found revision_id), l)
  | Some record =>
      let! current, l := on_revisions repo_current l in
      let plan := plan_against current (rec_snapshot record) in
      let! _, l := on_revisions (set_current revision_id) l in
      let! _, l := on_audit "config.rollback" revision_id l in
      (Ok {| apply_revision_id := revision_id; apply_plan := plan |}, l)
  end.

Definition rollback_with_core (revision_id : list byte) (l : ConfigLifecycle R A) (core : C)
  : result AppError ApplyResult * (ConfigLifecycle R A * C) :=
  let! found, (l, core) := beside_core (on_revisions (find_revision revision_id) l) core in
  match found with
  | None => (Err (revision_not_found revision_id), (l, core))
  | Some record =>
      match validated (rec_snapshot record) l with
      | Err e => (Err e, (l, core))
      | Ok _ =>
          let! current, (l, core) := beside_core (on_revisions repo_current l) core in
          let plan := plan_against current (rec_snapshot record) in
          send_and_publish plan revision_id "config.rollback" "config.rollback.failure" l core
      end
  end.
End lifecycle.

(** ** The configuration at start-up *)
Inductive StartupConfigOrigin : Set := OriginRevisionCurrent | OriginBootstrapSeedImported.
Definition StartupConfigOrigin_as_str (o : StartupConfigOrigin) : list byte :=
  match o with
  | OriginRevisionCurrent => lit "revision_current"
  | OriginBootstrapSeedImported => lit "bootstrap_seed_imported"
  end.
Record ResolvedStartupConfig := {
  resolved_snapshot : ConfigSnapshot;
  resolved_origin : StartupConfigOrigin
}.
Inductive StartupConfigResolutionState : Set :=
| OpeningRepository | RepositoryEmpty | ReadingSeed | ValidatingSeed | ImportingSeed
| ReadingCurrent | ValidatingCurrent | StartupResolved | StartupUnconfigured
| StartupFailed (error_code : ErrorCode).
Inductive StartupConfigResolutionEvent : Set :=
| RepositoryInspected (empty : bool)
| SeedRead | SeedAbsent | SeedValidated | SeedImported | CurrentRead | CurrentValidated
| ResolutionFailed (error_code : ErrorCode).

Section startup.
(** The [Debug] text of a state and an event, used in one message. *)
Context (debug_transition : StartupConfigResolutionState → StartupConfigResolutionEvent → string).

Definition startup_transition (state : StartupConfigResolutionState)
  (event : StartupConfigResolutionEvent) : result AppError () * StartupConfigResolutionState :=
  match state, event with
  | OpeningRepository, RepositoryInspected true => (Ok (), RepositoryEmpty)
  | OpeningRepository, RepositoryInspected false => (Ok (), ReadingCurrent)
  | RepositoryEmpty, SeedRead => (Ok (), ValidatingSeed)
  | RepositoryEmpty, SeedAbsent => (Ok (), StartupUnconfigured)
  | ValidatingSeed, SeedValidated => (Ok (), ImportingSeed)
  | ImportingSeed, SeedImported => (Ok (), StartupResolved)
  | ReadingCurrent, CurrentRead => (Ok (), ValidatingCurrent)
  | ValidatingCurrent, CurrentValidated => (Ok (), StartupResolved)
  | (OpeningRepository | RepositoryEmpty | ReadingSeed | ValidatingSeed | ImportingSeed
    | ReadingCurrent | ValidatingCurrent), ResolutionFailed error_code =>
      (Ok (), StartupFailed error_code)
  | _, _ => (Err (AppError_new InternalBug (debug_transition state event)), state)
  end.

Context `{!RevisionRepository R, !BootstrapConfigSeed Sd, !StartupConfigPreflight P}.

(** The use case with its local machine. *)
Record StartupRun := {
  run_machine : StartupConfigResolutionState;
  run_revisions : R;
  run_seed : Sd;
  run_preflight : P
}.
Definition set_machine (m : StartupConfigResolutionState) (st : StartupRun) : StartupRun :=
  {| run_machine := m; run_revisions := run_revisions st; run_seed := run_seed st;
     run_preflight := run_preflight st |}.
Definition startup_event (event : StartupConfigResolutionEvent) (st : StartupRun)
  : result AppError () * StartupRun :=
  let (res, m) := startup_transition (run_machine st) event in (res, set_machine m st).
Definition fail_startup_resolution {T} (code : ErrorCode) (message : string) (st : StartupRun)
  : result AppError T * StartupRun :=
  (Err (AppError_new code message),
   set_machine (startup_transition (run_machine st) (ResolutionFailed code)).2 st).
(** [map_err] with [fail_startup_resolution]; the code may depend on the error. *)
Definition or_fail {T} (code : AppError → ErrorCode) (m : result AppError T * StartupRun)
  : result AppError T * StartupRun :=
  match m with
  | (Ok x, st) => (Ok x, st)
  | (Err e, st) => fail_startup_resolution (code e) (app_message e) st
  end.
Definition ask_revisions {T} (f : R → result AppError T * R) (st : StartupRun)
  : result AppError T * StartupRun :=
  let (res, r) := f (run_revisions st) in
  (res, {| run_machine := run_machine st; run_revisions := r; run_seed := run_seed st;
           run_preflight := run_preflight st |}).
Definition ask_seed (st : StartupRun) : result AppError (option (list byte)) * StartupRun :=
  let (res, s) := read_seed (run_seed st) in
  (res, {| run_machine := run_machine st; run_revisions := run_revisions st; run_seed := s;
           run_preflight := run_preflight st |}).
Definition ask_preflight (snapshot : ConfigSnapshot) (st : StartupRun)
  : result AppError () * StartupRun :=
  let (res, p) := preflight snapshot (run_preflight st) in
  (res, {| run_machine := run_machine st; run_revisions := run_revisions st;
           run_seed := run_seed st; run_preflight := p |}).
Definition reported (report : ValidationReport) (st : StartupRun) : result AppError () * StartupRun :=
  (match report_into_result report with
   | Ok _ => Ok ()
   | Err errors => Err (validation_errors_to_app_error errors)
   end, st).

Definition resume_current (record : RevisionRecord) (st : StartupRun)
  : result AppError (option ResolvedStartupConfig) * StartupRun :=
  let snapshot := rec_snapshot record in
  let! _, st := startup_event (RepositoryInspected false) st in
  let! _, st := startup_event CurrentRead st in
  let! _, st := or_fail (λ _, ConfigCurrentRevisionInvalid)
                  (reported (validate_snapshot ConfigValidator_default snapshot) st) in
  let! _, st := or_fail app_code (ask_preflight snapshot st) in
  let! _, st := startup_event CurrentValidated st in
  (Ok (Some {| resolved_snapshot := snapshot; resolved_origin := OriginRevisionCurrent |}), st).

Definition import_seed (seed : list byte) (st : StartupRun)
  : result AppError (option ResolvedStartupConfig) * StartupRun :=
  let! _, st := startup_event SeedRead st in
  let! source, st := or_fail (λ _, ConfigBootstrapSeedInvalid)
                       (parse_mvp_config seed (lit "bootstrap-seed"), st) in
  let! _, st := or_fail (λ _, ConfigBootstrapSeedInvalid)
                  (reported (validate_source ConfigValidator_default source) st) in
  let! _, st := or_fail app_code (ask_preflight (cs_snapshot source) st) in
  let! _, st := startup_event SeedValidated st in
  let record := revision_record_for_snapshot (cs_snapshot source) (lit "bootstrap seed") in
  let! _, st := ask_revisions (save_revision record) st in
  let! _, st := ask_revisions (set_current (rev_id (rec_revision record))) st in
  let! _, st := startup_event SeedImported st in
  (Ok (Some {| resolved_snapshot := cs_snapshot source;
               resolved_origin := OriginBootstrapSeedImported |}), st).

Definition startup_execute (st : StartupRun)
  : result AppError (option ResolvedStartupConfig) * StartupRun :=
  let st := set_machine OpeningRepository st in
  let! current_id, st := or_fail (λ _, ConfigCurrentRevisionInvalid)
                           (ask_revisions current_revision_id st) in
  let! current, st := or_fail (λ _, ConfigCurrentRevisionInvalid) (ask_revisions repo_current st) in
  match current_id, current with
  | Some _, None =>
      let! _, st := startup_event (RepositoryInspected false) st in
      fail_startup_resolution ConfigCurrentRevisionMissing
        "current revision pointer does not reference a stored revision" st
  | _, Some record => resume_current record st
  | None, None =>
      let! stored, st := ask_revisions history st in
      if negb (bool_decide (len stored = 0))
      then
        let! _, st := startup_event (RepositoryInspected false) st in
        fail_startup_resolution ConfigCurrentRevisionMissing
          "revision repository is non-empty but current revision is unavailable" st
      else
        let! _, st := startup_event (RepositoryInspected true) st in
        let! seed, st := ask_seed st in
        match seed with
        | None =>
            let! _, st := startup_event SeedAbsent st in
            (Ok None, st)
        | Some seed => import_seed seed st
        end
  end.
End startup.
Arguments StartupRun : clear implicits.
Arguments run_machine {R Sd P} _.
Arguments run_revisions {R Sd P} _.
Arguments run_seed {R Sd P} _.
Arguments run_preflight {R Sd P} _.
Arguments Build_StartupRun {R Sd P} _ _ _ _.
