(* ===== verification/AdminConfig.v ===== *)
(** * Editing the configuration from the admin side

    The proxy-host values of the admin API and their translation
    (crates/edge-application/src/proxy_host_config.rs, crates/edge-admin-api/src:
    proxy_host_request_model.rs, proxy_host_snapshot_projection.rs, proxy_host_member_path.rs,
    config_source_schema.rs) and the five changes an administrator can make to a configuration
    (crates/edge-admin-api/src/lib.rs). *)

From stdpp Require Import base gmap strings list sorting.
From Stdlib Require Import Strings.Byte NArith ZArith Lia.
From S2P Require Import Prelude Errors RustStr Resource Endpoint UpstreamPolicy Snapshot ConfigParser ConfigValidation ConfigStore ConfigLifecycle.
Local Open Scope N_scope.

(** ** Proxy hosts *)
Record ProxyHost := {
  ph_id : list byte;
  ph_name : list byte;
  ph_domains : list HostMatch;
  ph_path_prefix : PathMatch;
  ph_upstream_url : list byte;
  ph_upstreams : list Upstream;
  ph_health_check : HealthCheckPolicy;
  ph_retry : RetryPolicy;
  ph_passive_health : PassiveHealthMode;
  ph_https_enabled : bool;
  ph_letsencrypt_enabled : bool;
  ph_redirect_http_to_https : bool;
  ph_enabled : bool
}.
Record ProxyHostParts := { parts_route : Route; parts_service : Service }.

Definition generated_id (id : list byte) : list byte := lit "proxy-host-" ++ id.

Definition proxy_host_to_parts (h : ProxyHost) : ProxyHostParts :=
  let upstreams :=
    match ph_upstreams h with
    | [] => [{| up_id := generated_id (ph_id h) ++ lit "-primary"; up_url := ph_upstream_url h;
                up_administrative_state := AdminActive; up_tls := TlsDisabled |}]
    | upstreams => upstreams
    end in
  {| parts_route :=
       {| route_id := generated_id (ph_id h);
          route_match := {| rm_hosts := ph_domains h; rm_paths := [ph_path_prefix h] |};
          route_service_id := generated_id (ph_id h);
          route_priority := 100;
          route_enabled := ph_enabled h;
          route_redirect_http_to_https := ph_redirect_http_to_https h;
          route_certificate_resolver_id :=
            if ph_letsencrypt_enabled h then Some (lit "letsencrypt-http01") else None;
          route_certificate_ref := if ph_https_enabled h then Some (generated_id (ph_id h)) else None |};
     parts_service :=
       {| svc_id := generated_id (ph_id h); svc_upstreams := upstreams;
          svc_policy := {| sp_load_balancing := RoundRobin; sp_health_check := ph_health_check h;
                           sp_retry := ph_retry h; sp_passive_health := ph_passive_health h |} |} |}.

Definition with_tables (routes : list Route) (services : list Service) (s : ConfigSnapshot)
  : ConfigSnapshot :=
  {| snap_schema_version := snap_schema_version s; snap_revision_id := snap_revision_id s;
     snap_admin := snap_admin s; snap_listeners := snap_listeners s; snap_routes := routes;
     snap_services := services; snap_certificate_resolvers := snap_certificate_resolvers s;
     snap_log_mode := snap_log_mode s; snap_runtime := snap_runtime s |}.
Definition with_revision (id : list byte) (s : ConfigSnapshot) : ConfigSnapshot :=
  {| snap_schema_version := snap_schema_version s; snap_revision_id := id;
     snap_admin := snap_admin s; snap_listeners := snap_listeners s; snap_routes := snap_routes s;
     snap_services := snap_services s; snap_certificate_resolvers := snap_certificate_resolvers s;
     snap_log_mode := snap_log_mode s; snap_runtime := snap_runtime s |}.

Definition other_routes (id : list byte) (routes : list Route) : list Route :=
  List.filter (λ route, negb (bool_decide (route_id route = id))) routes.
Definition other_services (id : list byte) (services : list Service) : list Service :=
  List.filter (λ service, negb (bool_decide (svc_id service = id))) services.

Definition add_proxy_host (s : ConfigSnapshot) (h : ProxyHost) : ConfigSnapshot :=
  let parts := proxy_host_to_parts h in
  with_tables (other_routes (route_id (parts_route parts)) (snap_routes s) ++ [parts_route parts])
    (other_services (svc_id (parts_service parts)) (snap_services s) ++ [parts_service parts]) s.
Definition update_proxy_host (s : ConfigSnapshot) (h : ProxyHost) : ConfigSnapshot := add_proxy_host s h.
Definition remove_proxy_host (s : ConfigSnapshot) (id : list byte) : ConfigSnapshot :=
  with_tables (other_routes (generated_id id) (snap_routes s))
    (other_services (generated_id id) (snap_services s)) s.

Definition set_route_enabled (enabled : bool) (r : Route) : Route :=
  {| route_id := route_id r; route_match := route_match r; route_service_id := route_service_id r;
     route_priority := route_priority r; route_enabled := enabled;
     route_redirect_http_to_https := route_redirect_http_to_https r;
     route_certificate_resolver_id := route_certificate_resolver_id r;
     route_certificate_ref := route_certificate_ref r |}.
Definition set_proxy_host_enabled (s : ConfigSnapshot) (id : list byte) (enabled : bool)
  : ConfigSnapshot :=
  with_tables ((λ r, if bool_decide (route_id r = generated_id id) then set_route_enabled enabled r else r)
                 <$> snap_routes s) (snap_services s) s.

(** ** Requests and responses *)
Record ProxyHostUpstreamRequest := {
  ur_id : list byte;
  ur_url : list byte;
  ur_administrative_state : UpstreamAdministrativeState
}.
Record ProxyHostRequest := {
  pr_host_id : list byte;
  pr_name : list byte;
  pr_domains : list (list byte);
  pr_path_prefix : list byte;
  pr_upstream_url : list byte;
  pr_upstreams : list ProxyHostUpstreamRequest;
  pr_health_check : option HttpHealthCheckPolicy;
  pr_retry : RetryPolicy;
  pr_passive_health : PassiveHealthMode;
  pr_https_enabled : bool;
  pr_letsencrypt_enabled : bool;
  pr_redirect_http_to_https : bool;
  pr_enabled : bool
}.
(** [ProxyHostResponse] has the same fields. *)
Definition ProxyHostResponse : Type := ProxyHostRequest.

Definition proxy_host_from_request (r : ProxyHostRequest) : ProxyHost :=
  {| ph_id := pr_host_id r; ph_name := pr_name r; ph_domains := HostMatch_exact <$> pr_domains r;
     ph_path_prefix := PathMatch_prefix (pr_path_prefix r); ph_upstream_url := pr_upstream_url r;
     ph_upstreams := (λ u, {| up_id := ur_id u; up_url := ur_url u;
                              up_administrative_state := ur_administrative_state u;
                              up_tls := TlsDisabled |}) <$> pr_upstreams r;
     ph_health_check := match pr_health_check r with
                        | Some policy => HealthHttp policy | None => HealthDisabled end;
     ph_retry := pr_retry r; ph_passive_health := pr_passive_health r;
     ph_https_enabled := pr_https_enabled r; ph_letsencrypt_enabled := pr_letsencrypt_enabled r;
     ph_redirect_http_to_https := pr_redirect_http_to_https r; ph_enabled := pr_enabled r |}.

Definition upstream_request (u : Upstream) : ProxyHostUpstreamRequest :=
  {| ur_id := up_id u; ur_url := up_url u; ur_administrative_state := up_administrative_state u |}.

Definition proxy_host_response_from_generated_route (s : ConfigSnapshot) (route : Route)
  : option ProxyHostResponse :=
  match strip_prefix (lit "proxy-host-") (route_id route) with
  | None | Some [] => None
  | Some id =>
      match find_service s (route_service_id route) with
      | None => None
      | Some service =>
          match svc_upstreams service, rm_paths (route_match route) with
          | upstream :: _, path_prefix :: _ =>
              Some {| pr_host_id := id; pr_name := id;
                      pr_domains := hm_normalized <$> rm_hosts (route_match route);
                      pr_path_prefix := pm_prefix path_prefix; pr_upstream_url := up_url upstream;
                      pr_upstreams := upstream_request <$> svc_upstreams service;
                      pr_health_check := match sp_health_check (svc_policy service) with
                                         | HealthDisabled => None | HealthHttp policy => Some policy end;
                      pr_retry := sp_retry (svc_policy service);
                      pr_passive_health := sp_passive_health (svc_policy service);
                      pr_https_enabled := bool_decide (is_Some (route_certificate_ref route));
                      pr_letsencrypt_enabled :=
                        bool_decide (is_Some (route_certificate_resolver_id route));
                      pr_redirect_http_to_https := route_redirect_http_to_https route;
                      pr_enabled := route_enabled route |}
          | _, _ => None
          end
      end
  end.

Definition response_le (a b : ProxyHostResponse) : Prop := bytes_le (pr_host_id a) (pr_host_id b).
#[global] Instance response_le_dec : RelDecision response_le.
Proof. intros a b. unfold response_le. apply _. Defined.
Definition proxy_hosts_from_snapshot (s : ConfigSnapshot) : list ProxyHostResponse :=
  merge_sort response_le (omap (proxy_host_response_from_generated_route s) (snap_routes s)).

Definition proxy_host_not_found (id : list byte) : AppError :=
  AppError_new AdminRouteNotFound (text (lit "proxy host not found: " ++ id)).
Definition proxy_host_from_snapshot (s : ConfigSnapshot) (id : list byte)
  : result AppError ProxyHostResponse :=
  ok_or (List.find (λ h, bool_decide (pr_host_id h = id)) (proxy_hosts_from_snapshot s))
    (proxy_host_not_found id).

Definition proxy_host_id_from_member_path (path : list byte) : result AppError (list byte) :=
  match strip_prefix (lit "/api/v1/proxy-hosts/") path with
  | None => Err (AppError_new AdminRouteNotFound "admin http route not found")
  | Some id =>
      if bool_decide (id = []) || contains_byte SLASH id
      then Err (AppError_new AdminRouteNotFound "proxy host route requires a single id segment")
      else Ok id
  end.

(** ** Configuration sources *)
Definition validate_config (s : ConfigSnapshot) : ValidationReport :=
  validate_snapshot ConfigValidator_default s.
Definition parse_valid_config_source (source revision_id : list byte)
  : result (list ValidationError) ConfigSnapshot :=
  match parse_mvp_config source revision_id with
  | Err e => Err [ValidationError_new (app_code e) (app_message e)]
  | Ok parsed =>
      let report := validate_config (cs_snapshot parsed) in
      if report_is_valid report then Ok (cs_snapshot parsed) else Err (report_errors report)
  end.
Definition validate_config_source (source : list byte) : list ValidationError :=
  match parse_valid_config_source source (lit "candidate") with
  | Ok _ => []
  | Err errors => errors
  end.

(** ** The changes *)
Record ApplyResponse := {
  resp_revision_id : list byte;
  resp_commands_sent : N;
  resp_restart_required : bool
}.
Definition apply_response (r : ApplyResult) : ApplyResponse :=
  {| resp_revision_id := apply_revision_id r; resp_commands_sent := len (plan_commands (apply_plan r));
     resp_restart_required := plan_restart_required (apply_plan r) |}.

(** [validation_errors_to_app_error] of the admin crate. *)
Definition first_error (errors : list ValidationError) : AppError :=
  let first := default (ValidationError_new InternalBug "missing validation error") (head errors) in
  AppError_new (val_code first) (val_message first).

Definition current_revision_missing : AppError :=
  AppError_new ConfigRevisionNotFound "current revision missing".

Definition ensure_proxy_host_exists (s : ConfigSnapshot) (id : list byte) : result AppError () :=
  if existsb (λ route, bool_decide (route_id route = generated_id id)) (snap_routes s)
  then Ok () else Err (proxy_host_not_found id).

Section mutations.
Context `{!RevisionRepository R, !AuditSink A, !CoreCommandClient C}.

(** [lifecycle.revisions.current()?.ok_or_else(..)?] and what follows, for the functions that
    start from the configuration in force. *)
Definition from_current (k : RevisionRecord → result AppError ConfigSnapshot)
  (l : ConfigLifecycle R A) (core : C) : result AppError ApplyResponse * (ConfigLifecycle R A * C) :=
  let! current, (l, core) := beside_core (on_revisions repo_current l) core in
  match current with
  | None => (Err current_revision_missing, (l, core))
  | Some record =>
      match k record with
      | Err e => (Err e, (l, core))
      | Ok next =>
          let! res, st := apply_with_core next l core in
          (Ok (apply_response res), st)
      end
  end.

(** [validate_config(&next)] and the error it reports. *)
Definition checked_change (next : ConfigSnapshot) : result AppError ConfigSnapshot :=
  match report_errors (validate_config next) with
  | [] => Ok next
  | first :: _ => Err (AppError_new (val_code first) (val_message first))
  end.

Definition next_source (source : list byte) (record : RevisionRecord) : result AppError ConfigSnapshot :=
  match parse_valid_config_source source (rev_id (rec_revision record) ++ lit "-config-apply") with
  | Ok next => Ok next
  | Err errors => Err (first_error errors)
  end.
Definition next_create (request : ProxyHostRequest) (record : RevisionRecord)
  : result AppError ConfigSnapshot :=
  let current := rec_snapshot record in
  let h := proxy_host_from_request request in
  checked_change (with_revision (snap_revision_id current ++ lit "-proxy-host-" ++ ph_id h)
                    (add_proxy_host current h)).
Definition next_update (id : list byte) (request : ProxyHostRequest) (record : RevisionRecord)
  : result AppError ConfigSnapshot :=
  let current := rec_snapshot record in
  let? _ := ensure_proxy_host_exists current id in
  checked_change (with_revision (snap_revision_id current ++ lit "-update-proxy-host-" ++ id)
                    (update_proxy_host current (proxy_host_from_request request))).
Definition next_delete (id : list byte) (record : RevisionRecord) : result AppError ConfigSnapshot :=
  let current := rec_snapshot record in
  let? _ := ensure_proxy_host_exists current id in
  checked_change (with_revision (snap_revision_id current ++ lit "-delete-proxy-host-" ++ id)
                    (remove_proxy_host current id)).

Definition apply_config_source (source : list byte) (l : ConfigLifecycle R A) (core : C)
  : result AppError ApplyResponse * (ConfigLifecycle R A * C) :=
  from_current (next_source source) l core.
Definition create_proxy_host_and_apply (request : ProxyHostRequest) (l : ConfigLifecycle R A) (core : C)
  : result AppError ApplyResponse * (ConfigLifecycle R A * C) :=
  from_current (next_create request) l core.
Definition update_proxy_host_and_apply (id : list byte) (request : ProxyHostRequest)
  (l : ConfigLifecycle R A) (core : C) : result AppError ApplyResponse * (ConfigLifecycle R A * C) :=
  if negb (bool_decide (pr_host_id request = id))
  then (Err (AppError_new HttpMalformedRequest "path proxy host id must match request body id"), (l, core))
  else from_current (next_update id request) l core.
Definition delete_proxy_host_and_apply (id : list byte) (l : ConfigLifecycle R A) (core : C)
  : result AppError ApplyResponse * (ConfigLifecycle R A * C) :=
  from_current (next_delete id) l core.
Definition admin_rollback (revision_id : list byte) (l : ConfigLifecycle R A) (core : C)
  : result AppError ApplyResponse * (ConfigLifecycle R A * C) :=
  let! res, st := rollback_with_core revision_id l core in
  (Ok (apply_response res), st).
End mutations.

(** ** Editing and reading agree

    What an administrator is shown of a request: names and paths in their normal form, the
    upstream that was generated when none was listed, and the id in place of the name. *)
Definition shown (r : ProxyHostRequest) : ProxyHostResponse :=
  let upstreams :=
    match pr_upstreams r with
    | [] => [{| ur_id := generated_id (pr_host_id r) ++ lit "-primary"; ur_url := pr_upstream_url r;
                ur_administrative_state := AdminActive |}]
    | upstreams => upstreams
    end in
  {| pr_host_id := pr_host_id r; pr_name := pr_host_id r; pr_domains := normalize_host <$> pr_domains r;
     pr_path_prefix := normalize_path (pr_path_prefix r);
     pr_upstream_url := default [] (ur_url <$> head upstreams); pr_upstreams := upstreams;
     pr_health_check := pr_health_check r; pr_retry := pr_retry r;
     pr_passive_health := pr_passive_health r; pr_https_enabled := pr_https_enabled r;
     pr_letsencrypt_enabled := pr_letsencrypt_enabled r;
     pr_redirect_http_to_https := pr_redirect_http_to_https r; pr_enabled := pr_enabled r |}.

Lemma find_unique {T} (p : T → bool) (l : list T) x :
  x ∈ l → p x = true → (∀ y, y ∈ l → p y = true → y = x) → List.find p l = Some x.
Proof.
  intros Hx Hp Hu. destruct (List.find p l) as [y|] eqn:E.
  - apply List.find_some in E as [Hy Hpy]. f_equal. apply Hu; [by apply list_elem_of_In|done].
  - apply list_elem_of_In in Hx. pose proof (List.find_none p l E x Hx). congruence.
Qed.

Lemma elem_of_filter_bool {T} (p : T → bool) (l : list T) x : x ∈ List.filter p l ↔ p x = true ∧ x ∈ l.
Proof. rewrite !list_elem_of_In, List.filter_In. tauto. Qed.

Lemma filter_filter_same {T} (p : T → bool) (l : list T) : List.filter p (List.filter p l) = List.filter p l.
Proof. induction l as [|x l IH]; [done|]. simpl. destruct (p x) eqn:E; simpl; rewrite ?E, ?IH; done. Qed.
Lemma filter_everything {T} (p : T → bool) (l : list T) : Forall (λ x, p x = true) l → List.filter p l = l.
Proof. induction 1 as [|x l Hx _ IH]; [done|]. simpl. by rewrite Hx, IH. Qed.

Lemma strip_generated id : strip_prefix (lit "proxy-host-") (generated_id id) = Some id.
Proof.
  unfold strip_prefix, generated_id. rewrite starts_with_app.
  by rewrite drop_app_length.
Qed.

Lemma generated_response s route y :
  proxy_host_response_from_generated_route s route = Some y → route_id route = generated_id (pr_host_id y).
Proof.
  unfold proxy_host_response_from_generated_route. intros H.
  destruct (strip_prefix _ _) as [[|b id]|] eqn:E; [done| |done].
  destruct (find_service _ _) as [service|]; [|done].
  destruct (svc_upstreams service); [done|]. destruct (rm_paths _); [done|]. injection H as <-. cbn [pr_host_id].
  unfold strip_prefix in E. destruct (starts_with _ _) eqn:Hs; [|done].
  apply starts_with_spec in Hs as [k Hk]. rewrite Hk, drop_app_length in E. rewrite Hk.
  unfold generated_id. congruence.
Qed.

Lemma other_routes_not id routes r : r ∈ other_routes id routes → route_id r ≠ id.
Proof. intros [H _]%elem_of_filter_bool. by case_bool_decide. Qed.

Lemma find_service_added services service id :
  svc_id service = id →
  List.find (λ s, bool_decide (svc_id s = id)) (other_services id services ++ [service]) = Some service.
Proof.
  intros <-. apply find_unique.
  - apply elem_of_app. right. by apply list_elem_of_singleton.
  - by apply bool_decide_eq_true.
  - intros y [[Hy _]%elem_of_filter_bool| ->%list_elem_of_singleton]%elem_of_app; [|done].
    by destruct (bool_decide _).
Qed.

Lemma added_response s r :
  pr_host_id r ≠ [] →
  proxy_host_response_from_generated_route (add_proxy_host s (proxy_host_from_request r))
    (parts_route (proxy_host_to_parts (proxy_host_from_request r))) = Some (shown r).
Proof.
  intros Hid. unfold proxy_host_response_from_generated_route.
  cbn [parts_route proxy_host_to_parts route_id ph_id proxy_host_from_request]. rewrite strip_generated.
  destruct (pr_host_id r) as [|b id] eqn:E; [done|]. rewrite <- E in *. clear E.
  cbn [route_service_id]. unfold find_service, add_proxy_host. cbn [snap_services with_tables].
  rewrite find_service_added by done.
  cbn [parts_service proxy_host_to_parts svc_upstreams route_match rm_paths ph_upstreams proxy_host_from_request].
  assert (Hd : hm_normalized <$> (HostMatch_exact <$> pr_domains r) = normalize_host <$> pr_domains r)
    by (by rewrite <- list_fmap_compose).
  assert (Hh : match match pr_health_check r with Some policy => HealthHttp policy | None => HealthDisabled end with
               | HealthDisabled => None | HealthHttp policy => Some policy end = pr_health_check r)
    by (by destruct (pr_health_check r)).
  assert (Hb : ∀ (b : bool) (x : list byte), bool_decide (is_Some (if b then Some x else None)) = b)
    by (intros [] x; [by apply bool_decide_eq_true|by apply bool_decide_eq_false; intros [? ?]]).
  unfold shown. destruct (pr_upstreams r) as [|u us] eqn:Eu; cbn [fmap list_fmap]; f_equal; f_equal;
    try done; try apply Hb.
  destruct u. f_equal. rewrite <- list_fmap_compose. erewrite list_fmap_ext; [apply list_fmap_id|].
  by intros i [] _.
Qed.

Lemma add_removed s h : remove_proxy_host (add_proxy_host s h) (ph_id h) = remove_proxy_host s (ph_id h).
Proof.
  unfold remove_proxy_host, add_proxy_host. cbn [snap_routes snap_services with_tables].
  unfold other_routes, other_services. rewrite !List.filter_app, !filter_filter_same. cbn.
  rewrite !bool_decide_true by done. cbn. by rewrite !app_nil_r.
Qed.

Definition no_generated (id : list byte) (s : ConfigSnapshot) : Prop :=
  Forall (λ r, route_id r ≠ generated_id id) (snap_routes s)
  ∧ Forall (λ svc, svc_id svc ≠ generated_id id) (snap_services s).
Lemma remove_nothing s id : no_generated id s → remove_proxy_host s id = s.
Proof.
  intros [H1 H2]. unfold remove_proxy_host, other_routes, other_services.
  rewrite !filter_everything; [by destruct s|eapply Forall_impl; [exact H2|]|eapply Forall_impl; [exact H1|]];
    intros x Hx; by rewrite bool_decide_false.
Qed.
Lemma add_twice s h h' :
  ph_id h = ph_id h' → add_proxy_host (add_proxy_host s h) h' = add_proxy_host s h'.
Proof.
  intros Hid. pose proof (add_removed s h) as Hr. rewrite Hid in Hr.
  pose proof (f_equal snap_routes Hr) as Hr1. pose proof (f_equal snap_services Hr) as Hr2.
  unfold remove_proxy_host in Hr1, Hr2. cbn [snap_routes snap_services with_tables] in Hr1, Hr2.
  unfold add_proxy_host at 1. cbn [parts_route parts_service proxy_host_to_parts route_id svc_id].
  rewrite Hr1, Hr2. done.
Qed.

(** editing a proxy host and reading it agree.  After a request is added, or put in place of
    an earlier one, the proxy host reads back as the request, in its normal form; there is one of
    that id; putting another in its place forgets the first; removing it leaves what removing it
    before would have, which is the configuration itself when the id is new. *)
Theorem proxy_host_edits_agree (s : ConfigSnapshot) (r r' : ProxyHostRequest) :
  pr_host_id r ≠ [] → pr_host_id r' = pr_host_id r →
  let added := add_proxy_host s (proxy_host_from_request r) in
  proxy_host_from_snapshot added (pr_host_id r) = Ok (shown r)
  ∧ ensure_proxy_host_exists added (pr_host_id r) = Ok ()
  ∧ update_proxy_host added (proxy_host_from_request r') = add_proxy_host s (proxy_host_from_request r')
  ∧ remove_proxy_host added (pr_host_id r) = remove_proxy_host s (pr_host_id r)
  ∧ (no_generated (pr_host_id r) s → remove_proxy_host added (pr_host_id r) = s).
Proof.
  intros Hid Hid'. cbv zeta. split_and!.
  - unfold proxy_host_from_snapshot, ok_or. rewrite (find_unique _ _ (shown r)); [done|..].
    + unfold proxy_hosts_from_snapshot. rewrite merge_sort_Permutation, list_elem_of_omap.
      exists (parts_route (proxy_host_to_parts (proxy_host_from_request r))).
      split; [|by apply added_response]. apply elem_of_app. right. by apply list_elem_of_singleton.
    + by apply bool_decide_eq_true.
    + intros y Hy Hyid%bool_decide_eq_true. unfold proxy_hosts_from_snapshot in Hy.
      rewrite merge_sort_Permutation, list_elem_of_omap in Hy. destruct Hy as (route & Hin & Hr).
      pose proof (generated_response _ _ _ Hr) as Hg. rewrite Hyid in Hg.
      apply elem_of_app in Hin as [Hin%other_routes_not| ->%list_elem_of_singleton]; [done|].
      rewrite added_response in Hr by done. congruence.
  - unfold ensure_proxy_host_exists. rewrite (proj2 (List.existsb_exists _ _)); [done|].
    exists (parts_route (proxy_host_to_parts (proxy_host_from_request r))). split; [|by apply bool_decide_eq_true].
    apply List.in_or_app. right. by left.
  - apply add_twice. by cbn.
  - apply (add_removed s (proxy_host_from_request r)).
  - intros Hn. etrans; [apply (add_removed s (proxy_host_from_request r))|by apply remove_nothing].
Qed.

Lemma proxy_host_edits_agree_witness :
  let r := {| pr_host_id := lit "blog"; pr_name := lit "Blog"; pr_domains := [lit "Blog.Example.com."];
              pr_path_prefix := lit "/posts/"; pr_upstream_url := lit "http://10.0.0.2";
              pr_upstreams := []; pr_health_check := None; pr_retry := RetryPolicy_default;
              pr_passive_health := PassiveModeDisabled; pr_https_enabled := true;
              pr_letsencrypt_enabled := false; pr_redirect_http_to_https := false; pr_enabled := true |} in
  let s := items_snapshot (PathMatch_prefix (lit "/")) in
  pr_domains (shown r) = [lit "blog.example.com"]
  ∧ proxy_host_from_snapshot (add_proxy_host s (proxy_host_from_request r)) (pr_host_id r) = Ok (shown r)
  ∧ remove_proxy_host (add_proxy_host s (proxy_host_from_request r)) (pr_host_id r) = s.
Proof.
  intros r s. destruct (proxy_host_edits_agree s r r) as (H1 & _ & _ & _ & H2); [done..|].
  split_and!; [vm_compute; reflexivity|exact H1|]. apply H2.
  split; repeat constructor; vm_compute; congruence.
Defined.
