(* ===== verification/ConfigChange.v ===== *)
(** * What a change leaves behind

    For every repository that keeps the laws of ConfigStore.v, every audit sink and every core,
    with failures anywhere: what the store names as the current configuration after a change,
    and what the core was told.  Then the same for the repository in files, and what a restart
    makes of it. *)

From stdpp Require Import base gmap strings list sorting.
From Stdlib Require Import Strings.Byte NArith ZArith Lia.
From S2P Require Import Prelude Errors RustStr Resource Endpoint UpstreamPolicy Snapshot ConfigParser ConfigDraft ConfigRender ConfigRoundtrip ConfigValidation ConfigServing ConfigStore ConfigLifecycle AdminConfig.
Local Open Scope N_scope.

(** ** Changes *)
Inductive AdminChange :=
| ChangeSource (source : list byte)
| ChangeCreate (request : ProxyHostRequest)
| ChangeUpdate (id : list byte) (request : ProxyHostRequest)
| ChangeDelete (id : list byte)
| ChangeRollback (revision_id : list byte).

Definition admin_exec `{!RevisionRepository R, !AuditSink A, !CoreCommandClient C}
  (change : AdminChange) (l : ConfigLifecycle R A) (core : C)
  : result AppError ApplyResponse * (ConfigLifecycle R A * C) :=
  match change with
  | ChangeSource source => apply_config_source source l core
  | ChangeCreate request => create_proxy_host_and_apply request l core
  | ChangeUpdate id request => update_proxy_host_and_apply id request l core
  | ChangeDelete id => delete_proxy_host_and_apply id l core
  | ChangeRollback id => admin_rollback id l core
  end.

(** A core and what it was sent, with its answers. *)
Definition transcript : Type := list (CoreCommand * CommandAck).
#[global] Instance recorded_core `{CoreCommandClient C} : CoreCommandClient (C * transcript) :=
  λ command '(core, log),
    let (ack, core) := core_send command core in (ack, (core, log ++ [(command, ack)])).

Section outcome.
Context `{Hlaws : RepositoryLaws R, !AuditSink A, !CoreCommandClient C}.

(** The pointer and the configuration it names are what they were. *)
Definition kept (r r' : R) : Prop := pointer r' = pointer r ∧ persisted r' = persisted r.
(** The pointer names [id], which can be read and reads back as [stored]. *)
Definition published (id : list byte) (stored : option ConfigSnapshot) (r' : R) : Prop :=
  is_Some stored ∧ saved r' id = stored
  ∧ (plain_id id = true → pointer r' = Some id ∧ persisted r' = stored).

(** The four ways a change to [next] can end.  [stored] is what [next] reads back as. *)
Inductive change_outcome (next : ConfigSnapshot) (id : list byte) (stored : option ConfigSnapshot)
  (r r' : R) (sent : transcript) : result AppError ApplyResponse → Prop :=
| outcome_refused e :
    kept r r' → sent = [] → change_outcome next id stored r r' sent (Err e)
| outcome_rejected e e' :
    kept r r' → sent = [(ApplyConfigSnapshot next, Rejected e)] →
    change_outcome next id stored r r' sent (Err e')
| outcome_unpublished e :
    kept r r' → sent = [(ApplyConfigSnapshot next, Accepted)] →
    change_outcome next id stored r r' sent (Err e)
| outcome_published (restart : bool) res :
    published id stored r' →
    sent = (if restart then [] else [(ApplyConfigSnapshot next, Accepted)]) →
    (∀ resp, res = Ok resp →
       resp = {| resp_revision_id := id; resp_commands_sent := len sent;
                 resp_restart_required := restart |}) →
    change_outcome next id stored r r' sent res.

Lemma same_store_kept r r' : same_store r r' → kept r r'.
Proof. intros [H1 H2]. split; [done|]. unfold persisted. rewrite H1. by destruct (pointer r); cbn. Qed.
Lemma kept_trans r1 r2 r3 : kept r1 r2 → kept r2 r3 → kept r1 r3.
Proof. intros [H1 H2] [H3 H4]. split; congruence. Qed.

Lemma on_revisions_eq {T} (f : R → result AppError T * R) (l : ConfigLifecycle R A) :
  on_revisions f l = ((f (lc_revisions l)).1,
    {| lc_revisions := (f (lc_revisions l)).2; lc_audit := lc_audit l; lc_validator := lc_validator l |}).
Proof. unfold on_revisions. by destruct (f (lc_revisions l)). Qed.
Lemma on_audit_revisions event id (l : ConfigLifecycle R A) :
  lc_revisions (on_audit event id l).2 = lc_revisions l
  ∧ lc_validator (on_audit event id l).2 = lc_validator l.
Proof. unfold on_audit. by destruct (audit_record _ _). Qed.

Lemma send_plan_transcript cur next (core : C) (log : transcript) :
  let plan := plan_against cur next in
  let (res, st) := send_apply_plan plan (core, log) in
  ∃ sent, st.2 = log ++ sent
    ∧ match res with
      | Ok _ => sent = if plan_restart_required plan then [] else [(ApplyConfigSnapshot next, Accepted)]
      | Err e => sent = [(ApplyConfigSnapshot next, Rejected e)]
      end
    ∧ (res = Ok () → len (plan_commands plan) = len sent).
Proof.
  unfold plan_against, plan_apply_with_current, send_apply_plan. cbv zeta.
  destruct (match rec_snapshot <$> cur with None => [] | Some c => restart_warnings c next end);
    cbn [plan_commands plan_restart_required send_commands].
  2: { exists []. by rewrite app_nil_r. }
  change (core_send (ApplyConfigSnapshot next) (core, log)) with
    (let (ack, core) := core_send (ApplyConfigSnapshot next) core in
     (ack, (core, log ++ [(ApplyConfigSnapshot next, ack)]))).
  destruct (core_send _ core) as [[|e] core']; eexists; split_and!; (reflexivity || done).
Qed.

Definition responded (res : result AppError ApplyResult) : result AppError ApplyResponse :=
  match res with Ok x => Ok (apply_response x) | Err e => Err e end.

Lemma set_current_kept id (r : R) :
  let (res, r') := set_current id r in
  match res with
  | Ok _ => published id (saved r id) r'
  | Err _ => kept r r'
  end.
Proof.
  pose proof (law_set_current id r) as Hst. destruct (set_current id r) as [[[]|e] r'].
  - destruct Hst as (Hi & Hs & Hp). split; [done|]. split; [apply Hs|]. intros Hid. rewrite (Hp Hid). split; [done|].
    unfold persisted. rewrite (Hp Hid). apply Hs.
  - by apply same_store_kept.
Qed.

Lemma send_and_publish_outcome (r0 : R) cur next id stored ev fl (l : ConfigLifecycle R A) (core : C) (log : transcript) :
  kept r0 (lc_revisions l) → saved (lc_revisions l) id = stored →
  let (res, st) := send_and_publish (plan_against cur next) id ev fl l (core, log) in
  ∃ sent, st.2.2 = log ++ sent
    ∧ change_outcome next id stored r0 (lc_revisions st.1) sent (responded res).
Proof.
  intros Hk Hs. unfold send_and_publish. pose proof (send_plan_transcript cur next core log) as Hp.
  cbv zeta in Hp. destruct (send_apply_plan _ (core, log)) as [[[]|e] [core' log']];
    destruct Hp as (sent & Hlog & Hsent & Hlen); cbn [snd] in Hlog.
  - unfold beside_core. rewrite on_revisions_eq. cbn [fst snd].
    pose proof (set_current_kept id (lc_revisions l)) as Hset.
    destruct (set_current id (lc_revisions l)) as [[[]|e] r']; cbn [fst snd].
    + match goal with |- context [on_audit ev id ?l1] =>
        destruct (on_audit_revisions ev id l1) as [Ha _]; destruct (on_audit ev id l1) as [[[]|e] l2] end;
        cbn [fst snd] in *; exists sent; (split; [done|]); rewrite Ha, <- Hs.
      * apply (outcome_published _ _ _ _ _ _ (plan_restart_required (plan_against cur next))); [done..|].
        intros resp [= <-]. unfold apply_response. cbn [apply_revision_id apply_plan]. by rewrite Hlen.
      * by apply (outcome_published _ _ _ _ _ _ (plan_restart_required (plan_against cur next))).
    + exists sent. split; [done|]. pose proof (kept_trans _ _ _ Hk Hset). cbn [lc_revisions].
      destruct (plan_restart_required _); [by apply outcome_refused|by apply outcome_unpublished].
  - unfold beside_core. destruct (on_audit_revisions fl id l) as [Ha _].
    destruct (on_audit fl id l) as [[[]|e'] l2]; cbn [fst snd] in *; exists sent; (split; [done|]);
      rewrite Ha; by eapply outcome_rejected.
Qed.

Lemma current_step {D} (l : ConfigLifecycle R A) (core : D) :
  let (res, st) := beside_core (on_revisions repo_current l) core in
  st.2 = core ∧ same_store (lc_revisions l) (lc_revisions st.1) ∧ lc_validator st.1 = lc_validator l
  ∧ ∀ record, res = Ok (Some record) →
      pointer (lc_revisions l) = Some (rev_id (rec_revision record))
      ∧ snap_revision_id (rec_snapshot record) = rev_id (rec_revision record).
Proof.
  unfold beside_core. rewrite on_revisions_eq. cbn [fst snd lc_revisions lc_validator].
  pose proof (law_current (lc_revisions l)) as Hcr. destruct (repo_current (lc_revisions l)) as [res r'].
  cbn [fst snd]. destruct Hcr as [Hs Hr]. split_and!; [done..|]. intros record Hrec.
  by destruct (Hr record Hrec) as (_ & ? & ?).
Qed.

(** Nothing was said to the core and nothing changed in the store. *)
Definition unchanged (r r' : R) (sent : transcript) (res : result AppError ApplyResponse) : Prop :=
  is_ok res = false ∧ kept r r' ∧ sent = [].

(** Applying a snapshot under an id that is not the current one. *)
Lemma apply_with_core_outcome (next : ConfigSnapshot) (l : ConfigLifecycle R A) (core : C) (log : transcript) :
  pointer (lc_revisions l) ≠ Some (snap_revision_id next) →
  let (res, st) := apply_with_core next l (core, log) in
  ∃ sent, st.2.2 = log ++ sent
    ∧ (unchanged (lc_revisions l) (lc_revisions st.1) sent (responded res)
       ∨ report_is_valid (validate_snapshot (lc_validator l) next) = true
         ∧ change_outcome next (snap_revision_id next) (reload next) (lc_revisions l)
             (lc_revisions st.1) sent (responded res)).
Proof.
  intros Hp. unfold apply_with_core, validated, report_into_result.
  destruct (report_is_valid _) eqn:Hv; cbv zeta.
  2: { exists []. rewrite app_nil_r. split; [done|]. left. by split_and!; [|apply same_store_kept|]. }
  pose proof (current_step l (core, log)) as Hc.
  destruct (beside_core (on_revisions repo_current l) (core, log)) as [res st]. destruct st as [l1 c1].
  cbn [fst snd] in Hc. destruct Hc as (-> & Hs1 & _ & _).
  destruct res as [cur|e]; cbn [fst snd].
  2: { exists []. rewrite app_nil_r. split; [done|]. left. by split_and!; [|apply same_store_kept|]. }
  unfold beside_core at 1. rewrite on_revisions_eq. cbn [fst snd].
  pose proof (law_save (revision_record_for_snapshot next (lit "apply")) (lc_revisions l1) eq_refl) as Hsv.
  cbv zeta in Hsv. destruct (save_revision _ (lc_revisions l1)) as [[[]|e] r2]; cbn [fst snd];
    destruct Hsv as (Hpt & Hoth & Hid); cbn [rec_revision rev_id revision_record_for_snapshot rec_snapshot] in *.
  - assert (Hk : kept (lc_revisions l) r2).
    { destruct Hs1 as [H1 H2]. split; [congruence|]. unfold persisted. rewrite Hpt, H1.
      destruct (pointer (lc_revisions l)) as [id|]; [|done]. cbn. rewrite Hoth by congruence. apply H2. }
    match goal with |- context [send_and_publish ?plan ?id ?ev ?fl ?l2 _] =>
      pose proof (send_and_publish_outcome (lc_revisions l) cur next id (reload next) ev fl l2 core log Hk Hid)
        as Ho; destruct (send_and_publish plan id ev fl l2 (core, log)) as [res st] end.
    destruct Ho as (sent & Hlog & Ho). exists sent. split; [done|by right].
  - exists []. rewrite app_nil_r. split; [done|]. left. cbn [fst snd lc_revisions]. split_and!; [done| |done].
    apply same_store_kept. etrans; [exact Hs1|]. split; [done|]. intros id.
    destruct (decide (id = snap_revision_id next)) as [->|Hne]; [done|by apply Hoth].
Qed.

(** What a change asks for, given what the store holds. *)
Definition current_is (r : R) (record : RevisionRecord) : Prop :=
  pointer r = Some (rev_id (rec_revision record)) ∧ persisted r = Some (rec_snapshot record).
Definition requested (change : AdminChange) (r : R) (next : ConfigSnapshot) : Prop :=
  match change with
  | ChangeSource source => ∃ record, current_is r record ∧ next_source source record = Ok next
  | ChangeCreate request => ∃ record, current_is r record ∧ next_create request record = Ok next
  | ChangeUpdate id request =>
      ∃ record, current_is r record ∧ next_update id request record = Ok next ∧ pr_host_id request = id
  | ChangeDelete id => ∃ record, current_is r record ∧ next_delete id record = Ok next
  | ChangeRollback id => saved r id = Some next ∧ snap_revision_id next = id
  end.
Definition reads_back (change : AdminChange) (next : ConfigSnapshot) : option ConfigSnapshot :=
  match change with ChangeRollback _ => Some next | _ => reload next end.

Lemma from_current_outcome (k : RevisionRecord → result AppError ConfigSnapshot)
    (l : ConfigLifecycle R A) (core : C) (log : transcript) :
  (∀ record next, snap_revision_id (rec_snapshot record) = rev_id (rec_revision record) →
     k record = Ok next → snap_revision_id next ≠ rev_id (rec_revision record)) →
  let (res, st) := from_current k l (core, log) in
  ∃ sent, st.2.2 = log ++ sent
    ∧ (unchanged (lc_revisions l) (lc_revisions st.1) sent res
       ∨ ∃ record next, current_is (lc_revisions l) record ∧ k record = Ok next
         ∧ report_is_valid (validate_snapshot (lc_validator l) next) = true
         ∧ change_outcome next (snap_revision_id next) (reload next) (lc_revisions l)
             (lc_revisions st.1) sent res).
Proof.
  intros Hk. unfold from_current, beside_core. rewrite on_revisions_eq. cbn [fst snd].
  pose proof (law_current (lc_revisions l)) as Hc.
  destruct (repo_current (lc_revisions l)) as [[[record|]|e] r1]; cbn [fst snd]; destruct Hc as [Hs Hr];
    try (exists []; rewrite app_nil_r; split; [done|]; left; by split_and!; [|apply same_store_kept|]).
  destruct (Hr record eq_refl) as (Hper & Hpt & Hid).
  destruct (k record) as [next|e] eqn:Hnext;
    [|exists []; rewrite app_nil_r; split; [done|]; left; by split_and!; [|apply same_store_kept|]].
  pose proof (Hk record next Hid Hnext) as Hne.
  match goal with |- context [apply_with_core next ?l1 _] => set (l1' := l1) end.
  pose proof (apply_with_core_outcome next l1' core log) as Ho. cbn [l1' lc_revisions lc_validator] in Ho.
  destruct Hs as [Hs1 Hs2]. rewrite Hs1, Hpt in Ho. specialize (Ho ltac:(congruence)).
  destruct (apply_with_core next l1' (core, log)) as [res st]. destruct Ho as (sent & Hlog & Ho).
  assert (Hk1 : kept (lc_revisions l) r1) by (by apply same_store_kept).
  assert (Hkt : ∀ r', kept r1 r' → kept (lc_revisions l) r') by (intros; by eapply kept_trans).
  destruct res as [x|e]; cbn [responded fst snd] in *; exists sent; (split; [done|]);
    (destruct Ho as [(? & ? & ?)|[Hv Ho]]; [left; by split_and!; auto|]); right; exists record, next;
    (split_and!; [done..|]); inversion Ho; subst;
    eauto using outcome_refused, outcome_rejected, outcome_unpublished, outcome_published.
Qed.

Lemma app_longer (a b : list byte) : b ≠ [] → a ++ b ≠ a.
Proof. intros Hb H1%(f_equal length). rewrite length_app in H1. destruct b; simpl in *; [done|lia]. Qed.
Lemma checked_change_id s next : checked_change s = Ok next → snap_revision_id next = snap_revision_id s.
Proof. unfold checked_change. case_match; [|done]. by intros [= <-]. Qed.

(** Every change gets an id that is longer than the one it starts from. *)
Lemma next_source_id source record next :
  next_source source record = Ok next →
  snap_revision_id next = rev_id (rec_revision record) ++ lit "-config-apply".
Proof.
  unfold next_source, parse_valid_config_source. intros Hn.
  destruct (parse_mvp_config _ _) as [parsed|e] eqn:Hp; [|done].
  destruct (report_is_valid _); simplify_eq. by eapply parse_revision.
Qed.
Lemma next_create_id request record next :
  next_create request record = Ok next →
  snap_revision_id next = snap_revision_id (rec_snapshot record) ++ lit "-proxy-host-" ++ pr_host_id request.
Proof. by intros ->%checked_change_id. Qed.
Lemma next_update_id id request record next :
  next_update id request record = Ok next →
  snap_revision_id next = snap_revision_id (rec_snapshot record) ++ lit "-update-proxy-host-" ++ id.
Proof.
  unfold next_update. cbv zeta. destruct (ensure_proxy_host_exists _ _); [|done].
  by intros ->%checked_change_id.
Qed.
Lemma next_delete_id id record next :
  next_delete id record = Ok next →
  snap_revision_id next = snap_revision_id (rec_snapshot record) ++ lit "-delete-proxy-host-" ++ id.
Proof.
  unfold next_delete. cbv zeta. destruct (ensure_proxy_host_exists _ _); [|done].
  by intros ->%checked_change_id.
Qed.

Lemma rollback_outcome id (l : ConfigLifecycle R A) (core : C) (log : transcript) :
  let (res, st) := rollback_with_core id l (core, log) in
  ∃ sent, st.2.2 = log ++ sent
    ∧ (unchanged (lc_revisions l) (lc_revisions st.1) sent (responded res)
       ∨ ∃ next, saved (lc_revisions l) id = Some next ∧ snap_revision_id next = id
         ∧ report_is_valid (validate_snapshot (lc_validator l) next) = true
         ∧ change_outcome next id (Some next) (lc_revisions l) (lc_revisions st.1) sent (responded res)).
Proof.
  unfold rollback_with_core. unfold beside_core at 1. rewrite on_revisions_eq. cbn [fst snd].
  pose proof (law_find id (lc_revisions l)) as Hf.
  destruct (find_revision id (lc_revisions l)) as [[[record|]|e] r1]; cbn [fst snd]; destruct Hf as [Hs Hr];
    try (exists []; rewrite app_nil_r; split; [done|]; left; by split_and!; [|apply same_store_kept|]).
  destruct (Hr record eq_refl) as [Hsv Hid].
  unfold validated, report_into_result. cbn [lc_validator].
  destruct (report_is_valid _) eqn:Hv; cbv zeta;
    [|exists []; rewrite app_nil_r; split; [done|]; left; by split_and!; [|apply same_store_kept|]].
  match goal with |- context [on_revisions repo_current ?l0] => set (l1 := l0) end.
  pose proof (current_step l1 (core, log)) as Hc.
  destruct (beside_core (on_revisions repo_current l1) (core, log)) as [res [l2 c2]].
  cbn [fst snd] in Hc. destruct Hc as (-> & Hs2 & _ & _). cbn [lc_revisions l1] in Hs2.
  assert (Hss : same_store (lc_revisions l) (lc_revisions l2)) by (by etrans).
  destruct res as [cur|e]; cbn [fst snd];
    [|exists []; rewrite app_nil_r; split; [done|]; left; by split_and!; [|apply same_store_kept|]].
  pose proof (send_and_publish_outcome (lc_revisions l) cur (rec_snapshot record) id
    (Some (rec_snapshot record)) "config.rollback" "config.rollback.failure" l2 core log) as Ho.
  specialize (Ho (same_store_kept _ _ Hss)). rewrite (proj2 Hss), Hsv in Ho. specialize (Ho eq_refl).
  destruct (send_and_publish _ _ _ _ l2 (core, log)) as [res st]. destruct Ho as (sent & Hlog & Ho).
  exists sent. split; [done|]. right. by exists (rec_snapshot record).
Qed.

Definition change_ends (change : AdminChange) (l : ConfigLifecycle R A) (log : transcript)
  (out : result AppError ApplyResponse * (ConfigLifecycle R A * (C * transcript))) : Prop :=
  let (res, st) := out in
  let r := lc_revisions l in
  let r' := lc_revisions st.1 in
  ∃ sent, st.2.2 = log ++ sent
    ∧ (unchanged r r' sent res
       ∨ ∃ next, requested change r next
         ∧ report_is_valid (validate_snapshot (lc_validator l) next) = true
         ∧ change_outcome next (snap_revision_id next) (reads_back change next) r r' sent res).

Lemma change_from_current (change : AdminChange) (k : RevisionRecord → result AppError ConfigSnapshot)
    (l : ConfigLifecycle R A) (core : C) (log : transcript) :
  (∀ record next, snap_revision_id (rec_snapshot record) = rev_id (rec_revision record) →
     k record = Ok next → snap_revision_id next ≠ rev_id (rec_revision record)) →
  (∀ record next, current_is (lc_revisions l) record → k record = Ok next →
     requested change (lc_revisions l) next ∧ reads_back change next = reload next) →
  change_ends change l log (from_current k l (core, log)).
Proof.
  intros Hid Hreq. pose proof (from_current_outcome k l core log Hid) as Ho. unfold change_ends.
  destruct (from_current k l (core, log)) as [res st]. destruct Ho as (sent & ? & Ho). exists sent.
  split; [done|]. destruct Ho as [?|(record & next & Hc & Hk & ? & ?)]; [by left|right].
  destruct (Hreq record next Hc Hk) as [? Hb]. exists next. by rewrite Hb.
Qed.

Lemma admin_change_cases (change : AdminChange) (l : ConfigLifecycle R A) (core : C) (log : transcript) :
  change_ends change l log (admin_exec change l (core, log)).
Proof.
  destruct change as [source|request|id request|id|id]; cbn [admin_exec].
  - apply change_from_current; [|cbn; eauto].
    intros record next _ ->%next_source_id. by apply app_longer.
  - apply change_from_current; [|cbn; eauto].
    intros record next <- ->%next_create_id. by apply app_longer.
  - unfold update_proxy_host_and_apply. case_bool_decide as Hid; cbn [negb].
    2: { exists []. rewrite app_nil_r. split; [done|]. left. by split_and!; [|apply same_store_kept|]. }
    apply change_from_current; [|cbn; eauto 6].
    intros record next <- ->%next_update_id. by apply app_longer.
  - apply change_from_current; [|cbn; eauto].
    intros record next <- ->%next_delete_id. by apply app_longer.
  - pose proof (rollback_outcome id l core log) as Ho. unfold admin_rollback.
    destruct (rollback_with_core id l (core, log)) as [res st]. destruct Ho as (sent & Hlog & Ho).
    destruct res as [x|e]; cbn [responded fst snd] in *; exists sent; (split; [done|]);
      (destruct Ho as [?|(next & ? & <- & ? & ?)]; [by left|right; exists next; by split_and!]).
Qed.
(** C14: a change to the configuration is made as a whole.  Over any lawful repository, whatever
    it, the audit sink and the core answer, and wherever one of them fails, a change (of the source, of a proxy
    host, or back to an earlier revision) ends in one of four ways: it was refused before the core
    heard of it; the core rejected it; the core took it and the pointer could not be written; or
    it is published.  In the first three the caller gets an error and the store still names the
    configuration of before; in the last the new configuration is stored under its revision id,
    which a success reports, and the pointer of the store names that id, provided that it is an
    id which the pointer reads back as it was written: the pointer file is trimmed on reading,
    so an id with white space at its ends is not.  The core is told at most once, of a
    configuration that passed validation and that the change asked for. *)
Theorem admin_change_atomic (change : AdminChange) (l : ConfigLifecycle R A) (core : C) (log : transcript) :
  change_ends change l log (admin_exec change l (core, log)).
Proof. apply admin_change_cases. Qed.
End outcome.

(** ** The repository in files *)
Definition rebooted (w : FileRevisionRepository) : FileRevisionRepository :=
  {| frr_disk := frr_disk w; frr_outcomes := [] |}.

Lemma quiet_read_record (d : Disk) id s :
  disk_saved d id = Some s →
  ∃ record, read_record id {| frr_disk := d; frr_outcomes := [] |}
            = (Ok (Some record), {| frr_disk := d; frr_outcomes := [] |})
    ∧ rec_snapshot record = s.
Proof.
  unfold disk_saved, load_text. intros Hs.
  destruct (disk_lookup (revision_path id) d) as [content|] eqn:Hl; cbn in Hs; [|done].
  destruct (utf8_valid content) eqn:Hu; [|done].
  destruct (parse_mvp_config content id) as [c|] eqn:Hc; [|done]. simplify_eq.
  unfold read_record, path_exists, next_io. cbn [frr_outcomes frr_disk]. rewrite Hl.
  rewrite bool_decide_true by done. cbn [negb]. unfold read_to_string, next_io. cbn [frr_outcomes frr_disk].
  rewrite Hl, Hu, Hc. eauto.
Qed.
Lemma quiet_current_id (d : Disk) id :
  disk_pointer d = Some id →
  file_current_revision_id {| frr_disk := d; frr_outcomes := [] |}
  = (Ok (Some id), {| frr_disk := d; frr_outcomes := [] |}).
Proof.
  unfold disk_pointer, file_current_revision_id, path_exists, next_io. cbn [frr_outcomes frr_disk].
  intros Hp. destruct (disk_lookup current_path d) as [content|] eqn:Hl; cbn [mbind option_bind] in Hp; [|done].
  rewrite bool_decide_true by done. cbn [negb]. unfold read_to_string, next_io.
  cbn [frr_outcomes frr_disk]. rewrite Hl. destruct (utf8_valid content); by simplify_eq.
Qed.
Lemma quiet_current (d : Disk) id s :
  disk_pointer d = Some id → disk_saved d id = Some s →
  ∃ record, file_current {| frr_disk := d; frr_outcomes := [] |}
            = (Ok (Some record), {| frr_disk := d; frr_outcomes := [] |})
    ∧ rec_snapshot record = s.
Proof. intros Hp Hs. unfold file_current. rewrite (quiet_current_id d id Hp). by apply quiet_read_record. Qed.

(** A stored configuration that is valid is the one the next start takes. *)
Lemma startup_takes_persisted debug `{!BootstrapConfigSeed Sd, !StartupConfigPreflight P}
    (w : FileRevisionRepository) (s : Sd) (p p' : P) m next :
  persisted w = Some next →
  report_is_valid (validate_snapshot ConfigValidator_default next) = true →
  preflight next p = (Ok (), p') →
  startup_execute debug (Build_StartupRun m (rebooted w) s p)
  = (Ok (Some {| resolved_snapshot := next; resolved_origin := OriginRevisionCurrent |}),
     Build_StartupRun StartupResolved (rebooted w) s p').
Proof.
  unfold persisted. cbn [pointer saved file_view]. intros Hp Hv Hpre.
  destruct (disk_pointer (frr_disk w)) as [id|] eqn:Hid; [|done]. cbn [mbind option_bind] in Hp.
  destruct (quiet_current _ _ _ Hid Hp) as (record & Hc & Hr).
  unfold startup_execute, ask_revisions, rebooted. cbn [run_revisions set_machine].
  cbn [current_revision_id file_repository]. rewrite (quiet_current_id _ _ Hid). cbn [or_fail].
  cbn [run_revisions run_machine run_seed run_preflight repo_current file_repository]. rewrite Hc.
  cbn [or_fail]. unfold resume_current, startup_event. cbn [run_machine startup_transition set_machine].
  rewrite Hr. unfold reported, report_into_result. rewrite Hv. cbn [or_fail]. unfold ask_preflight.
  cbn [run_preflight set_machine]. rewrite Hpre. done.
Qed.

(** A snapshot that is read back as it is: its parts are in normal form, as those of a parsed
    configuration are, and so are its routes.  A rolled-back revision was read from the store. *)
Definition storable (change : AdminChange) (next : ConfigSnapshot) : Prop :=
  match change with
  | ChangeRollback _ => True
  | ChangeSource _ => canonical next ∧ utf8_valid (render_mvp_config_snapshot next) = true
  | _ => snapshot_ok next ∧ canonical next ∧ utf8_valid (render_mvp_config_snapshot next) = true
  end.

Lemma reload_ok s :
  snapshot_ok s → canonical s → utf8_valid (render_mvp_config_snapshot s) = true → reload s = Some s.
Proof. intros Hs Hc Hu. cbn [reload file_view]. unfold load_text. by rewrite Hu, parse_render. Qed.

Lemma storable_reads_back change (r : FileRevisionRepository) next :
  requested change r next → storable change next → reads_back change next = Some next.
Proof.
  destruct change; cbn [requested storable reads_back]; intros Hr; try (intros (? & ? & ?); by apply reload_ok).
  - destruct Hr as (record & _ & Hn). unfold next_source, parse_valid_config_source in Hn. intros [Hc Hu].
    apply reload_ok; [|done..]. pose proof (parse_mvp_config_safe source (rev_id (rec_revision record) ++ lit "-config-apply")) as Hs.
    destruct (parse_mvp_config _ _) as [c|]; [|done]. destruct (report_is_valid _); by simplify_eq.
  - done.
Qed.

(** C15: what was accepted is what a restart finds.  On the repository in files, whatever I/O
    errors happened on the way, if a change (of the source, of a proxy host, or a rollback)
    reports success under the default validator, and its revision id has no white space at its
    ends, then the core was sent
    exactly the new configuration, or nothing because it needs a restart, and the store can be
    read: a later start of the process whose checks pass resolves to what the store reads back,
    if that is valid, from the store and not from the seed, and ends in its resolved state.
    What it reads back is the new configuration itself when this is a rollback, and otherwise,
    also for a changed source, when the new configuration has the normal form that its text
    keeps: host and path matches normalised, prefixes before exact paths, disabled metrics at
    the default address, an edited proxy host of the shape that a parsed one has, and a text
    that is valid UTF-8. *)
Theorem restart_resumes debug `{!AuditSink A, !CoreCommandClient C, !BootstrapConfigSeed Sd, !StartupConfigPreflight P}
    (change : AdminChange) (l l' : ConfigLifecycle FileRevisionRepository A) (core core' : C)
    (log log' : transcript) (resp : ApplyResponse) :
  lc_validator l = ConfigValidator_default →
  admin_exec change l (core, log) = (Ok resp, (l', (core', log'))) →
  plain_id (resp_revision_id resp) = true →
  ∃ next stored, requested change (lc_revisions l) next
    ∧ log' = log ++ (if resp_restart_required resp then [] else [(ApplyConfigSnapshot next, Accepted)])
    ∧ reads_back change next = Some stored
    ∧ (storable change next → stored = next)
    ∧ (stored = next ∨ report_is_valid (validate_snapshot ConfigValidator_default stored) = true →
       ∀ (s : Sd) (p p' : P) m, preflight stored p = (Ok (), p') →
         startup_execute debug (Build_StartupRun m (rebooted (lc_revisions l')) s p)
         = (Ok (Some {| resolved_snapshot := stored; resolved_origin := OriginRevisionCurrent |}),
            Build_StartupRun StartupResolved (rebooted (lc_revisions l')) s p')).
Proof.
  intros Hv He Hid. pose proof (admin_change_cases change l core log) as Ho. rewrite He in Ho.
  unfold change_ends in Ho. cbn [fst snd] in Ho. destruct Ho as (sent & -> & [(? & _)|(next & Hreq & Hval & Ho)]); [done|].
  inversion Ho as [|?|?|restart res Hp Hsent Hresp Hres]. subst res sent.
  rewrite (Hresp resp eq_refl) in *. cbn [resp_restart_required resp_revision_id] in *.
  destruct Hp as ([stored Hst] & _ & Hp). exists next, stored. split_and!; [done..| |].
  - intros Hs. rewrite (storable_reads_back _ _ _ Hreq Hs) in Hst. congruence.
  - intros Hok s p p' m Hpre. apply startup_takes_persisted; [|by destruct Hok as [-> |]; [rewrite <-Hv|]|done].
    destruct (Hp Hid) as [_ ->]. done.
Qed.

(** ** A quiet world *)
Definition quiet_audit : AuditSink () := λ _ a, (Ok (), a).
Definition willing_core : CoreCommandClient () := λ _ c, (Accepted, c).
Definition willing_preflight : StartupConfigPreflight () := λ _ p, (Ok (), p).
Definition no_debug : StartupConfigResolutionState → StartupConfigResolutionEvent → string := λ _ _, ""%string.
#[export] Existing Instances quiet_audit willing_core willing_preflight.

Definition store_of (id : list byte) (s : ConfigSnapshot) (outcomes : list IoOutcome)
  : FileRevisionRepository :=
  {| frr_disk := {| disk_root := {[lit "current" := id]};
                    disk_revisions := Some {[revision_name id := render_mvp_config_snapshot s]} |};
     frr_outcomes := outcomes |}.
Definition admin_side (w : FileRevisionRepository) : ConfigLifecycle FileRevisionRepository () :=
  {| lc_revisions := w; lc_audit := (); lc_validator := ConfigValidator_default |}.

Definition plain_config : ConfigSnapshot := twin_snapshot [twin_service "http://10.0.0.1"].
Definition plain_store : FileRevisionRepository := store_of (lit "r1") plain_config [].
Definition moved_config : ConfigSnapshot :=
  with_revision (lit "r1-config-apply") (twin_snapshot [twin_service "http://10.0.0.9"]).

Lemma exec_eq {T X Y Z} (out : result AppError T * (X * (Y * Z))) x :
  out.1 = Ok x → out = (Ok x, (out.2.1, (out.2.2.1, out.2.2.2))).
Proof. by destruct out as [[]  [? [? ?]]]; intros [= ->]. Qed.

Lemma admin_change_atomic_witness :
  change_ends (ChangeSource (render_mvp_config_snapshot moved_config)) (admin_side plain_store) []
    (admin_exec (ChangeSource (render_mvp_config_snapshot moved_config)) (admin_side plain_store) ((), [])).
Proof. apply (admin_change_atomic (ChangeSource (render_mvp_config_snapshot moved_config))). Defined.

Notation moved_outcome :=
  (admin_exec (ChangeSource (render_mvp_config_snapshot moved_config)) (admin_side plain_store)
     ((), @nil (CoreCommand * CommandAck) : transcript)).

Lemma moved_storable : storable (ChangeSource (render_mvp_config_snapshot moved_config)) moved_config.
Proof.
  split; [|vm_compute; reflexivity]. split; [|intros _; vm_compute; reflexivity].
  constructor; [|constructor]. constructor; vm_compute; repeat constructor.
Qed.
Lemma moved_accepted :
  moved_outcome.1 = Ok {| resp_revision_id := lit "r1-config-apply"; resp_commands_sent := 1;
                          resp_restart_required := false |}.
Proof. vm_compute. reflexivity. Qed.
Lemma moved_pointer : pointer plain_store = Some (lit "r1").
Proof. vm_compute. reflexivity. Qed.
Lemma moved_parses : parse_valid_config_source (render_mvp_config_snapshot moved_config)
                 (lit "r1" ++ lit "-config-apply") = Ok moved_config.
Proof. vm_compute. reflexivity. Qed.
Lemma moved_next record : rev_id (rec_revision record) = lit "r1" →
  next_source (render_mvp_config_snapshot moved_config) record = Ok moved_config.
Proof. intros H. unfold next_source. rewrite H, moved_parses. reflexivity. Qed.
Lemma moved_requested next :
  requested (ChangeSource (render_mvp_config_snapshot moved_config)) plain_store next → next = moved_config.
Proof.
  intros (record & [Hp _] & Hn). rewrite moved_pointer in Hp. injection Hp as Hp. rewrite moved_next in Hn by done.
  congruence.
Qed.

Lemma restart_resumes_witness :
  (startup_execute no_debug
     (Build_StartupRun OpeningRepository (rebooted (lc_revisions moved_outcome.2.1))
        {| seed_content := None; seed_outcomes := [] |} ())).1
  = Ok (Some {| resolved_snapshot := moved_config; resolved_origin := OriginRevisionCurrent |}).
Proof.
  destruct (restart_resumes no_debug (ChangeSource (render_mvp_config_snapshot moved_config))
    (admin_side plain_store) moved_outcome.2.1 () moved_outcome.2.2.1 [] moved_outcome.2.2.2 _ eq_refl
    (exec_eq moved_outcome _ moved_accepted) eq_refl)
    as (next & stored & Hreq & _ & _ & Hst & H).
  apply moved_requested in Hreq. subst next. rewrite (Hst moved_storable) in H.
  rewrite (H (or_introl eq_refl) {| seed_content := None; seed_outcomes := [] |} () () _ eq_refl). reflexivity.
Defined.
