(* ===== verification/StartupProofs.v ===== *)
(** * The configuration a start takes

    [startup_execute] of ConfigLifecycle.v over any repository that keeps the laws of
    ConfigStore.v: its state machine is never asked for a transition it does not have, it ends in
    the state its result says, and the configuration it returns is the stored one or, only when
    the repository answers that it is empty, the seed. *)

From stdpp Require Import base gmap strings list.
From Stdlib Require Import Strings.Byte NArith Lia.
From S2P Require Import Prelude Errors RustStr Snapshot ConfigParser ConfigValidation ConfigStore ConfigLifecycle ConfigChange.
Local Open Scope N_scope.

Definition transition_text : Type := StartupConfigResolutionState → StartupConfigResolutionEvent → string.

Section startup.
Context `{Hlaws : RepositoryLaws R, !BootstrapConfigSeed Sd, !StartupConfigPreflight P}.
Implicit Types (st : StartupRun R Sd P) (debug : transition_text).

(** The state of the machine that goes with a result.  The calls that are not translated to a
    failure of the machine leave it where it was. *)
Definition machine_agrees (res : result AppError (option ResolvedStartupConfig))
  (m : StartupConfigResolutionState) : Prop :=
  match res with
  | Ok (Some _) => m = StartupResolved
  | Ok None => m = StartupUnconfigured
  | Err e => m = StartupFailed (app_code e) ∨ m ∈ [OpeningRepository; RepositoryEmpty; ImportingSeed]
  end.

(** What the store holds before and after, and where the configuration comes from. *)
Definition resolution_sound st (res : result AppError (option ResolvedStartupConfig)) st' : Prop :=
  let r := run_revisions st in
  let r' := run_revisions st' in
  match res with
  | Ok (Some {| resolved_snapshot := s; resolved_origin := OriginRevisionCurrent |}) =>
      persisted r = Some s ∧ same_store r r'
      ∧ report_is_valid (validate_snapshot ConfigValidator_default s) = true
  | Ok (Some {| resolved_snapshot := s; resolved_origin := OriginBootstrapSeedImported |}) =>
      ∃ seed source, (read_seed (run_seed st)).1 = Ok (Some seed)
        ∧ parse_mvp_config seed (lit "bootstrap-seed") = Ok source ∧ s = cs_snapshot source
        ∧ report_is_valid (validate_source ConfigValidator_default source) = true
        ∧ published (lit "bootstrap-seed") (reload s) r'
  | Ok None => same_store r r' ∧ (read_seed (run_seed st)).1 = Ok None
  | Err _ => pointer r' = pointer r
  end.

Lemma resume_current_agrees debug debug' st0 st record :
  run_machine st = OpeningRepository → same_store (run_revisions st0) (run_revisions st) →
  persisted (run_revisions st0) = Some (rec_snapshot record) →
  resume_current debug record st = resume_current debug' record st
  ∧ machine_agrees (resume_current debug record st).1 (run_machine (resume_current debug record st).2)
  ∧ resolution_sound st0 (resume_current debug record st).1 (resume_current debug record st).2.
Proof.
  destruct st as [m r s p]. cbn [run_machine run_revisions]. intros -> Hs Hp.
  unfold resume_current, startup_event, reported, report_into_result, ask_preflight.
  cbn [run_machine startup_transition set_machine run_revisions run_seed run_preflight].
  destruct (report_is_valid _) eqn:Hv; cbn.
  - destruct (preflight _ p) as [[[]|e] p']; cbn.
    + by split_and!.
    + split_and!; [done|by left|apply Hs].
  - split_and!; [done|by left|apply Hs].
Qed.

Lemma seed_record_id seed source :
  parse_mvp_config seed (lit "bootstrap-seed") = Ok source →
  snap_revision_id (cs_snapshot source) = lit "bootstrap-seed".
Proof. apply ConfigRoundtrip.parse_revision. Qed.

Lemma import_seed_agrees debug debug' st0 st seed :
  run_machine st = RepositoryEmpty → same_store (run_revisions st0) (run_revisions st) →
  (read_seed (run_seed st0)).1 = Ok (Some seed) →
  import_seed debug seed st = import_seed debug' seed st
  ∧ machine_agrees (import_seed debug seed st).1 (run_machine (import_seed debug seed st).2)
  ∧ resolution_sound st0 (import_seed debug seed st).1 (import_seed debug seed st).2.
Proof.
  destruct st as [m r s p]. cbn [run_machine run_revisions]. intros -> [Hp _] Hseed.
  unfold import_seed, startup_event, reported, report_into_result, ask_preflight, ask_revisions.
  cbn [run_machine startup_transition set_machine run_revisions run_seed run_preflight].
  destruct (parse_mvp_config seed _) as [source|e] eqn:Hparse; cbn; [|split_and!; [done|by left|done]].
  destruct (report_is_valid _) eqn:Hv; cbn; [|split_and!; [done|by left|done]].
  destruct (preflight _ p) as [[[]|e] p']; cbn; [|split_and!; [done|by left|done]].
  pose proof (law_save (revision_record_for_snapshot (cs_snapshot source) (lit "bootstrap seed")) r eq_refl) as Hsv.
  cbv zeta in Hsv. cbn [rec_revision rev_id revision_record_for_snapshot rec_snapshot] in Hsv.
  destruct (save_revision _ r) as [[[]|e] r1]; destruct Hsv as (Hp1 & _ & Hs1); cbn.
  2: { split_and!; [done|right; set_solver|congruence]. }
  pose proof (set_current_kept (snap_revision_id (cs_snapshot source)) r1) as Hc.
  destruct (set_current _ r1) as [[[]|e] r2]; cbn.
  2: { split_and!; [done|right; set_solver|]. destruct Hc. congruence. }
  split_and!; [done..|]. exists seed, source. split_and!; [done..|].
  rewrite Hs1 in Hc. by rewrite (seed_record_id _ _ Hparse) in Hc.
Qed.

Lemma startup_agrees debug debug' st :
  startup_execute debug st = startup_execute debug' st
  ∧ machine_agrees (startup_execute debug st).1 (run_machine (startup_execute debug st).2)
  ∧ resolution_sound st (startup_execute debug st).1 (startup_execute debug st).2.
Proof.
  destruct st as [m r s p]. unfold startup_execute, ask_revisions. cbn [set_machine run_revisions run_machine run_seed run_preflight].
  pose proof (law_current_id r) as Hid. destruct (current_revision_id r) as [[id|e] r1];
    destruct Hid as [Hs1 _]; cbn [or_fail run_revisions run_machine run_seed run_preflight].
  2: { split_and!; [done|by left|apply Hs1]. }
  pose proof (law_current r1) as Hc. destruct (repo_current r1) as [[cur|e] r2];
    destruct Hc as [Hs2 Hc]; cbn [or_fail run_revisions run_machine run_seed run_preflight].
  2: { split_and!; [done|by left|]. cbn. destruct Hs1, Hs2. congruence. }
  assert (Hs : same_store r r2) by (by etrans).
  destruct cur as [record|].
  - destruct (Hc record eq_refl) as (Hper & _).
    assert (Hp' : persisted r = Some (rec_snapshot record)) by (rewrite <- Hper; symmetry; by apply same_store_kept).
    destruct id; by apply resume_current_agrees.
  - destruct id as [id|]; cbn; [split_and!; [done|by left|apply Hs]|].
    pose proof (law_history r2) as Hh. destruct (history r2) as [[stored|e] r3]; cbn [snd] in Hh; cbn -[import_seed].
    2: { split_and!; [done|right; set_solver|]. destruct Hs, Hh. congruence. }
    assert (Hs3 : same_store r r3) by (by etrans).
    case_bool_decide; cbn -[import_seed]; [|split_and!; [done|by left|apply Hs3]].
    unfold ask_seed. cbn -[import_seed].
    destruct (read_seed s) as [[[seed|]|e] s'] eqn:Hseed; cbn -[import_seed].
    + apply import_seed_agrees; [done|done|]. cbn. by rewrite Hseed.
    + split_and!; cbn; [done|done|apply Hs3|by rewrite Hseed].
    + split_and!; [done|right; set_solver|apply Hs3].
Qed.

(** the configuration a start takes.  Whatever the repository, the seed file and the
    pre-flight checks answer, the start ends (no transition is ever refused, so the text of that
    refusal does not matter), its machine stands where the result says, and the result is sound:
    the stored configuration that the pointer names, validated, with the store untouched; or the
    seed, parsed and validated with its schema version and without unknown fields, and now the
    current revision; or nothing, when there is no seed either.  A start that fails has not moved
    the pointer. *)
Theorem startup_resolution debug debug' st :
  startup_execute debug st = startup_execute debug' st
  ∧ machine_agrees (startup_execute debug st).1 (run_machine (startup_execute debug st).2)
  ∧ resolution_sound st (startup_execute debug st).1 (startup_execute debug st).2.
Proof. apply startup_agrees. Qed.
End startup.

Lemma startup_resolution_witness :
  let st := Build_StartupRun OpeningRepository plain_store
              {| seed_content := None; seed_outcomes := [] |} () in
  is_ok (startup_execute no_debug st).1 = true
  ∧ machine_agrees (startup_execute no_debug st).1 (run_machine (startup_execute no_debug st).2)
  ∧ resolution_sound st (startup_execute no_debug st).1 (startup_execute no_debug st).2.
Proof. intros st. split; [vm_compute; reflexivity|]. exact (proj2 (startup_resolution no_debug no_debug st)). Defined.
