(* ===== verification/StoreFaults.v ===== *)
(** * The store under errors and in use

    Concrete runs over the repository in files: the theorems of ConfigChange.v at work, and the
    cases in which the program does not do what it should. *)

From stdpp Require Import base gmap strings list sorting.
From Stdlib Require Import Strings.Byte NArith ZArith Lia.
From S2P Require Import Prelude Errors RustStr Resource Endpoint UpstreamPolicy Snapshot ConfigParser ConfigDraft ConfigRender ConfigRoundtrip ConfigValidation ConfigServing ConfigStore ConfigLifecycle AdminConfig ConfigChange.
Local Open Scope N_scope.

(** ** A proxy host that stops the next start *)
Definition host_request (id : string) (domains : list (list byte)) : ProxyHostRequest :=
  {| pr_host_id := lit id; pr_name := lit id; pr_domains := domains; pr_path_prefix := lit "/";
     pr_upstream_url := lit "http://10.0.0.2"; pr_upstreams := []; pr_health_check := None;
     pr_retry := RetryPolicy_default; pr_passive_health := PassiveModeDisabled;
     pr_https_enabled := false; pr_letsencrypt_enabled := false; pr_redirect_http_to_https := false;
     pr_enabled := true |}.
Definition letsencrypt_request : ProxyHostRequest :=
  let r := host_request "blog" [lit "blog.example.com"] in
  {| pr_host_id := pr_host_id r; pr_name := pr_name r; pr_domains := pr_domains r;
     pr_path_prefix := pr_path_prefix r; pr_upstream_url := pr_upstream_url r;
     pr_upstreams := pr_upstreams r; pr_health_check := pr_health_check r; pr_retry := pr_retry r;
     pr_passive_health := pr_passive_health r; pr_https_enabled := false;
     pr_letsencrypt_enabled := true; pr_redirect_http_to_https := true; pr_enabled := true |}.

Definition start_again (w : FileRevisionRepository) (seed : option (list byte))
  : result AppError (option ResolvedStartupConfig) * StartupRun FileRevisionRepository FileBootstrapConfigSeed () :=
  startup_execute no_debug
    (Build_StartupRun OpeningRepository w {| seed_content := seed; seed_outcomes := [] |} ()).
Definition create (request : ProxyHostRequest)
  : result AppError ApplyResponse * (ConfigLifecycle FileRevisionRepository () * (() * transcript)) :=
  create_proxy_host_and_apply request (admin_side plain_store) ((), []).

(** an accepted proxy host can stop the next start.  A proxy host with automatic
    certificates and a redirect, and without a certificate of its own, is accepted: its route names
    a certificate resolver.  The stored text has no such field, so the revision that is now
    current reads back as a redirect without a certificate, which the start refuses. *)
Theorem accepted_proxy_host_stops_startup :
  let out := create letsencrypt_request in
  is_ok out.1 = true
  ∧ match (start_again (rebooted (lc_revisions out.2.1)) None).1 with
    | Ok _ => False
    | Err e => app_code e = ConfigCurrentRevisionInvalid
    end.
Proof. vm_compute. done. Qed.

(** A comma in a domain name divides the core from the store.  A proxy host whose domain
    contains a comma passes validation and the core starts to serve it; the stored list of hosts
    reads back as two broken strings, so the pointer cannot be moved and the caller is told that
    the change failed.  From then on the list of revisions cannot be read. *)
Theorem comma_divides_core_and_store :
  let out := create (host_request "a" [lit "a.example.com,b.example.com"]) in
  is_ok out.1 = false
  ∧ (∃ next, out.2.2.2 = [(ApplyConfigSnapshot next, Accepted)])
  ∧ persisted (lc_revisions out.2.1) = persisted plain_store
  ∧ is_ok (history (rebooted (lc_revisions out.2.1))).1 = false.
Proof. split_and!; [|eexists|..]; vm_compute; reflexivity. Qed.

(** ** Interrupted and unreadable stores *)
Definition empty_store (outcomes : list IoOutcome) : FileRevisionRepository :=
  {| frr_disk := {| disk_root := ∅; disk_revisions := None |}; frr_outcomes := outcomes |}.
Definition seed_text : list byte := render_mvp_config_snapshot plain_config.

(** an interrupted import is never resumed.  If the first start stores the seed and does not
    get to write the pointer, every later start finds a revision and no pointer and refuses,
    although the seed is still there. *)
Theorem interrupted_import_blocks_startup :
  let first := start_again (empty_store (replicate 6 IoDone ++ [IoFails None (lit "disk full")]))
                 (Some seed_text) in
  let second := start_again (rebooted (run_revisions first.2)) (Some seed_text) in
  is_ok first.1 = false
  ∧ match second.1 with Ok _ => False | Err e => app_code e = ConfigCurrentRevisionMissing end
  ∧ run_revisions second.2 = rebooted (run_revisions first.2).
Proof. vm_compute. done. Qed.

(** A store that cannot be read for a moment is taken for an empty one.  [Path::exists]
    answers no when the file system does not answer; if that happens to the three questions of a
    start, the seed is imported and made current in place of the stored configuration. *)
Theorem unreadable_store_replaced_by_seed :
  let w := store_of (lit "r1") plain_config (replicate 3 (IoFails None (lit "timed out"))) in
  let out := start_again w (Some seed_text) in
  pointer w = Some (lit "r1")
  ∧ (resolved_origin <$> match out.1 with Ok o => o | Err _ => None end) = Some OriginBootstrapSeedImported
  ∧ pointer (run_revisions out.2) = Some (lit "bootstrap-seed").
Proof. vm_compute. done. Qed.

(** ** The names of revisions

    Each change names its revision after the one it starts from, and the name is the file name
    in hexadecimal. *)
Definition suffixed (id : list byte) (k : nat) : list byte :=
  id ++ concat (replicate k (lit "-config-apply")).

Fixpoint change_sources `{!AuditSink A, !CoreCommandClient C} (sources : list (list byte))
  (l : ConfigLifecycle FileRevisionRepository A) (core : C * transcript)
  : list (result AppError ApplyResponse) * (ConfigLifecycle FileRevisionRepository A * (C * transcript)) :=
  match sources with
  | [] => ([], (l, core))
  | source :: rest =>
      let (res, st) := admin_exec (ChangeSource source) l core in
      let (results, st) := change_sources rest st.1 st.2 in
      (res :: results, st)
  end.

Lemma saved_name_fits (w : FileRevisionRepository) id : is_Some (saved w id) → 2 * len id + 5 ≤ NAME_MAX.
Proof.
  intros [s Hs]. cbn [saved file_view] in Hs. unfold disk_saved, disk_lookup, revision_path in Hs.
  destruct (name_fits (hex_encode id ++ lit ".toml")) eqn:Hf; [|done].
  apply N.leb_le in Hf. rewrite len_app in Hf. unfold len in Hf. rewrite hex_encode_length in Hf.
  change (length (lit ".toml")) with 5%nat in Hf. unfold len. lia.
Qed.

Lemma source_change_grows `{!AuditSink A, !CoreCommandClient C} source
    (l : ConfigLifecycle FileRevisionRepository A) (core : C) (log : transcript) id :
  pointer (lc_revisions l) = Some id → plain_id (id ++ lit "-config-apply") = true →
  let (res, st) := admin_exec (ChangeSource source) l (core, log) in
  is_ok res = true →
  pointer (lc_revisions st.1) = Some (id ++ lit "-config-apply")
  ∧ 2 * len (id ++ lit "-config-apply") + 5 ≤ NAME_MAX.
Proof.
  intros Hp Hid. pose proof (admin_change_cases (ChangeSource source) l core log) as Ho.
  destruct (admin_exec _ l (core, log)) as [res st]. unfold change_ends in Ho.
  intros Hok. destruct Ho as (sent & _ & [(Hf & _)|(next & (record & [Hr _] & Hn) & _ & Ho)]); [congruence|].
  apply next_source_id in Hn. rewrite Hp in Hr. injection Hr as Hr. rewrite <- Hr in Hn. rewrite <- Hn in Hid |- *.
  inversion Ho as [|?|?|restart res' (Hs & Hsv & Hpub) ? ?]; subst; try done.
  split; [by destruct (Hpub Hid)|]. rewrite <- Hsv in Hs. by apply saved_name_fits in Hs.
Qed.

Lemma suffixed_S id k : suffixed id k ++ lit "-config-apply" = suffixed id (S k).
Proof.
  unfold suffixed. rewrite <- app_assoc. f_equal. induction k as [|k IH]; [done|].
  cbn [replicate concat]. rewrite <- (app_assoc _ (concat _)), IH. done.
Qed.

Lemma change_sources_grow `{!AuditSink A, !CoreCommandClient C} sources id k
    (l : ConfigLifecycle FileRevisionRepository A) (core : C * transcript) :
  pointer (lc_revisions l) = Some (suffixed id k) →
  (∀ j, (j < length sources)%nat → plain_id (suffixed id (k + S j)) = true) →
  sources ≠ [] → Forall (λ r, is_ok r = true) (change_sources sources l core).1 →
  2 * len (suffixed id (k + length sources)) + 5 ≤ NAME_MAX.
Proof.
  revert k l core. induction sources as [|source sources IH]; intros k l [core log] Hp Hid Hne Hf; [done|].
  cbn [change_sources] in Hf. pose proof (source_change_grows source l core log (suffixed id k) Hp) as Hg.
  rewrite suffixed_S in Hg. specialize (Hg ltac:(rewrite <- (Nat.add_1_r k); apply (Hid 0%nat); simpl; lia)).
  destruct (admin_exec _ l (core, log)) as [res st].
  destruct (change_sources sources st.1 st.2) as [results st'] eqn:Hrest. cbn [fst] in Hf.
  inversion Hf as [|? ? Hok Hf']; subst. destruct (Hg Hok) as [Hp' Hlen].
  destruct sources as [|source' sources]; [simpl; by rewrite Nat.add_1_r|].
  specialize (IH (S k) st.1 st.2 Hp'). rewrite Hrest in IH.
  replace (k + length (source :: source' :: sources))%nat with (S k + length (source' :: sources))%nat
    by (simpl; lia).
  apply IH; [|done|done]. intros j Hj. replace (S k + S j)%nat with (k + S (S j))%nat by lia.
  apply Hid. simpl in *. lia.
Qed.

(** revision names run out.  The seed is revision [bootstrap-seed], and every change of the
    source adds thirteen characters to the name, of which the file name takes two bytes each; the
    file system takes 255.  Of any nine changes in a row, whatever they are and however the core
    and the audit answer, one is refused. *)
Theorem revision_names_run_out `{!AuditSink A, !CoreCommandClient C} (sources : list (list byte))
    (l : ConfigLifecycle FileRevisionRepository A) (core : C * transcript) :
  pointer (lc_revisions l) = Some (lit "bootstrap-seed") → length sources = 9%nat →
  Exists (λ r, is_ok r = false) (change_sources sources l core).1.
Proof.
  intros Hp Hlen. destruct (decide (Forall (λ r, is_ok r = true) (change_sources sources l core).1)) as [Hf|Hf].
  - exfalso. pose proof (change_sources_grow sources (lit "bootstrap-seed") 0 l core) as Hg.
    rewrite Hlen in Hg. assert (Hn : 2 * len (suffixed (lit "bootstrap-seed") (0 + 9)) + 5 ≤ NAME_MAX).
    { apply Hg; [done| |by intros ->|done]. intros j Hj.
      do 9 (destruct j as [|j]; [vm_compute; reflexivity|]). lia. }
    revert Hn. vm_compute. congruence.
  - apply not_Forall_Exists in Hf; [|intros ?; apply _]. eapply Exists_impl; [exact Hf|].
    intros r Hr. cbn beta in Hr. destruct (is_ok r) eqn:E; [by destruct Hr|done].
Qed.

Lemma revision_names_run_out_witness :
  Exists (λ r, is_ok r = false)
    (change_sources (replicate 9 seed_text)
       (admin_side (store_of (lit "bootstrap-seed") plain_config [])) ((), [])).1.
Proof. apply (revision_names_run_out (replicate 9 seed_text)); reflexivity. Defined.
