(* ===== verification/AuditModel.v ===== *)
(** * Audited changes

    The audit records and state machines of crates/edge-domain/src/audit.rs and the operations of
    crates/edge-application/src/audit.rs that run a change between an intent and a terminal record,
    observe security events, and settle at start-up what an earlier run left open.  The ledger, the
    inspector and the admission controller are the ports of crates/edge-ports/src/lib.rs, as
    classes. *)

From stdpp Require Import base gmap strings list sorting.
From Stdlib Require Import Strings.Byte NArith Lia.
From S2P Require Import Prelude Errors RustStr.
Local Open Scope N_scope.

(** ** Identifiers *)
Definition AUDIT_IDENTIFIER_MAX_BYTES : N := 128.
Definition AUDIT_QUERY_DEFAULT_LIMIT : N := 50.
Definition AUDIT_QUERY_MAX_LIMIT : N := 100.

Inductive AuditValidationError :=
| IdentifierEmpty
| IdentifierTooLong
| IdentifierInvalidCharacter
| QueryLimitInvalid
| QueryTimeRangeInvalid
| RecordInvariantInvalid
| InvalidTransition.

Definition AuditValidationError_as_str (e : AuditValidationError) : string :=
  match e with
  | IdentifierEmpty => "AUDIT_IDENTIFIER_EMPTY"
  | IdentifierTooLong => "AUDIT_IDENTIFIER_TOO_LONG"
  | IdentifierInvalidCharacter => "AUDIT_IDENTIFIER_INVALID_CHARACTER"
  | QueryLimitInvalid => "AUDIT_QUERY_LIMIT_INVALID"
  | QueryTimeRangeInvalid => "AUDIT_QUERY_TIME_RANGE_INVALID"
  | RecordInvariantInvalid => "AUDIT_RECORD_INVARIANT_INVALID"
  | InvalidTransition => "AUDIT_STATE_TRANSITION_INVALID"
  end.

Definition audit_identifier_byte (b : byte) : bool :=
  is_ascii_alphanumeric b
  || bool_decide (b = x2d) || bool_decide (b = x5f) || bool_decide (b = x2e) || bool_decide (b = x3a).

Definition validate_audit_identifier (value : list byte) : result AuditValidationError () :=
  if bool_decide (value = []) then Err IdentifierEmpty
  else if AUDIT_IDENTIFIER_MAX_BYTES <? len value then Err IdentifierTooLong
  else if negb (forallb audit_identifier_byte value) then Err IdentifierInvalidCharacter
  else Ok ().

(** The four newtypes of the macro [audit_identifier] are the same bytes with the same parser. *)
Definition AuditIdentifier := list byte.
Definition audit_identifier_parse (value : list byte) : result AuditValidationError AuditIdentifier :=
  let? _ := validate_audit_identifier value in Ok value.

(** ** Stable enumerations *)
Inductive AuditAction :=
| ConfigApply | ConfigRollback | ProxyHostCreate | ProxyHostUpdate | ProxyHostDelete
| CertificateIssue | CertificateRenew | CertificateImport | CertificateInstall
| TrustBundleImport | TrustBundleDelete | AdminSetup | AdminLoginSuccess | AdminLogout
| AdminLockout | AdminAuthFailureSampled | MaintenanceRestoreImported
| SystemTrailingRecovery | ActRetentionCheckpoint.
Inductive AuditOutcome :=
| Succeeded | OutFailed | Observed | ReconciledCommitted | ReconciledNotCommitted
| ReconciliationUnknown.
Inductive AuditRecordKind :=
| Intent | Terminal | Reconciliation | SecurityObservation | RetentionCheckpoint | KindSystemRecovery.
Inductive AuditTargetKind :=
| TkConfigRevision | TkProxyHost | TkCertificate | TkTrustBundle | TkAdminAccount | TkRestore
| TkAuditLedger.
Inductive AuditActorKind := BootstrapSetup | BootstrapAdmin | MaintenanceCli | ActorSystemRecovery.

#[global] Instance AuditAction_eq_dec : EqDecision AuditAction. Proof. solve_decision. Defined.
#[global] Instance AuditOutcome_eq_dec : EqDecision AuditOutcome. Proof. solve_decision. Defined.
#[global] Instance AuditRecordKind_eq_dec : EqDecision AuditRecordKind. Proof. solve_decision. Defined.
#[global] Instance AuditTargetKind_eq_dec : EqDecision AuditTargetKind. Proof. solve_decision. Defined.
#[global] Instance AuditActorKind_eq_dec : EqDecision AuditActorKind. Proof. solve_decision. Defined.

Definition AuditAction_as_str (a : AuditAction) : string :=
  match a with
  | ConfigApply => "config.apply" | ConfigRollback => "config.rollback"
  | ProxyHostCreate => "proxy_host.create" | ProxyHostUpdate => "proxy_host.update"
  | ProxyHostDelete => "proxy_host.delete" | CertificateIssue => "certificate.issue"
  | CertificateRenew => "certificate.renew" | CertificateImport => "certificate.import"
  | CertificateInstall => "certificate.install" | TrustBundleImport => "trust_bundle.import"
  | TrustBundleDelete => "trust_bundle.delete" | AdminSetup => "admin.setup"
  | AdminLoginSuccess => "admin.login.success" | AdminLogout => "admin.logout"
  | AdminLockout => "admin.lockout" | AdminAuthFailureSampled => "admin.auth.failure_sampled"
  | MaintenanceRestoreImported => "maintenance.restore_imported"
  | SystemTrailingRecovery => "system.trailing_recovery"
  | ActRetentionCheckpoint => "audit.retention.checkpoint"
  end.
Definition AuditOutcome_as_str (o : AuditOutcome) : string :=
  match o with
  | Succeeded => "succeeded" | OutFailed => "failed" | Observed => "observed"
  | ReconciledCommitted => "reconciled_committed"
  | ReconciledNotCommitted => "reconciled_not_committed"
  | ReconciliationUnknown => "reconciliation_unknown"
  end.
Definition AuditRecordKind_as_str (k : AuditRecordKind) : string :=
  match k with
  | Intent => "intent" | Terminal => "terminal" | Reconciliation => "reconciliation"
  | SecurityObservation => "security_observation" | RetentionCheckpoint => "retention_checkpoint"
  | KindSystemRecovery => "system_recovery"
  end.
Definition AuditTargetKind_as_str (k : AuditTargetKind) : string :=
  match k with
  | TkConfigRevision => "config_revision" | TkProxyHost => "proxy_host"
  | TkCertificate => "certificate" | TkTrustBundle => "trust_bundle"
  | TkAdminAccount => "admin_account" | TkRestore => "restore" | TkAuditLedger => "audit_ledger"
  end.
Definition AuditActorKind_as_str (k : AuditActorKind) : string :=
  match k with
  | BootstrapSetup => "bootstrap_setup" | BootstrapAdmin => "bootstrap_admin"
  | MaintenanceCli => "maintenance_cli" | ActorSystemRecovery => "system_recovery"
  end.

(** ** Records *)
Record AuditContext := {
  ctx_operation_id : AuditIdentifier;
  ctx_request_id : AuditIdentifier;
  ctx_actor_kind : AuditActorKind;
  ctx_received_at : N
}.
Record AuditRecord := {
  ar_version : N;
  ar_kind : AuditRecordKind;
  ar_context : AuditContext;
  ar_action : AuditAction;
  ar_target_kind : AuditTargetKind;
  ar_target_id : AuditIdentifier;
  ar_before : option AuditIdentifier;
  ar_after : option AuditIdentifier;
  ar_outcome : option AuditOutcome;
  ar_error : option AuditIdentifier
}.
#[global] Instance AuditContext_eq_dec : EqDecision AuditContext. Proof. solve_decision. Defined.
#[global] Instance AuditRecord_eq_dec : EqDecision AuditRecord. Proof. solve_decision. Defined.

Definition is_none {A} (o : option A) : bool := match o with None => true | Some _ => false end.
Definition is_security_observation (a : AuditAction) : bool :=
  match a with
  | AdminLoginSuccess | AdminLogout | AdminLockout | AdminAuthFailureSampled => true
  | _ => false
  end.

Definition record_shape (r : AuditRecord) : bool :=
  match ar_kind r with
  | Intent => is_none (ar_outcome r) && is_none (ar_error r) && is_none (ar_after r)
  | Terminal =>
      match ar_outcome r, ar_error r with
      | Some Succeeded, None | Some OutFailed, Some _ => true
      | _, _ => false
      end
  | Reconciliation =>
      match ar_outcome r with
      | Some (ReconciledCommitted | ReconciledNotCommitted | ReconciliationUnknown) => true
      | _ => false
      end
  | SecurityObservation =>
      bool_decide (ar_outcome r = Some Observed) && bool_decide (ar_target_kind r = TkAdminAccount)
      && is_none (ar_before r) && is_none (ar_after r) && is_none (ar_error r)
      && is_security_observation (ar_action r)
  | RetentionCheckpoint =>
      bool_decide (ar_action r = ActRetentionCheckpoint)
      && bool_decide (ar_target_kind r = TkAuditLedger)
      && bool_decide (ar_outcome r = Some Succeeded)
  | KindSystemRecovery =>
      bool_decide (ar_action r = SystemTrailingRecovery)
      && bool_decide (ar_target_kind r = TkAuditLedger)
      && bool_decide (ctx_actor_kind (ar_context r) = ActorSystemRecovery)
      && bool_decide (ar_outcome r = Some Succeeded) && is_none (ar_error r)
  end.
Definition record_validate (r : AuditRecord) : result AuditValidationError () :=
  if negb (ar_version r =? 1) || negb (record_shape r) then Err RecordInvariantInvalid else Ok ().

Record AuditLedgerHead := { head_generation : N; head_sequence : N }.
#[global] Instance AuditLedgerHead_eq_dec : EqDecision AuditLedgerHead. Proof. solve_decision. Defined.
Record AuditCursor := { cur_generation : N; cur_before : N }.
Record AuditRecordView := { view_sequence : N; view_record : AuditRecord }.

Record AuditQuery := {
  q_action : option AuditAction;
  q_outcome : option AuditOutcome;
  q_target_kind : option AuditTargetKind;
  q_from : option N;
  q_to : option N;
  q_limit : N;
  q_cursor : option AuditCursor
}.
Definition AuditQuery_new (action : option AuditAction) (outcome : option AuditOutcome)
  (target_kind : option AuditTargetKind) (from to : option N) (limit : N)
  : result AuditValidationError AuditQuery :=
  if (limit =? 0) || (AUDIT_QUERY_MAX_LIMIT <? limit) then Err QueryLimitInvalid
  else if match from, to with Some f, Some t => t <? f | _, _ => false end
  then Err QueryTimeRangeInvalid
  else Ok {| q_action := action; q_outcome := outcome; q_target_kind := target_kind; q_from := from;
             q_to := to; q_limit := limit; q_cursor := None |}.
Definition with_cursor (q : AuditQuery) (c : AuditCursor) : AuditQuery :=
  {| q_action := q_action q; q_outcome := q_outcome q; q_target_kind := q_target_kind q;
     q_from := q_from q; q_to := q_to q; q_limit := q_limit q; q_cursor := Some c |}.

Inductive AuditAuthoritativeFact := FactCommitted | FactNotCommitted | FactUnknown.
#[global] Instance AuditAuthoritativeFact_eq_dec : EqDecision AuditAuthoritativeFact.
Proof. solve_decision. Defined.
Inductive AuditOperationClass :=
| PersistentMutation | EphemeralSecurityObservation | ReadOnly | OfflineRestore.
Inductive AuditEffectState := EffCommitted | EffRejected.
#[global] Instance AuditEffectState_eq_dec : EqDecision AuditEffectState. Proof. solve_decision. Defined.

(** ** State machines *)
Inductive AuditOperationState :=
| OpReceived | IntentPersisting | OpIntentPersisted | EffectRunning | OpEffectCommitted
| OpEffectRejected | TerminalPersisting (effect : AuditEffectState) | Completed
| RejectedNoEffect | AuditDegradedCommitted | AuditDegradedRejected.
Inductive AuditOperationEvent :=
| BeginIntent | EvIntentPersisted | IntentAppendFailed | BeginEffect | EvEffectCommitted
| EvEffectRejected | BeginTerminal | TerminalPersisted | TerminalAppendFailed.

Definition operation_transition (s : AuditOperationState) (e : AuditOperationEvent)
  : result AuditValidationError AuditOperationState :=
  match s, e with
  | OpReceived, BeginIntent => Ok IntentPersisting
  | IntentPersisting, EvIntentPersisted => Ok OpIntentPersisted
  | IntentPersisting, IntentAppendFailed => Ok RejectedNoEffect
  | OpIntentPersisted, BeginEffect => Ok EffectRunning
  | EffectRunning, EvEffectCommitted => Ok OpEffectCommitted
  | EffectRunning, EvEffectRejected => Ok OpEffectRejected
  | OpEffectCommitted, BeginTerminal => Ok (TerminalPersisting EffCommitted)
  | OpEffectRejected, BeginTerminal => Ok (TerminalPersisting EffRejected)
  | TerminalPersisting _, TerminalPersisted => Ok Completed
  | TerminalPersisting EffCommitted, TerminalAppendFailed => Ok AuditDegradedCommitted
  | TerminalPersisting EffRejected, TerminalAppendFailed => Ok AuditDegradedRejected
  | _, _ => Err InvalidTransition
  end.

Inductive AuditAdmissionState := Starting | Verifying | Reconciling | Healthy | Degraded | FailedClosed.
#[global] Instance AuditAdmissionState_eq_dec : EqDecision AuditAdmissionState.
Proof. solve_decision. Defined.
Inductive AuditAdmissionEvent :=
| BeginVerification | VerificationPassed | IncompleteOperationsFound | VerificationFailed
| AppendFailed | BeginReconciliation | ReconciliationCompleted | EvReconciliationUnknown.

Definition admission_transition (s : AuditAdmissionState) (e : AuditAdmissionEvent)
  : result AuditValidationError AuditAdmissionState :=
  match s, e with
  | Starting, BeginVerification => Ok Verifying
  | Verifying, VerificationPassed => Ok Healthy
  | Verifying, IncompleteOperationsFound => Ok Reconciling
  | Verifying, VerificationFailed => Ok FailedClosed
  | Healthy, AppendFailed => Ok Degraded
  | Degraded, BeginReconciliation => Ok Reconciling
  | Reconciling, ReconciliationCompleted => Ok Healthy
  | Reconciling, EvReconciliationUnknown => Ok FailedClosed
  | _, _ => Err InvalidTransition
  end.
Definition admission_allows (s : AuditAdmissionState) (c : AuditOperationClass) : bool :=
  match c with
  | PersistentMutation => bool_decide (s = Healthy)
  | EphemeralSecurityObservation | ReadOnly => true
  | OfflineRestore => false
  end.

Inductive AuditReconciliationState :=
| IncompleteIntent | Inspecting | RcCommitted | RcNotCommitted | RcUnknown | Closed | MutationBlocked.
Inductive AuditReconciliationEvent :=
| BeginInspection | FoundCommitted | FoundNotCommitted | FactsUnknown | ReconciliationPersisted
| UnknownPersisted.
Definition reconciliation_transition (s : AuditReconciliationState) (e : AuditReconciliationEvent)
  : result AuditValidationError AuditReconciliationState :=
  match s, e with
  | IncompleteIntent, BeginInspection => Ok Inspecting
  | Inspecting, FoundCommitted => Ok RcCommitted
  | Inspecting, FoundNotCommitted => Ok RcNotCommitted
  | Inspecting, FactsUnknown => Ok RcUnknown
  | (RcCommitted | RcNotCommitted), ReconciliationPersisted => Ok Closed
  | RcUnknown, UnknownPersisted => Ok MutationBlocked
  | _, _ => Err InvalidTransition
  end.

Record AuditPage := {
  page_records : list AuditRecordView;
  page_next_cursor : option AuditCursor;
  page_head : AuditLedgerHead;
  page_admission_state : AuditAdmissionState
}.
Record AuditVerificationReport := {
  vr_head : AuditLedgerHead;
  vr_record_count : N;
  vr_segment_count : N;
  vr_incomplete_operation_count : N
}.

(** ** Ports *)
Class AuditLedgerWriter (L : Type) := {
  append_intent : AuditRecord → L → result AppError AuditLedgerHead * L;
  append_terminal : AuditRecord → AuditLedgerHead → L → result AppError AuditLedgerHead * L;
  append_reconciliation : AuditRecord → AuditLedgerHead → L → result AppError AuditLedgerHead * L;
  append_security_observation : AuditRecord → L → result AppError AuditLedgerHead * L
}.
Class AuditLedgerReader (L : Type) := {
  ledger_query : AuditQuery → L → result AppError AuditPage;
  incomplete_operations : L → result AppError (list AuditRecord);
  unresolved_reconciliations : L → result AppError (list AuditRecord);
  ledger_head : L → result AppError AuditLedgerHead
}.
Class AuditLedgerVerifier (L : Type) := ledger_verify : L → result AppError AuditVerificationReport * L.
Class AuditAuthoritativeStateInspector (I : Type) :=
  inspect : AuditIdentifier → AuditAction → AuditIdentifier → I → result AppError AuditAuthoritativeFact * I.
Class AuditAdmissionController (A : Type) := {
  admission_state : A → AuditAdmissionState;
  replace_state : AuditAdmissionState → A → A
}.

(** The controller and the inspector of a start (apps/edge-proxy/src/bootstrap_audit.rs). *)
#[global] Instance StartupAuditAdmission : AuditAdmissionController AuditAdmissionState := {
  admission_state s := s;
  replace_state s _ := s
}.
Inductive FailClosedAuditInspector := FailClosedInspector.
#[global] Instance fail_closed_inspector : AuditAuthoritativeStateInspector FailClosedAuditInspector :=
  λ _ _ _ i, (Ok FactUnknown, i).

(** ** Running a change *)
Record AuditPersistentOperationInput := {
  po_context : AuditContext;
  po_action : AuditAction;
  po_target_kind : AuditTargetKind;
  po_target_id : AuditIdentifier;
  po_before : option AuditIdentifier
}.
Record BeginAuditOperationOutput := {
  bo_head : AuditLedgerHead;
  bo_state : AuditOperationState;
  bo_intent : AuditRecord
}.
Record BeginAuditOperationFailure := { bf_error : AppError; bf_state : AuditOperationState }.
Record CompleteAuditOperationInput := {
  co_operation : AuditPersistentOperationInput;
  co_expected_head : AuditLedgerHead;
  co_effect_state : AuditEffectState;
  co_after : option AuditIdentifier;
  co_error : option AuditIdentifier
}.
Record CompleteAuditOperationOutput := {
  cp_head : AuditLedgerHead;
  cp_state : AuditOperationState;
  cp_terminal : AuditRecord;
  cp_effect_state : AuditEffectState
}.
Record CompleteAuditOperationFailure := {
  cf_error : AppError;
  cf_state : AuditOperationState;
  cf_effect_state : AuditEffectState
}.

Definition record_for_operation (input : AuditPersistentOperationInput) (kind : AuditRecordKind)
  (outcome : option AuditOutcome) (after error_code : option AuditIdentifier) : AuditRecord :=
  {| ar_version := 1; ar_kind := kind; ar_context := po_context input; ar_action := po_action input;
     ar_target_kind := po_target_kind input; ar_target_id := po_target_id input;
     ar_before := po_before input; ar_after := after; ar_outcome := outcome; ar_error := error_code |}.
Definition transition_begin_failure (e : AuditValidationError) : BeginAuditOperationFailure :=
  {| bf_error := AppError_new AuditRecordInvalid (AuditValidationError_as_str e);
     bf_state := RejectedNoEffect |}.
Definition audit_context (operation_id request_id : AuditIdentifier) (actor : AuditActorKind)
  (received_at : N) : AuditContext :=
  {| ctx_operation_id := operation_id; ctx_request_id := request_id; ctx_actor_kind := actor;
     ctx_received_at := received_at |}.

(** [expect] on a transition.  A panic would show as [OpReceived], which nothing here returns. *)
Definition expect_operation (r : result AuditValidationError AuditOperationState)
  : AuditOperationState := match r with Ok s => s | Err _ => OpReceived end.

Definition operation_of (ok : bool) (message : string) (context : AuditContext) (action : AuditAction)
  (kind : AuditTargetKind) (target : AuditIdentifier) (before : option AuditIdentifier)
  : result AppError AuditPersistentOperationInput :=
  if negb ok then Err (AppError_new AuditRecordInvalid message)
  else Ok {| po_context := context; po_action := action; po_target_kind := kind;
             po_target_id := target; po_before := before |}.
Definition config_audit_operation (context : AuditContext) (action : AuditAction)
  (target_revision : AuditIdentifier) (before : option AuditIdentifier) :=
  operation_of match action with ConfigApply | ConfigRollback => true | _ => false end
    "config audit operation requires apply or rollback action"
    context action TkConfigRevision target_revision before.
Definition proxy_host_audit_operation (context : AuditContext) (action : AuditAction)
  (proxy_host_id : AuditIdentifier) (before : option AuditIdentifier) :=
  operation_of match action with ProxyHostCreate | ProxyHostUpdate | ProxyHostDelete => true | _ => false end
    "proxy host audit operation requires a CRUD action"
    context action TkProxyHost proxy_host_id before.
Definition certificate_audit_operation (context : AuditContext) (action : AuditAction)
  (certificate_ref : AuditIdentifier) :=
  operation_of
    match action with
    | CertificateIssue | CertificateRenew | CertificateImport | CertificateInstall => true
    | _ => false
    end
    "certificate audit operation requires a certificate action"
    context action TkCertificate certificate_ref None.
Definition trust_audit_operation (context : AuditContext) (action : AuditAction)
  (trust_ref : AuditIdentifier) :=
  operation_of match action with TrustBundleImport | TrustBundleDelete => true | _ => false end
    "trust audit operation requires import or delete action"
    context action TkTrustBundle trust_ref None.
Definition admin_setup_audit_operation (context : AuditContext) (admin_id : AuditIdentifier)
  : AuditPersistentOperationInput :=
  {| po_context := context; po_action := AdminSetup; po_target_kind := TkAdminAccount;
     po_target_id := admin_id; po_before := None |}.

Record AuditMutationEffect (T : Type) := { me_value : T; me_after : option AuditIdentifier }.
Record AuditedMutationOutput (T : Type) := {
  mo_value : T;
  mo_audit : CompleteAuditOperationOutput
}.
Record AuditedMutationFailure (T : Type) := {
  mf_error : AppError;
  mf_effect_error : option AppError;
  mf_committed_value : option T;
  mf_state : AuditOperationState;
  mf_effect_state : option AuditEffectState;
  mf_durable_head : option AuditLedgerHead
}.
Arguments me_value {T}.
Arguments me_after {T}.
Arguments mo_value {T}.
Arguments mo_audit {T}.
Arguments mf_error {T}.
Arguments mf_effect_error {T}.
Arguments mf_committed_value {T}.
Arguments mf_state {T}.
Arguments mf_effect_state {T}.
Arguments mf_durable_head {T}.

Section mutation.
  Context {W A : Type} `{!AuditLedgerWriter W} `{!AuditAdmissionController A}.

Definition begin_audit_operation (input : AuditPersistentOperationInput) (admission : A) (writer : W)
  : result BeginAuditOperationFailure BeginAuditOperationOutput * W :=
  if negb (admission_allows (admission_state admission) PersistentMutation)
  then (Err {| bf_error := AppError_new AuditMutationBlocked
                 "persistent mutation requires a healthy audit ledger";
               bf_state := RejectedNoEffect |}, writer)
  else match operation_transition OpReceived BeginIntent with
       | Err e => (Err (transition_begin_failure e), writer)
       | Ok state =>
           let intent := record_for_operation input Intent None None None in
           match append_intent intent writer with
           | (Err error, writer) =>
               (Err {| bf_error := error;
                       bf_state := expect_operation (operation_transition state IntentAppendFailed) |},
                writer)
           | (Ok head, writer) =>
               (Ok {| bo_head := head;
                      bo_state := expect_operation (operation_transition state EvIntentPersisted);
                      bo_intent := intent |}, writer)
           end
       end.

Definition complete_audit_operation (input : CompleteAuditOperationInput) (writer : W) (admission : A)
  : result CompleteAuditOperationFailure CompleteAuditOperationOutput * (W * A) :=
  let effect_event := match co_effect_state input with
                      | EffCommitted => EvEffectCommitted | EffRejected => EvEffectRejected end in
  match (let? s := operation_transition EffectRunning effect_event in
         operation_transition s BeginTerminal) with
  | Err _ =>
      (Err {| cf_error := AppError_new AuditRecordInvalid "invalid audit terminal state";
              cf_state := EffectRunning; cf_effect_state := co_effect_state input |},
       (writer, admission))
  | Ok state =>
      let outcome := match co_effect_state input with
                     | EffCommitted => Succeeded | EffRejected => OutFailed end in
      let refuse message :=
        (Err {| cf_error := AppError_new AuditRecordInvalid message; cf_state := state;
                cf_effect_state := co_effect_state input |}, (writer, admission)) in
      if bool_decide (co_effect_state input = EffCommitted) && negb (is_none (co_error input))
      then refuse "committed audit terminal cannot include an error code"%string
      else if bool_decide (co_effect_state input = EffRejected) && is_none (co_error input)
      then refuse "rejected audit terminal requires a stable error code"%string
      else
        let terminal := record_for_operation (co_operation input) Terminal (Some outcome)
                          (co_after input) (co_error input) in
        match append_terminal terminal (co_expected_head input) writer with
        | (Ok head, writer) =>
            (Ok {| cp_head := head;
                   cp_state := expect_operation (operation_transition state TerminalPersisted);
                   cp_terminal := terminal; cp_effect_state := co_effect_state input |},
             (writer, admission))
        | (Err error, writer) =>
            (Err {| cf_error := error;
                    cf_state := expect_operation (operation_transition state TerminalAppendFailed);
                    cf_effect_state := co_effect_state input |},
             (writer, replace_state Degraded admission))
        end
  end.

(** The effect is a closure over a world of its own. *)
Definition execute_audited_mutation {T E : Type} (operation : AuditPersistentOperationInput)
  (effect : E → result AppError (AuditMutationEffect T) * E) (writer : W) (admission : A) (world : E)
  : result (AuditedMutationFailure T) (AuditedMutationOutput T) * (W * A * E) :=
  match begin_audit_operation operation admission writer with
  | (Err failure, writer) =>
      (Err {| mf_error := bf_error failure; mf_effect_error := None; mf_committed_value := None;
              mf_state := bf_state failure; mf_effect_state := None; mf_durable_head := None |},
       (writer, admission, world))
  | (Ok begin, writer) =>
      match operation_transition (bo_state begin) BeginEffect with
      | Err error =>
          (Err {| mf_error := AppError_new AuditRecordInvalid (AuditValidationError_as_str error);
                  mf_effect_error := None; mf_committed_value := None; mf_state := bo_state begin;
                  mf_effect_state := None; mf_durable_head := Some (bo_head begin) |},
           (writer, admission, world))
      | Ok _ =>
          match effect world with
          | (Ok effect, world) =>
              match complete_audit_operation
                      {| co_operation := operation; co_expected_head := bo_head begin;
                         co_effect_state := EffCommitted; co_after := me_after effect;
                         co_error := None |} writer admission with
              | (Ok completion, (writer, admission)) =>
                  (Ok {| mo_value := me_value effect; mo_audit := completion |},
                   (writer, admission, world))
              | (Err failure, (writer, admission)) =>
                  (Err {| mf_error := cf_error failure; mf_effect_error := None;
                          mf_committed_value := Some (me_value effect);
                          mf_state := cf_state failure;
                          mf_effect_state := Some (cf_effect_state failure);
                          mf_durable_head := Some (bo_head begin) |},
                   (writer, admission, world))
              end
          | (Err effect_error, world) =>
              match audit_identifier_parse (lit (ErrorCode_as_str (app_code effect_error))) with
              | Err _ =>
                  (Err {| mf_error := AppError_new InternalBug "application error code is not audit-safe";
                          mf_effect_error := Some effect_error; mf_committed_value := None;
                          mf_state := AuditDegradedRejected; mf_effect_state := Some EffRejected;
                          mf_durable_head := Some (bo_head begin) |},
                   (writer, replace_state Degraded admission, world))
              | Ok stable_error =>
                  match complete_audit_operation
                          {| co_operation := operation; co_expected_head := bo_head begin;
                             co_effect_state := EffRejected; co_after := None;
                             co_error := Some stable_error |} writer admission with
                  | (Ok completion, (writer, admission)) =>
                      (Err {| mf_error := effect_error; mf_effect_error := Some effect_error;
                              mf_committed_value := None; mf_state := cp_state completion;
                              mf_effect_state := Some EffRejected;
                              mf_durable_head := Some (cp_head completion) |},
                       (writer, admission, world))
                  | (Err failure, (writer, admission)) =>
                      (Err {| mf_error := cf_error failure; mf_effect_error := Some effect_error;
                              mf_committed_value := None; mf_state := cf_state failure;
                              mf_effect_state := Some (cf_effect_state failure);
                              mf_durable_head := Some (bo_head begin) |},
                       (writer, admission, world))
                  end
              end
          end
      end
  end.
End mutation.

(** ** Observations and queries *)
Record AuditSecurityObservationInput := {
  so_context : AuditContext;
  so_action : AuditAction;
  so_target_id : AuditIdentifier;
  so_outcome : AuditOutcome
}.
Record AuditSecurityObservationOutput := {
  soo_head : option AuditLedgerHead;
  soo_admission_state : AuditAdmissionState;
  soo_append_error : option AppError
}.
Record ReconcileAuditOutput := {
  ro_head : AuditLedgerHead;
  ro_fact : AuditAuthoritativeFact;
  ro_admission_state : AuditAdmissionState
}.
Record InitializeAuditLedgerOutput := {
  io_head : AuditLedgerHead;
  io_verified_record_count : N;
  io_incomplete_count : N;
  io_reconciled_count : N;
  io_admission_state : AuditAdmissionState
}.

Definition observation_record (input : AuditSecurityObservationInput) : AuditRecord :=
  {| ar_version := 1; ar_kind := SecurityObservation; ar_context := so_context input;
     ar_action := so_action input; ar_target_kind := TkAdminAccount; ar_target_id := so_target_id input;
     ar_before := None; ar_after := None; ar_outcome := Some (so_outcome input); ar_error := None |}.

Definition record_security_observation {W A} `{!AuditLedgerWriter W} `{!AuditAdmissionController A}
  (input : AuditSecurityObservationInput) (writer : W) (admission : A)
  : result AppError AuditSecurityObservationOutput * (W * A) :=
  if negb (is_security_observation (so_action input))
  then (Err (AppError_new AuditRecordInvalid "action is not a security observation"),
        (writer, admission))
  else if bool_decide (admission_state admission ≠ Healthy)
  then (Ok {| soo_head := None; soo_admission_state := admission_state admission;
              soo_append_error := None |}, (writer, admission))
  else match append_security_observation (observation_record input) writer with
       | (Ok head, writer) =>
           (Ok {| soo_head := Some head; soo_admission_state := Healthy; soo_append_error := None |},
            (writer, admission))
       | (Err error, writer) =>
           (Ok {| soo_head := None; soo_admission_state := Degraded; soo_append_error := Some error |},
            (writer, replace_state Degraded admission))
       end.

Definition query_audit {R} `{!AuditLedgerReader R} (reader : R) (authenticated : bool)
  (query : AuditQuery) : result AppError AuditPage :=
  if negb authenticated then Err (AppError_new AdminAuthRequired "audit query requires authentication")
  else ledger_query query reader.

(** ** Settling what was left open *)
Definition reconciled_record (incomplete : AuditRecord) (fact : AuditAuthoritativeFact) : AuditRecord :=
  {| ar_version := ar_version incomplete; ar_kind := Reconciliation;
     ar_context := ar_context incomplete; ar_action := ar_action incomplete;
     ar_target_kind := ar_target_kind incomplete; ar_target_id := ar_target_id incomplete;
     ar_before := ar_before incomplete; ar_after := ar_after incomplete;
     ar_outcome := Some match fact with
                        | FactCommitted => ReconciledCommitted
                        | FactNotCommitted => ReconciledNotCommitted
                        | FactUnknown => ReconciliationUnknown
                        end;
     ar_error := ar_error incomplete |}.

Definition reconcile_incomplete_audit {W I A} `{!AuditLedgerWriter W}
  `{!AuditAuthoritativeStateInspector I} `{!AuditAdmissionController A}
  (incomplete : AuditRecord) (expected_head : AuditLedgerHead) (writer : W) (inspector : I)
  (admission : A) : result AppError ReconcileAuditOutput * (W * I * A) :=
  if bool_decide (ar_kind incomplete ≠ Intent)
  then (Err (AppError_new AuditRecordInvalid "only incomplete intent records can be reconciled"),
        (writer, inspector, admission))
  else match inspect (ctx_operation_id (ar_context incomplete)) (ar_action incomplete)
               (ar_target_id incomplete) inspector with
       | (Err error, inspector) => (Err error, (writer, inspector, admission))
       | (Ok fact, inspector) =>
           match append_reconciliation (reconciled_record incomplete fact) expected_head writer with
           | (Err error, writer) => (Err error, (writer, inspector, admission))
           | (Ok head, writer) =>
               let state := if bool_decide (fact = FactUnknown) then FailedClosed else Healthy in
               (Ok {| ro_head := head; ro_fact := fact; ro_admission_state := state |},
                (writer, inspector, replace_state state admission))
           end
       end.

Definition audit_admission_transition_error (e : AuditValidationError) : AppError :=
  AppError_new AuditRecordInvalid (AuditValidationError_as_str e).

Section initialize.
  Context {L I A : Type} `{!AuditLedgerWriter L} `{!AuditLedgerReader L} `{!AuditLedgerVerifier L}
    `{!AuditAuthoritativeStateInspector I} `{!AuditAdmissionController A}.

(** The loop over the incomplete operations, with the count of the reconciled ones. *)
Fixpoint reconcile_all (reconciling : AuditAdmissionState) (incomplete : list AuditRecord) (count : N)
  (ledger : L) (inspector : I) (admission : A) : result AppError N * (L * I * A) :=
  match incomplete with
  | [] => (Ok count, (ledger, inspector, admission))
  | record :: rest =>
      match ledger_head ledger with
      | Err error => (Err error, (ledger, inspector, admission))
      | Ok expected_head =>
          match reconcile_incomplete_audit record expected_head ledger inspector admission with
          | (Err error, (ledger, inspector, admission)) =>
              (Err error, (ledger, inspector, replace_state FailedClosed admission))
          | (Ok output, (ledger, inspector, admission)) =>
              match checked_add U16_MAX count 1 with
              | None =>
                  (Err (AppError_new AuditCapacityReached
                          "reconciled audit operation count exceeds startup bound"),
                   (ledger, inspector, admission))
              | Some count =>
                  if bool_decide (ro_fact output = FactUnknown)
                  then (Err (AppError_new AuditReconciliationUnknown
                               "audit reconciliation requires operator investigation"),
                        (ledger, inspector, replace_state FailedClosed admission))
                  else reconcile_all reconciling rest count ledger inspector
                         (replace_state reconciling admission)
              end
          end
      end
  end.

Definition initialize_audit_ledger (ledger : L) (inspector : I) (admission : A)
  : result AppError InitializeAuditLedgerOutput * (L * I * A) :=
  match admission_transition Starting BeginVerification with
  | Err e => (Err (audit_admission_transition_error e), (ledger, inspector, admission))
  | Ok verifying =>
      let admission := replace_state verifying admission in
      let failed := match admission_transition verifying VerificationFailed with
                    | Ok s => s | Err _ => FailedClosed end in
      match ledger_verify ledger with
      | (Err error, ledger) => (Err error, (ledger, inspector, replace_state failed admission))
      | (Ok report, ledger) =>
          match unresolved_reconciliations ledger with
          | Err error => (Err error, (ledger, inspector, replace_state FailedClosed admission))
          | Ok (_ :: _) =>
              (Err (AppError_new AuditReconciliationUnknown
                      "audit ledger contains unresolved reconciliation records"),
               (ledger, inspector, replace_state FailedClosed admission))
          | Ok [] =>
              match incomplete_operations ledger with
              | Err error => (Err error, (ledger, inspector, replace_state failed admission))
              | Ok incomplete =>
                  let incomplete_count := len incomplete in
                  if U16_MAX <? incomplete_count
                  then (Err (AppError_new AuditCapacityReached
                               "incomplete audit operation count exceeds startup bound"),
                        (ledger, inspector, admission))
                  else match incomplete with
                  | [] =>
                      match admission_transition verifying VerificationPassed with
                      | Err e => (Err (audit_admission_transition_error e), (ledger, inspector, admission))
                      | Ok healthy =>
                          (Ok {| io_head := vr_head report;
                                 io_verified_record_count := vr_record_count report;
                                 io_incomplete_count := incomplete_count; io_reconciled_count := 0;
                                 io_admission_state := healthy |},
                           (ledger, inspector, replace_state healthy admission))
                      end
                  | _ =>
                      match admission_transition verifying IncompleteOperationsFound with
                      | Err e => (Err (audit_admission_transition_error e), (ledger, inspector, admission))
                      | Ok reconciling =>
                          match reconcile_all reconciling incomplete 0 ledger inspector
                                  (replace_state reconciling admission) with
                          | (Err error, world) => (Err error, world)
                          | (Ok reconciled_count, (ledger, inspector, admission)) =>
                              match admission_transition reconciling ReconciliationCompleted with
                              | Err e =>
                                  (Err (audit_admission_transition_error e), (ledger, inspector, admission))
                              | Ok healthy =>
                                  let admission := replace_state healthy admission in
                                  match ledger_head ledger with
                                  | Err error => (Err error, (ledger, inspector, admission))
                                  | Ok head =>
                                      (Ok {| io_head := head;
                                             io_verified_record_count := vr_record_count report;
                                             io_incomplete_count := incomplete_count;
                                             io_reconciled_count := reconciled_count;
                                             io_admission_state := healthy |},
                                       (ledger, inspector, admission))
                                  end
                              end
                          end
                      end
                  end
              end
          end
      end
  end.
End initialize.

(** ** Sampling of failed logins *)
Definition AUTH_FAILURE_AUDIT_SAMPLE_INTERVAL_SECONDS : N := 60.
Definition AUTH_FAILURE_AUDIT_MAX_TARGETS : N := 1024.
Record AuthFailureAuditSampler := { last_observed : gmap AuditIdentifier N }.

(** The order of [min_by_key]: the time first, then the target. *)
Definition older (a b : AuditIdentifier * N) : bool :=
  match a.2 ?= b.2 with
  | Lt => true
  | Eq => match bytes_compare a.1 b.1 with Gt => false | _ => true end
  | Gt => false
  end.
Definition oldest_observed (m : gmap AuditIdentifier N) : option AuditIdentifier :=
  match map_to_list m with
  | [] => None
  | x :: rest => Some (foldl (λ best y, if older best y then best else y) x rest).1
  end.

Definition should_record (target : AuditIdentifier) (now : N) (s : AuthFailureAuditSampler)
  : bool * AuthFailureAuditSampler :=
  let m := last_observed s in
  if match m !! target with
     | Some last => saturating_sub now last <? AUTH_FAILURE_AUDIT_SAMPLE_INTERVAL_SECONDS
     | None => false
     end
  then (false, s)
  else
    let m := if is_none (m !! target) && (AUTH_FAILURE_AUDIT_MAX_TARGETS <=? N.of_nat (size m))
             then match oldest_observed m with Some oldest => delete oldest m | None => m end
             else m in
    (true, {| last_observed := <[target := now]> m |}).
