(* ===== verification/AuditCodec.v ===== *)
(** * The bytes of an audit record

    The payload and the frame of crates/edge-adapters/src/audit_ledger.rs: the flat [RecordDto]
    with its conversions, the checkpoint metadata, and the frame with its big-endian header and its
    chained digest.  The JSON of serde_json and SHA-256 are parameters, as classes; what is relied
    on is that a text written is read back and that a digest has 32 bytes. *)

From stdpp Require Import base gmap strings list sorting.
From Stdlib Require Import Strings.Byte NArith Lia.
From S2P Require Import Prelude Errors RustStr ConfigParser ConfigStore AuditModel.
Local Open Scope N_scope.

Definition MAGIC : list byte := lit "SPAUDIT" ++ [x00].
Definition FRAME_VERSION : N := 1.
Definition HEADER_LEN : N := 8 + 2 + 2 + 4 + 8 + 32.
Definition HASH_LEN : N := 32.

Definition ledger_error (code : ErrorCode) (message : string) : AppError := AppError_new code message.
Definition corrupt : AppError := AppError_new AuditRecordInvalid "audit ledger verification failed".

(** ** The payload *)
Record RecordDto := {
  dto_record_version : N;
  dto_record_kind : list byte;
  dto_operation_id : list byte;
  dto_request_id : list byte;
  dto_actor_kind : list byte;
  dto_action : list byte;
  dto_target_kind : list byte;
  dto_target_id : list byte;
  dto_before_revision : option (list byte);
  dto_after_revision : option (list byte);
  dto_outcome : option (list byte);
  dto_error_code : option (list byte);
  dto_timestamp : N;
  dto_pruned_first : option N;
  dto_pruned_last : option N;
  dto_pruned_hash : option (list byte)
}.
Record RetentionMetadata := {
  rm_first_sequence : N;
  rm_last_sequence : N;
  rm_terminal_hash : list byte
}.

(** [serde_json::to_vec] and [serde_json::from_slice] at [RecordDto]. *)
Class SerdeJson := {
  to_vec : RecordDto → option (list byte);
  from_slice : list byte → option RecordDto
}.
(** [Sha256] over everything it was updated with. *)
Class Sha256 := sha256 : list byte → list byte.

(** The values of the Rust type: strings are UTF-8, integers have their width. *)
Definition opt_holds {A} (P : A → bool) (o : option A) : bool :=
  match o with Some x => P x | None => true end.
Definition dto_typed (d : RecordDto) : bool :=
  (dto_record_version d <=? U16_MAX) && (dto_timestamp d <=? U64_MAX)
  && opt_holds (λ n, n <=? U64_MAX) (dto_pruned_first d)
  && opt_holds (λ n, n <=? U64_MAX) (dto_pruned_last d)
  && forallb utf8_valid
       [dto_record_kind d; dto_operation_id d; dto_request_id d; dto_actor_kind d; dto_action d;
        dto_target_kind d; dto_target_id d]
  && opt_holds utf8_valid (dto_before_revision d) && opt_holds utf8_valid (dto_after_revision d)
  && opt_holds utf8_valid (dto_outcome d) && opt_holds utf8_valid (dto_error_code d)
  && opt_holds utf8_valid (dto_pruned_hash d).

Class SerdeLaws `{!SerdeJson} : Prop := {
  to_vec_total : ∀ d, dto_typed d = true → is_Some (to_vec d);
  from_to : ∀ d b, dto_typed d = true → to_vec d = Some b → from_slice b = Some d
}.
Class Sha256Laws `{!Sha256} : Prop := sha256_length : ∀ b, length (sha256 b) = 32%nat.

Definition encode_hash (hash : list byte) : list byte :=
  hash ≫= λ b, [hex_digit (u8 b / 16); hex_digit (u8 b mod 16)].
(** [chunks_exact(2)]: the length is even here. *)
Definition decode_hash (value : list byte) : result AppError (list byte) :=
  if negb (len value =? 64) || negb (forallb is_ascii_hexdigit value) then Err corrupt
  else ok_or (hex_pairs value) corrupt.

Definition parse_kind (v : list byte) : result AppError AuditRecordKind :=
  ok_or (List.find (λ k, bool_decide (lit (AuditRecordKind_as_str k) = v))
           [Intent; Terminal; Reconciliation; SecurityObservation; RetentionCheckpoint;
            KindSystemRecovery]) corrupt.
Definition parse_actor (v : list byte) : result AppError AuditActorKind :=
  ok_or (List.find (λ k, bool_decide (lit (AuditActorKind_as_str k) = v))
           [BootstrapSetup; BootstrapAdmin; MaintenanceCli; ActorSystemRecovery]) corrupt.
Definition parse_target (v : list byte) : result AppError AuditTargetKind :=
  ok_or (List.find (λ k, bool_decide (lit (AuditTargetKind_as_str k) = v))
           [TkConfigRevision; TkProxyHost; TkCertificate; TkTrustBundle; TkAdminAccount; TkRestore;
            TkAuditLedger]) corrupt.
Definition parse_outcome (v : list byte) : result AppError AuditOutcome :=
  ok_or (List.find (λ k, bool_decide (lit (AuditOutcome_as_str k) = v))
           [Succeeded; OutFailed; Observed; ReconciledCommitted; ReconciledNotCommitted;
            ReconciliationUnknown]) corrupt.
Definition parse_action (v : list byte) : result AppError AuditAction :=
  ok_or (List.find (λ a, bool_decide (lit (AuditAction_as_str a) = v))
           [ConfigApply; ConfigRollback; ProxyHostCreate; ProxyHostUpdate; ProxyHostDelete;
            CertificateIssue; CertificateRenew; CertificateImport; CertificateInstall;
            TrustBundleImport; TrustBundleDelete; AdminSetup; AdminLoginSuccess; AdminLogout;
            AdminLockout; AdminAuthFailureSampled; MaintenanceRestoreImported;
            SystemTrailingRecovery; ActRetentionCheckpoint]) corrupt.

Section codec.
  Context `{!SerdeJson}.

Definition record_dto (r : AuditRecord) (metadata : option RetentionMetadata) : RecordDto :=
  {| dto_record_version := ar_version r;
     dto_record_kind := lit (AuditRecordKind_as_str (ar_kind r));
     dto_operation_id := ctx_operation_id (ar_context r);
     dto_request_id := ctx_request_id (ar_context r);
     dto_actor_kind := lit (AuditActorKind_as_str (ctx_actor_kind (ar_context r)));
     dto_action := lit (AuditAction_as_str (ar_action r));
     dto_target_kind := lit (AuditTargetKind_as_str (ar_target_kind r));
     dto_target_id := ar_target_id r;
     dto_before_revision := ar_before r;
     dto_after_revision := ar_after r;
     dto_outcome := lit ∘ AuditOutcome_as_str <$> ar_outcome r;
     dto_error_code := ar_error r;
     dto_timestamp := ctx_received_at (ar_context r);
     dto_pruned_first := rm_first_sequence <$> metadata;
     dto_pruned_last := rm_last_sequence <$> metadata;
     dto_pruned_hash := encode_hash ∘ rm_terminal_hash <$> metadata |}.
Definition encode_record_with_retention (r : AuditRecord) (metadata : option RetentionMetadata)
  : result AppError (list byte) := ok_or (to_vec (record_dto r metadata)) corrupt.
Definition encode_record (r : AuditRecord) : result AppError (list byte) :=
  encode_record_with_retention r None.

Definition parse_identifier (v : list byte) : result AppError AuditIdentifier :=
  match audit_identifier_parse v with Ok id => Ok id | Err _ => Err corrupt end.
Definition transpose {A B} (f : A → result AppError B) (o : option A) : result AppError (option B) :=
  match o with
  | None => Ok None
  | Some x => let? y := f x in Ok (Some y)
  end.

Definition decode_record_with_retention (bytes : list byte)
  : result AppError (AuditRecord * option RetentionMetadata) :=
  let? d := ok_or (from_slice bytes) corrupt in
  if negb (dto_record_version d =? 1)
  then Err (ledger_error AuditUnsupportedVersion "audit record version is unsupported")
  else
  let? kind := parse_kind (dto_record_kind d) in
  let? operation_id := parse_identifier (dto_operation_id d) in
  let? request_id := parse_identifier (dto_request_id d) in
  let? actor := parse_actor (dto_actor_kind d) in
  let? action := parse_action (dto_action d) in
  let? target_kind := parse_target (dto_target_kind d) in
  let? target_id := parse_identifier (dto_target_id d) in
  let? before := transpose parse_identifier (dto_before_revision d) in
  let? after := transpose parse_identifier (dto_after_revision d) in
  let? outcome := transpose parse_outcome (dto_outcome d) in
  let? error := transpose parse_identifier (dto_error_code d) in
  let record := {| ar_version := dto_record_version d; ar_kind := kind;
                   ar_context := {| ctx_operation_id := operation_id; ctx_request_id := request_id;
                                    ctx_actor_kind := actor; ctx_received_at := dto_timestamp d |};
                   ar_action := action; ar_target_kind := target_kind; ar_target_id := target_id;
                   ar_before := before; ar_after := after; ar_outcome := outcome;
                   ar_error := error |} in
  match record_validate record with
  | Err _ => Err corrupt
  | Ok _ =>
      let is_checkpoint := bool_decide (kind = RetentionCheckpoint) in
      match dto_pruned_first d, dto_pruned_last d, dto_pruned_hash d with
      | None, None, None => if negb is_checkpoint then Ok (record, None) else Err corrupt
      | Some first, Some last, Some hash =>
          if is_checkpoint && (0 <? first) && (first <=? last)
          then let? hash := decode_hash hash in
               Ok (record, Some {| rm_first_sequence := first; rm_last_sequence := last;
                                   rm_terminal_hash := hash |})
          else Err corrupt
      | _, _, _ => Err corrupt
      end
  end.
End codec.

(** ** The frame *)
(** [to_be_bytes] of an integer of [n] bytes and [from_be_bytes]. *)
Fixpoint to_be (n : nat) (v : N) : list byte :=
  match n with
  | O => []
  | S m => to_be m (v / 256) ++ [byte_of (v mod 256)]
  end.
Definition from_be (l : list byte) : N := foldl (λ acc b, acc * 256 + u8 b) 0 l.

(** A frame's digest is over its version, sequence, predecessor and payload. *)
Definition frame_digest `{!Sha256} (sequence : N) (previous payload : list byte) : list byte :=
  sha256 (to_be 2 FRAME_VERSION ++ to_be 8 sequence ++ previous ++ payload).
Definition encode_frame `{!Sha256} (sequence : N) (previous payload : list byte) : list byte :=
  MAGIC ++ to_be 2 FRAME_VERSION ++ to_be 2 0 ++ to_be 4 (len payload) ++ to_be 8 sequence
  ++ previous ++ payload ++ frame_digest sequence previous payload.

(** ** Lemmas: integers *)
Lemma to_be_length n v : length (to_be n v) = n.
Proof. revert v. induction n as [|n IH]; intros v; [done|]. cbn [to_be]. rewrite length_app, IH. cbn. lia. Qed.

Lemma from_be_snoc l b : from_be (l ++ [b]) = from_be l * 256 + u8 b.
Proof. unfold from_be. by rewrite foldl_app. Qed.

Lemma from_be_to_be n v : v < 256 ^ N.of_nat n → from_be (to_be n v) = v.
Proof.
  revert v. induction n as [|n IH]; intros v Hv.
  { cbn in *. lia. }
  cbn [to_be]. rewrite from_be_snoc.
  assert (v mod 256 < 256) by (apply N.mod_lt; lia). rewrite byte_of_u8 by done.
  rewrite Nat2N.inj_succ, N.pow_succ_r' in Hv.
  rewrite IH by (apply N.Div0.div_lt_upper_bound; lia).
  rewrite (N.div_mod v 256) at 3 by lia. lia.
Qed.

(** ** Lemmas: identifiers and enumerations *)
Definition identifier_ok (v : list byte) : bool := is_ok (audit_identifier_parse v).

Lemma parse_identifier_ok v : identifier_ok v = true → parse_identifier v = Ok v.
Proof.
  unfold identifier_ok, parse_identifier, audit_identifier_parse.
  by destruct (validate_audit_identifier v).
Qed.

Lemma identifier_byte_ascii b : audit_identifier_byte b = true → u8 b < 128.
Proof. destruct b; vm_compute; intros; congruence. Qed.

Lemma identifier_utf8 v : identifier_ok v = true → utf8_valid v = true.
Proof.
  unfold identifier_ok, audit_identifier_parse, validate_audit_identifier. intros H.
  case_bool_decide; [done|]. destruct (_ <? _); [done|].
  destruct (forallb audit_identifier_byte v) eqn:Hf; [|done].
  apply utf8_valid_ascii, Forall_forall. intros b Hb.
  apply identifier_byte_ascii. rewrite forallb_forall in Hf. apply Hf, list_elem_of_In, Hb.
Qed.

Lemma parse_kind_ok k : parse_kind (lit (AuditRecordKind_as_str k)) = Ok k.
Proof. by destruct k. Qed.
Lemma parse_actor_ok k : parse_actor (lit (AuditActorKind_as_str k)) = Ok k.
Proof. by destruct k. Qed.
Lemma parse_target_ok k : parse_target (lit (AuditTargetKind_as_str k)) = Ok k.
Proof. by destruct k. Qed.
Lemma parse_outcome_ok k : parse_outcome (lit (AuditOutcome_as_str k)) = Ok k.
Proof. by destruct k. Qed.
Lemma parse_action_ok k : parse_action (lit (AuditAction_as_str k)) = Ok k.
Proof. by destruct k. Qed.

Lemma transpose_ok {A B} (f : A → result AppError B) (g : A → B) o :
  (∀ x, o = Some x → f x = Ok (g x)) → transpose f o = Ok (g <$> o).
Proof. destruct o as [x|]; [|done]. intros H. cbn. by rewrite (H x). Qed.

Lemma decode_encode_hash h : length h = 32%nat → decode_hash (encode_hash h) = Ok h.
Proof.
  intros Hh. change (encode_hash h) with (hex_encode h). unfold decode_hash.
  unfold len. rewrite hex_encode_length, Hh. cbn [N.of_nat].
  replace (forallb is_ascii_hexdigit (hex_encode h)) with true.
  - cbn. by rewrite hex_pairs_encode.
  - symmetry. clear Hh. induction h as [|b h IH]; [done|].
    unfold hex_encode in *. cbn [mbind list_bind app forallb]. rewrite IH, andb_true_r.
    destruct b; reflexivity.
Qed.
Lemma encode_hash_utf8 h : utf8_valid (encode_hash h) = true.
Proof.
  apply utf8_valid_ascii. induction h as [|b h IH]; [constructor|].
  unfold encode_hash in *. cbn [mbind list_bind app]. constructor; [|constructor]; [..|done];
  destruct b; reflexivity.
Qed.

(** ** Lemmas: records are read back *)
Definition record_typed (r : AuditRecord) : bool :=
  forallb identifier_ok
    [ctx_operation_id (ar_context r); ctx_request_id (ar_context r); ar_target_id r]
  && opt_holds identifier_ok (ar_before r) && opt_holds identifier_ok (ar_after r)
  && opt_holds identifier_ok (ar_error r) && (ctx_received_at (ar_context r) <=? U64_MAX).

Definition metadata_fits (r : AuditRecord) (metadata : option RetentionMetadata) : Prop :=
  match metadata with
  | None => ar_kind r ≠ RetentionCheckpoint
  | Some m => ar_kind r = RetentionCheckpoint ∧ 0 < rm_first_sequence m
              ∧ rm_first_sequence m ≤ rm_last_sequence m ∧ rm_last_sequence m ≤ U64_MAX
              ∧ length (rm_terminal_hash m) = 32%nat
  end.

Lemma opt_holds_impl {A} (P Q : A → bool) o :
  (∀ x, P x = true → Q x = true) → opt_holds P o = true → opt_holds Q o = true.
Proof. destruct o; cbn; auto. Qed.

Section codec_laws.
  Context `{!SerdeJson} `{!SerdeLaws}.

Lemma validate_version r : record_validate r = Ok () → ar_version r = 1.
Proof. unfold record_validate. intros Hv. destruct (ar_version r =? 1) eqn:?; [by apply N.eqb_eq|done]. Qed.

Lemma record_dto_typed r m :
  record_typed r = true → record_validate r = Ok () → metadata_fits r m →
  dto_typed (record_dto r m) = true.
Proof.
  intros Ht Hv%validate_version Hm. unfold record_typed in Ht.
  cbn [forallb] in Ht. rewrite !andb_true_iff in Ht. destruct_and!.
  unfold dto_typed, record_dto. cbn [forallb dto_record_version dto_record_kind dto_operation_id
    dto_request_id dto_actor_kind dto_action dto_target_kind dto_target_id dto_before_revision
    dto_after_revision dto_outcome dto_error_code dto_timestamp dto_pruned_first dto_pruned_last
    dto_pruned_hash].
  rewrite Hv. repeat (apply andb_true_iff; split);
    first [ done
          | by eauto using identifier_utf8, opt_holds_impl
          | by destruct (ar_kind r) | by destruct (ctx_actor_kind (ar_context r))
          | by destruct (ar_action r) | by destruct (ar_target_kind r)
          | by destruct (ar_outcome r) as [[]|]
          | destruct m as [m|]; cbn in *; [first [apply N.leb_le; lia | apply encode_hash_utf8]|done] ].
Qed.

Lemma encode_record_total r m :
  record_typed r = true → record_validate r = Ok () → metadata_fits r m →
  ∃ b, encode_record_with_retention r m = Ok b.
Proof.
  intros Ht Hv Hm. destruct (to_vec_total _ (record_dto_typed r m Ht Hv Hm)) as [b Hb].
  exists b. unfold encode_record_with_retention. by rewrite Hb.
Qed.

Lemma decode_encode_record r m b :
  record_typed r = true → record_validate r = Ok () → metadata_fits r m →
  encode_record_with_retention r m = Ok b → decode_record_with_retention b = Ok (r, m).
Proof.
  intros Ht Hv Hm Hb. pose proof (record_dto_typed r m Ht Hv Hm) as Hd.
  unfold encode_record_with_retention in Hb. destruct (to_vec _) as [b'|] eqn:Hw; [|done].
  injection Hb as ->. unfold decode_record_with_retention. rewrite (from_to _ _ Hd Hw). cbn [ok_or].
  unfold record_typed in Ht. cbn [forallb] in Ht. rewrite !andb_true_iff in Ht. destruct_and!.
  pose proof (validate_version r Hv) as Hver.
  unfold record_dto at 1. cbn [dto_record_version]. rewrite Hver. cbn [N.eqb negb Pos.eqb].
  unfold record_dto. cbn [dto_record_version dto_record_kind dto_operation_id
    dto_request_id dto_actor_kind dto_action dto_target_kind dto_target_id dto_before_revision
    dto_after_revision dto_outcome dto_error_code dto_timestamp dto_pruned_first dto_pruned_last
    dto_pruned_hash].
  rewrite parse_kind_ok, parse_actor_ok, parse_action_ok, parse_target_ok.
  rewrite !parse_identifier_ok by done.
  rewrite !(transpose_ok parse_identifier id)
    by (intros x Hx; rewrite ?Hx in *; by apply parse_identifier_ok).
  replace (transpose parse_outcome _) with (Ok (E:=AppError) (ar_outcome r))
    by (destruct (ar_outcome r); cbn; by rewrite ?parse_outcome_ok).
  rewrite !option_fmap_id.
  match goal with |- context [record_validate ?x] => assert (x = r) as -> end.
  { destruct r as [? ? [] ?]; cbn in *. by subst. }
  rewrite Hv. destruct m as [m|]; cbn [fmap option_fmap option_map metadata_fits compose] in *.
  - destruct Hm as (Hk & ? & ? & ? & Hh). rewrite bool_decide_eq_true_2 by done.
    rewrite (proj2 (N.ltb_lt 0 _)), (proj2 (N.leb_le _ _)) by done. cbn [andb].
    rewrite decode_encode_hash by done. by destruct m.
  - by rewrite bool_decide_eq_false_2.
Qed.
End codec_laws.
