(* ===== verification/AuditLedger.v ===== *)
(** * The audit ledger in files

    [FileAuditLedger] of crates/edge-adapters/src/audit_ledger.rs over a model of its directory in
    which every call to the system can fail: opening and scanning, appending with rotation and
    retention, reading.  The test hooks of the source ([failure_injection]) are not modelled; the
    failures they inject are among those of the file system. *)

From stdpp Require Import base gmap strings list sorting.
From Stdlib Require Import Strings.Byte NArith Lia.
From S2P Require Import Prelude Errors RustStr ConfigParser ConfigStore AuditModel AuditCodec.
Local Open Scope N_scope.

Definition MAX_PAYLOAD_BYTES : N := 8 * 1024.
Definition MAX_SCAN_RECORDS : N := 100000.
Definition MAX_SEGMENT_BYTES : N := 4 * 1024 * 1024.
Definition MAX_SEGMENTS : N := 32.
Definition MAX_TOTAL_BYTES : N := 128 * 1024 * 1024.

Record AuditLedgerOptions := {
  ao_max_payload_bytes : N;
  ao_max_scan_records : N;
  ao_recovery_context : option AuditContext;
  ao_max_segment_bytes : N;
  ao_max_segments : N;
  ao_max_total_bytes : N
}.
Definition AuditLedgerOptions_default : AuditLedgerOptions :=
  {| ao_max_payload_bytes := MAX_PAYLOAD_BYTES; ao_max_scan_records := MAX_SCAN_RECORDS;
     ao_recovery_context := None; ao_max_segment_bytes := MAX_SEGMENT_BYTES;
     ao_max_segments := MAX_SEGMENTS; ao_max_total_bytes := MAX_TOTAL_BYTES |}.
Definition with_recovery_context (context : AuditContext) (o : AuditLedgerOptions)
  : AuditLedgerOptions :=
  {| ao_max_payload_bytes := ao_max_payload_bytes o; ao_max_scan_records := ao_max_scan_records o;
     ao_recovery_context := Some context; ao_max_segment_bytes := ao_max_segment_bytes o;
     ao_max_segments := ao_max_segments o; ao_max_total_bytes := ao_max_total_bytes o |}.

(** ** State machines of the adapter *)
Inductive AuditLedgerIoState :=
| IoReady | Encoding | Appending | Syncing | PublishedHead | Recovering | IoDegraded | IoFailedClosed.
#[global] Instance AuditLedgerIoState_eq_dec : EqDecision AuditLedgerIoState. Proof. solve_decision. Defined.
Inductive AuditLedgerIoEvent := BeginEncoding | Encoded | Appended | Synced | IoFailed.

Definition ledger_io_transition (s : AuditLedgerIoState) (e : AuditLedgerIoEvent)
  : result AppError AuditLedgerIoState :=
  match s, e with
  | (IoReady | PublishedHead | Recovering), BeginEncoding => Ok Encoding
  | Encoding, Encoded => Ok Appending
  | Appending, Appended => Ok Syncing
  | Syncing, Synced => Ok PublishedHead
  | (Encoding | Appending | Syncing | Recovering), IoFailed => Ok IoDegraded
  | _, _ => Err (AppError_new AuditRecordInvalid "audit ledger I/O state transition is invalid")
  end.

Inductive StorageMaintenanceState :=
| MtReady | RotationRequired | SegmentPublished | RetentionRequired | Checkpointed | Removed | MtDegraded.
Inductive StorageMaintenanceEvent :=
| RequireRotation | PublishSegment | RequireRetention | SyncCheckpoint | RemoveSegments | Finish | MtFail.
Definition maintenance_transition (s : StorageMaintenanceState) (e : StorageMaintenanceEvent)
  : result AppError StorageMaintenanceState :=
  match s, e with
  | MtReady, RequireRotation => Ok RotationRequired
  | RotationRequired, PublishSegment => Ok SegmentPublished
  | SegmentPublished, RequireRetention => Ok RetentionRequired
  | RetentionRequired, SyncCheckpoint => Ok Checkpointed
  | Checkpointed, RemoveSegments => Ok Removed
  | (SegmentPublished | Removed), Finish => Ok MtReady
  | (RotationRequired | SegmentPublished | RetentionRequired | Checkpointed), MtFail => Ok MtDegraded
  | _, _ => Err (AppError_new AuditRecordInvalid "audit storage maintenance transition is invalid")
  end.

(** ** The directory

    The entry [logs/audit] of the data directory.  Each call to the system takes its outcome from
    a list; when the list is empty the call works.  A write that fails may leave a part of the
    bytes behind. *)
Inductive FileNode :=
| RegularFile (mode nlink : N) (bytes : list byte)
| SpecialFile
| Unopenable.
Inductive DirNode :=
| NoEntry
| NotDirectory
| Directory (mode : N) (files : gmap (list byte) FileNode).
Inductive AuditIo := AioDone | AioFails (written : nat).
Record AuditDisk := { ad_dir : DirNode; ad_io : list AuditIo }.

Definition io_error : AppError := AppError_new AuditUnavailable "audit ledger I/O failed".
Definition append_error : AppError := AppError_new AuditAppendFailed "audit ledger append failed".
Definition sync_error : AppError := AppError_new AuditSyncFailed "audit ledger sync failed".
Definition unsafe_directory : AppError :=
  AppError_new AuditUnavailable "audit ledger directory is unsafe".
Definition unsafe_segment : AppError := AppError_new AuditUnavailable "audit ledger segment is unsafe".

Definition next_outcome (d : AuditDisk) : AuditIo * AuditDisk :=
  match ad_io d with
  | [] => (AioDone, d)
  | o :: rest => (o, {| ad_dir := ad_dir d; ad_io := rest |})
  end.
Definition set_dir (dir : DirNode) (d : AuditDisk) : AuditDisk := {| ad_dir := dir; ad_io := ad_io d |}.
Definition disk_files (d : AuditDisk) : gmap (list byte) FileNode :=
  match ad_dir d with Directory _ files => files | _ => ∅ end.
Definition set_file (name : list byte) (node : FileNode) (d : AuditDisk) : AuditDisk :=
  match ad_dir d with
  | Directory mode files => set_dir (Directory mode (<[name := node]> files)) d
  | _ => d
  end.
Definition drop_file (name : list byte) (d : AuditDisk) : AuditDisk :=
  match ad_dir d with
  | Directory mode files => set_dir (Directory mode (delete name files)) d
  | _ => d
  end.

(** [sync_all] of a file or a directory. *)
Definition sync_all (e : AppError) (d : AuditDisk) : result AppError () * AuditDisk :=
  match next_outcome d with
  | (AioDone, d) => (Ok (), d)
  | (AioFails _, d) => (Err e, d)
  end.

Definition prepare_private_directory (d : AuditDisk) : result AppError () * AuditDisk :=
  let (o, d) := next_outcome d in
  let existed := match o, ad_dir d with
                 | AioFails _, _ | _, NoEntry => None
                 | _, node => Some node
                 end in
  match existed with
  | Some NotDirectory => (Err unsafe_directory, d)
  | _ =>
      let! _, d := match next_outcome d with
                   | (AioFails _, d) => (Err io_error, d)
                   | (AioDone, d) =>
                       match ad_dir d with
                       | NoEntry => (Ok (), set_dir (Directory 493 ∅) d)
                       | NotDirectory => (Err io_error, d)
                       | Directory _ _ => (Ok (), d)
                       end
                   end in
      let! _, d := match existed with
                   | Some _ => (Ok (), d)
                   | None =>
                       match next_outcome d with
                       | (AioFails _, d) => (Err io_error, d)
                       | (AioDone, d) => (Ok (), set_dir (Directory 448 (disk_files d)) d)
                       end
                   end in
      match next_outcome d with
      | (AioFails _, d) => (Err io_error, d)
      | (AioDone, d) =>
          (match ad_dir d with
           | Directory mode _ => if N.land mode 511 =? 448 then Ok () else Err unsafe_directory
           | _ => Err unsafe_directory
           end, d)
      end
  end.

(** [open_private_segment]: [create(true)], never through a symbolic link, and then the checks on
    what was opened; it answers the bytes. *)
Definition open_private_segment (name : list byte) (d : AuditDisk)
  : result AppError (list byte) * AuditDisk :=
  match next_outcome d with
  | (AioFails _, d) => (Err io_error, d)
  | (AioDone, d) =>
      match disk_files d !! name with
      | Some Unopenable => (Err io_error, d)
      | node =>
          let d := match node with None => set_file name (RegularFile 384 1 []) d | Some _ => d end in
          match next_outcome d with
          | (AioFails _, d) => (Err io_error, d)
          | (AioDone, d) =>
              (match disk_files d !! name with
               | Some (RegularFile mode nlink bytes) =>
                   if negb (N.land mode 511 =? 384) || negb (nlink =? 1) then Err unsafe_segment
                   else Ok bytes
               | _ => Err unsafe_segment
               end, d)
          end
      end
  end.
Definition read_to_end (bytes : list byte) (d : AuditDisk) : result AppError (list byte) * AuditDisk :=
  match next_outcome d with
  | (AioDone, d) => (Ok bytes, d)
  | (AioFails _, d) => (Err io_error, d)
  end.
Definition file_bytes (name : list byte) (d : AuditDisk) : list byte :=
  match disk_files d !! name with Some (RegularFile _ _ bytes) => bytes | _ => [] end.
Definition set_bytes (name bytes : list byte) (d : AuditDisk) : AuditDisk :=
  match disk_files d !! name with
  | Some (RegularFile mode nlink _) => set_file name (RegularFile mode nlink bytes) d
  | _ => d
  end.
Definition truncate_trailing (name : list byte) (valid_length : N) (d : AuditDisk)
  : result AppError () * AuditDisk :=
  match next_outcome d with
  | (AioFails _, d) => (Err io_error, d)
  | (AioDone, d) =>
      sync_all io_error (set_bytes name (take (N.to_nat valid_length) (file_bytes name d)) d)
  end.
(** [write_all] on a file opened for appending. *)
Definition write_frame (name frame : list byte) (d : AuditDisk) : bool * AuditDisk :=
  match next_outcome d with
  | (AioDone, d) => (true, set_bytes name (file_bytes name d ++ frame) d)
  | (AioFails n, d) => (false, set_bytes name (file_bytes name d ++ take n frame) d)
  end.
Definition remove_file (name : list byte) (d : AuditDisk) : result AppError () * AuditDisk :=
  match next_outcome d with
  | (AioFails _, d) => (Err io_error, d)
  | (AioDone, d) =>
      match disk_files d !! name with
      | None => (Err io_error, d)
      | Some _ => (Ok (), drop_file name d)
      end
  end.

(** ** Segment names *)
Definition zero_pad (width : nat) (digits : list byte) : list byte :=
  replicate (width - length digits) (x30 : byte) ++ digits.
Definition segment_path (number : N) : list byte :=
  lit "segment-" ++ zero_pad 16 (print_dec number) ++ lit ".audit".

(** What a name of the directory stands for: nothing, a segment, or a corrupt ledger. *)
Definition segment_number (name : list byte) : result AppError (option N) :=
  if negb (utf8_valid name) then Err corrupt
  else if negb (starts_with (lit "segment-") name) || negb (ends_with (lit ".audit") name) then Ok None
  else match (strip_prefix (lit "segment-") name ≫= strip_suffix (lit ".audit")) with
       | Some value =>
           if (len value =? 16) && forallb is_ascii_digit value
           then match parse_uint U64_MAX value with
                | Some number => if number =? 0 then Err corrupt else Ok (Some number)
                | None => Err corrupt
                end
           else Err corrupt
       | None => Err corrupt
       end.
Fixpoint segment_numbers (names : list (list byte)) : result AppError (list N) :=
  match names with
  | [] => Ok []
  | name :: rest =>
      let? number := segment_number name in
      let? numbers := segment_numbers rest in
      Ok (option_list number ++ numbers)
  end.
Fixpoint contiguous (numbers : list N) : bool :=
  match numbers with
  | a :: ((b :: _) as rest) => (b =? a + 1) && contiguous rest
  | _ => true
  end.
(** The entries come in any order, which the sorting removes. *)
Definition discover_segments (d : AuditDisk) : result AppError (list N) * AuditDisk :=
  match next_outcome d with
  | (AioFails _, d) => (Err io_error, d)
  | (AioDone, d) =>
      (let? numbers := segment_numbers (map_to_list (disk_files d)).*1 in
       let sorted := merge_sort N.le numbers in
       if negb (contiguous sorted)
       then Err (ledger_error AuditInteriorCorruption "audit segment sequence is not contiguous")
       else Ok sorted, d)
  end.

(** ** Scanning *)
Record AuditSegment := {
  sg_number : N;
  sg_first_sequence : N;
  sg_last_sequence : N;
  sg_terminal_hash : list byte;
  sg_bytes : N
}.
Record ScanState := {
  sc_previous : list byte;
  sc_expected : N;
  sc_records : list AuditRecordView;
  sc_record_segments : list N;
  sc_segments : list AuditSegment;
  sc_anchor : option (N * list byte);
  sc_checkpoints : list RetentionMetadata
}.
Definition scan_start : ScanState :=
  {| sc_previous := replicate 32 x00; sc_expected := 1; sc_records := []; sc_record_segments := [];
     sc_segments := []; sc_anchor := None; sc_checkpoints := [] |}.
Record ScanResult := {
  sr_records : list AuditRecordView;
  sr_record_segments : list N;
  sr_segments : list AuditSegment;
  sr_head : AuditLedgerHead;
  sr_last_hash : list byte;
  sr_current_segment_bytes : N;
  sr_recovered : bool
}.
Definition trailing_incomplete : AppError :=
  ledger_error AuditTrailingFrameIncomplete "audit trailing frame is incomplete".
Definition slice (from size : nat) (l : list byte) : list byte := take size (drop from l).

Section ledger.
  Context `{!SerdeJson} `{!Sha256}.

(** One turn of the scanning loop on the bytes from [offset] on, which are not empty: the frame is
    cut short ([None]), or the state after it and what follows it. *)
Definition scan_frame (o : AuditLedgerOptions) (first_segment number : N) (rest : list byte)
  (st : ScanState) : result AppError (option (ScanState * list byte)) :=
  if len rest <? HEADER_LEN + HASH_LEN then Ok None
  else if negb (bool_decide (slice 0 8 rest = MAGIC))
  then Err (ledger_error AuditInteriorCorruption "audit frame magic is invalid")
  else
  let version := from_be (slice 8 2 rest) in
  let flags := from_be (slice 10 2 rest) in
  let size := from_be (slice 12 4 rest) in
  let sequence := from_be (slice 16 8 rest) in
  let frame_previous := slice 24 32 rest in
  if negb (version =? FRAME_VERSION)
  then Err (ledger_error AuditUnsupportedVersion "audit frame version is unsupported")
  else if negb (flags =? 0)
  then Err (ledger_error AuditInteriorCorruption "audit frame flags are invalid")
  else
  let anchoring := bool_decide (sc_records st = []) && (1 <? first_segment) in
  let anchor := if anchoring then Some (sequence, frame_previous) else sc_anchor st in
  let expected := if anchoring then sequence else sc_expected st in
  let previous := if anchoring then frame_previous else sc_previous st in
  if negb (bool_decide (frame_previous = previous))
  then Err (ledger_error AuditChainMismatch "audit previous hash does not match")
  else if negb (sequence =? expected)
  then Err (ledger_error AuditSequenceInvalid "audit sequence is invalid")
  else if ao_max_payload_bytes o <? size
  then Err (ledger_error AuditRecordTooLarge "audit payload exceeds limit")
  else if ao_max_scan_records o <=? len (sc_records st)
  then Err (ledger_error AuditCapacityReached "audit startup record limit exceeded")
  else
  let size_nat := N.to_nat size in
  if len rest <? HEADER_LEN + size + HASH_LEN then Ok None
  else
  let payload := slice 56 size_nat rest in
  let hash := slice (56 + size_nat) 32 rest in
  let expected_frame := encode_frame sequence previous payload in
  if negb (bool_decide (drop (length expected_frame - 32) expected_frame = hash))
  then Err (ledger_error AuditChainMismatch "audit frame hash does not match")
  else
  let? (record, metadata) := decode_record_with_retention payload in
  match checked_add U64_MAX sequence 1 with
  | None => Err (ledger_error AuditSequenceInvalid "audit sequence overflow")
  | Some next =>
      Ok (Some ({| sc_previous := hash; sc_expected := next;
                   sc_records := sc_records st ++ [{| view_sequence := sequence; view_record := record |}];
                   sc_record_segments := sc_record_segments st ++ [number];
                   sc_segments := sc_segments st; sc_anchor := anchor;
                   sc_checkpoints := sc_checkpoints st ++ option_list metadata |},
                drop (88 + size_nat) rest))
  end.

(** The loop over one segment, with the bytes left at its end: none, or a frame cut short.  A turn
    takes at least 88 bytes, so the length of the segment is fuel enough. *)
Fixpoint scan_frames (fuel : nat) (o : AuditLedgerOptions) (first_segment number : N)
  (rest : list byte) (st : ScanState) : result AppError (ScanState * list byte) :=
  match rest, fuel with
  | [], _ => Ok (st, [])
  | _, O => Ok (st, rest)
  | _, S fuel =>
      match scan_frame o first_segment number rest st with
      | Err e => Err e
      | Ok None => Ok (st, rest)
      | Ok (Some (st, rest)) => scan_frames fuel o first_segment number rest st
      end
  end.

Definition push_segment (number : N) (start : ScanState) (bytes : N) (st : ScanState) : ScanState :=
  let fresh := drop (length (sc_records start)) (sc_records st) in
  {| sc_previous := sc_previous st; sc_expected := sc_expected st; sc_records := sc_records st;
     sc_record_segments := sc_record_segments st;
     sc_segments := sc_segments st ++
       [{| sg_number := number;
           sg_first_sequence := default (sc_expected start) (view_sequence <$> head fresh);
           sg_last_sequence := default 0 (view_sequence <$> last fresh);
           sg_terminal_hash := sc_previous st; sg_bytes := bytes |}];
     sc_anchor := sc_anchor st; sc_checkpoints := sc_checkpoints st |}.

Fixpoint scan_paths (paths : list N) (first_segment : N) (o : AuditLedgerOptions)
  (allow_recovery recovered : bool) (st : ScanState) (d : AuditDisk)
  : result AppError (ScanState * bool) * AuditDisk :=
  match paths with
  | [] => (Ok (st, recovered), d)
  | number :: more =>
      let! opened, d := open_private_segment (segment_path number) d in
      let! bytes, d := read_to_end opened d in
      match scan_frames (length bytes) o first_segment number bytes st with
      | Err e => (Err e, d)
      | Ok (st', rest) =>
          let is_last := bool_decide (more = []) in
          let valid := len bytes - len rest in
          if bool_decide (rest = [])
          then scan_paths more first_segment o allow_recovery recovered
                 (push_segment number st valid st') d
          else if negb allow_recovery || negb is_last then (Err trailing_incomplete, d)
          else
            let! _, d := truncate_trailing (segment_path number) valid d in
            let! _, d := sync_all sync_error d in
            scan_paths more first_segment o allow_recovery true (push_segment number st valid st') d
      end
  end.

Definition anchored (anchor : option (N * list byte)) (checkpoints : list RetentionMetadata) : bool :=
  match anchor with
  | None => true
  | Some (first_sequence, predecessor_hash) =>
      existsb (λ m, bool_decide (checked_add U64_MAX (rm_last_sequence m) 1 = Some first_sequence)
                    && bool_decide (rm_terminal_hash m = predecessor_hash)
                    && (rm_first_sequence m <=? rm_last_sequence m)) checkpoints
  end.

Definition scan_segments (paths : list N) (o : AuditLedgerOptions) (allow_recovery : bool)
  (d : AuditDisk) : result AppError ScanResult * AuditDisk :=
  let first_segment := default 0 (head paths) in
  let! (st, recovered), d := scan_paths paths first_segment o allow_recovery false scan_start d in
  if negb (anchored (sc_anchor st) (sc_checkpoints st))
  then (Err (ledger_error AuditChainMismatch "audit retention anchor has no valid checkpoint"), d)
  else
  (Ok {| sr_records := sc_records st; sr_record_segments := sc_record_segments st;
         sr_segments := sc_segments st;
         sr_head := {| head_generation := saturating_sub first_segment 1;
                       head_sequence := default 0 (view_sequence <$> last (sc_records st)) |};
         sr_last_hash := sc_previous st;
         sr_current_segment_bytes := default 0 (sg_bytes <$> last (sc_segments st));
         sr_recovered := recovered |}, d).

(** ** The ledger *)
Record FileAuditLedger := {
  fa_disk : AuditDisk;
  fa_records : list AuditRecordView;
  fa_record_segments : list N;
  fa_segments : list AuditSegment;
  fa_current_segment : N;
  fa_current_segment_bytes : N;
  fa_head : AuditLedgerHead;
  fa_last_hash : list byte;
  fa_options : AuditLedgerOptions;
  fa_state : AuditLedgerIoState
}.
Definition set_disk (d : AuditDisk) (l : FileAuditLedger) : FileAuditLedger :=
  {| fa_disk := d; fa_records := fa_records l; fa_record_segments := fa_record_segments l;
     fa_segments := fa_segments l; fa_current_segment := fa_current_segment l;
     fa_current_segment_bytes := fa_current_segment_bytes l; fa_head := fa_head l;
     fa_last_hash := fa_last_hash l; fa_options := fa_options l; fa_state := fa_state l |}.
Definition set_state (s : AuditLedgerIoState) (l : FileAuditLedger) : FileAuditLedger :=
  {| fa_disk := fa_disk l; fa_records := fa_records l; fa_record_segments := fa_record_segments l;
     fa_segments := fa_segments l; fa_current_segment := fa_current_segment l;
     fa_current_segment_bytes := fa_current_segment_bytes l; fa_head := fa_head l;
     fa_last_hash := fa_last_hash l; fa_options := fa_options l; fa_state := s |}.
Definition on_audit_disk {A} (f : AuditDisk → A * AuditDisk) (l : FileAuditLedger) : A * FileAuditLedger :=
  let (x, d) := f (fa_disk l) in (x, set_disk d l).

Definition advance (e : AuditLedgerIoEvent) (l : FileAuditLedger) : result AppError () * FileAuditLedger :=
  match ledger_io_transition (fa_state l) e with
  | Ok s => (Ok (), set_state s l)
  | Err error => (Err error, l)
  end.
Definition total_bytes (l : FileAuditLedger) : N := foldr N.add 0 (sg_bytes <$> fa_segments l).
Definition current_segment_path (l : FileAuditLedger) : list byte := segment_path (fa_current_segment l).

(** The bookkeeping after a synchronised frame. *)
Definition publish_frame (sequence : N) (record : AuditRecord) (frame : list byte) (l : FileAuditLedger)
  : FileAuditLedger :=
  let last_hash := drop (length frame - 32) frame in
  let bytes := fa_current_segment_bytes l + len frame in
  {| fa_disk := fa_disk l;
     fa_records := fa_records l ++ [{| view_sequence := sequence; view_record := record |}];
     fa_record_segments := fa_record_segments l ++ [fa_current_segment l];
     fa_segments :=
       match last (fa_segments l) with
       | None => []
       | Some s =>
           take (length (fa_segments l) - 1) (fa_segments l) ++
           [{| sg_number := sg_number s;
               sg_first_sequence := if sg_first_sequence s =? 0 then sequence else sg_first_sequence s;
               sg_last_sequence := sequence; sg_terminal_hash := last_hash; sg_bytes := bytes |}]
       end;
     fa_current_segment := fa_current_segment l; fa_current_segment_bytes := bytes;
     fa_head := {| head_generation := head_generation (fa_head l); head_sequence := sequence |};
     fa_last_hash := last_hash; fa_options := fa_options l; fa_state := fa_state l |}.

Definition append_encoded (record : AuditRecord) (payload : list byte) (l : FileAuditLedger)
  : result AppError AuditLedgerHead * FileAuditLedger :=
  match checked_add U64_MAX (head_sequence (fa_head l)) 1 with
  | None => (Err (AppError_new AuditSequenceInvalid "audit sequence overflow"), l)
  | Some sequence =>
      let! _, l := advance BeginEncoding l in
      let frame := encode_frame sequence (fa_last_hash l) payload in
      let! _, l := advance Encoded l in
      let (written, l) := on_audit_disk (write_frame (current_segment_path l) frame) l in
      if negb written then let! _, l := advance IoFailed l in (Err append_error, l)
      else
      let! _, l := advance Appended l in
      let (synced, l) := on_audit_disk (sync_all sync_error) l in
      if negb (is_ok synced) then let! _, l := advance IoFailed l in (Err sync_error, l)
      else
      let l := publish_frame sequence record frame l in
      let! _, l := advance Synced l in
      (Ok (fa_head l), l)
  end.

Definition rotate_segment (l : FileAuditLedger) : result AppError () * FileAuditLedger :=
  let! _, l := on_audit_disk (sync_all sync_error) l in
  match checked_add U64_MAX (fa_current_segment l) 1 with
  | None => (Err (AppError_new AuditCapacityReached "audit segment overflow"), l)
  | Some number =>
      let! _, l := on_audit_disk (open_private_segment (segment_path number)) l in
      let! _, l := on_audit_disk (sync_all sync_error) l in
      (Ok (), {| fa_disk := fa_disk l; fa_records := fa_records l;
                 fa_record_segments := fa_record_segments l;
                 fa_segments := fa_segments l ++
                   [{| sg_number := number; sg_first_sequence := 0; sg_last_sequence := 0;
                       sg_terminal_hash := fa_last_hash l; sg_bytes := 0 |}];
                 fa_current_segment := number; fa_current_segment_bytes := 0; fa_head := fa_head l;
                 fa_last_hash := fa_last_hash l; fa_options := fa_options l; fa_state := fa_state l |})
  end.

Definition retention_required (next_frame_bytes : N) (l : FileAuditLedger) : bool :=
  (ao_max_segments (fa_options l) <? len (fa_segments l))
  || (ao_max_total_bytes (fa_options l) <?
      saturating_add USIZE_MAX (total_bytes l) next_frame_bytes).

Definition retention_record (timestamp segment : N) : result AppError AuditRecord :=
  let? operation_id := parse_identifier (lit "retention-" ++ print_dec segment) in
  let? request_id := parse_identifier (lit "internal-" ++ print_dec segment) in
  let? target_id := parse_identifier (lit "ledger") in
  let record :=
    {| ar_version := 1; ar_kind := RetentionCheckpoint;
       ar_context := {| ctx_operation_id := operation_id; ctx_request_id := request_id;
                        ctx_actor_kind := ActorSystemRecovery; ctx_received_at := timestamp |};
       ar_action := ActRetentionCheckpoint; ar_target_kind := TkAuditLedger; ar_target_id := target_id;
       ar_before := None; ar_after := None; ar_outcome := Some Succeeded; ar_error := None |} in
  match record_validate record with Ok _ => Ok record | Err _ => Err corrupt end.
Definition recovery_record (context : AuditContext) : result AppError AuditRecord :=
  let? target_id := parse_identifier (lit "ledger") in
  let record :=
    {| ar_version := 1; ar_kind := KindSystemRecovery; ar_context := context;
       ar_action := SystemTrailingRecovery; ar_target_kind := TkAuditLedger; ar_target_id := target_id;
       ar_before := None; ar_after := None; ar_outcome := Some Succeeded; ar_error := None |} in
  match record_validate record with Ok _ => Ok record | Err _ => Err corrupt end.

(** The loop of [retain_for]: how many of the oldest segments go.  [removed] is the segments taken
    so far, [first] the first of all; the loop leaves at least one. *)
Fixpoint choose_removed (next_frame_bytes : N) (template : AuditRecord) (l : FileAuditLedger)
  (first : option AuditSegment) (remove_count removed_bytes : N) (segments : list AuditSegment)
  : result AppError (N * RetentionMetadata) :=
  match segments with
  | s :: ((_ :: _) as more) =>
      let removed_bytes := removed_bytes + sg_bytes s in
      let remove_count := remove_count + 1 in
      let first := default s first in
      let metadata := {| rm_first_sequence := sg_first_sequence first;
                         rm_last_sequence := sg_last_sequence s;
                         rm_terminal_hash := sg_terminal_hash s |} in
      let? payload := encode_record_with_retention template (Some metadata) in
      let checkpoint_bytes := HEADER_LEN + len payload + HASH_LEN in
      let segment_count_fits := len (fa_segments l) - remove_count <=? ao_max_segments (fa_options l) in
      let total_fits :=
        saturating_add USIZE_MAX
          (saturating_add USIZE_MAX (saturating_sub (total_bytes l) removed_bytes) checkpoint_bytes)
          next_frame_bytes <=? ao_max_total_bytes (fa_options l) in
      if segment_count_fits && total_fits then Ok (remove_count, metadata)
      else choose_removed next_frame_bytes template l (Some first) remove_count removed_bytes more
  | _ => Err (AppError_new AuditCapacityReached "audit retention bounds cannot be satisfied")
  end.

Fixpoint remove_files (segments : list AuditSegment) (d : AuditDisk) : result AppError () * AuditDisk :=
  match segments with
  | [] => (Ok (), d)
  | s :: more => let! _, d := remove_file (segment_path (sg_number s)) d in remove_files more d
  end.

Definition drop_segments (count : N) (l : FileAuditLedger) : FileAuditLedger :=
  {| fa_disk := fa_disk l; fa_records := fa_records l; fa_record_segments := fa_record_segments l;
     fa_segments := drop (N.to_nat count) (fa_segments l); fa_current_segment := fa_current_segment l;
     fa_current_segment_bytes := fa_current_segment_bytes l; fa_head := fa_head l;
     fa_last_hash := fa_last_hash l; fa_options := fa_options l; fa_state := fa_state l |}.
Definition forget_records (removed : list N) (l : FileAuditLedger) : FileAuditLedger :=
  let kept := filter (λ p : AuditRecordView * N, p.2 ∉ removed)
                (zip (fa_records l) (fa_record_segments l)) in
  {| fa_disk := fa_disk l; fa_records := kept.*1;
     fa_record_segments := filter (λ n, n ∉ removed) (fa_record_segments l);
     fa_segments := fa_segments l; fa_current_segment := fa_current_segment l;
     fa_current_segment_bytes := fa_current_segment_bytes l;
     fa_head := {| head_generation := match head (fa_segments l) with
                                      | Some s => saturating_sub (sg_number s) 1 | None => 0 end;
                   head_sequence := head_sequence (fa_head l) |};
     fa_last_hash := fa_last_hash l; fa_options := fa_options l; fa_state := fa_state l |}.

Definition retain_for (next_frame_bytes timestamp : N) (l : FileAuditLedger)
  : result AppError () * FileAuditLedger :=
  match retention_record timestamp (fa_current_segment l) with
  | Err e => (Err e, l)
  | Ok template =>
  match choose_removed next_frame_bytes template l None 0 0 (fa_segments l) with
  | Err e => (Err e, l)
  | Ok (remove_count, metadata) =>
  match encode_record_with_retention template (Some metadata) with
  | Err e => (Err e, l)
  | Ok payload =>
      let checkpoint_bytes := HEADER_LEN + len payload + HASH_LEN in
      if (ao_max_total_bytes (fa_options l) <? checkpoint_bytes + next_frame_bytes)
         || (ao_max_segment_bytes (fa_options l) <? checkpoint_bytes)
      then (Err (AppError_new AuditCapacityReached
                   "audit retention checkpoint exceeds storage bounds"), l)
      else
      let! _, l := append_encoded template payload l in
      let! _, l := on_audit_disk (sync_all sync_error) l in
      let removed := take (N.to_nat remove_count) (fa_segments l) in
      let l := drop_segments remove_count l in
      let! _, l := on_audit_disk (remove_files removed) l in
      let! _, l := on_audit_disk (sync_all sync_error) l in
      (Ok (), forget_records (sg_number <$> removed) l)
  end
  end
  end.

(** The results of [maintenance.transition] are only the [?] on them. *)
Definition prepare_storage (next_frame_bytes timestamp : N) (l : FileAuditLedger)
  : result AppError () * FileAuditLedger :=
  if (fa_current_segment_bytes l =? 0)
     || (fa_current_segment_bytes l + next_frame_bytes <=? ao_max_segment_bytes (fa_options l))
  then (Ok (), l)
  else
  match maintenance_transition MtReady RequireRotation with
  | Err e => (Err e, l)
  | Ok maintenance =>
  match rotate_segment l with
  | (Err error, l) => (Err error, set_state IoDegraded l)
  | (Ok _, l) =>
  match maintenance_transition maintenance PublishSegment with
  | Err e => (Err e, l)
  | Ok maintenance =>
      let finish maintenance l :=
        match maintenance_transition maintenance Finish with
        | Ok _ => (Ok (), l)
        | Err e => (Err e, l)
        end in
      if retention_required next_frame_bytes l
      then
        match maintenance_transition maintenance RequireRetention with
        | Err e => (Err e, l)
        | Ok maintenance =>
        match retain_for next_frame_bytes timestamp l with
        | (Err error, l) => (Err error, set_state IoDegraded l)
        | (Ok _, l) =>
            match (let? m := maintenance_transition maintenance SyncCheckpoint in
                   maintenance_transition m RemoveSegments) with
            | Err e => (Err e, l)
            | Ok maintenance => finish maintenance l
            end
        end
        end
      else finish maintenance l
  end
  end
  end.

Definition append (record : AuditRecord) (l : FileAuditLedger)
  : result AppError AuditLedgerHead * FileAuditLedger :=
  if bool_decide (fa_state l = IoDegraded) || bool_decide (fa_state l = IoFailedClosed)
  then (Err (AppError_new AuditUnavailable "audit ledger is not writable"), l)
  else match record_validate record with
  | Err _ => (Err (AppError_new AuditRecordInvalid "audit record invariant is invalid"), l)
  | Ok _ =>
  match encode_record record with
  | Err e => (Err e, l)
  | Ok payload =>
      if ao_max_payload_bytes (fa_options l) <? len payload
      then (Err (AppError_new AuditRecordTooLarge "audit payload exceeds limit"), l)
      else
      let frame_bytes := HEADER_LEN + len payload + HASH_LEN in
      if ao_max_segment_bytes (fa_options l) <? frame_bytes
      then (Err (AppError_new AuditRecordTooLarge "audit frame exceeds segment limit"), l)
      else
      let! _, l := prepare_storage frame_bytes (ctx_received_at (ar_context record)) l in
      append_encoded record payload l
  end
  end.

Definition options_refused (o : AuditLedgerOptions) : bool :=
  (ao_max_payload_bytes o =? 0) || (MAX_PAYLOAD_BYTES <? ao_max_payload_bytes o)
  || (ao_max_scan_records o =? 0) || (MAX_SCAN_RECORDS <? ao_max_scan_records o)
  || (ao_max_segment_bytes o <? HEADER_LEN + HASH_LEN + 1)
  || (MAX_SEGMENT_BYTES <? ao_max_segment_bytes o)
  || (ao_max_segments o =? 0) || (MAX_SEGMENTS <? ao_max_segments o)
  || (ao_max_total_bytes o <? ao_max_segment_bytes o) || (MAX_TOTAL_BYTES <? ao_max_total_bytes o)
  || match ao_recovery_context o with
     | Some context => bool_decide (ctx_actor_kind context ≠ ActorSystemRecovery)
     | None => false
     end.

(** A ledger that could not be opened leaves the directory; one that was opened owns it. *)
Definition open_ledger (o : AuditLedgerOptions) (d : AuditDisk)
  : result AppError FileAuditLedger * AuditDisk :=
  if options_refused o
  then (Err (AppError_new AuditRecordInvalid "audit ledger bounds must be positive"), d)
  else
  let! _, d := prepare_private_directory d in
  let! _, d := match next_outcome d with
               | (AioDone, d) => (Ok (), d)
               | (AioFails _, d) => (Err io_error, d)
               end in
  let! found, d := discover_segments d in
  let paths := if bool_decide (found = []) then [1] else found in
  let! scan, d := scan_segments paths o (negb (is_none (ao_recovery_context o))) d in
  let current_segment := default 0 (last paths) in
  let! _, d := open_private_segment (segment_path current_segment) d in
  let! _, d := sync_all sync_error d in
  let ledger := {| fa_disk := d; fa_records := sr_records scan;
                   fa_record_segments := sr_record_segments scan; fa_segments := sr_segments scan;
                   fa_current_segment := current_segment;
                   fa_current_segment_bytes := sr_current_segment_bytes scan; fa_head := sr_head scan;
                   fa_last_hash := sr_last_hash scan; fa_options := o;
                   fa_state := if sr_recovered scan then Recovering else IoReady |} in
  if sr_recovered scan
  then match ao_recovery_context o with
       | None => (Err corrupt, d)
       | Some context =>
           match recovery_record context with
           | Err e => (Err e, d)
           | Ok record =>
               match append record ledger with
               | (Ok _, ledger) => (Ok ledger, fa_disk ledger)
               | (Err e, ledger) => (Err e, fa_disk ledger)
               end
           end
       end
  else (Ok ledger, d).

(** ** Reading *)
Definition opt_is_none_or {A} (P : A → bool) (o : option A) : bool :=
  match o with None => true | Some x => P x end.
Definition matches_query (q : AuditQuery) (before : N) (v : AuditRecordView) : bool :=
  (view_sequence v <? before)
  && opt_is_none_or (λ a, bool_decide (a = ar_action (view_record v))) (q_action q)
  && opt_is_none_or (λ o, bool_decide (Some o = ar_outcome (view_record v))) (q_outcome q)
  && opt_is_none_or (λ k, bool_decide (k = ar_target_kind (view_record v))) (q_target_kind q)
  && opt_is_none_or (λ t, t <=? ctx_received_at (ar_context (view_record v))) (q_from q)
  && opt_is_none_or (λ t, ctx_received_at (ar_context (view_record v)) <=? t) (q_to q).

Definition file_query (q : AuditQuery) (l : FileAuditLedger) : result AppError AuditPage :=
  if match q_cursor q with
     | Some c => negb (cur_generation c =? head_generation (fa_head l)) || (cur_before c =? 0)
                 || (saturating_add U64_MAX (head_sequence (fa_head l)) 1 <? cur_before c)
     | None => false
     end
  then Err (AppError_new AuditCursorInvalid "audit cursor is stale or outside the retained range")
  else
  let before := match q_cursor q with Some c => cur_before c | None => U64_MAX end in
  let records := take (N.to_nat (q_limit q))
                   (List.filter (matches_query q before) (rev (fa_records l))) in
  let next_cursor :=
    match last records with
    | None => None
    | Some oldest =>
        if existsb (λ v, view_sequence v <? view_sequence oldest) (fa_records l)
        then Some {| cur_generation := head_generation (fa_head l); cur_before := view_sequence oldest |}
        else None
    end in
  Ok {| page_records := records; page_next_cursor := next_cursor; page_head := fa_head l;
        page_admission_state := Healthy |}.

Definition operation_of_record (r : AuditRecord) : AuditIdentifier := ctx_operation_id (ar_context r).
Definition track_open (open : gset AuditIdentifier) (r : AuditRecord) : gset AuditIdentifier :=
  match ar_kind r with
  | Intent => {[operation_of_record r]} ∪ open
  | Terminal | Reconciliation => open ∖ {[operation_of_record r]}
  | _ => open
  end.
Definition open_after (records : list AuditRecord) : gset AuditIdentifier := foldl track_open ∅ records.
Definition file_incomplete_operations (l : FileAuditLedger) : result AppError (list AuditRecord) :=
  let records := view_record <$> fa_records l in
  let open := open_after records in
  Ok (List.filter (λ r, bool_decide (ar_kind r = Intent) && bool_decide (operation_of_record r ∈ open))
        records).

(** [into_values] lists a [BTreeMap] in the order of its keys. *)
Definition track_unresolved (m : gmap AuditIdentifier AuditRecord) (r : AuditRecord)
  : gmap AuditIdentifier AuditRecord :=
  match ar_kind r, ar_outcome r with
  | Reconciliation, Some ReconciliationUnknown => <[operation_of_record r := r]> m
  | Reconciliation, Some (ReconciledCommitted | ReconciledNotCommitted) =>
      delete (operation_of_record r) m
  | _, _ => m
  end.
Definition unresolved_after (records : list AuditRecord) : gmap AuditIdentifier AuditRecord :=
  foldl track_unresolved ∅ records.
Definition file_unresolved_reconciliations (l : FileAuditLedger) : result AppError (list AuditRecord) :=
  let m := unresolved_after (view_record <$> fa_records l) in
  Ok (omap (λ k, m !! k) (sort_bytes (map_to_list m).*1)).

Definition file_verify (l : FileAuditLedger) : result AppError AuditVerificationReport * FileAuditLedger :=
  if U16_MAX <? len (fa_segments l)
  then (Err (AppError_new AuditCapacityReached "audit segment count exceeds report bounds"), l)
  else
  (let? incomplete := file_incomplete_operations l in
   Ok {| vr_head := fa_head l; vr_record_count := len (fa_records l);
         vr_segment_count := len (fa_segments l);
         vr_incomplete_operation_count := len incomplete mod (U16_MAX + 1) |}, l).

(** ** Writing *)
Definition expect_head (expected : AuditLedgerHead) (l : FileAuditLedger) : result AppError () :=
  if bool_decide (expected ≠ fa_head l)
  then Err (AppError_new AuditRecordInvalid "audit head mismatch") else Ok ().
Definition append_expecting (record : AuditRecord) (expected : AuditLedgerHead) (l : FileAuditLedger)
  : result AppError AuditLedgerHead * FileAuditLedger :=
  match expect_head expected l with
  | Err e => (Err e, l)
  | Ok _ => append record l
  end.

#[global] Instance file_writer : AuditLedgerWriter FileAuditLedger := {
  append_intent := append;
  append_terminal := append_expecting;
  append_reconciliation := append_expecting;
  append_security_observation := append
}.
#[global] Instance file_reader : AuditLedgerReader FileAuditLedger := {
  ledger_query := file_query;
  incomplete_operations := file_incomplete_operations;
  unresolved_reconciliations := file_unresolved_reconciliations;
  ledger_head l := Ok (fa_head l)
}.
#[global] Instance file_verifier : AuditLedgerVerifier FileAuditLedger := file_verify.

(** The provenance of a restored data directory (apps use it after a restore). *)
Definition append_restore_provenance (record : AuditRecord) (d : AuditDisk)
  : result AppError AuditLedgerHead * AuditDisk :=
  match open_ledger AuditLedgerOptions_default d with
  | (Err e, d) => (Err e, d)
  | (Ok l, _) => let (r, l) := append_expecting record (fa_head l) l in (r, fa_disk l)
  end.
End ledger.
