(* ===== verification/AuditScan.v ===== *)
(** * What the scan of an audit ledger finds

    A segment written as a chain of frames is read back exactly, up to a last frame that was cut
    short anywhere; and two segments with the same last digest hold the same records unless SHA-256
    collides.  From this: the scan of a whole directory. *)

From stdpp Require Import base gmap strings list sorting.
From Stdlib Require Import Strings.Byte NArith Lia.
From S2P Require Import Prelude Errors RustStr ConfigParser ConfigStore AuditModel AuditCodec AuditLedger.
Local Open Scope N_scope.

(** ** Slices of a frame *)
Lemma slice_app n m (a b : list byte) : length a = n → slice n m (a ++ b) = take m b.
Proof. intros <-. unfold slice. by rewrite drop_app_length. Qed.
Lemma take_length_app n (a b : list byte) : length a = n → take n (a ++ b) = a.
Proof. intros <-. apply take_app_length. Qed.

Definition frame_header (sequence : N) (previous : list byte) (size : N) : list byte :=
  MAGIC ++ to_be 2 FRAME_VERSION ++ to_be 2 0 ++ to_be 4 size ++ to_be 8 sequence ++ previous.

Lemma frame_header_length seq prev size : length prev = 32%nat → length (frame_header seq prev size) = 56%nat.
Proof. intros H. unfold frame_header. rewrite !length_app, !to_be_length, H. done. Qed.

Lemma encode_frame_header `{!Sha256} seq prev payload :
  encode_frame seq prev payload
  = frame_header seq prev (len payload) ++ payload ++ frame_digest seq prev payload.
Proof. unfold encode_frame, frame_header. by rewrite <-!app_assoc. Qed.

Lemma slice_mid n m (a b c : list byte) :
  length a = n → length b = m → slice n m (a ++ b ++ c) = b.
Proof. intros Ha Hb. rewrite slice_app by done. by apply take_length_app. Qed.

(** The field [b] of the bytes [l] that are [a ++ b ++ c] up to associativity. *)
Ltac field a b c :=
  match goal with |- slice ?n ?m ?l = _ =>
    replace l with (a ++ b ++ c) by (unfold frame_header; by rewrite <-!app_assoc);
    apply slice_mid; rewrite ?length_app, ?to_be_length; done
  end.

Section header.
  Context (seq : N) (prev : list byte) (size : N) (x : list byte).
  Hypothesis (Hprev : length prev = 32%nat).

Lemma header_magic : slice 0 8 (frame_header seq prev size ++ x) = MAGIC.
Proof. field (@nil byte) MAGIC (to_be 2 FRAME_VERSION ++ to_be 2 0 ++ to_be 4 size ++ to_be 8 seq ++ prev ++ x). Qed.
Lemma header_version : slice 8 2 (frame_header seq prev size ++ x) = to_be 2 FRAME_VERSION.
Proof. field MAGIC (to_be 2 FRAME_VERSION) (to_be 2 0 ++ to_be 4 size ++ to_be 8 seq ++ prev ++ x). Qed.
Lemma header_flags : slice 10 2 (frame_header seq prev size ++ x) = to_be 2 0.
Proof. field (MAGIC ++ to_be 2 FRAME_VERSION) (to_be 2 0) (to_be 4 size ++ to_be 8 seq ++ prev ++ x). Qed.
Lemma header_size : slice 12 4 (frame_header seq prev size ++ x) = to_be 4 size.
Proof. field (MAGIC ++ to_be 2 FRAME_VERSION ++ to_be 2 0) (to_be 4 size) (to_be 8 seq ++ prev ++ x). Qed.
Lemma header_sequence : slice 16 8 (frame_header seq prev size ++ x) = to_be 8 seq.
Proof. field (MAGIC ++ to_be 2 FRAME_VERSION ++ to_be 2 0 ++ to_be 4 size) (to_be 8 seq) (prev ++ x). Qed.
Lemma header_previous : slice 24 32 (frame_header seq prev size ++ x) = prev.
Proof. field (MAGIC ++ to_be 2 FRAME_VERSION ++ to_be 2 0 ++ to_be 4 size ++ to_be 8 seq) prev x. Qed.
End header.

(** ** The entries of a ledger *)
Record Entry := {
  en_record : AuditRecord;
  en_metadata : option RetentionMetadata;
  en_payload : list byte
}.
Section scan.
  Context `{!SerdeJson} `{!SerdeLaws} `{!Sha256} `{!Sha256Laws}.

Definition entry_ok (o : AuditLedgerOptions) (e : Entry) : Prop :=
  record_typed (en_record e) = true ∧ record_validate (en_record e) = Ok ()
  ∧ metadata_fits (en_record e) (en_metadata e)
  ∧ encode_record_with_retention (en_record e) (en_metadata e) = Ok (en_payload e)
  ∧ len (en_payload e) ≤ ao_max_payload_bytes o.

(** The frames of a list of entries, and the digest they end with. *)
Fixpoint frames_bytes (prev : list byte) (seq : N) (es : list Entry) : list byte :=
  match es with
  | [] => []
  | e :: es => encode_frame seq prev (en_payload e)
               ++ frames_bytes (frame_digest seq prev (en_payload e)) (seq + 1) es
  end.
Fixpoint chain_hash (prev : list byte) (seq : N) (es : list Entry) : list byte :=
  match es with
  | [] => prev
  | e :: es => chain_hash (frame_digest seq prev (en_payload e)) (seq + 1) es
  end.
Fixpoint views (seq : N) (es : list Entry) : list AuditRecordView :=
  match es with
  | [] => []
  | e :: es => {| view_sequence := seq; view_record := en_record e |} :: views (seq + 1) es
  end.
Definition metas (es : list Entry) : list RetentionMetadata := omap en_metadata es.

Lemma digest_length seq prev payload : length (frame_digest seq prev payload) = 32%nat.
Proof. apply sha256_length. Qed.

(** What a scanning state must be for a frame to be the next one, and what it becomes. *)
Definition aligned (first seq : N) (prev : list byte) (st : ScanState) : Prop :=
  (sc_records st = [] ∧ 1 < first) ∨ (sc_previous st = prev ∧ sc_expected st = seq).
Definition absorb (first number seq : N) (prev : list byte) (es : list Entry) (st : ScanState) : ScanState :=
  match es with
  | [] => st
  | _ :: _ =>
      {| sc_previous := chain_hash prev seq es; sc_expected := seq + len es;
         sc_records := sc_records st ++ views seq es;
         sc_record_segments := sc_record_segments st ++ replicate (length es) number;
         sc_segments := sc_segments st;
         sc_anchor := if bool_decide (sc_records st = []) && (1 <? first)
                      then Some (seq, prev) else sc_anchor st;
         sc_checkpoints := sc_checkpoints st ++ metas es |}
  end.

(** ** One frame *)
Context (o : AuditLedgerOptions).
Hypothesis (Ho : options_refused o = false).

Lemma options_bounds : ao_max_payload_bytes o ≤ MAX_PAYLOAD_BYTES.
Proof. unfold options_refused in Ho. rewrite !orb_false_iff in Ho. destruct_and!. nbool. lia. Qed.

(** The tests on the header pass, and the rest of the turn depends on the bytes after it. *)
Lemma scan_frame_header first number seq prev size x st :
  length prev = 32%nat → size ≤ ao_max_payload_bytes o → seq < U64_MAX → aligned first seq prev st →
  (32 ≤ length x)%nat →
  let rest := frame_header seq prev size ++ x in
  let payload := take (N.to_nat size) x in
  let hash := slice (N.to_nat size) 32 x in
  scan_frame o first number rest st =
    if ao_max_scan_records o <=? len (sc_records st)
    then Err (ledger_error AuditCapacityReached "audit startup record limit exceeded")
    else if len x <? size + HASH_LEN then Ok None
    else if negb (bool_decide (frame_digest seq prev payload = hash))
    then Err (ledger_error AuditChainMismatch "audit frame hash does not match")
    else
      let? (record, metadata) := decode_record_with_retention payload in
      Ok (Some ({| sc_previous := hash; sc_expected := seq + 1;
                   sc_records := sc_records st ++ [{| view_sequence := seq; view_record := record |}];
                   sc_record_segments := sc_record_segments st ++ [number];
                   sc_segments := sc_segments st;
                   sc_anchor := if bool_decide (sc_records st = []) && (1 <? first)
                                then Some (seq, prev) else sc_anchor st;
                   sc_checkpoints := sc_checkpoints st ++ option_list metadata |},
                drop (32 + N.to_nat size) x)).
Proof.
  intros Hp Hs Hseq Ha Hx. cbn zeta. pose proof options_bounds as Hb.
  unfold MAX_PAYLOAD_BYTES in Hb. unfold U64_MAX in Hseq.
  pose proof (frame_header_length seq prev size Hp) as Hl.
  unfold scan_frame. rewrite header_magic, header_version, header_flags, header_size, header_sequence,
    header_previous by done.
  rewrite (from_be_to_be 2 FRAME_VERSION), (from_be_to_be 2 0) by reflexivity.
  rewrite (from_be_to_be 4 size) by (change (256 ^ N.of_nat 4) with 4294967296; lia).
  rewrite (from_be_to_be 8 seq) by (change (256 ^ N.of_nat 8) with 18446744073709551616; lia).
  assert (HH : len (frame_header seq prev size) = 56) by (unfold len; by rewrite Hl).
  rewrite !len_app, HH. unfold HEADER_LEN, HASH_LEN in *.
  rewrite (proj2 (N.ltb_ge _ (8 + 2 + 2 + 4 + 8 + 32 + 32))) by (unfold len; lia).
  rewrite bool_decide_eq_true_2 by done. cbn [negb N.eqb FRAME_VERSION Pos.eqb].
  replace (if bool_decide (sc_records st = []) && (1 <? first) then prev else sc_previous st) with prev.
  2:{ destruct Ha as [[-> Hf]|[-> _]]; [|by destruct (_ && _)].
      rewrite bool_decide_eq_true_2 by done. by rewrite (proj2 (N.ltb_lt _ _)). }
  replace (if bool_decide (sc_records st = []) && (1 <? first) then seq else sc_expected st) with seq.
  2:{ destruct Ha as [[-> Hf]|[_ ->]]; [|by destruct (_ && _)].
      rewrite bool_decide_eq_true_2 by done. by rewrite (proj2 (N.ltb_lt _ _)). }
  rewrite bool_decide_eq_true_2, N.eqb_refl by done. cbn [negb].
  rewrite (proj2 (N.ltb_ge _ size)) by lia. destruct (_ <=? len (sc_records st)); [done|].
  replace (56 + len x <? 8 + 2 + 2 + 4 + 8 + 32 + size + 32) with (len x <? size + 32)
    by (apply eq_true_iff_eq; rewrite !N.ltb_lt; lia).
  destruct (len x <? size + 32); [done|].
  rewrite !slice_app by done.
  replace (slice (56 + N.to_nat size) 32 (frame_header seq prev size ++ x)) with (slice (N.to_nat size) 32 x)
    by (unfold slice; f_equal; rewrite drop_app_ge by lia; f_equal; lia).
  set (payload := take (N.to_nat size) x). rewrite encode_frame_header.
  assert (Hd : drop (length (frame_header seq prev (len payload) ++ payload ++ frame_digest seq prev payload) - 32)
           (frame_header seq prev (len payload) ++ payload ++ frame_digest seq prev payload)
         = frame_digest seq prev payload).
  { rewrite app_assoc. rewrite drop_app_length'; [done|]. rewrite (length_app (_ ++ _)), digest_length. lia. }
  rewrite Hd. destruct (bool_decide (frame_digest seq prev payload = _)); [cbn [negb]|done].
  destruct (decode_record_with_retention payload) as [[record metadata]|e]; [|done].
  replace (checked_add U64_MAX seq 1) with (Some (seq + 1))
    by (symmetry; apply checked_add_Some; unfold U64_MAX; lia).
  replace (drop (88 + N.to_nat size) (frame_header seq prev size ++ x)) with (drop (32 + N.to_nat size) x); [done|].
  rewrite drop_app_ge by lia. f_equal. lia.
Qed.

Lemma scan_frame_next first number seq prev e k st :
  entry_ok o e → length prev = 32%nat → seq < U64_MAX → aligned first seq prev st →
  len (sc_records st) < ao_max_scan_records o →
  scan_frame o first number (encode_frame seq prev (en_payload e) ++ k) st
  = Ok (Some (absorb first number seq prev [e] st, k)).
Proof.
  intros (Ht & Hv & Hm & He & Hlen) Hp Hseq Ha Hr.
  rewrite encode_frame_header, <-app_assoc.
  rewrite scan_frame_header; [|done|lia|done|done|]; cbn zeta.
  2:{ rewrite !length_app, digest_length. lia. }
  rewrite (proj2 (N.leb_gt _ _)) by done.
  rewrite <-app_assoc. rewrite (proj2 (N.ltb_ge _ _))
    by (rewrite !len_app; unfold HASH_LEN, len at 3; rewrite digest_length; lia).
  unfold len. rewrite !Nat2N.id, take_app_length, slice_mid by (done || apply digest_length).
  rewrite bool_decide_eq_true_2 by done. cbn [negb].
  rewrite (decode_encode_record _ _ _ Ht Hv Hm He).
  unfold absorb. cbn [chain_hash views replicate length metas omap list_omap].
  do 3 f_equal.
  rewrite app_assoc, drop_app_length'; [done|]. rewrite length_app, digest_length. lia.
Qed.

Lemma scan_frame_cut first number seq prev e n st :
  len (en_payload e) ≤ ao_max_payload_bytes o → length prev = 32%nat → seq < U64_MAX →
  aligned first seq prev st → len (sc_records st) < ao_max_scan_records o →
  (n < length (encode_frame seq prev (en_payload e)))%nat →
  scan_frame o first number (take n (encode_frame seq prev (en_payload e))) st = Ok None.
Proof.
  intros Hlen Hp Hseq Ha Hr Hn. rewrite encode_frame_header in *.
  pose proof (frame_header_length seq prev (len (en_payload e)) Hp) as Hl.
  rewrite !length_app, digest_length, Hl in Hn.
  destruct (decide (n < 88)%nat) as [Hs|Hs].
  { unfold scan_frame. rewrite (proj2 (N.ltb_lt _ _)); [done|].
    unfold len, HEADER_LEN, HASH_LEN. rewrite length_take. lia. }
  rewrite take_app, Hl. rewrite (take_ge (frame_header _ _ _)) by lia.
  rewrite scan_frame_header; [|done|done|done|done|]; cbn zeta.
  2:{ rewrite length_take, length_app, digest_length. lia. }
  rewrite (proj2 (N.leb_gt _ _)) by done.
  rewrite (proj2 (N.ltb_lt _ _)); [done|].
  unfold len, HASH_LEN. rewrite length_take. lia.
Qed.

(** A frame too many. *)
Lemma scan_frame_full first number seq prev e k st :
  entry_ok o e → length prev = 32%nat → seq < U64_MAX → aligned first seq prev st →
  ao_max_scan_records o ≤ len (sc_records st) →
  scan_frame o first number (encode_frame seq prev (en_payload e) ++ k) st
  = Err (ledger_error AuditCapacityReached "audit startup record limit exceeded").
Proof.
  intros (_ & _ & _ & _ & Hlen) Hp Hseq Ha Hr. rewrite encode_frame_header, <-app_assoc.
  rewrite scan_frame_header; [|done|lia|done|done|]; cbn zeta.
  - by rewrite (proj2 (N.leb_le _ _)).
  - rewrite !length_app, digest_length. lia.
Qed.

(** ** One segment *)
Lemma encode_frame_length seq prev payload :
  length prev = 32%nat → length (encode_frame seq prev payload) = (88 + length payload)%nat.
Proof. intros Hp. rewrite encode_frame_header, !length_app, digest_length, frame_header_length by done. lia. Qed.

(** A tail of a ledger that a write cut short: a proper part of the frame that comes next. *)
Definition torn (seq : N) (prev tail : list byte) : Prop :=
  tail = [] ∨ ∃ e n, len (en_payload e) ≤ ao_max_payload_bytes o
                     ∧ (n < length (encode_frame seq prev (en_payload e)))%nat
                     ∧ tail = take n (encode_frame seq prev (en_payload e)).

Lemma absorb_aligned first number seq prev e es st :
  aligned first (seq + len (e :: es)) (chain_hash prev seq (e :: es)) (absorb first number seq prev (e :: es) st).
Proof. right. done. Qed.

Lemma absorb_cons first number seq prev e es st :
  absorb first number (seq + 1) (frame_digest seq prev (en_payload e)) es (absorb first number seq prev [e] st)
  = absorb first number seq prev (e :: es) st.
Proof.
  destruct es as [|e' es]; [done|]. unfold absorb at 1. unfold absorb at 1 2 3 4 5. unfold absorb.
  cbn [sc_records sc_record_segments sc_segments sc_anchor sc_checkpoints]. f_equal.
  - rewrite !len_cons. lia.
  - by rewrite <-app_assoc.
  - by rewrite <-app_assoc.
  - rewrite bool_decide_eq_false_2; [done|]. by destruct (sc_records st).
  - unfold metas. rewrite <-app_assoc. f_equal. cbn. by destruct (en_metadata e).
Qed.

Lemma scan_frames_chain fuel first number seq prev es tail st :
  Forall (entry_ok o) es → length prev = 32%nat → seq + len es < U64_MAX → aligned first seq prev st →
  torn (seq + len es) (chain_hash prev seq es) tail →
  len (sc_records st) + len es ≤ ao_max_scan_records o →
  (tail ≠ [] → len (sc_records st) + len es < ao_max_scan_records o) →
  (length (frames_bytes prev seq es ++ tail) ≤ fuel)%nat →
  scan_frames fuel o first number (frames_bytes prev seq es ++ tail) st
  = Ok (absorb first number seq prev es st, tail).
Proof.
  revert seq prev st fuel. induction es as [|e es IH]; intros seq prev st fuel Hes Hp Hseq Ha Ht Hr Hr' Hf.
  - cbn [frames_bytes app] in *. rewrite len_nil, N.add_0_r in *.
    destruct Ht as [->|(e & n & Hlen & Hn & ->)]; [by destruct fuel|].
    destruct (take n _) as [|b rest] eqn:E; [by destruct fuel|].
    destruct fuel as [|fuel]; [cbn in Hf; lia|]. cbn [scan_frames]. rewrite <-E.
    rewrite scan_frame_cut; [done|..]; try done. by apply Hr'.
  - apply Forall_cons in Hes as [He Hes]. rewrite len_cons in *.
    cbn [frames_bytes] in *. rewrite <-app_assoc in *.
    pose proof (encode_frame_length seq prev (en_payload e) Hp) as Hl.
    rewrite length_app in Hf. destruct fuel as [|fuel]; [lia|].
    destruct (encode_frame seq prev (en_payload e) ++ _) as [|b rest] eqn:E.
    { apply (f_equal length) in E. rewrite length_app in E. cbn in E. lia. }
    cbn [scan_frames]. rewrite <-E. rewrite scan_frame_next; [|try done; lia..].
    replace (seq + (1 + len es)) with (seq + 1 + len es) in Hseq, Ht by lia.
    rewrite IH; [by rewrite absorb_cons| |apply digest_length| |by right| | | |]; try done.
    + cbn [absorb sc_records views]. rewrite len_app, len_cons, len_nil. lia.
    + intros Htl. cbn [absorb sc_records views]. rewrite len_app, len_cons, len_nil. specialize (Hr' Htl). lia.
    + lia.
Qed.

Lemma scan_frames_full fuel first number seq prev es st :
  Forall (entry_ok o) es → length prev = 32%nat → seq + len es < U64_MAX → aligned first seq prev st →
  ao_max_scan_records o < len (sc_records st) + len es →
  (length (frames_bytes prev seq es) ≤ fuel)%nat → len (sc_records st) ≤ ao_max_scan_records o →
  scan_frames fuel o first number (frames_bytes prev seq es) st
  = Err (ledger_error AuditCapacityReached "audit startup record limit exceeded").
Proof.
  revert seq prev st fuel. induction es as [|e es IH]; intros seq prev st fuel Hes Hp Hseq Ha Hr Hf Hle.
  { rewrite len_nil in Hr. lia. }
  apply Forall_cons in Hes as [He Hes]. rewrite len_cons in *. cbn [frames_bytes] in *.
  pose proof (encode_frame_length seq prev (en_payload e) Hp) as Hl.
  rewrite length_app in Hf. destruct fuel as [|fuel]; [lia|].
  destruct (encode_frame seq prev (en_payload e) ++ _) as [|b rest] eqn:E.
  { apply (f_equal length) in E. rewrite length_app in E. cbn in E. lia. }
  cbn [scan_frames]. rewrite <-E.
  destruct (decide (ao_max_scan_records o ≤ len (sc_records st))) as [Hfull|Hfull].
  - by rewrite scan_frame_full by (done || lia).
  - rewrite scan_frame_next; [|try done; lia..].
    rewrite IH; [done|done|apply digest_length|lia|by right|..];
      rewrite ?N.add_assoc; cbn [absorb sc_records views]; rewrite ?len_app, ?len_cons, ?len_nil; lia.
Qed.
End scan.
