(* ===== verification/AuditRecovery.v ===== *)
(** * Opening an audit ledger

    A directory that holds a chain of segments is opened with exactly the records of the chain;
    when the last write was cut short, wherever, opening removes the part and adds the recovery
    record. *)

From stdpp Require Import base gmap strings list sorting.
From Stdlib Require Import Strings.Byte NArith Lia.
From S2P Require Import Prelude Errors RustStr ConfigParser ConfigStore AuditModel AuditCodec AuditLedger AuditScan.
Local Open Scope N_scope.

(** ** Segment names *)
Definition segment_range (n : N) : Prop := 1 ≤ n ∧ n < 10 ^ 16.

Lemma print_dec_go_length fuel n k :
  n < 10 ^ N.of_nat k → (0 < k)%nat → (length (print_dec_go fuel n) ≤ k)%nat.
Proof.
  revert n k. induction fuel as [|fuel IH]; intros n k Hn Hk; [cbn; lia|].
  cbn [print_dec_go]. destruct (n <? 10) eqn:E.
  { cbn. lia. }
  nbool. destruct k as [|[|k]]; [lia|cbn in Hn; lia|].
  rewrite length_app. cbn [length].
  assert (length (print_dec_go fuel (n / 10)) ≤ S k)%nat; [|lia].
  apply IH; [|lia]. rewrite Nat2N.inj_succ, N.pow_succ_r' in Hn.
  apply N.Div0.div_lt_upper_bound. lia.
Qed.
Lemma print_dec_length n k : n < 10 ^ N.of_nat k → (0 < k)%nat → (length (print_dec n) ≤ k)%nat.
Proof. apply print_dec_go_length. Qed.

Lemma zero_pad_length w l : (length l ≤ w)%nat → length (zero_pad w l) = w.
Proof. intros H. unfold zero_pad. rewrite length_app, length_replicate. lia. Qed.
Lemma zero_pad_digits w l :
  Forall (λ b, is_ascii_digit b = true) l → Forall (λ b, is_ascii_digit b = true) (zero_pad w l).
Proof. intros H. apply Forall_app. split; [|done]. by apply Forall_replicate. Qed.
Lemma parse_digits_zeros mx k l :
  parse_digits 10 mx 0 (replicate k (x30 : byte) ++ l) = parse_digits 10 mx 0 l.
Proof.
  induction k as [|k IH]; [done|]. cbn [replicate app parse_digits].
  change (digit_value 10 x30) with (Some 0).
  replace (checked_mul mx 0 10) with (Some 0) by (symmetry; apply checked_mul_Some; lia).
  replace (checked_add mx 0 0) with (Some 0) by (symmetry; apply checked_add_Some; lia). done.
Qed.
Lemma digits_not_plus l : Forall (λ b, is_ascii_digit b = true) l → l ≠ [] →
  from_str_radix 10 U64_MAX l = parse_digits 10 U64_MAX 0 l.
Proof.
  intros H Hn. destruct l as [|b l]; [done|]. apply Forall_cons in H as [Hb _].
  unfold from_str_radix. destruct (u8 b =? 43) eqn:E; [|done].
  apply N.eqb_eq in E. unfold is_ascii_digit in Hb. apply in_range_spec in Hb. lia.
Qed.

Lemma strip_prefix_app p l : strip_prefix p (p ++ l) = Some l.
Proof. unfold strip_prefix. by rewrite starts_with_app, drop_app_length. Qed.
Lemma strip_audit_suffix_app p l : strip_suffix p (l ++ p) = Some l.
Proof.
  unfold strip_suffix. rewrite (proj2 (ends_with_spec _ _)) by eauto.
  rewrite length_app, take_app_length'; [done|lia].
Qed.

Lemma segment_number_path n : segment_range n → segment_number (segment_path n) = Ok (Some n).
Proof.
  intros [Hlo Hhi]. unfold segment_number, segment_path.
  pose proof (print_dec_digits n) as Hd. pose proof (print_dec_nonempty n) as Hne.
  assert (Hlen : (length (print_dec n) ≤ 16)%nat) by (apply print_dec_length; [done|lia]).
  pose proof (zero_pad_length _ _ Hlen) as Hz. pose proof (zero_pad_digits 16 _ Hd) as Hzd.
  assert (Hutf : utf8_valid (lit "segment-" ++ zero_pad 16 (print_dec n) ++ lit ".audit") = true).
  { apply utf8_valid_ascii, Forall_app; split; [by repeat constructor|].
    apply Forall_app; split; [|by repeat constructor].
    eapply Forall_impl; [exact Hzd|]. intros b Hb. unfold is_ascii_digit in Hb.
    apply in_range_spec in Hb. lia. }
  rewrite Hutf, starts_with_app. cbn [negb orb].
  rewrite (proj2 (ends_with_spec _ _)) by (rewrite app_assoc; eauto). cbn [negb].
  rewrite strip_prefix_app. cbn [mbind option_bind]. rewrite strip_audit_suffix_app.
  unfold len. rewrite Hz. change (N.of_nat 16 =? 16) with true.
  rewrite (proj2 (forallb_forall _ _)) by (intros b Hb; eapply Forall_forall in Hzd; [exact Hzd|by apply list_elem_of_In]).
  cbn [andb]. unfold parse_uint. rewrite digits_not_plus; [|done|by destruct (zero_pad 16 (print_dec n))].
  unfold zero_pad. rewrite parse_digits_zeros, parse_digits_print by (unfold U64_MAX; cbn in Hhi; lia).
  by rewrite (proj2 (N.eqb_neq _ _)) by lia.
Qed.
Lemma segment_path_inj a b : segment_range a → segment_range b → segment_path a = segment_path b → a = b.
Proof.
  intros Ha Hb H%(f_equal segment_number). rewrite !segment_number_path in H by done. congruence.
Qed.

(** ** A chain of segments *)
Record Seg := { seg_num : N; seg_seq : N; seg_prev : list byte; seg_entries : list Entry }.

Section recovery.
  Context `{!SerdeJson} `{!SerdeLaws} `{!Sha256} `{!Sha256Laws}.

Definition seg_end (s : Seg) : N := seg_seq s + len (seg_entries s).
Definition seg_hash (s : Seg) : list byte := chain_hash (seg_prev s) (seg_seq s) (seg_entries s).
Definition seg_bytes (s : Seg) : list byte := frames_bytes (seg_prev s) (seg_seq s) (seg_entries s).
Definition seg_views (s : Seg) : list AuditRecordView := views (seg_seq s) (seg_entries s).

(** Segments follow each other; only the last may be empty. *)
Fixpoint linked (segs : list Seg) : Prop :=
  match segs with
  | a :: ((b :: _) as rest) =>
      seg_num b = seg_num a + 1 ∧ seg_seq b = seg_end a ∧ seg_prev b = seg_hash a
      ∧ seg_entries a ≠ [] ∧ linked rest
  | _ => True
  end.

Definition segment_info (s : Seg) : AuditSegment :=
  {| sg_number := seg_num s; sg_first_sequence := seg_seq s;
     sg_last_sequence := match seg_entries s with [] => 0 | _ => seg_end s - 1 end;
     sg_terminal_hash := seg_hash s; sg_bytes := len (seg_bytes s) |}.
Definition all_entries (segs : list Seg) : list Entry := segs ≫= seg_entries.
Definition all_views (segs : list Seg) : list AuditRecordView := segs ≫= seg_views.
Definition all_numbers (segs : list Seg) : list N :=
  segs ≫= λ s, replicate (length (seg_entries s)) (seg_num s).

(** The files of a chain whose last segment is followed by [tail]. *)
Fixpoint contents (segs : list Seg) (tail : list byte) : list (N * list byte) :=
  match segs with
  | [] => []
  | [s] => [(seg_num s, seg_bytes s ++ tail)]
  | s :: rest => (seg_num s, seg_bytes s) :: contents rest tail
  end.
Definition readable (d : AuditDisk) (files : list (N * list byte)) : Prop :=
  ∀ n b, (n, b) ∈ files → ∃ mode, N.land mode 511 = 384
    ∧ disk_files d !! segment_path n = Some (RegularFile mode 1 b).

(** ** Scanning a chain *)
Context (o : AuditLedgerOptions).
Hypothesis (Ho : options_refused o = false).

Definition scan_seg (first : N) (st : ScanState) (s : Seg) : ScanState :=
  push_segment (seg_num s) st (len (seg_bytes s))
    (absorb first (seg_num s) (seg_seq s) (seg_prev s) (seg_entries s) st).

Lemma next_outcome_quiet d : ad_io d = [] → next_outcome d = (AioDone, d).
Proof. intros Hq. unfold next_outcome. by rewrite Hq. Qed.

Lemma open_segment_quiet d n b mode :
  ad_io d = [] → N.land mode 511 = 384 → disk_files d !! segment_path n = Some (RegularFile mode 1 b) →
  open_private_segment (segment_path n) d = (Ok b, d).
Proof.
  intros Hq Hm Hf. unfold open_private_segment. rewrite next_outcome_quiet by done.
  cbv beta iota zeta. rewrite Hf. cbv beta iota zeta. rewrite next_outcome_quiet, Hf, Hm by done. done.
Qed.

Definition fits (used : N) (segs : list Seg) (tail : list byte) : Prop :=
  used + len (all_entries segs) ≤ ao_max_scan_records o
  ∧ (tail ≠ [] → used + len (all_entries segs) < ao_max_scan_records o).
Definition seg_ok (s : Seg) : Prop :=
  Forall (entry_ok o) (seg_entries s) ∧ length (seg_prev s) = 32%nat ∧ seg_end s < U64_MAX.
Definition tail_ok (segs : list Seg) (tail : list byte) : Prop :=
  match last segs with
  | Some s => torn o (seg_end s) (seg_hash s) tail
  | None => tail = []
  end.

Lemma scan_segment_frames first s tail st :
  seg_ok s → aligned first (seg_seq s) (seg_prev s) st →
  torn o (seg_end s) (seg_hash s) tail →
  len (sc_records st) + len (seg_entries s) ≤ ao_max_scan_records o →
  (tail ≠ [] → len (sc_records st) + len (seg_entries s) < ao_max_scan_records o) →
  scan_frames (length (seg_bytes s ++ tail)) o first (seg_num s) (seg_bytes s ++ tail) st
  = Ok (absorb first (seg_num s) (seg_seq s) (seg_prev s) (seg_entries s) st, tail).
Proof. intros (He & Hp & Hs) Ha Ht Hr Hr'. by apply scan_frames_chain. Qed.

Lemma scan_seg_aligned first a b st :
  aligned first (seg_seq a) (seg_prev a) st → seg_entries a ≠ [] →
  seg_seq b = seg_end a → seg_prev b = seg_hash a →
  aligned first (seg_seq b) (seg_prev b) (scan_seg first st a).
Proof.
  intros _ Hne -> ->. right. unfold scan_seg, push_segment, seg_end, seg_hash.
  by destruct (seg_entries a).
Qed.
Lemma scan_seg_records first st s :
  sc_records (scan_seg first st s) = sc_records st ++ seg_views s.
Proof.
  unfold scan_seg, push_segment, seg_views. destruct (seg_entries s) as [|e es]; cbn; [|done].
  by rewrite app_nil_r.
Qed.
Lemma views_length seq es : length (views seq es) = length es.
Proof. revert seq. induction es as [|e es IH]; intros seq; cbn; [done|]. by rewrite IH. Qed.

(** The disk after the part of a frame at the end of the last segment was removed. *)
Definition cleaned (segs : list Seg) (tail : list byte) (d : AuditDisk) : AuditDisk :=
  match last segs with
  | Some s => if bool_decide (tail = []) then d else set_bytes (segment_path (seg_num s)) (seg_bytes s) d
  | None => d
  end.

Lemma set_bytes_io name b d : ad_io (set_bytes name b d) = ad_io d.
Proof. unfold set_bytes, set_file, set_dir. by destruct (disk_files d !! name) as [[]|], (ad_dir d). Qed.

Lemma scan_last first s tail st d allow :
  seg_ok s → torn o (seg_end s) (seg_hash s) tail → aligned first (seg_seq s) (seg_prev s) st →
  len (sc_records st) + len (seg_entries s) ≤ ao_max_scan_records o →
  (tail ≠ [] → len (sc_records st) + len (seg_entries s) < ao_max_scan_records o) →
  ad_io d = [] → readable d [(seg_num s, seg_bytes s ++ tail)] → (tail ≠ [] → allow = true) →
  scan_paths [seg_num s] first o allow false st d
  = (Ok (scan_seg first st s, negb (bool_decide (tail = []))), cleaned [s] tail d).
Proof.
  intros Hs Ht Ha Hr Hr' Hq Hd Hal. destruct (Hd (seg_num s) (seg_bytes s ++ tail)) as (mode & Hm & Hf);
    [by apply list_elem_of_here|].
  cbn [scan_paths]. rewrite (open_segment_quiet _ _ _ mode) by done.
  unfold read_to_end. rewrite next_outcome_quiet by done. rewrite scan_segment_frames by done.
  rewrite (bool_decide_eq_true_2 (@nil N = [])) by done.
  replace (len (seg_bytes s ++ tail) - len tail) with (len (seg_bytes s)) by (rewrite len_app; lia).
  unfold cleaned. cbn [last]. case_bool_decide as Htl; [done|].
  rewrite (Hal Htl). cbn [negb orb]. unfold truncate_trailing. rewrite next_outcome_quiet by done.
  unfold sync_all. rewrite !next_outcome_quiet by (by rewrite ?set_bytes_io).
  unfold file_bytes. rewrite Hf. unfold len. rewrite Nat2N.id, take_app_length. done.
Qed.

Lemma scan_chain first segs tail st d allow :
  segs ≠ [] → linked segs → Forall seg_ok segs → tail_ok segs tail → fits (len (sc_records st)) segs tail →
  (∀ s, head segs = Some s → aligned first (seg_seq s) (seg_prev s) st) →
  ad_io d = [] → readable d (contents segs tail) → (tail ≠ [] → allow = true) →
  scan_paths (seg_num <$> segs) first o allow false st d
  = (Ok (foldl (scan_seg first) st segs, negb (bool_decide (tail = []))), cleaned segs tail d).
Proof.
  intros Hne. revert st d. induction segs as [|s rest IH]; [done|]; intros st d Hl Hs Ht Hf Ha Hq Hd Hal.
  apply Forall_cons in Hs as [Hs Hrest]. specialize (Ha s eq_refl).
  destruct rest as [|s' rest].
  { destruct Hf as [Hf1 Hf2]. unfold all_entries in *. cbn [mbind list_bind] in *. rewrite app_nil_r in *.
    by apply scan_last. }
  destruct Hl as (Hn & Hq1 & Hq2 & Hne' & Hl). destruct Hf as [Hf1 Hf2].
  rewrite !fmap_cons. cbn [scan_paths]. destruct (Hd (seg_num s) (seg_bytes s)) as (mode & Hm & Hfile);
    [by apply list_elem_of_here|].
  rewrite (open_segment_quiet _ _ _ mode) by done.
  unfold read_to_end. rewrite next_outcome_quiet by done.
  assert (Hlen : len (all_entries (s :: s' :: rest)) = len (seg_entries s) + len (all_entries (s' :: rest)))
    by (unfold all_entries; cbn [mbind list_bind]; rewrite !len_app; lia).
  pose proof (scan_segment_frames first s [] st Hs Ha) as Hsc. rewrite app_nil_r in Hsc.
  rewrite Hsc; [|by left|lia|done].
  rewrite bool_decide_eq_true_2 by done. rewrite len_nil, N.sub_0_r.
  specialize (IH ltac:(done) (scan_seg first st s) d Hl Hrest).
  rewrite fmap_cons in IH. cbn [foldl]. unfold cleaned in *. rewrite last_cons_cons. etransitivity; [eapply IH|]; try done.
  - unfold fits. rewrite scan_seg_records, len_app. unfold seg_views, len at 2 5. rewrite views_length.
    fold (len (seg_entries s)). split; [lia|]. intros Htl. specialize (Hf2 Htl). lia.
  - intros ? [= <-]. by eapply scan_seg_aligned.
  - intros n b Hb. apply Hd. by apply list_elem_of_further.
Qed.

(** A chain with more records than a scan takes. *)
Lemma scan_chain_full first segs st d allow :
  linked segs → Forall seg_ok segs → len (sc_records st) ≤ ao_max_scan_records o →
  ao_max_scan_records o < len (sc_records st) + len (all_entries segs) →
  (∀ s, head segs = Some s → aligned first (seg_seq s) (seg_prev s) st) →
  ad_io d = [] → readable d (contents segs []) →
  scan_paths (seg_num <$> segs) first o allow false st d
  = (Err (ledger_error AuditCapacityReached "audit startup record limit exceeded"), d).
Proof.
  revert st d. induction segs as [|s rest IH]; intros st d Hl Hs Hle Hf Ha Hq Hd.
  { unfold all_entries in Hf. cbn [mbind list_bind] in Hf. rewrite len_nil in Hf. lia. }
  apply Forall_cons in Hs as [Hs Hrest]. specialize (Ha s eq_refl).
  assert (Hhead : ∃ more, contents (s :: rest) [] = (seg_num s, seg_bytes s) :: more).
  { destruct rest; cbn [contents]; rewrite ?app_nil_r; eauto. }
  destruct Hhead as [more Hhead]. destruct (Hd (seg_num s) (seg_bytes s)) as (mode & Hm & Hfile);
    [rewrite Hhead; by apply list_elem_of_here|].
  assert (Hlen : len (all_entries (s :: rest)) = len (seg_entries s) + len (all_entries rest))
    by (unfold all_entries; cbn [mbind list_bind]; rewrite !len_app; lia).
  rewrite fmap_cons. cbn [scan_paths]. rewrite (open_segment_quiet _ _ _ mode) by done.
  unfold read_to_end. rewrite next_outcome_quiet by done.
  destruct (decide (ao_max_scan_records o < len (sc_records st) + len (seg_entries s))) as [Hfull|Hroom].
  { destruct Hs as (He & Hp & Hend). unfold seg_bytes. by rewrite scan_frames_full. }
  destruct rest as [|s' rest].
  { unfold all_entries in Hlen at 2. cbn [mbind list_bind] in Hlen. rewrite len_nil in Hlen. lia. }
  destruct Hl as (_ & Hq1 & Hq2 & Hne' & Hl).
  pose proof (scan_segment_frames first s [] st Hs Ha) as Hsc. rewrite app_nil_r in Hsc.
  rewrite Hsc; [|by left|lia|done]. rewrite bool_decide_eq_true_2 by done. rewrite len_nil, N.sub_0_r.
  assert (Hviews : len (seg_views s) = len (seg_entries s)) by (unfold len, seg_views; by rewrite views_length).
  apply (IH (scan_seg first st s) d); [done|done|..]; try (rewrite scan_seg_records, len_app; lia); try done.
  - intros ? [= <-]. by eapply scan_seg_aligned.
  - intros n b Hb. apply Hd. by apply list_elem_of_further.
Qed.

(** ** What the scan ends with *)
Lemma metas_app (es es' : list Entry) : metas (es ++ es') = metas es ++ metas es'.
Proof.
  induction es as [|e es IH]; [done|]. unfold metas in *. cbn [omap list_omap app].
  destruct (en_metadata e); cbn [app]; by rewrite <-IH.
Qed.

Definition starts_at (first : N) (s : Seg) (st : ScanState) : Prop :=
  (sc_records st = [] ∧ 1 < first ∧ seg_entries s ≠ [])
  ∨ (sc_previous st = seg_prev s ∧ sc_expected st = seg_seq s).

Lemma last_views seq es :
  view_sequence <$> last (views seq es) = match es with [] => None | _ => Some (seq + len es - 1) end.
Proof.
  revert seq. induction es as [|e es IH]; intros seq; [done|]. cbn [views].
  destruct es as [|e' es]; [cbn -[N.add N.sub]; f_equal; unfold len; cbn; lia|]. specialize (IH (seq + 1)). cbn [views] in *.
  rewrite last_cons_cons, IH. f_equal. rewrite !len_cons. lia.
Qed.

Lemma scan_seg_segments first st s :
  starts_at first s st → sc_segments (scan_seg first st s) = sc_segments st ++ [segment_info s].
Proof.
  intros Ha. unfold scan_seg, push_segment, segment_info, seg_end, seg_hash. cbn [sc_segments].
  destruct (seg_entries s) as [|e es] eqn:He.
  - cbn [absorb]. rewrite drop_all. cbn. destruct Ha as [(_ & _ & ?)|[-> ->]]; [done|done].
  - cbn [absorb sc_segments sc_records sc_previous]. rewrite drop_app_length.
    pose proof (last_views (seg_seq s) (e :: es)) as Hl. rewrite Hl. done.
Qed.
Lemma scan_seg_rest first st s :
  starts_at first s st →
  sc_record_segments (scan_seg first st s)
    = sc_record_segments st ++ replicate (length (seg_entries s)) (seg_num s)
  ∧ sc_checkpoints (scan_seg first st s) = sc_checkpoints st ++ metas (seg_entries s)
  ∧ sc_previous (scan_seg first st s) = seg_hash s ∧ sc_expected (scan_seg first st s) = seg_end s
  ∧ sc_anchor (scan_seg first st s)
    = if bool_decide (sc_records st = []) && (1 <? first) && negb (bool_decide (seg_entries s = []))
      then Some (seg_seq s, seg_prev s) else sc_anchor st.
Proof.
  intros Ha. unfold scan_seg, push_segment, seg_hash, seg_end. cbn [sc_record_segments sc_checkpoints
    sc_previous sc_expected sc_anchor].
  destruct (seg_entries s) as [|e es] eqn:He; cbn [absorb].
  - rewrite !app_nil_r, andb_false_r. destruct Ha as [(_ & _ & ?)|[-> ->]]; [done|].
    rewrite len_nil, N.add_0_r. done.
  - cbn [sc_record_segments sc_checkpoints sc_previous sc_expected sc_anchor].
    rewrite (bool_decide_eq_false_2 (e :: es = [])) by done. rewrite andb_true_r. done.
Qed.

Record scanned (first : N) (segs : list Seg) (st st' : ScanState) : Prop := {
  scd_records : sc_records st' = sc_records st ++ all_views segs;
  scd_numbers : sc_record_segments st' = sc_record_segments st ++ all_numbers segs;
  scd_segments : sc_segments st' = sc_segments st ++ (segment_info <$> segs);
  scd_checkpoints : sc_checkpoints st' = sc_checkpoints st ++ metas (all_entries segs);
  scd_end : ∀ s, last segs = Some s → sc_previous st' = seg_hash s ∧ sc_expected st' = seg_end s;
  scd_anchor : ∀ s, head segs = Some s →
    sc_anchor st' = if bool_decide (sc_records st = []) && (1 <? first)
                       && negb (bool_decide (seg_entries s = []))
                    then Some (seg_seq s, seg_prev s) else sc_anchor st
}.

Lemma scan_chain_state first segs st :
  linked segs → (∀ s, head segs = Some s → starts_at first s st) →
  scanned first segs st (foldl (scan_seg first) st segs).
Proof.
  revert st. induction segs as [|s rest IH]; intros st Hl Ha.
  { split; cbn; rewrite ?app_nil_r; done. }
  specialize (Ha s eq_refl). cbn [foldl].
  destruct (scan_seg_rest first st s Ha) as (Hn & Hc & Hp & He & Han).
  destruct rest as [|s' rest].
  { split; cbn [foldl all_views all_numbers all_entries mbind list_bind fmap list_fmap]; rewrite ?app_nil_r.
    - apply scan_seg_records.
    - done.
    - by apply scan_seg_segments.
    - done.
    - intros ? [= <-]. done.
    - intros ? [= <-]. done. }
  destruct Hl as (_ & Hq1 & Hq2 & Hne & Hl).
  destruct (IH (scan_seg first st s) Hl) as [Ir In Is Ic Ie Ia].
  { intros ? [= <-]. right. by rewrite Hp, He, Hq1, Hq2. }
  split.
  - rewrite Ir, scan_seg_records, <-app_assoc. done.
  - rewrite In, Hn, <-app_assoc. done.
  - rewrite Is, scan_seg_segments, <-app_assoc by done. done.
  - rewrite Ic, Hc, <-app_assoc, <-metas_app. done.
  - intros t. rewrite last_cons_cons. apply Ie.
  - intros ? [= <-]. rewrite (Ia s' eq_refl), Han.
    rewrite (bool_decide_eq_false_2 (sc_records (scan_seg first st s) = [])); [done|].
    rewrite scan_seg_records. unfold seg_views. destruct (seg_entries s); [done|].
    by destruct (sc_records st).
Qed.

(** ** Finding the segments *)
Definition ledger_dir (d : AuditDisk) (segs : list Seg) (tail : list byte) : Prop :=
  ∃ mode files, ad_dir d = Directory mode files ∧ N.land mode 511 = 448
    ∧ readable d (contents segs tail)
    ∧ ∀ name node, files !! name = Some node →
        segment_number name = Ok None ∨ ∃ s, s ∈ segs ∧ name = segment_path (seg_num s).

Lemma linked_sorted segs : linked segs → Sorted N.le (seg_num <$> segs).
Proof.
  induction segs as [|a [|b rest] IH]; intros Hl; [constructor|by repeat constructor|].
  destruct Hl as (Hn & _ & _ & _ & Hl). constructor; [by apply IH|]. constructor. lia.
Qed.
Lemma linked_contiguous segs : linked segs → contiguous (seg_num <$> segs) = true.
Proof.
  induction segs as [|a [|b rest] IH]; intros Hl; [done..|].
  destruct Hl as (Hn & _ & _ & _ & Hl). specialize (IH Hl). cbn [fmap list_fmap contiguous] in *.
  by rewrite IH, Hn, N.eqb_refl.
Qed.
Lemma linked_above a rest s : linked (a :: rest) → s ∈ rest → seg_num a < seg_num s.
Proof.
  revert a. induction rest as [|b rest IH]; intros a Hl Hs; [by apply not_elem_of_nil in Hs|].
  destruct Hl as (Hn & _ & _ & _ & Hl). apply elem_of_cons in Hs as [->|Hs]; [lia|].
  specialize (IH b Hl Hs). lia.
Qed.
Lemma linked_NoDup segs : linked segs → NoDup (seg_num <$> segs).
Proof.
  induction segs as [|a rest IH]; intros Hl; [constructor|]. rewrite fmap_cons. constructor.
  - intros (s & Hs & Hin)%list_elem_of_fmap. pose proof (linked_above a rest s Hl Hin). lia.
  - apply IH. destruct rest; [done|]. by destruct Hl as (_ & _ & _ & _ & Hl).
Qed.

Definition number_of (name : list byte) : option N :=
  match segment_number name with Ok r => r | Err _ => None end.
Lemma segment_numbers_omap names :
  (∀ name, name ∈ names → ∃ r, segment_number name = Ok r) →
  segment_numbers names = Ok (omap number_of names).
Proof.
  induction names as [|name names IH]; intros Hn; [done|]. cbn [segment_numbers].
  destruct (Hn name) as [r Hr]; [by apply list_elem_of_here|]. rewrite Hr.
  rewrite IH by (intros; apply Hn; by apply list_elem_of_further).
  cbn [omap list_omap]. unfold number_of at 2. rewrite Hr. by destruct r.
Qed.

Lemma omap_number_perm names (segs : list Seg) :
  NoDup names → Forall (λ s, segment_range (seg_num s)) segs → linked segs →
  (∀ name, name ∈ names → segment_number name = Ok None ∨ ∃ s, s ∈ segs ∧ name = segment_path (seg_num s)) →
  (∀ s, s ∈ segs → segment_path (seg_num s) ∈ names) →
  omap number_of names ≡ₚ seg_num <$> segs.
Proof.
  intros Hnd Hr Hl Hn Hs. rewrite Forall_forall in Hr.
  assert (Hin : ∀ name n, name ∈ names → number_of name = Some n →
            name = segment_path n ∧ ∃ s, s ∈ segs ∧ seg_num s = n).
  { intros name n Hname Hnum. unfold number_of in Hnum. destruct (Hn name Hname) as [Ho'|(s & Hseg & ->)].
    - by rewrite Ho' in Hnum.
    - rewrite segment_number_path in Hnum by auto. injection Hnum as <-. eauto. }
  apply NoDup_Permutation.
  - clear Hs Hn. induction Hnd as [|name names Hnot Hnd IH]; [constructor|]. cbn [omap list_omap].
    destruct (number_of name) as [n|] eqn:E; [|apply IH; intros; apply Hin; [by right|done]].
    constructor; [|apply IH; intros; apply Hin; [by right|done]].
    intros (name' & Hn' & Hs')%list_elem_of_omap.
    destruct (Hin name n (list_elem_of_here _ _) E) as [-> _].
    destruct (Hin name' n (list_elem_of_further _ _ _ Hn') Hs') as [-> _]. done.
  - by apply linked_NoDup.
  - intros n. rewrite list_elem_of_omap, list_elem_of_fmap. split.
    + intros (name & Hname & Hnum). destruct (Hin name n Hname Hnum) as (_ & s & Hs' & <-). eauto.
    + intros (s & -> & Hs'). exists (segment_path (seg_num s)). split; [by apply Hs|].
      unfold number_of. by rewrite segment_number_path by auto.
Qed.

Lemma discover_chain d segs tail :
  ad_io d = [] → ledger_dir d segs tail → linked segs →
  Forall (λ s, segment_range (seg_num s)) segs →
  discover_segments d = (Ok (seg_num <$> segs), d).
Proof.
  intros Hq (mode & files & Hd & Hm & Hread & Hnames) Hl Hr.
  unfold discover_segments. rewrite next_outcome_quiet by done.
  assert (Hfiles : disk_files d = files) by (unfold disk_files; by rewrite Hd). rewrite Hfiles.
  assert (Hmem : ∀ name, name ∈ (map_to_list files).*1 ↔ ∃ node, files !! name = Some node).
  { intros name. rewrite list_elem_of_fmap. split.
    - intros ([n node] & -> & Hin%elem_of_map_to_list). eauto.
    - intros [node Hin%elem_of_map_to_list]. by exists (name, node). }
  rewrite segment_numbers_omap.
  2:{ intros name [node Hin]%Hmem. destruct (Hnames _ _ Hin) as [?|(s & Hs & ->)]; [eauto|].
      rewrite segment_number_path; [eauto|]. rewrite Forall_forall in Hr. auto. }
  assert (Hp : omap number_of (map_to_list files).*1 ≡ₚ seg_num <$> segs).
  { apply omap_number_perm; try done.
    - apply NoDup_fst_map_to_list.
    - intros name [node Hin]%Hmem. eauto.
    - intros s Hs. apply Hmem. rewrite <-Hfiles.
      assert (Hc : ∃ b, (seg_num s, b) ∈ contents segs tail).
      { clear -Hs. induction segs as [|a [|b rest] IH]; [by apply not_elem_of_nil in Hs|..].
        - apply list_elem_of_singleton in Hs as ->. eexists. by apply list_elem_of_here.
        - apply elem_of_cons in Hs as [->|Hs]; [eexists; by apply list_elem_of_here|].
          destruct (IH Hs) as [c Hc]. exists c. by apply list_elem_of_further. }
      destruct Hc as [b Hc]. destruct (Hread _ _ Hc) as (m & _ & Hf). eauto. }
  cbv zeta. replace (merge_sort N.le _) with (seg_num <$> segs).
  - by rewrite linked_contiguous.
  - apply (Sorted_unique N.le); [by apply linked_sorted|apply Sorted_merge_sort; apply _|].
    rewrite merge_sort_Permutation. by symmetry.
Qed.

(** ** Opening *)
Record chain_ok (segs : list Seg) : Prop := {
  ck_linked : linked segs;
  ck_segs : Forall seg_ok segs;
  ck_range : Forall (λ s, segment_range (seg_num s)) segs;
  ck_start : ∃ s, head segs = Some s
    ∧ (seg_num s = 1 → seg_seq s = 1 ∧ seg_prev s = replicate 32 x00)
    ∧ (1 < seg_num s → seg_entries s ≠ []
         ∧ anchored (Some (seg_seq s, seg_prev s)) (metas (all_entries segs)) = true)
}.

Definition opened (segs : list Seg) (s0 sn : Seg) (state : AuditLedgerIoState) (d : AuditDisk)
  : FileAuditLedger :=
  {| fa_disk := d; fa_records := all_views segs; fa_record_segments := all_numbers segs;
     fa_segments := segment_info <$> segs; fa_current_segment := seg_num sn;
     fa_current_segment_bytes := len (seg_bytes sn);
     fa_head := {| head_generation := seg_num s0 - 1; head_sequence := seg_end sn - 1 |};
     fa_last_hash := seg_hash sn; fa_options := o; fa_state := state |}.

Lemma last_all_views s rest sn :
  linked (s :: rest) → last (s :: rest) = Some sn → (seg_entries s ≠ [] ∨ seg_seq s = 1) →
  default 0 (view_sequence <$> last (all_views (s :: rest))) = seg_end sn - 1.
Proof.
  revert s. induction rest as [|s' rest IH]; intros s Hl Hlast Hs.
  - injection Hlast as <-. unfold all_views. cbn [mbind list_bind]. rewrite app_nil_r.
    unfold seg_views, seg_end. rewrite last_views. destruct (seg_entries s) as [|e es]; [|done].
    destruct Hs as [?|Hs]; [done|]. cbn. rewrite Hs. done.
  - destruct Hl as (_ & Hq & _ & Hne & Hl). rewrite last_cons_cons in Hlast.
    unfold all_views in *. cbn [mbind list_bind] in *. rewrite last_app.
    destruct (decide (seg_entries s' = [])) as [He|He].
    + destruct rest as [|s'' rest].
      2:{ destruct Hl as (_ & _ & _ & ? & _). done. }
      injection Hlast as <-. unfold seg_views at 1. rewrite He. cbn [views app mbind list_bind last].
      assert (seg_end s' = seg_end s) as -> by (unfold seg_end at 1; rewrite He, len_nil; lia).
      unfold seg_views. rewrite last_views. unfold seg_end. by destruct (seg_entries s).
    + specialize (IH s' Hl Hlast (or_introl He)).
      destruct (last (seg_views s' ++ _)) eqn:E; [done|].
      apply last_None in E. apply app_eq_nil in E as [E _]. unfold seg_views in E.
      by destruct (seg_entries s').
Qed.

Lemma prepare_directory_quiet d segs tail :
  ad_io d = [] → ledger_dir d segs tail → prepare_private_directory d = (Ok (), d).
Proof.
  intros Hq (mode & files & Hd & Hm & _). unfold prepare_private_directory.
  rewrite next_outcome_quiet by done. cbv beta iota zeta. rewrite Hd. cbv beta iota.
  rewrite next_outcome_quiet by done. cbv beta iota. rewrite Hd. cbv beta iota.
  rewrite next_outcome_quiet by done. cbv beta iota. by rewrite Hd, Hm.
Qed.

Lemma readable_last d segs tail sn :
  last segs = Some sn → readable d (contents segs tail) →
  ∃ mode, N.land mode 511 = 384
    ∧ disk_files d !! segment_path (seg_num sn) = Some (RegularFile mode 1 (seg_bytes sn ++ tail)).
Proof.
  intros Hl Hd. apply Hd. clear Hd. induction segs as [|s [|s' rest] IH]; [done|..].
  - injection Hl as ->. by apply list_elem_of_here.
  - rewrite last_cons_cons in Hl. specialize (IH Hl). by apply list_elem_of_further.
Qed.

Lemma disk_files_set_bytes name b d mode nlink old :
  disk_files d !! name = Some (RegularFile mode nlink old) →
  disk_files (set_bytes name b d) = <[name := RegularFile mode nlink b]> (disk_files d).
Proof.
  intros Hf. unfold set_bytes. rewrite Hf. unfold disk_files, set_file in *.
  by destruct (ad_dir d).
Qed.

Lemma contents_snoc init sn tail :
  contents (init ++ [sn]) tail
  = ((λ s, (seg_num s, seg_bytes s)) <$> init) ++ [(seg_num sn, seg_bytes sn ++ tail)].
Proof.
  induction init as [|s init IH]; [done|]. rewrite fmap_cons. cbn [app]. rewrite <-IH. by destruct init.
Qed.

(** Replacing what the last segment's file holds. *)
Lemma ledger_dir_set_last init sn sn' tail tail' d :
  ledger_dir d (init ++ [sn]) tail → seg_num sn' = seg_num sn →
  linked (init ++ [sn]) → Forall (λ s, segment_range (seg_num s)) (init ++ [sn]) →
  ledger_dir (set_bytes (segment_path (seg_num sn)) (seg_bytes sn' ++ tail') d) (init ++ [sn']) tail'.
Proof.
  intros (mode & files & Hd & Hm & Hr & Hn) Hnum Hl Hrg.
  destruct (readable_last _ _ _ sn (last_snoc _ _) Hr) as (m & Hm' & Hf).
  exists mode, (<[segment_path (seg_num sn) := RegularFile m 1 (seg_bytes sn' ++ tail')]> files).
  assert (Hfiles : disk_files d = files) by (unfold disk_files; by rewrite Hd).
  split_and!.
  - unfold set_bytes. rewrite Hf. unfold set_file, set_dir. by rewrite Hd.
  - done.
  - intros n b Hin. rewrite contents_snoc in Hin, Hr. apply elem_of_app in Hin as [Hin|Hin].
    + destruct (Hr n b) as (m0 & Hm0 & Hf0); [apply elem_of_app; by left|].
      exists m0. split; [done|]. rewrite (disk_files_set_bytes _ _ _ _ _ _ Hf), lookup_insert_ne; [done|].
      apply list_elem_of_fmap in Hin as (s & [= -> ->] & Hs). rewrite Forall_forall in Hrg.
      intros Heq%segment_path_inj; [|apply Hrg, elem_of_app; right; by apply list_elem_of_singleton
                                     |apply Hrg, elem_of_app; by left].
      pose proof (linked_NoDup _ Hl) as Hnd. rewrite fmap_app in Hnd.
      apply NoDup_app in Hnd as (_ & Hnd & _). apply (Hnd (seg_num s)).
      * apply list_elem_of_fmap. eauto.
      * rewrite <-Heq. by apply list_elem_of_singleton.
    + apply list_elem_of_singleton in Hin as [= -> ->]. exists m. split; [done|].
      rewrite (disk_files_set_bytes _ _ _ _ _ _ Hf), Hnum, lookup_insert_eq. done.
  - intros name node Hin. destruct (decide (name = segment_path (seg_num sn))) as [->|Hne].
    + right. exists sn'. rewrite Hnum. split; [|done]. apply elem_of_app. right. by apply list_elem_of_singleton.
    + rewrite lookup_insert_ne in Hin by done. destruct (Hn _ _ Hin) as [?|(s & Hs & ->)]; [by left|].
      right. apply elem_of_app in Hs as [Hs| ->%list_elem_of_singleton]; [|done].
      exists s. split; [|done]. apply elem_of_app. by left.
Qed.

Lemma cleaned_dir init sn tail d :
  ledger_dir d (init ++ [sn]) tail → linked (init ++ [sn]) →
  Forall (λ s, segment_range (seg_num s)) (init ++ [sn]) →
  ledger_dir (cleaned (init ++ [sn]) tail d) (init ++ [sn]) [].
Proof.
  intros Hd Hl Hr. unfold cleaned. rewrite last_snoc. case_bool_decide as Ht; [by rewrite Ht in Hd|].
  pose proof (ledger_dir_set_last init sn sn tail [] d Hd eq_refl Hl Hr) as Hc.
  by rewrite app_nil_r in Hc.
Qed.

(** Opening a chain, up to the recovery record. *)
Definition after_scan (recovered : bool) (ledger : FileAuditLedger)
  : result AppError FileAuditLedger * AuditDisk :=
  if recovered
  then match ao_recovery_context o with
       | None => (Err corrupt, fa_disk ledger)
       | Some context =>
           match recovery_record context with
           | Err e => (Err e, fa_disk ledger)
           | Ok record =>
               match append record ledger with
               | (Ok _, ledger) => (Ok ledger, fa_disk ledger)
               | (Err e, ledger) => (Err e, fa_disk ledger)
               end
           end
       end
  else (Ok ledger, fa_disk ledger).

Lemma cleaned_io segs tail d : ad_io (cleaned segs tail d) = ad_io d.
Proof.
  unfold cleaned. destruct (last segs); [|done]. case_bool_decide; [done|]. apply set_bytes_io.
Qed.

Lemma chain_starts segs s : chain_ok segs → head segs = Some s → starts_at (seg_num s) s scan_start.
Proof.
  intros [_ _ Hr (s' & Hh & Hone & Hmore)] Hh'. rewrite Hh in Hh'. injection Hh' as ->.
  destruct segs as [|? rest]; [done|]. injection Hh as ->. apply Forall_cons in Hr as [Hrange _].
  destruct (decide (seg_num s = 1)) as [E|E]; [right; destruct (Hone E) as [-> ->]; done|].
  left. split; [done|]. destruct Hrange. assert (1 < seg_num s) as Hgt by lia. split; [done|].
  by apply Hmore.
Qed.
Lemma starts_aligned first s st : starts_at first s st → aligned first (seg_seq s) (seg_prev s) st.
Proof. intros [(? & ? & _)|?]; [by left|by right]. Qed.

Lemma scan_segments_chain segs s0 sn tail d allow :
  chain_ok segs → head segs = Some s0 → last segs = Some sn → tail_ok segs tail → fits 0 segs tail →
  ad_io d = [] → ledger_dir d segs tail → (tail ≠ [] → allow = true) →
  scan_segments (seg_num <$> segs) o allow d =
  (Ok {| sr_records := all_views segs; sr_record_segments := all_numbers segs;
         sr_segments := segment_info <$> segs;
         sr_head := {| head_generation := seg_num s0 - 1; head_sequence := seg_end sn - 1 |};
         sr_last_hash := seg_hash sn; sr_current_segment_bytes := len (seg_bytes sn);
         sr_recovered := negb (bool_decide (tail = [])) |}, cleaned segs tail d).
Proof.
  intros [Hl Hs Hr (s & Hh & Hone & Hmore)] Hh' Hlast Ht Hf Hq Hd Hal.
  rewrite Hh in Hh'. injection Hh' as <-.
  destruct segs as [|s' rest]; [done|]. injection Hh as ->.
  assert (Hrange : segment_range (seg_num s)) by (by apply Forall_cons in Hr as [? _]).
  pose proof (chain_starts (s :: rest) s (Build_chain_ok _ Hl Hs Hr (ex_intro _ s (conj eq_refl (conj Hone Hmore)))) eq_refl) as Hst.
  unfold scan_segments. rewrite fmap_cons. cbn [head default]. rewrite <-fmap_cons.
  destruct Hd as (mode & files & Hdir & Hm & Hread & Hn).
  rewrite (scan_chain (seg_num s) (s :: rest) tail); try done.
  2:{ intros ? [= <-]. by apply starts_aligned. }
  destruct (scan_chain_state (seg_num s) (s :: rest) scan_start Hl) as [Sr Sn Ss Sc Se Sa].
  { intros ? [= <-]. done. }
  destruct (Se sn Hlast) as [Se1 Se2]. specialize (Sa s eq_refl).
  rewrite Sa, Sc, Sr, Sn, Ss, Se1. cbn [scan_start sc_records sc_record_segments sc_segments sc_checkpoints app].
  rewrite (bool_decide_eq_true_2 (@nil AuditRecordView = [])) by done. cbn [andb].
  assert (Hanch : anchored (if (1 <? seg_num s) && negb (bool_decide (seg_entries s = []))
                    then Some (seg_seq s, seg_prev s) else sc_anchor scan_start)
                    (metas (all_entries (s :: rest))) = true).
  { destruct (1 <? seg_num s) eqn:E; [|done]. nbool. destruct (Hmore E) as [Hne Ha].
    by rewrite bool_decide_eq_false_2. }
  rewrite Hanch. cbn [negb].
  rewrite fmap_last, Hlast. cbn [fmap option_fmap option_map default segment_info sg_bytes].
  rewrite (last_all_views s rest sn); try done.
  destruct (decide (seg_num s = 1)) as [E|E]; [right; by apply Hone|left]. destruct Hrange. apply Hmore. lia.
Qed.

Lemma open_chain segs s0 sn tail d :
  chain_ok segs → head segs = Some s0 → last segs = Some sn → tail_ok segs tail → fits 0 segs tail →
  ad_io d = [] → ledger_dir d segs tail → (tail ≠ [] → is_Some (ao_recovery_context o)) →
  open_ledger o d =
  after_scan (negb (bool_decide (tail = [])))
    (opened segs s0 sn (if bool_decide (tail = []) then IoReady else Recovering) (cleaned segs tail d)).
Proof.
  intros Hc Hh Hlast Ht Hf Hq Hd Hal. pose proof Hc as [Hl Hs Hr _].
  unfold open_ledger. rewrite Ho, (prepare_directory_quiet d segs tail) by done.
  rewrite next_outcome_quiet by done. rewrite (discover_chain d segs tail) by done.
  rewrite bool_decide_eq_false_2 by (by destruct segs).
  rewrite (scan_segments_chain segs s0 sn tail); try done.
  2:{ intros Htl. by destruct (Hal Htl) as [c ->]. }
  rewrite fmap_last, Hlast. cbn [fmap option_fmap option_map default].
  destruct (exists_last (l:=segs)) as (init & sn' & ->); [by destruct segs|].
  rewrite last_snoc in Hlast. injection Hlast as ->.
  destruct (cleaned_dir init sn tail d Hd Hl Hr) as (mode & files & Hdir & Hm & Hread & _).
  destruct (readable_last _ _ _ sn (last_snoc _ _) Hread) as (m & Hm' & Hfile).
  rewrite app_nil_r in Hfile.
  rewrite (open_segment_quiet _ _ _ m) by (rewrite ?cleaned_io; done).
  unfold sync_all. rewrite next_outcome_quiet by (by rewrite cleaned_io).
  unfold after_scan, opened. cbn [sr_recovered sr_records sr_record_segments sr_segments sr_head
    sr_last_hash sr_current_segment_bytes fa_disk].
  by case_bool_decide.
Qed.

(** Opening a chain with more records than a scan takes. *)
Lemma open_full segs d :
  chain_ok segs → segs ≠ [] → ad_io d = [] → ledger_dir d segs [] →
  ao_max_scan_records o < len (all_entries segs) →
  open_ledger o d = (Err (ledger_error AuditCapacityReached "audit startup record limit exceeded"), d).
Proof.
  intros Hc Hne Hq Hd Hfull. pose proof Hc as [Hl Hs Hr _]. destruct segs as [|s rest]; [done|].
  unfold open_ledger. rewrite Ho, (prepare_directory_quiet d (s :: rest) []) by done.
  rewrite next_outcome_quiet by done. rewrite (discover_chain d (s :: rest) []) by done.
  rewrite bool_decide_eq_false_2 by done. unfold scan_segments. rewrite fmap_cons. cbn [head default].
  rewrite <-fmap_cons. destruct Hd as (mode & files & Hdir & Hm & Hread & Hn).
  rewrite scan_chain_full; try done.
  - apply N.le_0_l.
  - intros ? [= <-]. by eapply starts_aligned, chain_starts.
Qed.
End recovery.
