(* ===== verification/AuditInvariant.v ===== *)
(** * Appending to an audit ledger

    The invariant that ties the fields of [FileAuditLedger] to the files of its directory, and that
    every append keeps it, through rotation and retention and whatever the file system answers. *)

From stdpp Require Import base gmap strings list sorting.
From Stdlib Require Import Strings.Byte NArith Lia.
From S2P Require Import Prelude Errors RustStr ConfigParser ConfigStore AuditModel AuditCodec AuditLedger AuditScan AuditRecovery.
Local Open Scope N_scope.

Section invariant.
  Context {json : SerdeJson} {json_laws : SerdeLaws} {sha : Sha256} {sha_laws : Sha256Laws}.

(** ** Chains grow at the end *)
Lemma frames_bytes_snoc prev seq es e :
  frames_bytes prev seq (es ++ [e])
  = frames_bytes prev seq es ++ encode_frame (seq + len es) (chain_hash prev seq es) (en_payload e).
Proof.
  revert prev seq. induction es as [|x es IH]; intros prev seq.
  - cbn [frames_bytes chain_hash app]. by rewrite app_nil_r, len_nil, N.add_0_r.
  - cbn [frames_bytes chain_hash app]. rewrite IH, len_cons, <-app_assoc.
    by replace (seq + 1 + len es) with (seq + (1 + len es)) by lia.
Qed.
Lemma chain_hash_snoc prev seq es e :
  chain_hash prev seq (es ++ [e]) = frame_digest (seq + len es) (chain_hash prev seq es) (en_payload e).
Proof.
  revert prev seq. induction es as [|x es IH]; intros prev seq.
  - cbn [chain_hash app]. by rewrite len_nil, N.add_0_r.
  - cbn [chain_hash app]. rewrite IH, len_cons. by replace (seq + 1 + len es) with (seq + (1 + len es)) by lia.
Qed.
Lemma views_snoc seq es e :
  views seq (es ++ [e]) = views seq es ++ [{| view_sequence := seq + len es; view_record := en_record e |}].
Proof.
  revert seq. induction es as [|x es IH]; intros seq.
  - cbn [views app]. by rewrite len_nil, N.add_0_r.
  - cbn [views app]. rewrite IH, len_cons. by replace (seq + 1 + len es) with (seq + (1 + len es)) by lia.
Qed.
Lemma chain_hash_length prev seq es : length prev = 32%nat → length (chain_hash prev seq es) = 32%nat.
Proof. revert prev seq. induction es as [|x es IH]; intros prev seq Hp; [done|]. apply IH, digest_length. Qed.

Definition seg_snoc (s : Seg) (e : Entry) : Seg :=
  {| seg_num := seg_num s; seg_seq := seg_seq s; seg_prev := seg_prev s;
     seg_entries := seg_entries s ++ [e] |}.
Definition seg_after (s : Seg) : Seg :=
  {| seg_num := seg_num s + 1; seg_seq := seg_end s; seg_prev := seg_hash s; seg_entries := [] |}.

Lemma seg_snoc_bytes s e :
  seg_bytes (seg_snoc s e) = seg_bytes s ++ encode_frame (seg_end s) (seg_hash s) (en_payload e).
Proof. apply frames_bytes_snoc. Qed.
Lemma seg_snoc_hash s e : seg_hash (seg_snoc s e) = frame_digest (seg_end s) (seg_hash s) (en_payload e).
Proof. apply chain_hash_snoc. Qed.
Lemma seg_snoc_end s e : seg_end (seg_snoc s e) = seg_end s + 1.
Proof. unfold seg_end, seg_snoc. cbn [seg_seq seg_entries]. rewrite len_app, len_cons, len_nil. lia. Qed.

Lemma linked_app init s : linked (init ++ [s]) ↔
  linked init ∧ (∀ t, last init = Some t →
    seg_num s = seg_num t + 1 ∧ seg_seq s = seg_end t ∧ seg_prev s = seg_hash t ∧ seg_entries t ≠ []).
Proof.
  induction init as [|a [|b rest] IH]; cbn [app].
  - split; [intros _; split; [done|intros ? [=]]|done].
  - cbn [linked last]. split.
    + intros (? & ? & ? & ? & _). split; [done|]. intros ? [= <-]. done.
    + intros [_ Hl]. destruct (Hl a eq_refl) as (? & ? & ? & ?). done.
  - cbn [app] in IH. rewrite last_cons_cons. split.
    + intros (? & ? & ? & ? & Hl). apply IH in Hl as [? ?]. done.
    + intros [(? & ? & ? & ? & Hl) ?]. cbn [linked]. split_and!; try done. by apply IH.
Qed.
Lemma linked_suffix k segs : linked segs → linked (drop k segs).
Proof.
  revert segs. induction k as [|k IH]; intros segs Hl; [done|].
  destruct segs as [|a [|b rest]]; [done|by destruct k|]. cbn [drop]. apply IH. by destruct Hl as (_ & _ & _ & _ & ?).
Qed.

Section options.
Context (o : AuditLedgerOptions).
Hypothesis (Ho : options_refused o = false).

Lemma seg_hash_length s : seg_ok o s → length (seg_hash s) = 32%nat.
Proof. intros (_ & Hp & _). by apply chain_hash_length. Qed.

Lemma chain_seq_pos segs s : chain_ok o segs → head segs = Some s → 0 < seg_seq s.
Proof.
  intros [_ _ Hr (s' & Hh & H1 & H2)] Hh'. destruct segs as [|a segs]; [done|].
  cbn [head] in *. injection Hh as Hh; injection Hh' as Hh'; subst a; subst s'. apply Forall_cons in Hr as [[Hlo _] _].
  destruct (decide (seg_num s = 1)) as [E|E]; [destruct (H1 E) as [-> _]; lia|].
  destruct H2 as [_ Ha]; [lia|]. unfold anchored in Ha. apply existsb_exists in Ha as (m & _ & Hm).
  rewrite !andb_true_iff in Hm. destruct Hm as [[Hm _] _]. apply bool_decide_eq_true in Hm.
  apply checked_add_Some in Hm as [-> _]. lia.
Qed.

Lemma all_entries_app a b : all_entries (a ++ b) = all_entries a ++ all_entries b.
Proof. unfold all_entries. by rewrite bind_app. Qed.
Lemma all_views_app a b : all_views (a ++ b) = all_views a ++ all_views b.
Proof. unfold all_views. by rewrite bind_app. Qed.
Lemma all_numbers_app a b : all_numbers (a ++ b) = all_numbers a ++ all_numbers b.
Proof. unfold all_numbers. by rewrite bind_app. Qed.

Lemma anchored_mono a ms ms' : anchored a ms = true → anchored a (ms ++ ms') = true.
Proof. destruct a as [[q h]|]; [|done]. cbn. intros Ha. by rewrite existsb_app, Ha. Qed.

Lemma chain_snoc init sn e :
  chain_ok o (init ++ [sn]) → entry_ok o e → seg_end sn + 1 < U64_MAX → chain_ok o (init ++ [seg_snoc sn e]).
Proof.
  intros [Hl Hs Hr (s & Hh & H1 & H2)] He Hseq. apply linked_app in Hl as [Hl Hlast].
  apply Forall_app in Hs as [Hs (Hes & Hp & Hend)%Forall_singleton].
  apply Forall_app in Hr as [Hr Hrn]. apply Forall_cons in Hrn as [Hrn _]. split.
  - apply linked_app. done.
  - apply Forall_app. split; [done|]. apply Forall_singleton. split_and!; [|done|by rewrite seg_snoc_end].
    cbn. apply Forall_app. split; [done|]. by apply Forall_singleton.
  - apply Forall_app. split; [done|]. apply Forall_singleton. exact Hrn.
  - assert (Hm : metas (all_entries (init ++ [seg_snoc sn e]))
            = metas (all_entries (init ++ [sn])) ++ metas [e]).
    { rewrite !all_entries_app, !metas_app, <-app_assoc. f_equal. unfold all_entries. cbn [mbind list_bind].
      rewrite !app_nil_r. cbn [seg_snoc seg_entries]. by rewrite metas_app. }
    rewrite Hm. destruct init as [|a init]; cbn [app head] in *; injection Hh as ->.
    + exists (seg_snoc s e). split_and!; [done|done|]. intros Hgt. destruct (H2 Hgt) as [Hne Ha]. split.
      * cbn. by destruct (seg_entries s).
      * by apply anchored_mono.
    + exists s. split_and!; [done|done|]. intros Hgt. destruct (H2 Hgt) as [Hne Ha]. split; [done|].
      by apply anchored_mono.
Qed.

Lemma chain_rotate init sn :
  chain_ok o (init ++ [sn]) → seg_entries sn ≠ [] → segment_range (seg_num sn + 1) →
  chain_ok o ((init ++ [sn]) ++ [seg_after sn]).
Proof.
  intros Hc Hne Hrange. pose proof Hc as [Hl Hs Hr (s & Hh & H1 & H2)]. split.
  - apply linked_app. split; [done|]. intros t. rewrite last_snoc. intros [= <-]. done.
  - apply Forall_app. split; [done|]. apply Forall_singleton.
    apply Forall_app in Hs as [_ (Hes & Hp & Hend)%Forall_singleton].
    split_and!; [constructor|by apply chain_hash_length|]. unfold seg_end. cbn [seg_after seg_seq seg_entries].
    rewrite len_nil. lia.
  - apply Forall_app. split; [done|]. by apply Forall_singleton.
  - exists s. split_and!.
    + by destruct init.
    + done.
    + intros Hgt. destruct (H2 Hgt) as [? Ha]. split; [done|]. rewrite all_entries_app, metas_app.
      by apply anchored_mono.
Qed.
End options.

(** ** The invariant *)
Definition writable (s : AuditLedgerIoState) : Prop := s = IoReady ∨ s = PublishedHead ∨ s = Recovering.

(** [rotate_segment] enters a new segment with 0 for its first sequence, the scan with the number
    the next record will have. *)
Definition tracks (s : Seg) (x : AuditSegment) : Prop :=
  x = segment_info s
  ∨ (seg_entries s = []
     ∧ x = {| sg_number := seg_num s; sg_first_sequence := 0; sg_last_sequence := 0;
              sg_terminal_hash := seg_hash s; sg_bytes := 0 |}).

Record ledger_fields (l : FileAuditLedger) (init : list Seg) (sn : Seg) : Prop := {
  lf_records : fa_records l = all_views (init ++ [sn]);
  lf_numbers : fa_record_segments l = all_numbers (init ++ [sn]);
  lf_segments : ∃ x, fa_segments l = (segment_info <$> init) ++ [x] ∧ tracks sn x;
  lf_current : fa_current_segment l = seg_num sn;
  lf_bytes : fa_current_segment_bytes l = len (seg_bytes sn);
  lf_generation : ∀ s0, head (init ++ [sn]) = Some s0 → head_generation (fa_head l) = seg_num s0 - 1;
  lf_sequence : head_sequence (fa_head l) = seg_end sn - 1;
  lf_hash : fa_last_hash l = seg_hash sn
}.
Record ledger_ok (l : FileAuditLedger) (init : list Seg) (sn : Seg) : Prop := {
  lo_options : options_refused (fa_options l) = false;
  lo_chain : chain_ok (fa_options l) (init ++ [sn]);
  lo_dir : ledger_dir (fa_disk l) (init ++ [sn]) [];
  lo_fields : ledger_fields l init sn;
  lo_state : writable (fa_state l)
}.
(** A ledger that failed to write: its directory still holds a chain, and at most what the write
    left behind it. *)
Record damaged (l : FileAuditLedger) (init : list Seg) (sn : Seg) (tail : list byte) : Prop := {
  dm_chain : chain_ok (fa_options l) (init ++ [sn]);
  dm_dir : ledger_dir (fa_disk l) (init ++ [sn]) tail;
  dm_state : fa_state l = IoDegraded
}.

Lemma ledger_dir_ext d d' segs tail : ad_dir d = ad_dir d' → ledger_dir d segs tail → ledger_dir d' segs tail.
Proof.
  intros Hd (mode & files & Hf & Hm & Hr & Hn). exists mode, files. rewrite <-Hd. split_and!; try done.
  intros n b Hb. destruct (Hr n b Hb) as (m & ? & ?). exists m. unfold disk_files in *. by rewrite <-Hd.
Qed.
Lemma next_outcome_dir d x d' : next_outcome d = (x, d') → ad_dir d' = ad_dir d.
Proof. unfold next_outcome. destruct (ad_io d); intros [= _ <-]; done. Qed.
Lemma sync_all_dir e d x d' : sync_all e d = (x, d') → ad_dir d' = ad_dir d.
Proof.
  unfold sync_all. destruct (next_outcome d) as [[] ?] eqn:E; intros [= _ <-]; by eapply next_outcome_dir.
Qed.

Lemma chain_last_ok o init sn : chain_ok o (init ++ [sn]) → seg_ok o sn ∧ segment_range (seg_num sn).
Proof.
  intros [_ Hs Hr _]. apply Forall_app in Hs as [_ Hs]. apply Forall_app in Hr as [_ Hr].
  apply Forall_cons in Hs as [? _]. apply Forall_cons in Hr as [? _]. done.
Qed.
Lemma seg_seq_pos o init sn : chain_ok o (init ++ [sn]) → 0 < seg_seq sn.
Proof.
  intros Hc. destruct (decide (init = [])) as [->|Hi]; [by eapply chain_seq_pos|].
  destruct (exists_last Hi) as (init' & t & ->). destruct Hc as [Hl _ _ _].
  apply linked_app in Hl as [_ Hl].
  destruct (Hl t) as (_ & Hq & _ & Hne); [apply last_snoc|]. unfold seg_end in *.
  destruct (seg_entries t); [done|]. rewrite len_cons in Hq. lia.
Qed.

(** ** Appending a frame *)
Lemma write_frame_dir init sn name frame d r d' :
  ledger_dir d (init ++ [sn]) [] → linked (init ++ [sn]) →
  Forall (λ s, segment_range (seg_num s)) (init ++ [sn]) → name = segment_path (seg_num sn) →
  write_frame name frame d = (r, d') →
  ∃ n, ledger_dir d' (init ++ [sn]) (take n frame) ∧ (r = true → take n frame = frame)
       ∧ (r = true → ∀ e, seg_bytes (seg_snoc sn e) = seg_bytes sn ++ frame →
                     ledger_dir d' (init ++ [seg_snoc sn e]) []).
Proof.
  intros Hd Hl Hr -> Hw. unfold write_frame in Hw.
  destruct (next_outcome d) as [out d1] eqn:E. pose proof (next_outcome_dir _ _ _ E) as Hdir.
  assert (Hd1 : ledger_dir d1 (init ++ [sn]) []) by (by eapply ledger_dir_ext).
  assert (Hb : file_bytes (segment_path (seg_num sn)) d1 = seg_bytes sn).
  { destruct Hd1 as (? & ? & _ & _ & Hread & _).
    destruct (readable_last _ _ _ sn (last_snoc _ _) Hread) as (m & _ & Hf).
    unfold file_bytes. rewrite Hf. apply app_nil_r. }
  destruct out as [|n]; injection Hw as <- <-; rewrite Hb.
  - exists (length frame). rewrite take_ge by lia. split_and!; [|done|].
    + by eapply ledger_dir_set_last.
    + intros _ e He. pose proof (ledger_dir_set_last init sn (seg_snoc sn e) [] [] d1 Hd1 eq_refl Hl Hr) as Hx.
      by rewrite app_nil_r, He in Hx.
  - exists n. split_and!; [|done|done]. by eapply ledger_dir_set_last.
Qed.

Lemma encode_frame_hash seq prev payload :
  drop (length (encode_frame seq prev payload) - 32) (encode_frame seq prev payload)
  = frame_digest seq prev payload.
Proof.
  rewrite encode_frame_header, app_assoc.
  apply drop_app_length'. rewrite (length_app (_ ++ _)), digest_length. lia.
Qed.

Lemma publish_fields l init sn e :
  ledger_fields l init sn → 0 < seg_seq sn →
  ledger_fields (publish_frame (seg_end sn) (en_record e)
                   (encode_frame (seg_end sn) (seg_hash sn) (en_payload e)) l) init (seg_snoc sn e).
Proof.
  intros [Fr Fn (x & Fs & Ft) Fc Fb Fg Fq Fh] Hpos. split; cbn [publish_frame fa_records fa_record_segments
    fa_segments fa_current_segment fa_current_segment_bytes fa_head fa_last_hash head_generation head_sequence].
  - rewrite Fr, !all_views_app, <-app_assoc. f_equal. unfold all_views. cbn [mbind list_bind].
    rewrite !app_nil_r. unfold seg_views. cbn [seg_snoc seg_seq seg_entries]. by rewrite views_snoc.
  - rewrite Fn, !all_numbers_app, <-app_assoc. f_equal. unfold all_numbers. cbn [mbind list_bind].
    rewrite !app_nil_r. cbn [seg_snoc seg_num seg_entries]. rewrite length_app, replicate_add, Fc. done.
  - rewrite Fs, last_snoc, length_app. cbn [length]. rewrite Nat.add_sub, take_app_length. eexists.
    split; [done|]. left. unfold segment_info. rewrite seg_snoc_hash, seg_snoc_end, encode_frame_hash.
    rewrite seg_snoc_bytes, len_app, Fb.
    assert (Hx : sg_number x = seg_num sn
            ∧ (if sg_first_sequence x =? 0 then seg_end sn else sg_first_sequence x) = seg_seq sn).
    { destruct Ft as [->|[He ->]]; (split; [done|]).
      - cbn [segment_info sg_first_sequence]. by rewrite (proj2 (N.eqb_neq _ _)) by lia.
      - assert (seg_end sn = seg_seq sn) as -> by (unfold seg_end; rewrite He, len_nil; lia). done. }
    destruct Hx as [-> ->]. cbn [seg_snoc seg_num seg_seq seg_entries]. f_equal.
    destruct (seg_entries sn); cbn [app]; lia.
  - done.
  - by rewrite seg_snoc_bytes, len_app, Fb.
  - intros s0 Hh. destruct init as [|a init]; cbn [app head] in *.
    + injection Hh as <-. cbn [seg_snoc seg_num]. by apply Fg.
    + by apply Fg.
  - rewrite seg_snoc_end. lia.
  - by rewrite encode_frame_hash, seg_snoc_hash.
Qed.

Lemma fields_set_disk l d init sn : ledger_fields l init sn → ledger_fields (set_disk d l) init sn.
Proof. by intros []. Qed.
Lemma fields_set_state l s init sn : ledger_fields l init sn → ledger_fields (set_state s l) init sn.
Proof. by intros []. Qed.

(** What an append can leave, whatever the file system does. *)
Inductive appended (l : FileAuditLedger) (init : list Seg) (sn : Seg) (e : Entry)
  : result AppError AuditLedgerHead → FileAuditLedger → Prop :=
| appended_ok l' :
    ledger_ok l' init (seg_snoc sn e) → fa_state l' = PublishedHead →
    fa_options l' = fa_options l → appended l init sn e (Ok (fa_head l')) l'
| appended_torn l' err n :
    damaged l' init sn (take n (encode_frame (seg_end sn) (seg_hash sn) (en_payload e))) →
    fa_options l' = fa_options l → fa_records l' = fa_records l →
    appended l init sn e (Err err) l'.

Lemma advance_ok ev l s : ledger_io_transition (fa_state l) ev = Ok s → advance ev l = (Ok (), set_state s l).
Proof. unfold advance. by intros ->. Qed.
Lemma begin_encoding l : writable (fa_state l) → advance BeginEncoding l = (Ok (), set_state Encoding l).
Proof. intros [Hs|[Hs|Hs]]; apply advance_ok; by rewrite Hs. Qed.

Lemma append_encoded_spec l init sn e :
  ledger_ok l init sn → entry_ok (fa_options l) e → seg_end sn + 1 < U64_MAX →
  let (r, l') := append_encoded (en_record e) (en_payload e) l in appended l init sn e r l'.
Proof.
  intros [Ho Hc Hd Hf Hw] He Hseq. pose proof (seg_seq_pos _ _ _ Hc) as Hpos.
  pose proof Hc as [Hl _ Hr _]. pose proof Hf as [Fr _ _ Fc _ _ Fq Fh].
  unfold append_encoded. rewrite Fq.
  replace (checked_add U64_MAX (seg_end sn - 1) 1) with (Some (seg_end sn))
    by (symmetry; apply checked_add_Some; unfold seg_end in *; lia).
  rewrite begin_encoding by done. cbv zeta.
  rewrite (advance_ok Encoded _ Appending) by done.
  cbn [set_state fa_last_hash]. rewrite Fh.
  set (frame := encode_frame (seg_end sn) (seg_hash sn) (en_payload e)).
  unfold on_audit_disk at 1. cbn [set_state fa_disk].
  destruct (write_frame _ frame (fa_disk l)) as [w d1] eqn:Ew.
  eapply (write_frame_dir init sn) in Ew as (n & Hd1 & Hfull & Hnext); [|done|done|done|].
  2:{ unfold current_segment_path. cbn [set_state fa_current_segment]. by rewrite Fc. }
  destruct w; cbn [negb].
  2:{ rewrite (advance_ok IoFailed _ IoDegraded) by done. eapply appended_torn; [|done|done].
      split; [done|exact Hd1|done]. }
  rewrite (advance_ok Appended _ Syncing) by done.
  unfold on_audit_disk. cbn [set_state set_disk fa_disk].
  destruct (sync_all sync_error d1) as [sy d2] eqn:Es. pose proof (sync_all_dir _ _ _ _ Es) as Hdir.
  destruct sy as [[]|err]; cbn [is_ok negb].
  2:{ rewrite (advance_ok IoFailed _ IoDegraded) by done. eapply (appended_torn _ _ _ _ _ _ n); [|done|done].
      split; [done|by eapply ledger_dir_ext|done]. }
  rewrite (advance_ok Synced _ PublishedHead) by done.
  set (l' := set_state PublishedHead _).
  replace (fa_head (set_state PublishedHead _)) with (fa_head l') by done.
  apply appended_ok; [|done|done]. split.
  - done.
  - by apply chain_snoc.
  - eapply ledger_dir_ext; [symmetry; exact Hdir|]. apply Hnext; [done|]. by rewrite seg_snoc_bytes.
  - apply fields_set_state, publish_fields; [|done].
    by repeat first [apply fields_set_disk | apply fields_set_state].
  - right. by left.
Qed.

(** ** Rotation *)
Lemma ledger_dir_absent d segs tail n :
  ledger_dir d segs tail → Forall (λ s, segment_range (seg_num s)) segs → segment_range n →
  (∀ s, s ∈ segs → seg_num s ≠ n) → disk_files d !! segment_path n = None.
Proof.
  intros (mode & files & Hd & _ & _ & Hn) Hr Hrn Hne. unfold disk_files. rewrite Hd.
  destruct (files !! segment_path n) as [node|] eqn:E; [|done]. exfalso.
  destruct (Hn _ _ E) as [Hx|(s & Hs & Hx)].
  - by rewrite segment_number_path in Hx.
  - rewrite Forall_forall in Hr. apply segment_path_inj in Hx; [|done|by apply Hr]. by apply (Hne s).
Qed.

Lemma linked_last_max init sn s : linked (init ++ [sn]) → s ∈ init ++ [sn] → seg_num s ≤ seg_num sn.
Proof.
  induction init as [|a init IH]; intros Hl Hs.
  - apply list_elem_of_singleton in Hs as ->. lia.
  - cbn [app] in *. assert (linked (init ++ [sn])) as Hl'.
    { destruct (init ++ [sn]) eqn:E; [done|]. by destruct Hl as (_ & _ & _ & _ & Hl). }
    apply elem_of_cons in Hs as [->|Hs]; [|by apply IH].
    assert (Hin : sn ∈ init ++ [sn]) by (apply elem_of_app; right; by apply list_elem_of_singleton).
    pose proof (linked_above a _ sn Hl Hin). lia.
Qed.

Lemma contents_all segs : contents segs [] = (λ s, (seg_num s, seg_bytes s)) <$> segs.
Proof.
  induction segs as [|s [|s' rest] IH]; [done|cbn; by rewrite app_nil_r|].
  rewrite fmap_cons, <-IH. done.
Qed.

Lemma ledger_dir_new d segs s :
  ledger_dir d segs [] → Forall (λ s, segment_range (seg_num s)) segs → segment_range (seg_num s) →
  (∀ t, t ∈ segs → seg_num t ≠ seg_num s) → seg_bytes s = [] →
  ledger_dir (set_file (segment_path (seg_num s)) (RegularFile 384 1 []) d) (segs ++ [s]) [].
Proof.
  intros Hd Hr Hrs Hne Hb. pose proof (ledger_dir_absent _ _ _ _ Hd Hr Hrs Hne) as Habs.
  destruct Hd as (mode & files & Hd & Hm & Hread & Hn).
  exists mode, (<[segment_path (seg_num s) := RegularFile 384 1 []]> files).
  assert (Hfs : disk_files (set_file (segment_path (seg_num s)) (RegularFile 384 1 []) d)
          = <[segment_path (seg_num s) := RegularFile 384 1 []]> (disk_files d)).
  { unfold disk_files, set_file. by rewrite Hd. }
  split_and!; [unfold set_file, set_dir; by rewrite Hd|done|..].
  - intros n b Hin. rewrite Hfs. rewrite contents_all, fmap_app in Hin. apply elem_of_app in Hin as [Hin|Hin].
    + rewrite <-contents_all in Hin. destruct (Hread n b Hin) as (m & Hm' & Hf).
      exists m. split; [done|]. rewrite lookup_insert_ne; [done|].
      intros Heq. rewrite Heq in Habs. by rewrite Habs in Hf.
    + apply list_elem_of_singleton in Hin. injection Hin as -> ->. exists 384. rewrite Hb.
      by rewrite lookup_insert_eq.
  - intros name node Hin. destruct (decide (name = segment_path (seg_num s))) as [->|Hx].
    + right. exists s. split; [|done]. apply elem_of_app. right. by apply list_elem_of_singleton.
    + rewrite lookup_insert_ne in Hin by done. destruct (Hn _ _ Hin) as [?|(t & Ht & ->)]; [by left|].
      right. exists t. split; [|done]. apply elem_of_app. by left.
Qed.

(** Creating the file of the next segment: nothing happens, or it is there. *)
Lemma open_new_segment init sn d r d' :
  ledger_dir d (init ++ [sn]) [] → linked (init ++ [sn]) →
  Forall (λ s, segment_range (seg_num s)) (init ++ [sn]) → segment_range (seg_num sn + 1) →
  open_private_segment (segment_path (seg_num sn + 1)) d = (r, d') →
  ((∃ e, r = Err e) ∧ ledger_dir d' (init ++ [sn]) []) ∨ ledger_dir d' ((init ++ [sn]) ++ [seg_after sn]) [].
Proof.
  intros Hd Hl Hr Hrn Hop. unfold open_private_segment in Hop.
  destruct (next_outcome d) as [out d1] eqn:E1. pose proof (next_outcome_dir _ _ _ E1) as H1.
  assert (Hd1 : ledger_dir d1 (init ++ [sn]) []) by (by eapply ledger_dir_ext).
  destruct out; [|injection Hop as <- <-; left; eauto].
  rewrite (ledger_dir_absent d1 (init ++ [sn]) [] (seg_num sn + 1)) in Hop; [|done..|].
  2:{ intros s Hs. pose proof (linked_last_max _ _ _ Hl Hs). lia. }
  right. pose proof (ledger_dir_new d1 (init ++ [sn]) (seg_after sn) Hd1 Hr Hrn) as Hnew.
  cbv zeta in Hop. destruct (next_outcome (set_file _ _ d1)) as [out d2] eqn:E2.
  pose proof (next_outcome_dir _ _ _ E2) as H2.
  assert (d2 = d') as <- by (destruct out; by injection Hop).
  eapply ledger_dir_ext; [symmetry; exact H2|]. apply Hnew; [|done].
  intros s Hs. pose proof (linked_last_max _ _ _ Hl Hs). cbn. lia.
Qed.

Definition rotated (l : FileAuditLedger) (init : list Seg) (sn : Seg) (r : result AppError ())
  (l' : FileAuditLedger) : Prop :=
  fa_options l' = fa_options l ∧ fa_records l' = fa_records l
  ∧ match r with
    | Ok _ => ledger_ok l' (init ++ [sn]) (seg_after sn) ∧ fa_current_segment_bytes l' = 0
    | Err _ => ledger_dir (fa_disk l') (init ++ [sn]) []
               ∨ ledger_dir (fa_disk l') ((init ++ [sn]) ++ [seg_after sn]) []
    end.

Lemma rotate_spec l init sn :
  ledger_ok l init sn → seg_entries sn ≠ [] → segment_range (seg_num sn + 1) →
  let (r, l') := rotate_segment l in rotated l init sn r l'.
Proof.
  intros [Ho Hc Hd Hf Hw] Hne Hrn. pose proof Hc as [Hl _ Hr _].
  pose proof Hf as [Fr Fn (x & Fs & Ft) Fc Fb Fg Fq Fh].
  unfold rotate_segment, on_audit_disk at 1.
  destruct (sync_all sync_error (fa_disk l)) as [r1 d1] eqn:E1. pose proof (sync_all_dir _ _ _ _ E1) as H1.
  assert (Hd1 : ledger_dir d1 (init ++ [sn]) []) by (by eapply ledger_dir_ext).
  destruct r1 as [[]|e]; [|by split_and!; [done|done|left]].
  cbn [set_disk fa_current_segment]. rewrite Fc.
  replace (checked_add U64_MAX (seg_num sn) 1) with (Some (seg_num sn + 1)).
  2:{ symmetry. apply checked_add_Some. destruct Hrn as [_ Hrn]. unfold U64_MAX.
      change (10 ^ 16) with 10000000000000000 in Hrn. lia. }
  unfold on_audit_disk at 1. cbn [set_disk fa_disk].
  destruct (open_private_segment _ d1) as [r2 d2] eqn:E2.
  pose proof (open_new_segment init sn d1 r2 d2 Hd1 Hl Hr Hrn E2) as H2.
  destruct r2 as [b|e].
  2:{ split_and!; [done|done|]. cbn. destruct H2 as [[_ ?]|?]; [by left|by right]. }
  destruct H2 as [[[? [=]] _]|Hd2]. unfold on_audit_disk. cbn [set_disk fa_disk].
  destruct (sync_all sync_error d2) as [r3 d3] eqn:E3. pose proof (sync_all_dir _ _ _ _ E3) as H3.
  assert (Hd3 : ledger_dir d3 ((init ++ [sn]) ++ [seg_after sn]) []) by (by eapply ledger_dir_ext).
  destruct r3 as [[]|e]; [|by split_and!; [done|done|right]].
  split_and!; [done|done| |done]. split; [done|by apply chain_rotate|exact Hd3| |exact Hw].
  destruct (chain_last_ok _ _ _ Hc) as [_ _]. pose proof (seg_seq_pos _ _ _ Hc) as Hpos.
  split; cbn [set_disk fa_records fa_record_segments fa_segments fa_current_segment fa_current_segment_bytes
    fa_head fa_last_hash].
  - rewrite Fr, (all_views_app (init ++ [sn])). unfold all_views at 3. cbn. by rewrite app_nil_r.
  - rewrite Fn, (all_numbers_app (init ++ [sn])). unfold all_numbers at 3. cbn. by rewrite app_nil_r.
  - eexists. split.
    + rewrite Fs, fmap_app. destruct Ft as [->|[? _]]; [done|done].
    + right. split; [done|]. by rewrite Fh.
  - done.
  - done.
  - intros s0 Hh. apply Fg. by destruct init.
  - rewrite Fq. unfold seg_end at 2. cbn [seg_after seg_seq seg_entries]. rewrite len_nil. lia.
  - done.
Qed.
End invariant.
