(* ===== verification/AuditOperations.v ===== *)
(** * What the audit trail promises

    Laws of a ledger as a class, and from them: no change takes effect before its intent is in the
    trail, every change that did is followed by its terminal record or by a refusal of all further
    changes, and a start that succeeds leaves nothing open.  The ledger in files is an instance. *)

From stdpp Require Import base gmap strings list sorting.
From Stdlib Require Import Strings.Byte NArith Lia.
From S2P Require Import Prelude Errors RustStr ConfigParser ConfigStore AuditModel AuditCodec AuditLedger.
Local Open Scope N_scope.

(** ** The trail as a list of records *)
Definition checkpoint_record (r : AuditRecord) : Prop := ar_kind r = RetentionCheckpoint.
(** [new] is [old], possibly without its oldest records, then checkpoints, then [r]. *)
Definition trail_append (old : list AuditRecord) (r : AuditRecord) (new : list AuditRecord) : Prop :=
  ∃ gone kept checkpoints, old = gone ++ kept ∧ new = kept ++ checkpoints ++ [r]
    ∧ Forall checkpoint_record checkpoints.

Definition incomplete_of (records : list AuditRecord) : list AuditRecord :=
  List.filter (λ r, bool_decide (ar_kind r = Intent)
                    && bool_decide (operation_of_record r ∈ open_after records)) records.

(** A call that appends [r]: the ledger stays sound, and a success has put [r] last. *)
Definition appends {L H} (sound : L → Prop) (trail : L → list AuditRecord)
  (call : L → result AppError H * L) (r : AuditRecord) : Prop :=
  ∀ l res l', sound l → call l = (res, l') →
    sound l' ∧ match res with Ok _ => trail_append (trail l) r (trail l') | Err _ => True end.

Class AuditLedgerLaws (L : Type) `{!AuditLedgerWriter L} `{!AuditLedgerReader L}
  `{!AuditLedgerVerifier L} := {
  trail : L → list AuditRecord;
  sound : L → Prop;
  intent_recorded : ∀ r, appends sound trail (append_intent r) r;
  terminal_recorded : ∀ r e, appends sound trail (append_terminal r e) r;
  reconciliation_recorded : ∀ r e, appends sound trail (append_reconciliation r e) r;
  observation_recorded : ∀ r, appends sound trail (append_security_observation r) r;
  incomplete_reads : ∀ l, incomplete_operations l = Ok (incomplete_of (trail l));
  unresolved_reads : ∀ l, ∃ rs, unresolved_reconciliations l = Ok rs
                                ∧ (rs = [] ↔ unresolved_after (trail l) = ∅);
  head_reads : ∀ l, is_ok (ledger_head l) = true;
  verify_keeps : ∀ l r l', sound l → ledger_verify l = (r, l') → sound l' ∧ trail l' = trail l
}.
Class AdmissionLaws (A : Type) `{!AuditAdmissionController A} : Prop :=
  replace_then_state : ∀ s a, admission_state (replace_state s a) = s.

#[global] Instance startup_admission_laws : AdmissionLaws AuditAdmissionState.
Proof. done. Qed.

Lemma trail_last old r new : trail_append old r new → last new = Some r.
Proof. intros (gone & kept & cps & _ & -> & _). by rewrite app_assoc, last_snoc. Qed.

(** Every code of the program can be written into a record. *)
Lemma error_code_audit_safe c : audit_identifier_parse (lit (ErrorCode_as_str c)) = Ok (lit (ErrorCode_as_str c)).
Proof. destruct c; reflexivity. Qed.

(** ** Changes *)
Definition intent_of (op : AuditPersistentOperationInput) : AuditRecord :=
  record_for_operation op Intent None None None.
Definition terminal_of {T} (op : AuditPersistentOperationInput)
  (outcome : result AppError (AuditMutationEffect T)) : AuditRecord :=
  match outcome with
  | Ok effect => record_for_operation op Terminal (Some Succeeded) (me_after effect) None
  | Err e => record_for_operation op Terminal (Some OutFailed) None (Some (lit (ErrorCode_as_str (app_code e))))
  end.

Section changes.
  Context {L A T E : Type} `{!AuditLedgerWriter L} `{!AuditLedgerReader L} `{!AuditLedgerVerifier L}
    {laws : AuditLedgerLaws L}
    `{!AuditAdmissionController A} {adm : AdmissionLaws A}.

(** How a change can end. *)
Inductive change_ended (op : AuditPersistentOperationInput)
  (effect : E → result AppError (AuditMutationEffect T) * E) (w : L) (a : A) (world : E)
  : result (AuditedMutationFailure T) (AuditedMutationOutput T) → L * A * E → Prop :=
| change_refused f w' :
    mf_effect_state f = None → mf_committed_value f = None → mf_state f = RejectedNoEffect →
    change_ended op effect w a world (Err f) (w', a, world)
| change_recorded outcome w1 w' world' res :
    admission_state a = Healthy → last (trail w1) = Some (intent_of op) →
    effect world = (outcome, world') → trail_append (trail w1) (terminal_of op outcome) (trail w') →
    match outcome, res with
    | Ok effect, Ok out => mo_value out = me_value effect ∧ cp_state (mo_audit out) = Completed
    | Err e, Err f => mf_error f = e ∧ mf_state f = Completed ∧ mf_effect_state f = Some EffRejected
    | _, _ => False
    end →
    change_ended op effect w a world res (w', a, world')
| change_unrecorded outcome w1 w' a' world' f :
    admission_state a = Healthy → last (trail w1) = Some (intent_of op) →
    effect world = (outcome, world') → admission_state a' = Degraded →
    match outcome with
    | Ok effect => mf_committed_value f = Some (me_value effect) ∧ mf_state f = AuditDegradedCommitted
    | Err e => mf_effect_error f = Some e ∧ mf_state f = AuditDegradedRejected
    end →
    change_ended op effect w a world (Err f) (w', a', world').

Lemma begin_audit_operation_ends op (a : A) (w : L) :
  sound w →
  match begin_audit_operation op a w with
  | (Err f, _) => bf_state f = RejectedNoEffect
  | (Ok b, w1) => admission_state a = Healthy ∧ bo_state b = OpIntentPersisted
                  ∧ sound w1 ∧ last (trail w1) = Some (intent_of op)
  end.
Proof.
  intros Hw. unfold begin_audit_operation. destruct (admission_allows _ _) eqn:Ha; cbn [negb]; [|done].
  cbn in Ha. apply bool_decide_eq_true in Ha. cbn [operation_transition].
  destruct (append_intent _ w) as [[h|e] w1] eqn:E1; [|done].
  apply intent_recorded in E1 as [Hs Ht]; [|done]. split_and!; [done|done|done|]. by eapply trail_last.
Qed.

Lemma complete_audit_operation_ends op h (outcome : result AppError (AuditMutationEffect T)) w (a : A) :
  let input := {| co_operation := op; co_expected_head := h;
                  co_effect_state := match outcome with Ok _ => EffCommitted | Err _ => EffRejected end;
                  co_after := match outcome with Ok effect => me_after effect | Err _ => None end;
                  co_error := match outcome with
                              | Ok _ => None | Err e => Some (lit (ErrorCode_as_str (app_code e))) end |} in
  sound w →
  match complete_audit_operation input w a with
  | (Ok c, (w', a')) => a' = a ∧ cp_state c = Completed
                        ∧ trail_append (trail w) (terminal_of op outcome) (trail w')
  | (Err f, (w', a')) => admission_state a' = Degraded
      ∧ cf_state f = match outcome with Ok _ => AuditDegradedCommitted | Err _ => AuditDegradedRejected end
  end.
Proof.
  intros input Hw. subst input. unfold complete_audit_operation. destruct outcome as [effect|e]; cbn [co_effect_state co_error co_operation
    co_expected_head co_after operation_transition is_none].
  all: rewrite ?bool_decide_eq_true_2, ?bool_decide_eq_false_2 by done; cbn [andb negb].
  all: destruct (append_terminal _ h w) as [[h'|err] w'] eqn:E1; [|by split; [apply replace_then_state|]].
  all: split_and!; [done|done|]; by apply terminal_recorded in E1 as [_ ?].
Qed.

(** Whatever the ledger does, a change that [execute_audited_mutation] runs takes effect only
    when the admission is healthy and its intent is the last record of the trail; afterwards either
    the terminal record that says what happened is the last one, or the caller gets an error that
    carries what was committed and the admission is degraded; when the effect was not run, nothing
    of it is reported and the world of the effect is untouched. *)
Theorem audited_change_recorded op (effect : E → result AppError (AuditMutationEffect T) * E) w a world :
  sound w →
  let (res, s) := execute_audited_mutation op effect w a world in
  change_ended op effect w a world res s.
Proof.
  intros Hw. unfold execute_audited_mutation. pose proof (begin_audit_operation_ends op a w Hw) as Hb.
  destruct (begin_audit_operation op a w) as [[b|f] w1]; [|by apply change_refused].
  destruct Hb as (Ha & Hs & Hw1 & Hlast). rewrite Hs. cbn [operation_transition].
  destruct (effect world) as [outcome world'] eqn:Eeff.
  pose proof (complete_audit_operation_ends op (bo_head b) outcome w1 a Hw1) as Hc.
  cbv zeta in Hc.
  destruct outcome as [eff|e].
  - destruct (complete_audit_operation _ w1 a) as [[c|f] [w' a']].
    + destruct Hc as (-> & Hcs & Ht). eapply (change_recorded _ _ _ _ _ (Ok eff)); done.
    + destruct Hc as [Hd Hcs]. eapply (change_unrecorded _ _ _ _ _ (Ok eff)); done.
  - rewrite error_code_audit_safe. destruct (complete_audit_operation _ w1 a) as [[c|f] [w' a']].
    + destruct Hc as (-> & Hcs & Ht). eapply (change_recorded _ _ _ _ _ (Err e)); done.
    + destruct Hc as [Hd Hcs]. eapply (change_unrecorded _ _ _ _ _ (Err e)); done.
Qed.
End changes.

(** ** What is open, and what is unresolved *)
Lemma track_open_mono s s' r : s ⊆ s' → track_open s r ⊆ track_open s' r.
Proof. intros Hs. unfold track_open. destruct (ar_kind r); set_solver. Qed.
Lemma foldl_open_mono rs s s' : s ⊆ s' → foldl track_open s rs ⊆ foldl track_open s' rs.
Proof.
  revert s s'. induction rs as [|r rs IH]; intros s s' Hs; [done|]. cbn [foldl]. by apply IH, track_open_mono.
Qed.
Lemma open_after_suffix a b : open_after b ⊆ open_after (a ++ b).
Proof. unfold open_after. rewrite foldl_app. apply foldl_open_mono. set_solver. Qed.
Lemma open_after_checkpoints rs cps : Forall checkpoint_record cps → open_after (rs ++ cps) = open_after rs.
Proof.
  unfold open_after. rewrite foldl_app. generalize (foldl track_open ∅ rs). intros s Hc. revert s.
  induction Hc as [|c cps Hc _ IH]; intros s; [done|]. cbn [foldl]. rewrite IH. unfold track_open.
  by rewrite Hc.
Qed.
Lemma open_after_append old r new :
  trail_append old r new → ar_kind r = Reconciliation →
  open_after new ⊆ open_after old ∖ {[operation_of_record r]}.
Proof.
  intros (gone & kept & cps & -> & -> & Hc) Hr.
  pose proof (open_after_checkpoints kept cps Hc) as Hk. pose proof (open_after_suffix gone kept) as Hs.
  rewrite app_assoc. unfold open_after at 1. rewrite foldl_app. fold (open_after (kept ++ cps)). rewrite Hk.
  cbn [foldl]. unfold track_open.
  rewrite Hr. set_solver.
Qed.
(** An open operation has its intent in the trail. *)
Lemma open_has_intent rs x :
  x ∈ open_after rs → ∃ r, r ∈ rs ∧ ar_kind r = Intent ∧ operation_of_record r = x.
Proof.
  induction rs as [|r rs IH] using rev_ind; [set_solver|].
  unfold open_after in *. rewrite foldl_app. fold (open_after rs) in *. cbn [foldl]. intros Hx.
  destruct (decide (x ∈ open_after rs)) as [Hin|Hout].
  - destruct (IH Hin) as (r' & Hr' & ?). exists r'. split; [|done]. apply elem_of_app. by left.
  - exists r. split; [apply elem_of_app; right; by apply list_elem_of_singleton|].
    unfold track_open in Hx. destruct (ar_kind r); set_solver.
Qed.
Lemma incomplete_has_open rs x :
  x ∈ open_after rs → ∃ r, r ∈ incomplete_of rs ∧ operation_of_record r = x.
Proof.
  intros Hx. destruct (open_has_intent rs x Hx) as (r & Hr & Hk & Ho). exists r. split; [|done].
  unfold incomplete_of. apply list_elem_of_In, filter_In. split; [by apply list_elem_of_In|].
  by rewrite !bool_decide_eq_true_2 by (by rewrite ?Ho).
Qed.
Lemma incomplete_intents rs r : r ∈ incomplete_of rs → ar_kind r = Intent.
Proof.
  unfold incomplete_of. intros [_ H]%list_elem_of_In%filter_In. apply andb_true_iff in H as [H _].
  by apply bool_decide_eq_true in H.
Qed.
Lemma incomplete_none rs : open_after rs = ∅ → incomplete_of rs = [].
Proof.
  intros Ho. destruct (incomplete_of rs) as [|r l] eqn:E; [done|]. exfalso.
  assert (Hr : In r (incomplete_of rs)) by (rewrite E; by left).
  unfold incomplete_of in Hr. apply filter_In in Hr as [_ Hr]. apply andb_true_iff in Hr as [_ Hr].
  apply bool_decide_eq_true in Hr. rewrite Ho in Hr. set_solver.
Qed.

Lemma foldl_unresolved_dom (rs : list AuditRecord) (m m' : gmap AuditIdentifier AuditRecord) :
  dom m ⊆ dom m' → dom (foldl track_unresolved m rs) ⊆ dom (foldl track_unresolved m' rs).
Proof.
  revert m m'. induction rs as [|r rs IH]; intros m m' Hm; [done|]. cbn [foldl]. apply IH.
  unfold track_unresolved. destruct (ar_kind r); [done..| |done|done|done].
  destruct (ar_outcome r) as [[]|]; try done; rewrite ?dom_insert, ?dom_delete; set_solver.
Qed.
Lemma unresolved_suffix a b : unresolved_after (a ++ b) = ∅ → unresolved_after b = ∅.
Proof.
  unfold unresolved_after. rewrite foldl_app. intros Hu.
  pose proof (foldl_unresolved_dom b ∅ (foldl track_unresolved ∅ a)) as Hd.
  rewrite Hu in Hd. apply dom_empty_inv_L. set_solver.
Qed.
Lemma unresolved_after_append old r new :
  trail_append old r new → unresolved_after old = ∅ →
  ar_outcome r = Some ReconciledCommitted ∨ ar_outcome r = Some ReconciledNotCommitted →
  unresolved_after new = ∅.
Proof.
  intros (gone & kept & cps & -> & -> & Hc) Hu Hr. apply unresolved_suffix in Hu.
  rewrite app_assoc. unfold unresolved_after. rewrite foldl_app. fold (unresolved_after (kept ++ cps)). cbn [foldl].
  assert (unresolved_after (kept ++ cps) = ∅) as ->.
  { unfold unresolved_after. rewrite foldl_app. fold (unresolved_after kept). rewrite Hu. clear -Hc.
    induction Hc as [|c cps Hc _ IH]; [done|]. cbn [foldl].
    replace (track_unresolved ∅ c) with (∅ : gmap AuditIdentifier AuditRecord); [done|].
    unfold track_unresolved. by rewrite Hc. }
  unfold track_unresolved. destruct (ar_kind r); try done. destruct Hr as [-> | ->]; apply delete_empty.
Qed.

(** ** Starting *)
Section starting.
  Context {L I A : Type} `{!AuditLedgerWriter L} `{!AuditLedgerReader L} `{!AuditLedgerVerifier L}
    {laws : AuditLedgerLaws L} `{!AuditAuthoritativeStateInspector I} `{!AuditAdmissionController A}
    {adm : AdmissionLaws A}.

Lemma reconcile_ends r h (l : L) (i : I) (a : A) :
  sound l →
  let '(res, (l', i', a')) := reconcile_incomplete_audit r h l i a in
  sound l' ∧
  match res with
  | Ok out => (ro_fact out = FactUnknown ∧ admission_state a' = FailedClosed)
              ∨ (ro_fact out ≠ FactUnknown
                 ∧ open_after (trail l') ⊆ open_after (trail l) ∖ {[operation_of_record r]}
                 ∧ (unresolved_after (trail l) = ∅ → unresolved_after (trail l') = ∅))
  | Err _ => True
  end.
Proof.
  intros Hl. unfold reconcile_incomplete_audit. case_bool_decide; [done|].
  destruct (inspect _ _ _ i) as [[fact|e] i']; [|done].
  destruct (append_reconciliation _ h l) as [[h'|e] l'] eqn:E1;
    apply reconciliation_recorded in E1 as [Hs Ht]; [|done| |done]; [|done].
  split; [done|]. case_bool_decide as Hf; cbn [ro_fact]; [left; by split; [|apply replace_then_state]|].
  right. split_and!; [done|by apply open_after_append in Ht|].
  intros Hu. eapply unresolved_after_append; [exact Ht|done|]. destruct fact; [by left|by right|done].
Qed.

Lemma reconcile_all_ends recon incomplete count (l : L) (i : I) (a : A) :
  sound l → recon ≠ Healthy → admission_state a ≠ Healthy → count + len incomplete ≤ U16_MAX →
  let '(res, (l', i', a')) := reconcile_all recon incomplete count l i a in
  sound l' ∧ admission_state a' ≠ Healthy ∧
  match res with
  | Ok count' => count' = count + len incomplete
      ∧ open_after (trail l') ⊆ open_after (trail l) ∖ list_to_set (operation_of_record <$> incomplete)
      ∧ (unresolved_after (trail l) = ∅ → unresolved_after (trail l') = ∅)
  | Err _ => True
  end.
Proof.
  revert count l i a. induction incomplete as [|r rest IH]; intros count l i a Hl Hrecon Ha Hcount.
  { cbn [reconcile_all]. split_and!; [done|done|rewrite len_nil; lia|set_solver|done]. }
  cbn [reconcile_all]. pose proof (head_reads l) as Hh. destruct (ledger_head l) as [h|]; [|done].
  pose proof (reconcile_ends r h l i a Hl) as Hr.
  destruct (reconcile_incomplete_audit r h l i a) as [[out|e] [[l1 i1] a1]].
  2:{ destruct Hr as [Hs _]. split_and!; [done|by rewrite replace_then_state|done]. }
  destruct Hr as [Hs Hr]. rewrite len_cons in Hcount.
  replace (checked_add U16_MAX count 1) with (Some (count + 1)) by (symmetry; apply checked_add_Some; lia).
  case_bool_decide as Hf.
  { split_and!; [done|by rewrite replace_then_state|done]. }
  destruct Hr as [[? _]|(_ & Hopen & Hun)]; [done|].
  specialize (IH (count + 1) l1 i1 (replace_state recon a1) Hs Hrecon).
  rewrite replace_then_state in IH. specialize (IH Hrecon ltac:(lia)).
  destruct (reconcile_all _ _ _ _ _ _) as [[count'|e] [[l2 i2] a2]]; [|done].
  destruct IH as (Hs2 & Ha2 & Hc2 & Ho2 & Hu2). split_and!; [done|done|rewrite len_cons; lia| |auto].
  rewrite fmap_cons, list_to_set_cons. set_solver.
Qed.

(** Nothing is left open. *)
Definition settled (l : L) : Prop :=
  incomplete_operations l = Ok [] ∧ unresolved_reconciliations l = Ok [].

(** A start over any lawful ledger that succeeds has a healthy admission and leaves no operation
    incomplete and no reconciliation unresolved, having reconciled as many operations as it found; a
    start that fails, wherever, does not leave the admission healthy, so no change is admitted. *)
Theorem start_settles_everything (l : L) (i : I) (a : A) :
  sound l →
  let '(res, (l', i', a')) := initialize_audit_ledger l i a in
  sound l' ∧
  match res with
  | Ok out => admission_state a' = Healthy ∧ io_admission_state out = Healthy ∧ settled l'
      ∧ io_reconciled_count out = io_incomplete_count out
  | Err _ => admission_state a' ≠ Healthy
  end.
Proof.
  intros Hl. unfold initialize_audit_ledger. cbn [admission_transition].
  destruct (ledger_verify l) as [[report|e] l1] eqn:Ev; apply verify_keeps in Ev as [Hs Ht]; try done;
    [|by rewrite replace_then_state].
  destruct (unresolved_reads l1) as (rs & Hun & Hrs). rewrite Hun.
  destruct rs as [|r rs]; [|by rewrite replace_then_state]. pose proof (proj1 Hrs eq_refl) as Hu.
  rewrite incomplete_reads. destruct (U16_MAX <? _) eqn:Hcount; [by rewrite replace_then_state|].
  nbool. assert (Hdone : ∀ l', open_after (trail l') = ∅ → unresolved_after (trail l') = ∅ →
    incomplete_operations l' = Ok [] ∧ unresolved_reconciliations l' = Ok []).
  { intros l' Ho' Hu'. rewrite incomplete_reads, incomplete_none by done. split; [done|].
    destruct (unresolved_reads l') as (rs & -> & Hiff). by rewrite (proj2 Hiff). }
  destruct (incomplete_of (trail l1)) as [|r rest] eqn:Einc.
  - destruct (Hdone l1) as [Hi Hur]; [|done|].
    { apply set_eq. intros x. split; [|set_solver]. intros (r & Hr & _)%incomplete_has_open.
      rewrite Einc in Hr. set_solver. }
    rewrite replace_then_state. split_and!; try done.
  - pose proof (reconcile_all_ends Reconciling (r :: rest) 0 l1 i
      (replace_state Reconciling (replace_state Verifying a)) Hs) as Hr.
    rewrite replace_then_state in Hr. specialize (Hr ltac:(done) ltac:(done) ltac:(lia)).
    destruct (reconcile_all _ _ _ _ _ _) as [[count|e] [[l2 i2] a2]]; [|by destruct Hr as (? & ? & _)].
    destruct Hr as (Hs2 & _ & Hc2 & Ho2 & Hu2).
    pose proof (head_reads l2) as Hh. destruct (ledger_head l2) as [h|]; [|done].
    destruct (Hdone l2) as [Hi Hur]; [|by apply Hu2|].
    { apply set_eq. intros x. split; [|set_solver]. intros Hx. apply Ho2, elem_of_difference in Hx as [Hx Hnot].
      apply incomplete_has_open in Hx as (r' & Hr' & <-). exfalso. apply Hnot, elem_of_list_to_set.
      rewrite Einc in Hr'. apply list_elem_of_fmap. eauto. }
    rewrite replace_then_state. split_and!; try done.
Qed.
End starting.

(** ** The laws can hold: a ledger in memory *)
Module MemoryLedger.
Definition t := list AuditRecord.
Definition push (r : AuditRecord) (l : t) : result AppError AuditLedgerHead * t :=
  (Ok {| head_generation := 0; head_sequence := len l + 1 |}, l ++ [r]).
Definition page : AuditPage :=
  {| page_records := []; page_next_cursor := None;
     page_head := {| head_generation := 0; head_sequence := 0 |}; page_admission_state := Healthy |}.

#[export] Instance writer : AuditLedgerWriter t := {
  append_intent := push; append_terminal r _ := push r; append_reconciliation r _ := push r;
  append_security_observation := push
}.
#[export] Instance reader : AuditLedgerReader t := {
  ledger_query _ _ := Ok page;
  incomplete_operations l := Ok (incomplete_of l);
  unresolved_reconciliations l := Ok (map_to_list (unresolved_after l)).*2;
  ledger_head l := Ok {| head_generation := 0; head_sequence := len l |}
}.
#[export] Instance verifier : AuditLedgerVerifier t := λ l,
  (Ok {| vr_head := {| head_generation := 0; head_sequence := len l |}; vr_record_count := len l;
         vr_segment_count := 1; vr_incomplete_operation_count := 0 |}, l).

Lemma push_recorded r : appends (λ _ : t, True) id (push r) r.
Proof.
  intros l res l' _ [= <- <-]. split; [done|]. exists [], l, []. split_and!; [done|done|constructor].
Qed.
Lemma unresolved_none (l : t) :
  ∃ rs, unresolved_reconciliations l = Ok rs ∧ (rs = [] ↔ unresolved_after (id l) = ∅).
Proof.
  eexists. split; [done|]. unfold id. split.
  - intros Hn%fmap_nil_inv. by apply map_to_list_empty_iff.
  - intros Hu. by rewrite Hu.
Qed.
#[export] Instance laws : AuditLedgerLaws t := {
  trail := id; sound _ := True;
  intent_recorded := push_recorded;
  terminal_recorded r _ := push_recorded r;
  reconciliation_recorded r _ := push_recorded r;
  observation_recorded := push_recorded;
  incomplete_reads l := eq_refl;
  unresolved_reads := unresolved_none;
  head_reads l := eq_refl;
  verify_keeps l r l' H E := conj I (f_equal id (eq_sym (f_equal snd E)))
}.

(** An inspector that knows that every change took effect. *)
Inductive knowing := Knowing.
#[export] Instance knowing_inspector : AuditAuthoritativeStateInspector knowing :=
  λ _ _ _ i, (Ok FactCommitted, i).

Definition sample : AuditPersistentOperationInput :=
  {| po_context := audit_context (lit "operation-1") (lit "request-1") BootstrapAdmin 7;
     po_action := ProxyHostCreate; po_target_kind := TkProxyHost; po_target_id := lit "app";
     po_before := None |}.
(** A change that counts in a number, and fails on 0. *)
Definition bump (n : nat) : result AppError (AuditMutationEffect nat) * nat :=
  match n with
  | O => (Err (AppError_new ConfigStoreFailed "no"), O)
  | S _ => (Ok {| me_value := n; me_after := None |}, S n)
  end.
End MemoryLedger.
Import MemoryLedger.

Lemma audited_change_recorded_witness :
  sound ([] : MemoryLedger.t)
  ∧ change_ended sample bump ([] : MemoryLedger.t) Healthy 1%nat
      (execute_audited_mutation sample bump ([] : MemoryLedger.t) Healthy 1%nat).1
      (execute_audited_mutation sample bump ([] : MemoryLedger.t) Healthy 1%nat).2.
Proof. split; [exact I|]. exact (audited_change_recorded sample bump ([] : MemoryLedger.t) Healthy 1%nat I). Defined.

Lemma start_settles_everything_witness :
  sound ([intent_of sample] : MemoryLedger.t)
  ∧ match initialize_audit_ledger ([intent_of sample] : MemoryLedger.t) Knowing Starting with
    | (Ok out, (l, _, a)) => a = Healthy ∧ incomplete_operations l = Ok []
                             ∧ io_reconciled_count out = 1
    | _ => False
    end.
Proof.
  split; [exact I|].
  pose proof (start_settles_everything ([intent_of sample] : MemoryLedger.t) Knowing Starting I) as H.
  vm_compute in H |- *. destruct H as (_ & Ha & _ & [Hi _] & _). split; [exact Ha|]. split; [exact Hi|reflexivity].
Defined.
