(* ===== verification/AuditTrail.v ===== *)
(** * The ledger in files keeps the laws of a ledger

    What [FileAuditLedger] holds in memory, whatever the file system answers: records are added at
    the end and removed, whole segments at a time, from the front. *)

From stdpp Require Import base gmap strings list sorting.
From Stdlib Require Import Strings.Byte NArith Lia.
From S2P Require Import Prelude Errors RustStr ConfigParser ConfigStore AuditModel AuditCodec AuditLedger AuditOperations.
Local Open Scope N_scope.

(** ** Lists sorted by segment *)
Lemma zip_filter_drop {B} (ns : list N) (xs : list B) (gone : list N) :
  length xs = length ns → StronglySorted N.le ns →
  (∀ a b, a ∈ ns → b ∈ ns → a ∉ gone → b ∈ gone → b < a) →
  ∃ k, (filter (λ p : B * N, p.2 ∉ gone) (zip xs ns)).*1 = drop k xs
       ∧ filter (λ n, n ∉ gone) ns = drop k ns.
Proof.
  revert xs. induction ns as [|n ns IH]; intros [|x xs] Hlen Hs Hup; try done.
  { by exists 0%nat. }
  apply StronglySorted_inv in Hs as [Hs Hall]. cbn [zip zip_with].
  rewrite !filter_cons. cbn [snd]. destruct (decide (n ∉ gone)) as [Hn|Hn].
  - exists 0%nat. assert (Hnone : ∀ m, m ∈ ns → m ∉ gone).
    { intros m Hm Hg. rewrite Forall_forall in Hall. specialize (Hall m Hm).
      specialize (Hup n m ltac:(by apply list_elem_of_here) ltac:(by apply list_elem_of_further) Hn Hg). lia. }
    assert (Hkeep : ∀ (xs : list B) ns, length xs = length ns → (∀ m, m ∈ ns → m ∉ gone) →
              filter (λ p : B * N, p.2 ∉ gone) (zip xs ns) = zip xs ns ∧ filter (λ n, n ∉ gone) ns = ns).
    { clear. induction xs as [|x xs IH]; intros [|n ns] Hl Hk; try done. cbn [zip zip_with].
      rewrite !filter_cons. cbn [snd]. rewrite !decide_True by (apply Hk; by apply list_elem_of_here).
      destruct (IH ns ltac:(by injection Hl)) as [-> ->]; [|done].
      intros m Hm. apply Hk. by apply list_elem_of_further. }
    destruct (Hkeep xs ns ltac:(by injection Hlen) Hnone) as [-> ->].
    rewrite fmap_cons, fst_zip; [done|]. injection Hlen. lia.
  - destruct (IH xs ltac:(by injection Hlen) Hs) as (k & Hk1 & Hk2).
    { intros a b Ha Hb. apply Hup; by apply list_elem_of_further. }
    by exists (S k).
Qed.

Section file_trail.
  Context {json : SerdeJson} {sha : Sha256}.

Definition numbers (l : FileAuditLedger) : list N := sg_number <$> fa_segments l.
Record tidy (l : FileAuditLedger) : Prop := {
  td_length : length (fa_records l) = length (fa_record_segments l);
  td_sorted : StronglySorted N.le (fa_record_segments l);
  td_numbers : StronglySorted N.lt (numbers l);
  td_last : last (numbers l) = Some (fa_current_segment l);
  td_known : ∀ n, n ∈ fa_record_segments l → n ∈ numbers l
}.
Definition file_sound (l : FileAuditLedger) : Prop :=
  tidy l ∨ fa_state l = IoDegraded ∨ fa_state l = IoFailedClosed.
Definition file_trail (l : FileAuditLedger) : list AuditRecord := view_record <$> fa_records l.

Lemma sorted_last_max (ns : list N) m n :
  StronglySorted N.lt ns → last ns = Some m → n ∈ ns → n ≤ m.
Proof.
  intros Hs. induction Hs as [|a ns Hs IH Hall]; [done|]. intros Hl Hn.
  destruct ns as [|b ns]; [injection Hl as <-; apply list_elem_of_singleton in Hn as ->; lia|].
  rewrite last_cons_cons in Hl. apply elem_of_cons in Hn as [->|Hn]; [|by apply IH].
  rewrite Forall_forall in Hall. assert (Hm : m ∈ b :: ns) by (by apply last_Some_elem_of).
  specialize (Hall m Hm). lia.
Qed.
Lemma sorted_snoc {R : N → N → Prop} (ns : list N) m :
  StronglySorted R ns → (∀ n, n ∈ ns → R n m) → StronglySorted R (ns ++ [m]).
Proof.
  intros Hs. induction Hs as [|a ns Hs IH Hall]; intros Hm; [by repeat constructor|]. cbn. constructor.
  - apply IH. intros n Hn. apply Hm. by apply list_elem_of_further.
  - apply Forall_app. split; [done|]. apply Forall_singleton. apply Hm. by apply list_elem_of_here.
Qed.

(** Only the lists and the current segment matter. *)
Lemma tidy_ext l l' :
  fa_records l' = fa_records l → fa_record_segments l' = fa_record_segments l →
  numbers l' = numbers l → fa_current_segment l' = fa_current_segment l → tidy l → tidy l'.
Proof. intros Hr Hs Hn Hc [T1 T2 T3 T4 T5]. split; by rewrite ?Hr, ?Hs, ?Hn, ?Hc. Qed.

Lemma publish_tidy q r frame l : tidy l → tidy (publish_frame q r frame l).
Proof.
  intros [T1 T2 T3 T4 T5].
  assert (Hn : numbers (publish_frame q r frame l) = numbers l).
  { unfold numbers in *. cbn [publish_frame fa_segments].
    destruct (exists_last (l := fa_segments l)) as (init & s & Hs);
      [by intros Hs; rewrite Hs in T4|].
    rewrite Hs, last_snoc, length_app. cbn [length]. rewrite Nat.add_sub, take_app_length, !fmap_app. done. }
  split; rewrite ?Hn; cbn [publish_frame fa_records fa_record_segments fa_current_segment].
  - rewrite !length_app, T1. done.
  - apply sorted_snoc; [done|]. intros n Hin. eapply sorted_last_max; [exact T3|done|by apply T5].
  - done.
  - done.
  - intros n [Hin|Hin%list_elem_of_singleton]%elem_of_app; [by apply T5|]. subst n. by apply last_Some_elem_of.
Qed.

(** Ledgers that differ at most in their files, state and sizes. *)
Definition same_lists (l l' : FileAuditLedger) : Prop :=
  fa_records l' = fa_records l ∧ fa_record_segments l' = fa_record_segments l
  ∧ fa_segments l' = fa_segments l ∧ fa_current_segment l' = fa_current_segment l
  ∧ fa_options l' = fa_options l.
Lemma same_lists_tidy l l' : same_lists l l' → tidy l → tidy l'.
Proof. intros (? & ? & Hs & ? & _). apply tidy_ext; try done. unfold numbers. by rewrite Hs. Qed.
Lemma same_lists_trans l1 l2 l3 : same_lists l1 l2 → same_lists l2 l3 → same_lists l1 l3.
Proof. unfold same_lists. intros (? & ? & ? & ? & ?) (? & ? & ? & ? & ?). split_and!; congruence. Qed.
Lemma advance_same e l x l' : advance e l = (x, l') → same_lists l l'.
Proof. unfold advance. by destruct (ledger_io_transition _ _); intros [= <- <-]. Qed.
Lemma on_disk_same {B} (f : AuditDisk → B * AuditDisk) l x l' : on_audit_disk f l = (x, l') → same_lists l l'.
Proof. unfold on_audit_disk. destruct (f _). by intros [= <- <-]. Qed.

(** Follow the calls that keep the lists. *)
Ltac follow :=
  repeat match goal with
  | H : advance _ _ = (_, _) |- _ => apply advance_same in H
  | H : on_audit_disk _ _ = (_, _) |- _ => apply on_disk_same in H
  | H1 : same_lists ?a ?b, H2 : same_lists ?b ?c |- _ =>
      pose proof (same_lists_trans _ _ _ H1 H2); clear H2
  end.

Lemma append_encoded_trail r payload l res l' :
  append_encoded r payload l = (res, l') → tidy l →
  tidy l' ∧ match res with
            | Ok _ => file_trail l' = file_trail l ++ [r] ∧ fa_segments l' ≠ []
            | Err _ => True
            end.
Proof.
  intros Ha Ht. unfold append_encoded in Ha.
  destruct (checked_add _ _ _) as [q|]; [|by injection Ha as <- <-].
  destruct (advance BeginEncoding l) as [[[]|e] l1] eqn:E1; [|injection Ha as <- <-; follow; eauto using same_lists_tidy].
  cbv zeta in Ha.
  destruct (advance Encoded l1) as [[[]|e] l2] eqn:E2; [|injection Ha as <- <-; follow; eauto using same_lists_tidy].
  destruct (on_audit_disk (write_frame _ _) l2) as [[] l3] eqn:E3; cbn [negb] in Ha.
  2:{ destruct (advance IoFailed l3) as [[[]|e] l4] eqn:E4; injection Ha as <- <-; follow; eauto using same_lists_tidy. }
  destruct (advance Appended l3) as [[[]|e] l4] eqn:E4; [|injection Ha as <- <-; follow; eauto using same_lists_tidy].
  destruct (on_audit_disk (sync_all _) l4) as [sy l5] eqn:E5. destruct (is_ok sy); cbn [negb] in Ha.
  2:{ destruct (advance IoFailed l5) as [[[]|e] l6] eqn:E6; injection Ha as <- <-; follow; eauto using same_lists_tidy. }
  destruct (advance Synced _) as [sy' l6] eqn:E6. follow.
  assert (Hl5 : same_lists l l5) by done.
  pose proof (publish_tidy q r (encode_frame q (fa_last_hash l1) payload) l5 (same_lists_tidy _ _ Hl5 Ht)) as Hp.
  assert (Ht6 : tidy l6) by (by eapply same_lists_tidy).
  destruct sy' as [[]|e]; injection Ha as <- <-; (split; [done|]); [|done]. split.
  - unfold file_trail. destruct E6 as (-> & _). cbn [publish_frame fa_records].
    rewrite fmap_app. destruct Hl5 as (-> & _). done.
  - intros Hn. destruct Ht6 as [_ _ _ Hl _]. unfold numbers in Hl. by rewrite Hn in Hl.
Qed.

Lemma append_encoded_segments r payload l h l' :
  append_encoded r payload l = (Ok h, l') → length (fa_segments l') = length (fa_segments l).
Proof.
  intros Ha. unfold append_encoded in Ha. destruct (checked_add _ _ _) as [q|]; [|done].
  destruct (advance BeginEncoding l) as [[[]|e] l1] eqn:E1; [|done]. cbv zeta in Ha.
  destruct (advance Encoded l1) as [[[]|e] l2] eqn:E2; [|done].
  destruct (on_audit_disk (write_frame _ _) l2) as [[] l3] eqn:E3; cbn [negb] in Ha.
  2:{ by destruct (advance IoFailed l3) as [[[]|e] l4]. }
  destruct (advance Appended l3) as [[[]|e] l4] eqn:E4; [|done].
  destruct (on_audit_disk (sync_all _) l4) as [sy l5] eqn:E5. destruct (is_ok sy); cbn [negb] in Ha.
  2:{ by destruct (advance IoFailed l5) as [[[]|e] l6]. }
  destruct (advance Synced _) as [[[]|e] l6] eqn:E6; [|done]. injection Ha as <- <-. follow.
  assert (S5 : same_lists l l5) by done. destruct E6 as (_ & _ & -> & _), S5 as (_ & _ & <- & _).
  cbn [publish_frame fa_segments]. destruct (fa_segments l5) as [|s ss] eqn:Es; [done|].
  destruct (last (s :: ss)) eqn:El; [|by apply last_None in El].
  rewrite length_app, length_take. cbn [length]. lia.
Qed.

Lemma same_lists_trail l l' : same_lists l l' → tidy l → tidy l' ∧ fa_records l' = fa_records l.
Proof. intros Hs Ht. split; [by eapply same_lists_tidy|by destruct Hs]. Qed.

Lemma rotate_trail l res l' :
  rotate_segment l = (res, l') → tidy l → tidy l' ∧ fa_records l' = fa_records l.
Proof.
  intros Ha Ht. unfold rotate_segment in Ha.
  destruct (on_audit_disk _ l) as [r1 l1] eqn:E1. apply on_disk_same in E1 as S1.
  destruct r1 as [[]|e]; [|injection Ha as <- <-; by apply same_lists_trail].
  destruct (checked_add _ _ _) as [n|] eqn:En; [|injection Ha as <- <-; by apply same_lists_trail].
  apply checked_add_Some in En as [Hn _].
  destruct (on_audit_disk _ l1) as [r2 l2] eqn:E2. apply on_disk_same, (same_lists_trans _ _ _ S1) in E2 as S2.
  destruct r2 as [b|e]; [|injection Ha as <- <-; by apply same_lists_trail].
  destruct (on_audit_disk _ l2) as [r3 l3] eqn:E3. apply on_disk_same, (same_lists_trans _ _ _ S2) in E3 as S3.
  destruct r3 as [[]|e]; injection Ha as <- <-; [|by apply same_lists_trail].
  destruct (same_lists_trail _ _ S3 Ht) as [[T1 T2 T3 T4 T5] Hr].
  assert (Hc : fa_current_segment l3 = fa_current_segment l1) by (destruct S1 as (_ & _ & _ & -> & _); by destruct S3 as (_ & _ & _ & -> & _)).
  split; [|done]. split; unfold numbers in *; cbn [fa_records fa_record_segments fa_segments fa_current_segment].
  - done.
  - done.
  - rewrite fmap_app. apply sorted_snoc; [done|]. intros m Hm. cbn.
    pose proof (sorted_last_max _ _ _ T3 T4 Hm). lia.
  - rewrite fmap_app. cbn. by rewrite last_snoc.
  - intros m Hm. rewrite fmap_app. apply elem_of_app. left. by apply T5.
Qed.

Lemma forget_trail k l :
  tidy l → (0 < N.to_nat k < length (fa_segments l))%nat →
  let removed := take (N.to_nat k) (fa_segments l) in
  let l' := forget_records (sg_number <$> removed) (drop_segments k l) in
  tidy l' ∧ ∃ n, fa_records l' = drop n (fa_records l).
Proof.
  intros [T1 T2 T3 T4 T5] Hk removed l'. unfold numbers in *.
  assert (Hsplit : sg_number <$> fa_segments l
          = (sg_number <$> removed) ++ (sg_number <$> drop (N.to_nat k) (fa_segments l))).
  { subst removed. by rewrite <-fmap_app, take_drop. }
  assert (Hlow : ∀ a b, a ∈ sg_number <$> fa_segments l → a ∉ sg_number <$> removed →
            b ∈ sg_number <$> removed → b < a).
  { intros a b Ha Hn Hb. rewrite Hsplit in Ha, T3. apply elem_of_app in Ha as [Ha|Ha]; [done|].
    clear -T3 Ha Hb. induction (sg_number <$> removed) as [|x xs IH]; [by apply not_elem_of_nil in Hb|].
    cbn in T3. apply StronglySorted_inv in T3 as [T3 Hall]. apply elem_of_cons in Hb as [->|Hb]; [|by apply IH].
    rewrite Forall_forall in Hall. apply Hall, elem_of_app. by right. }
  destruct (zip_filter_drop (fa_record_segments l) (fa_records l) (sg_number <$> removed) T1 T2) as (n & Hz1 & Hz2).
  { intros a b Ha _ Hna Hnb. by apply (Hlow a b (T5 a Ha)). }
  subst l'. split; [|exists n; exact Hz1]. split; unfold numbers;
    cbn [forget_records drop_segments fa_records fa_record_segments fa_segments fa_current_segment].
  - rewrite Hz1, Hz2, !length_drop, T1. done.
  - rewrite Hz2. clear -T2. revert n. induction T2 as [|x xs Hs IH Hall]; intros [|n]; cbn; [constructor..| |done].
    by constructor.
  - clear -T3 Hsplit. rewrite Hsplit in T3. clear Hsplit. induction (sg_number <$> removed) as [|x xs IH]; [done|].
    cbn in T3. apply StronglySorted_inv in T3 as [T3 _]. by apply IH.
  - rewrite Hsplit in T4. rewrite <-T4, last_app.
    destruct (last (sg_number <$> drop _ _)) eqn:E; [done|]. apply last_None, fmap_nil_inv in E.
    apply (f_equal length) in E. rewrite length_drop in E. cbn in E. lia.
  - intros m Hm. apply list_elem_of_filter in Hm as [Hn Hm]. specialize (T5 m Hm). rewrite Hsplit in T5.
    apply elem_of_app in T5 as [?|?]; done.
Qed.
Lemma choose_removed_Ok nb template l segments first count bytes k m :
  choose_removed nb template l first count bytes segments = Ok (k, m) →
  ∃ pre s more, segments = pre ++ s :: more ∧ more ≠ [] ∧ k = count + len pre + 1
    ∧ rm_last_sequence m = sg_last_sequence s ∧ rm_terminal_hash m = sg_terminal_hash s
    ∧ rm_first_sequence m = sg_first_sequence (default (default s (head pre)) first).
Proof.
  revert first count bytes. induction segments as [|s [|s' more] IH]; intros first count bytes Hc; [done..|].
  cbn [choose_removed] in Hc. destruct (encode_record_with_retention _ _) as [payload|]; [|done].
  destruct (_ && _).
  - injection Hc as <- <-. exists [], s, (s' :: more). split_and!; try done.
    rewrite len_nil. lia.
  - apply IH in Hc as (pre & t & more' & -> & Hm & -> & Hl & Hh & Hf).
    exists (s :: pre), t, more'. split_and!; try done.
    rewrite len_cons. lia.
Qed.

(** The end of [retain_for]: what [retain_for] does once the checkpoint is written. *)
Definition remove_oldest (count : N) (l : FileAuditLedger) : result AppError () * FileAuditLedger :=
  let! _, l := on_audit_disk (sync_all sync_error) l in
  let removed := take (N.to_nat count) (fa_segments l) in
  let l := drop_segments count l in
  let! _, l := on_audit_disk (remove_files removed) l in
  let! _, l := on_audit_disk (sync_all sync_error) l in
  (Ok (), forget_records (sg_number <$> removed) l).

Lemma remove_oldest_trail k l l' :
  remove_oldest k l = (Ok (), l') → tidy l → (0 < N.to_nat k < length (fa_segments l))%nat →
  tidy l' ∧ ∃ n, fa_records l' = drop n (fa_records l).
Proof.
  intros Ha Ht Hk. unfold remove_oldest in Ha.
  destruct (on_audit_disk _ l) as [[[]|e] l1] eqn:E1; [|done]. apply on_disk_same in E1 as S1.
  pose proof (same_lists_tidy _ _ S1 Ht) as Ht1. cbv zeta in Ha.
  destruct (on_audit_disk (remove_files _) _) as [[[]|e] l2] eqn:E2; [|done]. apply on_disk_same in E2 as S2.
  destruct (on_audit_disk _ l2) as [[[]|e] l3] eqn:E3; [|done].
  apply on_disk_same, (same_lists_trans _ _ _ S2) in E3 as (R3 & G3 & Q3 & C3 & _).
  injection Ha as <-. destruct S1 as (R1 & _ & Q1 & _). rewrite <-Q1 in Hk.
  destruct (forget_trail k l1 Ht1 Hk) as [Htd [n Hn]]. cbv zeta in *. split.
  - eapply tidy_ext; [..|exact Htd]; unfold numbers;
      cbn [forget_records fa_records fa_record_segments fa_segments fa_current_segment];
      by rewrite ?R3, ?G3, ?Q3, ?C3.
  - exists n. rewrite <-R1, <-Hn. cbn [forget_records fa_records]. by rewrite R3, G3.
Qed.

Lemma retain_trail nb ts l l' :
  retain_for nb ts l = (Ok (), l') → tidy l →
  tidy l' ∧ ∃ n cp, checkpoint_record cp ∧ file_trail l' = drop n (file_trail l ++ [cp]).
Proof.
  intros Hret Ht. unfold retain_for in Hret.
  destruct (retention_record _ _) as [template|] eqn:Etemp; [|done].
  destruct (choose_removed _ _ _ _ _ _ _) as [[k m]|] eqn:Hch; [|done].
  destruct (encode_record_with_retention template _) as [payload|]; [|done].
  destruct (_ || _); [done|].
  destruct (append_encoded template payload l) as [[h|e] la] eqn:Ea; [|done].
  apply choose_removed_Ok in Hch as (pre & s & more & Hsplit & Hmore & Hk & _).
  assert (Hlen : length (fa_segments la) = length (fa_segments l)) by (by eapply append_encoded_segments).
  destruct (append_encoded_trail _ _ _ _ _ Ea Ht) as (Hta & Htr & _).
  destruct (remove_oldest_trail k la l' Hret Hta) as [Htd [n Hn]].
  { rewrite Hlen, Hsplit, length_app. destruct more; [done|]. subst k. unfold len. cbn [length]. lia. }
  split; [done|]. exists n, template. split.
  - unfold retention_record in Etemp. by repeat case_match; simplify_eq.
  - unfold file_trail in *. by rewrite Hn, fmap_drop, Htr.
Qed.

(** Dropping old records and adding checkpoints. *)
Definition trail_pruned (old new : list AuditRecord) : Prop :=
  ∃ gone kept cps, old = gone ++ kept ∧ new = kept ++ cps ∧ Forall checkpoint_record cps.
Lemma trail_pruned_drop n old cp :
  checkpoint_record cp → trail_pruned old (drop n (old ++ [cp])).
Proof.
  intros Hc. exists (take n old), (drop n old), (drop (n - length old) [cp]).
  rewrite take_drop, drop_app. split_and!; [done|done|]. apply Forall_drop. by apply Forall_singleton.
Qed.
Lemma trail_pruned_refl old : trail_pruned old old.
Proof. exists [], old, []. by rewrite app_nil_r. Qed.

Lemma prepare_trail nb ts l res l' :
  prepare_storage nb ts l = (res, l') → tidy l →
  match res with
  | Ok _ => tidy l' ∧ trail_pruned (file_trail l) (file_trail l')
  | Err _ => fa_state l' = IoDegraded
  end.
Proof.
  intros Hp Ht. unfold prepare_storage in Hp.
  destruct (_ || _); [injection Hp as <- <-; split; [done|apply trail_pruned_refl]|].
  cbn [maintenance_transition] in Hp.
  destruct (rotate_segment l) as [[[]|e] l1] eqn:E1; [|by injection Hp as <- <-].
  destruct (rotate_trail _ _ _ E1 Ht) as [Ht1 Hr1].
  destruct (retention_required nb l1).
  - destruct (retain_for nb ts l1) as [[[]|e] l2] eqn:E2; [|by injection Hp as <- <-].
    injection Hp as <- <-. destruct (retain_trail _ _ _ _ E2 Ht1) as (Ht2 & n & cp & Hcp & Htr).
    split; [done|]. rewrite Htr. unfold file_trail. rewrite Hr1. by apply trail_pruned_drop.
  - injection Hp as <- <-. split; [done|]. unfold file_trail. rewrite Hr1. apply trail_pruned_refl.
Qed.

Lemma file_append_recorded r : appends file_sound file_trail (append r) r.
Proof.
  intros l res l' Hs Ha. unfold append in Ha.
  destruct (_ || _) eqn:Est; [by injection Ha as <- <-|].
  assert (Ht : tidy l).
  { destruct Hs as [?|[Hd|Hd]]; [done|..]; rewrite Hd in Est; by vm_compute in Est. }
  destruct (record_validate r); [|by injection Ha as <- <-].
  destruct (encode_record r) as [payload|]; [|by injection Ha as <- <-].
  destruct (_ <? len payload); [by injection Ha as <- <-|]. cbv zeta in Ha.
  destruct (_ <? _); [by injection Ha as <- <-|].
  destruct (prepare_storage _ _ l) as [[[]|e] l1] eqn:Ep; pose proof (prepare_trail _ _ _ _ _ Ep Ht) as Hp.
  2:{ injection Ha as <- <-. split; [right; by left|done]. }
  destruct Hp as (Ht1 & gone & kept & cps & Ho & Hn & Hc).
  destruct (append_encoded_trail _ _ _ _ _ Ha Ht1) as [Ht2 Htr]. split; [by left|].
  destruct res as [h|e]; [|done]. destruct Htr as [Htr _].
  exists gone, kept, cps. split_and!; [done| |done]. by rewrite Htr, Hn, <-app_assoc.
Qed.
Lemma file_append_expecting_recorded r e : appends file_sound file_trail (append_expecting r e) r.
Proof.
  intros l res l' Hs Ha. unfold append_expecting in Ha. destruct (expect_head e l).
  - by eapply file_append_recorded.
  - by injection Ha as <- <-.
Qed.

Lemma unresolved_values_nil (m : gmap AuditIdentifier AuditRecord) :
  omap (λ k, m !! k) (sort_bytes (map_to_list m).*1) = [] ↔ m = ∅.
Proof.
  split; [|by intros ->]. intros Ho. apply map_empty. intros k.
  destruct (m !! k) as [r|] eqn:E; [|done]. exfalso.
  assert (Hr : r ∈ omap (λ k, m !! k) (sort_bytes (map_to_list m).*1)).
  { apply list_elem_of_omap. exists k. split; [|done]. unfold sort_bytes.
    rewrite merge_sort_Permutation. apply list_elem_of_fmap. exists (k, r). split; [done|].
    by apply elem_of_map_to_list. }
  rewrite Ho in Hr. by apply not_elem_of_nil in Hr.
Qed.

Lemma file_incomplete_reads l : file_incomplete_operations l = Ok (incomplete_of (file_trail l)).
Proof. done. Qed.
Lemma file_unresolved_reads l :
  ∃ rs, file_unresolved_reconciliations l = Ok rs ∧ (rs = [] ↔ unresolved_after (file_trail l) = ∅).
Proof. eexists. split; [done|]. apply unresolved_values_nil. Qed.
Lemma file_verify_keeps l r l' :
  file_sound l → file_verify l = (r, l') → file_sound l' ∧ file_trail l' = file_trail l.
Proof. intros Hs Hv. unfold file_verify in Hv. destruct (_ <? _); by injection Hv as <- <-. Qed.

#[global] Instance file_ledger_laws : AuditLedgerLaws FileAuditLedger := {
  trail := file_trail;
  sound := file_sound;
  intent_recorded := file_append_recorded;
  terminal_recorded := file_append_expecting_recorded;
  reconciliation_recorded := file_append_expecting_recorded;
  observation_recorded := file_append_recorded;
  incomplete_reads := file_incomplete_reads;
  unresolved_reads := file_unresolved_reads;
  head_reads l := eq_refl;
  verify_keeps := file_verify_keeps
}.
End file_trail.
