(* ===== verification/AuditRetention.v ===== *)
(** * Retention

    Removing the oldest segments keeps the invariant: the checkpoint that is written first names the
    last record removed and its digest, which is where the first remaining segment starts. *)

From stdpp Require Import base gmap strings list sorting.
From Stdlib Require Import Strings.Byte NArith Lia.
From S2P Require Import Prelude Errors RustStr ConfigParser ConfigStore AuditModel AuditCodec AuditLedger AuditScan AuditRecovery AuditInvariant AuditOperations AuditTrail.
Local Open Scope N_scope.

Section retention.
  Context {json : SerdeJson} {json_laws : SerdeLaws} {sha : Sha256} {sha_laws : Sha256Laws}.

(** ** The checkpoint *)
Lemma parse_identifier_Ok v id : parse_identifier v = Ok id → id = v ∧ identifier_ok v = true.
Proof.
  unfold parse_identifier, identifier_ok, audit_identifier_parse.
  destruct (validate_audit_identifier v) as [[]|e]; [|done]. intros [= <-]. done.
Qed.
Lemma retention_record_Ok ts segment r :
  retention_record ts segment = Ok r → ts ≤ U64_MAX →
  record_typed r = true ∧ record_validate r = Ok () ∧ ar_kind r = RetentionCheckpoint.
Proof.
  unfold retention_record. intros Hr Hts.
  generalize dependent (lit "retention-" ++ print_dec segment). intros va Hr.
  generalize dependent (lit "internal-" ++ print_dec segment). intros vb Hr.
  destruct (parse_identifier va) as [a|] eqn:Ha; [|done].
  destruct (parse_identifier vb) as [b|] eqn:Hb; [|done].
  destruct (parse_identifier (lit "ledger")) as [c|] eqn:Hc; [|done].
  apply parse_identifier_Ok in Ha as [-> Ha], Hb as [-> Hb], Hc as [-> Hc].
  destruct (record_validate _) as [[]|] eqn:Hv; [|done]. injection Hr as <-. split_and!; [|done|done].
  unfold record_typed. cbn [forallb opt_holds ar_context ctx_operation_id ctx_request_id ar_target_id
    ar_before ar_after ar_error ctx_received_at]. 
  rewrite Ha, Hb, Hc. cbn [andb]. by apply N.leb_le.
Qed.

(** ** Removing files *)
Lemma remove_file_Ok name d d' :
  remove_file name d = (Ok (), d') →
  ∃ mode files, ad_dir d = Directory mode files ∧ ad_dir d' = Directory mode (delete name files).
Proof.
  unfold remove_file. destruct (next_outcome d) as [[] d1] eqn:E; [|done].
  pose proof (next_outcome_dir _ _ _ E) as Hd. unfold disk_files.
  destruct (ad_dir d1) as [| |mode files] eqn:E1; [by rewrite lookup_empty..|].
  destruct (files !! name); [|done]. intros [= <-]. exists mode, files. split; [congruence|].
  unfold drop_file. by rewrite E1.
Qed.

Lemma remove_first d d' s segs :
  remove_file (segment_path (seg_num s)) d = (Ok (), d') → ledger_dir d (s :: segs) [] →
  linked (s :: segs) → Forall (λ s, segment_range (seg_num s)) (s :: segs) → ledger_dir d' segs [].
Proof.
  intros (mode & files & Hd & Hd')%remove_file_Ok (mode' & files' & Hx & Hm & Hr & Hn) Hl Hrg.
  rewrite Hx in Hd. injection Hd as -> ->. apply Forall_cons in Hrg as [Hs Hrg].
  rewrite Forall_forall in Hrg. exists mode, (delete (segment_path (seg_num s)) files).
  split_and!; [done|done|..].
  - intros n b Hin. rewrite contents_all in *. destruct (Hr n b) as (m & Hm' & Hf).
    { rewrite fmap_cons. by apply list_elem_of_further. }
    exists m. split; [done|]. unfold disk_files in *. rewrite Hx in Hf. rewrite Hd'.
    rewrite lookup_delete_ne; [done|].
    apply list_elem_of_fmap in Hin as (t & [= -> ->] & Ht).
    intros Heq%segment_path_inj; [|done|by apply Hrg].
    pose proof (linked_above s segs t Hl Ht). lia.
  - intros name node Hin. apply lookup_delete_Some in Hin as [Hne Hin].
    destruct (Hn _ _ Hin) as [?|(t & Ht & ->)]; [by left|]. right.
    apply elem_of_cons in Ht as [->|Ht]; [done|]. eauto.
Qed.

Lemma linked_tail s segs : linked (s :: segs) → linked segs.
Proof. apply (linked_suffix 1 (s :: segs)). Qed.

Lemma remove_files_Ok gone keep d d' :
  remove_files (segment_info <$> gone) d = (Ok (), d') → ledger_dir d (gone ++ keep) [] →
  linked (gone ++ keep) → Forall (λ s, segment_range (seg_num s)) (gone ++ keep) → ledger_dir d' keep [].
Proof.
  revert d. induction gone as [|s gone IH]; intros d Hr Hd Hl Hrg.
  - injection Hr as <-. done.
  - rewrite fmap_cons in Hr. cbn [remove_files] in Hr.
    destruct (remove_file _ d) as [[[]|e] d1] eqn:E; [|done].
    cbn [app] in *. eapply (IH d1); [done|exact (remove_first d d1 s (gone ++ keep) E Hd Hl Hrg)|exact (linked_tail s _ Hl)|].
    by apply Forall_cons in Hrg as [_ ?].
Qed.

(** ** Forgetting records *)
Lemma filter_keeps {A} (P : A → Prop) `{∀ x, Decision (P x)} (l : list A) : (∀ x, x ∈ l → P x) → filter P l = l.
Proof.
  induction l as [|x l IH]; intros Hl; [done|]. rewrite filter_cons, decide_True.
  - f_equal. apply IH. intros y Hy. apply Hl. by apply list_elem_of_further.
  - apply Hl. by apply list_elem_of_here.
Qed.
Lemma filter_drops {A} (P : A → Prop) `{∀ x, Decision (P x)} (l : list A) : (∀ x, x ∈ l → ¬ P x) → filter P l = [].
Proof.
  induction l as [|x l IH]; intros Hl; [done|]. rewrite filter_cons, decide_False.
  - apply IH. intros y Hy. apply Hl. by apply list_elem_of_further.
  - apply Hl. by apply list_elem_of_here.
Qed.
Lemma seg_views_length s : length (seg_views s) = length (replicate (length (seg_entries s)) (seg_num s)).
Proof. unfold seg_views. by rewrite views_length, length_replicate. Qed.
Lemma all_views_length segs : length (all_views segs) = length (all_numbers segs).
Proof.
  induction segs as [|s segs IH]; [done|]. unfold all_views, all_numbers in *. cbn [mbind list_bind].
  by rewrite !length_app, IH, seg_views_length.
Qed.
Lemma zip_replicate_filter {A} (xs : list A) n k (gone : list N) :
  length xs = k →
  filter (λ p : A * N, p.2 ∉ gone) (zip xs (replicate k n))
  = if bool_decide (n ∈ gone) then [] else zip xs (replicate k n).
Proof.
  intros <-. induction xs as [|x xs IH]; [by case_bool_decide|]. cbn [length replicate zip zip_with].
  rewrite filter_cons. case_bool_decide as Hb; cbn [snd].
  - by rewrite decide_False by (by intros ?).
  - rewrite decide_True by done. f_equal. exact IH.
Qed.
Lemma zip_filter_segs segs (gone : list N) :
  filter (λ p : AuditRecordView * N, p.2 ∉ gone) (zip (all_views segs) (all_numbers segs))
  = let keep := filter (λ s, seg_num s ∉ gone) segs in zip (all_views keep) (all_numbers keep).
Proof.
  induction segs as [|s segs IH]; [done|]. unfold all_views, all_numbers in *. cbn [mbind list_bind] in *.
  rewrite zip_with_app by apply seg_views_length.
  rewrite filter_app, IH, zip_replicate_filter by (unfold seg_views; apply views_length).
  rewrite filter_cons. case_bool_decide as Hb.
  - by rewrite decide_False by (by intros ?).
  - rewrite decide_True by done. cbn [mbind list_bind].
    by rewrite zip_with_app by apply seg_views_length.
Qed.
Lemma numbers_filter_segs segs (gone : list N) :
  filter (λ n, n ∉ gone) (all_numbers segs) = all_numbers (filter (λ s, seg_num s ∉ gone) segs).
Proof.
  induction segs as [|s segs IH]; [done|]. unfold all_numbers in *. cbn [mbind list_bind] in *.
  rewrite filter_app, IH, filter_cons.
  destruct (decide (seg_num s ∉ gone)) as [Hn|Hn]; cbn [mbind list_bind].
  - f_equal. apply filter_keeps. by intros x [-> _]%elem_of_replicate.
  - rewrite filter_drops; [done|]. by intros x [-> _]%elem_of_replicate.
Qed.
Lemma filter_split_segs gone keep :
  linked (gone ++ keep) → filter (λ s, seg_num s ∉ seg_num <$> gone) (gone ++ keep) = keep.
Proof.
  intros Hl%linked_NoDup. rewrite fmap_app in Hl. apply NoDup_app in Hl as (_ & Hd & _).
  rewrite filter_app, filter_drops, filter_keeps; [done|..].
  - intros s Hs Hin. apply (Hd (seg_num s) Hin). apply list_elem_of_fmap. eauto.
  - intros s Hs Hn. apply Hn, list_elem_of_fmap. eauto.
Qed.

(** ** The chain after a removal *)
Lemma linked_mid gone t h rest :
  linked (gone ++ t :: h :: rest) →
  seg_num h = seg_num t + 1 ∧ seg_seq h = seg_end t ∧ seg_prev h = seg_hash t ∧ seg_entries t ≠ [].
Proof.
  intros Hl. apply (linked_suffix (length gone)) in Hl. rewrite drop_app_length in Hl.
  by destruct Hl as (? & ? & ? & ? & _).
Qed.
Lemma linked_seq_le s segs t : linked (s :: segs) → t ∈ s :: segs → seg_seq s ≤ seg_seq t.
Proof.
  revert s. induction segs as [|b segs IH]; intros s Hl Ht.
  - apply list_elem_of_singleton in Ht as ->. lia.
  - apply elem_of_cons in Ht as [->|Ht]; [lia|]. destruct Hl as (_ & Hq & _ & _ & Hl).
    specialize (IH b Hl Ht). unfold seg_end in Hq. lia.
Qed.

(** The checkpoint metadata for the removal of everything up to [t]. *)
Definition removal (s0 t : Seg) : RetentionMetadata :=
  {| rm_first_sequence := seg_seq s0; rm_last_sequence := seg_end t - 1; rm_terminal_hash := seg_hash t |}.

Section options.
Context (o : AuditLedgerOptions).

Lemma removal_fits s0 gone t rest r :
  chain_ok o (gone ++ t :: rest) → rest ≠ [] → head (gone ++ [t]) = Some s0 →
  ar_kind r = RetentionCheckpoint → metadata_fits r (Some (removal s0 t)).
Proof.
  intros Hc Hr Hh Hk. destruct rest as [|h rest]; [done|].
  assert (Hh' : head (gone ++ t :: h :: rest) = Some s0) by (by destruct gone).
  pose proof (chain_seq_pos _ _ _ Hc Hh') as Hpos.
  destruct Hc as [Hl Hs _ _]. destruct (linked_mid _ _ _ _ Hl) as (_ & _ & _ & Hne).
  apply Forall_app in Hs as [_ Hs]. apply Forall_cons in Hs as [(He & Hp & Hend) _].
  assert (Hle : seg_seq s0 ≤ seg_seq t).
  { destruct gone as [|g gone]; cbn in Hh'; injection Hh' as ->; [lia|].
    apply (linked_seq_le s0 (gone ++ t :: h :: rest)); [done|].
    apply elem_of_cons. right. apply elem_of_app. right. by apply list_elem_of_here. }
  unfold seg_end in *. destruct (seg_entries t) as [|e es] eqn:E; [done|]. rewrite len_cons in *.
  cbn [removal metadata_fits rm_first_sequence rm_last_sequence rm_terminal_hash]. unfold seg_end.
  rewrite E, len_cons. split_and!; [done|lia..|]. unfold seg_hash. by apply chain_hash_length.
Qed.

Lemma chain_removed s0 gone t keep sn :
  chain_ok o ((gone ++ [t]) ++ keep ++ [sn]) → seg_entries sn ≠ [] →
  removal s0 t ∈ metas (seg_entries sn) → seg_seq s0 ≤ seg_end t - 1 → seg_end t ≤ U64_MAX →
  chain_ok o (keep ++ [sn]).
Proof.
  intros [Hl Hs Hr _] Hne Hin Hle Hmax. rewrite <-app_assoc in Hl.
  assert (Hhd : ∃ h rest, keep ++ [sn] = h :: rest) by (destruct keep; eauto).
  destruct Hhd as (h & rest & Hhd).
  assert (Hmid : linked (gone ++ t :: h :: rest)) by (cbn in Hl; by rewrite <-Hhd).
  destruct (linked_mid _ _ _ _ Hmid) as (Hn & Hq & Hp & Hnet).
  split.
  - apply (linked_suffix (length (gone ++ [t]))) in Hl. rewrite app_assoc, drop_app_length in Hl. done.
  - by apply Forall_app in Hs as [_ ?].
  - by apply Forall_app in Hr as [_ ?].
  - exists h. rewrite Hhd. split; [done|].
    apply Forall_app in Hr as [Hrt Hrk]. apply Forall_app in Hrt as [_ Hrt].
    apply Forall_cons in Hrt as [[Hlo _] _]. split; [lia|]. intros _. split.
    + destruct keep as [|h' keep]; cbn [app] in Hhd; injection Hhd as -> Hrest; [done|].
      assert (Hx : linked (h :: keep ++ [sn])).
      { apply (linked_suffix (length gone + 1)) in Hmid. rewrite drop_app_add in Hmid.
        cbn in Hmid. by rewrite <-Hrest in Hmid. }
      destruct keep as [|k keep]; cbn in Hx; by destruct Hx as (_ & _ & _ & ? & _).
    + unfold anchored. apply existsb_exists. exists (removal s0 t). split.
      * rewrite <-Hhd, all_entries_app, metas_app. apply in_app_iff. right. apply list_elem_of_In.
        unfold all_entries. cbn [mbind list_bind]. by rewrite app_nil_r.
      * cbn [removal rm_first_sequence rm_last_sequence rm_terminal_hash]. rewrite Hq, Hp.
        assert (0 < seg_end t) by (unfold seg_end; destruct (seg_entries t); [done|rewrite len_cons; lia]).
        rewrite bool_decide_eq_true_2 by (apply checked_add_Some; lia).
        rewrite bool_decide_eq_true_2 by done. by apply N.leb_le.
Qed.

Definition checkpoint_fits : Prop :=
  ∀ ts segment r m p, ts ≤ U64_MAX → retention_record ts segment = Ok r → metadata_fits r (Some m) →
    encode_record_with_retention r (Some m) = Ok p → len p ≤ ao_max_payload_bytes o.
End options.

(** ** Retention keeps the invariant *)
Lemma info_split init x pre s more :
  (segment_info <$> init) ++ [x] = pre ++ s :: more → more ≠ [] →
  ∃ gone t keep, init = gone ++ t :: keep ∧ pre = segment_info <$> gone ∧ s = segment_info t.
Proof.
  revert pre. induction init as [|a init IH]; intros pre Heq Hm.
  - destruct pre as [|p pre]; cbn in Heq; [by injection Heq as _ <-|].
    injection Heq as _ Heq. by destruct pre.
  - destruct pre as [|p pre].
    + cbn in Heq. injection Heq as <- _. by exists [], a, init.
    + rewrite fmap_cons in Heq. cbn [app] in Heq. injection Heq as <- Heq.
      destruct (IH pre Heq Hm) as (gone & t & keep & -> & -> & ->). by exists (a :: gone), t, keep.
Qed.

Definition fields_after_drop (l : FileAuditLedger) (gone : list Seg) : FileAuditLedger :=
  forget_records (seg_num <$> gone) (drop_segments (len gone) l).

Lemma forget_fields l gone keep sn :
  ledger_fields l (gone ++ keep) sn → seg_entries sn ≠ [] → linked (gone ++ keep ++ [sn]) →
  ledger_fields (fields_after_drop l gone) keep sn.
Proof.
  intros [Fr Fn (x & Fs & Ft) Fc Fb Fg Fq Fh] Hne Hl. rewrite <-app_assoc in *.
  assert (x = segment_info sn) as -> by (destruct Ft as [->|[? _]]; done).
  assert (Hseg : fa_segments (drop_segments (len gone) l) = segment_info <$> (keep ++ [sn])).
  { cbn [drop_segments fa_segments]. rewrite Fs. unfold len. rewrite Nat2N.id.
    rewrite fmap_app, <-app_assoc, drop_app_length' by (by rewrite length_fmap). by rewrite fmap_app. }
  unfold fields_after_drop. split; cbn [forget_records fa_records fa_record_segments fa_segments
    fa_current_segment fa_current_segment_bytes fa_head fa_last_hash head_generation head_sequence].
  - cbn [drop_segments fa_records fa_record_segments]. rewrite Fr, Fn, zip_filter_segs.
    cbv zeta. rewrite filter_split_segs by done. rewrite fst_zip; [done|]. by rewrite all_views_length.
  - cbn [drop_segments fa_record_segments]. by rewrite Fn, numbers_filter_segs, filter_split_segs.
  - exists (segment_info sn). rewrite Hseg, fmap_app. split; [done|by left].
  - done.
  - done.
  - intros s0 Hh. rewrite Hseg. destruct (keep ++ [sn]) as [|h rest]; [done|]. injection Hh as ->. done.
  - done.
  - done.
Qed.

Lemma take_gone gone keep x (l : FileAuditLedger) :
  fa_segments l = (segment_info <$> (gone ++ keep)) ++ [x] →
  take (N.to_nat (len gone)) (fa_segments l) = segment_info <$> gone.
Proof.
  intros ->. unfold len. rewrite Nat2N.id, fmap_app, <-app_assoc. apply take_app_length'.
  by rewrite length_fmap.
Qed.

Lemma remove_oldest_Ok l gone keep sn l' :
  ledger_ok l (gone ++ keep) sn → seg_entries sn ≠ [] → chain_ok (fa_options l) (keep ++ [sn]) →
  remove_oldest (len gone) l = (Ok (), l') → ledger_ok l' keep sn ∧ fa_options l' = fa_options l.
Proof.
  intros [Ho Hc Hd Hf Hw] Hne Hck Hrun. pose proof Hf as [_ _ (x & Fs & _) _ _ _ _ _].
  unfold remove_oldest, on_audit_disk at 1 in Hrun.
  destruct (sync_all sync_error (fa_disk l)) as [[[]|] d1] eqn:E1; [|done]. apply sync_all_dir in E1.
  cbv zeta in Hrun. rewrite (take_gone gone keep x (set_disk d1 l) Fs) in Hrun.
  unfold on_audit_disk at 1 in Hrun. cbn [drop_segments set_disk fa_disk] in Hrun.
  destruct (remove_files _ d1) as [[[]|] d2] eqn:E2; [|done].
  unfold on_audit_disk in Hrun. cbn [set_disk fa_disk] in Hrun.
  destruct (sync_all sync_error d2) as [[[]|] d3] eqn:E3; [|done]. apply sync_all_dir in E3.
  injection Hrun as <-. rewrite <-app_assoc in Hc, Hd. pose proof Hc as [Hl _ Hr _].
  replace (sg_number <$> (segment_info <$> gone)) with (seg_num <$> gone) by (by rewrite <-list_fmap_compose).
  split; [|done]. split; [done|done| | |exact Hw].
  - eapply ledger_dir_ext; [symmetry; exact E3|].
    apply (remove_files_Ok gone (keep ++ [sn]) d1 d2 E2); [|done|done].
    by eapply ledger_dir_ext.
  - pose proof (forget_fields l gone keep sn Hf Hne Hl) as Hff. by destruct Hff.
Qed.

(** What the checkpoint says. *)
Lemma retention_choice l gone t keep sn ts template k m :
  chain_ok (fa_options l) ((gone ++ t :: keep) ++ [sn]) →
  rm_last_sequence m = sg_last_sequence (segment_info t) →
  rm_terminal_hash m = sg_terminal_hash (segment_info t) →
  rm_first_sequence m = sg_first_sequence (default (segment_info t) (head (segment_info <$> gone))) →
  retention_record ts k = Ok template → ts ≤ U64_MAX → checkpoint_fits (fa_options l) →
  ∀ payload, encode_record_with_retention template (Some m) = Ok payload →
  ∃ s0, m = removal s0 t
    ∧ entry_ok (fa_options l) {| en_record := template; en_metadata := Some m; en_payload := payload |}
    ∧ ar_kind template = RetentionCheckpoint.
Proof.
  intros Hc Hml Hmh Hmf Ht Hts Hfit payload He.
  destruct (retention_record_Ok _ _ _ Ht Hts) as (Htyped & Hvalid & Hkind).
  rewrite <-app_assoc in Hc. cbn [app] in Hc.
  assert (Hnet : seg_entries t ≠ []).
  { destruct Hc as [Hl _ _ _]. destruct (keep ++ [sn]) as [|h rest] eqn:E; [by destruct keep|].
    by destruct (linked_mid _ _ _ _ Hl) as (_ & _ & _ & ?). }
  assert (Hs0 : ∃ s0, head (gone ++ [t]) = Some s0) by (destruct gone; eauto).
  destruct Hs0 as [s0 Hs0]. exists s0.
  assert (Hm : m = removal s0 t).
  { destruct m as [mf ml mh]. cbn [rm_first_sequence rm_last_sequence rm_terminal_hash] in *.
    unfold removal. subst. f_equal.
    - destruct gone; cbn in Hs0; injection Hs0 as ->; done.
    - cbn [segment_info sg_last_sequence]. by destruct (seg_entries t). }
  subst m.
  assert (Hmf' : metadata_fits template (Some (removal s0 t))).
  { eapply removal_fits; [exact Hc|by destruct keep|done|done]. }
  split; [done|]. split; [|done]. unfold entry_ok. cbn [en_record en_metadata en_payload].
  split_and!; [done|done|done|done|]. exact (Hfit _ _ _ _ _ Hts Ht Hmf' He).
Qed.

Lemma retain_Ok l init sn nb ts l' :
  ledger_ok l init sn → ts ≤ U64_MAX → checkpoint_fits (fa_options l) → seg_end sn + 1 < U64_MAX →
  retain_for nb ts l = (Ok (), l') →
  ∃ gone keep cp, init = gone ++ keep ∧ gone ≠ [] ∧ ledger_ok l' keep (seg_snoc sn cp)
    ∧ fa_options l' = fa_options l ∧ ar_kind (en_record cp) = RetentionCheckpoint.
Proof.
  intros Hok Hts Hfit Hseq Hret. pose proof Hok as [Ho Hc Hd [_ _ (x & Fs & Ft) _ _ _ _ _] Hw].
  unfold retain_for in Hret.
  destruct (retention_record ts (fa_current_segment l)) as [template|] eqn:Ht; [|done].
  destruct (choose_removed _ _ _ _ _ _ _) as [[k m]|] eqn:Hch; [|done].
  destruct (encode_record_with_retention template (Some m)) as [payload|] eqn:He; [|done].
  destruct (_ || _); [done|].
  apply choose_removed_Ok in Hch as (pre & s & more & Hsplit & Hmore & -> & Hml & Hmh & Hmf).
  rewrite Fs in Hsplit. apply info_split in Hsplit as (gone & t & keep & -> & -> & ->); [|done].
  destruct (retention_choice l gone t keep sn ts template _ m Hc Hml Hmh Hmf Ht Hts Hfit payload He)
    as (s0 & -> & Hcp & Hkind).
  set (cp := {| en_record := template |}) in Hcp.
  pose proof (append_encoded_spec l (gone ++ t :: keep) sn cp Hok Hcp Hseq) as Happ.
  cbn [cp en_record en_payload] in Happ.
  destruct (append_encoded template payload l) as [ra la] eqn:Ea.
  destruct Happ as [la Hla Hst Hopt|]; [|done].
  replace (gone ++ t :: keep) with ((gone ++ [t]) ++ keep) in * by (by rewrite <-app_assoc).
  assert (Hnes : seg_entries (seg_snoc sn cp) ≠ []) by (cbn; by destruct (seg_entries sn)).
  assert (Hck : chain_ok (fa_options la) (keep ++ [seg_snoc sn cp])).
  { destruct Hla as [_ La_c _ _ _]. rewrite <-app_assoc in La_c. pose proof La_c as [_ Lc_s _ _].
    eapply (chain_removed _ s0 gone t); [exact La_c|done|..].
    - cbn [seg_snoc seg_entries]. rewrite metas_app. apply elem_of_app. right. by apply list_elem_of_here.
    - by destruct Hcp as (_ & _ & (_ & _ & ? & _) & _).
    - apply Forall_app in Lc_s as [Lc_s _]. apply Forall_app in Lc_s as [_ Lc_s].
      apply Forall_cons in Lc_s as [(_ & _ & ?) _]. lia. }
  replace (0 + len (segment_info <$> gone) + 1) with (len (gone ++ [t])) in Hret
    by (unfold len; rewrite length_app, length_fmap; cbn; lia).
  destruct (remove_oldest_Ok la (gone ++ [t]) keep (seg_snoc sn cp) l' Hla Hnes Hck Hret) as [Hend Hopt'].
  exists (gone ++ [t]), keep, cp. split_and!; [done|by destruct gone|done|congruence|done].
Qed.

(** ** Appending a record *)
Definition is_checkpoint (v : AuditRecordView) : Prop := ar_kind (view_record v) = RetentionCheckpoint.
(** [new] is [old] without some of its oldest records and with checkpoints after it. *)
Definition pruned (old new : list AuditRecordView) : Prop :=
  ∃ gone kept checkpoints, old = gone ++ kept ∧ new = kept ++ checkpoints ∧ Forall is_checkpoint checkpoints.

(** The numbers a ledger still has to give out: two records and one segment for each append. *)
Definition has_room (n : N) (sn : Seg) : Prop :=
  seg_end sn + 2 * n < U64_MAX ∧ seg_num sn + n < 10 ^ 16.
Definition grown (sn sn' : Seg) : Prop := ∀ n, has_room (1 + n) sn → has_room n sn'.

Lemma pruned_refl l : pruned l l.
Proof. exists [], l, []. by rewrite app_nil_r. Qed.

Lemma seg_nonempty sn : len (seg_bytes sn) ≠ 0 → seg_entries sn ≠ [].
Proof. intros Hb He. apply Hb. unfold seg_bytes. by rewrite He. Qed.

Lemma prepare_Ok l init sn nb ts l' :
  ledger_ok l init sn → ts ≤ U64_MAX → checkpoint_fits (fa_options l) → has_room 1 sn →
  prepare_storage nb ts l = (Ok (), l') →
  ∃ init' sn', ledger_ok l' init' sn' ∧ fa_options l' = fa_options l
    ∧ pruned (fa_records l) (fa_records l')
    ∧ seg_end sn' ≤ seg_end sn + 1 ∧ seg_num sn' ≤ seg_num sn + 1.
Proof.
  intros Hok Hts Hfit [Hroom Hrooms] Hp. pose proof Hok as [_ Hc _ [Fr _ _ _ Fb _ _ _] _].
  unfold prepare_storage in Hp. destruct (_ || _) eqn:Efit.
  { injection Hp as <-. exists init, sn. split_and!; [done|done|apply pruned_refl|lia|lia]. }
  apply orb_false_iff in Efit as [Hz _]. nbool. rewrite Fb in Hz. apply seg_nonempty in Hz.
  destruct (chain_last_ok _ _ _ Hc) as [_ [Hlo _]].
  assert (Hrange : segment_range (seg_num sn + 1)) by (split; lia).
  pose proof (rotate_spec l init sn Hok Hz Hrange) as Hrot.
  cbn [maintenance_transition] in Hp.
  destruct (rotate_segment l) as [[[]|e] l1]; [|done]. destruct Hrot as (Hopt & Hrec & Hok1 & _).
  assert (Hend : seg_end (seg_after sn) = seg_end sn).
  { unfold seg_end at 1. cbn [seg_after seg_seq seg_entries]. rewrite len_nil. lia. }
  destruct (retention_required nb l1) eqn:Ereq.
  - destruct (retain_for nb ts l1) as [[[]|e] l2] eqn:Eret; [|done]. injection Hp as <-.
    apply (retain_Ok l1 (init ++ [sn]) (seg_after sn)) in Eret; [|done|done|by rewrite Hopt|rewrite Hend; lia].
    destruct Eret as (gone & keep & cp & Hsplit & _ & Hok2 & Hopt2 & Hkind).
    exists keep, (seg_snoc (seg_after sn) cp). split_and!; [done|congruence| |rewrite seg_snoc_end; lia|cbn; lia].
    pose proof Hok2 as [_ _ _ [Fr2 _ _ _ _ _ _ _] _]. rewrite Fr, Fr2, Hsplit, all_views_app.
    exists (all_views gone), (all_views keep), [{| view_sequence := seg_end sn; view_record := en_record cp |}].
    split_and!; [done| |by apply Forall_singleton].
    rewrite all_views_app. done.
  - injection Hp as <-. exists (init ++ [sn]), (seg_after sn).
    split_and!; [done|done|rewrite Hrec; apply pruned_refl|lia|cbn; lia].
Qed.

Lemma append_Ok l init sn r h l' :
  ledger_ok l init sn → record_typed r = true → ar_kind r ≠ RetentionCheckpoint →
  checkpoint_fits (fa_options l) → has_room 1 sn → append r l = (Ok h, l') →
  ∃ init' sn', ledger_ok l' init' sn' ∧ fa_options l' = fa_options l ∧ h = fa_head l' ∧ grown sn sn'
    ∧ fa_state l' = PublishedHead
    ∧ ∃ mid, pruned (fa_records l) mid
        ∧ fa_records l' = mid ++ [{| view_sequence := head_sequence h; view_record := r |}].
Proof.
  intros Hok Ht Hk Hfit Hroom Ha. unfold append in Ha.
  destruct (_ || _); [done|]. destruct (record_validate r) as [[]|] eqn:Hv; [|done].
  unfold encode_record in Ha. destruct (encode_record_with_retention r None) as [payload|] eqn:He; [|done].
  destruct (_ <? len payload) eqn:Hlen; [done|]. cbv zeta in Ha.
  destruct (ao_max_segment_bytes (fa_options l) <? _); [done|].
  destruct (prepare_storage _ _ l) as [[[]|e] l1] eqn:Ep; [|done].
  assert (Hts : ctx_received_at (ar_context r) ≤ U64_MAX).
  { unfold record_typed in Ht. rewrite !andb_true_iff in Ht. destruct_and!. by apply N.leb_le. }
  destruct (prepare_Ok _ _ _ _ _ _ Hok Hts Hfit Hroom Ep)
    as (init1 & sn1 & Hok1 & Hopt1 & Hpr & Hend1 & Hnum1).
  set (e := {| en_record := r; en_metadata := None; en_payload := payload |}).
  assert (Hent : entry_ok (fa_options l1) e).
  { rewrite Hopt1. nbool. split_and!; done. }
  destruct Hroom as [Hr1 Hr2].
  pose proof (append_encoded_spec l1 init1 sn1 e Hok1 Hent ltac:(lia)) as Hspec.
  cbn [e en_record en_payload] in Hspec. rewrite Ha in Hspec.
  inversion Hspec as [l2 Hok2 Hst Hopt2 Eh El|]; subst l2. clear Hspec.
  exists init1, (seg_snoc sn1 e). split_and!; [done|congruence|done| |done|].
  - intros n [Hn1 Hn2]. split; rewrite ?seg_snoc_end; cbn [seg_snoc seg_num]; lia.
  - exists (fa_records l1). split; [done|].
    destruct Hok1 as [_ _ _ [Fr1 _ _ _ _ _ _ _] _]. destruct Hok2 as [_ _ _ [Fr2 _ _ _ _ _ Fq2 _] _].
    rewrite Fr2, Fr1, Fq2, !all_views_app, seg_snoc_end, <-app_assoc. f_equal. unfold all_views.
    cbn [mbind list_bind]. rewrite !app_nil_r. unfold seg_views. cbn [seg_snoc seg_seq seg_entries].
    rewrite views_snoc. by replace (seg_end sn1 + 1 - 1) with (seg_end sn1) by lia.
Qed.
End retention.
