(* ===== verification/AuditSample.v ===== *)
(** * A codec and a digest that keep the laws

    The ledger is proved over any [SerdeJson] and [Sha256] that keep their laws.  Here are two that
    do, and that compute: strings are written byte by byte with an end mark, integers in eight
    bytes, and a digest is the head of its input.  The examples of the ledger run with them. *)

From stdpp Require Import base gmap strings list sorting.
From Stdlib Require Import Strings.Byte NArith Lia.
From S2P Require Import Prelude Errors RustStr ConfigParser ConfigStore AuditModel AuditCodec AuditLedger AuditScan AuditRecovery AuditInvariant AuditRetention.
Local Open Scope N_scope.

(** ** Writing *)
Definition put_text (s : list byte) : list byte := (s ≫= λ b, [x01; b]) ++ [x00].
Definition put_number (n : N) : list byte := to_be 8 n.
Definition put_option {A} (put : A → list byte) (o : option A) : list byte :=
  match o with Some x => x01 :: put x | None => [x00] end.

(** ** Reading: what was read and what is left *)
Fixpoint get_text (l : list byte) : option (list byte * list byte) :=
  match l with
  | x01 :: b :: l => '(s, rest) ← get_text l; Some (b :: s, rest)
  | x00 :: l => Some ([], l)
  | _ => None
  end.
Definition get_number (l : list byte) : option (N * list byte) := Some (from_be (take 8 l), drop 8 l).
Definition get_option {A} (get : list byte → option (A * list byte)) (l : list byte)
  : option (option A * list byte) :=
  match l with
  | x01 :: l => '(x, rest) ← get l; Some (Some x, rest)
  | x00 :: l => Some (None, l)
  | _ => None
  end.

Lemma get_put_text s rest : get_text (put_text s ++ rest) = Some (s, rest).
Proof.
  induction s as [|b s IH]; [done|]. unfold put_text in *. cbn [mbind list_bind app get_text].
  rewrite IH. done.
Qed.
Lemma get_put_number n rest : n ≤ U64_MAX → get_number (put_number n ++ rest) = Some (n, rest).
Proof.
  intros Hn. unfold get_number, put_number.
  rewrite take_app_length', drop_app_length' by (by rewrite to_be_length).
  rewrite from_be_to_be; [done|]. unfold U64_MAX in Hn. cbn. lia.
Qed.
Lemma get_put_option {A} (P : A → bool) put (get : list byte → option (A * list byte)) o rest :
  (∀ x, P x = true → get (put x ++ rest) = Some (x, rest)) → opt_holds P o = true →
  get_option get (put_option put o ++ rest) = Some (o, rest).
Proof. intros Hx Ho. destruct o as [x|]; [|done]. cbn in *. by rewrite Hx. Qed.

Definition sample_write (d : RecordDto) : list byte :=
  put_number (dto_record_version d) ++ put_text (dto_record_kind d) ++ put_text (dto_operation_id d)
  ++ put_text (dto_request_id d) ++ put_text (dto_actor_kind d) ++ put_text (dto_action d)
  ++ put_text (dto_target_kind d) ++ put_text (dto_target_id d)
  ++ put_option put_text (dto_before_revision d) ++ put_option put_text (dto_after_revision d)
  ++ put_option put_text (dto_outcome d) ++ put_option put_text (dto_error_code d)
  ++ put_number (dto_timestamp d) ++ put_option put_number (dto_pruned_first d)
  ++ put_option put_number (dto_pruned_last d) ++ put_option put_text (dto_pruned_hash d) ++ [].
Definition sample_read (l : list byte) : option RecordDto :=
  '(version, l) ← get_number l; '(kind, l) ← get_text l; '(operation, l) ← get_text l;
  '(request, l) ← get_text l; '(actor, l) ← get_text l; '(action, l) ← get_text l;
  '(target, l) ← get_text l; '(target_id, l) ← get_text l;
  '(before, l) ← get_option get_text l; '(after, l) ← get_option get_text l;
  '(outcome, l) ← get_option get_text l; '(error, l) ← get_option get_text l;
  '(timestamp, l) ← get_number l; '(first, l) ← get_option get_number l;
  '(last, l) ← get_option get_number l; '(hash, l) ← get_option get_text l;
  Some {| dto_record_version := version; dto_record_kind := kind; dto_operation_id := operation;
          dto_request_id := request; dto_actor_kind := actor; dto_action := action;
          dto_target_kind := target; dto_target_id := target_id; dto_before_revision := before;
          dto_after_revision := after; dto_outcome := outcome; dto_error_code := error;
          dto_timestamp := timestamp; dto_pruned_first := first; dto_pruned_last := last;
          dto_pruned_hash := hash |}.

Definition sample_json : SerdeJson :=
  {| to_vec := λ d, Some (sample_write d); from_slice := sample_read |}.
Definition sample_sha : Sha256 := λ b, take 32 (b ++ replicate 32 x00).

Lemma get_put_text_option o rest :
  opt_holds utf8_valid o = true → get_option get_text (put_option put_text o ++ rest) = Some (o, rest).
Proof. apply get_put_option. intros x _. apply get_put_text. Qed.
Lemma get_put_number_option o rest :
  opt_holds (λ n, n <=? U64_MAX) o = true →
  get_option get_number (put_option put_number o ++ rest) = Some (o, rest).
Proof. apply get_put_option. intros x Hx%N.leb_le. by apply get_put_number. Qed.

#[local] Existing Instance sample_json.
#[local] Existing Instance sample_sha.

Lemma sample_read_write d : dto_typed d = true → sample_read (sample_write d) = Some d.
Proof.
  intros Hd. unfold dto_typed in Hd. cbn [forallb] in Hd. rewrite !andb_true_iff, !N.leb_le in Hd.
  destruct_and!. unfold sample_read, sample_write.
  rewrite get_put_number by (unfold U16_MAX, U64_MAX in *; lia). cbn [mbind option_bind].
  do 7 (rewrite get_put_text; cbn [mbind option_bind]).
  do 4 (rewrite get_put_text_option by done; cbn [mbind option_bind]).
  rewrite get_put_number by done. cbn [mbind option_bind].
  do 2 (rewrite get_put_number_option by done; cbn [mbind option_bind]).
  rewrite get_put_text_option by done. cbn [mbind option_bind]. by destruct d.
Qed.
Lemma sample_json_laws : @SerdeLaws sample_json.
Proof.
  split; [intros d _; by eexists|]. intros d b Hd [= <-]. by apply sample_read_write.
Qed.
Lemma sample_sha_laws : @Sha256Laws sample_sha.
Proof. intros b. unfold sha256, sample_sha. rewrite length_take, length_app, length_replicate. lia. Qed.

(** ** A checkpoint is short *)
Lemma put_text_len s : len (put_text s) = 2 * len s + 1.
Proof.
  unfold put_text. rewrite len_app. replace (len (s ≫= λ b, [x01; b])) with (2 * len s); [done|].
  induction s as [|b s IH]; [done|]. cbn [mbind list_bind app]. rewrite !len_cons, <-IH. lia.
Qed.
Lemma put_number_len n : len (put_number n) = 8.
Proof. unfold len, put_number. by rewrite to_be_length. Qed.
Lemma identifier_len v w : parse_identifier v = Ok w → len w ≤ 128.
Proof.
  unfold parse_identifier, audit_identifier_parse, validate_audit_identifier. intros H.
  case_bool_decide; [done|]. destruct (_ <? _) eqn:Hl; [done|]. apply N.ltb_ge in Hl.
  destruct (forallb _ _); [|done]. injection H as <-. exact Hl.
Qed.
Lemma encode_hash_len h : len (encode_hash h) = 2 * len h.
Proof. change (encode_hash h) with (hex_encode h). unfold len. rewrite hex_encode_length. lia. Qed.

Lemma sample_checkpoint_fits o : ao_max_payload_bytes o = 8192 → checkpoint_fits o.
Proof.
  intros Ho ts segment r m p _ Hr (_ & _ & _ & _ & Hh) [= <-]. rewrite Ho. clear Ho.
  unfold retention_record in Hr.
  destruct (parse_identifier (_ ++ _)) as [a|] eqn:Ha; [|done].
  destruct (parse_identifier (lit "internal-" ++ _)) as [b|] eqn:Hb; [|done].
  change (parse_identifier (lit "ledger")) with (Ok (E:=AppError) (lit "ledger")) in Hr. cbv beta iota zeta in Hr.
  destruct (record_validate _); [|done]. injection Hr as <-.
  apply identifier_len in Ha, Hb.
  unfold sample_write, record_dto. cbn [dto_record_version dto_record_kind dto_operation_id
    dto_request_id dto_actor_kind dto_action dto_target_kind dto_target_id dto_before_revision
    dto_after_revision dto_outcome dto_error_code dto_timestamp dto_pruned_first dto_pruned_last
    dto_pruned_hash ar_version ar_kind ar_context ctx_operation_id ctx_request_id ctx_actor_kind
    ctx_received_at ar_action ar_target_kind ar_target_id ar_before ar_after ar_outcome ar_error
    fmap option_fmap option_map compose put_option].
  repeat (rewrite len_app || rewrite len_cons || rewrite put_number_len || rewrite put_text_len || rewrite encode_hash_len).
  replace (len (rm_terminal_hash m)) with 32 by (unfold len; by rewrite Hh).
  repeat match goal with |- context [len (lit ?s)] =>
    let v := eval vm_compute in (len (lit s)) in change (len (lit s)) with v end.
  rewrite !len_nil. lia.
Qed.
