(* ===== verification/AuditDurability.v ===== *)
(** * What survives

    Over a fresh directory and whatever the file system answers: what was acknowledged is there
    after a restart, and a write that is cut short anywhere costs nothing that was acknowledged. *)

From stdpp Require Import base gmap strings list sorting.
From Stdlib Require Import Strings.Byte NArith Lia.
From S2P Require Import Prelude Errors RustStr ConfigParser ConfigStore AuditModel AuditCodec AuditLedger AuditScan AuditRecovery AuditInvariant AuditOperations AuditTrail AuditRetention AuditSample.
Local Open Scope N_scope.

(** ** Histories *)
Definition fresh_disk : AuditDisk := {| ad_dir := NoEntry; ad_io := [] |}.
(** The file system will answer [io] from now on, and then always succeed. *)
Definition with_io (io : list AuditIo) (l : FileAuditLedger) : FileAuditLedger :=
  set_disk {| ad_dir := ad_dir (fa_disk l); ad_io := io |} l.
Definition quiet_disk (d : AuditDisk) : AuditDisk := {| ad_dir := ad_dir d; ad_io := [] |}.
Definition user_record (r : AuditRecord) : Prop := record_typed r = true ∧ ar_kind r ≠ RetentionCheckpoint.

Section durability.
  Context {json : SerdeJson} {json_laws : SerdeLaws} {sha : Sha256} {sha_laws : Sha256Laws}.

(** Appending records one after the other; [None] as soon as one is refused. *)
Fixpoint append_all (rs : list AuditRecord) (l : FileAuditLedger) : option FileAuditLedger :=
  match rs with
  | [] => Some l
  | r :: rs =>
      match append r l with
      | (Ok _, l) => append_all rs l
      | (Err _, _) => None
      end
  end.

(** ** The first opening *)
Definition first_segment : Seg :=
  {| seg_num := 1; seg_seq := 1; seg_prev := replicate 32 x00; seg_entries := [] |}.
Definition first_disk : AuditDisk :=
  {| ad_dir := Directory 448 {[segment_path 1 := RegularFile 384 1 []]}; ad_io := [] |}.

Lemma open_fresh o :
  options_refused o = false →
  open_ledger o fresh_disk
  = (Ok (opened o [first_segment] first_segment first_segment IoReady first_disk), first_disk).
Proof. intros Ho. unfold open_ledger. rewrite Ho. destruct o as [? ? [] ? ? ?]; vm_compute; reflexivity. Qed.

Lemma first_chain o : chain_ok o [first_segment].
Proof.
  split.
  - done.
  - apply Forall_singleton. split_and!; [constructor|done|done].
  - apply Forall_singleton. done.
  - exists first_segment. done.
Qed.
Lemma first_dir : ledger_dir first_disk [first_segment] [].
Proof.
  exists 448, {[segment_path 1 := RegularFile 384 1 []]}. split_and!; [done|done|..].
  - intros n b Hin. cbn [contents] in Hin. apply list_elem_of_singleton in Hin as [= -> ->].
    exists 384. split; [done|]. unfold disk_files. cbn [first_disk ad_dir]. apply lookup_singleton_eq.
  - intros name node [<- _]%lookup_singleton_Some. right. exists first_segment.
    split; [by apply list_elem_of_singleton|done].
Qed.
Lemma opened_ok o init sn s0 state d :
  options_refused o = false → chain_ok o (init ++ [sn]) → head (init ++ [sn]) = Some s0 →
  ledger_dir d (init ++ [sn]) [] → writable state →
  ledger_ok (opened o (init ++ [sn]) s0 sn state d) init sn.
Proof.
  intros Ho Hc Hh Hd Hw. split; [done|done|done| |done]. split; try done.
  - exists (segment_info sn). cbn [opened fa_segments]. rewrite fmap_app. split; [done|by left].
  - intros s1 Hs1. cbn. congruence.
Qed.

Lemma ledger_ok_io l init sn io : ledger_ok l init sn → ledger_ok (with_io io l) init sn.
Proof.
  intros [Ho Hc Hd Hf Hw]. split; [done|done| |by apply fields_set_disk|done].
  by eapply ledger_dir_ext; [|exact Hd].
Qed.


Lemma all_views_entries segs : len (all_views segs) = len (all_entries segs).
Proof.
  unfold len. f_equal. induction segs as [|s segs IH]; [done|]. unfold all_views, all_entries in *.
  cbn [mbind list_bind]. rewrite !length_app, IH. unfold seg_views. by rewrite views_length.
Qed.
Lemma head_snoc (init : list Seg) sn : ∃ s0, head (init ++ [sn]) = Some s0.
Proof. destruct init; eauto. Qed.

Lemma open_dir o init sn s0 d :
  options_refused o = false → chain_ok o (init ++ [sn]) → head (init ++ [sn]) = Some s0 →
  ledger_dir d (init ++ [sn]) [] → ad_io d = [] →
  len (all_views (init ++ [sn])) ≤ ao_max_scan_records o →
  open_ledger o d = (Ok (opened o (init ++ [sn]) s0 sn IoReady d), d).
Proof.
  intros Ho Hc Hh Hd Hq Hsc.
  rewrite (open_chain o Ho (init ++ [sn]) s0 sn [] d Hc Hh (last_snoc _ _)); try done.
  - unfold cleaned. rewrite last_snoc. by rewrite bool_decide_eq_true_2.
  - unfold tail_ok. rewrite last_snoc. by left.
  - rewrite all_views_entries in Hsc. split; [lia|done].
Qed.


(** ** The records that are kept *)
Definition user_trail (l : FileAuditLedger) : list AuditRecord :=
  filter (λ r, ar_kind r ≠ RetentionCheckpoint) (file_trail l).

Lemma user_trail_append l r l' :
  trail_append (file_trail l) r (file_trail l') → ar_kind r ≠ RetentionCheckpoint →
  ∃ k, user_trail l' = drop k (user_trail l) ++ [r].
Proof.
  intros (gone & kept & cps & Ho & Hn & Hc) Hr. unfold user_trail. rewrite Ho, Hn.
  exists (length (filter (λ r, ar_kind r ≠ RetentionCheckpoint) gone)).
  rewrite !filter_app, drop_app_length. f_equal. rewrite filter_drops.
  - cbn [app]. apply filter_keeps. by intros x ->%list_elem_of_singleton.
  - intros x Hx Hnot. rewrite Forall_forall in Hc. by apply Hnot, Hc.
Qed.

(** The last ones of a list, the very last at least. *)
Definition latest (trail all : list AuditRecord) : Prop :=
  ∃ k, trail = drop k all ∧ (all = [] ∨ k < length all)%nat.

Lemma append_all_kept m rs l init sn before l' :
  ledger_ok l init sn → tidy l → checkpoint_fits (fa_options l) → Forall user_record rs →
  has_room (len rs + m) sn → latest (user_trail l) before → append_all rs l = Some l' →
  (∃ init' sn', ledger_ok l' init' sn' ∧ has_room m sn') ∧ fa_options l' = fa_options l
  ∧ latest (user_trail l') (before ++ rs).
Proof.
  revert l init sn before. induction rs as [|r rs IH]; intros l init sn before Hok Htd Hfit Hrs Hroom Hb Hall.
  { injection Hall as <-. rewrite app_nil_r. rewrite len_nil, N.add_0_l in Hroom. eauto 8. }
  apply Forall_cons in Hrs as [[Ht Hk] Hrs]. cbn [append_all] in Hall. rewrite len_cons in Hroom.
  destruct (append r l) as [[h|e] l1] eqn:Ea; [|done].
  destruct (append_Ok l init sn r h l1 Hok Ht Hk Hfit) as (init1 & sn1 & Hok1 & Hopt1 & _ & Hgr & Hst & _);
    [destruct Hroom; split; lia|done|].
  pose proof Hok as [_ _ _ _ Hw].
  destruct (file_append_recorded r l (Ok h) l1 (or_introl Htd) Ea) as [Hs1 Htr].
  assert (Htd1 : tidy l1) by (destruct Hs1 as [?|[Hx|Hx]]; [done|by rewrite Hst in Hx..]).
  destruct (user_trail_append l r l1 Htr Hk) as [k1 Hk1]. destruct Hb as (k & Hb & _).
  destruct (IH l1 init1 sn1 (before ++ [r]) Hok1 Htd1) as (Hex & Hopt & Hk2); try done.
  - by rewrite Hopt1.
  - apply Hgr. by rewrite N.add_assoc.
  - exists (min (k1 + k) (length before)). split; [|right; rewrite length_app; cbn; lia]. rewrite Hk1, Hb, drop_drop.
    rewrite drop_app_le by lia. f_equal. destruct (decide (k1 + k ≤ length before)%nat).
    + f_equal. lia.
    + rewrite !drop_ge by lia. done.
  - split; [done|]. split; [congruence|]. by rewrite <-app_assoc in Hk2.
Qed.

Lemma opened_tidy o init sn s0 state d :
  linked (init ++ [sn]) → tidy (opened o (init ++ [sn]) s0 sn state d).
Proof.
  intros Hl. split; cbn [opened fa_records fa_record_segments fa_segments fa_current_segment].
  - apply all_views_length.
  - (* the numbers grow along the chain *)
    assert (Hs : ∀ segs, linked segs → StronglySorted N.le (all_numbers segs)).
    { induction segs as [|s segs IH]; intros Hlk; [constructor|]. unfold all_numbers. cbn [mbind list_bind].
      specialize (IH (linked_tail _ _ Hlk)). induction (length (seg_entries s)) as [|n IHn]; [done|].
      cbn [replicate app]. constructor; [done|]. apply Forall_app. split.
      - apply Forall_replicate. lia.
      - apply Forall_forall. intros m (t & Hm & Ht)%list_elem_of_bind.
        apply elem_of_replicate in Hm as [-> _]. pose proof (linked_above s segs t Hlk Ht). lia. }
    by apply Hs.
  - unfold numbers. cbn [opened fa_segments]. rewrite <-list_fmap_compose.
    change (sg_number ∘ segment_info) with seg_num. revert Hl. generalize (init ++ [sn]). clear.
    induction l as [|s l IH]; intros Hl; [constructor|]. rewrite fmap_cons. constructor.
    + apply IH. by eapply linked_tail.
    + apply Forall_forall. intros n (t & -> & Ht)%list_elem_of_fmap. by eapply linked_above.
  - unfold numbers. cbn [opened fa_segments]. rewrite fmap_last, fmap_last, last_snoc. done.
  - intros n Hn. unfold numbers, all_numbers in *. cbn [opened fa_segments].
    apply list_elem_of_bind in Hn as (t & Hn & Ht). apply elem_of_replicate in Hn as [-> _].
    apply list_elem_of_fmap. exists (segment_info t). split; [done|]. apply list_elem_of_fmap. eauto.
Qed.

(** A ledger that a fresh directory can have led to. *)
Definition reached (o : AuditLedgerOptions) (rs : list AuditRecord) (l : FileAuditLedger) : Prop :=
  ∃ io l0 d0, open_ledger o fresh_disk = (Ok l0, d0) ∧ append_all rs (with_io io l0) = Some l.

Lemma reached_ok o rs l :
  options_refused o = false → checkpoint_fits o → Forall user_record rs → len rs < 10 ^ 15 → reached o rs l →
  (∃ init sn, ledger_ok l init sn ∧ has_room 4 sn) ∧ fa_options l = o ∧ latest (user_trail l) rs.
Proof.
  intros Ho Hfit Hrs Hlen (io & l0 & d0 & Hop & Hall). rewrite open_fresh in Hop by done. injection Hop as <- <-.
  pose proof (opened_ok o [] first_segment first_segment IoReady first_disk Ho (first_chain o) eq_refl
    first_dir (or_introl eq_refl)) as Hok0.
  pose proof (opened_tidy o [] first_segment first_segment IoReady first_disk I) as Htd0.
  apply (append_all_kept 4 rs _ [] first_segment [] l (ledger_ok_io _ _ _ io Hok0)); try done.
  - by eapply tidy_ext; [..|exact Htd0].
  - unfold has_room, seg_end, first_segment, U64_MAX. cbn [seg_seq seg_num seg_entries]. rewrite len_nil.
    change (10 ^ 16) with 10000000000000000. change (10 ^ 15) with 1000000000000000 in Hlen. lia.
  - exists 0%nat. split; [done|by left].
Qed.


(** ** On a file system that works *)
Lemma append_encoded_quiet l init sn e :
  ledger_ok l init sn → entry_ok (fa_options l) e → seg_end sn + 1 < U64_MAX → ad_io (fa_disk l) = [] →
  ∃ l', append_encoded (en_record e) (en_payload e) l = (Ok (fa_head l'), l')
    ∧ ledger_ok l' init (seg_snoc sn e) ∧ fa_options l' = fa_options l ∧ ad_io (fa_disk l') = []
    ∧ fa_records l' = fa_records l ++ [{| view_sequence := seg_end sn; view_record := en_record e |}].
Proof.
  intros Hok He Hseq Hq. pose proof (append_encoded_spec l init sn e Hok He Hseq) as Hs.
  pose proof Hok as [_ Hc _ [Fr _ _ Fc _ _ Fq Fh] Hw].
  pose proof (seg_seq_pos _ _ _ Hc) as Hpos.
  assert (Hrun : ∃ l', append_encoded (en_record e) (en_payload e) l = (Ok (fa_head l'), l')
            ∧ ad_io (fa_disk l') = []
            ∧ fa_records l' = fa_records l ++ [{| view_sequence := seg_end sn; view_record := en_record e |}]).
  { unfold append_encoded. rewrite Fq.
    replace (checked_add U64_MAX (seg_end sn - 1) 1) with (Some (seg_end sn))
      by (symmetry; apply checked_add_Some; unfold seg_end in *; lia).
    rewrite begin_encoding by done. cbv zeta. rewrite (advance_ok Encoded _ Appending) by done.
    unfold on_audit_disk at 1. cbn [set_state fa_disk]. unfold write_frame at 1.
    rewrite next_outcome_quiet by done. cbn [negb].
    rewrite (advance_ok Appended _ Syncing) by done. unfold on_audit_disk. cbn [set_state set_disk fa_disk].
    unfold sync_all. rewrite next_outcome_quiet by (by rewrite set_bytes_io). cbn [is_ok negb].
    rewrite (advance_ok Synced _ PublishedHead) by done.
    eexists. split; [done|]. split; [|done]. cbn [set_state publish_frame set_disk fa_disk]. by rewrite set_bytes_io. }
  destruct Hrun as (l' & Hrun & Hio & Hrec). rewrite Hrun in Hs.
  inversion Hs as [l2 Hok2 _ Hopt2 Eh El|]; subst l2. eauto 8.
Qed.

(** A record that fits into the current segment. *)
Definition fits_segment (l : FileAuditLedger) (r : AuditRecord) : Prop :=
  ∀ p, encode_record r = Ok p →
    len p ≤ ao_max_payload_bytes (fa_options l)
    ∧ fa_current_segment_bytes l + (HEADER_LEN + len p + HASH_LEN) ≤ ao_max_segment_bytes (fa_options l).

Lemma append_quiet l init sn r :
  ledger_ok l init sn → user_record r → record_validate r = Ok () → fits_segment l r →
  seg_end sn + 1 < U64_MAX → ad_io (fa_disk l) = [] →
  ∃ l' e, append r l = (Ok (fa_head l'), l') ∧ ledger_ok l' init (seg_snoc sn e)
    ∧ fa_options l' = fa_options l ∧ ad_io (fa_disk l') = []
    ∧ fa_records l' = fa_records l ++ [{| view_sequence := seg_end sn; view_record := r |}].
Proof.
  intros Hok [Ht Hk] Hv Hfit Hseq Hq. unfold append.
  destruct (encode_record_total r None Ht Hv Hk) as [p Hp].
  destruct (Hfit p Hp) as [Hp1 Hp2]. pose proof Hok as [_ _ _ _ Hw].
  rewrite !bool_decide_eq_false_2 by (by destruct Hw as [-> | [-> | ->]]). cbn [orb].
  rewrite Hv. unfold encode_record. rewrite Hp. rewrite (proj2 (N.ltb_ge _ _)) by done. cbv zeta.
  rewrite (proj2 (N.ltb_ge _ _)) by lia. unfold prepare_storage.
  rewrite (proj2 (N.leb_le _ _)) by done. rewrite orb_true_r.
  set (e := {| en_record := r; en_metadata := None; en_payload := p |}).
  destruct (append_encoded_quiet l init sn e Hok) as (l' & Hrun & Hrest); [|done|done|].
  - split_and!; done.
  - exists l', e. done.
Qed.

(** ** Writes that are cut short *)
Definition torn_disk (l : FileAuditLedger) (bytes : list byte) : AuditDisk :=
  set_bytes (current_segment_path l) (file_bytes (current_segment_path l) (fa_disk l) ++ bytes)
    (quiet_disk (fa_disk l)).
Definition next_frame (l : FileAuditLedger) (payload : list byte) : list byte :=
  encode_frame (head_sequence (fa_head l) + 1) (fa_last_hash l) payload.

Lemma torn_dir l init sn bytes :
  ledger_ok l init sn → ledger_dir (torn_disk l bytes) (init ++ [sn]) bytes.
Proof.
  intros [Ho [Hl _ Hr _] Hd [_ _ _ Fc _ _ _ _] Hw]. unfold torn_disk, current_segment_path. rewrite Fc.
  assert (Hd' : ledger_dir (quiet_disk (fa_disk l)) (init ++ [sn]) []) by (by eapply ledger_dir_ext; [|exact Hd]).
  replace (file_bytes (segment_path (seg_num sn)) (fa_disk l)) with (seg_bytes sn).
  - by eapply ledger_dir_set_last.
  - destruct Hd as (? & ? & _ & _ & Hread & _).
    destruct (readable_last _ _ _ sn (last_snoc _ _) Hread) as (m & _ & Hf). unfold file_bytes. rewrite Hf.
    by rewrite app_nil_r.
Qed.

(** The recovery record of a start. *)
Definition recovery_of (context : AuditContext) : AuditRecord :=
  {| ar_version := 1; ar_kind := KindSystemRecovery; ar_context := context;
     ar_action := SystemTrailingRecovery; ar_target_kind := TkAuditLedger; ar_target_id := lit "ledger";
     ar_before := None; ar_after := None; ar_outcome := Some Succeeded; ar_error := None |}.
Lemma recovery_record_Ok context :
  ctx_actor_kind context = ActorSystemRecovery → recovery_record context = Ok (recovery_of context).
Proof.
  intros Ha. unfold recovery_record. change (parse_identifier (lit "ledger")) with (Ok (E:=AppError) (lit "ledger")).
  cbv zeta. unfold record_validate, record_shape, recovery_of. cbn [ar_version ar_kind ar_action ar_target_kind ar_context
    ar_outcome ar_error]. by rewrite Ha.
Qed.

Lemma chain_ok_context o context segs :
  chain_ok o segs → chain_ok (with_recovery_context context o) segs.
Proof. by intros [? ? ? ?]. Qed.

Lemma next_frame_eq l init sn payload :
  ledger_ok l init sn → next_frame l payload = encode_frame (seg_end sn) (seg_hash sn) payload.
Proof.
  intros [_ Hc _ [_ _ _ _ _ _ Fq Fh] _]. pose proof (seg_seq_pos _ _ _ Hc) as Hpos.
  unfold next_frame. rewrite Fq, Fh. f_equal. unfold seg_end in *. lia.
Qed.

(** Opening after a cut, in the three cases. *)
Lemma open_torn l init sn r payload n context :
  ledger_ok l init sn → user_record r → record_validate r = Ok () → encode_record r = Ok payload →
  fits_segment l r → options_refused (with_recovery_context context (fa_options l)) = false →
  record_typed (recovery_of context) = true → fits_segment l (recovery_of context) →
  len (fa_records l) < ao_max_scan_records (fa_options l) → has_room 4 sn →
  (0 < n < length (next_frame l payload))%nat →
  ∃ l' d', open_ledger (with_recovery_context context (fa_options l))
             (torn_disk l (take n (next_frame l payload))) = (Ok l', d')
    ∧ file_trail l' = file_trail l ++ [recovery_of context].
Proof.
  intros Hok [Ht Hk] Hv Hp Hfit Ho Htc Hfc Hsc [Hroom _] Hn.
  set (o := with_recovery_context context (fa_options l)) in *.
  pose proof Hok as [_ Hc Hd [Fr _ _ _ Fb _ _ _] _]. destruct (Hfit payload Hp) as [Hp1 _].
  rewrite (next_frame_eq l init sn) in * by done.
  set (tail := take n (encode_frame (seg_end sn) (seg_hash sn) payload)).
  assert (Htail : tail ≠ []).
  { intros Hnil%(f_equal length). unfold tail in Hnil. rewrite length_take in Hnil. cbn in Hnil. lia. }
  destruct (head_snoc init sn) as [s0 Hs0].
  pose proof (torn_dir l init sn tail Hok) as Htd.
  assert (Hio : ad_io (torn_disk l tail) = []) by (unfold torn_disk; by rewrite set_bytes_io).
  pose proof (chain_ok_context _ context _ Hc) as Hc'. fold o in Hc'.
  rewrite (open_chain o Ho (init ++ [sn]) s0 sn tail (torn_disk l tail)); try done.
  2: apply last_snoc.
  2:{ unfold tail_ok. rewrite last_snoc. right.
      exists {| en_record := r; en_metadata := None; en_payload := payload |}, n. split_and!; [done|cbn [en_payload]; lia|done]. }
  2:{ unfold fits. rewrite Fr, all_views_entries in Hsc. split; [cbn; lia|intros _; cbn; lia]. }
  rewrite bool_decide_eq_false_2 by done. cbn [negb].
  pose proof Hc as [Hl _ Hr _].
  pose proof (cleaned_dir init sn tail (torn_disk l tail) Htd Hl Hr) as Hclean.
  assert (Hctx : ctx_actor_kind context = ActorSystemRecovery).
  { unfold options_refused in Ho. rewrite !orb_false_iff in Ho. destruct Ho as [_ Ho]. cbn in Ho.
    by apply bool_decide_eq_false, dec_stable in Ho. }
  unfold after_scan. cbn [o with_recovery_context ao_recovery_context]. rewrite recovery_record_Ok by done.
  destruct (append_quiet (opened o (init ++ [sn]) s0 sn Recovering (cleaned (init ++ [sn]) tail (torn_disk l tail)))
    init sn (recovery_of context)) as (l' & e & Happ & _ & _ & _ & Hrec).
  - apply opened_ok; try done. right. by right.
  - by split.
  - unfold record_validate, record_shape. cbn. by rewrite Hctx.
  - intros p Hpp. destruct (Hfc p Hpp) as [? ?]. cbn [opened fa_options fa_current_segment_bytes].
    rewrite <-Fb. done.
  - lia.
  - cbn [opened fa_disk]. by rewrite cleaned_io.
  - rewrite Happ. eexists _, _. split; [done|]. unfold file_trail. rewrite Hrec, fmap_app.
    cbn [opened fa_records]. by rewrite Fr.
Qed.

Definition after_cut (n : nat) (frame : list byte) (r recovery : AuditRecord) : list AuditRecord :=
  if decide (n = 0%nat) then [] else if decide (n < length frame)%nat then [recovery] else [r].

(** C26: A write into the current segment that stops after any number of bytes costs nothing that was
    acknowledged.  Take a ledger that fewer than 10^15 appends to a fresh directory led to,
    with accepted options that leave room for a checkpoint.  Assume that the record is valid and fits into
    the current segment, and so does the recovery
    record in its place, and that the ledger holds fewer records than a start scans; then the next
    start, whose calls succeed, opens the ledger with all records that were there, followed by nothing
    when no byte was written, by the record when all of it was, and otherwise, the part having been
    removed, by the recovery record.  (Where the recovery record does not fit, it starts a new segment
    and may make retention remove old ones, which this does not cover.) *)
Theorem cut_write_recovers o rs l r payload n context :
  options_refused o = false → options_refused (with_recovery_context context o) = false →
  checkpoint_fits o → Forall user_record rs → len rs < 10 ^ 15 → reached o rs l →
  user_record r → record_validate r = Ok () → encode_record r = Ok payload → fits_segment l r →
  record_typed (recovery_of context) = true → fits_segment l (recovery_of context) →
  len (fa_records l) < ao_max_scan_records o → (n ≤ length (next_frame l payload))%nat →
  ∃ l' d', open_ledger (with_recovery_context context o)
             (torn_disk l (take n (next_frame l payload))) = (Ok l', d')
    ∧ file_trail l' = file_trail l ++ after_cut n (next_frame l payload) r (recovery_of context).
Proof.
  intros Ho Hoc Hfit Hrs Hlen Hre Hr Hv Hp Hfr Htc Hfc Hsc Hn.
  destruct (reached_ok o rs l Ho Hfit Hrs Hlen Hre) as ((init & sn & Hok & Hroom) & <- & _).
  destruct (head_snoc init sn) as [s0 Hs0]. pose proof Hok as [_ Hc Hd [Fr _ _ Fc _ _ _ _] _].
  unfold after_cut. destruct (decide (n = 0%nat)) as [->|Hn0].
  - rewrite take_0. rewrite (open_dir _ init sn s0); try done.
    + eexists _, _. split; [done|]. unfold file_trail. cbn [opened fa_records]. by rewrite Fr, app_nil_r.
    + by apply chain_ok_context.
    + by apply torn_dir.
    + unfold torn_disk. by rewrite set_bytes_io.
    + rewrite <-Fr. cbn. lia.
  - destruct (decide (n < length (next_frame l payload))%nat) as [Hlt|Hge].
    { apply (open_torn l init sn r payload n context); try done. lia. }
    rewrite take_ge by lia. rewrite (next_frame_eq l init sn) by done.
    set (e := {| en_record := r; en_metadata := None; en_payload := payload |}).
    destruct Hr as [Ht Hk]. destruct (Hfr payload Hp) as [Hp1 _]. destruct Hroom as [Hroom _].
    assert (Hce : chain_ok (fa_options l) (init ++ [seg_snoc sn e])).
    { apply chain_snoc; [done|split_and!; done|lia]. }
    assert (Hs0' : ∃ s1, head (init ++ [seg_snoc sn e]) = Some s1) by apply head_snoc.
    destruct Hs0' as [s1 Hs1].
    assert (Hviews : all_views (init ++ [seg_snoc sn e])
              = all_views (init ++ [sn]) ++ [{| view_sequence := seg_end sn; view_record := r |}]).
    { rewrite !all_views_app, <-app_assoc. f_equal. unfold all_views. cbn [mbind list_bind].
      rewrite !app_nil_r. apply views_snoc. }
    rewrite (open_dir _ init (seg_snoc sn e) s1); try done.
    + eexists _, _. split; [done|]. unfold file_trail. cbn [opened fa_records].
      by rewrite Hviews, Fr, fmap_app.
    + by apply chain_ok_context.
    + pose proof Hc as [Hl _ Hrg _]. unfold torn_disk, current_segment_path. rewrite Fc.
      assert (Hd' : ledger_dir (quiet_disk (fa_disk l)) (init ++ [sn]) []) by (by eapply ledger_dir_ext; [|exact Hd]).
      pose proof (ledger_dir_set_last init sn (seg_snoc sn e) [] [] _ Hd' eq_refl Hl Hrg) as Hx.
      rewrite app_nil_r, seg_snoc_bytes in Hx.
      replace (file_bytes (segment_path (seg_num sn)) (fa_disk l)) with (seg_bytes sn); [done|].
      destruct Hd as (? & ? & _ & _ & Hread & _).
      destruct (readable_last _ _ _ sn (last_snoc _ _) Hread) as (m & _ & Hf). unfold file_bytes.
      rewrite Hf. by rewrite app_nil_r.
    + unfold torn_disk. by rewrite set_bytes_io.
    + rewrite Hviews, len_app, <-Fr, len_cons, len_nil. cbn [with_recovery_context ao_max_scan_records]. lia.
Qed.
End durability.

(** ** Examples *)
Module LedgerSample.
#[export] Existing Instance sample_json.
#[export] Existing Instance sample_json_laws.
#[export] Existing Instance sample_sha.
#[export] Existing Instance sample_sha_laws.

(** A ledger of at most three segments of a few records each. *)
Definition options : AuditLedgerOptions :=
  {| ao_max_payload_bytes := 8192; ao_max_scan_records := 100; ao_recovery_context := None;
     ao_max_segment_bytes := 1200; ao_max_segments := 3; ao_max_total_bytes := 3600 |}.
Definition input : AuditPersistentOperationInput :=
  {| po_context := audit_context (lit "operation-1") (lit "request-1") BootstrapAdmin 7;
     po_action := ProxyHostCreate; po_target_kind := TkProxyHost; po_target_id := lit "app";
     po_before := None |}.
Definition records : list AuditRecord := replicate 15 (intent_of input).
Definition none : FileAuditLedger := opened options [first_segment] first_segment first_segment IoReady first_disk.
Definition ledger : FileAuditLedger := default none (append_all records none).
Definition context : AuditContext := audit_context (lit "recovery-1") (lit "internal-1") ActorSystemRecovery 9.
Definition payload : list byte := match encode_record (intent_of input) with Ok p => p | Err _ => [] end.

Lemma reached_sample : reached options records ledger.
Proof. exists [], none, first_disk. split; [apply open_fresh|]; vm_compute; reflexivity. Qed.
Lemma records_ok : Forall user_record records.
Proof. apply Forall_replicate. split; [vm_compute; reflexivity|done]. Qed.
Lemma fits_sample r p : encode_record r = Ok p → len p <=? 300 = true → fits_segment ledger r.
Proof.
  intros Hp Hl p' Hp'. assert (p' = p) as -> by congruence. apply N.leb_le in Hl.
  assert (fa_options ledger = options) as -> by (vm_compute; reflexivity).
  assert (fa_current_segment_bytes ledger = 742) as -> by (vm_compute; reflexivity).
  unfold options, HEADER_LEN, HASH_LEN. cbn [ao_max_payload_bytes ao_max_segment_bytes]. lia.
Qed.
Definition recovery_payload : list byte :=
  match encode_record (recovery_of context) with Ok p => p | Err _ => [] end.
Lemma encoded_intent : encode_record (intent_of input) = Ok payload ∧ len payload <=? 300 = true.
Proof. split; vm_compute; reflexivity. Qed.
Lemma encoded_recovery :
  encode_record (recovery_of context) = Ok recovery_payload ∧ len recovery_payload <=? 300 = true.
Proof. split; vm_compute; reflexivity. Qed.
Lemma cut_sample :
  after_cut 100 (next_frame ledger payload) (intent_of input) (recovery_of context) = [recovery_of context]
  ∧ (100 ≤ length (next_frame ledger payload))%nat.
Proof. split; [|apply Nat.leb_le]; vm_compute; reflexivity. Qed.
Lemma intent_ok : user_record (intent_of input) ∧ record_validate (intent_of input) = Ok ().
Proof. split; [split; [vm_compute; reflexivity|done]|vm_compute; reflexivity]. Qed.
Lemma context_ok :
  options_refused (with_recovery_context context options) = false ∧ record_typed (recovery_of context) = true.
Proof. split; vm_compute; reflexivity. Qed.
Lemma room_sample : len (fa_records ledger) < ao_max_scan_records options.
Proof. vm_compute. reflexivity. Qed.
End LedgerSample.
Import LedgerSample.



Lemma cut_write_recovers_witness :
  reached options records ledger
  ∧ ∃ l' d', open_ledger (with_recovery_context context options)
               (torn_disk ledger (take 100 (next_frame ledger payload))) = (Ok l', d')
      ∧ file_trail l' = file_trail ledger ++ [recovery_of context].
Proof.
  split; [exact reached_sample|]. destruct cut_sample as [Hcut Hn], encoded_intent as [He Hl],
    encoded_recovery as [Hre Hrl], intent_ok as [Hu Hv], context_ok as [Hc Ht]. rewrite <-Hcut.
  exact (cut_write_recovers options records ledger (intent_of input) payload 100 context eq_refl Hc
    (sample_checkpoint_fits options eq_refl) records_ok eq_refl reached_sample Hu Hv He
    (fits_sample _ _ He Hl) Ht (fits_sample _ _ Hre Hrl) room_sample Hn).
Defined.
