(* ===== verification/AuditStartup.v ===== *)
(** * Starting over an audit ledger

    The part of apps/edge-proxy/src/main.rs that opens the ledger of a data directory and settles
    it, and what it makes of a change that was interrupted: with the inspector the program starts
    with, which knows of no change whether it took effect, the program does not start again. *)

From stdpp Require Import base gmap strings list sorting.
From Stdlib Require Import Strings.Byte NArith Lia.
From S2P Require Import Prelude Errors RustStr ConfigParser ConfigStore AuditModel AuditCodec AuditLedger AuditScan AuditRecovery AuditInvariant AuditOperations AuditTrail AuditRetention AuditSample AuditDurability.
Local Open Scope N_scope.

(** [run_serve] turns every failure into an [io::Error]: here, the text or the error it is made of. *)
Inductive StartFailure :=
| StartOther (message : string)
| StartFailed (e : AppError).

Definition startup_identifier (prefix : string) (now : N) : result StartFailure AuditIdentifier :=
  match audit_identifier_parse (lit prefix ++ print_dec now) with
  | Ok id => Ok id
  | Err e => Err (StartOther (AuditValidationError_as_str e))
  end.
Definition recovery_context (now : N) : result StartFailure AuditContext :=
  let? operation_id := startup_identifier "startup-recovery-" now in
  let? request_id := startup_identifier "startup-" now in
  Ok {| ctx_operation_id := operation_id; ctx_request_id := request_id;
        ctx_actor_kind := ActorSystemRecovery; ctx_received_at := now |}.

Section startup.
  Context {json : SerdeJson} {json_laws : SerdeLaws} {sha : Sha256} {sha_laws : Sha256Laws}.

(** From the context to [initialize_audit_ledger]; the program calls it with
    [AuditLedgerOptions_default]. *)
Definition start_audit (o : AuditLedgerOptions) (now : N) (d : AuditDisk)
  : result StartFailure (InitializeAuditLedgerOutput * FileAuditLedger) * AuditDisk :=
  match recovery_context now with
  | Err e => (Err e, d)
  | Ok context =>
      match open_ledger (with_recovery_context context o) d with
      | (Err e, d) => (Err (StartFailed e), d)
      | (Ok ledger, _) =>
          match initialize_audit_ledger ledger FailClosedInspector Starting with
          | (Err e, (ledger, _, _)) => (Err (StartFailed e), fa_disk ledger)
          | (Ok out, (ledger, _, _)) => (Ok (out, ledger), fa_disk ledger)
          end
      end
  end.

(** Start after start over the same directory. *)
Fixpoint starts (o : AuditLedgerOptions) (times : list N) (d : AuditDisk)
  : list (result StartFailure (InitializeAuditLedgerOutput * FileAuditLedger)) :=
  match times with
  | [] => []
  | now :: times => let (r, d) := start_audit o now d in r :: starts o times d
  end.

(** ** The context of a start *)
Lemma startup_identifier_ok prefix now :
  now ≤ U64_MAX → forallb audit_identifier_byte (lit prefix) = true → len (lit prefix) ≤ 100 →
  startup_identifier prefix now = Ok (lit prefix ++ print_dec now).
Proof.
  intros Hn Hp Hl. unfold startup_identifier, audit_identifier_parse, validate_audit_identifier.
  assert (Hd : (length (print_dec now) ≤ 20)%nat).
  { apply print_dec_length; [|lia]. unfold U64_MAX in Hn. cbn. lia. }
  rewrite bool_decide_eq_false_2.
  2:{ intros [_ Hnil]%app_eq_nil. by apply print_dec_nonempty in Hnil. }
  replace (_ <? _) with false.
  2:{ symmetry. apply N.ltb_ge. rewrite len_app. unfold len at 2. unfold AUDIT_IDENTIFIER_MAX_BYTES. lia. }
  rewrite forallb_app, Hp. cbn [andb].
  replace (forallb _ (print_dec now)) with true; [done|]. symmetry.
  apply forallb_forall. intros b Hb%list_elem_of_In. pose proof (print_dec_digits now) as Hds.
  rewrite Forall_forall in Hds. specialize (Hds b Hb). revert Hds. clear. destruct b; vm_compute; done.
Qed.
Lemma recovery_context_ok now :
  now ≤ U64_MAX → ∃ context, recovery_context now = Ok context ∧ ctx_actor_kind context = ActorSystemRecovery.
Proof.
  intros Hn. unfold recovery_context. rewrite !startup_identifier_ok by done. by eexists.
Qed.
Lemma with_context_accepted o context :
  options_refused o = false → ctx_actor_kind context = ActorSystemRecovery →
  options_refused (with_recovery_context context o) = false.
Proof.
  intros Ho Hc. unfold options_refused, with_recovery_context in *. cbn. rewrite Hc.
  rewrite !orb_false_iff in *. destruct_and!. split_and!; done.
Qed.

(** ** A directory that was left in order *)
Record left_at (o : AuditLedgerOptions) (init : list Seg) (sn : Seg) (d : AuditDisk) : Prop := {
  la_options : options_refused o = false;
  la_chain : chain_ok o (init ++ [sn]);
  la_dir : ledger_dir d (init ++ [sn]) [];
  la_quiet : ad_io d = [];
  la_scan : len (all_views (init ++ [sn])) ≤ ao_max_scan_records o;
  la_few : len (all_views (init ++ [sn])) < U16_MAX
}.
Definition records_of (init : list Seg) (sn : Seg) : list AuditRecord :=
  view_record <$> all_views (init ++ [sn]).

Lemma linked_segments_few segs : linked segs → len segs ≤ len (all_entries segs) + 1.
Proof.
  induction segs as [|a segs IH]; intros Hl; [rewrite len_nil; lia|].
  specialize (IH (linked_tail _ _ Hl)). destruct segs as [|b segs].
  { rewrite len_cons, len_nil. lia. }
  destruct Hl as (_ & _ & _ & Hne & _). unfold all_entries in *. cbn [mbind list_bind] in *.
  rewrite len_cons, len_app.
  assert (0 < len (seg_entries a)) by (destruct (seg_entries a); [done|rewrite len_cons; lia]). lia.
Qed.

Lemma start_open o init sn d now :
  left_at o init sn d → now ≤ U64_MAX →
  ∃ context l, recovery_context now = Ok context
    ∧ open_ledger (with_recovery_context context o) d = (Ok l, d) ∧ fa_disk l = d
    ∧ ledger_ok l init sn ∧ fa_options l = with_recovery_context context o
    ∧ file_trail l = records_of init sn ∧ fa_current_segment_bytes l = len (seg_bytes sn)
    ∧ file_verify l = (Ok {| vr_head := fa_head l; vr_record_count := len (fa_records l);
                             vr_segment_count := len (fa_segments l);
                             vr_incomplete_operation_count :=
                               len (incomplete_of (file_trail l)) mod (U16_MAX + 1) |}, l).
Proof.
  intros [Ho Hc Hd Hq Hs Hf] Hn. destruct (recovery_context_ok now Hn) as (context & Hctx & Hact).
  destruct (head_snoc init sn) as [s0 Hs0]. pose proof (with_context_accepted o context Ho Hact) as Ho'.
  pose proof (chain_ok_context o context _ Hc) as Hc'.
  exists context. eexists. split; [done|]. split; [by apply (open_dir _ init sn s0)|]. split; [done|].
  split; [apply opened_ok; try done; by left|]. split_and!; [done|done|done|].
  unfold file_verify. cbn [opened fa_segments]. rewrite (proj2 (N.ltb_ge _ _)); [done|].
  replace (len (segment_info <$> init ++ [sn])) with (len (init ++ [sn])) by (unfold len; by rewrite length_fmap).
  pose proof Hc as [Hl _ _ _]. pose proof (linked_segments_few _ Hl).
  rewrite all_views_entries in Hf. lia.
Qed.

Definition refused {A} (code : ErrorCode) (r : result StartFailure A) : Prop :=
  ∃ e, r = Err (StartFailed e) ∧ app_code e = code.

Lemma start_unresolved o init sn d now :
  left_at o init sn d → now ≤ U64_MAX → unresolved_after (records_of init sn) ≠ ∅ →
  ∃ r, start_audit o now d = (r, d) ∧ refused AuditReconciliationUnknown r.
Proof.
  intros Hat Hn Hu. destruct (start_open o init sn d now Hat Hn) as (ctx & l & Hctx & Hop & Hdisk & _ & _ & Ht & _ & Hv).
  unfold start_audit. rewrite Hctx, Hop. unfold initialize_audit_ledger. cbn [admission_transition].
  change (ledger_verify l) with (file_verify l). rewrite Hv. destruct (unresolved_reads l) as (rs & Hr & Hiff).
  rewrite Hr. destruct rs as [|r rs].
  { destruct Hu. rewrite <-Ht. by apply Hiff. }
  rewrite Hdisk. eexists. split; [done|]. by eexists.
Qed.

(** ** An operation that is open *)
Lemma records_typed o init sn r :
  chain_ok o (init ++ [sn]) → r ∈ records_of init sn → record_typed r = true ∧ record_validate r = Ok ().
Proof.
  intros [_ Hs _ _] (v & -> & (s & Hv & Hin)%list_elem_of_bind)%list_elem_of_fmap.
  rewrite Forall_forall in Hs. destruct (Hs s Hin) as [He _]. revert Hv He. unfold seg_views.
  generalize (seg_seq s). induction (seg_entries s) as [|e es IH]; intros seq Hv He; [by apply not_elem_of_nil in Hv|].
  apply Forall_cons in He as [(Ht & Hval & _) He]. cbn [views] in Hv.
  apply elem_of_cons in Hv as [->|Hv]; [done|by eapply IH].
Qed.

Lemma unknown_record_ok r :
  record_typed r = true → record_validate r = Ok () →
  user_record (reconciled_record r FactUnknown) ∧ record_validate (reconciled_record r FactUnknown) = Ok ().
Proof.
  intros Ht Hv%validate_version. split; [split; [exact Ht|done]|].
  unfold record_validate, record_shape. cbn. by rewrite Hv.
Qed.

Lemma initialize_interrupted l l' r0 rest h report :
  file_verify l = (Ok report, l) → unresolved_after (file_trail l) = ∅ →
  incomplete_of (file_trail l) = r0 :: rest → len (file_trail l) ≤ U16_MAX →
  append (reconciled_record r0 FactUnknown) l = (Ok h, l') →
  ∃ e a, initialize_audit_ledger l FailClosedInspector Starting = (Err e, (l', FailClosedInspector, a))
    ∧ app_code e = AuditReconciliationUnknown.
Proof.
  intros Hv Hu Hi Hlen Happ. unfold initialize_audit_ledger. cbn [admission_transition].
  change (ledger_verify l) with (file_verify l). rewrite Hv.
  destruct (unresolved_reads l) as (rs & Hr & Hiff). rewrite Hr, (proj2 Hiff Hu).
  rewrite incomplete_reads. change (trail l) with (file_trail l). rewrite Hi.
  rewrite (proj2 (N.ltb_ge _ _)).
  2:{ rewrite <-Hi. etrans; [|exact Hlen]. unfold len, incomplete_of. pose proof (List.filter_length_le
        (λ r, bool_decide (ar_kind r = Intent) && bool_decide (operation_of_record r ∈ open_after (file_trail l)))
        (file_trail l)). lia. }
  cbn [reconcile_all]. change (ledger_head l) with (Ok (E:=AppError) (fa_head l)). cbv beta iota zeta.
  unfold reconcile_incomplete_audit.
  assert (Hk : ar_kind r0 = Intent).
  { apply (incomplete_intents (file_trail l)). rewrite Hi. by apply list_elem_of_here. }
  rewrite bool_decide_eq_false_2 by (intros Hx; by apply Hx). cbn [inspect fail_closed_inspector].
  change (append_reconciliation ?r ?h l) with (append_expecting r h l). unfold append_expecting, expect_head.
  rewrite bool_decide_eq_false_2 by (intros Hx; by apply Hx). rewrite Happ. cbv beta iota zeta.
  change (checked_add U16_MAX 0 1) with (Some 1). rewrite bool_decide_eq_true_2 by done. eauto.
Qed.

Lemma start_interrupted o init sn d now :
  left_at o init sn d → now ≤ U64_MAX →
  len (all_views (init ++ [sn])) + 1 < N.min (ao_max_scan_records o) U16_MAX → seg_end sn + 1 < U64_MAX →
  unresolved_after (records_of init sn) = ∅ → incomplete_of (records_of init sn) ≠ [] →
  (∀ r p, r ∈ incomplete_of (records_of init sn) → encode_record (reconciled_record r FactUnknown) = Ok p →
     len p ≤ ao_max_payload_bytes o ∧ len (seg_bytes sn) + (HEADER_LEN + len p + HASH_LEN) ≤ ao_max_segment_bytes o) →
  ∃ r d' e, start_audit o now d = (r, d') ∧ refused AuditReconciliationUnknown r ∧ left_at o init (seg_snoc sn e) d'
    ∧ unresolved_after (records_of init (seg_snoc sn e)) ≠ ∅.
Proof.
  intros Hat Hn Hroom Hseq Hu Hinc Hfit.
  destruct (start_open o init sn d now Hat Hn) as (ctx & l & Hctx & Hop & Hdisk & Hok & Hopt & Ht & Hb & Hv).
  destruct (incomplete_of (records_of init sn)) as [|r0 rest] eqn:Ei; [done|].
  assert (Hr0 : r0 ∈ incomplete_of (records_of init sn)) by (rewrite Ei; by apply list_elem_of_here).
  pose proof (incomplete_intents _ _ Hr0) as Hk0. pose proof Hat as [Ho Hc _ Hq _ _].
  assert (Hin0 : r0 ∈ records_of init sn).
  { unfold incomplete_of in Hr0. apply list_elem_of_In, List.filter_In in Hr0 as [Hr0 _]. by apply list_elem_of_In. }
  destruct (records_typed o init sn r0 Hc Hin0) as [Ht0 Hv0].
  destruct (unknown_record_ok r0 Ht0 Hv0) as [Hur Hvr].
  destruct (append_quiet l init sn (reconciled_record r0 FactUnknown) Hok Hur Hvr) as (l' & e & Happ & Hok' & Hopt' & Hio' & Hrec');
    [|done|by rewrite Hdisk|].
  { intros p Hp. rewrite Hopt, Hb. apply (Hfit r0 p); [by apply list_elem_of_here|done]. }
  assert (Hfew : len (file_trail l) ≤ U16_MAX).
  { rewrite Ht. unfold records_of, len. rewrite length_fmap. fold (len (all_views (init ++ [sn]))). lia. }
  destruct (initialize_interrupted l l' r0 rest (fa_head l') _ Hv) as (er & a & Hini & Her); try done; try (by rewrite Ht).
  unfold start_audit. rewrite Hctx, Hop, Hini. exists (Err (StartFailed er)), (fa_disk l'), e.
  split; [done|]. split; [by exists er|]. pose proof Hok as [_ _ _ [Fr _ _ _ _ _ _ _] _].
  pose proof Hok' as [_ Hc' Hd' [Fr' _ _ _ _ _ _ _] _]. rewrite Hopt', Hopt in Hc'.
  rewrite Fr', Fr in Hrec'. split.
  - split; [done| |done|done|..].
    + by destruct Hc'.
    + rewrite Hrec', len_app, len_cons, len_nil. lia.
    + rewrite Hrec', len_app, len_cons, len_nil. lia.
  - unfold records_of. rewrite Hrec', fmap_app. unfold unresolved_after. rewrite foldl_app. cbn [fmap list_fmap foldl].
    cbn [track_unresolved view_record reconciled_record ar_kind ar_outcome]. apply insert_non_empty.
Qed.

Lemma starts_unresolved o init sn d times :
  left_at o init sn d → Forall (λ now, now ≤ U64_MAX) times → unresolved_after (records_of init sn) ≠ ∅ →
  Forall (refused AuditReconciliationUnknown) (starts o times d).
Proof.
  intros Hat Hts Hu. induction Hts as [|now times Hn _ IH]; [constructor|]. cbn [starts].
  destruct (start_unresolved o init sn d now Hat Hn Hu) as (r & -> & Hr). by constructor.
Qed.

Lemma append_all_snoc rs r l l' :
  append_all (rs ++ [r]) l = Some l' → ∃ l1 h, append_all rs l = Some l1 ∧ append r l1 = (Ok h, l').
Proof.
  revert l. induction rs as [|r1 rs IH]; intros l Hall; cbn [app append_all] in *.
  - destruct (append r l) as [[h|] l1] eqn:Ha; [|done]. injection Hall as ->. eauto.
  - destruct (append r1 l) as [[h|] l1]; [|done]. by apply IH.
Qed.
Lemma append_all_sound rs l l' : file_sound l → append_all rs l = Some l' → file_sound l'.
Proof.
  revert l. induction rs as [|r rs IH]; intros l Hs Hall; cbn [append_all] in *; [by injection Hall as <-|].
  destruct (append r l) as [[h|] l1] eqn:Ea; [|done]. destruct (file_append_recorded r l _ _ Hs Ea). eauto.
Qed.
Lemma reached_last o rs r l :
  options_refused o = false → reached o (rs ++ [r]) l → last (file_trail l) = Some r.
Proof.
  intros Ho (io & l0 & d0 & Hop & Hall). apply append_all_snoc in Hall as (l1 & h & Hall & Ha).
  rewrite open_fresh in Hop by done. injection Hop as <- <-.
  apply append_all_sound in Hall.
  - destruct (file_append_recorded r l1 _ _ Hall Ha) as [_ Ht]. by eapply trail_last.
  - left. eapply tidy_ext; [..|exact (opened_tidy o [] first_segment first_segment IoReady first_disk I)]; done.
Qed.
Lemma incomplete_last rs r : last rs = Some r → ar_kind r = Intent → incomplete_of rs ≠ [].
Proof.
  intros (pre & ->)%last_Some Hk Hn.
  assert (Hin : operation_of_record r ∈ open_after (pre ++ [r])).
  { unfold open_after. rewrite foldl_app. cbn [foldl]. unfold track_open at 1. rewrite Hk. set_solver. }
  apply incomplete_has_open in Hin as (r' & Hr' & _). rewrite Hn in Hr'. by apply not_elem_of_nil in Hr'.
Qed.

(** C37: When the program ends between the intent of a change and its terminal record, it does not
    start again: over a directory whose last acknowledged record is an intent, every start, however
    many are tried, is refused with the code for an unknown reconciliation, the first because the
    inspector knows nothing and the later ones because of what the first one recorded. *)
Theorem interrupted_change_stops_every_start o rs input l times :
  options_refused o = false → checkpoint_fits o → Forall user_record (rs ++ [intent_of input]) →
  len (rs ++ [intent_of input]) < 10 ^ 15 → reached o (rs ++ [intent_of input]) l →
  len (fa_records l) + 1 < N.min (ao_max_scan_records o) U16_MAX →
  (∀ r, r ∈ incomplete_of (file_trail l) → fits_segment l (reconciled_record r FactUnknown)) →
  Forall (λ now, now ≤ U64_MAX) times →
  Forall (refused AuditReconciliationUnknown) (starts o times (quiet_disk (fa_disk l))).
Proof.
  intros Ho Hcf Hrs Hlen Hre Hsc Hfit Hts.
  destruct (reached_ok o _ l Ho Hcf Hrs Hlen Hre) as ((init & sn & Hok & [Hroom _]) & Hopt & _).
  pose proof Hok as [_ Hc Hd [Fr _ _ _ Fb _ _ _] _]. rewrite Hopt in Hc.
  assert (Htr : file_trail l = records_of init sn) by (unfold file_trail; by rewrite Fr).
  rewrite Fr in Hsc.
  assert (Hat : left_at o init sn (quiet_disk (fa_disk l))).
  { split; [done|done| |done|lia|lia]. by eapply ledger_dir_ext; [|exact Hd]. }
  destruct (decide (unresolved_after (records_of init sn) = ∅)) as [Hu|Hu]; [|by eapply starts_unresolved].
  destruct times as [|now times]; [constructor|]. apply Forall_cons in Hts as [Hn Hts]. cbn [starts].
  destruct (start_interrupted o init sn (quiet_disk (fa_disk l)) now Hat Hn Hsc)
    as (r & d' & e & -> & Hr & Hat' & Hu'); [lia|done|..].
  - rewrite <-Htr. apply (incomplete_last _ (intent_of input)); [by eapply reached_last|done].
  - intros r p Hr Hp. rewrite <-Htr in Hr. destruct (Hfit r Hr p Hp) as [H1 H2].
    rewrite Fb, Hopt in H2. rewrite Hopt in H1. done.
  - constructor; [done|]. by eapply starts_unresolved.
Qed.

(** A ledger takes any number of records that its files have room for, but a start reads at most
    [max_scan_records] of them: once more were acknowledged, no start succeeds any more, and none
    changes the directory. *)
Theorem outgrown_ledger_never_starts o rs l times :
  options_refused o = false → checkpoint_fits o → Forall user_record rs → len rs < 10 ^ 15 →
  reached o rs l → ao_max_scan_records o < len (fa_records l) → Forall (λ now, now ≤ U64_MAX) times →
  Forall (refused AuditCapacityReached) (starts o times (quiet_disk (fa_disk l))).
Proof.
  intros Ho Hcf Hrs Hlen Hre Hfull Hts.
  destruct (reached_ok o _ l Ho Hcf Hrs Hlen Hre) as ((init & sn & Hok & _) & Hopt & _).
  pose proof Hok as [_ Hc Hd [Fr _ _ _ _ _ _ _] _]. rewrite Hopt in Hc. rewrite Fr, all_views_entries in Hfull.
  assert (Hd' : ledger_dir (quiet_disk (fa_disk l)) (init ++ [sn]) []) by (by eapply ledger_dir_ext; [|exact Hd]).
  induction Hts as [|now times Hn _ IH]; [constructor|]. cbn [starts].
  destruct (recovery_context_ok now Hn) as (context & Hctx & Hact). unfold start_audit. rewrite Hctx.
  rewrite (open_full _ (with_context_accepted o context Ho Hact) (init ++ [sn])); try done.
  - constructor; [|exact IH]. by eexists.
  - by apply chain_ok_context.
  - by destruct init.
Qed.
End startup.

(** ** An example *)
Import LedgerSample.
Lemma sample_split : replicate 14 (intent_of input) ++ [intent_of input] = records.
Proof. reflexivity. Qed.
Lemma sample_open : incomplete_of (file_trail ledger) = replicate 7 (intent_of input).
Proof. vm_compute. reflexivity. Qed.
Definition unknown_payload : list byte :=
  match encode_record (reconciled_record (intent_of input) FactUnknown) with Ok p => p | Err _ => [] end.
Lemma sample_unknown_fits r :
  r ∈ incomplete_of (file_trail ledger) → fits_segment ledger (reconciled_record r FactUnknown).
Proof.
  rewrite sample_open. intros [-> _]%elem_of_replicate. apply (fits_sample _ unknown_payload); vm_compute; reflexivity.
Qed.

Lemma interrupted_change_stops_every_start_witness :
  reached options records ledger
  ∧ Forall (refused AuditReconciliationUnknown) (starts options [100; 200; 300] (quiet_disk (fa_disk ledger))).
Proof.
  split; [exact reached_sample|].
  assert (Hu : Forall user_record (replicate 14 (intent_of input) ++ [intent_of input]))
    by (rewrite sample_split; exact records_ok).
  assert (Hr : reached options (replicate 14 (intent_of input) ++ [intent_of input]) ledger)
    by (rewrite sample_split; exact reached_sample).
  assert (Hn : Forall (λ now, now ≤ U64_MAX) [100; 200; 300])
    by (repeat constructor; unfold U64_MAX; lia).
  assert (Hf : len (fa_records ledger) + 1 < N.min (ao_max_scan_records options) U16_MAX)
    by (vm_compute; reflexivity).
  exact (interrupted_change_stops_every_start options (replicate 14 (intent_of input)) input ledger
    [100; 200; 300] eq_refl (sample_checkpoint_fits options eq_refl) Hu eq_refl Hr Hf sample_unknown_fits Hn).
Defined.

(** Twenty intents with a scan of at most ten. *)
Definition small_options : AuditLedgerOptions :=
  {| ao_max_payload_bytes := 8192; ao_max_scan_records := 10; ao_recovery_context := None;
     ao_max_segment_bytes := 8192; ao_max_segments := 3; ao_max_total_bytes := 24576 |}.
Definition small_none : FileAuditLedger :=
  opened small_options [first_segment] first_segment first_segment IoReady first_disk.
Definition small_ledger : FileAuditLedger :=
  default small_none (append_all (replicate 20 (intent_of input)) small_none).
Lemma small_reached : reached small_options (replicate 20 (intent_of input)) small_ledger.
Proof. exists [], small_none, first_disk. split; [apply open_fresh|]; vm_compute; reflexivity. Qed.

Lemma outgrown_ledger_never_starts_witness :
  reached small_options (replicate 20 (intent_of input)) small_ledger
  ∧ Forall (refused AuditCapacityReached) (starts small_options [100; 200] (quiet_disk (fa_disk small_ledger))).
Proof.
  split; [exact small_reached|].
  assert (Hu : Forall user_record (replicate 20 (intent_of input)))
    by (apply Forall_replicate; exact (proj1 intent_ok)).
  assert (Hf : ao_max_scan_records small_options < len (fa_records small_ledger)) by (vm_compute; reflexivity).
  assert (Hn : Forall (λ now, now ≤ U64_MAX) [100; 200]) by (repeat constructor; unfold U64_MAX; lia).
  exact (outgrown_ledger_never_starts small_options (replicate 20 (intent_of input)) small_ledger [100; 200]
    eq_refl (sample_checkpoint_fits small_options eq_refl) Hu eq_refl small_reached Hf Hn).
Defined.

(** Two segments have to go; when the second removal fails, the checkpoint that was written anchors
    the third segment and not the second, with which the ledger now begins. *)
Definition tight_options : AuditLedgerOptions :=
  {| ao_max_payload_bytes := 8192; ao_max_scan_records := 100; ao_recovery_context := None;
     ao_max_segment_bytes := 1400; ao_max_segments := 3; ao_max_total_bytes := 1500 |}.
Definition long_input : AuditPersistentOperationInput :=
  {| po_context := audit_context (replicate 120 x61) (replicate 120 x61) BootstrapAdmin 7;
     po_action := ProxyHostCreate; po_target_kind := TkProxyHost; po_target_id := replicate 120 x61;
     po_before := Some (replicate 120 x61) |}.
Definition tight_none : FileAuditLedger :=
  opened tight_options [first_segment] first_segment first_segment IoReady first_disk.
Definition two_segments : FileAuditLedger :=
  default tight_none (append_all [intent_of input; intent_of long_input] tight_none).
Definition interrupted_removal : result AppError AuditLedgerHead * FileAuditLedger :=
  append (intent_of input) (with_io (replicate 8 AioDone ++ [AioFails 0]) two_segments).
Example interrupted_removal_loses_anchor :
  interrupted_removal.1 = Err io_error
  ∧ (open_ledger tight_options (quiet_disk (fa_disk interrupted_removal.2))).1
    = Err (ledger_error AuditChainMismatch "audit retention anchor has no valid checkpoint").
Proof. split; vm_compute; reflexivity. Qed.
