(* ===== verification/AuditChain.v ===== *)
(** * What the digest and the pages of a ledger say

    Two directories that are read back to the same digest hold the same records, as far back as
    both go, unless two inputs of SHA-256 with the same digest are at hand; and following the
    cursors of a query ends and lists every record that matches, once, the newest first. *)

From stdpp Require Import base gmap strings list sorting.
From Stdlib Require Import Strings.Byte NArith Lia.
From S2P Require Import Prelude Errors RustStr ConfigParser ConfigStore AuditModel AuditCodec AuditLedger AuditScan AuditRecovery AuditInvariant AuditOperations AuditTrail AuditRetention AuditSample AuditDurability.
Local Open Scope N_scope.

(** ** The digest *)
Section binding.
  Context {json : SerdeJson} {sha : Sha256} {sha_laws : Sha256Laws}.

(** Records whose payloads are chained up to a digest, from any predecessor. *)
Inductive chained : list AuditRecordView → list byte → Prop :=
| chained_nil h : length h = 32%nat → chained [] h
| chained_snoc vs prev seq payload r m :
    chained vs prev → seq ≤ U64_MAX → decode_record_with_retention payload = Ok (r, m) →
    chained (vs ++ [{| view_sequence := seq; view_record := r |}]) (frame_digest seq prev payload).

Lemma chained_length vs h : chained vs h → length h = 32%nat.
Proof. intros [? ?|]; [done|apply sha256_length]. Qed.

Lemma from_be_bound l : from_be l < 256 ^ N.of_nat (length l).
Proof.
  induction l as [|b l IH] using rev_ind; [done|]. rewrite from_be_snoc, length_app, Nat.add_1_r.
  rewrite Nat2N.inj_succ, N.pow_succ_r'. assert (u8 b < 256) by (by destruct b). lia.
Qed.
Lemma frame_end seq prev payload :
  drop (length (encode_frame seq prev payload) - 32) (encode_frame seq prev payload)
  = frame_digest seq prev payload.
Proof.
  unfold encode_frame. rewrite !app_assoc. rewrite drop_app_length'; [done|].
  rewrite (length_app _ (frame_digest _ _ _)). unfold frame_digest. rewrite sha256_length. lia.
Qed.

Lemma scan_frame_chained o first number rest st st' rest' :
  chained (sc_records st) (sc_previous st) →
  scan_frame o first number rest st = Ok (Some (st', rest')) →
  chained (sc_records st') (sc_previous st').
Proof.
  intros Hc Hs. unfold scan_frame in Hs. destruct (len rest <? _) eqn:Hl; [done|].
  destruct (negb (bool_decide (slice 0 8 rest = MAGIC))); [done|]. cbv zeta in Hs.
  destruct (negb (_ =? FRAME_VERSION)); [done|]. destruct (negb (_ =? 0)); [done|].
  set (anchoring := bool_decide (sc_records st = []) && (1 <? first)) in Hs.
  set (prev := if anchoring then slice 24 32 rest else sc_previous st) in Hs.
  assert (Hp : chained (sc_records st) prev).
  { unfold prev. destruct anchoring eqn:Ha; [|done]. apply andb_true_iff in Ha as [Ha _].
    apply bool_decide_eq_true in Ha. rewrite Ha. constructor. unfold slice. rewrite length_take, length_drop. apply N.ltb_ge in Hl.
    unfold HEADER_LEN, HASH_LEN, len in Hl. lia. }
  do 5 (match type of Hs with (if ?b then _ else _) = _ => destruct b end; [done|]).
  rewrite frame_end in Hs. case_bool_decide as Hh; [|done]. cbn [negb] in Hs.
  destruct (decode_record_with_retention _) as [[r m]|] eqn:Hd; [|done].
  destruct (checked_add _ _ _); [|done]. rewrite <-Hh in Hs. injection Hs as <- _. cbn [sc_records sc_previous].
  eapply chained_snoc; [done| |done].
  pose proof (from_be_bound (slice 16 8 rest)) as Hb. revert Hb. unfold slice. rewrite length_take. intros Hb.
  assert (256 ^ N.of_nat (8 `min` length (drop 16 rest)) ≤ 256 ^ 8) by (apply N.pow_le_mono_r; lia).
  unfold U64_MAX. change (256 ^ 8) with 18446744073709551616 in *. lia.
Qed.

Lemma scan_frames_chained fuel o first number rest st st' rest' :
  chained (sc_records st) (sc_previous st) →
  scan_frames fuel o first number rest st = Ok (st', rest') → chained (sc_records st') (sc_previous st').
Proof.
  revert rest st. induction fuel as [|fuel IH]; intros rest st Hc Hs; cbn [scan_frames] in Hs.
  - destruct rest; by injection Hs as <- <-.
  - destruct rest as [|b rest]; [by injection Hs as <- <-|].
    destruct (scan_frame _ _ _ _ _) as [[[st1 rest1]|]|] eqn:Hf; [|by injection Hs as <- <-|done].
    eapply IH; [|done]. by eapply scan_frame_chained.
Qed.

Lemma scan_paths_chained paths first o allow recovered st d st' r d' :
  chained (sc_records st) (sc_previous st) →
  scan_paths paths first o allow recovered st d = (Ok (st', r), d') →
  chained (sc_records st') (sc_previous st').
Proof.
  revert recovered st d. induction paths as [|number more IH]; intros recovered st d Hc Hs; cbn [scan_paths] in Hs.
  { by injection Hs as <- _ _. }
  destruct (open_private_segment _ d) as [[op|] d1]; [|done].
  destruct (read_to_end op d1) as [[bytes|] d2]; [|done].
  destruct (scan_frames _ _ _ _ _ _) as [[st1 rest]|] eqn:Hf; [|done]. cbv zeta in Hs.
  assert (Hc1 : chained (sc_records st1) (sc_previous st1)) by (by eapply scan_frames_chained).
  case_bool_decide; [by eapply IH; [|done]|]. destruct (_ || _); [done|].
  destruct (truncate_trailing _ _ _) as [[]]; [|done]. destruct (sync_all _ _) as [[]]; [|done].
  by eapply IH; [|done].
Qed.

Lemma scan_segments_chained paths o allow d sr d' :
  scan_segments paths o allow d = (Ok sr, d') → chained (sr_records sr) (sr_last_hash sr).
Proof.
  unfold scan_segments. intros Hs.
  destruct (scan_paths _ _ _ _ _ _ _) as [[[st r]|] d1] eqn:Hp; [|done].
  apply scan_paths_chained in Hp; [|by constructor]. destruct (negb _); [done|]. by injection Hs as <- _.
Qed.

(** Two different inputs with the same digest. *)
Definition collision : Prop := ∃ x y, x ≠ y ∧ sha256 x = sha256 y.

Lemma to_be_inj n a b : a < 256 ^ N.of_nat n → b < 256 ^ N.of_nat n → to_be n a = to_be n b → a = b.
Proof. intros Ha Hb He. rewrite <-(from_be_to_be n a), He, from_be_to_be by done. done. Qed.
Lemma digest_binds seq prev payload seq' prev' payload' :
  seq ≤ U64_MAX → seq' ≤ U64_MAX → length prev = 32%nat → length prev' = 32%nat →
  frame_digest seq prev payload = frame_digest seq' prev' payload' →
  (seq = seq' ∧ prev = prev' ∧ payload = payload') ∨ collision.
Proof.
  intros Hs Hs' Hp Hp' Hd.
  destruct (decide (to_be 2 FRAME_VERSION ++ to_be 8 seq ++ prev ++ payload
                    = to_be 2 FRAME_VERSION ++ to_be 8 seq' ++ prev' ++ payload')) as [He|Hne].
  - left. apply app_inv_head in He. apply app_inj_1 in He as [H1 H2]; [|by rewrite !to_be_length].
    apply app_inj_1 in H2 as [-> ->]; [|congruence]. split; [|done].
    unfold U64_MAX in *. apply to_be_inj in H1; [done|cbn; lia|cbn; lia].
  - right. by do 2 eexists.
Qed.

Lemma chained_same vs h vs' :
  chained vs h → chained vs' h → (length vs ≤ length vs')%nat →
  (∃ k, vs = drop k vs') ∨ collision.
Proof.
  intros Hc. revert vs'. induction Hc as [h Hh|vs prev seq payload r m Hc IH Hs Hd]; intros vs' Hc' Hlen.
  { left. exists (length vs'). by rewrite drop_all. }
  rewrite length_app in Hlen. cbn in Hlen.
  inversion Hc' as [? ? Hv|vs1 prev1 seq1 payload1 r1 m1 Hc1 Hs1 Hd1 Hv Hh]; subst.
  { cbn in Hlen. lia. }
  destruct (digest_binds seq prev payload seq1 prev1 payload1) as [(-> & -> & ->)|]; try done; [..|by right].
  1,2: by eapply chained_length.
  rewrite Hd in Hd1. injection Hd1 as -> ->. rewrite length_app in Hlen. cbn in Hlen.
  destruct (IH vs1 Hc1) as [[k ->]|]; [lia| |by right]. left. exists (min k (length vs1)).
  rewrite drop_app_le by lia. f_equal. destruct (decide (k ≤ length vs1)%nat); [f_equal; lia|].
  rewrite !drop_ge by lia. done.
Qed.

(** Two directories, whatever was written into them, that scan to the same digest hold the same
    records, in order and with the same sequence numbers, as far back as the shorter of the two
    goes, unless a collision of SHA-256 can be shown: a record that was changed, removed from the
    middle, added or moved would show in the digest. *)
Theorem same_digest_same_records paths o allow d sr d1 paths' o' allow' d' sr' d1' :
  scan_segments paths o allow d = (Ok sr, d1) → scan_segments paths' o' allow' d' = (Ok sr', d1') →
  sr_last_hash sr = sr_last_hash sr' → (length (sr_records sr) ≤ length (sr_records sr'))%nat →
  (∃ k, sr_records sr = drop k (sr_records sr')) ∨ collision.
Proof.
  intros Hs%scan_segments_chained Hs'%scan_segments_chained He Hl. rewrite He in Hs. by eapply chained_same.
Qed.

(** Any fuel from the length of the bytes on is enough for a segment. *)
Lemma scan_frame_shorter o first number rest st st' rest' :
  scan_frame o first number rest st = Ok (Some (st', rest')) → (length rest' < length rest)%nat.
Proof.
  intros Hs. unfold scan_frame in Hs. destruct (len rest <? _) eqn:Hl; [done|]. apply N.ltb_ge in Hl.
  cbv zeta in Hs. repeat (match type of Hs with (if ?b then _ else _) = _ => destruct b end; [done|]).
  destruct (decode_record_with_retention _) as [[r m]|]; [|done].
  destruct (checked_add _ _ _); [|done]. injection Hs as _ <-. rewrite length_drop.
  unfold HEADER_LEN, HASH_LEN, len in Hl. lia.
Qed.
Lemma scan_frames_fuel f1 f2 o first number rest st :
  (length rest ≤ f1)%nat → (length rest ≤ f2)%nat →
  scan_frames f1 o first number rest st = scan_frames f2 o first number rest st.
Proof.
  revert f2 rest st. induction f1 as [|f1 IH]; intros f2 rest st H1 H2.
  { destruct rest; [by destruct f2|cbn in H1; lia]. }
  destruct rest as [|b rest]; [by destruct f2|]. destruct f2 as [|f2]; [cbn in H2; lia|]. cbn [scan_frames].
  destruct (scan_frame _ _ _ _ _) as [[[st1 rest1]|]|] eqn:Hf; [|done..].
  apply scan_frame_shorter in Hf. cbn in *. apply IH; lia.
Qed.
End binding.

(** ** Pages *)
(** Descending by sequence. *)
Definition newest_first (vs : list AuditRecordView) : Prop :=
  StronglySorted (λ a b, view_sequence b < view_sequence a) vs.
Definition below (before : N) (v : AuditRecordView) : bool := view_sequence v <? before.

Lemma newest_first_filter P vs : newest_first vs → newest_first (List.filter P vs).
Proof.
  induction 1 as [|v vs Hs IH Hv]; [constructor|]. cbn. destruct (P v); [|done]. constructor; [done|].
  rewrite Forall_forall in *. intros x Hx%list_elem_of_In%List.filter_In. apply Hv, list_elem_of_In. tauto.
Qed.
Lemma filter_split P Q (vs : list AuditRecordView) :
  List.filter (λ v, P v && Q v) vs = List.filter P (List.filter Q vs).
Proof.
  induction vs as [|v vs IH]; [done|]. cbn. destruct (Q v) eqn:HQ; cbn; rewrite ?andb_true_r, ?andb_false_r;
    [destruct (P v)|]; by rewrite IH.
Qed.
Lemma views_filter_all P (vs : list AuditRecordView) : Forall (λ v, P v = true) vs → List.filter P vs = vs.
Proof. induction 1 as [|v vs Hv _ IH]; [done|]. cbn. by rewrite Hv, IH. Qed.
Lemma views_filter_none P (vs : list AuditRecordView) : Forall (λ v, P v = false) vs → List.filter P vs = [].
Proof. induction 1 as [|v vs Hv _ IH]; [done|]. cbn. by rewrite Hv, IH. Qed.

(** What comes after a page is what lies below its last record. *)
Lemma below_rest n vs oldest :
  newest_first vs → last (take n vs) = Some oldest →
  List.filter (below (view_sequence oldest)) vs = drop n vs.
Proof.
  unfold newest_first. revert n. induction vs as [|v vs IH]; intros n Hs Hl; [by rewrite take_nil in Hl|].
  destruct n as [|n]; [done|]. apply StronglySorted_inv in Hs as [Hs Hv]. cbn [take drop] in *.
  destruct (last (take n vs)) as [w|] eqn:E.
  - assert (w = oldest) as -> by (rewrite last_cons, E in Hl; congruence). cbn. unfold below at 1.
    assert (Hw : oldest ∈ vs).
    { apply last_Some in E as [pre E]. rewrite <-(take_drop n vs), E. set_solver. }
    rewrite Forall_forall in Hv. specialize (Hv oldest Hw).
    rewrite (proj2 (N.ltb_ge _ _)) by lia. by apply IH.
  - assert (v = oldest) as -> by (rewrite last_cons, E in Hl; congruence).
    apply last_None in E. cbn. unfold below at 1. rewrite N.ltb_irrefl.
    rewrite views_filter_all.
    + rewrite <-(take_drop n vs) at 1. by rewrite E.
    + eapply Forall_impl; [exact Hv|]. intros x Hx. by apply N.ltb_lt.
Qed.

Section paging.
  Context {json : SerdeJson} {json_laws : SerdeLaws} {sha : Sha256} {sha_laws : Sha256Laws}.

(** The pages, at most [most] of them, each asked for with the cursor of the page before. *)
Fixpoint follow (most : nat) (q : AuditQuery) (l : FileAuditLedger) : option (list (list AuditRecordView)) :=
  match most with
  | O => None
  | S most =>
      match file_query q l with
      | Err _ => None
      | Ok page =>
          match page_next_cursor page with
          | None => Some [page_records page]
          | Some c => cons (page_records page) <$> follow most (with_cursor q c) l
          end
      end
  end.

(** What a query asks for, wherever its cursor is. *)
Definition wanted (q : AuditQuery) (v : AuditRecordView) : bool :=
  opt_is_none_or (λ a, bool_decide (a = ar_action (view_record v))) (q_action q)
  && opt_is_none_or (λ o, bool_decide (Some o = ar_outcome (view_record v))) (q_outcome q)
  && opt_is_none_or (λ k, bool_decide (k = ar_target_kind (view_record v))) (q_target_kind q)
  && opt_is_none_or (λ t, t <=? ctx_received_at (ar_context (view_record v))) (q_from q)
  && opt_is_none_or (λ t, ctx_received_at (ar_context (view_record v)) <=? t) (q_to q).
Lemma matches_wanted q before vs :
  List.filter (matches_query q before) vs = List.filter (below before) (List.filter (wanted q) vs).
Proof.
  rewrite <-filter_split. apply List.filter_ext. intros v. unfold matches_query, wanted, below.
  by rewrite !andb_assoc.
Qed.

Record ordered (l : FileAuditLedger) : Prop := {
  or_sorted : newest_first (rev (fa_records l));
  or_below : Forall (λ v, 0 < view_sequence v ≤ head_sequence (fa_head l)) (fa_records l);
  or_head : head_sequence (fa_head l) < U64_MAX
}.
Definition cursor_ok (q : AuditQuery) (l : FileAuditLedger) : Prop :=
  match q_cursor q with
  | None => True
  | Some c => cur_generation c = head_generation (fa_head l) ∧ 0 < cur_before c ≤ head_sequence (fa_head l)
  end.
Definition from_cursor (q : AuditQuery) : N := match q_cursor q with Some c => cur_before c | None => U64_MAX end.

(** The records a cursor still leaves. *)
Definition left_of (before : N) (l : FileAuditLedger) : nat := length (List.filter (below before) (fa_records l)).
Lemma left_shrinks (vs : list AuditRecordView) v a :
  v ∈ vs → view_sequence v < a → (length (List.filter (below (view_sequence v)) vs) < length (List.filter (below a) vs))%nat.
Proof.
  unfold below. intros Hv Ha.
  assert (Hle : ∀ l : list AuditRecordView, (length (List.filter (λ w, view_sequence w <? view_sequence v)%N l)
                  ≤ length (List.filter (λ w, view_sequence w <? a)%N l))%nat).
  { induction l as [|y l IH]; [done|]. cbn.
    destruct (N.ltb_spec (view_sequence y) (view_sequence v)), (N.ltb_spec (view_sequence y) a); cbn; lia. }
  induction vs as [|x vs IH]; [by apply not_elem_of_nil in Hv|].
  specialize (Hle vs). cbn. apply elem_of_cons in Hv as [<-|Hv]; [|specialize (IH Hv)].
  - rewrite N.ltb_irrefl, (proj2 (N.ltb_lt _ _)) by done. cbn. lia.
  - destruct (N.ltb_spec (view_sequence x) (view_sequence v)), (N.ltb_spec (view_sequence x) a); cbn; lia.
Qed.

Lemma query_page q l :
  ordered l → cursor_ok q l →
  let all := List.filter (below (from_cursor q)) (List.filter (wanted q) (rev (fa_records l))) in
  ∃ page, file_query q l = Ok page ∧ page_records page = take (N.to_nat (q_limit q)) all
    ∧ match page_next_cursor page with
      | None => (0 < q_limit q → drop (N.to_nat (q_limit q)) all = [])
      | Some c => cursor_ok (with_cursor q c) l ∧ (0 < left_of (cur_before c) l < left_of (from_cursor q) l)%nat
          ∧ List.filter (below (cur_before c)) (List.filter (wanted q) (rev (fa_records l)))
            = drop (N.to_nat (q_limit q)) all
      end.
Proof.
  intros [Hs Hb Hh] Hc all. unfold file_query.
  replace (match q_cursor q with Some c => _ | None => false end) with false.
  2:{ unfold cursor_ok in Hc. destruct (q_cursor q) as [c|]; [|done]. destruct Hc as [Hg Hc].
      rewrite (proj2 (N.eqb_eq _ _)), (proj2 (N.eqb_neq _ _)) by (done || lia). symmetry. cbn [negb orb].
      apply N.ltb_ge. unfold saturating_add. lia. }
  cbv zeta. fold (from_cursor q). rewrite matches_wanted. fold all.
  set (n := N.to_nat (q_limit q)). eexists. split; [done|]. cbn [page_records page_next_cursor]. split; [done|].
  assert (Hsub : ∀ v, v ∈ all → v ∈ fa_records l ∧ view_sequence v < from_cursor q).
  { intros v [[Hv _]%List.filter_In Hlt]%list_elem_of_In%List.filter_In. split; [|by apply N.ltb_lt].
    by apply list_elem_of_In, in_rev. }
  assert (Hall : newest_first all) by (by apply newest_first_filter, newest_first_filter).
  destruct (last (take n all)) as [oldest|] eqn:El.
  2:{ intros Hl. apply last_None, take_nil_inv in El as [El| ->]; [unfold n in El; lia|by rewrite drop_nil]. }
  pose proof (below_rest n all oldest Hall El) as Hrest.
  assert (Hin : oldest ∈ all).
  { apply last_Some in El as [pre El]. rewrite <-(take_drop n all), El. set_solver. }
  destruct (Hsub oldest Hin) as [Hin' Hlt]. rewrite Forall_forall in Hb. pose proof (Hb oldest Hin') as Ho.
  destruct (existsb _ _) eqn:Ex.
  - cbn [cur_before]. split; [by split|]. split.
    { split; [|by apply left_shrinks]. apply existsb_exists in Ex as (v & Hv & Hvo). unfold left_of.
      assert (Hv' : In v (List.filter (below (view_sequence oldest)) (fa_records l))) by (by apply List.filter_In).
      destruct (List.filter (below (view_sequence oldest)) (fa_records l)); [done|cbn; lia]. }
    rewrite <-Hrest.
    unfold all. rewrite <-(filter_split _ (below (from_cursor q))). apply List.filter_ext. intros v. unfold below.
    destruct (view_sequence v <? view_sequence oldest) eqn:E; [|done]. nbool.
    symmetry. apply N.ltb_lt. lia.
  - intros _. rewrite <-Hrest. apply views_filter_none, Forall_forall. intros v Hv. unfold below.
    destruct (view_sequence v <? view_sequence oldest) eqn:E; [|done].
    rewrite <-Ex. symmetry. apply existsb_exists. exists v. split; [|done].
    apply list_elem_of_In. by destruct (Hsub v Hv).
Qed.

Lemma follow_all most q l :
  ordered l → cursor_ok q l → 0 < q_limit q → (0 < most)%nat → (left_of (from_cursor q) l ≤ most)%nat →
  ∃ pages, follow most q l = Some pages ∧ Forall (λ p, len p ≤ q_limit q) pages
    ∧ concat pages = List.filter (below (from_cursor q)) (List.filter (wanted q) (rev (fa_records l))).
Proof.
  revert q. induction most as [|most IH]; intros q Hl Hc Hq Hm Hf; [lia|]. cbn [follow].
  destruct (query_page q l Hl Hc) as (page & -> & Hr & Hnext). set (all := List.filter _ (List.filter _ _)) in *.
  assert (Hlen : len (page_records page) ≤ q_limit q) by (rewrite Hr; unfold len; rewrite length_take; lia).
  destruct (page_next_cursor page) as [c|].
  - destruct Hnext as (Hc' & Hleft & Hrest).
    destruct (IH (with_cursor q c)) as (pages & -> & Hp & Hcat); try done.
    + change (from_cursor (with_cursor q c)) with (cur_before c). lia.
    + change (from_cursor (with_cursor q c)) with (cur_before c). lia.
    + change (from_cursor (with_cursor q c)) with (cur_before c) in Hcat. change (wanted (with_cursor q c)) with (wanted q) in Hcat.
      eexists. split; [done|]. split; [by constructor|]. cbn [concat]. by rewrite Hcat, Hrest, Hr, take_drop.
  - eexists. split; [done|]. split; [by constructor|]. cbn [concat]. rewrite app_nil_r, Hr. specialize (Hnext Hq).
    rewrite <-(take_drop (N.to_nat (q_limit q)) all) at 2. by rewrite Hnext, app_nil_r.
Qed.

(** ** The ledgers of a directory are in order *)
Lemma views_rev_sorted seq es :
  newest_first (rev (views seq es)) ∧ Forall (λ v, seq ≤ view_sequence v < seq + len es) (views seq es).
Proof.
  revert seq. induction es as [|e es IH]; intros seq; [split; constructor|]. cbn [views rev].
  destruct (IH (seq + 1)) as [Hs Hb]. rewrite len_cons. split.
  - unfold newest_first in *. apply StronglySorted_app. split_and!; [|done|repeat constructor].
    intros a b Ha%list_elem_of_In%in_rev%list_elem_of_In ->%list_elem_of_singleton.
    rewrite Forall_forall in Hb. specialize (Hb a Ha). cbn [view_sequence]. lia.
  - constructor; [cbn [view_sequence]; lia|]. eapply Forall_impl; [exact Hb|]. cbn. intros. lia.
Qed.
Definition first_sequence (segs : list Seg) : N := match segs with s :: _ => seg_seq s | [] => 0 end.
Lemma chain_rev_sorted segs s :
  linked segs → last segs = Some s →
  newest_first (rev (all_views segs)) ∧ first_sequence segs ≤ seg_end s
  ∧ Forall (λ v, first_sequence segs ≤ view_sequence v < seg_end s) (all_views segs).
Proof.
  induction segs as [|a segs IH]; intros Hl Hs; [done|].
  unfold all_views. cbn [mbind list_bind first_sequence].
  destruct (views_rev_sorted (seg_seq a) (seg_entries a)) as [Ha Hb]. fold (seg_views a) in Ha, Hb.
  destruct segs as [|b segs].
  { injection Hs as ->. cbn [list_bind]. rewrite app_nil_r. split; [done|]. split; [unfold seg_end; lia|exact Hb]. }
  destruct (IH (linked_tail _ _ Hl)) as (Hs' & Hse & Hb'); [by rewrite last_cons_cons in Hs|].
  destruct Hl as (_ & Hq & _ & _ & _). unfold all_views in Hs', Hb'.
  cbn [first_sequence] in Hse, Hb'. unfold seg_end at 1 in Hq. rewrite !Forall_forall in *.
  split; [|split; [lia|]].
  - rewrite rev_app_distr. unfold newest_first in *. apply StronglySorted_app. split_and!; [|done|done].
    intros x y Hx%list_elem_of_In%in_rev%list_elem_of_In Hy%list_elem_of_In%in_rev%list_elem_of_In.
    specialize (Hb y Hy). specialize (Hb' x Hx). cbv beta in *. lia.
  - intros x [Hx|Hx]%elem_of_app; [specialize (Hb x Hx)|specialize (Hb' x Hx)]; lia.
Qed.
Lemma ledger_ordered l init sn : ledger_ok l init sn → seg_end sn < U64_MAX → ordered l.
Proof.
  intros [_ Hc _ [Fr _ _ _ _ _ Fq _] _] Hend. pose proof Hc as [Hl _ _ _].
  destruct (chain_rev_sorted _ sn Hl (last_snoc _ _)) as (Hsort & _ & Hb).
  assert (Hfirst : 0 < first_sequence (init ++ [sn])).
  { destruct (head_snoc init sn) as [s0 Hs0]. pose proof (chain_seq_pos _ _ _ Hc Hs0).
    destruct init; injection Hs0 as ->; done. }
  split; rewrite ?Fr, ?Fq; [done| |lia].
  eapply Forall_impl; [exact Hb|]. intros v Hv. cbv beta in *. lia.
Qed.

(** C32: Asking a ledger for a page of at least one record, and then for the next one with the cursor
    of each answer, ends after at most as many pages as the ledger has records (one page, if it has
    none); no page is larger than asked for, and together they list the records that match the query,
    all of them and each once, the newest first.  The ledger is any that appending fewer than 10^15
    records, none of them a checkpoint, to a fresh directory leads to, with accepted options that leave
    room for a checkpoint. *)
Theorem pages_list_every_match o rs l q :
  options_refused o = false → checkpoint_fits o → Forall user_record rs → len rs < 10 ^ 15 →
  reached o rs l → 0 < q_limit q → q_cursor q = None →
  ∃ pages, follow (Nat.max 1 (length (fa_records l))) q l = Some pages
    ∧ Forall (λ p, len p ≤ q_limit q) pages
    ∧ concat pages = List.filter (wanted q) (rev (fa_records l)).
Proof.
  intros Ho Hcf Hrs Hlen Hre Hq Hcur.
  destruct (reached_ok o rs l Ho Hcf Hrs Hlen Hre) as ((init & sn & Hok & [Hroom _]) & _ & _).
  assert (Hord : ordered l) by (eapply ledger_ordered; [done|lia]).
  destruct (follow_all (Nat.max 1 (length (fa_records l))) q l Hord) as (pages & Hf & Hp & Hcat);
    [unfold cursor_ok; by rewrite Hcur|done|lia| |].
  - etrans; [apply List.filter_length_le|]. lia.
  - exists pages. split_and!; [done|done|]. rewrite Hcat. apply views_filter_all, Forall_forall. intros v [Hv _]%list_elem_of_In%List.filter_In.
    apply in_rev, list_elem_of_In in Hv. destruct Hord as [_ Hb Hh]. rewrite Forall_forall in Hb.
    specialize (Hb v Hv). unfold below, from_cursor. rewrite Hcur. apply N.ltb_lt. lia.
Qed.
End paging.

(** ** Examples *)
Import LedgerSample.
Definition sample_scan : ScanResult :=
  match scan_segments [3; 4; 5] options false (fa_disk ledger) with
  | (Ok sr, _) => sr
  | (Err _, _) => {| sr_records := []; sr_record_segments := []; sr_segments := []; sr_head := fa_head ledger;
                     sr_last_hash := []; sr_current_segment_bytes := 0; sr_recovered := false |}
  end.
Lemma sample_scanned : scan_segments [3; 4; 5] options false (fa_disk ledger) = (Ok sample_scan, fa_disk ledger).
Proof. vm_compute. reflexivity. Qed.

Lemma same_digest_same_records_witness :
  length (sr_records sample_scan) = 9%nat
  ∧ ((∃ k, sr_records sample_scan = drop k (sr_records sample_scan)) ∨ collision).
Proof.
  split; [vm_compute; reflexivity|].
  exact (same_digest_same_records [3; 4; 5] options false _ sample_scan _ [3; 4; 5] options false _ sample_scan _
    sample_scanned sample_scanned eq_refl (le_n _)).
Defined.

Definition two_at_a_time : AuditQuery :=
  {| q_action := Some ProxyHostCreate; q_outcome := None; q_target_kind := None; q_from := None; q_to := None;
     q_limit := 2; q_cursor := None |}.
Lemma pages_list_every_match_witness :
  reached options records ledger
  ∧ length (fa_records ledger) = 9%nat
  ∧ ∃ pages, follow (Nat.max 1 (length (fa_records ledger))) two_at_a_time ledger = Some pages
      ∧ Forall (λ p, len p ≤ 2) pages
      ∧ concat pages = List.filter (wanted two_at_a_time) (rev (fa_records ledger)).
Proof.
  split; [exact reached_sample|]. split; [vm_compute; reflexivity|].
  exact (pages_list_every_match options records ledger two_at_a_time eq_refl (sample_checkpoint_fits options eq_refl)
    records_ok eq_refl reached_sample eq_refl eq_refl).
Defined.
