(* ===== verification/AdminHttp.v ===== *)
(** * The admin API's HTTP and JSON texts

    http_envelope.rs, error_response.rs and the parts of admin_json_contract.rs that the modelled
    handlers use (crates/edge-admin-api/src): requests are read from one text, responses are written
    as one text, and JSON fields are found by searching for their quoted name. *)

From stdpp Require Import base gmap strings list.
From Stdlib Require Import Strings.Byte NArith Lia.
From S2P Require Import Prelude Errors ErrorMessages RustStr HttpRequest Endpoint UpstreamPolicy Snapshot ConfigParser ConfigRender ConfigValidation ConfigStore ConfigLifecycle AdminConfig.
Local Open Scope N_scope.

(** ** Requests and responses *)
Inductive AdminHttpMethod : Set := MethodGet | MethodPost | MethodPatch | MethodDelete.
#[global] Instance AdminHttpMethod_eq_dec : EqDecision AdminHttpMethod. Proof. solve_decision. Defined.
Record AdminHttpRequest := {
  rq_method : AdminHttpMethod;
  rq_path : list byte;
  rq_request_id : list byte;
  rq_session_id : option (list byte);
  rq_csrf_token : option (list byte);
  rq_body : list byte
}.
Record AdminHttpResponse := {
  rs_status_code : N;
  rs_headers : list (list byte * list byte);
  rs_body : list byte;
  rs_error_code : option (list byte)
}.
Definition response_json (status_code : N) (body : list byte) : AdminHttpResponse :=
  {| rs_status_code := status_code; rs_headers := [(lit "content-type", lit "application/json")];
     rs_body := body; rs_error_code := None |}.
Definition with_header (name value : list byte) (r : AdminHttpResponse) : AdminHttpResponse :=
  {| rs_status_code := rs_status_code r; rs_headers := rs_headers r ++ [(name, value)];
     rs_body := rs_body r; rs_error_code := rs_error_code r |}.
Definition with_error_code (code : list byte) (r : AdminHttpResponse) : AdminHttpResponse :=
  {| rs_status_code := rs_status_code r; rs_headers := rs_headers r; rs_body := rs_body r;
     rs_error_code := Some code |}.

(** [split_once] with a pattern of several bytes. *)
Definition split_once_str (pat l : list byte) : option (list byte * list byte) :=
  n ← find_seq pat l; Some (take n l, drop (n + length pat) l).

Definition malformed_http {A} (message : string) : result AppError A :=
  Err (AppError_new HttpMalformedRequest message).
Definition parse_http_method (method : option (list byte)) : result AppError AdminHttpMethod :=
  match method with
  | Some m =>
      if bool_decide (m = lit "GET") then Ok MethodGet
      else if bool_decide (m = lit "POST") then Ok MethodPost
      else if bool_decide (m = lit "PATCH") then Ok MethodPatch
      else if bool_decide (m = lit "DELETE") then Ok MethodDelete
      else malformed_http "unsupported HTTP method"
  | None => malformed_http "missing HTTP method"
  end.

Definition cookie_part (name part : list byte) : option (list byte) :=
  '(candidate, value) ← split_once EQUALS (trim part);
  if bool_decide (candidate = name) then Some value else None.
Definition cookie_value (header name : list byte) : option (list byte) :=
  head (omap (cookie_part name) (split_byte x3b header)).

(** The loop over the header lines; [id], [session] and [csrf] are what was found so far. *)
Fixpoint parse_admin_headers (lines : list (list byte)) (id : list byte) (session csrf : option (list byte))
  : result AppError (list byte * option (list byte) * option (list byte)) :=
  match lines with
  | [] => Ok (id, session, csrf)
  | line :: rest =>
      match split_once COLON line with
      | None => malformed_http "malformed HTTP header"
      | Some (name, value) =>
          let name := trim name in
          let value := trim value in
          if eq_ignore_ascii_case name (lit "x-request-id") && negb (bool_decide (value = []))
          then parse_admin_headers rest value session csrf
          else if eq_ignore_ascii_case name (lit "x-csrf-token") && negb (bool_decide (value = []))
          then parse_admin_headers rest id session (Some value)
          else if eq_ignore_ascii_case name (lit "cookie")
          then parse_admin_headers rest id (cookie_value value (lit "sponzey_session")) csrf
          else parse_admin_headers rest id session csrf
      end
  end.

Definition parse_admin_http_request (raw fallback_request_id : list byte) : result AppError AdminHttpRequest :=
  let (head, body) := default (raw, []) (split_once_str CRLFCRLF raw) in
  match str_lines head with
  | [] => malformed_http "missing HTTP request line"
  | request_line :: lines =>
      let parts := split_whitespace request_line in
      let? method := parse_http_method (parts !! 0%nat) in
      match parts !! 1%nat with
      | None => malformed_http "missing HTTP path"
      | Some path =>
          match parts !! 2%nat with
          | None => malformed_http "missing HTTP version"
          | Some version =>
              if negb (bool_decide (version = lit "HTTP/1.1")) && negb (bool_decide (version = lit "HTTP/1.0"))
              then malformed_http "unsupported HTTP version"
              else
                let? (id, session, csrf) := parse_admin_headers lines fallback_request_id None None in
                Ok {| rq_method := method; rq_path := path; rq_request_id := id; rq_session_id := session;
                      rq_csrf_token := csrf; rq_body := body |}
          end
      end
  end.

Definition status_reason (status_code : N) : list byte :=
  match status_code with
  | 200 => lit "OK" | 400 => lit "Bad Request" | 401 => lit "Unauthorized" | 403 => lit "Forbidden"
  | 404 => lit "Not Found" | 409 => lit "Conflict" | 501 => lit "Not Implemented"
  | 503 => lit "Service Unavailable" | 500 => lit "Internal Server Error" | _ => lit "Error"
  end.
Definition header_line (h : list byte * list byte) : list byte := h.1 ++ lit ": " ++ h.2 ++ CRLF.
Definition render_admin_http_response (r : AdminHttpResponse) : list byte :=
  lit "HTTP/1.1 " ++ print_dec (rs_status_code r) ++ lit " " ++ status_reason (rs_status_code r) ++ CRLF
  ++ lit "content-length: " ++ print_dec (len (rs_body r)) ++ CRLF
  ++ (rs_headers r ≫= header_line) ++ CRLF ++ rs_body r.

(** ** JSON texts *)
(** A JSON text with apostrophes for its quotation marks. *)
Definition template (s : string) : list byte := (λ b, if bool_decide (b = x27) then QUOTE else b) <$> lit s.
Definition BACKSLASH : byte := x5c.

Definition escape_byte (b : byte) : list byte :=
  if bool_decide (b = BACKSLASH) then [BACKSLASH; BACKSLASH]
  else if bool_decide (b = QUOTE) then [BACKSLASH; QUOTE]
  else if bool_decide (b = LF) then [BACKSLASH; x6e]
  else if bool_decide (b = CR) then [BACKSLASH; x72]
  else if bool_decide (b = x09) then [BACKSLASH; x74]
  else [b].
Definition json_escape (value : list byte) : list byte := value ≫= escape_byte.
Definition push_json_escaped_character (b : byte) : option byte :=
  if bool_decide (b = QUOTE) then Some QUOTE
  else if bool_decide (b = BACKSLASH) then Some BACKSLASH
  else if bool_decide (b = x2f) then Some x2f
  else if bool_decide (b = x6e) then Some LF
  else if bool_decide (b = x72) then Some CR
  else if bool_decide (b = x74) then Some x09
  else None.

(** The characters up to the closing quotation mark, and what follows it.  A character of several
    bytes is none of the ones the loop looks for. *)
Fixpoint json_string_rest (escaped : bool) (l : list byte) : option (list byte * list byte) :=
  match l with
  | [] => None
  | b :: rest =>
      if escaped then
        c ← push_json_escaped_character b; '(s, after) ← json_string_rest false rest; Some (c :: s, after)
      else if bool_decide (b = BACKSLASH) then json_string_rest true rest
      else if bool_decide (b = QUOTE) then Some ([], rest)
      else '(s, after) ← json_string_rest false rest; Some (b :: s, after)
  end.
Definition parse_json_string_prefix (input : list byte) : option (list byte * list byte) :=
  strip_prefix [QUOTE] input ≫= json_string_rest false.

(** What follows the first occurrence of the quoted name and the colon after it. *)
Definition after_field (body field : list byte) : option (list byte) :=
  '(_, after_name) ← split_once_str (QUOTE :: field ++ [QUOTE]) body;
  '(_, value) ← split_once COLON after_name;
  Some (trim_start value).
Definition json_string_field (body field : list byte) : option (list byte) :=
  value ← after_field body field; fst <$> parse_json_string_prefix value.
Definition json_bool_field (body field : list byte) : option bool :=
  value ← after_field body field;
  if starts_with (lit "true") value then Some true
  else if starts_with (lit "false") value then Some false
  else None.
(** The loop of [json_string_array_field]: every turn that goes on reads at least the two quotation
    marks of a string, so the length of the text is fuel enough. *)
Fixpoint json_strings (fuel : nat) (input : list byte) : option (list (list byte)) :=
  match fuel with
  | O => None
  | S fuel =>
      let input := trim_start input in
      if starts_with [x5d] input then Some []
      else
        '(value, rest) ← parse_json_string_prefix input;
        let rest := trim_start rest in
        match strip_prefix [x2c] rest with
        | Some rest => values ← json_strings fuel rest; Some (value :: values)
        | None => if starts_with [x5d] rest then Some [value] else None
        end
  end.
Definition json_string_array_field (body field : list byte) : option (list (list byte)) :=
  value ← after_field body field; input ← strip_prefix [x5b] value;
  json_strings (S (length input)) (trim_start input).

Definition malformed_json_field (field : string) : AppError :=
  AppError_new HttpMalformedRequest (text (lit "request body requires JSON field `" ++ lit field ++ lit "`")).
Definition required_json_string (body : list byte) (field : string) : result AppError (list byte) :=
  ok_or (json_string_field body (lit field)) (malformed_json_field field).
Definition required_json_string_array (body : list byte) (field : string) : result AppError (list (list byte)) :=
  ok_or (json_string_array_field body (lit field)) (malformed_json_field field).
Definition required_json_bool (body : list byte) (field : string) : result AppError bool :=
  ok_or (json_bool_field body (lit field)) (malformed_json_field field).

Definition json_text (value : list byte) : list byte := [QUOTE] ++ json_escape value ++ [QUOTE].
Definition comma_separated (items : list (list byte)) : list byte := join [x2c] items.
Definition json_string_array_json (values : list (list byte)) : list byte :=
  [x5b] ++ comma_separated (json_text <$> values) ++ [x5d].

(** ** Error responses *)
Record ApiErrorResponse := {
  er_code : list byte;
  er_message : list byte;
  er_hint : list byte;
  er_request_id : list byte
}.
Definition ApiErrorResponse_from_error (e : AppError) (request_id : list byte) : ApiErrorResponse :=
  {| er_code := lit (ErrorCode_as_str (app_code e)); er_message := lit (app_message e);
     er_hint := lit (default_user_message (app_code e)); er_request_id := request_id |}.
Definition error_response_json (r : ApiErrorResponse) : list byte :=
  template "{'code':" ++ json_text (er_code r) ++ template ",'message':" ++ json_text (er_message r)
  ++ template ",'hint':" ++ json_text (er_hint r) ++ template ",'request_id':" ++ json_text (er_request_id r)
  ++ lit "}".
Definition error_response (status_code : N) (e : AppError) (request_id : list byte) : AdminHttpResponse :=
  with_error_code (lit (ErrorCode_as_str (app_code e)))
    (response_json status_code (error_response_json (ApiErrorResponse_from_error e request_id))).

Definition http_status_for_error (e : AppError) : N :=
  match app_code e with
  | AdminAuthRequired | AdminInvalidCredentials => 401
  | AdminCsrfRequired | AdminSetupRequired => 403
  | AdminRouteNotFound | CertificateNotFound | ConfigTrustBundleNotFound => 404
  | AdminSetupAlreadyComplete | ConfigRevisionNotFound | TrustBundleAlreadyExists | TrustBundleReferenced => 409
  | AdminEndpointNotImplemented => 501
  | AcmeTermsNotAccepted | AuditCursorInvalid | AuditRecordInvalid | CertificateInvalid
  | TrustBundleInvalid | TrustBundleLimitExceeded => 400
  | AcmeChallengeFailed => 500
  | ConfigStoreFailed | TrustBundleStoreFailed | RuntimeCommandRejected | RuntimeHealthUnavailable
  | InternalBug => 500
  | code =>
      if starts_with (lit "CONFIG_") (lit (ErrorCode_as_str code)) then 400
      else if starts_with (lit "HTTP_") (lit (ErrorCode_as_str code)) then 400
      else 500
  end.

(** ** Response bodies *)
Definition apply_response_json (r : ApplyResponse) : list byte :=
  template "{'revision_id':" ++ json_text (resp_revision_id r) ++ template ",'commands_sent':"
  ++ print_dec (resp_commands_sent r) ++ template ",'restart_required':" ++ print_bool (resp_restart_required r)
  ++ lit "}".

Definition state_text (s : UpstreamAdministrativeState) : list byte :=
  match s with AdminActive => lit "active" | AdminDraining => lit "draining" end.
Definition proxy_host_upstream_json (u : ProxyHostUpstreamRequest) : list byte :=
  template "{'id':" ++ json_text (ur_id u) ++ template ",'url':" ++ json_text (ur_url u)
  ++ template ",'administrative_state':'" ++ state_text (ur_administrative_state u) ++ template "'}".
Definition proxy_host_upstreams_json (us : list ProxyHostUpstreamRequest) : list byte :=
  [x5b] ++ comma_separated (proxy_host_upstream_json <$> us) ++ [x5d].
Definition proxy_host_retry_json (p : RetryPolicy) : list byte :=
  template "{'enabled':" ++ print_bool (retry_enabled p) ++ template ",'max_retries':"
  ++ print_dec (retry_max_retries p) ++ template ",'max_replay_bytes':" ++ print_dec (retry_max_replay_bytes p) ++ lit "}".
Definition proxy_host_passive_health_json (m : PassiveHealthMode) : list byte :=
  match m with
  | PassiveModeDisabled => template "{'enabled':false}"
  | PassiveModeEnabled p =>
      template "{'enabled':true,'failure_threshold':" ++ print_dec (ph_failure_threshold p)
      ++ template ",'ejection_ms':" ++ print_dec (ph_ejection_ms p) ++ lit "}"
  end.
Definition proxy_host_health_check_json (h : option HttpHealthCheckPolicy) : list byte :=
  match h with
  | None => template "{'enabled':false}"
  | Some h =>
      template "{'enabled':true,'path':" ++ json_text (hc_path h) ++ template ",'interval_ms':"
      ++ print_dec (hc_interval_ms h) ++ template ",'timeout_ms':" ++ print_dec (hc_timeout_ms h)
      ++ template ",'healthy_threshold':" ++ print_dec (hc_healthy_threshold h)
      ++ template ",'unhealthy_threshold':" ++ print_dec (hc_unhealthy_threshold h)
      ++ template ",'status_min':" ++ print_dec (hc_status_min h) ++ template ",'status_max':"
      ++ print_dec (hc_status_max h) ++ lit "}"
  end.
Definition proxy_host_response_json (h : ProxyHostResponse) : list byte :=
  template "{'id':" ++ json_text (pr_host_id h) ++ template ",'name':" ++ json_text (pr_name h)
  ++ template ",'domains':" ++ json_string_array_json (pr_domains h) ++ template ",'path_prefix':"
  ++ json_text (pr_path_prefix h) ++ template ",'upstream_url':" ++ json_text (pr_upstream_url h)
  ++ template ",'upstreams':" ++ proxy_host_upstreams_json (pr_upstreams h) ++ template ",'health_check':"
  ++ proxy_host_health_check_json (pr_health_check h) ++ template ",'retry':" ++ proxy_host_retry_json (pr_retry h)
  ++ template ",'passive_health':" ++ proxy_host_passive_health_json (pr_passive_health h)
  ++ template ",'https_enabled':" ++ print_bool (pr_https_enabled h) ++ template ",'letsencrypt_enabled':"
  ++ print_bool (pr_letsencrypt_enabled h) ++ template ",'redirect_http_to_https':"
  ++ print_bool (pr_redirect_http_to_https h) ++ template ",'enabled':" ++ print_bool (pr_enabled h) ++ lit "}".
Definition proxy_host_list_response_json (hs : list ProxyHostResponse) : list byte :=
  template "{'proxy_hosts':[" ++ comma_separated (proxy_host_response_json <$> hs) ++ lit "]}".

Definition validation_error_json (e : ValidationError) : list byte :=
  template "{'code':" ++ json_text (lit (ErrorCode_as_str (val_code e))) ++ template ",'message':"
  ++ json_text (lit (val_message e)) ++ template ",'hint':"
  ++ json_text (lit (default_user_message (val_code e))) ++ lit "}".
Definition config_validation_response_json (errors : list ValidationError) : list byte :=
  template "{'valid':" ++ print_bool (bool_decide (length errors = 0%nat)) ++ template ",'errors':["
  ++ comma_separated (validation_error_json <$> errors) ++ lit "]}".
Definition config_diff_response_json (diff : option ConfigDiff) (errors : list ValidationError) : list byte :=
  let diff := default {| diff_added_routes := []; diff_removed_routes := []; diff_changed_upstreams := [] |} diff in
  template "{'valid':" ++ print_bool (bool_decide (length errors = 0%nat)) ++ template ",'errors':["
  ++ comma_separated (validation_error_json <$> errors) ++ template "],'diff':{'added_routes':"
  ++ json_string_array_json (diff_added_routes diff) ++ template ",'removed_routes':"
  ++ json_string_array_json (diff_removed_routes diff) ++ template ",'changed_upstreams':"
  ++ json_string_array_json (diff_changed_upstreams diff) ++ lit "}}".
Definition config_response_json (s : ConfigSnapshot) : list byte :=
  template "{'revision_id':" ++ json_text (snap_revision_id s) ++ template ",'config':"
  ++ json_text (render_mvp_config_snapshot s) ++ lit "}".
