(* ===== verification/AdminSession.v ===== *)
(** * Admin sessions and request handlers

    session_auth.rs, proxy_host_request_decoder.rs, config_read_http.rs, proxy_host_read_http.rs,
    config_mutation_http.rs, proxy_host_mutation_http.rs, http_dispatch.rs and
    stateful_session_http.rs (crates/edge-admin-api/src).  The document that serde_json reads from a
    body and the secret store are parameters, as classes. *)

From stdpp Require Import base gmap strings list.
From Stdlib Require Import Strings.Byte NArith Lia.
From S2P Require Import Prelude Errors ErrorMessages RustStr HttpRequest Endpoint UpstreamPolicy Snapshot ConfigParser ConfigRender ConfigValidation ConfigStore ConfigLifecycle AdminConfig AdminHttp.
Local Open Scope N_scope.

(** ** Sessions *)
Record Session := { se_session_id : list byte; se_csrf_token : list byte }.
Record SessionStore := { sessions : gmap (list byte) (list byte) }.
Definition SessionStore_default : SessionStore := {| sessions := ∅ |}.
Definition session_insert (s : Session) (st : SessionStore) : SessionStore :=
  {| sessions := <[se_session_id s := se_csrf_token s]> (sessions st) |}.
Definition session_remove (id : list byte) (st : SessionStore) : SessionStore :=
  {| sessions := delete id (sessions st) |}.
Definition session_verify (id : list byte) (st : SessionStore) : bool :=
  bool_decide (is_Some (sessions st !! id)).
Definition session_verify_csrf (id token : list byte) (st : SessionStore) : bool :=
  bool_decide (sessions st !! id = Some token).

Record AdminAuthenticator := {
  aa_password_hash : list byte;
  aa_next_session : N;
  aa_failed_attempts : N;
  aa_max_failed_attempts : N
}.
Definition AdminAuthenticator_new (password_hash : list byte) : AdminAuthenticator :=
  {| aa_password_hash := password_hash; aa_next_session := 1; aa_failed_attempts := 0;
     aa_max_failed_attempts := 5 |}.
#[global] Instance AdminAuthenticator_eq_dec : EqDecision AdminAuthenticator. Proof. solve_decision. Defined.
Definition session_for (n : N) : Session :=
  {| se_session_id := lit "session-" ++ print_dec n; se_csrf_token := lit "csrf-" ++ print_dec n |}.
(** The additions are plain ones; neither counter reaches its width. *)
Definition login (password_hash : list byte) (a : AdminAuthenticator) (st : SessionStore)
  : result AppError Session * (AdminAuthenticator * SessionStore) :=
  if aa_max_failed_attempts a <=? aa_failed_attempts a
  then (Err (AppError_new AdminInvalidCredentials "too many failed attempts"), (a, st))
  else if negb (bool_decide (password_hash = aa_password_hash a))
  then (Err (AppError_new AdminInvalidCredentials "invalid credentials"),
        ({| aa_password_hash := aa_password_hash a; aa_next_session := aa_next_session a;
            aa_failed_attempts := aa_failed_attempts a + 1;
            aa_max_failed_attempts := aa_max_failed_attempts a |}, st))
  else
    let session := session_for (aa_next_session a) in
    (Ok session,
     ({| aa_password_hash := aa_password_hash a; aa_next_session := aa_next_session a + 1;
         aa_failed_attempts := 0; aa_max_failed_attempts := aa_max_failed_attempts a |},
      session_insert session st)).

Definition require_session (st : SessionStore) (session_id : option (list byte)) : result AppError () :=
  match session_id with
  | None => Err (AppError_new AdminAuthRequired "admin session is required")
  | Some id =>
      if session_verify id st then Ok ()
      else Err (AppError_new AdminAuthRequired "admin session is invalid")
  end.
Definition require_csrf (st : SessionStore) (session_id : list byte) (token : option (list byte))
  : result AppError () :=
  match token with
  | None => Err (AppError_new AdminCsrfRequired "csrf token is required")
  | Some token =>
      if session_verify_csrf session_id token st then Ok ()
      else Err (AppError_new AdminCsrfRequired "csrf token is invalid")
  end.

(** ** Documents *)
(** [serde_json::Value]; a number is what [as_u64] makes of it. *)
Inductive Value :=
| VNull
| VBool (b : bool)
| VNumber (n : option N)
| VString (s : list byte)
| VArray (items : list Value)
| VObject (fields : list (list byte * Value)).
(** [serde_json::from_str]. *)
Class SerdeValue := value_from_str : list byte → option Value.

Definition value_get (field : string) (v : Value) : option Value :=
  match v with
  | VObject fields => snd <$> List.find (λ f : list byte * Value, bool_decide (f.1 = lit field)) fields
  | _ => None
  end.
Definition as_str (v : Value) : option (list byte) := match v with VString s => Some s | _ => None end.
Definition as_bool (v : Value) : option bool := match v with VBool b => Some b | _ => None end.
Definition as_u64 (v : Value) : option N := match v with VNumber n => n | _ => None end.
Definition as_array (v : Value) : option (list Value) := match v with VArray l => Some l | _ => None end.
(** [TryFrom<u64>] for a narrower type. *)
Definition narrow (mx n : N) : option N := if n <=? mx then Some n else None.

Definition field_of {A} (as_type : Value → option A) (field name : string) (v : Value) : result AppError A :=
  ok_or (value_get field v ≫= as_type) (malformed_json_field name).

Definition upstream_from_json (item : Value) : result AppError ProxyHostUpstreamRequest :=
  let? id := field_of as_str "id" "upstreams.id" item in
  let? url := field_of as_str "url" "upstreams.url" item in
  let state := default (lit "active") (value_get "administrative_state" item ≫= as_str) in
  if bool_decide (state = lit "active")
  then Ok {| ur_id := id; ur_url := url; ur_administrative_state := AdminActive |}
  else if bool_decide (state = lit "draining")
  then Ok {| ur_id := id; ur_url := url; ur_administrative_state := AdminDraining |}
  else Err (malformed_json_field "upstreams.administrative_state").
Fixpoint upstreams_from_items (items : list Value) : result AppError (list ProxyHostUpstreamRequest) :=
  match items with
  | [] => Ok []
  | item :: rest =>
      let? u := upstream_from_json item in
      let? us := upstreams_from_items rest in
      Ok (u :: us)
  end.
Definition proxy_host_upstreams_from_json (v : Value) : result AppError (list ProxyHostUpstreamRequest) :=
  match value_get "upstreams" v with
  | None => Ok []
  | Some items =>
      let? items := ok_or (as_array items) (malformed_json_field "upstreams") in
      upstreams_from_items items
  end.
Definition proxy_host_retry_from_json (v : Value) : result AppError RetryPolicy :=
  match value_get "retry" v with
  | None => Ok RetryPolicy_default
  | Some policy =>
      let? enabled := field_of as_bool "enabled" "retry.enabled" policy in
      let? max_retries := field_of as_u64 "max_retries" "retry.max_retries" policy in
      let? max_retries := ok_or (narrow U8_MAX max_retries) (malformed_json_field "retry.max_retries") in
      let? max_replay_bytes := field_of as_u64 "max_replay_bytes" "retry.max_replay_bytes" policy in
      Ok {| retry_enabled := enabled; retry_max_retries := max_retries;
            retry_max_replay_bytes := max_replay_bytes |}
  end.
Definition from_validation {A B} (f : A → B) (r : result ValidationError A) : result AppError B :=
  match r with
  | Ok x => Ok (f x)
  | Err e => Err (AppError_new (val_code e) (val_message e))
  end.
Definition proxy_host_passive_health_from_json (v : Value) : result AppError PassiveHealthMode :=
  match value_get "passive_health" v with
  | None => Ok PassiveModeDisabled
  | Some policy =>
      let? enabled := field_of as_bool "enabled" "passive_health.enabled" policy in
      if negb enabled then Ok PassiveModeDisabled
      else
        let? threshold := field_of as_u64 "failure_threshold" "passive_health.failure_threshold" policy in
        let? threshold := ok_or (narrow U8_MAX threshold) (malformed_json_field "passive_health.failure_threshold") in
        let? ejection_ms := field_of as_u64 "ejection_ms" "passive_health.ejection_ms" policy in
        from_validation PassiveModeEnabled (PassiveHealthPolicy_new threshold ejection_ms)
  end.
Definition proxy_host_health_check_from_json (v : Value) : result AppError (option HttpHealthCheckPolicy) :=
  match value_get "health_check" v with
  | None => Ok None
  | Some health =>
      let? enabled := field_of as_bool "enabled" "health_check.enabled" health in
      if negb enabled then Ok None
      else
        let? path := field_of as_str "path" "path" health in
        let? interval_ms := field_of as_u64 "interval_ms" "interval_ms" health in
        let? timeout_ms := field_of as_u64 "timeout_ms" "timeout_ms" health in
        let? healthy := field_of as_u64 "healthy_threshold" "healthy_threshold" health in
        let? healthy := ok_or (narrow U32_MAX healthy) (malformed_json_field "healthy_threshold") in
        let? unhealthy := field_of as_u64 "unhealthy_threshold" "unhealthy_threshold" health in
        let? unhealthy := ok_or (narrow U32_MAX unhealthy) (malformed_json_field "unhealthy_threshold") in
        let? status_min := field_of as_u64 "status_min" "status_min" health in
        let? status_min := ok_or (narrow U16_MAX status_min) (malformed_json_field "status_min") in
        let? status_max := field_of as_u64 "status_max" "status_max" health in
        let? status_max := ok_or (narrow U16_MAX status_max) (malformed_json_field "status_max") in
        from_validation Some
          (HttpHealthCheckPolicy_new path interval_ms timeout_ms healthy unhealthy status_min status_max)
  end.

(** The nested parts come from the document, the others from the text. *)
Definition proxy_host_request_from_json `{!SerdeValue} (body : list byte) : result AppError ProxyHostRequest :=
  let? value := ok_or (value_from_str body) (malformed_json_field "body") in
  let? upstreams := proxy_host_upstreams_from_json value in
  let url := match json_string_field body (lit "upstream_url") with
             | Some url => Some url
             | None => ur_url <$> head upstreams
             end in
  let? upstream_url := ok_or url (malformed_json_field "upstream_url or upstreams") in
  let? id := required_json_string body "id" in
  let? name := required_json_string body "name" in
  let? domains := required_json_string_array body "domains" in
  let? path_prefix := required_json_string body "path_prefix" in
  let? health_check := proxy_host_health_check_from_json value in
  let? retry := proxy_host_retry_from_json value in
  let? passive_health := proxy_host_passive_health_from_json value in
  let? https_enabled := required_json_bool body "https_enabled" in
  let? letsencrypt_enabled := required_json_bool body "letsencrypt_enabled" in
  let? redirect := required_json_bool body "redirect_http_to_https" in
  let? enabled := required_json_bool body "enabled" in
  Ok {| pr_host_id := id; pr_name := name; pr_domains := domains; pr_path_prefix := path_prefix;
        pr_upstream_url := upstream_url; pr_upstreams := upstreams; pr_health_check := health_check;
        pr_retry := retry; pr_passive_health := passive_health; pr_https_enabled := https_enabled;
        pr_letsencrypt_enabled := letsencrypt_enabled; pr_redirect_http_to_https := redirect;
        pr_enabled := enabled |}.

(** ** Handlers *)
Definition route_not_found : AppError := AppError_new AdminRouteNotFound "admin http route not found".

(** A method and a path, and a session: what every handler of a fixed path asks for first. *)
Definition at_route (method : AdminHttpMethod) (path : string) (rq : AdminHttpRequest) : bool :=
  bool_decide (rq_method rq = method) && bool_decide (rq_path rq = lit path).
Definition refuse_session (st : SessionStore) (rq : AdminHttpRequest) : option AdminHttpResponse :=
  match require_session st (rq_session_id rq) with
  | Err e => Some (error_response 401 e (rq_request_id rq))
  | Ok _ => None
  end.
(** The session and then its token, as every change asks for them. *)
Definition refuse_change (st : SessionStore) (rq : AdminHttpRequest) : option AdminHttpResponse :=
  match require_session st (rq_session_id rq) with
  | Err e => Some (error_response 401 e (rq_request_id rq))
  | Ok _ =>
      match require_csrf st (default [] (rq_session_id rq)) (rq_csrf_token rq) with
      | Err e => Some (error_response 403 e (rq_request_id rq))
      | Ok _ => None
      end
  end.

Section reading.
  (** The derived [Debug] texts that [diff_config] compares are parameters of it. *)
  Context (debug_policy : ServicePolicy → list byte) (debug_state : UpstreamAdministrativeState → list byte).

Definition handle_config_get_http (rq : AdminHttpRequest) (st : SessionStore) (s : ConfigSnapshot)
  : AdminHttpResponse :=
  if negb (at_route MethodGet "/api/v1/config" rq) then error_response 404 route_not_found (rq_request_id rq)
  else match refuse_session st rq with
       | Some r => r
       | None => response_json 200 (config_response_json s)
       end.
Definition handle_config_validate_http (rq : AdminHttpRequest) (st : SessionStore) : AdminHttpResponse :=
  if negb (at_route MethodPost "/api/v1/config/validate" rq)
  then error_response 404 route_not_found (rq_request_id rq)
  else match refuse_session st rq with
       | Some r => r
       | None => response_json 200 (config_validation_response_json (validate_config_source (rq_body rq)))
       end.
Definition handle_config_diff_http (rq : AdminHttpRequest) (st : SessionStore) (current : ConfigSnapshot)
  : AdminHttpResponse :=
  if negb (at_route MethodPost "/api/v1/config/diff" rq)
  then error_response 404 route_not_found (rq_request_id rq)
  else match refuse_session st rq with
       | Some r => r
       | None =>
           match parse_valid_config_source (rq_body rq) (snap_revision_id current ++ lit "-config-diff") with
           | Ok next => response_json 200 (config_diff_response_json (Some (diff_config debug_policy debug_state (Some current) next)) [])
           | Err errors => response_json 200 (config_diff_response_json None errors)
           end
       end.
Definition handle_proxy_host_list_http (rq : AdminHttpRequest) (st : SessionStore) (s : ConfigSnapshot)
  : AdminHttpResponse :=
  if negb (at_route MethodGet "/api/v1/proxy-hosts" rq)
  then error_response 404 route_not_found (rq_request_id rq)
  else match refuse_session st rq with
       | Some r => r
       | None => response_json 200 (proxy_host_list_response_json (proxy_hosts_from_snapshot s))
       end.
Definition handle_proxy_host_get_http (rq : AdminHttpRequest) (st : SessionStore) (s : ConfigSnapshot)
  : AdminHttpResponse :=
  if negb (bool_decide (rq_method rq = MethodGet)) then error_response 404 route_not_found (rq_request_id rq)
  else match refuse_session st rq with
       | Some r => r
       | None =>
           match (let? id := proxy_host_id_from_member_path (rq_path rq) in proxy_host_from_snapshot s id) with
           | Ok h => response_json 200 (proxy_host_response_json h)
           | Err e => error_response (http_status_for_error e) e (rq_request_id rq)
           end
       end.

(** *** Status and health *)
Record ResourcePolicyResponse := { rpr_max_connections : N; rpr_max_inflight_payload_bytes : N }.
Record LiveResourceStatusResponse := {
  live_revision_id : list byte;
  live_generation : N;
  live_used_payload_bytes : N;
  live_payload_limit_bytes : N;
  live_active_connections : N;
  live_pressure : list byte
}.
Record StatusResponse := {
  sr_version_prefix : list byte;
  sr_current_revision_id : list byte;
  sr_desired_revision_id : list byte;
  sr_active_revision_id : list byte;
  sr_restart_required : bool;
  sr_activation_state : list byte;
  sr_desired_resource_policy : ResourcePolicyResponse;
  sr_active_resource_policy : ResourcePolicyResponse;
  sr_live_resource_status : option LiveResourceStatusResponse;
  sr_routes : N;
  sr_services : N;
  sr_certificates : N
}.
Definition resource_policy (s : ConfigSnapshot) : ResourcePolicyResponse :=
  {| rpr_max_connections := opt_max_connections (snap_runtime s);
     rpr_max_inflight_payload_bytes := opt_max_inflight_payload_bytes (snap_runtime s) |}.
Definition status_response_with_active_and_resource (desired active : ConfigSnapshot)
  (live : option LiveResourceStatusResponse) : StatusResponse :=
  let activation := config_activation_state active desired in
  {| sr_version_prefix := lit "/api/v1"; sr_current_revision_id := snap_revision_id desired;
     sr_desired_revision_id := snap_revision_id desired; sr_active_revision_id := snap_revision_id active;
     sr_restart_required := match activation with ActivationPendingRestart => true | ActivationAligned => false end;
     sr_activation_state := ConfigActivationState_as_str activation;
     sr_desired_resource_policy := resource_policy desired; sr_active_resource_policy := resource_policy active;
     sr_live_resource_status := live; sr_routes := len (snap_routes desired);
     sr_services := len (snap_services desired);
     sr_certificates := len (filter (λ r, is_Some (route_certificate_ref r)) (snap_routes desired)) |}.
Definition live_resource_json (live : LiveResourceStatusResponse) : list byte :=
  template "{'revision_id':" ++ json_text (live_revision_id live) ++ template ",'generation':"
  ++ print_dec (live_generation live) ++ template ",'used_payload_bytes':" ++ print_dec (live_used_payload_bytes live)
  ++ template ",'payload_limit_bytes':" ++ print_dec (live_payload_limit_bytes live)
  ++ template ",'active_connections':" ++ print_dec (live_active_connections live)
  ++ template ",'pressure':" ++ json_text (live_pressure live) ++ lit "}".
Definition resource_policy_json (p : ResourcePolicyResponse) : list byte :=
  template "{'max_connections':" ++ print_dec (rpr_max_connections p) ++ template ",'max_inflight_payload_bytes':"
  ++ print_dec (rpr_max_inflight_payload_bytes p) ++ lit "}".
Definition status_response_json (r : StatusResponse) : list byte :=
  template "{'version_prefix':" ++ json_text (sr_version_prefix r) ++ template ",'current_revision_id':"
  ++ json_text (sr_current_revision_id r) ++ template ",'desired_revision_id':" ++ json_text (sr_desired_revision_id r)
  ++ template ",'active_revision_id':" ++ json_text (sr_active_revision_id r) ++ template ",'restart_required':"
  ++ print_bool (sr_restart_required r) ++ template ",'activation_state':" ++ json_text (sr_activation_state r)
  ++ template ",'desired_resource_policy':" ++ resource_policy_json (sr_desired_resource_policy r)
  ++ template ",'active_resource_policy':" ++ resource_policy_json (sr_active_resource_policy r)
  ++ template ",'live_resource_status':"
  ++ match sr_live_resource_status r with Some live => live_resource_json live | None => lit "null" end
  ++ template ",'routes':" ++ print_dec (sr_routes r) ++ template ",'services':" ++ print_dec (sr_services r)
  ++ template ",'certificates':" ++ print_dec (sr_certificates r) ++ lit "}".
Definition handle_status_http_with_resource (desired active : ConfigSnapshot)
  (live : option LiveResourceStatusResponse) : AdminHttpResponse :=
  response_json 200 (status_response_json (status_response_with_active_and_resource desired active live)).
Definition handle_status_http (desired active : ConfigSnapshot) : AdminHttpResponse :=
  handle_status_http_with_resource desired active None.

Definition health_response_json (s : ConfigSnapshot) : list byte :=
  template "{'status':'ok','current_revision_id':" ++ json_text (snap_revision_id s) ++ template ",'routes':"
  ++ print_dec (len (snap_routes s)) ++ template ",'services':" ++ print_dec (len (snap_services s)) ++ lit "}".
Definition handle_health_http (rq : AdminHttpRequest) (s : ConfigSnapshot) : AdminHttpResponse :=
  if negb (at_route MethodGet "/api/v1/health" rq) then error_response 404 route_not_found (rq_request_id rq)
  else response_json 200 (health_response_json s).

(** *** The routes that change nothing *)
Definition is_certificate_mutation_path (path : list byte) : bool :=
  starts_with (lit "/api/v1/certificates/") path
  && (ends_with (lit "/issue") path || ends_with (lit "/renew") path || ends_with (lit "/import") path).
Definition is_mutation_route (method : AdminHttpMethod) (path : list byte) : bool :=
  match method with
  | MethodPost =>
      existsb (λ p, bool_decide (path = lit p))
        ["/api/v1/config/apply"; "/api/v1/config/rollback"; "/api/v1/proxy-hosts"; "/api/v1/trust-bundles";
         "/api/v1/logout"]
      || is_certificate_mutation_path path
  | MethodPatch | MethodDelete => true
  | MethodGet => false
  end.
Definition handle_http_request (rq : AdminHttpRequest) (st : SessionStore) (s : ConfigSnapshot)
  : AdminHttpResponse :=
  if at_route MethodGet "/api/v1/status" rq then handle_status_http s s
  else if at_route MethodGet "/api/v1/health" rq then handle_health_http rq s
  else if at_route MethodGet "/api/v1/config" rq then handle_config_get_http rq st s
  else if at_route MethodPost "/api/v1/config/validate" rq then handle_config_validate_http rq st
  else if at_route MethodPost "/api/v1/config/diff" rq then handle_config_diff_http rq st s
  else if at_route MethodGet "/api/v1/proxy-hosts" rq then handle_proxy_host_list_http rq st s
  else if bool_decide (rq_method rq = MethodGet) && starts_with (lit "/api/v1/proxy-hosts/") (rq_path rq)
  then handle_proxy_host_get_http rq st s
  else if is_mutation_route (rq_method rq) (rq_path rq)
  then match refuse_change st rq with
       | Some r => r
       | None => error_response 501 (AppError_new AdminEndpointNotImplemented
                                       "http mutation route is not bound yet") (rq_request_id rq)
       end
  else error_response 404 route_not_found (rq_request_id rq).

(** ** Setup, login and logout *)
(** [SecretStore] of edge-ports, for secrets with a name and a text. *)
Class SecretStore (K : Type) := {
  load_secret : list byte → K → result AppError (option (list byte)) * K;
  save_secret : list byte → list byte → K → result AppError () * K
}.
Definition session_cookie_header (id : list byte) : list byte :=
  lit "sponzey_session=" ++ json_escape id ++ lit "; Path=/; HttpOnly; Secure; SameSite=Strict".
Definition expired_session_cookie_header : list byte :=
  lit "sponzey_session=; Path=/; Max-Age=0; HttpOnly; Secure; SameSite=Strict".
Definition login_response_json (s : Session) : list byte :=
  template "{'csrf_token':" ++ json_text (se_csrf_token s) ++ lit "}".

Definition setup_required_response (id : list byte) : AdminHttpResponse :=
  error_response 403 (AppError_new AdminSetupRequired "admin setup is required before login") id.
Definition setup_already_complete_response (id : list byte) : AdminHttpResponse :=
  error_response 409 (AppError_new AdminSetupAlreadyComplete "admin setup is already complete") id.

Definition handle_setup {K} `{!SecretStore K} (rq : AdminHttpRequest) (a : option AdminAuthenticator) (k : K)
  : AdminHttpResponse * (option AdminAuthenticator * K) :=
  match a with
  | Some _ => (setup_already_complete_response (rq_request_id rq), (a, k))
  | None =>
      match load_secret (lit "admin-password-hash") k with
      | (Ok (Some _), k) => (setup_already_complete_response (rq_request_id rq), (a, k))
      | (Err e, k) => (error_response 500 e (rq_request_id rq), (a, k))
      | (Ok None, k) =>
          match json_string_field (rq_body rq) (lit "password_hash") with
          | None =>
              (error_response 400 (AppError_new HttpMalformedRequest "setup request requires password_hash")
                 (rq_request_id rq), (a, k))
          | Some password_hash =>
              match save_secret (lit "admin-password-hash") password_hash k with
              | (Err e, k) => (error_response 500 e (rq_request_id rq), (a, k))
              | (Ok _, k) =>
                  (response_json 200 (template "{'setup_complete':true}"),
                   (Some (AdminAuthenticator_new password_hash), k))
              end
          end
      end
  end.
Definition handle_login (rq : AdminHttpRequest) (a : AdminAuthenticator) (st : SessionStore)
  : AdminHttpResponse * (AdminAuthenticator * SessionStore) :=
  match json_string_field (rq_body rq) (lit "password_hash") with
  | None =>
      (error_response 400 (AppError_new HttpMalformedRequest "login request requires password_hash")
         (rq_request_id rq), (a, st))
  | Some password_hash =>
      match login password_hash a st with
      | (Ok session, (a, st)) =>
          (with_header (lit "set-cookie") (session_cookie_header (se_session_id session))
             (response_json 200 (login_response_json session)), (a, st))
      | (Err e, (a, st)) => (error_response 401 e (rq_request_id rq), (a, st))
      end
  end.
Definition handle_logout (rq : AdminHttpRequest) (st : SessionStore) : AdminHttpResponse * SessionStore :=
  match rq_session_id rq with
  | None =>
      (error_response 401 (AppError_new AdminAuthRequired "admin session is required") (rq_request_id rq), st)
  | Some id =>
      match refuse_change st rq with
      | Some r => (r, st)
      | None =>
          (with_header (lit "set-cookie") expired_session_cookie_header
             (response_json 200 (template "{'logged_out':true}")), session_remove id st)
      end
  end.

Definition handle_stateful_http_request {K} `{!SecretStore K} (rq : AdminHttpRequest) (s : ConfigSnapshot)
  (st : SessionStore) (a : option AdminAuthenticator) (k : K)
  : AdminHttpResponse * (SessionStore * option AdminAuthenticator * K) :=
  if at_route MethodPost "/api/v1/setup" rq
  then let '(r, (a, k)) := handle_setup rq a k in (r, (st, a, k))
  else if at_route MethodPost "/api/v1/login" rq
  then match a with
       | None => (setup_required_response (rq_request_id rq), (st, a, k))
       | Some auth => let '(r, (auth, st)) := handle_login rq auth st in (r, (st, Some auth, k))
       end
  else if at_route MethodPost "/api/v1/logout" rq
  then match a with
       | None => (setup_required_response (rq_request_id rq), (st, a, k))
       | Some _ => let (r, st) := handle_logout rq st in (r, (st, a, k))
       end
  else if bool_decide (a = None) && is_mutation_route (rq_method rq) (rq_path rq)
  then (setup_required_response (rq_request_id rq), (st, a, k))
  else (handle_http_request rq st s, (st, a, k)).
End reading.
