(* ===== verification/AdminDecode.v ===== *)
(** * Texts that the admin API writes and reads

    The API writes JSON with [format!] and reads a field by looking for its quoted name anywhere in
    the text.  A string that it writes it reads back; but the first field of a name is not always the
    one that was meant. *)

From stdpp Require Import base gmap strings list.
From Stdlib Require Import Strings.Byte NArith Lia.
From S2P Require Import Prelude Errors RustStr HttpRequest Endpoint UpstreamPolicy Snapshot ConfigParser ConfigRender ConfigValidation ConfigStore ConfigLifecycle AdminConfig AdminHttp AdminSession.
Local Open Scope N_scope.

(** ** Strings are read back *)
Lemma json_string_escape s rest : json_string_rest false (json_escape s ++ QUOTE :: rest) = Some (s, rest).
Proof.
  induction s as [|b s IH]; [done|]. unfold json_escape in *. cbn [mbind list_bind]. rewrite <-app_assoc.
  unfold escape_byte at 1.
  repeat (case_bool_decide; [subst; cbn; by rewrite IH|]).
  cbn. rewrite !bool_decide_eq_false_2 by done. by rewrite IH.
Qed.
Lemma json_text_read s rest : parse_json_string_prefix (json_text s ++ rest) = Some (s, rest).
Proof.
  unfold parse_json_string_prefix, json_text, strip_prefix. rewrite <-!app_assoc, starts_with_app. cbn [mbind option_bind].
  cbn [app length drop]. apply json_string_escape.
Qed.

Lemma trim_start_quote l : trim_start (QUOTE :: l) = QUOTE :: l.
Proof. apply trim_start_id. by destruct l as [|? [|? ?]]. Qed.
Lemma trim_start_text s rest : trim_start (json_text s ++ rest) = json_text s ++ rest.
Proof. unfold json_text. rewrite <-!app_assoc. apply trim_start_quote. Qed.

(** ** The fuel of an array *)
Lemma json_string_rest_shorter e l s rest : json_string_rest e l = Some (s, rest) → (length rest < length l)%nat.
Proof.
  revert e s. induction l as [|b l IH]; intros e s H; [done|]. cbn [json_string_rest] in H. cbn [length].
  destruct e; [|case_bool_decide; [apply IH in H; lia|case_bool_decide; [by simplify_eq; lia|]]].
  all: repeat (match type of H with context [?x ≫= _] => destruct x as [[? ?]|] eqn:E || destruct x eqn:E end;
               cbn [mbind option_bind] in H; [|done]).
  - destruct (json_string_rest false l) as [[s' after]|] eqn:E'; cbn in H; [|done]. simplify_eq. apply IH in E'. lia.
  - simplify_eq. apply IH in E. lia.
Qed.
Lemma trim_start_shorter l : (length (trim_start l) ≤ length l)%nat.
Proof. destruct (trim_start_suffix l) as [a Ha]. rewrite Ha at 2. rewrite length_app. lia. Qed.
Lemma strip_prefix_shorter p l l' : strip_prefix p l = Some l' → (length l' ≤ length l)%nat.
Proof. unfold strip_prefix. destruct (starts_with p l); [|done]. intros [= <-]. rewrite length_drop. lia. Qed.
(** Any fuel above the length of the text gives the same. *)
Lemma json_strings_fuel n m l : (length l < n)%nat → (length l < m)%nat → json_strings n l = json_strings m l.
Proof.
  revert m l. induction n as [|n IH]; intros m l Hn Hm; [lia|]. destruct m as [|m]; [lia|]. cbn [json_strings].
  destruct (starts_with [x5d] _); [done|]. pose proof (trim_start_shorter l) as Ht.
  destruct (parse_json_string_prefix (trim_start l)) as [[v rest]|] eqn:Ep; cbn [mbind option_bind]; [|done].
  unfold parse_json_string_prefix in Ep. destruct (strip_prefix [QUOTE] _) as [l1|] eqn:Eq; cbn in Ep; [|done].
  apply strip_prefix_shorter in Eq. apply json_string_rest_shorter in Ep. pose proof (trim_start_shorter rest).
  destruct (strip_prefix [x2c] _) as [l2|] eqn:El; [|done]. apply strip_prefix_shorter in El.
  by rewrite (IH m l2) by lia.
Qed.

(** ** Looking for a quoted name *)
Lemma find_seq_next pat b l : starts_with pat (b :: l) = false → find_seq pat (b :: l) = S <$> find_seq pat l.
Proof. intros Hs. cbn [find_seq]. by rewrite Hs. Qed.
Section searching.
  Context (f : list byte) (Hf : QUOTE ∉ f).

Definition quoted_name : list byte := QUOTE :: f ++ [QUOTE].
(** A search goes past [w] whatever follows. *)
Definition skips (w : list byte) : Prop :=
  ∀ l, find_seq quoted_name (w ++ l) = (λ n, (length w + n)%nat) <$> find_seq quoted_name l.

Lemma skips_nil : skips [].
Proof. intros l. cbn. by destruct (find_seq _ l). Qed.
Lemma skips_app a b : skips a → skips b → skips (a ++ b).
Proof.
  intros Ha Hb l. rewrite <-app_assoc, Ha, Hb, length_app, <-option_fmap_compose.
  destruct (find_seq _ l); cbn; [|done]. f_equal. lia.
Qed.
Lemma skips_plain w : QUOTE ∉ w → skips w.
Proof.
  induction w as [|b w IH]; intros Hw; [apply skips_nil|]. apply not_elem_of_cons in Hw as [Hb Hw].
  intros l. cbn [app find_seq]. unfold quoted_name at 1. cbn [starts_with]. rewrite bool_decide_eq_false_2 by done.
  cbn [andb]. rewrite (IH Hw l), <-option_fmap_compose. done.
Qed.
(** Another quoted text and what comes right after it. *)
Lemma skips_quoted t c : QUOTE ∉ t → t ≠ f → c ≠ QUOTE → head f ≠ Some c → f ≠ [] → skips (QUOTE :: t ++ [QUOTE; c]).
Proof using Hf.
  intros Ht Hne Hc Hh Hf0 l.
  assert (Hfirst : starts_with quoted_name ((QUOTE :: t ++ [QUOTE; c]) ++ l) = false).
  { apply not_true_iff_false. intros [k Hk]%starts_with_spec. unfold quoted_name in Hk. cbn in Hk.
    rewrite <-!app_assoc in Hk. injection Hk as Hk. clear -Hk Ht Hne Hf. revert f Hf Hne Hk.
    induction t as [|b t IH]; intros [|x g] Hg Hne Hk; cbn in *; [done|..]; injection Hk as Hx Hk.
    - apply Hg. rewrite Hx. by left.
    - apply Ht. rewrite <-Hx. by left.
    - apply not_elem_of_cons in Hg as [_ Hg]. apply not_elem_of_cons in Ht as [_ Ht].
      apply (IH Ht g Hg); congruence. }
  assert (Hlast : starts_with quoted_name (QUOTE :: c :: l) = false).
  { unfold quoted_name. cbn. rewrite bool_decide_eq_true_2 by done. cbn. destruct f as [|x g]; [done|].
    cbn. rewrite bool_decide_eq_false_2; [done|]. intros ->. done. }
  cbn [app] in *. rewrite find_seq_next by exact Hfirst. rewrite <-app_assoc. cbn [app].
  rewrite (skips_plain t Ht), find_seq_next by exact Hlast.
  rewrite (skips_plain [c] ltac:(set_solver) l : find_seq _ (c :: l) = _).
  destruct (find_seq quoted_name l); cbn; [|done]. f_equal. rewrite length_app. cbn. lia.
Qed.
End searching.

(** ** A proxy host that is sent back *)
Definition ENABLED : list byte := lit "enabled".
(** A text that cannot be taken for the field's name: no quotation mark, and not the name itself. *)
Definition quiet_text (t : list byte) : bool :=
  forallb (λ b, negb (bool_decide (b = QUOTE))) (json_escape t) && negb (bool_decide (json_escape t = ENABLED)).
Definition quiet_host (h : ProxyHostResponse) : bool :=
  quiet_text (pr_host_id h) && quiet_text (pr_name h) && forallb quiet_text (pr_domains h)
  && quiet_text (pr_path_prefix h) && quiet_text (pr_upstream_url h)
  && forallb (λ u, quiet_text (ur_id u) && quiet_text (ur_url u)) (pr_upstreams h).

Definition passes : list byte → Prop := skips ENABLED.
Definition ends_text (c : byte) : bool := negb (bool_decide (c = QUOTE)) && negb (bool_decide (c = x65)).
Lemma no_quote t : forallb (λ b, negb (bool_decide (b = QUOTE))) t = true → QUOTE ∉ t.
Proof.
  intros H Hin%list_elem_of_In. apply (proj1 (forallb_forall _ _) H) in Hin. by rewrite bool_decide_eq_true_2 in Hin.
Qed.
Lemma passes_app a b : passes a → passes b → passes (a ++ b).
Proof. apply skips_app. Qed.
Lemma passes_plain w : forallb (λ b, negb (bool_decide (b = QUOTE))) w = true → passes w.
Proof. intros H. by apply skips_plain, no_quote. Qed.
Lemma passes_raw t c :
  forallb (λ b, negb (bool_decide (b = QUOTE))) t && negb (bool_decide (t = ENABLED)) = true → ends_text c = true →
  passes ([QUOTE] ++ t ++ [QUOTE] ++ [c]).
Proof.
  unfold ends_text. rewrite !andb_true_iff, !negb_true_iff, !bool_decide_eq_false. intros [Ht Hne] [Hc He].
  apply skips_quoted; [by vm_compute; set_solver|by apply no_quote|done..|intros [= <-]; by apply He|done].
Qed.
Lemma passes_text t c : quiet_text t = true → ends_text c = true → passes (json_text t ++ [c]).
Proof. intros Ht Hc. unfold json_text. rewrite <-!app_assoc. by apply passes_raw. Qed.
Lemma passes_joined items :
  Forall (λ x, ∀ c, ends_text c = true → passes (x ++ [c])) items → passes (comma_separated items ++ [x5d]).
Proof.
  induction 1 as [|x items Hx Hall IH]; [by apply passes_plain|].
  destruct items as [|y items]; [by apply Hx|]. unfold comma_separated in *. cbn [join] in *.
  rewrite <-!app_assoc, app_assoc. apply passes_app; [by apply Hx|]. exact IH.
Qed.

(** A field's name with its colon, and a text with what ends it. *)
Definition name_of (s : string) : list byte := [QUOTE] ++ lit s ++ [QUOTE] ++ [COLON].
Definition text_of (t : list byte) (c : byte) : list byte := json_text t ++ [c].
Definition upstream_head (u : ProxyHostUpstreamRequest) : list byte :=
  lit "{" ++ name_of "id" ++ text_of (ur_id u) x2c ++ name_of "url" ++ text_of (ur_url u) x2c
  ++ name_of "administrative_state".
Definition host_head (h : ProxyHostResponse) : list byte :=
  lit "{" ++ name_of "id" ++ text_of (pr_host_id h) x2c ++ name_of "name" ++ text_of (pr_name h) x2c
  ++ name_of "domains" ++ lit "[" ++ (comma_separated (json_text <$> pr_domains h) ++ [x5d]) ++ lit ","
  ++ name_of "path_prefix" ++ text_of (pr_path_prefix h) x2c ++ name_of "upstream_url"
  ++ text_of (pr_upstream_url h) x2c ++ name_of "upstreams" ++ lit "["
  ++ (comma_separated (proxy_host_upstream_json <$> pr_upstreams h) ++ [x5d]) ++ lit ","
  ++ name_of "health_check" ++ lit "{".

Lemma passes_name s :
  forallb (λ b, negb (bool_decide (b = QUOTE))) (lit s) && negb (bool_decide (lit s = ENABLED)) = true → passes (name_of s).
Proof. intros Hs. by apply passes_raw. Qed.
Lemma passes_state s : passes ([QUOTE] ++ state_text s ++ [QUOTE] ++ [x7d]).
Proof. by apply passes_raw; destruct s. Qed.
Ltac passing :=
  repeat first [ assumption | apply passes_state | by apply passes_name | by apply passes_text | by apply passes_plain | apply passes_app ].
Lemma passes_upstream u c :
  quiet_text (ur_id u) && quiet_text (ur_url u) = true → ends_text c = true → passes (proxy_host_upstream_json u ++ [c]).
Proof.
  intros [Hi Hu]%andb_true_iff Hc.
  replace (proxy_host_upstream_json u ++ [c])
    with (upstream_head u ++ ([QUOTE] ++ state_text (ur_administrative_state u) ++ [QUOTE] ++ [x7d]) ++ [c]).
  - unfold upstream_head, text_of. passing. apply passes_plain. cbn. unfold ends_text in Hc. by destruct (bool_decide (c = QUOTE)).
  - unfold proxy_host_upstream_json, upstream_head, text_of. rewrite <-!app_assoc. reflexivity.
Qed.
Lemma passes_host_head h : quiet_host h = true → passes (host_head h).
Proof.
  unfold quiet_host. rewrite !andb_true_iff. intros [[[[[Hid Hn] Hd] Hp] Hu] Hus]. unfold host_head, text_of.
  assert (Hds : passes (comma_separated (json_text <$> pr_domains h) ++ [x5d])).
  { apply passes_joined, Forall_fmap, Forall_forall. intros d Hin%list_elem_of_In c Hc.
    apply passes_text; [|done]. by apply (proj1 (forallb_forall _ _) Hd). }
  assert (Hup : passes (comma_separated (proxy_host_upstream_json <$> pr_upstreams h) ++ [x5d])).
  { apply passes_joined, Forall_fmap, Forall_forall. intros u Hin%list_elem_of_In c Hc.
    apply passes_upstream; [|done]. by apply (proj1 (forallb_forall _ _) Hus). }
  passing.
Qed.
Lemma host_json_head h :
  ∃ tail, proxy_host_response_json h
          = host_head h ++ quoted_name ENABLED ++ [COLON] ++ print_bool (bool_decide (pr_health_check h ≠ None)) ++ tail.
Proof.
  unfold proxy_host_response_json, host_head, text_of, json_string_array_json, proxy_host_upstreams_json.
  destruct (pr_health_check h) as [c|]; cbn [proxy_host_health_check_json].
  - rewrite bool_decide_eq_true_2 by done. eexists. rewrite <-!app_assoc. reflexivity.
  - rewrite bool_decide_eq_false_2 by naive_solver. eexists. rewrite <-!app_assoc. reflexivity.
Qed.

Lemma enabled_field h :
  quiet_host h = true →
  json_bool_field (proxy_host_response_json h) ENABLED = Some (bool_decide (pr_health_check h ≠ None)).
Proof.
  intros Hq. destruct (host_json_head h) as [tail ->]. unfold json_bool_field, after_field, split_once_str.
  change (QUOTE :: ENABLED ++ [QUOTE]) with (quoted_name ENABLED).
  rewrite (passes_host_head h Hq).
  assert (Hhere : find_seq (quoted_name ENABLED) (quoted_name ENABLED ++ [COLON]
            ++ print_bool (bool_decide (pr_health_check h ≠ None)) ++ tail) = Some 0%nat).
  { apply (find_seq_first _ []). cbn. lia. }
  rewrite Hhere. cbn [fmap option_fmap option_map mbind option_bind]. rewrite Nat.add_0_r, app_assoc.
  rewrite drop_app_length' by (by rewrite length_app).
  case_bool_decide; cbn; reflexivity.
Qed.

(** A proxy host that is sent back as it was read is switched on or off by its health check.
    For every host whose texts have no quotation mark and are not the word itself, the decoder finds
    [enabled] first inside the health check of the text that the server wrote (the web interface
    writes the same order): so whatever was shown, a host without health checks comes back disabled
    and one with health checks comes back enabled. *)
Theorem sent_back_host_switched `{!SerdeValue} (h : ProxyHostResponse) :
  quiet_host h = true →
  required_json_bool (proxy_host_response_json h) "enabled" = Ok (bool_decide (pr_health_check h ≠ None))
  ∧ ∀ r, proxy_host_request_from_json (proxy_host_response_json h) = Ok r →
         pr_enabled r = bool_decide (pr_health_check h ≠ None).
Proof.
  intros Hq. assert (He : required_json_bool (proxy_host_response_json h) "enabled"
                          = Ok (bool_decide (pr_health_check h ≠ None))).
  { unfold required_json_bool. change (lit "enabled") with ENABLED. by rewrite enabled_field. }
  split; [done|]. intros r Hr. unfold proxy_host_request_from_json in Hr.
  repeat (match type of Hr with match ?x with _ => _ end = _ => destruct x eqn:?; [|done] end).
  by simplify_eq.
Qed.

(** The text of a host as the server shows it, and what a reader makes of it. *)
Definition shop_host (enabled : bool) : ProxyHostResponse :=
  {| pr_host_id := lit "shop"; pr_name := lit "Shop"; pr_domains := [lit "shop.test"]; pr_path_prefix := lit "/";
     pr_upstream_url := lit "http://10.0.0.1"; pr_upstreams := []; pr_health_check := None;
     pr_retry := RetryPolicy_default; pr_passive_health := PassiveModeDisabled; pr_https_enabled := false;
     pr_letsencrypt_enabled := false; pr_redirect_http_to_https := false; pr_enabled := enabled |}.
Definition shop_reader : SerdeValue := λ _,
  Some (VObject [(lit "health_check", VObject [(ENABLED, VBool false)])]).
Lemma shop_decoded :
  @proxy_host_request_from_json shop_reader (proxy_host_response_json (shop_host true)) = Ok (shop_host false).
Proof. vm_compute. reflexivity. Qed.
Lemma sent_back_host_switched_witness :
  ∃ r, @proxy_host_request_from_json shop_reader (proxy_host_response_json (shop_host true)) = Ok r
       ∧ pr_enabled (shop_host true) = true ∧ pr_enabled r = false.
Proof.
  exists (shop_host false). split; [exact shop_decoded|]. split; [reflexivity|].
  exact (proj2 (@sent_back_host_switched shop_reader (shop_host true) eq_refl) (shop_host false) shop_decoded).
Defined.
