(* ===== verification/AdminServer.v ===== *)
(** * The admin server

    The handlers that change the configuration (config_mutation_http.rs and
    proxy_host_mutation_http.rs of edge-admin-api) and the part of apps/edge-proxy/src/admin_http.rs
    and admin_audit.rs that calls them between the intent and the terminal record of an audited
    operation, with the sessions and the recorded observations around it.  One thread serves one
    request after the other; a lock that is poisoned by a panic is not modelled. *)

From stdpp Require Import base gmap strings list.
From Stdlib Require Import Strings.Byte NArith Lia.
From S2P Require Import Prelude Errors ErrorMessages RustStr HttpRequest Endpoint UpstreamPolicy Snapshot ConfigParser ConfigRender ConfigValidation ConfigStore ConfigLifecycle AdminConfig AuditModel AuditCodec AuditOperations AdminHttp AdminSession.
Local Open Scope N_scope.

(** ** Changes of the configuration *)
Section changes.
  Context {R A C : Type} `{!RevisionRepository R, !AuditSink A, !CoreCommandClient C} `{!SerdeValue}.
  Implicit Types (rq : AdminHttpRequest) (st : SessionStore) (l : ConfigLifecycle R A) (core : C).

Definition change_response rq (res : result AppError ApplyResponse) : AdminHttpResponse :=
  match res with
  | Ok response => response_json 200 (apply_response_json response)
  | Err e => error_response (http_status_for_error e) e (rq_request_id rq)
  end.
Definition answered rq (m : result AppError ApplyResponse * (ConfigLifecycle R A * C))
  : AdminHttpResponse * (ConfigLifecycle R A * C) := (change_response rq m.1, m.2).

Definition handle_config_apply_http rq st l core : AdminHttpResponse * (ConfigLifecycle R A * C) :=
  if negb (at_route MethodPost "/api/v1/config/apply" rq)
  then (error_response 404 route_not_found (rq_request_id rq), (l, core))
  else match refuse_change st rq with
       | Some r => (r, (l, core))
       | None => answered rq (apply_config_source (rq_body rq) l core)
       end.
Definition rollback_request_revision_id_from_json (body : list byte) : result AppError (list byte) :=
  required_json_string body "revision_id".
Definition handle_config_rollback_http rq st l core : AdminHttpResponse * (ConfigLifecycle R A * C) :=
  if negb (at_route MethodPost "/api/v1/config/rollback" rq)
  then (error_response 404 route_not_found (rq_request_id rq), (l, core))
  else match refuse_change st rq with
       | Some r => (r, (l, core))
       | None =>
           match rollback_request_revision_id_from_json (rq_body rq) with
           | Err e => (error_response 400 e (rq_request_id rq), (l, core))
           | Ok revision_id => answered rq (admin_rollback revision_id l core)
           end
       end.
Definition handle_proxy_host_create_http rq st l core : AdminHttpResponse * (ConfigLifecycle R A * C) :=
  if negb (at_route MethodPost "/api/v1/proxy-hosts" rq)
  then (error_response 404 route_not_found (rq_request_id rq), (l, core))
  else match refuse_change st rq with
       | Some r => (r, (l, core))
       | None =>
           match proxy_host_request_from_json (rq_body rq) with
           | Err e => (error_response 400 e (rq_request_id rq), (l, core))
           | Ok h => answered rq (create_proxy_host_and_apply h l core)
           end
       end.
Definition handle_proxy_host_update_http rq st l core : AdminHttpResponse * (ConfigLifecycle R A * C) :=
  if negb (bool_decide (rq_method rq = MethodPatch))
  then (error_response 404 route_not_found (rq_request_id rq), (l, core))
  else match refuse_change st rq with
       | Some r => (r, (l, core))
       | None =>
           match proxy_host_id_from_member_path (rq_path rq) with
           | Err e => (error_response (http_status_for_error e) e (rq_request_id rq), (l, core))
           | Ok id =>
               match proxy_host_request_from_json (rq_body rq) with
               | Err e => (error_response 400 e (rq_request_id rq), (l, core))
               | Ok h => answered rq (update_proxy_host_and_apply id h l core)
               end
           end
       end.
Definition handle_proxy_host_delete_http rq st l core : AdminHttpResponse * (ConfigLifecycle R A * C) :=
  if negb (bool_decide (rq_method rq = MethodDelete))
  then (error_response 404 route_not_found (rq_request_id rq), (l, core))
  else match refuse_change st rq with
       | Some r => (r, (l, core))
       | None =>
           match proxy_host_id_from_member_path (rq_path rq) with
           | Err e => (error_response (http_status_for_error e) e (rq_request_id rq), (l, core))
           | Ok id => answered rq (delete_proxy_host_and_apply id l core)
           end
       end.

(** ** Which requests change the configuration *)
Definition proxy_host_member (path : list byte) : bool := starts_with (lit "/api/v1/proxy-hosts/") path.
Definition is_bound_lifecycle_request rq : bool :=
  match rq_method rq with
  | MethodPost =>
      existsb (λ p, bool_decide (rq_path rq = lit p))
        ["/api/v1/proxy-hosts"; "/api/v1/config/apply"; "/api/v1/config/rollback"]
  | MethodDelete | MethodPatch => proxy_host_member (rq_path rq)
  | MethodGet => false
  end.
(** The last arm is [unreachable!]: such a request is not bound; it is refused here. *)
Definition handle_bound_lifecycle_request rq st l core : AdminHttpResponse * (ConfigLifecycle R A * C) :=
  if bool_decide (rq_path rq = lit "/api/v1/proxy-hosts") then handle_proxy_host_create_http rq st l core
  else if bool_decide (rq_path rq = lit "/api/v1/config/rollback") then handle_config_rollback_http rq st l core
  else if bool_decide (rq_path rq = lit "/api/v1/config/apply") then handle_config_apply_http rq st l core
  else if bool_decide (rq_method rq = MethodDelete) && proxy_host_member (rq_path rq)
  then handle_proxy_host_delete_http rq st l core
  else if bool_decide (rq_method rq = MethodPatch) && proxy_host_member (rq_path rq)
  then handle_proxy_host_update_http rq st l core
  else (error_response 404 route_not_found (rq_request_id rq), (l, core)).
End changes.

(** ** Audited changes *)
(** [serde_json::Value::to_string]. *)
Class SerdeText := value_to_string : Value → list byte.

Definition audit_refusal {A} (message : string) : result AppError A :=
  Err (AppError_new AuditRecordInvalid message).
Definition audit_id (value : list byte) (message : string) : result AppError AuditIdentifier :=
  match audit_identifier_parse value with
  | Ok id => Ok id
  | Err _ => audit_refusal message
  end.
(** [now] is what the clock answers, [None] when it is before the epoch. *)
Definition admin_audit_context (rq : AdminHttpRequest) (now : option N) : result AppError AuditContext :=
  let? request_id := audit_id (rq_request_id rq) "admin request id is not audit-safe" in
  let? operation_id := audit_id (lit "operation-" ++ rq_request_id rq) "admin operation id is not audit-safe" in
  let? now := ok_or now (AppError_new InternalBug "system clock is unavailable") in
  Ok {| ctx_operation_id := operation_id; ctx_request_id := request_id; ctx_actor_kind := BootstrapAdmin;
        ctx_received_at := now |}.

Section audited.
  Context `{!SerdeValue, !SerdeText}.

(** [json_string_field] of admin_audit.rs, which reads the document. *)
Definition document_string (body : list byte) (field : string) : option (list byte) :=
  v ← value_from_str body; f ← value_get field v; as_str f.
Definition response_revision_id (r : AdminHttpResponse) : option (list byte) :=
  document_string (rs_body r) "revision_id".
(** [serde_json::json!] keeps the fields of an object in the order of their names. *)
Definition audit_failure_response (rq : AdminHttpRequest) (status_code : N) (e : AppError)
  (effect_committed : bool) : AdminHttpResponse :=
  {| rs_status_code := status_code; rs_headers := [(lit "content-type", lit "application/json")];
     rs_body := value_to_string
       (VObject [(lit "effect_committed", VBool effect_committed);
                 (lit "error_code", VString (lit (ErrorCode_as_str (app_code e))));
                 (lit "message", VString (lit (default_user_message (app_code e))));
                 (lit "request_id", VString (rq_request_id rq))]);
     rs_error_code := Some (lit (ErrorCode_as_str (app_code e))) |}.

Definition lifecycle_audit_operation (rq : AdminHttpRequest) (current_revision : list byte) (now : option N)
  : result AppError AuditPersistentOperationInput :=
  let? context := admin_audit_context rq now in
  let? before := audit_id current_revision "invalid revision audit target" in
  let parsed := λ value : option (list byte),
    value ≫= λ v, match audit_identifier_parse v with Ok id => Some id | Err _ => None end in
  if at_route MethodPost "/api/v1/config/apply" rq then
    let? target := audit_id (lit "config-" ++ rq_request_id rq) "invalid config audit target" in
    config_audit_operation context ConfigApply target (Some before)
  else if at_route MethodPost "/api/v1/config/rollback" rq then
    let? target := ok_or (parsed (document_string (rq_body rq) "revision_id"))
                     (AppError_new AuditRecordInvalid "rollback revision audit target is invalid") in
    config_audit_operation context ConfigRollback target (Some before)
  else if at_route MethodPost "/api/v1/proxy-hosts" rq then
    let? target := ok_or (parsed (document_string (rq_body rq) "id"))
                     (AppError_new AuditRecordInvalid "proxy host audit target is invalid") in
    proxy_host_audit_operation context ProxyHostCreate target (Some before)
  else if bool_decide (rq_method rq = MethodPatch) || bool_decide (rq_method rq = MethodDelete) then
    let action := if bool_decide (rq_method rq = MethodPatch) then ProxyHostUpdate else ProxyHostDelete in
    let? target := ok_or (parsed (strip_prefix (lit "/api/v1/proxy-hosts/") (rq_path rq)))
                     (AppError_new AuditRecordInvalid "proxy host audit target is invalid") in
    proxy_host_audit_operation context action target (Some before)
  else Err (AppError_new AdminRouteNotFound "admin lifecycle audit route not found").

Definition committed_status (r : AdminHttpResponse) : bool := (200 <=? rs_status_code r) && (rs_status_code r <? 300).
(** The stable error code of a refused effect: the response's, or the one for an internal error. *)
Definition stable_error (r : AdminHttpResponse) : option AuditIdentifier :=
  match audit_identifier_parse (default (lit (ErrorCode_as_str InternalBug)) (rs_error_code r)) with
  | Ok id => Some id
  | Err _ =>
      match audit_identifier_parse (lit (ErrorCode_as_str InternalBug)) with Ok id => Some id | Err _ => None end
  end.
Definition completion_of (op : AuditPersistentOperationInput) (head : AuditLedgerHead) (r : AdminHttpResponse)
  : CompleteAuditOperationInput :=
  let committed := committed_status r in
  {| co_operation := op; co_expected_head := head;
     co_effect_state := if committed then EffCommitted else EffRejected;
     co_after := if committed
                 then response_revision_id r ≫= λ v,
                        match audit_identifier_parse v with Ok id => Some id | Err _ => None end
                 else None;
     co_error := if committed then None else stable_error r |}.

Definition complete_audited_admin_response {W Adm} `{!AuditLedgerWriter W} `{!AuditAdmissionController Adm}
  (rq : AdminHttpRequest) (r : AdminHttpResponse) (op : AuditPersistentOperationInput) (head : AuditLedgerHead)
  (ledger : W) (admission : Adm) : AdminHttpResponse * (W * Adm) :=
  match complete_audit_operation (completion_of op head r) ledger admission with
  | (Ok _, world) => (r, world)
  | (Err failure, world) => (audit_failure_response rq 503 (cf_error failure) (committed_status r), world)
  end.

(** [now] is the clock when the operation is described. *)
Definition handle_audited_lifecycle_request {R A C W Adm} `{!RevisionRepository R, !AuditSink A, !CoreCommandClient C}
  `{!AuditLedgerWriter W} `{!AuditAdmissionController Adm} (rq : AdminHttpRequest) (st : SessionStore)
  (current_revision : list byte) (now : option N) (l : ConfigLifecycle R A) (core : C) (ledger : W) (admission : Adm)
  : AdminHttpResponse * (ConfigLifecycle R A * C) * (W * Adm) :=
  match refuse_change st rq with
  | Some _ => (handle_bound_lifecycle_request rq st l core, (ledger, admission))
  | None =>
      match lifecycle_audit_operation rq current_revision now with
      | Err e => (audit_failure_response rq 400 e false, (l, core), (ledger, admission))
      | Ok op =>
          match begin_audit_operation op admission ledger with
          | (Err failure, ledger) =>
              (audit_failure_response rq 503 (bf_error failure) false, (l, core), (ledger, admission))
          | (Ok begin, ledger) =>
              let '(r, world) := handle_bound_lifecycle_request rq st l core in
              match complete_audit_operation (completion_of op (bo_head begin) r) ledger admission with
              | (Ok _, audit) => (r, world, audit)
              | (Err failure, audit) =>
                  (audit_failure_response rq 503 (cf_error failure) (committed_status r), world, audit)
              end
          end
      end
  end.
End audited.

(** ** Recent errors *)
Record RecentErrorEvent := {
  re_request_id : option (list byte);
  re_error_code : list byte;
  re_message : list byte
}.
Record RecentErrorBuffer := { rb_capacity : N; rb_events : list RecentErrorEvent }.
Definition recent_push (e : RecentErrorEvent) (b : RecentErrorBuffer) : RecentErrorBuffer :=
  if rb_capacity b =? 0 then b
  else
    let kept := if rb_capacity b <=? len (rb_events b) then drop 1 (rb_events b) else rb_events b in
    {| rb_capacity := rb_capacity b; rb_events := kept ++ [e] |}.
Definition record_runtime_command_failure (rq : AdminHttpRequest) (r : AdminHttpResponse)
  (b : RecentErrorBuffer) : RecentErrorBuffer :=
  if negb (bool_decide (rs_error_code r = Some (lit (ErrorCode_as_str RuntimeCommandRejected)))) then b
  else recent_push {| re_request_id := Some (rq_request_id rq);
                      re_error_code := lit (ErrorCode_as_str RuntimeCommandRejected);
                      re_message := lit (default_user_message RuntimeCommandRejected) |} b.

(** ** Reading a request from a connection *)
Definition admin_header_end (buffer : list byte) : option nat := find_seq CRLFCRLF buffer.
Definition invalid_data {A} (message : string) : result string A := Err message.
Fixpoint admin_content_length (lines : list (list byte)) (found : option N) : result string (option N) :=
  match lines with
  | [] => Ok found
  | line :: rest =>
      match split_once COLON line with
      | None => admin_content_length rest found
      | Some (name, value) =>
          if negb (eq_ignore_ascii_case (trim name) (lit "content-length")) then admin_content_length rest found
          else match parse_uint U64_MAX (trim value) with
               | None => invalid_data "admin HTTP request content length is invalid"
               | Some n =>
                   match found with
                   | Some _ => invalid_data "admin HTTP request content length is ambiguous"
                   | None => admin_content_length rest (Some n)
                   end
               end
      end
  end.
Definition request_completeness (buffer : list byte) : result string bool :=
  match admin_header_end buffer with
  | None => Ok false
  | Some header_end =>
      if negb (utf8_valid (take header_end buffer))
      then invalid_data "admin HTTP request headers are not valid UTF-8"
      else
        let? content_length := admin_content_length (drop 1 (str_lines (take header_end buffer))) None in
        Ok match content_length with
           | Some n => n <=? saturating_sub (len buffer) (N.of_nat header_end + 4)
           | None => true
           end
  end.
(** The loop over what [read] answers: a nonempty chunk each, the end of the list being the end of
    the stream.  A failing [read] ends the connection and is left out. *)
Fixpoint read_admin_chunks (max_bytes : N) (buffer : list byte) (chunks : list (list byte)) : result string (list byte) :=
  match chunks with
  | [] => Ok buffer
  | chunk :: rest =>
      let buffer := buffer ++ chunk in
      if max_bytes <? len buffer then invalid_data "admin HTTP request is too large"
      else
        let? complete := request_completeness buffer in
        if complete then Ok buffer else read_admin_chunks max_bytes buffer rest
  end.
Definition read_admin_http_request (max_bytes : N) (chunks : list (list byte)) : result string (list byte) :=
  let? buffer := read_admin_chunks max_bytes [] chunks in
  if utf8_valid buffer then Ok buffer else invalid_data "admin HTTP request is not valid UTF-8".


(** ** The server's state *)
Record AdminHttpServerState (R A C W Adm K : Type) := {
  sv_snapshot : ConfigSnapshot;
  sv_active_snapshot : ConfigSnapshot;
  sv_sessions : SessionStore;
  sv_authenticator : option AdminAuthenticator;
  sv_secrets : K;
  sv_error_logs : RecentErrorBuffer;
  sv_mutation : option (ConfigLifecycle R A * C);
  sv_durable_audit : option (W * Adm);
  sv_sampler : AuthFailureAuditSampler;
  sv_has_trust_bundles : bool
}.
Arguments sv_snapshot {R A C W Adm K}.
Arguments sv_active_snapshot {R A C W Adm K}.
Arguments sv_sessions {R A C W Adm K}.
Arguments sv_authenticator {R A C W Adm K}.
Arguments sv_secrets {R A C W Adm K}.
Arguments sv_error_logs {R A C W Adm K}.
Arguments sv_mutation {R A C W Adm K}.
Arguments sv_durable_audit {R A C W Adm K}.
Arguments sv_sampler {R A C W Adm K}.
Arguments sv_has_trust_bundles {R A C W Adm K}.

Section server.
  Context {R A C W Adm K : Type}.
  Context `{!RevisionRepository R, !AuditSink A, !CoreCommandClient C}.
  Context `{!AuditLedgerWriter W, !AuditAdmissionController Adm, !SecretStore K}.
  Context `{!SerdeValue, !SerdeText}.
  Context (debug_policy : ServicePolicy → list byte) (debug_state : UpstreamAdministrativeState → list byte).
  Abbreviation server := (AdminHttpServerState R A C W Adm K).
  Implicit Types (rq : AdminHttpRequest) (s : server) (now : option N).

Definition put_lifecycle (l : ConfigLifecycle R A) (core : C) s : server :=
  {| sv_snapshot := sv_snapshot s; sv_active_snapshot := sv_active_snapshot s; sv_sessions := sv_sessions s;
     sv_authenticator := sv_authenticator s; sv_secrets := sv_secrets s; sv_error_logs := sv_error_logs s;
     sv_mutation := Some (l, core); sv_durable_audit := sv_durable_audit s; sv_sampler := sv_sampler s;
     sv_has_trust_bundles := sv_has_trust_bundles s |}.
Definition put_snapshots (desired active : ConfigSnapshot) s : server :=
  {| sv_snapshot := desired; sv_active_snapshot := active; sv_sessions := sv_sessions s;
     sv_authenticator := sv_authenticator s; sv_secrets := sv_secrets s; sv_error_logs := sv_error_logs s;
     sv_mutation := sv_mutation s; sv_durable_audit := sv_durable_audit s; sv_sampler := sv_sampler s;
     sv_has_trust_bundles := sv_has_trust_bundles s |}.
Definition put_audit (audit : option (W * Adm)) s : server :=
  {| sv_snapshot := sv_snapshot s; sv_active_snapshot := sv_active_snapshot s; sv_sessions := sv_sessions s;
     sv_authenticator := sv_authenticator s; sv_secrets := sv_secrets s; sv_error_logs := sv_error_logs s;
     sv_mutation := sv_mutation s; sv_durable_audit := audit; sv_sampler := sv_sampler s;
     sv_has_trust_bundles := sv_has_trust_bundles s |}.
Definition put_sampler (sampler : AuthFailureAuditSampler) s : server :=
  {| sv_snapshot := sv_snapshot s; sv_active_snapshot := sv_active_snapshot s; sv_sessions := sv_sessions s;
     sv_authenticator := sv_authenticator s; sv_secrets := sv_secrets s; sv_error_logs := sv_error_logs s;
     sv_mutation := sv_mutation s; sv_durable_audit := sv_durable_audit s; sv_sampler := sampler;
     sv_has_trust_bundles := sv_has_trust_bundles s |}.
Definition put_error_logs (b : RecentErrorBuffer) s : server :=
  {| sv_snapshot := sv_snapshot s; sv_active_snapshot := sv_active_snapshot s; sv_sessions := sv_sessions s;
     sv_authenticator := sv_authenticator s; sv_secrets := sv_secrets s; sv_error_logs := b;
     sv_mutation := sv_mutation s; sv_durable_audit := sv_durable_audit s; sv_sampler := sv_sampler s;
     sv_has_trust_bundles := sv_has_trust_bundles s |}.
Definition put_identity (st : SessionStore) (a : option AdminAuthenticator) (k : K) s : server :=
  {| sv_snapshot := sv_snapshot s; sv_active_snapshot := sv_active_snapshot s; sv_sessions := st;
     sv_authenticator := a; sv_secrets := k; sv_error_logs := sv_error_logs s;
     sv_mutation := sv_mutation s; sv_durable_audit := sv_durable_audit s; sv_sampler := sv_sampler s;
     sv_has_trust_bundles := sv_has_trust_bundles s |}.

(** [None] when reading the current revision fails: the connection then ends without an answer. *)
Definition refresh_admin_snapshot s : option () * server :=
  match sv_mutation s with
  | None => (Some (), s)
  | Some (l, core) =>
      let '(current, l) := on_revisions repo_current l in
      let s := put_lifecycle l core s in
      match current with
      | Err _ => (None, s)
      | Ok None => (Some (), s)
      | Ok (Some record) =>
          let desired := rec_snapshot record in
          let active := match config_activation_state (sv_active_snapshot s) desired with
                        | ActivationAligned => desired
                        | ActivationPendingRestart => sv_active_snapshot s
                        end in
          (Some (), put_snapshots desired active s)
      end
  end.

(** A request that changes the configuration, with an authenticator and a life cycle in place. *)
Definition serve_lifecycle rq now (l : ConfigLifecycle R A) (core : C) s : option AdminHttpResponse * server :=
  let '(r, (l, core), audit) :=
    match sv_durable_audit s with
    | Some (ledger, admission) =>
        let '(answer, audit) :=
          handle_audited_lifecycle_request rq (sv_sessions s) (snap_revision_id (sv_snapshot s)) now l core
            ledger admission in
        (answer, Some audit)
    | None => (handle_bound_lifecycle_request rq (sv_sessions s) l core, None)
    end in
  let s := put_audit audit (put_lifecycle l core s) in
  let '(refreshed, s) := if rs_status_code r =? 200 then refresh_admin_snapshot s else (Some (), s) in
  match refreshed with
  | None => (None, s)
  | Some _ => (Some r, put_error_logs (record_runtime_command_failure rq r (sv_error_logs s)) s)
  end.

Definition BOOTSTRAP_ADMIN : list byte := lit "bootstrap-admin".
(** What of a request is worth an observation; a failed login asks the sampler. *)
Definition auth_action rq (r : AdminHttpResponse) now (sampler : AuthFailureAuditSampler)
  : option AuditAction * AuthFailureAuditSampler :=
  if at_route MethodPost "/api/v1/login" rq && (rs_status_code r =? 200) then (Some AdminLoginSuccess, sampler)
  else if at_route MethodPost "/api/v1/logout" rq && (rs_status_code r =? 200) then (Some AdminLogout, sampler)
  else if at_route MethodPost "/api/v1/login" rq && (rs_status_code r =? 401)
  then if bool_decide (is_Some (find_seq (lit "too many failed attempts") (rs_body r))) then (Some AdminLockout, sampler)
       else match now with
            | None => (None, sampler)
            | Some time =>
                let '(wanted, sampler) := should_record BOOTSTRAP_ADMIN time sampler in
                (if wanted then Some AdminAuthFailureSampled else None, sampler)
            end
  else (None, sampler).
Definition record_auth_observation rq (r : AdminHttpResponse) now s : server :=
  match sv_durable_audit s with
  | None => s
  | Some (ledger, admission) =>
      let '(action, sampler) := auth_action rq r now (sv_sampler s) in
      let s := put_sampler sampler s in
      match action, admin_audit_context rq now with
      | Some action, Ok context =>
          let '(_, audit) :=
            record_security_observation
              {| so_context := context; so_action := action; so_target_id := BOOTSTRAP_ADMIN;
                 so_outcome := Observed |} ledger admission in
          put_audit (Some audit) s
      | _, _ => s
      end
  end.

(** What a setup writes before it runs: nothing, its intent, or a refusal ([inl]); [None] when the
    operation cannot be described, which ends the connection. *)
Definition begin_setup_audit rq now s
  : option (AdminHttpResponse + option (AuditPersistentOperationInput * AuditLedgerHead)) * server :=
  match at_route MethodPost "/api/v1/setup" rq, sv_durable_audit s with
  | true, Some (ledger, admission) =>
      match admin_audit_context rq now with
      | Err _ => (None, s)
      | Ok context =>
          let op := admin_setup_audit_operation context BOOTSTRAP_ADMIN in
          match begin_audit_operation op admission ledger with
          | (Err failure, ledger) =>
              (Some (inl (audit_failure_response rq 503 (bf_error failure) false)), put_audit (Some (ledger, admission)) s)
          | (Ok begin, ledger) => (Some (inr (Some (op, bo_head begin))), put_audit (Some (ledger, admission)) s)
          end
      end
  | _, _ => (Some (inr None), s)
  end.
Definition serve_stateful rq now s : option AdminHttpResponse * server :=
  match begin_setup_audit rq now s with
  | (None, s) => (None, s)
  | (Some (inl r), s) => (Some r, s)
  | (Some (inr setup_audit), s) =>
      let '(r, (st, a, k)) :=
        handle_stateful_http_request debug_policy debug_state rq (sv_snapshot s) (sv_sessions s)
          (sv_authenticator s) (sv_secrets s) in
      let s := put_identity st a k s in
      let '(r, s) :=
        match setup_audit, sv_durable_audit s with
        | Some (op, head), Some (ledger, admission) =>
            let '(r, audit) := complete_audited_admin_response rq r op head ledger admission in
            (r, put_audit (Some audit) s)
        | _, _ => (r, s)
        end in
      (Some r, record_auth_observation rq r now s)
  end.

(** The earlier parts of [handle_admin_http_stream] take the pages of the web interface, the status
    and the probes, the support bundle, the health, metrics, audit, certificate and log reads, the
    trust bundles and the certificate changes; they are not modelled here but for their guards. *)
Definition is_static_asset rq : bool :=
  bool_decide (rq_method rq = MethodGet)
  && existsb (λ p, bool_decide (head (split_byte x3f (rq_path rq)) = Some (lit p)))
       ["/"; "/index.html"; "/styles.css"; "/app.js"].
Definition is_trust_bundle_request rq : bool :=
  at_route MethodGet "/api/v1/trust-bundles" rq || at_route MethodPost "/api/v1/trust-bundles" rq
  || bool_decide (rq_method rq = MethodDelete) && starts_with (lit "/api/v1/trust-bundles/") (rq_path rq).
Definition is_observability_request rq : bool :=
  bool_decide (rq_method rq = MethodGet)
  && (bool_decide (rq_path rq = lit "/api/v1/certificates")
      || starts_with (lit "/api/v1/certificates/") (rq_path rq)
      || bool_decide (rq_path rq = lit "/api/v1/logs/access")
      || bool_decide (rq_path rq = lit "/api/v1/logs/errors")).
Definition is_bound_certificate_mutation_request rq : bool :=
  bool_decide (rq_method rq = MethodPost) && is_certificate_mutation_path (rq_path rq).
Definition served_earlier rq s : bool :=
  is_static_asset rq || at_route MethodGet "/api/v1/status" rq || at_route MethodGet "/api/v1/health/live" rq
  || at_route MethodGet "/api/v1/health/ready" rq || at_route MethodPost "/api/v1/support-bundles" rq
  || at_route MethodGet "/api/v1/upstream-health" rq
  || bool_decide (rq_method rq = MethodGet) && starts_with (lit "/api/v1/metrics") (rq_path rq)
  || at_route MethodGet "/api/v1/audit" rq
  || bool_decide (rq_method rq = MethodGet) && starts_with (lit "/api/v1/audit?") (rq_path rq)
  || is_trust_bundle_request rq && sv_has_trust_bundles s || is_observability_request rq
  || is_bound_certificate_mutation_request rq && negb (bool_decide (sv_authenticator s = None))
     && match sv_mutation s with Some _ => true | None => false end.

(** The last two parts of [handle_admin_http_stream]: the request that no earlier part took. *)
Definition serve_request rq now s : option AdminHttpResponse * server :=
  match is_bound_lifecycle_request rq, sv_authenticator s, sv_mutation s with
  | true, Some _, Some (l, core) => serve_lifecycle rq now l core s
  | _, _, _ => serve_stateful rq now s
  end.
End server.
