(* ===== verification/AdminSafety.v ===== *)
(** * Who may change the configuration

    The steps of the admin server as a relation, and what holds in every state they reach: a change
    is refused without effect unless it carries a session that a login with the password in force
    opened and no logout closed; the session and its token are however numbers that anyone can
    count; five wrong passwords end all logins; and a change that is let through is recorded before
    and after it. *)

From stdpp Require Import base gmap strings list.
From Stdlib Require Import Strings.Byte NArith Lia.
From S2P Require Import Prelude Errors ErrorMessages RustStr HttpRequest Endpoint UpstreamPolicy Snapshot ConfigParser ConfigRender ConfigValidation ConfigStore ConfigLifecycle ConfigServing AdminConfig ConfigChange AuditModel AuditCodec AuditLedger AuditOperations AdminHttp AdminSession AdminServer.
Local Open Scope N_scope.

(** ** Requests by their route *)
Lemma at_route_spec m p rq : at_route m p rq = true ↔ rq_method rq = m ∧ rq_path rq = lit p.
Proof. unfold at_route. by rewrite andb_true_iff, !bool_decide_eq_true. Qed.

Definition member_path (id : list byte) : list byte := lit "/api/v1/proxy-hosts/" ++ id.
Lemma bound_cases rq :
  is_bound_lifecycle_request rq = true →
  (rq_method rq = MethodPost ∧ rq_path rq = lit "/api/v1/proxy-hosts")
  ∨ (rq_method rq = MethodPost ∧ rq_path rq = lit "/api/v1/config/apply")
  ∨ (rq_method rq = MethodPost ∧ rq_path rq = lit "/api/v1/config/rollback")
  ∨ ((rq_method rq = MethodDelete ∨ rq_method rq = MethodPatch) ∧ ∃ id, rq_path rq = member_path id).
Proof.
  assert (Hm : ∀ p, proxy_host_member p = true → ∃ id, p = member_path id).
  { intros p H. by apply starts_with_spec in H as [id ->]; exists id. }
  unfold is_bound_lifecycle_request. destruct (rq_method rq) eqn:E; [done| |naive_solver..].
  cbn [existsb]. rewrite !orb_true_iff, !bool_decide_eq_true. naive_solver.
Qed.
Lemma member_path_not id p :
  In p ["/api/v1/proxy-hosts"; "/api/v1/config/apply"; "/api/v1/config/rollback"; "/api/v1/setup"; "/api/v1/login";
        "/api/v1/logout"] → bool_decide (member_path id = lit p) = false.
Proof.
  intros Hp. apply bool_decide_eq_false_2. revert p Hp. apply List.Forall_forall.
  repeat constructor; intros Heq; cbv in Heq; discriminate Heq.
Qed.
Lemma member_path_member id : proxy_host_member (member_path id) = true.
Proof. apply starts_with_app. Qed.

(** ** Refusals *)
Lemma refused_status st rq r :
  refuse_change st rq = Some r →
  (rs_status_code r = 401 ∨ rs_status_code r = 403)
  ∧ rs_error_code r ≠ Some (lit (ErrorCode_as_str RuntimeCommandRejected)).
Proof.
  unfold refuse_change, require_session, require_csrf.
  intros Hr. repeat case_match; simplify_eq; cbn; (split; [by auto|discriminate]).
Qed.
Lemma allowed_session st rq :
  refuse_change st rq = None ↔
  ∃ id token, rq_session_id rq = Some id ∧ rq_csrf_token rq = Some token ∧ sessions st !! id = Some token.
Proof.
  unfold refuse_change, require_session, require_csrf, session_verify, session_verify_csrf.
  destruct (rq_session_id rq) as [id|] eqn:E; [|naive_solver]. cbn [default].
  case_bool_decide as Hs; cbn; [|split; [done|intros (?&?&[= <-]&_&Hl); rewrite Hl in Hs; by destruct Hs]].
  destruct (rq_csrf_token rq) as [token|]; [|naive_solver].
  case_bool_decide; split; naive_solver.
Qed.

Section changes.
  Context {R A C : Type} `{!RevisionRepository R, !AuditSink A, !CoreCommandClient C} `{!SerdeValue}.

Lemma bound_refused rq st (l : ConfigLifecycle R A) (core : C) r :
  is_bound_lifecycle_request rq = true → refuse_change st rq = Some r →
  handle_bound_lifecycle_request rq st l core = (r, (l, core)).
Proof.
  intros Hb Hr. unfold handle_bound_lifecycle_request.
  destruct (bound_cases rq Hb) as [[Hm Hp]|[[Hm Hp]|[[Hm Hp]|[Hm [id Hp]]]]]; rewrite Hp.
  1: rewrite bool_decide_eq_true_2 by done; unfold handle_proxy_host_create_http, at_route.
  2: rewrite !bool_decide_eq_false_2, bool_decide_eq_true_2 by done; unfold handle_config_apply_http, at_route.
  3: rewrite bool_decide_eq_false_2, bool_decide_eq_true_2 by done; unfold handle_config_rollback_http, at_route.
  1-3: by rewrite Hm, Hp, !bool_decide_eq_true_2, Hr by done.
  rewrite !member_path_not, member_path_member by (cbn; tauto).
  destruct Hm as [Hm|Hm]; rewrite Hm.
  - rewrite bool_decide_eq_true_2 by done. cbn [andb]. unfold handle_proxy_host_delete_http.
    by rewrite Hm, bool_decide_eq_true_2, Hr by done.
  - rewrite bool_decide_eq_false_2, bool_decide_eq_true_2 by done. cbn [andb].
    unfold handle_proxy_host_update_http. by rewrite Hm, bool_decide_eq_true_2, Hr by done.
Qed.
End changes.

(** ** A change without a session *)
Section server.
  Context {R A C W Adm K : Type}.
  Context `{!RevisionRepository R, !AuditSink A, !CoreCommandClient C}.
  Context `{!AuditLedgerWriter W, !AuditAdmissionController Adm, !SecretStore K}.
  Context `{!SerdeValue, !SerdeText}.
  Context (debug_policy : ServicePolicy → list byte) (debug_state : UpstreamAdministrativeState → list byte).
  Abbreviation server := (AdminHttpServerState R A C W Adm K).
  Abbreviation serve := (serve_request debug_policy debug_state).
  Implicit Types (rq : AdminHttpRequest) (s : server) (now : option N).

Lemma bound_not_post rq p :
  is_bound_lifecycle_request rq = true →
  In p ["/api/v1/setup"; "/api/v1/login"; "/api/v1/logout"; "/api/v1/config/validate"; "/api/v1/config/diff"] →
  at_route MethodPost p rq = false.
Proof.
  intros Hb Hin. destruct (at_route MethodPost p rq) eqn:E; [|done]. apply at_route_spec in E as [Hm Hp].
  exfalso. destruct (bound_cases rq Hb) as [[_ Hp']|[[_ Hp']|[[_ Hp']|[[Hm'|Hm'] _]]]]; [..|congruence|congruence].
  all: rewrite Hp' in Hp; repeat destruct Hin as [<-|Hin]; done.
Qed.
Lemma bound_is_mutation rq : is_bound_lifecycle_request rq = true → is_mutation_route (rq_method rq) (rq_path rq) = true.
Proof.
  intros Hb. destruct (bound_cases rq Hb) as [[-> ->]|[[-> ->]|[[-> ->]|[[-> | ->] _]]]]; by vm_compute.
Qed.
Lemma bound_not_get rq : is_bound_lifecycle_request rq = true → bool_decide (rq_method rq = MethodGet) = false.
Proof.
  intros Hb. destruct (bound_cases rq Hb) as [[-> _]|[[-> _]|[[-> _]|[[-> | ->] _]]]]; by vm_compute.
Qed.
Lemma bound_not_get_route rq p : is_bound_lifecycle_request rq = true → at_route MethodGet p rq = false.
Proof. intros Hb. unfold at_route. by rewrite bound_not_get. Qed.
Lemma bound_read_refused rq st snapshot r :
  is_bound_lifecycle_request rq = true → refuse_change st rq = Some r →
  handle_http_request debug_policy debug_state rq st snapshot = r.
Proof.
  intros Hb Hr. unfold handle_http_request.
  rewrite !(bound_not_get_route rq), !(bound_not_post rq) by (done || (cbn; tauto)).
  by rewrite bound_not_get, bound_is_mutation, Hr.
Qed.
Lemma no_observation rq r now s :
  at_route MethodPost "/api/v1/login" rq = false → at_route MethodPost "/api/v1/logout" rq = false →
  record_auth_observation rq r now s = s.
Proof.
  intros Hl Ho. unfold record_auth_observation, auth_action. rewrite Hl, Ho. cbn [andb].
  destruct s as [? ? ? ? ? ? ? [[]|] ?]; done.
Qed.

(** Without a session and its token, nothing changes and the answer is 401 or 403. *)
Lemma unauthorised_change rq now s r :
  is_bound_lifecycle_request rq = true → refuse_change (sv_sessions s) rq = Some r →
  ∃ r', serve rq now s = (Some r', s) ∧ (rs_status_code r' = 401 ∨ rs_status_code r' = 403).
Proof.
  intros Hb Hr. destruct (refused_status _ _ _ Hr) as [Hcode Herr]. unfold serve_request. rewrite Hb.
  assert (Hst : ∃ r', serve_stateful debug_policy debug_state rq now s = (Some r', s)
                      ∧ (rs_status_code r' = 401 ∨ rs_status_code r' = 403)).
  { unfold serve_stateful, begin_setup_audit, handle_stateful_http_request.
    rewrite !(bound_not_post rq) by (done || (cbn; tauto)). rewrite bound_is_mutation, andb_true_r by done.
    case_bool_decide as Ha; eexists; cbn [sv_sessions sv_durable_audit put_identity].
    - rewrite no_observation by (apply bound_not_post; (done || (cbn; tauto))). split; [by destruct s|by right].
    - rewrite no_observation by (apply bound_not_post; (done || (cbn; tauto))).
      split; [by destruct s|]. by rewrite (bound_read_refused rq _ _ r). }
  destruct (sv_authenticator s) as [a|] eqn:Ea; [|done]. destruct (sv_mutation s) as [[l core]|] eqn:Em; [|done].
  exists r. split; [|done]. unfold serve_lifecycle, handle_audited_lifecycle_request.
  rewrite Hr. rewrite (bound_refused _ _ _ _ _ Hb Hr).
  destruct s as [? ? ? ? ? ? ? audit ? ?]. cbn in *. subst.
  assert (Hn : rs_status_code r =? 200 = false) by (apply N.eqb_neq; lia).
  assert (Hlog : ∀ b, record_runtime_command_failure rq r b = b).
  { intros b. unfold record_runtime_command_failure. by rewrite bool_decide_eq_false_2. }
  destruct audit as [[w adm]|]; cbn; rewrite Hn; cbn; by rewrite Hlog.
Qed.

(** ** Sessions and the authenticator *)
Definition identity s : SessionStore * option AdminAuthenticator := (sv_sessions s, sv_authenticator s).

Lemma refresh_identity s : identity (refresh_admin_snapshot s).2 = identity s.
Proof.
  unfold refresh_admin_snapshot. destruct (sv_mutation s) as [[l core]|]; [|done].
  destruct (on_revisions _ l) as [[[record|]|e] l']; done.
Qed.
Lemma lifecycle_identity rq now l core s : identity (serve_lifecycle rq now l core s).2 = identity s.
Proof.
  unfold serve_lifecycle. case_match. destruct p as [r [l' core']].
  destruct (rs_status_code r =? 200); [|done].
  match goal with |- context [refresh_admin_snapshot ?x] => pose proof (refresh_identity x) as Hr;
    destruct (refresh_admin_snapshot x) as [[|] s'] end; exact Hr.
Qed.
Lemma observation_identity rq r now s : identity (record_auth_observation rq r now s) = identity s.
Proof.
  unfold record_auth_observation. destruct (sv_durable_audit s) as [[w adm]|]; [|done].
  destruct (auth_action _ _ _ _) as [[action|] sampler]; [|done].
  destruct (admin_audit_context rq now); [|done]. by destruct (record_security_observation _ _ _) as [? ?].
Qed.
Lemma setup_audit_identity rq now s : identity (begin_setup_audit rq now s).2 = identity s.
Proof.
  unfold begin_setup_audit. destruct (at_route _ _ _), (sv_durable_audit s) as [[w adm]|]; try done.
  destruct (admin_audit_context rq now); [|done]. by destruct (begin_audit_operation _ _ _) as [[|] ?].
Qed.
Lemma setup_audit_other rq now s :
  at_route MethodPost "/api/v1/setup" rq = false → begin_setup_audit rq now s = (Some (inr None), s).
Proof. intros Hr. unfold begin_setup_audit. by rewrite Hr. Qed.

(** A login and a logout, whatever else the server does with them. *)
Lemma route_other m p q rq : at_route m p rq = true → bool_decide (lit p = lit q) = false → at_route m q rq = false.
Proof. intros [Hm Hp]%at_route_spec Hq. unfold at_route. by rewrite Hp, Hq, andb_false_r. Qed.
Lemma serve_login rq now s a :
  at_route MethodPost "/api/v1/login" rq = true → sv_authenticator s = Some a →
  (serve rq now s).1 = Some (handle_login rq a (sv_sessions s)).1
  ∧ identity (serve rq now s).2
    = ((handle_login rq a (sv_sessions s)).2.2, Some (handle_login rq a (sv_sessions s)).2.1).
Proof.
  intros Hl Ha. unfold serve_request.
  replace (is_bound_lifecycle_request rq) with false
    by (apply at_route_spec in Hl as [Hm Hp]; unfold is_bound_lifecycle_request; by rewrite Hm, Hp).
  unfold serve_stateful. rewrite setup_audit_other by (by eapply route_other).
  unfold handle_stateful_http_request.
  rewrite (route_other _ _ "/api/v1/setup" _ Hl), Hl, Ha by done.
  destruct (handle_login rq a (sv_sessions s)) as [r [a' st']]. cbn [fst snd].
  split; [done|]. by rewrite observation_identity.
Qed.
Lemma serve_logout rq now s a :
  at_route MethodPost "/api/v1/logout" rq = true → sv_authenticator s = Some a →
  identity (serve rq now s).2 = ((handle_logout rq (sv_sessions s)).2, Some a).
Proof.
  intros Hl Ha. unfold serve_request.
  replace (is_bound_lifecycle_request rq) with false
    by (apply at_route_spec in Hl as [Hm Hp]; unfold is_bound_lifecycle_request; by rewrite Hm, Hp).
  unfold serve_stateful. rewrite setup_audit_other by (by eapply route_other).
  unfold handle_stateful_http_request.
  rewrite (route_other _ _ "/api/v1/setup" _ Hl), (route_other _ _ "/api/v1/login" _ Hl), Hl, Ha by done.
  destruct (handle_logout rq (sv_sessions s)) as [r st']. cbn [snd]. by rewrite observation_identity.
Qed.
Lemma serve_other rq now s :
  sv_authenticator s = None
  ∨ at_route MethodPost "/api/v1/login" rq = false ∧ at_route MethodPost "/api/v1/logout" rq = false →
  sv_sessions (serve rq now s).2 = sv_sessions s
  ∧ (sv_authenticator (serve rq now s).2 = sv_authenticator s
     ∨ sv_authenticator s = None ∧ ∃ p, sv_authenticator (serve rq now s).2 = Some (AdminAuthenticator_new p)).
Proof.
  intros Hr.
  enough (Hid : ∃ a, identity (serve rq now s).2 = (sv_sessions s, a)
            ∧ (a = sv_authenticator s ∨ sv_authenticator s = None ∧ ∃ p, a = Some (AdminAuthenticator_new p))).
  { destruct Hid as (a & [= -> ->] & Ha). split; [done|]. naive_solver. }
  assert (Hst : ∃ a, identity (serve_stateful debug_policy debug_state rq now s).2 = (sv_sessions s, a)
            ∧ (a = sv_authenticator s ∨ sv_authenticator s = None ∧ ∃ p, a = Some (AdminAuthenticator_new p))).
  { unfold serve_stateful. pose proof (setup_audit_identity rq now s) as Hb.
    destruct (begin_setup_audit rq now s) as [[[r|audit]|] s1]; cbn [snd] in Hb; injection Hb as Hs1 Ha1.
    2: destruct (handle_stateful_http_request _ _ _ _ _ _ _) as [r [[st a] k]] eqn:E;
       assert (Hid : st = sv_sessions s ∧ (a = sv_authenticator s ∨ sv_authenticator s = None
                 ∧ ∃ p, a = Some (AdminAuthenticator_new p))).
    1,4: eexists; split; [unfold identity; cbn [snd]; by rewrite Hs1, Ha1|by left].
    - rewrite Hs1, Ha1 in E. clear -E Hr. revert E. unfold handle_stateful_http_request, handle_setup.
      destruct Hr as [Hr|[Hl Ho]]; rewrite ?Hr, ?Hl, ?Ho; intros E; repeat case_match; simplify_eq; naive_solver.
    - exists a. split; [|apply Hid]. destruct audit as [[op head]|]; [destruct (sv_durable_audit _) as [[w adm]|];
        [destruct (complete_audited_admin_response _ _ _ _ _ _) as [? ?]|]|];
      cbn [snd]; rewrite observation_identity; unfold identity; cbn; f_equal; apply Hid. }
  unfold serve_request. destruct (is_bound_lifecycle_request rq); [|done].
  destruct (sv_authenticator s) as [a|] eqn:Ea; [|done]. destruct (sv_mutation s) as [[l core]|]; [|done].
  rewrite lifecycle_identity. eexists. split; [reflexivity|by left].
Qed.

(** ** Histories *)
(** The requests of a history, oldest first.  The parts of the server that are not modelled here
    read the sessions and the authenticator and change neither; the rest is left open. *)
Inductive admin_run (s0 : server) : list AdminHttpRequest → server → Prop :=
| run_start : admin_run s0 [] s0
| run_served trace s rq now :
    admin_run s0 trace s → served_earlier rq s = false → admin_run s0 (trace ++ [rq]) (serve rq now s).2
| run_earlier trace s rq s' :
    admin_run s0 trace s → served_earlier rq s = true → identity s' = identity s →
    admin_run s0 (trace ++ [rq]) s'.
(** As a server starts: no session, and the stored password if there is one. *)
Definition admin_start s : Prop :=
  sv_sessions s = SessionStore_default
  ∧ (sv_authenticator s = None ∨ ∃ p, sv_authenticator s = Some (AdminAuthenticator_new p)).

Definition is_login rq : bool := at_route MethodPost "/api/v1/login" rq.
Definition is_logout rq : bool := at_route MethodPost "/api/v1/logout" rq.
Definition logs_out_of (id token : list byte) rq : Prop :=
  is_logout rq = true ∧ rq_session_id rq = Some id ∧ rq_csrf_token rq = Some token.

Lemma earlier_not_identity rq s : served_earlier rq s = true → is_login rq = false ∧ is_logout rq = false.
Proof.
  intros Hs.
  assert (Hp : ∀ p, In p ["/api/v1/login"; "/api/v1/logout"] → at_route MethodPost p rq = false).
  { intros p Hin. destruct (at_route MethodPost p rq) eqn:E; [exfalso|done]. apply at_route_spec in E as [Hm Hp].
    revert Hs. unfold served_earlier, is_static_asset, is_trust_bundle_request, is_observability_request,
      is_bound_certificate_mutation_request, at_route. rewrite Hm, Hp.
    repeat destruct Hin as [<-|Hin]; by vm_compute. }
  split; apply Hp; cbn; tauto.
Qed.

Lemma login_cases rq a st :
  let '(r, (a', st')) := handle_login rq a st in
  (a' = a ∧ st' = st)
  ∨ (st' = st ∧ aa_next_session a' = aa_next_session a ∧ aa_password_hash a' = aa_password_hash a)
  ∨ (json_string_field (rq_body rq) (lit "password_hash") = Some (aa_password_hash a)
     ∧ aa_failed_attempts a < aa_max_failed_attempts a
     ∧ st' = session_insert (session_for (aa_next_session a)) st ∧ aa_next_session a' = aa_next_session a + 1
     ∧ aa_password_hash a' = aa_password_hash a).
Proof.
  unfold handle_login, login. destruct (json_string_field _ _) as [p|]; [|by left].
  destruct (_ <=? _) eqn:Hmax; [by left|]. apply N.leb_gt in Hmax. case_bool_decide as Hp; cbn; [subst|by right; left].
  by right; right.
Qed.

Lemma run_no_admin s0 trace s :
  admin_start s0 → admin_run s0 trace s → sv_authenticator s = None → sv_sessions s = SessionStore_default.
Proof.
  intros [Hst Ha] Hrun. induction Hrun as [|trace s rq now Hrun IH Hs|trace s rq s' Hrun IH Hs Hid]; [done| |].
  - intros Hn. destruct (sv_authenticator s) as [a|] eqn:Ea.
    + exfalso. destruct (is_login rq) eqn:El; [|destruct (is_logout rq) eqn:Eo].
      * destruct (serve_login rq now s a El Ea) as [_ [= _ Hn']]. congruence.
      * pose proof (serve_logout rq now s a Eo Ea) as [= _ Hn']. congruence.
      * destruct (serve_other rq now s (or_intror (conj El Eo))) as [_ [?|[? _]]]; congruence.
    + destruct (serve_other rq now s (or_introl Ea)) as [-> _]. by apply IH.
  - injection Hid as -> ->. done.
Qed.

(** The login that opened a session which is still open. *)
Definition opened_by (s0 : server) (trace : list AdminHttpRequest) (id token : list byte) : Prop :=
  ∃ before rq after s1 a,
    trace = before ++ rq :: after ∧ admin_run s0 before s1 ∧ sv_authenticator s1 = Some a
    ∧ is_login rq = true ∧ json_string_field (rq_body rq) (lit "password_hash") = Some (aa_password_hash a)
    ∧ id = se_session_id (session_for (aa_next_session a)) ∧ token = se_csrf_token (session_for (aa_next_session a))
    ∧ Forall (λ q, ¬ logs_out_of id token q) after.
Lemma opened_by_snoc s0 trace id token rq :
  opened_by s0 trace id token → ¬ logs_out_of id token rq → opened_by s0 (trace ++ [rq]) id token.
Proof.
  intros (before & lg & after & s1 & a & -> & ? & ? & ? & ? & ? & ? & Hall) Hrq.
  exists before, lg, (after ++ [rq]), s1, a. split_and!; try done.
  - by rewrite <-app_assoc.
  - apply Forall_app. auto.
Qed.

Lemma session_opened s0 trace s id token :
  admin_start s0 → admin_run s0 trace s → sessions (sv_sessions s) !! id = Some token → opened_by s0 trace id token.
Proof.
  intros Hs0 Hrun. induction Hrun as [|trace s rq now Hrun IH Hs|trace s rq s' Hrun IH Hs Hid].
  - destruct Hs0 as [-> _]. cbn. by rewrite lookup_empty.
  - intros Hl. destruct (sv_authenticator s) as [a|] eqn:Ea.
    2: { destruct (serve_other rq now s (or_introl Ea)) as [Heq _]. rewrite Heq, (run_no_admin s0 trace s) in Hl by done.
         cbn in Hl. by rewrite lookup_empty in Hl. }
    destruct (is_login rq) eqn:El; [|destruct (is_logout rq) eqn:Eo].
    + assert (Ho : ¬ logs_out_of id token rq).
      { intros [Ho _]. unfold is_logout in Ho. by rewrite (route_other _ _ "/api/v1/logout" _ El) in Ho. }
      destruct (serve_login rq now s a El Ea) as [_ [= Heq _]]. rewrite Heq in Hl.
      pose proof (login_cases rq a (sv_sessions s)) as Hc.
      destruct (handle_login rq a (sv_sessions s)) as [r [a' st']]. cbn [fst snd] in Hl.
      destruct Hc as [[_ ->]|[[-> _]|(Hp & _ & -> & _)]]; [by apply opened_by_snoc; auto..|].
      unfold session_insert in Hl. cbn [sessions] in Hl. apply lookup_insert_Some in Hl as [[<- <-]|[_ Hl]]; [|by apply opened_by_snoc; auto].
      exists trace, rq, [], s, a. split_and!; done.
    + pose proof (serve_logout rq now s a Eo Ea) as [= Heq _]. rewrite Heq in Hl.
      assert (Hcase : sessions (sv_sessions s) !! id = Some token ∧ ¬ logs_out_of id token rq).
      { clear -Hl. revert Hl. unfold handle_logout. destruct (rq_session_id rq) as [i|] eqn:Ei.
        - destruct (refuse_change _ rq) eqn:Er; cbn [snd].
          + intros Hl. split; [done|]. intros (_ & Hi & Ht).
            assert (refuse_change (sv_sessions s) rq = None); [|congruence].
            apply allowed_session. exists id, token. split_and!; congruence.
          + unfold session_remove. cbn [sessions]. intros [Hne Hl]%lookup_delete_Some. split; [done|]. intros (_ & Hi & _). congruence.
        - intros Hl. split; [done|]. intros (_ & Hi & _). congruence. }
      apply opened_by_snoc; [apply IH|]; apply Hcase.
    + destruct (serve_other rq now s (or_intror (conj El Eo))) as [Heq _]. rewrite Heq in Hl.
      apply opened_by_snoc; [auto|]. intros [Ho _]. congruence.
  - injection Hid as -> _. intros Hl. destruct (earlier_not_identity rq s Hs) as [_ Eo].
    apply opened_by_snoc; [auto|]. intros [Ho _]. congruence.
Qed.

(** C16: The configuration changes only for who logged in.  In any state a started server reaches, a
    request that would change the configuration either gets 401 or 403 and leaves the whole server
    as it was (sessions, configuration, running core and audit trail), or it carries the session and
    the token that an earlier request of the history was given for the password in force at that
    time, and no later request has logged out of that session. *)
Theorem change_needs_login (s0 : server) trace s rq now :
  admin_start s0 → admin_run s0 trace s → is_bound_lifecycle_request rq = true →
  (∃ r, serve rq now s = (Some r, s) ∧ (rs_status_code r = 401 ∨ rs_status_code r = 403))
  ∨ ∃ id token, rq_session_id rq = Some id ∧ rq_csrf_token rq = Some token ∧ opened_by s0 trace id token.
Proof.
  intros Hs0 Hrun Hb. destruct (refuse_change (sv_sessions s) rq) as [r|] eqn:Er.
  - left. by eapply unauthorised_change.
  - right. apply allowed_session in Er as (id & token & Hid & Ht & Hl). exists id, token.
    split_and!; [done|done|]. by eapply session_opened.
Qed.

(** ** Sessions can be counted *)
Definition logins (trace : list AdminHttpRequest) : N := len (List.filter is_login trace).
Lemma logins_app a b : logins (a ++ b) = logins a + logins b.
Proof. unfold logins. by rewrite List.filter_app, len_app. Qed.
Lemma logins_one rq : logins [rq] = if is_login rq then 1 else 0.
Proof. unfold logins. cbn. by destruct (is_login rq). Qed.
Lemma session_numbers s0 trace s a :
  admin_start s0 → admin_run s0 trace s → sv_authenticator s = Some a → 1 ≤ aa_next_session a ≤ 1 + logins trace.
Proof.
  intros [_ Ha0] Hrun. revert a. induction Hrun as [|trace s rq now Hrun IH Hs|trace s rq s' Hrun IH Hs Hid]; intros a' Ha'.
  - destruct Ha0 as [?|[p Hp]]; [congruence|]. rewrite Hp in Ha'. injection Ha' as <-. cbn. lia.
  - rewrite logins_app, logins_one. destruct (sv_authenticator s) as [a|] eqn:Ea.
    2: { destruct (serve_other rq now s (or_introl Ea)) as [_ [Heq|[_ [p Heq]]]]; rewrite Heq in Ha'; [congruence|].
         injection Ha' as <-. cbn. lia. }
    specialize (IH a eq_refl). destruct (is_login rq) eqn:El; [|destruct (is_logout rq) eqn:Eo].
    + destruct (serve_login rq now s a El Ea) as [_ [= _ Heq]]. rewrite Heq in Ha'. injection Ha' as <-.
      pose proof (login_cases rq a (sv_sessions s)) as Hc.
      destruct (handle_login rq a (sv_sessions s)) as [r [a' st']]. cbn [fst snd].
      destruct Hc as [[-> _]|[(_ & -> & _)|(_ & _ & _ & -> & _)]]; lia.
    + pose proof (serve_logout rq now s a Eo Ea) as [= _ Heq]. rewrite Heq in Ha'. injection Ha' as <-. lia.
    + destruct (serve_other rq now s (or_intror (conj El Eo))) as [_ [Heq|[? _]]]; [|congruence].
      rewrite Heq in Ha'. simplify_eq. lia.
  - injection Hid as _ Hid. rewrite Hid in Ha'. rewrite logins_app. specialize (IH a' Ha'). lia.
Qed.

(** C38: A session can be taken over by counting.  Session ids and tokens are the numbers of the
    logins: in any state a started server reaches with some session open, one of the first [n]
    numbers, [n] the logins it was asked for, makes a session id and a token with which every request
    passes the checks of a change, from a client that never knew the password. *)
Theorem session_guessed_by_counting (s0 : server) trace s :
  admin_start s0 → admin_run s0 trace s → sessions (sv_sessions s) ≠ ∅ →
  ∃ n, 1 ≤ n ≤ logins trace ∧
    ∀ rq, rq_session_id rq = Some (lit "session-" ++ print_dec n) →
          rq_csrf_token rq = Some (lit "csrf-" ++ print_dec n) → refuse_change (sv_sessions s) rq = None.
Proof.
  intros Hs0 Hrun Hne. destruct (map_choose _ Hne) as (id & token & Hl).
  destruct (session_opened s0 trace s id token Hs0 Hrun Hl)
    as (before & lg & after & s1 & a & -> & Hb & Ha & El & _ & -> & -> & _).
  exists (aa_next_session a). destruct (session_numbers s0 before s1 a Hs0 Hb Ha). split.
  - change (lg :: after) with ([lg] ++ after). rewrite !logins_app, logins_one, El. lia.
  - intros rq Hid Ht. apply allowed_session. by eexists _, _.
Qed.

(** ** Lockout *)
Definition locked s : Prop :=
  ∃ a, sv_authenticator s = Some a ∧ aa_max_failed_attempts a ≤ aa_failed_attempts a.
Lemma login_locked rq a st :
  aa_max_failed_attempts a ≤ aa_failed_attempts a →
  (handle_login rq a st).2 = (a, st)
  ∧ (rs_status_code (handle_login rq a st).1 = 400 ∨ rs_status_code (handle_login rq a st).1 = 401).
Proof.
  intros Hmax. unfold handle_login, login. destruct (json_string_field _ _); [|by auto].
  rewrite (proj2 (N.leb_le _ _) Hmax). auto.
Qed.
Lemma locked_stays s0 trace s : locked s0 → admin_run s0 trace s → locked s.
Proof.
  intros Hl Hrun. induction Hrun as [|trace s rq now Hrun IH Hs|trace s rq s' Hrun IH Hs Hid]; [done| |].
  - destruct IH as (a & Ha & Hmax). exists a. split; [|done]. destruct (is_login rq) eqn:El; [|destruct (is_logout rq) eqn:Eo].
    + destruct (serve_login rq now s a El Ha) as [_ [= _ ->]].
      by destruct (login_locked rq a (sv_sessions s) Hmax) as [-> _].
    + by pose proof (serve_logout rq now s a Eo Ha) as [= _ ->].
    + destruct (serve_other rq now s (or_intror (conj El Eo))) as [_ [->|[? _]]]; congruence.
  - injection Hid as _ Hid. destruct IH as (a & Ha & Hmax). exists a. by rewrite Hid.
Qed.

(** The server after some requests, one after the other. *)
Definition serve_all now (rqs : list AdminHttpRequest) s : server := foldl (λ s rq, (serve rq now s).2) s rqs.
Definition wrong_login (password_hash : list byte) rq : Prop :=
  is_login rq = true ∧ ∃ p, json_string_field (rq_body rq) (lit "password_hash") = Some p ∧ p ≠ password_hash.
Lemma wrong_logins_lock now rqs s a :
  sv_authenticator s = Some a → Forall (wrong_login (aa_password_hash a)) rqs →
  aa_max_failed_attempts a ≤ aa_failed_attempts a + len rqs → locked (serve_all now rqs s).
Proof.
  revert s a. induction rqs as [|rq rqs IH]; intros s a Ha Hall Hmax; [exists a; rewrite len_nil in Hmax; split; [done|lia]|].
  apply Forall_cons in Hall as [[El (p & Hp & Hne)] Hall]. cbn [serve_all foldl].
  destruct (serve_login rq now s a El Ha) as [_ [= _ Ha']]. rewrite len_cons in Hmax.
  destruct (aa_max_failed_attempts a <=? aa_failed_attempts a) eqn:Hm; eapply IH; [exact Ha'| |  |exact Ha'| |];
    unfold handle_login, login; rewrite Hp, Hm; cbn [fst snd]; try done; [apply N.leb_le in Hm; lia|..];
    rewrite bool_decide_eq_false_2 by done; cbn; [done|lia].
Qed.

(** Wrong passwords lock everyone out until a restart.  Whoever sends as many login requests with
    a wrong password as the limit allows, without any session, makes every later login fail, with
    the right password too, whatever requests come in between: each is answered 400 or 401 and opens
    no session. *)
Theorem wrong_passwords_lock_out now (s s' : server) a rqs trace rq now' :
  sv_authenticator s = Some a → Forall (wrong_login (aa_password_hash a)) rqs →
  aa_max_failed_attempts a ≤ len rqs → admin_run (serve_all now rqs s) trace s' → is_login rq = true →
  ∃ r, (serve rq now' s').1 = Some r ∧ (rs_status_code r = 400 ∨ rs_status_code r = 401)
       ∧ identity (serve rq now' s').2 = identity s'.
Proof.
  intros Ha Hall Hmax Hrun El. assert (Hl : locked s').
  { eapply locked_stays; [|exact Hrun]. eapply wrong_logins_lock; [done..|lia]. }
  destruct Hl as (a' & Ha' & Hmax'). destruct (serve_login rq now' s' a' El Ha') as [Hr Hid].
  destruct (login_locked rq a' (sv_sessions s') Hmax') as [Heq Hcode].
  eexists. split_and!; [exact Hr|exact Hcode|]. rewrite Hid, Heq. unfold identity. by rewrite Ha'.
Qed.
End server.

(** ** A server to start from *)
Module SampleServer.
Import MemoryLedger.
#[export] Instance no_secrets : SecretStore () := {| load_secret _ k := (Ok None, k); save_secret _ _ k := (Ok (), k) |}.
#[export] Instance no_reader : SerdeValue := λ _, None.
#[export] Instance no_writer : SerdeText := λ _, [].
Definition debug_policy : ServicePolicy → list byte := λ _, [].
Definition debug_state : UpstreamAdministrativeState → list byte := λ _, [].

Definition state : Type :=
  AdminHttpServerState FileRevisionRepository () () MemoryLedger.t AuditAdmissionState ().
Definition start : state :=
  {| sv_snapshot := plain_config; sv_active_snapshot := plain_config; sv_sessions := SessionStore_default;
     sv_authenticator := Some (AdminAuthenticator_new (lit "h")); sv_secrets := ();
     sv_error_logs := {| rb_capacity := 100; rb_events := [] |}; sv_mutation := Some (admin_side plain_store, ());
     sv_durable_audit := Some ([], Healthy); sv_sampler := {| last_observed := ∅ |}; sv_has_trust_bundles := false |}.
Definition post (path body : string) (session csrf : option (list byte)) : AdminHttpRequest :=
  {| rq_method := MethodPost; rq_path := lit path; rq_request_id := lit "request-1"; rq_session_id := session;
     rq_csrf_token := csrf; rq_body := template body |}.
Definition right_login : AdminHttpRequest := post "/api/v1/login" "{'password_hash':'h'}" None None.
Definition bad_login : AdminHttpRequest := post "/api/v1/login" "{'password_hash':'x'}" None None.
Definition apply_change : AdminHttpRequest :=
  post "/api/v1/config/apply" "" (Some (lit "session-1")) (Some (lit "csrf-1")).

Definition after_login : state := (serve_request debug_policy debug_state right_login (Some 7) start).2.
Lemma start_ok : admin_start start.
Proof. split; [reflexivity|]. right. by eexists. Qed.
Lemma run_login : admin_run debug_policy debug_state start [right_login] after_login.
Proof. apply (run_served debug_policy debug_state start [] start right_login (Some 7)); [constructor|reflexivity]. Qed.
Lemma one_session : sessions (sv_sessions after_login) = {[lit "session-1" := lit "csrf-1"]}.
Proof. vm_compute. reflexivity. Qed.
Lemma one_session_open : sessions (sv_sessions after_login) ≠ ∅.
Proof. rewrite one_session. apply insert_non_empty. Qed.
Definition locked_out : state := serve_all debug_policy debug_state (Some 7) (replicate 5 bad_login) start.
Lemma bad_logins : Forall (wrong_login (lit "h")) (replicate 5 bad_login).
Proof. apply Forall_replicate. split; [reflexivity|]. exists (lit "x"). split; [vm_compute; reflexivity|done]. Qed.
End SampleServer.
Import MemoryLedger SampleServer.

Lemma change_needs_login_witness :
  (∃ r, serve_request SampleServer.debug_policy SampleServer.debug_state apply_change (Some 8) after_login
        = (Some r, after_login) ∧ (rs_status_code r = 401 ∨ rs_status_code r = 403))
  ∨ ∃ id token, rq_session_id apply_change = Some id ∧ rq_csrf_token apply_change = Some token
      ∧ opened_by SampleServer.debug_policy SampleServer.debug_state start [right_login] id token.
Proof.
  exact (change_needs_login _ _ start [right_login] after_login apply_change (Some 8) start_ok run_login eq_refl).
Defined.
Lemma session_guessed_by_counting_witness :
  ∃ n, 1 ≤ n ≤ logins [right_login] ∧
    ∀ rq, rq_session_id rq = Some (lit "session-" ++ print_dec n) →
          rq_csrf_token rq = Some (lit "csrf-" ++ print_dec n) → refuse_change (sv_sessions after_login) rq = None.
Proof. exact (session_guessed_by_counting _ _ start [right_login] after_login start_ok run_login one_session_open). Defined.
Lemma wrong_passwords_lock_out_witness :
  ∃ r, (serve_request SampleServer.debug_policy SampleServer.debug_state right_login (Some 9) locked_out).1 = Some r
       ∧ (rs_status_code r = 400 ∨ rs_status_code r = 401)
       ∧ identity (serve_request SampleServer.debug_policy SampleServer.debug_state right_login (Some 9) locked_out).2
         = identity locked_out.
Proof.
  exact (wrong_passwords_lock_out _ _ (Some 7) start locked_out (AdminAuthenticator_new (lit "h")) (replicate 5 bad_login) []
           right_login (Some 9) eq_refl bad_logins (N.le_refl 5) (run_start _ _ locked_out) eq_refl).
Defined.
