(* ===== verification/AdminTrail.v ===== *)
(** * What the audit trail says of an admin request

    A request that changes the configuration, between its intent and its terminal record
    ([handle_audited_lifecycle_request]): the ways it can end, over any ledger that keeps the laws of
    AuditOperations.v, any repository and any core. *)

From stdpp Require Import base gmap strings list.
From Stdlib Require Import Strings.Byte NArith Lia.
From S2P Require Import Prelude Errors ErrorMessages RustStr HttpRequest Endpoint UpstreamPolicy Snapshot ConfigParser ConfigRender ConfigValidation ConfigStore ConfigLifecycle ConfigServing AdminConfig ConfigChange AuditModel AuditCodec AuditLedger AuditOperations AdminHttp AdminSession AdminDecode AdminServer AdminSafety.
Local Open Scope N_scope.

(** ** What the operation says of the request *)
Definition action_of (rq : AdminHttpRequest) : AuditAction :=
  if at_route MethodPost "/api/v1/config/apply" rq then ConfigApply
  else if at_route MethodPost "/api/v1/config/rollback" rq then ConfigRollback
  else if at_route MethodPost "/api/v1/proxy-hosts" rq then ProxyHostCreate
  else if bool_decide (rq_method rq = MethodPatch) then ProxyHostUpdate else ProxyHostDelete.
Definition describes (rq : AdminHttpRequest) (revision : list byte) (op : AuditPersistentOperationInput) : Prop :=
  po_action op = action_of rq ∧ ctx_request_id (po_context op) = rq_request_id rq
  ∧ ctx_operation_id (po_context op) = lit "operation-" ++ rq_request_id rq ∧ po_before op = Some revision
  ∧ (rq_method rq ≠ MethodPost → rq_path rq = member_path (po_target_id op)).

Lemma audit_id_ok value message id : audit_id value message = Ok id → id = value.
Proof.
  unfold audit_id, audit_identifier_parse. destruct (validate_audit_identifier value); intros [= H]; done.
Qed.
Lemma admin_context_ok rq now context :
  admin_audit_context rq now = Ok context →
  ctx_request_id context = rq_request_id rq ∧ ctx_operation_id context = lit "operation-" ++ rq_request_id rq.
Proof.
  unfold admin_audit_context. destruct (audit_id (rq_request_id rq) _) eqn:E1; [|done].
  destruct (audit_id (_ ++ _) _) eqn:E2; [|done]. destruct (ok_or now _); [|done]. intros [= <-].
  apply audit_id_ok in E1, E2. done.
Qed.

Section audited.
  Context {L Adm R A C : Type}.
  Context `{!AuditLedgerWriter L} `{!AuditLedgerReader L} `{!AuditLedgerVerifier L} `{!AuditLedgerLaws L}.
  Context `{!AuditAdmissionController Adm} `{!AdmissionLaws Adm}.
  Context `{!RevisionRepository R, !AuditSink A, !CoreCommandClient C} `{!SerdeValue, !SerdeText}.
  Implicit Types (rq : AdminHttpRequest) (op : AuditPersistentOperationInput) (r : AdminHttpResponse).

Lemma lifecycle_described rq revision now op :
  is_bound_lifecycle_request rq = true → lifecycle_audit_operation rq revision now = Ok op → describes rq revision op.
Proof.
  intros Hb. unfold lifecycle_audit_operation, describes, action_of.
  destruct (admin_audit_context rq now) as [context|] eqn:Ec; [|done]. destruct (admin_context_ok _ _ _ Ec) as [Hr Ho].
  destruct (audit_id revision _) as [before|] eqn:Eb; [|done]. apply audit_id_ok in Eb as ->.
  destruct (at_route _ "/api/v1/config/apply" rq) eqn:E1; [|destruct (at_route _ "/api/v1/config/rollback" rq) eqn:E2;
    [|destruct (at_route _ "/api/v1/proxy-hosts" rq) eqn:E3]].
  1-3: match goal with H : at_route _ _ ?q = true |- _ => apply at_route_spec in H as [Hm _] end;
       destruct (audit_id _ _) || destruct (ok_or _ _); [|done]; intros [= <-]; split_and!; [done..|by intros []].
  destruct (bool_decide (rq_method rq = MethodPatch) || _) eqn:E4; [|done].
  destruct (strip_prefix _ (rq_path rq)) as [id|] eqn:Ep; cbn [mbind option_bind]; [|done].
  unfold audit_identifier_parse. destruct (validate_audit_identifier id); cbn [ok_or]; [|done].
  assert (Hpath : rq_path rq = member_path id).
  { unfold strip_prefix in Ep. destruct (starts_with _ (rq_path rq)) eqn:Es; [|done].
    apply starts_with_spec in Es as [k Hk]. rewrite Hk in Ep |- *. rewrite drop_app_length in Ep. by injection Ep as ->. }
  destruct (bool_decide (rq_method rq = MethodPatch)); intros [= <-]; split_and!; done.
Qed.

(** ** How a request ends *)
Definition parsed_id (v : list byte) : option AuditIdentifier :=
  match audit_identifier_parse v with Ok id => Some id | Err _ => None end.
(** The terminal record that says of [r] what the client was told. *)
Definition admin_terminal op r : AuditRecord :=
  if committed_status r
  then record_for_operation op Terminal (Some Succeeded) (response_revision_id r ≫= parsed_id) None
  else record_for_operation op Terminal (Some OutFailed) None (stable_error r).

Inductive admin_change_ended rq (st : SessionStore) (revision : list byte) (l : ConfigLifecycle R A) (core : C)
  (w : L) (adm : Adm) : AdminHttpResponse * (ConfigLifecycle R A * C) * (L * Adm) → Prop :=
| ended_refused r :
    refuse_change st rq = Some r → admin_change_ended rq st revision l core w adm (r, (l, core), (w, adm))
| ended_undescribed e :
    refuse_change st rq = None →
    admin_change_ended rq st revision l core w adm (audit_failure_response rq 400 e false, (l, core), (w, adm))
| ended_unrecorded e w' :
    refuse_change st rq = None →
    admin_change_ended rq st revision l core w adm (audit_failure_response rq 503 e false, (l, core), (w', adm))
| ended_recorded op r world w1 w' :
    refuse_change st rq = None → describes rq revision op → admission_state adm = Healthy →
    trail_append (trail w) (intent_of op) (trail w1) →
    handle_bound_lifecycle_request rq st l core = (r, world) →
    trail_append (trail w1) (admin_terminal op r) (trail w') →
    admin_change_ended rq st revision l core w adm (r, world, (w', adm))
| ended_degraded op r world w1 w' adm' e :
    refuse_change st rq = None → describes rq revision op → admission_state adm = Healthy →
    trail_append (trail w) (intent_of op) (trail w1) →
    handle_bound_lifecycle_request rq st l core = (r, world) → admission_state adm' = Degraded →
    admin_change_ended rq st revision l core w adm
      (audit_failure_response rq 503 e (committed_status r), world, (w', adm')).

Lemma stable_error_some r : is_Some (stable_error r).
Proof.
  unfold stable_error. destruct (audit_identifier_parse _); [by eexists|].
  rewrite error_code_audit_safe. by eexists.
Qed.
Lemma completion_ends op h r (w : L) (adm : Adm) :
  sound w →
  match complete_audit_operation (completion_of op h r) w adm with
  | (Ok _, (w', adm')) => adm' = adm ∧ sound w' ∧ trail_append (trail w) (admin_terminal op r) (trail w')
  | (Err _, (w', adm')) => sound w' ∧ admission_state adm' = Degraded
  end.
Proof.
  intros Hw. unfold complete_audit_operation, completion_of, admin_terminal. cbv zeta.
  destruct (stable_error_some r) as [e He].
  destruct (committed_status r); cbn [co_effect_state co_error co_operation co_expected_head co_after operation_transition];
    rewrite ?He; rewrite ?bool_decide_eq_true_2, ?bool_decide_eq_false_2 by done; cbn [andb negb is_none].
  all: destruct (append_terminal _ h w) as [[h'|err] w'] eqn:E1; apply terminal_recorded in E1 as [Hs Ht]; try done.
  all: by split; [|apply replace_then_state].
Qed.
Lemma begin_ends op (adm : Adm) (w : L) :
  sound w →
  match begin_audit_operation op adm w with
  | (Ok _, w') => admission_state adm = Healthy ∧ sound w' ∧ trail_append (trail w) (intent_of op) (trail w')
  | (Err _, w') => sound w'
  end.
Proof.
  intros Hw. unfold begin_audit_operation. destruct (admission_allows _ _) eqn:Ha; cbn [negb]; [|done].
  cbn in Ha. apply bool_decide_eq_true in Ha. cbn [operation_transition].
  destruct (append_intent _ w) as [[h|e] w1] eqn:E1; apply intent_recorded in E1 as [Hs Ht]; done.
Qed.

(** C17: Every admin request that changes the configuration is in the trail, or changed nothing, or
    stops all further changes.  It is refused without a session; or answered 400 or 503 with the
    configuration and the core untouched; or run after its intent, which names its action, its
    request and the revision it started from, was appended to the trail of a healthy ledger.  After it
    ran, either a terminal record is appended that says success exactly when the client got a 2xx
    answer, or the client gets 503 with what was committed and the admission is degraded. *)
Theorem admin_change_recorded rq st revision now (l : ConfigLifecycle R A) (core : C) (w : L) (adm : Adm) :
  sound w → is_bound_lifecycle_request rq = true →
  admin_change_ended rq st revision l core w adm
    (handle_audited_lifecycle_request rq st revision now l core w adm)
  ∧ sound (handle_audited_lifecycle_request rq st revision now l core w adm).2.1.
Proof.
  intros Hw Hb. unfold handle_audited_lifecycle_request. destruct (refuse_change st rq) as [r|] eqn:Er.
  { rewrite (bound_refused _ _ _ _ _ Hb Er). by split; [apply ended_refused|]. }
  destruct (lifecycle_audit_operation rq revision now) as [op|e] eqn:Eo; [|by split; [apply ended_undescribed|]].
  pose proof (begin_ends op adm w Hw) as Hbegin.
  destruct (begin_audit_operation op adm w) as [[b|f] w1]; [|by split; [apply ended_unrecorded|]].
  destruct Hbegin as (Ha & Hw1 & Ht1). destruct (handle_bound_lifecycle_request rq st l core) as [r world] eqn:Eh.
  pose proof (completion_ends op (bo_head b) r w1 adm Hw1) as Hend.
  destruct (complete_audit_operation _ w1 adm) as [[c|f] [w' adm']].
  - destruct Hend as (-> & Hw' & Ht). split; [|done]. eapply ended_recorded; try done. by eapply lifecycle_described.
  - destruct Hend as [Hw' Hd]. split; [|done]. eapply ended_degraded; try done. by eapply lifecycle_described.
Qed.
End audited.

(** ** A rollback under another name *)
(** The handler takes the first quoted [revision_id] of the text, the trail the one of the document. *)
Definition rollback_body (target named : list byte) : list byte :=
  template "{'note':{'revision_id':" ++ json_text target ++ template "},'revision_id':" ++ json_text named ++ lit "}".
Definition rollback_document (target named : list byte) : Value :=
  VObject [(lit "note", VObject [(lit "revision_id", VString target)]); (lit "revision_id", VString named)].

Lemma rollback_target target named : rollback_request_revision_id_from_json (rollback_body target named) = Ok target.
Proof.
  unfold rollback_request_revision_id_from_json, required_json_string, json_string_field, after_field, split_once_str,
    rollback_body.
  rewrite (find_seq_app _ (template "{'note':{'revision_id':") _ 9) by (vm_compute; reflexivity).
  set (rest := template "},'revision_id':" ++ json_text named ++ lit "}").
  change (ok_or (fst <$> parse_json_string_prefix (trim_start (json_text target ++ rest)))
            (malformed_json_field "revision_id") = Ok target).
  by rewrite trim_start_text, json_text_read.
Qed.

(** A rollback can be recorded under another revision.  An administrator who sends a rollback
    whose text has a [revision_id] inside another field first goes back to that one, while the intent
    and the terminal record name the [revision_id] of the document, whichever two they are. *)
Theorem rollback_recorded_as_another `{!SerdeValue} rq revision now target named :
  at_route MethodPost "/api/v1/config/rollback" rq = true → rq_body rq = rollback_body target named →
  value_from_str (rq_body rq) = Some (rollback_document target named) →
  is_ok (admin_audit_context rq (Some now)) = true → is_ok (audit_identifier_parse revision) = true →
  is_ok (audit_identifier_parse named) = true →
  rollback_request_revision_id_from_json (rq_body rq) = Ok target
  ∧ ∃ op, lifecycle_audit_operation rq revision (Some now) = Ok op ∧ po_action op = ConfigRollback
          ∧ po_target_kind op = TkConfigRevision ∧ po_target_id op = named.
Proof.
  intros Hr Hbody Hdoc Hc Hrev Hn. split; [by rewrite Hbody; apply rollback_target|].
  unfold lifecycle_audit_operation, document_string, audit_id. rewrite Hdoc, Hr.
  rewrite (route_other _ _ "/api/v1/config/apply" _ Hr) by done.
  destruct (admin_audit_context rq (Some now)) as [context|]; [|done].
  assert (Hid : ∀ v, is_ok (audit_identifier_parse v) = true → audit_identifier_parse v = Ok v).
  { intros v. unfold audit_identifier_parse. by destruct (validate_audit_identifier v). }
  rewrite (Hid revision Hrev). cbn [mbind option_bind].
  change (value_get "revision_id" (rollback_document target named)) with (Some (VString named)).
  cbn [mbind option_bind as_str]. rewrite (Hid named Hn). cbn [ok_or]. eexists. split; [reflexivity|done].
Qed.

(** ** A request that is recorded *)
Import MemoryLedger.
Definition quiet_text_of : SerdeText := λ _, [].
Definition apply_reader : SerdeValue := λ _, None.
Definition open_session : SessionStore := session_insert (session_for 1) SessionStore_default.
Definition apply_request : AdminHttpRequest :=
  {| rq_method := MethodPost; rq_path := lit "/api/v1/config/apply"; rq_request_id := lit "request-7";
     rq_session_id := Some (lit "session-1"); rq_csrf_token := Some (lit "csrf-1");
     rq_body := render_mvp_config_snapshot moved_config |}.
Notation apply_answer :=
  (@handle_audited_lifecycle_request apply_reader quiet_text_of _ _ _ _ _ _ _ _ _ _ apply_request open_session (lit "r1")
     (Some 7) (admin_side plain_store) () ([] : MemoryLedger.t) Healthy).
Lemma apply_done : rs_status_code apply_answer.1.1 = 200 ∧ length apply_answer.2.1 = 2%nat.
Proof. vm_compute. done. Qed.
Lemma admin_change_recorded_witness :
  (rs_status_code apply_answer.1.1 = 200 ∧ length apply_answer.2.1 = 2%nat)
  ∧ @admin_change_ended _ _ _ _ _ _ _ _ _ _ _ _ _ apply_reader quiet_text_of apply_request open_session (lit "r1")
      (admin_side plain_store) () ([] : MemoryLedger.t) Healthy apply_answer.
Proof.
  split; [exact apply_done|].
  exact (proj1 (@admin_change_recorded _ _ _ _ _ _ _ _ _ _ startup_admission_laws _ _ _ apply_reader quiet_text_of
                  apply_request open_session (lit "r1") (Some 7) (admin_side plain_store) () ([] : MemoryLedger.t)
                  Healthy I eq_refl)).
Defined.

Definition disguised : AdminHttpRequest :=
  {| rq_method := MethodPost; rq_path := lit "/api/v1/config/rollback"; rq_request_id := lit "request-8";
     rq_session_id := Some (lit "session-1"); rq_csrf_token := Some (lit "csrf-1");
     rq_body := rollback_body (lit "r1") (lit "r2") |}.
Definition disguised_reader : SerdeValue := λ _, Some (rollback_document (lit "r1") (lit "r2")).
Lemma rollback_recorded_as_another_witness :
  rollback_request_revision_id_from_json (rq_body disguised) = Ok (lit "r1")
  ∧ ∃ op, @lifecycle_audit_operation disguised_reader disguised (lit "r3") (Some 7) = Ok op
          ∧ po_action op = ConfigRollback ∧ po_target_kind op = TkConfigRevision ∧ po_target_id op = lit "r2".
Proof.
  exact (@rollback_recorded_as_another disguised_reader disguised (lit "r3") 7 (lit "r1") (lit "r2")
           eq_refl eq_refl eq_refl eq_refl eq_refl eq_refl).
Defined.
