(* ===== verification/Certificates.v ===== *)
(** * Certificates

    crates/edge-application/src: manual import with its state machine and compensation
    (certificate_import_state.rs, manual_certificate_import.rs), issuing and renewing with HTTP-01
    challenges (certificate_issuance.rs, http01_challenge_state.rs) and the status and renewal
    decisions (certificate_status_decision.rs).  The store, the validator of PEM material, the ACME
    client and the challenge probe are ports (edge-ports lib.rs), here classes. *)

From stdpp Require Import base gmap strings list sorting.
From Stdlib Require Import Strings.Byte NArith Lia.
From S2P Require Import Prelude Errors RustStr Endpoint UpstreamPolicy Snapshot ConfigParser ConfigStore ConfigLifecycle.
Local Open Scope N_scope.

(** ** Data and ports *)
Record StoredCertificate := {
  sc_certificate_ref : list byte;
  sc_domains : list (list byte);
  sc_not_after_epoch_seconds : N;
  sc_source : list byte;
  sc_certificate_pem : list byte;
  sc_private_key_pem : list byte
}.
#[global] Instance StoredCertificate_eq_dec : EqDecision StoredCertificate. Proof. solve_decision. Defined.
Definition masked_private_key (_ : StoredCertificate) : string := "***".
Record CertificateMaterial := { cm_certificate_pem : list byte; cm_private_key_pem : list byte }.
Record ValidatedCertificateMaterial := {
  vm_not_after_epoch_seconds : N;
  vm_dns_names : list (list byte)
}.
Class CertificateStore (S : Type) := {
  save_certificate : StoredCertificate → S → result AppError () * S;
  load_certificate : list byte → S → result AppError (option StoredCertificate) * S;
  list_certificates : S → result AppError (list StoredCertificate) * S;
  delete_certificate : list byte → S → result AppError () * S
}.
Class CertificateMaterialValidator (V : Type) :=
  validate_material : CertificateMaterial → V → result AppError ValidatedCertificateMaterial * V.

(** ** Manual import: requests and states *)
Record ManualCertificateImportRequest := {
  mi_certificate_ref : list byte;
  mi_domains : list (list byte);
  mi_fullchain_pem : list byte;
  mi_private_key_pem : list byte;
  mi_expected_not_after_epoch_seconds : option N;
  mi_request_id : list byte;
  mi_revision_id : list byte
}.
Record ManualCertificateStatus := {
  ms_certificate_ref : list byte;
  ms_domains : list (list byte);
  ms_source : list byte;
  ms_not_after_epoch_seconds : N;
  ms_private_key_masked : string
}.
Inductive CertificateImportState :=
| ImportReceived | ImportValidated | ImportStored | ImportInstallCommandSent | ImportInstalled
| ImportFailed (error_code : ErrorCode) (compensation_failed : bool).
Inductive CertificateImportEvent :=
| EvValidated | EvStored | EvInstallCommandSent | EvInstalled
| EvFailed (error_code : ErrorCode) (compensation_failed : bool).

Record ImportWorld (V S A K : Type) := { iw_validator : V; iw_store : S; iw_audit : A; iw_core : K }.
Arguments Build_ImportWorld {V S A K}.
Arguments iw_validator {V S A K}.
Arguments iw_store {V S A K}.
Arguments iw_audit {V S A K}.
Arguments iw_core {V S A K}.

Section import.
  (** The text of an invalid transition has the derived [Debug] forms of state and event. *)
  Context (debug_transition : CertificateImportState → CertificateImportEvent → string).

Definition import_transition (s : CertificateImportState) (e : CertificateImportEvent)
  : result AppError CertificateImportState :=
  match s, e with
  | ImportReceived, EvValidated => Ok ImportValidated
  | ImportValidated, EvStored => Ok ImportStored
  | ImportStored, EvInstallCommandSent => Ok ImportInstallCommandSent
  | ImportInstallCommandSent, EvInstalled => Ok ImportInstalled
  | (ImportReceived | ImportValidated | ImportStored | ImportInstallCommandSent), EvFailed code failed =>
      Ok (ImportFailed code failed)
  | s, e => Err (AppError_new InternalBug (debug_transition s e))
  end.

Record ManualCertificateImportOutcome := {
  io_status : ManualCertificateStatus;
  io_state : CertificateImportState;
  io_commands_sent : N
}.
Record ManualCertificateImportFailure := {
  if_state : CertificateImportState;
  if_error : AppError;
  if_compensation_error : option AppError
}.
Record NormalizedManualCertificateImport := {
  ni_certificate_ref : list byte;
  ni_domains : list (list byte);
  ni_material : CertificateMaterial;
  ni_expected_not_after_epoch_seconds : option N;
  ni_revision_id : list byte
}.
Definition certificate_invalid {A} (message : string) : result AppError A :=
  Err (AppError_new CertificateInvalid message).
(** The loop over the domains, with the set found so far. *)
Fixpoint normalized_domains (found : gset (list byte)) (domains : list (list byte))
  : result AppError (gset (list byte)) :=
  match domains with
  | [] => Ok found
  | domain :: rest =>
      let domain := normalize_host domain in
      if bool_decide (domain = []) || has_whitespace domain || contains_byte x2f domain || contains_byte x2a domain
      then certificate_invalid "certificate domain is invalid or unsupported"
      else normalized_domains ({[domain]} ∪ found) rest
  end.
Definition normalize_manual_certificate_import_request (r : ManualCertificateImportRequest)
  : result AppError NormalizedManualCertificateImport :=
  let certificate_ref := trim (mi_certificate_ref r) in
  if bool_decide (certificate_ref = []) then certificate_invalid "certificate_ref must not be empty"
  else if bool_decide (trim (mi_fullchain_pem r) = []) || bool_decide (trim (mi_private_key_pem r) = [])
  then certificate_invalid "certificate and private key PEM must not be empty"
  else
    let? domains := normalized_domains ∅ (mi_domains r) in
    if bool_decide (domains = ∅) then certificate_invalid "at least one certificate domain is required"
    else Ok {| ni_certificate_ref := certificate_ref; ni_domains := sort_bytes (elements domains);
               ni_material := {| cm_certificate_pem := mi_fullchain_pem r; cm_private_key_pem := mi_private_key_pem r |};
               ni_expected_not_after_epoch_seconds := mi_expected_not_after_epoch_seconds r;
               ni_revision_id := mi_revision_id r |}.

(** ** Which names a certificate is for *)
Definition normalize_certificate_dns_identity (identity : list byte) : option (list byte) :=
  let normalized := normalize_host identity in
  if bool_decide (normalized = []) || has_whitespace normalized || contains_byte x2f normalized
     || bool_decide (normalized = lit "*")
  then None
  else match strip_prefix (lit "*.") normalized with
       | Some suffix =>
           if bool_decide (suffix = []) || contains_byte x2a suffix then None
           else Some (lit "*." ++ suffix)
       | None => if contains_byte x2a normalized then None else Some normalized
       end.
Definition certificate_identity_covers_domain (identity domain : list byte) : bool :=
  match strip_prefix (lit "*.") identity with
  | Some suffix =>
      match strip_suffix (lit "." ++ suffix) domain with
      | None => false
      | Some prefix => negb (bool_decide (prefix = [])) && negb (contains_byte x2e prefix)
      end
  | None => bool_decide (identity = domain)
  end.
Definition certificate_identity_mismatch : AppError :=
  AppError_new CertificateInvalid "certificate identity does not cover declared domain".
Definition validate_declared_domains_against_certificate_identities (declared dns_names : list (list byte))
  : result AppError () :=
  if bool_decide (dns_names = []) then Err certificate_identity_mismatch
  else
    let identities := omap normalize_certificate_dns_identity dns_names in
    if bool_decide (identities = []) then Err certificate_identity_mismatch
    else if forallb (λ domain, existsb (λ identity, certificate_identity_covers_domain identity domain) identities) declared
    then Ok () else Err certificate_identity_mismatch.

(** ** Importing *)
Definition import_failure (s : CertificateImportState) (error : AppError) (compensation_error : option AppError)
  : ManualCertificateImportFailure :=
  let failed := match compensation_error with Some _ => true | None => false end in
  {| if_state := match import_transition s (EvFailed (app_code error) failed) with Ok s => s | Err _ => s end;
     if_error := error; if_compensation_error := compensation_error |}.
Definition transition_or_failure (s : CertificateImportState) (e : CertificateImportEvent)
  : result ManualCertificateImportFailure CertificateImportState :=
  match import_transition s e with
  | Ok s => Ok s
  | Err error => Err (import_failure s error None)
  end.
Definition restore_certificate {S} `{!CertificateStore S} (previous : option StoredCertificate) (ref : list byte)
  (store : S) : option AppError * S :=
  let '(r, store) := match previous with
                     | Some previous => save_certificate previous store
                     | None => delete_certificate ref store
                     end in
  (match r with Ok _ => None | Err e => Some e end, store).
(** What the validated material must still agree with. *)
Definition import_refusal (n : NormalizedManualCertificateImport) (v : ValidatedCertificateMaterial) : option AppError :=
  if (vm_not_after_epoch_seconds v =? 0)
     || match ni_expected_not_after_epoch_seconds n with
        | Some expected => negb (expected =? vm_not_after_epoch_seconds v)
        | None => false
        end
  then Some (AppError_new CertificateInvalid "certificate expiry does not match the validated leaf certificate")
  else match validate_declared_domains_against_certificate_identities (ni_domains n) (vm_dns_names v) with
       | Err e => Some e
       | Ok _ => None
       end.
Definition imported (n : NormalizedManualCertificateImport) (v : ValidatedCertificateMaterial) : StoredCertificate :=
  {| sc_certificate_ref := ni_certificate_ref n; sc_domains := ni_domains n;
     sc_not_after_epoch_seconds := vm_not_after_epoch_seconds v; sc_source := lit "manual";
     sc_certificate_pem := cm_certificate_pem (ni_material n);
     sc_private_key_pem := cm_private_key_pem (ni_material n) |}.

Definition import_manual_certificate_and_install {V S A K} `{!CertificateMaterialValidator V} `{!CertificateStore S}
  `{!AuditSink A} `{!CoreCommandClient K} (r : ManualCertificateImportRequest) (w : ImportWorld V S A K)
  : result ManualCertificateImportFailure ManualCertificateImportOutcome * ImportWorld V S A K :=
  let '(Build_ImportWorld validator store audit core) := w in
  let machine := ImportReceived in
  match normalize_manual_certificate_import_request r with
  | Err error => (Err (import_failure machine error None), w)
  | Ok normalized =>
  let '(validated, validator) := validate_material (ni_material normalized) validator in
  match validated with
  | Err error => (Err (import_failure machine error None), Build_ImportWorld validator store audit core)
  | Ok validated =>
  match import_refusal normalized validated with
  | Some error => (Err (import_failure machine error None), Build_ImportWorld validator store audit core)
  | None =>
  match transition_or_failure machine EvValidated with
  | Err f => (Err f, Build_ImportWorld validator store audit core)
  | Ok machine =>
  let certificate := imported normalized validated in
  let '(previous, store) := load_certificate (sc_certificate_ref certificate) store in
  match previous with
  | Err error => (Err (import_failure machine error None), Build_ImportWorld validator store audit core)
  | Ok previous =>
  let '(saved, store) := save_certificate certificate store in
  match saved with
  | Err error => (Err (import_failure machine error None), Build_ImportWorld validator store audit core)
  | Ok _ =>
  match transition_or_failure machine EvStored with
  | Err f => (Err f, Build_ImportWorld validator store audit core)
  | Ok machine =>
  let '(recorded, audit) :=
    audit_record {| audit_event := "certificate.import"; audit_revision_id := Some (ni_revision_id normalized) |} audit in
  match recorded with
  | Err error =>
      let '(compensation, store) := restore_certificate previous (sc_certificate_ref certificate) store in
      (Err (import_failure machine error compensation), Build_ImportWorld validator store audit core)
  | Ok _ =>
  match transition_or_failure machine EvInstallCommandSent with
  | Err f => (Err f, Build_ImportWorld validator store audit core)
  | Ok machine =>
  let '(ack, core) := core_send (InstallCertificate (sc_certificate_ref certificate)) core in
  match ack with
  | Rejected error =>
      let '(compensation, store) := restore_certificate previous (sc_certificate_ref certificate) store in
      (Err (import_failure machine error compensation), Build_ImportWorld validator store audit core)
  | Accepted =>
  match transition_or_failure machine EvInstalled with
  | Err f => (Err f, Build_ImportWorld validator store audit core)
  | Ok machine =>
      (Ok {| io_status := {| ms_certificate_ref := sc_certificate_ref certificate; ms_domains := sc_domains certificate;
                             ms_source := sc_source certificate;
                             ms_not_after_epoch_seconds := sc_not_after_epoch_seconds certificate;
                             ms_private_key_masked := masked_private_key certificate |};
             io_state := machine; io_commands_sent := 1 |},
       Build_ImportWorld validator store audit core)
  end end end end end end end end end end end.
End import.

(** ** Status and renewal *)
Record CertificateStatus := {
  cs_certificate_ref : list byte;
  cs_domains : list (list byte);
  cs_source : list byte;
  cs_expired : bool;
  cs_expiring_soon : bool;
  cs_not_after_epoch_seconds : N;
  cs_private_key_masked : string
}.
Definition certificate_status (c : StoredCertificate) (now window : N) : CertificateStatus :=
  {| cs_certificate_ref := sc_certificate_ref c; cs_domains := sc_domains c; cs_source := sc_source c;
     cs_expired := sc_not_after_epoch_seconds c <=? now;
     cs_expiring_soon := saturating_sub (sc_not_after_epoch_seconds c) now <=? window;
     cs_not_after_epoch_seconds := sc_not_after_epoch_seconds c; cs_private_key_masked := masked_private_key c |}.

Inductive RenewalDueReason : Set := RenewalExpired | RenewalInsideWindow.
Inductive RenewalSkipReason : Set := RenewalOutsideWindow.
Inductive CertificateRenewalDecision :=
| RenewalDue (certificate_ref : list byte) (domains : list (list byte)) (reason : RenewalDueReason)
| RenewalSkipped (certificate_ref : list byte) (reason : RenewalSkipReason)
| RenewalFailed (certificate_ref : list byte) (error_code : ErrorCode) (retryable : bool) (failed_attempts : N)
    (next_retry_epoch_seconds : option N).
(** [u64::saturating_mul]. *)
Definition saturating_mul (mx a b : N) : N := N.min mx (a * b).
Record RenewalRetryPolicy := { rr_max_attempts : N; rr_backoff_seconds : N }.
Definition plan_certificate_renewal (c : StoredCertificate) (now window : N) : CertificateRenewalDecision :=
  if sc_not_after_epoch_seconds c <=? now then RenewalDue (sc_certificate_ref c) (sc_domains c) RenewalExpired
  else if sc_not_after_epoch_seconds c - now <=? window
  then RenewalDue (sc_certificate_ref c) (sc_domains c) RenewalInsideWindow
  else RenewalSkipped (sc_certificate_ref c) RenewalOutsideWindow.
Definition fatal_renewal_error (code : ErrorCode) : bool :=
  match code with
  | AcmeTermsNotAccepted | ConfigProductionAcmeRequiresOptIn | CertificateNotFound => true
  | _ => false
  end.
Definition renewal_failure_decision (ref : list byte) (error : AppError) (now failed_attempts : N)
  (policy : RenewalRetryPolicy) : CertificateRenewalDecision :=
  let retryable := negb (fatal_renewal_error (app_code error)) && (failed_attempts <? rr_max_attempts policy) in
  RenewalFailed ref (app_code error) retryable failed_attempts
    (if retryable
     then Some (saturating_add U64_MAX now
                  (saturating_mul U64_MAX (rr_backoff_seconds policy) (N.max failed_attempts 1)))
     else None).

(** ** HTTP-01 challenges *)
Record Http01Token := { ht_token : list byte; ht_key_authorization : list byte }.
Record Http01TokenStore := { ht_tokens : gmap (list byte) (list byte) }.
Definition Http01TokenStore_default : Http01TokenStore := {| ht_tokens := ∅ |}.
Definition token_insert (t : Http01Token) (s : Http01TokenStore) : Http01TokenStore :=
  {| ht_tokens := <[ht_token t := ht_key_authorization t]> (ht_tokens s) |}.
Definition token_respond (token : list byte) (s : Http01TokenStore) : option (list byte) := ht_tokens s !! token.
Definition token_clear (token : list byte) (s : Http01TokenStore) : Http01TokenStore :=
  {| ht_tokens := delete token (ht_tokens s) |}.
Class Http01ChallengeStore (T : Type) := {
  respond : list byte → T → option (list byte);
  insert_http01 : list byte → list byte → T → result AppError () * T;
  clear_http01 : list byte → T → result AppError () * T
}.
Class Http01ChallengeProbe (P : Type) := verify_http01 : list byte → list byte → P → result AppError () * P.
#[global] Instance token_store : Http01ChallengeStore Http01TokenStore := {
  respond := token_respond;
  insert_http01 token key s := (Ok (), token_insert {| ht_token := token; ht_key_authorization := key |} s);
  clear_http01 token s := (Ok (), token_clear token s)
}.

Record Http01ChallengeRuntime (T P : Type) := {
  hr_challenges : T;
  hr_probe : P;
  hr_presented_tokens : list (list byte)
}.
Arguments Build_Http01ChallengeRuntime {T P}.
Arguments hr_challenges {T P}.
Arguments hr_probe {T P}.
Arguments hr_presented_tokens {T P}.

Section challenges.
  Context {T P : Type} `{!Http01ChallengeStore T} `{!Http01ChallengeProbe P}.
  Implicit Types (rt : Http01ChallengeRuntime T P).

Definition present_http01 (token key : list byte) rt : result AppError () * Http01ChallengeRuntime T P :=
  let '(r, challenges) := insert_http01 token key (hr_challenges rt) in
  (r, {| hr_challenges := challenges; hr_probe := hr_probe rt;
         hr_presented_tokens := match r with
                                | Ok _ => hr_presented_tokens rt ++ [token]
                                | Err _ => hr_presented_tokens rt
                                end |}).
Definition runtime_verify_http01 (token key : list byte) rt : result AppError () * Http01ChallengeRuntime T P :=
  let '(r, probe) := verify_http01 token key (hr_probe rt) in
  (r, {| hr_challenges := hr_challenges rt; hr_probe := probe; hr_presented_tokens := hr_presented_tokens rt |}).
(** Every token is cleared; the first error is the answer. *)
Fixpoint clear_tokens (tokens : list (list byte)) (first_error : option AppError) (challenges : T)
  : option AppError * T :=
  match tokens with
  | [] => (first_error, challenges)
  | token :: rest =>
      let '(r, challenges) := clear_http01 token challenges in
      let first_error := match r, first_error with
                         | Err e, None => Some e
                         | _, _ => first_error
                         end in
      clear_tokens rest first_error challenges
  end.
Definition clear_presented_http01 rt : result AppError () * Http01ChallengeRuntime T P :=
  let '(first_error, challenges) := clear_tokens (hr_presented_tokens rt) None (hr_challenges rt) in
  (match first_error with Some e => Err e | None => Ok () end,
   {| hr_challenges := challenges; hr_probe := hr_probe rt; hr_presented_tokens := [] |}).
End challenges.

(** ** Issuing *)
Record AcmeOrderRequest := {
  ao_domains : list (list byte);
  ao_account_email : list byte;
  ao_production : bool;
  ao_terms_accepted : bool
}.
Record AcmeOrderResult := { ar_certificate : StoredCertificate }.
(** What a client does with the challenge runtime it is given: it presents and verifies challenges,
    going on by the answers, and ends with a result. *)
Inductive AcmeRun (C : Type) :=
| AcmeDone (r : result AppError AcmeOrderResult) (c : C)
| AcmePresent (token key : list byte) (next : result AppError () → AcmeRun C)
| AcmeVerify (token key : list byte) (next : result AppError () → AcmeRun C).
Arguments AcmeDone {C}.
Arguments AcmePresent {C}.
Arguments AcmeVerify {C}.
Class AcmeClient (C : Type) := {
  issue_certificate : AcmeOrderRequest → C → result AppError AcmeOrderResult * C;
  issue_certificate_http01 : AcmeOrderRequest → C → AcmeRun C
}.
Fixpoint acme_run {C T P} `{!Http01ChallengeStore T} `{!Http01ChallengeProbe P} (run : AcmeRun C)
  (rt : Http01ChallengeRuntime T P) : result AppError AcmeOrderResult * C * Http01ChallengeRuntime T P :=
  match run with
  | AcmeDone r c => (r, c, rt)
  | AcmePresent token key next => let '(r, rt) := present_http01 token key rt in acme_run (next r) rt
  | AcmeVerify token key next => let '(r, rt) := runtime_verify_http01 token key rt in acme_run (next r) rt
  end.

Record CertificateIssuer (C S A : Type) := { ci_acme : C; ci_store : S; ci_audit : A }.
Arguments Build_CertificateIssuer {C S A}.
Arguments ci_acme {C S A}.
Arguments ci_store {C S A}.
Arguments ci_audit {C S A}.
Record CertificateRenewRequest := {
  cr_account_email : list byte;
  cr_production : bool;
  cr_terms_accepted : bool
}.
Record CertificateIssueOutcome := {
  ic_certificate_ref : list byte;
  ic_domains : list (list byte);
  ic_source : list byte;
  ic_not_after_epoch_seconds : N;
  ic_commands_sent : N
}.

Section issuing.
  Context {C S A : Type} `{!AcmeClient C} `{!CertificateStore S} `{!AuditSink A}.
  Implicit Types (i : CertificateIssuer C S A).

Definition terms_not_accepted : AppError :=
  AppError_new AcmeTermsNotAccepted "production ACME requires terms acceptance".
Definition with_target (target : option (list byte)) (c : StoredCertificate) : StoredCertificate :=
  {| sc_certificate_ref := default (sc_certificate_ref c) target; sc_domains := sc_domains c;
     sc_not_after_epoch_seconds := sc_not_after_epoch_seconds c; sc_source := sc_source c;
     sc_certificate_pem := sc_certificate_pem c; sc_private_key_pem := sc_private_key_pem c |}.
(** What follows an answer of the client: the certificate is stored, then recorded. *)
Definition keep_result (target : option (list byte)) (event : string) (r : result AppError AcmeOrderResult) i
  : result AppError AcmeOrderResult * CertificateIssuer C S A :=
  match r with
  | Err e => (Err e, i)
  | Ok result =>
      let certificate := with_target target (ar_certificate result) in
      let '(saved, store) := save_certificate certificate (ci_store i) in
      let i := {| ci_acme := ci_acme i; ci_store := store; ci_audit := ci_audit i |} in
      match saved with
      | Err e => (Err e, i)
      | Ok _ =>
          let '(recorded, audit) := audit_record {| audit_event := event; audit_revision_id := None |} (ci_audit i) in
          let i := {| ci_acme := ci_acme i; ci_store := ci_store i; ci_audit := audit |} in
          (match recorded with Err e => Err e | Ok _ => Ok {| ar_certificate := certificate |} end, i)
      end
  end.
Definition issue_with_target_ref (target : option (list byte)) (r : AcmeOrderRequest) (event : string) i
  : result AppError AcmeOrderResult * CertificateIssuer C S A :=
  if ao_production r && negb (ao_terms_accepted r) then (Err terms_not_accepted, i)
  else
    let '(answer, acme) := issue_certificate r (ci_acme i) in
    keep_result target event answer {| ci_acme := acme; ci_store := ci_store i; ci_audit := ci_audit i |}.
Definition issue_with_target_ref_and_http01 {T P} `{!Http01ChallengeStore T} `{!Http01ChallengeProbe P}
  (target : option (list byte)) (r : AcmeOrderRequest) (rt : Http01ChallengeRuntime T P) (event : string) i
  : result AppError AcmeOrderResult * CertificateIssuer C S A * Http01ChallengeRuntime T P :=
  if ao_production r && negb (ao_terms_accepted r) then (Err terms_not_accepted, i, rt)
  else
    let '(answer, acme, rt) := acme_run (issue_certificate_http01 r (ci_acme i)) rt in
    (keep_result target event answer {| ci_acme := acme; ci_store := ci_store i; ci_audit := ci_audit i |}, rt).
Definition issue (r : AcmeOrderRequest) i : result AppError AcmeOrderResult * CertificateIssuer C S A :=
  issue_with_target_ref None r "certificate.issue" i.
Definition issue_for_ref (ref : list byte) (r : AcmeOrderRequest) i
  : result AppError AcmeOrderResult * CertificateIssuer C S A :=
  issue_with_target_ref (Some ref) r "certificate.issue" i.
Definition issue_for_ref_with_http01 {T P} `{!Http01ChallengeStore T} `{!Http01ChallengeProbe P} (ref : list byte)
  (r : AcmeOrderRequest) (rt : Http01ChallengeRuntime T P) i
  : result AppError AcmeOrderResult * CertificateIssuer C S A * Http01ChallengeRuntime T P :=
  issue_with_target_ref_and_http01 (Some ref) r rt "certificate.issue" i.
Definition renew_for_ref (ref : list byte) (r : CertificateRenewRequest) i
  : result AppError AcmeOrderResult * CertificateIssuer C S A :=
  let '(existing, store) := load_certificate ref (ci_store i) in
  let i := {| ci_acme := ci_acme i; ci_store := store; ci_audit := ci_audit i |} in
  match existing with
  | Err e => (Err e, i)
  | Ok None => (Err (AppError_new CertificateNotFound (text (lit "certificate not found: " ++ ref))), i)
  | Ok (Some existing) =>
      issue_with_target_ref (Some ref)
        {| ao_domains := sc_domains existing; ao_account_email := cr_account_email r;
           ao_production := cr_production r; ao_terms_accepted := cr_terms_accepted r |} "certificate.renew" i
  end.

Definition install_certificate_result {K} `{!CoreCommandClient K} (issued : AcmeOrderResult) (core : K)
  : result AppError CertificateIssueOutcome * K :=
  let c := ar_certificate issued in
  let '(ack, core) := core_send (InstallCertificate (sc_certificate_ref c)) core in
  (match ack with
   | Accepted => Ok {| ic_certificate_ref := sc_certificate_ref c; ic_domains := sc_domains c;
                       ic_source := sc_source c; ic_not_after_epoch_seconds := sc_not_after_epoch_seconds c;
                       ic_commands_sent := 1 |}
   | Rejected e => Err e
   end, core).
(** [and_then] over the issuer and the core. *)
Definition then_install {K} `{!CoreCommandClient K} (m : result AppError AcmeOrderResult * CertificateIssuer C S A)
  (core : K) : result AppError CertificateIssueOutcome * (CertificateIssuer C S A * K) :=
  let '(r, i) := m in
  match r with
  | Err e => (Err e, (i, core))
  | Ok issued => let '(r, core) := install_certificate_result issued core in (r, (i, core))
  end.
Definition issue_certificate_for_ref_and_install {K} `{!CoreCommandClient K} (ref : list byte) (r : AcmeOrderRequest) i
  (core : K) : result AppError CertificateIssueOutcome * (CertificateIssuer C S A * K) :=
  then_install (issue_for_ref ref r i) core.
Definition renew_certificate_for_ref_and_install {K} `{!CoreCommandClient K} (ref : list byte)
  (r : CertificateRenewRequest) i (core : K)
  : result AppError CertificateIssueOutcome * (CertificateIssuer C S A * K) :=
  then_install (renew_for_ref ref r i) core.
Definition issue_certificate_for_ref_with_http01_and_install {K T P} `{!CoreCommandClient K}
  `{!Http01ChallengeStore T} `{!Http01ChallengeProbe P} (challenges : T) (probe : P) (ref : list byte)
  (r : AcmeOrderRequest) i (core : K)
  : result AppError CertificateIssueOutcome * (CertificateIssuer C S A * K) * Http01ChallengeRuntime T P :=
  let rt := Build_Http01ChallengeRuntime challenges probe [] in
  let '(issued, rt) := issue_for_ref_with_http01 ref r rt i in
  let '(outcome, world) := then_install issued core in
  let '(cleanup, rt) := clear_presented_http01 rt in
  (match outcome, cleanup with
   | Ok outcome, Ok _ => Ok outcome
   | Ok _, Err e => Err e
   | Err e, _ => Err e
   end, world, rt).
End issuing.
