(* ===== verification/CertificateFiles.v ===== *)
(** * Where certificates are kept

    The certificate stores of edge-adapters lib.rs: in memory, and in files with its metadata text;
    and the table of certificates that TLS listeners choose from.  Every call to the file system
    takes its outcome from a list chosen by nobody in particular. *)

From stdpp Require Import base gmap strings list sorting.
From Stdlib Require Import Strings.Byte NArith Lia.
From S2P Require Import Prelude Errors RustStr Endpoint UpstreamPolicy Snapshot ConfigParser ConfigRender ConfigStore ConfigLifecycle Certificates.
Local Open Scope N_scope.

(** ** The metadata text *)
Definition toml_escape_byte (b : byte) : list byte :=
  if bool_decide (b = QUOTE) then [x5c; QUOTE]
  else if bool_decide (b = x5c) then [x5c; x5c]
  else if bool_decide (b = LF) then [x5c; x6e]
  else if bool_decide (b = CR) then [x5c; x72]
  else if bool_decide (b = x09) then [x5c; x74]
  else [b].
Definition toml_escape (value : list byte) : list byte := value ≫= toml_escape_byte.
Definition metadata_string (value : list byte) : list byte := [QUOTE] ++ toml_escape value ++ [QUOTE].
Definition render_certificate_metadata (c : StoredCertificate) : list byte :=
  lit "certificate_ref = " ++ metadata_string (sc_certificate_ref c) ++ [LF]
  ++ lit "domains = [" ++ join (lit ", ") (metadata_string <$> sc_domains c) ++ lit "]" ++ [LF]
  ++ lit "not_after_epoch_seconds = " ++ print_dec (sc_not_after_epoch_seconds c) ++ [LF]
  ++ lit "source = " ++ metadata_string (sc_source c) ++ [LF].

Record CertificateMetadata := {
  md_certificate_ref : list byte;
  md_domains : list (list byte);
  md_not_after_epoch_seconds : N;
  md_source : list byte
}.
Definition certificate_metadata_error {A} (message : string) : result AppError A :=
  Err (AppError_new CertificateStoreFailed message).
Definition toml_unescape (b : byte) : option byte :=
  if bool_decide (b = QUOTE) then Some QUOTE
  else if bool_decide (b = x5c) then Some x5c
  else if bool_decide (b = x6e) then Some LF
  else if bool_decide (b = x72) then Some CR
  else if bool_decide (b = x74) then Some x09
  else None.
(** The loop over the characters between the quotation marks. *)
Fixpoint toml_chars (escaped : bool) (l : list byte) : result AppError (list byte) :=
  match l with
  | [] => if escaped then certificate_metadata_error "metadata string has trailing escape" else Ok []
  | b :: rest =>
      if escaped then
        match toml_unescape b with
        | None => certificate_metadata_error "metadata escape is invalid"
        | Some c => let? s := toml_chars false rest in Ok (c :: s)
        end
      else if bool_decide (b = x5c) then toml_chars true rest
      else let? s := toml_chars false rest in Ok (b :: s)
  end.
Definition parse_toml_string (value : list byte) : result AppError (list byte) :=
  let value := trim value in
  if negb (starts_with [QUOTE] value) || negb (ends_with [QUOTE] value) || (len value <? 2)
  then certificate_metadata_error "metadata string is invalid"
  else toml_chars false (inner value).
Fixpoint parse_toml_strings (items : list (list byte)) : result AppError (list (list byte)) :=
  match items with
  | [] => Ok []
  | item :: rest =>
      let? s := parse_toml_string (trim item) in
      let? ss := parse_toml_strings rest in
      Ok (s :: ss)
  end.
Definition parse_toml_string_array (value : list byte) : result AppError (list (list byte)) :=
  let value := trim value in
  if negb (starts_with [x5b] value) || negb (ends_with [x5d] value)
  then certificate_metadata_error "metadata array is invalid"
  else
    let inner := trim (inner value) in
    if bool_decide (inner = []) then Ok [] else parse_toml_strings (split_byte x2c inner).

(** The four variables of the loop over the lines. *)
Record MetadataDraft := {
  dr_certificate_ref : option (list byte);
  dr_domains : option (list (list byte));
  dr_not_after : option N;
  dr_source : option (list byte)
}.
Definition metadata_draft : MetadataDraft :=
  {| dr_certificate_ref := None; dr_domains := None; dr_not_after := None; dr_source := None |}.
Definition metadata_line (line : list byte) (d : MetadataDraft) : result AppError MetadataDraft :=
  let line := trim line in
  if bool_decide (line = []) then Ok d
  else match split_once EQUALS line with
  | None => certificate_metadata_error "metadata line is missing '='"
  | Some (key, value) =>
      let key := trim key in
      if bool_decide (key = lit "certificate_ref") then
        let? s := parse_toml_string (trim value) in
        Ok {| dr_certificate_ref := Some s; dr_domains := dr_domains d; dr_not_after := dr_not_after d;
              dr_source := dr_source d |}
      else if bool_decide (key = lit "domains") then
        let? ss := parse_toml_string_array (trim value) in
        Ok {| dr_certificate_ref := dr_certificate_ref d; dr_domains := Some ss; dr_not_after := dr_not_after d;
              dr_source := dr_source d |}
      else if bool_decide (key = lit "not_after_epoch_seconds") then
        match parse_uint U64_MAX (trim value) with
        | None => certificate_metadata_error "not_after_epoch_seconds must be an integer"
        | Some n => Ok {| dr_certificate_ref := dr_certificate_ref d; dr_domains := dr_domains d;
                          dr_not_after := Some n; dr_source := dr_source d |}
        end
      else if bool_decide (key = lit "source") then
        let? s := parse_toml_string (trim value) in
        Ok {| dr_certificate_ref := dr_certificate_ref d; dr_domains := dr_domains d; dr_not_after := dr_not_after d;
              dr_source := Some s |}
      else Ok d
  end.
Fixpoint metadata_lines (lines : list (list byte)) (d : MetadataDraft) : result AppError MetadataDraft :=
  match lines with
  | [] => Ok d
  | line :: rest => let? d := metadata_line line d in metadata_lines rest d
  end.
Definition parse_certificate_metadata (source : list byte) : result AppError CertificateMetadata :=
  let? d := metadata_lines (str_lines source) metadata_draft in
  let missing := λ message : string, AppError_new CertificateStoreFailed message in
  let? ref := ok_or (dr_certificate_ref d) (missing "certificate_ref is missing") in
  let? domains := ok_or (dr_domains d) (missing "domains is missing") in
  let? not_after := ok_or (dr_not_after d) (missing "not_after_epoch_seconds is missing") in
  let? source := ok_or (dr_source d) (missing "source is missing") in
  Ok {| md_certificate_ref := ref; md_domains := domains; md_not_after_epoch_seconds := not_after; md_source := source |}.

Definition plain_ref_byte (b : byte) : bool := is_ascii_alphanumeric b || bool_decide (b = x2d) || bool_decide (b = x5f).
Definition certificate_ref_dir_name (ref : list byte) : list byte :=
  if negb (bool_decide (ref = [])) && forallb plain_ref_byte ref then ref
  else lit ".ref-" ++ hex_encode ref.

(** ** The directory of certificates

    A directory per certificate, with its files; what else lies beside them is ignored by the
    store.  A call that fails may have written a part of its text; removing a directory may have
    left some of its files. *)
Inductive StoreIo :=
| StoreDone
| StoreFails (written : option nat) (stays : list byte → bool) (message : list byte).
Record CertificateDisk := {
  cd_root : bool;
  cd_dirs : gmap (list byte) (gmap (list byte) (list byte))
}.
(** [fc_blind] says of the next questions whether a path exists that they cannot be answered. *)
Record FileCertificateStore := {
  fc_disk : CertificateDisk;
  fc_outcomes : list StoreIo;
  fc_blind : list bool
}.
Definition next_store_io (w : FileCertificateStore) : StoreIo * FileCertificateStore :=
  match fc_outcomes w with
  | [] => (StoreDone, w)
  | o :: rest => (o, {| fc_disk := fc_disk w; fc_outcomes := rest; fc_blind := fc_blind w |})
  end.
(** [Path::exists] and [Path::is_dir], which answer [false] when they cannot tell. *)
Definition ask_exists (answer : CertificateDisk → bool) (w : FileCertificateStore) : bool * FileCertificateStore :=
  match fc_blind w with
  | [] => (answer (fc_disk w), w)
  | blind :: rest =>
      (negb blind && answer (fc_disk w), {| fc_disk := fc_disk w; fc_outcomes := fc_outcomes w; fc_blind := rest |})
  end.
Definition put_dirs (root : bool) (dirs : gmap (list byte) (gmap (list byte) (list byte))) (w : FileCertificateStore)
  : FileCertificateStore :=
  {| fc_disk := {| cd_root := root; cd_dirs := dirs |}; fc_outcomes := fc_outcomes w; fc_blind := fc_blind w |}.

Definition certificate_store_error (message : list byte) : AppError :=
  AppError_new CertificateStoreFailed (text message).
Definition missing_file : AppError := certificate_store_error (lit "No such file or directory (os error 2)").
Definition long_name : AppError := certificate_store_error (lit "File name too long (os error 36)").
Definition not_utf8 : AppError := certificate_store_error (lit "stream did not contain valid UTF-8").

Definition dir_exists (dir : list byte) (w : FileCertificateStore) : bool * FileCertificateStore :=
  ask_exists (λ d, bool_decide (is_Some (cd_dirs d !! dir))) w.
Definition root_exists (w : FileCertificateStore) : bool * FileCertificateStore := ask_exists cd_root w.
Definition file_exists (dir name : list byte) (w : FileCertificateStore) : bool * FileCertificateStore :=
  ask_exists (λ d, bool_decide (is_Some (cd_dirs d !! dir ≫= λ files, files !! name))) w.
Definition read_text (dir name : list byte) (w : FileCertificateStore)
  : result AppError (list byte) * FileCertificateStore :=
  match next_store_io w with
  | (StoreDone, w) =>
      (match cd_dirs (fc_disk w) !! dir ≫= λ files, files !! name with
       | Some content => if utf8_valid content then Ok content else Err not_utf8
       | None => Err missing_file
       end, w)
  | (StoreFails _ _ message, w) => (Err (certificate_store_error message), w)
  end.
Definition make_dir (dir : list byte) (w : FileCertificateStore) : result AppError () * FileCertificateStore :=
  match next_store_io w with
  | (StoreDone, w) =>
      if name_fits dir
      then (Ok (), put_dirs true (<[dir := default ∅ (cd_dirs (fc_disk w) !! dir)]> (cd_dirs (fc_disk w))) w)
      else (Err long_name, put_dirs true (cd_dirs (fc_disk w)) w)
  | (StoreFails _ _ message, w) => (Err (certificate_store_error message), w)
  end.
Definition write_text (dir name content : list byte) (w : FileCertificateStore)
  : result AppError () * FileCertificateStore :=
  let '(outcome, w) := next_store_io w in
  match cd_dirs (fc_disk w) !! dir, outcome with
  | None, _ => (Err missing_file, w)
  | Some files, StoreDone => (Ok (), put_dirs (cd_root (fc_disk w)) (<[dir := <[name := content]> files]> (cd_dirs (fc_disk w))) w)
  | Some _, StoreFails None _ message => (Err (certificate_store_error message), w)
  | Some files, StoreFails (Some n) _ message =>
      (Err (certificate_store_error message),
       put_dirs (cd_root (fc_disk w)) (<[dir := <[name := take n content]> files]> (cd_dirs (fc_disk w))) w)
  end.
Definition rename_file (dir from to : list byte) (w : FileCertificateStore)
  : result AppError () * FileCertificateStore :=
  match next_store_io w with
  | (StoreDone, w) =>
      match cd_dirs (fc_disk w) !! dir ≫= λ files, (λ content, (files, content)) <$> files !! from with
      | Some (files, content) =>
          (Ok (), put_dirs (cd_root (fc_disk w)) (<[dir := <[to := content]> (delete from files)]> (cd_dirs (fc_disk w))) w)
      | None => (Err missing_file, w)
      end
  | (StoreFails _ _ message, w) => (Err (certificate_store_error message), w)
  end.
(** [fs::set_permissions] of a temporary file; the modes themselves are not modelled. *)
Definition set_private (w : FileCertificateStore) : result AppError () * FileCertificateStore :=
  match next_store_io w with
  | (StoreDone, w) => (Ok (), w)
  | (StoreFails _ _ message, w) => (Err (certificate_store_error message), w)
  end.
Definition remove_dir (dir : list byte) (w : FileCertificateStore) : result AppError () * FileCertificateStore :=
  match next_store_io w with
  | (StoreDone, w) => (Ok (), put_dirs (cd_root (fc_disk w)) (delete dir (cd_dirs (fc_disk w))) w)
  | (StoreFails _ stays message, w) =>
      (Err (certificate_store_error message),
       put_dirs (cd_root (fc_disk w)) (alter (filter (λ f : list byte * list byte, stays f.1 = true)) dir (cd_dirs (fc_disk w))) w)
  end.

(** ** The store in files *)
Definition temp_name (name : list byte) : list byte :=
  with_extension name (default (lit "tmp") (split_extension name).2 ++ lit ".tmp").
Definition write_atomic_file (dir name content : list byte) (w : FileCertificateStore)
  : result AppError () * FileCertificateStore :=
  let! _, w := write_text dir (temp_name name) content w in
  rename_file dir (temp_name name) name w.
Definition write_atomic_private_file (dir name content : list byte) (w : FileCertificateStore)
  : result AppError () * FileCertificateStore :=
  let! _, w := write_text dir (temp_name name) content w in
  let! _, w := set_private w in
  rename_file dir (temp_name name) name w.

Definition METADATA : list byte := lit "metadata.toml".
Definition FULLCHAIN : list byte := lit "fullchain.pem".
Definition PRIVKEY : list byte := lit "privkey.pem".
Definition read_certificate_from_dir (dir : list byte) (w : FileCertificateStore)
  : result AppError StoredCertificate * FileCertificateStore :=
  let! source, w := read_text dir METADATA w in
  match parse_certificate_metadata source with
  | Err e => (Err e, w)
  | Ok metadata =>
      let! certificate_pem, w := read_text dir FULLCHAIN w in
      let! private_key_pem, w := read_text dir PRIVKEY w in
      (Ok {| sc_certificate_ref := md_certificate_ref metadata; sc_domains := md_domains metadata;
             sc_not_after_epoch_seconds := md_not_after_epoch_seconds metadata; sc_source := md_source metadata;
             sc_certificate_pem := certificate_pem; sc_private_key_pem := private_key_pem |}, w)
  end.
Definition file_save_certificate (c : StoredCertificate) (w : FileCertificateStore)
  : result AppError () * FileCertificateStore :=
  let dir := certificate_ref_dir_name (sc_certificate_ref c) in
  let! _, w := make_dir dir w in
  let! _, w := write_atomic_file dir FULLCHAIN (sc_certificate_pem c) w in
  let! _, w := write_atomic_private_file dir PRIVKEY (sc_private_key_pem c) w in
  write_atomic_file dir METADATA (render_certificate_metadata c) w.
Definition ref_mismatch (ref : list byte) (c : StoredCertificate) : AppError :=
  certificate_store_error (lit "certificate metadata ref mismatch: requested=" ++ ref ++ lit ", stored="
                           ++ sc_certificate_ref c).
Definition file_load_certificate (ref : list byte) (w : FileCertificateStore)
  : result AppError (option StoredCertificate) * FileCertificateStore :=
  let dir := certificate_ref_dir_name ref in
  let '(found, w) := dir_exists dir w in
  if negb found then (Ok None, w)
  else
    let! c, w := read_certificate_from_dir dir w in
    if negb (bool_decide (sc_certificate_ref c = ref)) then (Err (ref_mismatch ref c), w) else (Ok (Some c), w).
Fixpoint read_certificates (dirs : list (list byte)) (w : FileCertificateStore)
  : result AppError (list StoredCertificate) * FileCertificateStore :=
  match dirs with
  | [] => (Ok [], w)
  | dir :: rest =>
      let '(is_dir, w) := dir_exists dir w in
      if negb is_dir || starts_with (lit ".tmp-") dir then read_certificates rest w
      else
        let '(complete, w) := file_exists dir METADATA w in
        if negb complete then read_certificates rest w
        else
          let! c, w := read_certificate_from_dir dir w in
          let! cs, w := read_certificates rest w in
          (Ok (c :: cs), w)
  end.
Definition ref_le (a b : StoredCertificate) : Prop := bytes_le (sc_certificate_ref a) (sc_certificate_ref b).
#[global] Instance ref_le_dec : RelDecision ref_le.
Proof. intros a b. unfold ref_le. apply _. Defined.
Definition file_list_certificates (w : FileCertificateStore)
  : result AppError (list StoredCertificate) * FileCertificateStore :=
  let '(found, w) := root_exists w in
  if negb found then (Ok [], w)
  else match next_store_io w with
       | (StoreFails _ _ message, w) => (Err (certificate_store_error message), w)
       | (StoreDone, w) =>
           let! cs, w := read_certificates (sort_bytes (map_to_list (cd_dirs (fc_disk w))).*1) w in
           (Ok (merge_sort ref_le cs), w)
       end.
Definition file_delete_certificate (ref : list byte) (w : FileCertificateStore)
  : result AppError () * FileCertificateStore :=
  let dir := certificate_ref_dir_name ref in
  let '(found, w) := dir_exists dir w in
  if negb found then (Ok (), w) else remove_dir dir w.
#[global] Instance file_certificates : CertificateStore FileCertificateStore := {
  save_certificate := file_save_certificate;
  load_certificate := file_load_certificate;
  list_certificates := file_list_certificates;
  delete_certificate := file_delete_certificate
}.

(** ** The store in memory *)
Record MemoryCertificateStore := { mc_certificates : list StoredCertificate }.
Definition other_certificates (ref : list byte) (cs : list StoredCertificate) : list StoredCertificate :=
  List.filter (λ c, negb (bool_decide (sc_certificate_ref c = ref))) cs.
#[global] Instance memory_certificates : CertificateStore MemoryCertificateStore := {
  save_certificate c m :=
    (Ok (), {| mc_certificates := other_certificates (sc_certificate_ref c) (mc_certificates m) ++ [c] |});
  load_certificate ref m :=
    (Ok (List.find (λ c, bool_decide (sc_certificate_ref c = ref)) (mc_certificates m)), m);
  list_certificates m := (Ok (mc_certificates m), m);
  delete_certificate ref m := (Ok (), {| mc_certificates := other_certificates ref (mc_certificates m) |})
}.

(** ** Certificates of a TLS listener *)
(** [rustls::ServerConfig] and [CertifiedKey] are types of another library. *)
Record LoadedRustlsServerConfig (X Y : Type) := {
  lr_certificate_ref : list byte;
  lr_domains : list (list byte);
  lr_server_config : X;
  lr_certified_key : Y
}.
Arguments lr_certificate_ref {X Y}.
Arguments lr_domains {X Y}.
Arguments lr_server_config {X Y}.
Arguments lr_certified_key {X Y}.
Record TlsRuntimeSnapshot (X Y : Type) := {
  ts_configs : gmap (list byte) (LoadedRustlsServerConfig X Y);
  ts_certificate_refs_by_hostname : gmap (list byte) (list byte);
  ts_default_certificate_ref : list byte
}.
Arguments Build_TlsRuntimeSnapshot {X Y}.
Arguments ts_configs {X Y}.
Arguments ts_certificate_refs_by_hostname {X Y}.
Arguments ts_default_certificate_ref {X Y}.

Definition normalize_tls_hostname (hostname : list byte) : option (list byte) :=
  let normalized := to_ascii_lowercase (trim_end_matches x2e (trim hostname)) in
  if bool_decide (normalized = []) then None else Some normalized.
Definition duplicate_hostname (hostname existing ref : list byte) : AppError :=
  certificate_store_error (lit "duplicate TLS SNI hostname " ++ hostname ++ lit " for certificate refs " ++ existing
                           ++ lit " and " ++ ref).
(** The loop over the domains of one certificate; both users of it go on with the map. *)
Fixpoint claim_hostnames (ref : list byte) (domains : list (list byte)) (m : gmap (list byte) (list byte))
  : result AppError (gmap (list byte) (list byte)) :=
  match domains with
  | [] => Ok m
  | domain :: rest =>
      match normalize_tls_hostname domain with
      | None => claim_hostnames ref rest m
      | Some hostname =>
          match m !! hostname with
          | Some existing => Err (duplicate_hostname hostname existing ref)
          | None => claim_hostnames ref rest (<[hostname := ref]> m)
          end
      end
  end.
Section listener.
  Context {X Y : Type}.
  Implicit Types (c : LoadedRustlsServerConfig X Y) (t : TlsRuntimeSnapshot X Y).

Fixpoint claim_configs (configs : list (LoadedRustlsServerConfig X Y))
  (by_ref : gmap (list byte) (LoadedRustlsServerConfig X Y)) (by_hostname : gmap (list byte) (list byte))
  : result AppError (gmap (list byte) (LoadedRustlsServerConfig X Y) * gmap (list byte) (list byte)) :=
  match configs with
  | [] => Ok (by_ref, by_hostname)
  | c :: rest =>
      let ref := lr_certificate_ref c in
      let? by_hostname := claim_hostnames ref (lr_domains c) by_hostname in
      match by_ref !! ref with
      | Some _ =>
          Err (certificate_store_error (lit "duplicate loaded TLS certificate config: " ++ ref))
      | None => claim_configs rest (<[ref := c]> by_ref) by_hostname
      end
  end.
(** [BTreeMap::keys().next()]. *)
Definition first_key {V} (m : gmap (list byte) V) : option (list byte) := head (sort_bytes (map_to_list m).*1).
Definition tls_from_configs (configs : list (LoadedRustlsServerConfig X Y))
  : result AppError (TlsRuntimeSnapshot X Y) :=
  let? (by_ref, by_hostname) := claim_configs configs ∅ ∅ in
  let? default_ref := ok_or (first_key by_ref)
    (AppError_new CertificateNotFound "TLS runtime snapshot requires at least one certificate config") in
  Ok {| ts_configs := by_ref; ts_certificate_refs_by_hostname := by_hostname; ts_default_certificate_ref := default_ref |}.
(** [expect] on the entry of the default certificate. *)
Definition default_config t : option (LoadedRustlsServerConfig X Y) := ts_configs t !! ts_default_certificate_ref t.
Definition tls_get (ref : list byte) t : option (LoadedRustlsServerConfig X Y) := ts_configs t !! ref.
Definition replace_config c t : result AppError () * TlsRuntimeSnapshot X Y :=
  let ref := lr_certificate_ref c in
  let kept := filter (λ e : list byte * list byte, e.2 ≠ ref) (ts_certificate_refs_by_hostname t) in
  match claim_hostnames ref (lr_domains c) kept with
  | Err e => (Err e, t)
  | Ok next =>
      (Ok (), {| ts_configs := <[ref := c]> (ts_configs t); ts_certificate_refs_by_hostname := next;
                 ts_default_certificate_ref := ts_default_certificate_ref t |})
  end.
Definition select_certificate_ref_for_sni (server_name : list byte) t : option (list byte) :=
  hostname ← normalize_tls_hostname server_name; ts_certificate_refs_by_hostname t !! hostname.
(** The keys by host name, as [resolve] of the listener uses them; the map is read in order. *)
Fixpoint collect_keys t (entries : list (list byte * list byte)) (keys : gmap (list byte) Y)
  : result AppError (gmap (list byte) Y) :=
  match entries with
  | [] => Ok keys
  | (hostname, ref) :: rest =>
      match ts_configs t !! ref with
      | None => Err (certificate_store_error (lit "TLS SNI hostname " ++ hostname
                       ++ lit " references missing certificate " ++ ref))
      | Some c => collect_keys t rest (<[hostname := lr_certified_key c]> keys)
      end
  end.
Definition certified_keys_by_hostname t : result AppError (gmap (list byte) Y) :=
  let m := ts_certificate_refs_by_hostname t in
  collect_keys t (omap (λ hostname, pair hostname <$> m !! hostname) (sort_bytes (map_to_list m).*1)) ∅.
Definition resolve (server_name : option (list byte)) (keys : gmap (list byte) Y) : option Y :=
  name ← server_name; hostname ← normalize_tls_hostname name; keys !! hostname.
End listener.
