(* ===== verification/CertificateProofs.v ===== *)
(** * What certificates are kept, shown and served

    Over any store that keeps its laws: a manual import is done as a whole, undone, or reported as
    not undone; challenges never outlive the order they were for; a TLS listener serves for a name
    the one certificate that lists it.  The store in files keeps the laws, and one of its failures
    shows what they leave open. *)

From stdpp Require Import base gmap strings list sorting.
From Stdlib Require Import Strings.Byte NArith Lia.
From S2P Require Import Prelude Errors RustStr Endpoint UpstreamPolicy Snapshot ConfigParser ConfigRender ConfigStore ConfigLifecycle Certificates CertificateFiles.
Local Open Scope N_scope.

(** ** Laws of a store *)
(** What the store holds under a name.  A certificate is storable when saving it and reading it back
    is promised; a steady store can tell whether it has a certificate. *)
Class CertificateStoreLaws (S : Type) `{!CertificateStore S} := {
  held : S → list byte → option StoredCertificate;
  storable : StoredCertificate → Prop;
  steady : S → Prop;
  load_reads : ∀ ref s r s', steady s → load_certificate ref s = (r, s') →
    steady s' ∧ held s' = held s
    ∧ match r with
      | Ok found => found = held s ref ∧ ∀ c, found = Some c → sc_certificate_ref c = ref
      | Err _ => True
      end;
  save_writes : ∀ c s r s', storable c → steady s → save_certificate c s = (r, s') →
    steady s' ∧ (∀ ref, ref ≠ sc_certificate_ref c → held s' ref = held s ref)
    ∧ match r with Ok _ => held s' (sc_certificate_ref c) = Some c | Err _ => True end;
  delete_removes : ∀ ref s r s', steady s → delete_certificate ref s = (r, s') →
    steady s' ∧ (∀ other, other ≠ ref → held s' other = held s other)
    ∧ match r with Ok _ => held s' ref = None | Err _ => True end
}.

(** The store in memory. *)
Lemma find_other ref other (cs : list StoredCertificate) :
  other ≠ ref →
  List.find (λ c, bool_decide (sc_certificate_ref c = other)) (other_certificates ref cs)
  = List.find (λ c, bool_decide (sc_certificate_ref c = other)) cs.
Proof.
  intros Hne. unfold other_certificates. induction cs as [|c cs IH]; [done|]. cbn.
  destruct (bool_decide (sc_certificate_ref c = ref)) eqn:E; cbn; rewrite IH; [|done].
  apply bool_decide_eq_true in E. by rewrite (bool_decide_eq_false_2 (_ = other)) by congruence.
Qed.
Lemma find_removed ref (cs : list StoredCertificate) :
  List.find (λ c, bool_decide (sc_certificate_ref c = ref)) (other_certificates ref cs) = None.
Proof.
  unfold other_certificates. induction cs as [|c cs IH]; [done|]. cbn. case_bool_decide; cbn; [done|].
  by rewrite bool_decide_eq_false_2.
Qed.
Lemma find_snoc (p : StoredCertificate → bool) cs c :
  List.find p (cs ++ [c]) = match List.find p cs with Some x => Some x | None => if p c then Some c else None end.
Proof. induction cs as [|x cs IH]; [done|]. cbn. by destruct (p x). Qed.
#[global, program] Instance memory_certificate_laws : CertificateStoreLaws MemoryCertificateStore := {
  held m ref := List.find (λ c, bool_decide (sc_certificate_ref c = ref)) (mc_certificates m);
  storable _ := True; steady _ := True
}.
Next Obligation.
  intros ref s r s' _ [= <- <-]. split_and!; try done. intros c [_ Hc]%find_some. by apply bool_decide_eq_true in Hc.
Qed.
Next Obligation.
  intros c s r s' _ _ [= <- <-]. cbn. split_and!; [done|..].
  - intros ref Hne. rewrite find_snoc, find_other, (bool_decide_eq_false_2 (_ = ref)) by done. by destruct (List.find _ _).
  - rewrite find_snoc, find_removed. by rewrite bool_decide_eq_true_2.
Qed.
Next Obligation.
  intros ref s r s' _ [= <- <-]. cbn. split_and!; [done|..].
  - intros other Hne. by apply find_other.
  - apply find_removed.
Qed.

Section importing.
  Context {V S A K : Type} `{!CertificateMaterialValidator V} `{!CertificateStore S} `{!CertificateStoreLaws S}.
  Context `{!AuditSink A} `{!CoreCommandClient K}.
  Context (debug : CertificateImportState → CertificateImportEvent → string).
  Implicit Types (w : ImportWorld V S A K) (r : ManualCertificateImportRequest).
  Abbreviation import := (import_manual_certificate_and_install debug).

Lemma restore_ends (previous : option StoredCertificate) ref (s s' : S) error :
  steady s → (∀ c, previous = Some c → storable c ∧ sc_certificate_ref c = ref) →
  restore_certificate previous ref s = (error, s') →
  (∀ other, other ≠ ref → held s' other = held s other) ∧ (error = None → held s' ref = previous).
Proof.
  intros Hs0 Hp. unfold restore_certificate. destruct previous as [c|].
  - destruct (Hp c eq_refl) as [Hs Href]. destruct (save_certificate c s) as [[[]|e] s1] eqn:E; intros [= <- <-];
      destruct (save_writes _ _ _ _ Hs Hs0 E) as (_ & Ho & Hw); rewrite Href in *; by split.
  - destruct (delete_certificate ref s) as [[[]|e] s1] eqn:E; intros [= <- <-]; destruct (delete_removes _ _ _ _ Hs0 E) as (_ & Ho & Hw); by split.
Qed.

(** What an import that was accepted had agreed on. *)
Definition import_agreed r (n : NormalizedManualCertificateImport) (v : ValidatedCertificateMaterial) : Prop :=
  normalize_manual_certificate_import_request r = Ok n
  ∧ (∀ expected, ni_expected_not_after_epoch_seconds n = Some expected → expected = vm_not_after_epoch_seconds v)
  ∧ vm_not_after_epoch_seconds v ≠ 0
  ∧ ∀ domain, domain ∈ ni_domains n →
      ∃ name identity, name ∈ vm_dns_names v ∧ normalize_certificate_dns_identity name = Some identity
                       ∧ certificate_identity_covers_domain identity domain = true.
Lemma no_refusal r n v :
  normalize_manual_certificate_import_request r = Ok n → import_refusal n v = None → import_agreed r n v.
Proof.
  intros Hn. unfold import_refusal. destruct (_ || _) eqn:Ex; [done|]. apply orb_false_iff in Ex as [Hz He].
  destruct (validate_declared_domains_against_certificate_identities _ _) eqn:Ed; [|done]. intros _. split_and!.
  - done.
  - intros expected Hex. rewrite Hex in He. by apply negb_false_iff, N.eqb_eq in He.
  - by apply N.eqb_neq.
  - intros domain Hin. unfold validate_declared_domains_against_certificate_identities in Ed.
    repeat case_bool_decide; [done..|]. destruct (forallb _ _) eqn:Ef; [|done].
    apply list_elem_of_In in Hin. apply (proj1 (forallb_forall _ _) Ef) in Hin.
    apply existsb_exists in Hin as (identity & Hi & Hc). apply list_elem_of_In, list_elem_of_omap in Hi as (name & Hname & Hid).
    by exists name, identity.
Qed.

(** Why an import was refused before it stored anything. *)
Definition refused_because r w (error : AppError) : Prop :=
  normalize_manual_certificate_import_request r = Err error
  ∨ ∃ n, normalize_manual_certificate_import_request r = Ok n
    ∧ ((validate_material (ni_material n) (iw_validator w)).1 = Err error
       ∨ ∃ v, (validate_material (ni_material n) (iw_validator w)).1 = Ok v
         ∧ (import_refusal n v = Some error ∨ (load_certificate (ni_certificate_ref n) (iw_store w)).1 = Err error)).
(** What follows storing. *)
Definition import_record (n : NormalizedManualCertificateImport) : AuditEvent :=
  {| audit_event := "certificate.import"; audit_revision_id := Some (ni_revision_id n) |}.
Definition failed_after_storing w (n : NormalizedManualCertificateImport) (error : AppError) : Prop :=
  (audit_record (import_record n) (iw_audit w)).1 = Err error
  ∨ (audit_record (import_record n) (iw_audit w)).1 = Ok ()
    ∧ (core_send (InstallCertificate (ni_certificate_ref n)) (iw_core w)).1 = Rejected error.
Definition others_kept w (n : NormalizedManualCertificateImport) w' : Prop :=
  ∀ ref, ref ≠ ni_certificate_ref n → held (iw_store w') ref = held (iw_store w) ref.

(** How an import ends. *)
Inductive import_ended r w : result ManualCertificateImportFailure ManualCertificateImportOutcome → ImportWorld V S A K → Prop :=
| import_refused e w' :
    refused_because r w (if_error e) →
    if_state e = ImportFailed (app_code (if_error e)) false → if_compensation_error e = None →
    held (iw_store w') = held (iw_store w) → iw_audit w' = iw_audit w → iw_core w' = iw_core w →
    import_ended r w (Err e) w'
| import_unsaved n v e loaded w' :
    import_agreed r n v → held loaded = held (iw_store w) →
    save_certificate (imported n v) loaded = (Err (if_error e), iw_store w') →
    if_state e = ImportFailed (app_code (if_error e)) false → if_compensation_error e = None →
    others_kept w n w' → iw_audit w' = iw_audit w → iw_core w' = iw_core w → import_ended r w (Err e) w'
| import_undone n v e w' :
    import_agreed r n v → failed_after_storing w n (if_error e) →
    if_state e = ImportFailed (app_code (if_error e)) false → if_compensation_error e = None →
    (∀ ref, held (iw_store w') ref = held (iw_store w) ref) → import_ended r w (Err e) w'
| import_not_undone n v e err w' :
    import_agreed r n v → failed_after_storing w n (if_error e) →
    if_state e = ImportFailed (app_code (if_error e)) true → if_compensation_error e = Some err →
    others_kept w n w' → import_ended r w (Err e) w'
| import_done n v out w' :
    import_agreed r n v → io_state out = ImportInstalled → io_commands_sent out = 1 →
    held (iw_store w') (ni_certificate_ref n) = Some (imported n v) → others_kept w n w' →
    audit_record (import_record n) (iw_audit w) = (Ok (), iw_audit w') →
    core_send (InstallCertificate (ni_certificate_ref n)) (iw_core w) = (Accepted, iw_core w') →
    import_ended r w (Ok out) w'.

(** C18: A manual import is done, undone, or says that it was not undone.  Over any lawful store that
    can tell what it holds, that keeps the imported certificate as it is given and can save again those it
    has, and any validator, audit sink and core: it ends installed, with
    the certificate stored under its name, the audit record written and the core told to install it,
    only when the expiry and every declared domain agree with the validated material; when it is
    refused, the store, the audit trail and the core are as they were; when recording it or the core
    fails after it was stored, the store is as it was, or the failure names the error of the
    compensation; when saving itself fails, and only then, the certificate under its own name is left
    as the failed call left it, without compensation.  No other certificate ever changes, and every
    failure carries the error of the check or port that failed, in the failed state with its code: the
    state machine is never asked for a transition it lacks. *)
Theorem import_done_or_undone r w :
  (∀ n v, import_agreed r n v → storable (imported n v)) →
  (∀ ref c, held (iw_store w) ref = Some c → storable c) → steady (iw_store w) →
  import_ended r w (import r w).1 (import r w).2.
Proof.
  intros Hst Hkept Hs0. destruct w as [vd st au co]. unfold import_manual_certificate_and_install.
  destruct (normalize_manual_certificate_import_request r) as [n|e] eqn:En; [|apply import_refused; by try left].
  assert (Hno : ∀ e, refused_because r (Build_ImportWorld vd st au co) e ↔
    ((validate_material (ni_material n) vd).1 = Err e
       ∨ ∃ v, (validate_material (ni_material n) vd).1 = Ok v
         ∧ (import_refusal n v = Some e ∨ (load_certificate (ni_certificate_ref n) st).1 = Err e))).
  { intros e. split; [intros [?|(n' & E & ?)]; [congruence|]|intros ?; right; by exists n]. rewrite En in E. by injection E as <-. }
  destruct (validate_material (ni_material n) vd) as [[v|e] vd'] eqn:Ev; [|apply import_refused; try done; by apply Hno; left].
  destruct (import_refusal n v) as [e|] eqn:Er; [apply import_refused; try done; apply Hno; right; exists v; by auto|].
  pose proof (no_refusal r n v En Er) as Hag. specialize (Hst n v Hag). cbn [transition_or_failure import_transition].
  destruct (load_certificate _ st) as [[previous|e] st1] eqn:El; apply load_reads in El as El'; try done;
    destruct El' as (Hs1 & Hh1 & Hprev);
    [|apply import_refused; try done; apply Hno; right; exists v; split; [done|]; by right].
  clear Hno. destruct Hprev as [Hprev Href].
  assert (Hps : ∀ c, previous = Some c → storable c ∧ sc_certificate_ref c = ni_certificate_ref n).
  { intros c Hc. split; [|by apply Href]. apply (Hkept (ni_certificate_ref n)). cbn. rewrite <-Hc. by rewrite Hprev. }
  destruct (save_certificate (imported n v) st1) as [[[]|e] st2] eqn:Es;
    destruct (save_writes _ _ _ _ Hst Hs1 Es) as (Hs2 & Ho & Hw); cbn [imported sc_certificate_ref] in *.
  2: { apply (import_unsaved r _ n v _ st1); try done. intros ref Hne. cbn. by rewrite Ho, Hh1. }
  cbn [transition_or_failure import_transition].
  assert (Hback : ∀ e error st3 au' co', restore_certificate previous (ni_certificate_ref n) st2 = (error, st3) →
            failed_after_storing (Build_ImportWorld vd st au co) n e →
            import_ended r (Build_ImportWorld vd st au co)
              (Err {| if_state := ImportFailed (app_code e) (match error with Some _ => true | None => false end);
                      if_error := e; if_compensation_error := error |}) (Build_ImportWorld vd' st3 au' co')).
  { intros e error st3 au' co' Hre Hfail. destruct (restore_ends _ _ _ _ _ Hs2 Hps Hre) as [Hoth Hself].
    assert (Hne : ∀ ref, ref ≠ ni_certificate_ref n → held st3 ref = held st ref).
    { intros ref Hne. by rewrite Hoth, Ho, Hh1. }
    destruct error as [err|]; [by apply (import_not_undone r _ n v _ err)|]. apply (import_undone r _ n v); try done.
    intros ref. cbn. destruct (decide (ref = ni_certificate_ref n)) as [->|]; [|by apply Hne]. by rewrite Hself, Hprev. }
  change {| audit_event := _; audit_revision_id := _ |} with (import_record n).
  destruct (audit_record (import_record n) au) as [[[]|e] au'] eqn:Ea.
  2: { destruct (restore_certificate _ _ st2) as [error st3] eqn:Ere. apply Hback; [done|]. left. cbn. by rewrite Ea. }
  cbn [transition_or_failure import_transition].
  destruct (core_send _ co) as [[|e] co'] eqn:Ec; cbn [transition_or_failure import_transition].
  - apply (import_done r _ n v); try done. intros ref Hne. cbn. by rewrite Ho, Hh1.
  - destruct (restore_certificate _ _ st2) as [error st3] eqn:Ere. apply Hback; [done|]. right. cbn. by rewrite Ea, Ec.
Qed.
End importing.

(** ** Challenges *)
(** Laws of a challenge store: a token answers with what was put for it until it is cleared. *)
Class ChallengeStoreLaws (T : Type) `{!Http01ChallengeStore T} : Prop := {
  insert_answers : ∀ token key t r t', insert_http01 token key t = (r, t') →
    match r with
    | Ok _ => respond token t' = Some key ∧ ∀ other, other ≠ token → respond other t' = respond other t
    | Err _ => ∀ other, respond other t' = respond other t
    end;
  clear_answers : ∀ token t r t', clear_http01 token t = (r, t') →
    (∀ other, other ≠ token → respond other t' = respond other t)
    ∧ match r with Ok _ => respond token t' = None | Err _ => respond token t' = respond token t end
}.
#[global] Instance token_store_laws : ChallengeStoreLaws Http01TokenStore.
Proof.
  split.
  - intros token key t r t' [= <- <-]. cbn. unfold token_respond. cbn. split; [by rewrite lookup_insert_eq|].
    intros other Hne. by rewrite lookup_insert_ne.
  - intros token t r t' [= <- <-]. cbn. unfold token_respond. cbn. split; [|by rewrite lookup_delete_eq].
    intros other Hne. by rewrite lookup_delete_ne.
Qed.

Section challenges.
  Context {T P : Type} `{!Http01ChallengeStore T} `{!ChallengeStoreLaws T} `{!Http01ChallengeProbe P}.

(** Only what a run presented is answered differently after it. *)
Definition presented_only (t : T) (rt : Http01ChallengeRuntime T P) : Prop :=
  ∀ token, token ∉ hr_presented_tokens rt → respond token (hr_challenges rt) = respond token t.
Lemma acme_run_presents {C} (run : AcmeRun C) (t : T) (rt : Http01ChallengeRuntime T P) :
  presented_only t rt → presented_only t (acme_run run rt).2.
Proof.
  revert rt. induction run as [r c|token key next IH|token key next IH]; intros rt Ht; [done|..]; cbn [acme_run].
  - unfold present_http01. destruct (insert_http01 token key (hr_challenges rt)) as [r ch] eqn:E.
    apply IH. intros other Ho. apply insert_answers in E. destruct r as [[]|e]; cbn in *.
    + rewrite not_elem_of_app in Ho. destruct Ho as [Ho Hne]. destruct E as [_ E].
      rewrite E by (intros ->; apply Hne; by left). by apply Ht.
    + rewrite E. by apply Ht.
  - unfold runtime_verify_http01. destruct (verify_http01 token key (hr_probe rt)) as [r p]. apply IH. exact Ht.
Qed.
Lemma clear_tokens_ends tokens (first : option AppError) (t : T) error t' :
  clear_tokens tokens first t = (error, t') →
  (∀ token, token ∉ tokens → respond token t' = respond token t)
  ∧ (error = None → first = None ∧ ∀ token, token ∈ tokens → respond token t' = None).
Proof.
  revert first t. induction tokens as [|token tokens IH]; intros first t; cbn [clear_tokens].
  { intros [= <- <-]. split; [done|]. intros ->. split; [done|]. intros token Hin. by apply not_elem_of_nil in Hin. }
  destruct (clear_http01 token t) as [r t1] eqn:Ec. apply clear_answers in Ec as [Hother Hself].
  intros [Ho He]%IH. split.
  - intros x Hx. apply not_elem_of_cons in Hx as [Hne Hx]. rewrite Ho by done. by apply Hother.
  - intros Herr. destruct (He Herr) as [Hf Hall]. destruct r as [[]|e]; [|by destruct first].
    split; [done|]. intros x Hx. destruct (decide (x ∈ tokens)); [by apply Hall|].
    apply elem_of_cons in Hx as [->|?]; [|done]. by rewrite Ho.
Qed.

(** No challenge outlives its order.  Whatever the client presents and verifies, whatever the
    answers, and however the order ends, afterwards the store answers for a token either as it did
    before or, when it was presented and could be cleared, not at all; the presented tokens of the
    runtime are empty, and when a token could not be cleared the order does not succeed. *)
Theorem challenges_cleared {C S A K} `{!AcmeClient C} `{!CertificateStore S} `{!AuditSink A} `{!CoreCommandClient K}
  (t : T) (p : P) ref r (i : CertificateIssuer C S A) (core : K) :
  let '(outcome, _, rt) := issue_certificate_for_ref_with_http01_and_install t p ref r i core in
  let presented := hr_presented_tokens
    (if ao_production r && negb (ao_terms_accepted r) then Build_Http01ChallengeRuntime t p []
     else (acme_run (issue_certificate_http01 r (ci_acme i)) (Build_Http01ChallengeRuntime t p [])).2) in
  hr_presented_tokens rt = []
  ∧ (∀ token, token ∉ presented → respond token (hr_challenges rt) = respond token t)
  ∧ (is_ok outcome = true → ∀ token, token ∈ presented → respond token (hr_challenges rt) = None).
Proof.
  unfold issue_certificate_for_ref_with_http01_and_install, issue_for_ref_with_http01, issue_with_target_ref_and_http01.
  set (rt0 := Build_Http01ChallengeRuntime t p []).
  assert (H0 : presented_only t rt0) by done.
  destruct (ao_production r && negb (ao_terms_accepted r)); cbn [then_install].
  { cbn. split_and!; [done|done|]. intros _ token Hin. by apply not_elem_of_nil in Hin. }
  pose proof (acme_run_presents (issue_certificate_http01 r (ci_acme i)) t rt0 H0) as Hrun.
  destruct (acme_run _ rt0) as [[answer acme] rt1]. cbn [snd] in *.
  destruct (then_install _ core) as [outcome world]. unfold clear_presented_http01.
  destruct (clear_tokens (hr_presented_tokens rt1) None (hr_challenges rt1)) as [error ch] eqn:Ec.
  apply clear_tokens_ends in Ec as [Ho He]. cbn [hr_presented_tokens hr_challenges]. split_and!; [done|..].
  - intros token Hin. rewrite Ho by done. by apply Hrun.
  - intros Hok token Hin. apply He; [|done]. destruct error; [|done]. by destruct outcome.
Qed.
End challenges.

(** ** Certificates by name *)
Section listener.
  Context {X Y : Type}.
  Implicit Types (c : LoadedRustlsServerConfig X Y) (t : TlsRuntimeSnapshot X Y).

Definition hostnames c : list (list byte) := omap normalize_tls_hostname (lr_domains c).
Lemma claim_hostnames_ends ref domains m m' :
  claim_hostnames ref domains m = Ok m' →
  (∀ h, h ∈ omap normalize_tls_hostname domains → m !! h = None ∧ m' !! h = Some ref)
  ∧ ∀ h, h ∉ omap normalize_tls_hostname domains → m' !! h = m !! h.
Proof.
  revert m. induction domains as [|d domains IH]; intros m; cbn [claim_hostnames].
  { intros [= <-]. split; [|done]. intros h Hh. by apply not_elem_of_nil in Hh. }
  cbn [omap list_omap]. destruct (normalize_tls_hostname d) as [x|]; [|apply IH].
  destruct (m !! x) as [e|] eqn:Ex; [done|]. intros [Hin Hout]%IH. split.
  - intros h [->|Hh]%elem_of_cons.
    + split; [done|]. destruct (decide (x ∈ omap normalize_tls_hostname domains)) as [Hx|Hx]; [by apply Hin|].
      rewrite Hout by done. apply lookup_insert_eq.
    + destruct (Hin h Hh) as [Hn ->]. split; [|done]. apply lookup_insert_None in Hn as [? _]. done.
  - intros h [Hne Hh]%not_elem_of_cons. rewrite Hout by done. by rewrite lookup_insert_ne.
Qed.

(** The two maps say the same: a host name leads to the certificate that lists it. *)
Record tables_agree (configs : gmap (list byte) (LoadedRustlsServerConfig X Y)) (refs : gmap (list byte) (list byte)) : Prop := {
  names_lead : ∀ h ref, refs !! h = Some ref → ∃ c, configs !! ref = Some c ∧ h ∈ hostnames c;
  names_listed : ∀ ref c, configs !! ref = Some c → lr_certificate_ref c = ref ∧ ∀ h, h ∈ hostnames c → refs !! h = Some ref
}.
Lemma agree_add configs refs c refs' :
  tables_agree configs refs → (∀ h ref, refs !! h = Some ref → ref ≠ lr_certificate_ref c) →
  claim_hostnames (lr_certificate_ref c) (lr_domains c) refs = Ok refs' →
  tables_agree (<[lr_certificate_ref c := c]> configs) refs'.
Proof.
  intros [Hl Hd] Hfree [Hin Hout]%claim_hostnames_ends. split.
  - intros h ref Hh. destruct (decide (h ∈ hostnames c)) as [Hc|Hc].
    + destruct (Hin h Hc) as [_ Heq]. rewrite Heq in Hh. injection Hh as <-. exists c. by rewrite lookup_insert_eq.
    + rewrite Hout in Hh by done. destruct (Hl h ref Hh) as (c' & Hc' & Hh'). exists c'.
      rewrite lookup_insert_ne; [done|]. intros Heq. by apply (Hfree h ref Hh).
  - intros ref c' [[<- <-]|[Hne Hc']]%lookup_insert_Some.
    + split; [done|]. intros h Hh. by apply Hin.
    + destruct (Hd ref c' Hc') as [Href Hh]. split; [done|]. intros h Hin'. specialize (Hh h Hin').
      destruct (decide (h ∈ hostnames c)) as [Hc|Hc]; [|by rewrite Hout].
      destruct (Hin h Hc) as [Hnone _]. congruence.
Qed.
Definition listener_ok t : Prop :=
  tables_agree (ts_configs t) (ts_certificate_refs_by_hostname t) ∧ is_Some (default_config t).

Lemma claim_configs_agree configs by_ref by_hostname out :
  tables_agree by_ref by_hostname → claim_configs configs by_ref by_hostname = Ok out → tables_agree out.1 out.2.
Proof.
  revert by_ref by_hostname. induction configs as [|c configs IH]; intros by_ref by_hostname Ha; cbn [claim_configs].
  { by intros [= <-]. }
  destruct (claim_hostnames _ _ by_hostname) as [next|e] eqn:Ec; [|done].
  destruct (by_ref !! lr_certificate_ref c) eqn:Er; [done|]. apply IH. eapply agree_add; [exact Ha| |exact Ec].
  intros h ref Hh ->. destruct (names_lead _ _ Ha h _ Hh) as (c' & Hc' & _). congruence.
Qed.
Lemma from_configs_ok configs t : tls_from_configs configs = Ok t → listener_ok t.
Proof.
  unfold tls_from_configs. destruct (claim_configs configs ∅ ∅) as [[by_ref by_hostname]|e] eqn:Ec; [|done].
  apply claim_configs_agree in Ec; [|by split; intros ? ? ?%lookup_empty_Some].
  destruct (first_key by_ref) as [k|] eqn:Ek; cbn [ok_or]; [|done]. intros [= <-]. split; [done|].
  unfold default_config. cbn. unfold first_key in Ek. apply head_Some in Ek as [l Hl].
  assert (Hin : k ∈ (map_to_list by_ref).*1).
  { rewrite <-(merge_sort_Permutation bytes_le). fold (sort_bytes (map_to_list by_ref).*1). rewrite Hl. by left. }
  apply list_elem_of_fmap in Hin as ([k' c] & -> & Hin%elem_of_map_to_list). by eexists.
Qed.
Lemma replace_config_ok c t : listener_ok t → listener_ok (replace_config c t).2.
Proof.
  intros [Ha Hdef]. unfold replace_config. set (kept := filter _ _).
  destruct (claim_hostnames _ _ kept) as [next|e] eqn:Ec; [|done]. cbn [snd].
  assert (Hkept : tables_agree (delete (lr_certificate_ref c) (ts_configs t)) kept).
  { split.
    - intros h ref [Hh Hne]%map_lookup_filter_Some. cbn in Hne. destruct (names_lead _ _ Ha h ref Hh) as (c' & Hc' & Hh').
      exists c'. by rewrite lookup_delete_ne.
    - intros ref c' [Hne Hc']%lookup_delete_Some. destruct (names_listed _ _ Ha ref c' Hc') as [Href Hh]. split; [done|].
      intros h Hin. apply map_lookup_filter_Some. split; [by apply Hh|cbn; congruence]. }
  split.
  - cbn. rewrite <-insert_delete_eq. eapply agree_add; [exact Hkept| |exact Ec].
    intros h ref [_ Hne]%map_lookup_filter_Some. exact Hne.
  - unfold default_config in *. cbn. destruct (decide (lr_certificate_ref c = ts_default_certificate_ref t)) as [->|Hne].
    + rewrite lookup_insert_eq. by eexists.
    + by rewrite lookup_insert_ne.
Qed.
Lemma collect_keys_ends t hs keys :
  tables_agree (ts_configs t) (ts_certificate_refs_by_hostname t) →
  (∀ h, h ∈ hs → is_Some (ts_certificate_refs_by_hostname t !! h)) →
  ∃ keys', collect_keys t (omap (λ h, pair h <$> ts_certificate_refs_by_hostname t !! h) hs) keys = Ok keys'
    ∧ (∀ h, h ∈ hs → keys' !! h = lr_certified_key <$> (ts_certificate_refs_by_hostname t !! h ≫= λ ref, ts_configs t !! ref))
    ∧ ∀ h, h ∉ hs → keys' !! h = keys !! h.
Proof.
  intros Ha. revert keys. induction hs as [|h hs IH]; intros keys Hall.
  { exists keys. split_and!; [done| |done]. intros h Hh. by apply not_elem_of_nil in Hh. }
  destruct (Hall h (list_elem_of_here _ _)) as [ref Href]. destruct (names_lead _ _ Ha h ref Href) as (c & Hc & _).
  destruct (IH (<[h := lr_certified_key c]> keys)) as (keys' & Hk & Hin & Hout).
  { intros x Hx. apply Hall. by right. }
  exists keys'. cbn [omap list_omap]. rewrite Href. cbn [fmap option_fmap option_map collect_keys]. rewrite Hc, Hk.
  split_and!; [done|..].
  - intros x [->|Hx]%elem_of_cons; [|by apply Hin]. destruct (decide (h ∈ hs)) as [Hx|Hx]; [by apply Hin|].
    rewrite Hout by done. rewrite lookup_insert_eq, Href. cbn. by rewrite Hc.
  - intros x [Hne Hx]%not_elem_of_cons. rewrite Hout by done. by rewrite lookup_insert_ne.
Qed.
Lemma keys_exact t :
  listener_ok t → ∃ keys, certified_keys_by_hostname t = Ok keys ∧
    ∀ h, keys !! h = lr_certified_key <$> (ts_certificate_refs_by_hostname t !! h ≫= λ ref, ts_configs t !! ref).
Proof.
  intros [Ha _]. unfold certified_keys_by_hostname. set (m := ts_certificate_refs_by_hostname t).
  assert (Hin : ∀ h, h ∈ sort_bytes (map_to_list m).*1 ↔ is_Some (m !! h)).
  { intros h. unfold sort_bytes. rewrite (merge_sort_Permutation bytes_le), list_elem_of_fmap. split.
    - intros ([k v] & -> & Hkv%elem_of_map_to_list). by eexists.
    - intros [v Hv]. exists (h, v). by rewrite elem_of_map_to_list. }
  destruct (collect_keys_ends t (sort_bytes (map_to_list m).*1) ∅ Ha) as (keys & Hk & Hyes & Hno).
  { intros h Hh. by apply Hin. }
  exists keys. split; [exact Hk|]. intros h. destruct (m !! h) as [ref|] eqn:E.
  - rewrite Hyes by (apply Hin; by rewrite E). fold m. by rewrite E.
  - rewrite Hno by (rewrite Hin, E; by intros [? [=]]). by rewrite lookup_empty.
Qed.

(** The table after a list of replacements; a refused one leaves it alone. *)
Definition replace_all (cs : list (LoadedRustlsServerConfig X Y)) t : TlsRuntimeSnapshot X Y :=
  foldl (λ t c, (replace_config c t).2) t cs.

(** C19: A TLS listener serves for a name the certificate that lists it.  However the table was
    loaded and whatever replacements were tried since, it yields keys for its resolver and has its
    default certificate; the resolver answers a server name with a key exactly when a loaded
    certificate with that key lists the name (case, surrounding blanks and a final dot aside), and
    two loaded certificates never list the same name. *)
Theorem sni_serves_listed configs t0 replaced :
  tls_from_configs configs = Ok t0 →
  let t := replace_all replaced t0 in
  is_Some (default_config t)
  ∧ (∃ keys, certified_keys_by_hostname t = Ok keys
      ∧ ∀ name key, resolve (Some name) keys = Some key ↔
          ∃ h ref c, normalize_tls_hostname name = Some h ∧ ts_configs t !! ref = Some c ∧ h ∈ hostnames c
                     ∧ lr_certified_key c = key)
  ∧ ∀ h ref ref' c c', ts_configs t !! ref = Some c → ts_configs t !! ref' = Some c' →
      h ∈ hostnames c → h ∈ hostnames c' → ref = ref'.
Proof.
  intros Hload t. assert (Hok : listener_ok t).
  { subst t. apply from_configs_ok in Hload. revert t0 Hload. unfold replace_all.
    induction replaced as [|c cs IH]; intros t0 Ht0; [done|]. cbn [foldl]. by apply IH, replace_config_ok. }
  split; [by apply Hok|]. destruct (keys_exact t Hok) as (keys & Hk & Hlook). destruct Hok as [Ha _]. split.
  - exists keys. split; [done|]. intros name key. unfold resolve. cbn [mbind option_bind].
    destruct (normalize_tls_hostname name) as [h|]; cbn; [|naive_solver]. rewrite Hlook, fmap_Some. split.
    + intros (c & (ref & Href & Hc)%bind_Some & ->). destruct (names_lead _ _ Ha h ref Href) as (c' & Hc' & Hh).
      rewrite Hc in Hc'. injection Hc' as <-. by exists h, ref, c.
    + intros (h' & ref & c & [= <-] & Hc & Hh & <-). exists c. split; [|done].
      destruct (names_listed _ _ Ha ref c Hc) as [_ Href]. rewrite (Href h Hh). exact Hc.
  - intros h ref ref' c c' Hc Hc' Hh Hh'. pose proof (proj2 (names_listed _ _ Ha ref c Hc) h Hh).
    pose proof (proj2 (names_listed _ _ Ha ref' c' Hc') h Hh'). congruence.
Qed.
End listener.

(** ** Concrete runs *)
Definition leaf_validator : CertificateMaterialValidator () :=
  λ _ v, (Ok {| vm_not_after_epoch_seconds := 1900000000; vm_dns_names := [lit "*.example.com"] |}, v).
Definition deaf_audit : AuditSink () := λ _ a, (Ok (), a).
Definition refusing_core : CoreCommandClient () := λ _ c, (Rejected (AppError_new CertificateNotFound "no listener"), c).
Definition import_request : ManualCertificateImportRequest :=
  {| mi_certificate_ref := lit "web"; mi_domains := [lit "WWW.example.com"]; mi_fullchain_pem := lit "new chain";
     mi_private_key_pem := lit "new key"; mi_expected_not_after_epoch_seconds := Some 1900000000;
     mi_request_id := lit "q1"; mi_revision_id := lit "r2" |}.
Definition old_certificate : StoredCertificate :=
  {| sc_certificate_ref := lit "web"; sc_domains := [lit "www.example.com"]; sc_not_after_epoch_seconds := 1800000000;
     sc_source := lit "manual"; sc_certificate_pem := lit "old chain"; sc_private_key_pem := lit "old key" |}.
#[local] Existing Instances leaf_validator deaf_audit refusing_core.
Definition memory_world : ImportWorld () MemoryCertificateStore () () :=
  Build_ImportWorld () {| mc_certificates := [old_certificate] |} () ().
Abbreviation memory_run := (import_manual_certificate_and_install (λ _ _, ""%string) import_request memory_world).

(** The core refuses the new certificate and the old one is back. *)
Lemma import_done_or_undone_witness :
  import_ended import_request memory_world memory_run.1 memory_run.2
  ∧ is_ok memory_run.1 = false ∧ mc_certificates (iw_store memory_run.2) = [old_certificate].
Proof.
  split; [|by vm_compute]. apply (import_done_or_undone (λ _ _, ""%string) import_request memory_world); done.
Defined.

Definition served (ref name : string) (key : nat) : LoadedRustlsServerConfig () nat :=
  {| lr_certificate_ref := lit ref; lr_domains := [lit name]; lr_server_config := (); lr_certified_key := key |}.
Definition served_table : TlsRuntimeSnapshot () nat :=
  match tls_from_configs [served "web" "www.example.com" 1; served "api" "api.example.com." 2] with
  | Ok t => t
  | Err _ => Build_TlsRuntimeSnapshot ∅ ∅ []
  end.
(** A replacement that claims a name of another certificate changes nothing. *)
Lemma sni_serves_listed_witness :
  let t := replace_all [served "web" "API.example.com" 3] served_table in
  is_Some (default_config t)
  ∧ (∃ keys, certified_keys_by_hostname t = Ok keys
      ∧ ∀ name key, resolve (Some name) keys = Some key ↔
          ∃ h ref c, normalize_tls_hostname name = Some h ∧ ts_configs t !! ref = Some c ∧ h ∈ hostnames c
                     ∧ lr_certified_key c = key)
  ∧ ∀ h ref ref' c c', ts_configs t !! ref = Some c → ts_configs t !! ref' = Some c' →
      h ∈ hostnames c → h ∈ hostnames c' → ref = ref'.
Proof.
  apply (sni_serves_listed [served "web" "www.example.com" 1; served "api" "api.example.com." 2]).
  by vm_compute.
Defined.

(** An order that presents a token, is probed, and is refused. *)
Definition order_client : AcmeClient () := {|
  issue_certificate _ c := (Err terms_not_accepted, c);
  issue_certificate_http01 _ c :=
    AcmePresent (lit "t1") (lit "k1") (λ _, AcmeVerify (lit "t1") (lit "k1") (λ _, AcmeDone (Err terms_not_accepted) c)) |}.
Definition order_probe : Http01ChallengeProbe () := λ _ _ p, (Ok (), p).
#[local] Existing Instances order_client order_probe.
Definition order_request : AcmeOrderRequest :=
  {| ao_domains := [lit "www.example.com"]; ao_account_email := lit "a@example.com"; ao_production := false;
     ao_terms_accepted := false |}.
Definition order_issuer : CertificateIssuer () MemoryCertificateStore () :=
  {| ci_acme := (); ci_store := {| mc_certificates := [] |}; ci_audit := () |}.
Abbreviation order_run :=
  (issue_certificate_for_ref_with_http01_and_install Http01TokenStore_default () (lit "web") order_request order_issuer ()).
Lemma challenges_cleared_witness :
  hr_presented_tokens order_run.2 = [] ∧ respond (lit "t2") (hr_challenges order_run.2) = None.
Proof.
  destruct (challenges_cleared Http01TokenStore_default () (lit "web") order_request order_issuer ()) as (H & Hother & _).
  split; [exact H|]. rewrite Hother; [done|]. vm_compute. set_solver.
Defined.
