(* ===== verification/CertificateRoundtrip.v ===== *)
(** * The certificate store in files keeps its laws

    What is written for a certificate is read back, names of directories do not clash, and the store
    in files is an instance of [CertificateStoreLaws] whatever the file system answers. *)

From stdpp Require Import base gmap strings list sorting.
From Stdlib Require Import Strings.Byte NArith Lia.
From S2P Require Import Prelude Errors RustStr Endpoint UpstreamPolicy Snapshot ConfigParser ConfigDraft ConfigRender ConfigStore ConfigLifecycle Certificates CertificateFiles CertificateProofs.
Local Open Scope N_scope.

(** ** Strings *)
Lemma toml_chars_escape s : toml_chars false (toml_escape s) = Ok s.
Proof.
  induction s as [|b s IH]; [done|]. unfold toml_escape in *. cbn [mbind list_bind]. unfold toml_escape_byte at 1.
  repeat (case_bool_decide; [subst; cbn; by rewrite IH|]).
  cbn. rewrite bool_decide_eq_false_2 by done. by rewrite IH.
Qed.
Lemma toml_escape_clean s : clean (toml_escape s).
Proof.
  unfold clean, toml_escape. intros (b & Hb & Hin)%list_elem_of_bind. unfold toml_escape_byte in Hb.
  repeat (case_bool_decide; [set_solver|]). set_solver.
Qed.
Lemma toml_escape_comma s : COMMA_BYTE ∉ s → COMMA_BYTE ∉ toml_escape s.
Proof.
  unfold toml_escape. intros Hs (b & Hb & Hin)%list_elem_of_bind. unfold toml_escape_byte in Hb.
  repeat (case_bool_decide; [set_solver|]). apply Hs. set_solver.
Qed.
Lemma metadata_string_quoted s : metadata_string s = quoted (toml_escape s).
Proof. done. Qed.
Lemma framed_string s : framed (metadata_string s).
Proof. apply framed_quoted. Qed.
Lemma parse_metadata_string s : parse_toml_string (metadata_string s) = Ok s.
Proof.
  rewrite metadata_string_quoted. unfold parse_toml_string. rewrite (framed_trim _ (framed_quoted _)). cbv zeta.
  destruct (quoted_ends (toml_escape s)) as [-> ->].
  assert (inner (quoted (toml_escape s)) = toml_escape s) as -> by apply inner_wrap.
  assert (len (quoted (toml_escape s)) <? 2 = false) as ->; [|apply toml_chars_escape].
  apply N.ltb_ge. unfold quoted. len_lia.
Qed.
Lemma parse_metadata_strings l vs : trim <$> l = trim <$> (metadata_string <$> vs) → parse_toml_strings l = Ok vs.
Proof.
  revert l. induction vs as [|v vs IH]; intros [|x l]; try done. rewrite !fmap_cons. intros [= Hx Hl].
  cbn [parse_toml_strings]. rewrite Hx, metadata_string_quoted, (framed_trim _ (framed_quoted _)), <-metadata_string_quoted.
  by rewrite parse_metadata_string, (IH l Hl).
Qed.
Definition metadata_array (values : list (list byte)) : list byte :=
  LBRACKET :: join (lit ", ") (metadata_string <$> values) ++ [RBRACKET].
Lemma framed_metadata_array values : framed (metadata_array values).
Proof. exists LBRACKET, RBRACKET. split_and!; try done. apply (last_snoc RBRACKET (LBRACKET :: _)). Qed.
Lemma parse_metadata_array values :
  Forall (λ v, COMMA_BYTE ∉ v) values → parse_toml_string_array (metadata_array values) = Ok values.
Proof.
  intros Hv. unfold parse_toml_string_array. rewrite (framed_trim _ (framed_metadata_array values)). cbv zeta.
  assert (ends_with [x5d] (metadata_array values) = true) as ->.
  { apply ends_with_spec. by eexists (LBRACKET :: _). }
  assert (starts_with [x5b] (metadata_array values) = true) as -> by done. cbn [negb orb].
  assert (inner (metadata_array values) = join (lit ", ") (metadata_string <$> values)) as -> by apply inner_wrap.
  destruct values as [|v vs]; [done|].
  assert (Hf : framed (join (lit ", ") (metadata_string <$> v :: vs))).
  { apply join_framed; [done|]. apply Forall_fmap, Forall_forall. intros x _. apply framed_quoted. }
  rewrite (framed_trim _ Hf), bool_decide_false.
  2: { intros Hn. destruct Hf as (a & _ & Ha & _). by rewrite Hn in Ha. }
  apply parse_metadata_strings, split_join; [|done].
  apply Forall_fmap. eapply Forall_impl; [exact Hv|]. intros x Hx%toml_escape_comma.
  change (COMMA_BYTE ∉ quoted (toml_escape x)). unfold quoted. rewrite not_elem_of_cons, not_elem_of_app.
  split_and!; [done|done|]. by intros ?%list_elem_of_singleton.
Qed.

(** ** The metadata *)
Definition metadata_entry (key : string) (value : list byte) : list byte := lit key ++ lit " = " ++ value.
Lemma render_lines c :
  render_certificate_metadata c
  = line (metadata_entry "certificate_ref" (metadata_string (sc_certificate_ref c)))
    ++ line (metadata_entry "domains" (metadata_array (sc_domains c)))
    ++ line (metadata_entry "not_after_epoch_seconds" (print_dec (sc_not_after_epoch_seconds c)))
    ++ line (metadata_entry "source" (metadata_string (sc_source c))) ++ [].
Proof.
  unfold render_certificate_metadata, metadata_entry, metadata_array, line. rewrite <-!app_assoc. cbn [app].
  rewrite <-!app_assoc. reflexivity.
Qed.
Lemma entry_framed key v a : head (lit key) = Some a → plain a = true → framed v → framed (metadata_entry key v).
Proof.
  intros Ha Hpa (_ & z & _ & _ & Hz & Hpz). exists a, z. unfold metadata_entry.
  destruct (lit key) as [|b k]; [done|]. split_and!; [done|done| |done]. by rewrite !last_app, Hz.
Qed.
Lemma entry_lines key v rest a :
  head (lit key) = Some a → plain a = true → clean (lit key) → framed v → clean v →
  str_lines (line (metadata_entry key v) ++ rest) = metadata_entry key v :: str_lines rest.
Proof.
  intros Ha Hpa Hk Hf Hv. pose proof (entry_framed key v a Ha Hpa Hf) as (_ & z & _ & _ & Hz & Hpz).
  apply str_lines_line; [|by eapply plain_last_not_CR]. unfold metadata_entry, clean in *.
  rewrite !not_elem_of_app. split_and!; [done| |done]. by vm_compute; set_solver.
Qed.
Lemma array_clean values : clean (metadata_array values).
Proof.
  unfold clean, metadata_array. rewrite not_elem_of_cons, not_elem_of_app. split_and!; [done| |by intros ?%list_elem_of_singleton].
  apply join_clean; [by vm_compute; set_solver|]. apply Forall_fmap, Forall_forall. intros v _.
  change (LF ∉ quoted (toml_escape v)). unfold quoted. rewrite not_elem_of_cons, not_elem_of_app.
  split_and!; [done|apply toml_escape_clean|by intros ?%list_elem_of_singleton].
Qed.
Lemma string_clean v : clean (metadata_string v).
Proof.
  change (LF ∉ quoted (toml_escape v)). unfold quoted. rewrite not_elem_of_cons, not_elem_of_app.
  split_and!; [done|apply toml_escape_clean|by intros ?%list_elem_of_singleton].
Qed.
(** The four lines, each with the draft it leaves. *)
Ltac at_entry Hf :=
  unfold metadata_line;
  match goal with |- context [trim (metadata_entry ?k ?v)] =>
    rewrite (framed_trim (metadata_entry k v) (entry_framed k v _ eq_refl eq_refl Hf)) end; cbv zeta;
  rewrite bool_decide_eq_false_2 by done;
  match goal with |- context [split_once EQUALS (metadata_entry ?k ?v)] =>
    change (split_once EQUALS (metadata_entry k v)) with (Some (lit k ++ [x20], x20 :: v)) end;
  cbv beta iota zeta; rewrite trim_space, !(framed_trim _ Hf).
Lemma line_ref v d :
  metadata_line (metadata_entry "certificate_ref" (metadata_string v)) d
  = Ok {| dr_certificate_ref := Some v; dr_domains := dr_domains d; dr_not_after := dr_not_after d; dr_source := dr_source d |}.
Proof. at_entry (framed_string v). rewrite parse_metadata_string. reflexivity. Qed.
Lemma line_domains vs d :
  Forall (λ v, COMMA_BYTE ∉ v) vs →
  metadata_line (metadata_entry "domains" (metadata_array vs)) d
  = Ok {| dr_certificate_ref := dr_certificate_ref d; dr_domains := Some vs; dr_not_after := dr_not_after d; dr_source := dr_source d |}.
Proof. intros Hv. at_entry (framed_metadata_array vs). rewrite parse_metadata_array by done. reflexivity. Qed.
Lemma line_not_after n d :
  n ≤ U64_MAX →
  metadata_line (metadata_entry "not_after_epoch_seconds" (print_dec n)) d
  = Ok {| dr_certificate_ref := dr_certificate_ref d; dr_domains := dr_domains d; dr_not_after := Some n; dr_source := dr_source d |}.
Proof. intros Hn. at_entry (proj2 (print_dec_ok n)). rewrite parse_print_dec by done. reflexivity. Qed.
Lemma line_source v d :
  metadata_line (metadata_entry "source" (metadata_string v)) d
  = Ok {| dr_certificate_ref := dr_certificate_ref d; dr_domains := dr_domains d; dr_not_after := dr_not_after d; dr_source := Some v |}.
Proof. at_entry (framed_string v). rewrite parse_metadata_string. reflexivity. Qed.

Lemma metadata_roundtrip c :
  Forall (λ v, COMMA_BYTE ∉ v) (sc_domains c) → sc_not_after_epoch_seconds c ≤ U64_MAX →
  parse_certificate_metadata (render_certificate_metadata c)
  = Ok {| md_certificate_ref := sc_certificate_ref c; md_domains := sc_domains c;
          md_not_after_epoch_seconds := sc_not_after_epoch_seconds c; md_source := sc_source c |}.
Proof.
  intros Hd Hn. unfold parse_certificate_metadata. rewrite render_lines.
  assert (Hk : ∀ k, In k ["certificate_ref"; "domains"; "not_after_epoch_seconds"; "source"] → clean (lit k)).
  { intros k Hk. repeat destruct Hk as [<-|Hk]; [by vm_compute; set_solver..|done]. }
  rewrite (entry_lines "certificate_ref" _ _ _ eq_refl eq_refl), (entry_lines "domains" _ _ _ eq_refl eq_refl),
    (entry_lines "not_after_epoch_seconds" _ _ _ eq_refl eq_refl), (entry_lines "source" _ _ _ eq_refl eq_refl);
    try (apply Hk; cbn; tauto); try apply framed_quoted; try apply string_clean; try apply array_clean;
    try apply framed_metadata_array; try apply (proj1 (print_dec_ok _)); try apply (proj2 (print_dec_ok _)).
  change (str_lines []) with (@nil (list byte)). cbn [metadata_lines].
  rewrite line_ref, line_domains, line_not_after, line_source by done. reflexivity.
Qed.

(** ** Names of directories *)
Lemma dir_name_inj a b : certificate_ref_dir_name a = certificate_ref_dir_name b → a = b.
Proof.
  assert (Hdot : ∀ x y, forallb plain_ref_byte x = true → x ≠ lit ".ref-" ++ y).
  { intros x y Hx ->. by vm_compute in Hx. }
  unfold certificate_ref_dir_name. intros H.
  destruct (_ && forallb plain_ref_byte a) eqn:Ea, (_ && forallb plain_ref_byte b) eqn:Eb;
    rewrite ?andb_true_iff in *; [done|..].
  - by destruct (Hdot a (hex_encode b) (proj2 Ea)).
  - by destruct (Hdot b (hex_encode a) (proj2 Eb)).
  - apply app_inv_head in H. by apply hex_encode_inj.
Qed.

(** ** What the directories hold *)
Abbreviation dirs_of w := (cd_dirs (fc_disk w)).
Definition text_in (files : gmap (list byte) (list byte)) (name : list byte) : option (list byte) :=
  content ← files !! name; if utf8_valid content then Some content else None.
Definition view_dir (files : gmap (list byte) (list byte)) : option StoredCertificate :=
  source ← text_in files METADATA;
  match parse_certificate_metadata source with
  | Err _ => None
  | Ok m =>
      pem ← text_in files FULLCHAIN; key ← text_in files PRIVKEY;
      Some {| sc_certificate_ref := md_certificate_ref m; sc_domains := md_domains m;
              sc_not_after_epoch_seconds := md_not_after_epoch_seconds m; sc_source := md_source m;
              sc_certificate_pem := pem; sc_private_key_pem := key |}
  end.
Definition file_held (w : FileCertificateStore) (ref : list byte) : option StoredCertificate :=
  c ← dirs_of w !! certificate_ref_dir_name ref ≫= view_dir;
  if bool_decide (sc_certificate_ref c = ref) then Some c else None.
Definition file_storable (c : StoredCertificate) : Prop :=
  Forall (λ v, COMMA_BYTE ∉ v) (sc_domains c) ∧ sc_not_after_epoch_seconds c ≤ U64_MAX
  ∧ utf8_valid (render_certificate_metadata c) = true ∧ utf8_valid (sc_certificate_pem c) = true
  ∧ utf8_valid (sc_private_key_pem c) = true.

(** Calls that only look leave the directories alone; the others touch one directory. *)
Definition untouched (w w' : FileCertificateStore) : Prop := dirs_of w' = dirs_of w ∧ fc_blind w' = fc_blind w.
Definition touched (dir : list byte) (w w' : FileCertificateStore) : Prop :=
  (∀ d, d ≠ dir → dirs_of w' !! d = dirs_of w !! d) ∧ fc_blind w' = fc_blind w.
#[local] Instance untouched_trans : Transitive untouched.
Proof. intros a b c [] []. split; congruence. Qed.
#[local] Instance touched_trans dir : Transitive (touched dir).
Proof. intros a b c [H1 ?] [H2 ?]. split; [intros d Hd; by rewrite H2, H1|congruence]. Qed.
Lemma untouched_touched dir w w' : untouched w w' → touched dir w w'.
Proof. intros [Hd Hb]. split; [intros; by rewrite Hd|done]. Qed.

Lemma next_keeps w o w' : next_store_io w = (o, w') → untouched w w'.
Proof. unfold next_store_io. destruct (fc_outcomes w); by intros [= <- <-]. Qed.
Ltac next_io w := destruct (next_store_io w) as [[|? ? ?] ?w1] eqn:?E; apply next_keeps in E.
Lemma dir_exists_steady dir w : fc_blind w = [] → dir_exists dir w = (bool_decide (is_Some (dirs_of w !! dir)), w).
Proof. intros H. unfold dir_exists, ask_exists. by rewrite H. Qed.
Lemma read_text_ends dir name w r w' :
  read_text dir name w = (r, w') →
  untouched w w' ∧ ∀ content, r = Ok content → (dirs_of w !! dir ≫= λ files, text_in files name) = Some content.
Proof.
  unfold read_text. next_io w; intros [= <- <-]; (split; [done|]); intros content Hr; [|done].
  destruct E as [Hd _]. rewrite Hd in Hr.
  destruct (dirs_of w !! dir) as [files|]; cbn in *; [|done]. unfold text_in.
  destruct (files !! name) as [x|]; cbn; [|done]. destruct (utf8_valid x); by simplify_eq.
Qed.
Lemma read_dir_ends dir w r w' :
  read_certificate_from_dir dir w = (r, w') →
  untouched w w' ∧ ∀ c, r = Ok c → (dirs_of w !! dir ≫= view_dir) = Some c.
Proof.
  unfold read_certificate_from_dir.
  destruct (read_text dir METADATA w) as [[source|e] w1] eqn:E1; apply read_text_ends in E1 as [H1 Hm]; [|by intros [= <- <-]].
  destruct (parse_certificate_metadata source) as [m|e] eqn:Ep; [|by intros [= <- <-]].
  destruct (read_text dir FULLCHAIN w1) as [[pem|e] w2] eqn:E2; apply read_text_ends in E2 as [H2 Hf];
    [|intros [= <- <-]; split; [by etrans|done]].
  destruct (read_text dir PRIVKEY w2) as [[key|e] w3] eqn:E3; apply read_text_ends in E3 as [H3 Hk];
    intros [= <- <-]; (split; [by repeat (etrans; [|done])|]); [|done].
  intros c [= <-]. specialize (Hm _ eq_refl). specialize (Hf _ eq_refl). specialize (Hk _ eq_refl).
  rewrite (proj1 H2), (proj1 H1) in Hk. rewrite (proj1 H1) in Hf.
  destruct (dirs_of w !! dir) as [files|]; cbn [mbind option_bind] in *; [|done].
  unfold view_dir. by rewrite Hm, Hf, Hk; cbn [mbind option_bind]; rewrite Ep.
Qed.

(** A file that was written whole, beside those it does not touch. *)
Definition wrote (dir name content : list byte) (w w' : FileCertificateStore) : Prop :=
  ∃ files files', dirs_of w !! dir = Some files ∧ dirs_of w' !! dir = Some files' ∧ files' !! name = Some content
    ∧ ∀ n, n ≠ name → n ≠ temp_name name → files' !! n = files !! n.
Lemma write_text_ends dir name content w r w' :
  write_text dir name content w = (r, w') →
  touched dir w w' ∧ (r = Ok () → ∃ files, dirs_of w !! dir = Some files
                                   ∧ dirs_of w' !! dir = Some (<[name := content]> files)).
Proof.
  unfold write_text. destruct (next_store_io w) as [o w1] eqn:E; apply next_keeps in E as [Hd Hb].
  rewrite Hd. destruct (dirs_of w !! dir) as [files|] eqn:Ef; [|intros [= <- <-]; by split; [split; [intros; by rewrite Hd|]|]].
  assert (Ht : ∀ x, touched dir w (put_dirs (cd_root (fc_disk w1)) (<[dir := x]> (dirs_of w)) w1)).
  { intros x. split; [|done]. intros d Hne. cbn. by rewrite lookup_insert_ne. }
  destruct o as [|[n|] ? ?]; intros [= <- <-]; (split; [by first [apply Ht|split; [intros; by rewrite Hd|]]|]); try done.
  intros _. exists files. split; [done|]. cbn. by rewrite lookup_insert_eq.
Qed.
Lemma rename_ends dir from to w r w' :
  rename_file dir from to w = (r, w') →
  touched dir w w' ∧ (r = Ok () → ∃ files content, dirs_of w !! dir = Some files ∧ files !! from = Some content
                                   ∧ dirs_of w' !! dir = Some (<[to := content]> (delete from files))).
Proof.
  unfold rename_file. next_io w; destruct E as [Hd Hb].
  2: { intros [= <- <-]. split; [by split; [intros; by rewrite Hd|]|done]. }
  rewrite Hd. destruct (dirs_of w !! dir) as [files|] eqn:Ef; cbn [mbind option_bind].
  2: { intros [= <- <-]. split; [by split; [intros; by rewrite Hd|]|done]. }
  destruct (files !! from) as [content|] eqn:Ec; cbn [fmap option_fmap option_map]; intros [= <- <-].
  2: { split; [by split; [intros; by rewrite Hd|]|done]. }
  split; [split; [|done]; intros d Hne; cbn; by rewrite lookup_insert_ne|].
  intros _. exists files, content. split_and!; [done|done|]. cbn. by rewrite lookup_insert_eq.
Qed.
Lemma wrote_renamed dir name content w w1 w2 :
  (∃ files, dirs_of w !! dir = Some files ∧ dirs_of w1 !! dir = Some (<[temp_name name := content]> files)) →
  (∃ files c, dirs_of w1 !! dir = Some files ∧ files !! temp_name name = Some c
              ∧ dirs_of w2 !! dir = Some (<[name := c]> (delete (temp_name name) files))) →
  wrote dir name content w w2.
Proof.
  intros (files & Hf & H1) (files1 & c & Hf1 & Hc & H2). rewrite H1 in Hf1. injection Hf1 as <-.
  rewrite lookup_insert_eq in Hc. injection Hc as <-. eexists files, _. split_and!; [done|exact H2|by rewrite lookup_insert_eq|].
  intros n Hn Ht. by rewrite lookup_insert_ne, lookup_delete_ne, lookup_insert_ne by done.
Qed.
Lemma write_atomic_ends dir name content w r w' :
  write_atomic_file dir name content w = (r, w') →
  touched dir w w' ∧ (r = Ok () → wrote dir name content w w').
Proof.
  unfold write_atomic_file. destruct (write_text dir _ content w) as [[[]|e] w1] eqn:E1; apply write_text_ends in E1 as [H1 Hw];
    [|by intros [= <- <-]].
  intros E2%rename_ends. destruct E2 as [H2 Hr]. split; [by etrans|]. intros ->. by eapply wrote_renamed; auto.
Qed.
Lemma write_private_ends dir name content w r w' :
  write_atomic_private_file dir name content w = (r, w') →
  touched dir w w' ∧ (r = Ok () → wrote dir name content w w').
Proof.
  unfold write_atomic_private_file, set_private.
  destruct (write_text dir _ content w) as [[[]|e] w1] eqn:E1; apply write_text_ends in E1 as [H1 Hw];
    [|by intros [= <- <-]].
  next_io w1; [|intros [= <- <-]; split; [etrans; [done|by apply untouched_touched]|done]].
  intros E2%rename_ends. destruct E2 as [H2 Hr]. split.
  - etrans; [exact H1|]. etrans; [by apply untouched_touched|exact H2].
  - intros ->. eapply (wrote_renamed _ _ _ _ w0); [|by auto]. rewrite (proj1 E). by auto.
Qed.
Lemma make_dir_ends dir w r w' :
  make_dir dir w = (r, w') → touched dir w w' ∧ (r = Ok () → is_Some (dirs_of w' !! dir)).
Proof.
  unfold make_dir. next_io w; destruct E as [Hd Hb].
  - destruct (name_fits dir); intros [= <- <-]; (split; [split; [intros d Hne|]|]); cbn; rewrite ?Hd; try done.
    + by rewrite lookup_insert_ne.
    + intros _. rewrite lookup_insert_eq. by eexists.
  - intros [= <- <-]. split; [by split; [intros; by rewrite Hd|]|done].
Qed.

Lemma touched_held dir w w' ref : touched dir w w' → certificate_ref_dir_name ref ≠ dir → file_held w' ref = file_held w ref.
Proof. intros [Hd _] Hne. unfold file_held. by rewrite Hd. Qed.
Lemma file_save_ends c w r w' :
  file_save_certificate c w = (r, w') →
  touched (certificate_ref_dir_name (sc_certificate_ref c)) w w'
  ∧ (r = Ok () → ∃ files, dirs_of w' !! certificate_ref_dir_name (sc_certificate_ref c) = Some files
       ∧ files !! METADATA = Some (render_certificate_metadata c) ∧ files !! FULLCHAIN = Some (sc_certificate_pem c)
       ∧ files !! PRIVKEY = Some (sc_private_key_pem c)).
Proof.
  unfold file_save_certificate. set (dir := certificate_ref_dir_name _).
  destruct (make_dir dir w) as [[[]|e] w1] eqn:E1; apply make_dir_ends in E1 as [H1 _]; [|by intros [= <- <-]].
  destruct (write_atomic_file dir FULLCHAIN _ w1) as [[[]|e] w2] eqn:E2; apply write_atomic_ends in E2 as [H2 Hf];
    [|intros [= <- <-]; split; [by etrans|done]].
  destruct (write_atomic_private_file dir PRIVKEY _ w2) as [[[]|e] w3] eqn:E3; apply write_private_ends in E3 as [H3 Hk];
    [|intros [= <- <-]; split; [by etrans; [exact H1|]; etrans|done]].
  intros E4%write_atomic_ends. destruct E4 as [H4 Hm].
  split; [etrans; [exact H1|]; etrans; [exact H2|]; by etrans|]. intros ->.
  destruct (Hf eq_refl) as (f1 & f2 & _ & Hd2 & Hfull & _). destruct (Hk eq_refl) as (f2' & f3 & Hd2' & Hd3 & Hkey & Hk').
  destruct (Hm eq_refl) as (f3' & f4 & Hd3' & Hd4 & Hmeta & Hm').
  rewrite Hd2 in Hd2'. injection Hd2' as <-. rewrite Hd3 in Hd3'. injection Hd3' as <-.
  exists f4. split_and!; [done|done|..].
  - by rewrite Hm', Hk' by done.
  - by rewrite Hm' by done.
Qed.
Lemma view_saved c files :
  file_storable c → files !! METADATA = Some (render_certificate_metadata c) →
  files !! FULLCHAIN = Some (sc_certificate_pem c) → files !! PRIVKEY = Some (sc_private_key_pem c) →
  view_dir files = Some c.
Proof.
  intros (Hd & Hn & Hu & Hp & Hk) Hm Hf Hkey. unfold view_dir, text_in.
  rewrite Hm, Hf, Hkey. cbn [mbind option_bind]. rewrite Hu, Hp, Hk. cbn [mbind option_bind].
  rewrite metadata_roundtrip by done. by destruct c.
Qed.

(** ** The laws *)
Lemma file_load_law ref w r w' :
  fc_blind w = [] → file_load_certificate ref w = (r, w') →
  fc_blind w' = [] ∧ file_held w' = file_held w
  ∧ match r with
    | Ok found => found = file_held w ref ∧ ∀ c, found = Some c → sc_certificate_ref c = ref
    | Err _ => True
    end.
Proof.
  intros Hb. unfold file_load_certificate. rewrite dir_exists_steady by done.
  assert (Hsame : ∀ w1, untouched w w1 → fc_blind w1 = [] ∧ file_held w1 = file_held w).
  { intros w1 [Hd Hb1]. split; [congruence|]. unfold file_held. by rewrite Hd. }
  case_bool_decide as Hs; cbn [negb].
  2: { intros [= <- <-]. split_and!; try done. unfold file_held. destruct (dirs_of w !! _); [|done]. by destruct Hs. }
  destruct (read_certificate_from_dir _ w) as [[c|e] w1] eqn:Er; apply read_dir_ends in Er as [H1 Hv].
  2: { intros [= <- <-]. by destruct (Hsame w1 H1). }
  specialize (Hv c eq_refl). destruct (Hsame w1 H1) as [Hb1 Hh]. case_bool_decide as Hc; cbn [negb]; intros [= <- <-];
    split_and!; try done.
  - unfold file_held. rewrite Hv. cbn [mbind option_bind]. by rewrite bool_decide_eq_true_2.
  - by intros ? [= <-].
Qed.
Lemma file_save_law c w r w' :
  file_storable c → fc_blind w = [] → file_save_certificate c w = (r, w') →
  fc_blind w' = [] ∧ (∀ ref, ref ≠ sc_certificate_ref c → file_held w' ref = file_held w ref)
  ∧ match r with Ok _ => file_held w' (sc_certificate_ref c) = Some c | Err _ => True end.
Proof.
  intros Hst Hb [Ht Hok]%file_save_ends. split_and!.
  - destruct Ht as [_ ->]. done.
  - intros ref Hne. eapply touched_held; [exact Ht|]. intros Heq. by apply Hne, dir_name_inj.
  - destruct r as [[]|]; [|done]. destruct (Hok eq_refl) as (files & Hd & Hm & Hf & Hk).
    unfold file_held. rewrite Hd. cbn [mbind option_bind]. rewrite (view_saved c) by done.
    cbn [mbind option_bind]. by rewrite bool_decide_eq_true_2.
Qed.
Lemma file_delete_law ref w r w' :
  fc_blind w = [] → file_delete_certificate ref w = (r, w') →
  fc_blind w' = [] ∧ (∀ other, other ≠ ref → file_held w' other = file_held w other)
  ∧ match r with Ok _ => file_held w' ref = None | Err _ => True end.
Proof.
  intros Hb. unfold file_delete_certificate. rewrite dir_exists_steady by done. case_bool_decide as Hs; cbn [negb].
  2: { intros [= <- <-]. split_and!; try done. unfold file_held. destruct (dirs_of w !! _); [|done]. by destruct Hs. }
  unfold remove_dir. next_io w; destruct E as [Hd Hb1]; intros [= <- <-]; split_and!; try (cbn; congruence); try done.
  - intros other Hne. unfold file_held. cbn. rewrite Hd, lookup_delete_ne; [done|]. intros Heq. by apply Hne, dir_name_inj.
  - unfold file_held. cbn. by rewrite Hd, lookup_delete_eq.
  - intros other Hne. unfold file_held. cbn. rewrite Hd, lookup_alter_ne; [done|]. intros Heq. by apply Hne, dir_name_inj.
Qed.
#[global] Instance file_certificate_laws : CertificateStoreLaws FileCertificateStore := {
  held := file_held; storable := file_storable; steady w := fc_blind w = [];
  load_reads := file_load_law; save_writes := file_save_law; delete_removes := file_delete_law
}.
