(* ===== verification/CertificateFaults.v ===== *)
(** * Certificates on disk: what comes back and what can get lost

    A certificate that was saved is read back; and two failures of a manual import that reports that
    there was nothing to undo, or that it was undone, after which the previous certificate is gone. *)

From stdpp Require Import base gmap strings list sorting.
From Stdlib Require Import Strings.Byte NArith Lia.
From S2P Require Import Prelude Errors RustStr Endpoint UpstreamPolicy Snapshot ConfigParser ConfigDraft ConfigRender ConfigStore ConfigLifecycle Certificates CertificateFiles CertificateProofs CertificateRoundtrip.
Local Open Scope N_scope.

(** ** Reading on a disk that answers *)
Lemma next_quiet w : fc_outcomes w = [] → next_store_io w = (StoreDone, w).
Proof. intros H. unfold next_store_io. by rewrite H. Qed.
Lemma read_quiet dir name w content files :
  next_store_io w = (StoreDone, w) → cd_dirs (fc_disk w) !! dir = Some files → text_in files name = Some content →
  read_text dir name w = (Ok content, w).
Proof.
  intros Hn Hd Ht. unfold read_text. rewrite Hn, Hd. cbn [mbind option_bind]. unfold text_in in Ht.
  destruct (files !! name) as [x|]; cbn in *; [|done]. destruct (utf8_valid x); by simplify_eq.
Qed.
Definition certificate_of (m : CertificateMetadata) (pem key : list byte) : StoredCertificate :=
  {| sc_certificate_ref := md_certificate_ref m; sc_domains := md_domains m;
     sc_not_after_epoch_seconds := md_not_after_epoch_seconds m; sc_source := md_source m;
     sc_certificate_pem := pem; sc_private_key_pem := key |}.
Lemma view_parts files c :
  view_dir files = Some c → ∃ source m pem key,
    text_in files METADATA = Some source ∧ parse_certificate_metadata source = Ok m
    ∧ text_in files FULLCHAIN = Some pem ∧ text_in files PRIVKEY = Some key ∧ c = certificate_of m pem key.
Proof.
  unfold view_dir. intros (source & Em & H)%bind_Some. destruct (parse_certificate_metadata source) as [m|] eqn:Ep; [|done].
  apply bind_Some in H as (pem & Ef & (key & Ek & [= <-])%bind_Some). by exists source, m, pem, key.
Qed.
Lemma load_quiet ref w c :
  fc_blind w = [] → fc_outcomes w = [] → file_held w ref = Some c → file_load_certificate ref w = (Ok (Some c), w).
Proof.
  intros Hb Ho Hh. unfold file_load_certificate, file_held in *. rewrite dir_exists_steady by done.
  destruct (cd_dirs (fc_disk w) !! certificate_ref_dir_name ref) as [files|] eqn:Ed; cbn [mbind option_bind] in Hh; [|done].
  rewrite bool_decide_eq_true_2 by done. cbn [negb]. destruct (view_dir files) as [c'|] eqn:Ev; cbn in Hh; [|done].
  case_bool_decide as Href; [|done]. injection Hh as ->.
  destruct (view_parts _ _ Ev) as (source & m & pem & key & Em & Ep & Ef & Ek & ->).
  unfold read_certificate_from_dir. pose proof (next_quiet w Ho) as Hn.
  rewrite (read_quiet _ _ _ _ _ Hn Ed Em), Ep, (read_quiet _ _ _ _ _ Hn Ed Ef), (read_quiet _ _ _ _ _ Hn Ed Ek).
  by rewrite bool_decide_eq_true_2.
Qed.

(** C31: A certificate that was saved is read back as it was: whatever other certificates the directory
    holds, once saving succeeded (domains without commas, texts that are texts) loading its name
    gives it with all its parts, and every other name gives what it gave before. *)
Theorem saved_certificate_loads (c : StoredCertificate) (w w' : FileCertificateStore) :
  file_storable c → fc_blind w = [] → file_save_certificate c w = (Ok (), w') → fc_outcomes w' = [] →
  file_load_certificate (sc_certificate_ref c) w' = (Ok (Some c), w')
  ∧ ∀ ref, ref ≠ sc_certificate_ref c → file_held w' ref = file_held w ref.
Proof.
  intros Hs Hb Hsave Hq. destruct (file_save_law c w (Ok ()) w' Hs Hb Hsave) as (Hb' & Ho & Hc). split; [|done].
  by apply load_quiet.
Qed.

(** ** Failures of an import *)
Definition with_chain (pem : list byte) (c : StoredCertificate) : StoredCertificate :=
  {| sc_certificate_ref := sc_certificate_ref c; sc_domains := sc_domains c;
     sc_not_after_epoch_seconds := sc_not_after_epoch_seconds c; sc_source := sc_source c;
     sc_certificate_pem := pem; sc_private_key_pem := sc_private_key_pem c |}.
Lemma view_chain files files' pem c :
  view_dir files = Some c → utf8_valid pem = true → files' !! FULLCHAIN = Some pem →
  (∀ n, n ≠ FULLCHAIN → n ≠ temp_name FULLCHAIN → files' !! n = files !! n) →
  view_dir files' = Some (with_chain pem c).
Proof.
  intros (source & m & pem' & key & Em & Ep & Ef & Ek & ->)%view_parts Hu Hf Hn. unfold view_dir, text_in in *.
  rewrite (Hn METADATA), (Hn PRIVKEY), Hf, Em by done. cbn [mbind option_bind]. by rewrite Hu, Ep, Ek.
Qed.
(** The calls of a save on a disk with the directory, one by one. *)
Abbreviation store_at disk outcomes := {| fc_disk := disk; fc_outcomes := outcomes; fc_blind := [] |}.
Lemma make_dir_done dir disk files rest :
  name_fits dir = true → cd_dirs disk !! dir = Some files →
  ∃ disk', make_dir dir (store_at disk (StoreDone :: rest)) = (Ok (), store_at disk' rest)
           ∧ cd_dirs disk' !! dir = Some files.
Proof.
  intros Hfit Hd. unfold make_dir. cbn [next_store_io fc_outcomes fc_disk]. rewrite Hfit, Hd. eexists. split; [reflexivity|].
  cbn [cd_dirs]. by rewrite lookup_insert_eq.
Qed.
Lemma write_atomic_done dir name content disk files rest :
  cd_dirs disk !! dir = Some files →
  ∃ disk' files', write_atomic_file dir name content (store_at disk (StoreDone :: StoreDone :: rest)) = (Ok (), store_at disk' rest)
    ∧ cd_dirs disk' !! dir = Some files' ∧ files' !! name = Some content
    ∧ ∀ n, n ≠ name → n ≠ temp_name name → files' !! n = files !! n.
Proof.
  intros Hd. unfold write_atomic_file, write_text. cbn [next_store_io fc_outcomes fc_disk]. rewrite Hd.
  unfold rename_file. cbn [put_dirs next_store_io fc_outcomes fc_disk cd_dirs]. rewrite lookup_insert_eq.
  cbn [mbind option_bind]. rewrite lookup_insert_eq. cbn [fmap option_fmap option_map put_dirs fc_disk cd_dirs].
  do 2 eexists. split; [reflexivity|]. cbn [cd_dirs]. rewrite lookup_insert_eq. split; [reflexivity|].
  split; [by rewrite lookup_insert_eq|].
  intros n Hn Ht. by rewrite lookup_insert_ne, lookup_delete_ne, lookup_insert_ne.
Qed.
Lemma private_fails dir name content disk files stays message rest :
  cd_dirs disk !! dir = Some files →
  write_atomic_private_file dir name content (store_at disk (StoreFails None stays message :: rest))
  = (Err (certificate_store_error message), store_at disk rest).
Proof.
  intros Hd. unfold write_atomic_private_file, write_text. cbn [next_store_io fc_outcomes fc_disk]. by rewrite Hd.
Qed.
(** A save whose fourth call, writing the new key, fails. *)
Lemma save_cut_short c old stays message rest disk :
  name_fits (certificate_ref_dir_name (sc_certificate_ref c)) = true → utf8_valid (sc_certificate_pem c) = true →
  file_held (store_at disk []) (sc_certificate_ref c) = Some old →
  ∃ w', file_save_certificate c (store_at disk ([StoreDone; StoreDone; StoreDone; StoreFails None stays message] ++ rest))
        = (Err (certificate_store_error message), w')
        ∧ file_held w' (sc_certificate_ref c) = Some (with_chain (sc_certificate_pem c) old).
Proof.
  intros Hfit Hu Hh. unfold file_held in Hh. cbn [fc_disk] in Hh. unfold file_save_certificate. cbv zeta.
  set (dir := certificate_ref_dir_name _) in *.
  destruct (cd_dirs disk !! dir) as [files|] eqn:Ed; cbn [mbind option_bind] in Hh; [|done].
  destruct (view_dir files) as [c'|] eqn:Ev; cbn in Hh; [|done]. case_bool_decide as Href; [|done]. injection Hh as ->.
  cbn [app].
  destruct (make_dir_done dir disk files (StoreDone :: StoreDone :: StoreFails None stays message :: rest) Hfit Ed) as (d2 & -> & H2).
  destruct (write_atomic_done dir FULLCHAIN (sc_certificate_pem c) d2 files (StoreFails None stays message :: rest) H2)
    as (d3 & files' & -> & H3 & Hf & Hn).
  rewrite (private_fails dir PRIVKEY _ d3 files' stays message rest H3). eexists. split; [reflexivity|].
  unfold file_held. cbn [fc_disk]. fold dir. rewrite H3. cbn [mbind option_bind].
  rewrite (view_chain files files' (sc_certificate_pem c) old) by done. cbn. by rewrite bool_decide_eq_true_2.
Qed.
(** Loading through three calls that are done. *)
Lemma read_done dir name disk files content rest :
  cd_dirs disk !! dir = Some files → text_in files name = Some content →
  read_text dir name (store_at disk (StoreDone :: rest)) = (Ok content, store_at disk rest).
Proof.
  intros Hd Ht. unfold read_text. cbn [next_store_io fc_outcomes fc_disk fc_blind]. rewrite Hd. cbn [mbind option_bind].
  unfold text_in in Ht. destruct (files !! name) as [x|]; cbn in *; [|done]. destruct (utf8_valid x); by simplify_eq.
Qed.
Lemma load_done ref disk rest c :
  file_held (store_at disk []) ref = Some c →
  file_load_certificate ref (store_at disk ([StoreDone; StoreDone; StoreDone] ++ rest)) = (Ok (Some c), store_at disk rest).
Proof.
  intros Hh. unfold file_load_certificate, file_held in *. rewrite dir_exists_steady by done. cbn [fc_disk] in *.
  destruct (cd_dirs disk !! certificate_ref_dir_name ref) as [files|] eqn:Ed; cbn [mbind option_bind] in Hh; [|done].
  rewrite bool_decide_eq_true_2 by done. cbn [negb app]. destruct (view_dir files) as [c'|] eqn:Ev; cbn in Hh; [|done].
  case_bool_decide as Href; [|done]. injection Hh as ->.
  destruct (view_parts _ _ Ev) as (source & m & pem & key & Em & Ep & Ef & Ek & ->). unfold read_certificate_from_dir.
  rewrite (read_done _ _ _ _ _ _ Ed Em), Ep, (read_done _ _ _ _ _ _ Ed Ef), (read_done _ _ _ _ _ _ Ed Ek).
  by rewrite bool_decide_eq_true_2.
Qed.
(** A save on a disk where every call is done. *)
Definition ready (dir : list byte) (w : FileCertificateStore) : Prop :=
  fc_outcomes w = [] ∧ fc_blind w = [] ∧ is_Some (cd_dirs (fc_disk w) !! dir).
Lemma write_rename_ready dir name content w :
  ready dir w → ∃ w', write_text dir name content w = (Ok (), w') ∧ ready dir w'
    ∧ ∀ to, ∃ w'', rename_file dir name to w' = (Ok (), w'') ∧ ready dir w''.
Proof.
  intros (Ho & Hb & files & Hd). unfold write_text. rewrite next_quiet, Hd by done. eexists. split; [reflexivity|].
  split; [split_and!; [done..|]; cbn; rewrite lookup_insert_eq; by eexists|]. intros to. unfold rename_file.
  rewrite next_quiet by done. cbn [put_dirs fc_disk cd_dirs]. rewrite lookup_insert_eq. cbn [mbind option_bind].
  rewrite lookup_insert_eq. cbn [fmap option_fmap option_map]. eexists. split; [reflexivity|]. split_and!; [done..|].
  cbn. rewrite lookup_insert_eq. by eexists.
Qed.
Lemma atomic_ready dir name content w :
  ready dir w → ∃ w', write_atomic_file dir name content w = (Ok (), w') ∧ ready dir w'.
Proof. intros (w' & Hw & _ & Hr)%(write_rename_ready _ (temp_name name) content). unfold write_atomic_file. by rewrite Hw. Qed.
Lemma private_ready dir name content w :
  ready dir w → ∃ w', write_atomic_private_file dir name content w = (Ok (), w') ∧ ready dir w'.
Proof.
  intros (w' & Hw & (Ho & _) & Hr)%(write_rename_ready _ (temp_name name) content). unfold write_atomic_private_file, set_private.
  by rewrite Hw, next_quiet.
Qed.
Lemma save_ready c w :
  name_fits (certificate_ref_dir_name (sc_certificate_ref c)) = true → fc_outcomes w = [] → fc_blind w = [] →
  ∃ w', file_save_certificate c w = (Ok (), w') ∧ ready (certificate_ref_dir_name (sc_certificate_ref c)) w'.
Proof.
  intros Hfit Ho Hb. unfold file_save_certificate, make_dir. cbv zeta. set (dir := certificate_ref_dir_name _) in *.
  rewrite next_quiet, Hfit by done.
  match goal with |- context [put_dirs ?a ?b ?c] => set (w1 := put_dirs a b c) end.
  assert (H1 : ready dir w1) by (split_and!; [done..|]; cbn; rewrite lookup_insert_eq; by eexists).
  destruct (atomic_ready dir FULLCHAIN (sc_certificate_pem c) w1 H1) as (w2 & -> & H2).
  destruct (private_ready dir PRIVKEY (sc_private_key_pem c) w2 H2) as (w3 & -> & H3). by apply atomic_ready.
Qed.
Lemma delete_ready ref w :
  ready (certificate_ref_dir_name ref) w → ∃ w', file_delete_certificate ref w = (Ok (), w') ∧ file_held w' ref = None.
Proof.
  intros (Ho & Hb & Hd). destruct (file_delete_certificate ref w) as [r w'] eqn:E.
  destruct (file_delete_law ref w r w' Hb E) as (_ & _ & Hn). exists w'. revert E Hn. unfold file_delete_certificate.
  rewrite dir_exists_steady, bool_decide_eq_true_2 by done. cbn [negb]. unfold remove_dir. rewrite next_quiet by done.
  by intros [= <- <-].
Qed.

Section failing.
  Context {V A K : Type} `{!CertificateMaterialValidator V} `{!AuditSink A} `{!CoreCommandClient K}.
  Context (debug : CertificateImportState → CertificateImportEvent → string).
  Implicit Types (w : ImportWorld V FileCertificateStore A K).
  Abbreviation import := (import_manual_certificate_and_install debug).

(** An accepted request to put the certificate of [n] and [v] in place of [old]. *)
Definition replaces (r : ManualCertificateImportRequest) (n : NormalizedManualCertificateImport)
  (v : ValidatedCertificateMaterial) (old : StoredCertificate) w : Prop :=
  normalize_manual_certificate_import_request r = Ok n
  ∧ (validate_material (ni_material n) (iw_validator w)).1 = Ok v ∧ import_refusal n v = None
  ∧ name_fits (certificate_ref_dir_name (ni_certificate_ref n)) = true
  ∧ file_storable (imported n v) ∧ file_held (iw_store w) (ni_certificate_ref n) = Some old.
(** A failure that says it left nothing to undo. *)
Definition nothing_to_undo (r : result ManualCertificateImportFailure ManualCertificateImportOutcome) : Prop :=
  match r with
  | Ok _ => False
  | Err e => if_state e = ImportFailed (app_code (if_error e)) false ∧ if_compensation_error e = None
  end.

(** C40: An import that fails and reports nothing left to undo can still have lost the previous
    certificate.  When writing the new key fails after the new chain was written, the name holds the
    new chain with the old key and the old metadata; and when the file system cannot tell, for once,
    whether the directory is there, a rejected import takes the previous certificate for absent and
    deletes it when it undoes what it did. *)
Theorem failed_import_can_lose_certificate r n v old w :
  replaces r n v old w →
  (∀ stays message,
     fc_blind (iw_store w) = [] →
     fc_outcomes (iw_store w) = replicate 6 StoreDone ++ [StoreFails None stays message] →
     nothing_to_undo (import r w).1
     ∧ file_held (iw_store (import r w).2) (ni_certificate_ref n) = Some (with_chain (cm_certificate_pem (ni_material n)) old))
  ∧ (fc_blind (iw_store w) = [true] → fc_outcomes (iw_store w) = [] → is_ok (import r w).1 = false →
     nothing_to_undo (import r w).1
     ∧ file_held (iw_store (import r w).2) (ni_certificate_ref n) = None).
Proof.
  destruct w as [vd [disk outs blind] au co]. intros (Hn & Hv & Hr & Hfit & Hst & Hold). cbn [iw_validator iw_store] in *.
  unfold import_manual_certificate_and_install. rewrite Hn.
  destruct (validate_material (ni_material n) vd) as [v' vd']. cbn [fst] in Hv. subst v'. rewrite Hr.
  cbn [transition_or_failure import_transition]. cbv zeta.
  change (sc_certificate_ref (imported n v)) with (ni_certificate_ref n). split.
  - intros stays message Hb Ho. cbn [fc_blind fc_outcomes] in Hb, Ho. subst blind outs.
    cbn [load_certificate save_certificate file_certificates].
    change (replicate 6 StoreDone ++ [StoreFails None stays message]) with
      ([StoreDone; StoreDone; StoreDone] ++ ([StoreDone; StoreDone; StoreDone; StoreFails None stays message] ++ [])).
    rewrite (load_done _ disk _ old) by done.
    destruct (save_cut_short (imported n v) old stays message [] disk Hfit) as (w' & -> & Hw'); [apply Hst|done|].
    split; [done|]. exact Hw'.
  - intros Hb Ho. cbn [fc_blind fc_outcomes] in Hb, Ho. subst blind outs.
    cbn [load_certificate save_certificate file_certificates].
    unfold file_load_certificate, dir_exists, ask_exists. cbn [fc_blind negb andb fc_disk fc_outcomes].
    destruct (save_ready (imported n v) (store_at disk [])) as (w' & -> & Hw'); [done..|].
    destruct (delete_ready (ni_certificate_ref n) w' Hw') as (w'' & Hdel & Hgone).
    cbn [transition_or_failure import_transition]. destruct (audit_record _ au) as [[[]|e] au'].
    + cbn [transition_or_failure import_transition]. destruct (core_send _ co) as [[|e] co']; [done|].
      unfold restore_certificate. change (delete_certificate (ni_certificate_ref n) w') with (file_delete_certificate (ni_certificate_ref n) w').
      by rewrite Hdel.
    + unfold restore_certificate. change (delete_certificate (ni_certificate_ref n) w') with (file_delete_certificate (ni_certificate_ref n) w').
      by rewrite Hdel.
Qed.
End failing.

(** ** Concrete runs *)
#[local] Existing Instances leaf_validator deaf_audit refusing_core.
Definition old_files : gmap (list byte) (list byte) :=
  {[METADATA := render_certificate_metadata old_certificate; FULLCHAIN := lit "old chain"; PRIVKEY := lit "old key"]}.
Definition file_world (outcomes : list StoreIo) (blind : list bool) : ImportWorld () FileCertificateStore () () :=
  Build_ImportWorld ()
    {| fc_disk := {| cd_root := true; cd_dirs := {[lit "web" := old_files]} |}; fc_outcomes := outcomes; fc_blind := blind |}
    () ().
Definition disk_full : StoreIo := StoreFails None (λ _, true) (lit "No space left on device (os error 28)").
Abbreviation file_run := (import_manual_certificate_and_install (λ _ _, ""%string) import_request).
Definition import_normalized : NormalizedManualCertificateImport :=
  {| ni_certificate_ref := lit "web"; ni_domains := [lit "www.example.com"];
     ni_material := {| cm_certificate_pem := lit "new chain"; cm_private_key_pem := lit "new key" |};
     ni_expected_not_after_epoch_seconds := Some 1900000000; ni_revision_id := lit "r2" |}.
Definition import_validated : ValidatedCertificateMaterial :=
  {| vm_not_after_epoch_seconds := 1900000000; vm_dns_names := [lit "*.example.com"] |}.
Lemma replaces_old outcomes blind :
  replaces import_request import_normalized import_validated old_certificate (file_world outcomes blind).
Proof.
  split_and!; [by vm_compute..| |].
  - split_and!; [|by vm_compute..]. apply Forall_singleton. vm_compute. set_solver.
  - change (file_held (iw_store (file_world [] [])) (lit "web") = Some old_certificate). by vm_compute.
Qed.
Lemma failed_import_can_lose_certificate_witness :
  file_held (iw_store (file_run (file_world (replicate 6 StoreDone ++ [disk_full]) [])).2) (ni_certificate_ref import_normalized)
  = Some (with_chain (cm_certificate_pem (ni_material import_normalized)) old_certificate)
  ∧ file_held (iw_store (file_run (file_world [] [true])).2) (ni_certificate_ref import_normalized) = None.
Proof.
  pose proof (failed_import_can_lose_certificate (λ _ _, ""%string) _ _ _ _ _
    (replaces_old (replicate 6 StoreDone ++ [disk_full]) [])) as [Hcut _].
  pose proof (failed_import_can_lose_certificate (λ _ _, ""%string) _ _ _ _ _ (replaces_old [] [true])) as [_ Hblind].
  split.
  - apply (Hcut (λ _, true) (lit "No space left on device (os error 28)") eq_refl eq_refl).
  - apply (Hblind eq_refl eq_refl). by vm_compute.
Defined.

Definition empty_store : FileCertificateStore :=
  {| fc_disk := {| cd_root := false; cd_dirs := ∅ |}; fc_outcomes := []; fc_blind := [] |}.
Lemma saved_certificate_loads_witness :
  let w := (file_save_certificate old_certificate empty_store).2 in
  file_load_certificate (lit "web") w = (Ok (Some old_certificate), w)
  ∧ ∀ ref, ref ≠ lit "web" → file_held w ref = file_held empty_store ref.
Proof.
  apply (saved_certificate_loads old_certificate empty_store); [|by vm_compute..].
  split_and!; [|by vm_compute..]. apply Forall_singleton. vm_compute. set_solver.
Defined.
