(* ===== verification/BackupModel.v ===== *)
(** * Backups: the manifest and the state machines

    crates/edge-domain/src/backup/model.rs: what a backup archive lists, when a list is accepted, and
    the states of creating and restoring one. *)

From stdpp Require Import base gmap strings list sorting.
From Stdlib Require Import Strings.Byte NArith Lia.
From S2P Require Import Prelude Errors ErrorMessages RustStr.
Local Open Scope N_scope.

(** ** The manifest *)
Inductive BackupArtifactKind :=
| ConfigRevisionArtifact | ConfigRevisionPointer | CertificateChain | CertificatePrivateKey | CertificateMetadataArtifact
| TrustBundleRoots | TrustBundleMetadata | AdminPasswordHash | AuditLedgerSegment
| UnknownArtifact (name : list byte).
#[global] Instance BackupArtifactKind_eq_dec : EqDecision BackupArtifactKind. Proof. solve_decision. Defined.
Inductive BackupArtifactMode := PublicMode | OwnerOnly.
#[global] Instance BackupArtifactMode_eq_dec : EqDecision BackupArtifactMode. Proof. solve_decision. Defined.
Record BackupArtifactDescriptor := {
  ba_kind : BackupArtifactKind;
  ba_logical_id : list byte;
  ba_relative_logical_path : list byte;
  ba_length_bytes : N;
  ba_sha256 : list byte;
  ba_mode : BackupArtifactMode;
  ba_required_for_restore : bool
}.
#[global] Instance BackupArtifactDescriptor_eq_dec : EqDecision BackupArtifactDescriptor. Proof. solve_decision. Defined.
Record BackupManifest := {
  bm_schema_version : N;
  bm_archive_id : list byte;
  bm_created_at_epoch_seconds : N;
  bm_source_app_version : list byte;
  bm_source_layout_version : N;
  bm_current_revision_id : list byte;
  bm_admin_initialized : bool;
  bm_referenced_certificate_refs : list (list byte);
  bm_referenced_trust_bundle_refs : list (list byte);
  bm_artifact_count : N;
  bm_total_plaintext_bytes : N;
  bm_artifacts : list BackupArtifactDescriptor;
  bm_manifest_digest : list byte
}.
Record BackupLimits := {
  bl_max_schema_version : N;
  bl_max_artifacts : N;
  bl_max_total_plaintext_bytes : N;
  bl_max_single_artifact_bytes : N;
  bl_max_config_or_secret_bytes : N;
  bl_max_logical_path_bytes : N;
  bl_max_manifest_bytes : N;
  bl_max_nesting_depth : N;
  bl_max_audit_segments : N;
  bl_max_audit_segment_bytes : N;
  bl_max_audit_total_bytes : N
}.
Definition schema_limits (version : N) : BackupLimits :=
  {| bl_max_schema_version := version; bl_max_artifacts := 10000; bl_max_total_plaintext_bytes := 1024 * 1024 * 1024;
     bl_max_single_artifact_bytes := 64 * 1024 * 1024; bl_max_config_or_secret_bytes := 1024 * 1024;
     bl_max_logical_path_bytes := 240; bl_max_manifest_bytes := 8 * 1024 * 1024; bl_max_nesting_depth := 8;
     bl_max_audit_segments := 32; bl_max_audit_segment_bytes := 4 * 1024 * 1024;
     bl_max_audit_total_bytes := 128 * 1024 * 1024 |}.
Definition schema_v1 : BackupLimits := schema_limits 1.
Definition schema_v2 : BackupLimits := schema_limits 2.
Definition schema_v3 : BackupLimits := schema_limits 3.

Definition backup_error (code : ErrorCode) : AppError := AppError_new code (default_user_message code).
Definition refuse {A} (code : ErrorCode) : result AppError A := Err (backup_error code).

(** ** Checking one artifact *)
Definition BACKSLASH : byte := x5c.
Definition NUL : byte := x00.
Definition dot_segment (s : list byte) : bool := bool_decide (s = lit ".") || bool_decide (s = lit "..").
Definition validate_manifest_encoded_size (length_bytes : N) (limits : BackupLimits) : result AppError () :=
  if bl_max_manifest_bytes limits <? length_bytes then refuse BackupLimitExceeded else Ok ().
Definition validate_logical_path (path : list byte) (limits : BackupLimits) : result AppError () :=
  if bl_max_logical_path_bytes limits <? len path then refuse BackupLimitExceeded
  else if bool_decide (path = []) || starts_with [x2f] path || contains_byte BACKSLASH path || contains_byte NUL path
          || contains_byte x3a path
  then refuse BackupManifestInvalid
  else
    let segments := split_byte x2f path in
    if bl_max_nesting_depth limits <? len segments then refuse BackupLimitExceeded
    else if existsb (λ segment, bool_decide (segment = []) || dot_segment segment) segments
    then refuse BackupManifestInvalid
    else Ok ().
Definition validate_identity (value : list byte) : result AppError () :=
  if bool_decide (value = []) || (240 <? len value) || contains_byte x2f value || contains_byte BACKSLASH value
     || contains_byte NUL value || contains_byte x3a value || dot_segment value
  then refuse BackupManifestInvalid else Ok ().
Definition validate_mode (a : BackupArtifactDescriptor) : result AppError () :=
  let? expected := match ba_kind a with
                   | CertificatePrivateKey | AdminPasswordHash => Ok OwnerOnly
                   | AuditLedgerSegment => Ok PublicMode
                   | UnknownArtifact _ => refuse BackupManifestInvalid
                   | _ => Ok PublicMode
                   end in
  if negb (bool_decide (ba_mode a = expected)) then refuse BackupManifestInvalid else Ok ().
(** The place of an artifact in the archive; an unknown kind has none. *)
Definition artifact_path (kind : BackupArtifactKind) (id : list byte) : option (list byte) :=
  match kind with
  | ConfigRevisionArtifact => Some (lit "config/revisions/" ++ id)
  | ConfigRevisionPointer => Some (lit "config/current")
  | CertificateChain => Some (lit "certificates/" ++ id ++ lit "/chain")
  | CertificatePrivateKey => Some (lit "certificates/" ++ id ++ lit "/private-key")
  | CertificateMetadataArtifact => Some (lit "certificates/" ++ id ++ lit "/metadata")
  | TrustBundleRoots => Some (lit "trust-bundles/" ++ id ++ lit "/roots")
  | TrustBundleMetadata => Some (lit "trust-bundles/" ++ id ++ lit "/metadata")
  | AdminPasswordHash => Some (lit "secrets/admin-password-hash")
  | AuditLedgerSegment => Some (lit "audit/segments/" ++ id)
  | UnknownArtifact _ => None
  end.
Definition validate_kind_path (a : BackupArtifactDescriptor) : result AppError () :=
  if bool_decide (ba_kind a = ConfigRevisionPointer) && negb (bool_decide (ba_logical_id a = lit "current"))
  then refuse BackupManifestInvalid
  else if bool_decide (ba_kind a = AdminPasswordHash) && negb (bool_decide (ba_logical_id a = lit "admin-password-hash"))
  then refuse BackupManifestInvalid
  else match artifact_path (ba_kind a) (ba_logical_id a) with
       | None => refuse BackupManifestInvalid
       | Some expected =>
           if negb (bool_decide (ba_relative_logical_path a = expected)) then refuse BackupManifestInvalid else Ok ()
       end.
Definition is_config_or_secret (kind : BackupArtifactKind) : bool :=
  match kind with
  | CertificateChain | TrustBundleRoots | AuditLedgerSegment => false
  | _ => true
  end.

(** ** Checking the whole list *)
(** The variables of the loop over the artifacts. *)
Record ManifestTally := {
  mt_paths : gset (list byte);
  mt_identities : list (BackupArtifactKind * list byte);
  mt_total : N;
  mt_pointers : N;
  mt_current_found : bool;
  mt_admin_hashes : N;
  mt_chains : gset (list byte);
  mt_keys : gset (list byte);
  mt_metadata : gset (list byte);
  mt_trust_roots : gset (list byte);
  mt_trust_metadata : gset (list byte);
  mt_audit_segments : list N;
  mt_audit_total : N
}.
Definition empty_tally : ManifestTally :=
  {| mt_paths := ∅; mt_identities := []; mt_total := 0; mt_pointers := 0; mt_current_found := false; mt_admin_hashes := 0;
     mt_chains := ∅; mt_keys := ∅; mt_metadata := ∅; mt_trust_roots := ∅; mt_trust_metadata := ∅; mt_audit_segments := [];
     mt_audit_total := 0 |}.
(** What the loop notes down for every artifact, before it looks at the kind. *)
Definition tally_common (a : BackupArtifactDescriptor) (total : N) (t : ManifestTally) : ManifestTally :=
  {| mt_paths := {[ba_relative_logical_path a]} ∪ mt_paths t; mt_identities := (ba_kind a, ba_logical_id a) :: mt_identities t;
     mt_total := total; mt_pointers := mt_pointers t; mt_current_found := mt_current_found t;
     mt_admin_hashes := mt_admin_hashes t; mt_chains := mt_chains t; mt_keys := mt_keys t; mt_metadata := mt_metadata t;
     mt_trust_roots := mt_trust_roots t; mt_trust_metadata := mt_trust_metadata t;
     mt_audit_segments := mt_audit_segments t; mt_audit_total := mt_audit_total t |}.
Definition tally_counts (pointers : N) (current_found : bool) (admin_hashes : N) (t : ManifestTally) : ManifestTally :=
  {| mt_paths := mt_paths t; mt_identities := mt_identities t; mt_total := mt_total t; mt_pointers := pointers;
     mt_current_found := current_found; mt_admin_hashes := admin_hashes; mt_chains := mt_chains t; mt_keys := mt_keys t;
     mt_metadata := mt_metadata t; mt_trust_roots := mt_trust_roots t; mt_trust_metadata := mt_trust_metadata t;
     mt_audit_segments := mt_audit_segments t; mt_audit_total := mt_audit_total t |}.
Definition tally_certificates (chains keys metadata : gset (list byte)) (t : ManifestTally) : ManifestTally :=
  {| mt_paths := mt_paths t; mt_identities := mt_identities t; mt_total := mt_total t; mt_pointers := mt_pointers t;
     mt_current_found := mt_current_found t; mt_admin_hashes := mt_admin_hashes t; mt_chains := chains; mt_keys := keys;
     mt_metadata := metadata; mt_trust_roots := mt_trust_roots t; mt_trust_metadata := mt_trust_metadata t;
     mt_audit_segments := mt_audit_segments t; mt_audit_total := mt_audit_total t |}.
Definition tally_trust (roots metadata : gset (list byte)) (t : ManifestTally) : ManifestTally :=
  {| mt_paths := mt_paths t; mt_identities := mt_identities t; mt_total := mt_total t; mt_pointers := mt_pointers t;
     mt_current_found := mt_current_found t; mt_admin_hashes := mt_admin_hashes t; mt_chains := mt_chains t;
     mt_keys := mt_keys t; mt_metadata := mt_metadata t; mt_trust_roots := roots; mt_trust_metadata := metadata;
     mt_audit_segments := mt_audit_segments t; mt_audit_total := mt_audit_total t |}.
Definition tally_audit (segments : list N) (total : N) (t : ManifestTally) : ManifestTally :=
  {| mt_paths := mt_paths t; mt_identities := mt_identities t; mt_total := mt_total t; mt_pointers := mt_pointers t;
     mt_current_found := mt_current_found t; mt_admin_hashes := mt_admin_hashes t; mt_chains := mt_chains t;
     mt_keys := mt_keys t; mt_metadata := mt_metadata t; mt_trust_roots := mt_trust_roots t;
     mt_trust_metadata := mt_trust_metadata t; mt_audit_segments := segments; mt_audit_total := total |}.
Definition tally_kind (m : BackupManifest) (limits : BackupLimits) (a : BackupArtifactDescriptor) (t : ManifestTally)
  : result AppError ManifestTally :=
  let id := ba_logical_id a in
  match ba_kind a with
  | ConfigRevisionPointer => Ok (tally_counts (mt_pointers t + 1) (mt_current_found t) (mt_admin_hashes t) t)
  | ConfigRevisionArtifact =>
      Ok (if bool_decide (id = bm_current_revision_id m) then tally_counts (mt_pointers t) true (mt_admin_hashes t) t else t)
  | CertificateChain => Ok (tally_certificates ({[id]} ∪ mt_chains t) (mt_keys t) (mt_metadata t) t)
  | CertificatePrivateKey => Ok (tally_certificates (mt_chains t) ({[id]} ∪ mt_keys t) (mt_metadata t) t)
  | CertificateMetadataArtifact => Ok (tally_certificates (mt_chains t) (mt_keys t) ({[id]} ∪ mt_metadata t) t)
  | TrustBundleRoots => Ok (tally_trust ({[id]} ∪ mt_trust_roots t) (mt_trust_metadata t) t)
  | TrustBundleMetadata => Ok (tally_trust (mt_trust_roots t) ({[id]} ∪ mt_trust_metadata t) t)
  | AdminPasswordHash => Ok (tally_counts (mt_pointers t) (mt_current_found t) (mt_admin_hashes t + 1) t)
  | AuditLedgerSegment =>
      let? number := ok_or (parse_uint U64_MAX id) (backup_error BackupManifestInvalid) in
      if (number =? 0) || negb (len id =? 16) || (bl_max_audit_segment_bytes limits <? ba_length_bytes a)
      then refuse BackupLimitExceeded
      else if U64_MAX <? mt_audit_total t + ba_length_bytes a then refuse BackupLimitExceeded
      else Ok (tally_audit (mt_audit_segments t ++ [number]) (mt_audit_total t + ba_length_bytes a) t)
  | UnknownArtifact _ => refuse BackupManifestInvalid
  end.
Definition tally_artifact (m : BackupManifest) (limits : BackupLimits) (a : BackupArtifactDescriptor) (t : ManifestTally)
  : result AppError ManifestTally :=
  let? _ := validate_logical_path (ba_relative_logical_path a) limits in
  let? _ := validate_identity (ba_logical_id a) in
  let? _ := validate_kind_path a in
  if bool_decide (ba_relative_logical_path a ∈ mt_paths t)
     || bool_decide ((ba_kind a, ba_logical_id a) ∈ mt_identities t) || negb (ba_required_for_restore a)
  then refuse BackupManifestInvalid
  else
    let? _ := validate_mode a in
    if (bl_max_single_artifact_bytes limits <? ba_length_bytes a)
       || (is_config_or_secret (ba_kind a) && (bl_max_config_or_secret_bytes limits <? ba_length_bytes a))
    then refuse BackupLimitExceeded
    else
      let total := mt_total t + ba_length_bytes a in
      if U64_MAX <? total then refuse BackupLimitExceeded
      else if bl_max_total_plaintext_bytes limits <? total then refuse BackupLimitExceeded
      else tally_kind m limits a (tally_common a total t).
Fixpoint tally_artifacts (m : BackupManifest) (limits : BackupLimits) (l : list BackupArtifactDescriptor) (t : ManifestTally)
  : result AppError ManifestTally :=
  match l with
  | [] => Ok t
  | a :: rest => let? t := tally_artifact m limits a t in tally_artifacts m limits rest t
  end.
(** [windows(2).any]. *)
Fixpoint any_adjacent {A} (f : A → A → bool) (l : list A) : bool :=
  match l with
  | a :: (b :: _) as rest => f a b || any_adjacent f rest
  | _ => false
  end.
Definition not_before (a b : BackupArtifactDescriptor) : bool :=
  match bytes_compare (ba_relative_logical_path a) (ba_relative_logical_path b) with Lt => false | _ => true end.
(** [checked_add] of two numbers of 64 bits. *)
Definition not_next (a b : N) : bool := if U64_MAX <? a + 1 then true else negb (a + 1 =? b).
Fixpoint check_references (available : gset (list byte)) (refs : list (list byte)) (seen : gset (list byte))
  : result AppError () :=
  match refs with
  | [] => Ok ()
  | r :: rest =>
      let? _ := validate_identity r in
      if bool_decide (r ∈ seen) || negb (bool_decide (r ∈ available)) then refuse BackupManifestInvalid
      else check_references available rest ({[r]} ∪ seen)
  end.
Definition tally_refused (m : BackupManifest) (limits : BackupLimits) (t : ManifestTally) : bool :=
  negb (mt_total t =? bm_total_plaintext_bytes m)
  || negb (mt_pointers t =? 1)
  || negb (mt_current_found t)
  || (bm_admin_initialized m && negb (mt_admin_hashes t =? 1))
  || (negb (bm_admin_initialized m) && negb (mt_admin_hashes t =? 0))
  || negb (bool_decide (mt_chains t = mt_keys t))
  || negb (bool_decide (mt_chains t = mt_metadata t))
  || negb (bool_decide (mt_trust_roots t = mt_trust_metadata t))
  || (bl_max_audit_segments limits <? len (mt_audit_segments t))
  || (bl_max_audit_total_bytes limits <? mt_audit_total t)
  || any_adjacent not_next (mt_audit_segments t)
  || ((bm_schema_version m =? 1)
      && (negb (bool_decide (mt_trust_roots t = ∅)) || negb (bool_decide (bm_referenced_trust_bundle_refs m = []))))
  || ((bm_schema_version m <? 3) && negb (bool_decide (mt_audit_segments t = []))).
Definition manifest_validate (m : BackupManifest) (limits : BackupLimits) : result AppError () :=
  if negb ((1 <=? bm_schema_version m) && (bm_schema_version m <=? 3))
     || (bl_max_schema_version limits <? bm_schema_version m) || negb (bm_source_layout_version m =? 1)
  then refuse BackupSchemaUnsupported
  else
    let? _ := validate_identity (bm_archive_id m) in
    let? _ := validate_identity (bm_current_revision_id m) in
    if bool_decide (bm_source_app_version m = []) || negb (bm_artifact_count m =? len (bm_artifacts m))
    then refuse BackupManifestInvalid
    else if bl_max_artifacts limits <? bm_artifact_count m then refuse BackupLimitExceeded
    else if any_adjacent not_before (bm_artifacts m) then refuse BackupManifestInvalid
    else
      let? t := tally_artifacts m limits (bm_artifacts m) empty_tally in
      if tally_refused m limits t then refuse BackupManifestInvalid
      else
        let? _ := check_references (mt_chains t) (bm_referenced_certificate_refs m) ∅ in
        check_references (mt_trust_roots t) (bm_referenced_trust_bundle_refs m) ∅.

(** ** The secret *)
Definition SENSITIVE_MAX_BYTES : N := 4096.
Definition SensitiveString := list byte.
Definition SensitiveString_new (value : list byte) : result AppError SensitiveString :=
  if bool_decide (value = []) || (SENSITIVE_MAX_BYTES <? len value) then refuse BackupSecretInputInvalid else Ok value.
Definition SensitiveString_from_utf8 (bytes : list byte) : result AppError SensitiveString :=
  if utf8_valid bytes then SensitiveString_new bytes else refuse BackupSecretInputInvalid.

(** ** Creating: states *)
Inductive BackupState :=
| BackupIdle | BackupLocking | Inventorying | BackupValidating | OpeningEncryptedEnvelope | StreamingEncryptedRecords
| FinalizingEnvelope | BackupSyncing | BackupPublishing | BackupCompleted
| BackupCleaningUp (error_code : ErrorCode) | BackupFailed (error_code : ErrorCode).
#[global] Instance BackupState_eq_dec : EqDecision BackupState. Proof. solve_decision. Defined.
Inductive BackupEvent :=
| BackupStart | BackupLockAcquired | InventoryBuilt | InventoryValidated | BackupEnvelopeOpened | EncryptedRecordWritten
| BackupEnvelopeAuthenticated | EnvelopeFinalized | FileSynced | RenameCommitted | BackupOperationFailed (code : ErrorCode)
| BackupCleanupFinished.
Definition backup_transition (s : BackupState) (e : BackupEvent) : result AppError BackupState :=
  match s, e with
  | BackupIdle, BackupStart => Ok BackupLocking
  | BackupLocking, BackupLockAcquired => Ok Inventorying
  | Inventorying, InventoryBuilt => Ok BackupValidating
  | BackupValidating, InventoryValidated => Ok OpeningEncryptedEnvelope
  | OpeningEncryptedEnvelope, BackupEnvelopeOpened => Ok StreamingEncryptedRecords
  | StreamingEncryptedRecords, EncryptedRecordWritten => Ok StreamingEncryptedRecords
  | StreamingEncryptedRecords, BackupEnvelopeAuthenticated => Ok FinalizingEnvelope
  | FinalizingEnvelope, EnvelopeFinalized => Ok BackupSyncing
  | BackupSyncing, FileSynced => Ok BackupPublishing
  | BackupPublishing, RenameCommitted => Ok BackupCompleted
  | (BackupCompleted | BackupFailed _ | BackupCleaningUp _), BackupOperationFailed _ => refuse BackupStateTransitionInvalid
  | _, BackupOperationFailed code => Ok (BackupCleaningUp code)
  | BackupCleaningUp code, BackupCleanupFinished => Ok (BackupFailed code)
  | _, _ => refuse BackupStateTransitionInvalid
  end.

(** ** Restoring: states *)
Inductive RestoreState :=
| RestoreIdle | RestoreLocking | RestoreOpening | Authenticating | ReadingManifest | ExtractingStage | VerifyingArtifacts
| ValidatingConfig | ValidatingCertificates | ValidatingSecrets | ValidatingAudit | PreflightingRuntime | PreparingCommit
| WritingTransaction | Committing | VerifyingPublishedTarget | RecordingProvenance | RestoreCompleted
| AuditDegradedCommitted (error_code : ErrorCode) | RollingBack (error_code : ErrorCode) | RecoveringInterruptedCommit
| RestoreCleaningUp (error_code : ErrorCode) | RestoreFailed (error_code : ErrorCode).
#[global] Instance RestoreState_eq_dec : EqDecision RestoreState. Proof. solve_decision. Defined.
Inductive RestoreEvent :=
| RestoreStart | RecoveryRequested | RestoreLockAcquired | RestoreEnvelopeOpened | RestoreEnvelopeAuthenticated | ManifestRead
| StageCreated | StageExtracted | ArtifactsVerified | ConfigValidated | CertificatesValidated | SecretsValidated
| AuditValidated | RuntimePreflighted | CommitPrepared | NewTargetCommitPrepared | TransactionPersisted
| TargetMovedToRollback | EvStagePublished | PublishedTargetVerified | ProvenancePersisted | ProvenanceNotRequired
| ProvenanceAppendFailed (code : ErrorCode) | RollbackRequested (code : ErrorCode) | RollbackRestored
| InterruptedTransactionRecovered | RestoreOperationFailed (code : ErrorCode) | RestoreCleanupFinished.
Definition restore_transition (s : RestoreState) (e : RestoreEvent) : result AppError RestoreState :=
  match s, e with
  | RestoreIdle, RestoreStart => Ok RestoreLocking
  | RestoreIdle, RecoveryRequested => Ok RecoveringInterruptedCommit
  | RestoreLocking, RestoreLockAcquired => Ok RestoreOpening
  | RestoreOpening, RestoreEnvelopeOpened => Ok Authenticating
  | Authenticating, RestoreEnvelopeAuthenticated => Ok ReadingManifest
  | ReadingManifest, ManifestRead => Ok ExtractingStage
  | ExtractingStage, StageCreated => Ok ExtractingStage
  | ExtractingStage, StageExtracted => Ok VerifyingArtifacts
  | VerifyingArtifacts, ArtifactsVerified => Ok ValidatingConfig
  | ValidatingConfig, ConfigValidated => Ok ValidatingCertificates
  | ValidatingCertificates, CertificatesValidated => Ok ValidatingSecrets
  | ValidatingSecrets, SecretsValidated => Ok ValidatingAudit
  | ValidatingAudit, AuditValidated => Ok PreflightingRuntime
  | PreflightingRuntime, RuntimePreflighted => Ok PreparingCommit
  | PreparingCommit, NewTargetCommitPrepared => Ok Committing
  | PreparingCommit, CommitPrepared => Ok WritingTransaction
  | WritingTransaction, TransactionPersisted => Ok Committing
  | Committing, TargetMovedToRollback => Ok Committing
  | Committing, EvStagePublished => Ok VerifyingPublishedTarget
  | VerifyingPublishedTarget, PublishedTargetVerified => Ok RecordingProvenance
  | RecordingProvenance, ProvenancePersisted => Ok RestoreCompleted
  | RecordingProvenance, ProvenanceNotRequired => Ok RestoreCompleted
  | RecordingProvenance, ProvenanceAppendFailed code => Ok (AuditDegradedCommitted code)
  | Committing, RollbackRequested code => Ok (RollingBack code)
  | RollingBack code, RollbackRestored => Ok (RestoreCleaningUp code)
  | RecoveringInterruptedCommit, InterruptedTransactionRecovered => Ok VerifyingPublishedTarget
  | (RestoreCompleted | AuditDegradedCommitted _ | RestoreFailed _ | RestoreCleaningUp _), RestoreOperationFailed _ =>
      refuse RestoreStateTransitionInvalid
  | _, RestoreOperationFailed code => Ok (RestoreCleaningUp code)
  | RestoreCleaningUp code, RestoreCleanupFinished => Ok (RestoreFailed code)
  | _, _ => refuse RestoreStateTransitionInvalid
  end.

(** ** What an accepted manifest promises *)
Definition ids_of (kind : BackupArtifactKind) (l : list BackupArtifactDescriptor) : list (list byte) :=
  ba_logical_id <$> filter (λ a, ba_kind a = kind) l.
Definition audit_segment_number (id : list byte) : N := default 0 (parse_uint U64_MAX id).
Definition sum_lengths (l : list BackupArtifactDescriptor) : N := foldr (λ a n, ba_length_bytes a + n) 0 l.
(** A path that stays inside the directory it is joined to. *)
Definition path_inside (path : list byte) : Prop :=
  ∀ segment, segment ∈ split_byte x2f path → segment ≠ [] ∧ segment ≠ lit "." ∧ segment ≠ lit "..".
Record artifact_ok (limits : BackupLimits) (a : BackupArtifactDescriptor) : Prop := {
  ao_path : artifact_path (ba_kind a) (ba_logical_id a) = Some (ba_relative_logical_path a);
  ao_inside : path_inside (ba_relative_logical_path a);
  ao_path_length : len (ba_relative_logical_path a) ≤ bl_max_logical_path_bytes limits;
  ao_identity : validate_identity (ba_logical_id a) = Ok ();
  ao_secret : ba_mode a = OwnerOnly ↔ ba_kind a = CertificatePrivateKey ∨ ba_kind a = AdminPasswordHash;
  ao_required : ba_required_for_restore a = true;
  ao_length : ba_length_bytes a ≤ bl_max_single_artifact_bytes limits
}.

Lemma validate_path_inside path limits :
  validate_logical_path path limits = Ok () → path_inside path ∧ len path ≤ bl_max_logical_path_bytes limits.
Proof.
  unfold validate_logical_path. destruct (bl_max_logical_path_bytes _ <? _) eqn:El; [done|].
  destruct (_ || _); [done|]. cbv zeta. destruct (bl_max_nesting_depth _ <? _); [done|].
  destruct (existsb _ _) eqn:Ex; [done|]. intros _. split; [|by apply N.ltb_ge].
  intros s Hs. apply list_elem_of_In in Hs.
  destruct (bool_decide (s = []) || dot_segment s) eqn:E.
  { assert (existsb (λ segment, bool_decide (segment = []) || dot_segment segment) (split_byte x2f path) = true) as Ht
      by (apply existsb_exists; by exists s). congruence. }
  unfold dot_segment in E. rewrite !orb_false_iff, !bool_decide_eq_false in E. tauto.
Qed.
Lemma validate_kind_path_ok a :
  validate_kind_path a = Ok () → artifact_path (ba_kind a) (ba_logical_id a) = Some (ba_relative_logical_path a).
Proof.
  unfold validate_kind_path. destruct (_ && _); [done|]. destruct (_ && _); [done|].
  destruct (artifact_path _ _); [|done]. case_bool_decide; [|done]. intros _. congruence.
Qed.
Lemma validate_mode_ok a :
  validate_mode a = Ok () → ba_mode a = OwnerOnly ↔ ba_kind a = CertificatePrivateKey ∨ ba_kind a = AdminPasswordHash.
Proof.
  unfold validate_mode. destruct a as [kind ? ? ? ? mode ?]; cbn. destruct kind, mode; cbn; try done; intros _; naive_solver.
Qed.

(** What the loop has noted down after some artifacts. *)
Record tallied (m : BackupManifest) (limits : BackupLimits) (l : list BackupArtifactDescriptor) (t t' : ManifestTally) : Prop := {
  ta_ok : Forall (artifact_ok limits) l;
  ta_total : mt_total t' = mt_total t + sum_lengths l;
  ta_bound : mt_total t ≤ bl_max_total_plaintext_bytes limits → mt_total t' ≤ bl_max_total_plaintext_bytes limits;
  ta_pointers : mt_pointers t' = mt_pointers t + len (ids_of ConfigRevisionPointer l);
  ta_current : mt_current_found t' = mt_current_found t || bool_decide (bm_current_revision_id m ∈ ids_of ConfigRevisionArtifact l);
  ta_admin : mt_admin_hashes t' = mt_admin_hashes t + len (ids_of AdminPasswordHash l);
  ta_chains : mt_chains t' = list_to_set (ids_of CertificateChain l) ∪ mt_chains t;
  ta_keys : mt_keys t' = list_to_set (ids_of CertificatePrivateKey l) ∪ mt_keys t;
  ta_metadata : mt_metadata t' = list_to_set (ids_of CertificateMetadataArtifact l) ∪ mt_metadata t;
  ta_roots : mt_trust_roots t' = list_to_set (ids_of TrustBundleRoots l) ∪ mt_trust_roots t;
  ta_trust_metadata : mt_trust_metadata t' = list_to_set (ids_of TrustBundleMetadata l) ∪ mt_trust_metadata t;
  ta_segments : mt_audit_segments t' = mt_audit_segments t ++ (audit_segment_number <$> ids_of AuditLedgerSegment l);
  ta_identities : mt_identities t' = reverse ((λ a, (ba_kind a, ba_logical_id a)) <$> l) ++ mt_identities t;
  ta_distinct : NoDup (mt_identities t) → NoDup (mt_identities t')
}.
Lemma ids_of_cons kind a l : ids_of kind (a :: l) = ids_of kind [a] ++ ids_of kind l.
Proof. unfold ids_of. rewrite !filter_cons, filter_nil. by destruct (decide _). Qed.
Lemma tallied_nil m limits t : tallied m limits [] t t.
Proof.
  split; cbn; try done; try set_solver; try (change (len []) with 0; lia).
  - by destruct (mt_current_found t).
  - by rewrite app_nil_r.
Qed.
Lemma union_rotate (X Y Z : gset (list byte)) : X ∪ (Y ∪ Z) = (Y ∪ X) ∪ Z.
Proof. set_solver. Qed.
Lemma tallied_cons m limits a l t t1 t2 :
  tallied m limits [a] t t1 → tallied m limits l t1 t2 → tallied m limits (a :: l) t t2.
Proof.
  intros H1 H2. split; rewrite ?(ids_of_cons _ a l), ?len_app, ?list_to_set_app_L.
  - constructor; [by inversion_clear H1 as [Ho]; inversion Ho|by apply H2].
  - rewrite (ta_total _ _ _ _ _ H2), (ta_total _ _ _ _ _ H1). unfold sum_lengths. cbn. lia.
  - intros Hb. by apply H2, H1.
  - rewrite (ta_pointers _ _ _ _ _ H2), (ta_pointers _ _ _ _ _ H1). lia.
  - rewrite (ta_current _ _ _ _ _ H2), (ta_current _ _ _ _ _ H1), <-orb_assoc. f_equal.
    destruct (decide (bm_current_revision_id m ∈ ids_of ConfigRevisionArtifact [a])) as [Ha|Ha].
    + rewrite (bool_decide_eq_true_2 _ Ha). symmetry. apply bool_decide_eq_true_2, elem_of_app. by left.
    + rewrite (bool_decide_eq_false_2 _ Ha). apply bool_decide_ext. rewrite elem_of_app. tauto.
  - rewrite (ta_admin _ _ _ _ _ H2), (ta_admin _ _ _ _ _ H1). lia.
  - rewrite (ta_chains _ _ _ _ _ H2), (ta_chains _ _ _ _ _ H1). apply union_rotate.
  - rewrite (ta_keys _ _ _ _ _ H2), (ta_keys _ _ _ _ _ H1). apply union_rotate.
  - rewrite (ta_metadata _ _ _ _ _ H2), (ta_metadata _ _ _ _ _ H1). apply union_rotate.
  - rewrite (ta_roots _ _ _ _ _ H2), (ta_roots _ _ _ _ _ H1). apply union_rotate.
  - rewrite (ta_trust_metadata _ _ _ _ _ H2), (ta_trust_metadata _ _ _ _ _ H1). apply union_rotate.
  - rewrite (ta_segments _ _ _ _ _ H2), (ta_segments _ _ _ _ _ H1), fmap_app. by rewrite app_assoc.
  - rewrite (ta_identities _ _ _ _ _ H2), (ta_identities _ _ _ _ _ H1), !fmap_cons, fmap_nil, !reverse_cons, reverse_nil. cbn [app].
    by rewrite <-app_assoc.
  - intros Hd. by apply H2, H1.
Qed.

Lemma ids_of_one kind a : ids_of kind [a] = if decide (ba_kind a = kind) then [ba_logical_id a] else [].
Proof. unfold ids_of. rewrite filter_cons, filter_nil. by destruct (decide _). Qed.
Ltac next_check H :=
  match type of H with context [if ?b then _ else _] => destruct b eqn:?; [done|] end.
(** What the kind adds. *)
Record kind_tallied (m : BackupManifest) (a : BackupArtifactDescriptor) (t t' : ManifestTally) : Prop := {
  tk_total : mt_total t' = mt_total t;
  tk_identities : mt_identities t' = mt_identities t;
  tk_pointers : mt_pointers t' = mt_pointers t + len (ids_of ConfigRevisionPointer [a]);
  tk_current : mt_current_found t' = mt_current_found t || bool_decide (bm_current_revision_id m ∈ ids_of ConfigRevisionArtifact [a]);
  tk_admin : mt_admin_hashes t' = mt_admin_hashes t + len (ids_of AdminPasswordHash [a]);
  tk_chains : mt_chains t' = list_to_set (ids_of CertificateChain [a]) ∪ mt_chains t;
  tk_keys : mt_keys t' = list_to_set (ids_of CertificatePrivateKey [a]) ∪ mt_keys t;
  tk_metadata : mt_metadata t' = list_to_set (ids_of CertificateMetadataArtifact [a]) ∪ mt_metadata t;
  tk_roots : mt_trust_roots t' = list_to_set (ids_of TrustBundleRoots [a]) ∪ mt_trust_roots t;
  tk_trust_metadata : mt_trust_metadata t' = list_to_set (ids_of TrustBundleMetadata [a]) ∪ mt_trust_metadata t;
  tk_segments : mt_audit_segments t' = mt_audit_segments t ++ (audit_segment_number <$> ids_of AuditLedgerSegment [a])
}.
Lemma no_ids (X : gset (list byte)) : list_to_set [] ∪ X = X.
Proof. set_solver. Qed.
Lemma one_id (x : list byte) (X : gset (list byte)) : list_to_set [x] ∪ X = {[x]} ∪ X.
Proof. set_solver. Qed.
Ltac tally_field Hk :=
  rewrite ?ids_of_one, ?Hk;
  try (match goal with |- context [decide ?P] => destruct (decide P) as [Hd|Hd]; [try discriminate Hd|try by destruct Hd] end);
  rewrite ?no_ids, ?one_id, ?app_nil_r, ?orb_false_r; try done; try (change (len []) with 0; cbn; lia).
Lemma tally_kind_ok m limits a t t' : tally_kind m limits a t = Ok t' → kind_tallied m a t t'.
Proof.
  unfold tally_kind. destruct (ba_kind a) eqn:Hk; cbv zeta; try done.
  1: case_bool_decide as Hid.
  1-9: intros [= <-]; split; tally_field Hk.
  - symmetry. rewrite bool_decide_eq_true_2 by (rewrite <-Hid; by apply list_elem_of_singleton). apply orb_true_r.
  - rewrite bool_decide_eq_false_2; [by rewrite orb_false_r|]. intros Heq%list_elem_of_singleton. by apply Hid.
  - destruct (parse_uint _ _) as [n|] eqn:En; [|done]. cbn [ok_or]. destruct (_ || _); [done|].
    destruct (_ <? _); [done|]. intros [= <-]. split; tally_field Hk. cbn. unfold audit_segment_number. by rewrite En.
Qed.
Lemma tally_artifact_ok m limits a t t' : tally_artifact m limits a t = Ok t' → tallied m limits [a] t t'.
Proof.
  unfold tally_artifact.
  destruct (validate_logical_path _ _) as [[]|] eqn:Ep; [|done]. destruct (validate_identity _) as [[]|] eqn:Ei; [|done].
  destruct (validate_kind_path a) as [[]|] eqn:Ek; [|done]. intros H. next_check H.
  destruct (validate_mode a) as [[]|] eqn:Em; [|done]. next_check H. cbv zeta in H. next_check H. next_check H.
  rewrite !orb_false_iff, ?negb_false_iff, ?bool_decide_eq_false, ?N.ltb_ge in *.
  apply validate_path_inside in Ep as [Hin Hlen].
  assert (Hok : artifact_ok limits a).
  { split; try done; [by apply validate_kind_path_ok|by apply validate_mode_ok|tauto|tauto]. }
  assert (Hids : NoDup (mt_identities t) → NoDup ((ba_kind a, ba_logical_id a) :: mt_identities t)).
  { intros Hd. constructor; [tauto|done]. }
  assert (Hsum : mt_total t + ba_length_bytes a = mt_total t + sum_lengths [a]) by (unfold sum_lengths; cbn; lia).
  assert (Hall : Forall (artifact_ok limits) [a]) by by constructor.
  apply (tally_kind_ok m limits a (tally_common a (mt_total t + ba_length_bytes a) t)) in H as [].
  split; cbn in *; by rewrite ?tk_total0, ?tk_identities0.
Qed.
Lemma tally_artifacts_ok m limits l t t' : tally_artifacts m limits l t = Ok t' → tallied m limits l t t'.
Proof.
  revert t. induction l as [|a l IH]; intros t; cbn [tally_artifacts]; [intros [= <-]; apply tallied_nil|].
  destruct (tally_artifact m limits a t) as [t1|] eqn:E; [|done]. intros H.
  apply (tallied_cons _ _ _ _ _ t1); [by apply tally_artifact_ok|by apply IH].
Qed.
Lemma references_ok available refs seen :
  check_references available refs seen = Ok () →
  NoDup refs ∧ Forall (λ r, validate_identity r = Ok ()) refs ∧ (∀ r, r ∈ refs → r ∈ available ∧ r ∉ seen).
Proof.
  revert seen. induction refs as [|r refs IH]; intros seen; cbn [check_references].
  { intros _. split_and!; [constructor|constructor|set_solver]. }
  destruct (validate_identity r) as [[]|] eqn:Ei; [|done]. destruct (_ || _) eqn:E; [done|].
  rewrite orb_false_iff, negb_false_iff, bool_decide_eq_false, bool_decide_eq_true in E. intros (Hd & Hi & Hin)%IH. split_and!; [| by constructor|].
  - constructor; [|done]. intros [_ Hr]%Hin. set_solver.
  - intros x [->|Hx]%elem_of_cons; [tauto|]. apply Hin in Hx. set_solver.
Qed.
Lemma adjacent_none {A} (f : A → A → bool) l :
  any_adjacent f l = false → ∀ i a b, l !! i = Some a → l !! S i = Some b → f a b = false.
Proof.
  induction l as [|x [|y l] IH]; cbn [any_adjacent]; [done| |].
  - intros _ [|i] a b; [done|]. by destruct i.
  - intros [Hxy Hl]%orb_false_iff [|i] a b; [by intros [= <-] [= <-]|]. by apply IH.
Qed.
Lemma bytes_before_trans a b c : bytes_compare a b = Lt → bytes_compare b c = Lt → bytes_compare a c = Lt.
Proof.
  revert b c. induction a as [|x a IH]; intros [|y b] [|z c]; cbn; try done.
  destruct (N.compare_spec (u8 x) (u8 y)) as [Exy|Exy|Exy], (N.compare_spec (u8 y) (u8 z)) as [Eyz|Eyz|Eyz]; try done; intros H1 H2.
  - rewrite (proj2 (N.compare_eq_iff _ _)) by congruence. by apply (IH b).
  - rewrite (proj2 (N.compare_lt_iff _ _)) by congruence. done.
  - rewrite (proj2 (N.compare_lt_iff _ _)) by congruence. done.
  - rewrite (proj2 (N.compare_lt_iff _ _)) by lia. done.
Qed.
Lemma bytes_before_irrefl a : bytes_compare a a ≠ Lt.
Proof. induction a as [|x a IH]; cbn; [done|]. by rewrite N.compare_refl. Qed.
Lemma sorted_paths_distinct l : any_adjacent not_before l = false → NoDup (ba_relative_logical_path <$> l).
Proof.
  assert (Hs : any_adjacent not_before l = false →
               StronglySorted (λ a b, bytes_compare (ba_relative_logical_path a) (ba_relative_logical_path b) = Lt) l).
  { intros H. apply Sorted_StronglySorted; [intros a b c; apply bytes_before_trans|]. revert H.
    induction l as [|a [|b l] IH]; cbn [any_adjacent]; [by constructor|by repeat constructor|].
    intros [Hab Hl]%orb_false_iff. constructor; [by apply IH|]. constructor. unfold not_before in Hab. by destruct (bytes_compare _ _). }
  intros Ha. specialize (Hs Ha). clear Ha. induction Hs as [|a l _ IH Hf]; [constructor|]. cbn. constructor; [|done].
  intros (b & Heq & Hb)%list_elem_of_fmap. rewrite Forall_forall in Hf. specialize (Hf b Hb). cbn in Hf.
  rewrite Heq in Hf. by apply bytes_before_irrefl in Hf.
Qed.

(** What is known of a manifest that was accepted. *)
Record manifest_described (m : BackupManifest) (limits : BackupLimits) (l : list BackupArtifactDescriptor) : Prop := {
  md_schema : 1 ≤ bm_schema_version m ≤ 3 ∧ bm_source_layout_version m = 1;
  md_archive_id : validate_identity (bm_archive_id m) = Ok ();
  md_revision_id : validate_identity (bm_current_revision_id m) = Ok ();
  md_artifacts : Forall (artifact_ok limits) l;
  md_paths : NoDup (ba_relative_logical_path <$> l);
  md_names : NoDup ((λ a, (ba_kind a, ba_logical_id a)) <$> l);
  md_count : bm_artifact_count m = len l;
  md_count_bound : len l ≤ bl_max_artifacts limits;
  md_total : bm_total_plaintext_bytes m = sum_lengths l;
  md_total_bound : sum_lengths l ≤ bl_max_total_plaintext_bytes limits;
  md_pointer : len (ids_of ConfigRevisionPointer l) = 1;
  md_current : bm_current_revision_id m ∈ ids_of ConfigRevisionArtifact l;
  md_admin : len (ids_of AdminPasswordHash l) = (if bm_admin_initialized m then 1 else 0);
  md_certificates : ∀ id, (id ∈ ids_of CertificateChain l ↔ id ∈ ids_of CertificatePrivateKey l)
                          ∧ (id ∈ ids_of CertificateChain l ↔ id ∈ ids_of CertificateMetadataArtifact l);
  md_bundles : ∀ id, id ∈ ids_of TrustBundleRoots l ↔ id ∈ ids_of TrustBundleMetadata l;
  md_certificate_refs : NoDup (bm_referenced_certificate_refs m)
                        ∧ Forall (λ r, validate_identity r = Ok ()) (bm_referenced_certificate_refs m)
                        ∧ ∀ id, id ∈ bm_referenced_certificate_refs m → id ∈ ids_of CertificateChain l;
  md_bundle_refs : NoDup (bm_referenced_trust_bundle_refs m)
                   ∧ Forall (λ r, validate_identity r = Ok ()) (bm_referenced_trust_bundle_refs m)
                   ∧ ∀ id, id ∈ bm_referenced_trust_bundle_refs m → id ∈ ids_of TrustBundleRoots l;
  md_old_schema : bm_schema_version m = 1 → bm_referenced_trust_bundle_refs m = [];
  md_segments : ∀ i a b, (audit_segment_number <$> ids_of AuditLedgerSegment l) !! i = Some a →
    (audit_segment_number <$> ids_of AuditLedgerSegment l) !! S i = Some b → b = a + 1
}.
Lemma accepted_described m limits : manifest_validate m limits = Ok () → manifest_described m limits (bm_artifacts m).
Proof.
  unfold manifest_validate. destruct (_ || _) eqn:Eschema; [done|]. destruct (validate_identity (bm_archive_id m)) as [[]|] eqn:Eid; [|done].
  destruct (validate_identity (bm_current_revision_id m)) as [[]|] eqn:Erev; [|done].
  destruct (bool_decide (bm_source_app_version m = []) || _) eqn:Ecount; [done|].
  destruct (bl_max_artifacts limits <? _) eqn:Emax; [done|]. destruct (any_adjacent not_before _) eqn:Es; [done|].
  destruct (tally_artifacts _ _ _ _) as [t|] eqn:Et; [|done]. destruct (tally_refused m limits t) eqn:Er; [done|].
  destruct (check_references (mt_chains t) _ _) as [[]|] eqn:Ec; [|done]. intros Eb. set (l := bm_artifacts m) in *.
  apply tally_artifacts_ok in Et. apply references_ok in Ec as (Hcd & Hci & Hc). apply references_ok in Eb as (Hbd & Hbi & Hb).
  unfold tally_refused in Er. rewrite !orb_false_iff in Er. destruct_and?.
  rewrite ?negb_false_iff, ?N.eqb_eq, ?bool_decide_eq_true, ?N.ltb_ge, ?orb_false_iff in *. destruct Ecount as [_ Ecount].
  apply negb_false_iff, N.eqb_eq in Ecount. pose proof (ta_total _ _ _ _ _ Et) as Htot. cbn in Htot.
  pose proof (ta_bound _ _ _ _ _ Et) as Hbound. cbn in Hbound.
  rewrite (ta_pointers _ _ _ _ _ Et), (ta_current _ _ _ _ _ Et), (ta_admin _ _ _ _ _ Et), (ta_segments _ _ _ _ _ Et) in *.
  rewrite (ta_chains _ _ _ _ _ Et), (ta_keys _ _ _ _ _ Et), (ta_metadata _ _ _ _ _ Et), (ta_roots _ _ _ _ _ Et),
    (ta_trust_metadata _ _ _ _ _ Et) in *. cbn [mt_pointers mt_current_found mt_admin_hashes mt_audit_segments empty_tally orb app
    mt_chains mt_keys mt_metadata mt_trust_roots mt_trust_metadata] in *.
  destruct Eschema as [[[Hlo Hhi]%negb_false_iff%andb_true_iff _] Hlay%negb_false_iff%N.eqb_eq]. apply N.leb_le in Hlo, Hhi.
  assert (Hadm : len (ids_of AdminPasswordHash l) = (if bm_admin_initialized m then 1 else 0)).
  { destruct (bm_admin_initialized m); cbn in *; apply negb_false_iff, N.eqb_eq in H9 || apply negb_false_iff, N.eqb_eq in H10; lia. }
  assert (Hcert : ∀ id, (id ∈ ids_of CertificateChain l ↔ id ∈ ids_of CertificatePrivateKey l)
                        ∧ (id ∈ ids_of CertificateChain l ↔ id ∈ ids_of CertificateMetadataArtifact l)).
  { clear -H8 H7. set_solver. }
  assert (Htrust : ∀ id, id ∈ ids_of TrustBundleRoots l ↔ id ∈ ids_of TrustBundleMetadata l) by (clear -H6; set_solver).
  assert (Hcr : ∀ id, id ∈ bm_referenced_certificate_refs m → id ∈ ids_of CertificateChain l) by (clear -Hc; set_solver).
  assert (Hbr : ∀ id, id ∈ bm_referenced_trust_bundle_refs m → id ∈ ids_of TrustBundleRoots l) by (clear -Hb; set_solver).
  clear H8 H7 H6 Hc Hb. split; try done; try lia.
  - apply Et.
  - by apply sorted_paths_distinct.
  - pose proof (ta_distinct _ _ _ _ _ Et (NoDup_nil_2)) as Hd. rewrite (ta_identities _ _ _ _ _ Et), app_nil_r in Hd.
    by rewrite reverse_Permutation in Hd.
  - by apply bool_decide_eq_true in H11.
  - intros Hs. rewrite Hs in H2. cbn in H2. apply orb_false_iff in H2 as [_ H2]. by apply negb_false_iff, bool_decide_eq_true in H2.
  - intros i a b Ha Hi. eapply adjacent_none in H3; [|exact Ha|exact Hi]. unfold not_next in H3.
    destruct (U64_MAX <? _); [done|]. apply negb_false_iff, N.eqb_eq in H3. lia.
Qed.

(** C24: An accepted manifest describes a complete, bounded backup that stays inside its directory.
    Every artifact lies at the place of its kind and name, without empty or dot segments; no two share
    a place or a name; secrets and only they are for the owner alone; the byte count is the sum
    of the lengths and within the limit; there is exactly one pointer and the revision it is for; the
    administrator's hash is there exactly when it was set; every chain has its key and its
    metadata and the other way round, and so do trust bundles; every reference has its files; the
    audit segments follow one another without a gap. *)
Theorem manifest_complete (m : BackupManifest) (limits : BackupLimits) :
  manifest_validate m limits = Ok () → manifest_described m limits (bm_artifacts m).
Proof. apply accepted_described. Qed.

(** ** A small manifest *)
Definition plain_artifact (kind : BackupArtifactKind) (id path : string) (n : N) : BackupArtifactDescriptor :=
  {| ba_kind := kind; ba_logical_id := lit id; ba_relative_logical_path := lit path; ba_length_bytes := n;
     ba_sha256 := replicate 32 x07; ba_mode := match kind with CertificatePrivateKey => OwnerOnly | _ => PublicMode end;
     ba_required_for_restore := true |}.
Definition sample_artifacts : list BackupArtifactDescriptor :=
  [plain_artifact AuditLedgerSegment "0000000000000007" "audit/segments/0000000000000007" 9;
   plain_artifact AuditLedgerSegment "0000000000000008" "audit/segments/0000000000000008" 9;
   plain_artifact CertificateChain "web" "certificates/web/chain" 3;
   plain_artifact CertificateMetadataArtifact "web" "certificates/web/metadata" 4;
   plain_artifact CertificatePrivateKey "web" "certificates/web/private-key" 5;
   plain_artifact ConfigRevisionPointer "current" "config/current" 5;
   plain_artifact ConfigRevisionArtifact "rev-1" "config/revisions/rev-1" 10].
Definition sample_manifest : BackupManifest :=
  {| bm_schema_version := 3; bm_archive_id := lit "archive-1"; bm_created_at_epoch_seconds := 1700000000;
     bm_source_app_version := lit "0.1.0"; bm_source_layout_version := 1; bm_current_revision_id := lit "rev-1";
     bm_admin_initialized := false; bm_referenced_certificate_refs := [lit "web"]; bm_referenced_trust_bundle_refs := [];
     bm_artifact_count := 7; bm_total_plaintext_bytes := 45; bm_artifacts := sample_artifacts;
     bm_manifest_digest := replicate 32 x09 |}.
Lemma manifest_complete_witness :
  manifest_validate sample_manifest schema_v3 = Ok () ∧ NoDup (ba_relative_logical_path <$> sample_artifacts)
  ∧ bm_total_plaintext_bytes sample_manifest = sum_lengths sample_artifacts.
Proof.
  assert (manifest_validate sample_manifest schema_v3 = Ok ()) as Hv by (vm_compute; reflexivity).
  split; [exact Hv|]. pose proof (manifest_complete sample_manifest schema_v3 Hv) as [].
  by split.
Defined.
