(* ===== verification/BackupArchive.v ===== *)
(** * The backup archive

    crates/edge-adapters/src/backup.rs: the bytes of a manifest, the plain body of an archive with its
    records, and the writer that streams it into an encrypted file.  The encryption (age with a
    passphrase) and SHA-256 are parameters. *)

From stdpp Require Import base gmap strings list sorting.
From Stdlib Require Import Strings.Byte NArith Lia.
From S2P Require Import Prelude Errors ErrorMessages RustStr AuditModel AuditCodec BackupModel.
Local Open Scope N_scope.

Definition BODY_MAGIC : list byte := lit "SPONZEY-BACKUP-V1" ++ [NUL].
Definition RECORD_MAGIC : list byte := lit "REC1".
Definition U32_MAX : N := 2 ^ 32 - 1.

Definition backup_write_failed : AppError := AppError_new BackupWriteFailed "backup write failed".
Definition encryption_failed : AppError := AppError_new BackupEncryptionFailed "backup encryption failed".
Definition publish_failed : AppError := AppError_new BackupPublishFailed "backup publish failed".
Definition authentication_failed : AppError := backup_error BackupAuthenticationFailed.
Definition format_invalid : AppError := backup_error BackupFormatInvalid.
Definition limit_exceeded : AppError := backup_error BackupLimitExceeded.

(** ** Writing a manifest *)
Definition put_u8 (value : N) : list byte := to_be 1 value.
Definition put_u32 (value : N) : list byte := to_be 4 value.
Definition put_u64 (value : N) : list byte := to_be 8 value.
Definition put_string (value : list byte) : result AppError (list byte) :=
  if U32_MAX <? len value then Err backup_write_failed else Ok (put_u32 (len value) ++ value).
Fixpoint put_strings (values : list (list byte)) : result AppError (list byte) :=
  match values with
  | [] => Ok []
  | value :: rest => let? x := put_string value in let? y := put_strings rest in Ok (x ++ y)
  end.
(** A count of 32 bits and the strings. *)
Definition put_references (values : list (list byte)) : result AppError (list byte) :=
  if U32_MAX <? len values then Err backup_write_failed
  else let? x := put_strings values in Ok (put_u32 (len values) ++ x).
Definition kind_id (kind : BackupArtifactKind) : result AppError N :=
  match kind with
  | ConfigRevisionArtifact => Ok 1 | ConfigRevisionPointer => Ok 2 | CertificateChain => Ok 3 | CertificatePrivateKey => Ok 4
  | CertificateMetadataArtifact => Ok 5 | AdminPasswordHash => Ok 6 | TrustBundleRoots => Ok 7 | TrustBundleMetadata => Ok 8
  | AuditLedgerSegment => Ok 9 | UnknownArtifact _ => Err backup_write_failed
  end.
Definition put_artifact (a : BackupArtifactDescriptor) : result AppError (list byte) :=
  let? kind := kind_id (ba_kind a) in
  let? id := put_string (ba_logical_id a) in
  let? path := put_string (ba_relative_logical_path a) in
  Ok (put_u8 kind ++ id ++ path ++ put_u64 (ba_length_bytes a) ++ ba_sha256 a
      ++ put_u8 (match ba_mode a with PublicMode => 0 | OwnerOnly => 1 end)
      ++ put_u8 (if ba_required_for_restore a then 1 else 0)).
Fixpoint put_artifacts (l : list BackupArtifactDescriptor) : result AppError (list byte) :=
  match l with
  | [] => Ok []
  | a :: rest => let? x := put_artifact a in let? y := put_artifacts rest in Ok (x ++ y)
  end.
Definition encode_manifest (m : BackupManifest) (include_digest : bool) : result AppError (list byte) :=
  let? archive_id := put_string (bm_archive_id m) in
  let? version := put_string (bm_source_app_version m) in
  let? revision := put_string (bm_current_revision_id m) in
  let? certificates := put_references (bm_referenced_certificate_refs m) in
  let? bundles := if 2 <=? bm_schema_version m then put_references (bm_referenced_trust_bundle_refs m) else Ok [] in
  let? artifacts := put_artifacts (bm_artifacts m) in
  Ok (put_u32 (bm_schema_version m) ++ archive_id ++ put_u64 (bm_created_at_epoch_seconds m) ++ version
      ++ put_u32 (bm_source_layout_version m) ++ revision ++ put_u8 (if bm_admin_initialized m then 1 else 0)
      ++ certificates ++ bundles ++ put_u32 (bm_artifact_count m) ++ put_u64 (bm_total_plaintext_bytes m) ++ artifacts
      ++ (if include_digest then bm_manifest_digest m else [])).

(** ** Reading *)
(** [read_exact] into a buffer of [n] bytes; the caller says what a short read means. *)
Definition read_exact (e : AppError) (n : N) (l : list byte) : result AppError (list byte * list byte) :=
  if len l <? n then Err e else Ok (take (N.to_nat n) l, drop (N.to_nat n) l).
Definition read_be_number (e : AppError) (n : N) (l : list byte) : result AppError (N * list byte) :=
  let? (bytes, l) := read_exact e n l in Ok (from_be bytes, l).
Definition read_string (e : AppError) (max : N) (l : list byte) : result AppError (list byte * list byte) :=
  let? (length, l) := read_be_number e 4 l in
  if max <? length then Err limit_exceeded
  else
    let? (value, l) := read_exact e length l in
    if utf8_valid value then Ok (value, l) else Err format_invalid.
Fixpoint read_many {A} (f : list byte → result AppError (A * list byte)) (n : nat) (l : list byte)
  : result AppError (list A * list byte) :=
  match n with
  | O => Ok ([], l)
  | S n => let? (x, l) := f l in let? (xs, l) := read_many f n l in Ok (x :: xs, l)
  end.
Definition read_references (limits : BackupLimits) (l : list byte) : result AppError (list (list byte) * list byte) :=
  let? (count, l) := read_be_number format_invalid 4 l in
  if bl_max_artifacts limits <? count then Err limit_exceeded
  else read_many (read_string format_invalid 240) (N.to_nat count) l.
Definition read_kind (l : list byte) : result AppError (BackupArtifactKind * list byte) :=
  let? (id, l) := read_be_number format_invalid 1 l in
  if id =? 1 then Ok (ConfigRevisionArtifact, l)
  else if id =? 2 then Ok (ConfigRevisionPointer, l)
  else if id =? 3 then Ok (CertificateChain, l)
  else if id =? 4 then Ok (CertificatePrivateKey, l)
  else if id =? 5 then Ok (CertificateMetadataArtifact, l)
  else if id =? 6 then Ok (AdminPasswordHash, l)
  else if id =? 7 then Ok (TrustBundleRoots, l)
  else if id =? 8 then Ok (TrustBundleMetadata, l)
  else if id =? 9 then Ok (AuditLedgerSegment, l)
  else Err format_invalid.
Definition read_mode (l : list byte) : result AppError (BackupArtifactMode * list byte) :=
  let? (id, l) := read_be_number format_invalid 1 l in
  if id =? 0 then Ok (PublicMode, l) else if id =? 1 then Ok (OwnerOnly, l) else Err format_invalid.
Definition read_flag (l : list byte) : result AppError (bool * list byte) :=
  let? (id, l) := read_be_number format_invalid 1 l in
  if id =? 0 then Ok (false, l) else if id =? 1 then Ok (true, l) else Err format_invalid.
Definition read_artifact_entry (limits : BackupLimits) (l : list byte)
  : result AppError (BackupArtifactDescriptor * list byte) :=
  let? (kind, l) := read_kind l in
  let? (id, l) := read_string format_invalid 240 l in
  let? (path, l) := read_string format_invalid (bl_max_logical_path_bytes limits) l in
  let? (length_bytes, l) := read_be_number format_invalid 8 l in
  let? (digest, l) := read_exact format_invalid 32 l in
  let? (mode, l) := read_mode l in
  let? (required, l) := read_flag l in
  Ok ({| ba_kind := kind; ba_logical_id := id; ba_relative_logical_path := path; ba_length_bytes := length_bytes;
         ba_sha256 := digest; ba_mode := mode; ba_required_for_restore := required |}, l).
Definition decode_manifest (encoded : list byte) (limits : BackupLimits) : result AppError BackupManifest :=
  let? (schema_version, l) := read_be_number format_invalid 4 encoded in
  let? (archive_id, l) := read_string format_invalid 240 l in
  let? (created_at, l) := read_be_number format_invalid 8 l in
  let? (app_version, l) := read_string format_invalid 240 l in
  let? (layout, l) := read_be_number format_invalid 4 l in
  let? (revision, l) := read_string format_invalid 240 l in
  let? (admin, l) := read_be_number format_invalid 1 l in
  let? (certificates, l) := read_references limits l in
  let? (bundles, l) := if 2 <=? schema_version then read_references limits l else Ok ([], l) in
  let? (count, l) := read_be_number format_invalid 4 l in
  if bl_max_artifacts limits <? count then Err limit_exceeded
  else
    let? (total, l) := read_be_number format_invalid 8 l in
    if bl_max_total_plaintext_bytes limits <? total then Err limit_exceeded
    else
      let? (artifacts, l) := read_many (read_artifact_entry limits) (N.to_nat count) l in
      let? (digest, l) := read_exact format_invalid 32 l in
      if negb (bool_decide (l = [])) then Err format_invalid
      else Ok {| bm_schema_version := schema_version; bm_archive_id := archive_id; bm_created_at_epoch_seconds := created_at;
                 bm_source_app_version := app_version; bm_source_layout_version := layout; bm_current_revision_id := revision;
                 bm_admin_initialized := negb (admin =? 0); bm_referenced_certificate_refs := certificates;
                 bm_referenced_trust_bundle_refs := bundles; bm_artifact_count := count; bm_total_plaintext_bytes := total;
                 bm_artifacts := artifacts; bm_manifest_digest := digest |}.

(** ** The body of an archive *)
Record BackupArtifact := { art_descriptor : BackupArtifactDescriptor; art_payload : list byte }.
Record BackupRecordSummary := { brs_relative_logical_path : list byte; brs_length_bytes : N; brs_sha256 : list byte }.
Record BackupArchiveRead := { bar_manifest : BackupManifest; bar_records : list BackupRecordSummary }.
(** What decryption yields: the bytes up to its end, and whether that end was authentic. *)
Record DecryptedStream := { ds_bytes : list byte; ds_authentic : bool }.
(** age with a passphrase; sealing draws on entropy. *)
Class AgeEnvelope := {
  seal : SensitiveString → list byte → list byte → list byte;
  unseal : SensitiveString → list byte → option DecryptedStream
}.
Class AgeEnvelopeLaws `{!AgeEnvelope} : Prop :=
  unseal_seal : ∀ secret entropy body,
    unseal secret (seal secret entropy body) = Some {| ds_bytes := body; ds_authentic := true |}.

Section archive.
  Context `{!Sha256}.

Definition manifest_digest_of (m : BackupManifest) : result AppError (list byte) :=
  let? bytes := encode_manifest m false in Ok (sha256 bytes).
(** [accept] is what the caller does with each payload, over a state of its own. *)
Fixpoint read_records {S} (accept : BackupArtifactDescriptor → list byte → S → result AppError () * S)
  (limits : BackupLimits) (expected : list BackupArtifactDescriptor) (total : N) (records : list BackupRecordSummary)
  (l : list byte) (s : S) : result AppError (list BackupRecordSummary * list byte) * S :=
  match expected with
  | [] => (Ok (records, l), s)
  | a :: rest =>
      match (let? (magic, l) := read_exact authentication_failed 4 l in
             if negb (bool_decide (magic = RECORD_MAGIC)) then Err format_invalid
             else
               let? (path, l) := read_string authentication_failed (bl_max_logical_path_bytes limits) l in
               let? (length, l) := read_be_number authentication_failed 8 l in
               if bl_max_single_artifact_bytes limits <? length then Err limit_exceeded
               else if U64_MAX <? total + length then Err limit_exceeded
               else if bl_max_total_plaintext_bytes limits <? total + length then Err limit_exceeded
               else
                 let? (payload, l) := read_exact authentication_failed length l in
                 if bl_max_artifacts limits <? len records + 1 then Err limit_exceeded
                 else if negb (bool_decide (path = ba_relative_logical_path a)) then Err (backup_error BackupPathUnsafe)
                 else Ok (path, length, payload, l)) with
      | Err e => (Err e, s)
      | Ok (path, length, payload, l) =>
          let! _, s := accept a payload s in
          read_records accept limits rest (total + length)
            (records ++ [{| brs_relative_logical_path := path; brs_length_bytes := length; brs_sha256 := sha256 payload |}]) l s
      end
  end.
(** [file] is the archive as it is on disk, or nothing when it cannot be opened. *)
Definition read_archive_records `{!AgeEnvelope} {S}
  (accept : BackupArtifactDescriptor → list byte → S → result AppError () * S) (file : option (list byte))
  (secret : SensitiveString) (limits : BackupLimits) (s : S) : result AppError BackupArchiveRead * S :=
  match (let? file := ok_or file authentication_failed in
         let? stream := ok_or (unseal secret file) authentication_failed in
         let? (magic, l) := read_exact authentication_failed (len BODY_MAGIC) (ds_bytes stream) in
         if negb (bool_decide (magic = BODY_MAGIC)) then Err format_invalid
         else
           let? (manifest_len, l) := read_be_number authentication_failed 8 l in
           let? _ := validate_manifest_encoded_size manifest_len limits in
           let? (encoded, l) := read_exact authentication_failed manifest_len l in
           let? manifest := decode_manifest encoded limits in
           Ok (stream, manifest, l)) with
  | Err e => (Err e, s)
  | Ok (stream, manifest, l) =>
      let! (records, l), s := read_records accept limits (bm_artifacts manifest) 0 [] l s in
      (if negb (bool_decide (l = [])) then Err format_invalid
       else if negb (ds_authentic stream) then Err authentication_failed
       else Ok {| bar_manifest := manifest; bar_records := records |}, s)
  end.
Definition archive_read `{!AgeEnvelope} (file : option (list byte)) (secret : SensitiveString) (limits : BackupLimits)
  : result AppError BackupArchiveRead :=
  (read_archive_records (λ _ _ s, (Ok (), s)) file secret limits ()).1.
End archive.

(** ** The writer *)
(** A file that is still being written, or one that holds a sealed body. *)
Inductive TemporaryArchive := Unfinished | Sealed (content : list byte).
(** [aw_outcomes] says of the next fallible calls whether they succeed. *)
Record AgeBackupArchiveWriter := {
  aw_output : option (list byte);
  aw_temporary : option TemporaryArchive;
  aw_stream : option (SensitiveString * list byte);
  aw_finalized : bool;
  aw_entropy : list byte;
  aw_outcomes : list bool
}.
Definition writer_io (w : AgeBackupArchiveWriter) : bool * AgeBackupArchiveWriter :=
  match aw_outcomes w with
  | [] => (true, w)
  | ok :: rest => (ok, {| aw_output := aw_output w; aw_temporary := aw_temporary w; aw_stream := aw_stream w;
                          aw_finalized := aw_finalized w; aw_entropy := aw_entropy w; aw_outcomes := rest |})
  end.
Definition set_files (output : option (list byte)) (temporary : option TemporaryArchive)
  (stream : option (SensitiveString * list byte)) (finalized : bool) (w : AgeBackupArchiveWriter) : AgeBackupArchiveWriter :=
  {| aw_output := output; aw_temporary := temporary; aw_stream := stream; aw_finalized := finalized;
     aw_entropy := aw_entropy w; aw_outcomes := aw_outcomes w |}.
Section writer.
  Context `{!AgeEnvelope}.
  Implicit Types (w : AgeBackupArchiveWriter).

Definition destination_exists (message : string) : AppError := AppError_new BackupDestinationExists message.
(** The checks of [new] on a destination whose directory is no link. *)
Definition archive_writer_new (output : option (list byte)) (temporary : option TemporaryArchive) (entropy : list byte)
  (outcomes : list bool) : result AppError AgeBackupArchiveWriter :=
  match output, temporary with
  | Some _, _ => Err (destination_exists "backup destination exists")
  | None, Some _ => Err (destination_exists "backup temporary destination exists")
  | None, None => Ok {| aw_output := None; aw_temporary := None; aw_stream := None; aw_finalized := false;
                        aw_entropy := entropy; aw_outcomes := outcomes |}
  end.
(** The three calls that create the file, wrap it and write the head; a failure leaves the file. *)
Definition writer_open (m : BackupManifest) (secret : SensitiveString) w : result AppError () * AgeBackupArchiveWriter :=
  if bool_decide (is_Some (aw_stream w)) || aw_finalized w then (Err backup_write_failed, w)
  else
    let '(created, w) := writer_io w in
    if negb created || bool_decide (is_Some (aw_temporary w)) then (Err backup_write_failed, w)
    else
      let w := set_files (aw_output w) (Some Unfinished) None false w in
      let '(wrapped, w) := writer_io w in
      if negb wrapped then (Err encryption_failed, w)
      else match (let? encoded := encode_manifest m true in
                  let? _ := validate_manifest_encoded_size (len encoded) schema_v1 in
                  Ok encoded) with
           | Err e => (Err e, w)
           | Ok encoded =>
               let '(written, w) := writer_io w in
               if negb written then (Err backup_write_failed, w)
               else (Ok (), set_files (aw_output w) (aw_temporary w)
                              (Some (secret, BODY_MAGIC ++ put_u64 (len encoded) ++ encoded)) false w)
           end.
Definition record_bytes (a : BackupArtifact) : option (list byte) :=
  let path := ba_relative_logical_path (art_descriptor a) in
  if U32_MAX <? len path then None
  else Some (RECORD_MAGIC ++ put_u32 (len path) ++ path ++ put_u64 (len (art_payload a)) ++ art_payload a).
(** After a failed call the stream has lost its place; what it holds is of no use. *)
Definition writer_write_record (a : BackupArtifact) w : result AppError () * AgeBackupArchiveWriter :=
  match aw_stream w with
  | None => (Err backup_write_failed, w)
  | Some (secret, body) =>
      let '(written, w) := writer_io w in
      match record_bytes a with
      | Some bytes =>
          if written then (Ok (), set_files (aw_output w) (aw_temporary w) (Some (secret, body ++ bytes)) (aw_finalized w) w)
          else (Err backup_write_failed, w)
      | None => (Err backup_write_failed, w)
      end
  end.
Definition writer_finalize w : result AppError N * AgeBackupArchiveWriter :=
  match aw_stream w with
  | None => (Err backup_write_failed, w)
  | Some (secret, body) =>
      let w := set_files (aw_output w) (aw_temporary w) None (aw_finalized w) w in
      let '(finished, w) := writer_io w in
      if negb finished then (Err encryption_failed, w)
      else
        let content := seal secret (aw_entropy w) body in
        let w := set_files (aw_output w) (Some (Sealed content)) None (aw_finalized w) w in
        let '(measured, w) := writer_io w in
        if negb measured then (Err backup_write_failed, w)
        else (Ok (len content), set_files (aw_output w) (aw_temporary w) None true w)
  end.
Definition writer_sync w : result AppError () * AgeBackupArchiveWriter :=
  if negb (aw_finalized w) then (Err backup_write_failed, w)
  else let '(ok, w) := writer_io w in (if ok then Ok () else Err backup_write_failed, w).
Definition writer_publish w : result AppError () * AgeBackupArchiveWriter :=
  if negb (aw_finalized w) then (Err backup_write_failed, w)
  else
    let w := set_files (aw_output w) (aw_temporary w) (aw_stream w) false w in
    let '(renamed, w) := writer_io w in
    match renamed, aw_temporary w with
    | true, Some (Sealed content) =>
        let w := set_files (Some content) None (aw_stream w) false w in
        let '(synced, w) := writer_io w in
        (if synced then Ok () else Err publish_failed, w)
    | _, _ => (Err publish_failed, w)
    end.
Definition writer_cleanup w : result AppError () * AgeBackupArchiveWriter :=
  let w := set_files (aw_output w) (aw_temporary w) None false w in
  let '(removed, w) := writer_io w in
  match aw_temporary w with
  | None => (Ok (), w)
  | Some _ =>
      if removed then (Ok (), set_files (aw_output w) None None false w) else (Err backup_write_failed, w)
  end.
End writer.
