(* ===== verification/BackupUse.v ===== *)
(** * Creating and verifying a backup

    The use cases CreateBackupUseCase and VerifyBackupUseCase of
    crates/edge-application/src/backup.rs, over the ports of crates/edge-ports/src/lib.rs. *)

From stdpp Require Import base gmap strings list sorting.
From Stdlib Require Import Strings.Byte NArith Lia.
From S2P Require Import Prelude Errors ErrorMessages RustStr AuditModel AuditCodec BackupModel BackupArchive.
Local Open Scope N_scope.

(** ** Ports *)
Record StructuredLogEvent := {
  sl_component : string;
  sl_event : string;
  sl_fields : list (string * list byte)
}.
Class LogSink (G : Type) := record_log : StructuredLogEvent → G → result AppError () * G.
Class Clock (C : Type) := now_epoch_seconds : C → N * C.
Class OperationIdGenerator (I : Type) := next_id : I → result AppError (list byte) * I.
(** The guard is dropped when the operation returns. *)
Class DataDirectoryLockManager (L : Type) := try_acquire_exclusive : L → result AppError () * L.
Record BackupSourceInventory := {
  bi_current_revision_id : list byte;
  bi_admin_initialized : bool;
  bi_referenced_certificate_refs : list (list byte);
  bi_referenced_trust_bundle_refs : list (list byte);
  bi_source_fingerprint : list byte;
  bi_artifacts : list BackupArtifactDescriptor
}.
Class BackupArtifactSource (S : Type) := {
  inventory : S → result AppError BackupSourceInventory * S;
  read_artifact : BackupArtifactDescriptor → S → result AppError BackupArtifact * S
}.
Class BackupArchiveWriter (W : Type) := {
  bw_open : BackupManifest → SensitiveString → W → result AppError () * W;
  bw_write_record : BackupArtifact → W → result AppError () * W;
  bw_finalize : W → result AppError N * W;
  bw_sync : W → result AppError () * W;
  bw_publish : W → result AppError () * W;
  bw_cleanup : W → result AppError () * W
}.
#[global] Instance age_writer `{!AgeEnvelope} : BackupArchiveWriter AgeBackupArchiveWriter := {
  bw_open := writer_open; bw_write_record := writer_write_record; bw_finalize := writer_finalize; bw_sync := writer_sync;
  bw_publish := writer_publish; bw_cleanup := writer_cleanup
}.
Class BackupArchiveReader (R : Type) :=
  br_read : SensitiveString → BackupLimits → R → result AppError BackupArchiveRead * R.
(** The reader of an archive file. *)
Record AgeBackupArchiveReader := { ar_file : option (list byte) }.
#[global] Instance age_reader `{!AgeEnvelope} `{!Sha256} : BackupArchiveReader AgeBackupArchiveReader :=
  λ secret limits r, (archive_read (ar_file r) secret limits, r).

Definition record_backup_log {G} `{!LogSink G} (event : string) (fields : list (string * list byte)) (logs : G)
  : result AppError () * G :=
  record_log {| sl_component := "backup"; sl_event := event; sl_fields := fields |} logs.
Definition error_fields (operation_id : list byte) (e : AppError) : list (string * list byte) :=
  [("operation_id"%string, operation_id); ("error_code"%string, lit (ErrorCode_as_str (app_code e)))].

(** ** Creating *)
Record CreateBackupInput := {
  cb_source_app_version : list byte;
  cb_destination_identity : list byte;
  cb_passphrase : SensitiveString
}.
Record BackupReceipt := {
  rc_operation_id : list byte;
  rc_archive_id : list byte;
  rc_schema_version : N;
  rc_artifact_count : N;
  rc_plaintext_bytes : N;
  rc_encrypted_bytes : N;
  rc_created_at_epoch_seconds : N;
  rc_destination_identity : list byte;
  rc_current_revision_id : list byte;
  rc_source_fingerprint : list byte
}.
(** The ports of the use case and its state machine. *)
Record CreateWorld (L S W C I G : Type) := {
  cw_lock : L; cw_source : S; cw_writer : W; cw_clock : C; cw_ids : I; cw_logs : G; cw_machine : BackupState
}.
Arguments Build_CreateWorld {L S W C I G}.
Arguments cw_lock {L S W C I G}.
Arguments cw_source {L S W C I G}.
Arguments cw_writer {L S W C I G}.
Arguments cw_clock {L S W C I G}.
Arguments cw_ids {L S W C I G}.
Arguments cw_logs {L S W C I G}.
Arguments cw_machine {L S W C I G}.

Definition validate_destination_identity (value : list byte) : result AppError () :=
  if bool_decide (value = []) || contains_byte x2f value || contains_byte BACKSLASH value || contains_byte NUL value
     || dot_segment value
  then Err (AppError_new BackupDestinationUnsafe "backup destination identity is unsafe") else Ok ().
(** [try_fold] with [checked_add]. *)
Fixpoint plaintext_total (sum : N) (l : list BackupArtifactDescriptor) : result AppError N :=
  match l with
  | [] => Ok sum
  | a :: rest =>
      if U64_MAX <? sum + ba_length_bytes a
      then Err (AppError_new BackupLimitExceeded "artifact byte total overflow")
      else plaintext_total (sum + ba_length_bytes a) rest
  end.
Definition with_digest (digest : list byte) (m : BackupManifest) : BackupManifest :=
  {| bm_schema_version := bm_schema_version m; bm_archive_id := bm_archive_id m;
     bm_created_at_epoch_seconds := bm_created_at_epoch_seconds m; bm_source_app_version := bm_source_app_version m;
     bm_source_layout_version := bm_source_layout_version m; bm_current_revision_id := bm_current_revision_id m;
     bm_admin_initialized := bm_admin_initialized m; bm_referenced_certificate_refs := bm_referenced_certificate_refs m;
     bm_referenced_trust_bundle_refs := bm_referenced_trust_bundle_refs m; bm_artifact_count := bm_artifact_count m;
     bm_total_plaintext_bytes := bm_total_plaintext_bytes m; bm_artifacts := bm_artifacts m; bm_manifest_digest := digest |}.
Definition ZERO_DIGEST : list byte := replicate 32 NUL.

Section create.
  Context {L S W C I G : Type} `{!DataDirectoryLockManager L} `{!BackupArtifactSource S} `{!BackupArchiveWriter W} `{!Clock C}
    `{!OperationIdGenerator I} `{!LogSink G} `{!Sha256}.
  Abbreviation world := (CreateWorld L S W C I G).

Definition in_lock {A} (f : L → result AppError A * L) (w : world) : result AppError A * world :=
  let '(r, x) := f (cw_lock w) in
  (r, Build_CreateWorld x (cw_source w) (cw_writer w) (cw_clock w) (cw_ids w) (cw_logs w) (cw_machine w)).
Definition in_source {A} (f : S → result AppError A * S) (w : world) : result AppError A * world :=
  let '(r, x) := f (cw_source w) in
  (r, Build_CreateWorld (cw_lock w) x (cw_writer w) (cw_clock w) (cw_ids w) (cw_logs w) (cw_machine w)).
Definition in_writer {A} (f : W → result AppError A * W) (w : world) : result AppError A * world :=
  let '(r, x) := f (cw_writer w) in
  (r, Build_CreateWorld (cw_lock w) (cw_source w) x (cw_clock w) (cw_ids w) (cw_logs w) (cw_machine w)).
Definition in_ids {A} (f : I → result AppError A * I) (w : world) : result AppError A * world :=
  let '(r, x) := f (cw_ids w) in
  (r, Build_CreateWorld (cw_lock w) (cw_source w) (cw_writer w) (cw_clock w) x (cw_logs w) (cw_machine w)).
Definition in_logs {A} (f : G → result AppError A * G) (w : world) : result AppError A * world :=
  let '(r, x) := f (cw_logs w) in
  (r, Build_CreateWorld (cw_lock w) (cw_source w) (cw_writer w) (cw_clock w) (cw_ids w) x (cw_machine w)).
Definition read_clock (w : world) : N * world :=
  let '(now, x) := now_epoch_seconds (cw_clock w) in
  (now, Build_CreateWorld (cw_lock w) (cw_source w) (cw_writer w) x (cw_ids w) (cw_logs w) (cw_machine w)).
Definition create_step (e : BackupEvent) (w : world) : result AppError () * world :=
  match backup_transition (cw_machine w) e with
  | Ok s => (Ok (), Build_CreateWorld (cw_lock w) (cw_source w) (cw_writer w) (cw_clock w) (cw_ids w) (cw_logs w) s)
  | Err e => (Err e, w)
  end.

(** The loop over the artifacts. *)
Fixpoint stream_records (expected : list BackupArtifactDescriptor) (w : world) : result AppError () * world :=
  match expected with
  | [] => (Ok (), w)
  | a :: rest =>
      let! artifact, w := in_source (read_artifact a) w in
      if negb (bool_decide (art_descriptor artifact = a)) || negb (len (art_payload artifact) =? ba_length_bytes a)
      then (Err (AppError_new BackupSourceChanged "backup source changed after inventory"), w)
      else
        let! _, w := in_writer (bw_write_record artifact) w in
        let! _, w := create_step EncryptedRecordWritten w in
        stream_records rest w
  end.
Definition backup_manifest (limits : BackupLimits) (input : CreateBackupInput) (inv : BackupSourceInventory)
  (archive_id : list byte) (started_at plaintext_bytes : N) : BackupManifest :=
  {| bm_schema_version := bl_max_schema_version limits; bm_archive_id := archive_id;
     bm_created_at_epoch_seconds := started_at; bm_source_app_version := cb_source_app_version input;
     bm_source_layout_version := 1; bm_current_revision_id := bi_current_revision_id inv;
     bm_admin_initialized := bi_admin_initialized inv;
     bm_referenced_certificate_refs := bi_referenced_certificate_refs inv;
     bm_referenced_trust_bundle_refs := bi_referenced_trust_bundle_refs inv;
     bm_artifact_count := len (bi_artifacts inv); bm_total_plaintext_bytes := plaintext_bytes;
     bm_artifacts := bi_artifacts inv; bm_manifest_digest := ZERO_DIGEST |}.
(** The manifest of an inventory, checked and with its digest. *)
Definition checked_manifest (limits : BackupLimits) (input : CreateBackupInput) (inv : BackupSourceInventory)
  (archive_id : list byte) (started_at : N) : result AppError BackupManifest :=
  let? plaintext_bytes := plaintext_total 0 (bi_artifacts inv) in
  if U32_MAX <? len (bi_artifacts inv) then Err (AppError_new BackupLimitExceeded "artifact count overflow")
  else
    let m := backup_manifest limits input inv archive_id started_at plaintext_bytes in
    let? _ := manifest_validate m limits in
    let? digest := manifest_digest_of m in
    Ok (with_digest digest m).
Definition execute_locked (limits : BackupLimits) (input : CreateBackupInput) (operation_id : list byte) (started_at : N) (w : world)
  : result AppError BackupReceipt * world :=
  let! inv, w := in_source inventory w in
  let! _, w := create_step InventoryBuilt w in
  let! archive_id, w := in_ids next_id w in
  let! manifest, w := (checked_manifest limits input inv archive_id started_at, w) in
  let! _, w := create_step InventoryValidated w in
  let! _, w := in_writer (bw_open manifest (cb_passphrase input)) w in
  let! _, w := create_step BackupEnvelopeOpened w in
  let! _, w := stream_records (bi_artifacts inv) w in
  let! encrypted_bytes, w := in_writer bw_finalize w in
  let! _, w := create_step BackupEnvelopeAuthenticated w in
  let! _, w := create_step EnvelopeFinalized w in
  let! _, w := in_writer bw_sync w in
  let! _, w := create_step FileSynced w in
  let! _, w := in_writer bw_publish w in
  let! _, w := create_step RenameCommitted w in
  let '(now, w) := read_clock w in
  let '(_, w) := in_logs (record_backup_log "backup.create.succeeded"
    [("operation_id"%string, operation_id); ("archive_id"%string, archive_id);
     ("artifact_count"%string, print_dec (bm_artifact_count manifest));
     ("duration_seconds"%string, print_dec (now - started_at))]) w in
  (Ok {| rc_operation_id := operation_id; rc_archive_id := archive_id; rc_schema_version := bm_schema_version manifest;
         rc_artifact_count := bm_artifact_count manifest; rc_plaintext_bytes := bm_total_plaintext_bytes manifest;
         rc_encrypted_bytes := encrypted_bytes; rc_created_at_epoch_seconds := started_at;
         rc_destination_identity := cb_destination_identity input; rc_current_revision_id := bi_current_revision_id inv;
         rc_source_fingerprint := bi_source_fingerprint inv |}, w).
(** What a failed operation still does: every error here is dropped. *)
Definition create_failed (operation_id : list byte) (e : AppError) (w : world) : world :=
  let '(_, w) := create_step (BackupOperationFailed (app_code e)) w in
  let '(_, w) := in_writer bw_cleanup w in
  let '(_, w) := create_step BackupCleanupFinished w in
  let '(_, w) := in_logs (record_backup_log "backup.create.failed" (error_fields operation_id e)) w in
  w.
Definition create_backup (limits : BackupLimits) (input : CreateBackupInput) (w : world) : result AppError BackupReceipt * world :=
  let! _, w := (validate_destination_identity (cb_destination_identity input), w) in
  if bool_decide (cb_source_app_version input = [])
  then (Err (AppError_new BackupSourceInvalid "source app version is empty"), w)
  else
    let! operation_id, w := in_ids next_id w in
    let! _, w := in_logs (record_backup_log "backup.create.started" [("operation_id"%string, operation_id)]) w in
    let '(started_at, w) := read_clock w in
    let w := Build_CreateWorld (cw_lock w) (cw_source w) (cw_writer w) (cw_clock w) (cw_ids w) (cw_logs w) BackupIdle in
    let! _, w := create_step BackupStart w in
    match in_lock try_acquire_exclusive w with
    | (Err failure, w) => (Err failure, create_failed operation_id failure w)
    | (Ok _, w) =>
        let! _, w := create_step BackupLockAcquired w in
        match execute_locked limits input operation_id started_at w with
        | (Err failure, w) => (Err failure, create_failed operation_id failure w)
        | (Ok receipt, w) => (Ok receipt, w)
        end
    end.
End create.

(** ** Verifying *)
Record BackupVerificationReport := {
  vr_operation_id : list byte;
  vr_archive_id : list byte;
  vr_schema_version : N;
  vr_artifact_count : N;
  vr_total_bytes : N;
  vr_config_present : bool;
  vr_revision_pointer_valid : bool;
  vr_certificates_count : N;
  vr_referenced_certificates_count : N;
  vr_trust_bundles_count : N;
  vr_referenced_trust_bundles_count : N;
  vr_audit_segments_count : N;
  vr_admin_initialized : bool;
  vr_secrets_present : bool;
  vr_compatible : bool
}.
Record VerifyWorld (R C I G : Type) := { vw_reader : R; vw_clock : C; vw_ids : I; vw_logs : G }.
Arguments Build_VerifyWorld {R C I G}.
Arguments vw_reader {R C I G}.
Arguments vw_clock {R C I G}.
Arguments vw_ids {R C I G}.
Arguments vw_logs {R C I G}.

Definition record_differs (r : BackupRecordSummary) (a : BackupArtifactDescriptor) : bool :=
  negb (bool_decide (brs_relative_logical_path r = ba_relative_logical_path a))
  || negb (brs_length_bytes r =? ba_length_bytes a)
  || negb (bool_decide (brs_sha256 r = ba_sha256 a)).
Definition count_kind (kind : BackupArtifactKind) (m : BackupManifest) : N :=
  len (filter (λ a, ba_kind a = kind) (bm_artifacts m)).
Definition U16_MAX : N := 2 ^ 16 - 1.
(** [as u32]. *)
Definition as_u32 (n : N) : N := n mod 2 ^ 32.
Definition verify_archive `{!Sha256} (limits : BackupLimits) (operation_id : list byte) (archive : BackupArchiveRead)
  : result AppError BackupVerificationReport :=
  let m := bar_manifest archive in
  let? _ := manifest_validate m limits in
  let? digest := manifest_digest_of m in
  if negb (bool_decide (digest = bm_manifest_digest m))
     || negb (len (bar_records archive) =? len (bm_artifacts m))
     || existsb (λ x, record_differs x.1 x.2) (zip (bar_records archive) (bm_artifacts m))
  then Err (backup_error BackupDigestMismatch)
  else
    let certificates := as_u32 (count_kind CertificateChain m) in
    let segments := count_kind AuditLedgerSegment m in
    if U16_MAX <? segments then Err (AppError_new BackupLimitExceeded "audit segment count exceeds backup limit")
    else Ok {| vr_operation_id := operation_id; vr_archive_id := bm_archive_id m; vr_schema_version := bm_schema_version m;
               vr_artifact_count := bm_artifact_count m; vr_total_bytes := bm_total_plaintext_bytes m;
               vr_config_present := true; vr_revision_pointer_valid := true; vr_certificates_count := certificates;
               vr_referenced_certificates_count := as_u32 (len (bm_referenced_certificate_refs m));
               vr_trust_bundles_count := as_u32 (count_kind TrustBundleRoots m);
               vr_referenced_trust_bundles_count := as_u32 (len (bm_referenced_trust_bundle_refs m));
               vr_audit_segments_count := segments; vr_admin_initialized := bm_admin_initialized m;
               vr_secrets_present := bm_admin_initialized m || (0 <? certificates); vr_compatible := true |}.
Section verify.
  Context {R C I G : Type} `{!BackupArchiveReader R} `{!Clock C} `{!OperationIdGenerator I} `{!LogSink G} `{!Sha256}.

Definition verify_backup (limits : BackupLimits) (passphrase : SensitiveString) (w : VerifyWorld R C I G)
  : result AppError BackupVerificationReport * VerifyWorld R C I G :=
  let '(id, ids) := next_id (vw_ids w) in
  let w := Build_VerifyWorld (vw_reader w) (vw_clock w) ids (vw_logs w) in
  match id with
  | Err e => (Err e, w)
  | Ok operation_id =>
      let '(logged, logs) := record_backup_log "backup.verify.started" [("operation_id"%string, operation_id)] (vw_logs w) in
      let w := Build_VerifyWorld (vw_reader w) (vw_clock w) (vw_ids w) logs in
      match logged with
      | Err e => (Err e, w)
      | Ok _ =>
          let '(started, clock) := now_epoch_seconds (vw_clock w) in
          let '(archive, reader) := br_read passphrase limits (vw_reader w) in
          match (let? archive := archive in verify_archive limits operation_id archive) with
          | Ok report =>
              let '(now, clock) := now_epoch_seconds clock in
              let '(_, logs) := record_backup_log "backup.verify.succeeded"
                [("operation_id"%string, operation_id); ("archive_id"%string, vr_archive_id report);
                 ("artifact_count"%string, print_dec (vr_artifact_count report));
                 ("duration_seconds"%string, print_dec (now - started))] (vw_logs w) in
              (Ok report, Build_VerifyWorld reader clock (vw_ids w) logs)
          | Err e =>
              let '(_, logs) := record_backup_log "backup.verify.failed" (error_fields operation_id e) (vw_logs w) in
              (Err e, Build_VerifyWorld reader clock (vw_ids w) logs)
          end
      end
  end.
End verify.
