(* ===== verification/BackupRoundtrip.v ===== *)
(** * What was backed up is read back

    The bytes of a manifest and of an archive are read as they were written, and a backup that was
    created passes verification. *)

From stdpp Require Import base gmap strings list sorting.
From Stdlib Require Import Strings.Byte NArith Lia.
From S2P Require Import Prelude Errors ErrorMessages RustStr AuditModel AuditCodec BackupModel BackupArchive BackupUse.
Local Open Scope N_scope.

(** ** Readers *)
Lemma ok_inj {E A} (a b : A) : @Ok E A a = Ok b → a = b.
Proof. by intros [=]. Qed.
Lemma read_exact_app e n x l : len x = n → read_exact e n (x ++ l) = Ok (x, l).
Proof.
  intros <-. unfold read_exact. rewrite (proj2 (N.ltb_ge _ _)) by (rewrite len_app; lia).
  unfold len. rewrite Nat2N.id, take_app_length, drop_app_length. done.
Qed.
Lemma read_number_be e n v l : v < 256 ^ N.of_nat n → read_be_number e (N.of_nat n) (to_be n v ++ l) = Ok (v, l).
Proof.
  intros Hv. unfold read_be_number. rewrite read_exact_app by (unfold len; by rewrite to_be_length). by rewrite from_be_to_be.
Qed.
Lemma read_u8 e v l : v < 256 → read_be_number e 1 (put_u8 v ++ l) = Ok (v, l).
Proof. intros Hv. apply (read_number_be e 1 v l). done. Qed.
Lemma read_u32 e v l : v ≤ U32_MAX → read_be_number e 4 (put_u32 v ++ l) = Ok (v, l).
Proof. intros Hv. apply (read_number_be e 4 v l). unfold U32_MAX in Hv. cbn in *. lia. Qed.
Lemma read_u64 e v l : v ≤ U64_MAX → read_be_number e 8 (put_u64 v ++ l) = Ok (v, l).
Proof. intros Hv. apply (read_number_be e 8 v l). unfold U64_MAX in Hv. cbn in *. lia. Qed.
Lemma read_string_put e max s x l :
  put_string s = Ok x → utf8_valid s = true → len s ≤ max → read_string e max (x ++ l) = Ok (s, l).
Proof.
  unfold put_string. destruct (U32_MAX <? len s) eqn:El; [done|]. intros <-%ok_inj Hu Hm. apply N.ltb_ge in El.
  unfold read_string. rewrite <-app_assoc, read_u32 by done. rewrite (proj2 (N.ltb_ge _ _)) by done.
  rewrite read_exact_app by done. by rewrite Hu.
Qed.
Lemma read_strings_put e max ss x l :
  put_strings ss = Ok x → Forall (λ s, utf8_valid s = true ∧ len s ≤ max) ss →
  read_many (read_string e max) (length ss) (x ++ l) = Ok (ss, l).
Proof.
  intros Hx Hss. revert x Hx. induction Hss as [|s ss [Hu Hm] _ IH]; intros x; cbn [put_strings length read_many]; [by intros <-%ok_inj|].
  destruct (put_string s) as [y|] eqn:Ey; [|done]. destruct (put_strings ss) as [z|]; [|done]. intros <-%ok_inj.
  rewrite <-app_assoc, (read_string_put _ _ _ _ _ Ey Hu Hm). by rewrite (IH z eq_refl).
Qed.
Lemma read_references_put limits refs x l :
  put_references refs = Ok x → len refs ≤ bl_max_artifacts limits → Forall (λ s, utf8_valid s = true ∧ len s ≤ 240) refs →
  read_references limits (x ++ l) = Ok (refs, l).
Proof.
  unfold put_references. destruct (U32_MAX <? len refs) eqn:El; [done|]. apply N.ltb_ge in El.
  destruct (put_strings refs) as [y|] eqn:Ey; [|done]. intros <-%ok_inj Hm Hr. unfold read_references.
  rewrite <-app_assoc, read_u32 by done. rewrite (proj2 (N.ltb_ge _ _)) by done.
  replace (N.to_nat (len refs)) with (length refs) by (unfold len; lia). by apply read_strings_put.
Qed.

(** ** Manifests of machine integers and texts *)
Record artifact_typed (a : BackupArtifactDescriptor) : Prop := {
  at_id : utf8_valid (ba_logical_id a) = true;
  at_path : utf8_valid (ba_relative_logical_path a) = true;
  at_length : ba_length_bytes a ≤ U64_MAX;
  at_sha256 : len (ba_sha256 a) = 32
}.
Record manifest_typed (m : BackupManifest) : Prop := {
  my_archive_id : utf8_valid (bm_archive_id m) = true;
  my_created : bm_created_at_epoch_seconds m ≤ U64_MAX;
  my_version : utf8_valid (bm_source_app_version m) = true;
  my_revision : utf8_valid (bm_current_revision_id m) = true;
  my_certificates : Forall (λ r, utf8_valid r = true) (bm_referenced_certificate_refs m);
  my_bundles : Forall (λ r, utf8_valid r = true) (bm_referenced_trust_bundle_refs m);
  my_count : bm_artifact_count m ≤ U32_MAX;
  my_total : bm_total_plaintext_bytes m ≤ U64_MAX;
  my_artifacts : Forall artifact_typed (bm_artifacts m);
  my_digest : len (bm_manifest_digest m) = 32
}.
Lemma identity_short v : validate_identity v = Ok () → len v ≤ 240.
Proof. unfold validate_identity. destruct (_ || _) eqn:E; [done|]. intros _. rewrite !orb_false_iff in E. apply N.ltb_ge. tauto. Qed.
Lemma read_entry_put limits a x l :
  put_artifact a = Ok x → artifact_ok limits a → artifact_typed a → read_artifact_entry limits (x ++ l) = Ok (a, l).
Proof.
  intros Hx Ho Ht. revert Hx. unfold put_artifact. destruct (kind_id (ba_kind a)) as [k|] eqn:Ek; [|done].
  destruct (put_string (ba_logical_id a)) as [y|] eqn:Ey; [|done].
  destruct (put_string (ba_relative_logical_path a)) as [z|] eqn:Ez; [|done]. intros <-%ok_inj.
  unfold read_artifact_entry. rewrite <-!app_assoc.
  assert (Hk : ∀ rest, read_kind (put_u8 k ++ rest) = Ok (ba_kind a, rest)).
  { intros rest. unfold read_kind. destruct (ba_kind a); cbn in Ek; simplify_eq; by rewrite read_u8 by done. }
  rewrite Hk, (read_string_put _ _ _ _ _ Ey (at_id _ Ht) (identity_short _ (ao_identity _ _ Ho))),
    (read_string_put _ _ _ _ _ Ez (at_path _ Ht) (ao_path_length _ _ Ho)).
  rewrite read_u64 by apply Ht. rewrite read_exact_app by apply Ht. unfold read_mode, read_flag.
  rewrite read_u8 by (by destruct (ba_mode a)). clear. destruct a as [kind id path n sha mode req]; cbn [ba_mode ba_required_for_restore].
  destruct mode, req; cbv beta iota zeta delta [N.eqb Pos.eqb]; by rewrite read_u8 by done.
Qed.
Lemma read_entries_put limits l x rest :
  put_artifacts l = Ok x → Forall (artifact_ok limits) l → Forall artifact_typed l →
  read_many (read_artifact_entry limits) (length l) (x ++ rest) = Ok (l, rest).
Proof.
  revert x. induction l as [|a l IH]; intros x; cbn [put_artifacts length read_many]; [by intros <-%ok_inj|].
  destruct (put_artifact a) as [y|] eqn:Ey; [|done]. destruct (put_artifacts l) as [z|] eqn:Ez; [|done]. intros <-%ok_inj Ho Ht.
  inversion_clear Ho as [|? ? Hoa Hol]. inversion_clear Ht as [|? ? Hta Htl].
  rewrite <-app_assoc, (read_entry_put limits a y (z ++ rest) Ey Hoa Hta). by rewrite (IH z eq_refl Hol Htl).
Qed.
Lemma refs_bounded (refs : list (list byte)) kind l :
  NoDup refs → (∀ r, r ∈ refs → r ∈ ids_of kind l) → len refs ≤ len l.
Proof.
  intros Hd Hin. assert (length refs ≤ length (ids_of kind l))%nat by by apply submseteq_length, NoDup_submseteq.
  unfold ids_of in *. rewrite length_fmap in *. assert (length (filter (λ a, ba_kind a = kind) l) ≤ length l)%nat by apply length_filter.
  unfold len. lia.
Qed.
Lemma manifest_roundtrip m limits x :
  manifest_described m limits (bm_artifacts m) → manifest_typed m → len (bm_source_app_version m) ≤ 240 →
  encode_manifest m true = Ok x → decode_manifest x limits = Ok m.
Proof.
  intros Hd Ht Hver. unfold encode_manifest.
  destruct (put_string (bm_archive_id m)) as [s1|] eqn:E1; [|done]. destruct (put_string (bm_source_app_version m)) as [s2|] eqn:E2; [|done].
  destruct (put_string (bm_current_revision_id m)) as [s3|] eqn:E3; [|done].
  destruct (put_references (bm_referenced_certificate_refs m)) as [s4|] eqn:E4; [|done].
  destruct (if 2 <=? _ then _ else _) as [s5|] eqn:E5; [|done]. destruct (put_artifacts _) as [s6|] eqn:E6; [|done].
  intros <-%ok_inj. unfold decode_manifest. pose proof (md_schema _ _ _ Hd) as [[Hlo Hhi] Hlay].
  assert (Hrefs : ∀ refs kind, NoDup refs ∧ Forall (λ r, validate_identity r = Ok ()) refs ∧ (∀ id, id ∈ refs → id ∈ ids_of kind (bm_artifacts m)) →
            Forall (λ r, utf8_valid r = true) refs → len refs ≤ bl_max_artifacts limits ∧ Forall (λ s, utf8_valid s = true ∧ len s ≤ 240) refs).
  { intros refs kind (Hnd & Hid & Hin) Hu. split.
    - etrans; [by eapply refs_bounded|]. apply Hd.
    - rewrite Forall_forall in *. intros r Hr. split; [by apply Hu|]. by apply identity_short, Hid. }
  destruct (Hrefs _ _ (md_certificate_refs _ _ _ Hd) (my_certificates _ Ht)) as [Hc1 Hc2].
  destruct (Hrefs _ _ (md_bundle_refs _ _ _ Hd) (my_bundles _ Ht)) as [Hb1 Hb2].
  rewrite read_u32 by (unfold U32_MAX; lia).
  rewrite (read_string_put _ _ _ _ _ E1 (my_archive_id _ Ht) (identity_short _ (md_archive_id _ _ _ Hd))).
  rewrite read_u64 by apply Ht. rewrite (read_string_put _ _ _ _ _ E2 (my_version _ Ht) Hver).
  rewrite read_u32 by (rewrite Hlay; done).
  rewrite (read_string_put _ _ _ _ _ E3 (my_revision _ Ht) (identity_short _ (md_revision_id _ _ _ Hd))).
  rewrite read_u8 by (by destruct (bm_admin_initialized m)). rewrite (read_references_put _ _ _ _ E4 Hc1 Hc2).
  assert (Hbundles : ∀ rest, (if 2 <=? bm_schema_version m then read_references limits (s5 ++ rest) else Ok ([], s5 ++ rest))
            = Ok (bm_referenced_trust_bundle_refs m, rest)).
  { intros rest. destruct (2 <=? bm_schema_version m) eqn:Ev; [by apply read_references_put|].
    apply ok_inj in E5 as <-. apply N.leb_gt in Ev. by rewrite (md_old_schema _ _ _ Hd) by lia. }
  rewrite Hbundles, read_u32 by apply Ht. rewrite (proj2 (N.ltb_ge _ _)) by (rewrite (md_count _ _ _ Hd); apply Hd).
  rewrite read_u64 by apply Ht. rewrite (proj2 (N.ltb_ge _ _)) by (rewrite (md_total _ _ _ Hd); apply Hd).
  replace (N.to_nat (bm_artifact_count m)) with (length (bm_artifacts m)) by (rewrite (md_count _ _ _ Hd); unfold len; lia).
  rewrite (read_entries_put limits _ _ _ E6 (md_artifacts _ _ _ Hd) (my_artifacts _ Ht)).
  rewrite <-(app_nil_r (bm_manifest_digest m)), read_exact_app by apply Ht. clear. destruct m as [? ? ? ? ? ? []]; done.
Qed.

(** ** Archives *)
Section archive.
  Context `{!Sha256} `{!AgeEnvelope} `{!AgeEnvelopeLaws}.

(** An artifact as the writer gets it. *)
Record artifact_whole (a : BackupArtifact) : Prop := {
  aw_typed : artifact_typed (art_descriptor a);
  aw_length : len (art_payload a) = ba_length_bytes (art_descriptor a);
  aw_digest : sha256 (art_payload a) = ba_sha256 (art_descriptor a)
}.
Definition summary_of (a : BackupArtifactDescriptor) : BackupRecordSummary :=
  {| brs_relative_logical_path := ba_relative_logical_path a; brs_length_bytes := ba_length_bytes a; brs_sha256 := ba_sha256 a |}.
Fixpoint records_bytes (l : list BackupArtifact) : list byte :=
  match l with [] => [] | a :: rest => default [] (record_bytes a) ++ records_bytes rest end.
(** What the reader does with the payloads, one after another. *)
Fixpoint accept_all {S} (accept : BackupArtifactDescriptor → list byte → S → result AppError () * S) (l : list BackupArtifact) (s : S)
  : result AppError () * S :=
  match l with
  | [] => (Ok (), s)
  | a :: rest => let! _, s := accept (art_descriptor a) (art_payload a) s in accept_all accept rest s
  end.
Lemma read_records_written {S} accept limits (l : list BackupArtifact) total records (s : S) :
  Forall artifact_whole l → Forall (artifact_ok limits) (art_descriptor <$> l) →
  total + sum_lengths (art_descriptor <$> l) ≤ bl_max_total_plaintext_bytes limits → bl_max_total_plaintext_bytes limits ≤ U64_MAX →
  bl_max_logical_path_bytes limits ≤ U32_MAX → len records + len l ≤ bl_max_artifacts limits →
  read_records accept limits (art_descriptor <$> l) total records (records_bytes l) s
  = match accept_all accept l s with
    | (Ok _, s) => (Ok (records ++ (summary_of <$> (art_descriptor <$> l)), []), s)
    | (Err e, s) => (Err e, s)
    end.
Proof.
  intros Hw. revert total records s. induction Hw as [|a l Ha _ IH]; intros total records s Hok Htot Hmax Hpath Hn.
  { cbn. by rewrite app_nil_r. }
  rewrite fmap_cons in *. inversion_clear Hok as [|? ? Hoa Hol]. destruct Ha as [Hty Hlen Hdig].
  cbn [read_records records_bytes accept_all]. unfold record_bytes.
  pose proof (ao_path_length _ _ Hoa) as Hpl. rewrite (proj2 (N.ltb_ge _ _)) by lia. cbn [from_option id]. rewrite <-!app_assoc.
  rewrite read_exact_app by done. rewrite bool_decide_eq_true_2 by done. cbn [negb].
  assert (Hput : put_string (ba_relative_logical_path (art_descriptor a))
                 = Ok (put_u32 (len (ba_relative_logical_path (art_descriptor a))) ++ ba_relative_logical_path (art_descriptor a))).
  { unfold put_string. by rewrite (proj2 (N.ltb_ge _ _)) by lia. }
  assert (Hrs : ∀ rest, read_string authentication_failed (bl_max_logical_path_bytes limits)
            (put_u32 (len (ba_relative_logical_path (art_descriptor a))) ++ ba_relative_logical_path (art_descriptor a) ++ rest)
            = Ok (ba_relative_logical_path (art_descriptor a), rest)).
  { intros rest. rewrite app_assoc. apply (read_string_put _ _ _ _ _ Hput); [apply Hty|done]. }
  rewrite Hrs. unfold sum_lengths in Htot. cbn [foldr] in Htot. fold (sum_lengths (art_descriptor <$> l)) in Htot.
  rewrite read_u64 by (rewrite Hlen; apply Hty). rewrite Hlen.
  rewrite (proj2 (N.ltb_ge _ _)) by apply Hoa. rewrite (proj2 (N.ltb_ge U64_MAX _)) by lia.
  rewrite (proj2 (N.ltb_ge _ _)) by lia. rewrite read_exact_app by done.
  rewrite (proj2 (N.ltb_ge _ _)) by (rewrite len_cons in Hn; lia). rewrite bool_decide_eq_true_2 by done. cbn [negb].
  destruct (accept (art_descriptor a) (art_payload a) s) as [[[]|e] s1]; [|done].
  rewrite IH; [|done|lia|done|done|rewrite len_cons in Hn; rewrite len_app; change (len [_]) with 1; lia].
  destruct (accept_all accept l s1) as [[[]|e] s2]; [|done]. rewrite <-app_assoc. cbn [app fmap list_fmap].
  unfold summary_of at 2. by rewrite Hdig.
Qed.
(** The plain body of an archive, sealed, is read back whole. *)
Lemma archive_roundtrip {S} accept limits m encoded arts secret entropy (s : S) :
  manifest_described m limits (bm_artifacts m) → manifest_typed m → len (bm_source_app_version m) ≤ 240 →
  encode_manifest m true = Ok encoded → len encoded ≤ bl_max_manifest_bytes limits → len encoded ≤ U64_MAX →
  bm_artifacts m = art_descriptor <$> arts → Forall artifact_whole arts →
  bl_max_total_plaintext_bytes limits ≤ U64_MAX → bl_max_logical_path_bytes limits ≤ U32_MAX →
  read_archive_records accept
    (Some (seal secret entropy ((BODY_MAGIC ++ put_u64 (len encoded) ++ encoded) ++ records_bytes arts))) secret limits s
  = match accept_all accept arts s with
    | (Ok _, s) => (Ok {| bar_manifest := m; bar_records := summary_of <$> bm_artifacts m |}, s)
    | (Err e, s) => (Err e, s)
    end.
Proof.
  intros Hd Ht Hver He Hsize H64 Hm Hw Hmax Hpath. unfold read_archive_records. cbn [ok_or]. rewrite unseal_seal. cbn [ok_or ds_bytes].
  rewrite <-!app_assoc, read_exact_app by done. rewrite bool_decide_eq_true_2 by done. cbn [negb].
  rewrite read_u64 by done. unfold validate_manifest_encoded_size. rewrite (proj2 (N.ltb_ge _ _)) by done.
  rewrite read_exact_app by done. rewrite (manifest_roundtrip m limits encoded) by done.
  pose proof (md_artifacts _ _ _ Hd) as Ho. pose proof (md_total_bound _ _ _ Hd) as Hb. pose proof (md_count_bound _ _ _ Hd) as Hc.
  rewrite Hm in *. rewrite read_records_written; try done.
  2: { unfold len in *. rewrite length_fmap in Hc. cbn. lia. }
  destruct (accept_all accept arts s) as [[[]|e] s']; [|done]. done.
Qed.
End archive.

(** ** Creating, then verifying *)
(** What a source promises: values of their types, and payloads that have the digest they are listed with. *)
Class BackupSourceLaws (S : Type) `{!BackupArtifactSource S} `{!Sha256} : Prop := {
  inventory_typed : ∀ s inv s', inventory s = (Ok inv, s') →
    utf8_valid (bi_current_revision_id inv) = true ∧ Forall (λ r, utf8_valid r = true) (bi_referenced_certificate_refs inv)
    ∧ Forall (λ r, utf8_valid r = true) (bi_referenced_trust_bundle_refs inv) ∧ Forall artifact_typed (bi_artifacts inv);
  payload_digest : ∀ a s x s', read_artifact a s = (Ok x, s') → sha256 (art_payload x) = ba_sha256 (art_descriptor x)
}.
Section create.
  Context {L S C I G : Type} `{!DataDirectoryLockManager L} `{!BackupArtifactSource S} `{!Clock C} `{!OperationIdGenerator I} `{!LogSink G}.
  Context `{!Sha256} `{!Sha256Laws} `{!AgeEnvelope} `{!AgeEnvelopeLaws} `{!BackupSourceLaws S}.
  Abbreviation world := (CreateWorld L S AgeBackupArchiveWriter C I G).

Lemma writer_io_keeps w ok w' :
  writer_io w = (ok, w') → aw_output w' = aw_output w ∧ aw_temporary w' = aw_temporary w ∧ aw_stream w' = aw_stream w
    ∧ aw_finalized w' = aw_finalized w ∧ aw_entropy w' = aw_entropy w.
Proof. unfold writer_io. destruct (aw_outcomes w); by intros [= <- <-]. Qed.
Lemma open_ok m secret w w' :
  writer_open m secret w = (Ok (), w') →
  ∃ encoded, encode_manifest m true = Ok encoded ∧ len encoded ≤ bl_max_manifest_bytes schema_v1
    ∧ aw_stream w' = Some (secret, BODY_MAGIC ++ put_u64 (len encoded) ++ encoded).
Proof.
  unfold writer_open. destruct (_ || _); [done|]. destruct (writer_io w) as [created w1]. destruct (_ || _); [done|].
  destruct (writer_io (set_files _ _ _ _ _)) as [wrapped w2]. destruct (negb wrapped); [done|].
  destruct (encode_manifest m true) as [encoded|]; [|done]. unfold validate_manifest_encoded_size.
  destruct (_ <? _) eqn:El; [done|]. apply N.ltb_ge in El. destruct (writer_io w2) as [written w3]. destruct (negb written); [done|].
  intros [= <-]. by exists encoded.
Qed.
Lemma write_record_ok a w w' secret body :
  aw_stream w = Some (secret, body) → writer_write_record a w = (Ok (), w') →
  aw_stream w' = Some (secret, body ++ default [] (record_bytes a)).
Proof.
  intros Hs. unfold writer_write_record. rewrite Hs. destruct (writer_io w) as [written w1]. destruct (record_bytes a); [|done].
  destruct written; [|done]. by intros [= <-].
Qed.
Lemma finish_ok w n w1 w2 w3 secret body :
  aw_stream w = Some (secret, body) → writer_finalize w = (Ok n, w1) → writer_sync w1 = (Ok (), w2) →
  writer_publish w2 = (Ok (), w3) → aw_output w3 = Some (seal secret (aw_entropy w) body).
Proof.
  intros Hs. unfold writer_finalize. rewrite Hs.
  destruct (writer_io (set_files _ _ None _ w)) as [finished a1] eqn:E1. apply writer_io_keeps in E1 as (_ & _ & _ & _ & Hen).
  destruct (negb finished); [done|]. destruct (writer_io (set_files _ (Some _) _ _ a1)) as [measured a2] eqn:E2.
  apply writer_io_keeps in E2 as (_ & Ht & _ & _ & _). destruct (negb measured); [done|]. intros [= _ <-].
  unfold writer_sync. cbn [aw_finalized set_files negb]. destruct (writer_io (set_files _ _ None true a2)) as [synced a3] eqn:E3.
  apply writer_io_keeps in E3 as (_ & Ht3 & _ & Hf & _). destruct synced; [|done]. intros [= <-].
  unfold writer_publish. rewrite Hf. cbn [aw_finalized set_files negb].
  destruct (writer_io (set_files _ _ _ false a3)) as [renamed a4] eqn:E4. apply writer_io_keeps in E4 as (_ & Ht4 & _).
  rewrite Ht4. cbn [aw_temporary set_files]. rewrite Ht3. cbn [aw_temporary set_files]. rewrite Ht. cbn [aw_temporary set_files].
  destruct renamed; [|done]. destruct (writer_io (set_files (Some _) _ _ _ a4)) as [synced a5] eqn:E5.
  apply writer_io_keeps in E5 as (Ho & _). destruct synced; [|done]. intros [= <-]. rewrite Ho. cbn. by rewrite Hen.
Qed.
(** What the source hands out for a list of descriptors, one after another. *)
Fixpoint read_all (l : list BackupArtifactDescriptor) (s : S) : result AppError (list BackupArtifact) * S :=
  match l with
  | [] => (Ok [], s)
  | a :: rest => let! x, s := read_artifact a s in let! xs, s := read_all rest s in (Ok (x :: xs), s)
  end.
Lemma stream_ok (expected : list BackupArtifactDescriptor) (w w' : world) secret body :
  aw_stream (cw_writer w) = Some (secret, body) → Forall artifact_typed expected → stream_records expected w = (Ok (), w') →
  ∃ arts, art_descriptor <$> arts = expected ∧ Forall artifact_whole arts
    ∧ aw_stream (cw_writer w') = Some (secret, body ++ records_bytes arts)
    ∧ read_all expected (cw_source w) = (Ok arts, cw_source w').
Proof.
  revert w body. induction expected as [|a rest IH]; intros w body Hs Ht; cbn [stream_records].
  { intros [= <-]. exists []. cbn. by rewrite app_nil_r. }
  inversion_clear Ht as [|? ? Hta Htr]. unfold in_source, in_writer.
  destruct (read_artifact a (cw_source w)) as [[x|] s1] eqn:Er; [|done]. destruct (_ || _) eqn:Eq; [done|].
  rewrite orb_false_iff, !negb_false_iff, bool_decide_eq_true, N.eqb_eq in Eq. destruct Eq as [<- Hlen].
  cbn [read_all]. rewrite Er. cbn [cw_writer cw_source]. destruct (bw_write_record x (cw_writer w)) as [[[]|] w1] eqn:Ew; [|done].
  pose proof (write_record_ok _ _ _ _ _ Hs Ew) as Hs1. unfold create_step. cbn [cw_machine].
  destruct (backup_transition _ _); [|done]. intros Hrest.
  eapply IH in Hrest as (arts & <- & Hw & Hs2 & Hr); [|exact Hs1|done]. cbn [cw_source] in Hr. rewrite Hr.
  exists (x :: arts). split_and!; [done| |by rewrite <-app_assoc in Hs2|done].
  constructor; [|done]. split; [done|done|]. by eapply payload_digest.
Qed.
Lemma total_sum l sum n : plaintext_total sum l = Ok n → n = sum + sum_lengths l ∧ (sum ≤ U64_MAX → n ≤ U64_MAX).
Proof.
  revert sum. induction l as [|a l IH]; intros sum; cbn [plaintext_total]; [intros [= <-]; unfold sum_lengths; cbn; split; [lia|done]|].
  destruct (_ <? _) eqn:E; [done|]. apply N.ltb_ge in E. intros [-> Hb]%IH. unfold sum_lengths in *. cbn. split; [lia|]. intros _. by apply Hb.
Qed.
Lemma digest_aside d m limits : manifest_validate (with_digest d m) limits = manifest_validate m limits.
Proof.
  assert (Hl : ∀ l t, tally_artifacts (with_digest d m) limits l t = tally_artifacts m limits l t).
  { intros l. induction l as [|a l IH]; intros t; [done|]. cbn [tally_artifacts].
    change (tally_artifact (with_digest d m) limits a t) with (tally_artifact m limits a t). by destruct (tally_artifact m limits a t). }
  unfold manifest_validate. by rewrite Hl.
Qed.
(** The manifest lists what the inventory lists. *)
Definition describes (m : BackupManifest) (inv : BackupSourceInventory) : Prop :=
  bm_artifacts m = bi_artifacts inv ∧ bm_current_revision_id m = bi_current_revision_id inv
  ∧ bm_admin_initialized m = bi_admin_initialized inv
  ∧ bm_referenced_certificate_refs m = bi_referenced_certificate_refs inv
  ∧ bm_referenced_trust_bundle_refs m = bi_referenced_trust_bundle_refs inv.
Lemma checked_ok limits input inv archive_id started m :
  checked_manifest limits input inv archive_id started = Ok m →
  manifest_validate m limits = Ok () ∧ manifest_digest_of m = Ok (bm_manifest_digest m)
  ∧ describes m inv ∧ bm_archive_id m = archive_id ∧ bm_source_app_version m = cb_source_app_version input
  ∧ (utf8_valid archive_id = true → started ≤ U64_MAX → utf8_valid (cb_source_app_version input) = true →
     utf8_valid (bi_current_revision_id inv) = true → Forall (λ r, utf8_valid r = true) (bi_referenced_certificate_refs inv) →
     Forall (λ r, utf8_valid r = true) (bi_referenced_trust_bundle_refs inv) → Forall artifact_typed (bi_artifacts inv) →
     manifest_typed m).
Proof.
  unfold checked_manifest. destruct (plaintext_total 0 _) as [n|] eqn:En; [|done]. destruct (_ <? _) eqn:El; [done|]. apply N.ltb_ge in El.
  cbv zeta. set (m0 := backup_manifest _ _ _ _ _ _). destruct (manifest_validate m0 limits) as [[]|] eqn:Ev; [|done].
  destruct (manifest_digest_of m0) as [d|] eqn:Ed; [|done]. intros <-%ok_inj. split_and!; [by rewrite digest_aside|exact Ed|done|done|done|].
  intros Ha Hst Hver Hrev Hc Hb Ht. split; try done.
  - apply total_sum in En as [_ En]. apply En. done.
  - cbn. revert Ed. unfold manifest_digest_of. destruct (encode_manifest m0 false); [|done]. intros <-%ok_inj.
    unfold len. by rewrite sha256_length.
Qed.

(** What was written when the locked part of the operation succeeded. *)
Definition backed_up (limits : BackupLimits) (input : CreateBackupInput) (receipt : BackupReceipt) (started : N) (w w' : world) : Prop :=
  ∃ inv m encoded arts entropy,
    checked_manifest limits input inv (rc_archive_id receipt) started = Ok m ∧ encode_manifest m true = Ok encoded
    ∧ len encoded ≤ bl_max_manifest_bytes schema_v1 ∧ bi_artifacts inv = art_descriptor <$> arts ∧ Forall artifact_whole arts
    ∧ (∃ ids ids', next_id ids = (Ok (rc_archive_id receipt), ids')) ∧ (∃ listed, inventory (cw_source w) = (Ok inv, listed) ∧ read_all (bi_artifacts inv) listed = (Ok arts, cw_source w'))
    ∧ rc_artifact_count receipt = bm_artifact_count m ∧ rc_plaintext_bytes receipt = bm_total_plaintext_bytes m
    ∧ aw_output (cw_writer w')
      = Some (seal (cb_passphrase input) entropy ((BODY_MAGIC ++ put_u64 (len encoded) ++ encoded) ++ records_bytes arts)).
Lemma step_keeps e (w w' : world) r : create_step e w = (r, w') → cw_writer w' = cw_writer w ∧ cw_source w' = cw_source w.
Proof. unfold create_step. destruct (backup_transition _ _); by intros [= <- <-]. Qed.
Ltac next_step :=
  match goal with |- context [create_step ?e ?x] =>
    let E := fresh "E" in destruct (create_step e x) as [[[]|] ?w] eqn:E; [|done]; let F := fresh "F" in apply step_keeps in E as [E F]; cbn [cw_writer cw_source] in E, F end.
Lemma locked_ok limits input op started (w w' : world) receipt :
  execute_locked limits input op started w = (Ok receipt, w') → backed_up limits input receipt started w w'.
Proof.
  unfold execute_locked. unfold in_source at 1. destruct (inventory (cw_source w)) as [[inv|] src] eqn:Ei; [|done].
  next_step. unfold in_ids.
  destruct (next_id (cw_ids w0)) as [[id|] ids] eqn:En; [|done].
  destruct (checked_manifest limits input inv id started) as [m|] eqn:Em; [|done].
  next_step. unfold in_writer at 1. cbn [bw_open age_writer].
  destruct (writer_open m (cb_passphrase input) (cw_writer w1)) as [[[]|] wr] eqn:Eo; [|done].
  apply open_ok in Eo as (encoded & He & Hsize & Hs). next_step.
  destruct (stream_records (bi_artifacts inv) w2) as [[[]|] w3] eqn:Es; [|done].
  destruct (inventory_typed _ _ _ Ei) as (_ & _ & _ & Ht).
  eapply stream_ok in Es as (arts & Hd & Hw & Hs3 & Hr); [|by rewrite E1|done].
  unfold in_writer at 1. cbn [bw_finalize age_writer]. destruct (writer_finalize (cw_writer w3)) as [[n|] f1] eqn:Ef; [|done].
  next_step. next_step. unfold in_writer at 1. cbn [bw_sync age_writer].
  destruct (writer_sync (cw_writer w5)) as [[[]|] f2] eqn:Esy; [|done]. next_step. unfold in_writer. cbn [bw_publish age_writer].
  destruct (writer_publish (cw_writer w6)) as [[[]|] f3] eqn:Ep; [|done]. next_step. unfold read_clock, in_logs.
  destruct (now_epoch_seconds (cw_clock w7)) as [now clock]. cbn [cw_logs cw_lock cw_source cw_writer cw_clock cw_ids].
  destruct (record_backup_log _ _ _) as [? logs]. intros [= <- <-].
  rewrite E3, E2 in Esy. rewrite E4 in Ep.
  pose proof (finish_ok _ _ _ _ _ _ _ Hs3 Ef Esy Ep) as Hout.
  exists inv, m, encoded, arts, (aw_entropy (cw_writer w3)). split_and!; try done; [by eexists _, _| |].
  - exists src. split; [done|]. cbn [cw_source]. rewrite F5, F4, F3, F2. by rewrite F1, F0, F in Hr.
  - cbn [cw_writer]. by rewrite E5.
Qed.

Lemma created_ok limits input (w w' : world) receipt :
  create_backup limits input w = (Ok receipt, w') →
  ∃ started clock clock', now_epoch_seconds clock = (started, clock') ∧ backed_up limits input receipt started w w'.
Proof.
  unfold create_backup. destruct (validate_destination_identity _); [|done]. case_bool_decide; [done|]. unfold in_ids.
  destruct (next_id (cw_ids w)) as [[id|] ids]; [|done]. unfold in_logs at 1.
  destruct (record_backup_log _ _ _) as [[[]|] logs]; [|done]. unfold read_clock.
  match goal with |- context [now_epoch_seconds ?c] => destruct (now_epoch_seconds c) as [started clock] eqn:Ec end.
  next_step. unfold in_lock. destruct (try_acquire_exclusive _) as [[[]|] l]; [|done]. next_step.
  destruct (execute_locked _ _ _ _ _) as [[rc|] w2] eqn:Ee; [|done]. intros [= <- <-].
  exists started. eexists _, _. split; [exact Ec|].
  apply locked_ok in Ee. unfold backed_up in *. by rewrite F0, F in Ee.
Qed.
Lemma summaries_agree l : existsb (λ x, record_differs x.1 x.2) (zip (summary_of <$> l) l) = false.
Proof.
  induction l as [|a l IH]; [done|]. cbn. rewrite IH, orb_false_r. unfold record_differs, summary_of. cbn.
  by rewrite !bool_decide_eq_true_2, N.eqb_refl by done.
Qed.
Lemma described_verifies limits op m :
  manifest_validate m limits = Ok () → manifest_digest_of m = Ok (bm_manifest_digest m) → bl_max_artifacts limits ≤ U16_MAX →
  ∃ report, verify_archive limits op {| bar_manifest := m; bar_records := summary_of <$> bm_artifacts m |} = Ok report
    ∧ vr_archive_id report = bm_archive_id m ∧ vr_artifact_count report = bm_artifact_count m
    ∧ vr_total_bytes report = bm_total_plaintext_bytes m.
Proof.
  intros Hv Hd Hmax. pose proof (accepted_described _ _ Hv) as Hm. unfold verify_archive. cbn [bar_manifest bar_records].
  rewrite Hv, Hd. rewrite bool_decide_eq_true_2 by done. unfold len at 1. rewrite length_fmap. fold (len (bm_artifacts m)).
  rewrite N.eqb_refl, summaries_agree. cbn [negb orb]. rewrite (proj2 (N.ltb_ge _ _)).
  - by eexists.
  - unfold count_kind. pose proof (md_count_bound _ _ _ Hm) as Hc.
    assert (length (filter (λ a, ba_kind a = AuditLedgerSegment) (bm_artifacts m)) ≤ length (bm_artifacts m))%nat by apply length_filter.
    unfold len in *. lia.
Qed.
(** The identifiers are texts and the clock counts in 64 bits. *)
Context (ids_are_texts : ∀ (i : I) id i', next_id i = (Ok id, i') → utf8_valid id = true).
Context (clock_is_u64 : ∀ c : C, (now_epoch_seconds c).1 ≤ U64_MAX).

(** C22: A backup that was created verifies and yields what was backed up.  Over any source that
    keeps its promises (values of their types, payloads that have the digest they are listed
    with), whatever the files around it do, for a version text of at most 240 bytes: when creating
    succeeds, the destination holds an archive that the passphrase opens.  Its manifest lists every
    artifact of the inventory that the source gave, with the source's current revision and
    references; reading it hands on, for each artifact of that inventory and in its order, the
    payload that the source returned for it; and verifying it reports the identifier, the count and
    the size of the receipt. *)
Theorem created_backup_verifies version input (w w' : world) receipt :
  len (cb_source_app_version input) ≤ 240 → utf8_valid (cb_source_app_version input) = true →
  create_backup (schema_limits version) input w = (Ok receipt, w') →
  ∃ file arts inv listed, aw_output (cw_writer w') = Some file
    ∧ inventory (cw_source w) = (Ok inv, listed) ∧ read_all (bi_artifacts inv) listed = (Ok arts, cw_source w')
    ∧ Forall artifact_whole arts
    ∧ (∀ T accept (t t' : T), accept_all accept arts t = (Ok (), t') →
        ∃ archive, read_archive_records accept (Some file) (cb_passphrase input) (schema_limits version) t = (Ok archive, t')
          ∧ bm_artifacts (bar_manifest archive) = art_descriptor <$> arts ∧ describes (bar_manifest archive) inv)
    ∧ ∀ (v : VerifyWorld AgeBackupArchiveReader C I G) id ids logs,
        vw_reader v = {| ar_file := Some file |} → next_id (vw_ids v) = (Ok id, ids) →
        record_backup_log "backup.verify.started" [("operation_id"%string, id)] (vw_logs v) = (Ok (), logs) →
        ∃ report, (verify_backup (schema_limits version) (cb_passphrase input) v).1 = Ok report
          ∧ vr_archive_id report = rc_archive_id receipt ∧ vr_artifact_count report = rc_artifact_count receipt
          ∧ vr_total_bytes report = rc_plaintext_bytes receipt.
Proof.
  intros Hlen Hu8 Hcreate. apply created_ok in Hcreate as (started & clock & clock' & Hclock & inv & m & encoded & arts & entropy & Hb).
  destruct Hb as (Hm & He & Hsize & Harts & Hwhole & (ids0 & ids1 & Hid) & (listed & Hinv & Hall) & Hcount & Htotal & Hout).
  destruct (checked_ok _ _ _ _ _ _ Hm) as (Hv & Hdig & Hdesc & Haid & Hver & Htyped). pose proof (proj1 Hdesc) as Hart.
  destruct (inventory_typed _ _ _ Hinv) as (Hrev & Hcr & Hbr & Hat).
  specialize (Htyped (ids_are_texts _ _ _ Hid)). pose proof (clock_is_u64 clock) as Hstart. rewrite Hclock in Hstart.
  specialize (Htyped Hstart Hu8 Hrev Hcr Hbr Hat). pose proof (accepted_described _ _ Hv) as Hd.
  eexists _, arts, inv, listed. split; [exact Hout|]. split; [done|]. split; [done|]. split; [done|].
  assert (Hread : ∀ T accept (t : T), read_archive_records accept
      (Some (seal (cb_passphrase input) entropy ((BODY_MAGIC ++ put_u64 (len encoded) ++ encoded) ++ records_bytes arts)))
      (cb_passphrase input) (schema_limits version) t
    = match accept_all accept arts t with
      | (Ok _, t) => (Ok {| bar_manifest := m; bar_records := summary_of <$> bm_artifacts m |}, t)
      | (Err e, t) => (Err e, t)
      end).
  { intros T accept t. apply archive_roundtrip; try done; [by rewrite Hver| |by rewrite Hart].
    etrans; [exact Hsize|]. done. }
  split.
  - intros T accept t t' Hacc. rewrite Hread, Hacc. eexists. split; [reflexivity|]. cbn. split; [by rewrite Hart|done].
  - intros v id ids logs Hr Hi Hl. unfold verify_backup. rewrite Hi. cbn [vw_logs vw_reader vw_clock]. rewrite Hl.
    destruct (now_epoch_seconds (vw_clock v)) as [t0 c0]. unfold br_read, age_reader. rewrite Hr. cbn [ar_file]. unfold archive_read. rewrite Hread.
    assert (Hacc : accept_all (λ _ _ s, (Ok (), s)) arts () = (Ok (), ())) by (clear; induction arts; done).
    rewrite Hacc. cbn [fst]. destruct (described_verifies (schema_limits version) id m Hv Hdig) as (report & Hrep & Hra & Hrc & Hrt); [done|].
    rewrite Hrep. destruct (now_epoch_seconds c0) as [t1 c1]. match goal with |- context [record_backup_log ?e ?f logs] => destruct (record_backup_log e f logs) as [? logs'] end.
    exists report. split_and!; [done|congruence|congruence|congruence].
Qed.
End create.

(** ** A small backup *)
Definition padded_digest : Sha256 := λ b, take 32 (b ++ replicate 32 NUL).
Definition prefix_envelope : AgeEnvelope := {|
  seal secret _ body := secret ++ body;
  unseal secret file := if starts_with secret file
                        then Some {| ds_bytes := drop (length secret) file; ds_authentic := true |} else None |}.
#[local] Existing Instances padded_digest prefix_envelope.
Lemma padded_laws : Sha256Laws.
Proof. intros b. unfold sha256, padded_digest. rewrite length_take, length_app, length_replicate. lia. Qed.
Lemma prefix_laws : AgeEnvelopeLaws.
Proof.
  intros secret entropy body. cbn. assert (starts_with secret (secret ++ body) = true) as ->.
  { apply starts_with_spec. by exists body. }
  by rewrite drop_app_length.
Qed.
(** A directory with one revision. *)
Definition tiny_payload (a : BackupArtifactDescriptor) : list byte :=
  if bool_decide (ba_kind a = ConfigRevisionPointer) then lit "rev-1" else lit "version = 1".
Definition tiny_artifact (kind : BackupArtifactKind) (id path : string) : BackupArtifactDescriptor :=
  let payload := if bool_decide (kind = ConfigRevisionPointer) then lit "rev-1" else lit "version = 1" in
  {| ba_kind := kind; ba_logical_id := lit id; ba_relative_logical_path := lit path; ba_length_bytes := len payload;
     ba_sha256 := sha256 payload; ba_mode := PublicMode; ba_required_for_restore := true |}.
Definition tiny_inventory : BackupSourceInventory :=
  {| bi_current_revision_id := lit "rev-1"; bi_admin_initialized := false; bi_referenced_certificate_refs := [];
     bi_referenced_trust_bundle_refs := []; bi_source_fingerprint := lit "f";
     bi_artifacts := [tiny_artifact ConfigRevisionPointer "current" "config/current";
                      tiny_artifact ConfigRevisionArtifact "rev-1" "config/revisions/rev-1"] |}.
Definition tiny_source : BackupArtifactSource () := {|
  inventory s := (Ok tiny_inventory, s);
  read_artifact a s :=
    if bool_decide (sha256 (tiny_payload a) = ba_sha256 a)
    then (Ok {| art_descriptor := a; art_payload := tiny_payload a |}, s)
    else (Err (AppError_new BackupSourceChanged "backup source changed after inventory"), s) |}.
Definition free_lock : DataDirectoryLockManager () := λ l, (Ok (), l).
Definition stopped_clock : Clock () := λ c, (1700000000, c).
Definition fixed_ids : OperationIdGenerator () := λ i, (Ok (lit "00ff"), i).
Definition silent_log : LogSink () := λ _ g, (Ok (), g).
#[local] Existing Instances tiny_source free_lock stopped_clock fixed_ids silent_log padded_laws prefix_laws.
Lemma tiny_laws : BackupSourceLaws ().
Proof.
  split.
  - intros s inv s' [= <- <-]. split_and!; [by vm_compute|by constructor|by constructor|].
    repeat constructor; by vm_compute.
  - intros a s x s'. cbn. case_bool_decide as H; [|done]. by intros [= <- <-].
Qed.
#[local] Existing Instance tiny_laws.
Definition tiny_input : CreateBackupInput :=
  {| cb_source_app_version := lit "0.1.0"; cb_destination_identity := lit "backup.age"; cb_passphrase := lit "secret" |}.
Definition tiny_world : CreateWorld () () AgeBackupArchiveWriter () () () :=
  Build_CreateWorld () () {| aw_output := None; aw_temporary := None; aw_stream := None; aw_finalized := false;
                             aw_entropy := []; aw_outcomes := [] |} () () () BackupIdle.
Abbreviation tiny_run := (create_backup (schema_limits 3) tiny_input tiny_world).
Definition tiny_receipt : BackupReceipt :=
  {| rc_operation_id := lit "00ff"; rc_archive_id := lit "00ff"; rc_schema_version := 3; rc_artifact_count := 2;
     rc_plaintext_bytes := 16; rc_encrypted_bytes := 361; rc_created_at_epoch_seconds := 1700000000;
     rc_destination_identity := lit "backup.age"; rc_current_revision_id := lit "rev-1"; rc_source_fingerprint := lit "f" |}.
Lemma created_backup_verifies_witness :
  ∃ file arts, aw_output (cw_writer tiny_run.2) = Some file ∧ Forall artifact_whole arts
    ∧ art_payload <$> arts = [lit "rev-1"; lit "version = 1"]
    ∧ ∀ v : VerifyWorld AgeBackupArchiveReader () () (), vw_reader v = {| ar_file := Some file |} →
        ∃ report, (verify_backup (schema_limits 3) (lit "secret") v).1 = Ok report ∧ vr_archive_id report = lit "00ff".
Proof.
  assert (tiny_run = (Ok tiny_receipt, tiny_run.2)) as Hrun by (vm_compute; reflexivity).
  assert (∀ (i : ()) id i', next_id i = (Ok id, i') → utf8_valid id = true) as Hids by by intros ? ? ? [= <- <-].
  assert (∀ c : (), (now_epoch_seconds c).1 ≤ U64_MAX) as Hclock by done.
  destruct (created_backup_verifies Hids Hclock 3 tiny_input tiny_world tiny_run.2 tiny_receipt) as (file & arts & inv & listed & Hf & Hi & Ha & Hw & _ & Hver);
    [done|done|exact Hrun|].
  injection Hi as <- <-. vm_compute in Ha. injection Ha as <-.
  exists file. eexists. split; [exact Hf|]. split; [exact Hw|]. split; [done|]. intros v Hv.
  destruct (Hver v (lit "00ff") () () Hv) as (report & Hr & Harch & _ & _); [by destruct (vw_ids v)|by destruct (vw_logs v)|].
  exists report. split; [exact Hr|exact Harch].
Defined.
