(* ===== verification/RestoreFiles.v ===== *)
(** * Restoring a backup

    The use cases ReplaceRestoreBackupUseCase, RecoverRestoreUseCase and RestoreBackupUseCase of
    crates/edge-application/src/backup.rs, with the file adapters they run on
    (crates/edge-adapters/src/backup.rs): the publisher that moves whole directories and the journal.
    Every call to the file system may fail, and the process may die at any of them. *)

From stdpp Require Import base gmap strings list sorting.
From Stdlib Require Import Strings.Byte NArith Lia.
From S2P Require Import Prelude Errors ErrorMessages RustStr Endpoint UpstreamPolicy Snapshot ConfigParser ConfigRender ConfigStore AuditModel AuditCodec BackupModel BackupArchive BackupUse.
Local Open Scope N_scope.

(** ** Directories *)
(** A data directory: the configuration as its repository sees it, the audit ledger, and the rest. *)
Record RestoreTree := {
  tr_config : Disk;
  tr_audit : gmap (list byte) (list byte);
  tr_rest : gmap (list byte) (list byte)
}.
(** The target, the two directories beside it and the journal. *)
Record RestoreDisk := {
  rd_target : option RestoreTree;
  rd_stage : option RestoreTree;
  rd_rollback : option RestoreTree;
  rd_journal : option (list byte)
}.
(** How the next call goes.  A removal that fails or is cut short leaves [remains] of the directory. *)
Inductive RestoreIo :=
| RioDone
| RioFails (remains : RestoreTree → RestoreTree)
| RioDies (remains : RestoreTree → RestoreTree).
(** When the process is dead its calls have no effect; what the code computes after that is never seen. *)
Record RestoreFs := { rf_disk : RestoreDisk; rf_outcomes : list RestoreIo; rf_dead : bool }.

Definition fs_call (effect : RestoreDisk → option RestoreDisk) (cut : (RestoreTree → RestoreTree) → RestoreDisk → RestoreDisk)
  (f : RestoreFs) : bool * RestoreFs :=
  if rf_dead f then (false, f)
  else
    let done rest := match effect (rf_disk f) with
                     | Some d => (true, {| rf_disk := d; rf_outcomes := rest; rf_dead := false |})
                     | None => (false, {| rf_disk := rf_disk f; rf_outcomes := rest; rf_dead := false |})
                     end in
    match rf_outcomes f with
    | [] => done []
    | RioDone :: rest => done rest
    | RioFails remains :: rest => (false, {| rf_disk := cut remains (rf_disk f); rf_outcomes := rest; rf_dead := false |})
    | RioDies remains :: rest => (false, {| rf_disk := cut remains (rf_disk f); rf_outcomes := rest; rf_dead := true |})
    end.
Definition uncut (_ : RestoreTree → RestoreTree) (d : RestoreDisk) : RestoreDisk := d.
Definition set_dirs (target stage rollback : option RestoreTree) (d : RestoreDisk) : RestoreDisk :=
  {| rd_target := target; rd_stage := stage; rd_rollback := rollback; rd_journal := rd_journal d |}.
Definition set_journal (journal : option (list byte)) (d : RestoreDisk) : RestoreDisk :=
  {| rd_target := rd_target d; rd_stage := rd_stage d; rd_rollback := rd_rollback d; rd_journal := journal |}.
(** [Path::exists] and [Path::is_dir]: [false] when they cannot tell. *)
Definition ask_dir (dir : RestoreDisk → option RestoreTree) (f : RestoreFs) : bool * RestoreFs :=
  fs_call (λ d, if bool_decide (is_Some (dir d)) then Some d else None) uncut f.
Definition sync_parent (f : RestoreFs) : bool * RestoreFs := fs_call Some uncut f.
(** [rename] of a directory onto a name that is free. *)
Definition move_target (f : RestoreFs) : bool * RestoreFs :=
  fs_call (λ d, match rd_target d, rd_rollback d with
                | Some t, None => Some (set_dirs None (rd_stage d) (Some t) d)
                | _, _ => None
                end) uncut f.
Definition move_stage (f : RestoreFs) : bool * RestoreFs :=
  fs_call (λ d, match rd_stage d, rd_target d with
                | Some t, None => Some (set_dirs (Some t) None (rd_rollback d) d)
                | _, _ => None
                end) uncut f.
Definition move_rollback (f : RestoreFs) : bool * RestoreFs :=
  fs_call (λ d, match rd_rollback d, rd_target d with
                | Some t, None => Some (set_dirs (Some t) (rd_stage d) None d)
                | _, _ => None
                end) uncut f.
(** [remove_dir_all]; a directory that is not there is an error. *)
Definition remove_target (f : RestoreFs) : bool * RestoreFs :=
  fs_call (λ d, match rd_target d with Some _ => Some (set_dirs None (rd_stage d) (rd_rollback d) d) | None => None end)
    (λ remains d, set_dirs (remains <$> rd_target d) (rd_stage d) (rd_rollback d) d) f.
Definition remove_stage (f : RestoreFs) : bool * RestoreFs :=
  fs_call (λ d, match rd_stage d with Some _ => Some (set_dirs (rd_target d) None (rd_rollback d) d) | None => None end)
    (λ remains d, set_dirs (rd_target d) (remains <$> rd_stage d) (rd_rollback d) d) f.
Definition remove_rollback (f : RestoreFs) : bool * RestoreFs :=
  fs_call (λ d, match rd_rollback d with Some _ => Some (set_dirs (rd_target d) (rd_stage d) None d) | None => None end)
    (λ remains d, set_dirs (rd_target d) (rd_stage d) (remains <$> rd_rollback d) d) f.

Definition restore_target_unsafe : AppError := backup_error RestoreTargetUnsafe.
Definition restore_stage_failed : AppError := backup_error RestoreStageFailed.
Definition restore_commit_failed : AppError := backup_error RestoreCommitFailed.
Definition restore_rollback_failed : AppError := backup_error RestoreRollbackFailed.
Definition restore_transaction_unresolved : AppError := backup_error RestoreTransactionUnresolved.
Definition transaction_ambiguous : AppError := backup_error RestoreTransactionAmbiguous.
(** The call, with the error its failure is reported as. *)
Definition or_error (e : AppError) (m : bool * RestoreFs) : result AppError () * RestoreFs :=
  let '(ok, f) := m in (if ok then Ok () else Err e, f).

(** ** The journal *)
Inductive RestoreTransactionState := TxPrepared | TxTargetMoved | TxStagePublished.
#[global] Instance RestoreTransactionState_eq_dec : EqDecision RestoreTransactionState. Proof. solve_decision. Defined.
Record RestoreTransaction := {
  tx_operation_id : list byte;
  tx_archive_id : list byte;
  tx_target_identity : list byte;
  tx_stage_identity : list byte;
  tx_rollback_identity : list byte;
  tx_state : RestoreTransactionState
}.
Definition transaction_state_name (s : RestoreTransactionState) : string :=
  match s with
  | TxPrepared => "prepared" | TxTargetMoved => "target_moved" | TxStagePublished => "stage_published"
  end.
Definition unsafe_value (value : list byte) : bool :=
  bool_decide (value = []) || contains_byte x2f value || contains_byte BACKSLASH value || contains_byte NUL value
  || dot_segment value.
Definition validate_transaction_values (tx : RestoreTransaction) : result AppError () :=
  if existsb unsafe_value [tx_operation_id tx; tx_archive_id tx; tx_target_identity tx; tx_stage_identity tx;
                           tx_rollback_identity tx]
  then Err restore_transaction_unresolved else Ok ().
Definition journal_line (key : string) (value : list byte) : list byte := lit key ++ [EQUALS] ++ value ++ [LF].
Definition render_transaction (tx : RestoreTransaction) : list byte :=
  journal_line "version" (lit "1") ++ journal_line "operation" (hex_encode (tx_operation_id tx))
  ++ journal_line "archive" (hex_encode (tx_archive_id tx)) ++ journal_line "target" (hex_encode (tx_target_identity tx))
  ++ journal_line "stage" (hex_encode (tx_stage_identity tx)) ++ journal_line "rollback" (hex_encode (tx_rollback_identity tx))
  ++ journal_line "state" (lit (transaction_state_name (tx_state tx))).
Fixpoint journal_values (lines : list (list byte)) (values : gmap (list byte) (list byte))
  : result AppError (gmap (list byte) (list byte)) :=
  match lines with
  | [] => Ok values
  | line :: rest =>
      let? (key, value) := ok_or (split_once EQUALS line) restore_transaction_unresolved in
      match values !! key with
      | Some _ => Err restore_transaction_unresolved
      | None => journal_values rest (<[key := value]> values)
      end
  end.
(** The code slices the value into pairs of bytes; where a pair would cut a character in two the slicing
    panics, and this is the same refusal. *)
Definition decode_value (values : gmap (list byte) (list byte)) (key : string) : result AppError (list byte) :=
  let? value := ok_or (values !! lit key) restore_transaction_unresolved in
  ok_or (hex_decode value) restore_transaction_unresolved.
Definition journal_state (values : gmap (list byte) (list byte)) : result AppError RestoreTransactionState :=
  match values !! lit "state" with
  | None => Err restore_transaction_unresolved
  | Some name =>
      if bool_decide (name = lit "prepared") then Ok TxPrepared
      else if bool_decide (name = lit "target_moved") then Ok TxTargetMoved
      else if bool_decide (name = lit "stage_published") then Ok TxStagePublished
      else Err restore_transaction_unresolved
  end.
Definition parse_transaction (operation_id source : list byte) : result AppError RestoreTransaction :=
  let? values := journal_values (str_lines source) ∅ in
  let version := values !! lit "version" in
  let values := delete (lit "version") values in
  if negb (bool_decide (version = Some (lit "1"))) || negb (bool_decide (size values = 6%nat))
  then Err restore_transaction_unresolved
  else
    let? state := journal_state values in
    let? operation := decode_value values "operation" in
    let? archive := decode_value values "archive" in
    let? target := decode_value values "target" in
    let? stage := decode_value values "stage" in
    let? rollback := decode_value values "rollback" in
    let tx := {| tx_operation_id := operation; tx_archive_id := archive; tx_target_identity := target;
                 tx_stage_identity := stage; tx_rollback_identity := rollback; tx_state := state |} in
    let? _ := validate_transaction_values tx in
    if negb (bool_decide (operation = operation_id)) then Err restore_transaction_unresolved else Ok tx.
(** The temporary file beside the journal: preparing and filling it is one call here. *)
Definition journal_persist (tx : RestoreTransaction) (f : RestoreFs) : result AppError () * RestoreFs :=
  match validate_transaction_values tx with
  | Err e => (Err e, f)
  | Ok _ =>
      let! _, f := or_error restore_commit_failed (fs_call Some uncut f) in
      let! _, f := or_error restore_commit_failed (fs_call (λ d, Some (set_journal (Some (render_transaction tx)) d)) uncut f) in
      or_error restore_commit_failed (sync_parent f)
  end.
Definition journal_load (operation_id : list byte) (f : RestoreFs)
  : result AppError (option RestoreTransaction) * RestoreFs :=
  let '(found, f) := fs_call (λ d, if bool_decide (is_Some (rd_journal d)) then Some d else None) uncut f in
  if negb found then (Ok None, f)
  else
    let '(readable, f) := fs_call Some uncut f in
    match readable, rd_journal (rf_disk f) with
    | true, Some source =>
        (if utf8_valid source then let? tx := parse_transaction operation_id source in Ok (Some tx)
         else Err restore_transaction_unresolved, f)
    | _, _ => (Err (backup_error RestoreTransactionUnresolved), f)
    end.
(** A journal that is not there is no error. *)
Definition journal_delete (f : RestoreFs) : result AppError () * RestoreFs :=
  let present := bool_decide (is_Some (rd_journal (rf_disk f))) in
  let! _, f := or_error restore_commit_failed (fs_call (λ d, Some (set_journal None d)) uncut f) in
  if present then or_error restore_commit_failed (sync_parent f) else (Ok (), f).

(** ** The publisher of a replacement *)
Record RestoreStageSummary := {
  sg_stage_identity : list byte;
  sg_archive_id : list byte;
  sg_revision_id : list byte;
  sg_artifact_count : N;
  sg_certificate_count : N;
  sg_trust_bundle_count : N;
  sg_audit_segment_count : N;
  sg_admin_initialized : bool;
  sg_referenced_certificate_refs : list (list byte);
  sg_referenced_trust_bundle_refs : list (list byte)
}.
(** The names of the three directories. *)
Record RestoreNames := { rn_target : list byte; rn_stage : list byte; rn_rollback : list byte }.
(** [FileRevisionRepository::current] of a directory, when everything can be read. *)
Definition tree_current (t : option RestoreTree) : option RevisionRecord :=
  match t with
  | None => None
  | Some t => match (file_current {| frr_disk := tr_config t; frr_outcomes := [] |}).1 with
              | Ok found => found
              | Err _ => None
              end
  end.
Inductive RestoreRollbackOutcome := NotRequired | Restored.
Section publisher.
  Context (names : RestoreNames).

Definition publisher_validate (tx : RestoreTransaction) : result AppError () :=
  if negb (bool_decide (rn_target names = tx_target_identity tx)) || negb (bool_decide (rn_stage names = tx_stage_identity tx))
     || negb (bool_decide (rn_rollback names = tx_rollback_identity tx))
  then Err restore_transaction_unresolved else Ok ().
Definition with_validated {A} (tx : RestoreTransaction) (k : RestoreFs → result AppError A * RestoreFs) (f : RestoreFs)
  : result AppError A * RestoreFs :=
  match publisher_validate tx with
  | Err e => (Err e, f)
  | Ok _ => k f
  end.
Definition prepare_replace (operation_id : list byte) (stage : RestoreStageSummary) (f : RestoreFs)
  : result AppError RestoreTransaction * RestoreFs :=
  let '(target, f) := ask_dir rd_target f in
  if negb target then (Err restore_target_unsafe, f)
  else
    let '(staged, f) := ask_dir rd_stage f in
    if negb staged then (Err restore_target_unsafe, f)
    else
      let '(leftover, f) := ask_dir rd_rollback f in
      if leftover then (Err restore_target_unsafe, f)
      else
        let tx := {| tx_operation_id := operation_id; tx_archive_id := sg_archive_id stage; tx_target_identity := rn_target names;
                     tx_stage_identity := rn_stage names; tx_rollback_identity := rn_rollback names; tx_state := TxPrepared |} in
        (let? _ := validate_transaction_values tx in Ok tx, f).
Definition move_target_to_rollback (tx : RestoreTransaction) : RestoreFs → result AppError () * RestoreFs :=
  with_validated tx (λ f,
    let! _, f := or_error restore_commit_failed (move_target f) in
    or_error restore_commit_failed (sync_parent f)).
Definition publish_stage (tx : RestoreTransaction) : RestoreFs → result AppError () * RestoreFs :=
  with_validated tx (λ f,
    let! _, f := or_error restore_commit_failed (move_stage f) in
    or_error restore_commit_failed (sync_parent f)).
(** Reading the current revision below a directory is one call here. *)
Definition read_current (dir : RestoreDisk → option RestoreTree) (f : RestoreFs) : option RevisionRecord * RestoreFs :=
  let '(readable, f) := fs_call Some uncut f in
  (if readable then tree_current (dir (rf_disk f)) else None, f).
Definition verify_target (tx : RestoreTransaction) (stage : RestoreStageSummary)
  : RestoreFs → result AppError () * RestoreFs :=
  with_validated tx (λ f,
    let '(current, f) := read_current rd_target f in
    (match current with
     | None => Err restore_commit_failed
     | Some record => if bool_decide (rev_id (rec_revision record) = sg_revision_id stage) then Ok () else Err restore_commit_failed
     end, f)).
Definition rollback_after_failure (tx : RestoreTransaction) : RestoreFs → result AppError RestoreRollbackOutcome * RestoreFs :=
  with_validated tx (λ f,
    let '(kept, f) := ask_dir rd_rollback f in
    if negb kept then (Ok NotRequired, f)
    else
      let '(present, f) := ask_dir rd_target f in
      let! _, f := if present then or_error restore_rollback_failed (remove_target f) else (Ok (), f) in
      let! _, f := or_error restore_rollback_failed (move_rollback f) in
      let '(staged, f) := ask_dir rd_stage f in
      let! _, f := if staged then or_error restore_rollback_failed (remove_stage f) else (Ok (), f) in
      let! _, f := or_error restore_rollback_failed (sync_parent f) in
      (Ok Restored, f)).
Definition cleanup_committed (tx : RestoreTransaction) : RestoreFs → result AppError () * RestoreFs :=
  with_validated tx (λ f,
    let '(kept, f) := ask_dir rd_rollback f in
    let! _, f := if kept then or_error restore_commit_failed (remove_rollback f) else (Ok (), f) in
    let '(staged, f) := ask_dir rd_stage f in
    let! _, f := if staged then or_error restore_commit_failed (remove_stage f) else (Ok (), f) in
    or_error restore_commit_failed (sync_parent f)).
Definition dir_valid (dir : RestoreDisk → option RestoreTree) (tx : RestoreTransaction)
  : RestoreFs → result AppError bool * RestoreFs :=
  with_validated tx (λ f,
    let '(current, f) := read_current dir f in (Ok (bool_decide (is_Some current)), f)).
Definition target_valid : RestoreTransaction → RestoreFs → result AppError bool * RestoreFs := dir_valid rd_target.
Definition rollback_valid : RestoreTransaction → RestoreFs → result AppError bool * RestoreFs := dir_valid rd_rollback.
End publisher.
(** [validate_config] of the preflight: the stage's current revision is the one the archive names. *)
Definition preflight_validate_config (stage : RestoreStageSummary) (f : RestoreFs) : result AppError () * RestoreFs :=
  let '(current, f) := read_current rd_stage f in
  (match current with
   | None => Err (backup_error RestoreConfigInvalid)
   | Some record => if bool_decide (rev_id (rec_revision record) = sg_revision_id stage) then Ok ()
                    else Err (backup_error RestoreConfigInvalid)
   end, f).
(** [cleanup] of the extractor; a stage that is not there is no error. *)
Definition stage_cleanup (f : RestoreFs) : result AppError () * RestoreFs :=
  or_error restore_stage_failed
    (fs_call (λ d, Some (set_dirs (rd_target d) None (rd_rollback d) d))
       (λ remains d, set_dirs (rd_target d) (remains <$> rd_stage d) (rd_rollback d) d) f).
