(* ===== verification/RestoreUse.v ===== *)
(** * Restoring: the operations

    Replacing a data directory with a backup, recovering an interrupted replacement, and restoring into a
    new directory (crates/edge-application/src/backup.rs), on the files of [RestoreFiles]. *)

From stdpp Require Import base gmap strings list sorting.
From Stdlib Require Import Strings.Byte NArith Lia.
From S2P Require Import Prelude Errors ErrorMessages RustStr ConfigStore AuditModel AuditCodec BackupModel BackupArchive BackupUse RestoreFiles.
Local Open Scope N_scope.

(** ** Ports and the world *)
(** Everything the operations use but the directories and the journal.  Extracting fills the stage;
    opening the stage's audit ledger to verify it may write to it; recording where the data came from appends to the audit ledger of the target. *)
Class RestorePorts (X : Type) := {
  rp_lock : X → result AppError () * X;
  rp_extract : SensitiveString → BackupLimits → X → RestoreFs → result AppError RestoreStageSummary * (X * RestoreFs);
  rp_validate_certificates : RestoreStageSummary → X → result AppError () * X;
  rp_validate_secrets : RestoreStageSummary → X → result AppError () * X;
  rp_validate_audit : RestoreStageSummary → X → RestoreFs → result AppError () * (X * RestoreFs);
  rp_preflight_runtime : RestoreStageSummary → X → result AppError () * X;
  rp_append_provenance : AuditRecord → X → RestoreFs → result AppError () * (X * RestoreFs);
  rp_now : X → N * X;
  rp_next_id : X → result AppError (list byte) * X;
  rp_log : StructuredLogEvent → X → result AppError () * X
}.
Record RestoreWorld (X : Type) := {
  rw_ports : X;
  rw_fs : RestoreFs;
  rw_machine : RestoreState;
  rw_transaction : option RestoreTransaction
}.
Arguments Build_RestoreWorld {X}.
Arguments rw_ports {X}.
Arguments rw_fs {X}.
Arguments rw_machine {X}.
Arguments rw_transaction {X}.
Record RestoreReceipt := {
  rr_operation_id : list byte;
  rr_archive_id : list byte;
  rr_restored_layout_version : N;
  rr_restored_revision_id : list byte;
  rr_certificate_count : N;
  rr_trust_bundle_count : N;
  rr_rollback_copy_created : bool;
  rr_commit_mode : string
}.
Record RestoreRecoveryReceipt := { ry_operation_id : list byte; ry_outcome : string }.

Definition transaction_in_state (s : RestoreTransactionState) (tx : RestoreTransaction) : RestoreTransaction :=
  {| tx_operation_id := tx_operation_id tx; tx_archive_id := tx_archive_id tx; tx_target_identity := tx_target_identity tx;
     tx_stage_identity := tx_stage_identity tx; tx_rollback_identity := tx_rollback_identity tx; tx_state := s |}.
Definition audit_record_error : AppError := AppError_new AuditRecordInvalid "restore audit identity is invalid".
Definition parse_or_refuse (value : list byte) : result AppError AuditIdentifier :=
  match audit_identifier_parse value with Ok v => Ok v | Err _ => Err audit_record_error end.
Definition provenance_record (operation_id archive_id : list byte) (revision_id : option (list byte)) (timestamp : N)
  : result AppError AuditRecord :=
  let? operation := parse_or_refuse operation_id in
  let? target := parse_or_refuse archive_id in
  let? after := match revision_id with
                | None => Ok None
                | Some revision => let? v := parse_or_refuse revision in Ok (Some v)
                end in
  Ok {| ar_version := 1; ar_kind := Reconciliation;
        ar_context := {| ctx_operation_id := operation; ctx_request_id := operation; ctx_actor_kind := MaintenanceCli;
                         ctx_received_at := timestamp |};
        ar_action := MaintenanceRestoreImported; ar_target_kind := TkRestore; ar_target_id := target; ar_before := None;
        ar_after := after; ar_outcome := Some ReconciledCommitted; ar_error := None |}.
Definition receipt_of (operation_id : list byte) (stage : RestoreStageSummary) (rollback_copy : bool) (mode : string)
  : RestoreReceipt :=
  {| rr_operation_id := operation_id; rr_archive_id := sg_archive_id stage; rr_restored_layout_version := 1;
     rr_restored_revision_id := sg_revision_id stage; rr_certificate_count := sg_certificate_count stage;
     rr_trust_bundle_count := sg_trust_bundle_count stage; rr_rollback_copy_created := rollback_copy; rr_commit_mode := mode |}.

Section use.
  Context {X : Type} `{!RestorePorts X} (names : RestoreNames).
  Abbreviation world := (RestoreWorld X).

Definition port {A} (f : X → result AppError A * X) (w : world) : result AppError A * world :=
  let '(r, x) := f (rw_ports w) in (r, Build_RestoreWorld x (rw_fs w) (rw_machine w) (rw_transaction w)).
Definition port_fs {A} (f : X → RestoreFs → result AppError A * (X * RestoreFs)) (w : world) : result AppError A * world :=
  let '(r, (x, fs)) := f (rw_ports w) (rw_fs w) in (r, Build_RestoreWorld x fs (rw_machine w) (rw_transaction w)).
Definition on_fs {A} (f : RestoreFs → result AppError A * RestoreFs) (w : world) : result AppError A * world :=
  let '(r, fs) := f (rw_fs w) in (r, Build_RestoreWorld (rw_ports w) fs (rw_machine w) (rw_transaction w)).
Definition clock (w : world) : N * world :=
  let '(now, x) := rp_now (rw_ports w) in (now, Build_RestoreWorld x (rw_fs w) (rw_machine w) (rw_transaction w)).
Definition step (e : RestoreEvent) (w : world) : result AppError () * world :=
  match restore_transition (rw_machine w) e with
  | Ok s => (Ok (), Build_RestoreWorld (rw_ports w) (rw_fs w) s (rw_transaction w))
  | Err e => (Err e, w)
  end.
Fixpoint steps (es : list RestoreEvent) (w : world) : result AppError () * world :=
  match es with
  | [] => (Ok (), w)
  | e :: rest => let! _, w := step e w in steps rest w
  end.
Definition note (tx : RestoreTransaction) (w : world) : world := Build_RestoreWorld (rw_ports w) (rw_fs w) (rw_machine w) (Some tx).
Definition restore_log (event : string) (fields : list (string * list byte)) (w : world) : result AppError () * world :=
  port (rp_log {| sl_component := "backup"; sl_event := event; sl_fields := fields |}) w.

Definition record_restore_provenance (operation_id archive_id : list byte) (revision_id : option (list byte)) (timestamp : N)
  (w : world) : result AppError () * world :=
  let '(r, w) := match provenance_record operation_id archive_id revision_id timestamp with
                 | Err e => (Err e, w)
                 | Ok record => port_fs (rp_append_provenance record) w
                 end in
  match r with
  | Ok _ => step ProvenancePersisted w
  | Err e => let! _, w := step (ProvenanceAppendFailed (app_code e)) w in (Err e, w)
  end.

(** What both restores do before they touch the target. *)
Definition stage_and_check (limits : BackupLimits) (passphrase : SensitiveString) (w : world)
  : result AppError RestoreStageSummary * world :=
  let! _, w := port rp_lock w in
  let! _, w := step RestoreLockAcquired w in
  let! stage, w := port_fs (rp_extract passphrase limits) w in
  let! _, w := steps [RestoreEnvelopeOpened; RestoreEnvelopeAuthenticated; ManifestRead; StageCreated; StageExtracted;
                      ArtifactsVerified] w in
  let! _, w := on_fs (preflight_validate_config stage) w in
  let! _, w := step ConfigValidated w in
  let! _, w := port (rp_validate_certificates stage) w in
  let! _, w := step CertificatesValidated w in
  let! _, w := port (rp_validate_secrets stage) w in
  let! _, w := step SecretsValidated w in
  let! _, w := port_fs (rp_validate_audit stage) w in
  let! _, w := step AuditValidated w in
  let! _, w := port (rp_preflight_runtime stage) w in
  let! _, w := step RuntimePreflighted w in
  (Ok stage, w).

(** ** Replacing *)
(** The end of [execute_inner]: the record of the provenance, and the previous data removed. *)
Definition replace_finish (operation_id : list byte) (stage : RestoreStageSummary) (tx : RestoreTransaction) (w : world)
  : result AppError RestoreReceipt * world :=
  let '(now, w) := clock w in
  let! _, w := record_restore_provenance operation_id (sg_archive_id stage) (Some (sg_revision_id stage)) now w in
  let! _, w := on_fs (cleanup_committed names tx) w in
  let! _, w := on_fs journal_delete w in
  (Ok (receipt_of operation_id stage true "replace_transaction"), w).
(** The middle of [execute_inner]: the two directories moved, the journal written after each. *)
Definition replace_commit (operation_id : list byte) (stage : RestoreStageSummary) (tx : RestoreTransaction) (w : world)
  : result AppError RestoreReceipt * world :=
  let! _, w := on_fs (move_target_to_rollback names tx) w in
  let tx := transaction_in_state TxTargetMoved tx in
  let! _, w := on_fs (journal_persist tx) w in
  let w := note tx w in
  let! _, w := step TargetMovedToRollback w in
  let! _, w := on_fs (publish_stage names tx) w in
  let tx := transaction_in_state TxStagePublished tx in
  let! _, w := on_fs (journal_persist tx) w in
  let w := note tx w in
  let! _, w := step EvStagePublished w in
  let! _, w := on_fs (verify_target names tx stage) w in
  let! _, w := step PublishedTargetVerified w in
  replace_finish operation_id stage tx w.
Definition replace_inner (limits : BackupLimits) (passphrase : SensitiveString) (operation_id : list byte) (w : world)
  : result AppError RestoreReceipt * world :=
  let! stage, w := stage_and_check limits passphrase w in
  let! tx, w := on_fs (prepare_replace names operation_id stage) w in
  let! _, w := step CommitPrepared w in
  let! _, w := on_fs (journal_persist tx) w in
  let! _, w := step TransactionPersisted w in
  replace_commit operation_id stage tx (note tx w).
(** What follows a failure; the errors of these calls are dropped, the one of rolling back apart. *)
Definition replace_undo (original : AppError) (w : world) : AppError * world :=
  if bool_decide (rw_machine w = Committing) || bool_decide (rw_machine w = VerifyingPublishedTarget) then
    match rw_transaction w with
    | None => (original, w)
    | Some tx =>
        let '(_, w) := step (RollbackRequested (app_code original)) w in
        match on_fs (rollback_after_failure names tx) w with
        | (Ok _, w) =>
            let '(_, w) := step RollbackRestored w in
            let '(_, w) := on_fs journal_delete w in
            (original, w)
        | (Err e, w) => (e, w)
        end
    end
  else (original, (step (RestoreOperationFailed (app_code original)) w).2).
Definition replace_restore (limits : BackupLimits) (passphrase : SensitiveString) (w : world)
  : result AppError RestoreReceipt * world :=
  let! operation_id, w := port rp_next_id w in
  let! _, w := restore_log "backup.restore_replace.started" [("operation_id"%string, operation_id)] w in
  let '(started, w) := clock w in
  let w := Build_RestoreWorld (rw_ports w) (rw_fs w) RestoreIdle None in
  let! _, w := step RestoreStart w in
  match replace_inner limits passphrase operation_id w with
  | (Err original, w) =>
      let '(failure, w) := replace_undo original w in
      let '(_, w) := on_fs stage_cleanup w in
      let '(_, w) := step RestoreCleanupFinished w in
      let '(_, w) := restore_log "backup.restore_replace.failed" (error_fields operation_id failure) w in
      (Err failure, w)
  | (Ok receipt, w) =>
      let '(now, w) := clock w in
      let '(_, w) := restore_log "backup.restore_replace.succeeded"
        [("operation_id"%string, operation_id); ("archive_id"%string, rr_archive_id receipt);
         ("commit_mode"%string, lit (rr_commit_mode receipt)); ("duration_seconds"%string, print_dec (now - started))] w in
      (Ok receipt, w)
  end.

(** ** Recovering *)
(** What the state of the journal and the two directories call for. *)
Definition recover_choice (tx : RestoreTransaction) (target rollback : bool) (w : world) : result AppError string * world :=
  match tx_state tx, target, rollback with
  | TxPrepared, true, false => let! _, w := on_fs (cleanup_committed names tx) w in (Ok "restore_aborted"%string, w)
  | TxTargetMoved, true, true | TxStagePublished, true, _ =>
      let! _, w := on_fs (cleanup_committed names tx) w in (Ok "commit_completed"%string, w)
  | TxPrepared, false, true | TxTargetMoved, false, true | TxStagePublished, false, true =>
      let! outcome, w := on_fs (rollback_after_failure names tx) w in
      (match outcome with Restored => Ok "rollback_restored"%string | NotRequired => Err transaction_ambiguous end, w)
  | _, _, _ => (Err transaction_ambiguous, w)
  end.
Definition recover_inner (operation_id : list byte) (w : world) : result AppError RestoreRecoveryReceipt * world :=
  let w := Build_RestoreWorld (rw_ports w) (rw_fs w) RestoreIdle (rw_transaction w) in
  let! _, w := step RecoveryRequested w in
  let! loaded, w := on_fs (journal_load operation_id) w in
  match loaded with
  | None => (Err (backup_error RestoreTransactionUnresolved), w)
  | Some tx =>
      let! target, w := on_fs (target_valid names tx) w in
      let! rollback, w := on_fs (rollback_valid names tx) w in
      let! outcome, w := recover_choice tx target rollback w in
      let! _, w := step InterruptedTransactionRecovered w in
      let! _, w := step PublishedTargetVerified w in
      let! _, w := if String.eqb outcome "commit_completed" then
                     let '(now, w) := clock w in record_restore_provenance operation_id (tx_archive_id tx) None now w
                   else step ProvenanceNotRequired w in
      let! _, w := on_fs journal_delete w in
      (Ok {| ry_operation_id := operation_id; ry_outcome := outcome |}, w)
  end.
Definition recover_restore (operation_id : list byte) (w : world) : result AppError RestoreRecoveryReceipt * world :=
  let! _, w := restore_log "backup.restore_recovery.started" [("operation_id"%string, operation_id)] w in
  match recover_inner operation_id w with
  | (Ok receipt, w) =>
      let '(_, w) := restore_log "backup.restore_recovery.succeeded"
        [("operation_id"%string, operation_id); ("outcome"%string, lit (ry_outcome receipt))] w in
      (Ok receipt, w)
  | (Err e, w) =>
      let '(_, w) := restore_log "backup.restore_recovery.failed" (error_fields operation_id e) w in (Err e, w)
  end.

(** ** Restoring into a new directory *)
Definition prepare_new_target (f : RestoreFs) : result AppError () * RestoreFs :=
  let '(present, f) := ask_dir rd_target f in
  if present then (Err (backup_error RestoreTargetNotEmpty), f)
  else let '(staged, f) := ask_dir rd_stage f in (if staged then Ok () else Err restore_stage_failed, f).
Definition publish_new_target (f : RestoreFs) : result AppError () * RestoreFs :=
  let! _, f := or_error restore_commit_failed (move_stage f) in or_error restore_commit_failed (sync_parent f).
Definition verify_published_target (stage : RestoreStageSummary) (f : RestoreFs) : result AppError () * RestoreFs :=
  let '(current, f) := read_current rd_target f in
  (match current with
   | None => Err restore_commit_failed
   | Some record => if bool_decide (rev_id (rec_revision record) = sg_revision_id stage) then Ok () else Err restore_commit_failed
   end, f).
Definition restore_inner (limits : BackupLimits) (passphrase : SensitiveString) (operation_id : list byte) (w : world)
  : result AppError RestoreReceipt * world :=
  let! stage, w := stage_and_check limits passphrase w in
  let! _, w := on_fs prepare_new_target w in
  let! _, w := step NewTargetCommitPrepared w in
  let! _, w := on_fs publish_new_target w in
  let! _, w := step EvStagePublished w in
  let! _, w := on_fs (verify_published_target stage) w in
  let! _, w := step PublishedTargetVerified w in
  let '(now, w) := clock w in
  let! _, w := record_restore_provenance operation_id (sg_archive_id stage) (Some (sg_revision_id stage)) now w in
  (Ok (receipt_of operation_id stage false "new_target"), w).
Definition restore_backup (limits : BackupLimits) (passphrase : SensitiveString) (w : world)
  : result AppError RestoreReceipt * world :=
  let! operation_id, w := port rp_next_id w in
  let! _, w := restore_log "backup.restore.started" [("operation_id"%string, operation_id)] w in
  let '(started, w) := clock w in
  let w := Build_RestoreWorld (rw_ports w) (rw_fs w) RestoreIdle None in
  let! _, w := step RestoreStart w in
  match restore_inner limits passphrase operation_id w with
  | (Ok receipt, w) =>
      let '(now, w) := clock w in
      let '(_, w) := restore_log "backup.restore.succeeded"
        [("operation_id"%string, operation_id); ("archive_id"%string, rr_archive_id receipt);
         ("commit_mode"%string, lit (rr_commit_mode receipt)); ("duration_seconds"%string, print_dec (now - started))] w in
      (Ok receipt, w)
  | (Err e, w) =>
      let '(_, w) := step (RestoreOperationFailed (app_code e)) w in
      let '(_, w) := on_fs stage_cleanup w in
      let '(_, w) := step RestoreCleanupFinished w in
      let '(_, w) := restore_log "backup.restore.failed" (error_fields operation_id e) w in
      (Err e, w)
  end.
End use.
