(* ===== verification/RestoreProofs.v ===== *)
(** * A replacement never loses the data it replaces

    Whatever fails or whenever the process dies, the previous data directory or the restored one is
    there; and recovery settles every replacement that was interrupted on its way forward. *)

From stdpp Require Import base gmap strings list sorting.
From Stdlib Require Import Strings.Byte NArith Lia.
From S2P Require Import Prelude Errors ErrorMessages RustStr Snapshot ConfigStore ConfigChange AuditModel AuditCodec BackupModel BackupArchive BackupUse RestoreFiles RestoreUse.
Local Open Scope N_scope.

(** ** Calls *)
Lemma call_ends effect cut f b f' :
  fs_call effect cut f = (b, f') →
  (rf_disk f' = rf_disk f ∧ b = false) ∨ (∃ d, effect (rf_disk f) = Some d ∧ rf_disk f' = d ∧ b = true)
  ∨ (∃ remains, rf_disk f' = cut remains (rf_disk f) ∧ b = false).
Proof.
  unfold fs_call. destruct (rf_dead f); [intros [= <- <-]; by left|]. destruct (rf_outcomes f) as [|[| |] rest];
    repeat (destruct (effect (rf_disk f)) as [d|] eqn:E); intros [= <- <-]; cbn; eauto 6.
Qed.
Lemma call_uncut effect f b f' :
  fs_call effect uncut f = (b, f') → (rf_disk f' = rf_disk f ∧ b = false) ∨ (∃ d, effect (rf_disk f) = Some d ∧ rf_disk f' = d ∧ b = true).
Proof. intros [?|[?|(remains & ? & ?)]]%call_ends; [by left|by right|]. by left. Qed.
Lemma ask_keeps dir f b f' : ask_dir dir f = (b, f') → rf_disk f' = rf_disk f ∧ (b = true → is_Some (dir (rf_disk f))).
Proof. intros [[? ->]|(d & Hd & -> & ->)]%call_uncut; [done|]. by case_bool_decide; simplify_eq. Qed.
Lemma look_keeps f b f' : fs_call Some uncut f = (b, f') → rf_disk f' = rf_disk f.
Proof. intros [[? _]|(d & [= <-] & -> & _)]%call_uncut; done. Qed.


(** ** How a call ends *)
(** No call of the file system fails; the process may still die. *)
Definition sound (f : RestoreFs) : Prop := Forall (λ o, match o with RioFails _ => False | _ => True end) (rf_outcomes f).
Definition goes_on (f f' : RestoreFs) : Prop := sound f → sound f'.
Definition died (f f' : RestoreFs) : Prop := sound f → sound f' ∧ rf_dead f' = true.
Definition ends {A} (Q : A → RestoreFs → Prop) (B : RestoreFs → Prop) (m : result AppError A * RestoreFs) : Prop :=
  match m with (Ok a, f) => Q a f | (Err _, f) => B f end.

Lemma goes_on_trans f g h : goes_on f g → goes_on g h → goes_on f h.
Proof. unfold goes_on. auto. Qed.
Lemma goes_on_died f g h : goes_on f g → died g h → died f h.
Proof. unfold goes_on, died. auto. Qed.
Lemma call_goes_on effect cut f b f' : fs_call effect cut f = (b, f') → goes_on f f'.
Proof.
  unfold fs_call, goes_on, sound. destruct (rf_dead f); [by intros [= <- <-]|].
  destruct (rf_outcomes f) as [|[| |] rest] eqn:E; try destruct (effect (rf_disk f)); intros [= <- <-]; cbn; try done;
    by intros [? ?]%Forall_cons.
Qed.
Lemma call_or e effect cut f d' :
  effect (rf_disk f) = Some d' →
  ends (λ _ f', rf_disk f' = d' ∧ goes_on f f')
    (λ f', (rf_disk f' = rf_disk f ∨ ∃ remains, rf_disk f' = cut remains (rf_disk f)) ∧ died f f') (or_error e (fs_call effect cut f)).
Proof.
  intros He. unfold or_error. destruct (fs_call effect cut f) as [b f'] eqn:E. pose proof (call_goes_on _ _ _ _ _ E) as Hg. revert E.
  unfold fs_call. destruct (rf_dead f) eqn:Ed. { intros [= <- <-]. split; [by left|]. intros H. auto. }
  destruct (rf_outcomes f) as [|[| |] rest] eqn:Eo; rewrite ?He; intros [= <- <-]; cbn; try done.
  - split; [right; by eexists|]. unfold died, sound. rewrite Eo. by intros [[] _]%Forall_cons.
  - split; [right; by eexists|]. intros H. split; [by apply Hg|done].
Qed.
Lemma call_or_uncut e effect f d' :
  effect (rf_disk f) = Some d' →
  ends (λ _ f', rf_disk f' = d' ∧ goes_on f f') (λ f', rf_disk f' = rf_disk f ∧ died f f') (or_error e (fs_call effect uncut f)).
Proof.
  intros He. pose proof (call_or e effect uncut f d' He) as H. destruct (or_error e _) as [[?|?] f']; cbn in *; [done|].
  destruct H as [[?|(? & ?)] ?]; done.
Qed.
Lemma ask_goes_on dir f b f' : ask_dir dir f = (b, f') → rf_disk f' = rf_disk f ∧ goes_on f f'.
Proof. intros H. split; [by eapply ask_keeps|by eapply call_goes_on]. Qed.

(** A dead process changes nothing. *)
Lemma dead_call effect cut f : rf_dead f = true → fs_call effect cut f = (false, f).
Proof. intros H. unfold fs_call. by rewrite H. Qed.

(** ** What each operation of the files does *)
Ltac call := match goal with
  | |- context [or_error ?e (fs_call ?eff uncut ?f)] =>
      let H := fresh "H" in pose proof (call_or_uncut e eff f _ eq_refl) as H;
      destruct (or_error e (fs_call eff uncut f)) as [[?|?] ?]; cbn [ends] in H; destruct H as [? ?]
  end.
Lemma persist_ends tx f :
  validate_transaction_values tx = Ok () →
  ends (λ _ f', rf_disk f' = set_journal (Some (render_transaction tx)) (rf_disk f) ∧ goes_on f f')
    (λ f', (rf_disk f' = rf_disk f ∨ rf_disk f' = set_journal (Some (render_transaction tx)) (rf_disk f)) ∧ died f f')
    (journal_persist tx f).
Proof.
  intros Hv. unfold journal_persist, sync_parent. rewrite Hv. call; [|cbn [ends]; eauto].
  call; [|cbn [ends]; split; [left; congruence|by eapply goes_on_died]].
  call; cbn [ends]; (split; [|eauto using goes_on_trans, goes_on_died]); try right; congruence.
Qed.
Lemma with_validated_eq names tx {A} (k : RestoreFs → result AppError A * RestoreFs) :
  publisher_validate names tx = Ok () → with_validated names tx k = k.
Proof. intros H. unfold with_validated. by rewrite H. Qed.
Section files.
  Context (names : RestoreNames) (tx : RestoreTransaction) (Htx : publisher_validate names tx = Ok ()).

Lemma move_target_ends f old :
  rd_target (rf_disk f) = Some old → rd_rollback (rf_disk f) = None →
  let moved := set_dirs None (rd_stage (rf_disk f)) (Some old) (rf_disk f) in
  ends (λ _ f', rf_disk f' = moved ∧ goes_on f f') (λ f', (rf_disk f' = rf_disk f ∨ rf_disk f' = moved) ∧ died f f')
    (move_target_to_rollback names tx f).
Proof.
  intros Ht Hr. unfold move_target_to_rollback, move_target, sync_parent. rewrite with_validated_eq by done. cbv zeta.
  match goal with |- context [or_error ?e (fs_call ?eff uncut f)] => pose proof (call_or_uncut e eff f) as H end.
  cbv beta in H. rewrite Ht, Hr in H. specialize (H _ eq_refl).
  destruct (or_error _ (fs_call _ uncut f)) as [[?|?] f1]; cbn [ends] in H; destruct H as [? ?]; [|cbn [ends]; eauto].
  call; cbn [ends]; (split; [|eauto using goes_on_trans, goes_on_died]); try right; congruence.
Qed.
Lemma publish_ends f new :
  rd_stage (rf_disk f) = Some new → rd_target (rf_disk f) = None →
  let moved := set_dirs (Some new) None (rd_rollback (rf_disk f)) (rf_disk f) in
  ends (λ _ f', rf_disk f' = moved ∧ goes_on f f') (λ f', (rf_disk f' = rf_disk f ∨ rf_disk f' = moved) ∧ died f f')
    (publish_stage names tx f).
Proof.
  intros Hs Ht. unfold publish_stage, move_stage, sync_parent. rewrite with_validated_eq by done. cbv zeta.
  match goal with |- context [or_error ?e (fs_call ?eff uncut f)] => pose proof (call_or_uncut e eff f) as H end.
  cbv beta in H. rewrite Ht, Hs in H. specialize (H _ eq_refl).
  destruct (or_error _ (fs_call _ uncut f)) as [[?|?] f1]; cbn [ends] in H; destruct H as [? ?]; [|cbn [ends]; eauto].
  call; cbn [ends]; (split; [|eauto using goes_on_trans, goes_on_died]); try right; congruence.
Qed.
(** The directory's current revision is the one the archive names. *)
Definition names_current (stage : RestoreStageSummary) (t : option RestoreTree) : Prop :=
  ∃ record, tree_current t = Some record ∧ rev_id (rec_revision record) = sg_revision_id stage.
Lemma read_current_ends dir f current f' :
  read_current dir f = (current, f') → rf_disk f' = rf_disk f ∧ goes_on f f'
    ∧ ((current = None ∧ died f f') ∨ current = tree_current (dir (rf_disk f))).
Proof.
  unfold read_current. pose proof (call_or_uncut restore_commit_failed Some f _ eq_refl) as H. unfold or_error in H.
  destruct (fs_call Some uncut f) as [b f1]. destruct b; cbn [ends] in H; destruct H as [Hd Hg]; intros [= <- <-].
  - rewrite Hd. eauto.
  - split; [done|]. split; [|by left]. intros Hs. by destruct (Hg Hs).
Qed.
Lemma verify_ends stage f :
  names_current stage (rd_target (rf_disk f)) →
  ends (λ _ f', rf_disk f' = rf_disk f ∧ goes_on f f') (λ f', rf_disk f' = rf_disk f ∧ died f f') (verify_target names tx stage f).
Proof.
  intros (record & Hc & Hr). unfold verify_target. rewrite with_validated_eq by done.
  destruct (read_current rd_target f) as [c f1] eqn:E. apply read_current_ends in E as (Hd & Hg & [[-> Hx]| ->]); [done|].
  by rewrite Hc, bool_decide_true.
Qed.
Definition target_kept (f f' : RestoreFs) : Prop :=
  rd_target (rf_disk f') = rd_target (rf_disk f) ∧ rd_journal (rf_disk f') = rd_journal (rf_disk f).
Lemma remove_kept_ends (dir : RestoreDisk → option RestoreTree) remove f e :
  (∀ f, dir (rf_disk f) ≠ None →
     ends (λ _ f', target_kept f f' ∧ goes_on f f') (λ f', target_kept f f' ∧ died f f') (or_error e (remove f))) →
  ends (λ _ f', target_kept f f' ∧ goes_on f f') (λ f', target_kept f f' ∧ died f f')
    (let '(present, f) := ask_dir dir f in if present then or_error e (remove f) else (Ok (), f)).
Proof.
  intros Hrem. destruct (ask_dir dir f) as [b f1] eqn:E. pose proof (ask_goes_on _ _ _ _ E) as [Hd Hg]. apply ask_keeps in E as [_ Hb].
  unfold target_kept in *. rewrite <-Hd. destruct b; [|by cbn].
  assert (Hne : dir (rf_disk f1) ≠ None). { rewrite Hd. destruct (Hb eq_refl) as [? ->]. done. }
  specialize (Hrem f1 Hne). destruct (or_error e (remove f1)) as [[?|?] f2]; cbn [ends] in *; destruct Hrem as [? ?];
    (split; [done|]); eauto using goes_on_trans, goes_on_died.
Qed.
Lemma cleanup_split f :
  cleanup_committed names tx f =
    (let! _, f := (let '(present, f) := ask_dir rd_rollback f in
                   if present then or_error restore_commit_failed (remove_rollback f) else (Ok (), f)) in
     let! _, f := (let '(present, f) := ask_dir rd_stage f in
                   if present then or_error restore_commit_failed (remove_stage f) else (Ok (), f)) in
     or_error restore_commit_failed (sync_parent f)).
Proof.
  unfold cleanup_committed. rewrite with_validated_eq by done. destruct (ask_dir rd_rollback f) as [b f1].
  destruct (if b then _ else _) as [[?|?] f2]; [|done]. by destruct (ask_dir rd_stage f2) as [b2 f3].
Qed.
Ltac removal g dir :=
  let Et := fresh "Et" in let H := fresh "H" in let Hd := fresh "Hd" in
  destruct (dir (rf_disk g)) as [?|] eqn:Et; [|done];
  match goal with |- context [or_error ?e (fs_call ?eff ?cut g)] => pose proof (call_or e eff cut g) as H end;
  cbv beta in H; rewrite Et in H; specialize (H _ eq_refl);
  destruct (or_error _ (fs_call _ _ g)) as [[?|?] ?]; cbn [ends] in *; destruct H as [Hd ?]; unfold target_kept;
  [by rewrite Hd|]; destruct Hd as [-> |(? & ->)]; done.
Lemma cleanup_ends f :
  ends (λ _ f', target_kept f f' ∧ goes_on f f') (λ f', target_kept f f' ∧ died f f') (cleanup_committed names tx f).
Proof.
  rewrite cleanup_split.
  assert (H1 := remove_kept_ends rd_rollback remove_rollback f restore_commit_failed).
  match type of H1 with ?P → _ => assert (Hp : P); [|specialize (H1 Hp); clear Hp] end.
  { intros g Hg. unfold remove_rollback. removal g rd_rollback. }
  destruct (let '(present, f0) := ask_dir rd_rollback f in _) as [[?|?] f1]; cbn [ends] in *; destruct H1 as [[K1 K2] H1]; [|done].
  assert (H2 := remove_kept_ends rd_stage remove_stage f1 restore_commit_failed).
  match type of H2 with ?P → _ => assert (Hp : P); [|specialize (H2 Hp); clear Hp] end.
  { intros g Hg. unfold remove_stage. removal g rd_stage. }
  destruct (let '(present, f0) := ask_dir rd_stage f1 in _) as [[?|?] f2]; cbn [ends] in *; destruct H2 as [[K3 K4] H2];
    [|split; [split; congruence|eauto using goes_on_died]].
  unfold sync_parent. call; cbn [ends]; (split; [split; congruence|eauto using goes_on_trans, goes_on_died]).
Qed.
End files.
Lemma delete_ends f :
  ends (λ _ f', rf_disk f' = set_journal None (rf_disk f) ∧ goes_on f f')
    (λ f', (rf_disk f' = rf_disk f ∨ rf_disk f' = set_journal None (rf_disk f)) ∧ died f f') (journal_delete f).
Proof.
  unfold journal_delete, sync_parent. cbv zeta. call; [|cbn [ends]; eauto].
  case_bool_decide; [|by cbn [ends]].
  call; cbn [ends]; (split; [|eauto using goes_on_trans, goes_on_died]); try right; congruence.
Qed.
Lemma delete_dirs f r f' :
  journal_delete f = (r, f') → rd_target (rf_disk f') = rd_target (rf_disk f) ∧ rd_rollback (rf_disk f') = rd_rollback (rf_disk f).
Proof. intros H. pose proof (delete_ends f) as E. rewrite H in E. destruct r; cbn [ends] in E; [by destruct E as [-> _]|]. by destruct E as [[-> | ->] _]. Qed.
Lemma stage_cleanup_dirs f r f' :
  stage_cleanup f = (r, f') → rd_target (rf_disk f') = rd_target (rf_disk f) ∧ rd_rollback (rf_disk f') = rd_rollback (rf_disk f)
    ∧ rd_journal (rf_disk f') = rd_journal (rf_disk f).
Proof.
  unfold stage_cleanup, or_error. destruct (fs_call _ _ f) as [b f1] eqn:E. intros [= <- <-].
  apply call_ends in E as [[-> _]|[(d & [= <-] & -> & _)|(remains & -> & _)]]; done.
Qed.
Lemma remove_stage_dirs f b f' :
  remove_stage f = (b, f') → rd_target (rf_disk f') = rd_target (rf_disk f) ∧ rd_rollback (rf_disk f') = rd_rollback (rf_disk f).
Proof.
  intros [[-> _]|[(d & Hd & -> & _)|(remains & -> & _)]]%call_ends; [done| |done].
  destruct (rd_stage (rf_disk f)); by simplify_eq.
Qed.

(** ** What must not get lost *)
(** The previous data is in the target, with nothing beside it, or kept beside it. *)
Definition kept (old : RestoreTree) (d : RestoreDisk) : Prop :=
  (rd_target d = Some old ∧ rd_rollback d = None) ∨ rd_rollback d = Some old.
(** Equal but for the audit ledger, which restoring extends. *)
Definition same_data (new t : RestoreTree) : Prop := tr_config t = tr_config new ∧ tr_rest t = tr_rest new.
Definition restored (new : RestoreTree) (d : RestoreDisk) : Prop := ∃ t, rd_target d = Some t ∧ same_data new t.
Lemma same_data_current a b : same_data a b → tree_current (Some b) = tree_current (Some a).
Proof. intros [Hc _]. unfold tree_current. by rewrite Hc. Qed.
Lemma same_data_trans a b c : same_data a b → same_data b c → same_data a c.
Proof. unfold same_data. intros [-> ->] [-> ->]. done. Qed.

Lemma rollback_keeps names old tx f r f' : rollback_after_failure names tx f = (r, f') → kept old (rf_disk f) → kept old (rf_disk f').
Proof.
  unfold rollback_after_failure, with_validated. destruct (publisher_validate names tx); [|by intros [= <- <-]].
  destruct (ask_dir rd_rollback f) as [b1 f1] eqn:E1; apply ask_keeps in E1 as [E1 Hb1]. rewrite <-E1. intros H Hk. revert H.
  destruct b1; cbn [negb]; [|by intros [= <- <-]].
  assert (Hr : rd_rollback (rf_disk f1) = Some old).
  { rewrite E1 in *. destruct Hk as [[_ Hn]|?]; [|done]. destruct (Hb1 eq_refl) as [? Hs]. congruence. }
  destruct (ask_dir rd_target f1) as [b2 f2] eqn:E2; apply ask_keeps in E2 as [E2 _]. rewrite <-E2 in Hr.
  unfold or_error. assert (Hrem : ∀ b3 f3, (if b2 then remove_target f2 else (true, f2)) = (b3, f3) → rd_rollback (rf_disk f3) = Some old).
  { intros b3 f3. destruct b2; [|by intros [= <- <-]].
    intros [[-> _]|[(d & Hd & -> & _)|(remains & -> & _)]]%call_ends; [done| |done]. destruct (rd_target (rf_disk f2)); by simplify_eq. }
  destruct (if b2 then remove_target f2 else (true, f2)) as [b3 f3] eqn:E3. specialize (Hrem _ _ eq_refl).
  assert (Hgoal : (if b2 then let '(ok, f0) := remove_target f2 in (if ok then Ok () else Err restore_rollback_failed, f0) else (Ok (), f2))
                  = (if b3 then Ok () else Err restore_rollback_failed, f3)).
  { destruct b2; [by rewrite E3|]. by injection E3 as <- <-. }
  rewrite Hgoal. destruct b3; [|intros [= <- <-]; by right].
  destruct (move_rollback f3) as [b4 f4] eqn:E4. assert (Hm : kept old (rf_disk f4)).
  { apply call_uncut in E4 as [[-> _]|(d & Hd & -> & _)]; [by right|]. rewrite Hrem in Hd.
    destruct (rd_target (rf_disk f3)); simplify_eq. by left. }
  destruct b4; [|by intros [= <- <-]]. destruct (ask_dir rd_stage f4) as [b5 f5] eqn:E5; apply ask_keeps in E5 as [E5 _].
  rewrite <-E5 in Hm. unfold sync_parent. destruct b5.
  - destruct (remove_stage f5) as [b6 f6] eqn:E6. assert (Hlast : kept old (rf_disk f6)).
    { apply remove_stage_dirs in E6 as [Ht Hro]. unfold kept. by rewrite Ht, Hro. }
    destruct b6; [|by intros [= <- <-]].
    destruct (fs_call Some uncut f6) as [b7 f7] eqn:E7; apply look_keeps in E7. destruct b7; intros [= <- <-]; by rewrite E7.
  - destruct (fs_call Some uncut f5) as [b7 f7] eqn:E7; apply look_keeps in E7. destruct b7; intros [= <- <-]; by rewrite E7.
Qed.

(** ** The ports *)
(** Only the stage differs. *)
Definition stage_only (f f' : RestoreFs) : Prop :=
  rd_target (rf_disk f') = rd_target (rf_disk f) ∧ rd_rollback (rf_disk f') = rd_rollback (rf_disk f)
  ∧ rd_journal (rf_disk f') = rd_journal (rf_disk f).
(** Extracting writes the stage, with what [archive] holds; verifying the stage's ledger touches nothing
    but that ledger, and recording the provenance nothing but the ledger of the target. *)
Class RestorePortsLaws X `{!RestorePorts X} (archive : RestoreStageSummary → RestoreTree → Prop) : Prop := {
  rl_extract passphrase limits x f r x' f' :
    rp_extract passphrase limits x f = (r, (x', f')) → stage_only f f' ∧ goes_on f f'
      ∧ (∀ stage, r = Ok stage → ∃ new, rd_stage (rf_disk f') = Some new ∧ archive stage new);
  rl_audit stage x f r x' f' t :
    rp_validate_audit stage x f = (r, (x', f')) → rd_stage (rf_disk f) = Some t →
    stage_only f f' ∧ goes_on f f' ∧ ∃ t', rd_stage (rf_disk f') = Some t' ∧ same_data t t';
  rl_provenance record x f r x' f' t :
    rp_append_provenance record x f = (r, (x', f')) → rd_target (rf_disk f) = Some t →
    rd_rollback (rf_disk f') = rd_rollback (rf_disk f) ∧ rd_journal (rf_disk f') = rd_journal (rf_disk f) ∧ goes_on f f'
      ∧ ∃ t', rd_target (rf_disk f') = Some t' ∧ same_data t t'
}.
Lemma stage_only_trans f g h : stage_only f g → stage_only g h → stage_only f h.
Proof. unfold stage_only. intros (-> & -> & ->) (-> & -> & ->). done. Qed.
Lemma disk_stage_only f f' : rf_disk f' = rf_disk f → stage_only f f'.
Proof. unfold stage_only. by intros ->. Qed.

Section walk.
  Context {X : Type} `{!RestorePorts X} {archive : RestoreStageSummary → RestoreTree → Prop} `{!RestorePortsLaws X archive}.
  Abbreviation world := (RestoreWorld X).

(** The machine is between the first write to the journal and the record of the provenance. *)
Definition in_commit (s : RestoreState) : bool := bool_decide (s = Committing) || bool_decide (s = VerifyingPublishedTarget).
Record staged (stage : RestoreStageSummary) (new : RestoreTree) (f : RestoreFs) : Prop := {
  sd_archive : archive stage new;
  sd_current : names_current stage (Some new);
  sd_stage : ∃ t, rd_stage (rf_disk f) = Some t ∧ same_data new t
}.

Lemma stage_and_check_ends limits passphrase x f tx0 :
  match stage_and_check limits passphrase (Build_RestoreWorld x f RestoreLocking tx0) with
  | (Ok stage, w) => rw_machine w = PreparingCommit ∧ rw_transaction w = tx0 ∧ stage_only f (rw_fs w) ∧ goes_on f (rw_fs w)
                     ∧ ∃ new, staged stage new (rw_fs w)
  | (Err _, w) => in_commit (rw_machine w) = false ∧ stage_only f (rw_fs w) ∧ goes_on f (rw_fs w)
  end.
Proof.
  unfold stage_and_check, port, on_fs, port_fs. cbn [rw_ports rw_fs rw_machine rw_transaction step restore_transition].
  destruct (rp_lock x) as [[?|?] x1]; [|split_and!; [done|by apply disk_stage_only|by intros ?]]. cbn.
  destruct (rp_extract passphrase limits x1 f) as [r [x2 f2]] eqn:E.
  apply rl_extract in E as (Hs2 & Hg2 & Hr). destruct r as [stage|e]; [|done]. destruct (Hr stage eq_refl) as (new & Hn & Ha). cbn.
  unfold preflight_validate_config. destruct (read_current rd_stage f2) as [c f3] eqn:E3.
  apply read_current_ends in E3 as (Hd3 & Hg3 & Hc). assert (Hs3 : stage_only f f3) by (eapply stage_only_trans, disk_stage_only; done).
  assert (Hg : goes_on f f3) by eauto using goes_on_trans.
  destruct c as [record|]; [|done]. case_bool_decide as Hrev; [|done]. destruct Hc as [[[=] _]|Hc]. rewrite Hn in Hc. cbn.
  destruct (rp_validate_certificates stage x2) as [[?|?] x4]; [|done]. cbn.
  destruct (rp_validate_secrets stage x4) as [[?|?] x5]; [|done]. cbn.
  destruct (rp_validate_audit stage x5 f3) as [r6 [x6 f6]] eqn:E6. rewrite <-Hd3 in Hn.
  destruct (rl_audit _ _ _ _ _ _ _ E6 Hn) as (Hs6 & Hg6 & t & Ht & Hsame).
  assert (stage_only f f6) by eauto using stage_only_trans. assert (goes_on f f6) by eauto using goes_on_trans.
  destruct r6 as [?|?]; [|done]. cbn.
  destruct (rp_preflight_runtime stage x6) as [[?|?] x7]; [|done]. cbn.
  do 4 (split; [done|]). exists new. split; [done|by eexists|by eexists].
Qed.
  Context (names : RestoreNames) (operation_id : list byte) (old : RestoreTree).

Definition transaction_of (stage : RestoreStageSummary) : RestoreTransaction :=
  {| tx_operation_id := operation_id; tx_archive_id := sg_archive_id stage; tx_target_identity := rn_target names;
     tx_stage_identity := rn_stage names; tx_rollback_identity := rn_rollback names; tx_state := TxPrepared |}.
Definition held (stage : RestoreStageSummary) (new : RestoreTree) : Prop := archive stage new ∧ names_current stage (Some new).
Definition written (stage : RestoreStageSummary) (s : RestoreTransactionState) (d : RestoreDisk) : Prop :=
  rd_journal d = Some (render_transaction (transaction_in_state s (transaction_of stage)))
  ∧ validate_transaction_values (transaction_of stage) = Ok ().
(** Where a replacement that needs no undoing stopped. *)
Inductive resting (journal : option (list byte)) (d : RestoreDisk) : Prop :=
| RestUntouched : rd_target d = Some old → rd_rollback d = None → rd_journal d = journal → resting journal d
| RestPrepared stage new : held stage new → rd_target d = Some old → rd_rollback d = None → written stage TxPrepared d → resting journal d
| RestCommitted stage new : held stage new → restored new d → written stage TxStagePublished d → resting journal d
| RestDone stage new : held stage new → restored new d → rd_journal d = None → resting journal d.
(** Where one that is undone, or cut off by the death of the process, stopped. *)
Inductive in_flight (d : RestoreDisk) : Prop :=
| FlyPrepared stage new : held stage new → rd_target d = Some old → rd_rollback d = None → written stage TxPrepared d → in_flight d
| FlyMoved stage new s : held stage new → s ≠ TxStagePublished → rd_target d = None → rd_rollback d = Some old → written stage s d → in_flight d
| FlyPublished stage new s :
    held stage new → s ≠ TxPrepared → restored new d → rd_rollback d = Some old → written stage s d → in_flight d.
Definition stopped (journal : option (list byte)) (f : RestoreFs) (w : world) : Prop :=
  goes_on f (rw_fs w)
  ∧ if in_commit (rw_machine w)
    then is_Some (rw_transaction w) ∧ in_flight (rf_disk (rw_fs w)) ∧ died f (rw_fs w)
    else resting journal (rf_disk (rw_fs w)).

Lemma validated stage s : publisher_validate names (transaction_in_state s (transaction_of stage)) = Ok ().
Proof. unfold publisher_validate. cbn. by rewrite !bool_decide_true. Qed.
Lemma prepare_ends stage f :
  ends (λ tx f', rf_disk f' = rf_disk f ∧ goes_on f f' ∧ tx = transaction_of stage ∧ validate_transaction_values tx = Ok ())
    (λ f', rf_disk f' = rf_disk f ∧ goes_on f f') (prepare_replace names operation_id stage f).
Proof.
  unfold prepare_replace. destruct (ask_dir rd_target f) as [b1 f1] eqn:E1; apply ask_goes_on in E1 as [E1 H1]. destruct b1; [|done].
  destruct (ask_dir rd_stage f1) as [b2 f2] eqn:E2; apply ask_goes_on in E2 as [E2 H2]. cbn [negb].
  assert (rf_disk f2 = rf_disk f) by congruence. assert (goes_on f f2) by eauto using goes_on_trans. destruct b2; [|done].
  destruct (ask_dir rd_rollback f2) as [b3 f3] eqn:E3; apply ask_goes_on in E3 as [E3 H3]. cbn [negb].
  assert (rf_disk f3 = rf_disk f) by congruence. assert (goes_on f f3) by eauto using goes_on_trans. destruct b3; [done|].
  change (ends (λ tx f', rf_disk f' = rf_disk f ∧ goes_on f f' ∧ tx = transaction_of stage ∧ validate_transaction_values tx = Ok ())
    (λ f', rf_disk f' = rf_disk f ∧ goes_on f f')
    (let? _ := validate_transaction_values (transaction_of stage) in Ok (transaction_of stage), f3)).
  destruct (validate_transaction_values (transaction_of stage)) as [[]|?] eqn:Ev; cbn; [|done]. split_and!; done.
Qed.
Lemma died_goes_on f g : died f g → goes_on f g.
Proof. unfold died, goes_on. intros H Hs. by destruct (H Hs). Qed.
Ltac take H lem f' :=
  pose proof lem as H; cbv zeta in H; match type of H with ends _ _ ?m => destruct m as [[?|?] f'] end; cbn [ends] in H.

(** From the record of the provenance on, the restored data stays. *)
Lemma provenance_ends archive_id revision now x f m t0 t :
  m = RecordingProvenance → rd_target (rf_disk f) = Some t →
  match record_restore_provenance operation_id archive_id revision now (Build_RestoreWorld x f m t0) with
  | (r, w) => in_commit (rw_machine w) = false ∧ rd_journal (rf_disk (rw_fs w)) = rd_journal (rf_disk f) ∧ goes_on f (rw_fs w)
              ∧ ∃ t', rd_target (rf_disk (rw_fs w)) = Some t' ∧ same_data t t'
  end.
Proof.
  intros -> Ht. unfold record_restore_provenance, port_fs. cbn [rw_ports rw_fs].
  destruct (provenance_record _ _ _ _) as [record|e]; cbn.
  2: { split_and!; [done..|by intros ?|by eexists]. }
  destruct (rp_append_provenance record x f) as [r [x1 f1]] eqn:E.
  destruct (rl_provenance _ _ _ _ _ _ _ E Ht) as (_ & ? & ? & ?). destruct r; cbn; split_and!; done.
Qed.
Lemma finish_ends stage new x f m t0 :
  m = RecordingProvenance → held stage new → restored new (rf_disk f) → written stage TxStagePublished (rf_disk f) →
  match replace_finish names operation_id stage (transaction_in_state TxStagePublished (transaction_of stage)) (Build_RestoreWorld x f m t0) with
  | (Ok receipt, w) => receipt = receipt_of operation_id stage true "replace_transaction"
                       ∧ restored new (rf_disk (rw_fs w)) ∧ rd_journal (rf_disk (rw_fs w)) = None ∧ goes_on f (rw_fs w)
  | (Err _, w) => in_commit (rw_machine w) = false ∧ goes_on f (rw_fs w)
                  ∧ restored new (rf_disk (rw_fs w)) ∧ (written stage TxStagePublished (rf_disk (rw_fs w)) ∨ rd_journal (rf_disk (rw_fs w)) = None)
  end.
Proof.
  intros -> Hh (t & Ht & Hsame) [Hj Hv]. unfold replace_finish, clock. cbn [rw_ports rw_fs rw_machine rw_transaction]. destruct (rp_now x) as [now x1].
  pose proof (provenance_ends (sg_archive_id stage) (Some (sg_revision_id stage)) now x1 f _ t0 t eq_refl Ht) as H.
  destruct (record_restore_provenance _ _ _ _ _) as [r [x2 f2 m2 t2]]. cbn [rw_machine rw_fs] in H.
  destruct H as (Hm & Hj2 & Hg2 & t' & Ht' & Hs'). apply (same_data_trans _ _ _ Hsame) in Hs'. rewrite Hj in Hj2.
  destruct r; [|split_and!; [done|done|by eexists|by left]]. unfold on_fs. cbn [rw_ports rw_fs rw_machine rw_transaction].
  take P (cleanup_ends names _ (validated stage TxStagePublished) f2) f3; destruct P as [[K1 K2] G]; rewrite Ht' in K1; rewrite Hj2 in K2; cbn.
  2: { apply (goes_on_died _ _ _ Hg2) in G. split_and!; [done|by apply died_goes_on|by eexists|by left]. }
  apply (goes_on_trans _ _ _ Hg2) in G.
  take Q (delete_ends f3) f4; destruct Q as [D G4]; cbn.
  - split_and!; [done|exists t'; by rewrite D|by rewrite D|by eapply goes_on_trans].
  - apply (goes_on_died _ _ _ G) in G4. split_and!; [done|by apply died_goes_on|exists t'; destruct D as [-> | ->]; done|].
    destruct D as [-> | ->]; [by left|by right].
Qed.

(** A call of the commit that fails. *)
Ltac cut_off P G := destruct P as [D ?%(goes_on_died _ _ _ G)];
  split; [by apply died_goes_on|]; split_and!; [by (done || eexists)| |done]; cbn [rw_fs].
Ltac published stage new s := eapply (FlyPublished _ stage new s); by eauto || by eexists.

Definition committed (stage : RestoreStageSummary) (new : RestoreTree) (f : RestoreFs) (receipt : RestoreReceipt) (w : world) : Prop :=
  held stage new ∧ receipt = receipt_of operation_id stage true "replace_transaction"
  ∧ restored new (rf_disk (rw_fs w)) ∧ rd_journal (rf_disk (rw_fs w)) = None ∧ goes_on f (rw_fs w).
Lemma replace_commit_ends journal stage new t x f f2 t0 :
  held stage new → same_data new t → written stage TxPrepared (rf_disk f2) →
  rd_target (rf_disk f2) = Some old → rd_rollback (rf_disk f2) = None → rd_stage (rf_disk f2) = Some t → goes_on f f2 → is_Some t0 →
  match replace_commit names operation_id stage (transaction_of stage) (Build_RestoreWorld x f2 Committing t0) with
  | (Ok receipt, w) => committed stage new f receipt w
  | (Err _, w) => stopped journal f w
  end.
Proof.
  intros Hh Hsame [Hj Hv] T4 T5 T6 G2 Ht0. unfold replace_commit, on_fs. cbn [rw_fs rw_ports rw_machine rw_transaction].
  take P3 (move_target_ends names _ (validated stage TxPrepared : publisher_validate names (transaction_of stage) = Ok ()) f2 old T4 T5) f3; cbn [note rw_fs rw_ports].
  2: { cut_off P3 G2. destruct D as [-> | ->]; [by eapply FlyPrepared|by eapply (FlyMoved _ stage new TxPrepared)]. }
  destruct P3 as [D3 G3%(goes_on_trans _ _ _ G2)]. rewrite T6 in D3.
  assert (Hv1 : validate_transaction_values (transaction_in_state TxTargetMoved (transaction_of stage)) = Ok ()) by done.
  take P4 (persist_ends _ f3 Hv1) f4; cbn [step note rw_fs rw_ports rw_machine restore_transition].
  2: { cut_off P4 G3. destruct D as [-> | ->]; rewrite D3; [by eapply (FlyMoved _ stage new TxPrepared)|by eapply (FlyMoved _ stage new TxTargetMoved)]. }
  destruct P4 as [D4 G4%(goes_on_trans _ _ _ G3)]. rewrite D3 in D4.
  assert (T7 : rd_stage (rf_disk f4) = Some t) by (by rewrite D4). assert (T8 : rd_target (rf_disk f4) = None) by (by rewrite D4).
  take P5 (publish_ends names _ (validated stage TxTargetMoved) f4 t T7 T8) f5; cbn [note rw_fs rw_ports].
  2: { cut_off P5 G4. destruct D as [-> | ->]; rewrite D4; [by eapply (FlyMoved _ stage new TxTargetMoved)|published stage new TxTargetMoved]. }
  destruct P5 as [D5 G5%(goes_on_trans _ _ _ G4)]. rewrite D4 in D5.
  change (transaction_in_state TxStagePublished (transaction_in_state TxTargetMoved (transaction_of stage))) with (transaction_in_state TxStagePublished (transaction_of stage)).
  assert (Hv2 : validate_transaction_values (transaction_in_state TxStagePublished (transaction_of stage)) = Ok ()) by done.
  take P6 (persist_ends _ f5 Hv2) f6; cbn [step note rw_fs rw_ports rw_machine restore_transition].
  2: { cut_off P6 G5. destruct D as [-> | ->]; rewrite D5; [published stage new TxTargetMoved|published stage new TxStagePublished]. }
  destruct P6 as [D6 G6%(goes_on_trans _ _ _ G5)]. rewrite D5 in D6.
  assert (Hcur : names_current stage (rd_target (rf_disk f6))).
  { rewrite D6. unfold names_current. cbn [rd_target set_journal set_dirs]. rewrite (same_data_current _ _ Hsame). by destruct Hh. }
  take P7 (verify_ends names _ (validated stage TxStagePublished) stage f6 Hcur) f7; cbn [step note rw_fs rw_ports rw_machine restore_transition rw_transaction].
  2: { cut_off P7 G6. rewrite D, D6. published stage new TxStagePublished. }
  destruct P7 as [D7 G7%(goes_on_trans _ _ _ G6)]. rewrite D6 in D7.
  match goal with |- context [Build_RestoreWorld _ f7 ?m ?t1] => pose proof (finish_ends stage new x f7 m t1 eq_refl Hh) as H end.
  rewrite D7 in H. specialize (H (ex_intro _ t (conj eq_refl Hsame)) (conj eq_refl Hv)).
  destruct (replace_finish _ _ _ _ _) as [[receipt|e] w].
  - destruct H as (? & ? & ? & ?). unfold committed. split_and!; eauto using goes_on_trans.
  - destruct H as (Hm & Hg & Hres & H). split; [eauto using goes_on_trans|]. rewrite Hm.
    destruct H as [H|H]; [by eapply RestCommitted|by eapply RestDone].
Qed.

Lemma replace_inner_ends limits passphrase x f :
  rd_target (rf_disk f) = Some old → rd_rollback (rf_disk f) = None →
  match replace_inner names limits passphrase operation_id (Build_RestoreWorld x f RestoreLocking None) with
  | (Ok receipt, w) => ∃ stage new, committed stage new f receipt w
  | (Err _, w) => stopped (rd_journal (rf_disk f)) f w
  end.
Proof.
  intros Ht Hr. unfold replace_inner. pose proof (stage_and_check_ends limits passphrase x f None) as H0.
  destruct (stage_and_check _ _ _) as [[stage|e] [x0 f0 m0 t0]]; cbn [rw_machine rw_fs rw_transaction] in H0.
  2: { destruct H0 as (Hm & (T1 & T2 & T3) & Hg). split; [done|]. cbn [rw_machine rw_fs]. rewrite Hm. apply RestUntouched; congruence. }
  destruct H0 as (-> & -> & (T1 & T2 & T3) & G0 & new & [Ha Hc (t & Hst & Hsame)]). rewrite Ht in T1. rewrite Hr in T2.
  unfold on_fs. cbn [rw_fs rw_ports rw_machine rw_transaction]. assert (Hh : held stage new) by done.
  take P1 (prepare_ends stage f0) f1; cbn [step rw_fs rw_ports rw_machine rw_transaction restore_transition].
  2: { destruct P1 as [D1 G1]. split; cbn; [eauto using goes_on_trans|]. apply RestUntouched; congruence. }
  destruct P1 as (D1 & G1 & -> & Hv). apply (goes_on_trans _ _ _ G0) in G1.
  take P2 (persist_ends (transaction_of stage) f1 Hv) f2; cbn [step note rw_fs rw_ports rw_machine rw_transaction restore_transition].
  2: { destruct P2 as [D2 G2%(goes_on_died _ _ _ G1)]. split; cbn; [by apply died_goes_on|]. destruct D2 as [D2|D2].
       - apply RestUntouched; congruence.
       - eapply (RestPrepared _ _ stage new); rewrite ?D2; cbn; [done|congruence..|done]. }
  destruct P2 as [D2 G2%(goes_on_trans _ _ _ G1)]. rewrite D1 in D2.
  pose proof (replace_commit_ends (rd_journal (rf_disk f)) stage new t x0 f f2 (Some (transaction_of stage)) Hh Hsame) as H. rewrite D2 in H.
  specialize (H (conj eq_refl Hv) T1 T2 Hst G2 (mk_is_Some _ _ eq_refl)). destruct (replace_commit _ _ _ _ _) as [[?|?] ?]; [by exists stage, new|done].
Qed.

(** ** After a failure *)
Definition same_dirs (d d' : RestoreDisk) : Prop := rd_target d' = rd_target d ∧ rd_rollback d' = rd_rollback d ∧ rd_journal d' = rd_journal d.
Lemma resting_dirs journal d d' : same_dirs d d' → resting journal d → resting journal d'.
Proof.
  intros (Ht & Hr & Hj) [H1 H2 H3|stage new H H1 H2 [H3 ?]|stage new H (t & H1 & ?) [H3 ?]|stage new H (t & H1 & ?) H3];
    [eapply RestUntouched|eapply (RestPrepared _ _ stage new)|eapply (RestCommitted _ _ stage new)|eapply (RestDone _ _ stage new)];
    try done; try congruence; (split; congruence) || (exists t; split; congruence || done).
Qed.
Lemma in_flight_dirs d d' : same_dirs d d' → in_flight d → in_flight d'.
Proof.
  intros (Ht & Hr & Hj) [stage new H H1 H2 [H3 ?]|stage new s H Hs H1 H2 [H3 ?]|stage new s H Hs (t & H1 & ?) H2 [H3 ?]];
    [eapply (FlyPrepared _ stage new)|eapply (FlyMoved _ stage new s)|eapply (FlyPublished _ stage new s)];
    try done; try congruence; (split; congruence) || (exists t; split; congruence || done).
Qed.
Lemma in_flight_kept d : in_flight d → kept old d.
Proof. intros [? ? ? H1 H2 ?|? ? ? ? ? ? H2 ?|? ? ? ? ? ? H2 ?]; [by left|by right..]. Qed.
Definition settled (d : RestoreDisk) : Prop := kept old d ∨ ∃ stage new, held stage new ∧ restored new d.
Lemma resting_settled journal d : resting journal d → settled d.
Proof. intros [H1 H2 _|? ? ? H1 H2 _|stage new ? ? _|stage new ? ? _]; [by left; left..|right; by exists stage, new|right; by exists stage, new]. Qed.
Lemma settled_dirs d d' : same_dirs d d' → settled d → settled d'.
Proof. unfold settled, kept, restored. intros (-> & -> & _). done. Qed.

Lemma step_fs e (w : world) : rw_fs (step e w).2 = rw_fs w.
Proof. unfold step. by destruct (restore_transition _ _). Qed.
Lemma log_fs event fields (w : world) : rw_fs (restore_log event fields w).2 = rw_fs w.
Proof. unfold restore_log, port. by destruct (rp_log _ _). Qed.
Lemma clock_fs (w : world) : rw_fs (clock w).2 = rw_fs w.
Proof. unfold clock. by destruct (rp_now _). Qed.

Lemma undo_settled journal f original w : stopped journal f w → settled (rf_disk (rw_fs (replace_undo names original w).2)).
Proof.
  intros [_ H]. unfold replace_undo, in_commit in *. destruct (bool_decide _ || bool_decide _).
  2: { cbn [snd]. rewrite step_fs. by eapply resting_settled. }
  destruct H as ((tx & ->) & Hk%in_flight_kept & _).
  destruct (step _ w) as [r1 w1] eqn:E1. pose proof (step_fs (RollbackRequested (app_code original)) w) as F1. rewrite E1 in F1. cbn in F1.
  unfold on_fs. destruct (rollback_after_failure names tx (rw_fs w1)) as [r2 f2] eqn:E2. apply rollback_keeps with (old := old) in E2; [|congruence].
  destruct r2; [|by left]. cbn.
  destruct (step RollbackRestored _) as [r3 w3] eqn:E3.
  match type of E3 with step ?e ?w = _ => pose proof (step_fs e w) as F3 end. rewrite E3 in F3. cbn in F3.
  destruct (journal_delete (rw_fs w3)) as [r4 f4] eqn:E4. apply delete_dirs in E4 as [T R]. cbn. left. unfold kept in *.
  rewrite T, R, F3. done.
Qed.
(** A dead process undoes nothing. *)
Lemma undo_dead original (w : world) : rf_dead (rw_fs w) = true → rw_fs (replace_undo names original w).2 = rw_fs w.
Proof.
  intros Hd. unfold replace_undo. destruct (_ || _); [|cbn [snd]; by rewrite step_fs]. destruct (rw_transaction w) as [tx|]; [|done].
  destruct (step _ w) as [r1 w1] eqn:E1. pose proof (step_fs (RollbackRequested (app_code original)) w) as F1. rewrite E1 in F1. cbn in F1.
  unfold on_fs, rollback_after_failure, with_validated, ask_dir. rewrite F1.
  destruct (publisher_validate names tx); [|done]. rewrite dead_call by done. cbn.
  destruct (step RollbackRestored _) as [r3 w3] eqn:E3.
  match type of E3 with step ?e ?w = _ => pose proof (step_fs e w) as F3 end. rewrite E3 in F3. cbn in F3.
  unfold journal_delete. rewrite dead_call by congruence. cbn. done.
Qed.
Lemma cleanup_same (f : RestoreFs) : same_dirs (rf_disk f) (rf_disk (stage_cleanup f).2).
Proof. destruct (stage_cleanup f) as [r f'] eqn:E. by apply stage_cleanup_dirs in E. Qed.
Lemma failed_ends journal f (e : AppError) w :
  stopped journal f w →
  let w2 := (on_fs stage_cleanup (replace_undo names e w).2).2 in
  settled (rf_disk (rw_fs w2)) ∧ (sound f → resting journal (rf_disk (rw_fs w2)) ∨ in_flight (rf_disk (rw_fs w2))).
Proof.
  intros Hs w2. assert (Hc : same_dirs (rf_disk (rw_fs (replace_undo names e w).2)) (rf_disk (rw_fs w2))).
  { unfold w2, on_fs. pose proof (cleanup_same (rw_fs (replace_undo names e w).2)) as H. by destruct (stage_cleanup _). }
  split; [eapply settled_dirs; [done|]; by eapply undo_settled|]. intros Hsound. destruct Hs as [_ Hs].
  destruct (in_commit (rw_machine w)) eqn:Em.
  - destruct Hs as (_ & Hf & Hd). destruct (Hd Hsound) as [_ Hdead]. right. eapply in_flight_dirs; [done|]. by rewrite undo_dead.
  - left. eapply resting_dirs; [done|]. unfold replace_undo, in_commit in *. rewrite Em. cbn [snd]. by rewrite step_fs.
Qed.
Lemma replace_restore_ends limits passphrase (w : world) x1 :
  rp_next_id (rw_ports w) = (Ok operation_id, x1) →
  rd_target (rf_disk (rw_fs w)) = Some old → rd_rollback (rf_disk (rw_fs w)) = None →
  match replace_restore names limits passphrase w with
  | (Ok receipt, w') => ∃ stage new, committed stage new (rw_fs w) receipt w'
  | (Err _, w') => settled (rf_disk (rw_fs w')) ∧ (sound (rw_fs w) →
                     resting (rd_journal (rf_disk (rw_fs w))) (rf_disk (rw_fs w')) ∨ in_flight (rf_disk (rw_fs w')))
  end.
Proof.
  intros Hid Ht Hr. unfold replace_restore, port. rewrite Hid. cbn [rw_ports rw_fs rw_machine rw_transaction].
  destruct (restore_log _ _ _) as [r1 w1] eqn:E1. match type of E1 with restore_log ?a ?b ?c = _ => pose proof (log_fs a b c) as F1 end.
  rewrite E1 in F1. cbn in F1. destruct r1 as [?|e].
  2: { rewrite F1. split; [left; by left|]. intros _. left. by apply RestUntouched. }
  destruct (clock w1) as [started w2] eqn:E2. pose proof (clock_fs w1) as F2. rewrite E2 in F2. cbn [snd] in F2. cbn [step restore_transition rw_machine rw_fs rw_ports rw_transaction].
  rewrite F1 in F2. pose proof (replace_inner_ends limits passphrase (rw_ports w2) (rw_fs w2)) as H. rewrite F2 in H. specialize (H Ht Hr).
  rewrite F2. destruct (replace_inner names limits passphrase operation_id _) as [[receipt|e] w3].
  - destruct (clock w3) as [now w4] eqn:E4. pose proof (clock_fs w3) as F4. rewrite E4 in F4. cbn [snd] in F4.
    destruct (restore_log _ _ w4) as [r5 w5] eqn:E5. match type of E5 with restore_log ?a ?b ?c = _ => pose proof (log_fs a b c) as F5 end.
    rewrite E5 in F5. cbn in F5. destruct H as (stage & new & H). exists stage, new. unfold committed in *. by rewrite F5, F4.
  - apply failed_ends with (e := e) in H. cbv zeta in H. destruct (replace_undo names e w3) as [failure w4]. cbn [snd] in H.
    destruct (on_fs stage_cleanup w4) as [r5 w5]. cbn [snd] in H.
    destruct (step RestoreCleanupFinished w5) as [r6 w6] eqn:E6. pose proof (step_fs RestoreCleanupFinished w5) as F6. rewrite E6 in F6. cbn [snd] in F6.
    destruct (restore_log _ _ w6) as [r7 w7] eqn:E7. match type of E7 with restore_log ?a ?b ?c = _ => pose proof (log_fs a b c) as F7 end.
    rewrite E7 in F7. cbn [snd] in F7. by rewrite F7, F6.
Qed.
End walk.

(** ** A small world *)
Definition sample_tree (id : string) (s : ConfigSnapshot) : RestoreTree :=
  {| tr_config := frr_disk (store_of (lit id) s []); tr_audit := ∅; tr_rest := {[lit "certs/a/chain.pem" := lit "chain"]} |}.
Definition old_tree : RestoreTree := sample_tree "r1" plain_config.
Definition new_tree : RestoreTree := sample_tree "r2" moved_config.
Definition sample_names : RestoreNames := {| rn_target := lit "data"; rn_stage := lit "stage"; rn_rollback := lit "rollback" |}.
Definition sample_summary : RestoreStageSummary :=
  {| sg_stage_identity := lit "stage"; sg_archive_id := lit "a1"; sg_revision_id := lit "r2"; sg_artifact_count := 2;
     sg_certificate_count := 0; sg_trust_bundle_count := 0; sg_audit_segment_count := 0; sg_admin_initialized := false;
     sg_referenced_certificate_refs := []; sg_referenced_trust_bundle_refs := [] |}.
Definition extract_sample (f : RestoreFs) : result AppError RestoreStageSummary * RestoreFs :=
  let '(done, f) := fs_call (λ d, match rd_stage d with
                                  | None => Some (set_dirs (rd_target d) (Some new_tree) (rd_rollback d) d)
                                  | Some _ => None
                                  end) uncut f in
  (if done then Ok sample_summary else Err restore_stage_failed, f).
Definition with_record (t : RestoreTree) : RestoreTree :=
  {| tr_config := tr_config t; tr_audit := <[lit "restore" := lit "imported"]> (tr_audit t); tr_rest := tr_rest t |}.
Definition record_sample (f : RestoreFs) : result AppError () * RestoreFs :=
  or_error restore_commit_failed
    (fs_call (λ d, match rd_target d with
                   | Some t => Some (set_dirs (Some (with_record t)) (rd_stage d) (rd_rollback d) d)
                   | None => None
                   end) uncut f).
#[local] Instance sample_ports : RestorePorts () := {|
  rp_lock := λ x, (Ok (), x);
  rp_extract := λ _ _ x f, let '(r, f) := extract_sample f in (r, (x, f));
  rp_validate_certificates := λ _ x, (Ok (), x);
  rp_validate_secrets := λ _ x, (Ok (), x);
  rp_validate_audit := λ _ x f, (Ok (), (x, f));
  rp_preflight_runtime := λ _ x, (Ok (), x);
  rp_append_provenance := λ _ x f, let '(r, f) := record_sample f in (r, (x, f));
  rp_now := λ x, (1000, x);
  rp_next_id := λ x, (Ok (lit "op-1"), x);
  rp_log := λ _ x, (Ok (), x)
|}.
Definition sample_archive (stage : RestoreStageSummary) (new : RestoreTree) : Prop := stage = sample_summary ∧ new = new_tree.
#[local] Instance sample_ports_laws : RestorePortsLaws () sample_archive.
Proof.
  split.
  - intros p l x f r x' f'. cbn. unfold extract_sample. destruct (fs_call _ _ f) as [b f1] eqn:E. intros [= <- <- <-].
    pose proof (call_goes_on _ _ _ _ _ E) as Hg. apply call_uncut in E as [[Hd ->]|(d & Hd & Hf & ->)].
    + split; [by apply disk_stage_only|]. done.
    + destruct (rd_stage (rf_disk f)); [done|]. injection Hd as <-. split; [unfold stage_only; by rewrite Hf|].
      split; [done|]. intros stage [= <-]. exists new_tree. by rewrite Hf.
  - intros stage x f r x' f' t. cbn. intros [= <- <- <-] Ht. split; [by apply disk_stage_only|]. split; [by intros ?|]. by exists t.
  - intros record x f r x' f' t. cbn. unfold record_sample, or_error. destruct (fs_call _ _ f) as [b f1] eqn:E. intros [= <- <- <-] Ht.
    pose proof (call_goes_on _ _ _ _ _ E) as Hg. apply call_uncut in E as [[Hd ->]|(d & Hd & Hf & ->)].
    + rewrite Hd. split_and!; [done..|]. by exists t.
    + rewrite Ht in Hd. injection Hd as <-. rewrite Hf. split_and!; [done..|]. by exists (with_record t).
Qed.
Definition sample_disk : RestoreDisk := {| rd_target := Some old_tree; rd_stage := None; rd_rollback := None; rd_journal := None |}.
Definition sample_world (outcomes : list RestoreIo) : RestoreWorld () :=
  Build_RestoreWorld () {| rf_disk := sample_disk; rf_outcomes := outcomes; rf_dead := false |} RestoreIdle None.

(** C20: replacing a data directory with a backup never loses data.  Whatever the file system refuses and
    whenever the process dies, the previous directory is still in its place or kept beside it, or the target
    holds what the archive holds, with the revision it names as the current one; when the operation reports
    success it is the latter, and the journal is gone. *)
Theorem replacement_never_loses_data {X} `{!RestorePorts X} {archive} `{!RestorePortsLaws X archive} names limits passphrase old
  (w : RestoreWorld X) :
  rd_target (rf_disk (rw_fs w)) = Some old → rd_rollback (rf_disk (rw_fs w)) = None →
  let '(r, w') := replace_restore names limits passphrase w in
  let arrived := ∃ stage new, archive stage new ∧ restored new (rf_disk (rw_fs w'))
                   ∧ names_current stage (rd_target (rf_disk (rw_fs w'))) in
  match r with
  | Ok receipt => arrived ∧ rd_journal (rf_disk (rw_fs w')) = None
  | Err _ => kept old (rf_disk (rw_fs w')) ∨ arrived
  end.
Proof.
  intros Ht Hr. destruct (rp_next_id (rw_ports w)) as [[operation_id|e] x1] eqn:Eid.
  2: { unfold replace_restore, port. rewrite Eid. cbn. left. by left. }
  assert (Harr : ∀ stage new d, held (archive := archive) stage new → restored new d → archive stage new ∧ restored new d ∧ names_current stage (rd_target d)).
  { intros stage new d [Ha Hc] (t & Htt & Hs). split_and!; [done|by exists t|]. rewrite Htt. unfold names_current. by rewrite (same_data_current _ _ Hs). }
  pose proof (replace_restore_ends names operation_id old limits passphrase w x1 Eid Ht Hr) as H.
  destruct (replace_restore names limits passphrase w) as [[receipt|e] w']; cbv zeta.
  - destruct H as (stage & new & Hh & _ & Hres & Hj & _). split; [|done]. exists stage, new. by apply Harr.
  - destruct H as [[H|(stage & new & Hh & Hres)] _]; [by left|]. right. exists stage, new. by apply Harr.
Qed.
Lemma replacement_never_loses_data_witness :
  let fault := sample_world (replicate 12 RioDone ++ [RioFails id]) in
  let run w := replace_restore sample_names schema_v3 (lit "secret") w in
  is_ok (run (sample_world [])).1 = true
  ∧ rd_target (rf_disk (rw_fs (run (sample_world [])).2)) = Some (with_record new_tree)
  ∧ is_ok (run fault).1 = false
  ∧ rd_target (rf_disk (rw_fs (run fault).2)) = Some old_tree
  ∧ let '(r, w') := run fault in
    let arrived := ∃ stage new, sample_archive stage new ∧ restored new (rf_disk (rw_fs w'))
                     ∧ names_current stage (rd_target (rf_disk (rw_fs w'))) in
    match r with
    | Ok receipt => arrived ∧ rd_journal (rf_disk (rw_fs w')) = None
    | Err _ => kept old_tree (rf_disk (rw_fs w')) ∨ arrived
    end.
Proof.
  intros fault run. split; [vm_compute; reflexivity|]. split; [vm_compute; reflexivity|]. split; [vm_compute; reflexivity|].
  split; [vm_compute; reflexivity|].
  subst run. cbv beta. apply (replacement_never_loses_data sample_names schema_v3 (lit "secret") old_tree fault); reflexivity.
Defined.
