(* ===== verification/RestoreRecovery.v ===== *)
(** * Recovering an interrupted replacement

    The journal reads back as it was written, and recovery settles every replacement that the death of the
    process cut off, in favour of the previous data or of the restored data; what it gets wrong when a
    rollback or a recovery is itself cut off. *)

From stdpp Require Import base gmap strings list sorting.
From Stdlib Require Import Strings.Byte NArith Lia.
From S2P Require Import Prelude Errors ErrorMessages RustStr Snapshot ConfigParser ConfigDraft ConfigRender ConfigStore ConfigChange AuditModel AuditCodec BackupModel BackupArchive BackupUse RestoreFiles RestoreUse RestoreProofs.
Local Open Scope N_scope.

(** ** The journal reads back *)
Lemma journal_line_read key v rest :
  Forall (λ b, u8 b < 128 ∧ b ≠ LF ∧ b ≠ CR) (lit key) → Forall (λ b, u8 b < 128 ∧ b ≠ LF ∧ b ≠ CR) v →
  str_lines (journal_line key v ++ rest) = (lit key ++ EQUALS :: v) :: str_lines rest.
Proof.
  intros Hk Hv. assert (Hl : Forall (λ b, u8 b < 128 ∧ b ≠ LF ∧ b ≠ CR) (lit key ++ EQUALS :: v)).
  { apply Forall_app; split; [done|]. apply Forall_cons; split; [|done]. by vm_compute. }
  replace (journal_line key v) with (line (lit key ++ EQUALS :: v)) by (unfold line, journal_line; by rewrite <-app_assoc).
  apply str_lines_line.
  - intros Hin. rewrite Forall_forall in Hl. by destruct (Hl _ Hin) as (_ & ? & _).
  - intros Hlast. apply last_Some_elem_of in Hlast. rewrite Forall_forall in Hl. by destruct (Hl _ Hlast) as (_ & _ & ?).
Qed.
Fixpoint journal_entries (l : list (string * list byte)) (M : gmap (list byte) (list byte)) : gmap (list byte) (list byte) :=
  match l with
  | [] => M
  | (k, v) :: l => journal_entries l (<[lit k := v]> M)
  end.
Lemma journal_values_entries l M :
  Forall (λ p, EQUALS ∉ lit p.1) l → NoDup ((λ p, lit p.1) <$> l) → Forall (λ p, M !! lit p.1 = None) l →
  journal_values ((λ p, lit p.1 ++ EQUALS :: p.2) <$> l) M = Ok (journal_entries l M).
Proof.
  revert M. induction l as [|[k v] l IH]; intros M; [done|]. intros [Hk Hl]%Forall_cons [Hn Hd]%NoDup_cons [Hm Hf]%Forall_cons.
  cbn [fmap list_fmap journal_values journal_entries fst snd] in *.
  rewrite (proj2 (split_once_Some EQUALS (lit k ++ EQUALS :: v) (lit k) v)) by done. cbn [ok_or]. rewrite Hm. apply IH; [done|done|].
  apply Forall_forall. intros p Hp. rewrite Forall_forall in Hf. rewrite lookup_insert_ne; [by apply Hf|].
  intros E. apply Hn. rewrite E. by apply (list_elem_of_fmap_2 (λ p : string * list byte, lit p.1)).
Qed.
Lemma journal_map (v1 v2 v3 v4 v5 v6 v7 : list byte) :
  let M := journal_entries [("version"%string, v1); ("operation"%string, v2); ("archive"%string, v3); ("target"%string, v4);
             ("stage"%string, v5); ("rollback"%string, v6); ("state"%string, v7)] ∅ in
  let R := delete (lit "version") M in
  M !! lit "version" = Some v1 ∧ size R = 6%nat ∧ R !! lit "operation" = Some v2
  ∧ R !! lit "archive" = Some v3 ∧ R !! lit "target" = Some v4 ∧ R !! lit "stage" = Some v5 ∧ R !! lit "rollback" = Some v6
  ∧ R !! lit "state" = Some v7.
Proof.
  intros M R. assert (ER : R = journal_entries [("operation"%string, v2); ("archive"%string, v3); ("target"%string, v4);
             ("stage"%string, v5); ("rollback"%string, v6); ("state"%string, v7)] ∅).
  { unfold R, M. cbn [journal_entries]. do 6 (rewrite delete_insert_ne by done). by rewrite delete_insert_eq, delete_empty. }
  rewrite ER. unfold M. cbn [journal_entries]. split; [do 6 (rewrite lookup_insert_ne by done); by rewrite lookup_insert_eq|].
  split. { do 6 (rewrite map_size_insert_None by (repeat (rewrite lookup_insert_ne by done); done)). done. }
  split_and!; repeat (rewrite lookup_insert_ne by done); by rewrite lookup_insert_eq.
Qed.
Definition text_values (tx : RestoreTransaction) : Prop :=
  utf8_valid (tx_operation_id tx) = true ∧ utf8_valid (tx_archive_id tx) = true ∧ utf8_valid (tx_target_identity tx) = true
  ∧ utf8_valid (tx_stage_identity tx) = true ∧ utf8_valid (tx_rollback_identity tx) = true.
Lemma state_name_plain s : Forall (λ b, u8 b < 128 ∧ b ≠ LF ∧ b ≠ CR) (lit (transaction_state_name s)).
Proof. destruct s; repeat constructor; by vm_compute. Qed.
Lemma journal_state_name s values : values !! lit "state" = Some (lit (transaction_state_name s)) → journal_state values = Ok s.
Proof. intros H. unfold journal_state. rewrite H. by destruct s. Qed.
Ltac plain_key := repeat constructor; by vm_compute.
Lemma journal_lines_of tx :
  str_lines (render_transaction tx) =
    (λ p, lit p.1 ++ EQUALS :: p.2) <$>
      [("version"%string, lit "1"); ("operation"%string, hex_encode (tx_operation_id tx)); ("archive"%string, hex_encode (tx_archive_id tx));
       ("target"%string, hex_encode (tx_target_identity tx)); ("stage"%string, hex_encode (tx_stage_identity tx));
       ("rollback"%string, hex_encode (tx_rollback_identity tx)); ("state"%string, lit (transaction_state_name (tx_state tx)))].
Proof.
  unfold render_transaction. rewrite <-(app_nil_r (journal_line "state" _)).
  rewrite !journal_line_read by (apply hex_encode_plain || apply state_name_plain || plain_key). done.
Qed.
Lemma journal_roundtrip tx :
  validate_transaction_values tx = Ok () → text_values tx → parse_transaction (tx_operation_id tx) (render_transaction tx) = Ok tx.
Proof.
  intros Hv (U1 & U2 & U3 & U4 & U5). unfold parse_transaction. rewrite journal_lines_of, journal_values_entries.
  2: { repeat (apply Forall_cons; split; [apply (bool_decide_unpack _); vm_compute; exact I|]). apply Forall_nil_2. }
  2: { apply (bool_decide_unpack _). vm_compute. exact I. }
  2: { repeat (apply Forall_cons; split; [apply lookup_empty|]). apply Forall_nil_2. }
  cbv zeta. match goal with |- context [journal_entries [(_, ?a); (_, ?b); (_, ?c); (_, ?d); (_, ?e); (_, ?g); (_, ?h)] ∅] =>
    destruct (journal_map a b c d e g h) as (-> & -> & H1 & H2 & H3 & H4 & H5 & H6) end.
  rewrite (journal_state_name _ _ H6). unfold decode_value. rewrite H1, H2, H3, H4, H5. cbn [ok_or].
  rewrite !hex_decode_encode by done. cbn [ok_or]. destruct tx as [o a t s r st]. cbn [tx_operation_id tx_archive_id tx_target_identity tx_stage_identity tx_rollback_identity tx_state] in *.
  rewrite Hv. by rewrite !bool_decide_true.
Qed.
Lemma render_utf8 tx : utf8_valid (render_transaction tx) = true.
Proof.
  apply utf8_valid_ascii. assert (Hh : ∀ l, Forall (λ b, u8 b < 128) (hex_encode l)).
  { intros l. eapply Forall_impl; [apply hex_encode_plain|]. by intros ? []. }
  assert (Hs : Forall (λ b, u8 b < 128) (lit (transaction_state_name (tx_state tx)))).
  { eapply Forall_impl; [apply state_name_plain|]. by intros ? []. }
  unfold render_transaction, journal_line. rewrite !Forall_app. split_and!; try done; try apply Hh; repeat constructor; by vm_compute.
Qed.


(** ** Recovering without another fault *)
Definition fresh (d : RestoreDisk) : RestoreFs := {| rf_disk := d; rf_outcomes := []; rf_dead := false |}.
Definition settled_on (target : RestoreTree) : RestoreDisk :=
  {| rd_target := Some target; rd_stage := None; rd_rollback := None; rd_journal := None |}.
Section fresh_files.
  Context (names : RestoreNames) (tx : RestoreTransaction) (Htx : publisher_validate names tx = Ok ()).

Lemma load_fresh d :
  rd_journal d = Some (render_transaction tx) → validate_transaction_values tx = Ok () → text_values tx →
  journal_load (tx_operation_id tx) (fresh d) = (Ok (Some tx), fresh d).
Proof.
  intros Hj Hv Hu. unfold journal_load, fs_call. cbn [fresh rf_dead rf_outcomes rf_disk]. rewrite Hj. rewrite bool_decide_true by done.
  cbn [negb rf_dead rf_outcomes rf_disk]. rewrite Hj, render_utf8, journal_roundtrip by done. done.
Qed.
Lemma valid_fresh dir d : dir_valid names dir tx (fresh d) = (Ok (bool_decide (is_Some (tree_current (dir d)))), fresh d).
Proof. unfold dir_valid. by rewrite with_validated_eq. Qed.
Lemma cleanup_fresh d : cleanup_committed names tx (fresh d) = (Ok (), fresh (set_dirs (rd_target d) None None d)).
Proof. unfold cleanup_committed. rewrite with_validated_eq by done. by destruct d as [t [s|] [r|] j]. Qed.
Lemma rollback_fresh d old :
  rd_rollback d = Some old → rollback_after_failure names tx (fresh d) = (Ok Restored, fresh (set_dirs (Some old) None None d)).
Proof.
  intros Hr. unfold rollback_after_failure. rewrite with_validated_eq by done. destruct d as [[t|] [s|] r j]; cbn in Hr; subst r; done.
Qed.
Lemma delete_fresh d : journal_delete (fresh d) = (Ok (), fresh (set_journal None d)).
Proof. unfold journal_delete. by destruct d as [t s r [j|]]. Qed.
End fresh_files.

(** After a restart the log takes entries and the ledger of the target takes the record. *)
Class CalmPorts X `{!RestorePorts X} (calm : X → Prop) : Prop := {
  cp_log event x : calm x → ∃ x', rp_log event x = (Ok (), x') ∧ calm x';
  cp_now x : calm x → calm (rp_now x).2;
  cp_provenance record x d t : calm x → rd_target d = Some t →
    ∃ x' t', rp_append_provenance record x (fresh d) = (Ok (), (x', fresh (set_dirs (Some t') (rd_stage d) (rd_rollback d) d)))
      ∧ same_data t t' ∧ calm x'
}.

Section recovery.
  Context {X : Type} `{!RestorePorts X} {archive : RestoreStageSummary → RestoreTree → Prop} `{!RestorePortsLaws X archive}
    {calm : X → Prop} `{!CalmPorts X calm}.
  Abbreviation world := (RestoreWorld X).
  Context (names : RestoreNames) (operation_id : list byte) (old : RestoreTree).
  Context (Hnames : utf8_valid (rn_target names) = true ∧ utf8_valid (rn_stage names) = true ∧ utf8_valid (rn_rollback names) = true).
  Context (Hop : identifier_ok operation_id = true)
    (Harchive : ∀ stage new, archive stage new → identifier_ok (sg_archive_id stage) = true)
    (Hold : is_Some (tree_current (Some old))).

Lemma parsed_identifier v : identifier_ok v = true → parse_or_refuse v = Ok v.
Proof. unfold identifier_ok, parse_or_refuse, audit_identifier_parse. by destruct (validate_audit_identifier v). Qed.
Abbreviation tx_at s stage := (transaction_in_state s (transaction_of names operation_id stage)).
Lemma text_values_at s stage new : archive stage new → text_values (tx_at s stage).
Proof. intros Ha. destruct Hnames as (? & ? & ?). unfold text_values. cbn. split_and!; [by apply identifier_utf8|by eapply identifier_utf8, Harchive|done..]. Qed.
Lemma provenance_fresh stage new d t x now (t0 : option RestoreTransaction) :
  archive stage new → calm x → rd_target d = Some t →
  ∃ x' t', record_restore_provenance operation_id (sg_archive_id stage) None now (Build_RestoreWorld x (fresh d) RecordingProvenance t0)
           = (Ok (), Build_RestoreWorld x' (fresh (set_dirs (Some t') (rd_stage d) (rd_rollback d) d)) RestoreCompleted t0)
    ∧ same_data t t' ∧ calm x'.
Proof.
  intros Ha Hx Ht. unfold record_restore_provenance, provenance_record.
  rewrite !parsed_identifier by (done || by eapply Harchive). unfold port_fs. cbn [rw_ports rw_fs rw_machine rw_transaction].
  match goal with |- context [rp_append_provenance ?r x _] => destruct (cp_provenance r x d t Hx Ht) as (x' & t' & -> & ? & ?) end.
  by exists x', t'.
Qed.
Lemma recover_ends s stage new d x m t0 outcome target :
  archive stage new → calm x → written names operation_id stage s d →
  (∀ x : X, recover_choice names (tx_at s stage) (bool_decide (is_Some (tree_current (rd_target d))))
              (bool_decide (is_Some (tree_current (rd_rollback d)))) (Build_RestoreWorld x (fresh d) RecoveringInterruptedCommit t0)
     = (Ok outcome, Build_RestoreWorld x (fresh (set_dirs (Some target) None None d)) RecoveringInterruptedCommit t0)) →
  ∃ w' t', recover_restore names operation_id (Build_RestoreWorld x (fresh d) m t0)
           = (Ok {| ry_operation_id := operation_id; ry_outcome := outcome |}, w')
    ∧ rf_disk (rw_fs w') = settled_on t' ∧ if String.eqb outcome "commit_completed" then same_data target t' else t' = target.
Proof.
  intros Ha Hx [Hj Hv] Hc. unfold recover_restore, restore_log, port. cbn [rw_ports rw_fs rw_machine rw_transaction].
  match goal with |- context [rp_log ?e x] => destruct (cp_log e x Hx) as (x1 & -> & Hx1) end. unfold recover_inner, on_fs.
  cbn [step restore_transition rw_ports rw_fs rw_machine rw_transaction].
  change operation_id with (tx_operation_id (tx_at s stage)) at 1. rewrite load_fresh by (done || by eapply text_values_at).
  cbn [rw_ports rw_fs rw_machine rw_transaction]. unfold target_valid, rollback_valid. rewrite valid_fresh by apply validated.
  cbn [rw_ports rw_fs rw_machine rw_transaction]. rewrite valid_fresh by apply validated.
  cbn [rw_ports rw_fs rw_machine rw_transaction]. rewrite Hc.
  cbn [step restore_transition rw_ports rw_fs rw_machine rw_transaction].
  change (tx_archive_id (tx_at s stage)) with (sg_archive_id stage). unfold clock. cbn [rw_ports].
  destruct (outcome =? "commit_completed")%string eqn:Eo.
  - pose proof (cp_now x1 Hx1) as Hx2. destruct (rp_now x1) as [now x2]. cbn [snd rw_fs rw_machine rw_transaction] in *.
    destruct (provenance_fresh stage new (set_dirs (Some target) None None d) target x2 now t0 Ha Hx2 eq_refl) as (x3 & t' & -> & Hs & Hx3).
    cbn [rw_fs rw_ports rw_machine rw_transaction]. rewrite delete_fresh. cbn [rw_fs rw_ports rw_machine rw_transaction].
    match goal with |- context [rp_log ?e x3] => destruct (cp_log e x3 Hx3) as (x4 & -> & _) end.
    eexists _, t'. split; [reflexivity|]. done.
  - cbn [step restore_transition rw_fs rw_ports rw_machine rw_transaction]. rewrite delete_fresh. cbn [rw_fs rw_ports rw_machine rw_transaction].
    match goal with |- context [rp_log ?e x1] => destruct (cp_log e x1 Hx1) as (x4 & -> & _) end.
    eexists _, target. split; [reflexivity|]. done.
Qed.

(** What recovery makes of each place where the process can have died. *)
Definition recovered (d : RestoreDisk) (x : X) : Prop := ∀ m t0,
  ∃ w' t' outcome, recover_restore names operation_id (Build_RestoreWorld x (fresh d) m t0)
      = (Ok {| ry_operation_id := operation_id; ry_outcome := outcome |}, w')
    ∧ rf_disk (rw_fs w') = settled_on t'
    ∧ ((outcome ≠ "commit_completed"%string ∧ t' = old)
       ∨ (outcome = "commit_completed"%string ∧ ∃ stage new, held (archive := archive) stage new ∧ same_data new t')).
Lemma held_current stage new t : held (archive := archive) stage new → same_data new t → is_Some (tree_current (Some t)).
Proof. intros [_ (record & Hc & _)] Hs. rewrite (same_data_current _ _ Hs), Hc. by eexists. Qed.
Lemma prepared_recovers stage new d x :
  held (archive := archive) stage new → rd_target d = Some old → rd_rollback d = None → written names operation_id stage TxPrepared d → calm x →
  recovered d x.
Proof.
  intros [Ha _] Ht Hr Hw Hx m t0. destruct (recover_ends TxPrepared stage new d x m t0 "restore_aborted" old) as (w' & t' & ? & ? & ?); try done.
  - intros y. rewrite Ht, Hr. rewrite bool_decide_true by done. unfold recover_choice, on_fs. cbn [tx_state transaction_in_state tree_current rw_fs].
    rewrite bool_decide_false by by intros [? ?]. rewrite cleanup_fresh by apply validated. by rewrite Ht.
  - exists w', t', "restore_aborted"%string. split_and!; [done..|]. by left.
Qed.
Lemma moved_recovers stage new s d x :
  held (archive := archive) stage new → s ≠ TxStagePublished → rd_target d = None → rd_rollback d = Some old →
  written names operation_id stage s d → calm x → recovered d x.
Proof.
  intros [Ha _] Hs Ht Hr Hw Hx m t0. destruct (recover_ends s stage new d x m t0 "rollback_restored" old) as (w' & t' & ? & ? & ?); try done.
  - intros y. rewrite Ht, Hr. rewrite (bool_decide_true (is_Some (tree_current (Some old)))) by done.
    rewrite bool_decide_false by by intros [? ?]. unfold recover_choice, on_fs. cbn [tx_state transaction_in_state rw_fs].
    rewrite (rollback_fresh names (tx_at s stage) (validated names operation_id stage s) d old Hr). by destruct s.
  - exists w', t', "rollback_restored"%string. split_and!; [done..|]. by left.
Qed.
Lemma published_recovers stage new s d x :
  held (archive := archive) stage new → s ≠ TxPrepared → restored new d → (s = TxTargetMoved → rd_rollback d = Some old) →
  written names operation_id stage s d → calm x → recovered d x.
Proof.
  intros Hh Hs (t & Ht & Hsame) Hr Hw Hx m t0.
  destruct (recover_ends s stage new d x m t0 "commit_completed" t) as (w' & t' & ? & ? & Hst); try done; [by destruct Hh| |].
  - intros y. rewrite Ht. rewrite (bool_decide_true (is_Some (tree_current (Some t)))) by by eapply held_current.
    unfold recover_choice, on_fs. cbn [tx_state transaction_in_state rw_fs]. rewrite cleanup_fresh by apply validated. rewrite Ht.
    destruct s; [done| |by destruct (bool_decide (is_Some (tree_current (rd_rollback d))))]. rewrite Hr by done. by rewrite bool_decide_true.
  - exists w', t', "commit_completed"%string. split_and!; [done..|]. right. split; [done|]. exists stage, new. split; [done|].
    by eapply same_data_trans.
Qed.
Lemma cut_off_recovers d x :
  resting (archive := archive) names operation_id old None d ∨ in_flight (archive := archive) names operation_id old d → calm x →
  match rd_journal d with
  | None => (rd_target d = Some old ∧ rd_rollback d = None) ∨ ∃ stage new, held (archive := archive) stage new ∧ restored new d
  | Some _ => recovered d x
  end.
Proof.
  intros [[Ht Hr ->|stage new Hh Ht Hr Hw|stage new Hh Hres Hw|stage new Hh Hres ->]|
          [stage new Hh Ht Hr Hw|stage new s Hh Hs Ht Hr Hw|stage new s Hh Hs Hres Hr Hw]] Hx.
  - by left.
  - rewrite (proj1 Hw). by apply (prepared_recovers stage new).
  - rewrite (proj1 Hw). by apply (published_recovers stage new TxStagePublished).
  - right. by exists stage, new.
  - rewrite (proj1 Hw). by apply (prepared_recovers stage new).
  - rewrite (proj1 Hw). by apply (moved_recovers stage new s).
  - rewrite (proj1 Hw). by apply (published_recovers stage new s).
Qed.
(** A readable directory where the restored one should be is taken for it. *)
Lemma readable_taken stage new s d x m t0 stranger :
  archive stage new → s ≠ TxPrepared → rd_target d = Some stranger → is_Some (tree_current (Some stranger)) →
  rd_rollback d = Some old → written names operation_id stage s d → calm x →
  ∃ w' t', recover_restore names operation_id (Build_RestoreWorld x (fresh d) m t0)
           = (Ok {| ry_operation_id := operation_id; ry_outcome := "commit_completed" |}, w')
    ∧ rf_disk (rw_fs w') = settled_on t' ∧ same_data stranger t'.
Proof.
  intros Ha Hs Ht Hst Hr Hw Hx.
  destruct (recover_ends s stage new d x m t0 "commit_completed" stranger) as (w' & t' & ? & ? & Hsame); try done; [|by exists w', t'].
  intros y. rewrite Ht, Hr, !bool_decide_true by done. unfold recover_choice, on_fs. cbn [tx_state transaction_in_state rw_fs].
  rewrite cleanup_fresh by apply validated. rewrite Ht. by destruct s.
Qed.
(** Where recovery cannot decide it leaves everything as it is. *)
Lemma undecided_refused stage new s d x m t0 :
  archive stage new → calm x → written names operation_id stage s d →
  (∀ w : world, recover_choice names (tx_at s stage) (bool_decide (is_Some (tree_current (rd_target d))))
              (bool_decide (is_Some (tree_current (rd_rollback d)))) w = (Err transaction_ambiguous, w)) →
  ∃ w', recover_restore names operation_id (Build_RestoreWorld x (fresh d) m t0) = (Err transaction_ambiguous, w')
    ∧ rf_disk (rw_fs w') = d ∧ calm (rw_ports w').
Proof.
  intros Ha Hx [Hj Hv] Hc. unfold recover_restore, restore_log, port. cbn [rw_ports rw_fs rw_machine rw_transaction].
  match goal with |- context [rp_log ?e x] => destruct (cp_log e x Hx) as (x1 & -> & Hx1) end. unfold recover_inner, on_fs.
  cbn [step restore_transition rw_ports rw_fs rw_machine rw_transaction].
  change operation_id with (tx_operation_id (tx_at s stage)) at 1. rewrite load_fresh by (done || by eapply text_values_at).
  cbn [rw_ports rw_fs rw_machine rw_transaction]. unfold target_valid, rollback_valid. rewrite valid_fresh by apply validated.
  cbn [rw_ports rw_fs rw_machine rw_transaction]. rewrite valid_fresh by apply validated.
  cbn [rw_ports rw_fs rw_machine rw_transaction]. rewrite Hc. cbn [rw_ports rw_fs rw_machine rw_transaction].
  match goal with |- context [rp_log ?e x1] => destruct (cp_log e x1 Hx1) as (x4 & -> & ?) end.
  eexists. split; [reflexivity|]. done.
Qed.
End recovery.

(** C21: recovery settles every interrupted replacement.  Start a replacement with a readable data directory
    and no journal, on a file system that never refuses a call, and let the process die at any point.
    Without a journal the directory is then the previous one or the restored one; with one, recovery succeeds
    once the process runs again, leaves no journal and nothing beside the directory, and the directory is the
    previous one, exactly, or, when it reports a completed commit, the restored one. *)
Theorem interrupted_replacement_recovers {X} `{!RestorePorts X} {archive} `{!RestorePortsLaws X archive} {calm} `{!CalmPorts X calm}
  names limits passphrase operation_id old (w : RestoreWorld X) x1 x2 :
  rp_next_id (rw_ports w) = (Ok operation_id, x1) → identifier_ok operation_id = true →
  (∀ stage new, archive stage new → identifier_ok (sg_archive_id stage) = true) →
  utf8_valid (rn_target names) = true ∧ utf8_valid (rn_stage names) = true ∧ utf8_valid (rn_rollback names) = true →
  rd_target (rf_disk (rw_fs w)) = Some old → is_Some (tree_current (Some old)) →
  rd_rollback (rf_disk (rw_fs w)) = None → rd_journal (rf_disk (rw_fs w)) = None → sound (rw_fs w) → calm x2 →
  let d := rf_disk (rw_fs (replace_restore names limits passphrase w).2) in
  match rd_journal d with
  | None => (rd_target d = Some old ∧ rd_rollback d = None) ∨ ∃ stage new, archive stage new ∧ restored new d
  | Some _ =>
      ∃ w' t outcome, recover_restore names operation_id (Build_RestoreWorld x2 (fresh d) RestoreIdle None)
          = (Ok {| ry_operation_id := operation_id; ry_outcome := outcome |}, w')
        ∧ rf_disk (rw_fs w') = settled_on t
        ∧ ((outcome ≠ "commit_completed"%string ∧ t = old)
           ∨ (outcome = "commit_completed"%string ∧ ∃ stage new, archive stage new ∧ same_data new t))
  end.
Proof.
  intros Hid Hop Harch Hn Ht Hold Hr Hj Hs Hx. pose proof (replace_restore_ends (archive := archive) names operation_id old limits passphrase w x1 Hid Ht Hr) as H.
  destruct (replace_restore names limits passphrase w) as [[receipt|e] w']; cbn [snd].
  - destruct H as (stage & new & [Ha _] & _ & Hres & -> & _). right. by exists stage, new.
  - destruct H as [_ H]. specialize (H Hs). rewrite Hj in H. cbv zeta.
    pose proof (cut_off_recovers (archive := archive) names operation_id old Hn Hop Harch Hold _ x2 H Hx) as Hc.
    destruct (rd_journal (rf_disk (rw_fs w'))).
    + destruct (Hc RestoreIdle None) as (w2 & t & outcome & ? & ? & [?|(? & stage & new & [? _] & ?)]); exists w2, t, outcome; eauto 10.
    + destruct Hc as [?|(stage & new & [? _] & ?)]; eauto.
Qed.

(** ** A run *)
#[local] Existing Instance sample_ports.
#[local] Existing Instance sample_ports_laws.
#[local] Instance sample_calm : CalmPorts () (λ _, True).
Proof.
  split; [by eexists|done|]. intros record x d t _ Ht. exists x, (with_record t). cbn. unfold record_sample, fs_call. cbn. by rewrite Ht.
Qed.
Definition replaced (outcomes : list RestoreIo) : RestoreDisk :=
  rf_disk (rw_fs (replace_restore sample_names schema_v3 (lit "secret") (sample_world outcomes)).2).
Definition recover (d : RestoreDisk) (outcomes : list RestoreIo) : result AppError RestoreRecoveryReceipt * RestoreDisk :=
  let '(r, w) := recover_restore sample_names (lit "op-1")
    (Build_RestoreWorld () {| rf_disk := d; rf_outcomes := outcomes; rf_dead := false |} RestoreIdle None) in (r, rf_disk (rw_fs w)).
#[local] Instance Disk_eq_dec : EqDecision Disk. Proof. solve_decision. Defined.
#[local] Instance RestoreTree_eq_dec : EqDecision RestoreTree. Proof. solve_decision. Defined.
#[local] Instance RestoreDisk_eq_dec : EqDecision RestoreDisk. Proof. solve_decision. Defined.
#[local] Instance result_eq_dec {E A} `{!EqDecision E, !EqDecision A} : EqDecision (result E A). Proof. solve_decision. Defined.
#[local] Instance RestoreRecoveryReceipt_eq_dec : EqDecision RestoreRecoveryReceipt. Proof. solve_decision. Defined.
Ltac computed := apply (bool_decide_unpack _); vm_compute; exact I.
Lemma interrupted_replacement_recovers_witness :
  let at_move := replicate 12 RioDone ++ [RioDies id] in
  let at_cleanup := replicate 20 RioDone ++ [RioDies id] in
  recover (replaced at_cleanup) [] = (Ok {| ry_operation_id := lit "op-1"; ry_outcome := "commit_completed" |}, settled_on (with_record (with_record new_tree)))
  ∧ rd_journal (replaced at_move) ≠ None
  ∧ let d := replaced at_move in
    match rd_journal d with
    | None => (rd_target d = Some old_tree ∧ rd_rollback d = None) ∨ ∃ stage new, sample_archive stage new ∧ restored new d
    | Some _ =>
        ∃ w' t outcome, recover_restore sample_names (lit "op-1") (Build_RestoreWorld () (fresh d) RestoreIdle None)
            = (Ok {| ry_operation_id := lit "op-1"; ry_outcome := outcome |}, w')
          ∧ rf_disk (rw_fs w') = settled_on t
          ∧ ((outcome ≠ "commit_completed"%string ∧ t = old_tree)
             ∨ (outcome = "commit_completed"%string ∧ ∃ stage new, sample_archive stage new ∧ same_data new t))
    end.
Proof.
  intros at_move at_cleanup. split; [computed|]. split; [vm_compute; congruence|].
  refine (interrupted_replacement_recovers (calm := λ _, True) sample_names schema_v3 (lit "secret") (lit "op-1") old_tree (sample_world at_move)
            () () _ _ _ _ _ _ _ _ _ _).
  all: try reflexivity.
  - intros stage new [-> _]. reflexivity.
  - split; [reflexivity|]. split; reflexivity.
  - eexists. vm_compute. reflexivity.
  - repeat constructor.
Defined.

(** ** When a rollback or a recovery is cut off, and when the server ran in between *)
(** What an interrupted removal can leave: the configuration, and nothing else. *)
Definition config_left (t : RestoreTree) : RestoreTree := {| tr_config := tr_config t; tr_audit := ∅; tr_rest := ∅ |}.
Definition with_directory (t : RestoreTree) (d : RestoreDisk) : RestoreDisk := set_dirs (Some t) (rd_stage d) (rd_rollback d) d.

(** C39: recovery judges by what is readable, not by what was restored.  Take a journal that says that the
    previous data was moved aside, or that the restored one was published, as a replacement with UTF-8 paths
    and well-formed identifiers writes it, and a system where no call fails.
    With the previous data set aside, any readable directory in its place is taken for the restored one:
    recovery reports a completed commit and the previous data is deleted; that directory is all that is left.
    With the journal at target_moved, a readable directory in place and nothing readable set aside, as after a
    recovery that had just moved the previous data back, every recovery is refused and changes nothing, so
    that a later one finds the same. *)
Theorem recovery_misjudges {X} `{!RestorePorts X} {archive} `{!RestorePortsLaws X archive} {calm} `{!CalmPorts X calm}
  names operation_id stage new s d present (w : RestoreWorld X) :
  utf8_valid (rn_target names) = true ∧ utf8_valid (rn_stage names) = true ∧ utf8_valid (rn_rollback names) = true →
  identifier_ok operation_id = true → (∀ stage new, archive stage new → identifier_ok (sg_archive_id stage) = true) →
  archive stage new → written names operation_id stage s d → s ≠ TxPrepared →
  rd_target d = Some present → is_Some (tree_current (Some present)) → rw_fs w = fresh d → calm (rw_ports w) →
  (∀ old, rd_rollback d = Some old → is_Some (tree_current (Some old)) →
     ∃ w' t, recover_restore names operation_id w
         = (Ok {| ry_operation_id := operation_id; ry_outcome := "commit_completed" |}, w')
       ∧ rf_disk (rw_fs w') = settled_on t ∧ same_data present t)
  ∧ (s = TxTargetMoved → tree_current (rd_rollback d) = None →
     ∃ w', recover_restore names operation_id w = (Err transaction_ambiguous, w')
       ∧ rf_disk (rw_fs w') = d ∧ calm (rw_ports w')).
Proof.
  intros Hn Hop Harch Ha Hw Hs Ht Hp Hf Hx. destruct w as [x f m t0]. cbn in Hf, Hx. subst f. split.
  - intros old Hr Hold. by apply (readable_taken (archive := archive) names operation_id old Hn Hop Harch Hold stage new s).
  - intros -> Hr. apply (undecided_refused (archive := archive) names operation_id Hn Hop Harch stage new TxTargetMoved); [done..|].
    intros w'. rewrite Hr, Ht, bool_decide_true, bool_decide_false by (done || by intros [? ?]). done.
Qed.

(** The three ways there: a server that started with the data moved aside has seeded a directory; a recovery
    died right after it moved the previous data back; the published directory could not be verified and the
    process died while it was removing it. *)
Definition data_moved : RestoreDisk := replaced (replicate 12 RioDone ++ [RioDies id]).
Definition stranger : RestoreTree := sample_tree "r0" plain_config.
Definition data_back : RestoreDisk := (recover data_moved (replicate 7 RioDone ++ [RioDies id])).2.
Definition data_undone : RestoreDisk := replaced (replicate 18 RioDone ++ [RioFails id; RioDone; RioDone; RioDies config_left]).
Definition started (d : RestoreDisk) : RestoreWorld () := Build_RestoreWorld () (fresh d) RestoreIdle None.
Lemma sample_ids stage new : sample_archive stage new → identifier_ok (sg_archive_id stage) = true.
Proof. by intros [-> _]. Qed.
Lemma recovery_misjudges_witness :
  (rd_target data_moved = None ∧ rd_rollback data_moved = Some old_tree
   ∧ ∃ w' t, recover_restore sample_names (lit "op-1") (started (with_directory stranger data_moved))
         = (Ok {| ry_operation_id := lit "op-1"; ry_outcome := "commit_completed" |}, w')
       ∧ rf_disk (rw_fs w') = settled_on t ∧ same_data stranger t)
  ∧ (rd_target data_back = Some old_tree
     ∧ ∃ w', recover_restore sample_names (lit "op-1") (started data_back) = (Err transaction_ambiguous, w')
         ∧ rf_disk (rw_fs w') = data_back ∧ True)
  ∧ (rd_rollback data_undone = Some old_tree
     ∧ ∃ w' t, recover_restore sample_names (lit "op-1") (started data_undone)
           = (Ok {| ry_operation_id := lit "op-1"; ry_outcome := "commit_completed" |}, w')
         ∧ rf_disk (rw_fs w') = settled_on t ∧ same_data (config_left new_tree) t).
Proof.
  pose proof (λ s d present H1 H2 H3 H4, recovery_misjudges (archive := sample_archive) (calm := λ _, True) sample_names (lit "op-1")
    sample_summary new_tree s d present (started d) (conj eq_refl (conj eq_refl eq_refl)) eq_refl sample_ids (conj eq_refl eq_refl)
    H1 H2 H3 H4 eq_refl I) as T.
  split; [|split].
  - split; [computed|]. split; [computed|].
    refine (proj1 (T TxTargetMoved (with_directory stranger data_moved) stranger _ _ _ _) old_tree _ _);
      [split; [computed|reflexivity]|done|computed|computed|computed|computed].
  - split; [computed|].
    refine (proj2 (T TxTargetMoved data_back old_tree _ _ _ _) _ _); [split; [computed|reflexivity]|done|computed|computed|reflexivity|computed].
  - split; [computed|].
    refine (proj1 (T TxStagePublished data_undone (config_left new_tree) _ _ _ _) old_tree _ _);
      [split; [computed|reflexivity]|done|computed|computed|computed|computed].
Defined.
