(* ===== verification/TrustBundles.v ===== *)
(** * Trust bundles

    Importing, listing and deleting the bundles of root certificates that listeners and upstreams refer to
    (trust.rs of edge-application), and the store in files with its metadata text (file_trust_bundle_store.rs,
    trust_bundle_metadata_codec.rs and trust_bundle_safe_file.rs of edge-adapters).  Parsing certificates is a
    parameter. *)

From stdpp Require Import base gmap strings list sorting.
From Stdlib Require Import Strings.Byte NArith Lia.
From S2P Require Import Prelude Errors RustStr Endpoint UpstreamPolicy Snapshot ConfigParser ConfigRender ConfigStore AuditCodec AdminHttp CertificateFiles.
Local Open Scope N_scope.

(** ** Data *)
Record TrustBundleMetadata := {
  tb_ref : list byte;
  tb_certificate_count : N;
  tb_imported_at_epoch_seconds : N;
  tb_content_sha256 : list byte
}.
#[global] Instance TrustBundleMetadata_eq_dec : EqDecision TrustBundleMetadata. Proof. solve_decision. Defined.
Record ValidatedTrustBundle := { vt_metadata : TrustBundleMetadata; vt_encoded_material : list byte }.
#[global] Instance ValidatedTrustBundle_eq_dec : EqDecision ValidatedTrustBundle. Proof. solve_decision. Defined.
Record TrustBundleOperationEvent := {
  te_event : string;
  te_ref : list byte;
  te_certificate_count : option N;
  te_outcome : string;
  te_error_code : option ErrorCode
}.
Record ImportTrustBundleInput := {
  ti_request_id : list byte;
  ti_ref : list byte;
  ti_encoded_material : list byte;
  ti_imported_at_epoch_seconds : N
}.

(** ** Ports *)
Class TrustBundleMaterialValidator (V : Type) :=
  validate_trust_bundle : list byte → list byte → N → V → result AppError ValidatedTrustBundle * V.
Class TrustBundleStore (S : Type) := {
  store_create : ValidatedTrustBundle → S → result AppError () * S;
  store_list : S → result AppError (list TrustBundleMetadata) * S;
  store_delete : list byte → S → result AppError () * S
}.
Class RetainedConfigSnapshots (R : Type) := retained_config_snapshots : R → result AppError (list ConfigSnapshot).
Class TrustBundleEventSink (E : Type) := {
  record_trust_product_event : TrustBundleOperationEvent → E → E;
  record_trust_audit_event : TrustBundleOperationEvent → E → E
}.

(** ** Use cases *)
Definition MAX_TRUST_BUNDLES : N := 128.
Definition MAX_ENCODED_TRUST_BUNDLE_BYTES : N := 384 * 1024.
Section use.
  Context {V S R E : Type} `{!TrustBundleMaterialValidator V} `{!TrustBundleStore S} `{!RetainedConfigSnapshots R} `{!TrustBundleEventSink E}.

Definition record_both (event : TrustBundleOperationEvent) (events : E) : E :=
  record_trust_audit_event event (record_trust_product_event event events).
Definition record_import_event (reference : list byte) (count : option N) (outcome : string) (code : option ErrorCode) (events : E) : E :=
  record_both {| te_event := "trust_bundle.import"; te_ref := reference; te_certificate_count := count; te_outcome := outcome;
                 te_error_code := code |} events.
Definition record_delete_event (reference : list byte) (outcome : string) (code : option ErrorCode) (events : E) : E :=
  record_both {| te_event := "trust_bundle.delete"; te_ref := reference; te_certificate_count := None; te_outcome := outcome;
                 te_error_code := code |} events.

Definition import_trust_bundle (input : ImportTrustBundleInput) (w : V * S * E) : result AppError TrustBundleMetadata * (V * S * E) :=
  let '(validator, store, events) := w in
  if MAX_ENCODED_TRUST_BUNDLE_BYTES <? len (ti_encoded_material input) then
    let error := AppError_new TrustBundleLimitExceeded "encoded trust bundle limit exceeded" in
    (Err error, (validator, store, record_import_event (ti_ref input) None "failure" (Some (app_code error)) events))
  else
    match validate_trust_bundle (ti_ref input) (ti_encoded_material input) (ti_imported_at_epoch_seconds input) validator with
    | (Err error, validator) =>
        (Err error, (validator, store, record_import_event (ti_ref input) None "failure" (Some (app_code error)) events))
    | (Ok validated, validator) =>
        let metadata := vt_metadata validated in
        let count := Some (tb_certificate_count metadata) in
        match store_create validated store with
        | (Err error, store) =>
            (Err error, (validator, store, record_import_event (ti_ref input) count "failure" (Some (app_code error)) events))
        | (Ok _, store) => (Ok metadata, (validator, store, record_import_event (ti_ref input) count "success" None events))
        end
    end.
Definition trust_ref_le (a b : TrustBundleMetadata) : Prop := bytes_le (tb_ref a) (tb_ref b).
#[global] Instance trust_ref_le_dec : RelDecision trust_ref_le.
Proof. intros a b. unfold trust_ref_le. apply _. Defined.
Definition list_trust_bundles (store : S) : result AppError (list TrustBundleMetadata) * S :=
  let! items, store := store_list store in
  (if MAX_TRUST_BUNDLES <? len items then Err (AppError_new TrustBundleLimitExceeded "managed trust bundle limit exceeded")
   else Ok (merge_sort trust_ref_le items), store).
(** The references that keep a bundle. *)
Definition listener_refers (reference : list byte) (l : Listener) : bool :=
  match listener_client_auth l with ClientAuthRequired r => bool_decide (r = reference) | ClientAuthDisabled => false end.
Definition upstream_refers (reference : list byte) (u : Upstream) : bool :=
  match up_tls u with TlsServerAuthenticated _ _ r => bool_decide (r = reference) | TlsDisabled => false end.
Definition snapshot_refers (reference : list byte) (s : ConfigSnapshot) : bool :=
  existsb (listener_refers reference) (snap_listeners s)
  || existsb (λ service, existsb (upstream_refers reference) (svc_upstreams service)) (snap_services s).
Definition delete_trust_bundle (reference : list byte) (revisions : R) (w : S * E) : result AppError () * (S * E) :=
  let '(store, events) := w in
  match retained_config_snapshots revisions with
  | Err error => (Err error, (store, events))
  | Ok snapshots =>
      if existsb (snapshot_refers reference) snapshots then
        let error := AppError_new TrustBundleReferenced "trust bundle is referenced by a retained config revision" in
        (Err error, (store, record_delete_event reference "rejected" (Some (app_code error)) events))
      else
        match store_delete reference store with
        | (Ok _, store) => (Ok (), (store, record_delete_event reference "success" None events))
        | (Err error, store) => (Err error, (store, record_delete_event reference "failure" (Some (app_code error)) events))
        end
  end.
End use.

(** ** Checking material *)
Definition trust_bundle_store_error : AppError := AppError_new TrustBundleStoreFailed "trust bundle store operation failed".
Definition trust_bundle_invalid : AppError := AppError_new TrustBundleInvalid "trust bundle material is invalid".
Definition trust_bundle_limit : AppError := AppError_new TrustBundleLimitExceeded "trust bundle material limit exceeded".
(** The sections of a PEM text, whether each is a certificate, and whether a certificate is an authority. *)
Class CertificateParser := {
  pem_sections : list byte → list (option (bool * list byte));
  certificate_is_ca : list byte → option bool
}.
Fixpoint check_sections `{!CertificateParser} (sections : list (option (bool * list byte))) (decoded_bytes : N) (certificates : list (list byte))
  : result AppError (list (list byte)) :=
  match sections with
  | [] => Ok certificates
  | None :: _ => Err trust_bundle_invalid
  | Some (is_certificate, certificate) :: rest =>
      if negb is_certificate then Err trust_bundle_invalid
      else if USIZE_MAX <? decoded_bytes + len certificate then Err trust_bundle_limit
      else if (256 * 1024 <? decoded_bytes + len certificate) || (32 <=? len certificates) then Err trust_bundle_limit
      else if bool_decide (certificate ∈ certificates) then Err trust_bundle_invalid
      else match certificate_is_ca certificate with
           | Some true => check_sections rest (decoded_bytes + len certificate) (certificates ++ [certificate])
           | _ => Err trust_bundle_invalid
           end
  end.
Definition rustls_validate_trust_bundle `{!CertificateParser} `{!Sha256} (reference encoded_material : list byte) (imported_at : N)
  : result AppError ValidatedTrustBundle :=
  if bool_decide (encoded_material = []) then Err trust_bundle_invalid
  else if 384 * 1024 <? len encoded_material then Err trust_bundle_limit
  else
    let? certificates := check_sections (pem_sections encoded_material) 0 [] in
    if bool_decide (certificates = []) then Err trust_bundle_invalid
    else Ok {| vt_metadata := {| tb_ref := reference; tb_certificate_count := len certificates mod 256;
                                 tb_imported_at_epoch_seconds := imported_at; tb_content_sha256 := sha256 encoded_material |};
               vt_encoded_material := encoded_material |}.
#[global] Instance rustls_validator `{!CertificateParser} `{!Sha256} : TrustBundleMaterialValidator () :=
  λ reference material imported_at w, (rustls_validate_trust_bundle reference material imported_at, w).

(** ** The metadata text *)
Definition render_trust_metadata (m : TrustBundleMetadata) : list byte :=
  lit "trust_bundle_ref = " ++ quoted (tb_ref m) ++ [LF]
  ++ lit "certificate_count = " ++ print_dec (tb_certificate_count m) ++ [LF]
  ++ lit "imported_at_epoch_seconds = " ++ print_dec (tb_imported_at_epoch_seconds m) ++ [LF]
  ++ lit "content_sha256 = " ++ quoted (hex_encode (tb_content_sha256 m)) ++ [LF].
Definition parse_sha256 (value : list byte) : option (list byte) := if len value =? 64 then hex_pairs value else None.
Record TrustMetadataDraft := {
  td_reference : option (list byte);
  td_count : option N;
  td_imported_at : option N;
  td_content_sha256 : option (list byte)
}.
Definition trust_metadata_line (line : list byte) (d : TrustMetadataDraft) : result AppError TrustMetadataDraft :=
  match split_once_str (lit " = ") line with
  | None => Err trust_bundle_store_error
  | Some (key, value) =>
      if bool_decide (key = lit "trust_bundle_ref") then
        match TrustBundleRef_parse (trim_matches QUOTE QUOTE value) with
        | Err e => Err (AppError_new (val_code e) (val_message e))
        | Ok reference => Ok {| td_reference := Some reference; td_count := td_count d; td_imported_at := td_imported_at d;
                                td_content_sha256 := td_content_sha256 d |}
        end
      else if bool_decide (key = lit "certificate_count") then
        Ok {| td_reference := td_reference d; td_count := parse_uint U8_MAX value; td_imported_at := td_imported_at d;
              td_content_sha256 := td_content_sha256 d |}
      else if bool_decide (key = lit "imported_at_epoch_seconds") then
        Ok {| td_reference := td_reference d; td_count := td_count d; td_imported_at := parse_uint U64_MAX value;
              td_content_sha256 := td_content_sha256 d |}
      else if bool_decide (key = lit "content_sha256") then
        Ok {| td_reference := td_reference d; td_count := td_count d; td_imported_at := td_imported_at d;
              td_content_sha256 := parse_sha256 (trim_matches QUOTE QUOTE value) |}
      else Err trust_bundle_store_error
  end.
Fixpoint trust_metadata_lines (lines : list (list byte)) (d : TrustMetadataDraft) : result AppError TrustMetadataDraft :=
  match lines with
  | [] => Ok d
  | line :: rest => let? d := trust_metadata_line line d in trust_metadata_lines rest d
  end.
Definition parse_trust_metadata (source : list byte) : result AppError TrustBundleMetadata :=
  let? d := trust_metadata_lines (str_lines source)
              {| td_reference := None; td_count := None; td_imported_at := None; td_content_sha256 := None |} in
  let? reference := ok_or (td_reference d) trust_bundle_store_error in
  let? count := ok_or (match td_count d with
                       | Some n => if (1 <=? n) && (n <=? 32) then Some n else None
                       | None => None
                       end) trust_bundle_store_error in
  let? imported_at := ok_or (td_imported_at d) trust_bundle_store_error in
  let? digest := ok_or (td_content_sha256 d) trust_bundle_store_error in
  Ok {| tb_ref := reference; tb_certificate_count := count; tb_imported_at_epoch_seconds := imported_at; tb_content_sha256 := digest |}.

(** ** The store in files *)
(** An entry of the root; the modes of files are not modelled, a call may be refused for them. *)
Inductive TrustEntry := TrustDir (files : gmap (list byte) (list byte)) | TrustOther.
#[global] Instance TrustEntry_eq_dec : EqDecision TrustEntry. Proof. solve_decision. Defined.
(** A failing write leaves nothing or the first bytes; a failing removal leaves some of the files. *)
Inductive TrustIo := TrustDone | TrustFails (written : option nat) (stays : list byte → bool).
Record FileTrustBundleStore := { ft_root : option (gmap (list byte) TrustEntry); ft_outcomes : list TrustIo }.
Definition trust_io (w : FileTrustBundleStore) : TrustIo * FileTrustBundleStore :=
  match ft_outcomes w with
  | [] => (TrustDone, w)
  | o :: rest => (o, {| ft_root := ft_root w; ft_outcomes := rest |})
  end.
Definition trust_entries (w : FileTrustBundleStore) : gmap (list byte) TrustEntry := default ∅ (ft_root w).
Definition set_entries (entries : gmap (list byte) TrustEntry) (w : FileTrustBundleStore) : FileTrustBundleStore :=
  {| ft_root := Some entries; ft_outcomes := ft_outcomes w |}.
Definition trust_call (effect : gmap (list byte) TrustEntry → option (gmap (list byte) TrustEntry))
  (cut : option nat → (list byte → bool) → gmap (list byte) TrustEntry → gmap (list byte) TrustEntry) (w : FileTrustBundleStore)
  : result AppError () * FileTrustBundleStore :=
  let '(outcome, w) := trust_io w in
  match ft_root w, outcome with
  | None, _ => (Err trust_bundle_store_error, w)
  | Some entries, TrustDone =>
      match effect entries with
      | Some entries => (Ok (), set_entries entries w)
      | None => (Err trust_bundle_store_error, w)
      end
  | Some entries, TrustFails written stays => (Err trust_bundle_store_error, set_entries (cut written stays entries) w)
  end.
Definition kept_entries (_ : option nat) (_ : list byte → bool) (entries : gmap (list byte) TrustEntry) := entries.
Definition create_root (w : FileTrustBundleStore) : result AppError () * FileTrustBundleStore :=
  match trust_io w with
  | (TrustDone, w) => (Ok (), set_entries (trust_entries w) w)
  | (TrustFails _ _, w) => (Err trust_bundle_store_error, w)
  end.
(** [symlink_metadata], and whether it could tell. *)
Definition entry_metadata (name : list byte) (w : FileTrustBundleStore) : result AppError (option TrustEntry) * FileTrustBundleStore :=
  match trust_io w with
  | (TrustDone, w) => (Ok (trust_entries w !! name), w)
  | (TrustFails _ _, w) => (Err trust_bundle_store_error, w)
  end.
Definition create_entry (name : list byte) : FileTrustBundleStore → result AppError () * FileTrustBundleStore :=
  trust_call (λ es, match es !! name with None => Some (<[name := TrustDir ∅]> es) | Some _ => None end) kept_entries.
Definition put_file (name file content : list byte) (es : gmap (list byte) TrustEntry) : option (gmap (list byte) TrustEntry) :=
  match es !! name with
  | Some (TrustDir files) =>
      match files !! file with None => Some (<[name := TrustDir (<[file := content]> files)]> es) | Some _ => None end
  | _ => None
  end.
Definition write_synced_owner_file (name file content : list byte) : FileTrustBundleStore → result AppError () * FileTrustBundleStore :=
  trust_call (put_file name file content)
    (λ written _ es, match written with None => es | Some n => default es (put_file name file (take n content) es) end).
Definition sync_directory : FileTrustBundleStore → result AppError () * FileTrustBundleStore := trust_call Some kept_entries.
Definition read_root : FileTrustBundleStore → result AppError () * FileTrustBundleStore := trust_call Some kept_entries.
(** A directory replaces nothing, or an empty directory. *)
Definition rename_entry (from to : list byte) : FileTrustBundleStore → result AppError () * FileTrustBundleStore :=
  trust_call (λ es, match es !! from, es !! to with
                    | Some e, None => Some (<[to := e]> (delete from es))
                    | Some e, Some (TrustDir files) => if bool_decide (files = ∅) then Some (<[to := e]> (delete from es)) else None
                    | _, _ => None
                    end) kept_entries.
Definition remove_entry (name : list byte) : FileTrustBundleStore → result AppError () * FileTrustBundleStore :=
  trust_call (λ es, match es !! name with Some _ => Some (delete name es) | None => None end)
    (λ _ stays es, alter (λ e, match e with
                               | TrustDir files => TrustDir (filter (λ f, stays f.1 = true) files)
                               | TrustOther => TrustOther
                               end) name es).
Definition read_owner_file_nofollow (name file : list byte) (max_bytes : N) (w : FileTrustBundleStore)
  : result AppError (list byte) * FileTrustBundleStore :=
  match trust_io w with
  | (TrustDone, w) =>
      (match trust_entries w !! name with
       | Some (TrustDir files) =>
           match files !! file with
           | Some content => if max_bytes <? len content then Err trust_bundle_limit else Ok content
           | None => Err trust_bundle_store_error
           end
       | _ => Err trust_bundle_store_error
       end, w)
  | (TrustFails _ _, w) => (Err trust_bundle_store_error, w)
  end.

Definition ROOTS : list byte := lit "roots.pem".
Definition TRUST_METADATA : list byte := lit "metadata.toml".
Definition temp_dir (reference : list byte) : list byte := lit "." ++ reference ++ lit ".tmp".
Definition publish_bundle (bundle : ValidatedTrustBundle) (w : FileTrustBundleStore) : result AppError () * FileTrustBundleStore :=
  let reference := tb_ref (vt_metadata bundle) in
  let temp := temp_dir reference in
  let! _, w := write_synced_owner_file temp ROOTS (vt_encoded_material bundle) w in
  let! _, w := write_synced_owner_file temp TRUST_METADATA (render_trust_metadata (vt_metadata bundle)) w in
  let! _, w := sync_directory w in
  let! _, w := rename_entry temp reference w in
  sync_directory w.
Definition file_create_trust_bundle `{!Sha256} (bundle : ValidatedTrustBundle) (w : FileTrustBundleStore)
  : result AppError () * FileTrustBundleStore :=
  if negb (bool_decide (sha256 (vt_encoded_material bundle) = tb_content_sha256 (vt_metadata bundle))) then (Err trust_bundle_invalid, w)
  else
    let reference := tb_ref (vt_metadata bundle) in
    let! _, w := create_root w in
    let '(present, w) := entry_metadata reference w in
    match present with
    | Ok (Some _) => (Err (AppError_new TrustBundleAlreadyExists "trust bundle reference already exists"), w)
    | _ =>
        let! _, w := create_entry (temp_dir reference) w in
        match publish_bundle bundle w with
        | (Ok _, w) => (Ok (), w)
        | (Err e, w) => (Err e, (remove_entry (temp_dir reference) w).2)
        end
    end.
Definition decode_metadata (bytes : list byte) : result AppError TrustBundleMetadata :=
  if utf8_valid bytes then parse_trust_metadata bytes else Err trust_bundle_store_error.
Fixpoint read_bundles (names : list (list byte)) (w : FileTrustBundleStore)
  : result AppError (list TrustBundleMetadata) * FileTrustBundleStore :=
  match names with
  | [] => (Ok [], w)
  | name :: rest =>
      let! entry, w := entry_metadata name w in
      match entry with
      | Some (TrustDir _) =>
          let! bytes, w := read_owner_file_nofollow name TRUST_METADATA 4096 w in
          let! item, w := (decode_metadata bytes, w) in
          let! items, w := read_bundles rest w in
          (Ok (item :: items), w)
      | _ => (Err trust_bundle_store_error, w)
      end
  end.
(** [Path::exists] answers [false] when it cannot tell. *)
Definition file_list_trust_bundles (w : FileTrustBundleStore) : result AppError (list TrustBundleMetadata) * FileTrustBundleStore :=
  let '(outcome, w) := trust_io w in
  match outcome, ft_root w with
  | TrustDone, Some _ =>
      let! _, w := read_root w in
      read_bundles (merge_sort bytes_le (elements (dom (trust_entries w)))) w
  | _, _ => (Ok [], w)
  end.
Definition file_delete_trust_bundle (reference : list byte) (w : FileTrustBundleStore) : result AppError () * FileTrustBundleStore :=
  let! entry, w := entry_metadata reference w in
  match entry with
  | Some (TrustDir _) => remove_entry reference w
  | Some TrustOther => (Err trust_bundle_store_error, w)
  | None => (Ok (), w)
  end.
Definition file_load_trust_bundle `{!Sha256} (reference : list byte) (w : FileTrustBundleStore)
  : result AppError (option ValidatedTrustBundle) * FileTrustBundleStore :=
  let! entry, w := entry_metadata reference w in
  match entry with
  | None => (Ok None, w)
  | Some TrustOther => (Err trust_bundle_store_error, w)
  | Some (TrustDir _) =>
      let! bytes, w := read_owner_file_nofollow reference TRUST_METADATA 4096 w in
      let! metadata, w := (decode_metadata bytes, w) in
      if negb (bool_decide (tb_ref metadata = reference)) then (Err trust_bundle_store_error, w)
      else
        let! material, w := read_owner_file_nofollow reference ROOTS (384 * 1024) w in
        if negb (bool_decide (sha256 material = tb_content_sha256 metadata)) then (Err trust_bundle_store_error, w)
        else (Ok (Some {| vt_metadata := metadata; vt_encoded_material := material |}), w)
  end.
#[global] Instance file_trust_bundles `{!Sha256} : TrustBundleStore FileTrustBundleStore := {
  store_create := file_create_trust_bundle; store_list := file_list_trust_bundles; store_delete := file_delete_trust_bundle
}.
