(* ===== verification/TrustProofs.v ===== *)
(** * What the store of trust bundles keeps

    The metadata text reads back; an import publishes a bundle as a whole or not at all, and touches no
    other; a bundle that a retained revision refers to is never deleted; and what an interrupted import leaves
    behind. *)

From stdpp Require Import base gmap strings list sorting.
From Stdlib Require Import Strings.Byte NArith Lia.
From S2P Require Import Prelude Errors RustStr Endpoint UpstreamPolicy Snapshot ConfigParser ConfigDraft ConfigRender ConfigStore AuditCodec AdminHttp CertificateFiles CertificateRoundtrip AuditSample ConfigServing TrustBundles.
Local Open Scope N_scope.

(** ** The metadata text *)
Record bundle_ok (m : TrustBundleMetadata) : Prop := {
  bk_ref : TrustBundleRef_parse (tb_ref m) = Ok (tb_ref m);
  bk_count : 1 ≤ tb_certificate_count m ≤ 32;
  bk_imported : tb_imported_at_epoch_seconds m ≤ U64_MAX;
  bk_digest : length (tb_content_sha256 m) = 32%nat
}.
Lemma split_entry v :
  split_once_str (lit " = ") (metadata_entry "trust_bundle_ref" v) = Some (lit "trust_bundle_ref", v)
  ∧ split_once_str (lit " = ") (metadata_entry "certificate_count" v) = Some (lit "certificate_count", v)
  ∧ split_once_str (lit " = ") (metadata_entry "imported_at_epoch_seconds" v) = Some (lit "imported_at_epoch_seconds", v)
  ∧ split_once_str (lit " = ") (metadata_entry "content_sha256" v) = Some (lit "content_sha256", v).
Proof. split_and!; reflexivity. Qed.
Lemma unquote v : v ≠ [] → QUOTE ∉ v → trim_matches QUOTE QUOTE (quoted v) = v.
Proof.
  intros Hv Hq. unfold trim_matches, quoted, trim_end_matches. destruct v as [|b v]; [done|].
  apply not_elem_of_cons in Hq as [Hb Hq]. cbn [drop_while_byte]. rewrite bool_decide_true by done. cbn [app drop_while_byte].
  rewrite bool_decide_false by congruence. cbn [rev]. rewrite rev_app_distr. cbn [rev app drop_while_byte].
  rewrite bool_decide_true by done.
  assert (Hr : drop_while_byte QUOTE (rev v ++ [b]) = rev v ++ [b]).
  { destruct (rev v ++ [b]) as [|c l] eqn:E; [done|]. cbn. rewrite bool_decide_false; [done|]. intros ->.
    assert (Hin : QUOTE ∈ rev v ++ [b]) by (rewrite E; left). rewrite elem_of_app, list_elem_of_singleton, elem_of_rev in Hin. naive_solver. }
  rewrite Hr, rev_app_distr, rev_involutive. done.
Qed.
Lemma ref_plain r : TrustBundleRef_parse r = Ok r → r ≠ [] ∧ len r ≤ 64 ∧ Forall (λ b, is_ascii_alphanumeric b || bool_decide (b = HYPHEN) || bool_decide (b = x5f) = true) r.
Proof.
  unfold TrustBundleRef_parse. case_bool_decide as H1; [done|]. destruct (64 <? len r) eqn:E2; [done|].
  destruct (bool_decide (r = lit ".")); [done|]. destruct (bool_decide (r = lit "..")); [done|]. cbn [orb].
  destruct (forallb _ r) eqn:E5; [|done]. intros _. split; [done|]. split; [by apply N.ltb_ge|].
  apply Forall_forall. intros b Hb. rewrite forallb_forall in E5. apply E5, list_elem_of_In, Hb.
Qed.
Lemma ref_byte_facts b :
  is_ascii_alphanumeric b || bool_decide (b = HYPHEN) || bool_decide (b = x5f) = true → u8 b < 128 ∧ b ≠ QUOTE ∧ b ≠ LF ∧ b ≠ x2e.
Proof. destruct b; vm_compute; intros; repeat split; congruence. Qed.
Lemma ref_facts r : TrustBundleRef_parse r = Ok r → r ≠ [] ∧ QUOTE ∉ r ∧ clean r ∧ Forall (λ b, u8 b < 128) r ∧ head r ≠ Some x2e.
Proof.
  intros (Hne & _ & Hf)%ref_plain. rewrite Forall_forall in Hf. split_and!; [done| | | |].
  - intros Hin. by destruct (ref_byte_facts _ (Hf _ Hin)) as (_ & ? & _).
  - intros Hin. by destruct (ref_byte_facts _ (Hf _ Hin)) as (_ & _ & ? & _).
  - apply Forall_forall. intros b Hb. by destruct (ref_byte_facts _ (Hf _ Hb)).
  - destruct r as [|b r]; [done|]. intros [= ->]. by destruct (ref_byte_facts x2e) as (_ & _ & _ & ?); [apply Hf; left|].
Qed.
Lemma quoted_value_ok v : clean v → value_ok (quoted v).
Proof.
  intros Hv. split; [|apply framed_quoted]. unfold clean, quoted in *. rewrite not_elem_of_cons, not_elem_of_app.
  split_and!; [done|done|]. by intros ?%list_elem_of_singleton.
Qed.
Lemma hex_pair_facts b : forallb (λ c, negb (bool_decide (c = QUOTE)) && negb (bool_decide (c = LF))) [hex_digit (u8 b / 16); hex_digit (u8 b mod 16)] = true.
Proof. by destruct b; vm_compute. Qed.
Lemma hex_facts l : clean (hex_encode l) ∧ QUOTE ∉ hex_encode l.
Proof.
  induction l as [|b l [IH1 IH2]]; [split; by intros ?%elem_of_nil|]. pose proof (hex_pair_facts b) as H. unfold hex_encode, clean in *.
  cbn [mbind list_bind app forallb] in *. apply andb_true_iff in H as [[H1 H2]%andb_true_iff [[H3 H4]%andb_true_iff _]%andb_true_iff].
  apply negb_true_iff, bool_decide_eq_false in H1, H2, H3, H4. rewrite !not_elem_of_cons. split_and!; congruence || done.
Qed.
Definition draft (r : option (list byte)) (c i : option N) (x : option (list byte)) : TrustMetadataDraft :=
  {| td_reference := r; td_count := c; td_imported_at := i; td_content_sha256 := x |}.
Ltac at_key := unfold trust_metadata_line;
  let E1 := fresh in let E2 := fresh in let E3 := fresh in let E4 := fresh in
  match goal with |- context [metadata_entry _ ?v] => destruct (split_entry v) as (E1 & E2 & E3 & E4) end;
  rewrite ?E1, ?E2, ?E3, ?E4; clear E1 E2 E3 E4; repeat (rewrite bool_decide_false by done); rewrite bool_decide_true by done.
Lemma ref_line v r c i x :
  TrustBundleRef_parse v = Ok v → trust_metadata_line (metadata_entry "trust_bundle_ref" (quoted v)) (draft r c i x) = Ok (draft (Some v) c i x).
Proof. intros Hv. destruct (ref_facts _ Hv) as (? & ? & _). at_key. by rewrite unquote, Hv. Qed.
Lemma count_line n r c i x :
  n ≤ U8_MAX → trust_metadata_line (metadata_entry "certificate_count" (print_dec n)) (draft r c i x) = Ok (draft r (Some n) i x).
Proof. intros Hn. at_key. by rewrite parse_print_dec. Qed.
Lemma imported_line n r c i x :
  n ≤ U64_MAX → trust_metadata_line (metadata_entry "imported_at_epoch_seconds" (print_dec n)) (draft r c i x) = Ok (draft r c (Some n) x).
Proof. intros Hn. at_key. by rewrite parse_print_dec. Qed.
Lemma digest_line d r c i x :
  length d = 32%nat → trust_metadata_line (metadata_entry "content_sha256" (quoted (hex_encode d))) (draft r c i x) = Ok (draft r c i (Some d)).
Proof.
  intros Hd. destruct (hex_facts d) as [_ Hq]. assert (Hl : length (hex_encode d) = 64%nat) by (rewrite hex_encode_length, Hd; done).
  at_key. rewrite unquote by (done || by intros E; rewrite E in Hl). unfold parse_sha256, len. rewrite Hl, hex_pairs_encode. done.
Qed.
Lemma trust_metadata_roundtrip m : bundle_ok m → parse_trust_metadata (render_trust_metadata m) = Ok m.
Proof.
  intros [Hr [Hc1 Hc2] Hi Hd]. destruct (ref_facts _ Hr) as (Rn & Rq & Rc & _). destruct (hex_facts (tb_content_sha256 m)) as [Xc Xq].
  assert (Hl : str_lines (render_trust_metadata m) =
    [metadata_entry "trust_bundle_ref" (quoted (tb_ref m)); metadata_entry "certificate_count" (print_dec (tb_certificate_count m));
     metadata_entry "imported_at_epoch_seconds" (print_dec (tb_imported_at_epoch_seconds m));
     metadata_entry "content_sha256" (quoted (hex_encode (tb_content_sha256 m)))]).
  { transitivity (str_lines (line (metadata_entry "trust_bundle_ref" (quoted (tb_ref m)))
      ++ line (metadata_entry "certificate_count" (print_dec (tb_certificate_count m)))
      ++ line (metadata_entry "imported_at_epoch_seconds" (print_dec (tb_imported_at_epoch_seconds m)))
      ++ line (metadata_entry "content_sha256" (quoted (hex_encode (tb_content_sha256 m)))) ++ [])).
    { f_equal. unfold render_trust_metadata, metadata_entry, line. rewrite <-!app_assoc. cbn [app]. rewrite <-?app_assoc. reflexivity. }
    rewrite (entry_lines "trust_bundle_ref" _ _ x74), (entry_lines "certificate_count" _ _ x63),
      (entry_lines "imported_at_epoch_seconds" _ _ x69), (entry_lines "content_sha256" _ _ x63); try done;
      try apply framed_quoted; try (by apply quoted_value_ok); try apply print_dec_ok; by vm_compute; set_solver. }
  unfold parse_trust_metadata. rewrite Hl. cbn [trust_metadata_lines]. fold (draft None None None None).
  rewrite ref_line by done. cbn [trust_metadata_lines]. rewrite count_line by (unfold U8_MAX; lia). cbn [trust_metadata_lines].
  rewrite imported_line by done. cbn [trust_metadata_lines]. rewrite digest_line by done. cbn [ok_or draft td_reference td_count td_imported_at td_content_sha256].
  rewrite (proj2 (N.leb_le 1 _)), (proj2 (N.leb_le _ 32)) by lia. by destruct m.
Qed.
Lemma print_dec_short n : (length (print_dec n) ≤ S (N.to_nat (N.size n)))%nat.
Proof.
  unfold print_dec. generalize (S (N.to_nat (N.size n))) as fuel. intros fuel. revert n. induction fuel as [|fuel IH]; intros n; [done|].
  cbn [print_dec_go]. destruct (n <? 10); cbn [length]; [lia|]. rewrite length_app. cbn [length]. specialize (IH (n / 10)). lia.
Qed.
Lemma size_bound n k : n < 2 ^ k → N.size n ≤ k.
Proof.
  intros Hn. destruct (N.eq_dec n 0) as [-> |Hz]; [cbn; lia|]. rewrite N.size_log2 by done.
  assert (N.log2 n < k) by (apply N.log2_lt_pow2; lia). lia.
Qed.
Lemma metadata_fits m : bundle_ok m → len (render_trust_metadata m) ≤ 4096 ∧ utf8_valid (render_trust_metadata m) = true.
Proof.
  intros [Hr Hc Hi Hd]. pose proof (proj1 (proj2 (ref_plain _ Hr))) as Hl. destruct (ref_facts _ Hr) as (_ & _ & _ & Ha & _).
  assert (Hn : ∀ n, Forall (λ b, u8 b < 128) (print_dec n)).
  { intros n. eapply Forall_impl; [apply print_dec_digits|]. intros b. by destruct b; vm_compute. }
  assert (Hx : Forall (λ b, u8 b < 128) (hex_encode (tb_content_sha256 m))).
  { eapply Forall_impl; [apply hex_encode_plain|]. by intros ? []. }
  split.
  - pose proof (print_dec_short (tb_certificate_count m)) as L1. pose proof (print_dec_short (tb_imported_at_epoch_seconds m)) as L2.
    pose proof (size_bound (tb_certificate_count m) 64 ltac:(lia)) as S1.
    pose proof (size_bound (tb_imported_at_epoch_seconds m) 64 ltac:(unfold U64_MAX in Hi; lia)) as S2.
    unfold len, render_trust_metadata, quoted in *. repeat (rewrite ?length_app; cbn [length]). rewrite hex_encode_length, Hd.
    repeat match goal with |- context [length (lit ?s)] => let n := eval vm_compute in (length (lit s)) in change (length (lit s)) with n end. lia.
  - apply utf8_valid_ascii. unfold render_trust_metadata, quoted. rewrite !Forall_app, !Forall_cons, !Forall_app.
    split_and!; try done; try apply Hn; repeat constructor; by vm_compute.
Qed.

(** ** Calls *)
Lemma trust_call_ends effect cut w r w' es :
  ft_root w = Some es → trust_call effect cut w = (r, w') →
  (r = Ok () ∧ ∃ es', effect es = Some es' ∧ ft_root w' = Some es')
  ∨ (r = Err trust_bundle_store_error ∧ (ft_root w' = Some es ∨ ∃ n stays, ft_root w' = Some (cut n stays es))).
Proof.
  intros Hes. unfold trust_call, trust_io. destruct (ft_outcomes w) as [|o rest] eqn:Eo.
  - rewrite Hes. destruct (effect es) eqn:Ee; intros [= <- <-]; [left|right]; eauto.
  - cbn [ft_root]. rewrite Hes. destruct o as [|n stays].
    + destruct (effect es) eqn:Ee; intros [= <- <-]; [left|right]; eauto.
    + intros [= <- <-]. right. split; [done|]. right. by exists n, stays.
Qed.
Lemma entry_metadata_root name w r w' : entry_metadata name w = (r, w') → ft_root w' = ft_root w ∧ (∀ e, r = Ok e → e = trust_entries w !! name).
Proof.
  unfold entry_metadata, trust_io, trust_entries. destruct (ft_outcomes w) as [|[|n stays] rest]; intros [= <- <-]; split; try done; by intros e [= <-].
Qed.
Lemma create_root_ends w r w' : create_root w = (r, w') → (r = Ok () → ft_root w' = Some (trust_entries w)) ∧ trust_entries w' = trust_entries w.
Proof.
  unfold create_root, trust_io, trust_entries. destruct (ft_outcomes w) as [|[|n stays] rest]; intros [= <- <-]; done.
Qed.

(** ** Publishing a bundle *)
Section publish.
  Context {SH : Sha256} (b : ValidatedTrustBundle) (Href : TrustBundleRef_parse (tb_ref (vt_metadata b)) = Ok (tb_ref (vt_metadata b))).
  Abbreviation reference := (tb_ref (vt_metadata b)).
  Abbreviation temp := (temp_dir (tb_ref (vt_metadata b))).

Definition published : TrustEntry :=
  TrustDir (<[TRUST_METADATA := render_trust_metadata (vt_metadata b)]> (<[ROOTS := vt_encoded_material b]> ∅)).
Definition elsewhere (es es' : gmap (list byte) TrustEntry) : Prop := ∀ n, n ≠ reference → n ≠ temp → es' !! n = es !! n.
Lemma temp_apart : temp ≠ reference.
Proof.
  destruct (ref_facts _ Href) as (_ & _ & _ & _ & Hh). intros E. apply Hh. rewrite <-E. done.
Qed.
(** What a directory can be renamed to. *)
Definition vacant (e : option TrustEntry) : Prop := e = None ∨ e = Some (TrustDir ∅).
Definition now_published (es es' : gmap (list byte) TrustEntry) : Prop := es' !! reference = Some published ∧ vacant (es !! reference).
Lemma elsewhere_trans a c d : elsewhere a c → elsewhere c d → elsewhere a d.
Proof. unfold elsewhere. intros H1 H2 n ? ?. rewrite H2, H1 by done. done. Qed.
(** Writing in the temporary directory. *)
Lemma put_file_temp file content es es' :
  put_file temp file content es = Some es' → elsewhere es es' ∧ es' !! reference = es !! reference.
Proof.
  unfold put_file. destruct (es !! temp) as [[files|]|]; [|done..]. destruct (files !! file); [done|]. intros [= <-].
  split; [intros n ? ?; by rewrite lookup_insert_ne|]. rewrite lookup_insert_ne; [done|]. apply temp_apart.
Qed.
Lemma write_temp_ends file content w r w' es files :
  ft_root w = Some es → es !! temp = Some (TrustDir files) → files !! file = None →
  write_synced_owner_file temp file content w = (r, w') →
  ∃ es', ft_root w' = Some es' ∧ elsewhere es es' ∧ es' !! reference = es !! reference
    ∧ (r = Ok () → es' !! temp = Some (TrustDir (<[file := content]> files))).
Proof.
  intros Hes Ht Hf H. apply trust_call_ends with (es := es) in H as [(-> & es' & He & Hw)|(-> & [Hw|(n & stays & Hw)])]; [| |..|done].
  - exists es'. destruct (put_file_temp _ _ _ _ He). split_and!; try done. intros _. unfold put_file in He. rewrite Ht, Hf in He.
    injection He as <-. by rewrite lookup_insert_eq.
  - by exists es.
  - eexists. split; [done|]. destruct n as [k|]; [|done]. destruct (put_file temp file (take k content) es) as [es'|] eqn:E; [|done].
    cbn [default]. by destruct (put_file_temp _ _ _ _ E).
Qed.
Lemma publish_bundle_ends w r w' es :
  ft_root w = Some es → es !! temp = Some (TrustDir ∅) → publish_bundle b w = (r, w') →
  ∃ es', ft_root w' = Some es' ∧ elsewhere es es'
    ∧ match r with
      | Ok _ => now_published es es'
      | Err _ => es' !! reference = es !! reference ∨ now_published es es'
      end.
Proof.
  intros Hes Ht. unfold publish_bundle. cbv zeta.
  destruct (write_synced_owner_file temp ROOTS _ w) as [r1 w1] eqn:E1.
  destruct (write_temp_ends _ _ _ _ _ _ _ Hes Ht (lookup_empty _) E1) as (es1 & H1 & O1 & R1 & T1).
  destruct r1 as [[]|e]; [|intros [= <- <-]; exists es1; eauto]. specialize (T1 eq_refl).
  destruct (write_synced_owner_file temp TRUST_METADATA _ w1) as [r2 w2] eqn:E2.
  destruct (write_temp_ends _ _ _ _ _ _ _ H1 T1 (lookup_insert_ne _ ROOTS TRUST_METADATA _ ltac:(done)) E2) as (es2 & H2 & O2 & R2 & T2).
  apply (elsewhere_trans _ _ _ O1) in O2. rewrite R1 in R2.
  destruct r2 as [[]|e]; [|intros [= <- <-]; exists es2; eauto]. specialize (T2 eq_refl).
  destruct (sync_directory w2) as [r3 w3] eqn:E3. apply trust_call_ends with (es := es2) in E3; [|done].
  assert (H3 : ft_root w3 = Some es2) by (destruct E3 as [(_ & ? & [= <-] & ?)|(_ & [?|(? & ? & ?)])]; done).
  destruct r3 as [[]|e]; [|intros [= <- <-]; exists es2; eauto].
  destruct (rename_entry temp reference w3) as [r4 w4] eqn:E4. apply trust_call_ends with (es := es2) in E4; [|done].
  assert (Hren : ∃ es4, ft_root w4 = Some es4 ∧ elsewhere es es4 ∧ if is_ok r4 then now_published es es4
                        else es4 !! reference = es !! reference).
  { destruct E4 as [(-> & es4 & He & H4)|(-> & [H4|(? & ? & H4)])]; [|by exists es2..].
    assert (Es : es4 = <[reference := published]> (delete temp es2) ∧ vacant (es2 !! reference)).
    { rewrite T2 in He. unfold vacant. destruct (es2 !! reference) as [[files|]|]; [case_bool_decide|..]; simplify_eq; eauto. }
    destruct Es as [Es Hv]. rewrite R2 in Hv. exists es4. subst es4. split_and!; [done| |]; [|split; [by rewrite lookup_insert_eq|done]].
    intros n Hn1 Hn2. rewrite lookup_insert_ne, lookup_delete_ne by done. by apply O2. }
  destruct Hren as (es4 & H4 & O4 & R4). destruct r4 as [[]|e].
  2: { intros [= <- <-]. exists es4. eauto. }
  intros E5. apply trust_call_ends with (es := es4) in E5; [|done].
  destruct E5 as [(-> & ? & [= <-] & H5)|(-> & [H5|(? & ? & H5)])]; exists es4; eauto.
Qed.
Lemma create_ends w r w' :
  file_create_trust_bundle b w = (r, w') →
  elsewhere (trust_entries w) (trust_entries w')
  ∧ (is_ok r = false ∧ trust_entries w' !! reference = trust_entries w !! reference
     ∨ now_published (trust_entries w) (trust_entries w') ∧ sha256 (vt_encoded_material b) = tb_content_sha256 (vt_metadata b)).
Proof.
  unfold file_create_trust_bundle. case_bool_decide as Hsha; cbn [negb]; [|intros [= <- <-]; split; [by intros ?|by left]].
  destruct (create_root w) as [r1 w1] eqn:E1. apply create_root_ends in E1 as [H1 T1].
  destruct r1 as [[]|e]; [specialize (H1 eq_refl)|intros [= <- <-]; rewrite T1; split; [by intros ?|by left]].
  destruct (entry_metadata reference w1) as [r2 w2] eqn:E2. apply entry_metadata_root in E2 as [R2 _]. rewrite H1 in R2.
  assert (T2 : trust_entries w2 = trust_entries w) by (unfold trust_entries at 1; by rewrite R2).
  intros H. assert (Hrest : r = Err (AppError_new TrustBundleAlreadyExists "trust bundle reference already exists") ∧ w' = w2 ∨
      (let! _, w := create_entry temp w2 in
      match publish_bundle b w with (Ok _, w) => (Ok (), w) | (Err e, w) => (Err e, (remove_entry temp w).2) end) = (r, w')).
  { destruct r2 as [[e|]|]; [left; by injection H as <- <-|by right..]. }
  clear H. destruct Hrest as [[-> ->]|Hrest]; [rewrite T2; split; [by intros ?|by left]|].
  revert Hrest. destruct (create_entry temp w2) as [r3 w3] eqn:E3. apply trust_call_ends with (es := trust_entries w) in E3; [|done].
  destruct E3 as [(-> & es3 & He & H3)|(-> & H3)].
  2: { intros [= <- <-]. assert (trust_entries w3 = trust_entries w) as -> by (unfold trust_entries at 1; destruct H3 as [-> |(? & ? & ->)]; done).
       split; [by intros ?|by left]. }
  destruct (trust_entries w !! temp) eqn:Et; [done|]. injection He as <-.
  assert (O3 : elsewhere (trust_entries w) (<[temp := TrustDir ∅]> (trust_entries w))) by (intros n ? ?; by rewrite lookup_insert_ne).
  assert (N3 : <[temp := TrustDir ∅]> (trust_entries w) !! reference = trust_entries w !! reference) by (rewrite lookup_insert_ne; [done|apply temp_apart]).
  destruct (publish_bundle b w3) as [r4 w4] eqn:E4.
  destruct (publish_bundle_ends _ _ _ _ H3 (lookup_insert_eq _ _ _) E4) as (es4 & H4 & O4 & R4). apply (elsewhere_trans _ _ _ O3) in O4. unfold now_published in R4. rewrite N3 in R4.
  assert (T4 : trust_entries w4 = es4) by (unfold trust_entries; by rewrite H4).
  destruct r4; [intros [= <- <-]; rewrite T4; split; [done|right; done]|]. intros [= <- <-].
  destruct (remove_entry temp w4) as [r5 w5] eqn:E5. cbn [snd]. apply trust_call_ends with (es := es4) in E5; [|done].
  assert (T5 : ∀ n, n ≠ temp → trust_entries w5 !! n = es4 !! n).
  { intros n Hnt. unfold trust_entries. destruct E5 as [(_ & es5 & He & ->)|(_ & [-> |(? & stays & ->)])]; unfold default; cbn [from_option id]; [|done|].
    - destruct (es4 !! temp); [|done]. injection He as <-. by rewrite lookup_delete_ne.
    - by rewrite lookup_alter_ne. }
  split; [intros n Hn1 Hn2; rewrite T5 by done; by apply O4|]. unfold now_published.
  rewrite T5 by apply not_eq_sym, temp_apart. destruct R4 as [R4|R4]; [by left|by right].
Qed.
Lemma published_loads w :
  bundle_ok (vt_metadata b) → ft_outcomes w = [] → trust_entries w !! reference = Some published → sha256 (vt_encoded_material b) = tb_content_sha256 (vt_metadata b) →
  len (vt_encoded_material b) ≤ 384 * 1024 → (file_load_trust_bundle reference w).1 = Ok (Some b).
Proof.
  intros Hb Ho He Hs Hl. destruct (metadata_fits _ Hb) as [Hm Hu].
  unfold file_load_trust_bundle, entry_metadata, read_owner_file_nofollow, trust_io. rewrite Ho. rewrite He. cbn [published]. rewrite Ho, He.
  cbn [published]. rewrite lookup_insert_eq. rewrite (proj2 (N.ltb_ge _ _) Hm). cbn [decode_metadata]. unfold decode_metadata. rewrite Hu, trust_metadata_roundtrip by done.
  rewrite bool_decide_true by done. cbn [negb]. rewrite Ho, He. cbn [published]. rewrite lookup_insert_ne, lookup_insert_eq by done.
  rewrite (proj2 (N.ltb_ge _ _) Hl). rewrite bool_decide_true by done. cbn. by destruct b.
Qed.
End publish.

(** ** Histories *)
(** The store when every call succeeds again, and the bundle it then yields. *)
Definition at_rest (w : FileTrustBundleStore) : FileTrustBundleStore := {| ft_root := ft_root w; ft_outcomes := [] |}.
Definition yields {SH : Sha256} (w : FileTrustBundleStore) (reference : list byte) (b : ValidatedTrustBundle) : Prop :=
  (file_load_trust_bundle reference (at_rest w)).1 = Ok (Some b).
Lemma yields_entry {SH : Sha256} w w' reference b :
  trust_entries w' !! reference = trust_entries w !! reference → yields w reference b → yields w' reference b.
Proof.
  intros He. unfold yields, file_load_trust_bundle, entry_metadata, read_owner_file_nofollow, trust_io, at_rest, trust_entries in *.
  cbn [ft_outcomes ft_root]. rewrite He. destruct (default ∅ (ft_root w) !! reference) as [[files|]|] eqn:E; [|done..].
  cbn [ft_outcomes ft_root]. rewrite ?E, ?He. destruct (files !! TRUST_METADATA) as [content|]; [|done]. destruct (4096 <? len content); [done|].
  destruct (decode_metadata content); [|done]. destruct (negb _); [done|]. cbn [ft_outcomes ft_root]. rewrite ?E, ?He.
  destruct (files !! ROOTS) as [material|]; [|done]. destruct (_ <? len material); [done|]. by destruct (negb _).
Qed.
Lemma yields_occupied {SH : Sha256} w reference b : yields w reference b → ¬ vacant (trust_entries w !! reference).
Proof.
  intros Hy Hv. revert Hy. unfold yields, file_load_trust_bundle, entry_metadata, read_owner_file_nofollow, trust_io, at_rest, trust_entries in *.
  cbn [ft_outcomes ft_root]. destruct Hv as [E|E]; rewrite E; [done|]. cbn [ft_outcomes ft_root]. rewrite ?E. done.
Qed.

Section history.
  Context {SH : Sha256} {SL : Sha256Laws} {CP : CertificateParser} {E : Type} `{!TrustBundleEventSink E}.

Lemma check_sections_count sections decoded l l' :
  len l ≤ 32 → check_sections sections decoded l = Ok l' → len l' ≤ 32.
Proof.
  revert decoded l. induction sections as [|[[[] c]|] sections IH]; intros decoded l Hl; cbn [check_sections]; [by intros [= <-]| |done|done].
  cbn [negb]. destruct (USIZE_MAX <? _); [done|]. destruct ((256 * 1024 <? decoded + len c) || (32 <=? len l)) eqn:Eb; [done|].
  apply orb_false_iff in Eb as [_ Eb]. apply N.leb_gt in Eb. case_bool_decide; [done|]. destruct (certificate_is_ca c) as [[]|]; [|done..].
  apply IH. unfold len in *. rewrite length_app. cbn [length]. lia.
Qed.
Lemma validated_ok reference material imported_at b :
  TrustBundleRef_parse reference = Ok reference → imported_at ≤ U64_MAX →
  rustls_validate_trust_bundle reference material imported_at = Ok b →
  bundle_ok (vt_metadata b) ∧ tb_ref (vt_metadata b) = reference ∧ vt_encoded_material b = material ∧ len material ≤ 384 * 1024
  ∧ tb_content_sha256 (vt_metadata b) = sha256 material.
Proof.
  intros Hr Hi. unfold rustls_validate_trust_bundle. case_bool_decide; [done|]. destruct (384 * 1024 <? len material) eqn:El; [done|].
  destruct (check_sections (pem_sections material) 0 []) as [l|] eqn:Ec; [|done]. case_bool_decide as Hn; [done|]. intros [= <-].
  apply N.ltb_ge in El. apply check_sections_count in Ec as Hc; [|by vm_compute]. assert (1 ≤ len l) by (destruct l; [done|unfold len; cbn [length]; lia]).
  split_and!; try done. split; cbn [tb_ref tb_certificate_count tb_imported_at_epoch_seconds tb_content_sha256 vt_metadata]; [done| |done|apply sha256_length].
  rewrite N.mod_small by lia. lia.
Qed.
(** An import, with or without faults, leaves the other bundles alone and never changes one that is there. *)
Lemma import_keeps input store (events : E) reference b :
  TrustBundleRef_parse (ti_ref input) = Ok (ti_ref input) → TrustBundleRef_parse reference = Ok reference →
  ti_imported_at_epoch_seconds input ≤ U64_MAX → yields store reference b →
  yields (import_trust_bundle (V := ()) input ((), store, events)).2.1.2 reference b.
Proof.
  intros Hi Hr Ht Hy. unfold import_trust_bundle, validate_trust_bundle, rustls_validator. destruct (_ <? _); [done|].
  destruct (rustls_validate_trust_bundle _ _ _) as [v|e] eqn:Ev; [|done]. apply validated_ok in Ev as ([Hp _ _ _] & Eref & _); [|done..].
  cbn [store_create file_trust_bundles]. destruct (file_create_trust_bundle v store) as [r store'] eqn:Ec.
  apply create_ends in Ec as [Ho Hc]; [|done]. assert (Hst : trust_entries store' !! reference = trust_entries store !! reference).
  { destruct (decide (reference = tb_ref (vt_metadata v))) as [-> |Hne].
    - destruct Hc as [[_ ?]|[[_ Hv] _]]; [done|]. by destruct (yields_occupied _ _ _ Hy).
    - apply Ho; [done|]. intros ->. destruct (ref_facts _ Hr) as (_ & _ & _ & _ & Hh). by apply Hh. }
  destruct r; cbn [snd fst]; by eapply yields_entry.
Qed.
(** An import that succeeds can be loaded; one that fails changed nothing, or can be loaded all the same. *)
Lemma import_ends input store (events : E) :
  TrustBundleRef_parse (ti_ref input) = Ok (ti_ref input) → ti_imported_at_epoch_seconds input ≤ U64_MAX →
  let '(r, (_, store', _)) := import_trust_bundle (V := ()) input ((), store, events) in
  match r with
  | Ok metadata => yields store' (ti_ref input) {| vt_metadata := metadata; vt_encoded_material := ti_encoded_material input |}
  | Err _ => trust_entries store' !! ti_ref input = trust_entries store !! ti_ref input
             ∨ ∃ metadata, yields store' (ti_ref input) {| vt_metadata := metadata; vt_encoded_material := ti_encoded_material input |}
  end.
Proof.
  intros Hi Ht. unfold import_trust_bundle, validate_trust_bundle, rustls_validator. destruct (_ <? _); [by left|].
  destruct (rustls_validate_trust_bundle _ _ _) as [v|e] eqn:Ev; [|by left]. apply validated_ok in Ev as (Hb & Eref & Em & El & Es); [|done..].
  cbn [store_create file_trust_bundles]. destruct (file_create_trust_bundle v store) as [r store'] eqn:Ec.
  apply create_ends in Ec as [_ Hc]; [|by rewrite Eref]. rewrite <-Eref, <-Em.
  assert (Hy : now_published v (trust_entries store) (trust_entries store') →
    yields store' (tb_ref (vt_metadata v)) {| vt_metadata := vt_metadata v; vt_encoded_material := vt_encoded_material v |}).
  { intros [Hp _]. replace {| vt_metadata := vt_metadata v; vt_encoded_material := vt_encoded_material v |} with v by (by destruct v).
    unfold yields. apply published_loads; try done.
    all: by rewrite Em || by rewrite Eref || by rewrite Es, Em. }
  destruct r, Hc as [[? ?]|[Hp _]]; try done; [by apply Hy|by left|right; eexists; by apply Hy].
Qed.

Inductive TrustOp :=
| OpImport (input : ImportTrustBundleInput)
| OpDelete (reference : list byte) (retained : result AppError (list ConfigSnapshot)).
#[local] Instance retained_list : RetainedConfigSnapshots (result AppError (list ConfigSnapshot)) := λ r, r.
Definition trust_step (w : FileTrustBundleStore * E) (op : TrustOp) : FileTrustBundleStore * E :=
  match op with
  | OpImport input => let '(_, (_, store, events)) := import_trust_bundle (V := ()) input ((), w.1, w.2) in (store, events)
  | OpDelete reference retained => (delete_trust_bundle reference retained w).2
  end.
Definition trust_run (ops : list TrustOp) (w : FileTrustBundleStore * E) : FileTrustBundleStore * E := foldl trust_step w ops.
(** A revision uses the bundle: a listener authenticates its clients with it, or an upstream is
    authenticated with it. *)
Definition uses_bundle (reference : list byte) (s : ConfigSnapshot) : Prop :=
  (∃ l, l ∈ snap_listeners s ∧ listener_client_auth l = ClientAuthRequired reference)
  ∨ ∃ service upstream server_name http_host, service ∈ snap_services s ∧ upstream ∈ svc_upstreams service
      ∧ up_tls upstream = TlsServerAuthenticated server_name http_host reference.
Lemma use_is_found reference s snapshots :
  s ∈ snapshots → uses_bundle reference s → existsb (snapshot_refers reference) snapshots = true.
Proof.
  intros Hs Hu. apply existsb_exists. exists s. split; [by apply list_elem_of_In|]. unfold snapshot_refers. apply orb_true_iff.
  destruct Hu as [(l & Hl & Ha)|(service & u & n & h & Hsv & Hup & Ht)]; [left|right]; apply existsb_exists.
  - exists l. split; [by apply list_elem_of_In|]. unfold listener_refers. rewrite Ha. by apply bool_decide_eq_true.
  - exists service. split; [by apply list_elem_of_In|]. apply existsb_exists. exists u. split; [by apply list_elem_of_In|].
    unfold upstream_refers. rewrite Ht. by apply bool_decide_eq_true.
Qed.
(** The values have their types, and while the bundle might be deleted some retained revision refers to it. *)
Definition step_keeps (reference : list byte) (op : TrustOp) : Prop :=
  match op with
  | OpImport input => TrustBundleRef_parse (ti_ref input) = Ok (ti_ref input) ∧ ti_imported_at_epoch_seconds input ≤ U64_MAX
  | OpDelete other retained =>
      other = reference → ∀ snapshots, retained = Ok snapshots → ∃ s, s ∈ snapshots ∧ uses_bundle reference s
  end.
Lemma delete_keeps other retained store (events : E) reference b :
  step_keeps reference (OpDelete other retained) → yields store reference b → yields (delete_trust_bundle other retained (store, events)).2.1 reference b.
Proof.
  intros Hk Hy. unfold delete_trust_bundle, retained_config_snapshots, retained_list. destruct retained as [snapshots|e]; [|done].
  destruct (existsb (snapshot_refers other) snapshots) eqn:Er; [done|].
  destruct (decide (other = reference)) as [-> |Hne].
  { destruct (Hk eq_refl snapshots eq_refl) as (s & Hs & Hu). by rewrite (use_is_found _ _ _ Hs Hu) in Er. }
  cbn [store_delete file_trust_bundles]. destruct (file_delete_trust_bundle other store) as [r store'] eqn:Ed.
  assert (He : trust_entries store' !! reference = trust_entries store !! reference).
  { revert Ed. unfold file_delete_trust_bundle. destruct (entry_metadata other store) as [r1 w1] eqn:E1. apply entry_metadata_root in E1 as [R1 V1].
    assert (T1 : trust_entries w1 = trust_entries store) by (unfold trust_entries; by rewrite R1).
    destruct r1 as [[[files|]|]|e]; try (intros [= <- <-]; by rewrite T1). intros E2. specialize (V1 _ eq_refl).
    destruct (ft_root store) as [es|] eqn:Es; [|unfold trust_entries in V1; rewrite Es in V1; done].
    assert (Te : trust_entries store = es) by (unfold trust_entries; by rewrite Es). rewrite Te.
    apply trust_call_ends with (es := es) in E2; [|done]. unfold trust_entries.
    destruct E2 as [(_ & es' & He & ->)|(_ & [-> |(? & stays & ->)])]; unfold default; cbn [from_option id]; [|done|by rewrite lookup_alter_ne].
    destruct (es !! other); [|done]. injection He as <-. by rewrite lookup_delete_ne. }
  destruct r; cbn [snd fst]; by eapply yields_entry.
Qed.
Lemma run_keeps ops store (events : E) reference b :
  TrustBundleRef_parse reference = Ok reference → Forall (step_keeps reference) ops → yields store reference b →
  yields (trust_run ops (store, events)).1 reference b.
Proof.
  intros Hr. revert store events. induction ops as [|op ops IH]; intros store events; [done|]. intros [Ho Hops]%Forall_cons Hy.
  cbn [trust_run foldl]. destruct (trust_step (store, events) op) as [store' events'] eqn:Es. apply IH; [done|].
  destruct op as [input|other retained]; cbn [trust_step fst snd] in Es.
  - pose proof (import_keeps input store events reference b (proj1 Ho) Hr (proj2 Ho) Hy) as H.
    destruct (import_trust_bundle _ _) as [r [[v s'] e']]. by injection Es as <- <-.
  - pose proof (delete_keeps other retained store events reference b Ho Hy) as H. by rewrite Es in H.
Qed.

(** C23: a trust bundle imported under a well-formed name stays as it was imported.  Whatever calls of the file system fail,
    then and later, and whatever is imported and deleted afterwards: as long as, whenever its deletion
    is asked for, some retained revision uses it (a listener that authenticates its clients with it, or
    an upstream that is authenticated with it) or the retained revisions cannot be read, loading it,
    once calls succeed again, yields the material of the import and the metadata that was reported. *)
Theorem imported_bundle_stays input store (events : E) metadata store' events' ops :
  TrustBundleRef_parse (ti_ref input) = Ok (ti_ref input) → ti_imported_at_epoch_seconds input ≤ U64_MAX →
  import_trust_bundle (V := ()) input ((), store, events) = (Ok metadata, ((), store', events')) →
  Forall (step_keeps (ti_ref input)) ops →
  yields (trust_run ops (store', events')).1 (ti_ref input) {| vt_metadata := metadata; vt_encoded_material := ti_encoded_material input |}.
Proof.
  intros Hr Hi Himp Hops. pose proof (import_ends input store events Hr Hi) as H. rewrite Himp in H. by apply run_keeps.
Qed.
End history.

(** ** What an interrupted import leaves *)
Lemma temp_longer reference : temp_dir reference ≠ reference.
Proof.
  intros E%(f_equal length). unfold temp_dir in E. rewrite !length_app in E. cbn in E. lia.
Qed.
Lemma read_bundles_stuck name files names w :
  ft_outcomes w = [] → trust_entries w !! name = Some (TrustDir files) → files !! TRUST_METADATA = None → name ∈ names →
  ∃ e, (read_bundles names w).1 = Err e.
Proof.
  intros Ho He Hf. induction names as [|n names IH]; [by intros ?%elem_of_nil|]. intros Hin. cbn [read_bundles].
  unfold entry_metadata, trust_io. rewrite Ho. unfold read_owner_file_nofollow, trust_io. rewrite Ho.
  destruct (decide (n = name)) as [-> |Hn]; [rewrite He, Hf; by eexists|]. destruct (trust_entries w !! n) as [[fs|]|]; [|by eexists..].
  destruct (fs !! TRUST_METADATA) as [content|]; [|by eexists]. destruct (4096 <? len content); [by eexists|].
  destruct (decode_metadata content); [|by eexists]. destruct IH as [e IH]; [by apply elem_of_cons in Hin as [?|?]|].
  destruct (read_bundles names w) as [[|] ?]; [done|by eexists].
Qed.

(** The directory that an interrupted import leaves behind is never cleared.  While it is there, even
    when every call of the file system succeeds, no bundle can be listed, the import cannot be repeated, and
    deleting the bundle, which reports success, does not remove it. *)
Theorem leftover_import_blocks {SH : Sha256} reference store es files :
  ft_root store = Some es → ft_outcomes store = [] → es !! reference = None →
  es !! temp_dir reference = Some (TrustDir files) → files !! TRUST_METADATA = None →
  (∃ e, (file_list_trust_bundles store).1 = Err e)
  ∧ (∀ b, tb_ref (vt_metadata b) = reference →
      (∃ e, (file_create_trust_bundle b store).1 = Err e) ∧ ft_root (file_create_trust_bundle b store).2 = Some es)
  ∧ file_delete_trust_bundle reference store = (Ok (), store).
Proof.
  intros Hr Ho Hn Ht Hf. assert (He : trust_entries store = es) by (unfold trust_entries; by rewrite Hr). split_and!.
  - unfold file_list_trust_bundles, read_root, trust_call, trust_io. rewrite Ho, Hr. rewrite Ho, Hr.
    apply (read_bundles_stuck (temp_dir reference) files); [done| |done|].
    + unfold trust_entries, set_entries. by cbn [ft_root default from_option id].
    + rewrite merge_sort_Permutation, elem_of_elements, elem_of_dom. unfold trust_entries, set_entries. cbn [ft_root default from_option id].
      by eexists.
  - intros b <-. unfold file_create_trust_bundle. case_bool_decide; cbn [negb]; [|by split; [eexists|]].
    unfold create_root, entry_metadata, create_entry, trust_call, trust_io. rewrite Ho. cbn [set_entries ft_outcomes]. rewrite Ho.
    rewrite He. unfold trust_entries, set_entries. cbn [ft_root ft_outcomes default from_option id]. rewrite Hn, Ho. cbn [ft_root ft_outcomes].
    rewrite Ht. by split; [eexists|].
  - unfold file_delete_trust_bundle, entry_metadata, trust_io. by rewrite Ho, He, Hn.
Qed.

(** ** Samples *)
(** Every text is one certificate of an authority; the events are kept in a list, the newest first. *)
Definition sample_parser : CertificateParser := {| pem_sections := λ text, [Some (true, text)]; certificate_is_ca := λ _, Some true |}.
Definition sample_events : TrustBundleEventSink (list TrustBundleOperationEvent) :=
  {| record_trust_product_event := cons; record_trust_audit_event := cons |}.
#[local] Existing Instances sample_parser sample_events sample_sha.
Definition sample_import (reference : list byte) : ImportTrustBundleInput :=
  {| ti_request_id := lit "req"; ti_ref := reference; ti_encoded_material := lit "certificate of " ++ reference; ti_imported_at_epoch_seconds := 7 |}.
Definition empty_store (outcomes : list TrustIo) : FileTrustBundleStore := {| ft_root := None; ft_outcomes := outcomes |}.
Definition import_into (reference : list byte) (store : FileTrustBundleStore) : result AppError TrustBundleMetadata * FileTrustBundleStore :=
  let '(r, (_, store, _)) := import_trust_bundle (V := ()) (sample_import reference) ((), store, []) in (r, store).
(** A revision whose service authenticates its upstream with the bundle, and one with a listener that
    authenticates its clients with it. *)
Definition referring_snapshot (reference : list byte) : ConfigSnapshot :=
  twin_snapshot
    [{| svc_id := lit "s";
        svc_upstreams := [{| up_id := lit "a"; up_url := lit "https://10.0.0.1"; up_administrative_state := AdminActive;
                             up_tls := TlsServerAuthenticated (lit "example.com") (lit "example.com") reference |}];
        svc_policy := ServicePolicy_default |}].
Definition listening_snapshot (reference : list byte) : ConfigSnapshot :=
  let s := twin_snapshot [] in
  {| snap_schema_version := snap_schema_version s; snap_revision_id := snap_revision_id s; snap_admin := snap_admin s;
     snap_listeners := [{| listener_id := lit "l"; listener_bind := lit "0.0.0.0:443"; listener_protocol := ProtocolHttps;
                           listener_client_auth := ClientAuthRequired reference |}];
     snap_routes := []; snap_services := []; snap_certificate_resolvers := []; snap_log_mode := snap_log_mode s;
     snap_runtime := snap_runtime s |}.
Definition no_file : TrustIo := TrustFails None (λ _, true).
(** After the import: the lookup of an import of the same name fails, so that only the rename stops it; a
    deletion is refused twice; another bundle is imported, cut off while it is written, and one is deleted. *)
Definition sample_outcomes : list TrustIo := replicate 8 TrustDone ++ [TrustDone; no_file] ++ replicate 9 TrustDone ++ [TrustFails (Some 3%nat) (λ _, true)].
Definition sample_ops : list TrustOp :=
  [OpImport (sample_import (lit "roots")); OpDelete (lit "roots") (Ok [referring_snapshot (lit "roots")]);
   OpDelete (lit "roots") (Ok [twin_snapshot []; listening_snapshot (lit "roots")]);
   OpImport (sample_import (lit "other")); OpDelete (lit "other") (Ok [referring_snapshot (lit "roots")])].
Definition first_import : result AppError TrustBundleMetadata * (() * FileTrustBundleStore * list TrustBundleOperationEvent) :=
  import_trust_bundle (V := ()) (sample_import (lit "roots")) ((), empty_store sample_outcomes, []).
Lemma imported_bundle_stays_witness :
  map te_outcome (trust_run sample_ops (first_import.2.1.2, first_import.2.2)).2
  = ["success"; "success"; "failure"; "failure"; "rejected"; "rejected"; "rejected"; "rejected"; "failure"; "failure"; "success"; "success"]%string
  ∧ ∃ metadata store events,
      first_import = (Ok metadata, ((), store, events))
      ∧ yields (trust_run sample_ops (store, events)).1 (ti_ref (sample_import (lit "roots")))
          {| vt_metadata := metadata; vt_encoded_material := ti_encoded_material (sample_import (lit "roots")) |}.
Proof.
  split; [vm_compute; reflexivity|].
  destruct first_import as [[metadata|e] [[[] store] events]] eqn:E; [|vm_compute in E; discriminate E].
  exists metadata, store, events. split; [done|].
  assert (Hops : Forall (step_keeps (ti_ref (sample_import (lit "roots")))) sample_ops).
  { repeat (apply Forall_cons; split); [by vm_compute| | |by vm_compute| |apply Forall_nil; done].
    - intros _ snapshots [= <-]. eexists. split; [by left|]. right. eexists _, _, _, _. split_and!; [by left|by left|done].
    - intros _ snapshots [= <-]. eexists. split; [right; by left|]. left. eexists. split; [by left|done].
    - by intros [=]. }
  assert (H1 : TrustBundleRef_parse (ti_ref (sample_import (lit "roots"))) = Ok (ti_ref (sample_import (lit "roots")))) by by vm_compute.
  assert (H2 : ti_imported_at_epoch_seconds (sample_import (lit "roots")) ≤ U64_MAX) by by vm_compute.
  exact (imported_bundle_stays (SL := sample_sha_laws) (sample_import (lit "roots")) (empty_store sample_outcomes) [] metadata store events sample_ops H1 H2 E Hops).
Defined.

(** A second import is cut off while its material is written, and clearing up fails. *)
Definition cut_store : FileTrustBundleStore :=
  (import_into (lit "other") (import_into (lit "roots") (empty_store (replicate 11 TrustDone ++ [TrustFails (Some 3%nat) (λ _, true); no_file]))).2).2.
Lemma leftover_import_blocks_witness :
  (∃ m, (file_list_trust_bundles (import_into (lit "roots") (empty_store [])).2).1 = Ok [m])
  ∧ (∃ e, (file_list_trust_bundles cut_store).1 = Err e)
  ∧ file_delete_trust_bundle (lit "other") cut_store = (Ok (), cut_store).
Proof.
  split; [eexists; vm_compute; reflexivity|].
  destruct (leftover_import_blocks (lit "other") cut_store (trust_entries cut_store) {[ROOTS := lit "cer"]}) as (H1 & _ & H3);
    [apply (bool_decide_unpack _); vm_compute; exact I|vm_compute; reflexivity|apply (bool_decide_unpack _); vm_compute; exact I..|]. by split.
Defined.

(** Nothing bounds the number of imports: one more than the limit is accepted, and then none can be listed. *)
Fixpoint numbered (n : nat) : list (list byte) :=
  match n with O => [] | Datatypes.S n => (lit "b" ++ print_dec (N.of_nat n)) :: numbered n end.
Definition import_all (references : list (list byte)) (store : FileTrustBundleStore) : bool * FileTrustBundleStore :=
  foldr (λ reference '(ok, store), let '(r, store) := import_into reference store in (match r with Ok _ => ok | Err _ => false end, store))
    (true, store) references.
Definition crowded : bool * FileTrustBundleStore := import_all (numbered 129) (empty_store []).
Lemma too_many_bundles :
  (crowded.1, (list_trust_bundles crowded.2).1)
  = (true, Err (AppError_new TrustBundleLimitExceeded "managed trust bundle limit exceeded")).
Proof. vm_compute. reflexivity. Qed.
(** The last sync fails: the import reports a failure, and the bundle is there. *)
Definition unsynced : result AppError TrustBundleMetadata * FileTrustBundleStore :=
  import_into (lit "roots") (empty_store (replicate 7 TrustDone ++ [no_file])).
Lemma failed_import_is_there :
  (unsynced.1, (import_into (lit "roots") (at_rest unsynced.2)).1)
  = (Err trust_bundle_store_error, Err (AppError_new TrustBundleAlreadyExists "trust bundle reference already exists")).
Proof. vm_compute. reflexivity. Qed.
